(* ===== verification/_CoqProject ===== *)
-Q . S2P
Prelude.v
Wire.v
Text.v
RtpCounter.v
JitterBuffer.v
Float.v
RtpSession.v
RtpSessionProps.v
RtpExtensions.v
StunHeader.v
StunMessage.v
StunAttr.v
StunAuth.v
Channels.v
StunEndpoint.v
StunEndpointProps.v
IceStun.v
IceAgent.v
IceProps.v
IceChecks.v
SipNames.v
SipParse.v
SipHeaders.v
SipFraming.v
SipMessages.v
SipUri.v
SipUriProps.v
SipTyped.v
SipTypedProps.v
SipAuth.v
SipAuthProps.v
SipDigest.v
SipDigestProps.v
SipKeys.v
SipTransactions.v
SipTimers.v
SipTimerProps.v
SipDialog.v
SipResolver.v
SipTransports.v
SipTransportsProps.v
SipStun.v
SipInvite.v
SipSamples.v
SipDialogProps.v
SipInviteProps.v
SipRegister.v
SdpFields.v
SdpFieldsProps.v
SdpAttributes.v
SdpAttributesProps.v
SdpCrypto.v
SdpCryptoProps.v
SdpSession.v
SdpSessionProps.v
SdpParsed.v
MediaKeys.v
MediaKeysProps.v
MediaTransport.v
Slots.v
MediaSession.v
MediaOffer.v
MediaToy.v
MediaTransportProps.v
MediaIce.v
MediaSessionProps.v
MediaIds.v
MediaOfferProps.v
