(* ===== verification/Prelude.v ===== *)
(** * A verification of the SIP, SDP, STUN, ICE and RTP layers of ezk

    The repository is a set of Rust crates for telephony over IP: the messages,
    transactions and user agent of SIP under [src/sip], and under [src/media]
    the session descriptions and the media sessions that negotiate them, the
    STUN messages and the ICE agent that find a path for the media, and the
    packets that go over it. This library translates the code into functions
    and proves what they do.

    ** How the code is translated

    - Rust's [Result] is [result], [Option] is [option]. A function that can
      panic gives [exec]: [Panic] is a failed [assert!], [unwrap], [expect],
      [unreachable!] or index. Theorems that a call gives [Ret] say that it does
      not panic.
    - Unsigned integers of [w] bits are [Z] with [uint w]; arithmetic that is not
      checked by the source wraps with [wrap w], as the release profile does.
    - Byte slices and strings are [list byte]; a [str] is its UTF-8 bytes.
    - An object with [&mut self] methods is a record, a method a function to the
      new record. An [async] function is the function of its inputs over time:
      of the messages with their times of arrival, and of the transport. A mutex
      makes a method one step; the systems of the registry and of INVITE
      sessions are step relations over such steps.
    - Traits of the code are classes: [Attribute] in StunMessage, [HeaderParse],
      [DecodeValues] and [ExtendValues] in SipHeaders.
    - Packages that are not in the repository are class parameters, each with
      a class of laws, their documented behaviour, and an instance
      that computes: [WireOps] (byteorder, bytes, bitfield), [Digest] (hmac,
      sha1, sha2), [SlotMap], [SortPairs] and [Foundation] of the ICE agent,
      [Nom] (tag_no_case), [Memchr], [UsageMap], [Ticks] (tokio's interval),
      [Combinators] and [MoreCombinators] (nom), [Percent] and [PercentCow] (percent-encoding), [Hashes]
      (md5, sha2), [Ip6Text] with [Ip6Colons] and [Ip6Range] (the text of
      IPv6 addresses of the standard library), [Unicode], [TimeCrate] (time) and
      [RtcpWriter] (rtcp-types) of the RTP session, and for media sessions
      [RtpTypes] (rtp-types), [Srtp] (srtp), [Base64], [Ssl] (openssl; a call is a
      program of reads and writes on the queue of the code), [Dns], [Slots]
      (slotmap) and [HashOrder] (the order of a HashMap). The transports and the
      STUN endpoint have [Oneshots] and [Mpsc] (the channels of tokio), [Hickory]
      (hickory_resolver), [MultiMap] and [UnstableSort]. What is only called
      and not relied on has no laws. Clocks and random numbers are arguments;
      [f32] and [f64] are the binary floating point numbers of SpecFloat.
    - The ICE agent is an interface of the media transport, [IceOps] with
      [IceLaws] in MediaTransport; MediaIce gives IceAgent as an instance.

    ** Files

    Shared: Prelude (outcomes, integers, bytes, lists), Wire (big-endian reading
    and writing), Text (UTF-8, ASCII, decimal numbers).

    Media: RtpCounter (media/rtp/src/lib.rs), JitterBuffer
    (session/jitter_buffer.rs), RtpExtensions (extensions.rs, rtp_packet.rs);
    StunHeader, StunMessage, StunAttr, StunAuth (stun-types: heads; the parser
    and builder; every attribute; FINGERPRINT and MESSAGE-INTEGRITY); IceStun
    (ice/src/stun.rs), IceAgent (ice/src/lib.rs), IceProps and IceChecks (the
    theorems about the agent). The agent calls the messages of IceStun, which
    are built and parsed by StunMessage with the attributes of StunAttr and
    StunAuth.
    SdpFields, SdpAttributes, SdpCrypto (sdp-types: the fields of a session
    description, its attributes, the keys of SRTP), SdpSession (the lines, the
    parser and the printer of descriptions), with their theorems in SdpFieldsProps,
    SdpAttributesProps, SdpCryptoProps, SdpSessionProps (what is read of a printed
    description) and SdpParsed (what holds of whatever is read). They use the
    parsers of SipParse and SipUri.
    Float and RtpSession (media/rtp: session/mod.rs, ntp_timestamp.rs), which gives
    each source of packets a JitterBuffer, and RtpSessionProps.
    MediaKeys (media/session: options.rs, transport/packet_kind.rs, sdes_srtp.rs,
    dtls_srtp.rs, rtp/extensions.rs), MediaTransport (transport/mod.rs, builder.rs,
    events.rs), MediaSession (lib.rs, codecs.rs, local_media.rs) and MediaOffer
    (sdp.rs); Slots (slot maps); their theorems in MediaKeysProps,
    MediaTransportProps, MediaSessionProps, MediaIds (the ids of media stay distinct)
    and MediaOfferProps; MediaIce (the agent of a transport) and MediaToy (an offerer and an answerer that compute). A session
    has media, each with an RtpSession, and transports, each with an agent;
    MediaOffer reads and makes descriptions of SdpSession.

    SIP: SipNames (header names, methods, codes), SipHeaders (the container of
    headers, lists of headers, parameters), SipFraming (messages in streams and
    datagrams), SipMessages (requests and responses, their bytes), SipParse
    (parsers, percent-encoding, internal/src/ws.rs), SipUri (hosts, parameters,
    URIs, addresses, request lines), SipTyped (the parser and printer of each
    typed header), SipUriProps and SipTypedProps (their theorems), SipAuth and
    SipAuthProps (challenges and answers of digest authentication), SipDigest
    and SipDigestProps (the authenticator of sip-auth), SipKeys (keys of transactions), SipTransactions (the registry and what the endpoint
    does with a message), SipTimers (the four transactions in time), SipTimerProps
    (their theorems), SipDialog (dialogs, their layer, session timers), SipInvite
    (INVITE sessions: the layer, acceptor, initiator, session and PRACK),
    SipSamples (parsers for the examples), SipDialogProps and SipInviteProps
    (theorems), SipRegister (registrations). A message goes from SipFraming through
    the endpoint of SipTransactions to a transaction or to the layers, first of
    which are those of SipDialog and SipInvite.

    Transports: Channels (oneshot and mpsc), StunEndpoint and StunEndpointProps
    (media/stun: requests that wait for their response, credentials), SipResolver
    (sip-core transport/resolver.rs), SipTransports and SipTransportsProps (mod.rs,
    managed.rs, streaming/mod.rs, tcp.rs, rustls.rs, udp.rs of the transports: the
    counters of handles, the map of connections, the task of each connection, the
    choice of a transport), SipStun (datagrams in udp.rs, stun_user.rs). A
    connection gives what SipFraming decodes to SipTransactions; [select] is the
    [select_transport] that the files on dialogs take as an argument.

    ** What the theorems show

    - Formats: a built STUN message parses to what was put in, sealed or not
      ([build_parse_roundtrip], [sealed_roundtrip]), and whatever parses can be
      read without a panic ([parsed_message_safe]); the CRC table is division
      ([crc32_bits]); a SIP message is taken out of a stream as it was sent
      ([stream_decodes_message], [response_arrives], [request_arrives]); URIs and
      most typed headers are read as they were printed ([uri_roundtrip],
      [typed_headers_read_back]); session descriptions are read as they were
      printed, or not at all, as [description_roundtrip] says of each; their lines
      only change the last media description ([description_scope]). A check of the
      agent is understood by the peer ([binding_request_understood]).
    - Containers: the jitter buffer refines a set of packets and delivers in
      order, and so does an RTP session for each source ([rtp_session_in_order]);
      headers are a multimap ([headers_multimap]).
    - Offers and answers: what becomes of each line of an offer, and the line of
      the answer ([answer_mirrors_offer]); both sides take the same
      payload type and opposite directions ([negotiation_agrees]); their
      transports have keys that agree, or opposite roles of DTLS
      ([transport_kinds_agree], [sdes_keys_agree]).
    - Authentication: the answers of the authenticator are those of RFC 7616,
      but for the session algorithms, and reach the server
      ([digest_answer_accepted], [digest_reuse]); which
      challenges are answered ([digest_rejection]); which answers a server
      refuses ([digest_answer_refused]).
    - Invariants over all reachable states: the ICE agent, unless RTCP multiplexing
      is turned on too late ([agent_invariant], [poll_total]), the authenticator
      ([digest_never_fails]), the registry of transactions ([registry_invariant],
      [endpoint_receive]), INVITE sessions, whose transaction answers once
      ([invite_answered_once]), and media sessions, whose media always have their
      transports ([session_keys_valid]).
    - Transports: in every interleaving of clones and drops of handles, lookups, new
      connections and iterations of the tasks, the map and the tasks agree
      ([connection_tasks]); when a connection is dropped ([connection_dropped],
      [unused_connection_closes]), which transport is selected ([select_transport])
      and which servers are tried ([resolve_host_servers]). STUN requests get their
      response ([stun_response_matched]), on a schedule ([stun_request_schedule]),
      and find the public address ([public_address_discovered]).
    - Protocol: how transaction keys compare with the matching of RFC 3261
      ([transaction_keys]); the schedules of the timers
      and their end; both ends of a dialog agree ([dialog_established],
      [in_dialog_request], [session_timers_agree]); nomination in ICE.
    - Where the code does not do what it means to, the theorem says what it does:
      requests that come early stay in the backlog for ever, the CSeq numbers
      skip after a refresh, the CANCEL of an initiator matches nothing, a BYE that
      comes early is answered as if it were the INVITE ([invite_answered_once]), bodies
      are lost with fragmented heads, some URIs are read as others
      ([uri_misread]), some descriptions are printed so that they cannot be read
      ([description_roundtrip], [lifetime_wraps]), of a video frame only the first
      packet is kept ([frame_reduced_to_first_packet]), sender reports are wrong
      ([all_or_nothing_lost], [report_timestamp_scaled_twice]), SIPS URIs go over
      connections without TLS ([sips_uri_over_tcp]), two requests to keep a connection
      alive can end it ([two_keep_alives_panic]), media cannot be
      removed ([removed_media_stays]), and inputs that panic
      ([peer_panics_session], [peer_panics_transport]: exactly which packets).

    ** Bounds and fuel

    Recursion on fuel is used where the code loops on its input: [parse_items],
    [decode] and the pull parser, with the length of the input; [span_chars],
    [decode_bytes] and the instance [complete] of nom's combinators, likewise;
    [collect] of the
    STUN attributes; [lines] of a head; [many0]. Each has a lemma that more fuel
    changes nothing, or that the loop ends ([collect_enough], [lines_total],
    [parse_attributes_enough]), and the theorems that a function gives a result
    use it. The loops over time end by [transactions_end]. The loop of a media
    transport over the events of its agent has the number of these events as
    fuel ([pop_ice_event_enough]).

    ** Not modelled

    The loops that call recv_from and accept, the sockets of media sessions in
    async_wrapper, connecting and TLS handshakes, what DNS answers, the timing of
    keep-alives of a connection (they come at any time), the builder of the endpoint:
    I/O of the runtime. The certificate that DTLS makes at random, what OpenSSL
    and libsrtp do, log messages, [Debug] output, the examples, and the
    macros that only generate what is modelled. The files on transactions and
    dialogs take the types of URIs, contacts and routes and their parsers as
    arguments; SipTyped gives them.
*)
From Stdlib Require Export ZArith Lia Strings.Byte.
From stdpp Require Export base numbers list sorting option list_numbers.
From stdpp Require countable.

#[export] Set Default Goal Selector "!".

(** ** Outcomes of Rust code

    [result] is Rust's [Result]; [exec] adds the outcome "the code panics"
    (a failed [assert!], [unwrap], [expect] or index). *)
Inductive result (E A : Type) : Type :=
| Ok (a : A)
| Err (e : E).
Arguments Ok {E A} a.
Arguments Err {E A} e.

Inductive exec (A : Type) : Type :=
| Ret (a : A)
| Panic.
Arguments Ret {A} a.
Arguments Panic {A}.

#[export] Instance exec_ret : MRet exec := fun A a => Ret a.
#[export] Instance exec_bind : MBind exec := fun A B f m =>
  match m with Ret a => f a | Panic => Panic end.

#[export] Instance result_ret E : MRet (result E) := fun A a => Ok a.
#[export] Instance result_bind E : MBind (result E) := fun A B f m =>
  match m with Ok a => f a | Err e => Err e end.

(** [Option::ok_or] *)
Definition ok_or {E A} (e : E) (o : option A) : result E A :=
  match o with Some a => Ok a | None => Err e end.

(** [Result::ok] *)
Definition result_ok {E A} (r : result E A) : option A :=
  match r with Ok a => Some a | Err _ => None end.

(** [Result::is_ok] *)
Definition is_ok {E A} (r : result E A) : bool :=
  match r with Ok _ => true | Err _ => false end.

(** [unwrap] / [expect] on an [Option] and a [Result] *)
Definition unwrap {A} (o : option A) : exec A :=
  match o with Some a => Ret a | None => Panic end.
Definition unwrap_res {E A} (r : result E A) : exec A :=
  match r with Ok a => Ret a | Err _ => Panic end.

Lemma exec_bind_ret {A B} (a : A) (f : A -> exec B) : (Ret a ≫= f) = f a.
Proof. done. Qed.

Lemma exec_bind_Ret_inv {A B} (m : exec A) (f : A -> exec B) b :
  (m ≫= f) = Ret b -> exists a, m = Ret a /\ f a = Ret b.
Proof. destruct m; cbn; eauto. discriminate. Qed.

Lemma unwrap_Ret {A} (o : option A) a : unwrap o = Ret a <-> o = Some a.
Proof. destruct o; cbn; split; congruence. Qed.

(** ** Machine integers

    An unsigned [w]-bit integer is a [Z] in [0, 2^w). Arithmetic that the
    source does without a checked operation wraps (the release profile);
    the bounds theorems show where no wrap can happen. *)
Definition wrap (w z : Z) : Z := (z mod 2 ^ w)%Z.
Definition uint (w z : Z) : Prop := (0 <= z < 2 ^ w)%Z.

#[export] Instance uint_dec w z : Decision (uint w z).
Proof. unfold uint. apply _. Defined.

Lemma wrap_uint w z : (0 <= w)%Z -> uint w (wrap w z).
Proof. intros. unfold uint, wrap. apply Z.mod_pos_bound. lia. Qed.

Lemma wrap_id w z : uint w z -> wrap w z = z.
Proof. apply Z.mod_small. Qed.

(** [u16::try_from] and the like: the value when it fits. *)
Definition try_from_uint {E} (w : Z) (e : E) (z : Z) : result E Z :=
  if decide (uint w z) then Ok z else Err e.

(** [saturating_sub] and [abs_diff] on unsigned integers *)
Definition saturating_sub (a b : Z) : Z := Z.max 0 (a - b).
Definition abs_diff (a b : Z) : Z := Z.abs (a - b).

(** ** Assignments to a field of a record

    [r <| f := v |>] is the record [r] with the field [f] set to [v]. A record
    that is assigned to has an instance of [Eta], which lists its fields. *)
Class Eta (R : Type) := eta : R -> R.

Ltac assign r f v :=
  let e := eval cbv beta delta [eta] in (eta r) in
  let e := eval red in e in
  match eval pattern (f r) in e with ?g _ => let e := eval cbv beta in (g v) in exact e end.

Notation "r '<|' f ':=' v '|>'" := (ltac:(assign r f v))
  (at level 1, f at level 1, v at level 99, left associativity, only parsing).

(** ** Bytes and big-endian integers *)
Definition byte_val (b : byte) : Z := Z.of_N (Byte.to_N b).

Definition byte_of (z : Z) : byte :=
  match Byte.of_N (Z.to_N (z mod 256)) with Some b => b | None => x00 end.

#[export] Instance byte_eq_dec : EqDecision byte := Byte.byte_eq_dec.

Lemma byte_val_range b : (0 <= byte_val b < 256)%Z.
Proof. unfold byte_val. pose proof (Byte.to_N_bounded b). lia. Qed.

Lemma byte_of_val b : byte_of (byte_val b) = b.
Proof.
  unfold byte_of, byte_val.
  rewrite Z.mod_small by (apply byte_val_range).
  by rewrite N2Z.id, Byte.of_to_N.
Qed.

Lemma byte_val_of z : byte_val (byte_of z) = (z mod 256)%Z.
Proof.
  unfold byte_val, byte_of.
  pose proof (Z.mod_pos_bound z 256 eq_refl) as Hb.
  destruct (Byte.of_N _) as [b|] eqn:E.
  - apply Byte.to_of_N in E. rewrite E. lia.
  - apply Byte.of_N_None_iff in E. lia.
Qed.

#[export] Instance byte_val_inj : Inj (=) (=) byte_val.
Proof. intros a b H. by rewrite <-(byte_of_val a), H, byte_of_val. Qed.

#[export] Instance byte_countable : countable.Countable byte := countable.inj_countable' byte_val byte_of byte_of_val.

(** Big-endian value of a byte string, and the [n]-byte encoding. *)
Definition be_val (l : list byte) : Z :=
  foldl (fun acc b => (acc * 256 + byte_val b)%Z) 0%Z l.

Fixpoint be_bytes (n : nat) (z : Z) : list byte :=
  match n with
  | O => []
  | S n => be_bytes n (z / 256) ++ [byte_of z]
  end.

Lemma be_val_snoc l b : be_val (l ++ [b]) = (be_val l * 256 + byte_val b)%Z.
Proof. unfold be_val. by rewrite foldl_app. Qed.

Lemma length_be_bytes n z : length (be_bytes n z) = n.
Proof. revert z; induction n; intros z; cbn; [done|]. rewrite length_app, IHn. cbn. lia. Qed.

Lemma be_val_bytes n z : be_val (be_bytes n z) = (z mod 256 ^ Z.of_nat n)%Z.
Proof.
  revert z; induction n as [|n IH]; intros z; cbn [be_bytes].
  - cbn. by rewrite Z.mod_1_r.
  - rewrite be_val_snoc, IH, byte_val_of, Nat2Z.inj_succ, Z.pow_succ_r by lia.
    rewrite Z.rem_mul_r by lia. lia.
Qed.

Lemma be_val_bytes_id n z : (0 <= z < 256 ^ Z.of_nat n)%Z -> be_val (be_bytes n z) = z.
Proof. intros. rewrite be_val_bytes. by apply Z.mod_small. Qed.

Lemma be_val_range l : (0 <= be_val l < 256 ^ Z.of_nat (length l))%Z.
Proof.
  induction l as [|b l IH] using rev_ind; [done|].
  rewrite be_val_snoc, length_app, Nat2Z.inj_add, Z.pow_add_r by lia.
  pose proof (byte_val_range b). cbn [length]. change (256 ^ Z.of_nat 1)%Z with 256%Z. nia.
Qed.

Lemma be_bytes_val l : be_bytes (length l) (be_val l) = l.
Proof.
  induction l as [|b l IH] using rev_ind; [done|].
  rewrite length_app, Nat.add_1_r. cbn [be_bytes]. rewrite be_val_snoc.
  pose proof (byte_val_range b).
  f_equal.
  - rewrite Z.div_add_l, Z.div_small, Z.add_0_r by lia. done.
  - f_equal. rewrite <-(byte_of_val b) at 2. unfold byte_of.
    rewrite Z.add_comm, Z_mod_plus_full. done.
Qed.

Lemma be_bytes_mod n z : be_bytes n z = be_bytes n (z mod 256 ^ Z.of_nat n).
Proof.
  rewrite <-be_val_bytes. rewrite <-(be_bytes_val (be_bytes n z)) at 1.
  by rewrite length_be_bytes.
Qed.

#[global] Arguments be_bytes : simpl never.

(** ** Lists *)
Section lists.
Context {A : Type}.
Implicit Types l : list A.

(** The last element of a suffix is the last element of the list. *)
Lemma last_drop_Some n l x : last (drop n l) = Some x -> last l = Some x.
Proof.
  revert l; induction n as [|n IH]; intros [|a l] H; cbn [drop] in H; try done.
  apply IH in H. by destruct l.
Qed.

(** The first element satisfying a test, with its position
    ([Iterator::position]). *)
Fixpoint position (f : A -> bool) (l : list A) : option nat :=
  match l with
  | [] => None
  | x :: l => if f x then Some 0 else S <$> position f l
  end.

Lemma position_Some f l n :
  position f l = Some n <->
  exists x, l !! n = Some x /\ f x = true /\
    forall i y, i < n -> l !! i = Some y -> f y = false.
Proof.
  revert n; induction l as [|a l IH]; intros n; cbn.
  - split; [done|]. intros (x & H & _). by rewrite lookup_nil in H.
  - destruct (f a) eqn:Ha.
    + split.
      * intros [= <-]. exists a. cbn. repeat split; auto. lia.
      * intros (x & H1 & H2 & H3). destruct n as [|n]; [done|].
        specialize (H3 0 a ltac:(lia) eq_refl). congruence.
    + rewrite fmap_Some. setoid_rewrite IH. split.
      * intros (m & (x & H1 & H2 & H3) & ->). exists x. cbn. repeat split; auto.
        intros [|i] y Hi Hy; cbn in Hy; [congruence|]. apply (H3 i y); [lia|done].
      * intros (x & H1 & H2 & H3). destruct n as [|n].
        { cbn in H1. congruence. }
        exists n. split; [|done]. exists x. cbn in H1. repeat split; auto.
        intros i y Hi Hy. apply (H3 (S i) y); [lia|done].
Qed.

Lemma position_None f l :
  position f l = None <-> Forall (fun x => f x = false) l.
Proof.
  induction l as [|a l IH]; cbn.
  - by split; [constructor|].
  - rewrite Forall_cons, <-IH. destruct (f a) eqn:Ha.
    + split; [done|]. intros [? _]. congruence.
    + rewrite fmap_None. split; [done|]. by intros [_ ?].
Qed.

Lemma position_lt f l n : position f l = Some n -> n < length l.
Proof. rewrite position_Some. intros (x & H & _). by apply lookup_lt_Some in H. Qed.
End lists.

(** A [HashMap] is iterated in an order that is not specified. *)
Class HashOrder := hash_order : forall {V : Type}, list V -> list V.
Class HashOrderLaws (H : HashOrder) : Prop := { hash_order_perm {V} (l : list V) : hash_order l ≡ₚ l }.

(** In a list whose elements differ in a field, the field tells the element. *)
Lemma NoDup_field_eq {A B} (f : A -> B) l x y : NoDup (f <$> l) -> x ∈ l -> y ∈ l -> f x = f y -> x = y.
Proof.
  induction l as [|a l IH]; intros Hnd Hx Hy E; [by apply elem_of_nil in Hx|].
  cbn in Hnd. apply NoDup_cons in Hnd as [Hni Hnd].
  apply elem_of_cons in Hx as [->|Hx], Hy as [->|Hy]; [done| | |by apply IH].
  - exfalso. apply Hni. rewrite E. by apply list_elem_of_fmap_2.
  - exfalso. apply Hni. rewrite <-E. by apply list_elem_of_fmap_2.
Qed.

(** A loop keeps what its body keeps. *)
Lemma foldl_preserves {A B} (P : A -> Prop) (f : A -> B -> A) (l : list B) acc :
  P acc -> (forall x b, b ∈ l -> P x -> P (f x b)) -> P (foldl f acc l).
Proof.
  revert acc. induction l as [|b l IH]; intros acc H0 Hf; [done|]. cbn. apply IH.
  - apply Hf; [left|done].
  - intros x b' Hb. apply Hf. by right.
Qed.

(** ** Iterators built from a step function ([std::iter::from_fn])

    [collect next fuel s] are the items a consumer gets until the first
    [None]; [collect_unfold] shows that any fuel above a decreasing measure
    gives the unbounded loop. *)
Section collect.
Context {S A : Type} (next : S -> option (A * S)) (measure : S -> nat).

Fixpoint collect (fuel : nat) (s : S) : list A :=
  match fuel with
  | O => []
  | Datatypes.S fuel =>
      match next s with
      | None => []
      | Some (a, s') => a :: collect fuel s'
      end
  end.

Hypothesis next_decreases : forall s a s', next s = Some (a, s') -> measure s' < measure s.

Lemma collect_enough fuel s : measure s <= fuel -> collect fuel s = collect (measure s) s.
Proof using Type*.
  revert s. assert (forall m f s, measure s <= m -> m <= f -> collect f s = collect m s) as H.
  { induction m as [|m IH]; intros f s Hm Hf.
    - destruct f as [|f]; [done|]. cbn. destruct (next s) as [[a s']|] eqn:E; [|done].
      apply next_decreases in E. lia.
    - destruct f as [|f]; [lia|]. cbn. destruct (next s) as [[a s']|] eqn:E; [|done].
      f_equal. apply next_decreases in E. apply IH; lia. }
  intros s Hs. by apply H.
Qed.

Lemma collect_unfold s :
  collect (measure s) s =
    match next s with None => [] | Some (a, s') => a :: collect (measure s') s' end.
Proof using Type*.
  destruct (next s) as [[a s']|] eqn:E.
  - pose proof (next_decreases _ _ _ E) as Hd. destruct (measure s) as [|m] eqn:Hm; [lia|].
    cbn. rewrite E. f_equal. apply collect_enough. lia.
  - destruct (measure s); cbn; [done|]. by rewrite E.
Qed.
End collect.
