(* ===== verification/Wire.v ===== *)
(** * Wire primitives of the packages the code builds on

    Reading and writing big-endian integers is the work of the packages
    [byteorder] ([ReadBytesExt] with [NetworkEndian]) and [bytes] ([BufMut] on
    [Vec<u8>]); the bit fields of the STUN head are generated by the
    [bitfield] macro. Their operations are the parameters [WireOps] of the
    models that use them; [WireLaws] is their documented behaviour.
    [big_endian] is an instance that computes. *)
From S2P Require Import Prelude.
Local Open Scope Z_scope.

Class WireOps := {
  (** [read_u8], [read_u16::<NE>], ... on a byte slice: the value of the first
      [n] bytes and the rest; [None] is the [UnexpectedEof] error. *)
  read_uint : nat -> list byte -> option (Z * list byte);
  (** [put_u8], [put_u16], ...: append an [n]-byte integer. *)
  put_uint : nat -> list byte -> Z -> list byte;
  (** [put_slice] *)
  put_slice : list byte -> list byte -> list byte;
  (** [put_bytes] *)
  put_bytes : list byte -> byte -> nat -> list byte;
  (** [Buf::has_remaining] of a cursor at a position *)
  has_remaining : nat -> list byte -> bool;
  (** The getter and the setter the [bitfield] macro makes for the bits
      [msb..lsb] of an integer. *)
  bit_range : Z -> Z -> Z -> Z;
  set_bit_range : Z -> Z -> Z -> Z -> Z }.

Class WireLaws (W : WireOps) : Prop := {
  read_uint_short n l : (length l < n)%nat -> read_uint n l = None;
  read_uint_app n l rest : length l = n -> read_uint n (l ++ rest) = Some (be_val l, rest);
  put_uint_app n buf v : 0 <= v < 256 ^ Z.of_nat n -> put_uint n buf v = buf ++ be_bytes n v;
  put_slice_app buf src : put_slice buf src = buf ++ src;
  has_remaining_spec pos buf : has_remaining pos buf = bool_decide (pos < length buf)%nat;
  put_bytes_app buf b n : put_bytes buf b n = buf ++ replicate n b;
  bit_range_spec v msb lsb : 0 <= v -> 0 <= lsb <= msb ->
    bit_range v msb lsb = (v / 2 ^ lsb) mod 2 ^ (msb - lsb + 1);
  set_bit_range_spec v msb lsb x : 0 <= v -> 0 <= lsb <= msb ->
    set_bit_range v msb lsb x =
      v - bit_range v msb lsb * 2 ^ lsb + x mod 2 ^ (msb - lsb + 1) * 2 ^ lsb }.

(** ** A computing instance *)

Definition be_read (n : nat) (l : list byte) : option (Z * list byte) :=
  if decide (length l < n)%nat then None else Some (be_val (take n l), drop n l).

Definition big_endian : WireOps := {|
  read_uint := be_read;
  put_uint n buf v := buf ++ be_bytes n v;
  put_slice buf src := buf ++ src;
  put_bytes buf b n := buf ++ replicate n b;
  has_remaining pos buf := bool_decide (pos < length buf)%nat;
  bit_range v msb lsb := (v / 2 ^ lsb) mod 2 ^ (msb - lsb + 1);
  set_bit_range v msb lsb x :=
    v - (v / 2 ^ lsb) mod 2 ^ (msb - lsb + 1) * 2 ^ lsb + x mod 2 ^ (msb - lsb + 1) * 2 ^ lsb |}.

#[export] Instance big_endian_laws : WireLaws big_endian.
Proof.
  split; try done.
  - intros n l H. cbn. unfold be_read. by rewrite decide_True.
  - intros n l rest <-. cbn. unfold be_read. rewrite decide_False.
    + by rewrite take_app_length, drop_app_length.
    + rewrite length_app. lia.
Qed.

(** ** Consequences *)
Section laws.
Context `{WL : WireLaws}.

Lemma read_uint_Some n l v rest :
  read_uint n l = Some (v, rest) <->
  (n <= length l)%nat /\ v = be_val (take n l) /\ rest = drop n l.
Proof.
  destruct (decide (length l < n)%nat) as [Hs|Hl].
  - rewrite read_uint_short by done. split; [done|]. intros [? _]. lia.
  - rewrite <-(take_drop n l) at 1.
    rewrite read_uint_app by (rewrite length_take; lia).
    split; [intros [= <- <-]; repeat split; lia|]. by intros (_ & -> & ->).
Qed.

Lemma read_uint_range n l v rest :
  read_uint n l = Some (v, rest) -> 0 <= v < 256 ^ Z.of_nat n.
Proof.
  intros (Hn & -> & _)%read_uint_Some. pose proof (be_val_range (take n l)) as H.
  rewrite length_take, Nat.min_l in H by done. done.
Qed.

(** What [put_uint] appends, [read_uint] gives back. *)
Lemma read_put n v rest :
  0 <= v < 256 ^ Z.of_nat n -> read_uint n (be_bytes n v ++ rest) = Some (v, rest).
Proof. intros. rewrite read_uint_app by apply length_be_bytes. by rewrite be_val_bytes_id. Qed.
End laws.
