(* ===== verification/Text.v ===== *)
(** * Strings

    Rust's [str] and byte slices as lists of bytes, with what the code uses of
    them: UTF-8, comparison without case, trimming, and decimal numbers. *)
From stdpp Require Export strings.
From S2P Require Import Prelude.
Local Open Scope Z_scope.

(** A [str] is its bytes. *)
Definition str := list byte.

(** The bytes of a string literal. *)
Definition lit (s : string) : str := String.list_byte_of_string s.

(** [str::from_utf8]: well-formed UTF-8 has no overlong forms, no surrogates
    and nothing above U+10FFFF. *)
Definition in_range (lo hi : Z) (b : byte) : bool := (lo <=? byte_val b) && (byte_val b <=? hi).
Definition continuation : byte -> bool := in_range 0x80 0xBF.

Fixpoint utf8_valid (l : list byte) : bool :=
  match l with
  | [] => true
  | b0 :: l =>
      if in_range 0 0x7F b0 then utf8_valid l
      else match l with
      | [] => false
      | b1 :: l =>
          if in_range 0xC2 0xDF b0 then continuation b1 && utf8_valid l
          else match l with
          | [] => false
          | b2 :: l =>
              if in_range 0xE0 0xEF b0 then
                in_range (if bool_decide (b0 = xe0) then 0xA0 else 0x80)
                         (if bool_decide (b0 = xed) then 0x9F else 0xBF) b1 &&
                continuation b2 && utf8_valid l
              else match l with
              | [] => false
              | b3 :: l =>
                  in_range 0xF0 0xF4 b0 &&
                  in_range (if bool_decide (b0 = xf0) then 0x90 else 0x80)
                           (if bool_decide (b0 = xf4) then 0x8F else 0xBF) b1 &&
                  continuation b2 && continuation b3 && utf8_valid l
              end
          end
      end
  end.

(** Valid strings can be concatenated. *)
Lemma utf8_valid_app a b : utf8_valid a = true -> utf8_valid (a ++ b) = utf8_valid b.
Proof.
  remember (length a) as n eqn:Hn. revert a Hn.
  induction n as [n IH] using lt_wf_ind; intros a ->.
  assert (forall a', (length a' < length a)%nat -> utf8_valid a' = true ->
    utf8_valid (a' ++ b) = utf8_valid b) as IH' by (intros a' H; by apply (IH _ H)).
  clear IH. destruct a as [|b0 l]; [done|]. cbn [app utf8_valid].
  destruct (in_range 0 0x7F b0); [apply IH'; cbn; lia|].
  destruct l as [|b1 l]; [done|]. cbn [app].
  destruct (in_range 0xC2 0xDF b0).
  { rewrite !andb_true_iff. intros [-> H]. cbn [andb]. apply IH'; [cbn; lia|done]. }
  destruct l as [|b2 l]; [done|]. cbn [app].
  destruct (in_range 0xE0 0xEF b0).
  { rewrite !andb_true_iff. intros [[-> ->] H]. cbn [andb]. apply IH'; [cbn; lia|done]. }
  destruct l as [|b3 l]; [done|]. cbn [app].
  rewrite !andb_true_iff. intros [[[[-> ->] ->] ->] H]. cbn [andb]. apply IH'; [cbn; lia|done].
Qed.


(** A test of all bytes. *)
Lemma byte_forall (P : byte -> bool) :
  forallb P (byte_of <$> seqZ 0 256) = true -> forall b, P b = true.
Proof.
  rewrite forallb_forall. intros H b. apply H. apply list_elem_of_In, list_elem_of_fmap.
  exists (byte_val b). split; [by rewrite byte_of_val|]. apply elem_of_seqZ.
  pose proof (byte_val_range b). lia.
Qed.

(** What a class of bytes implies, decided by trying all of them. *)
Lemma byte_class (f : byte -> bool) (P : byte -> Prop) `{forall b, Decision (P b)} :
  forallb (fun b => negb (f b) || bool_decide (P b)) (byte_of <$> seqZ 0 256) = true ->
  forall b, f b = true -> P b.
Proof.
  intros Hall b Hb. pose proof (byte_forall _ Hall b) as Hx. cbv beta in Hx.
  rewrite Hb in Hx. by apply bool_decide_eq_true in Hx.
Qed.

Ltac by_bytes :=
  lazymatch goal with
  | |- forall b : byte, @?f b = true -> @?P b => apply (byte_class f P); vm_compute; reflexivity
  end.

(** ** ASCII *)

(** [u8::is_ascii_whitespace] *)
Definition is_ascii_whitespace (b : byte) : bool :=
  bool_decide (b = x09 \/ b = x0a \/ b = x0c \/ b = x0d \/ b = x20).

(** [u8::to_ascii_lowercase], [eq_ignore_ascii_case] *)
Definition to_lower (b : byte) : byte :=
  if in_range 65 90 b then byte_of (byte_val b + 32) else b.

Definition lower (s : str) : str := to_lower <$> s.
Definition eq_ignore_ascii_case (a b : str) : bool := bool_decide (lower a = lower b).

Lemma eq_ignore_ascii_case_true a b : eq_ignore_ascii_case a b = true <-> lower a = lower b.
Proof. apply bool_decide_eq_true. Qed.

Lemma length_lower s : length (lower s) = length s.
Proof. apply length_fmap. Qed.

Lemma lower_app a b : lower (a ++ b) = lower a ++ lower b.
Proof. apply fmap_app. Qed.

Lemma lower_take n s : lower (take n s) = take n (lower s).
Proof. apply fmap_take. Qed.

Lemma to_lower_idemp b : to_lower (to_lower b) = to_lower b.
Proof.
  unfold to_lower at 2 3. destruct (in_range 65 90 b) eqn:E; [|unfold to_lower; by rewrite E].
  unfold to_lower. destruct (in_range 65 90 (byte_of (byte_val b + 32))) eqn:E'; [|done].
  unfold in_range in *. rewrite byte_val_of in E'.
  apply andb_true_iff in E, E'. rewrite Z.mod_small in E' by lia. lia.
Qed.

Lemma lower_idemp s : lower (lower s) = lower s.
Proof.
  unfold lower. rewrite <-list_fmap_compose. apply list_fmap_ext. intros i b _.
  apply to_lower_idemp.
Qed.

(** [slice::starts_with] *)
Definition starts_with (p l : list byte) : bool := bool_decide (take (length p) l = p).

Lemma starts_with_app p l : starts_with p (p ++ l) = true.
Proof. apply bool_decide_eq_true. apply take_app_length. Qed.

Lemma starts_with_spec p l : starts_with p l = true <-> exists r, l = p ++ r.
Proof.
  unfold starts_with. rewrite bool_decide_eq_true. split.
  - intros H. exists (drop (length p) l). by rewrite <-H at 1; rewrite take_drop.
  - intros [r ->]. apply take_app_length.
Qed.

(** Bytes in front for which a test holds ([Iterator::take_while]). *)
Fixpoint span (f : byte -> bool) (l : list byte) : list byte * list byte :=
  match l with
  | [] => ([], [])
  | b :: l' => if f b then let '(x, y) := span f l' in (b :: x, y) else ([], l)
  end.

Lemma span_app f a b l : Forall (fun b => f b = true) a -> f b = false ->
  span f (a ++ b :: l) = (a, b :: l).
Proof.
  intros Ha Hb. induction Ha as [|c a Hc _ IH]; cbn; [by rewrite Hb|]. by rewrite Hc, IH.
Qed.

(** ** [str::trim]: the characters of the Unicode property White_Space. *)
Definition white_space : list (list byte) :=
  [[x09]; [x0a]; [x0b]; [x0c]; [x0d]; [x20]; [xc2; x85]; [xc2; xa0]; [xe1; x9a; x80];
   [xe2; x80; x80]; [xe2; x80; x81]; [xe2; x80; x82]; [xe2; x80; x83]; [xe2; x80; x84];
   [xe2; x80; x85]; [xe2; x80; x86]; [xe2; x80; x87]; [xe2; x80; x88]; [xe2; x80; x89];
   [xe2; x80; x8a]; [xe2; x80; xa8]; [xe2; x80; xa9]; [xe2; x80; xaf]; [xe2; x81; x9f];
   [xe3; x80; x80]].

Fixpoint strip_chars (cs : list (list byte)) (fuel : nat) (l : list byte) : list byte :=
  match fuel with
  | O => l
  | S fuel =>
      match find (fun c => starts_with c l) cs with
      | Some c => strip_chars cs fuel (drop (length c) l)
      | None => l
      end
  end.

Definition trim_start (s : str) : str := strip_chars white_space (length s) s.
Definition trim_end (s : str) : str :=
  rev (strip_chars (@rev byte <$> white_space) (length s) (rev s)).
Definition trim (s : str) : str := trim_end (trim_start s).

(** ** Decimal numbers *)
Definition digit_val (b : byte) : option Z :=
  if in_range 48 57 b then Some (byte_val b - 48) else None.
Definition digit (z : Z) : byte := byte_of (48 + z).

Definition add_digit (w : Z) (acc : option Z) (b : byte) : option Z :=
  a ← acc; d ← digit_val b;
  if decide (uint w (a * 10 + d)) then Some (a * 10 + d) else None.

(** [u16::from_str] and the like: an optional plus sign, at least one digit,
    no overflow. *)
Definition parse_uint (w : Z) (s : str) : option Z :=
  let s := match s with b :: r => if decide (b = x2b /\ r <> []) then r else s | [] => s end in
  if decide (s = []) then None else foldl (add_digit w) (Some 0) s.

(** [to_string] of an unsigned integer of at most 64 bits *)
Fixpoint dec_digits (fuel : nat) (z : Z) : list byte :=
  match fuel with
  | O => []
  | S fuel => if z <? 10 then [digit z] else dec_digits fuel (z / 10) ++ [digit (z mod 10)]
  end.
Definition print_uint (z : Z) : str := dec_digits 20 z.

Lemma digit_val_digit z : 0 <= z < 10 -> digit_val (digit z) = Some z.
Proof.
  intros Hz. unfold digit_val, digit, in_range. rewrite byte_val_of.
  rewrite Z.mod_small by lia.
  destruct (48 <=? 48 + z) eqn:E1; [|lia]. destruct (48 + z <=? 57) eqn:E2; [|lia].
  cbn. f_equal. lia.
Qed.

Lemma digit_not_plus z : 0 <= z < 10 -> digit z <> x2b.
Proof.
  intros Hz He. apply (f_equal byte_val) in He. unfold digit in He. rewrite byte_val_of in He.
  rewrite Z.mod_small in He by lia. change (byte_val x2b) with 43 in He. lia.
Qed.

Lemma dec_digits_fold w fuel z : uint w z -> z < 10 ^ Z.of_nat fuel -> (0 < fuel)%nat ->
  foldl (add_digit w) (Some 0) (dec_digits fuel z) = Some z.
Proof.
  revert z. induction fuel as [|fuel IH]; intros z [Hz0 Hz1] Hf ?; [lia|].
  cbn [dec_digits]. destruct (z <? 10) eqn:E.
  - cbn. rewrite digit_val_digit by lia. cbn. rewrite decide_True by (unfold uint; lia). done.
  - rewrite Nat2Z.inj_succ, Z.pow_succ_r in Hf by lia.
    rewrite foldl_app, IH.
    + cbn. rewrite digit_val_digit by (apply Z.mod_pos_bound; lia). cbn.
      pose proof (Z.div_mod z 10 ltac:(lia)).
      rewrite decide_True by (unfold uint; lia). f_equal. lia.
    + split; [apply Z.div_pos; lia|]. apply Z.le_lt_trans with z; [|done].
      apply Z.div_le_upper_bound; lia.
    + apply Z.div_lt_upper_bound; lia.
    + destruct fuel; [cbn in Hf; lia|lia].
Qed.

Lemma dec_digits_head fuel z : 0 <= z -> (0 < fuel)%nat -> exists d l,
  dec_digits fuel z = digit d :: l /\ 0 <= d < 10.
Proof.
  revert z. induction fuel as [|fuel IH]; intros z Hz ?; [lia|]. cbn.
  destruct (z <? 10) eqn:E; [exists z, []; split; [done|lia]|].
  destruct fuel as [|fuel].
  - exists (z mod 10), []. split; [done|]. apply Z.mod_pos_bound. lia.
  - destruct (IH (z / 10)) as (d & l & -> & Hd); [apply Z.div_pos; lia|lia|].
    exists d, (l ++ [digit (z mod 10)]). done.
Qed.

(** Printed numbers parse. *)
Lemma parse_print_uint w z : 0 <= w <= 64 -> uint w z -> parse_uint w (print_uint z) = Some z.
Proof.
  intros Hw Hz. unfold parse_uint, print_uint.
  destruct (dec_digits_head 20 z) as (d & l & E & Hd); [apply Hz|lia|].
  assert (z < 10 ^ Z.of_nat 20) as Hlt.
  { destruct Hz as [_ Hz]. apply Z.lt_le_trans with (2 ^ w); [exact Hz|].
    apply Z.le_trans with (2 ^ 64); [apply Z.pow_le_mono_r; lia|].
    apply Z.leb_le. vm_compute. reflexivity. }
  pose proof (dec_digits_fold w 20 z Hz Hlt ltac:(lia)) as H'. rewrite E in *.
  pose proof (digit_not_plus d Hd).
  destruct (decide (digit d = x2b /\ l <> [])) as [[? _]|_]; [done|].
  destruct (decide (digit d :: l = [])) as [?|_]; [done|exact H'].
Qed.

Lemma parse_uint_range w s n : 0 <= w -> parse_uint w s = Some n -> uint w n.
Proof.
  intros Hw. unfold parse_uint. destruct (match s with [] => _ | _ => _ end) as [|b l]; [done|].
  rewrite decide_False by done.
  assert (forall l acc, foldl (add_digit w) acc l = Some n -> (forall a, acc = Some a -> uint w a) -> uint w n) as H.
  { clear. intros l. induction l as [|c l IH]; intros acc H Ha; [by apply Ha|].
    apply IH in H; [done|]. intros a Hadd. unfold add_digit in Hadd.
    apply bind_Some in Hadd as (x & _ & Hadd). apply bind_Some in Hadd as (d & _ & Hadd).
    case_decide; by simplify_eq. }
  intros Hf. apply (H _ _ Hf). intros a [= <-]. unfold uint. lia.
Qed.

(** ** Trimming around plain text *)
Lemma strip_chars_none cs fuel b l : Forall (fun c => exists x r, c = x :: r /\ x <> b) cs ->
  strip_chars cs fuel (b :: l) = b :: l.
Proof.
  intros H. destruct fuel as [|fuel]; [done|]. cbn.
  assert (find (fun c => starts_with c (b :: l)) cs = None) as ->; [|done].
  induction H as [|c cs (x & r & -> & Hx) _ IH]; [done|]. cbn. unfold starts_with at 1. cbn.
  rewrite bool_decide_eq_false_2; [done|]. congruence.
Qed.

Lemma white_space_heads b : in_range 0x21 0x7e b = true ->
  Forall (fun c => exists x r, c = x :: r /\ x <> b) white_space /\
  Forall (fun c => exists x r, c = x :: r /\ x <> b) (@rev byte <$> white_space).
Proof.
  intros Hb. assert (forall x, in_range 0x21 0x7e x = false -> x <> b) as Hne by (intros x Hx ->; congruence).
  split; (repeat (constructor; [eexists _, _; split; [reflexivity|apply Hne; reflexivity]|]); constructor).
Qed.

(** Trimming leaves a text of visible ASCII characters, also behind a space. *)
Lemma trim_visible l : l <> [] -> Forall (fun b => in_range 0x21 0x7e b = true) l -> trim l = l.
Proof.
  intros Hl Hok. unfold trim, trim_start.
  destruct l as [|b l]; [done|]. inversion Hok as [|? ? Hb Hok']; subst.
  rewrite strip_chars_none by (by apply white_space_heads).
  unfold trim_end. destruct (rev (b :: l)) as [|c r] eqn:E.
  - apply (f_equal (@length byte)) in E. by rewrite length_rev in E.
  - rewrite strip_chars_none.
    + by rewrite <-E, rev_involutive.
    + apply white_space_heads. rewrite Forall_forall in Hok. apply Hok.
      apply list_elem_of_In, in_rev. rewrite E. by left.
Qed.

Lemma trim_space l : l <> [] -> Forall (fun b => in_range 0x21 0x7e b = true) l -> trim (x20 :: l) = l.
Proof.
  intros Hl Hok. rewrite <-(trim_visible l Hl Hok) at 2. unfold trim, trim_start. cbn [length].
  change (strip_chars white_space (S (length l)) (x20 :: l)) with (strip_chars white_space (length l) l). done.
Qed.

Lemma digit_range z : 0 <= z < 10 -> in_range 48 57 (digit z) = true.
Proof.
  intros Hz. unfold in_range, digit. rewrite byte_val_of, Z.mod_small by lia.
  apply andb_true_iff. split; lia.
Qed.

Lemma dec_digits_range fuel z : 0 <= z ->
  Forall (fun b => in_range 48 57 b = true) (dec_digits fuel z).
Proof.
  revert z. induction fuel as [|fuel IH]; intros z Hz; cbn; [constructor|].
  destruct (z <? 10) eqn:E; [repeat constructor; apply digit_range; lia|].
  apply Forall_app. split; [apply IH, Z.div_pos; lia|].
  repeat constructor. apply digit_range, Z.mod_pos_bound. lia.
Qed.

Lemma print_uint_nonempty z : 0 <= z -> print_uint z <> [].
Proof. intros Hz. unfold print_uint. destruct (dec_digits_head 20 z Hz ltac:(lia)) as (d & l & -> & _). done. Qed.

Lemma print_uint_digits z : 0 <= z -> Forall (fun b => in_range 48 57 b = true) (print_uint z).
Proof. apply dec_digits_range. Qed.

Lemma in_range_weaken a b c d x : c <= a -> b <= d -> in_range a b x = true -> in_range c d x = true.
Proof. unfold in_range. rewrite !andb_true_iff. lia. Qed.

Lemma print_uint_visible z : 0 <= z -> Forall (fun b => in_range 0x21 0x7e b = true) (print_uint z).
Proof.
  intros Hz. eapply Forall_impl; [by apply print_uint_digits|]. cbn. intros b.
  apply in_range_weaken; lia.
Qed.

Lemma visible_utf8 l : Forall (fun b => in_range 0x21 0x7e b = true) l -> utf8_valid l = true.
Proof.
  induction 1 as [|b l Hb _ IH]; [done|]. cbn [utf8_valid].
  assert (in_range 0 0x7F b = true) as ->; [|done].
  unfold in_range in *. apply andb_true_iff in Hb. apply andb_true_iff. lia.
Qed.
