(* ===== verification/RtpCounter.v ===== *)
(** * RTP counters (media/rtp/src/lib.rs)

    Sequence numbers and RTP timestamps are [u16] and [u32] values; their
    extended forms are [u64] counters. [increase_one] steps an extended
    sequence number, [guess_extended] rebuilds the extended value of a number
    received on the wire from the last extended value. *)
From S2P Require Import Prelude.
Local Open Scope Z_scope.

(** [u64::from(u16::MAX)] and [u64::from(u32::MAX)] *)
Definition u16_max : Z := 65535.
Definition u32_max : Z := 4294967295.

(** [wrapping_counter_to_u64_counter] *)
Definition wrapping_counter_to_u64_counter (reference got max : Z) : Z :=
  let mul := saturating_sub (reference / max) 1 in
  let low := wrap 64 (wrap 64 (mul * max) + got) in
  let high := wrap 64 (wrap 64 (wrap 64 (mul + 1) * max) + got) in
  if decide (abs_diff low reference < abs_diff high reference) then low else high.

Module ExtendedSequenceNumber.
(** [ExtendedSequenceNumber::increase_one]: the stepped counter and the
    16-bit number to put on the wire. *)
Definition increase_one (self : Z) : Z * Z :=
  let self := wrap 64 (self + 1) in
  (self, wrap 16 (Z.land self u16_max)).

(** [ExtendedSequenceNumber::rollover_count] *)
Definition rollover_count (self : Z) : Z := Z.shiftr self 16.

(** [ExtendedSequenceNumber::guess_extended] *)
Definition guess_extended (self seq : Z) : Z :=
  wrapping_counter_to_u64_counter self seq u16_max.
End ExtendedSequenceNumber.

Module ExtendedRtpTimestamp.
(** [ExtendedRtpTimestamp::truncated] *)
Definition truncated (self : Z) : Z := wrap 32 self.

(** [ExtendedRtpTimestamp::rollover_count] *)
Definition rollover_count (self : Z) : Z := Z.shiftr self 32.

(** [ExtendedRtpTimestamp::guess_extended] *)
Definition guess_extended (self ts : Z) : Z :=
  wrapping_counter_to_u64_counter self ts u32_max.
End ExtendedRtpTimestamp.

(** ** The two candidates *)

Lemma div_range (a b : Z) : 0 <= a -> 0 < b -> 0 <= a / b /\ (a / b) * b <= a < (a / b) * b + b.
Proof.
  intros Ha Hb. pose proof (Z.div_mod a b ltac:(lia)).
  pose proof (Z.mod_pos_bound a b Hb). pose proof (Z.div_pos a b Ha Hb). lia.
Qed.

(** When the arithmetic cannot overflow the result is one of two consecutive
    cycles of length [max], the nearer one to the reference. *)
Lemma wrapping_counter_cases reference got max :
  0 <= reference -> 0 < max -> 0 <= got <= max -> Z.max reference max + max < 2 ^ 64 ->
  let mul := saturating_sub (reference / max) 1 in
  wrapping_counter_to_u64_counter reference got max =
    if decide (abs_diff (mul * max + got) reference < abs_diff ((mul + 1) * max + got) reference)
    then mul * max + got else (mul + 1) * max + got.
Proof.
  intros Hr Hm Hg Hb mul.
  destruct (div_range reference max Hr Hm) as [Hq Hqr].
  assert (0 <= mul /\ mul * max <= reference /\ (mul + 1) * max <= Z.max reference max) as (H0 & H1 & H2).
  { unfold mul, saturating_sub. destruct (Z.max_spec 0 (reference / max - 1)) as [[? ->]|[? ->]]; nia. }
  assert (mul + 1 < 2 ^ 64) by nia.
  unfold wrapping_counter_to_u64_counter. fold mul.
  assert (forall z, 0 <= z < 2 ^ 64 -> wrap 64 z = z) as Hw by (intros; by apply wrap_id).
  rewrite (Hw (mul + 1)), (Hw (mul * max)), (Hw ((mul + 1) * max)), (Hw (mul * max + got)),
    (Hw ((mul + 1) * max + got)) by nia.
  done.
Qed.

(** ** Properties *)

Lemma increase_one_split (self : Z) :
  uint 64 self -> self + 1 < 2 ^ 64 ->
  let '(self', seq) := ExtendedSequenceNumber.increase_one self in
  self' = self + 1 /\ uint 16 seq /\
  ExtendedSequenceNumber.rollover_count self' * 2 ^ 16 + seq = self + 1.
Proof.
  intros [Hlo Hhi] Hmax. unfold ExtendedSequenceNumber.increase_one, ExtendedSequenceNumber.rollover_count, u16_max.
  rewrite (wrap_id 64) by (unfold uint; lia).
  change 65535 with (Z.ones 16). rewrite Z.land_ones, Z.shiftr_div_pow2 by lia.
  unfold wrap. rewrite Z.mod_mod by lia.
  pose proof (Z.mod_pos_bound (self + 1) (2 ^ 16) eq_refl).
  split; [done|]. split; [done|].
  pose proof (Z.div_mod (self + 1) (2 ^ 16) ltac:(done)). lia.
Qed.

Lemma guess_extended_first_cycle (reference seq : Z) :
  0 <= reference < u16_max -> uint 16 seq -> reference - seq <= 32767 ->
  ExtendedSequenceNumber.guess_extended reference seq = seq.
Proof.
  unfold u16_max, uint. intros Hr Hs Hd. unfold ExtendedSequenceNumber.guess_extended.
  rewrite wrapping_counter_cases by (unfold u16_max; lia).
  unfold saturating_sub, u16_max. rewrite (Z.div_small reference 65535) by lia.
  cbn [Z.max Z.compare Z.sub Z.opp Z.add]. change (Z.max 0 (-1)) with 0.
  unfold abs_diff. rewrite decide_True; lia.
Qed.

Lemma guess_extended_not_true_counter (w c seq reference : Z) :
  (w = 16 \/ w = 32) -> 1 <= c < 2 ^ w - 1 -> uint w seq ->
  0 <= reference -> reference + 2 ^ w < 2 ^ 64 ->
  wrapping_counter_to_u64_counter reference seq (2 ^ w - 1) <> c * 2 ^ w + seq.
Proof.
  intros Hw Hc Hs Hr Hb Heq. unfold uint in Hs.
  assert (2 ^ w = 65536 \/ 2 ^ w = 4294967296) as Hp by (destruct Hw as [-> | ->]; auto).
  rewrite wrapping_counter_cases in Heq by lia.
  assert (exists k, k * (2 ^ w - 1) = c * 2 ^ w) as [k Hk].
  { destruct (decide _) in Heq; eexists; apply (Z.add_cancel_r _ _ seq); exact Heq. }
  assert ((k - c) * (2 ^ w - 1) = c) as Hk' by lia.
  assert (k - c <= 0 \/ 1 <= k - c) as [?|?] by lia; nia.
Qed.

Lemma guess_extended_never_enters_next_cycle (reference got max : Z) :
  0 < max -> 0 <= got < reference mod max -> max <= reference -> reference + max < 2 ^ 64 ->
  wrapping_counter_to_u64_counter reference got max < reference.
Proof.
  intros Hm Hg Hr Hb.
  pose proof (Z.mod_pos_bound reference max Hm).
  pose proof (Z.div_mod reference max ltac:(lia)) as Hdm.
  assert (1 <= reference / max) by (apply Z.div_le_lower_bound; lia).
  rewrite wrapping_counter_cases by lia.
  unfold saturating_sub. rewrite Z.max_r by lia.
  case_decide; nia.
Qed.
