(* ===== verification/JitterBuffer.v ===== *)
(** * Jitter buffer (media/rtp/src/session/jitter_buffer.rs, rtp_packet.rs)

    A queue of packets ordered by extended sequence number, with vacant
    entries for the numbers that have not been received. [push] inserts a
    packet, [pop] removes the earliest packet whose timestamp is reached. *)
From S2P Require Import Prelude.

(** ** Packets *)
Module RtpPacket.
(** [RtpExtensions] *)
Record RtpExtensions := { mid : option (list byte) }.

(** [RtpPacket]; the newtypes [SequenceNumber], [Ssrc] and [RtpTimestamp]
    are their integers. *)
Record t := {
  pt : Z;
  sequence_number : Z;
  ssrc : Z;
  timestamp : Z;
  extensions : RtpExtensions;
  payload : list byte }.
End RtpPacket.

(** ** State *)
Inductive QueueEntry :=
| Vacant (sequence_number : Z)
| Occupied (timestamp sequence_number : Z) (packet : RtpPacket.t).

(** [QueueEntry::sequence_number] *)
Definition entry_sequence_number (e : QueueEntry) : Z :=
  match e with Vacant s => s | Occupied _ s _ => s end.

Definition is_vacant (e : QueueEntry) : bool :=
  match e with Vacant _ => true | Occupied _ _ _ => false end.

Record JitterBuffer := {
  max_entries : nat;
  queue : list QueueEntry;
  last_sequence_number_returned : option Z;
  dropped : Z;
  received : Z;
  lost : Z }.

(** [JitterBuffer::default] *)
Definition default_buffer : JitterBuffer :=
  {| max_entries := 1000; queue := []; last_sequence_number_returned := None;
     dropped := 0; received := 0; lost := 0 |}.

Definition with_queue (q : list QueueEntry) (jb : JitterBuffer) : JitterBuffer :=
  {| max_entries := max_entries jb; queue := q;
     last_sequence_number_returned := last_sequence_number_returned jb;
     dropped := dropped jb; received := received jb; lost := lost jb |}.

(** [self.dropped += 1] *)
Definition count_dropped (jb : JitterBuffer) : JitterBuffer :=
  {| max_entries := max_entries jb; queue := queue jb;
     last_sequence_number_returned := last_sequence_number_returned jb;
     dropped := wrap 64 (dropped jb + 1); received := received jb; lost := lost jb |}.

(** ** Operations *)

(** The loop [for entry in self.queue.iter_mut().rev()] of [push], on the
    reversed queue: [None] when no entry carries the number; otherwise the
    reversed queue afterwards, and whether the packet was stored (when the
    entry was already occupied it is dropped). *)
Fixpoint fill_rev (ts seq : Z) (pkt : RtpPacket.t) (rq : list QueueEntry)
    : option (list QueueEntry * bool) :=
  match rq with
  | [] => None
  | e :: rq =>
      if decide (entry_sequence_number e = seq) then
        if is_vacant e then Some (Occupied ts seq pkt :: rq, true)
        else Some (e :: rq, false)
      else
        '(rq, stored) ← fill_rev ts seq pkt rq; Some (e :: rq, stored)
  end.

(** The length check at the end of [push]. *)
Definition limit_entries (jb : JitterBuffer) : JitterBuffer :=
  if decide (max_entries jb < length (queue jb)) then
    count_dropped (with_queue (tail (queue jb)) jb)
  else jb.

(** [JitterBuffer::push] *)
Definition push (ts seq : Z) (pkt : RtpPacket.t) (jb : JitterBuffer) : JitterBuffer :=
  if match last_sequence_number_returned jb with
     | Some returned => bool_decide (seq <= returned)%Z
     | None => false
     end
  then count_dropped jb
  else
    match last (queue jb) with
    | None => with_queue (queue jb ++ [Occupied ts seq pkt]) jb
    | Some entry =>
        match Z.compare (entry_sequence_number entry) seq with
        | Gt =>
            match fill_rev ts seq pkt (reverse (queue jb)) with
            | Some (rq, true) => with_queue (reverse rq) jb
            | Some (rq, false) => count_dropped (with_queue (reverse rq) jb)
            | None => limit_entries jb
            end
        | Eq =>
            if is_vacant entry then
              limit_entries (with_queue (removelast (queue jb) ++ [Occupied ts seq pkt]) jb)
            else limit_entries (count_dropped jb)
        | Lt =>
            let entry_seq := entry_sequence_number entry in
            let gap := (seq - entry_seq)%Z in
            let vacant := Vacant <$> seqZ (entry_seq + 1) (gap - 1) in
            limit_entries (with_queue (queue jb ++ vacant ++ [Occupied ts seq pkt]) jb)
        end
    end.

(** The test of [pop]: an occupied entry whose timestamp is reached. *)
Definition is_due (max_timestamp : Z) (e : QueueEntry) : bool :=
  match e with
  | Vacant _ => false
  | Occupied ts _ _ => bool_decide (ts <= max_timestamp)%Z
  end.

(** [for _ in 0..n { assert!(matches!(self.queue.pop_front(), Some(Vacant(..)))) }] *)
Fixpoint pop_vacant (n : nat) (q : list QueueEntry) : exec (list QueueEntry) :=
  match n with
  | O => Ret q
  | S n =>
      match q with
      | Vacant _ :: q => pop_vacant n q
      | _ => Panic
      end
  end.

(** [JitterBuffer::pop] *)
Definition pop (max_timestamp : Z) (jb : JitterBuffer)
    : exec (option RtpPacket.t * JitterBuffer) :=
  match position (is_due max_timestamp) (queue jb) with
  | None => Ret (None, jb)
  | Some num_vacant =>
      q ← pop_vacant num_vacant (queue jb);
      match q with
      | Occupied _ seq packet :: q =>
          Ret (Some packet,
            {| max_entries := max_entries jb; queue := q;
               last_sequence_number_returned := Some seq;
               dropped := dropped jb; received := received jb;
               lost := wrap 64 (lost jb + Z.of_nat num_vacant) |})
      | _ => Panic
      end
  end.

(** [JitterBuffer::timestamp_of_earliest_packet] *)
Fixpoint earliest (q : list QueueEntry) : option Z :=
  match q with
  | [] => None
  | Vacant _ :: q => earliest q
  | Occupied ts _ _ :: _ => Some ts
  end.
Definition timestamp_of_earliest_packet (jb : JitterBuffer) : option Z := earliest (queue jb).

(** ** Invariant *)

(** The entries carry consecutive numbers. *)
Definition contiguous (q : list QueueEntry) : Prop :=
  exists s, entry_sequence_number <$> q = seqZ s (Z.of_nat (length q)).

(** Every number still queued is above the last one returned. *)
Definition above_returned (jb : JitterBuffer) : Prop :=
  forall r e, last_sequence_number_returned jb = Some r -> e ∈ queue jb ->
    (r < entry_sequence_number e)%Z.

(** The newest entry holds a packet. *)
Definition ends_occupied (q : list QueueEntry) : Prop :=
  forall e, last q = Some e -> is_vacant e = false.

Definition wf (jb : JitterBuffer) : Prop :=
  contiguous (queue jb) /\ above_returned jb /\ ends_occupied (queue jb).

(** Timestamps grow with sequence numbers. *)
Definition timestamps_sorted (q : list QueueEntry) : Prop :=
  forall i j ts1 s1 p1 ts2 s2 p2, i < j ->
    q !! i = Some (Occupied ts1 s1 p1) -> q !! j = Some (Occupied ts2 s2 p2) -> (ts1 <= ts2)%Z.

(** ** Lemmas on contiguous queues *)

Lemma contiguous_lookup s (q : list QueueEntry) i e :
  entry_sequence_number <$> q = seqZ s (Z.of_nat (length q)) ->
  q !! i = Some e -> entry_sequence_number e = (s + Z.of_nat i)%Z.
Proof.
  intros Hq Hi. apply (f_equal (.!! i)) in Hq. rewrite list_lookup_fmap, Hi in Hq.
  symmetry in Hq. apply lookup_seqZ in Hq. lia.
Qed.

Lemma contiguous_tail q : contiguous q -> contiguous (tail q).
Proof.
  intros [s Hs]. destruct q as [|e q]; [by exists s|]. exists (Z.succ s).
  cbn [fmap list_fmap length] in Hs. rewrite Nat2Z.inj_succ, seqZ_cons in Hs by lia.
  injection Hs as _ Hs. cbn [tail]. rewrite Hs. f_equal; lia.
Qed.

Lemma contiguous_drop n q : contiguous q -> contiguous (drop n q).
Proof.
  revert q; induction n as [|n IH]; intros [|e q] H; cbn; auto.
  apply IH. by apply contiguous_tail in H.
Qed.

Lemma contiguous_same_numbers q q' :
  entry_sequence_number <$> q' = entry_sequence_number <$> q -> contiguous q -> contiguous q'.
Proof.
  intros Heq [s Hs]. exists s. rewrite Heq, Hs. f_equal.
  apply (f_equal length) in Heq. rewrite !length_fmap in Heq. lia.
Qed.

Lemma contiguous_extend q e ts seq pkt :
  contiguous q -> last q = Some e -> (entry_sequence_number e < seq)%Z ->
  contiguous (q ++ (Vacant <$> seqZ (entry_sequence_number e + 1) (seq - entry_sequence_number e - 1))
                ++ [Occupied ts seq pkt]).
Proof.
  intros [s Hs] Hl Hlt. exists s.
  rewrite last_lookup in Hl.
  pose proof (contiguous_lookup _ _ _ _ Hs Hl) as He.
  assert (0 < length q) by (apply lookup_lt_Some in Hl; lia).
  assert (entry_sequence_number e = (s + Z.of_nat (length q) - 1)%Z) as -> by lia.
  rewrite !fmap_app, Hs, <-list_fmap_compose, !length_app, length_fmap, length_seqZ.
  assert (forall l : list Z, entry_sequence_number ∘ Vacant <$> l = l) as ->.
  { intros l. by rewrite <-(list_fmap_id l) at 2. }
  cbn [fmap list_fmap entry_sequence_number length].
  set (a := Z.of_nat (length q)).
  replace (Z.of_nat _) with (a + ((seq - (s + a - 1) - 1) + 1))%Z by lia.
  rewrite seqZ_app by lia. f_equal.
  rewrite seqZ_app by lia. f_equal; [f_equal; lia|].
  rewrite seqZ_cons by lia. cbn. f_equal. lia.
Qed.

(** ** The reverse search of [push] *)

Lemma fill_rev_None ts seq pkt rq :
  fill_rev ts seq pkt rq = None <-> Forall (fun e => entry_sequence_number e <> seq) rq.
Proof.
  induction rq as [|e rq IH]; cbn; [by split; [constructor|]|].
  rewrite Forall_cons, <-IH. case_decide as Hd.
  - destruct (is_vacant e); split; naive_solver.
  - destruct (fill_rev ts seq pkt rq) as [[? ?]|]; cbn; naive_solver.
Qed.

Lemma fill_rev_Some ts seq pkt rq rq' stored :
  fill_rev ts seq pkt rq = Some (rq', stored) ->
  exists i e, rq !! i = Some e /\ entry_sequence_number e = seq /\
    rq' = (if stored then <[i:=Occupied ts seq pkt]> rq else rq) /\ stored = is_vacant e.
Proof.
  revert rq' stored. induction rq as [|e rq IH]; cbn; intros rq' stored H; [done|].
  case_decide as Hd.
  - exists 0, e. destruct (is_vacant e); by simplify_eq.
  - destruct (fill_rev ts seq pkt rq) as [[rq0 st0]|] eqn:E; cbn in H; simplify_eq.
    destruct (IH _ _ eq_refl) as (i & e' & ? & ? & -> & ->).
    exists (S i), e'. cbn. by destruct (is_vacant e').
Qed.

Lemma insert_same_numbers (q : list QueueEntry) i e e' :
  q !! i = Some e -> entry_sequence_number e' = entry_sequence_number e ->
  entry_sequence_number <$> <[i:=e']> q = entry_sequence_number <$> q.
Proof.
  intros Hi He. rewrite list_fmap_insert, He. apply list_insert_id.
  by rewrite list_lookup_fmap, Hi.
Qed.

Lemma fill_rev_numbers ts seq pkt q rq stored :
  fill_rev ts seq pkt (reverse q) = Some (rq, stored) ->
  entry_sequence_number <$> reverse rq = entry_sequence_number <$> q.
Proof.
  intros (i & e & Hi & He & -> & _)%fill_rev_Some.
  rewrite fmap_reverse. destruct stored.
  - rewrite (insert_same_numbers _ _ e) by done. by rewrite fmap_reverse, reverse_involutive.
  - by rewrite fmap_reverse, reverse_involutive.
Qed.

(** ** Preservation of the invariant *)

Lemma above_returned_numbers jb q :
  above_returned jb -> entry_sequence_number <$> q = entry_sequence_number <$> queue jb ->
  above_returned (with_queue q jb).
Proof.
  intros Ha Hq r e Hr He. cbn in *.
  assert (entry_sequence_number e ∈ entry_sequence_number <$> queue jb) as Hin.
  { rewrite <-Hq. by apply list_elem_of_fmap_2. }
  apply list_elem_of_fmap in Hin as (e' & -> & He'). by apply (Ha r).
Qed.

Lemma limit_entries_wf jb : wf jb -> wf (limit_entries jb).
Proof.
  intros (Hc & Ha & He). unfold limit_entries. case_decide; [|done].
  split; [|split]; cbn.
  - by apply contiguous_tail.
  - intros r e Hr Hin. cbn in *. apply (Ha r); [done|].
    destruct (queue jb); [done|]. by right.
  - intros e Hl. apply He. apply (last_drop_Some 1). by destruct (queue jb).
Qed.

Lemma push_extend_wf jb e ts seq pkt :
  wf jb -> last (queue jb) = Some e -> (entry_sequence_number e < seq)%Z ->
  (forall r, last_sequence_number_returned jb = Some r -> (r < seq)%Z) ->
  wf (with_queue (queue jb ++ (Vacant <$> seqZ (entry_sequence_number e + 1)
        (seq - entry_sequence_number e - 1)) ++ [Occupied ts seq pkt]) jb).
Proof.
  intros (Hc & Ha & He) Hl Hlt Hr. split; [|split]; cbn.
  - by apply contiguous_extend.
  - intros r x Hret. cbn in *. specialize (Hr _ Hret).
    assert (r < entry_sequence_number e)%Z.
    { apply (Ha r); [done|]. rewrite last_lookup in Hl. by eapply list_elem_of_lookup_2. }
    rewrite !elem_of_app, list_elem_of_singleton. intros [Hin | [Hin | ->]]; cbn; [|..|done].
    + by apply (Ha r).
    + apply list_elem_of_fmap in Hin as (y & -> & Hy%elem_of_seqZ). cbn. lia.
  - intros x. by rewrite app_assoc, last_snoc; intros [= <-].
Qed.

Lemma push_wf ts seq pkt jb : wf jb -> wf (push ts seq pkt jb).
Proof.
  intros Hwf. pose proof Hwf as (Hc & Ha & He). unfold push.
  destruct (match last_sequence_number_returned jb with Some _ => _ | None => _ end) eqn:Hlate; [done|].
  assert (forall r, last_sequence_number_returned jb = Some r -> (r < seq)%Z) as Hr.
  { intros r Hr. rewrite Hr in Hlate. apply bool_decide_eq_false in Hlate. lia. }
  destruct (last (queue jb)) as [e|] eqn:Hl.
  - destruct (Z.compare_spec (entry_sequence_number e) seq) as [Heq|Hlt|Hgt].
    + rewrite (He e) by done. by apply limit_entries_wf.
    + apply limit_entries_wf. by apply push_extend_wf.
    + destruct (fill_rev ts seq pkt (reverse (queue jb))) as [[rq stored]|] eqn:Hf;
        [|by apply limit_entries_wf].
      pose proof (fill_rev_numbers _ _ _ _ _ _ Hf) as Hn.
      assert (wf (with_queue (reverse rq) jb)) as Hwf'.
      { split; [|split]; cbn.
        - by eapply contiguous_same_numbers.
        - by apply above_returned_numbers.
        - intros x Hx. apply fill_rev_Some in Hf as (i & e' & Hi & He' & -> & Hst).
          destruct stored; [|rewrite reverse_involutive in Hx; by apply He].
          rewrite last_reverse in Hx. destruct i as [|i].
          + rewrite head_lookup, list_lookup_insert_eq in Hx by (by apply lookup_lt_Some in Hi).
            by injection Hx as <-.
          + rewrite head_lookup, list_lookup_insert_ne, <-head_lookup, <-last_reverse,
              reverse_involutive in Hx by done. by apply He. }
      destruct stored; [done|]. by destruct Hwf' as (? & ? & ?).
  - apply last_None in Hl. rewrite Hl. split; [|split]; cbn.
    + exists seq. cbn. done.
    + intros r x Hret Hin%list_elem_of_singleton. subst x. cbn. by apply Hr.
    + intros x [= <-]. done.
Qed.

(** ** [pop] *)

Lemma pop_vacant_Ret n q q' :
  pop_vacant n q = Ret q' <->
  n <= length q /\ q' = drop n q /\ forall i e, i < n -> q !! i = Some e -> is_vacant e = true.
Proof.
  revert q; induction n as [|n IH]; intros q; cbn.
  - rewrite drop_0. split; [intros [= ->]; repeat split; lia|]. by intros (_ & -> & _).
  - destruct q as [|[s|ts s p] q]; cbn; [split; [done|lia]| |].
    + rewrite IH. split.
      * intros (? & -> & Hv). repeat split; [lia|]. intros [|i] e Hi He; cbn in He; [by simplify_eq|].
        apply (Hv i); [lia|done].
      * intros (? & -> & Hv). repeat split; [lia|]. intros i e Hi He. apply (Hv (S i)); [lia|done].
    + split; [done|]. intros (_ & _ & Hv). specialize (Hv 0 (Occupied ts s p) ltac:(lia) eq_refl).
      discriminate Hv.
Qed.

Lemma position_due_occupied m q n :
  position (is_due m) q = Some n ->
  exists ts s p, q !! n = Some (Occupied ts s p) /\ (ts <= m)%Z /\ drop n q = Occupied ts s p :: drop (S n) q.
Proof.
  intros (e & He & Hd & _)%position_Some.
  destruct e as [s|ts s p]; cbn in Hd; [done|]. apply bool_decide_eq_true in Hd.
  exists ts, s, p. repeat split; auto. by apply drop_S.
Qed.

(** A successful [pop] that returns a packet. *)
Lemma pop_Some m jb pkt jb' :
  pop m jb = Ret (Some pkt, jb') <->
  exists n ts s, queue jb !! n = Some (Occupied ts s pkt) /\ (ts <= m)%Z /\
    (forall i e, i < n -> queue jb !! i = Some e -> is_vacant e = true) /\
    jb' = {| max_entries := max_entries jb; queue := drop (S n) (queue jb);
             last_sequence_number_returned := Some s; dropped := dropped jb;
             received := received jb; lost := wrap 64 (lost jb + Z.of_nat n) |}.
Proof.
  unfold pop. split.
  - destruct (position _ _) as [n|] eqn:Hp; [|done].
    intros (q & Hq & H)%exec_bind_Ret_inv.
    apply pop_vacant_Ret in Hq as (_ & -> & Hv).
    apply position_due_occupied in Hp as (ts & s & p & Hn & Hts & Hd).
    rewrite Hd in H. simplify_eq. by exists n, ts, s.
  - intros (n & ts & s & Hn & Hts & Hv & ->).
    assert (position (is_due m) (queue jb) = Some n) as ->.
    { apply position_Some. exists (Occupied ts s pkt). split; [done|].
      split; [by cbn; apply bool_decide_eq_true|].
      intros i y Hi Hy. specialize (Hv i y Hi Hy). by destruct y. }
    assert (pop_vacant n (queue jb) = Ret (drop n (queue jb))) as ->.
    { apply pop_vacant_Ret. repeat split; auto. apply lookup_lt_Some in Hn. lia. }
    cbn. by rewrite (drop_S _ _ _ Hn).
Qed.

Lemma pop_None m jb jb' :
  pop m jb = Ret (None, jb') <-> jb' = jb /\ Forall (fun e => is_due m e = false) (queue jb).
Proof.
  unfold pop. destruct (position _ _) as [n|] eqn:Hp.
  - split.
    + intros (q & _ & H)%exec_bind_Ret_inv. by destruct q as [|[|]]; simplify_eq.
    + intros [_ Hf]. apply position_None in Hf. congruence.
  - apply position_None in Hp. naive_solver.
Qed.

Lemma pop_wf m jb o jb' : wf jb -> pop m jb = Ret (o, jb') -> wf jb'.
Proof.
  intros Hwf Hp. destruct o as [pkt|]; [|by apply pop_None in Hp as [-> _]].
  apply pop_Some in Hp as (n & ts & s & Hn & _ & _ & ->).
  destruct Hwf as (Hc & Ha & He). split; [|split]; cbn [queue].
  - by apply contiguous_drop.
  - intros r e [= <-] Hin. cbn in Hin.
    destruct Hc as [s0 Hs0]. apply list_elem_of_lookup in Hin as [i Hi].
    rewrite lookup_drop in Hi.
    pose proof (contiguous_lookup _ _ _ _ Hs0 Hn) as H1. cbn in H1.
    rewrite (contiguous_lookup _ _ _ _ Hs0 Hi). lia.
  - intros e Hl. apply He. by eapply last_drop_Some.
Qed.

(** ** Runs of operations *)

Inductive op :=
| OpPush (timestamp sequence_number : Z) (packet : RtpPacket.t)
| OpPop (max_timestamp : Z).

(** A run of calls and the numbers of the packets it handed out, in order. *)
Fixpoint run (ops : list op) (jb : JitterBuffer) : exec (list Z * JitterBuffer) :=
  match ops with
  | [] => Ret ([], jb)
  | OpPush ts seq pkt :: ops => run ops (push ts seq pkt jb)
  | OpPop m :: ops =>
      '(o, jb) ← pop m jb;
      '(log, jb') ← run ops jb;
      Ret (match o, last_sequence_number_returned jb with
           | Some _, Some s => s :: log
           | _, _ => log
           end, jb')
  end.

Lemma push_last_returned ts seq pkt jb :
  last_sequence_number_returned (push ts seq pkt jb) = last_sequence_number_returned jb.
Proof.
  unfold push, limit_entries.
  repeat (case_match || case_decide); cbn; congruence.
Qed.

Lemma pop_last_returned m jb pkt jb' :
  wf jb -> pop m jb = Ret (Some pkt, jb') ->
  exists s, last_sequence_number_returned jb' = Some s /\
    forall r, last_sequence_number_returned jb = Some r -> (r < s)%Z.
Proof.
  intros (_ & Ha & _) (n & ts & s & Hn & _ & _ & ->)%pop_Some. exists s. split; [done|].
  intros r Hr. apply (Ha r (Occupied ts s pkt) Hr). by eapply list_elem_of_lookup_2.
Qed.

Lemma run_ordered ops jb log jb' :
  wf jb -> run ops jb = Ret (log, jb') ->
  StronglySorted Z.lt log /\
  (forall r, last_sequence_number_returned jb = Some r -> Forall (Z.lt r) log) /\ wf jb'.
Proof.
  revert jb log. induction ops as [|[ts seq pkt|m] ops IH]; intros jb log Hwf; cbn.
  - intros [= <- <-]. split; [constructor|]. split; [|done]. intros; constructor.
  - intros H. specialize (IH _ _ (push_wf ts seq pkt jb Hwf) H). by rewrite push_last_returned in IH.
  - intros ([o jb1] & Hp & ([log1 jb2] & Hr & [= <- <-])%exec_bind_Ret_inv)%exec_bind_Ret_inv.
    destruct (IH _ _ (pop_wf _ _ _ _ Hwf Hp) Hr) as (Hs & Hf & Hw).
    destruct o as [pkt|].
    + destruct (pop_last_returned _ _ _ _ Hwf Hp) as (s & Hl & Hlt). rewrite Hl.
      specialize (Hf _ Hl). split; [by constructor|]. split; [|done].
      intros r Hr1. constructor; [by apply Hlt|]. specialize (Hlt _ Hr1).
      eapply Forall_impl; [exact Hf|]. cbn. intros; lia.
    + apply pop_None in Hp as [-> _]. done.
Qed.

Lemma default_wf : wf default_buffer.
Proof.
  split; [by exists 0%Z|]. split; [by intros ? ? [=]|]. by intros ? [=].
Qed.

(** ** Properties *)

(** C25: Over any sequence of [push] and [pop] calls on a new buffer that does
    not panic, the packets handed out carry strictly increasing extended
    sequence numbers, and the queue stays contiguous, above the last number
    returned, and ends in a packet. *)
Theorem run_in_order ops log jb :
  run ops default_buffer = Ret (log, jb) -> StronglySorted Z.lt log /\ wf jb.
Proof. intros H. destruct (run_ordered _ _ _ _ default_wf H) as (? & _ & ?). done. Qed.

Definition pkt0 : RtpPacket.t :=
  {| RtpPacket.pt := 0; RtpPacket.sequence_number := 1; RtpPacket.ssrc := 0; RtpPacket.timestamp := 0;
     RtpPacket.extensions := {| RtpPacket.mid := None |}; RtpPacket.payload := [] |}.

Lemma run_in_order_witness :
  exists jb, run [OpPush 100 1 pkt0; OpPush 400 4 pkt0; OpPush 300 3 pkt0; OpPop 500; OpPop 500;
                  OpPop 500] default_buffer = Ret ([1; 3; 4]%Z, jb) /\
    StronglySorted Z.lt [1; 3; 4]%Z /\ wf jb.
Proof.
  eexists. split; [vm_compute; reflexivity|].
  eapply (run_in_order [OpPush 100 1 pkt0; OpPush 400 4 pkt0; OpPush 300 3 pkt0; OpPop 500; OpPop 500;
                  OpPop 500]). vm_compute. reflexivity.
Defined.

Lemma earliest_Some q ts :
  earliest q = Some ts <->
  exists (i : nat) s p, q !! i = Some (Occupied ts s p) /\
    forall k e, k < i -> q !! k = Some e -> is_vacant e = true.
Proof.
  induction q as [|[s|ts1 s1 p1] q IH]; cbn.
  - split; [done|]. intros (i & s & p & H & _). by rewrite lookup_nil in H.
  - rewrite IH. split.
    + intros (i & s' & p & Hi & Hv). exists (S i), s', p. split; [done|].
      intros [|k] e Hk He; cbn in He; [by simplify_eq|]. apply (Hv k); [lia|done].
    + intros ([|i] & s' & p & Hi & Hv); [done|]. exists i, s', p. split; [done|].
      intros k e Hk He. apply (Hv (S k)); [lia|done].
  - split.
    + intros [= ->]. exists 0, s1, p1. split; [done|]. lia.
    + intros ([|i] & s' & p & Hi & Hv); [by cbn in Hi; simplify_eq|].
      specialize (Hv 0 _ ltac:(lia) eq_refl). done.
Qed.

Lemma earliest_None q : earliest q = None <-> Forall (fun e => is_vacant e = true) q.
Proof.
  induction q as [|[s|ts1 s1 p1] q IH]; cbn.
  - by split; [constructor|].
  - rewrite Forall_cons, IH. naive_solver.
  - rewrite Forall_cons. naive_solver.
Qed.

(** [pop] skips only vacant entries when the first queued packet is due. *)
Lemma pop_first_due m jb ts :
  timestamp_of_earliest_packet jb = Some ts -> (ts <= m)%Z ->
  exists pkt jb', pop m jb = Ret (Some pkt, jb').
Proof.
  intros (i & s & p & Hi & Hv)%earliest_Some Hts. exists p. eexists.
  apply pop_Some. exists i, ts, s. by repeat split.
Qed.

(** [pop] panics (its assertion that the skipped entries are vacant
    fails) exactly when the first queued packet is not due and a later one
    is. *)
Theorem pop_panics_iff m jb :
  pop m jb = Panic <->
  exists ts, timestamp_of_earliest_packet jb = Some ts /\ (m < ts)%Z /\
    Exists (fun e => is_due m e = true) (queue jb).
Proof.
  destruct (timestamp_of_earliest_packet jb) as [ts|] eqn:He.
  - destruct (decide (ts <= m)%Z) as [Hle|Hgt].
    + destruct (pop_first_due _ _ _ He Hle) as (pkt & jb' & ->). split; [done|].
      intros (ts' & [= <-] & ? & _). lia.
    + split.
      * intros Hp. exists ts. split; [done|]. split; [lia|].
        unfold pop in Hp. destruct (position _ _) as [n|] eqn:Hpos; [|done].
        apply position_Some in Hpos as (x & Hx & Hd & _).
        apply Exists_exists. exists x. split; [|done]. by eapply list_elem_of_lookup_2.
      * intros (ts' & [= <-] & _ & Hex).
        destruct (pop m jb) as [[[pkt|] jb']|] eqn:Hp; [| |done].
        -- apply pop_Some in Hp as (n & ts1 & s & Hn & Hts & Hv & _).
           assert (Some ts1 = Some ts) as [= ->]; [|lia].
           rewrite <-He. symmetry. apply earliest_Some. by exists n, s, pkt.
        -- apply pop_None in Hp as [_ Hf]. apply Exists_exists in Hex as (x & Hin & Hx).
           rewrite Forall_forall in Hf. specialize (Hf x Hin). cbn in Hf. congruence.
  - apply earliest_None in He. split; [|by intros (? & ? & _)].
    intros Hp. unfold pop in Hp. destruct (position _ _) as [n|] eqn:Hpos; [|done].
    apply position_due_occupied in Hpos as (ts & s & p & Hn & _ & _).
    eapply Forall_lookup_1 in He; [|exact Hn]. done.
Qed.

(** Taking packets with one limit until [pop] returns [None]. *)
Fixpoint drain (fuel : nat) (m : Z) (jb : JitterBuffer) : exec (list RtpPacket.t * JitterBuffer) :=
  match fuel with
  | O => Ret ([], jb)
  | S fuel =>
      '(o, jb) ← pop m jb;
      match o with
      | None => Ret ([], jb)
      | Some pkt => '(pkts, jb) ← drain fuel m jb; Ret (pkt :: pkts, jb)
      end
  end.

Definition entry_packet (e : QueueEntry) : option RtpPacket.t :=
  match e with Vacant _ => None | Occupied _ _ p => Some p end.

Definition vacant_count (q : list QueueEntry) : nat := length (filter (fun e => is_vacant e = true) q).

Lemma vacant_prefix (q : list QueueEntry) n :
  n <= length q -> (forall i e, i < n -> q !! i = Some e -> is_vacant e = true) ->
  omap entry_packet (take n q) = [] /\ vacant_count (take n q) = n.
Proof.
  revert q; induction n as [|n IH]; intros q Hn Hv; [done|].
  destruct q as [|e q]; cbn in Hn; [lia|].
  destruct (IH q ltac:(lia)) as [H1 H2].
  { intros i x Hi Hx. apply (Hv (S i)); [lia|done]. }
  pose proof (Hv 0 e ltac:(lia) eq_refl) as He. destruct e as [s|]; [|done].
  change (take (S n) (Vacant s :: q)) with (Vacant s :: take n q).
  unfold vacant_count in *. rewrite filter_cons_True by done. cbn [omap list_omap entry_packet length].
  by rewrite H1, H2.
Qed.

Lemma vacant_count_app q1 q2 : vacant_count (q1 ++ q2) = vacant_count q1 + vacant_count q2.
Proof. unfold vacant_count. by rewrite filter_app, length_app. Qed.

(** Whatever the order of arrival: once everything is due, popping delivers
    the queued packets in order, counts every gap as lost, and empties the
    queue. *)
Lemma drain_all m fuel jb :
  ends_occupied (queue jb) ->
  Forall (fun e => is_vacant e = true \/ is_due m e = true) (queue jb) ->
  length (queue jb) <= fuel ->
  exists jb', drain fuel m jb = Ret (omap entry_packet (queue jb), jb') /\
    queue jb' = [] /\
    wrap 64 (lost jb') = wrap 64 (lost jb + Z.of_nat (vacant_count (queue jb))).
Proof.
  revert jb. induction fuel as [|fuel IH]; intros jb He Hdue Hlen.
  { destruct (queue jb) eqn:Hq; cbn in Hlen; [|lia]. exists jb. rewrite Hq. cbn.
    by rewrite Z.add_0_r. }
  cbn [drain]. destruct (timestamp_of_earliest_packet jb) as [ts|] eqn:Hts.
  - pose proof Hts as (i & s & p & Hi & Hv)%earliest_Some.
    assert (ts <= m)%Z as Hle.
    { eapply Forall_lookup_1 in Hdue; [|exact Hi]. destruct Hdue as [[=]|Hd].
      by apply bool_decide_eq_true in Hd. }
    destruct (pop_first_due _ _ _ Hts Hle) as (pkt & jb1 & Hp). rewrite Hp. cbn.
    pose proof (lookup_lt_Some _ _ _ Hi) as Hlt.
    pose proof Hp as (n & ts1 & s1 & Hn & _ & Hv1 & ->)%pop_Some.
    assert (n = i) as ->.
    { destruct (lt_eq_lt_dec n i) as [[?|?]|?]; [|done|].
      - specialize (Hv n _ ltac:(lia) Hn). done.
      - specialize (Hv1 i _ ltac:(lia) Hi). done. }
    rewrite Hi in Hn. injection Hn as <- <- <-.
    edestruct IH as (jb' & Hd & Hq & Hl).
    4:{ rewrite Hd. cbn [mbind exec_bind queue]. exists jb'.
        destruct (vacant_prefix (queue jb) i ltac:(lia) Hv) as [Ho Hc].
        pose proof (take_drop i (queue jb)) as Hsplit. rewrite (drop_S _ _ _ Hi) in Hsplit.
        split; [|split; [done|]].
        - rewrite <-Hsplit at 2. rewrite omap_app, Ho. done.
        - rewrite Hl. cbn [queue lost].
          rewrite <-Hsplit at 2. rewrite vacant_count_app, Hc.
          assert (vacant_count (Occupied ts s p :: drop (S i) (queue jb)) =
                  vacant_count (drop (S i) (queue jb))) as ->.
          { unfold vacant_count. by rewrite filter_cons_False. }
          unfold wrap. rewrite Zplus_mod_idemp_l. f_equal. lia. }
    + cbn [queue]. intros e Hl. apply He. by eapply last_drop_Some.
    + cbn. by apply Forall_drop.
    + cbn. rewrite length_drop. lia.
  - apply earliest_None in Hts.
    assert (queue jb = []) as Hq.
    { destruct (last (queue jb)) as [e|] eqn:Hl; [|by apply last_None].
      specialize (He _ Hl). apply last_Some_elem_of in Hl.
      rewrite Forall_forall in Hts. specialize (Hts e Hl). cbn in Hts. congruence. }
    exists jb. unfold pop. rewrite Hq. cbn. by rewrite Z.add_0_r.
Qed.

(** Whatever the order of arrival, once everything queued is due, popping
    until nothing is left delivers exactly the queued packets in sequence
    order, adds the number of missing ones to [lost], and empties the queue. *)
Theorem drain_delivers_all m jb :
  wf jb -> Forall (fun e => is_vacant e = true \/ is_due m e = true) (queue jb) ->
  exists jb', drain (length (queue jb)) m jb = Ret (omap entry_packet (queue jb), jb') /\
    queue jb' = [] /\
    wrap 64 (lost jb') = wrap 64 (lost jb + Z.of_nat (vacant_count (queue jb))).
Proof. intros (_ & _ & He) Hdue. by apply drain_all. Qed.

Definition sample_buffer : JitterBuffer :=
  push 300 3 pkt0 (push 400 4 pkt0 (push 100 1 pkt0 default_buffer)).

Lemma sample_wf : wf sample_buffer.
Proof. repeat apply push_wf. apply default_wf. Qed.

Lemma drain_delivers_all_witness :
  exists jb', drain 4 400 sample_buffer = Ret ([pkt0; pkt0; pkt0], jb') /\ queue jb' = [] /\
    wrap 64 (lost jb') = 1%Z.
Proof.
  apply (drain_delivers_all 400 sample_buffer sample_wf).
  repeat constructor; (by left) || (by right).
Defined.

(** ** What [push] stores *)

Lemma contiguous_head s (q : list QueueEntry) e :
  entry_sequence_number <$> q = seqZ s (Z.of_nat (length q)) -> head q = Some e ->
  entry_sequence_number e = s.
Proof. rewrite head_lookup. intros Hq He. rewrite (contiguous_lookup _ _ _ _ Hq He). lia. Qed.

Lemma contiguous_number_inj q i j e e' :
  contiguous q -> q !! i = Some e -> q !! j = Some e' ->
  entry_sequence_number e = entry_sequence_number e' -> i = j.
Proof.
  intros [s Hs] Hi Hj. rewrite (contiguous_lookup _ _ _ _ Hs Hi), (contiguous_lookup _ _ _ _ Hs Hj). lia.
Qed.

(** Between the first and the last number every number has its entry. *)
Lemma contiguous_has q e e' n :
  contiguous q -> head q = Some e -> last q = Some e' ->
  (entry_sequence_number e <= n <= entry_sequence_number e')%Z ->
  exists x, x ∈ q /\ entry_sequence_number x = n.
Proof.
  intros [s Hs] Hh Hl Hn.
  rewrite (contiguous_head _ _ _ Hs Hh) in Hn. rewrite last_lookup in Hl.
  rewrite (contiguous_lookup _ _ _ _ Hs Hl) in Hn. apply lookup_lt_Some in Hl.
  destruct (lookup_lt_is_Some_2 q (Z.to_nat (n - s))) as [x Hx]; [lia|].
  exists x. split; [by eapply list_elem_of_lookup_2|].
  rewrite (contiguous_lookup _ _ _ _ Hs Hx). lia.
Qed.

Lemma limit_entries_fits jb : length (queue jb) <= max_entries jb -> limit_entries jb = jb.
Proof. intros. unfold limit_entries. case_decide; [lia|done]. Qed.

(** The packets [push] takes. *)
Definition accepts (jb : JitterBuffer) (seq : Z) : Prop :=
  (forall r, last_sequence_number_returned jb = Some r -> (r < seq)%Z) /\
  (forall e, head (queue jb) = Some e -> (entry_sequence_number e <= seq)%Z) /\
  (forall ts p, Occupied ts seq p ∉ queue jb).

(** The queue is long enough for the number. *)
Definition fits (jb : JitterBuffer) (seq : Z) : Prop :=
  length (queue jb) <= max_entries jb /\
  forall e, head (queue jb) = Some e -> (seq - entry_sequence_number e < Z.of_nat (max_entries jb))%Z.

Lemma fill_rev_holds ts seq pkt jb rq stored ts' k p' :
  contiguous (queue jb) -> fill_rev ts seq pkt (reverse (queue jb)) = Some (rq, stored) ->
  Occupied ts' k p' ∈ reverse rq <->
  (stored = true /\ ts' = ts /\ k = seq /\ p' = pkt) \/ Occupied ts' k p' ∈ queue jb.
Proof.
  intros Hc (i & e & Hi & He & -> & Hst)%fill_rev_Some. rewrite elem_of_reverse.
  destruct stored; [|rewrite elem_of_reverse; naive_solver].
  rewrite <-(elem_of_reverse _ (queue jb)), !list_elem_of_lookup.
  pose proof (lookup_lt_Some _ _ _ Hi) as Hlt. split.
  - intros [j Hj]. destruct (decide (i = j)) as [<-|Hij].
    + rewrite list_lookup_insert_eq in Hj by done. left. by simplify_eq.
    + rewrite list_lookup_insert_ne in Hj by done. right. by exists j.
  - intros [(_ & -> & -> & ->) | [j Hj]].
    + exists i. by rewrite list_lookup_insert_eq.
    + exists j. rewrite list_lookup_insert_ne; [done|]. intros <-.
      rewrite Hi in Hj. injection Hj as ->. done.
Qed.

Lemma extend_length jb e e0 seq ts pkt :
  contiguous (queue jb) -> fits jb seq -> head (queue jb) = Some e0 -> last (queue jb) = Some e ->
  (entry_sequence_number e < seq)%Z ->
  length (queue jb ++ (Vacant <$> seqZ (entry_sequence_number e + 1) (seq - entry_sequence_number e - 1))
      ++ [Occupied ts seq pkt]) <= max_entries jb.
Proof.
  intros [s Hs] [_ Hf] Hh Hl Hlt. specialize (Hf _ Hh).
  rewrite (contiguous_head _ _ _ Hs Hh) in Hf. rewrite last_lookup in Hl.
  rewrite !length_app, length_fmap, length_seqZ. cbn [length].
  rewrite (contiguous_lookup _ _ _ _ Hs Hl) in *. apply lookup_lt_Some in Hl. lia.
Qed.

Lemma extend_holds ts seq pkt jb e e0 ts' k p' :
  contiguous (queue jb) -> last (queue jb) = Some e -> head (queue jb) = Some e0 ->
  (forall r, last_sequence_number_returned jb = Some r -> (r < seq)%Z) ->
  (entry_sequence_number e < seq)%Z ->
  Occupied ts' k p' ∈ queue jb ++ (Vacant <$> seqZ (entry_sequence_number e + 1)
      (seq - entry_sequence_number e - 1)) ++ [Occupied ts seq pkt] <->
  (accepts jb seq /\ ts' = ts /\ k = seq /\ p' = pkt) \/ Occupied ts' k p' ∈ queue jb.
Proof.
  intros [s Hs] Hl Hh Hr Hlt. rewrite last_lookup in Hl.
  rewrite (contiguous_lookup _ _ _ _ Hs Hl) in Hlt.
  rewrite !elem_of_app, list_elem_of_singleton, list_elem_of_fmap. split.
  - intros [?|[(? & ? & _)|[= -> -> ->]]]; [by right|done|left].
    split; [|done]. split; [done|]. split.
    + intros x Hx. rewrite (contiguous_head _ _ _ Hs Hx). lia.
    + intros t p [i Hi]%list_elem_of_lookup.
      pose proof (contiguous_lookup _ _ _ _ Hs Hi) as Hx. cbn in Hx.
      apply lookup_lt_Some in Hi. lia.
  - intros [(_ & -> & -> & ->)|?]; [by right; right|by left].
Qed.

(** The reverse search succeeds exactly on the numbers between the first and
    the last entry, and stores exactly what [accepts] says. *)
Lemma fill_rev_accepts ts seq pkt jb rq stored :
  contiguous (queue jb) -> (forall r, last_sequence_number_returned jb = Some r -> (r < seq)%Z) ->
  fill_rev ts seq pkt (reverse (queue jb)) = Some (rq, stored) ->
  accepts jb seq <-> stored = true.
Proof.
  intros Hc Hr (i & x & Hi & Hx & _ & ->)%fill_rev_Some.
  assert (x ∈ queue jb) as Hxin by (apply elem_of_reverse; by eapply list_elem_of_lookup_2).
  split.
  - intros (_ & _ & Hno). destruct x as [|t s p]; [done|]. cbn in Hx. subst. by destruct (Hno t p).
  - intros Hv. split; [done|]. apply list_elem_of_lookup in Hxin as [j Hj]. split.
    + intros y Hy. destruct Hc as [s Hs]. rewrite (contiguous_head _ _ _ Hs Hy).
      rewrite <-Hx, (contiguous_lookup _ _ _ _ Hs Hj). lia.
    + intros t p [a Ha]%list_elem_of_lookup.
      rewrite (contiguous_number_inj _ _ _ _ _ Hc Ha Hj) in Ha by done.
      rewrite Ha in Hj. by injection Hj as <-.
Qed.

Lemma fill_rev_misses ts seq pkt jb e e0 :
  contiguous (queue jb) -> last (queue jb) = Some e -> head (queue jb) = Some e0 ->
  (seq < entry_sequence_number e)%Z ->
  fill_rev ts seq pkt (reverse (queue jb)) = None -> ~ accepts jb seq.
Proof.
  intros Hc Hl Hh Hlt Hfill (_ & Hge & _). specialize (Hge _ Hh).
  apply fill_rev_None in Hfill. rewrite Forall_reverse, Forall_forall in Hfill.
  destruct (contiguous_has _ _ _ seq Hc Hh Hl ltac:(lia)) as (x & Hxin & Hx). by destruct (Hfill x).
Qed.

(** Within the window (the number is less than [max_entries] past the
    first queued one) [push] is insertion into a set of packets: it adds the
    packet when its number is above the last one returned, not below the
    first queued one and not yet queued, and keeps every other packet. *)
Theorem push_stores ts seq pkt jb ts' k p' :
  wf jb -> fits jb seq ->
  Occupied ts' k p' ∈ queue (push ts seq pkt jb) <->
  (accepts jb seq /\ ts' = ts /\ k = seq /\ p' = pkt) \/ Occupied ts' k p' ∈ queue jb.
Proof.
  intros (Hc & Ha & He) Hf. unfold push.
  destruct (match last_sequence_number_returned jb with Some _ => _ | None => _ end) eqn:Hlate.
  { destruct (last_sequence_number_returned jb) as [r|] eqn:Hr; [|done].
    apply bool_decide_eq_true in Hlate. cbn. split; [by right|].
    intros [[(Hlt & _) _]|?]; [|done]. specialize (Hlt r Hr). lia. }
  assert (forall r, last_sequence_number_returned jb = Some r -> (r < seq)%Z) as Hr.
  { intros r Hr. rewrite Hr in Hlate. apply bool_decide_eq_false in Hlate. lia. }
  destruct (last (queue jb)) as [e|] eqn:Hl.
  - assert (exists e0, head (queue jb) = Some e0) as [e0 Hh] by (destruct (queue jb); [done|by eexists]).
    assert (e ∈ queue jb) as Hin by by apply last_Some_elem_of.
    destruct (Z.compare_spec (entry_sequence_number e) seq) as [Heq|Hlt|Hgt].
    + rewrite (He e Hl), limit_entries_fits by (apply Hf). cbn.
      split; [by right|]. intros [[(_ & _ & Hno) _]|?]; [|done].
      destruct e as [|t s p]; [by specialize (He _ Hl)|]. cbn in Heq. subst. by destruct (Hno t p).
    + rewrite limit_entries_fits by (cbn; by eapply extend_length). by apply (extend_holds _ _ _ _ _ e0).
    + destruct (fill_rev ts seq pkt (reverse (queue jb))) as [[rq stored]|] eqn:Hfill.
      * rewrite (fill_rev_accepts _ _ _ _ _ _ Hc Hr Hfill), <-(fill_rev_holds _ _ _ _ _ _ _ _ _ Hc Hfill).
        by destruct stored.
      * rewrite limit_entries_fits by (apply Hf).
        pose proof (fill_rev_misses _ _ _ _ _ _ Hc Hl Hh Hgt Hfill). naive_solver.
  - apply last_None in Hl. cbn. unfold accepts. rewrite Hl. cbn.
    rewrite list_elem_of_singleton. split.
    + intros [= -> -> ->]. left. split; [|done]. split; [done|]. split; [done|].
      intros ? ?. apply not_elem_of_nil.
    + intros [(_ & -> & -> & ->)|H]; [done|]. by apply not_elem_of_nil in H.
Qed.

Lemma sample_fits : fits sample_buffer 2.
Proof. split; [vm_compute; lia|]. intros e [= <-]. reflexivity. Qed.

Lemma push_stores_witness :
  Occupied 200 2 pkt0 ∈ queue (push 200 2 pkt0 sample_buffer) /\
  Occupied 100 1 pkt0 ∈ queue (push 200 2 pkt0 sample_buffer).
Proof.
  split; apply (push_stores 200 2 pkt0 sample_buffer _ _ _ sample_wf sample_fits).
  - left. split; [|done]. split; [by intros ? [=]|]. split; [by intros ? [= <-]|].
    intros ts p H. vm_compute in H.
    repeat (apply elem_of_cons in H as [H|H]; [discriminate H|]). by apply not_elem_of_nil in H.
  - right. vm_compute. apply elem_of_cons. by left.
Defined.

(** A number below the first queued one is discarded, and no counter records it. *)
Lemma push_before_front ts seq pkt jb e :
  wf jb -> length (queue jb) <= max_entries jb ->
  (forall r, last_sequence_number_returned jb = Some r -> (r < seq)%Z) ->
  head (queue jb) = Some e -> (seq < entry_sequence_number e)%Z ->
  push ts seq pkt jb = jb.
Proof.
  intros (Hc & _ & _) Hlen Hr Hh Hlt. unfold push.
  assert (match last_sequence_number_returned jb with
          | Some r => bool_decide (seq <= r)%Z | None => false end = false) as ->.
  { destruct (last_sequence_number_returned jb) as [r|]; [|done].
    apply bool_decide_eq_false. specialize (Hr r eq_refl). lia. }
  destruct (last (queue jb)) as [e'|] eqn:Hl; [|apply last_None in Hl; by rewrite Hl in Hh].
  destruct Hc as [s Hs]. rewrite (contiguous_head _ _ _ Hs Hh) in Hlt.
  assert (fill_rev ts seq pkt (reverse (queue jb)) = None) as ->.
  { apply fill_rev_None. apply Forall_reverse, Forall_forall.
    intros x [i Hi]%list_elem_of_lookup. rewrite (contiguous_lookup _ _ _ _ Hs Hi). lia. }
  rewrite last_lookup in Hl. rewrite (contiguous_lookup _ _ _ _ Hs Hl).
  rewrite (proj2 (Z.compare_gt_iff _ _)) by lia. by apply limit_entries_fits.
Qed.

(** The queue bound is not enforced: a packet [gap] past the newest entry
    of a non-empty queue adds [gap] entries and removes one, so a gap larger
    than [max_entries] leaves the queue longer than [max_entries]. *)
Theorem push_gap_exceeds_max ts seq pkt jb e :
  last (queue jb) = Some e ->
  (forall r, last_sequence_number_returned jb = Some r -> (r < seq)%Z) ->
  (Z.of_nat (max_entries jb) < seq - entry_sequence_number e)%Z ->
  Z.of_nat (length (queue (push ts seq pkt jb))) =
    (Z.of_nat (length (queue jb)) + (seq - entry_sequence_number e) - 1)%Z /\
  max_entries jb < length (queue (push ts seq pkt jb)).
Proof.
  intros Hl Hr Hgap. unfold push.
  assert (match last_sequence_number_returned jb with
          | Some r => bool_decide (seq <= r)%Z | None => false end = false) as ->.
  { destruct (last_sequence_number_returned jb) as [r|]; [|done].
    apply bool_decide_eq_false. specialize (Hr r eq_refl). lia. }
  rewrite Hl. rewrite (proj2 (Z.compare_lt_iff _ _)) by lia.
  unfold limit_entries. rewrite decide_True; cbn; [|rewrite !length_app, length_fmap, length_seqZ; cbn; lia].
  assert (queue jb <> []) by (intros Hn; by rewrite Hn in Hl).
  destruct (queue jb) as [|x q]; [done|]. cbn.
  rewrite !length_app, length_fmap, length_seqZ. cbn. lia.
Qed.

Lemma push_gap_exceeds_max_witness :
  1000 < length (queue (push 500 5004 pkt0 sample_buffer)) /\
  length (queue (push 500 5004 pkt0 sample_buffer)) = 5003.
Proof.
  destruct (push_gap_exceeds_max 500 5004 pkt0 sample_buffer (Occupied 400 4 pkt0))
    as [H1 H2]; [reflexivity|by intros ? [=]|reflexivity|].
  split; [exact H2|].
  apply Nat2Z.inj. rewrite H1. reflexivity.
Defined.

(** No operation counts a received packet. *)
Lemma push_received ts seq pkt jb : received (push ts seq pkt jb) = received jb.
Proof. unfold push, limit_entries. repeat (case_match || case_decide); cbn; congruence. Qed.

Lemma pop_received m jb o jb' : pop m jb = Ret (o, jb') -> received jb' = received jb.
Proof.
  destruct o as [pkt|]; [|by intros [-> _]%pop_None].
  by intros (n & ts & s & _ & _ & _ & ->)%pop_Some.
Qed.

Lemma run_received ops jb log jb' : run ops jb = Ret (log, jb') -> received jb' = received jb.
Proof.
  revert jb log. induction ops as [|[ts seq pkt|m] ops IH]; intros jb log; cbn.
  - by intros [= _ <-].
  - intros H. by rewrite (IH _ _ H), push_received.
  - intros ([o jb1] & Hp & ([log1 jb2] & Hr & [= <- <-])%exec_bind_Ret_inv)%exec_bind_Ret_inv.
    by rewrite (IH _ _ Hr), (pop_received _ _ _ _ Hp).
Qed.
