(* ===== verification/Float.v ===== *)
(** * Floating point numbers

    [f32] and [f64] of Rust are the binary formats of IEEE 754 as the standard
    library specifies them; [as] casts between them and integers. *)
From Stdlib Require Export Floats.SpecFloat.
From S2P Require Import Prelude.
Local Open Scope Z_scope.

(** ** The two formats *)
Definition float := spec_float.

Module F32.
Definition of_Z (z : Z) : float := binary_normalize 24 128 z 0 false.
Definition add : float -> float -> float := SFadd 24 128.
Definition sub : float -> float -> float := SFsub 24 128.
Definition mul : float -> float -> float := SFmul 24 128.
Definition div : float -> float -> float := SFdiv 24 128.
End F32.

Module F64.
Definition of_Z (z : Z) : float := binary_normalize 53 1024 z 0 false.
Definition add : float -> float -> float := SFadd 53 1024.
Definition sub : float -> float -> float := SFsub 53 1024.
Definition mul : float -> float -> float := SFmul 53 1024.
Definition div : float -> float -> float := SFdiv 53 1024.
End F64.

(** The integer part of [m * 2 ^ e] *)
Definition magnitude (m : positive) (e : Z) : Z := Z.shiftl (Zpos m) e.

(** [f as i64], [f as u32] and the like: towards zero, within the bounds of the
    type; zero for what is not a number *)
Definition to_int (lo hi : Z) (f : float) : Z :=
  match f with
  | S754_zero _ | S754_nan => 0
  | S754_infinity s => if s then lo else hi
  | S754_finite s m e => Z.max lo (Z.min hi (if s then - magnitude m e else magnitude m e))
  end.
Definition to_uint (w : Z) : float -> Z := to_int 0 (2 ^ w - 1).
Definition to_sint (w : Z) : float -> Z := to_int (- 2 ^ (w - 1)) (2 ^ (w - 1) - 1).

(** [n / d], to the nearest integer, to the even one if both are as near *)
Definition round_div (n d : Z) : Z :=
  let q := n / d in
  match Z.compare (2 * (n mod d)) d with
  | Lt => q
  | Gt => q + 1
  | Eq => if Z.even q then q else q + 1
  end.

(** [Duration::from_secs_f32], in nanoseconds: no negative number, none that
    is not a number or has 2^64 seconds and more *)
Definition from_secs_f32 (f : float) : exec Z :=
  match f with
  | S754_zero _ => Ret 0
  | S754_infinity _ | S754_nan => Panic
  | S754_finite true _ _ => Panic
  | S754_finite false m e =>
      if decide (2 ^ 64 <= magnitude m e) then Panic
      else Ret (if decide (0 <= e) then magnitude m e * 1000000000
                else round_div (Zpos m * 1000000000) (2 ^ (- e)))
  end.

(** [Duration::as_secs_f32] of nanoseconds *)
Definition as_secs_f32 (d : Z) : float :=
  F32.add (F32.of_Z (d / 1000000000)) (F32.div (F32.of_Z (d mod 1000000000)) (F32.of_Z 1000000000)).

(** ** Casts stay within the type *)
Lemma to_int_range lo hi f : lo <= 0 <= hi -> lo <= to_int lo hi f <= hi.
Proof. intros H. destruct f as [[]|[]| |[] m e]; cbn [to_int]; lia. Qed.

Lemma to_uint_range w f : 0 <= w -> uint w (to_uint w f).
Proof.
  intros H. pose proof (to_int_range 0 (2 ^ w - 1) f) as Hr. unfold uint, to_uint.
  pose proof (Z.pow_pos_nonneg 2 w ltac:(lia) H). lia.
Qed.

(** ** A positive number divided by itself

    The division of a number by itself is one. *)
Lemma div_same_core m e : SFdiv_core_binary 53 1024 (Zpos m) e (Zpos m) e = (2 ^ 53, - 53, loc_Exact).
Proof.
  unfold SFdiv_core_binary. rewrite !Z.sub_diag. change (Z.min (fexp 53 1024 0) 0) with (-53).
  change (0 - -53) with 53. cbv beta iota zeta.
  pose proof (Z_div_mod (Z.shiftl (Zpos m) 53) (Zpos m) ltac:(lia)) as H.
  destruct (Z.div_eucl _ (Zpos m)) as [q r]. destruct H as [H1 H2].
  rewrite Z.shiftl_mul_pow2 in H1 by lia.
  assert (2 ^ 53 = q /\ 0 = r) as [<- <-] by (apply (Z.div_mod_unique (Zpos m)); lia).
  unfold new_location. f_equal. destruct (Z.even (Zpos m)); reflexivity.
Qed.

Lemma div_same m e : F64.div (S754_finite false m e) (S754_finite false m e) = F64.of_Z 1.
Proof. unfold F64.div, SFdiv. rewrite div_same_core. vm_compute. reflexivity. Qed.

Lemma digits_lower p : 2 ^ (Zpos (digits2_pos p) - 1) <= Zpos p.
Proof.
  induction p as [p IH|p IH|]; cbn [digits2_pos]; [| |done].
  all: rewrite Pos2Z.inj_succ.
  all: replace (Z.succ (Zpos (digits2_pos p)) - 1) with (Z.succ (Zpos (digits2_pos p) - 1)) by lia.
  all: rewrite Z.pow_succ_r by lia; lia.
Qed.

Lemma digits_upper p n : 0 <= n -> Zpos p < 2 ^ n -> Zpos (digits2_pos p) <= n.
Proof.
  intros Hn H. pose proof (digits_lower p) as Hl.
  assert (Zpos (digits2_pos p) - 1 < n); [|lia].
  apply (Z.pow_lt_mono_r_iff 2); lia.
Qed.

Lemma digits_shifted p n : Zpos (digits2_pos (Pos.iter xO p n)) = Zpos n + Zpos (digits2_pos p).
Proof.
  induction n as [|n IH] using Pos.peano_ind; [cbn; lia|].
  rewrite Pos.iter_succ. cbn [digits2_pos]. lia.
Qed.

(** A mantissa with all its digits is not rounded. *)
Lemma round_full p e : Zpos (digits2_pos p) = 53 -> -1074 <= e <= 971 ->
  binary_round_aux 53 1024 false (Zpos p) e loc_Exact = S754_finite false p e.
Proof.
  intros Hd He. unfold binary_round_aux, shr_fexp. cbn [Zdigits2 shr_record_of_loc].
  assert (fexp 53 1024 (Zpos (digits2_pos p) + e) - e = 0) as Hf.
  { unfold fexp, emin. rewrite Hd. lia. }
  rewrite Hf. cbn [shr shr_m loc_of_shr_record round_nearest_even Zdigits2 shr_record_of_loc]. rewrite Hf.
  cbn [shr shr_m]. by rewrite (proj2 (Z.leb_le _ _)) by lia.
Qed.

Lemma of_Z_finite z : 0 < z < 2 ^ 53 -> exists m e, F64.of_Z z = S754_finite false m e.
Proof.
  intros [H0 H]. destruct z as [|p|p]; [done| |done].
  pose proof (digits_upper p 53 ltac:(lia) H) as Hd.
  unfold F64.of_Z, binary_normalize, binary_round, shl_align.
  assert (fexp 53 1024 (Zpos (digits2_pos p) + 0) - 0 = Zpos (digits2_pos p) - 53) as Hf.
  { unfold fexp, emin. lia. }
  rewrite Hf. destruct (Zpos (digits2_pos p) - 53) as [|n|n] eqn:E.
  - eexists _, _. apply round_full; lia.
  - lia.
  - replace (fexp 53 1024 (Zpos (digits2_pos p) + 0)) with (Z.neg n) by lia.
    eexists _, _. apply round_full; [rewrite digits_shifted; lia|lia].
Qed.
