(* ===== verification/RtpSession.v ===== *)
(** * RTP sessions (media/rtp/src/session/mod.rs, ntp_timestamp.rs)

    One sender and many receivers, each with its jitter buffer, and the reports
    of RTCP. Durations and instants are nanoseconds; the clocks are arguments:
    [now] is [Instant::now()], [ntp_now] is [NtpTimestamp::now()]. *)
From S2P Require Import Prelude RtpCounter JitterBuffer Float.
Local Open Scope Z_scope.

(** ** Packages *)

(** [Duration] of the package [time], in nanoseconds *)
Class TimeCrate := {
  as_seconds_f32 : Z -> float;
  as_seconds_f64 : Z -> float;
  whole_seconds : Z -> Z;
  subsec_nanoseconds : Z -> Z;
  duration_new : Z -> Z -> Z;
  duration_mul : Z -> Z -> Z }.

Class TimeLaws (T : TimeCrate) : Prop := {
  whole_seconds_law d : whole_seconds d = Z.quot d 1000000000;
  subsec_nanoseconds_law d : subsec_nanoseconds d = Z.rem d 1000000000;
  duration_new_law s n : duration_new s n = s * 1000000000 + n;
  duration_mul_law n d : duration_mul n d = n * d }.

(** An instance that computes *)
Definition time_crate : TimeCrate := {|
  as_seconds_f32 d := F32.add (F32.of_Z (Z.quot d 1000000000))
                              (F32.div (F32.of_Z (Z.rem d 1000000000)) (F32.of_Z 1000000000));
  as_seconds_f64 d := F64.add (F64.of_Z (Z.quot d 1000000000))
                              (F64.div (F64.of_Z (Z.rem d 1000000000)) (F64.of_Z 1000000000));
  whole_seconds d := Z.quot d 1000000000;
  subsec_nanoseconds d := Z.rem d 1000000000;
  duration_new s n := s * 1000000000 + n;
  duration_mul n d := n * d |}.
#[export] Instance time_crate_laws : TimeLaws time_crate.
Proof. by split. Qed.

(** [rtcp_types::Packet], with the numbers that are read of it *)
Inductive RtcpPacket :=
| App | Bye
| Rr (ssrc : Z)
| Sdes
| Sr (ssrc : Z)
| TransportFeedback (sender_ssrc : Z)
| PayloadFeedback (sender_ssrc : Z)
| UnknownRtcp.

(** What is given to the builders of [rtcp_types] *)
Module ReportBlock.
Record t := {
  ssrc : Z;
  fraction_lost : Z;
  cumulative_lost : Z;
  extended_sequence_number : Z;
  interarrival_jitter : Z;
  last_sender_report_timestamp : Z;
  delay_since_last_sender_report_timestamp : Z }.
End ReportBlock.
Module SenderReport.
Record t := {
  ssrc : Z; ntp_timestamp : Z; rtp_timestamp : Z; packet_count : Z; octet_count : Z;
  report_blocks : list ReportBlock.t }.
End SenderReport.
Module ReceiverReport.
Record t := { ssrc : Z; report_blocks : list ReportBlock.t }.
End ReceiverReport.
Module SdesChunk.
Record t := { ssrc : Z; items : list (Z * option (list byte) * list byte) }.
End SdesChunk.

(** ** ntp_timestamp.rs: nanoseconds since 1900 *)
Module NtpTimestamp.
Section ntp.
Context {T : TimeCrate}.
Definition u32_max_f64 : float := F64.of_Z 4294967295.

Definition to_fixed_u64 (inner : Z) : Z :=
  let seconds := wrap 64 (whole_seconds inner) in
  let subseconds := F64.mul (F64.div (F64.of_Z (subsec_nanoseconds inner)) (F64.of_Z 1000000000)) u32_max_f64 in
  let subseconds := to_uint 64 subseconds in
  Z.lor (wrap 64 (Z.shiftl seconds 32)) subseconds.
Definition to_fixed_u32 (inner : Z) : Z := wrap 32 (Z.land (Z.shiftr (to_fixed_u64 inner) 16) 4294967295).
Definition from_fixed_u64 (fixed : Z) : Z :=
  let seconds := Z.shiftr fixed 32 in
  let subseconds := wrap 32 (Z.land fixed 4294967295) in
  let subseconds := F64.div (F64.of_Z subseconds) u32_max_f64 in
  duration_new seconds (to_sint 32 (F64.mul subseconds (F64.of_Z 1000000000))).
Definition from_fixed_u32 (fixed : Z) : Z :=
  let seconds := Z.shiftr fixed 16 in
  let subseconds := wrap 16 (Z.land fixed 65535) in
  let subseconds := F64.div (F64.of_Z subseconds) (F64.of_Z 65535) in
  duration_new seconds (to_sint 32 (F64.mul subseconds (F64.of_Z 1000000000))).
End ntp.
End NtpTimestamp.

(** ** State *)
Definition DEFAULT_JITTERBUFFER_LENGTH : Z := 100 * 1000000.

Module SenderState.
Record t := { ntp_timestamp : Z; rtp_timestamp : Z; sender_pkg_count : Z; sender_octet_count : Z }.
End SenderState.

Module ReceiverState.
Record t := {
  ssrc : Z;
  jitter_buffer : JitterBuffer;
  last_rtp_received : option (Z * Z * Z);
  jitter : float;
  last_sr : option Z;
  total_lost : Z }.
#[global] Instance eta : Eta t := fun r => {|
  ssrc := ssrc r; jitter_buffer := jitter_buffer r; last_rtp_received := last_rtp_received r;
  jitter := jitter r; last_sr := last_sr r; total_lost := total_lost r |}.

(** What [recv_rtp] makes for a source that is new *)
Definition new (ssrc : Z) : t := {|
  ssrc := ssrc; jitter_buffer := default_buffer; last_rtp_received := None; jitter := S754_zero false;
  last_sr := None; total_lost := 0 |}.
End ReceiverState.

Module RtpSession.
Record t := {
  ssrc : Z;
  clock_rate : Z;
  source_description_items : list (Z * option (list byte) * list byte);
  sender : option SenderState.t;
  receiver : list ReceiverState.t }.
#[global] Instance eta : Eta t := fun s => {|
  ssrc := ssrc s; clock_rate := clock_rate s; source_description_items := source_description_items s;
  sender := sender s; receiver := receiver s |}.

Definition new (ssrc clock_rate : Z) : t := {|
  ssrc := ssrc; clock_rate := clock_rate; source_description_items := []; sender := None; receiver := [] |}.
Definition add_source_description_item (tag : Z) (prefix : option (list byte)) (value : list byte) (s : t) : t :=
  s <| source_description_items := source_description_items s ++ [(tag, prefix, value)] |>.
Definition remote_ssrc (s : t) : list Z := ReceiverState.ssrc <$> receiver s.

(** [send_rtp] *)
Definition send_rtp (ntp_now : Z) (packet : RtpPacket.t) (s : t) : t :=
  let st := default {| SenderState.ntp_timestamp := 0; SenderState.rtp_timestamp := 0;
                       SenderState.sender_pkg_count := 0; SenderState.sender_octet_count := 0 |} (sender s) in
  s <| sender := Some {|
    SenderState.ntp_timestamp := ntp_now;
    SenderState.rtp_timestamp :=
      ExtendedRtpTimestamp.guess_extended (SenderState.rtp_timestamp st) (RtpPacket.timestamp packet);
    SenderState.sender_pkg_count := wrap 32 (SenderState.sender_pkg_count st + 1);
    SenderState.sender_octet_count :=
      wrap 32 (SenderState.sender_octet_count st + wrap 32 (Z.of_nat (length (RtpPacket.payload packet)))) |} |>.

(** [recv_rtp], on the receiver of the packet's source *)
Definition receive_in (now clock_rate : Z) (packet : RtpPacket.t) (r : ReceiverState.t) : ReceiverState.t :=
  match ReceiverState.last_rtp_received r with
  | Some (last_rtp_instant, last_rtp_timestamp, last_sequence_number) =>
      let timestamp := ExtendedRtpTimestamp.guess_extended last_rtp_timestamp (RtpPacket.timestamp packet) in
      let sequence_number :=
        ExtendedSequenceNumber.guess_extended last_sequence_number (RtpPacket.sequence_number packet) in
      if decide (last_rtp_timestamp < timestamp) then
        let a := saturating_sub now last_rtp_instant in
        let a := to_sint 64 (F32.mul (as_secs_f32 a) (F32.of_Z clock_rate)) in
        let b := RtpPacket.timestamp packet - ExtendedRtpTimestamp.truncated last_rtp_timestamp in
        let d := abs_diff a b in
        let jitter := ReceiverState.jitter r in
        let jitter := F32.add jitter (F32.div (F32.sub (SFabs (F32.of_Z d)) jitter) (F32.of_Z 16)) in
        {| ReceiverState.ssrc := ReceiverState.ssrc r;
           ReceiverState.jitter_buffer := push timestamp sequence_number packet (ReceiverState.jitter_buffer r);
           ReceiverState.last_rtp_received := Some (now, timestamp, sequence_number);
           ReceiverState.jitter := jitter; ReceiverState.last_sr := ReceiverState.last_sr r;
           ReceiverState.total_lost := ReceiverState.total_lost r |}
      else r
  | None =>
      let timestamp := RtpPacket.timestamp packet in
      let sequence_number := RtpPacket.sequence_number packet in
      {| ReceiverState.ssrc := ReceiverState.ssrc r;
         ReceiverState.jitter_buffer := push timestamp sequence_number packet (ReceiverState.jitter_buffer r);
         ReceiverState.last_rtp_received := Some (now, timestamp, sequence_number);
         ReceiverState.jitter := ReceiverState.jitter r; ReceiverState.last_sr := ReceiverState.last_sr r;
         ReceiverState.total_lost := ReceiverState.total_lost r |}
  end.

(** [recv_rtp]; [iter_mut().find(..)] changes the first receiver of the source. *)
Definition of_ssrc (n : Z) (r : ReceiverState.t) : bool := bool_decide (ReceiverState.ssrc r = n).
Definition recv_rtp (now : Z) (packet : RtpPacket.t) (s : t) : t :=
  match position (of_ssrc (RtpPacket.ssrc packet)) (receiver s) with
  | Some i => s <| receiver := alter (receive_in now (clock_rate s) packet) i (receiver s) |>
  | None =>
      if decide (4096 < length (receiver s))%nat then s
      else s <| receiver := receiver s ++
                  [receive_in now (clock_rate s) packet (ReceiverState.new (RtpPacket.ssrc packet))] |>
  end.

Section session.
Context {T : TimeCrate}.

(** [map_instant_to_rtp_timestamp] *)
Definition map_instant_to_rtp_timestamp (reference_instant reference_timestamp clock_rate instant : Z) : Z :=
  let delta := instant - reference_instant in
  let steps := to_sint 64 (F32.mul (as_seconds_f32 delta) (F32.of_Z clock_rate)) in
  wrap 64 (reference_timestamp + steps).
Definition lower_32bits (i : Z) : Z := wrap 32 (Z.land i 4294967295).

(** [pop_rtp]: the loop over the receivers *)
Fixpoint pop_receivers (pop_earliest clock_rate : Z) (rs : list ReceiverState.t)
    : exec (option RtpPacket.t * list ReceiverState.t) :=
  match rs with
  | [] => Ret (None, [])
  | r :: rs =>
      '(packet, r) ← match ReceiverState.last_rtp_received r with
        | None => Ret (None, r)
        | Some (instant, timestamp, _) =>
            let max_timestamp := map_instant_to_rtp_timestamp instant timestamp clock_rate pop_earliest in
            '(packet, jb) ← pop max_timestamp (ReceiverState.jitter_buffer r);
            Ret (packet, r <| ReceiverState.jitter_buffer := jb |>)
        end;
      match packet with
      | Some packet => Ret (Some packet, r :: rs)
      | None => '(packet, rs) ← pop_receivers pop_earliest clock_rate rs; Ret (packet, r :: rs)
      end
  end.
Definition pop_rtp (now : Z) (jitter_buffer_length : option Z) (s : t) : exec (option RtpPacket.t * t) :=
  let pop_earliest := now - default DEFAULT_JITTERBUFFER_LENGTH jitter_buffer_length in
  '(packet, rs) ← pop_receivers pop_earliest (clock_rate s) (receiver s);
  Ret (packet, s <| receiver := rs |>).

(** [pop_rtp_after]; the subtraction of the timestamps wraps. *)
Definition receiver_pop_after (now length clock_rate : Z) (r : ReceiverState.t) : exec (option Z) :=
  match ReceiverState.last_rtp_received r, timestamp_of_earliest_packet (ReceiverState.jitter_buffer r) with
  | Some (instant, timestamp, _), Some earliest =>
      let delta := wrap 64 (timestamp - earliest) in
      delta ← from_secs_f32 (F32.div (F32.of_Z delta) (F32.of_Z clock_rate));
      Ret (Some (saturating_sub (instant - delta + length) now))
  | _, _ => Ret None
  end.
Definition min_opt (a b : option Z) : option Z :=
  match a, b with Some a, Some b => Some (Z.min a b) | Some a, None => Some a | None, b => b end.
Fixpoint pop_after_receivers (now length clock_rate : Z) (rs : list ReceiverState.t) : exec (option Z) :=
  match rs with
  | [] => Ret None
  | r :: rs =>
      a ← receiver_pop_after now length clock_rate r;
      b ← pop_after_receivers now length clock_rate rs;
      Ret (min_opt a b)
  end.
Definition pop_rtp_after (now : Z) (jitter_buffer_length : option Z) (s : t) : exec (option Z) :=
  pop_after_receivers now (default DEFAULT_JITTERBUFFER_LENGTH jitter_buffer_length) (clock_rate s) (receiver s).

(** [recv_rtcp] *)
Definition recv_rtcp (ntp_now : Z) (packet : RtcpPacket) (s : t) : t :=
  match packet with
  | Sr ssrc =>
      match position (of_ssrc ssrc) (receiver s) with
      | Some i =>
          s <| receiver := alter (fun r : ReceiverState.t => r <| ReceiverState.last_sr := Some ntp_now |>) i (receiver s) |>
      | None => s
      end
  | _ => s
  end.

(** The counters of a receiver after a report *)
Definition reported (r : ReceiverState.t) : ReceiverState.t :=
  let jb := ReceiverState.jitter_buffer r in
  {| ReceiverState.ssrc := ReceiverState.ssrc r;
     ReceiverState.jitter_buffer := {|
       max_entries := max_entries jb; queue := queue jb;
       last_sequence_number_returned := last_sequence_number_returned jb;
       dropped := dropped jb; received := 0; lost := 0 |};
     ReceiverState.last_rtp_received := ReceiverState.last_rtp_received r;
     ReceiverState.jitter := ReceiverState.jitter r; ReceiverState.last_sr := ReceiverState.last_sr r;
     ReceiverState.total_lost := wrap 64 (ReceiverState.total_lost r + lost jb) |}.
Definition fraction_lost (lost received : Z) : Z :=
  wrap 8 (to_uint 32 (F64.mul (F64.div (F64.of_Z lost) (F64.of_Z (wrap 64 (received + lost)))) (F64.of_Z 255))).
Definition report_block (now : Z) (r : ReceiverState.t) : ReportBlock.t :=
  let jb := ReceiverState.jitter_buffer r in
  let '(last_sr, delay) :=
    match ReceiverState.last_sr r with
    | Some last_sr =>
        (NtpTimestamp.to_fixed_u32 last_sr, to_uint 32 (F64.mul (as_seconds_f64 (now - last_sr)) (F64.of_Z 65536)))
    | None => (0, 0)
    end in
  let last_sequence_number := match ReceiverState.last_rtp_received r with Some (_, _, seq) => seq | None => 0 end in
  {| ReportBlock.ssrc := ReceiverState.ssrc r;
     ReportBlock.fraction_lost := fraction_lost (lost jb) (received jb);
     ReportBlock.cumulative_lost := wrap 32 (ReceiverState.total_lost (reported r));
     ReportBlock.extended_sequence_number := lower_32bits last_sequence_number;
     ReportBlock.interarrival_jitter := to_uint 32 (ReceiverState.jitter r);
     ReportBlock.last_sender_report_timestamp := last_sr;
     ReportBlock.delay_since_last_sender_report_timestamp := delay |}.

(** [generate_rtcp_report] *)
Definition generate_rtcp_report (now : Z) (s : t) : result ReceiverReport.t SenderReport.t * t :=
  let report_blocks := report_block now <$> receiver s in
  let report :=
    match sender s with
    | Some sender_info =>
        let offset := F64.mul (as_seconds_f64 (duration_mul (clock_rate s) (now - SenderState.ntp_timestamp sender_info)))
                              (F64.of_Z (clock_rate s)) in
        let rtp_timestamp := wrap 64 (SenderState.rtp_timestamp sender_info + to_uint 64 offset) in
        Ok {| SenderReport.ssrc := ssrc s;
              SenderReport.ntp_timestamp := NtpTimestamp.to_fixed_u64 now;
              SenderReport.rtp_timestamp := lower_32bits rtp_timestamp;
              SenderReport.packet_count := SenderState.sender_pkg_count sender_info;
              SenderReport.octet_count := SenderState.sender_octet_count sender_info;
              SenderReport.report_blocks := report_blocks |}
    | None =>
        Err {| ReceiverReport.ssrc := ssrc s; ReceiverReport.report_blocks := report_blocks |}
    end in
  (report, s <| receiver := reported <$> receiver s |>).

(** [generate_sdes_chunk] *)
Definition generate_sdes_chunk (s : t) : option SdesChunk.t :=
  if source_description_items s is [] then None
  else Some {| SdesChunk.ssrc := ssrc s; SdesChunk.items := source_description_items s |}.
End session.
End RtpSession.

(** [CompoundBuilder] of [rtcp_types]: the bytes of a report and a source
    description, if they fit *)
Class RtcpWriter := write_compound :
  result ReceiverReport.t SenderReport.t -> option SdesChunk.t -> nat -> option (list byte).

(** [write_rtcp_report] *)
Definition write_rtcp_report {T : TimeCrate} {RW : RtcpWriter} (ntp_now : Z) (len : nat) (s : RtpSession.t)
    : option (list byte) * RtpSession.t :=
  let '(report, s) := RtpSession.generate_rtcp_report ntp_now s in
  (write_compound report (RtpSession.generate_sdes_chunk s) len, s).
