(* ===== verification/RtpSessionProps.v ===== *)
(** * What RTP sessions deliver and report *)
From S2P Require Import Prelude RtpCounter JitterBuffer Float RtpSession.
Local Open Scope Z_scope.

(** ** Runs of a session *)
Inductive op :=
| OpSend (ntp_now : Z) (packet : RtpPacket.t)
| OpRecv (now : Z) (packet : RtpPacket.t)
| OpPop (now : Z) (length : option Z)
| OpRtcp (ntp_now : Z) (packet : RtcpPacket)
| OpReport (ntp_now : Z).

(** The number of the last packet that the buffer of a source has handed out *)
Definition returned (r : ReceiverState.t) : option Z :=
  last_sequence_number_returned (ReceiverState.jitter_buffer r).
Definition returned_of (n : Z) (s : RtpSession.t) : Z :=
  match list_find (fun r => ReceiverState.ssrc r = n) (RtpSession.receiver s) with
  | Some (_, r) => default 0 (returned r)
  | None => 0
  end.

(** A run of calls: the packets that were handed out, each with its extended
    number *)
Fixpoint run {T : TimeCrate} (ops : list op) (s : RtpSession.t) : exec (list (RtpPacket.t * Z) * RtpSession.t) :=
  match ops with
  | [] => Ret ([], s)
  | OpSend now p :: ops => run ops (RtpSession.send_rtp now p s)
  | OpRecv now p :: ops => run ops (RtpSession.recv_rtp now p s)
  | OpRtcp now p :: ops => run ops (RtpSession.recv_rtcp now p s)
  | OpReport now :: ops => run ops (RtpSession.generate_rtcp_report now s).2
  | OpPop now len :: ops =>
      '(o, s) ← RtpSession.pop_rtp now len s;
      '(log, s') ← run ops s;
      Ret (match o with Some p => (p, returned_of (RtpPacket.ssrc p) s) :: log | None => log end, s')
  end.

(** ** Lemmas on the jitter buffer *)
Lemma limit_entries_queue jb e : e ∈ queue (limit_entries jb) -> e ∈ queue jb.
Proof. unfold limit_entries. case_decide; [|done]. cbn. destruct (queue jb); [done|]. by right. Qed.

(** [push] adds nothing but vacancies and its packet. *)
Lemma push_occupied ts seq pkt jb t n p : Occupied t n p ∈ queue (push ts seq pkt jb) ->
  Occupied t n p ∈ queue jb \/ p = pkt.
Proof.
  assert (forall v, Occupied t n p ∈ queue jb ++ v ++ [Occupied ts seq pkt] ->
            (forall e, e ∈ v -> is_vacant e = true) -> Occupied t n p ∈ queue jb \/ p = pkt) as Happ.
  { intros v. rewrite !elem_of_app, list_elem_of_singleton. intros [H|[H|[= _ _ ->]]] Hv; [by left| |by right].
    by apply Hv in H. }
  unfold push. destruct (match last_sequence_number_returned jb with Some _ => _ | None => _ end); [by left|].
  destruct (last (queue jb)) as [e|] eqn:El.
  - destruct (Z.compare (entry_sequence_number e) seq).
    + destruct (is_vacant e); intros H%limit_entries_queue; [|by left]. cbn in H.
      apply elem_of_app in H as [H|[= _ _ ->]%list_elem_of_singleton]; [|by right]. left.
      assert (queue jb = removelast (queue jb) ++ [e]) as ->; [|apply elem_of_app; by left].
      apply last_Some in El as [l ->]. by rewrite removelast_last.
    + intros H%limit_entries_queue. apply (Happ _ H). intros x Hx.
      by apply list_elem_of_fmap in Hx as (y & -> & _).
    + destruct (fill_rev ts seq pkt (reverse (queue jb))) as [[rq stored]|] eqn:Hf; [|intros H%limit_entries_queue; by left].
      apply fill_rev_Some in Hf as (i & e' & Hi & He' & -> & _).
      destruct stored; cbn; rewrite elem_of_reverse; [|rewrite elem_of_reverse; by left].
      intros (k & Hk)%list_elem_of_lookup. destruct (decide (k = i)) as [->|Hne].
      * rewrite list_lookup_insert_eq in Hk by (by eapply lookup_lt_Some). injection Hk as _ _ <-. by right.
      * rewrite list_lookup_insert_ne in Hk by done. left. apply elem_of_reverse. by eapply list_elem_of_lookup_2.
  - intros H. apply (Happ [] H). by intros e ?%elem_of_nil.
Qed.

Lemma push_lost ts seq pkt jb : lost (push ts seq pkt jb) = lost jb.
Proof. unfold push, limit_entries. repeat (case_match || case_decide); cbn; congruence. Qed.

(** ** The invariant *)
Record receiver_ok (P : RtpPacket.t -> Prop) (r : ReceiverState.t) : Prop := {
  ok_wf : wf (ReceiverState.jitter_buffer r);
  ok_received : received (ReceiverState.jitter_buffer r) = 0;
  ok_lost : 0 <= lost (ReceiverState.jitter_buffer r);
  ok_packets t n p : Occupied t n p ∈ queue (ReceiverState.jitter_buffer r) ->
    RtpPacket.ssrc p = ReceiverState.ssrc r /\ P p }.

Record session_ok (P : RtpPacket.t -> Prop) (s : RtpSession.t) : Prop := {
  ok_distinct : NoDup (ReceiverState.ssrc <$> RtpSession.receiver s);
  ok_bound : (length (RtpSession.receiver s) <= 4097)%nat;
  ok_receivers : Forall (receiver_ok P) (RtpSession.receiver s) }.

(** What calls do to a receiver: it keeps its source, and the last number that
    was handed out does not fall. *)
Definition onward (r r' : ReceiverState.t) : Prop :=
  ReceiverState.ssrc r' = ReceiverState.ssrc r /\
  forall b, returned r = Some b -> exists b', returned r' = Some b' /\ b <= b'.
Definition advances (s s' : RtpSession.t) : Prop :=
  forall r, r ∈ RtpSession.receiver s -> exists r', r' ∈ RtpSession.receiver s' /\ onward r r'.

Lemma onward_same r r' : ReceiverState.ssrc r' = ReceiverState.ssrc r -> returned r' = returned r -> onward r r'.
Proof. intros Hs E. split; [done|]. intros b Hb. exists b. rewrite E. split; [done|lia]. Qed.

Lemma advances_refl s : advances s s.
Proof. intros r Hr. exists r. split; [done|]. by apply onward_same. Qed.

Lemma receive_in_ok P now rate p r : receiver_ok P r -> RtpPacket.ssrc p = ReceiverState.ssrc r -> P p ->
  receiver_ok P (RtpSession.receive_in now rate p r) /\ onward r (RtpSession.receive_in now rate p r).
Proof.
  intros [Hw Hr Hl Hp] Hs HP. unfold RtpSession.receive_in.
  assert (forall ts seq last jit, let r' := {|
      ReceiverState.ssrc := ReceiverState.ssrc r;
      ReceiverState.jitter_buffer := push ts seq p (ReceiverState.jitter_buffer r);
      ReceiverState.last_rtp_received := last; ReceiverState.jitter := jit;
      ReceiverState.last_sr := ReceiverState.last_sr r; ReceiverState.total_lost := ReceiverState.total_lost r |} in
    receiver_ok P r' /\ onward r r') as H.
  { intros ts seq last jit r'. split.
    - split; cbn; [by apply push_wf|by rewrite push_received|by rewrite push_lost|].
      intros t n q [Hq| ->]%push_occupied; [by apply (Hp t n)|done].
    - apply onward_same; [done|]. unfold returned. cbn. apply push_last_returned. }
  destruct (ReceiverState.last_rtp_received r) as [[[i t] n]|]; [|apply H].
  case_decide; [apply H|]. split; [by split|]. by apply onward_same.
Qed.

Lemma alter_receiver_ok P f n i s :
  (forall r, receiver_ok P r -> ReceiverState.ssrc r = n -> receiver_ok P (f r) /\ onward r (f r)) ->
  position (RtpSession.of_ssrc n) (RtpSession.receiver s) = Some i -> session_ok P s ->
  let s' := s <| RtpSession.receiver := alter f i (RtpSession.receiver s) |> in
  session_ok P s' /\ advances s s'.
Proof.
  intros Hf Hi [Hd Hb Hr] s'. apply position_Some in Hi as (r & Hi & Hn & _). apply bool_decide_eq_true in Hn.
  destruct (Hf r) as [Hok Ho]; [by eapply Forall_lookup_1|done|].
  assert (alter f i (RtpSession.receiver s) = <[i := f r]> (RtpSession.receiver s)) as E.
  { apply list_eq. intros j. destruct (decide (j = i)) as [->|Hne].
    - rewrite list_lookup_alter_eq, Hi, list_lookup_insert_eq; [done|]. by eapply lookup_lt_Some.
    - by rewrite list_lookup_alter_ne, list_lookup_insert_ne. }
  split.
  - split; subst s'; cbn; rewrite E.
    + rewrite list_fmap_insert. destruct Ho as [-> _]. rewrite list_insert_id; [done|].
      by rewrite list_lookup_fmap, Hi.
    + by rewrite length_insert.
    + by apply Forall_insert.
  - intros x Hx. apply list_elem_of_lookup in Hx as [j Hj]. subst s'. cbn. rewrite E.
    destruct (decide (j = i)) as [->|Hne].
    + exists (f r). replace x with r by congruence. split; [|done]. apply (list_elem_of_lookup_2 _ i).
      apply list_lookup_insert_eq. by eapply lookup_lt_Some.
    + exists x. split; [|by apply onward_same]. apply (list_elem_of_lookup_2 _ j). by rewrite list_lookup_insert_ne.
Qed.

Lemma recv_rtp_ok P now p s : session_ok P s -> P p ->
  session_ok P (RtpSession.recv_rtp now p s) /\ advances s (RtpSession.recv_rtp now p s).
Proof.
  intros Hs HP. unfold RtpSession.recv_rtp. destruct (position _ _) as [i|] eqn:E.
  - eapply alter_receiver_ok; [|exact E|exact Hs]. intros r Hr Hn. by apply receive_in_ok.
  - case_decide as Hl; [by split; [|apply advances_refl]|]. destruct Hs as [Hd Hb Hr].
    apply position_None in E. rewrite Forall_forall in E.
    destruct (receive_in_ok P now (RtpSession.clock_rate s) p (ReceiverState.new (RtpPacket.ssrc p)))
      as [Hok _]; [|done|done|].
    { split; cbn; [apply default_wf|done|done|]. by intros ? ? ? ?%elem_of_nil. }
    split.
    + split; cbn.
      * rewrite fmap_app. apply NoDup_app. repeat split; [done| |by apply NoDup_singleton].
        intros n (r & -> & Hin)%list_elem_of_fmap. intros Hx%list_elem_of_singleton.
        cbn in Hx. specialize (E r Hin). unfold RtpSession.of_ssrc in E.
        by apply bool_decide_eq_false in E.
      * rewrite length_app. cbn. lia.
      * apply Forall_app. by split; [|constructor].
    + intros r Hr'. exists r. split; [apply elem_of_app; by left|by apply onward_same].
Qed.

Lemma recv_rtcp_ok P now p s : session_ok P s ->
  session_ok P (RtpSession.recv_rtcp now p s) /\ advances s (RtpSession.recv_rtcp now p s).
Proof.
  intros Hs. unfold RtpSession.recv_rtcp. destruct p; try (by split; [|apply advances_refl]).
  destruct (position _ _) as [i|] eqn:E; [|by split; [|apply advances_refl]].
  eapply alter_receiver_ok; [|exact E|exact Hs]. intros r [? ? ? ?] _. split; [by split|by apply onward_same].
Qed.

Lemma reported_ok P r : receiver_ok P r -> receiver_ok P (RtpSession.reported r) /\ onward r (RtpSession.reported r).
Proof. intros [? ? ? ?]. split; [by split|by apply onward_same]. Qed.

Lemma report_ok `{TimeCrate} P now s : session_ok P s ->
  session_ok P (RtpSession.generate_rtcp_report now s).2 /\ advances s (RtpSession.generate_rtcp_report now s).2.
Proof.
  intros [Hd Hb Hr]. cbn. split.
  - split; cbn.
    + by rewrite <-list_fmap_compose.
    + by rewrite length_fmap.
    + apply Forall_fmap. eapply Forall_impl; [exact Hr|]. intros r Hok. by apply reported_ok.
  - intros r Hin. exists (RtpSession.reported r). cbn. split; [by apply list_elem_of_fmap_2|by apply onward_same].
Qed.

(** ** Handing out packets *)
Lemma pop_rtp_receivers `{TimeCrate} P e rate rs o rs' : Forall (receiver_ok P) rs ->
  RtpSession.pop_receivers e rate rs = Ret (o, rs') ->
  Forall (receiver_ok P) rs' /\ Forall2 onward rs rs' /\
  match o with
  | None => True
  | Some p => exists i r r' b, rs !! i = Some r /\ rs' !! i = Some r' /\ P p /\ RtpPacket.ssrc p = ReceiverState.ssrc r /\
      returned r' = Some b /\ forall b0, returned r = Some b0 -> b0 < b
  end.
Proof.
  intros Hr. revert o rs'. induction Hr as [|r rs Hok Hr IH]; intros o rs'; cbn; [by intros [= <- <-]|].
  intros ([q r'] & Hq & Hrest)%exec_bind_Ret_inv.
  assert (receiver_ok P r' /\ onward r r' /\ match q with
    | None => True
    | Some p => P p /\ RtpPacket.ssrc p = ReceiverState.ssrc r /\
        exists b, returned r' = Some b /\ forall b0, returned r = Some b0 -> b0 < b end) as (Hok' & Ho & Hp).
  { destruct (ReceiverState.last_rtp_received r) as [[[i t] n]|]; [|by injection Hq as <- <-; split; [|split; [by apply onward_same|]]].
    apply exec_bind_Ret_inv in Hq as ([q' jb] & Hpop & [= <- <-]). destruct Hok as [Hw Hrec Hlost Hps].
    destruct q' as [p|].
    - destruct (pop_last_returned _ _ _ _ Hw Hpop) as (b & Hb & Hlt).
      pose proof (pop_wf _ _ _ _ Hw Hpop) as Hw'. apply pop_Some in Hpop as (k & ts & sn & Hk & _ & _ & ->).
      destruct (Hps ts sn p) as [Hs HP]; [by eapply list_elem_of_lookup_2|]. split; [|split].
      + split; cbn; [done|done|by apply Z.mod_pos_bound|]. intros t' n' p' Hin. apply (Hps t' n').
        rewrite <-(take_drop (S k) (queue (ReceiverState.jitter_buffer r))). apply elem_of_app. by right.
      + split; [done|]. intros b0 Hb0. exists b. split; [done|]. specialize (Hlt _ Hb0). lia.
      + split; [done|]. split; [done|]. by exists b.
    - apply pop_None in Hpop as [-> _]. split; [by split|]. split; [by apply onward_same|done]. }
  destruct q as [p|].
  - injection Hrest as <- <-. split; [by constructor|]. split.
    + constructor; [done|]. clear. induction rs; constructor; [by apply onward_same|done].
    + destruct Hp as (HP & Hs & b & Hb). by exists 0%nat, r, r', b.
  - apply exec_bind_Ret_inv in Hrest as ([q rs''] & E & [= <- <-]). destruct (IH _ _ E) as (H1 & H2 & H3).
    split; [by constructor|]. split; [by constructor|]. destruct q as [p|]; [|done].
    destruct H3 as (i & x & x' & b & Hx). by exists (S i), x, x', b.
Qed.

Lemma Forall2_onward_ssrc rs rs' : Forall2 onward rs rs' -> ReceiverState.ssrc <$> rs' = ReceiverState.ssrc <$> rs.
Proof. induction 1 as [|x y l k [E _] _ IH]; [done|]. cbn. by rewrite E, IH. Qed.

(** A source is found by its number. *)
Lemma returned_of_receiver P s r b : session_ok P s -> r ∈ RtpSession.receiver s -> returned r = Some b ->
  returned_of (ReceiverState.ssrc r) s = b.
Proof.
  intros [Hd _ _] Hr Hb. unfold returned_of.
  destruct (list_find _ _) as [[i x]|] eqn:E.
  - apply list_find_Some in E as (Hx & Hs & _). rewrite (NoDup_field_eq ReceiverState.ssrc _ x r Hd); [by rewrite Hb| |done|done].
    by eapply list_elem_of_lookup_2.
  - apply list_find_None in E. rewrite Forall_forall in E. by destruct (E r Hr).
Qed.

Lemma pop_rtp_ok `{TimeCrate} P now len s o s' : session_ok P s -> RtpSession.pop_rtp now len s = Ret (o, s') ->
  session_ok P s' /\ advances s s' /\
  match o with
  | None => True
  | Some p => P p /\ (forall r b, r ∈ RtpSession.receiver s -> ReceiverState.ssrc r = RtpPacket.ssrc p ->
        returned r = Some b -> b < returned_of (RtpPacket.ssrc p) s') /\
      exists r, r ∈ RtpSession.receiver s' /\ ReceiverState.ssrc r = RtpPacket.ssrc p /\
        returned r = Some (returned_of (RtpPacket.ssrc p) s')
  end.
Proof.
  intros [Hd Hb Hr] ([q rs] & E & [= <- <-])%exec_bind_Ret_inv. destruct (pop_rtp_receivers P _ _ _ _ _ Hr E) as (H1 & H2 & H3).
  assert (session_ok P (s <| RtpSession.receiver := rs |>)) as Hok.
  { split; cbn; [by rewrite (Forall2_onward_ssrc _ _ H2)| |done]. by rewrite <-(Forall2_length _ _ _ H2). }
  split; [done|]. split.
  - intros r Hin. apply list_elem_of_lookup in Hin as [i Hi].
    destruct (Forall2_lookup_l _ _ _ _ _ H2 Hi) as (r' & Hi' & Ho). exists r'. split; [|done].
    by eapply list_elem_of_lookup_2.
  - destruct q as [p|]; [|done]. destruct H3 as (i & r & r' & b & Hi & Hi' & HP & Hs & Hret & Hlt).
    pose proof (list_elem_of_lookup_2 _ _ _ Hi') as Hin'.
    destruct (Forall2_lookup_lr _ _ _ _ _ _ H2 Hi Hi') as [Hss _].
    pose proof (returned_of_receiver P _ r' b Hok Hin' Hret) as Hof. rewrite Hss, <-Hs in Hof. cbn in Hof.
    split; [done|]. split; [|exists r'; rewrite Hss, Hs; cbn; rewrite Hs in Hof; by rewrite Hof].
    intros x bx Hx Hxs Hxb. cbn. rewrite Hof. apply Hlt.
    by rewrite (NoDup_field_eq ReceiverState.ssrc _ r x Hd); [|by eapply list_elem_of_lookup_2| |congruence].
Qed.

(** ** Runs *)
Definition of_source (n : Z) (log : list (RtpPacket.t * Z)) : list Z :=
  snd <$> filter (fun x => RtpPacket.ssrc x.1 = n) log.

(** What is handed out from a state on *)
Record delivers (P : RtpPacket.t -> Prop) (s : RtpSession.t) (log : list (RtpPacket.t * Z)) : Prop := {
  delivers_sorted n : StronglySorted Z.lt (of_source n log);
  delivers_received p b : (p, b) ∈ log -> P p;
  delivers_above r b p x : r ∈ RtpSession.receiver s -> returned r = Some b -> (p, x) ∈ log ->
    RtpPacket.ssrc p = ReceiverState.ssrc r -> b < x }.

Lemma delivers_advance P s s' log : advances s s' -> delivers P s' log -> delivers P s log.
Proof.
  intros Ha [H1 H2 H3]. split; [done|done|]. intros r b p x Hr Hb Hx Hs.
  destruct (Ha r Hr) as (r' & Hr' & Hs' & Ho). destruct (Ho b Hb) as (b' & Hb' & Hle).
  specialize (H3 r' b' p x Hr' Hb' Hx ltac:(congruence)). lia.
Qed.

Lemma run_delivers `{TimeCrate} P ops s log s' : session_ok P s -> (forall now p, OpRecv now p ∈ ops -> P p) ->
  run ops s = Ret (log, s') -> session_ok P s' /\ delivers P s log.
Proof.
  revert s log. induction ops as [|o ops IH]; intros s log Hs HP; cbn.
  - intros [= <- <-]. split; [done|]. split; [intros; constructor| |]; by intros ? ? ?%elem_of_nil || intros ? ? ? ? _ _ ?%elem_of_nil.
  - assert (forall now p, OpRecv now p ∈ ops -> P p) as HP' by (intros now p Hin; apply (HP now); by right).
    assert (forall s1, session_ok P s1 /\ advances s s1 -> run ops s1 = Ret (log, s') -> session_ok P s' /\ delivers P s log)
      as Hstep.
    { intros s1 [H1 Ha] Hrun. destruct (IH _ _ H1 HP' Hrun) as [H2 H3]. split; [done|]. by eapply delivers_advance. }
    destruct o as [now p|now p|now len|now p|now]; try apply Hstep.
    + split; [destruct Hs; by split|]. intros r Hr. exists r. split; [done|by apply onward_same].
    + apply recv_rtp_ok; [done|]. apply (HP now). by left.
    + intros ([q s1] & Hpop & ([log1 s2] & Hrun & [= <- <-])%exec_bind_Ret_inv)%exec_bind_Ret_inv.
      destruct (pop_rtp_ok P _ _ _ _ _ Hs Hpop) as (H1 & Ha & Hp). destruct (IH _ _ H1 HP' Hrun) as [H2 H3].
      split; [done|]. destruct q as [p|]; [|by eapply delivers_advance].
      destruct Hp as (HPp & Hlt & r & Hr & Hrs & Hret). pose proof (delivers_advance _ _ _ _ Ha H3) as [_ _ Habove].
      destruct H3 as [Hsort Hrec Hab]. split.
      * intros n. unfold of_source. rewrite filter_cons. case_decide as Hn; [|apply Hsort]. cbn in Hn. rewrite fmap_cons.
        constructor; [apply Hsort|]. apply Forall_forall. intros x ([p' x'] & -> & Hin)%list_elem_of_fmap.
        apply list_elem_of_filter in Hin as [Hss Hin]. cbn in *. apply (Hab r _ p' x' Hr Hret Hin). congruence.
      * intros p' b [[= -> _]|Hin]%elem_of_cons; [done|]. by apply (Hrec p' b).
      * intros r0 b p' x Hr0 Hb [[= -> ->]|Hin]%elem_of_cons Hss; [by apply (Hlt r0)|]. by apply (Habove r0 b p' x).
    + by apply recv_rtcp_ok.
    + by apply (report_ok P now).
Qed.

Lemma new_ok P ssrc rate : session_ok P (RtpSession.new ssrc rate).
Proof. split; cbn; [constructor|lia|constructor]. Qed.

(** C26: Whatever is called on a new session, and as long as no call panics: the
    packets of each source are handed out in strictly increasing order of their
    extended numbers, each of them was received, there are at most 4097
    sources, no two with the same number, and their buffers are well formed. *)
Theorem rtp_session_in_order `{TimeCrate} ops ssrc rate log s :
  run ops (RtpSession.new ssrc rate) = Ret (log, s) ->
  (forall n, StronglySorted Z.lt (of_source n log)) /\
  (forall p b, (p, b) ∈ log -> exists now, OpRecv now p ∈ ops) /\
  NoDup (RtpSession.remote_ssrc s) /\ (length (RtpSession.remote_ssrc s) <= 4097)%nat /\
  Forall (fun r => wf (ReceiverState.jitter_buffer r)) (RtpSession.receiver s).
Proof.
  intros Hrun. destruct (run_delivers (fun p => exists now, OpRecv now p ∈ ops) ops (RtpSession.new ssrc rate) log s)
    as [[Hd Hb Hr] [Hs Hp _]]; [apply new_ok|by eauto|done|].
  split; [done|]. split; [done|]. split; [done|]. split; [by unfold RtpSession.remote_ssrc; rewrite length_fmap|].
  eapply Forall_impl; [exact Hr|]. by intros r [? _ _ _].
Qed.

(** ** Packets that are not kept *)

(** A number that has been extended is extended to itself. *)
Lemma guess_again reference got max : 0 < max -> 0 <= got <= max -> 0 <= reference ->
  Z.max reference max + 3 * max < 2 ^ 64 ->
  let x := wrapping_counter_to_u64_counter reference got max in wrapping_counter_to_u64_counter x got max = x.
Proof.
  intros Hm Hg Hr Hb x.
  assert (exists k, 0 <= k /\ x = k * max + got /\ k * max <= Z.max reference max) as (k & Hk & Hx & Hkm).
  { unfold x. rewrite wrapping_counter_cases by lia. destruct (div_range reference max Hr Hm) as [Hq Hqm].
    unfold saturating_sub. set (q := reference / max) in *. destruct (Z.max_spec 0 (q - 1)) as [[? ->]|[? ->]].
    - case_decide; [exists (q - 1)|exists q]; repeat split; lia.
    - case_decide; [exists 0|exists 1]; repeat split; lia. }
  rewrite Hx, wrapping_counter_cases by nia. destruct (div_range (k * max + got) max ltac:(nia) Hm) as [Hq Hqm].
  set (q := (k * max + got) / max) in *.
  assert (q = k \/ got = max /\ q = k + 1) as [E|[E1 E2]] by (assert (q <= k + 1) by nia; assert (k <= q) by nia; nia).
  - rewrite E in *. unfold saturating_sub, abs_diff. destruct (Z.max_spec 0 (k - 1)) as [[? ->]|[? ->]].
    + rewrite decide_False by lia. lia.
    + assert (k = 0 \/ k = 1) as [-> | ->] by lia; [rewrite decide_True|rewrite decide_False]; lia.
  - rewrite E2 in *. unfold saturating_sub, abs_diff. replace (Z.max 0 (k + 1 - 1)) with k by lia.
    rewrite decide_True by lia. lia.
Qed.

Definition last_timestamp (r : ReceiverState.t) : Z :=
  match ReceiverState.last_rtp_received r with Some (_, t, _) => t | None => 0 end.

Lemma receive_in_again now now' rate p p' r : RtpPacket.timestamp p' = RtpPacket.timestamp p ->
  uint 32 (RtpPacket.timestamp p) -> 0 <= last_timestamp r < 2 ^ 63 ->
  RtpSession.receive_in now' rate p' (RtpSession.receive_in now rate p r) = RtpSession.receive_in now rate p r.
Proof.
  intros Ht Hu Hl. unfold uint in Hu.
  assert (forall r', (exists i n, ReceiverState.last_rtp_received r' = Some (i,
             ExtendedRtpTimestamp.guess_extended (last_timestamp r) (RtpPacket.timestamp p), n)) ->
           RtpSession.receive_in now' rate p' r' = r') as Hagain.
  { intros r' (i & n & E). unfold RtpSession.receive_in. rewrite E, Ht. rewrite decide_False; [done|].
    unfold ExtendedRtpTimestamp.guess_extended. rewrite guess_again; [lia|done|unfold u32_max; lia|lia|unfold u32_max; lia]. }
  unfold RtpSession.receive_in at 2 3. unfold last_timestamp in *.
  destruct (ReceiverState.last_rtp_received r) as [[[i t] n]|] eqn:E.
  - case_decide as Hd; [apply Hagain; cbn; by eauto|].
    unfold RtpSession.receive_in. by rewrite E, Ht, decide_False.
  - unfold RtpSession.receive_in. cbn. rewrite Ht.
    assert (ExtendedRtpTimestamp.guess_extended (RtpPacket.timestamp p) (RtpPacket.timestamp p) = RtpPacket.timestamp p) as ->.
    { pose proof (guess_again 0 (RtpPacket.timestamp p) u32_max eq_refl) as H. unfold u32_max in H.
      specialize (H ltac:(lia) ltac:(lia) ltac:(lia)). cbv zeta in H.
      assert (wrapping_counter_to_u64_counter 0 (RtpPacket.timestamp p) 4294967295 = RtpPacket.timestamp p) as E0; [|by rewrite E0 in H].
      rewrite wrapping_counter_cases by lia. change (saturating_sub (0 / 4294967295) 1) with 0. unfold abs_diff.
      rewrite decide_True; lia. }
    rewrite decide_False by lia. done.
Qed.

(** Of the packets of a source that have the same timestamp, as those of one
    video frame, only the first is kept: the session is the same with and
    without the ones that follow it. *)
Theorem frame_reduced_to_first_packet now now' p p' s :
  RtpPacket.ssrc p' = RtpPacket.ssrc p -> RtpPacket.timestamp p' = RtpPacket.timestamp p ->
  uint 32 (RtpPacket.timestamp p) -> Forall (fun r => 0 <= last_timestamp r < 2 ^ 63) (RtpSession.receiver s) ->
  RtpSession.recv_rtp now' p' (RtpSession.recv_rtp now p s) = RtpSession.recv_rtp now p s.
Proof.
  intros Hs Ht Hu Hl. unfold RtpSession.recv_rtp at 2 3. destruct (position _ _) as [i|] eqn:Ei.
  - apply position_Some in Ei as (r & Hi & Hr & Hfirst). rewrite Forall_forall in Hl.
    assert (receive_eq : ReceiverState.ssrc (RtpSession.receive_in now (RtpSession.clock_rate s) p r) = ReceiverState.ssrc r).
    { unfold RtpSession.receive_in. by destruct (ReceiverState.last_rtp_received r) as [[[? ?] ?]|]; [case_decide|]. }
    unfold RtpSession.recv_rtp. cbn. rewrite Hs.
    assert (position (RtpSession.of_ssrc (RtpPacket.ssrc p))
      (alter (RtpSession.receive_in now (RtpSession.clock_rate s) p) i (RtpSession.receiver s)) = Some i) as ->.
    { apply position_Some. eexists. rewrite list_lookup_alter_eq, Hi. split; [done|]. split.
      - unfold RtpSession.of_ssrc in *. by rewrite receive_eq.
      - intros j y Hj. rewrite list_lookup_alter_ne by lia. by apply Hfirst. }
    f_equal. apply list_eq. intros j. destruct (decide (j = i)) as [->|Hne].
    + rewrite !list_lookup_alter_eq, Hi. cbn. f_equal. apply receive_in_again; [done|done|].
      apply Hl. by eapply list_elem_of_lookup_2.
    + by rewrite !list_lookup_alter_ne.
  - case_decide as Hlen.
    + unfold RtpSession.recv_rtp. rewrite Hs, Ei, decide_True by done. done.
    + unfold RtpSession.recv_rtp. cbn [RtpSession.receiver RtpSession.clock_rate]. rewrite Hs.
      assert (position (RtpSession.of_ssrc (RtpPacket.ssrc p)) (RtpSession.receiver s ++
        [RtpSession.receive_in now (RtpSession.clock_rate s) p (ReceiverState.new (RtpPacket.ssrc p))]) =
        Some (length (RtpSession.receiver s))) as ->.
      { apply position_Some. eexists. rewrite lookup_app_r, Nat.sub_diag by lia. split; [done|]. split.
        - unfold RtpSession.of_ssrc. cbn. by apply bool_decide_eq_true.
        - intros j y Hj Hy. rewrite lookup_app_l in Hy by done. apply position_None in Ei.
          rewrite Forall_forall in Ei. apply Ei. by eapply list_elem_of_lookup_2. }
      cbn [RtpSession.ssrc RtpSession.source_description_items RtpSession.sender].
      f_equal. apply list_eq. intros j. destruct (decide (j = length (RtpSession.receiver s))) as [->|Hne].
      * rewrite list_lookup_alter_eq, lookup_app_r, Nat.sub_diag by lia. cbn [lookup list_lookup fmap option_fmap option_map].
        f_equal. apply receive_in_again; [done|done|]. cbn. lia.
      * by rewrite list_lookup_alter_ne.
Qed.

(** ** Reports *)
Definition report_blocks (r : result ReceiverReport.t SenderReport.t) : list ReportBlock.t :=
  match r with Ok sr => SenderReport.report_blocks sr | Err rr => ReceiverReport.report_blocks rr end.

Lemma fraction_of_lost lost : 0 <= lost < 2 ^ 53 ->
  RtpSession.fraction_lost lost 0 = if decide (lost = 0) then 0 else 255.
Proof.
  intros Hl. assert (2 ^ 53 < 2 ^ 64) by done.
  unfold RtpSession.fraction_lost. rewrite Z.add_0_l, (wrap_id 64) by (unfold uint; lia).
  case_decide as E; [subst lost; reflexivity|].
  destruct (of_Z_finite lost ltac:(lia)) as (m & e & ->). rewrite div_same. vm_compute. reflexivity.
Qed.

(** Every report says of each source that nothing was lost since the last
    report, or that everything was: the number of packets that were received is
    never counted. *)
Theorem all_or_nothing_lost `{TimeCrate} ops ssrc rate log s now :
  run ops (RtpSession.new ssrc rate) = Ret (log, s) ->
  Forall (fun r => lost (ReceiverState.jitter_buffer r) < 2 ^ 53) (RtpSession.receiver s) ->
  (fun b => ReportBlock.fraction_lost b) <$> report_blocks (RtpSession.generate_rtcp_report now s).1 =
  (fun r => if decide (lost (ReceiverState.jitter_buffer r) = 0) then 0 else 255) <$> RtpSession.receiver s.
Proof.
  intros Hrun Hl. destruct (run_delivers (fun _ => True) ops _ log s (new_ok _ ssrc rate) ltac:(done) Hrun) as [[_ _ Hr] _].
  assert (report_blocks (RtpSession.generate_rtcp_report now s).1 = RtpSession.report_block now <$> RtpSession.receiver s) as ->.
  { cbn. by destruct (RtpSession.sender s). }
  rewrite <-list_fmap_compose. apply list_fmap_ext. intros i r Hi. cbn.
  apply (Forall_lookup_1 _ _ _ _ Hr) in Hi as Hok. apply (Forall_lookup_1 _ _ _ _ Hl) in Hi. destruct Hok as [_ Hrec Hpos _].
  unfold RtpSession.report_block. destruct (match ReceiverState.last_sr r with Some _ => _ | None => _ end). cbn.
  rewrite Hrec. by apply fraction_of_lost.
Qed.

(** ** Samples *)
Section samples.
#[local] Existing Instance time_crate.

Definition packet (seq ts : Z) : RtpPacket.t := {|
  RtpPacket.pt := 0; RtpPacket.sequence_number := seq; RtpPacket.ssrc := 7; RtpPacket.timestamp := ts;
  RtpPacket.extensions := {| RtpPacket.mid := None |}; RtpPacket.payload := [] |}.
Definition ms : Z := 1000000.

(** Three packets, the one between the others with the latest timestamp *)
Definition unordered : list op :=
  [OpRecv 0 (packet 10 100); OpRecv 0 (packet 12 200); OpRecv 0 (packet 11 300); OpPop (94 * ms) None].

(** A peer whose packets carry timestamps that do not grow with their
    sequence numbers makes the session panic: after three such packets the
    first one is handed out, and the next poll panics. *)
Theorem peer_panics_session ssrc : let s := RtpSession.new ssrc 8000 in
  (exists s', run unordered s = Ret ([(packet 10 100, 10)], s')) /\ run (unordered ++ [OpPop (94 * ms) None]) s = Panic.
Proof. split; [eexists|]; vm_compute; reflexivity. Qed.

(** One second after a packet with timestamp 1000 at a clock rate of 8000, the
    timestamp of the sender report is 1000 + 8000 * 8000 and not 1000 + 8000. *)
Theorem report_timestamp_scaled_twice ssrc : let s := RtpSession.send_rtp 0 (packet 1 1000) (RtpSession.new ssrc 8000) in
  exists sr, (RtpSession.generate_rtcp_report (1000 * ms) s).1 = Ok sr /\
    SenderReport.rtp_timestamp sr = 1000 + 8000 * 8000 /\ SenderReport.packet_count sr = 1.
Proof. eexists. vm_compute. done. Qed.

Definition in_order : list op :=
  [OpRecv 0 (packet 10 100); OpRecv ms (packet 12 300); OpPop (200 * ms) None; OpPop (200 * ms) None;
   OpReport (200 * ms); OpPop (200 * ms) None].
Definition in_order_end : RtpSession.t :=
  match run in_order (RtpSession.new 1 8000) with Ret (_, s) => s | Panic => RtpSession.new 1 8000 end.

Lemma rtp_session_in_order_witness :
  run in_order (RtpSession.new 1 8000) = Ret ([(packet 10 100, 10); (packet 12 300, 12)], in_order_end) /\
  NoDup (RtpSession.remote_ssrc in_order_end).
Proof.
  assert (run in_order (RtpSession.new 1 8000) = Ret ([(packet 10 100, 10); (packet 12 300, 12)], in_order_end)) as H
    by (vm_compute; reflexivity).
  split; [exact H|]. destruct (rtp_session_in_order in_order 1 8000 _ _ H) as (_ & _ & Hd & _). exact Hd.
Defined.

Lemma frame_reduced_to_first_packet_witness : let s := RtpSession.recv_rtp 0 (packet 10 100) (RtpSession.new 1 90000) in
  RtpSession.recv_rtp 2 (packet 12 3100) (RtpSession.recv_rtp 1 (packet 11 3100) s) = RtpSession.recv_rtp 1 (packet 11 3100) s.
Proof.
  intros s. apply frame_reduced_to_first_packet; [reflexivity|reflexivity|unfold uint; cbn; lia|].
  apply Forall_singleton. cbn. lia.
Defined.

Definition lossy : list op := [OpRecv 0 (packet 10 100); OpRecv ms (packet 12 300); OpPop (200 * ms) None; OpPop (200 * ms) None].
Definition lossy_end : RtpSession.t :=
  match run lossy (RtpSession.new 1 8000) with Ret (_, s) => s | Panic => RtpSession.new 1 8000 end.

Lemma all_or_nothing_lost_witness :
  (fun b => ReportBlock.fraction_lost b) <$> report_blocks (RtpSession.generate_rtcp_report 0 lossy_end).1 = [255].
Proof.
  rewrite (all_or_nothing_lost lossy 1 8000 [(packet 10 100, 10); (packet 12 300, 12)] lossy_end 0); [reflexivity|vm_compute; reflexivity|].
  apply Forall_singleton. vm_compute. reflexivity.
Defined.
End samples.
