(* ===== verification/RtpExtensions.v ===== *)
(** * RTP header extensions (media/rtp/src/extensions.rs, rtp_packet.rs)

    [RtpExtensionsWriter] serialises extension elements, [parse_extensions]
    iterates over the elements of a received extension block, and
    [RtpExtensions::write] / [from_packet] use them for the MID. *)
From S2P Require Import Prelude Wire JitterBuffer.
Import RtpPacket.
Local Open Scope Z_scope.

(** [padding_32_bit_boundry] *)
Definition padding_32_bit_boundry (i : Z) : Z :=
  match i mod 4 with 0 => 0 | 1 => 3 | 2 => 2 | _ => 1 end.

Section writer.
Context `{W : WireOps}.

Record RtpExtensionsWriter := { writer : list byte; len : Z; two_byte : bool }.

(** [RtpExtensionsWriter::new] *)
Definition new (w : list byte) (two_byte : bool) : RtpExtensionsWriter :=
  {| writer := w; len := 0; two_byte := two_byte |}.

(** [RtpExtensionsWriter::with] *)
Definition with_ext (id : Z) (data : list byte) (self : RtpExtensionsWriter)
    : exec RtpExtensionsWriter :=
  let n := Z.of_nat (length data) in
  if two_byte self then
    if decide (n <= 255) then
      Ret {| writer := put_slice (put_slice (writer self) [byte_of id; byte_of (wrap 8 n)]) data;
             len := len self + (n + 2); two_byte := two_byte self |}
    else Panic
  else
    if decide (n <= 15) then
      if decide (data <> []) then
        let b := Z.lor (wrap 8 n) (wrap 8 (Z.shiftl id 4)) in
        Ret {| writer := put_slice (put_uint 1 (writer self) b) data;
               len := len self + (n + 1); two_byte := two_byte self |}
      else Panic
    else Panic.

(** [RtpExtensionsWriter::finish]: the profile and the buffer. *)
Definition finish (self : RtpExtensionsWriter) : Z * list byte :=
  let id := if two_byte self then 0xBEDE else 0x0100 in
  let padding := padding_32_bit_boundry (len self) in
  (id, put_bytes (writer self) x00 (Z.to_nat padding)).
End writer.

(** ** Parsers *)

(** One step of [parse_onebyte] *)
Definition onebyte_next (data : list byte) : option ((Z * list byte) * list byte) :=
  match data with
  | [] => None
  | b :: remaining =>
      let b := byte_val b in
      if decide (b = 0) then None
      else
        let id := Z.shiftr (Z.land b 0xF0) 4 in
        if decide (id = 15) then None
        else
          let len := Z.to_nat (Z.land b 0x0F + 1) in
          if decide (len <= length remaining)%nat
          then Some ((id, take len remaining), drop len remaining)
          else None
  end.

(** One step of [parse_twobyte] *)
Definition twobyte_next (data : list byte) : option ((Z * list byte) * list byte) :=
  match data with
  | id :: len :: remaining =>
      let id := byte_val id in
      let len := byte_val len in
      if decide (id = 0 /\ len = 0) then None
      else
        if decide (Z.to_nat len <= length remaining)%nat
        then Some ((id, take (Z.to_nat len) remaining), drop (Z.to_nat len) remaining)
        else None
  | _ => None
  end.

(** [parse_onebyte], [parse_twobyte]: every step consumes a byte, so the
    length of the data is fuel enough. *)
Definition parse_onebyte (data : list byte) : list (Z * list byte) :=
  collect onebyte_next (length data) data.
Definition parse_twobyte (data : list byte) : list (Z * list byte) :=
  collect twobyte_next (length data) data.

(** [parse_extensions] *)
Definition parse_extensions (profile : Z) (data : list byte) : list (Z * list byte) :=
  if decide (profile = 0xBEDE) then parse_onebyte data
  else if decide (Z.land profile 0xFFF = 0x100) then parse_twobyte data
  else [].

(** ** The MID (rtp_packet.rs) *)

(** [RtpExtensionIds] *)
Record RtpExtensionIds := { mid_id : option Z }.

(** [RtpExtensions::from_packet]: the last element with the id wins. *)
Definition from_packet (ids : RtpExtensionIds) (profile : Z) (extension_data : list byte)
    : RtpExtensions :=
  foldl (fun this '(id, data) =>
           if decide (Some id = mid_id ids) then {| mid := Some data |} else this)
    {| mid := None |} (parse_extensions profile extension_data).

(** [RtpExtensions::write]: the extension given to the packet builder, if any. *)
Definition write `{W : WireOps} (self : RtpExtensions) (ids : RtpExtensionIds)
    : exec (option (Z * list byte)) :=
  match mid_id ids, mid self with
  | Some id, Some mid =>
      w ← with_ext id mid (new [] (bool_decide (length mid <= 16)%nat));
      Ret (Some (finish w))
  | _, _ => Ret None
  end.

(** ** Lemmas *)

Lemma onebyte_next_decreases data x rest :
  onebyte_next data = Some (x, rest) -> (length rest < length data)%nat.
Proof.
  unfold onebyte_next. destruct data as [|b data]; [done|].
  repeat case_decide; intros [= <- <-]. rewrite length_drop. cbn [length]. lia.
Qed.

Lemma twobyte_next_decreases data x rest :
  twobyte_next data = Some (x, rest) -> (length rest < length data)%nat.
Proof.
  unfold twobyte_next. destruct data as [|b [|l data]]; [done..|].
  repeat case_decide; intros [= <- <-]. rewrite length_drop. cbn [length]. lia.
Qed.

Lemma parse_onebyte_unfold data :
  parse_onebyte data =
    match onebyte_next data with None => [] | Some (x, rest) => x :: parse_onebyte rest end.
Proof. apply (collect_unfold onebyte_next length), onebyte_next_decreases. Qed.

Lemma parse_twobyte_unfold data :
  parse_twobyte data =
    match twobyte_next data with None => [] | Some (x, rest) => x :: parse_twobyte rest end.
Proof. apply (collect_unfold twobyte_next length), twobyte_next_decreases. Qed.

(** An element that the two-byte format can carry. *)
Definition twobyte_item (x : Z * list byte) : Prop :=
  0 < fst x < 256 /\ Z.of_nat (length (snd x)) < 256.

Definition twobyte_bytes (x : Z * list byte) : list byte :=
  byte_of (fst x) :: byte_of (Z.of_nat (length (snd x))) :: snd x.

Lemma twobyte_next_item x rest :
  twobyte_item x -> twobyte_next (twobyte_bytes x ++ rest) = Some (x, rest).
Proof.
  destruct x as [id data]. intros [Hid Hlen]. cbn in *.
  rewrite !byte_val_of, !Z.mod_small by lia.
  rewrite decide_False, Nat2Z.id by lia.
  rewrite decide_True by (rewrite length_app; lia).
  by rewrite take_app_length, drop_app_length.
Qed.

Lemma parse_twobyte_items xs pad :
  Forall twobyte_item xs ->
  parse_twobyte (concat (twobyte_bytes <$> xs) ++ replicate pad x00) = xs.
Proof.
  induction 1 as [|x xs Hx _ IH]; cbn [fmap list_fmap concat].
  - by destruct pad as [|[|pad]].
  - rewrite parse_twobyte_unfold, <-app_assoc, twobyte_next_item by done. by f_equal.
Qed.

Lemma nibbles b :
  Z.shiftr (Z.land (byte_val b) 0xF0) 4 = byte_val b / 16 /\
  Z.land (byte_val b) 0x0F = byte_val b mod 16.
Proof. by destruct b. Qed.

(** The first element of a one-byte parse, and where the parse goes on. *)
Lemma onebyte_next_Some data id x rest :
  onebyte_next data = Some ((id, x), rest) ->
  exists b, data = b :: x ++ rest /\ byte_val b <> 0 /\ id = byte_val b / 16 /\
    length x = Z.to_nat (byte_val b mod 16 + 1).
Proof.
  unfold onebyte_next. destruct data as [|b data]; [done|].
  destruct (nibbles b) as [-> ->]. repeat case_decide; intros [= <- <- <-].
  exists b. rewrite take_drop, length_take. repeat split; try done. lia.
Qed.

Lemma parse_onebyte_bound data x :
  x ∈ parse_onebyte data -> (length (snd x) < length data)%nat.
Proof.
  remember (length data) as n eqn:Hn. revert data Hn.
  induction n as [n IH] using lt_wf_ind. intros data ->.
  rewrite parse_onebyte_unfold. destruct (onebyte_next data) as [[[id y] rest]|] eqn:E.
  - pose proof (onebyte_next_decreases _ _ _ E) as Hd.
    apply onebyte_next_Some in E as (b & -> & _). intros [->|Hin]%elem_of_cons.
    + cbn. rewrite length_app. lia.
    + specialize (IH _ Hd rest eq_refl Hin). lia.
  - intros H. by apply not_elem_of_nil in H.
Qed.

(** Data equal to its own shift, filled up with zeros, is zero. *)
Lemma shift_fixpoint_zero (d : list byte) s k :
  (0 < s)%nat -> d = take (length d) (drop s (d ++ replicate k x00)) -> Forall (fun b => b = x00) d.
Proof.
  intros Hs Hd. apply Forall_lookup. intros i b.
  remember (length d - i)%nat as m eqn:Hm. revert i b Hm.
  induction m as [m IH] using lt_wf_ind. intros i b -> Hi.
  pose proof (lookup_lt_Some _ _ _ Hi) as Hlt.
  rewrite Hd, lookup_take_lt, lookup_drop in Hi by done.
  destruct (decide (s + i < length d)%nat).
  - rewrite lookup_app_l in Hi by done. by eapply (IH (length d - (s + i))%nat); [lia|done|].
  - rewrite lookup_app_r in Hi by lia. by apply lookup_replicate in Hi as [-> _].
Qed.

(** ** Properties *)

(** Elements written in sequence into an empty buffer. *)
Fixpoint with_exts `{W : WireOps} (xs : list (Z * list byte)) (w : RtpExtensionsWriter)
    : exec RtpExtensionsWriter :=
  match xs with
  | [] => Ret w
  | (id, data) :: xs => w ← with_ext id data w; with_exts xs w
  end.

Section properties.
Context `{WL : WireLaws}.

Lemma with_ext_twobyte id data w :
  two_byte w = true -> twobyte_item (id, data) ->
  with_ext id data w =
    Ret {| writer := writer w ++ twobyte_bytes (id, data);
           len := len w + (Z.of_nat (length data) + 2); two_byte := true |}.
Proof.
  intros H2 [_ Hlen]. cbn in Hlen. unfold with_ext. rewrite H2, decide_True by lia.
  rewrite !put_slice_app, <-app_assoc, wrap_id by (unfold uint; lia). done.
Qed.

Lemma with_exts_twobyte xs w :
  two_byte w = true -> Forall twobyte_item xs ->
  exists n, with_exts xs w =
    Ret {| writer := writer w ++ concat (twobyte_bytes <$> xs); len := n; two_byte := true |}.
Proof.
  intros H2 Hx. revert w H2. induction Hx as [|[id data] xs Hx _ IH]; intros w H2.
  - exists (len w). cbn. rewrite app_nil_r, <-H2. by destruct w.
  - cbn [with_exts]. rewrite with_ext_twobyte by done. cbn [mbind exec_bind].
    destruct (IH {| writer := writer w ++ twobyte_bytes (id, data);
           len := len w + (Z.of_nat (length data) + 2); two_byte := true |} eq_refl) as [n Hn].
    exists n. rewrite Hn. cbn [writer fmap list_fmap concat]. by rewrite <-app_assoc.
Qed.

(** The two-byte element format round-trips: whatever list of elements
    with ids 1..255 and at most 255 bytes of data the writer serialises, the
    two-byte parser reads the same list back from the padded block. *)
Theorem twobyte_roundtrip xs :
  Forall twobyte_item xs ->
  exists w, with_exts xs (new [] true) = Ret w /\ parse_twobyte (snd (finish w)) = xs.
Proof.
  intros Hx. destruct (with_exts_twobyte xs (new [] true) eq_refl Hx) as [n Hn].
  eexists. split; [exact Hn|]. cbn. rewrite put_bytes_app. by apply parse_twobyte_items.
Qed.

Lemma write_short (mid : list byte) id :
  1 <= id <= 14 -> (1 <= length mid <= 16)%nat ->
  exists pad, write {| mid := Some mid |} {| mid_id := Some id |} =
    Ret (Some (0xBEDE, twobyte_bytes (id, mid) ++ replicate pad x00)) /\
    (pad <= 3)%nat.
Proof.
  intros Hid Hlen. unfold write. cbn [mid_id RtpPacket.mid]. rewrite bool_decide_true by lia.
  rewrite with_ext_twobyte by (done || (split; cbn; lia)). cbn [mbind exec_bind].
  exists (Z.to_nat (padding_32_bit_boundry (0 + (Z.of_nat (length mid) + 2)))).
  unfold finish. cbn [two_byte writer len new app]. rewrite put_bytes_app. split; [done|].
  unfold padding_32_bit_boundry. repeat case_match; lia.
Qed.
End properties.

Lemma from_packet_in ids profile data m :
  from_packet ids profile data = {| mid := Some m |} ->
  exists id, mid_id ids = Some id /\ (id, m) ∈ parse_extensions profile data.
Proof.
  unfold from_packet. induction (parse_extensions profile data) as [|[id d] l IH] using rev_ind; [done|].
  rewrite foldl_app. cbn [foldl]. case_decide as Hd.
  - intros [= <-]. exists id. split; [done|]. apply elem_of_app. right. by apply list_elem_of_singleton.
  - intros H. destruct (IH H) as (id' & ? & ?). exists id'. split; [done|]. apply elem_of_app. by left.
Qed.

(** Reading the two-byte encoding of one element with the one-byte parser
    never gives the element. *)
Lemma onebyte_misreads id m pad :
  1 <= id <= 14 -> (pad <= 3)%nat ->
  (id, m) ∉ parse_onebyte (twobyte_bytes (id, m) ++ replicate pad x00).
Proof.
  intros Hid Hpad Hin. rewrite parse_onebyte_unfold in Hin.
  destruct (onebyte_next _) as [[[id1 x1] rest1]|] eqn:E1; [|by apply not_elem_of_nil in Hin].
  apply onebyte_next_Some in E1 as (b1 & Hb1 & _ & -> & Hl1).
  cbn [twobyte_bytes fst snd app] in Hb1. injection Hb1 as <- Hb1.
  rewrite byte_val_of, (Z.mod_small id 256), (Z.mod_small id 16) in * by lia.
  apply elem_of_cons in Hin as [[= Hbad _]|Hin].
  { rewrite Z.div_small in Hbad by lia. lia. }
  destruct x1 as [|y x1]; cbn [length] in Hl1; [lia|]. injection Hb1 as _ Hb1.
  rewrite parse_onebyte_unfold in Hin.
  destruct (onebyte_next rest1) as [[[id2 x2] rest2]|] eqn:E2; [|by apply not_elem_of_nil in Hin].
  apply onebyte_next_Some in E2 as (b2 & -> & Hnz & _ & Hl2).
  assert (length (x1 ++ b2 :: x2 ++ rest2) = (length m + pad)%nat) as Hlen.
  { by rewrite <-Hb1, length_app, length_replicate. }
  rewrite length_app in Hlen. cbn [length] in Hlen. rewrite length_app in Hlen.
  apply elem_of_cons in Hin as [[= _ ->]|Hin].
  - assert (Forall (fun b => b = x00) x2) as Hz.
    { apply (shift_fixpoint_zero x2 (length x1 + 1) pad); [lia|].
      rewrite Hb1. change (b2 :: x2 ++ rest2) with ([b2] ++ (x2 ++ rest2)).
      rewrite app_assoc, drop_app_length' by (by rewrite length_app).
      by rewrite take_app_length. }
    apply Hnz. assert ((x2 ++ replicate pad x00) !! length x1 = Some b2) as Hb.
    { rewrite Hb1. by rewrite list_lookup_middle. }
    apply lookup_app_Some in Hb as [Hb|[_ Hb]].
    + eapply Forall_lookup_1 in Hz; [|exact Hb]. by rewrite Hz.
    + by apply lookup_replicate in Hb as [-> _].
  - apply parse_onebyte_bound in Hin. cbn in Hin.
    pose proof (Z.mod_pos_bound (byte_val b2) 16 eq_refl). lia.
Qed.

Section mid_properties.
Context `{WL : WireLaws}.

(** The MID never survives: for every id 1..14 and MID of 1 to 16 bytes
    the block [RtpExtensions::write] produces carries the one-byte profile
    [0xBEDE] but two-byte elements, and [RtpExtensions::from_packet] on that
    block does not return the MID. *)
Theorem write_mid_not_read_back (m : list byte) id :
  1 <= id <= 14 -> (1 <= length m <= 16)%nat ->
  exists buf, write {| mid := Some m |} {| mid_id := Some id |} = Ret (Some (0xBEDE, buf)) /\
    from_packet {| mid_id := Some id |} 0xBEDE buf <> {| mid := Some m |}.
Proof.
  intros Hid Hlen. destruct (write_short m id Hid Hlen) as (pad & Hw & Hpad).
  eexists. split; [exact Hw|]. intros (id' & [= <-] & Hin)%from_packet_in.
  by eapply onebyte_misreads.
Qed.

(** [RtpExtensions::write] panics on every MID longer than 16 bytes: the
    format flag is inverted, so the one-byte writer gets it and its length
    assertion fails. *)
Theorem write_long_mid_panics (m : list byte) id :
  (16 < length m)%nat -> write {| mid := Some m |} {| mid_id := Some id |} = Panic.
Proof.
  intros Hlen. unfold write, with_ext. cbn [mid_id RtpPacket.mid new two_byte].
  rewrite bool_decide_false by lia. rewrite decide_False by lia. done.
Qed.
End mid_properties.

Lemma twobyte_roundtrip_witness :
  exists w, with_exts (W := big_endian) [(1, [x30]); (2, []); (255, [x31; x32])] (new [] true) = Ret w /\
    parse_twobyte (snd (finish (W := big_endian) w)) = [(1, [x30]); (2, []); (255, [x31; x32])].
Proof. apply twobyte_roundtrip. repeat constructor. Defined.

Lemma write_mid_not_read_back_witness :
  exists buf, write (W := big_endian) {| mid := Some [x30] |} {| mid_id := Some 1 |} = Ret (Some (0xBEDE, buf)) /\
    from_packet {| mid_id := Some 1 |} 0xBEDE buf <> {| mid := Some [x30] |}.
Proof. apply write_mid_not_read_back; cbn; lia. Defined.

Lemma write_long_mid_panics_witness :
  write (W := big_endian) {| mid := Some (replicate 17 x30) |} {| mid_id := Some 1 |} = Panic.
Proof. apply write_long_mid_panics. cbn. lia. Defined.
