(* ===== verification/StunHeader.v ===== *)
(** * STUN heads (media/stun-types/src/header.rs, lib.rs)

    The 32-bit head of a STUN message as the [bitfield] type [MessageHead],
    the class and method codes inside its type field, padding, transaction
    ids, and [is_stun_message]. *)
From stdpp Require Export strings.
From S2P Require Import Prelude Wire.
Local Open Scope Z_scope.

(** ** lib.rs *)

(** [Error] *)
Inductive Error :=
| InvalidData (msg : string)
| TryFromInt
| Utf8.

Definition COOKIE : Z := 0x2112A442.
Definition STUN_HEADER_LENGTH : Z := 20.

(** [impl From<io::Error> for Error] on the only error a reader of a byte
    slice gives. *)
Definition from_unexpected_eof : Error := InvalidData "buffer seems incomplete".

(** [padding_u16], [padding_usize] *)
Definition padding (n : Z) : Z :=
  match n mod 4 with 0 => 0 | 1 => 3 | 2 => 2 | _ => 1 end.

(** ** header.rs *)

(** [MessageHead]: the getters and setters of the bit field. *)
Section MessageHead.
Context `{W : WireOps}.

Definition z (head : Z) : Z := bit_range head 31 30.
Definition typ (head : Z) : Z := bit_range head 29 16.
Definition set_typ (head v : Z) : Z := set_bit_range head 29 16 v.
Definition len (head : Z) : Z := bit_range head 15 0.
Definition set_len (head v : Z) : Z := set_bit_range head 15 0 v.
End MessageHead.

Inductive Class_ := Request | Indication | Success | ErrorClass.

#[export] Instance Class_eq_dec : EqDecision Class_.
Proof. solve_decision. Defined.

Definition CLASS_MASK : Z := 0x110.
Definition METHOD_MASK : Z := 0x3EEF.

Definition class_code (c : Class_) : Z :=
  match c with Request => 0x000 | Indication => 0x010 | Success => 0x100 | ErrorClass => 0x110 end.

(** [Class::set_bits] *)
Definition class_set_bits (c : Class_) (typ : Z) : Z :=
  Z.lor (Z.land typ METHOD_MASK) (class_code c).

(** [impl TryFrom<u16> for Class] *)
Definition class_try_from (value : Z) : result Error Class_ :=
  match Z.land value CLASS_MASK with
  | 0x000 => Ok Request
  | 0x010 => Ok Indication
  | 0x100 => Ok Success
  | 0x110 => Ok ErrorClass
  | _ => Err (InvalidData "unknown class")
  end.

Inductive Method :=
| Binding | Allocate | Refresh | Send | Data | CreatePermission | ChannelBind.

#[export] Instance Method_eq_dec : EqDecision Method.
Proof. solve_decision. Defined.

Definition method_code (m : Method) : Z :=
  match m with
  | Binding => 0x1 | Allocate => 0x3 | Refresh => 0x4 | Send => 0x6 | Data => 0x7
  | CreatePermission => 0x8 | ChannelBind => 0x9
  end.

(** [Method::set_bits] *)
Definition method_set_bits (m : Method) (typ : Z) : Z :=
  Z.lor (Z.land typ CLASS_MASK) (method_code m).

(** [impl TryFrom<u16> for Method] *)
Definition method_try_from (value : Z) : result Error Method :=
  match Z.land value METHOD_MASK with
  | 0x1 => Ok Binding
  | 0x3 => Ok Allocate
  | 0x4 => Ok Refresh
  | 0x6 => Ok Send
  | 0x7 => Ok Data
  | 0x8 => Ok CreatePermission
  | 0x9 => Ok ChannelBind
  | _ => Err (InvalidData "unknown method")
  end.

(** [TransactionId]: an array of 12 bytes. *)
Definition TransactionId := list byte.

(** [IsStunMessageInfo] *)
Inductive IsStunMessageInfo :=
| TooShort
| No
| Yes (len : Z)
| YesIncomplete (needed : Z).

(** [is_stun_message]: the two reads cannot fail on 20 bytes; [Panic] stands
    for their [unwrap]. *)
Definition is_stun_message `{W : WireOps} (i : list byte) : exec IsStunMessageInfo :=
  if decide (length i < 20)%nat then Ret TooShort
  else
    '(head, rest) ← unwrap (read_uint 4 i);
    if decide (z head <> 0) then Ret No
    else
      '(cookie, _) ← unwrap (read_uint 4 rest);
      if decide (cookie <> COOKIE) then Ret No
      else
        let expected_msg_len := len head + 20 in
        if decide (Z.of_nat (length i) < expected_msg_len)
        then Ret (YesIncomplete (expected_msg_len - Z.of_nat (length i)))
        else Ret (Yes expected_msg_len).

(** ** Lemmas *)

Lemma padding_spec n : 0 <= n -> 0 <= padding n <= 3 /\ (n + padding n) mod 4 = 0.
Proof.
  intros Hn. unfold padding. pose proof (Z.mod_pos_bound n 4 eq_refl) as Hb.
  rewrite Zplus_mod. destruct (n mod 4) as [|p|p] eqn:E; [done| |lia].
  destruct p as [[p|p|]|[p|p|]|]; try lia; done.
Qed.

(** The class and method fields of the type are disjoint. *)
Lemma type_bits c m :
  class_try_from (class_set_bits c (method_set_bits m 0)) = Ok c /\
  method_try_from (class_set_bits c (method_set_bits m 0)) = Ok m /\
  0 <= class_set_bits c (method_set_bits m 0) < 2 ^ 14.
Proof. by destruct c, m. Qed.

(** Every type word has one of the four classes. *)
Lemma class_total t : 0 <= t < 2 ^ 14 -> is_ok (class_try_from t) = true.
Proof.
  intros Ht.
  assert (forallb (fun t => is_ok (class_try_from t)) (seqZ 0 (2 ^ 14)) = true) as H by (by vm_compute).
  rewrite forallb_forall in H. apply H, list_elem_of_In, elem_of_seqZ. lia.
Qed.

(** The class and the method field of a type word do not disturb each
    other: setting the class keeps whatever method the word decodes to,
    setting the method keeps the class, each decodes to what was set, and the
    class always decodes. *)
Theorem set_bits_independent (c : Class_) (m : Method) (t : Z) :
  0 <= t < 2 ^ 14 ->
  class_try_from (class_set_bits c t) = Ok c /\
  method_try_from (class_set_bits c t) = method_try_from t /\
  method_try_from (method_set_bits m t) = Ok m /\
  class_try_from (method_set_bits m t) = class_try_from t /\
  is_ok (class_try_from t) = true.
Proof.
  intros Ht. pose proof (class_total t Ht) as Htotal. clear Ht.
  unfold class_set_bits, method_set_bits, class_try_from, method_try_from in *.
  rewrite !Z.land_lor_distr_l, <-!Z.land_assoc, !Z.land_diag.
  change (Z.land METHOD_MASK CLASS_MASK) with 0. change (Z.land CLASS_MASK METHOD_MASK) with 0.
  rewrite !Z.land_0_r, !Z.lor_0_l.
  assert (Z.land (class_code c) METHOD_MASK = 0) as -> by by destruct c.
  assert (Z.land (method_code m) CLASS_MASK = 0) as -> by by destruct m.
  rewrite !Z.lor_0_r. repeat split; [by destruct c|by destruct m|done].
Qed.

Lemma set_bits_independent_witness :
  class_try_from (class_set_bits Success 0x0101) = Ok Success /\
  method_try_from (class_set_bits Success 0x0001) = Ok Binding.
Proof.
  split; [apply (set_bits_independent Success Binding 0x0101)
         |apply (set_bits_independent Success Binding 0x0001)]; lia.
Defined.

Section laws.
Context `{WL : WireLaws}.

Lemma head_fields head :
  0 <= head < 2 ^ 32 ->
  z head = head / 2 ^ 30 /\ typ head = (head / 2 ^ 16) mod 2 ^ 14 /\ len head = head mod 2 ^ 16.
Proof.
  intros Hh. unfold z, typ, len. rewrite !bit_range_spec by lia. cbn [Z.sub Z.add].
  repeat split.
  - apply Z.mod_small. split; [apply Z.div_pos; lia|apply Z.div_lt_upper_bound; lia].
  - by rewrite Z.div_1_r.
Qed.

Lemma set_len_spec head v :
  0 <= head < 2 ^ 32 -> 0 <= v < 2 ^ 16 ->
  set_len head v = head - head mod 2 ^ 16 + v /\ 0 <= set_len head v < 2 ^ 32 /\
  z (set_len head v) = z head /\ typ (set_len head v) = typ head /\ len (set_len head v) = v.
Proof.
  intros Hh Hv. set (h' := head - head mod 2 ^ 16 + v).
  assert (set_len head v = h') as ->.
  { unfold set_len. rewrite set_bit_range_spec, bit_range_spec by lia.
    change (15 - 0 + 1) with 16. change (2 ^ 0) with 1.
    by rewrite Z.div_1_r, !Z.mul_1_r, (Z.mod_small v) by done. }
  pose proof (Z.div_mod head (2 ^ 16) ltac:(done)) as Hdm.
  pose proof (Z.mod_pos_bound head (2 ^ 16) eq_refl) as Hb.
  pose proof (Z.div_lt_upper_bound head (2 ^ 16) (2 ^ 16) eq_refl ltac:(lia)).
  pose proof (Z.div_pos head (2 ^ 16) ltac:(lia) eq_refl).
  assert (0 <= h' < 2 ^ 32) as Hh' by lia.
  assert (h' / 2 ^ 16 = head / 2 ^ 16) as Hd.
  { symmetry. apply (Z.div_unique h' (2 ^ 16) _ v); lia. }
  destruct (head_fields head Hh) as (-> & -> & _), (head_fields h' Hh') as (-> & -> & ->).
  repeat split; try lia.
  - change (2 ^ 30) with (2 ^ 16 * 2 ^ 14). by rewrite <-!Z.div_div, Hd by lia.
  - by rewrite Hd.
  - symmetry. apply (Z.mod_unique h' (2 ^ 16) (head / 2 ^ 16)); lia.
Qed.

(** The head of a new message *)
Lemma set_typ_zero t :
  0 <= t < 2 ^ 14 ->
  set_typ 0 t = t * 2 ^ 16 /\ z (set_typ 0 t) = 0 /\ typ (set_typ 0 t) = t.
Proof.
  intros Ht. unfold set_typ. rewrite set_bit_range_spec, bit_range_spec by lia.
  rewrite Z.div_0_l, Z.mod_0_l by done. cbn [Z.sub Z.add]. rewrite Z.mod_small by done.
  replace (0 * 2 ^ 16 + _) with (t * 2 ^ 16) by lia.
  split; [done|]. destruct (head_fields (t * 2 ^ 16) ltac:(lia)) as (-> & -> & _).
  split; [apply Z.div_small; lia|]. rewrite Z.div_mul by done. by apply Z.mod_small.
Qed.
End laws.
