(* ===== verification/StunMessage.v ===== *)
(** * STUN messages (media/stun-types/src/parse.rs, builder.rs)

    [Message] with its parser, attribute lookup and the temporary length of
    [with_msg_len]; [MessageBuilder]; the [Attribute] trait as a class. *)
From S2P Require Import Prelude Wire StunHeader.
Local Open Scope Z_scope.

(** ** parse.rs: data *)

Module AttrSpan.
Record t := { begin : nat; end_ : nat; padding_end : nat; typ : Z }.
End AttrSpan.

Module Message.
Record t := {
  buffer : list byte;
  head : Z;
  id : Z;
  class : Class_;
  method : Method;
  transaction_id : TransactionId;
  attributes : list AttrSpan.t }.
End Message.

Module MessageBuilder.
Record t := {
  head : Z;
  transaction_id : TransactionId;
  padding_in_value_len : bool;
  buffer : list byte }.
End MessageBuilder.

(** [AttrSpan::get_value]: slicing out of range panics. *)
Definition get_value (self : AttrSpan.t) (buf : list byte) : exec (list byte) :=
  let b := AttrSpan.begin self in
  let e := AttrSpan.end_ self in
  if decide ((b <= e)%nat /\ (e <= length buf)%nat) then Ret (take (e - b) (drop b buf)) else Panic.

(** Writing the four bytes of the head at the front of a buffer
    ([buffer[0] = b0] ... [buffer[3] = b3]). *)
Definition write_head (head : Z) (buf : list byte) : exec (list byte) :=
  if decide (4 <= length buf)%nat then Ret (be_bytes 4 head ++ drop 4 buf) else Panic.

(** ** parse.rs: operations *)
Section operations.
Context `{W : WireOps}.

(** [cursor.read_uN::<NE>()?] *)
Definition cursor_read (n : nat) (pos : nat) (buf : list byte) : result Error (Z * nat) :=
  match read_uint n (drop pos buf) with
  | Some (v, _) => Ok (v, (pos + n)%nat)
  | None => Err from_unexpected_eof
  end.

(** The attribute loop of [Message::parse]. Every round consumes at least four
    bytes; [parse_attributes_unfold] shows that the length of the buffer is
    fuel enough. *)
Fixpoint parse_attributes (fuel : nat) (buf : list byte) (pos : nat)
    : result Error (list AttrSpan.t) :=
  match fuel with
  | O => Ok []
  | S fuel =>
      if has_remaining pos buf then
        '(attr_typ, pos) ← cursor_read 2 pos buf;
        '(attr_len, pos) ← cursor_read 2 pos buf;
        let value_begin := pos in
        let value_end := (value_begin + Z.to_nat attr_len)%nat in
        let padding_end := (value_end + Z.to_nat (padding attr_len))%nat in
        if decide (length buf < padding_end)%nat then
          Err (InvalidData "Invalid attribute length in STUN message")
        else
          attrs ← parse_attributes fuel buf padding_end;
          Ok ({| AttrSpan.begin := value_begin; AttrSpan.end_ := value_end;
                 AttrSpan.padding_end := padding_end; AttrSpan.typ := attr_typ |} :: attrs)
      else Ok []
  end.

(** [Message::parse] *)
Definition parse (buffer : list byte) : result Error Message.t :=
  '(head, pos) ← cursor_read 4 0 buffer;
  if decide (z head <> 0) then Err (InvalidData "not a stun message")
  else
    '(id, pos) ← cursor_read 16 pos buffer;
    '(cookie, p) ← cursor_read 4 0 (be_bytes 16 id);
    let transaction_id := take 12 (drop p (be_bytes 16 id)) in
    if decide (cookie <> COOKIE) then Err (InvalidData "not a stun message")
    else
      class ← class_try_from (typ head);
      method ← method_try_from (typ head);
      attributes ← parse_attributes (length buffer) buffer pos;
      Ok {| Message.buffer := buffer; Message.head := head; Message.id := id;
            Message.class := class; Message.method := method;
            Message.transaction_id := transaction_id; Message.attributes := attributes |}.

(** [Message::set_msg_len] *)
Definition set_msg_len (len : Z) (self : Message.t) : exec Message.t :=
  let head := set_len (Message.head self) len in
  buf ← write_head head (Message.buffer self);
  Ret {| Message.buffer := buf; Message.head := head; Message.id := Message.id self;
         Message.class := Message.class self; Message.method := Message.method self;
         Message.transaction_id := Message.transaction_id self;
         Message.attributes := Message.attributes self |}.

(** [Message::with_msg_len] *)
Definition with_msg_len {R} (l : Z) (f : Message.t -> exec (R * Message.t)) (self : Message.t)
    : exec (R * Message.t) :=
  let old_len := len (Message.head self) in
  self ← set_msg_len l self;
  '(result, self) ← f self;
  self ← set_msg_len old_len self;
  Ret (result, self).

(** ** The [Attribute] trait *)
Class Attribute (A Context : Type) := {
  TYPE : Z;
  decode : Context -> Message.t -> AttrSpan.t -> exec (result Error A * Message.t);
  encode : A -> Context -> MessageBuilder.t -> exec MessageBuilder.t;
  encode_len : A -> result Error Z }.

Definition MESSAGE_INTEGRITY : Z := 0x0008.
Definition MESSAGE_INTEGRITY_SHA256 : Z := 0x001C.
Definition FINGERPRINT : Z := 0x8028.

(** The search loop of [Message::attribute_with] *)
Fixpoint find_attribute (target : Z) (after_integrity : bool) (attrs : list AttrSpan.t)
    : option AttrSpan.t :=
  match attrs with
  | [] => None
  | attr :: attrs =>
      let t := AttrSpan.typ attr in
      if after_integrity && negb (bool_decide (t = MESSAGE_INTEGRITY_SHA256 \/ t = FINGERPRINT))
      then None
      else if decide (t = target) then Some attr
      else
        find_attribute target
          (after_integrity || bool_decide (t = MESSAGE_INTEGRITY \/ t = MESSAGE_INTEGRITY_SHA256))
          attrs
  end.

(** [Message::attribute_with], [Message::attribute] *)
Definition attribute_with (A : Type) {Context} `{Attribute A Context} (ctx : Context)
    (self : Message.t) : exec (option (result Error A) * Message.t) :=
  match find_attribute (TYPE (A := A)) false (Message.attributes self) with
  | None => Ret (None, self)
  | Some attr => '(r, self) ← decode ctx self attr; Ret (Some r, self)
  end.
Definition attribute (A : Type) `{Attribute A unit} (self : Message.t)
    : exec (option (result Error A) * Message.t) :=
  attribute_with A tt self.

(** ** builder.rs *)

Definition with_buffer (f : list byte -> list byte) (b : MessageBuilder.t) : MessageBuilder.t :=
  {| MessageBuilder.head := MessageBuilder.head b;
     MessageBuilder.transaction_id := MessageBuilder.transaction_id b;
     MessageBuilder.padding_in_value_len := MessageBuilder.padding_in_value_len b;
     MessageBuilder.buffer := f (MessageBuilder.buffer b) |}.

(** [MessageBuilder::new] *)
Definition builder_new (class : Class_) (method : Method) (transaction_id : TransactionId)
    : MessageBuilder.t :=
  let t := method_set_bits method 0 in
  let t := class_set_bits class t in
  let head := set_typ 0 t in
  let buffer := put_uint 4 [] head in
  let buffer := put_uint 4 buffer COOKIE in
  let buffer := put_slice buffer transaction_id in
  {| MessageBuilder.head := head; MessageBuilder.transaction_id := transaction_id;
     MessageBuilder.padding_in_value_len := false; MessageBuilder.buffer := buffer |}.

(** [MessageBuilder::padding_in_value_len] *)
Definition set_padding_in_value_len (v : bool) (b : MessageBuilder.t) : MessageBuilder.t :=
  {| MessageBuilder.head := MessageBuilder.head b;
     MessageBuilder.transaction_id := MessageBuilder.transaction_id b;
     MessageBuilder.padding_in_value_len := v;
     MessageBuilder.buffer := MessageBuilder.buffer b |}.

(** [MessageBuilder::set_len] *)
Definition builder_set_len (len : Z) (b : MessageBuilder.t) : exec MessageBuilder.t :=
  let head := set_len (MessageBuilder.head b) len in
  buf ← write_head head (MessageBuilder.buffer b);
  Ret {| MessageBuilder.head := head;
         MessageBuilder.transaction_id := MessageBuilder.transaction_id b;
         MessageBuilder.padding_in_value_len := MessageBuilder.padding_in_value_len b;
         MessageBuilder.buffer := buf |}.

(** [MessageBuilder::add_attr_with], [MessageBuilder::add_attr] *)
Definition add_attr_with {A Context} `{Attribute A Context} (attr : A) (ctx : Context)
    (b : MessageBuilder.t) : exec MessageBuilder.t :=
  enc_len ← unwrap_res (encode_len attr);
  let pad := padding enc_len in
  let b := with_buffer (fun buf => put_uint 2 buf (TYPE (A := A))) b in
  let b := with_buffer (fun buf =>
             put_uint 2 buf (if MessageBuilder.padding_in_value_len b
                             then wrap 16 (enc_len + pad) else enc_len)) b in
  b ← encode attr ctx b;
  Ret (with_buffer (fun buf => buf ++ replicate (Z.to_nat pad) x00) b).
Definition add_attr {A} `{Attribute A unit} (attr : A) (b : MessageBuilder.t)
    : exec MessageBuilder.t :=
  add_attr_with attr tt b.

(** [MessageBuilder::id]: [id[4..].copy_from_slice(&tsx)] *)
Definition builder_id (b : MessageBuilder.t) : Z :=
  be_val (be_bytes 4 COOKIE ++ MessageBuilder.transaction_id b).

(** [(self.buffer.len() - STUN_HEADER_LENGTH).try_into().unwrap()]; the
    subtraction underflows on a buffer without header. *)
Definition message_length (n : Z) : exec Z :=
  if decide (0 <= n < 2 ^ 16) then Ret n else Panic.

(** [MessageBuilder::finish] *)
Definition finish (b : MessageBuilder.t) : exec (list byte) :=
  l ← message_length (Z.of_nat (length (MessageBuilder.buffer b)) - STUN_HEADER_LENGTH);
  b ← builder_set_len l b;
  Ret (MessageBuilder.buffer b).
End operations.

(** ** What a message is made of

    A message is its head, the cookie, the transaction id and the encodings of
    its attributes, each a type and a value. *)
Definition tlv := (Z * list byte)%type.

Definition pad (n : nat) : nat := Z.to_nat (padding (Z.of_nat n)).

Definition encode_tlv (a : tlv) : list byte :=
  be_bytes 2 a.1 ++ be_bytes 2 (Z.of_nat (length a.2)) ++ a.2 ++ replicate (pad (length a.2)) x00.

Definition encode_tlvs (l : list tlv) : list byte := concat (encode_tlv <$> l).

Definition tlv_ok (a : tlv) : Prop := uint 16 a.1 /\ uint 16 (Z.of_nat (length a.2)).

Definition head_typ (c : Class_) (m : Method) : Z := class_set_bits c (method_set_bits m 0).

Definition message_bytes (head : Z) (tid : TransactionId) (l : list tlv) : list byte :=
  be_bytes 4 head ++ be_bytes 4 COOKIE ++ tid ++ encode_tlvs l.

(** The spans of attributes laid out from a position on. *)
Fixpoint layout (pos : nat) (l : list tlv) : list AttrSpan.t :=
  match l with
  | [] => []
  | (t, v) :: l =>
      let e := (pos + 4 + length v)%nat in
      {| AttrSpan.begin := pos + 4; AttrSpan.end_ := e;
         AttrSpan.padding_end := e + pad (length v); AttrSpan.typ := t |}
        :: layout (e + pad (length v)) l
  end.

(** Spans that tile a range of the buffer: every attribute starts where the
    one before it ends, behind four bytes of type and length. *)
Inductive tiles : nat -> list AttrSpan.t -> nat -> Prop :=
| tiles_nil pos : tiles pos [] pos
| tiles_cons pos s l n :
    AttrSpan.begin s = (pos + 4)%nat ->
    (AttrSpan.begin s <= AttrSpan.end_ s)%nat ->
    AttrSpan.padding_end s =
      (AttrSpan.end_ s + pad (AttrSpan.end_ s - AttrSpan.begin s))%nat ->
    tiles (AttrSpan.padding_end s) l n ->
    tiles pos (s :: l) n.

Lemma pad_lt n : (pad n <= 3)%nat.
Proof. unfold pad. pose proof (padding_spec (Z.of_nat n) ltac:(lia)). lia. Qed.

(** A padded value needs no more padding. *)
Lemma pad_pad n : pad (n + pad n) = 0%nat.
Proof.
  unfold pad. pose proof (padding_spec (Z.of_nat n) ltac:(lia)) as [Hp1 Hp2].
  rewrite Nat2Z.inj_add, Z2Nat.id by lia. unfold padding at 1. by rewrite Hp2.
Qed.

Lemma of_nat_pad n : Z.of_nat (n + pad n) = Z.of_nat n + padding (Z.of_nat n).
Proof. unfold pad. pose proof (padding_spec (Z.of_nat n) ltac:(lia)). lia. Qed.

Lemma length_encode_tlv a : length (encode_tlv a) = (4 + length a.2 + pad (length a.2))%nat.
Proof. unfold encode_tlv. rewrite !length_app, !length_be_bytes, length_replicate. lia. Qed.

Lemma encode_tlvs_cons a l : encode_tlvs (a :: l) = encode_tlv a ++ encode_tlvs l.
Proof. done. Qed.

Lemma encode_tlvs_snoc l a : encode_tlvs (l ++ [a]) = encode_tlvs l ++ encode_tlv a.
Proof. unfold encode_tlvs. rewrite fmap_app, concat_app. cbn. by rewrite app_nil_r. Qed.

Lemma tiles_le pos l n : tiles pos l n -> (pos <= n)%nat.
Proof. induction 1; lia. Qed.

Lemma tiles_lookup pos l n s :
  tiles pos l n -> s ∈ l ->
  (pos + 4 <= AttrSpan.begin s)%nat /\ (AttrSpan.begin s <= AttrSpan.end_ s)%nat /\
  (AttrSpan.end_ s <= AttrSpan.padding_end s)%nat /\ (AttrSpan.padding_end s <= n)%nat.
Proof.
  induction 1 as [|pos s' l n Hb He Hp Ht IH]; [by intros ?%elem_of_nil|].
  intros [->|Hin]%elem_of_cons.
  - pose proof (tiles_le _ _ _ Ht). lia.
  - destruct (IH Hin). lia.
Qed.

Section parse_facts.
Context `{WL : WireLaws}.

Lemma cursor_read_spec n pos buf :
  (0 < n)%nat ->
  cursor_read n pos buf =
    if decide (pos + n <= length buf)%nat
    then Ok (be_val (take n (drop pos buf)), (pos + n)%nat) else Err from_unexpected_eof.
Proof.
  intros Hn. unfold cursor_read. case_decide as H.
  - destruct (read_uint n (drop pos buf)) as [[v r]|] eqn:E.
    + apply read_uint_Some in E as (_ & -> & _). done.
    + assert (read_uint n (drop pos buf) = Some (be_val (take n (drop pos buf)), drop n (drop pos buf)));
        [|congruence].
      apply read_uint_Some. rewrite length_drop. repeat split; lia.
  - by rewrite read_uint_short by (rewrite length_drop; lia).
Qed.

(** Reading back an integer that was written at the position. *)
Lemma cursor_read_at n v pre rest :
  (0 < n)%nat -> 0 <= v < 256 ^ Z.of_nat n ->
  cursor_read n (length pre) (pre ++ be_bytes n v ++ rest) = Ok (v, (length pre + n)%nat).
Proof. intros Hn Hv. unfold cursor_read. by rewrite drop_app_length, read_put. Qed.

Lemma cursor_read_at' n v pos pre rest buf :
  (0 < n)%nat -> 0 <= v < 256 ^ Z.of_nat n -> pos = length pre ->
  buf = pre ++ be_bytes n v ++ rest -> cursor_read n pos buf = Ok (v, (pos + n)%nat).
Proof. intros Hn Hv -> ->. by apply cursor_read_at. Qed.

(** The length of the rest of the buffer is fuel enough. *)
Lemma parse_attributes_enough fuel buf pos :
  (length buf - pos <= fuel)%nat ->
  parse_attributes fuel buf pos = parse_attributes (length buf - pos) buf pos.
Proof.
  intros Hf. remember (length buf - pos)%nat as k eqn:Hk.
  assert (length buf - pos <= k)%nat as Hk' by lia. clear Hk.
  revert pos fuel Hf Hk'. induction k as [|k IH]; intros pos fuel Hf Hk.
  - destruct fuel as [|fuel]; [done|]. cbn.
    by rewrite has_remaining_spec, bool_decide_false by lia.
  - destruct fuel as [|fuel]; [lia|]. cbn.
    rewrite has_remaining_spec. case_bool_decide; [|done].
    rewrite cursor_read_spec by lia. case_decide; [|done]. cbn.
    rewrite cursor_read_spec by lia. case_decide; [|done]. cbn. case_decide; [done|].
    rewrite IH; [done|lia|lia].
Qed.

(** Parsed attributes tile the rest of the buffer. *)
Lemma parse_attributes_tiles fuel buf pos l :
  (length buf - pos <= fuel)%nat -> (pos <= length buf)%nat ->
  parse_attributes fuel buf pos = Ok l -> tiles pos l (length buf).
Proof.
  revert pos l. induction fuel as [|fuel IH]; intros pos l Hf Hp.
  - cbn. intros [= <-]. replace pos with (length buf) by lia. constructor.
  - cbn. rewrite has_remaining_spec. case_bool_decide as Hr.
    2: { intros [= <-]. replace pos with (length buf) by lia. constructor. }
    rewrite cursor_read_spec by lia. case_decide as H2; [|done]. cbn.
    rewrite cursor_read_spec by lia. case_decide as H4; [|done]. cbn.
    set (v := be_val (take 2 (drop (pos + 2) buf))).
    assert (0 <= v) as Hv by apply be_val_range.
    case_decide as Hl; [done|].
    destruct (parse_attributes _ _ _) as [l'|] eqn:E; [|done]. cbn. intros [= <-].
    apply IH in E; [|lia|lia].
    constructor; cbn; try lia.
    + unfold pad. repeat f_equal. lia.
    + exact E.
Qed.

Lemma parse_attributes_layout l pre fuel :
  Forall tlv_ok l -> (length (encode_tlvs l) <= fuel)%nat ->
  parse_attributes fuel (pre ++ encode_tlvs l) (length pre) = Ok (layout (length pre) l).
Proof.
  intros Hok. revert pre fuel. induction Hok as [|[t v] l [Ht Hv] Hok IH]; intros pre fuel Hf.
  - destruct fuel; [done|]. cbn [parse_attributes].
    rewrite has_remaining_spec, bool_decide_false; [done|]. rewrite length_app. cbn. lia.
  - cbn [fst snd] in Ht, Hv; unfold uint in Ht, Hv.
    rewrite encode_tlvs_cons, length_app, length_encode_tlv in Hf. cbn [snd] in Hf.
    destruct fuel as [|fuel]; [lia|]. cbn [parse_attributes].
    rewrite has_remaining_spec, bool_decide_true.
    2: { rewrite encode_tlvs_cons, !length_app, length_encode_tlv. cbn. lia. }
    rewrite encode_tlvs_cons. unfold encode_tlv. cbn [fst snd]. rewrite <-!app_assoc.
    rewrite cursor_read_at by (unfold uint in Ht; cbn; lia). cbn.
    rewrite (cursor_read_at' 2 (Z.of_nat (length v)) _ (pre ++ be_bytes 2 t)
      (v ++ replicate (pad (length v)) x00 ++ encode_tlvs l)); cycle 1.
    { lia. }
    { cbn. lia. }
    { by rewrite length_app, length_be_bytes. }
    { by rewrite <-!app_assoc. }
    cbn. fold (pad (length v)). rewrite Nat2Z.id, decide_False.
    2: { rewrite !length_app, !length_be_bytes, length_replicate. lia. }
    specialize (IH (pre ++ encode_tlv (t, v)) fuel ltac:(lia)).
    unfold encode_tlv in IH. cbn [fst snd] in IH. rewrite <-!app_assoc in IH.
    rewrite !length_app, !length_be_bytes, length_replicate in IH.
    replace (length pre + (2 + (2 + (length v + pad (length v)))))%nat
      with (length pre + 2 + 2 + length v + pad (length v))%nat in IH by lia.
    rewrite IH. cbn. replace (length pre + 4)%nat with (length pre + 2 + 2)%nat by lia. done.
Qed.
End parse_facts.

(** ** Lookup of an attribute on the list of types and values *)
Fixpoint find_tlv (target : Z) (after_integrity : bool) (l : list tlv) : option tlv :=
  match l with
  | [] => None
  | a :: l =>
      if after_integrity && negb (bool_decide (a.1 = MESSAGE_INTEGRITY_SHA256 \/ a.1 = FINGERPRINT))
      then None
      else if decide (a.1 = target) then Some a
      else find_tlv target
             (after_integrity || bool_decide (a.1 = MESSAGE_INTEGRITY \/ a.1 = MESSAGE_INTEGRITY_SHA256)) l
  end.

Lemma find_tlv_in target ai l a : find_tlv target ai l = Some a -> a ∈ l /\ a.1 = target.
Proof.
  revert ai. induction l as [|b l IH]; intros ai; cbn; [done|].
  destruct (_ && _); [done|]. case_decide.
  - intros [= <-]. split; [left|done].
  - intros (? & ?)%IH. split; [by right|done].
Qed.

(** An attribute added behind attributes of other types is found, as long as
    no integrity attribute hides it. *)
Lemma find_tlv_snoc target v l ai :
  Forall (fun a => a.1 <> target /\ a.1 <> MESSAGE_INTEGRITY /\ a.1 <> MESSAGE_INTEGRITY_SHA256) l ->
  ai = false ->
  find_tlv target ai (l ++ [(target, v)]) = Some (target, v).
Proof.
  intros Hl ->. induction Hl as [|a l (H1 & H2 & H3) _ IH]; cbn; [by rewrite decide_True|].
  rewrite decide_False by done. rewrite bool_decide_false by tauto. done.
Qed.

(** ... and what is found stays found when attributes are added behind it. *)
Lemma find_tlv_app target ai l l' a :
  find_tlv target ai l = Some a -> find_tlv target ai (l ++ l') = Some a.
Proof.
  revert ai. induction l as [|b l IH]; intros ai; cbn; [done|].
  destruct (_ && _); [done|]. case_decide; [done|]. apply IH.
Qed.

Lemma layout_typ pos l : AttrSpan.typ <$> layout pos l = l.*1.
Proof. revert pos. induction l as [|[t v] l IH]; intros pos; cbn; [done|]. by rewrite IH. Qed.

Lemma layout_get_value pre l s t v :
  (s, (t, v)) ∈ zip (layout (length pre) l) l ->
  get_value s (pre ++ encode_tlvs l) = Ret v /\ AttrSpan.typ s = t.
Proof.
  revert pre. induction l as [|[t' v'] l IH]; intros pre; [by intros ?%elem_of_nil|].
  cbn [layout zip zip_with]. rewrite elem_of_cons. intros [[= -> -> ->]|Hin].
  - split; [|done]. unfold get_value. cbn [AttrSpan.begin AttrSpan.end_].
    rewrite encode_tlvs_cons. rewrite decide_True.
    2: { rewrite !length_app, length_encode_tlv. cbn [snd]. lia. }
    unfold encode_tlv. cbn [fst snd]. rewrite <-!app_assoc.
    rewrite drop_app_ge by lia. rewrite (drop_app_ge (be_bytes 2 t')) by (rewrite length_be_bytes; lia).
    rewrite drop_app_ge by (rewrite !length_be_bytes; lia). rewrite !length_be_bytes.
    replace (length pre + 4 - length pre - 2 - 2)%nat with 0%nat by lia. rewrite drop_0.
    rewrite take_app_le by lia. rewrite take_ge by lia. done.
  - specialize (IH (pre ++ encode_tlv (t', v'))).
    rewrite length_app, length_encode_tlv in IH. cbn [snd] in IH.
    rewrite encode_tlvs_cons, app_assoc. apply IH.
    by replace (length pre + (4 + length v' + pad (length v')))%nat
      with (length pre + 4 + length v' + pad (length v'))%nat by lia.
Qed.

(** Both lookups agree on a laid-out message. *)
Lemma find_attribute_layout target ai pos l :
  match find_tlv target ai l with
  | None => find_attribute target ai (layout pos l) = None
  | Some a => exists s, find_attribute target ai (layout pos l) = Some s /\ (s, a) ∈ zip (layout pos l) l
  end.
Proof.
  revert ai pos. induction l as [|[t v] l IH]; intros ai pos; [done|].
  cbn [find_tlv layout find_attribute AttrSpan.typ fst].
  destruct (_ && _); [done|]. case_decide; cbn [zip zip_with].
  - eexists. split; [done|]. left.
  - specialize (IH (ai || bool_decide (t = MESSAGE_INTEGRITY \/ t = MESSAGE_INTEGRITY_SHA256))
      (pos + 4 + length v + pad (length v))%nat).
    destruct (find_tlv _ _ l); [|done]. destruct IH as (s & H1 & H2). exists s.
    split; [done|by right].
Qed.

(** ** Parsing what a message is made of *)
Section message_facts.
Context `{WL : WireLaws}.

Definition parsed (head : Z) (c : Class_) (m : Method) (tid : TransactionId) (l : list tlv) : Message.t :=
  {| Message.buffer := message_bytes head tid l; Message.head := head;
     Message.id := be_val (be_bytes 4 COOKIE ++ tid);
     Message.class := c; Message.method := m; Message.transaction_id := tid;
     Message.attributes := layout 20 l |}.

Lemma message_bytes_split head tid l :
  message_bytes head tid l = (be_bytes 4 head ++ be_bytes 4 COOKIE ++ tid) ++ encode_tlvs l.
Proof. unfold message_bytes. by rewrite <-!app_assoc. Qed.

Lemma length_message_bytes head tid l :
  length tid = 12%nat -> length (message_bytes head tid l) = (20 + length (encode_tlvs l))%nat.
Proof. intros Ht. unfold message_bytes. rewrite !length_app, !length_be_bytes. lia. Qed.

Lemma parse_message_bytes head c m tid l :
  uint 32 head -> z head = 0 -> typ head = head_typ c m -> length tid = 12%nat ->
  Forall tlv_ok l ->
  parse (message_bytes head tid l) = Ok (parsed head c m tid l).
Proof.
  intros Hh Hz Htyp Htid Hl. destruct (type_bits c m) as (Hc & Hm & _).
  unfold parse. rewrite (cursor_read_at' 4 head 0 [] (be_bytes 4 COOKIE ++ tid ++ encode_tlvs l));
    [| lia | exact Hh | done | done].
  cbn [mbind result_bind Nat.add]. rewrite decide_False by lia.
  assert (length (be_bytes 4 COOKIE ++ tid) = 16%nat) as H16
    by (rewrite length_app, length_be_bytes; lia).
  pose proof (be_val_range (be_bytes 4 COOKIE ++ tid)) as Hid. rewrite H16 in Hid.
  assert (be_bytes 16 (be_val (be_bytes 4 COOKIE ++ tid)) = be_bytes 4 COOKIE ++ tid) as Hidb
    by (by rewrite <-H16 at 1; rewrite be_bytes_val).
  rewrite (cursor_read_at' 16 (be_val (be_bytes 4 COOKIE ++ tid)) 4 (be_bytes 4 head) (encode_tlvs l));
    [|lia|exact Hid|by rewrite length_be_bytes|].
  2: { rewrite Hidb. unfold message_bytes. by rewrite <-!app_assoc. }
  cbn [mbind result_bind Nat.add]. rewrite Hidb.
  rewrite (cursor_read_at' 4 COOKIE 0 [] tid); [|lia|done|done|done].
  cbn [mbind result_bind Nat.add]. rewrite decide_False by (intros []; done).
  rewrite drop_app_ge by (by rewrite length_be_bytes). rewrite length_be_bytes, drop_0.
  rewrite Htyp. unfold head_typ. rewrite Hc, Hm. cbn [mbind result_bind].
  rewrite take_ge by lia.
  rewrite message_bytes_split at 1 2.
  replace 20%nat with (length (be_bytes 4 head ++ be_bytes 4 COOKIE ++ tid)) at 1
    by (rewrite !length_app, !length_be_bytes; lia).
  rewrite parse_attributes_layout; [|done|rewrite !length_app; lia]. cbn. unfold parsed.
  replace (length (be_bytes 4 head ++ be_bytes 4 COOKIE ++ tid)) with 20%nat
    by (rewrite !length_app, !length_be_bytes; lia). done.
Qed.
End message_facts.

(** ** Messages that came out of the parser *)
Section wf.
Context `{WL : WireLaws}.

(** The head is what the first four bytes say, and the attributes tile the
    buffer behind the 20 bytes of the header. *)
Record msg_wf (self : Message.t) : Prop := {
  wf_head : uint 32 (Message.head self);
  wf_z : z (Message.head self) = 0;
  wf_front : exists rest, Message.buffer self = be_bytes 4 (Message.head self) ++ rest;
  wf_long : (20 <= length (Message.buffer self))%nat;
  wf_id : take 16 (drop 4 (Message.buffer self)) = be_bytes 16 (Message.id self);
  wf_cookie : take 4 (be_bytes 16 (Message.id self)) = be_bytes 4 COOKIE;
  wf_tid : Message.transaction_id self = drop 4 (be_bytes 16 (Message.id self));
  wf_class : class_try_from (typ (Message.head self)) = Ok (Message.class self);
  wf_method : method_try_from (typ (Message.head self)) = Ok (Message.method self);
  wf_tiles : tiles 20 (Message.attributes self) (length (Message.buffer self)) }.

Lemma be_bytes_inj_val n z l : length l = n -> be_val l = z -> l = be_bytes n z.
Proof. intros <- <-. by rewrite be_bytes_val. Qed.

Lemma parse_wf buf msg : parse buf = Ok msg -> msg_wf msg /\ Message.buffer msg = buf.
Proof.
  unfold parse. rewrite cursor_read_spec by lia. case_decide as H4; [|done].
  rewrite drop_0. cbn [mbind result_bind Nat.add]. set (head := be_val (take 4 buf)).
  case_decide as Hz; [done|]. rewrite cursor_read_spec by lia. case_decide as H20; [|done].
  cbn [mbind result_bind Nat.add]. set (id := be_val (take 16 (drop 4 buf))).
  assert (take 16 (drop 4 buf) = be_bytes 16 id) as Hid.
  { apply be_bytes_inj_val; [|done]. rewrite length_take, length_drop. lia. }
  rewrite cursor_read_spec by lia. rewrite decide_True by (rewrite length_be_bytes; lia).
  rewrite drop_0. cbn [mbind result_bind Nat.add]. case_decide as Hc; [done|].
  destruct (class_try_from (typ head)) as [c|] eqn:Ecl; [|done].
  destruct (method_try_from (typ head)) as [m|] eqn:Eme; [|done]. cbn [mbind result_bind].
  destruct (parse_attributes _ _ _) as [l|] eqn:El; [|done]. cbn [mbind result_bind].
  intros [= <-]. split; [|done].
  apply parse_attributes_tiles in El; [|lia|lia].
  assert (take 4 buf = be_bytes 4 head) as Hh.
  { apply be_bytes_inj_val; [|done]. rewrite length_take. lia. }
  split; cbn [Message.buffer Message.head Message.id Message.class Message.method
    Message.transaction_id Message.attributes]; try done.
  - unfold head. pose proof (be_val_range (take 4 buf)) as Hr.
    rewrite length_take, Nat.min_l in Hr by lia. done.
  - exists (drop 4 buf). by rewrite <-Hh, take_drop.
  - apply be_bytes_inj_val; [rewrite length_take, length_be_bytes; lia|done].
Qed.

Lemma write_head_front h h' rest :
  write_head h' (be_bytes 4 h ++ rest) = Ret (be_bytes 4 h' ++ rest).
Proof.
  unfold write_head. rewrite decide_True by (rewrite length_app, length_be_bytes; lia).
  rewrite drop_app_ge by (rewrite length_be_bytes; lia).
  by rewrite length_be_bytes, drop_0.
Qed.

(** The message with another length. *)
Definition at_len (l : Z) (self : Message.t) : Message.t :=
  {| Message.buffer := be_bytes 4 (set_len (Message.head self) l) ++ drop 4 (Message.buffer self);
     Message.head := set_len (Message.head self) l; Message.id := Message.id self;
     Message.class := Message.class self; Message.method := Message.method self;
     Message.transaction_id := Message.transaction_id self;
     Message.attributes := Message.attributes self |}.

Lemma set_msg_len_at_len l self : msg_wf self -> set_msg_len l self = Ret (at_len l self).
Proof.
  intros Hwf. destruct (wf_front _ Hwf) as (rest & Hb). unfold set_msg_len, at_len.
  rewrite Hb, write_head_front. rewrite drop_app_ge by (rewrite length_be_bytes; lia).
  by rewrite length_be_bytes, drop_0.
Qed.

Lemma at_len_wf l self : msg_wf self -> uint 16 l -> msg_wf (at_len l self).
Proof.
  intros Hwf Hl. destruct (set_len_spec _ l (wf_head _ Hwf) Hl) as (_ & H1 & H2 & H3 & _).
  destruct (wf_front _ Hwf) as (rest & Hb). pose proof (wf_long _ Hwf) as H20.
  assert (length (be_bytes 4 (set_len (Message.head self) l) ++ drop 4 (Message.buffer self))
    = length (Message.buffer self)) as Hlen.
  { rewrite length_app, length_drop, length_be_bytes. lia. }
  destruct Hwf. split; cbn -[set_len z typ]; rewrite ?H2, ?H3, ?Hlen; try done.
  by eexists.
Qed.

(** [with_msg_len] runs a reader on the message with that length and gives
    the message back as it was. *)
Lemma with_msg_len_restores {R} l (f : Message.t -> exec (R * Message.t)) r self :
  msg_wf self -> uint 16 l -> f (at_len l self) = Ret (r, at_len l self) ->
  with_msg_len l f self = Ret (r, self).
Proof.
  intros Hwf Hl Hf. pose proof (at_len_wf l self Hwf Hl) as Hwf'.
  unfold with_msg_len. rewrite (set_msg_len_at_len l) by done. cbn [mbind exec_bind]. rewrite Hf.
  cbn [mbind exec_bind]. rewrite (set_msg_len_at_len _ (at_len l self)) by done.
  cbn [mbind exec_bind]. do 2 f_equal.
  pose proof (wf_head _ Hwf) as Hh. unfold uint in Hl, Hh.
  destruct (head_fields _ Hh) as (_ & _ & Hlen).
  pose proof (Z.mod_pos_bound (Message.head self) (2 ^ 16) eq_refl) as Hb.
  destruct (set_len_spec _ l Hh Hl) as (Hs & Hr & _ & _ & Hl').
  assert (set_len (set_len (Message.head self) l) (len (Message.head self)) = Message.head self) as E.
  { rewrite Hlen. destruct (set_len_spec _ (Message.head self mod 2 ^ 16) Hr Hb) as (-> & _).
    destruct (head_fields _ Hr) as (_ & _ & Hl''). rewrite <-Hl'', Hl', Hs. lia. }
  destruct (wf_front _ Hwf) as (rest & Hbuf). unfold at_len. destruct self; cbn -[set_len len] in *.
  rewrite E. f_equal. rewrite drop_app_ge by (rewrite length_be_bytes; lia).
  rewrite length_be_bytes, drop_0, Hbuf. rewrite drop_app_ge by (rewrite length_be_bytes; lia).
  by rewrite length_be_bytes, drop_0.
Qed.

(** No attribute of a parsed message is out of the buffer. *)
Lemma get_value_parsed self s :
  msg_wf self -> s ∈ Message.attributes self ->
  exists v, get_value s (Message.buffer self) = Ret v /\
    length v = (AttrSpan.end_ s - AttrSpan.begin s)%nat.
Proof.
  intros Hwf Hs. destruct (tiles_lookup _ _ _ _ (wf_tiles _ Hwf) Hs) as (H1 & H2 & H3 & H4).
  unfold get_value. rewrite decide_True by lia. eexists. split; [done|].
  rewrite length_take, length_drop. lia.
Qed.

Lemma find_attribute_in t ai l s :
  find_attribute t ai l = Some s -> s ∈ l /\ AttrSpan.typ s = t.
Proof.
  revert ai. induction l as [|b l IH]; intros ai; cbn; [done|].
  destruct (_ && _); [done|]. case_decide.
  - intros [= <-]. split; [left|done].
  - intros (? & ?)%IH. split; [by right|done].
Qed.
End wf.

(** ** Builders *)
Section builder_facts.
Context `{WL : WireLaws}.

(** A builder holds the attributes [l], followed by [extra] bytes of an
    attribute that is being written. *)
Record partial (b : MessageBuilder.t) (c : Class_) (m : Method) (tid : TransactionId)
    (l : list tlv) (extra : list byte) : Prop := {
  partial_head : uint 32 (MessageBuilder.head b);
  partial_z : z (MessageBuilder.head b) = 0;
  partial_typ : typ (MessageBuilder.head b) = head_typ c m;
  partial_tid : MessageBuilder.transaction_id b = tid;
  partial_tid_len : length tid = 12%nat;
  partial_ok : Forall tlv_ok l;
  partial_buffer : MessageBuilder.buffer b = message_bytes (MessageBuilder.head b) tid l ++ extra }.

Definition builds b c m tid l := partial b c m tid l [].

Lemma builder_new_builds c m tid : length tid = 12%nat -> builds (builder_new c m tid) c m tid [].
Proof.
  intros Ht. destruct (type_bits c m) as (_ & _ & Hr).
  destruct (set_typ_zero _ Hr) as (Hs & Hz & Htyp).
  assert (uint 32 (set_typ 0 (class_set_bits c (method_set_bits m 0)))) as Hu.
  { rewrite Hs. unfold uint. lia. }
  split; unfold builder_new; cbn [MessageBuilder.head MessageBuilder.transaction_id
    MessageBuilder.buffer]; try done.
  rewrite put_slice_app, !put_uint_app by done. unfold message_bytes.
  cbn [encode_tlvs fmap list_fmap concat app]. by rewrite !app_nil_r, <-!app_assoc.
Qed.

Lemma with_buffer_partial b c m tid l extra x :
  partial b c m tid l extra ->
  partial (with_buffer (fun buf => buf ++ x) b) c m tid l (extra ++ x).
Proof. intros []. split; cbn; try done. by rewrite partial_buffer0, <-!app_assoc. Qed.

Lemma partial_length b c m tid l extra :
  partial b c m tid l extra ->
  length (MessageBuilder.buffer b) = (20 + length (encode_tlvs l) + length extra)%nat.
Proof. intros []. by rewrite partial_buffer0, length_app, length_message_bytes. Qed.

Lemma partial_id b c m tid l extra :
  partial b c m tid l extra -> builder_id b = be_val (be_bytes 4 COOKIE ++ tid).
Proof. intros []. unfold builder_id. by rewrite partial_tid0. Qed.

Lemma builder_set_len_partial n b c m tid l extra :
  partial b c m tid l extra -> uint 16 n ->
  exists b', builder_set_len n b = Ret b' /\ partial b' c m tid l extra /\
    MessageBuilder.head b' = set_len (MessageBuilder.head b) n /\
    MessageBuilder.padding_in_value_len b' = MessageBuilder.padding_in_value_len b.
Proof.
  intros [] Hn. destruct (set_len_spec _ n partial_head0 Hn) as (_ & H1 & H2 & H3 & _).
  unfold builder_set_len. rewrite partial_buffer0. unfold message_bytes at 1.
  rewrite <-!app_assoc, write_head_front. eexists. split; [done|].
  split; [|done]. split; cbn -[set_len z typ]; rewrite ?H2, ?H3; try done.
  unfold message_bytes. by rewrite <-!app_assoc.
Qed.

(** [finish] gives the message with its length. *)
Lemma finish_builds b c m tid l :
  builds b c m tid l -> uint 16 (Z.of_nat (length (encode_tlvs l))) ->
  exists head, finish b = Ret (message_bytes head tid l) /\
    parse (message_bytes head tid l) = Ok (parsed head c m tid l) /\
    uint 32 head /\ z head = 0 /\ typ head = head_typ c m /\
    len head = Z.of_nat (length (encode_tlvs l)).
Proof.
  intros Hb Hl. unfold finish. pose proof (partial_length _ _ _ _ _ _ Hb) as Hlen.
  rewrite Hlen. cbn [length].
  replace (Z.of_nat (20 + length (encode_tlvs l) + 0) - STUN_HEADER_LENGTH)
    with (Z.of_nat (length (encode_tlvs l))) by (unfold STUN_HEADER_LENGTH; lia).
  unfold message_length. rewrite decide_True by done. cbn [mbind exec_bind].
  destruct (builder_set_len_partial _ _ _ _ _ _ _ Hb Hl) as (b' & -> & Hp & Hh' & _).
  cbn [mbind exec_bind]. exists (MessageBuilder.head b').
  destruct (set_len_spec _ _ (partial_head _ _ _ _ _ _ Hb) Hl) as (_ & _ & _ & _ & Hlen').
  destruct Hp. rewrite app_nil_r in partial_buffer0. rewrite partial_buffer0.
  repeat split; try done; try apply partial_head0.
  - by apply parse_message_bytes.
  - by rewrite Hh'.
Qed.

(** ** What an attribute promises

    [value a id] are the bytes of the attribute in a message with that id
    (the XOR addresses depend on it). *)
Class PlainAttribute (A Context : Type) `{Attribute A Context} := {
  valid : A -> Prop;
  value : A -> Z -> list byte;
  type_ok : uint 16 (TYPE (A := A));
  value_len a id : valid a ->
    uint 16 (Z.of_nat (length (value a id))) /\
    encode_len a = Ok (Z.of_nat (length (value a id)));
  encode_value a ctx b : valid a -> uint 128 (builder_id b) ->
    encode a ctx b = Ret (with_buffer (fun buf => buf ++ value a (builder_id b)) b);
  decode_value a ctx msg s : valid a -> uint 128 (Message.id msg) ->
    get_value s (Message.buffer msg) = Ret (value a (Message.id msg)) ->
    decode ctx msg s = Ret (Ok a, msg) }.

Definition message_id (tid : TransactionId) : Z := be_val (be_bytes 4 COOKIE ++ tid).

Lemma message_id_range tid : length tid = 12%nat -> uint 128 (message_id tid).
Proof.
  intros Ht. unfold message_id, uint. pose proof (be_val_range (be_bytes 4 COOKIE ++ tid)) as Hr.
  rewrite length_app, length_be_bytes, Ht in Hr. exact Hr.
Qed.

(** Adding an attribute adds its type and value, and the padding to the value
    in the mode [padding_in_value_len]. *)
Definition padded (p : bool) (v : list byte) : list byte :=
  if p then v ++ replicate (pad (length v)) x00 else v.

Lemma add_attr_builds {A Context} `{PlainAttribute A Context} (a : A) ctx b c m tid l :
  let v := padded (MessageBuilder.padding_in_value_len b) (value a (message_id tid)) in
  builds b c m tid l -> valid a -> uint 16 (Z.of_nat (length v)) ->
  exists b', add_attr_with a ctx b = Ret b' /\ builds b' c m tid (l ++ [(TYPE (A := A), v)]) /\
    MessageBuilder.padding_in_value_len b' = MessageBuilder.padding_in_value_len b.
Proof.
  intros v Hb Hv Hlen. pose proof type_ok as Ht.
  destruct (value_len a (message_id tid) Hv) as [Hl Hel].
  unfold add_attr_with. rewrite Hel. cbn [unwrap_res mbind exec_bind].
  rewrite encode_value; [|done|].
  2: { change (uint 128 (builder_id b)). rewrite (partial_id _ _ _ _ _ _ Hb). by apply message_id_range, (partial_tid_len _ _ _ _ _ _ Hb). }
  cbn [mbind exec_bind].
  eexists. split; [done|]. split; [|done].
  destruct Hb. split; cbn; try done.
  - apply Forall_app_2; [done|]. constructor; [|constructor]. by split.
  - unfold builder_id. cbn. rewrite partial_tid0. fold (message_id tid).
    rewrite partial_buffer0, app_nil_r, !put_uint_app; [|exact Ht|].
    2: { subst v. unfold padded in Hlen. destruct (MessageBuilder.padding_in_value_len b).
         - by apply (wrap_uint 16).
         - exact Hl. }
    rewrite !message_bytes_split, encode_tlvs_snoc, app_nil_r. rewrite <-!app_assoc. do 3 f_equal.
    f_equal. unfold encode_tlv. cbn [fst snd]. subst v. f_equal. unfold padded in *.
    destruct (MessageBuilder.padding_in_value_len b); [|done].
    generalize dependent (value a (message_id tid)). intros w Hlen _ _.
    rewrite length_app, length_replicate in Hlen |- *. rewrite pad_pad, of_nat_pad in *.
    rewrite wrap_id by done. cbn. by rewrite app_nil_r.
Qed.

(** ** Whole messages *)

(** An attribute of any type that can be added without further ado. *)
Inductive any_attr :=
| AnyAttr {A Context} {H : Attribute A Context} {HP : PlainAttribute A Context} (a : A) (ctx : Context).

Definition any_type (x : any_attr) : Z := let '@AnyAttr A _ H _ _ _ := x in TYPE (A := A).
Definition any_valid (x : any_attr) : Prop := let 'AnyAttr a _ := x in valid a.
Definition any_tlv (id : Z) (x : any_attr) : tlv :=
  (any_type x, let 'AnyAttr a _ := x in value a id).
Definition add_any (x : any_attr) (b : MessageBuilder.t) : exec MessageBuilder.t :=
  let 'AnyAttr a ctx := x in add_attr_with a ctx b.

Fixpoint add_attrs (l : list any_attr) (b : MessageBuilder.t) : exec MessageBuilder.t :=
  match l with [] => Ret b | x :: l => b ← add_any x b; add_attrs l b end.

(** [MessageBuilder::new], any number of [add_attr_with], [finish] *)
Definition build_message c m tid (l : list any_attr) : exec (list byte) :=
  b ← add_attrs l (builder_new c m tid); finish b.

(** A type that [attribute] finds: no integrity attribute, which would hide
    what follows, and not the type that is looked for. *)
Definition visible_before (t : Z) (x : any_attr) : Prop :=
  any_type x <> t /\ any_type x <> MESSAGE_INTEGRITY /\ any_type x <> MESSAGE_INTEGRITY_SHA256.

Lemma add_attrs_builds l b c m tid l0 :
  builds b c m tid l0 -> MessageBuilder.padding_in_value_len b = false ->
  Forall any_valid l ->
  exists b', add_attrs l b = Ret b' /\ builds b' c m tid (l0 ++ (any_tlv (message_id tid) <$> l)) /\
    MessageBuilder.padding_in_value_len b' = false.
Proof.
  intros Hb Hp Hl. revert b l0 Hb Hp.
  induction Hl as [|[A Context H HP a ctx] l Hx _ IH]; intros b l0 Hb Hp.
  - exists b. cbn. by rewrite app_nil_r.
  - pose proof (value_len a (message_id tid) Hx) as [Hlen _].
    pose proof (add_attr_builds a ctx b c m tid l0) as Hadd. rewrite Hp in Hadd.
    destruct (Hadd Hb Hx Hlen) as (b1 & Eb & Hb1 & Hp1).
    destruct (IH b1 _ Hb1 Hp1) as (b' & E & Hb' & Hp'). exists b'.
    cbn [add_attrs add_any]. rewrite Eb. cbn [mbind exec_bind]. split; [done|]. split; [|done].
    by rewrite <-app_assoc in Hb'.
Qed.

(** What a laid-out message gives for an attribute. *)
Lemma attribute_of_parsed {A Context} `{PlainAttribute A Context} (a : A) ctx head c m tid l :
  length tid = 12%nat -> valid a ->
  find_tlv (TYPE (A := A)) false l = Some (TYPE (A := A), value a (message_id tid)) ->
  attribute_with A ctx (parsed head c m tid l) = Ret (Some (Ok a), parsed head c m tid l).
Proof.
  intros Ht Hv Hf. unfold attribute_with.
  pose proof (find_attribute_layout (TYPE (A := A)) false 20 l) as Hl. rewrite Hf in Hl.
  destruct Hl as (s & Es & Hin). cbn [Message.attributes parsed]. rewrite Es.
  rewrite (decode_value a); [done|done|by apply message_id_range|].
  cbn [Message.buffer Message.id parsed]. rewrite message_bytes_split.
  assert (20%nat = length (be_bytes 4 head ++ be_bytes 4 COOKIE ++ tid)) as E.
  { rewrite !length_app, !length_be_bytes. lia. }
  rewrite E in Hin. by apply layout_get_value in Hin as [-> _].
Qed.

Lemma is_stun_message_bytes head tid l :
  uint 32 head -> z head = 0 -> length tid = 12%nat ->
  len head = Z.of_nat (length (encode_tlvs l)) ->
  is_stun_message (message_bytes head tid l) =
    Ret (Yes (Z.of_nat (length (message_bytes head tid l)))).
Proof.
  intros Hh Hz Ht Hl. unfold is_stun_message. rewrite length_message_bytes by done.
  rewrite decide_False by lia. unfold message_bytes. rewrite read_put by exact Hh.
  cbn [unwrap mbind exec_bind]. rewrite decide_False by lia. rewrite read_put by done.
  cbn [unwrap mbind exec_bind]. rewrite decide_False by (intros []; done).
  rewrite Hl, decide_False by lia. do 2 f_equal. lia.
Qed.

Lemma find_tlv_any id l i A Context H HP (a : A) (ctx : Context) :
  l !! i = Some (@AnyAttr A Context H HP a ctx) ->
  Forall (visible_before (TYPE (A := A))) (take i l) ->
  find_tlv (TYPE (A := A)) false (any_tlv id <$> l) = Some (TYPE (A := A), value a id).
Proof.
  intros Hi Hvis. rewrite <-(take_drop_middle l i _ Hi).
  rewrite fmap_app. cbn [fmap list_fmap]. rewrite (cons_middle (any_tlv id _)), app_assoc.
  apply find_tlv_app. apply find_tlv_snoc; [|done].
  apply Forall_fmap. eapply Forall_impl; [exact Hvis|]. done.
Qed.

(** A message that is built, as its parts *)
Lemma build_message_parsed c m tid (l : list any_attr) : let tl := any_tlv (message_id tid) <$> l in
  length tid = 12%nat -> Forall any_valid l -> uint 16 (Z.of_nat (length (encode_tlvs tl))) ->
  exists head, build_message c m tid l = Ret (message_bytes head tid tl) /\
    parse (message_bytes head tid tl) = Ok (parsed head c m tid tl) /\
    is_stun_message (message_bytes head tid tl) = Ret (Yes (Z.of_nat (length (message_bytes head tid tl)))).
Proof.
  intros tl Ht Hl Hlen.
  destruct (add_attrs_builds l _ _ _ _ _ (builder_new_builds c m tid Ht) eq_refl Hl)
    as (b & Eb & Hb & _). cbn [app] in Hb.
  destruct (finish_builds _ _ _ _ _ Hb Hlen) as (head & Ef & Ep & Hh & Hz & Htyp & Hlen').
  exists head. unfold build_message. rewrite Eb. cbn [mbind exec_bind].
  split; [exact Ef|]. split; [exact Ep|]. by apply is_stun_message_bytes.
Qed.

(** C4: Round trip of messages: whatever attributes are added to a builder,
    as long as they fit a message, [finish] succeeds, the bytes are recognised
    as one STUN message of exactly their length, they parse, to a message with
    the class, the method and the transaction id of the builder, and
    [attribute_with] gives back every attribute that is neither behind one of
    its own type nor behind an integrity attribute. *)
Theorem build_parse_roundtrip c m tid (l : list any_attr) :
  length tid = 12%nat -> Forall any_valid l ->
  uint 16 (Z.of_nat (length (encode_tlvs (any_tlv (message_id tid) <$> l)))) ->
  exists bytes msg,
    build_message c m tid l = Ret bytes /\ parse bytes = Ok msg /\
    is_stun_message bytes = Ret (Yes (Z.of_nat (length bytes))) /\
    Message.class msg = c /\ Message.method msg = m /\ Message.transaction_id msg = tid /\
    length (Message.attributes msg) = length l /\
    forall i A Context H HP (a : A) (ctx : Context),
      l !! i = Some (@AnyAttr A Context H HP a ctx) ->
      Forall (visible_before (TYPE (A := A))) (take i l) ->
      attribute_with A ctx msg = Ret (Some (Ok a), msg).
Proof.
  intros Ht Hl Hlen. destruct (build_message_parsed c m tid l Ht Hl Hlen) as (head & Eb & Ep & Hs).
  eexists _, _. split; [exact Eb|]. split; [exact Ep|]. split; [exact Hs|].
  do 3 (split; [done|]). split.
  { cbn [Message.attributes parsed]. rewrite <-(length_fmap AttrSpan.typ), layout_typ.
    by rewrite !length_fmap. }
  intros i A Context H HP a ctx Hi Hvis. apply attribute_of_parsed; [done| |].
  - apply (Forall_lookup_1 _ _ _ _ Hl) in Hi. exact Hi.
  - by eapply find_tlv_any.
Qed.
End builder_facts.
