(* ===== verification/StunAttr.v ===== *)
(** * STUN attributes (media/stun-types/src/attributes)

    Every attribute type of the crate as an instance of [Attribute], the ones
    that can be written anywhere in a message as instances of
    [PlainAttribute], and all of them as instances of [SafeAttribute]: decoding
    an attribute of a parsed message does not panic. *)
From S2P Require Import Prelude Wire Text StunHeader StunMessage.
Local Open Scope Z_scope.

Definition from_utf8 (l : list byte) : result Error str :=
  if utf8_valid l then Ok l else Err Utf8.

(** [std::net::SocketAddr] *)
Inductive SocketAddr :=
| V4 (ip port : Z)
| V6 (ip port flowinfo scope_id : Z).

#[export] Instance SocketAddr_eq_dec : EqDecision SocketAddr.
Proof. solve_decision. Defined.

(** [StringAttribute<TYPE>], [BytesAttribute<TYPE>] *)
Inductive StringAttribute (ty : Z) := StringAttr (s : str).
Arguments StringAttr {ty} s.
Inductive BytesAttribute (ty : Z) := BytesAttr (s : list byte).
Arguments BytesAttr {ty} s.

Section attributes.
Context `{W : WireOps}.

(** [value.read_uN::<NE>()?] on a slice *)
Definition read_n (n : nat) (l : list byte) : result Error (Z * list byte) :=
  ok_or from_unexpected_eof (read_uint n l).

(** A decoder that reads the value of the attribute and nothing else. *)
Definition decode_from {A} (f : list byte -> result Error A) (msg : Message.t) (attr : AttrSpan.t)
    : exec (result Error A * Message.t) :=
  v ← get_value attr (Message.buffer msg); Ret (f v, msg).

(** [u16::try_from(n)?] *)
Definition u16_len (n : nat) : result Error Z := try_from_uint 16 TryFromInt (Z.of_nat n).

(** ** attributes/mod.rs *)
Definition string_decode {ty} (value : list byte) : result Error (StringAttribute ty) :=
  s ← from_utf8 value; Ok (StringAttr s).

#[export] Instance StringAttribute_attr ty : Attribute (StringAttribute ty) unit := {|
  TYPE := ty;
  decode _ := decode_from string_decode;
  encode self _ b := let 'StringAttr s := self in Ret (with_buffer (fun buf => buf ++ s) b);
  encode_len self := let 'StringAttr s := self in u16_len (length s) |}.

Definition bytes_decode {ty} (value : list byte) : result Error (BytesAttribute ty) :=
  Ok (BytesAttr value).

#[export] Instance BytesAttribute_attr ty : Attribute (BytesAttribute ty) unit := {|
  TYPE := ty;
  decode _ := decode_from bytes_decode;
  encode self _ b := let 'BytesAttr s := self in Ret (with_buffer (fun buf => buf ++ s) b);
  encode_len self := let 'BytesAttr s := self in u16_len (length s) |}.

Definition Username := StringAttribute 0x0006.
Definition Realm := StringAttribute 0x0014.
Definition Nonce := BytesAttribute 0x0015.
Definition Software := StringAttribute 0x8022.
Definition AlternateDomain := BytesAttribute 0x8003.

Inductive UnknownAttributes := Unknown (attrs : list Z).

(** [while !value.is_empty()]: every round takes two bytes. *)
Fixpoint unknown_loop (fuel : nat) (value : list byte) : result Error (list Z) :=
  match fuel, value with
  | _, [] => Ok []
  | O, _ => Ok []
  | S fuel, _ =>
      '(a, value) ← read_n 2 value;
      l ← unknown_loop fuel value; Ok (a :: l)
  end.
Definition unknown_decode (value : list byte) : result Error UnknownAttributes :=
  l ← unknown_loop (length value) value; Ok (Unknown l).

#[export] Instance UnknownAttributes_attr : Attribute UnknownAttributes unit := {|
  TYPE := 0x000A;
  decode _ := decode_from unknown_decode;
  encode self _ b := let 'Unknown l := self in
    Ret (with_buffer (fun buf => foldl (fun buf a => put_uint 2 buf a) buf l) b);
  encode_len self := let 'Unknown l := self in u16_len (length l * 2) |}.

(** ** attributes/addr.rs *)
Definition XOR16 : Z := Z.shiftr COOKIE 16.

Definition decode_addr (xor16 xor32 xor128 : Z) (buf : list byte) : result Error SocketAddr :=
  '(first, buf) ← read_n 1 buf;
  if decide (first <> 0) then Err (InvalidData "first byte must be zero")
  else
    '(family, buf) ← read_n 1 buf;
    '(port, buf) ← read_n 2 buf;
    let port := Z.lxor port xor16 in
    match family with
    | 1 => '(ip, _) ← read_n 4 buf; Ok (V4 (Z.lxor ip xor32) port)
    | 2 => '(ip, _) ← read_n 16 buf; Ok (V6 (Z.lxor ip xor128) port 0 0)
    | _ => Err (InvalidData "invalid address family")
    end.

Definition encode_addr (addr : SocketAddr) (xor16 xor32 xor128 : Z) (buf : list byte) : list byte :=
  let buf := put_uint 1 buf 0 in
  match addr with
  | V4 ip port =>
      let buf := put_uint 1 buf 1 in
      let buf := put_uint 2 buf (Z.lxor port xor16) in
      put_uint 4 buf (Z.lxor ip xor32)
  | V6 ip port _ _ =>
      let buf := put_uint 1 buf 2 in
      let buf := put_uint 2 buf (Z.lxor port xor16) in
      put_uint 16 buf (Z.lxor ip xor128)
  end.

Definition addr_len (addr : SocketAddr) : result Error Z :=
  match addr with V4 _ _ => Ok 8 | V6 _ _ _ _ => Ok 20 end.

Inductive MappedAddress := Mapped (addr : SocketAddr).
Inductive XorMappedAddress := XorMapped (addr : SocketAddr).
Inductive AlternateServer := Alternate (addr : SocketAddr).

#[export] Instance MappedAddress_attr : Attribute MappedAddress unit := {|
  TYPE := 0x0001;
  decode _ := decode_from (fun v => a ← decode_addr 0 0 0 v; Ok (Mapped a));
  encode self _ b := let 'Mapped a := self in Ret (with_buffer (encode_addr a 0 0 0) b);
  encode_len self := let 'Mapped a := self in addr_len a |}.

Definition xor_decode (msg : Message.t) (v : list byte) : result Error SocketAddr :=
  decode_addr XOR16 COOKIE (Message.id msg) v.
Definition xor_encode (a : SocketAddr) (b : MessageBuilder.t) : exec MessageBuilder.t :=
  Ret (with_buffer (encode_addr a XOR16 COOKIE (builder_id b)) b).

#[export] Instance XorMappedAddress_attr : Attribute XorMappedAddress unit := {|
  TYPE := 0x0020;
  decode _ msg := decode_from (fun v => a ← xor_decode msg v; Ok (XorMapped a)) msg;
  encode self _ b := let 'XorMapped a := self in xor_encode a b;
  encode_len self := let 'XorMapped a := self in addr_len a |}.

#[export] Instance AlternateServer_attr : Attribute AlternateServer unit := {|
  TYPE := 0x8023;
  decode _ := decode_from (fun v => a ← decode_addr 0 0 0 v; Ok (Alternate a));
  encode self _ b := let 'Alternate a := self in Ret (with_buffer (encode_addr a 0 0 0) b);
  encode_len self := let 'Alternate a := self in addr_len a |}.

(** ** attributes/error_code.rs *)
Record ErrorCode := { number : Z; reason : str }.

(** The [unwrap] of the read cannot fail behind the length check. *)
Definition error_code_decode (value : list byte) : result Error ErrorCode :=
  if decide (length value < 4)%nat then Err (InvalidData "error code must be at least 4 bytes")
  else
    '(head, value) ← read_n 4 value;
    reason ← (if decide (value = []) then Ok [] else from_utf8 value);
    Ok {| number := bit_range head 11 8 * 100 + bit_range head 7 0; reason := reason |}.

#[export] Instance ErrorCode_attr : Attribute ErrorCode unit := {|
  TYPE := 0x0009;
  decode _ := decode_from error_code_decode;
  encode self _ b :=
    let class := number self / 100 in
    let num := number self mod 100 in
    let head := set_bit_range 0 11 8 class in
    let head := set_bit_range head 7 0 num in
    let b := with_buffer (fun buf => put_uint 4 buf head) b in
    Ret (with_buffer (fun buf => buf ++ reason self) b);
  encode_len self := u16_len (4 + length (reason self)) |}.

(** ** attributes/ice.rs *)
Inductive Priority := Prio (p : Z).
Inductive UseCandidate := UseCand.
Inductive IceControlled := Controlled (tie_breaker : Z).
Inductive IceControlling := Controlling (tie_breaker : Z).

(** The decoders of the fixed-size integers: the length first, then the value. *)
Definition fixed_decode {A} (n : nat) (msg : string) (mk : Z -> A) (value : list byte) : result Error A :=
  if decide (length value <> n) then Err (InvalidData msg)
  else '(v, _) ← read_n n value; Ok (mk v).

#[export] Instance Priority_attr : Attribute Priority unit := {|
  TYPE := 0x0024;
  decode _ := decode_from (fixed_decode 4 "priority value must be 4 bytes" Prio);
  encode self _ b := let 'Prio p := self in Ret (with_buffer (fun buf => put_uint 4 buf p) b);
  encode_len self := Ok 4 |}.

#[export] Instance UseCandidate_attr : Attribute UseCandidate unit := {|
  TYPE := 0x0025;
  decode _ msg _ := Ret (Ok UseCand, msg);
  encode self _ b := Ret b;
  encode_len self := Ok 0 |}.

#[export] Instance IceControlled_attr : Attribute IceControlled unit := {|
  TYPE := 0x8029;
  decode _ := decode_from (fixed_decode 8 "ice-controlled value must be 8 bytes" Controlled);
  encode self _ b := let 'Controlled v := self in Ret (with_buffer (fun buf => put_uint 8 buf v) b);
  encode_len self := Ok 8 |}.

#[export] Instance IceControlling_attr : Attribute IceControlling unit := {|
  TYPE := 0x802A;
  decode _ := decode_from (fixed_decode 8 "ice-controlling value must be 8 bytes" Controlling);
  encode self _ b := let 'Controlling v := self in Ret (with_buffer (fun buf => put_uint 8 buf v) b);
  encode_len self := Ok 8 |}.

(** ** attributes/turn.rs *)
Inductive ChannelNumber := Channel (n : Z).
Inductive Lifetime := LifetimeSecs (n : Z).
Inductive XorPeerAddress := XorPeer (addr : SocketAddr).
Definition TurnData := BytesAttribute 0x0013.
Inductive XorRelayedAddress := XorRelayed (addr : SocketAddr).
Inductive EvenPort := Even (b : bool).
Record RequestedTransport := { protocol_number : Z }.
Inductive DontFragment := DontFrag.
Inductive ReservationToken := Token (bytes : list byte).

#[export] Instance ChannelNumber_attr : Attribute ChannelNumber unit := {|
  TYPE := 0x000C;
  decode _ := decode_from (fun v => '(n, _) ← read_n 2 v; Ok (Channel n));
  encode self _ b := let 'Channel n := self in
    let b := with_buffer (fun buf => put_uint 2 buf n) b in
    Ret (with_buffer (fun buf => put_uint 2 buf 0) b);
  encode_len self := Ok 4 |}.

#[export] Instance Lifetime_attr : Attribute Lifetime unit := {|
  TYPE := 0x000D;
  decode _ := decode_from (fun v => '(n, _) ← read_n 4 v; Ok (LifetimeSecs n));
  encode self _ b := let 'LifetimeSecs n := self in Ret (with_buffer (fun buf => put_uint 4 buf n) b);
  encode_len self := Ok 4 |}.

#[export] Instance XorPeerAddress_attr : Attribute XorPeerAddress unit := {|
  TYPE := 0x0012;
  decode ctx msg attr :=
    '(r, msg) ← decode (A := XorMappedAddress) ctx msg attr;
    Ret (('(XorMapped a) ← r; Ok (XorPeer a)), msg);
  encode self ctx b := let 'XorPeer a := self in encode (XorMapped a) ctx b;
  encode_len self := let 'XorPeer a := self in encode_len (XorMapped a) |}.

#[export] Instance XorRelayedAddress_attr : Attribute XorRelayedAddress unit := {|
  TYPE := 0x0016;
  decode ctx msg attr :=
    '(r, msg) ← decode (A := XorMappedAddress) ctx msg attr;
    Ret (('(XorMapped a) ← r; Ok (XorRelayed a)), msg);
  encode self ctx b := let 'XorRelayed a := self in encode (XorMapped a) ctx b;
  encode_len self := let 'XorRelayed a := self in encode_len (XorMapped a) |}.

#[export] Instance EvenPort_attr : Attribute EvenPort unit := {|
  TYPE := 0x0018;
  decode _ := decode_from (fun v => '(n, _) ← read_n 1 v; Ok (Even (bool_decide (n = 1))));
  encode self _ b := let 'Even p := self in
    Ret (with_buffer (fun buf => put_uint 1 buf (if p then 1 else 0)) b);
  encode_len self := Ok 1 |}.

#[export] Instance RequestedTransport_attr : Attribute RequestedTransport unit := {|
  TYPE := 0x0019;
  decode _ := decode_from (fun v => '(n, _) ← read_n 1 v; Ok {| protocol_number := n |});
  encode self _ b :=
    let b := with_buffer (fun buf => put_uint 1 buf (protocol_number self)) b in
    let b := with_buffer (fun buf => put_uint 1 buf 0) b in
    Ret (with_buffer (fun buf => put_uint 2 buf 0) b);
  encode_len self := Ok 4 |}.

#[export] Instance DontFragment_attr : Attribute DontFragment unit := {|
  TYPE := 0x001A;
  decode _ msg _ := Ret (Ok DontFrag, msg);
  encode self _ b := Ret b;
  encode_len self := Ok 0 |}.

Definition token_decode (v : list byte) : result Error ReservationToken :=
  if decide (length v = 8%nat) then Ok (Token v)
  else Err (InvalidData "reservation token must be 8 bytes").

#[export] Instance ReservationToken_attr : Attribute ReservationToken unit := {|
  TYPE := 0x0022;
  decode _ := decode_from token_decode;
  encode self _ b := let 'Token t := self in Ret (with_buffer (fun buf => buf ++ t) b);
  encode_len self := Ok 8 |}.

(** ** attributes/password_algs.rs *)
Definition ALGORITHM_MD5 : Z := 0x0001.
Definition ALGORITHM_SHA256 : Z := 0x0002.

Record PasswordAlgorithms := { algorithms : list (Z * list byte) }.
Record PasswordAlgorithm := { algorithm : Z; params : list byte }.

(** One round of the loop of [PasswordAlgorithms::decode] and the body of
    [PasswordAlgorithm::decode]: the slice [value] is advanced past the two
    integers, but not past the parameters. *)
Definition algorithm_next (value : list byte) : result Error (Z * list byte * list byte) :=
  '(alg, value) ← read_n 2 value;
  '(len, value) ← read_n 2 value;
  let len := Z.to_nat len in
  if decide (length value < len)%nat then Err (InvalidData "invalid algorithm len")
  else Ok (alg, take len value, value).

(** [while !value.is_empty()]: every round takes four bytes. *)
Fixpoint algorithms_loop (fuel : nat) (value : list byte) : result Error (list (Z * list byte)) :=
  match fuel, value with
  | _, [] => Ok []
  | O, _ => Ok []
  | S fuel, _ =>
      '(alg, ps, value) ← algorithm_next value;
      l ← algorithms_loop fuel value; Ok ((alg, ps) :: l)
  end.
Definition algorithms_decode (value : list byte) : result Error PasswordAlgorithms :=
  l ← algorithms_loop (length value) value; Ok {| algorithms := l |}.

(** One algorithm written; parameters of 65536 bytes or more panic. *)
Definition algorithm_encode (alg : Z) (ps : list byte) (b : MessageBuilder.t) : exec MessageBuilder.t :=
  let padding := Z.to_nat (padding (Z.of_nat (length ps))) in
  let b := with_buffer (fun buf => put_uint 2 buf alg) b in
  len ← unwrap_res (u16_len (length ps));
  let b := with_buffer (fun buf => put_uint 2 buf len) b in
  let b := with_buffer (fun buf => buf ++ ps) b in
  Ret (with_buffer (fun buf => buf ++ replicate padding x00) b).

Fixpoint algorithms_encode (l : list (Z * list byte)) (b : MessageBuilder.t) : exec MessageBuilder.t :=
  match l with
  | [] => Ret b
  | (alg, ps) :: l => b ← algorithm_encode alg ps b; algorithms_encode l b
  end.

Definition algorithm_len (ps : list byte) : nat :=
  4 + length ps + Z.to_nat (padding (Z.of_nat (length ps))).

#[export] Instance PasswordAlgorithms_attr : Attribute PasswordAlgorithms unit := {|
  TYPE := 0x8002;
  decode _ := decode_from algorithms_decode;
  encode self _ b := algorithms_encode (algorithms self) b;
  encode_len self := u16_len (foldl (fun len '(_, ps) => len + algorithm_len ps)%nat 0%nat (algorithms self)) |}.

Definition algorithm_decode (value : list byte) : result Error PasswordAlgorithm :=
  '(alg, ps, _) ← algorithm_next value; Ok {| algorithm := alg; params := ps |}.

#[export] Instance PasswordAlgorithm_attr : Attribute PasswordAlgorithm unit := {|
  TYPE := 0x001D;
  decode _ := decode_from algorithm_decode;
  encode self _ b := algorithm_encode (algorithm self) (params self) b;
  encode_len self := u16_len (algorithm_len (params self)) |}.

(** ** attributes/user_hash.rs *)
Inductive UserHash := Hash (h : list byte).

(** [UserHash::new]; [sha256] is the package's digest. *)
Definition UserHash_new (sha256 : list byte -> list byte) (username realm : str) : UserHash :=
  Hash (sha256 (username ++ [x3a] ++ realm)).

Definition user_hash_decode (v : list byte) : result Error UserHash :=
  if decide (length v <> 32%nat) then Err (InvalidData "user hash buf must be 32 bytes")
  else Ok (Hash v).

#[export] Instance UserHash_attr : Attribute UserHash unit := {|
  TYPE := 0x001E;
  decode _ := decode_from user_hash_decode;
  encode self _ b := let 'Hash h := self in Ret (with_buffer (fun buf => buf ++ h) b);
  encode_len self := Ok 32 |}.
End attributes.

(** ** Lemmas of the readers and writers *)

Lemma lxor_uint w a b : 0 <= w -> uint w a -> uint w b -> uint w (Z.lxor a b).
Proof.
  unfold uint. intros Hw Ha Hb. split; [apply Z.lxor_nonneg; lia|].
  destruct (decide (Z.lxor a b = 0)) as [->|Hn]; [lia|].
  assert (0 < Z.lxor a b) as Hp by (pose proof (proj2 (Z.lxor_nonneg a b) ltac:(lia)); lia).
  apply Z.log2_lt_pow2; [done|].
  pose proof (Z.log2_lxor a b ltac:(lia) ltac:(lia)) as Hl.
  assert (forall x, 0 <= x < 2 ^ w -> x <> 0 -> Z.log2 x < w) as H
    by (intros x ??; apply Z.log2_lt_pow2; lia).
  destruct (decide (a = 0)) as [->|Ha0]; [rewrite Z.lxor_0_l in *; auto|].
  destruct (decide (b = 0)) as [->|Hb0]; [rewrite Z.lxor_0_r in *; auto|].
  pose proof (H a Ha Ha0). pose proof (H b Hb Hb0). lia.
Qed.

Lemma lxor_cancel a b : Z.lxor (Z.lxor a b) b = a.
Proof. by rewrite Z.lxor_assoc, Z.lxor_nilpotent, Z.lxor_0_r. Qed.

Section facts.
Context `{WL : WireLaws}.

Lemma with_buffer_ext f g b :
  f (MessageBuilder.buffer b) = g (MessageBuilder.buffer b) -> with_buffer f b = with_buffer g b.
Proof. intros H. unfold with_buffer. by rewrite H. Qed.

Lemma with_buffer_twice f g b :
  with_buffer f (with_buffer g b) = with_buffer (fun buf => f (g buf)) b.
Proof. done. Qed.

Lemma read_n_be n v rest : uint (8 * Z.of_nat n) v -> read_n n (be_bytes n v ++ rest) = Ok (v, rest).
Proof.
  intros Hv. unfold read_n. rewrite read_put; [done|].
  unfold uint in Hv. by rewrite Z.pow_mul_r in Hv by lia.
Qed.

Lemma read_n_be_nil n v : uint (8 * Z.of_nat n) v -> read_n n (be_bytes n v) = Ok (v, []).
Proof. intros Hv. rewrite <-(app_nil_r (be_bytes n v)). by apply read_n_be. Qed.

Lemma put_be n buf v : uint (8 * Z.of_nat n) v -> put_uint n buf v = buf ++ be_bytes n v.
Proof.
  intros Hv. apply put_uint_app. unfold uint in Hv. by rewrite Z.pow_mul_r in Hv by lia.
Qed.

Lemma read_n_Ok n l v rest :
  read_n n l = Ok (v, rest) -> (n <= length l)%nat /\ v = be_val (take n l) /\ rest = drop n l.
Proof.
  unfold read_n. destruct (read_uint n l) as [[v' r']|] eqn:E; [|done].
  cbn. intros [= <- <-]. by apply read_uint_Some.
Qed.

Lemma u16_len_Ok n : uint 16 (Z.of_nat n) -> u16_len n = Ok (Z.of_nat n).
Proof. intros H. unfold u16_len, try_from_uint. by rewrite decide_True. Qed.

Lemma decode_from_value {A} (f : list byte -> result Error A) msg s v :
  get_value s (Message.buffer msg) = Ret v -> decode_from f msg s = Ret (f v, msg).
Proof. intros H. unfold decode_from. by rewrite H. Qed.
End facts.

(** The three laws of an attribute whose value does not depend on anything but
    the attribute and the message id. *)
Ltac plain_uint := unfold uint in *; cbn in *; lia.
Ltac plain_encode :=
  lazymatch goal with |- encode ?a ?c ?b = _ =>
    let e := eval hnf in (encode a c b) in change (encode a c b) with e end;
  f_equal; rewrite ?with_buffer_twice; apply with_buffer_ext;
  cbn [with_buffer MessageBuilder.buffer]; rewrite ?put_be, <-?app_assoc by plain_uint; try done.
Ltac plain_decode :=
  etransitivity; [eapply decode_from_value; eassumption|]; cbv beta;
  repeat first [rewrite read_n_be by plain_uint | rewrite read_n_be_nil by plain_uint];
  cbn [mbind result_bind]; try done.

Section plain.
Context `{WL : WireLaws}.

(** The type of a const-generic attribute is a [u16]. *)
Class IsU16 (ty : Z) : Prop := is_u16 : uint 16 ty.

#[export, refine] Instance StringAttribute_plain ty `{!IsU16 ty} : PlainAttribute (StringAttribute ty) unit := {|
  valid self := let 'StringAttr s := self in utf8_valid s = true /\ uint 16 (Z.of_nat (length s));
  value self _ := let 'StringAttr s := self in s |}.
Proof.
  - exact is_u16.
  - intros [s] _ [_ H]. split; [done|]. by apply u16_len_Ok.
  - intros [s] ctx b _ _. done.
  - intros [s] ctx msg sp [Hs _] _ H. plain_decode. unfold string_decode, from_utf8. by rewrite Hs.
Defined.

#[export, refine] Instance BytesAttribute_plain ty `{!IsU16 ty} : PlainAttribute (BytesAttribute ty) unit := {|
  valid self := let 'BytesAttr s := self in uint 16 (Z.of_nat (length s));
  value self _ := let 'BytesAttr s := self in s |}.
Proof.
  - exact is_u16.
  - intros [s] _ H. split; [done|]. by apply u16_len_Ok.
  - intros [s] ctx b _ _. done.
  - intros [s] ctx msg sp Hs _ H. plain_decode.
Defined.

Lemma unknown_loop_be l fuel :
  Forall (uint 16) l -> (length (concat (be_bytes 2 <$> l)) <= fuel)%nat ->
  unknown_loop fuel (concat (be_bytes 2 <$> l)) = Ok l.
Proof.
  intros Hl. revert fuel. induction Hl as [|a l Ha _ IH]; intros fuel; [by destruct fuel|].
  cbn [fmap list_fmap concat]. intros Hf. rewrite length_app, length_be_bytes in Hf.
  destruct fuel as [|fuel]; [lia|].
  assert (exists x y, be_bytes 2 a = [x; y]) as (x & y & E) by (do 2 eexists; done).
  pose proof (read_n_be 2 a (concat (be_bytes 2 <$> l)) Ha) as Hr. rewrite E in *.
  cbn [app unknown_loop] in *. rewrite Hr. cbn [mbind result_bind]. by rewrite IH by lia.
Qed.

Lemma unknown_put l buf :
  Forall (uint 16) l ->
  foldl (fun buf a => put_uint 2 buf a) buf l = buf ++ concat (be_bytes 2 <$> l).
Proof.
  intros Hl. revert buf. induction Hl as [|a l Ha _ IH]; intros buf; cbn; [by rewrite app_nil_r|].
  by rewrite IH, put_be, <-app_assoc.
Qed.

Lemma length_concat_be l : length (concat (be_bytes 2 <$> l)) = (length l * 2)%nat.
Proof. induction l as [|a l IH]; cbn; [done|]. rewrite length_app, IH, length_be_bytes. done. Qed.

#[export, refine] Instance UnknownAttributes_plain : PlainAttribute UnknownAttributes unit := {|
  valid self := let 'Unknown l := self in Forall (uint 16) l /\ uint 16 (Z.of_nat (length l * 2));
  value self _ := let 'Unknown l := self in concat (be_bytes 2 <$> l) |}.
Proof.
  - done.
  - intros [l] _ [_ H]. rewrite length_concat_be. split; [done|]. by apply u16_len_Ok.
  - intros [l] ctx b [H _] _. plain_encode. by apply unknown_put.
  - intros [l] ctx msg sp [Hl _] _ H. plain_decode. unfold unknown_decode.
    by rewrite unknown_loop_be.
Defined.

(** *** Addresses *)
Definition addr_valid (a : SocketAddr) : Prop :=
  match a with
  | V4 ip port => uint 32 ip /\ uint 16 port
  | V6 ip port flowinfo scope_id => uint 128 ip /\ uint 16 port /\ flowinfo = 0 /\ scope_id = 0
  end.

Definition addr_bytes (x16 x32 x128 : Z) (a : SocketAddr) : list byte :=
  match a with
  | V4 ip port => be_bytes 1 0 ++ be_bytes 1 1 ++ be_bytes 2 (Z.lxor port x16) ++ be_bytes 4 (Z.lxor ip x32)
  | V6 ip port _ _ =>
      be_bytes 1 0 ++ be_bytes 1 2 ++ be_bytes 2 (Z.lxor port x16) ++ be_bytes 16 (Z.lxor ip x128)
  end.

Lemma addr_bytes_len x16 x32 x128 a :
  uint 16 (Z.of_nat (length (addr_bytes x16 x32 x128 a))) /\
  addr_len a = Ok (Z.of_nat (length (addr_bytes x16 x32 x128 a))).
Proof. by destruct a. Qed.

Lemma encode_addr_bytes x16 x32 x128 a buf :
  uint 16 x16 -> uint 32 x32 -> uint 128 x128 -> addr_valid a ->
  encode_addr a x16 x32 x128 buf = buf ++ addr_bytes x16 x32 x128 a.
Proof.
  intros H16 H32 H128. destruct a as [ip port|ip port fl sc]; cbn [addr_valid].
  - intros [Hi Hp]. unfold encode_addr, addr_bytes. rewrite !put_be; rewrite <-?app_assoc; try done.
    all: by apply lxor_uint.
  - intros (Hi & Hp & _). unfold encode_addr, addr_bytes. rewrite !put_be; rewrite <-?app_assoc; try done.
    all: by apply lxor_uint.
Qed.

Lemma decode_addr_bytes x16 x32 x128 a :
  uint 16 x16 -> uint 32 x32 -> uint 128 x128 -> addr_valid a ->
  decode_addr x16 x32 x128 (addr_bytes x16 x32 x128 a) = Ok a.
Proof.
  intros H16 H32 H128. destruct a as [ip port|ip port fl sc]; cbn [addr_valid].
  - intros [Hi Hp]. unfold decode_addr, addr_bytes.
    rewrite read_n_be by done. cbn [mbind result_bind]. rewrite decide_False by tauto.
    rewrite read_n_be by done. cbn [mbind result_bind].
    rewrite read_n_be by by apply lxor_uint. cbn [mbind result_bind].
    rewrite read_n_be_nil by by apply lxor_uint. cbn [mbind result_bind]. by rewrite !lxor_cancel.
  - intros (Hi & Hp & -> & ->). unfold decode_addr, addr_bytes.
    rewrite read_n_be by done. cbn [mbind result_bind]. rewrite decide_False by tauto.
    rewrite read_n_be by done. cbn [mbind result_bind].
    rewrite read_n_be by by apply lxor_uint. cbn [mbind result_bind].
    rewrite read_n_be_nil by by apply lxor_uint. cbn [mbind result_bind]. by rewrite !lxor_cancel.
Qed.

#[export, refine] Instance MappedAddress_plain : PlainAttribute MappedAddress unit := {|
  valid self := let 'Mapped a := self in addr_valid a;
  value self _ := let 'Mapped a := self in addr_bytes 0 0 0 a |}.
Proof.
  - done.
  - intros [a] _ _. apply addr_bytes_len.
  - intros [a] ctx b Ha _. plain_encode. by apply encode_addr_bytes.
  - intros [a] ctx msg sp Ha _ H. plain_decode. by rewrite decode_addr_bytes.
Defined.

#[export, refine] Instance AlternateServer_plain : PlainAttribute AlternateServer unit := {|
  valid self := let 'Alternate a := self in addr_valid a;
  value self _ := let 'Alternate a := self in addr_bytes 0 0 0 a |}.
Proof.
  - done.
  - intros [a] _ _. apply addr_bytes_len.
  - intros [a] ctx b Ha _. plain_encode. by apply encode_addr_bytes.
  - intros [a] ctx msg sp Ha _ H. plain_decode. by rewrite decode_addr_bytes.
Defined.

(** The XOR addresses depend on the id of the message they are in. *)
Definition xor_bytes (a : SocketAddr) (id : Z) : list byte := addr_bytes XOR16 COOKIE id a.

#[export, refine] Instance XorMappedAddress_plain : PlainAttribute XorMappedAddress unit := {|
  valid self := let 'XorMapped a := self in addr_valid a;
  value self := let 'XorMapped a := self in xor_bytes a |}.
Proof.
  - done.
  - intros [a] id _. apply addr_bytes_len.
  - intros [a] ctx b Ha Hid. plain_encode. by apply encode_addr_bytes.
  - intros [a] ctx msg sp Ha Hid H. plain_decode. unfold xor_decode, xor_bytes.
    by rewrite decode_addr_bytes.
Defined.

#[export, refine] Instance XorPeerAddress_plain : PlainAttribute XorPeerAddress unit := {|
  valid self := let 'XorPeer a := self in addr_valid a;
  value self := let 'XorPeer a := self in xor_bytes a |}.
Proof.
  - done.
  - intros [a] id _. apply addr_bytes_len.
  - intros [a] ctx b Ha Hid. plain_encode. by apply encode_addr_bytes.
  - intros [a] ctx msg sp Ha Hid H. cbn [decode XorPeerAddress_attr].
    by rewrite (decode_value (XorMapped a)).
Defined.

#[export, refine] Instance XorRelayedAddress_plain : PlainAttribute XorRelayedAddress unit := {|
  valid self := let 'XorRelayed a := self in addr_valid a;
  value self := let 'XorRelayed a := self in xor_bytes a |}.
Proof.
  - done.
  - intros [a] id _. apply addr_bytes_len.
  - intros [a] ctx b Ha Hid. plain_encode. by apply encode_addr_bytes.
  - intros [a] ctx msg sp Ha Hid H. cbn [decode XorRelayedAddress_attr].
    by rewrite (decode_value (XorMapped a)).
Defined.

(** *** Error codes: the class of the code has four bits, so codes below 1600
    come back. *)
Definition error_head (n : Z) : Z := n / 100 * 256 + n mod 100.

Lemma error_head_spec n :
  0 <= n < 1600 ->
  set_bit_range (set_bit_range 0 11 8 (n / 100)) 7 0 (n mod 100) = error_head n /\
  uint 32 (error_head n) /\
  bit_range (error_head n) 11 8 * 100 + bit_range (error_head n) 7 0 = n.
Proof.
  intros Hn. pose proof (Z.div_mod n 100 ltac:(done)) as Hdm.
  pose proof (Z.mod_pos_bound n 100 eq_refl).
  assert (0 <= n / 100 < 16) by (split; [apply Z.div_pos|apply Z.div_lt_upper_bound]; lia).
  assert (set_bit_range 0 11 8 (n / 100) = n / 100 * 256) as ->.
  { rewrite set_bit_range_spec, bit_range_spec by lia. cbn [Z.sub Z.add Z.opp Z.pos_sub].
    rewrite Z.div_0_l, Z.mod_0_l by done. rewrite Z.mod_small by (cbn; lia). cbn. lia. }
  unfold error_head, uint. set (h := n / 100 * 256 + n mod 100).
  assert (h / 256 = n / 100) as Hd.
  { subst h. rewrite Z.div_add_l by done. rewrite (Z.div_small (n mod 100)) by lia. lia. }
  assert (h mod 256 = n mod 100) as Hm.
  { subst h. rewrite Z.add_comm, Z_mod_plus_full. apply Z.mod_small. lia. }
  split; [|split; [lia|]].
  - rewrite set_bit_range_spec, bit_range_spec by lia. change (7 - 0 + 1) with 8.
    change (2 ^ 0) with 1. rewrite Z.div_1_r, !Z.mul_1_r. change (2 ^ 8) with 256.
    rewrite Z.mod_mul by done. rewrite (Z.mod_small (n mod 100)) by lia. lia.
  - rewrite !bit_range_spec by lia. change (11 - 8 + 1) with 4. change (7 - 0 + 1) with 8.
    change (2 ^ 8) with 256. change (2 ^ 0) with 1. change (2 ^ 4) with 16.
    rewrite Z.div_1_r, Hd, Hm, Z.mod_small by lia. lia.
Qed.

#[export, refine] Instance ErrorCode_plain : PlainAttribute ErrorCode unit := {|
  valid self := 0 <= number self < 1600 /\ utf8_valid (reason self) = true /\
                uint 16 (Z.of_nat (4 + length (reason self)));
  value self _ := be_bytes 4 (error_head (number self)) ++ reason self |}.
Proof.
  - done.
  - intros a _ (_ & _ & H). rewrite length_app, length_be_bytes. split; [done|]. by apply u16_len_Ok.
  - intros [n r] ctx b (Hn & _) _. destruct (error_head_spec _ Hn) as (E & Hu & _).
    plain_encode. cbn [number reason] in *. by rewrite E.
  - intros [n r] ctx msg sp (Hn & Hr & _) _ H. destruct (error_head_spec _ Hn) as (_ & Hu & E).
    cbn [number reason] in *. plain_decode. unfold error_code_decode.
    rewrite decide_False by (rewrite length_app, length_be_bytes; lia).
    rewrite read_n_be by done. cbn [mbind result_bind]. unfold from_utf8. rewrite Hr, E.
    by case_decide as Hd; [rewrite Hd|].
Defined.

Lemma fixed_decode_be {A} n msg (mk : Z -> A) v :
  uint (8 * Z.of_nat n) v -> fixed_decode n msg mk (be_bytes n v) = Ok (mk v).
Proof.
  intros Hv. unfold fixed_decode. rewrite length_be_bytes, decide_False by tauto.
  by rewrite read_n_be_nil.
Qed.

#[export, refine] Instance Priority_plain : PlainAttribute Priority unit := {|
  valid self := let 'Prio p := self in uint 32 p;
  value self _ := let 'Prio p := self in be_bytes 4 p |}.
Proof.
  - done.
  - by intros [p].
  - intros [p] ctx b Hp _. plain_encode.
  - intros [p] ctx msg sp Hp _ H. plain_decode. by rewrite fixed_decode_be.
Defined.

#[export, refine] Instance UseCandidate_plain : PlainAttribute UseCandidate unit := {|
  valid _ := True; value _ _ := [] |}.
Proof.
  - done.
  - done.
  - intros [] ctx b _ _. cbn [encode UseCandidate_attr]. f_equal. destruct b.
    unfold with_buffer. cbn. by rewrite app_nil_r.
  - by intros [].
Defined.

#[export, refine] Instance IceControlled_plain : PlainAttribute IceControlled unit := {|
  valid self := let 'Controlled p := self in uint 64 p;
  value self _ := let 'Controlled p := self in be_bytes 8 p |}.
Proof.
  - done.
  - by intros [p].
  - intros [p] ctx b Hp _. plain_encode.
  - intros [p] ctx msg sp Hp _ H. plain_decode. by rewrite fixed_decode_be.
Defined.

#[export, refine] Instance IceControlling_plain : PlainAttribute IceControlling unit := {|
  valid self := let 'Controlling p := self in uint 64 p;
  value self _ := let 'Controlling p := self in be_bytes 8 p |}.
Proof.
  - done.
  - by intros [p].
  - intros [p] ctx b Hp _. plain_encode.
  - intros [p] ctx msg sp Hp _ H. plain_decode. by rewrite fixed_decode_be.
Defined.

(** *** TURN *)
#[export, refine] Instance ChannelNumber_plain : PlainAttribute ChannelNumber unit := {|
  valid self := let 'Channel n := self in uint 16 n;
  value self _ := let 'Channel n := self in be_bytes 2 n ++ be_bytes 2 0 |}.
Proof.
  - done.
  - by intros [n].
  - intros [n] ctx b Hn _. plain_encode.
  - intros [n] ctx msg sp Hn _ H. plain_decode.
Defined.

#[export, refine] Instance Lifetime_plain : PlainAttribute Lifetime unit := {|
  valid self := let 'LifetimeSecs n := self in uint 32 n;
  value self _ := let 'LifetimeSecs n := self in be_bytes 4 n |}.
Proof.
  - done.
  - by intros [n].
  - intros [n] ctx b Hn _. plain_encode.
  - intros [n] ctx msg sp Hn _ H. plain_decode.
Defined.

#[export, refine] Instance EvenPort_plain : PlainAttribute EvenPort unit := {|
  valid _ := True; value self _ := let 'Even p := self in be_bytes 1 (if p then 1 else 0) |}.
Proof.
  - done.
  - by intros [p].
  - intros [p] ctx b _ _. destruct p; plain_encode.
  - intros [p] ctx msg sp _ _ H. destruct p; plain_decode.
Defined.

#[export, refine] Instance RequestedTransport_plain : PlainAttribute RequestedTransport unit := {|
  valid self := uint 8 (protocol_number self);
  value self _ := be_bytes 1 (protocol_number self) ++ be_bytes 1 0 ++ be_bytes 2 0 |}.
Proof.
  - done.
  - by intros [p].
  - intros [p] ctx b Hp _. cbn [protocol_number] in *. plain_encode.
  - intros [p] ctx msg sp Hp _ H. cbn [protocol_number] in *. plain_decode.
Defined.

#[export, refine] Instance DontFragment_plain : PlainAttribute DontFragment unit := {|
  valid _ := True; value _ _ := [] |}.
Proof.
  - done.
  - done.
  - intros [] ctx b _ _. cbn [encode DontFragment_attr]. f_equal. destruct b.
    unfold with_buffer. cbn. by rewrite app_nil_r.
  - by intros [].
Defined.

#[export, refine] Instance ReservationToken_plain : PlainAttribute ReservationToken unit := {|
  valid self := let 'Token t := self in length t = 8%nat;
  value self _ := let 'Token t := self in t |}.
Proof.
  - done.
  - intros [t] _ ->. done.
  - by intros [t].
  - intros [t] ctx msg sp Ht _ H. plain_decode. unfold token_decode. by rewrite decide_True.
Defined.

#[export, refine] Instance UserHash_plain : PlainAttribute UserHash unit := {|
  valid self := let 'Hash t := self in length t = 32%nat;
  value self _ := let 'Hash t := self in t |}.
Proof.
  - done.
  - intros [t] _ ->. done.
  - by intros [t].
  - intros [t] ctx msg sp Ht _ H. plain_decode. unfold user_hash_decode. by rewrite decide_False by tauto.
Defined.

(** *** Password algorithms *)
Definition algorithm_bytes (alg : Z) (ps : list byte) : list byte :=
  be_bytes 2 alg ++ be_bytes 2 (Z.of_nat (length ps)) ++ ps ++ replicate (pad (length ps)) x00.

Definition algorithms_bytes (l : list (Z * list byte)) : list byte :=
  concat ((fun '(alg, ps) => algorithm_bytes alg ps) <$> l).

Definition algorithm_ok (x : Z * list byte) : Prop := uint 16 x.1 /\ uint 16 (Z.of_nat (length x.2)).

Lemma length_algorithm_bytes alg ps : length (algorithm_bytes alg ps) = algorithm_len ps.
Proof.
  unfold algorithm_bytes, algorithm_len. rewrite !length_app, !length_be_bytes, length_replicate.
  unfold pad. lia.
Qed.

Lemma algorithm_encode_bytes alg ps b :
  algorithm_ok (alg, ps) ->
  algorithm_encode alg ps b = Ret (with_buffer (fun buf => buf ++ algorithm_bytes alg ps) b).
Proof.
  intros [Ha Hl]. cbn [fst snd] in *. unfold algorithm_encode. rewrite u16_len_Ok by done.
  cbn [unwrap_res mbind exec_bind]. f_equal. rewrite !with_buffer_twice. apply with_buffer_ext.
  rewrite !put_be by done. unfold algorithm_bytes. by rewrite <-!app_assoc.
Qed.

(** The decoder takes the parameters, and leaves them in the value. *)
Lemma algorithm_next_bytes alg ps rest :
  algorithm_ok (alg, ps) ->
  algorithm_next (algorithm_bytes alg ps ++ rest) =
    Ok (alg, ps, ps ++ replicate (pad (length ps)) x00 ++ rest).
Proof.
  intros [Ha Hl]. cbn [fst snd] in *. unfold algorithm_next, algorithm_bytes. rewrite <-!app_assoc.
  rewrite read_n_be by done. cbn [mbind result_bind]. rewrite read_n_be by done.
  cbn [mbind result_bind]. rewrite Nat2Z.id, decide_False by (rewrite length_app; lia).
  rewrite take_app_le by lia. by rewrite take_ge.
Qed.

#[export, refine] Instance PasswordAlgorithm_plain : PlainAttribute PasswordAlgorithm unit := {|
  valid self := algorithm_ok (algorithm self, params self) /\ uint 16 (Z.of_nat (algorithm_len (params self)));
  value self _ := algorithm_bytes (algorithm self) (params self) |}.
Proof.
  - done.
  - intros a _ [_ H]. rewrite length_algorithm_bytes. split; [done|]. by apply u16_len_Ok.
  - intros a ctx b [H _] _. by apply algorithm_encode_bytes.
  - intros [a ps] ctx msg sp [Ha _] _ H. plain_decode. unfold algorithm_decode. cbn [algorithm params] in *.
    pose proof (algorithm_next_bytes a ps [] Ha) as E. rewrite app_nil_r in E. by rewrite E.
Defined.

Lemma algorithms_encode_bytes l b :
  Forall algorithm_ok l ->
  algorithms_encode l b = Ret (with_buffer (fun buf => buf ++ algorithms_bytes l) b).
Proof.
  intros Hl. revert b. induction Hl as [|[alg ps] l Ha _ IH]; intros b; cbn [algorithms_encode].
  - f_equal. destruct b. unfold with_buffer. cbn. by rewrite app_nil_r.
  - rewrite algorithm_encode_bytes by done. cbn [mbind exec_bind]. rewrite IH, with_buffer_twice.
    f_equal. apply with_buffer_ext. by rewrite <-app_assoc.
Qed.

Lemma algorithms_len_bytes l n :
  foldl (fun len '(_, ps) => len + algorithm_len ps)%nat n l = (n + length (algorithms_bytes l))%nat.
Proof.
  revert n. induction l as [|[alg ps] l IH]; intros n; cbn [foldl]; [cbn; lia|].
  rewrite IH. change (algorithms_bytes ((alg, ps) :: l)) with (algorithm_bytes alg ps ++ algorithms_bytes l).
  rewrite length_app, length_algorithm_bytes. lia.
Qed.

Lemma algorithms_loop_S fuel value :
  value <> [] ->
  algorithms_loop (S fuel) value =
    ('(alg, ps, value) ← algorithm_next value; l ← algorithms_loop fuel value; Ok ((alg, ps) :: l)).
Proof. by destruct value. Qed.

Lemma algorithms_loop_bytes l fuel :
  Forall algorithm_ok l -> Forall (fun x => x.2 = []) l -> (length (algorithms_bytes l) <= fuel)%nat ->
  algorithms_loop fuel (algorithms_bytes l) = Ok l.
Proof.
  intros Hl He. revert fuel. induction Hl as [|[alg ps] l Ha _ IH]; intros fuel; [by destruct fuel|].
  apply Forall_cons in He as [Hp He]. cbn in Hp. subst ps.
  unfold algorithms_bytes. cbn [fmap list_fmap concat]. fold (algorithms_bytes l).
  rewrite length_app, length_algorithm_bytes. intros Hf. destruct fuel as [|fuel]; [cbn in Hf; lia|].
  rewrite algorithms_loop_S by done. rewrite algorithm_next_bytes by done.
  cbn [mbind result_bind length]. change (replicate (pad 0) x00) with (@nil byte). cbn [app].
  rewrite IH; [done|done|]. cbn in Hf. lia.
Qed.

(** Lists of algorithms come back when no algorithm has parameters (neither of
    the two registered ones has). *)
#[export, refine] Instance PasswordAlgorithms_plain : PlainAttribute PasswordAlgorithms unit := {|
  valid self := Forall algorithm_ok (algorithms self) /\ Forall (fun x => x.2 = []) (algorithms self) /\
                uint 16 (Z.of_nat (length (algorithms_bytes (algorithms self))));
  value self _ := algorithms_bytes (algorithms self) |}.
Proof.
  - done.
  - intros a _ (_ & _ & H). split; [done|]. cbn [encode_len PasswordAlgorithms_attr].
    rewrite algorithms_len_bytes. by apply u16_len_Ok.
  - intros a ctx b (H & _) _. by apply algorithms_encode_bytes.
  - intros [l] ctx msg sp (Hl & He & _) _ H. plain_decode. unfold algorithms_decode.
    by rewrite algorithms_loop_bytes.
Defined.

Lemma algorithm_next_length value alg ps value' :
  algorithm_next value = Ok (alg, ps, value') -> (length value = 4 + length value')%nat.
Proof.
  unfold algorithm_next. destruct (read_n 2 value) as [[v r]|] eqn:E1; [|done].
  cbn [mbind result_bind]. destruct (read_n 2 r) as [[v' r']|] eqn:E2; [|done].
  cbn [mbind result_bind]. case_decide; [done|]. intros [= _ _ <-].
  apply read_n_Ok in E1 as (? & _ & ->). apply read_n_Ok in E2 as (H2 & _ & ->).
  rewrite !length_drop in *. lia.
Qed.

Lemma algorithms_loop_length fuel value l :
  (length value <= fuel)%nat -> algorithms_loop fuel value = Ok l ->
  length value = (4 * length l)%nat.
Proof.
  revert value l. induction fuel as [|fuel IH]; intros value l Hf.
  - destruct value; [|cbn in Hf; lia]. by intros [= <-].
  - destruct (decide (value = [])) as [->|Hn]; [by intros [= <-]|].
    rewrite algorithms_loop_S by done.
    destruct (algorithm_next value) as [[[alg ps] value']|] eqn:E; [|done].
    cbn [mbind result_bind]. apply algorithm_next_length in E.
    destruct (algorithms_loop fuel value') as [l'|] eqn:El; [|done]. cbn [mbind result_bind].
    intros [= <-]. apply IH in El; [|lia]. cbn [length]. lia.
Qed.

Lemma length_algorithms_bytes l :
  (4 * length l <= length (algorithms_bytes l))%nat /\
  (length (algorithms_bytes l) = 4 * length l -> Forall (fun x => x.2 = []) l)%nat.
Proof.
  induction l as [|[alg ps] l [IH1 IH2]]; [by split|].
  unfold algorithms_bytes. cbn [fmap list_fmap concat]. fold (algorithms_bytes l).
  rewrite length_app, length_algorithm_bytes. unfold algorithm_len. cbn [length].
  split; [lia|]. intros H. constructor; [|apply IH2; lia].
  cbn. destruct ps; [done|]. cbn [length] in H. lia.
Qed.

(** The decoder of PASSWORD-ALGORITHMS does not step over the parameters
    of an algorithm: of a list that was encoded, it gives the list back exactly
    when no algorithm has parameters; otherwise the parameters are read as
    algorithms, and the result is an error or another list. *)
Theorem algorithms_decode_iff (l : list (Z * list byte)) :
  Forall algorithm_ok l ->
  algorithms_decode (algorithms_bytes l) = Ok {| algorithms := l |} <->
  Forall (fun x => x.2 = []) l.
Proof.
  intros Hl. unfold algorithms_decode. split.
  - destruct (algorithms_loop _ _) as [l'|] eqn:E; [|done]. cbn. intros [= ->].
    apply algorithms_loop_length in E; [|done]. by apply length_algorithms_bytes.
  - intros He. by rewrite algorithms_loop_bytes.
Qed.
End plain.

#[export] Hint Extern 0 (IsU16 _) => (vm_compute; done) : typeclass_instances.

Lemma algorithms_decode_iff_witness :
  algorithms_decode (W := big_endian) (algorithms_bytes [(ALGORITHM_MD5, []); (ALGORITHM_SHA256, [])]) =
    Ok {| algorithms := [(ALGORITHM_MD5, []); (ALGORITHM_SHA256, [])] |} /\
  algorithms_decode (W := big_endian) (algorithms_bytes [(ALGORITHM_MD5, [x01; x02; x03; x04])]) <>
    Ok {| algorithms := [(ALGORITHM_MD5, [x01; x02; x03; x04])] |}.
Proof.
  split.
  - apply (algorithms_decode_iff (W := big_endian)); repeat constructor; by vm_compute.
  - intros H. apply (algorithms_decode_iff (W := big_endian)) in H.
    + by apply Forall_cons in H as [? _].
    + repeat constructor; by vm_compute.
Defined.
