(* ===== verification/StunAuth.v ===== *)
(** * Attributes that authenticate a message
    (media/stun-types/src/attributes/fingerprint.rs, integrity.rs)

    FINGERPRINT with its CRC-32 table, MESSAGE-INTEGRITY and
    MESSAGE-INTEGRITY-SHA256 over the digests of the packages [hmac], [sha1]
    and [sha2], which are parameters. Both are computed over the bytes before
    the attribute, with the length of the header set to the end of it. *)
From S2P Require Import Prelude Wire Text StunHeader StunMessage StunAttr.
Local Open Scope Z_scope.

Definition ATTRIBUTE_HEADER_LEN : Z := 4.

(** [&buf[..n]] *)
Definition slice_to (n : Z) (buf : list byte) : exec (list byte) :=
  if decide (0 <= n <= Z.of_nat (length buf)) then Ret (take (Z.to_nat n) buf) else Panic.

(** ** fingerprint.rs *)
Definition crc_step (c : Z) : Z :=
  if decide (Z.land c 1 = 1) then Z.lxor 0xedb88320 (Z.shiftr c 1) else Z.shiftr c 1.

Definition crc32_table : list Z := (fun n => Nat.iter 8 crc_step n) <$> seqZ 0 256.

Definition CRC32_TABLE : list Z := Eval vm_compute in crc32_table.

(** The index is masked to eight bits, so the table is never left. *)
Definition crc_update_byte (c : Z) (b : byte) : Z :=
  Z.lxor (default 0 (CRC32_TABLE !! Z.to_nat (Z.land (Z.lxor c (byte_val b)) 0xff))) (Z.shiftr c 8).

Definition update_crc32 (crc : Z) (buf : list byte) : Z :=
  Z.lxor (foldl crc_update_byte (Z.lxor crc 0xffffffff) buf) 0xffffffff.

Definition crc32 (buf : list byte) : Z := update_crc32 0 buf.

Inductive Fingerprint := Fingerprint_.
Inductive MessageIntegrity := Integrity.
Inductive MessageIntegritySha256 := IntegritySha256.

(** ** The digests: [D::output_size] and [SimpleHmac<D>] as a function of key
    and message *)
Class Digest := {
  output_size : nat;
  hmac : list byte -> list byte -> list byte }.

Class DigestLaws (D : Digest) : Prop := {
  hmac_length key m : length (hmac key m) = output_size;
  output_size_bound : (output_size <= 64)%nat /\ pad output_size = 0%nat }.

(** [MessageIntegrityKey], [MessageIntegritySha256Key]: a keyed MAC. *)
Inductive MessageIntegrityKey := Sha1Key (key : list byte).
Inductive MessageIntegritySha256Key := Sha256Key (key : list byte).

(** The separator of [format!("{}:{}:{}", username, realm, password)] *)
Definition long_term_input (username realm password : str) : list byte :=
  username ++ [x3a] ++ realm ++ [x3a] ++ password.
Definition long_term_password_md5 (md5 : list byte -> list byte) (username realm password : str) :=
  md5 (long_term_input username realm password).
Definition long_term_password_sha256 (sha256 : list byte -> list byte) (username realm password : str) :=
  sha256 (long_term_input username realm password).

Section operations.
Context `{W : WireOps}.

(** [u16::try_from(attr.padding_end - STUN_HEADER_LENGTH)?] around
    [with_msg_len]; a difference below 0 wraps to a value that is no [u16]. *)
Definition with_len_to_end {R} (attr : AttrSpan.t) (msg : Message.t)
    (f : Message.t -> exec (result Error R * Message.t)) : exec (result Error R * Message.t) :=
  match try_from_uint 16 TryFromInt (Z.of_nat (AttrSpan.padding_end attr) - STUN_HEADER_LENGTH) with
  | Err e => Ret (Err e, msg)
  | Ok n => with_msg_len n f msg
  end.

(** [Fingerprint::decode] *)
Definition fingerprint_decode (msg : Message.t) (attr : AttrSpan.t)
    : exec (result Error Fingerprint * Message.t) :=
  with_len_to_end attr msg (fun msg =>
    value ← get_value attr (Message.buffer msg);
    if decide (length value <> 4%nat) then
      Ret (Err (InvalidData "fingerprint value must be 4 bytes"), msg)
    else
      match read_n 4 value with
      | Err e => Ret (Err e, msg)
      | Ok (attr_value, _) =>
          data ← slice_to (Z.of_nat (AttrSpan.begin attr) - ATTRIBUTE_HEADER_LEN) (Message.buffer msg);
          let crc := Z.lxor (crc32 data) 0x5354554e in
          if decide (crc <> attr_value) then
            Ret (Err (InvalidData "failed to verify message fingerprint"), msg)
          else Ret (Ok Fingerprint_, msg)
      end).

(** [Fingerprint::encode] *)
Definition fingerprint_encode (b : MessageBuilder.t) : exec MessageBuilder.t :=
  n ← message_length (Z.of_nat (length (MessageBuilder.buffer b)) + 4 - STUN_HEADER_LENGTH);
  b ← builder_set_len n b;
  let data := MessageBuilder.buffer b in
  data ← slice_to (Z.of_nat (length data) - ATTRIBUTE_HEADER_LEN) data;
  let crc := Z.lxor (crc32 data) 0x5354554e in
  Ret (with_buffer (fun buf => put_uint 4 buf crc) b).

#[export] Instance Fingerprint_attr : Attribute Fingerprint unit := {|
  TYPE := FINGERPRINT;
  decode _ := fingerprint_decode;
  encode _ _ := fingerprint_encode;
  encode_len _ := Ok 4 |}.

(** ** integrity.rs *)
Definition message_integrity_decode `{Digest} (key : list byte) (msg : Message.t) (attr : AttrSpan.t)
    : exec (result Error unit * Message.t) :=
  with_len_to_end attr msg (fun msg =>
    received_digest ← get_value attr (Message.buffer msg);
    message ← slice_to (Z.of_nat (AttrSpan.begin attr) - ATTRIBUTE_HEADER_LEN) (Message.buffer msg);
    let calculated_digest := hmac key message in
    if decide (calculated_digest <> received_digest) then
      Ret (Err (InvalidData "failed to verify message integrity"), msg)
    else Ret (Ok tt, msg)).

Definition message_integrity_encode `{Digest} (key : list byte) (b : MessageBuilder.t)
    : exec MessageBuilder.t :=
  n ← message_length (Z.of_nat (length (MessageBuilder.buffer b) + output_size) - STUN_HEADER_LENGTH);
  b ← builder_set_len n b;
  let data := MessageBuilder.buffer b in
  data ← slice_to (Z.of_nat (length data) - ATTRIBUTE_HEADER_LEN) data;
  Ret (with_buffer (fun buf => buf ++ hmac key data) b).

#[export] Instance MessageIntegrity_attr (Sha1 : Digest) : Attribute MessageIntegrity MessageIntegrityKey := {|
  TYPE := MESSAGE_INTEGRITY;
  decode ctx msg attr := let 'Sha1Key key := ctx in
    '(r, msg) ← message_integrity_decode key msg attr; Ret ((_ ← r; Ok Integrity), msg);
  encode _ ctx b := let 'Sha1Key key := ctx in message_integrity_encode key b;
  encode_len _ := u16_len output_size |}.

#[export] Instance MessageIntegritySha256_attr (Sha256 : Digest)
    : Attribute MessageIntegritySha256 MessageIntegritySha256Key := {|
  TYPE := MESSAGE_INTEGRITY_SHA256;
  decode ctx msg attr := let 'Sha256Key key := ctx in
    '(r, msg) ← message_integrity_decode key msg attr; Ret ((_ ← r; Ok IntegritySha256), msg);
  encode _ ctx b := let 'Sha256Key key := ctx in message_integrity_encode key b;
  encode_len _ := u16_len output_size |}.
End operations.

(** ** CRC-32 against its definition by division

    [crc_bits] divides bit by bit: the next byte is added to the low end of
    the remainder, then eight shifts with the reflected polynomial. *)
Definition crc_byte (c : Z) (b : byte) : Z := Nat.iter 8 crc_step (Z.lxor c (byte_val b)).
Definition crc_bits (buf : list byte) : Z := Z.lxor (foldl crc_byte 0xffffffff buf) 0xffffffff.

Lemma crc_step_alt c : crc_step c = Z.lxor (if Z.odd c then 0xedb88320 else 0) (Z.shiftr c 1).
Proof.
  unfold crc_step. replace (Z.land c 1) with (c mod 2) by (symmetry; by apply (Z.land_ones c 1)).
  rewrite Zmod_odd. destruct (Z.odd c).
  - by rewrite decide_True.
  - by rewrite decide_False by done.
Qed.

Lemma crc_step_lxor a b : crc_step (Z.lxor a b) = Z.lxor (crc_step a) (crc_step b).
Proof.
  rewrite !crc_step_alt, Z.shiftr_lxor. rewrite <-!Z.bit0_odd, Z.lxor_spec.
  set (x := Z.shiftr a 1). set (y := Z.shiftr b 1).
  destruct (Z.testbit a 0), (Z.testbit b 0); cbn [xorb]; rewrite ?Z.lxor_0_l, <-?Z.lxor_assoc; try done.
  - rewrite <-(Z.lxor_0_l x) at 1. rewrite <-(Z.lxor_nilpotent 0xedb88320).
    rewrite !Z.lxor_assoc. f_equal. rewrite <-!Z.lxor_assoc. f_equal. apply Z.lxor_comm.
  - f_equal. apply Z.lxor_comm.
Qed.

Lemma crc_iter_lxor n a b :
  Nat.iter n crc_step (Z.lxor a b) = Z.lxor (Nat.iter n crc_step a) (Nat.iter n crc_step b).
Proof. induction n as [|n IH]; [done|]. by rewrite !Nat.iter_succ, IH, crc_step_lxor. Qed.

(** Shifting out zeros does not meet the polynomial. *)
Lemma crc_iter_high n x : 0 <= x -> Nat.iter n crc_step (Z.shiftl x (Z.of_nat n)) = x.
Proof.
  intros Hx. induction n as [|n IH]; [cbn; apply Z.shiftl_0_r|].
  rewrite Nat.iter_succ_r, crc_step_alt.
  assert (Z.odd (Z.shiftl x (Z.of_nat (S n))) = false) as ->.
  { rewrite <-Z.bit0_odd, Z.shiftl_spec by lia. apply Z.testbit_neg_r. lia. }
  rewrite Z.lxor_0_l, Z.shiftr_shiftl_l by lia.
  replace (Z.of_nat (S n) - 1) with (Z.of_nat n) by lia. exact IH.
Qed.

Lemma crc32_table_lookup n :
  0 <= n < 256 -> CRC32_TABLE !! Z.to_nat n = Some (Nat.iter 8 crc_step n).
Proof.
  intros Hn. change CRC32_TABLE with crc32_table. unfold crc32_table.
  rewrite list_lookup_fmap, lookup_seqZ_lt by lia. cbn [fmap option_fmap option_map].
  by rewrite Z.add_0_l, Z2Nat.id by lia.
Qed.

Lemma crc_update_byte_spec c b : 0 <= c -> crc_update_byte c b = crc_byte c b.
Proof.
  intros Hc. unfold crc_update_byte, crc_byte. set (x := Z.lxor c (byte_val b)).
  pose proof (byte_val_range b) as Hb.
  assert (0 <= x) as Hx by (apply Z.lxor_nonneg; lia).
  change 0xff with (Z.ones 8). rewrite Z.land_ones by lia. change (2 ^ 8) with 256.
  rewrite crc32_table_lookup by (apply Z.mod_pos_bound; lia). cbn [default from_option id].
  assert (Z.shiftr c 8 = Z.shiftr x 8) as ->.
  { subst x. rewrite Z.shiftr_lxor. rewrite (Z.shiftr_div_pow2 (byte_val b)) by lia.
    rewrite (Z.div_small (byte_val b)) by (cbn; lia). by rewrite Z.lxor_0_r. }
  rewrite <-(crc_iter_high 8 (Z.shiftr x 8)) at 1 by (by apply Z.shiftr_nonneg).
  rewrite <-crc_iter_lxor. f_equal.
  apply Z.bits_inj'. intros i Hi. rewrite Z.lxor_spec. change 256 with (2 ^ 8).
  destruct (decide (i < 8)).
  - rewrite Z.mod_pow2_bits_low by lia. rewrite Z.shiftl_spec_low by lia. by rewrite xorb_false_r.
  - rewrite Z.mod_pow2_bits_high by lia. rewrite Z.shiftl_spec_high, Z.shiftr_spec by lia.
    rewrite xorb_false_l. f_equal. lia.
Qed.

Lemma crc_byte_uint c b : uint 32 c -> uint 32 (crc_byte c b).
Proof.
  intros Hc. unfold crc_byte.
  assert (forall n x, uint 32 x -> uint 32 (Nat.iter n crc_step x)) as H.
  { intros n x Hx. induction n as [|n IH]; [done|]. rewrite Nat.iter_succ, crc_step_alt.
    apply lxor_uint; [done|by destruct (Z.odd _)|].
    unfold uint in *. rewrite Z.shiftr_div_pow2 by lia. change (2 ^ 1) with 2.
    split; [apply Z.div_pos; lia|apply Z.div_lt_upper_bound; lia]. }
  apply H, lxor_uint; [done|done|]. pose proof (byte_val_range b). unfold uint. lia.
Qed.

(** The table-driven CRC of the fingerprint is the CRC-32 by bitwise
    division, and fits 32 bits. *)
Theorem crc32_bits (buf : list byte) : crc32 buf = crc_bits buf /\ uint 32 (crc32 buf).
Proof.
  unfold crc32, update_crc32, crc_bits. rewrite Z.lxor_0_l.
  assert (forall c, uint 32 c ->
    foldl crc_update_byte c buf = foldl crc_byte c buf /\ uint 32 (foldl crc_byte c buf)) as H.
  { induction buf as [|b buf IH]; intros c Hc; [done|]. cbn [foldl].
    rewrite crc_update_byte_spec by apply Hc. by apply IH, crc_byte_uint. }
  destruct (H 0xffffffff ltac:(done)) as [-> Hu]. split; [done|]. by apply lxor_uint.
Qed.

(** ** Checking a parsed message *)
Section check.
Context `{WL : WireLaws}.

(** The bytes an attribute authenticates: everything before it, under a header
    whose length ends at the attribute. *)
Definition signed_bytes (msg : Message.t) (s : AttrSpan.t) : list byte :=
  take (AttrSpan.begin s - 4)
    (Message.buffer (at_len (Z.of_nat (AttrSpan.padding_end s) - STUN_HEADER_LENGTH) msg)).

Lemma length_at_len l msg :
  msg_wf msg -> length (Message.buffer (at_len l msg)) = length (Message.buffer msg).
Proof.
  intros Hwf. pose proof (wf_long _ Hwf). cbn -[set_len be_bytes].
  rewrite length_app, length_be_bytes, length_drop. lia.
Qed.

Lemma get_value_at_len l msg s :
  msg_wf msg -> s ∈ Message.attributes msg ->
  get_value s (Message.buffer (at_len l msg)) = get_value s (Message.buffer msg).
Proof.
  intros Hwf Hs. unfold get_value. rewrite length_at_len by done. case_decide; [|done].
  destruct (tiles_lookup _ _ _ _ (wf_tiles _ Hwf) Hs) as (H1 & _). f_equal. f_equal.
  cbn -[set_len be_bytes]. rewrite drop_app_ge by (rewrite length_be_bytes; lia).
  rewrite length_be_bytes, drop_drop. f_equal. lia.
Qed.

Lemma slice_to_parsed l msg s :
  msg_wf msg -> s ∈ Message.attributes msg ->
  slice_to (Z.of_nat (AttrSpan.begin s) - ATTRIBUTE_HEADER_LEN) (Message.buffer (at_len l msg)) =
    Ret (take (AttrSpan.begin s - 4) (Message.buffer (at_len l msg))).
Proof.
  intros Hwf Hs. destruct (tiles_lookup _ _ _ _ (wf_tiles _ Hwf) Hs) as (H1 & H2 & H3 & H4).
  unfold slice_to, ATTRIBUTE_HEADER_LEN. rewrite length_at_len by done.
  rewrite decide_True by lia. do 2 f_equal. lia.
Qed.

(** A check that does not touch the message runs at the length of its end and
    gives the message back. *)
Lemma with_len_to_end_spec {R} (f : Message.t -> exec (result Error R * Message.t)) r msg s :
  msg_wf msg ->
  (forall msg', msg' = at_len (Z.of_nat (AttrSpan.padding_end s) - STUN_HEADER_LENGTH) msg ->
     f msg' = Ret (r, msg')) ->
  with_len_to_end s msg f =
    Ret (if decide (uint 16 (Z.of_nat (AttrSpan.padding_end s) - STUN_HEADER_LENGTH))
         then r else Err TryFromInt, msg).
Proof.
  intros Hwf Hf. unfold with_len_to_end, try_from_uint. case_decide as Hu; [|done].
  by apply with_msg_len_restores; [| |apply Hf].
Qed.

Lemma integrity_decode_spec `{Digest} key msg s v :
  msg_wf msg -> s ∈ Message.attributes msg -> get_value s (Message.buffer msg) = Ret v ->
  message_integrity_decode key msg s =
    Ret (if decide (uint 16 (Z.of_nat (AttrSpan.padding_end s) - STUN_HEADER_LENGTH)) then
           if decide (hmac key (signed_bytes msg s) = v) then Ok tt
           else Err (InvalidData "failed to verify message integrity")
         else Err TryFromInt, msg).
Proof.
  intros Hwf Hs Hv. unfold message_integrity_decode. apply with_len_to_end_spec; [done|].
  intros msg' ->. rewrite get_value_at_len, Hv by done. cbn [mbind exec_bind].
  rewrite slice_to_parsed by done. cbn [mbind exec_bind]. fold (signed_bytes msg s).
  do 2 case_decide; done.
Qed.

Definition crc_bytes (data : list byte) : list byte := be_bytes 4 (Z.lxor (crc32 data) 0x5354554e).

Lemma crc_xor_uint data : uint 32 (Z.lxor (crc32 data) 0x5354554e).
Proof. apply lxor_uint; [done| |done]. apply crc32_bits. Qed.

Lemma fingerprint_decode_spec msg s v :
  msg_wf msg -> s ∈ Message.attributes msg -> get_value s (Message.buffer msg) = Ret v ->
  fingerprint_decode msg s =
    Ret (if decide (uint 16 (Z.of_nat (AttrSpan.padding_end s) - STUN_HEADER_LENGTH)) then
           if decide (length v = 4%nat) then
             if decide (crc_bytes (signed_bytes msg s) = v) then Ok Fingerprint_
             else Err (InvalidData "failed to verify message fingerprint")
           else Err (InvalidData "fingerprint value must be 4 bytes")
         else Err TryFromInt, msg).
Proof.
  intros Hwf Hs Hv. unfold fingerprint_decode. apply with_len_to_end_spec; [done|].
  intros msg' ->. rewrite get_value_at_len, Hv by done. cbn [mbind exec_bind].
  destruct (decide (length v = 4%nat)) as [Hl|Hl]; [|by rewrite decide_True].
  rewrite decide_False by tauto.
  assert (read_n 4 v = Ok (be_val v, [])) as ->.
  { rewrite <-(be_bytes_val v) at 1. rewrite Hl. apply read_n_be_nil.
    pose proof (be_val_range v) as Hr. by rewrite Hl in Hr. }
  rewrite slice_to_parsed by done. cbn [mbind exec_bind]. fold (signed_bytes msg s).
  unfold crc_bytes. pose proof (crc_xor_uint (signed_bytes msg s)) as Hu.
  set (c := Z.lxor _ _) in *.
  assert (be_bytes 4 c = v <-> c = be_val v) as Hiff.
  { split; [intros <-; symmetry; by apply be_val_bytes_id|].
    intros ->. rewrite <-Hl. apply be_bytes_val. }
  destruct (decide (be_bytes 4 c = v)) as [E|E].
  - rewrite decide_False by tauto. done.
  - rewrite decide_True by tauto. done.
Qed.

(** ** Sealing: the common part of the encoders *)
Lemma head_ext h1 h2 :
  uint 32 h1 -> uint 32 h2 -> z h1 = z h2 -> typ h1 = typ h2 -> len h1 = len h2 -> h1 = h2.
Proof.
  intros H1 H2. destruct (head_fields h1 H1) as (-> & -> & ->), (head_fields h2 H2) as (-> & -> & ->).
  intros Ez Et El. unfold uint in *.
  rewrite (Z.div_mod h1 (2 ^ 16)), (Z.div_mod h2 (2 ^ 16)), El by done. do 2 f_equal.
  rewrite (Z.div_mod (h1 / 2 ^ 16) (2 ^ 14)), (Z.div_mod (h2 / 2 ^ 16) (2 ^ 14)), Et by done. do 2 f_equal.
  rewrite !Z.div_div by lia. change (2 ^ 16 * 2 ^ 14) with (2 ^ 30). done.
Qed.

(** The header of a message of class [c] and method [m] with length [k]. *)
Definition head_of (c : Class_) (m : Method) (k : Z) : Z := set_len (set_typ 0 (head_typ c m)) k.

Lemma head_of_spec c m k :
  uint 16 k ->
  uint 32 (head_of c m k) /\ z (head_of c m k) = 0 /\ typ (head_of c m k) = head_typ c m /\
  len (head_of c m k) = k.
Proof.
  intros Hk. destruct (type_bits c m) as (_ & _ & Hr). destruct (set_typ_zero _ Hr) as (Hs & Hz & Ht).
  destruct (set_len_spec (set_typ 0 (head_typ c m)) k) as (_ & H1 & H2 & H3 & H4);
    [unfold head_typ; lia|done|].
  unfold head_of, uint. rewrite H2, H3, H4. done.
Qed.

Lemma head_of_unique c m k h :
  uint 16 k -> uint 32 h -> z h = 0 -> typ h = head_typ c m -> set_len h k = head_of c m k.
Proof.
  intros Hk Hh Hz Ht. destruct (set_len_spec h k Hh Hk) as (_ & H1 & H2 & H3 & H4).
  destruct (head_of_spec c m k Hk) as (G1 & G2 & G3 & G4).
  apply head_ext; [exact H1|exact G1|congruence|congruence|congruence].
Qed.
End check.

(** ** Sealed messages *)
Section seal.
Context `{WL : WireLaws}.

Lemma layout_app pos l l' :
  layout pos (l ++ l') = layout pos l ++ layout (pos + length (encode_tlvs l)) l'.
Proof.
  revert pos. induction l as [|[t v] l IH]; intros pos; cbn [app layout].
  - cbn. by rewrite Nat.add_0_r.
  - rewrite IH, encode_tlvs_cons, length_app, length_encode_tlv. cbn [snd app]. do 3 f_equal. lia.
Qed.

(** The bytes sealed by an attribute of [n] bytes behind the attributes [l]. *)
Definition sealed c m tid (l : list tlv) (n : nat) : list byte :=
  message_bytes (head_of c m (Z.of_nat (length (encode_tlvs l) + 4 + n))) tid l.

Lemma seal_len b c m tid l extra n :
  partial b c m tid l extra -> length extra = 4%nat ->
  uint 16 (Z.of_nat (length (encode_tlvs l) + 4 + n)) ->
  exists b', (k ← message_length (Z.of_nat (length (MessageBuilder.buffer b) + n) - STUN_HEADER_LENGTH);
              builder_set_len k b) = Ret b' /\
    partial b' c m tid l extra /\
    MessageBuilder.padding_in_value_len b' = MessageBuilder.padding_in_value_len b /\
    slice_to (Z.of_nat (length (MessageBuilder.buffer b')) - ATTRIBUTE_HEADER_LEN)
      (MessageBuilder.buffer b') = Ret (sealed c m tid l n).
Proof.
  intros Hb He Hu. rewrite (partial_length _ _ _ _ _ _ Hb), He.
  replace (Z.of_nat (20 + length (encode_tlvs l) + 4 + n) - STUN_HEADER_LENGTH)
    with (Z.of_nat (length (encode_tlvs l) + 4 + n)) by (unfold STUN_HEADER_LENGTH; lia).
  unfold message_length. rewrite decide_True by done. cbn [mbind exec_bind].
  destruct (builder_set_len_partial _ _ _ _ _ _ _ Hb Hu) as (b' & -> & Hb' & Hh & Hp).
  exists b'. do 3 (split; [done|]).
  pose proof (partial_length _ _ _ _ _ _ Hb') as Hlen. rewrite Hlen, He.
  unfold slice_to, ATTRIBUTE_HEADER_LEN. rewrite Hlen, He, decide_True by lia. f_equal.
  destruct Hb' as [_ _ _ _ Htid _ Hbuf]. rewrite Hbuf, Hh.
  rewrite (head_of_unique c m); try done; try apply Hb.
  fold (sealed c m tid l n). rewrite take_app_le.
  - apply take_ge. unfold sealed. rewrite length_message_bytes by done. lia.
  - unfold sealed. rewrite length_message_bytes by done. lia.
Qed.

(** An attribute of [n] bytes, a multiple of four, written by such an encoder. *)
Lemma seal_builds b c m tid l t v n b' :
  builds b c m tid l -> uint 16 t -> uint 16 (Z.of_nat n) -> pad n = 0%nat -> length v = n ->
  partial b' c m tid l (be_bytes 2 t ++ be_bytes 2 (Z.of_nat n)) ->
  builds (with_buffer (fun buf => buf ++ v) b') c m tid (l ++ [(t, v)]).
Proof.
  intros Hb Ht Hn Hp Hv [Hh Hz Htyp Htid Hlen Hok Hbuf]. split; cbn; try done.
  - apply Forall_app_2; [done|]. constructor; [|constructor]. split; [done|]. cbn; by rewrite Hv.
  - rewrite Hbuf, !message_bytes_split, encode_tlvs_snoc, app_nil_r, <-!app_assoc.
    do 4 f_equal. unfold encode_tlv. cbn [fst snd]. rewrite Hv, Hp. cbn. by rewrite app_nil_r.
Qed.

(** Writing the type and the length of an attribute. *)
Definition header_written (t n : Z) (b : MessageBuilder.t) : MessageBuilder.t :=
  with_buffer (fun buf => put_uint 2 buf n) (with_buffer (fun buf => put_uint 2 buf t) b).

(** An attribute that needs no padding, outside of the padding mode. *)
Lemma add_attr_with_header {A Context} `{Attribute A Context} (a : A) (ctx : Context) b n :
  encode_len a = Ok n -> MessageBuilder.padding_in_value_len b = false -> padding n = 0 ->
  add_attr_with a ctx b = encode a ctx (header_written (TYPE (A := A)) n b).
Proof.
  intros Hn Hp Hpad. unfold add_attr_with. rewrite Hn. cbn [unwrap_res mbind exec_bind].
  change (MessageBuilder.padding_in_value_len (with_buffer _ b))
    with (MessageBuilder.padding_in_value_len b).
  rewrite Hp, Hpad. fold (header_written (TYPE (A := A)) n b).
  destruct (encode a ctx _) as [b'|]; [|done]. cbn. f_equal. destruct b'.
  unfold with_buffer. cbn. by rewrite app_nil_r.
Qed.

Lemma header_partial b c m tid l t n :
  builds b c m tid l -> uint 16 t -> uint 16 n ->
  partial (header_written t n b) c m tid l (be_bytes 2 t ++ be_bytes 2 n).
Proof.
  intros [Hh Hz Htyp Htid Hlen Hok Hbuf] Ht Hn. split; cbn; try done. rewrite Hbuf, app_nil_r, !put_be by done.
  by rewrite <-app_assoc.
Qed.

Lemma add_integrity_builds (D : Digest) key ctx_t (b : MessageBuilder.t) c m tid l :
  DigestLaws D -> builds b c m tid l -> uint 16 ctx_t ->
  uint 16 (Z.of_nat (length (encode_tlvs l) + 4 + output_size)) ->
  exists b', message_integrity_encode key (header_written ctx_t (Z.of_nat output_size) b) = Ret b' /\
    builds b' c m tid (l ++ [(ctx_t, hmac key (sealed c m tid l output_size))]) /\
    MessageBuilder.padding_in_value_len b' = MessageBuilder.padding_in_value_len b.
Proof.
  intros HD Hb Ht Hu. destruct output_size_bound as [Hn Hpad].
  assert (uint 16 (Z.of_nat output_size)) as Hu' by (unfold uint in *; lia).
  pose proof (header_partial _ _ _ _ _ _ _ Hb Ht Hu') as Hh.
  destruct (seal_len _ _ _ _ _ _ output_size Hh) as (b' & E & Hb' & Hp & Hs);
    [by rewrite length_app, !length_be_bytes|done|].
  unfold message_integrity_encode. apply exec_bind_Ret_inv in E as (k & -> & E).
  cbn [mbind exec_bind]. rewrite E. cbn [mbind exec_bind]. rewrite Hs. cbn [mbind exec_bind].
  eexists. split; [done|]. split; [|exact Hp].
  eapply seal_builds; try done. apply hmac_length.
Qed.

Lemma add_fingerprint_builds (b : MessageBuilder.t) c m tid l :
  builds b c m tid l -> uint 16 (Z.of_nat (length (encode_tlvs l) + 4 + 4)) ->
  exists b', fingerprint_encode (header_written FINGERPRINT 4 b) = Ret b' /\
    builds b' c m tid (l ++ [(FINGERPRINT, crc_bytes (sealed c m tid l 4))]) /\
    MessageBuilder.padding_in_value_len b' = MessageBuilder.padding_in_value_len b.
Proof.
  intros Hb Hu.
  pose proof (header_partial _ _ _ _ _ FINGERPRINT 4 Hb ltac:(done) ltac:(done)) as Hh.
  destruct (seal_len _ _ _ _ _ _ 4 Hh) as (b' & E & Hb' & Hp & Hs);
    [by rewrite length_app, !length_be_bytes|done|].
  unfold fingerprint_encode. rewrite Nat2Z.inj_add in E.
  apply exec_bind_Ret_inv in E as (k & E1 & E). change (Z.of_nat 4) with 4 in E1. rewrite E1.
  cbn [mbind exec_bind]. rewrite E. cbn [mbind exec_bind]. rewrite Hs. cbn [mbind exec_bind].
  eexists. split; [done|]. split; [|exact Hp].
  assert (with_buffer (fun buf => put_uint 4 buf (Z.lxor (crc32 (sealed c m tid l 4)) 0x5354554e)) b' =
    with_buffer (fun buf => buf ++ crc_bytes (sealed c m tid l 4)) b') as ->.
  { apply with_buffer_ext. apply put_be. apply crc_xor_uint. }
  by eapply (seal_builds b _ _ _ _ _ _ 4).
Qed.

(** What a seal in a parsed message covers is what was sealed. *)
Lemma sealed_parsed head c m tid l t v l' l0 :
  l0 = l ++ (t, v) :: l' ->
  let msg := parsed head c m tid l0 in
  let s := {| AttrSpan.begin := 20 + length (encode_tlvs l) + 4;
              AttrSpan.end_ := 20 + length (encode_tlvs l) + 4 + length v;
              AttrSpan.padding_end := 20 + length (encode_tlvs l) + 4 + length v + pad (length v);
              AttrSpan.typ := t |} in
  msg_wf msg -> typ head = head_typ c m -> length tid = 12%nat ->
  uint 16 (Z.of_nat (length (encode_tlvs l0))) -> pad (length v) = 0%nat ->
  s ∈ Message.attributes msg /\ get_value s (Message.buffer msg) = Ret v /\
  uint 16 (Z.of_nat (AttrSpan.padding_end s) - STUN_HEADER_LENGTH) /\
  signed_bytes msg s = sealed c m tid l (length v).
Proof.
  intros -> msg s Hwf Htyp Htid Hu Hp.
  assert (encode_tlvs (l ++ (t, v) :: l') = encode_tlvs l ++ encode_tlv (t, v) ++ encode_tlvs l') as El.
  { unfold encode_tlvs. by rewrite fmap_app, concat_app. }
  assert (s ∈ Message.attributes msg) as Hs.
  { subst msg s. cbn [Message.attributes parsed]. rewrite layout_app. apply elem_of_app. right. left. }
  assert (Z.of_nat (AttrSpan.padding_end s) - STUN_HEADER_LENGTH =
    Z.of_nat (length (encode_tlvs l) + 4 + length v)) as Hk.
  { subst s. cbn [AttrSpan.padding_end]. rewrite Hp. unfold STUN_HEADER_LENGTH. lia. }
  assert (uint 16 (Z.of_nat (length (encode_tlvs l) + 4 + length v))) as Hu'.
  { rewrite El, !length_app, length_encode_tlv in Hu. cbn [snd] in Hu. unfold uint in *. lia. }
  repeat split; try done; try (rewrite Hk; apply Hu').
  - subst msg s. unfold get_value. cbn [AttrSpan.begin AttrSpan.end_ Message.buffer parsed].
    rewrite message_bytes_split, El, app_assoc.
    set (pre := _ ++ encode_tlvs l).
    assert (length pre = 20 + length (encode_tlvs l))%nat as Hpre.
    { subst pre. rewrite !length_app, !length_be_bytes. lia. }
    rewrite decide_True by (rewrite !length_app, length_encode_tlv; cbn [snd]; lia).
    replace (20 + length (encode_tlvs l) + 4 + length v - (20 + length (encode_tlvs l) + 4))%nat
      with (length v) by lia.
    unfold encode_tlv. cbn [fst snd]. rewrite <-!app_assoc.
    rewrite (app_assoc (be_bytes 2 t)), (app_assoc pre).
    rewrite drop_app_length' by (rewrite !length_app, !length_be_bytes; lia).
    by rewrite take_app_length.
  - unfold signed_bytes. rewrite Hk. subst msg s.
    cbn -[set_len be_bytes length encode_tlvs Nat.add Nat.sub].
    rewrite (head_of_unique c m); try done; try apply Hwf.
    unfold sealed. rewrite message_bytes_split, El.
    replace (20 + length (encode_tlvs l) + 4 - 4)%nat with (20 + length (encode_tlvs l))%nat by lia.
    rewrite <-app_assoc, drop_app_ge by (rewrite length_be_bytes; lia).
    rewrite length_be_bytes, drop_0. unfold message_bytes.
    rewrite <-!app_assoc. rewrite (app_assoc tid), (app_assoc (be_bytes 4 COOKIE)), app_assoc.
    apply take_app_length'. rewrite !length_app, !length_be_bytes. lia.
Qed.
End seal.

(** ** Sealed messages are accepted *)
Section sealed_messages.
Context `{WL : WireLaws} (Sha1 : Digest) `{!DigestLaws Sha1}.

(** A message with attributes, an integrity attribute and a fingerprint. *)
Definition build_sealed c m tid (l : list any_attr) (key : list byte) : exec (list byte) :=
  b ← add_attrs l (builder_new c m tid);
  b ← add_attr_with Integrity (Sha1Key key) b;
  b ← add_attr Fingerprint_ b;
  finish b.

Lemma find_attribute_skip target l s l' :
  Forall (fun a => AttrSpan.typ a <> target /\ AttrSpan.typ a <> MESSAGE_INTEGRITY /\
                   AttrSpan.typ a <> MESSAGE_INTEGRITY_SHA256) l ->
  find_attribute target false (l ++ s :: l') = find_attribute target false (s :: l').
Proof.
  intros Hl. induction Hl as [|a l (H1 & H2 & H3) _ IH]; [done|]. cbn [app find_attribute andb].
  rewrite decide_False by done. rewrite bool_decide_false by tauto. exact IH.
Qed.

Lemma layout_skip target pos l :
  Forall (fun a : tlv => a.1 <> target /\ a.1 <> MESSAGE_INTEGRITY /\ a.1 <> MESSAGE_INTEGRITY_SHA256) l ->
  Forall (fun a => AttrSpan.typ a <> target /\ AttrSpan.typ a <> MESSAGE_INTEGRITY /\
                   AttrSpan.typ a <> MESSAGE_INTEGRITY_SHA256) (layout pos l).
Proof.
  intros Hl. revert pos. induction Hl as [|[t v] l H _ IH]; intros pos; constructor; [exact H|apply IH].
Qed.

(** The attributes of a sealed message. *)
Definition with_mac c m tid (tl : list tlv) (key : list byte) : list tlv :=
  tl ++ [(MESSAGE_INTEGRITY, hmac key (sealed c m tid tl output_size))].
Definition with_seals c m tid (tl : list tlv) (key : list byte) : list tlv :=
  with_mac c m tid tl key ++ [(FINGERPRINT, crc_bytes (sealed c m tid (with_mac c m tid tl key) 4))].

Lemma length_with_mac c m tid tl key :
  length (encode_tlvs (with_mac c m tid tl key)) = (length (encode_tlvs tl) + 4 + output_size)%nat.
Proof.
  destruct output_size_bound as [_ Hpad]. unfold with_mac.
  rewrite encode_tlvs_snoc, length_app, length_encode_tlv. cbn [snd]. rewrite hmac_length. lia.
Qed.

Lemma length_with_seals c m tid tl key :
  length (encode_tlvs (with_seals c m tid tl key)) =
    (length (encode_tlvs tl) + 4 + output_size + 8)%nat.
Proof.
  unfold with_seals. rewrite encode_tlvs_snoc, length_app, length_encode_tlv, length_with_mac.
  cbn [snd]. unfold crc_bytes. rewrite length_be_bytes. change (pad 4) with 0%nat. lia.
Qed.

Lemma build_sealed_spec c m tid (l : list any_attr) key :
  let tl := any_tlv (message_id tid) <$> l in
  length tid = 12%nat -> Forall any_valid l ->
  uint 16 (Z.of_nat (length (encode_tlvs (with_seals c m tid tl key)))) ->
  exists head,
    build_sealed c m tid l key = Ret (message_bytes head tid (with_seals c m tid tl key)) /\
    parse (message_bytes head tid (with_seals c m tid tl key)) =
      Ok (parsed head c m tid (with_seals c m tid tl key)) /\
    typ head = head_typ c m.
Proof.
  intros tl Htid Hl Hu. destruct output_size_bound as [Hn Hpad].
  destruct (add_attrs_builds l _ _ _ _ _ (builder_new_builds c m tid Htid) eq_refl Hl)
    as (b & Eb & Hb & Hp). cbn [app] in Hb. fold tl in Hb. pose proof Hu as Hu'.
  rewrite length_with_seals in Hu'.
  destruct (add_integrity_builds Sha1 key MESSAGE_INTEGRITY b c m tid tl)
    as (b1 & E1 & Hb1 & Hp1); [done|done|done|unfold uint in *; lia|].
  fold (with_mac c m tid tl key) in Hb1.
  destruct (add_fingerprint_builds b1 c m tid (with_mac c m tid tl key)) as (b2 & E2 & Hb2 & Hp2);
    [done|rewrite length_with_mac; unfold uint in *; lia|].
  fold (with_seals c m tid tl key) in Hb2.
  destruct (finish_builds _ _ _ _ _ Hb2 Hu) as (head & Ef & Ep & _ & _ & Htyp & _).
  exists head. split; [|done]. unfold build_sealed. rewrite Eb. cbn [mbind exec_bind].
  rewrite (add_attr_with_header Integrity (Sha1Key key) b (Z.of_nat output_size)).
  2: { apply u16_len_Ok. unfold uint. lia. }
  2: { done. }
  2: { pose proof (of_nat_pad output_size). rewrite Hpad in *. lia. }
  cbn [encode MessageIntegrity_attr TYPE]. rewrite E1. cbn [mbind exec_bind].
  unfold add_attr. rewrite (add_attr_with_header Fingerprint_ tt b1 4); [|done|by rewrite Hp1|done].
  cbn [encode Fingerprint_attr TYPE]. rewrite E2. exact Ef.
Qed.

(** The type of no attribute hides a seal. *)
Definition unsealed (tl : list tlv) : Prop :=
  Forall (fun a => a.1 <> FINGERPRINT /\ a.1 <> MESSAGE_INTEGRITY /\ a.1 <> MESSAGE_INTEGRITY_SHA256) tl.

Lemma fingerprint_accepted head c m tid tl key :
  let msg := parsed head c m tid (with_seals c m tid tl key) in
  msg_wf msg -> typ head = head_typ c m -> length tid = 12%nat -> unsealed tl ->
  uint 16 (Z.of_nat (length (encode_tlvs (with_seals c m tid tl key)))) ->
  attribute Fingerprint msg = Ret (Some (Ok Fingerprint_), msg).
Proof.
  intros msg Hwf Htyp Htid Hskip Hu.
  destruct (sealed_parsed head c m tid (with_mac c m tid tl key) FINGERPRINT
    (crc_bytes (sealed c m tid (with_mac c m tid tl key) 4)) [] _ eq_refl Hwf Htyp Htid Hu)
    as (Hs & Hv & Hr & Hsig); [done|].
  unfold attribute, attribute_with. cbn [Message.attributes parsed TYPE Fingerprint_attr msg].
  unfold with_seals at 1, with_mac at 1. rewrite <-app_assoc. cbn [app].
  rewrite layout_app. cbn [layout]. rewrite find_attribute_skip by by apply layout_skip.
  unfold find_attribute. cbn [AttrSpan.typ andb].
  rewrite decide_False, decide_True by done. rewrite bool_decide_true by by left.
  cbn [orb andb]. rewrite bool_decide_true by by right. cbn [negb decode Fingerprint_attr].
  destruct output_size_bound as [_ Hpad]. rewrite !hmac_length, Hpad.
  replace (20 + length (encode_tlvs tl) + 4 + output_size + 0)%nat
    with (20 + length (encode_tlvs (with_mac c m tid tl key)))%nat by (rewrite length_with_mac; lia).
  rewrite (fingerprint_decode_spec _ _ _ Hwf Hs Hv).
  rewrite decide_True by exact Hr. rewrite decide_True by done.
  rewrite decide_True; [done|]. exact (f_equal crc_bytes Hsig).
Qed.

Lemma integrity_checked head c m tid tl key key' :
  let msg := parsed head c m tid (with_seals c m tid tl key) in
  let signed := sealed c m tid tl output_size in
  msg_wf msg -> typ head = head_typ c m -> length tid = 12%nat -> unsealed tl ->
  uint 16 (Z.of_nat (length (encode_tlvs (with_seals c m tid tl key)))) ->
  attribute_with MessageIntegrity (Sha1Key key') msg =
    Ret (Some (if decide (hmac key' signed = hmac key signed) then Ok Integrity
               else Err (InvalidData "failed to verify message integrity")), msg).
Proof.
  intros msg signed Hwf Htyp Htid Hskip Hu. destruct output_size_bound as [_ Hpad].
  assert (Forall (fun a : tlv => a.1 <> MESSAGE_INTEGRITY /\ a.1 <> MESSAGE_INTEGRITY /\
    a.1 <> MESSAGE_INTEGRITY_SHA256) tl) as Hskip' by (eapply Forall_impl; [exact Hskip|naive_solver]).
  destruct (sealed_parsed head c m tid tl MESSAGE_INTEGRITY (hmac key signed)
    [(FINGERPRINT, crc_bytes (sealed c m tid (with_mac c m tid tl key) 4))]
    (with_seals c m tid tl key)) as (Hs & Hv & Hr & Hsig); try done.
  { unfold with_seals, with_mac at 1. by rewrite <-app_assoc. }
  { by rewrite hmac_length. }
  unfold attribute_with. cbn [Message.attributes parsed TYPE MessageIntegrity_attr msg].
  unfold with_seals at 1, with_mac at 1. rewrite <-app_assoc. cbn [app].
  rewrite layout_app. cbn [layout]. rewrite find_attribute_skip by by apply layout_skip.
  unfold find_attribute. cbn [AttrSpan.typ andb]. rewrite decide_True by done.
  cbn [decode MessageIntegrity_attr]. rewrite (integrity_decode_spec _ _ _ _ Hwf Hs Hv).
  rewrite decide_True by exact Hr. fold msg.
  match goal with |- context [signed_bytes msg ?s] => assert (signed_bytes msg s = signed) as ->
    by exact (eq_trans Hsig (f_equal (sealed c m tid tl) (hmac_length key signed))) end.
  cbn [mbind exec_bind]. by case_decide.
Qed.

Lemma find_tlv_None target ai (l : list tlv) :
  Forall (fun a => a.1 <> target) l -> find_tlv target ai l = None.
Proof.
  intros Hl. revert ai. induction Hl as [|a l H _ IH]; intros ai; cbn; [done|].
  destruct (_ && _); [done|]. by rewrite decide_False.
Qed.

(** What the receiver of a sealed message finds in it. *)
Record sealed_message c m tid (l : list any_attr) (key : list byte) (msg : Message.t) : Prop := {
  sealed_built : build_sealed c m tid l key = Ret (Message.buffer msg);
  sealed_parse : parse (Message.buffer msg) = Ok msg;
  sealed_class : Message.class msg = c;
  sealed_method : Message.method msg = m;
  sealed_tid : Message.transaction_id msg = tid;
  sealed_fingerprint : attribute Fingerprint msg = Ret (Some (Ok Fingerprint_), msg);
  sealed_integrity : exists signed, forall key',
    attribute_with MessageIntegrity (Sha1Key key') msg =
      Ret (Some (if decide (hmac key' signed = hmac key signed) then Ok Integrity
                 else Err (InvalidData "failed to verify message integrity")), msg);
  sealed_has : forall i A Context H HP (a : A) (ctx : Context),
    l !! i = Some (@AnyAttr A Context H HP a ctx) ->
    Forall (visible_before (TYPE (A := A))) (take i l) ->
    attribute_with A ctx msg = Ret (Some (Ok a), msg);
  sealed_has_not : forall A Context (H : Attribute A Context) (ctx : Context),
    Forall (fun x => any_type x <> TYPE (A := A)) l ->
    TYPE (A := A) <> MESSAGE_INTEGRITY -> TYPE (A := A) <> FINGERPRINT ->
    attribute_with A ctx msg = Ret (None, msg) }.

Lemma build_sealed_message c m tid (l : list any_attr) (key : list byte) :
  length tid = 12%nat -> Forall any_valid l ->
  Forall (visible_before FINGERPRINT) l ->
  uint 16 (Z.of_nat (length (encode_tlvs (any_tlv (message_id tid) <$> l)) + 4 + output_size + 8)) ->
  exists msg, sealed_message c m tid l key msg.
Proof.
  intros Htid Hl Hvis Hu. set (tl := any_tlv (message_id tid) <$> l) in *.
  rewrite <-(length_with_seals c m tid tl key) in Hu.
  destruct (build_sealed_spec c m tid l key Htid Hl Hu) as (head & Eb & Ep & Htyp).
  pose proof (parse_wf _ _ Ep) as [Hwf _].
  assert (unsealed tl) as Hskip.
  { apply Forall_fmap. eapply Forall_impl; [exact Hvis|]. by intros []. }
  exists (parsed head c m tid (with_seals c m tid tl key)).
  split; [exact Eb|exact Ep|done|done|done|by apply fingerprint_accepted| | |].
  - exists (sealed c m tid tl output_size). intros key'. by apply integrity_checked.
  - intros i A Context H HP a ctx Hi Hv. apply attribute_of_parsed; [done| |].
    + by apply (Forall_lookup_1 _ _ _ _ Hl) in Hi.
    + unfold with_seals, with_mac. rewrite <-app_assoc. apply find_tlv_app. by eapply find_tlv_any.
  - intros A Context H ctx Hno Hmi Hfp. unfold attribute_with.
    pose proof (find_attribute_layout (TYPE (A := A)) false 20 (with_seals c m tid tl key)) as Hf.
    rewrite find_tlv_None in Hf; [cbn [Message.attributes parsed]; by rewrite Hf|].
    unfold with_seals, with_mac. rewrite !Forall_app, !Forall_singleton. split; [split|]; [|done|done].
    apply Forall_fmap. exact Hno.
Qed.

(** C24: A message sealed with MESSAGE-INTEGRITY under a key and with a
    FINGERPRINT is built without a panic and parses; the receiver's check of
    the fingerprint succeeds, its check of the integrity under any key
    succeeds exactly when the MAC of the signed bytes under that key is the
    sender's (so it does under the sender's key), no check changes the
    message, and every attribute added before the seals is still found. *)
Theorem sealed_roundtrip c m tid (l : list any_attr) (key : list byte) :
  length tid = 12%nat -> Forall any_valid l ->
  Forall (visible_before FINGERPRINT) l ->
  uint 16 (Z.of_nat (length (encode_tlvs (any_tlv (message_id tid) <$> l)) + 4 + output_size + 8)) ->
  exists bytes msg signed,
    build_sealed c m tid l key = Ret bytes /\ parse bytes = Ok msg /\
    attribute Fingerprint msg = Ret (Some (Ok Fingerprint_), msg) /\
    (forall key', attribute_with MessageIntegrity (Sha1Key key') msg =
       Ret (Some (if decide (hmac key' signed = hmac key signed) then Ok Integrity
                  else Err (InvalidData "failed to verify message integrity")), msg)) /\
    forall i A Context H HP (a : A) (ctx : Context),
      l !! i = Some (@AnyAttr A Context H HP a ctx) ->
      Forall (visible_before (TYPE (A := A))) (take i l) ->
      attribute_with A ctx msg = Ret (Some (Ok a), msg).
Proof.
  intros Htid Hl Hvis Hu.
  destruct (build_sealed_message c m tid l key Htid Hl Hvis Hu) as (msg & []).
  destruct sealed_integrity0 as (signed & Hs). by exists (Message.buffer msg), msg, signed.
Qed.
End sealed_messages.

(** ** No attribute of a message from the network makes a decoder panic *)
Section safety.
Context `{WL : WireLaws}.

Class SafeAttribute (A Context : Type) `{Attribute A Context} : Prop :=
  decode_safe ctx msg s : msg_wf msg -> s ∈ Message.attributes msg ->
    exists r, decode (A := A) ctx msg s = Ret (r, msg).

Lemma decode_from_safe {A} (f : list byte -> result Error A) msg s :
  msg_wf msg -> s ∈ Message.attributes msg -> exists r, decode_from f msg s = Ret (r, msg).
Proof.
  intros Hwf Hs. destruct (get_value_parsed msg s Hwf Hs) as (v & Hv & _).
  exists (f v). by apply decode_from_value.
Qed.

Ltac safe := intros ctx msg s; intros; first [by apply decode_from_safe | by eexists].

#[export] Instance String_safe ty : SafeAttribute (StringAttribute ty) unit. Proof. safe. Qed.
#[export] Instance Bytes_safe ty : SafeAttribute (BytesAttribute ty) unit. Proof. safe. Qed.
#[export] Instance Unknown_safe : SafeAttribute UnknownAttributes unit. Proof. safe. Qed.
#[export] Instance Mapped_safe : SafeAttribute MappedAddress unit. Proof. safe. Qed.
#[export] Instance XorMapped_safe : SafeAttribute XorMappedAddress unit. Proof. safe. Qed.
#[export] Instance Alternate_safe : SafeAttribute AlternateServer unit. Proof. safe. Qed.
#[export] Instance ErrorCode_safe : SafeAttribute ErrorCode unit. Proof. safe. Qed.
#[export] Instance Priority_safe : SafeAttribute Priority unit. Proof. safe. Qed.
#[export] Instance UseCandidate_safe : SafeAttribute UseCandidate unit. Proof. safe. Qed.
#[export] Instance IceControlled_safe : SafeAttribute IceControlled unit. Proof. safe. Qed.
#[export] Instance IceControlling_safe : SafeAttribute IceControlling unit. Proof. safe. Qed.
#[export] Instance ChannelNumber_safe : SafeAttribute ChannelNumber unit. Proof. safe. Qed.
#[export] Instance Lifetime_safe : SafeAttribute Lifetime unit. Proof. safe. Qed.
#[export] Instance EvenPort_safe : SafeAttribute EvenPort unit. Proof. safe. Qed.
#[export] Instance RequestedTransport_safe : SafeAttribute RequestedTransport unit. Proof. safe. Qed.
#[export] Instance DontFragment_safe : SafeAttribute DontFragment unit. Proof. safe. Qed.
#[export] Instance ReservationToken_safe : SafeAttribute ReservationToken unit. Proof. safe. Qed.
#[export] Instance PasswordAlgorithms_safe : SafeAttribute PasswordAlgorithms unit. Proof. safe. Qed.
#[export] Instance PasswordAlgorithm_safe : SafeAttribute PasswordAlgorithm unit. Proof. safe. Qed.
#[export] Instance UserHash_safe : SafeAttribute UserHash unit. Proof. safe. Qed.

#[export] Instance XorPeer_safe : SafeAttribute XorPeerAddress unit.
Proof.
  intros ctx msg s Hwf Hs. destruct (decode_safe (A := XorMappedAddress) ctx msg s Hwf Hs) as [r E].
  cbn [decode XorPeerAddress_attr]. rewrite E. by eexists.
Qed.

#[export] Instance XorRelayed_safe : SafeAttribute XorRelayedAddress unit.
Proof.
  intros ctx msg s Hwf Hs. destruct (decode_safe (A := XorMappedAddress) ctx msg s Hwf Hs) as [r E].
  cbn [decode XorRelayedAddress_attr]. rewrite E. by eexists.
Qed.

#[export] Instance Fingerprint_safe : SafeAttribute Fingerprint unit.
Proof.
  intros ctx msg s Hwf Hs. destruct (get_value_parsed msg s Hwf Hs) as (v & Hv & _).
  eexists. by apply fingerprint_decode_spec.
Qed.

#[export] Instance Integrity_safe (D : Digest) : SafeAttribute MessageIntegrity MessageIntegrityKey.
Proof.
  intros [key] msg s Hwf Hs. destruct (get_value_parsed msg s Hwf Hs) as (v & Hv & _).
  cbn [decode MessageIntegrity_attr]. rewrite (integrity_decode_spec _ _ _ v) by done. by eexists.
Qed.

#[export] Instance IntegritySha256_safe (D : Digest) :
  SafeAttribute MessageIntegritySha256 MessageIntegritySha256Key.
Proof.
  intros [key] msg s Hwf Hs. destruct (get_value_parsed msg s Hwf Hs) as (v & Hv & _).
  cbn [decode MessageIntegritySha256_attr]. rewrite (integrity_decode_spec _ _ _ v) by done. by eexists.
Qed.

(** Looking an attribute up gives a result, and the message back. *)
Definition total_on (msg : Message.t) (A : Type) {Context} `{Attribute A Context} : Prop :=
  forall ctx : Context, exists r, attribute_with A ctx msg = Ret (r, msg).

Lemma safe_total (A : Type) {Context} `{SafeAttribute A Context} msg : msg_wf msg -> total_on msg A.
Proof.
  intros Hwf ctx. unfold attribute_with. destruct (find_attribute _ _ _) as [s|] eqn:E; [|by eexists].
  apply find_attribute_in in E as [Hs _].
  destruct (decode_safe (A := A) ctx msg s Hwf Hs) as [r ->]. by eexists.
Qed.

(** C33: Whatever bytes arrive: if they parse, the attributes tile the buffer
    behind the 20 bytes of the header, [is_stun_message] recognises the bytes
    as a STUN message, and looking up any attribute of the crate under any key
    neither panics nor changes the message. *)
Theorem parsed_message_safe (Sha1 Sha256 : Digest) (buf : list byte) (msg : Message.t) :
  parse buf = Ok msg ->
  Message.buffer msg = buf /\ tiles 20 (Message.attributes msg) (length buf) /\
  (exists info, is_stun_message buf = Ret info /\ info <> TooShort /\ info <> No) /\
  (forall ty, total_on msg (StringAttribute ty) /\ total_on msg (BytesAttribute ty)) /\
  total_on msg UnknownAttributes /\ total_on msg MappedAddress /\ total_on msg XorMappedAddress /\
  total_on msg AlternateServer /\ total_on msg ErrorCode /\ total_on msg Priority /\
  total_on msg UseCandidate /\ total_on msg IceControlled /\ total_on msg IceControlling /\
  total_on msg ChannelNumber /\ total_on msg Lifetime /\ total_on msg XorPeerAddress /\
  total_on msg XorRelayedAddress /\ total_on msg EvenPort /\ total_on msg RequestedTransport /\
  total_on msg DontFragment /\ total_on msg ReservationToken /\ total_on msg PasswordAlgorithms /\
  total_on msg PasswordAlgorithm /\ total_on msg UserHash /\ total_on msg Fingerprint /\
  total_on msg MessageIntegrity /\ total_on msg MessageIntegritySha256.
Proof.
  intros Hp. destruct (parse_wf _ _ Hp) as [Hwf Hb].
  split; [done|]. split; [rewrite <-Hb; apply Hwf|]. split.
  - rewrite <-Hb. destruct (wf_front _ Hwf) as [rest Hr]. pose proof (wf_long _ Hwf) as Hl.
    unfold is_stun_message. rewrite decide_False by lia. rewrite Hr.
    rewrite read_put by apply (wf_head _ Hwf). cbn [unwrap mbind exec_bind].
    rewrite decide_False by (rewrite (wf_z _ Hwf); tauto).
    pose proof (wf_id _ Hwf) as Hid. pose proof (wf_cookie _ Hwf) as Hc.
    rewrite Hr in Hid, Hl. rewrite drop_app_length' in Hid by (by rewrite length_be_bytes).
    rewrite length_app, length_be_bytes in Hl.
    rewrite <-Hid, take_take in Hc. change (4 `min` 16)%nat with 4%nat in Hc.
    rewrite <-(take_drop 4 rest), Hc, read_put by done. cbn [unwrap mbind exec_bind].
    rewrite decide_False by tauto. case_decide; by eexists.
  - split; [intros ty; split; refine (safe_total _ msg Hwf)|]. repeat (split; [refine (safe_total _ msg Hwf)|]). refine (safe_total _ msg Hwf).
Qed.
End safety.

(** ** Instances to run the development *)
#[local] Existing Instance big_endian.

(** A digest of 20 bytes that computes, in the place of HMAC-SHA1. *)
Definition toy_digest : Digest := {|
  output_size := 20;
  hmac key m := be_bytes 20 (be_val key * 65599 + be_val m) |}.

#[export] Instance toy_digest_laws : DigestLaws toy_digest.
Proof. split; [intros; apply length_be_bytes|split; [cbn; lia|done]]. Qed.

Definition sample_attributes : list any_attr :=
  [AnyAttr (StringAttr (ty := 0x8022) [x65; x7a; x6b]) tt;
   AnyAttr (XorMapped (V4 0xC0A80001 5060)) tt;
   AnyAttr (Prio 1694498815) tt].

Definition sample_tid : TransactionId := replicate 12 x07.

Lemma build_parse_roundtrip_witness :
  exists bytes msg,
    build_message Request Binding sample_tid sample_attributes = Ret bytes /\
    attribute_with XorMappedAddress tt msg = Ret (Some (Ok (XorMapped (V4 0xC0A80001 5060))), msg).
Proof.
  destruct (build_parse_roundtrip (W := big_endian) Request Binding sample_tid sample_attributes)
    as (bytes & msg & H1 & _ & _ & _ & _ & _ & _ & H).
  - reflexivity.
  - repeat constructor; by vm_compute.
  - by vm_compute.
  - exists bytes, msg. split; [exact H1|]. eapply (H 1%nat); [reflexivity|].
    repeat constructor; by vm_compute.
Defined.

Lemma sealed_roundtrip_witness :
  exists bytes msg,
    build_sealed toy_digest Request Binding sample_tid sample_attributes [x01; x02] = Ret bytes /\
    attribute Fingerprint msg = Ret (Some (Ok Fingerprint_), msg).
Proof.
  destruct (sealed_roundtrip (W := big_endian) toy_digest Request Binding sample_tid sample_attributes [x01; x02])
    as (bytes & msg & signed & H1 & _ & H & _).
  - reflexivity.
  - repeat constructor; by vm_compute.
  - repeat constructor; by vm_compute.
  - by vm_compute.
  - exists bytes, msg. by split.
Defined.

Lemma parsed_message_safe_witness :
  exists msg, parse
    ([x00; x01; x00; x08] ++ be_bytes 4 COOKIE ++ sample_tid ++ [x00; x24; x00; x04; x00; x00; x00; x01]) = Ok msg /\
    total_on msg Priority.
Proof.
  eexists. split; [vm_compute; reflexivity|].
  eapply (parsed_message_safe (W := big_endian) toy_digest toy_digest
    ([x00; x01; x00; x08] ++ be_bytes 4 COOKIE ++ sample_tid ++ [x00; x24; x00; x04; x00; x00; x00; x01])).
  vm_compute. reflexivity.
Defined.
