(* ===== verification/Channels.v ===== *)
(** * Channels of the runtime

    The oneshot channels of tokio, which tasks use to hand something over once,
    and the end of an mpsc channel whose senders are gone. *)
From stdpp Require Import gmap.
From S2P Require Import Prelude.

(** [std::task::Poll] *)
Inductive Poll (A : Type) := Ready (a : A) | Pending.
Arguments Ready {A} a.
Arguments Pending {A}.

(** ** oneshot

    [Cells] are the channels of the program, each known by a number. A value is
    sent once, which uses up the sender: it fails when the receiver is gone. The
    receiver gets the value, or an error when the sender is gone without it. *)
Class Oneshots (V : Type) := {
  Cells : Type;
  no_cells : Cells;
  oneshot_channel : Cells -> nat * Cells;
  oneshot_send : nat -> V -> Cells -> bool * Cells;
  oneshot_poll : nat -> Cells -> Poll (result unit V);
  drop_sender : nat -> Cells -> Cells;
  drop_receiver : nat -> Cells -> Cells }.
Arguments Cells V {_}.

Inductive Cell (V : Type) := NoCell | Waiting | Sent (v : V) | SenderGone | ReceiverGone.
Arguments NoCell {V}.
Arguments Waiting {V}.
Arguments Sent {V} v.
Arguments SenderGone {V}.
Arguments ReceiverGone {V}.

Definition cell_at {V} (i : nat) (x : Cell V) (f : nat -> Cell V) (j : nat) : Cell V :=
  if decide (i = j) then x else f j.

Class OneshotLaws {V} (O : Oneshots V) := {
  cell : Cells V -> nat -> Cell V;
  no_cells_law i : cell no_cells i = NoCell;
  channel_law c :
    cell c (oneshot_channel c).1 = NoCell /\
    forall j, cell (oneshot_channel c).2 j = cell_at (oneshot_channel c).1 Waiting (cell c) j;
  send_law i v c : cell c i = Waiting ->
    (oneshot_send i v c).1 = true /\ forall j, cell (oneshot_send i v c).2 j = cell_at i (Sent v) (cell c) j;
  send_gone_law i v c : cell c i = ReceiverGone ->
    (oneshot_send i v c).1 = false /\ forall j, j <> i -> cell (oneshot_send i v c).2 j = cell c j;
  poll_law i c : oneshot_poll i c =
    match cell c i with Sent v => Ready (Ok v) | SenderGone => Ready (Err tt) | _ => Pending end;
  drop_sender_law i c j :
    cell (drop_sender i c) j = match cell c i with Waiting => cell_at i SenderGone (cell c) j | _ => cell c j end;
  drop_receiver_law i c j :
    cell (drop_receiver i c) j = match cell c i with Waiting => cell_at i ReceiverGone (cell c) j | _ => cell c j end }.

Section facts.
Context {V : Type} {O : Oneshots V} {OL : OneshotLaws O}.

Lemma cell_at_ne (i j : nat) (x : Cell V) f : i <> j -> cell_at i x f j = f j.
Proof. intros. unfold cell_at. by rewrite decide_False. Qed.
Lemma cell_at_eq (i : nat) (x : Cell V) f : cell_at i x f i = x.
Proof. unfold cell_at. by rewrite decide_True. Qed.

Lemma drop_sender_ne i j c : j <> i -> cell (drop_sender i c) j = cell c j.
Proof. intros. rewrite drop_sender_law. destruct (cell c i); by rewrite ?cell_at_ne. Qed.
Lemma drop_receiver_ne i j c : j <> i -> cell (drop_receiver i c) j = cell c j.
Proof. intros. rewrite drop_receiver_law. destruct (cell c i); by rewrite ?cell_at_ne. Qed.
End facts.

(** ** mpsc: what the receiver of a channel that carries nothing gets, by the
    number of senders that are left *)
Class Mpsc := poll_recv : nat -> Poll (option Empty_set).
Class MpscLaws (M : Mpsc) : Prop := { poll_recv_law n : poll_recv n = if decide (n = 0%nat) then Ready None else Pending }.

(** ** Instances that compute: a map *)
Section map.
Context {V : Type}.

Definition map_cell (c : gmap nat (Cell V)) (i : nat) : Cell V := default NoCell (c !! i).
Definition map_set (i : nat) (x : Cell V) (c : gmap nat (Cell V)) : gmap nat (Cell V) :=
  match c !! i with Some Waiting => <[i := x]> c | _ => c end.

Definition map_send (i : nat) (v : V) (c : gmap nat (Cell V)) : bool * gmap nat (Cell V) :=
  match c !! i with Some Waiting => (true, <[i := Sent v]> c) | _ => (false, c) end.

#[export] Instance map_oneshots : Oneshots V := {|
  Cells := gmap nat (Cell V);
  no_cells := ∅;
  oneshot_channel c := let i := fresh (dom c) in (i, <[i := Waiting]> c);
  oneshot_send := map_send;
  oneshot_poll i c := match map_cell c i with Sent v => Ready (Ok v) | SenderGone => Ready (Err tt) | _ => Pending end;
  drop_sender i := map_set i SenderGone;
  drop_receiver i := map_set i ReceiverGone |}.

Lemma map_cell_insert i x c j : map_cell (<[i := x]> c) j = cell_at i x (map_cell c) j.
Proof.
  unfold map_cell, cell_at. case_decide as E; [by rewrite E, lookup_insert_eq|by rewrite lookup_insert_ne].
Qed.

Lemma map_cell_waiting c i : map_cell c i = Waiting <-> c !! i = Some Waiting.
Proof. unfold map_cell. destruct (c !! i) as [x|]; cbn; split; congruence. Qed.

Lemma map_set_law i x c j :
  map_cell (map_set i x c) j = match map_cell c i with Waiting => cell_at i x (map_cell c) j | _ => map_cell c j end.
Proof.
  unfold map_set, map_cell at 2. destruct (c !! i) as [[]|]; cbn [default from_option]; try done. apply map_cell_insert.
Qed.

Lemma map_send_law i v c : map_cell c i = Waiting ->
  (map_send i v c).1 = true /\ forall j, map_cell (map_send i v c).2 j = cell_at i (Sent v) (map_cell c) j.
Proof. intros H%map_cell_waiting. unfold map_send. rewrite H. split; [done|]. intros j. apply map_cell_insert. Qed.

Lemma map_send_gone i v c : map_cell c i = ReceiverGone ->
  (map_send i v c).1 = false /\ forall j, j <> i -> map_cell (map_send i v c).2 j = map_cell c j.
Proof. unfold map_cell at 1, map_send. by destruct (c !! i) as [[]|]. Qed.

#[export] Instance map_oneshot_laws : OneshotLaws map_oneshots.
Proof.
  refine {| cell := (map_cell : Cells V -> nat -> Cell V) |}.
  - done.
  - intros c. cbn [oneshot_channel map_oneshots fst snd]. split; [|intros j; apply map_cell_insert].
    unfold map_cell. pose proof (is_fresh (dom (c : gmap nat (Cell V)))) as Hf. apply not_elem_of_dom in Hf. by rewrite Hf.
  - apply map_send_law.
  - apply map_send_gone.
  - done.
  - intros. apply map_set_law.
  - intros. apply map_set_law.
Defined.
End map.

#[export] Instance count_mpsc : Mpsc := fun n => if decide (n = 0%nat) then Ready None else Pending.
#[export] Instance count_mpsc_laws : MpscLaws count_mpsc.
Proof. done. Qed.
