(* ===== verification/StunEndpoint.v ===== *)
(** * The STUN endpoint (media/stun/src/lib.rs, auth.rs)

    Requests that wait for their response, each in a task of its own: a task is
    a record that a poll advances, at a time in milliseconds. The user of the
    endpoint, who sends bytes and is given the messages that answer no request,
    is an argument. *)
From stdpp Require Import gmap.
From S2P Require Import Prelude Wire Text StunHeader StunMessage StunAttr StunAuth Channels.
Local Open Scope Z_scope.

Section endpoint.
Context {Ch : Oneshots Message.t} {IoError Transport : Type}.
(** [TransportInfo::reliable] and [StunEndpointUser::send_to], which ends at a time *)
Context (reliable : Transport -> bool).
Context (send_to : Z -> list byte -> SocketAddr -> Transport -> result IoError Z).

Record Request := { bytes : list byte; tsx_id : TransactionId; transport : Transport }.

Record IncomingMessage := { message : Message.t; source : SocketAddr; im_transport : Transport }.

(** The endpoint, with the channels of the program *)
Record StunEndpoint := { transactions : gmap TransactionId nat; cells : Cells Message.t }.

(** [StunEndpoint::new] *)
Definition new : StunEndpoint := {| transactions := ∅; cells := no_cells |}.

(** [HashMap::insert] and [remove]; the sender of a transaction that was there is dropped. *)
Definition drop_transaction (t : option nat) (c : Cells Message.t) : Cells Message.t :=
  match t with Some sender => drop_sender sender c | None => c end.
Definition insert_transaction (id : TransactionId) (sender : nat) (e : StunEndpoint) : StunEndpoint :=
  {| transactions := <[id := sender]> (transactions e); cells := drop_transaction (transactions e !! id) (cells e) |}.
Definition remove_transaction (id : TransactionId) (e : StunEndpoint) : StunEndpoint :=
  {| transactions := delete id (transactions e); cells := drop_transaction (transactions e !! id) (cells e) |}.

(** ** [send_request]

    Where the future is suspended: in [timeout(delta, &mut rx)], either the one
    of a reliable transport or one of the loop, with the rounds that are left. *)
Inductive Point := Reliable | Attempt (rounds : nat).
Record Sending := {
  request : Request;
  target : SocketAddr;
  rx : nat;
  delta : Z;
  point : Point;
  deadline : Z }.

Inductive Outcome :=
| Suspended (s : Sending)
| Done (r : result IoError (option Message.t))
| Panicked.

(** What has been given to [send_to], and when *)
Definition Sends : Type := list (Z * list byte * SocketAddr).

(** A round of the loop: [rounds] are to come, this one included. *)
Definition attempt (rounds : nat) (now : Z) (req : Request) (addr : SocketAddr) (receiver : nat) (delta : Z)
    : Outcome * Sends :=
  match rounds with
  | O => (Done (Ok None), [])
  | S rounds =>
      (match send_to now (bytes req) addr (transport req) with
       | Err e => Done (Err e)
       | Ok sent =>
           Suspended {| request := req; target := addr; rx := receiver; delta := delta; point := Attempt rounds;
                        deadline := sent + delta |}
       end, [(now, bytes req, addr)])
  end.

(** From the call to the first suspension *)
Definition start (now : Z) (req : Request) (addr : SocketAddr) (e : StunEndpoint)
    : Outcome * Sends * nat * StunEndpoint :=
  let '(channel, c) := oneshot_channel (cells e) in
  let e := insert_transaction (tsx_id req) channel {| transactions := transactions e; cells := c |} in
  let delta := 500 in
  (if reliable (transport req)
   then (Suspended {| request := req; target := addr; rx := channel; delta := delta; point := Reliable;
                      deadline := now + delta |}, [])
   else attempt 7 now req addr channel delta, channel, e).

(** From a suspension to the next: a response that is there comes before the timeout. *)
Definition poll (now : Z) (s : Sending) (e : StunEndpoint) : Outcome * Sends :=
  match oneshot_poll (rx s) (cells e) with
  | Ready (Ok response) => (Done (Ok (Some response)), [])
  | Ready (Err _) => (Panicked, [])
  | Pending =>
      if decide (deadline s <= now) then
        match point s with
        | Reliable => (Done (Ok None), [])
        | Attempt rounds => attempt rounds now (request s) (target s) (rx s) (delta s * 2)
        end
      else (Suspended s, [])
  end.

(** What is dropped when the future ends or is dropped: the receiver, then the guard *)
Definition finish (id : TransactionId) (receiver : nat) (e : StunEndpoint) : StunEndpoint :=
  remove_transaction id {| transactions := transactions e; cells := drop_receiver receiver (cells e) |}.

(** ** [receive]: whether the message is left to [StunEndpointUser::receive] *)
Definition receive (msg : Message.t) (addr : SocketAddr) (tp : Transport) (e : StunEndpoint)
    : option IncomingMessage * StunEndpoint :=
  match transactions e !! Message.transaction_id msg with
  | Some sender =>
      (None, {| transactions := delete (Message.transaction_id msg) (transactions e);
                cells := (oneshot_send sender msg (cells e)).2 |})
  | None => (Some {| message := msg; source := addr; im_transport := tp |}, e)
  end.
End endpoint.
Arguments Request : clear implicits.
Arguments IncomingMessage : clear implicits.
Arguments Sending : clear implicits.
Arguments Outcome : clear implicits.

(** ** auth.rs *)
Inductive AuthError := AuthParse (e : Error) | MissingNonce | UnknownAlgorithm.

Inductive StunCredential :=
| ShortTerm (username password : str)
| LongTerm (realm username password : str).

(** [StunCredential::authenticate]; the builder is given by value, and dropped. *)
Section authenticate.
Context `{W : WireOps} (Sha1 Sha256 : Digest) (md5 sha256 : list byte -> list byte).

(** The two seals *)
Definition add_integrity (key : list byte) (msg : MessageBuilder.t) : exec MessageBuilder.t :=
  msg ← add_attr_with IntegritySha256 (Sha256Key key) msg;
  add_attr_with Integrity (Sha1Key key) msg.

(** The key of the long term credentials *)
Definition long_term_key (realm username password : str) (response : Message.t)
    : exec (result AuthError (list byte) * Message.t) :=
  '(alg, response) ← attribute PasswordAlgorithm response;
  Ret (match alg with
       | Some (Ok alg) =>
           if decide (algorithm alg = ALGORITHM_MD5) then Ok (long_term_password_md5 md5 username realm password)
           else if decide (algorithm alg = ALGORITHM_SHA256)
           then Ok (long_term_password_sha256 sha256 username realm password)
           else Err UnknownAlgorithm
       | Some (Err e) => Err (AuthParse e)
       | None => Ok (long_term_password_md5 md5 username realm password)
       end, response).

(** The builder as it is at the end of the call *)
Definition authenticated (c : StunCredential) (response : Message.t) (msg : MessageBuilder.t)
    : exec (result AuthError MessageBuilder.t * Message.t) :=
  match c with
  | ShortTerm username password =>
      msg ← add_attr (StringAttr username : Username) msg;
      msg ← add_integrity password msg;
      Ret (Ok msg, response)
  | LongTerm realm username password =>
      '(key, response) ← long_term_key realm username password response;
      match key with
      | Err e => Ret (Err e, response)
      | Ok key =>
          '(nonce, response) ← attribute Nonce response;
          match nonce with
          | None => Ret (Err MissingNonce, response)
          | Some (Err e) => Ret (Err (AuthParse e), response)
          | Some (Ok nonce) =>
              msg ← add_attr (nonce : Nonce) msg;
              msg ← add_attr (StringAttr realm : Realm) msg;
              msg ← add_attr (StringAttr username : Username) msg;
              msg ← add_integrity key msg;
              Ret (Ok msg, response)
          end
      end
  end.

Definition authenticate (c : StunCredential) (response : Message.t) (msg : MessageBuilder.t)
    : exec (result AuthError unit * Message.t) :=
  '(r, response) ← authenticated c response msg; Ret (_ ← r; Ok tt, response).
End authenticate.
