(* ===== verification/StunEndpointProps.v ===== *)
(** * What the STUN endpoint does

    Requests, responses and time in any order: no request is left behind, and a
    response goes to the request it answers. When a request is sent again, and
    what a message with credentials carries. *)
From stdpp Require Import gmap.
From S2P Require Import Prelude Wire Text StunHeader StunMessage StunAttr StunAuth Channels StunEndpoint.
Local Open Scope Z_scope.

Section world.
Context {Ch : Oneshots Message.t} {CL : OneshotLaws Ch} {IoError Transport : Type}.
Context (reliable : Transport -> bool).
Context (send_to : Z -> list byte -> SocketAddr -> Transport -> result IoError Z).
Local Notation Sending := (Sending Transport).
Local Notation start := (start reliable send_to).
Local Notation poll := (poll send_to).

(** The endpoint and the requests that are under way *)
Record World := { endpoint : StunEndpoint; running : gmap nat Sending; time : Z }.

Definition initial (now : Z) : World := {| endpoint := new; running := ∅; time := now |}.

Definition set_world (e : StunEndpoint) (r : gmap nat Sending) (w : World) : World :=
  {| endpoint := e; running := r; time := time w |}.

(** What becomes of the task [i], whose request is [id], after a call or a poll *)
Definition settle (i : nat) (id : TransactionId) (receiver : nat) (o : Outcome IoError Transport) (e : StunEndpoint)
    (w : World) : World :=
  match o with
  | Suspended s => set_world e (<[i := s]> (running w)) w
  | Done _ | Panicked => set_world (finish id receiver e) (delete i (running w)) w
  end.

(** One thing after the other: time passes; a request is made whose id no other one has; the
    future of a request is polled, or dropped; a message is received. *)
Inductive step : World -> World -> Prop :=
| step_time t w : time w <= t -> step w {| endpoint := endpoint w; running := running w; time := t |}
| step_start i req addr o sends receiver e w :
    running w !! i = None ->
    (forall j s, running w !! j = Some s -> tsx_id (request s) <> tsx_id req) ->
    start (time w) req addr (endpoint w) = (o, sends, receiver, e) ->
    step w (settle i (tsx_id req) receiver o e w)
| step_poll i s w :
    running w !! i = Some s ->
    step w (settle i (tsx_id (request s)) (rx s) (poll (time w) s (endpoint w)).1 (endpoint w) w)
| step_drop i s w :
    running w !! i = Some s ->
    step w (set_world (finish (tsx_id (request s)) (rx s) (endpoint w)) (delete i (running w)) w)
| step_receive msg addr (tp : Transport) w :
    step w (set_world (receive msg addr tp (endpoint w)).2 (running w) w).

Inductive reachable : World -> Prop :=
| reachable_initial now : reachable (initial now)
| reachable_step w w' : reachable w -> step w w' -> reachable w'.

(** ** The invariant *)
Definition waits (e : StunEndpoint) (s : Sending) : Prop :=
  transactions e !! tsx_id (request s) = Some (rx s) /\ cell (cells e) (rx s) = Waiting.
Definition answered (e : StunEndpoint) (s : Sending) (m : Message.t) : Prop :=
  transactions e !! tsx_id (request s) = None /\ cell (cells e) (rx s) = Sent m /\
  Message.transaction_id m = tsx_id (request s).

Record ok (w : World) : Prop := {
  ok_running i s : running w !! i = Some s -> waits (endpoint w) s \/ exists m, answered (endpoint w) s m;
  ok_ids i j s s' : running w !! i = Some s -> running w !! j = Some s' ->
    tsx_id (request s) = tsx_id (request s') \/ rx s = rx s' -> i = j;
  ok_known id tx : transactions (endpoint w) !! id = Some tx ->
    exists i s, running w !! i = Some s /\ tsx_id (request s) = id /\ rx s = tx }.

(** ** It is kept *)
Lemma attempt_suspended rounds now req addr receiver delta (s : Sending) :
  (attempt send_to rounds now req addr receiver delta).1 = Suspended s -> request s = req /\ rx s = receiver.
Proof. destruct rounds as [|rounds]; cbn; [done|]. destruct (send_to _ _ _ _); [|done]. by intros [= <-]. Qed.

Lemma poll_suspended now (s s' : Sending) e : (poll now s e).1 = Suspended s' -> request s' = request s /\ rx s' = rx s.
Proof.
  unfold StunEndpoint.poll. destruct (oneshot_poll _ _) as [[]|]; [done|done|]. case_decide; cbn.
  - destruct (point s); [done|]. apply attempt_suspended.
  - by intros [= <-].
Qed.

Lemma start_suspended now req addr e o sends receiver e' (s : Sending) :
  start now req addr e = (o, sends, receiver, e') -> o = Suspended s -> request s = req /\ rx s = receiver.
Proof.
  unfold StunEndpoint.start. destruct (oneshot_channel _) as [channel c]. intros H ->.
  destruct (reliable _); [by injection H as <- _ <- _|].
  destruct (attempt _ _ _ _ _ _ _) as [o' l'] eqn:E. injection H as -> <- <- <-.
  apply (attempt_suspended 7 now req addr channel 500). by rewrite E.
Qed.

(** What is dropped with a request concerns no other one. *)
Lemma finish_frame id receiver e id' receiver' :
  transactions e !! id = Some receiver \/ transactions e !! id = None -> id' <> id -> receiver' <> receiver ->
  transactions (finish id receiver e) !! id' = transactions e !! id' /\
  cell (cells (finish id receiver e)) receiver' = cell (cells e) receiver'.
Proof.
  intros Ht Hid Hrx. unfold finish, remove_transaction. cbn [transactions cells]. split; [by apply lookup_delete_ne|].
  destruct Ht as [-> | ->]; cbn [drop_transaction]; by rewrite ?drop_sender_ne, drop_receiver_ne.
Qed.

Lemma ok_at w i s : ok w -> running w !! i = Some s ->
  transactions (endpoint w) !! tsx_id (request s) = Some (rx s) \/
  transactions (endpoint w) !! tsx_id (request s) = None.
Proof. intros Hok Hi. destruct (ok_running _ Hok _ _ Hi) as [[]|(? & ? & _)]; auto. Qed.

Lemma ok_finish w i s : ok w -> running w !! i = Some s ->
  ok (set_world (finish (tsx_id (request s)) (rx s) (endpoint w)) (delete i (running w)) w).
Proof.
  intros Hok Hi. pose proof (ok_at _ _ _ Hok Hi) as Ht.
  assert (forall j s', delete i (running w) !! j = Some s' -> running w !! j = Some s' /\
    tsx_id (request s') <> tsx_id (request s) /\ rx s' <> rx s) as Hother.
  { intros j s' [Hne Hj]%lookup_delete_Some. split; [done|]. pose proof (ok_ids _ Hok _ _ _ _ Hj Hi). naive_solver. }
  split; cbn [endpoint running set_world].
  - intros j s' (Hj & Hid & Hrx)%Hother. destruct (finish_frame _ _ _ _ _ Ht Hid Hrx) as [E1 E2].
    unfold waits, answered. rewrite E1, E2. by apply (ok_running _ Hok j).
  - intros j k s1 s2 (Hj & _)%Hother (Hk & _)%Hother. by apply (ok_ids _ Hok).
  - intros id tx H. unfold finish, remove_transaction in H. cbn [transactions] in H. apply lookup_delete_Some in H as [Hne H]. destruct (ok_known _ Hok _ _ H) as (j & s' & Hj & <- & <-).
    exists j, s'. split; [|done]. apply lookup_delete_Some. split; [|done]. intros ->. congruence.
Qed.

Lemma ok_suspended w i (s s' : Sending) : ok w -> running w !! i = Some s -> request s' = request s -> rx s' = rx s ->
  ok (set_world (endpoint w) (<[i := s']> (running w)) w).
Proof.
  intros Hok Hi Hreq Hrx.
  assert (forall j t, <[i := s']> (running w) !! j = Some t ->
    exists t', running w !! j = Some t' /\ request t = request t' /\ rx t = rx t') as Hother.
  { intros j t [[<- <-]|[? ?]]%lookup_insert_Some; eauto. }
  split; cbn [endpoint running set_world].
  - intros j t (t' & Hj & E1 & E2)%Hother. unfold waits, answered. rewrite E1, E2. by apply (ok_running _ Hok j).
  - intros j k t1 t2 (t1' & Hj & -> & ->)%Hother (t2' & Hk & -> & ->)%Hother. by apply (ok_ids _ Hok).
  - intros id tx H. destruct (ok_known _ Hok _ _ H) as (j & t & Hj & <- & <-).
    destruct (decide (i = j)) as [<-|Hne].
    + exists i, s'. rewrite lookup_insert_eq. assert (t = s) as -> by congruence. by rewrite Hreq, Hrx.
    + exists j, t. by rewrite lookup_insert_ne.
Qed.

(** The call of a request, before its first round *)
Lemma ok_start w i req addr o sends receiver e (s0 : Sending) : ok w -> running w !! i = None ->
  (forall j s, running w !! j = Some s -> tsx_id (request s) <> tsx_id req) ->
  start (time w) req addr (endpoint w) = (o, sends, receiver, e) ->
  request s0 = req -> rx s0 = receiver -> ok (set_world e (<[i := s0]> (running w)) w).
Proof.
  intros Hok Hi Hnew Hs <- <-. unfold StunEndpoint.start in Hs.
  destruct (oneshot_channel (cells (endpoint w))) as [channel c] eqn:Ec.
  pose proof (channel_law (cells (endpoint w))) as [Hno Hc]. rewrite Ec in Hno, Hc. cbn [fst snd] in Hno, Hc.
  assert (transactions (endpoint w) !! tsx_id (request s0) = None) as Hid.
  { apply eq_None_not_Some. intros [tx E]. destruct (ok_known _ Hok _ _ E) as (j & s & Hj & Hs' & _). by apply Hnew in Hj. }
  assert (rx s0 = channel /\ transactions e = <[tsx_id (request s0) := channel]> (transactions (endpoint w)) /\
    cells e = c) as (Hrx & He & Hce).
  { unfold insert_transaction in Hs. cbn [transactions cells] in Hs. rewrite Hid in Hs. cbn [drop_transaction] in Hs.
    destruct (if reliable _ then _ else _). injection Hs as _ _ E1 E2. by subst e. }
  assert (forall j s, running w !! j = Some s -> rx s <> channel) as Hfresh.
  { intros j s Hj Heq. destruct (ok_running _ Hok _ _ Hj) as [[_ H]|(m & _ & H & _)]; rewrite Heq in H; congruence. }
  split; cbn [endpoint running set_world]; unfold waits, answered; rewrite ?He, ?Hce.
  - intros j s [[<- <-]|[Hne Hj]]%lookup_insert_Some.
    + left. by rewrite lookup_insert_eq, Hc, Hrx, cell_at_eq.
    + rewrite lookup_insert_ne by (pose proof (Hnew _ _ Hj); congruence).
      rewrite Hc, cell_at_ne by (by apply not_eq_sym, (Hfresh j)). by apply (ok_running _ Hok j).
  - intros j k t1 t2 [[<- <-]|[Hnj Hj]]%lookup_insert_Some [[<- <-]|[Hnk Hk]]%lookup_insert_Some; [done| | |by apply (ok_ids _ Hok)].
    + pose proof (Hnew _ _ Hk). pose proof (Hfresh _ _ Hk). intros []; congruence.
    + pose proof (Hnew _ _ Hj). pose proof (Hfresh _ _ Hj). intros []; congruence.
  - intros id tx [[<- <-]|[Hne H]]%lookup_insert_Some.
    + exists i, s0. by rewrite lookup_insert_eq.
    + destruct (ok_known _ Hok _ _ H) as (j & t & Hj & <- & <-). exists j, t. rewrite lookup_insert_ne by congruence. done.
Qed.

Lemma ok_receive w msg addr (tp : Transport) : ok w -> ok (set_world (receive msg addr tp (endpoint w)).2 (running w) w).
Proof.
  intros Hok. unfold receive. destruct (transactions (endpoint w) !! _) as [tx|] eqn:E; [|by destruct Hok].
  destruct (ok_known _ Hok _ _ E) as (i & s & Hi & Hid & <-).
  assert (cell (cells (endpoint w)) (rx s) = Waiting) as Hw.
  { destruct (ok_running _ Hok _ _ Hi) as [[]|(? & H & _)]; [done|]. congruence. }
  destruct (send_law (rx s) msg (cells (endpoint w)) Hw) as [_ Hc].
  split; cbn [endpoint running set_world snd]; unfold waits, answered; cbn [transactions cells].
  - intros j t Hj. destruct (decide (i = j)) as [<-|Hne].
    + right. exists msg. assert (t = s) as -> by congruence. rewrite <-Hid, lookup_delete_eq, Hc, cell_at_eq. done.
    + pose proof (ok_ids _ Hok _ _ _ _ Hi Hj) as Hd. rewrite Hc, cell_at_ne by tauto.
      rewrite lookup_delete_ne by (rewrite <-Hid; tauto). by apply (ok_running _ Hok j).
  - apply (ok_ids _ Hok).
  - intros id tx [_ H]%lookup_delete_Some. by apply (ok_known _ Hok).
Qed.

Lemma requests_ok w : reachable w -> ok w.
Proof.
  induction 1 as [now|w w' _ Hok Hs]; [by split|].
  destruct Hs as [t w _|i req addr o sends receiver e w Hi Hnew Hs|i s w Hi|i s w Hi|msg addr tp w].
  - by destruct Hok.
  - pose (s0 := {| request := req; target := addr; rx := receiver; delta := 0; point := Reliable; deadline := 0 |} : Sending).
    pose proof (ok_start w i req addr o sends receiver e s0 Hok Hi Hnew Hs eq_refl eq_refl) as H0.
    assert (ok (set_world (finish (tsx_id req) receiver e) (delete i (running w)) w)) as Hf.
    { pose proof (ok_finish _ i s0 H0 (lookup_insert_eq _ _ _)) as Hf. cbn [running set_world endpoint request rx s0] in Hf.
      rewrite delete_insert_eq in Hf. exact Hf. }
    destruct o as [s| |]; cbn [settle]; [|done|done].
    destruct (start_suspended _ _ _ _ _ _ _ _ s Hs eq_refl) as [E1 E2].
    by apply (ok_start w i req addr (Suspended s) sends receiver e).
  - destruct (poll _ _ _).1 as [s'| |] eqn:E; cbn [settle]; try by apply ok_finish.
    apply poll_suspended in E as []. by apply ok_suspended with s.
  - by apply ok_finish.
  - by apply ok_receive.
Qed.

(** ** When a request is sent *)

(** A request that is polled whenever its timeout is over: how it ends, when, and what has been sent *)
Fixpoint run (fuel : nat) (e : StunEndpoint) (now : Z) (x : Outcome IoError Transport * Sends)
    : Z * Outcome IoError Transport * Sends :=
  match fuel, x.1 with
  | S fuel, Suspended s =>
      let '(t, o, sends) := run fuel e (deadline s) (poll (deadline s) s e) in (t, o, x.2 ++ sends)
  | _, o => (now, o, x.2)
  end.

Lemma start_waits now req addr e o sends receiver e' : transactions e !! tsx_id req = None ->
  start now req addr e = (o, sends, receiver, e') ->
  (o, sends) = (if reliable (transport req)
                then (Suspended {| request := req; target := addr; rx := receiver; delta := 500; point := Reliable;
                                   deadline := now + 500 |}, [])
                else attempt send_to 7 now req addr receiver 500) /\
  transactions e' !! tsx_id req = Some receiver /\ cell (cells e') receiver = Waiting.
Proof.
  intros Hid. unfold StunEndpoint.start. pose proof (channel_law (cells e)) as [_ Hc].
  destruct (oneshot_channel (cells e)) as [channel c]. cbn [fst snd] in Hc.
  unfold insert_transaction. cbn [transactions cells]. rewrite Hid. cbn [drop_transaction].
  destruct (reliable _); [|destruct (attempt _ _ _ _ _ _ _) as [o' sends'] eqn:E];
    intros [= <- <- <- <-]; cbn [transactions cells]; by rewrite ?E, lookup_insert_eq, Hc, cell_at_eq.
Qed.

Lemma poll_waiting t (s : Sending) e : cell (cells e) (rx s) = Waiting -> deadline s <= t ->
  poll t s e = match point s with
               | Reliable => (Done (Ok None), [])
               | Attempt rounds => attempt send_to rounds t (request s) (target s) (rx s) (delta s * 2)
               end.
Proof. intros Hw Ht. unfold StunEndpoint.poll. by rewrite poll_law, Hw, decide_True. Qed.

Lemma run_rounds rounds now req addr receiver d e :
  (forall t bytes addr tp, send_to t bytes addr tp = Ok t) -> cell (cells e) receiver = Waiting ->
  run (S rounds) e now (attempt send_to rounds now req addr receiver d) =
    (now + d * (2 ^ Z.of_nat rounds - 1), Done (Ok None),
     (fun k => (now + d * (2 ^ Z.of_nat k - 1), bytes req, addr)) <$> seq 0 rounds).
Proof.
  intros Hsend Hw. revert now d. induction rounds as [|rounds IH]; intros now d.
  { cbn. do 2 f_equal. lia. }
  remember (S rounds) as n eqn:Hn. cbn [run]. rewrite Hn. cbn [attempt fst snd]. rewrite Hsend. subst n.
  rewrite poll_waiting by (cbn; done || lia). cbn [point request target rx delta deadline].
  rewrite IH. cbn [seq fmap list_fmap app]. rewrite <-fmap_S_seq, <-list_fmap_compose. f_equal; [f_equal|].
  - rewrite Nat2Z.inj_succ, Z.pow_succ_r by lia. lia.
  - f_equal; [do 2 f_equal; cbn; lia|]. apply list_fmap_ext. intros _ k _. cbn [compose]. do 2 f_equal.
    rewrite Nat2Z.inj_succ, Z.pow_succ_r by lia. lia.
Qed.

(** C18: A request that gets no response, over a transport that sends at once: it is sent seven times, half
    a second after the call for the first repetition and each time twice as long after the one before, and
    is given up 63.5 seconds after the call. Over a reliable transport it is not sent at all, and given up
    after half a second. *)
Theorem stun_request_schedule now req addr e o sends receiver e' :
  (forall t bytes addr tp, send_to t bytes addr tp = Ok t) ->
  transactions e !! tsx_id req = None ->
  start now req addr e = (o, sends, receiver, e') ->
  run 8 e' now (o, sends) =
    if reliable (transport req) then (now + 500, Done (Ok None), [])
    else (now + 63500, Done (Ok None),
          (fun t => (now + t, bytes req, addr)) <$> [0; 500; 1500; 3500; 7500; 15500; 31500]).
Proof.
  intros Hsend Hid Hs. destruct (start_waits _ _ _ _ _ _ _ _ Hid Hs) as (-> & _ & Hw).
  destruct (reliable _).
  - remember 7%nat as n. cbn [run fst snd]. rewrite poll_waiting by (cbn; done || lia). by destruct n.
  - by rewrite run_rounds.
Qed.

(** A request with the id of one that waits takes the sender of the other, which panics. *)
Lemma duplicate_request_panics now req addr e o sends receiver e' (s : Sending) t :
  waits e s -> tsx_id req = tsx_id (request s) -> start now req addr e = (o, sends, receiver, e') ->
  (poll t s e').1 = Panicked.
Proof.
  intros [Ht Hw] Hid Hs. unfold StunEndpoint.start in Hs. pose proof (channel_law (cells e)) as [Hno Hc].
  destruct (oneshot_channel (cells e)) as [channel c]. cbn [fst snd] in Hno, Hc.
  unfold insert_transaction in Hs. cbn [transactions cells] in Hs. rewrite Hid, Ht in Hs. cbn [drop_transaction] in Hs.
  destruct (if reliable _ then _ else _) as [o' sends']. injection Hs as _ _ _ <-.
  unfold StunEndpoint.poll. cbn [cells]. rewrite poll_law, drop_sender_law.
  assert (channel <> rx s) by congruence.
  by rewrite !Hc, !cell_at_ne, Hw, cell_at_eq by done.
Qed.

(** C17: A request that is under way gets the response to it, and nothing else. In every state the endpoint
    can get to, with the requests that are under way at the same time having different ids: no request
    panics, and the response it ends with carries its id; a message that answers a request that has none
    yet is what the next poll of that request ends with, whenever that is, and every other message is left
    to the user; and the endpoint keeps nothing of a request that has ended or has been dropped. *)
Theorem stun_response_matched w : reachable w ->
  (forall i s t, running w !! i = Some s ->
     (poll t s (endpoint w)).1 <> Panicked /\
     forall m, (poll t s (endpoint w)).1 = Done (Ok (Some m)) -> Message.transaction_id m = tsx_id (request s)) /\
  (forall msg addr (tp : Transport), let '(left_over, e) := receive msg addr tp (endpoint w) in
     (left_over = None /\ exists i s, running w !! i = Some s /\ Message.transaction_id msg = tsx_id (request s) /\
        forall t, poll t s e = (Done (Ok (Some msg)), [])) \/
     (left_over = Some {| message := msg; source := addr; im_transport := tp |} /\ e = endpoint w /\
        forall i s, running w !! i = Some s -> Message.transaction_id msg = tsx_id (request s) ->
          exists m, forall t, poll t s e = (Done (Ok (Some m)), []))) /\
  (forall id, is_Some (transactions (endpoint w) !! id) ->
     exists i s, running w !! i = Some s /\ tsx_id (request s) = id).
Proof.
  intros Hok%requests_ok. split; [|split].
  - intros i s t Hi. unfold StunEndpoint.poll. rewrite poll_law.
    destruct (ok_running _ Hok _ _ Hi) as [[_ ->]|(m & _ & -> & Hid)].
    + case_decide; [|by split].
      assert (forall n, (attempt send_to n t (request s) (target s) (rx s) (delta s * 2)).1 <> Panicked /\
        forall m, (attempt send_to n t (request s) (target s) (rx s) (delta s * 2)).1 <> Done (Ok (Some m))).
      { intros [|n]; cbn; [by split|]. by destruct (send_to _ _ _ _). }
      destruct (point s) as [|n]; [by split|]. split; [naive_solver|]. intros m Hm. by apply H0 in Hm.
    + split; [done|]. cbn. intros m' [= <-]. exact Hid.
  - intros msg addr tp. unfold receive. destruct (transactions (endpoint w) !! _) as [tx|] eqn:E.
    + left. split; [done|]. destruct (ok_known _ Hok _ _ E) as (i & s & Hi & Hid & <-). exists i, s.
      split; [done|]. split; [done|]. intros t. unfold StunEndpoint.poll. rewrite poll_law. cbn [cells].
      destruct (ok_running _ Hok _ _ Hi) as [[_ Hw]|(? & H & _)]; [|congruence].
      destruct (send_law (rx s) msg (cells (endpoint w)) Hw) as [_ ->]. by rewrite cell_at_eq.
    + right. split; [done|]. split; [done|]. intros i s Hi Hid.
      destruct (ok_running _ Hok _ _ Hi) as [[H _]|(m & _ & H & _)]; [congruence|].
      exists m. intros t. unfold StunEndpoint.poll. by rewrite poll_law, H.
  - intros id [tx H]. destruct (ok_known _ Hok _ _ H) as (i & s & Hi & Hid & _). eauto.
Qed.
End world.

(** ** Examples *)
Section examples.
Definition at_once (t : Z) (_ : list byte) (_ : SocketAddr) (_ : bool) : result unit Z := Ok t.
Definition sample_request (reliable : bool) : Request bool :=
  {| bytes := [x01]; tsx_id := sample_tid; transport := reliable |}.
Definition sample_target : SocketAddr := V4 7 3478.
Definition started (reliable : bool) := start id at_once 0 (sample_request reliable) sample_target new.

Definition under_way : World (Transport := bool) :=
  settle 0 sample_tid (started false).1.2 (started false).1.1.1 (started false).2 (initial 0).

Lemma under_way_reachable : reachable id at_once under_way.
Proof.
  apply reachable_step with (initial 0); [constructor|]. apply (step_start _ _ 0 (sample_request false) sample_target _ (started false).1.1.2); done.
Qed.

Lemma stun_response_matched_witness : exists i s, running under_way !! i = Some s /\ tsx_id (request s) = sample_tid.
Proof.
  destruct (stun_response_matched id at_once under_way under_way_reachable) as (_ & _ & H).
  apply H. vm_compute. by eexists.
Defined.

Lemma stun_request_schedule_witness :
  run at_once 8 (started false).2 0 (started false).1.1 =
    (63500, Done (Ok None), (fun t => (t, [x01], sample_target)) <$> [0; 500; 1500; 3500; 7500; 15500; 31500]) /\
  run at_once 8 (started true).2 0 (started true).1.1 = (500, Done (Ok None), []).
Proof.
  split; [apply (stun_request_schedule id at_once 0 (sample_request false) sample_target new _ _ (started false).1.2)
         |apply (stun_request_schedule id at_once 0 (sample_request true) sample_target new _ _ (started true).1.2)]; done.
Defined.
End examples.
