(* ===== verification/IceStun.v ===== *)
(** * STUN in the ICE agent (media/ice/src/stun.rs)

    The retransmission schedule, the messages the agent makes, the check of a
    received message, and the bindings with STUN servers. Times are in
    nanoseconds; the clock and the random transaction ids are arguments. *)
From S2P Require Import Prelude Wire Text StunHeader StunMessage StunAttr StunAuth.
Local Open Scope Z_scope.

(** ** lib.rs: the types both files use *)
Inductive Component := Rtp | Rtcp.

#[export] Instance Component_eq_dec : EqDecision Component.
Proof. solve_decision. Defined.

Definition component_num (c : Component) : Z := match c with Rtp => 1 | Rtcp => 2 end.

Inductive IceGatheringState := GatheringNew | Gathering | GatheringComplete.
Inductive IceConnectionState := ConnFailed | ConnDisconnected | ConnNew | ConnChecking | ConnConnected.

#[export] Instance IceGatheringState_eq_dec : EqDecision IceGatheringState.
Proof. solve_decision. Defined.
#[export] Instance IceConnectionState_eq_dec : EqDecision IceConnectionState.
Proof. solve_decision. Defined.

(** [std::net::IpAddr] *)
Inductive IpAddr := IPv4 (ip : Z) | IPv6 (ip : Z).

#[export] Instance IpAddr_eq_dec : EqDecision IpAddr.
Proof. solve_decision. Defined.

(** [SocketAddr::ip] *)
Definition addr_ip (a : SocketAddr) : IpAddr :=
  match a with V4 ip _ => IPv4 ip | V6 ip _ _ _ => IPv6 ip end.

Inductive IceEvent :=
| GatheringStateChanged (old new : IceGatheringState)
| ConnectionStateChanged (old new : IceConnectionState)
| UseAddr (component : Component) (target : SocketAddr)
| SendData (component : Component) (data : list byte) (source : option IpAddr) (target : SocketAddr).

Record IceCredentials := { ufrag : str; pwd : str }.

(** ** Durations *)
Definition Instant := Z.
Definition Duration := Z.
Definition from_millis (n : Z) : Duration := n * 1000000.
Definition from_secs (n : Z) : Duration := n * 1000000000.
Definition as_millis (d : Duration) : Z := d / 1000000.

Record StunConfig := {
  initial_rto : Duration; max_retransmits : Z; max_rto : Duration;
  binding_refresh_interval : Duration }.

(** [StunConfig::new] *)
Definition stun_config_new : StunConfig := {|
  initial_rto := from_millis 250; max_retransmits := 7; max_rto := from_secs 3;
  binding_refresh_interval := from_secs 20 |}.

(** [StunConfig::retransmit_delta]: the shift is on [u128], the result must
    be a [u64]. *)
Definition retransmit_delta (self : StunConfig) (attempts : Z) : exec Duration :=
  ms ← unwrap_res (try_from_uint (E := Error) 64 TryFromInt
                     (wrap 128 (Z.shiftl (as_millis (initial_rto self)) (attempts mod 128))));
  Ret (Z.min (from_millis ms) (max_rto self)).

(** [checked_duration_since(now).unwrap_or(ZERO)] *)
Definition duration_until (at_ now : Instant) : Duration := saturating_sub at_ now.

(** ** Messages *)
Section messages.
Context `{W : WireOps} (Sha1 : Digest).
#[local] Existing Instance MessageIntegrity_attr.

(** [format!("{}:{}", a, b)] *)
Definition username_of (a b : str) : str := a ++ [x3a] ++ b.

Definition Role_Conflict : str := [x52; x6f; x6c; x65; x20; x43; x6f; x6e; x66; x6c; x69; x63; x74].

(** [make_binding_request]; of the local candidate only the priority is read. *)
Definition make_binding_request (transaction_id : TransactionId)
    (local_credentials remote_credentials : IceCredentials) (local_priority : Z)
    (is_controlling : bool) (control_tie_breaker : Z) (use_candidate : bool) : exec (list byte) :=
  let b := builder_new Request Binding transaction_id in
  let username := username_of (ufrag remote_credentials) (ufrag local_credentials) in
  b ← add_attr (A := Username) (StringAttr username) b;
  b ← add_attr (Prio local_priority) b;
  b ← (if is_controlling then add_attr (Controlling control_tie_breaker) b
       else add_attr (Controlled control_tie_breaker) b);
  b ← (if use_candidate then add_attr UseCand b else Ret b);
  b ← add_attr_with Integrity (Sha1Key (pwd remote_credentials)) b;
  b ← add_attr Fingerprint_ b;
  finish b.

(** [make_success_response] *)
Definition make_success_response (transaction_id : TransactionId) (local_credentials : IceCredentials)
    (source : SocketAddr) : exec (list byte) :=
  let b := builder_new Success Binding transaction_id in
  b ← add_attr (XorMapped source) b;
  b ← add_attr_with Integrity (Sha1Key (pwd local_credentials)) b;
  b ← add_attr Fingerprint_ b;
  finish b.

(** [make_role_error]: of the class Success, as in the code. *)
Definition make_role_error (transaction_id : TransactionId)
    (local_credentials remote_credentials : IceCredentials) (source : SocketAddr)
    (is_controlling : bool) (control_tie_breaker : Z) : exec (list byte) :=
  let b := builder_new Success Binding transaction_id in
  let username := username_of (ufrag local_credentials) (ufrag remote_credentials) in
  b ← add_attr (A := Username) (StringAttr username) b;
  b ← add_attr {| number := 487; reason := Role_Conflict |} b;
  b ← (if is_controlling then add_attr (Controlling control_tie_breaker) b
       else add_attr (Controlled control_tie_breaker) b);
  b ← add_attr (XorMapped source) b;
  b ← add_attr_with Integrity (Sha1Key (pwd remote_credentials)) b;
  b ← add_attr Fingerprint_ b;
  finish b.

(** [is_some_and(|r| r.is_ok())] *)
Definition passed {A} (o : option (result Error A)) : bool :=
  match o with Some r => is_ok r | None => false end.

Definition is_request (c : Class_) : bool :=
  match c with Request | Indication => true | Success | ErrorClass => false end.

(** [verify_integrity] *)
Definition verify_integrity (local_credentials remote_credentials : IceCredentials)
    (stun_msg : Message.t) : exec (bool * Message.t) :=
  let is_request := is_request (Message.class stun_msg) in
  let key := if is_request then pwd local_credentials else pwd remote_credentials in
  '(r, stun_msg) ← attribute_with MessageIntegrity (Sha1Key key) stun_msg;
  if negb (passed r) then Ret (false, stun_msg)
  else if is_request then
    let expected_username := username_of (ufrag local_credentials) (ufrag remote_credentials) in
    '(username, stun_msg) ← attribute Username stun_msg;
    match username with
    | Some (Ok (StringAttr username)) =>
        if decide (username <> expected_username) then Ret (false, stun_msg) else Ret (true, stun_msg)
    | Some (Err _) | None => Ret (false, stun_msg)
    end
  else Ret (true, stun_msg).
End messages.

(** ** Bindings with STUN servers *)
Inductive StunServerBindingState :=
| BindingWaiting
| BindingInProgress (transaction_id : TransactionId) (stun_request : list byte)
    (retransmit_at : Instant) (retransmits : Z)
| WaitingForRefresh (refresh_at : Instant)
| BindingFailed.

Record StunServerBinding := {
  server : SocketAddr;
  binding_component : Component;
  binding_state : StunServerBindingState;
  last_mapped_addr : option SocketAddr }.

(** [StunServerBinding::new] *)
Definition binding_new (server : SocketAddr) (component : Component) : StunServerBinding := {|
  server := server; binding_component := component; binding_state := BindingWaiting;
  last_mapped_addr := None |}.

Definition set_binding (state : StunServerBindingState) (mapped : option SocketAddr)
    (self : StunServerBinding) : StunServerBinding := {|
  server := server self; binding_component := binding_component self; binding_state := state;
  last_mapped_addr := mapped |}.

(** [StunServerBinding::is_completed] *)
Definition is_completed (self : StunServerBinding) : bool :=
  bool_decide (is_Some (last_mapped_addr self)) ||
  match binding_state self with BindingFailed => true | _ => false end.

(** [StunServerBinding::timeout] *)
Definition binding_timeout (now : Instant) (self : StunServerBinding) : option Duration :=
  match binding_state self with
  | BindingWaiting => Some 0
  | BindingInProgress _ _ retransmit_at _ => Some (duration_until retransmit_at now)
  | WaitingForRefresh refresh_at => Some (duration_until refresh_at now)
  | BindingFailed => None
  end.

(** [StunServerBinding::wants_stun_response] *)
Definition wants_stun_response (transaction_id : TransactionId) (self : StunServerBinding) : bool :=
  match binding_state self with
  | BindingInProgress tsx_id _ _ _ => bool_decide (transaction_id = tsx_id)
  | _ => false
  end.

Section bindings.
Context `{W : WireOps}.

(** [StunServerBinding::start_binding_request] with the drawn transaction id;
    the events are returned. *)
Definition start_binding_request (transaction_id : TransactionId) (now : Instant)
    (stun_config : StunConfig) (self : StunServerBinding) : exec (list IceEvent * StunServerBinding) :=
  let b := builder_new Request Binding transaction_id in
  b ← add_attr Fingerprint_ b;
  stun_request ← finish b;
  d ← retransmit_delta stun_config 0;
  Ret ([SendData (binding_component self) stun_request None (server self)],
       set_binding (BindingInProgress transaction_id stun_request (now + d) 0)
         (last_mapped_addr self) self).

(** [StunServerBinding::poll] *)
Definition binding_poll (transaction_id : TransactionId) (now : Instant) (stun_config : StunConfig)
    (self : StunServerBinding) : exec (list IceEvent * StunServerBinding) :=
  match binding_state self with
  | BindingWaiting => start_binding_request transaction_id now stun_config self
  | BindingInProgress tsx_id stun_request retransmit_at retransmits =>
      if decide (retransmit_at > now) then Ret ([], self)
      else if decide (retransmits >= max_retransmits stun_config) then
        Ret ([], set_binding BindingFailed None self)
      else
        let retransmits := retransmits + 1 in
        d ← retransmit_delta stun_config retransmits;
        Ret ([SendData (binding_component self) stun_request None (server self)],
             set_binding (BindingInProgress tsx_id stun_request (retransmit_at + d) retransmits)
               (last_mapped_addr self) self)
  | WaitingForRefresh refresh_at =>
      if decide (now > refresh_at) then start_binding_request transaction_id now stun_config self
      else Ret ([], self)
  | BindingFailed => Ret ([], self)
  end.

(** [StunServerBinding::receive_stun_response]: a malformed address panics. *)
Definition receive_stun_response (now : Instant) (stun_config : StunConfig) (stun_msg : Message.t)
    (self : StunServerBinding) : exec (option SocketAddr * StunServerBinding) :=
  '(r, _) ← attribute XorMappedAddress stun_msg;
  match r with
  | None => Ret (None, self)
  | Some r =>
      '(XorMapped mapped) ← unwrap_res r;
      Ret (Some mapped,
           set_binding (WaitingForRefresh (now + binding_refresh_interval stun_config)) (Some mapped) self)
  end.
End bindings.

(** ** The retransmission schedule *)

(** The delay before retransmission [n] is 250 ms doubled [n] times and
    capped at 3 s; no shift or conversion of the schedule overflows or panics
    as long as the number of retransmissions stays below 57 (the agent stops
    at 7), and the delay never decreases. *)
Theorem retransmit_delta_schedule (n : Z) :
  0 <= n <= 56 ->
  retransmit_delta stun_config_new n = Ret (Z.min (from_millis (250 * 2 ^ n)) (from_secs 3)) /\
  Z.min (from_millis (250 * 2 ^ n)) (from_secs 3) <= Z.min (from_millis (250 * 2 ^ (n + 1))) (from_secs 3) /\
  (4 <= n -> retransmit_delta stun_config_new n = Ret (from_secs 3)).
Proof.
  intros Hn. assert (1 <= 2 ^ n <= 2 ^ 56) as Hp.
  { change 1 with (2 ^ 0). split; apply Z.pow_le_mono_r; lia. }
  assert (retransmit_delta stun_config_new n =
    Ret (Z.min (from_millis (250 * 2 ^ n)) (from_secs 3))) as E.
  { unfold retransmit_delta. rewrite (Z.mod_small n) by lia. rewrite Z.shiftl_mul_pow2 by lia.
    change (as_millis (initial_rto stun_config_new)) with 250.
    rewrite wrap_id by (unfold uint; lia). unfold try_from_uint.
    rewrite decide_True; [done|]. unfold uint. change (2 ^ 64) with (256 * 2 ^ 56). lia. }
  split; [exact E|]. split.
  - rewrite Z.pow_add_r by lia. unfold from_millis. lia.
  - intros H4. rewrite E. f_equal. apply Z.min_r.
    assert (2 ^ 4 <= 2 ^ n) by (apply Z.pow_le_mono_r; lia).
    unfold from_millis, from_secs. change (2 ^ 4) with 16 in *. lia.
Qed.

Lemma retransmit_delta_schedule_witness :
  retransmit_delta stun_config_new 3 = Ret (from_millis 2000) /\
  retransmit_delta stun_config_new 7 = Ret (from_secs 3).
Proof.
  split; [apply (retransmit_delta_schedule 3); lia|apply (retransmit_delta_schedule 7); lia].
Defined.

(** ** Messages between two agents *)
Section peers.
Context `{WL : WireLaws} (Sha1 : Digest) `{!DigestLaws Sha1}.
#[local] Existing Instance MessageIntegrity_attr.

(** Credentials that fit a message: [String]s of the length that
    [IceCredentials::random] draws, or up to 256 bytes. *)
Definition cred_ok (c : IceCredentials) : Prop :=
  utf8_valid (ufrag c) = true /\ (length (ufrag c) <= 256)%nat.

Lemma username_valid a b :
  cred_ok a -> cred_ok b ->
  utf8_valid (username_of (ufrag a) (ufrag b)) = true /\
  (length (username_of (ufrag a) (ufrag b)) <= 513)%nat.
Proof.
  intros [Ha Hla] [Hb Hlb]. unfold username_of. split.
  - by rewrite utf8_valid_app, utf8_valid_app.
  - rewrite !length_app. cbn [length]. lia.
Qed.

(** The attributes of the messages the agent makes. *)
Definition role_attr (is_controlling : bool) (tb : Z) : any_attr :=
  if is_controlling then AnyAttr (Controlling tb) tt else AnyAttr (Controlled tb) tt.

Definition request_attrs (local remote : IceCredentials) (prio : Z) (ctrl : bool) (tb : Z) (uc : bool)
    : list any_attr :=
  [AnyAttr (StringAttr (ty := 0x0006) (username_of (ufrag remote) (ufrag local))) tt;
   AnyAttr (Prio prio) tt; role_attr ctrl tb] ++ (if uc then [AnyAttr UseCand tt] else []).

Lemma make_binding_request_sealed tid local remote prio ctrl tb uc :
  make_binding_request Sha1 tid local remote prio ctrl tb uc =
    build_sealed Sha1 Request Binding tid (request_attrs local remote prio ctrl tb uc) (pwd remote).
Proof.
  unfold make_binding_request, build_sealed, request_attrs, add_attr, Username.
  destruct ctrl, uc; cbn [role_attr app add_attrs add_any]; by repeat
    match goal with |- context [(?m ≫= _) = _] => destruct m; cbn [mbind exec_bind]; [|done] end.
Qed.

Definition success_attrs (source : SocketAddr) : list any_attr := [AnyAttr (XorMapped source) tt].

Lemma make_success_response_sealed tid local source :
  make_success_response Sha1 tid local source =
    build_sealed Sha1 Success Binding tid (success_attrs source) (pwd local).
Proof.
  unfold make_success_response, build_sealed, success_attrs, add_attr. cbn [add_attrs add_any].
  by repeat match goal with |- context [(?m ≫= _) = _] => destruct m; cbn [mbind exec_bind]; [|done] end.
Qed.

Definition role_error_attrs (local remote : IceCredentials) (source : SocketAddr) (ctrl : bool) (tb : Z)
    : list any_attr :=
  [AnyAttr (StringAttr (ty := 0x0006) (username_of (ufrag local) (ufrag remote))) tt;
   AnyAttr {| number := 487; reason := Role_Conflict |} tt; role_attr ctrl tb;
   AnyAttr (XorMapped source) tt].

Lemma make_role_error_sealed tid local remote source ctrl tb :
  make_role_error Sha1 tid local remote source ctrl tb =
    build_sealed Sha1 Success Binding tid (role_error_attrs local remote source ctrl tb) (pwd remote).
Proof.
  unfold make_role_error, build_sealed, role_error_attrs, add_attr, Username.
  destruct ctrl; cbn [role_attr app add_attrs add_any]; by repeat
    match goal with |- context [(?m ≫= _) = _] => destruct m; cbn [mbind exec_bind]; [|done] end.
Qed.

Lemma value_length_mac_bound n : (n <= 1000)%nat -> uint 16 (Z.of_nat (n + 4 + output_size + 8)).
Proof. intros Hn. destruct output_size_bound as [Ho _]. unfold uint. lia. Qed.

Lemma encode_tlv_length_bound a n : (length a.2 <= n)%nat -> (length (encode_tlv a) <= 7 + n)%nat.
Proof. intros H. rewrite length_encode_tlv. pose proof (pad_lt (length a.2)). lia. Qed.

Lemma role_attr_length ctrl tb id : length (encode_tlv (any_tlv id (role_attr ctrl tb))) = 12%nat.
Proof. by destruct ctrl. Qed.

Lemma xor_tlv_length id a :
  (length (encode_tlv (any_tlv id (AnyAttr (XorMapped a) tt))) <= 31)%nat.
Proof.
  apply (encode_tlv_length_bound _ 24). cbn [any_tlv snd value XorMappedAddress_plain].
  unfold xor_bytes, addr_bytes. destruct a; rewrite !length_app, !length_be_bytes; lia.
Qed.

Lemma request_sealed tid local remote prio ctrl tb uc :
  length tid = 12%nat -> cred_ok local -> cred_ok remote -> uint 32 prio -> uint 64 tb ->
  exists msg, sealed_message Sha1 Request Binding tid
    (request_attrs local remote prio ctrl tb uc) (pwd remote) msg.
Proof.
  intros Ht Hl Hr Hp Htb. destruct (username_valid remote local Hr Hl) as [Hu Hul].
  refine (build_sealed_message Sha1 Request Binding tid _ _ Ht _ _ _).
  - unfold request_attrs. apply Forall_app. split; [|destruct uc; repeat constructor].
    constructor; [split; [done|unfold uint; lia]|]. constructor; [exact Hp|].
    constructor; [by destruct ctrl|constructor].
  - unfold request_attrs. destruct ctrl, uc; repeat constructor; discriminate.
  - apply value_length_mac_bound. unfold request_attrs. rewrite fmap_app. unfold encode_tlvs.
    rewrite fmap_app, concat_app, length_app. cbn [fmap list_fmap concat]. rewrite !length_app.
    rewrite role_attr_length.
    match goal with |- context [length (encode_tlv (any_tlv ?i ?x))] =>
      pose proof (encode_tlv_length_bound (any_tlv i x) 513 Hul) end.
    change (length (encode_tlv (any_tlv (message_id tid) (AnyAttr (Prio prio) tt)))) with 8%nat.
    destruct uc; cbn [fmap list_fmap concat length]; [|lia].
    change (length (encode_tlv (any_tlv (message_id tid) (AnyAttr UseCand tt)) ++ [])) with 4%nat. lia.
Qed.

Lemma verify_integrity_request local remote msg l key :
  sealed_message Sha1 Request Binding (Message.transaction_id msg) l key msg ->
  pwd local = key ->
  attribute Username msg = Ret (Some (Ok (StringAttr (username_of (ufrag local) (ufrag remote)))), msg) ->
  verify_integrity Sha1 local remote msg = Ret (true, msg).
Proof.
  intros Hs <- Hu. unfold verify_integrity. rewrite (sealed_class _ _ _ _ _ _ _ Hs). cbn [is_request].
  destruct (sealed_integrity _ _ _ _ _ _ _ Hs) as (signed & Hk). rewrite Hk, decide_True by done.
  cbn [mbind exec_bind passed is_ok negb]. rewrite Hu. cbn [mbind exec_bind].
  by rewrite decide_False by tauto.
Qed.

(** C36: A connectivity check is understood by the peer: the request an agent
    makes parses at the peer, passes its fingerprint check and its check of
    integrity and user name under the mirrored credentials, and carries the
    priority, the role with the tie breaker and the USE-CANDIDATE flag it was
    made with. *)
Theorem binding_request_understood tid local remote prio ctrl tb uc :
  length tid = 12%nat -> cred_ok local -> cred_ok remote -> uint 32 prio -> uint 64 tb ->
  exists bytes msg,
    make_binding_request Sha1 tid local remote prio ctrl tb uc = Ret bytes /\
    parse bytes = Ok msg /\ Message.class msg = Request /\ Message.transaction_id msg = tid /\
    attribute Fingerprint msg = Ret (Some (Ok Fingerprint_), msg) /\
    verify_integrity Sha1 remote local msg = Ret (true, msg) /\
    attribute Priority msg = Ret (Some (Ok (Prio prio)), msg) /\
    attribute IceControlling msg = Ret (if ctrl then Some (Ok (Controlling tb)) else None, msg) /\
    attribute IceControlled msg = Ret (if ctrl then None else Some (Ok (Controlled tb)), msg) /\
    attribute UseCandidate msg = Ret (if uc then Some (Ok UseCand) else None, msg).
Proof.
  intros Ht Hl Hr Hp Htb.
  destruct (request_sealed tid local remote prio ctrl tb uc Ht Hl Hr Hp Htb) as (msg & Hs).
  exists (Message.buffer msg), msg. rewrite make_binding_request_sealed.
  destruct (Hs) as [H1 H2 H3 _ H5 H6 _ Hhas Hnot]. do 5 (split; [done|]).
  unfold attribute. split.
  { eapply verify_integrity_request; [by rewrite H5|done|]. eapply (Hhas 0%nat); [done|constructor]. }
  split.
  { eapply (Hhas 1%nat); [done|]. destruct ctrl, uc; repeat constructor; discriminate. }
  split; [|split].
  - destruct ctrl.
    + eapply (Hhas 2%nat); [done|]. destruct uc; repeat constructor; discriminate.
    + apply Hnot; [destruct uc; repeat constructor; discriminate|discriminate|discriminate].
  - destruct ctrl.
    + apply Hnot; [destruct uc; repeat constructor; discriminate|discriminate|discriminate].
    + eapply (Hhas 2%nat); [done|]. destruct uc; repeat constructor; discriminate.
  - destruct uc.
    + eapply (Hhas 3%nat); [by destruct ctrl|]. destruct ctrl; repeat constructor; discriminate.
    + apply Hnot; [destruct ctrl; repeat constructor; discriminate|discriminate|discriminate].
Qed.

Lemma verify_integrity_success local remote msg l key :
  sealed_message Sha1 Success Binding (Message.transaction_id msg) l key msg ->
  exists signed, verify_integrity Sha1 local remote msg =
    Ret (bool_decide (hmac (pwd remote) signed = hmac key signed), msg).
Proof.
  intros Hs. unfold verify_integrity. rewrite (sealed_class _ _ _ _ _ _ _ Hs). cbn [is_request].
  destruct (sealed_integrity _ _ _ _ _ _ _ Hs) as (signed & Hk). exists signed. rewrite Hk.
  cbn [mbind exec_bind]. case_decide as E; cbn [passed is_ok negb].
  - by rewrite bool_decide_true.
  - by rewrite bool_decide_false.
Qed.

(** The response to a check is understood by the agent that sent it: it
    parses, passes the fingerprint and the integrity check under the mirrored
    credentials, and carries the address the request came from. *)
Theorem success_response_understood tid local remote source :
  length tid = 12%nat -> addr_valid source ->
  exists bytes msg,
    make_success_response Sha1 tid local source = Ret bytes /\
    parse bytes = Ok msg /\ Message.class msg = Success /\ Message.transaction_id msg = tid /\
    attribute Fingerprint msg = Ret (Some (Ok Fingerprint_), msg) /\
    verify_integrity Sha1 remote local msg = Ret (true, msg) /\
    attribute XorMappedAddress msg = Ret (Some (Ok (XorMapped source)), msg).
Proof.
  intros Ht Ha. rewrite make_success_response_sealed.
  destruct (build_sealed_message Sha1 Success Binding tid (success_attrs source) (pwd local) Ht)
    as (msg & Hs).
  - by repeat constructor.
  - repeat constructor; discriminate.
  - apply value_length_mac_bound. unfold encode_tlvs. cbn [fmap list_fmap success_attrs concat].
    rewrite app_nil_r. pose proof (xor_tlv_length (message_id tid) source). lia.
  - exists (Message.buffer msg), msg. destruct (Hs) as [H1 H2 H3 _ H5 H6 _ Hhas _].
    do 5 (split; [done|]). split.
    + destruct (verify_integrity_success remote local msg (success_attrs source) (pwd local))
        as (signed & ->); [by rewrite H5|]. by rewrite bool_decide_true.
    + eapply (Hhas 0%nat); [done|constructor].
Qed.

(** The error an agent answers a role conflict with does not reach the
    peer: it is built with the class of a success response, so the peer does
    not handle it as an error, and it is signed with the peer's password, not
    with the agent's own, so the peer's integrity check of the response
    accepts it only if the two passwords give the same MAC. *)
Theorem role_error_rejected tid local remote source ctrl tb :
  length tid = 12%nat -> cred_ok local -> cred_ok remote -> addr_valid source -> uint 64 tb ->
  exists bytes msg signed,
    make_role_error Sha1 tid local remote source ctrl tb = Ret bytes /\
    parse bytes = Ok msg /\ Message.class msg = Success /\
    verify_integrity Sha1 remote local msg =
      Ret (bool_decide (hmac (pwd local) signed = hmac (pwd remote) signed), msg).
Proof.
  intros Ht Hl Hr Ha Htb. rewrite make_role_error_sealed.
  destruct (username_valid local remote Hl Hr) as [Hu Hul].
  destruct (build_sealed_message Sha1 Success Binding tid
    (role_error_attrs local remote source ctrl tb) (pwd remote) Ht) as (msg & Hs).
  - constructor; [split; [done|unfold uint; lia]|]. constructor; [by vm_compute|].
    constructor; [by destruct ctrl|]. by repeat constructor.
  - destruct ctrl; repeat constructor; discriminate.
  - apply value_length_mac_bound. unfold encode_tlvs, role_error_attrs.
    cbn [fmap list_fmap concat]. rewrite !length_app, role_attr_length.
    match goal with |- context [length (encode_tlv (any_tlv ?i ?x))] =>
      pose proof (encode_tlv_length_bound (any_tlv i x) 513 Hul) end.
    match goal with |- context [length (encode_tlv (any_tlv ?i (AnyAttr {| number := 487; reason := ?r |} tt)))] =>
      change (length (encode_tlv (any_tlv i (AnyAttr {| number := 487; reason := r |} tt)))) with 24%nat end.
    pose proof (xor_tlv_length (message_id tid) source). cbn [length]. lia.
  - destruct (verify_integrity_success remote local msg
      (role_error_attrs local remote source ctrl tb) (pwd remote)) as (signed & Hv).
    { by rewrite (sealed_tid _ _ _ _ _ _ _ Hs). }
    exists (Message.buffer msg), msg, signed. destruct Hs. by rewrite Hv.
Qed.
End peers.

#[local] Existing Instance big_endian.

Definition sample_local : IceCredentials := {| ufrag := [x61; x62; x63; x64]; pwd := replicate 22 x70 |}.
Definition sample_remote : IceCredentials := {| ufrag := [x65; x66; x67; x68]; pwd := replicate 22 x71 |}.

Lemma sample_creds_ok : cred_ok sample_local /\ cred_ok sample_remote.
Proof. repeat split; cbn; lia. Defined.

Lemma binding_request_understood_witness :
  exists bytes msg,
    make_binding_request toy_digest sample_tid sample_local sample_remote 2130706431 true 77 true = Ret bytes /\
    verify_integrity toy_digest sample_remote sample_local msg = Ret (true, msg).
Proof.
  destruct (binding_request_understood toy_digest sample_tid sample_local sample_remote 2130706431 true 77 true)
    as (bytes & msg & H1 & _ & _ & _ & _ & H2 & _).
  - reflexivity.
  - apply sample_creds_ok.
  - apply sample_creds_ok.
  - by vm_compute.
  - by vm_compute.
  - exists bytes, msg. exact (conj H1 H2).
Defined.

Lemma success_response_understood_witness :
  exists bytes msg,
    make_success_response toy_digest sample_tid sample_local (V4 0xC0A80001 5060) = Ret bytes /\
    verify_integrity toy_digest sample_remote sample_local msg = Ret (true, msg).
Proof.
  destruct (success_response_understood toy_digest sample_tid sample_local sample_remote (V4 0xC0A80001 5060))
    as (bytes & msg & H1 & _ & _ & _ & _ & H2 & _).
  - reflexivity.
  - by vm_compute.
  - exists bytes, msg. exact (conj H1 H2).
Defined.

Lemma role_error_rejected_witness :
  exists bytes msg,
    make_role_error toy_digest sample_tid sample_local sample_remote (V4 0xC0A80001 5060) true 77 = Ret bytes /\
    parse bytes = Ok msg /\ Message.class msg = Success.
Proof.
  destruct (role_error_rejected toy_digest sample_tid sample_local sample_remote (V4 0xC0A80001 5060) true 77)
    as (bytes & msg & signed & H1 & H2 & H3 & _).
  - reflexivity.
  - apply sample_creds_ok.
  - apply sample_creds_ok.
  - by vm_compute.
  - by vm_compute.
  - exists bytes, msg. exact (conj H1 (conj H2 H3)).
Defined.
