(* ===== verification/IceAgent.v ===== *)
(** * The ICE agent (media/ice/src/lib.rs)

    Candidates, candidate pairs, and the agent: its state is a record, every
    method of the code is a function on it. The packages' slot map and the
    standard library's unstable sort are parameters with their documented
    behaviour; the clock, the random transaction ids and the hash of the
    foundation are arguments. Arguments of log messages are not evaluated. *)
From S2P Require Import Prelude Wire Text StunHeader StunMessage StunAttr StunAuth IceStun.
Local Open Scope Z_scope.

(** ** Data *)
Inductive CandidateKind := Host | PeerReflexive | ServerReflexive.

#[export] Instance CandidateKind_eq_dec : EqDecision CandidateKind.
Proof. solve_decision. Defined.

(** [kind as u32] *)
Definition kind_num (k : CandidateKind) : Z :=
  match k with Host => 126 | PeerReflexive => 110 | ServerReflexive => 100 end.

Module Candidate.
Record t := {
  addr : SocketAddr;
  kind : CandidateKind;
  priority : Z;
  foundation : str;
  component : Component;
  base : SocketAddr }.
End Candidate.

(** [CandidatePairState] *)
Inductive CandidatePairState :=
| Waiting
| InProgress (transaction_id : TransactionId) (stun_request : list byte) (retransmit_at : Instant)
    (retransmits : Z) (source : IpAddr) (target : SocketAddr)
| Succeeded
| Failed.

#[export] Instance CandidatePairState_eq_dec : EqDecision CandidatePairState.
Proof. solve_decision. Defined.

(** [ReceivedPkt<Message>] *)
Module ReceivedPkt.
Record t (D : Type) := { data : D; source : SocketAddr; destination : SocketAddr; component : Component }.
Arguments data {D}.
Arguments source {D}.
Arguments destination {D}.
Arguments component {D}.
Arguments Build_t {D}.
End ReceivedPkt.

(** [sdp_types::IceCandidate] and [UntaggedAddress], with the fields the agent
    reads *)
Inductive UntaggedAddress := Fqdn (name : str) | IpAddress (ip : IpAddr).
Module IceCandidate.
Record t := {
  foundation : str; component : Z; transport : str; priority : Z; address : UntaggedAddress;
  port : Z; typ : str; rel_addr : option UntaggedAddress; rel_port : option Z }.
End IceCandidate.

(** The keys of the two slot maps and the map itself ([slotmap::SlotMap]). *)
Class SlotMap (K M : Type) := {
  slot_key_eq_dec :: EqDecision K;
  slot_empty : M;
  slot_insert : Candidate.t -> M -> K * M;
  slot_get : M -> K -> option Candidate.t;
  slot_iter : M -> list (K * Candidate.t);
  slot_retain : (K -> Candidate.t -> bool) -> M -> M;
  (** the keys that were ever handed out *)
  slot_used : M -> K -> Prop }.

Class SlotMapLaws (K M : Type) {SM : SlotMap K M} : Prop := {
  slot_empty_iter : slot_iter slot_empty = [];
  slot_iter_NoDup m : NoDup (slot_iter m).*1;
  slot_get_iter m k c : slot_get m k = Some c <-> (k, c) ∈ slot_iter m;
  slot_insert_iter c m k m' : slot_insert c m = (k, m') -> slot_iter m' ≡ₚ (k, c) :: slot_iter m;
  slot_insert_used c m k m' : slot_insert c m = (k, m') ->
    ~ slot_used m k /\ forall k', slot_used m' k' <-> k' = k \/ slot_used m k';
  slot_used_iter m k c : (k, c) ∈ slot_iter m -> slot_used m k;
  slot_retain_iter f m : slot_iter (slot_retain f m) ≡ₚ filter (fun kc => f kc.1 kc.2 = true) (slot_iter m);
  slot_retain_used f m k : slot_used (slot_retain f m) k <-> slot_used m k }.

Section candidate_pair.
Context {LocalCandidateId RemoteCandidateId : Type}.

Record CandidatePair := {
  local : LocalCandidateId;
  remote : RemoteCandidateId;
  pair_prio : Z;
  state : CandidatePairState;
  pair_component : Component;
  received_use_candidate : bool;
  nominated : bool }.

Definition set_state (s : CandidatePairState) (p : CandidatePair) : CandidatePair := {|
  local := local p; remote := remote p; pair_prio := pair_prio p; state := s;
  pair_component := pair_component p; received_use_candidate := received_use_candidate p;
  nominated := nominated p |}.
Definition set_nominated (v : bool) (p : CandidatePair) : CandidatePair := {|
  local := local p; remote := remote p; pair_prio := pair_prio p; state := state p;
  pair_component := pair_component p; received_use_candidate := received_use_candidate p;
  nominated := v |}.
Definition set_received_use_candidate (v : bool) (p : CandidatePair) : CandidatePair := {|
  local := local p; remote := remote p; pair_prio := pair_prio p; state := state p;
  pair_component := pair_component p; received_use_candidate := v; nominated := nominated p |}.
Definition set_pair_prio (v : Z) (p : CandidatePair) : CandidatePair := {|
  local := local p; remote := remote p; pair_prio := v; state := state p;
  pair_component := pair_component p; received_use_candidate := received_use_candidate p;
  nominated := nominated p |}.

End candidate_pair.
Arguments CandidatePair : clear implicits.

(** [sort_unstable_by_key(|p| p.priority)]: any order among equal keys. *)
Class SortPairs (L R : Type) := sort_pairs : list (CandidatePair L R) -> list (CandidatePair L R).

Class SortLaws (L R : Type) {SP : SortPairs L R} : Prop := {
  sort_permutation l : sort_pairs l ≡ₚ l;
  sort_sorted l : StronglySorted (fun p q => pair_prio p <= pair_prio q) (sort_pairs l) }.

(** [compute_foundation(kind, base.ip(), None, "udp").to_string()] hashes with
    [DefaultHasher], whose function is not specified. *)
Class Foundation := compute_foundation : CandidateKind -> IpAddr -> str.

Section agent.
Context `{W : WireOps} (Sha1 : Digest) `{Foundation}.
Context {LocalCandidateId RemoteCandidateId LocalMap RemoteMap : Type}.
Context `{SP : SortPairs LocalCandidateId RemoteCandidateId}.
Context `{LM : SlotMap LocalCandidateId LocalMap} `{RM : SlotMap RemoteCandidateId RemoteMap}.
#[local] Existing Instance MessageIntegrity_attr.
#[local] Abbreviation CandidatePair := (CandidatePair LocalCandidateId RemoteCandidateId).

Record IceAgent := {
  stun_config : StunConfig;
  stun_server : list StunServerBinding;
  local_credentials : IceCredentials;
  remote_credentials : option IceCredentials;
  local_candidates : LocalMap;
  remote_candidates : RemoteMap;
  pairs : list CandidatePair;
  triggered_check_queue : list (LocalCandidateId * RemoteCandidateId);
  rtcp_mux : bool;
  is_controlling : bool;
  control_tie_breaker : Z;
  max_pairs : nat;
  gathering_state : IceGatheringState;
  connection_state : IceConnectionState;
  last_ta_trigger : option Instant;
  backlog : list (ReceivedPkt.t Message.t);
  events : list IceEvent }.

(** Assignments to the fields *)
Definition with_stun_server (v : list StunServerBinding) (a : IceAgent) : IceAgent := {|
  stun_config := stun_config a; stun_server := v; local_credentials := local_credentials a;
  remote_credentials := remote_credentials a; local_candidates := local_candidates a;
  remote_candidates := remote_candidates a; pairs := pairs a; triggered_check_queue :=
  triggered_check_queue a; rtcp_mux := rtcp_mux a; is_controlling := is_controlling a;
  control_tie_breaker := control_tie_breaker a; max_pairs := max_pairs a; gathering_state :=
  gathering_state a; connection_state := connection_state a; last_ta_trigger := last_ta_trigger
  a; backlog := backlog a; events := events a |}.
Definition with_remote_credentials (v : option IceCredentials) (a : IceAgent) : IceAgent := {|
  stun_config := stun_config a; stun_server := stun_server a; local_credentials :=
  local_credentials a; remote_credentials := v; local_candidates := local_candidates a;
  remote_candidates := remote_candidates a; pairs := pairs a; triggered_check_queue :=
  triggered_check_queue a; rtcp_mux := rtcp_mux a; is_controlling := is_controlling a;
  control_tie_breaker := control_tie_breaker a; max_pairs := max_pairs a; gathering_state :=
  gathering_state a; connection_state := connection_state a; last_ta_trigger := last_ta_trigger
  a; backlog := backlog a; events := events a |}.
Definition with_local_candidates (v : LocalMap) (a : IceAgent) : IceAgent := {|
  stun_config := stun_config a; stun_server := stun_server a; local_credentials :=
  local_credentials a; remote_credentials := remote_credentials a; local_candidates := v;
  remote_candidates := remote_candidates a; pairs := pairs a; triggered_check_queue :=
  triggered_check_queue a; rtcp_mux := rtcp_mux a; is_controlling := is_controlling a;
  control_tie_breaker := control_tie_breaker a; max_pairs := max_pairs a; gathering_state :=
  gathering_state a; connection_state := connection_state a; last_ta_trigger := last_ta_trigger
  a; backlog := backlog a; events := events a |}.
Definition with_remote_candidates (v : RemoteMap) (a : IceAgent) : IceAgent := {|
  stun_config := stun_config a; stun_server := stun_server a; local_credentials :=
  local_credentials a; remote_credentials := remote_credentials a; local_candidates :=
  local_candidates a; remote_candidates := v; pairs := pairs a; triggered_check_queue :=
  triggered_check_queue a; rtcp_mux := rtcp_mux a; is_controlling := is_controlling a;
  control_tie_breaker := control_tie_breaker a; max_pairs := max_pairs a; gathering_state :=
  gathering_state a; connection_state := connection_state a; last_ta_trigger := last_ta_trigger
  a; backlog := backlog a; events := events a |}.
Definition with_pairs (v : list CandidatePair) (a : IceAgent) : IceAgent := {|
  stun_config := stun_config a; stun_server := stun_server a; local_credentials :=
  local_credentials a; remote_credentials := remote_credentials a; local_candidates :=
  local_candidates a; remote_candidates := remote_candidates a; pairs := v;
  triggered_check_queue := triggered_check_queue a; rtcp_mux := rtcp_mux a; is_controlling :=
  is_controlling a; control_tie_breaker := control_tie_breaker a; max_pairs := max_pairs a;
  gathering_state := gathering_state a; connection_state := connection_state a; last_ta_trigger
  := last_ta_trigger a; backlog := backlog a; events := events a |}.
Definition with_triggered_check_queue (v : list (LocalCandidateId * RemoteCandidateId)) (a : IceAgent) : IceAgent := {|
  stun_config := stun_config a; stun_server := stun_server a; local_credentials :=
  local_credentials a; remote_credentials := remote_credentials a; local_candidates :=
  local_candidates a; remote_candidates := remote_candidates a; pairs := pairs a;
  triggered_check_queue := v; rtcp_mux := rtcp_mux a; is_controlling := is_controlling a;
  control_tie_breaker := control_tie_breaker a; max_pairs := max_pairs a; gathering_state :=
  gathering_state a; connection_state := connection_state a; last_ta_trigger := last_ta_trigger
  a; backlog := backlog a; events := events a |}.
Definition with_rtcp_mux (v : bool) (a : IceAgent) : IceAgent := {|
  stun_config := stun_config a; stun_server := stun_server a; local_credentials :=
  local_credentials a; remote_credentials := remote_credentials a; local_candidates :=
  local_candidates a; remote_candidates := remote_candidates a; pairs := pairs a;
  triggered_check_queue := triggered_check_queue a; rtcp_mux := v; is_controlling :=
  is_controlling a; control_tie_breaker := control_tie_breaker a; max_pairs := max_pairs a;
  gathering_state := gathering_state a; connection_state := connection_state a; last_ta_trigger
  := last_ta_trigger a; backlog := backlog a; events := events a |}.
Definition with_is_controlling (v : bool) (a : IceAgent) : IceAgent := {|
  stun_config := stun_config a; stun_server := stun_server a; local_credentials :=
  local_credentials a; remote_credentials := remote_credentials a; local_candidates :=
  local_candidates a; remote_candidates := remote_candidates a; pairs := pairs a;
  triggered_check_queue := triggered_check_queue a; rtcp_mux := rtcp_mux a; is_controlling := v;
  control_tie_breaker := control_tie_breaker a; max_pairs := max_pairs a; gathering_state :=
  gathering_state a; connection_state := connection_state a; last_ta_trigger := last_ta_trigger
  a; backlog := backlog a; events := events a |}.
Definition with_gathering_state (v : IceGatheringState) (a : IceAgent) : IceAgent := {|
  stun_config := stun_config a; stun_server := stun_server a; local_credentials :=
  local_credentials a; remote_credentials := remote_credentials a; local_candidates :=
  local_candidates a; remote_candidates := remote_candidates a; pairs := pairs a;
  triggered_check_queue := triggered_check_queue a; rtcp_mux := rtcp_mux a; is_controlling :=
  is_controlling a; control_tie_breaker := control_tie_breaker a; max_pairs := max_pairs a;
  gathering_state := v; connection_state := connection_state a; last_ta_trigger :=
  last_ta_trigger a; backlog := backlog a; events := events a |}.
Definition with_connection_state (v : IceConnectionState) (a : IceAgent) : IceAgent := {|
  stun_config := stun_config a; stun_server := stun_server a; local_credentials :=
  local_credentials a; remote_credentials := remote_credentials a; local_candidates :=
  local_candidates a; remote_candidates := remote_candidates a; pairs := pairs a;
  triggered_check_queue := triggered_check_queue a; rtcp_mux := rtcp_mux a; is_controlling :=
  is_controlling a; control_tie_breaker := control_tie_breaker a; max_pairs := max_pairs a;
  gathering_state := gathering_state a; connection_state := v; last_ta_trigger :=
  last_ta_trigger a; backlog := backlog a; events := events a |}.
Definition with_last_ta_trigger (v : option Instant) (a : IceAgent) : IceAgent := {|
  stun_config := stun_config a; stun_server := stun_server a; local_credentials :=
  local_credentials a; remote_credentials := remote_credentials a; local_candidates :=
  local_candidates a; remote_candidates := remote_candidates a; pairs := pairs a;
  triggered_check_queue := triggered_check_queue a; rtcp_mux := rtcp_mux a; is_controlling :=
  is_controlling a; control_tie_breaker := control_tie_breaker a; max_pairs := max_pairs a;
  gathering_state := gathering_state a; connection_state := connection_state a; last_ta_trigger
  := v; backlog := backlog a; events := events a |}.
Definition with_backlog (v : list (ReceivedPkt.t Message.t)) (a : IceAgent) : IceAgent := {|
  stun_config := stun_config a; stun_server := stun_server a; local_credentials :=
  local_credentials a; remote_credentials := remote_credentials a; local_candidates :=
  local_candidates a; remote_candidates := remote_candidates a; pairs := pairs a;
  triggered_check_queue := triggered_check_queue a; rtcp_mux := rtcp_mux a; is_controlling :=
  is_controlling a; control_tie_breaker := control_tie_breaker a; max_pairs := max_pairs a;
  gathering_state := gathering_state a; connection_state := connection_state a; last_ta_trigger
  := last_ta_trigger a; backlog := v; events := events a |}.
Definition with_events (v : list IceEvent) (a : IceAgent) : IceAgent := {|
  stun_config := stun_config a; stun_server := stun_server a; local_credentials :=
  local_credentials a; remote_credentials := remote_credentials a; local_candidates :=
  local_candidates a; remote_candidates := remote_candidates a; pairs := pairs a;
  triggered_check_queue := triggered_check_queue a; rtcp_mux := rtcp_mux a; is_controlling :=
  is_controlling a; control_tie_breaker := control_tie_breaker a; max_pairs := max_pairs a;
  gathering_state := gathering_state a; connection_state := connection_state a; last_ta_trigger
  := last_ta_trigger a; backlog := backlog a; events := v |}.

Definition push_event (e : IceEvent) (a : IceAgent) : IceAgent := with_events (events a ++ [e]) a.

(** ** Priorities *)

(** [pair_priority] on the priorities of the candidates, with the wrap of the
    [u64] arithmetic. *)
Definition pair_priority (local_candidate remote_candidate : Candidate.t) (is_controlling : bool) : Z :=
  let '(g, d) := if is_controlling
                 then (Candidate.priority local_candidate, Candidate.priority remote_candidate)
                 else (Candidate.priority remote_candidate, Candidate.priority local_candidate) in
  wrap 64 (2 ^ 32 * Z.min g d + 2 * Z.max g d + if decide (g > d) then 1 else 0).

(** The integer constants of [add_local_candidate] *)
Definition local_preference_offset (kind : CandidateKind) : Z :=
  match kind with
  | Host => 65535 / 4 * 3
  | PeerReflexive => 65535 / 4 * 2
  | ServerReflexive => 65535 / 4
  end.

(** The priority of a new candidate when [count] candidates of its kind exist *)
Definition candidate_priority (kind : CandidateKind) (component : Component) (count : nat) : Z :=
  let local_preference := wrap 32 (wrap 32 (Z.of_nat count) + local_preference_offset kind) in
  let kind_preference := wrap 32 (Z.shiftl (kind_num kind) 24) in
  let local_preference := wrap 32 (Z.shiftl local_preference 8) in
  wrap 32 (kind_preference + local_preference + (256 - component_num component)).

(** ** Pairs *)

(** The test of [pairs.iter().any(|p| p.local == .. && p.remote == ..)] *)
Definition is_pair (local_id : LocalCandidateId) (remote_id : RemoteCandidateId) (p : CandidatePair) : bool :=
  bool_decide (local p = local_id /\ remote p = remote_id).

(** [add_candidate_pair] *)
Definition add_candidate_pair (local_id : LocalCandidateId) (local_candidate : Candidate.t)
    (remote_id : RemoteCandidateId) (remote_candidate : Candidate.t) (is_controlling : bool)
    (received_use_candidate : bool) (pairs : list CandidatePair) : list CandidatePair :=
  if existsb (is_pair local_id remote_id) pairs then pairs
  else
    sort_pairs (pairs ++ [{|
      local := local_id; remote := remote_id;
      pair_prio := pair_priority local_candidate remote_candidate is_controlling;
      state := Waiting; pair_component := Candidate.component local_candidate;
      received_use_candidate := received_use_candidate; nominated := false |}]).

(** [Ipv4Addr::is_link_local], [Ipv6Addr::is_unicast_link_local] *)
Definition v4_link_local (ip : Z) : bool := bool_decide (ip / 2 ^ 16 = 0xA9FE).
Definition v6_link_local (ip : Z) : bool := bool_decide (ip / 2 ^ 118 = 0x3FA).

(** The [match] on the two addresses in [form_pairs] *)
Definition compatible_ips (l r : IpAddr) : bool :=
  match l, r with
  | IPv4 l, IPv4 r => Bool.eqb (v4_link_local l) (v4_link_local r)
  | IPv6 l, IPv6 r => Bool.eqb (v6_link_local l) (v6_link_local r)
  | _, _ => false
  end.

(** The body of the two loops of [form_pairs] *)
Definition form_pair (is_controlling : bool) (l : LocalCandidateId * Candidate.t)
    (r : RemoteCandidateId * Candidate.t) (pairs : list CandidatePair) : list CandidatePair :=
  let '(local_id, local_candidate) := l in
  let '(remote_id, remote_candidate) := r in
  if decide (Candidate.kind remote_candidate = PeerReflexive) then pairs
  else if decide (Candidate.component local_candidate <> Candidate.component remote_candidate) then pairs
  else if existsb (is_pair local_id remote_id) pairs then pairs
  else if negb (compatible_ips (addr_ip (Candidate.addr local_candidate))
                  (addr_ip (Candidate.addr remote_candidate))) then pairs
  else add_candidate_pair local_id local_candidate remote_id remote_candidate is_controlling false pairs.

(** [prune_pairs]: pops from the end while the list is too long. *)
Definition prune_pairs (a : IceAgent) : IceAgent := with_pairs (take (max_pairs a) (pairs a)) a.

(** [form_pairs] *)
Definition form_pairs (a : IceAgent) : IceAgent :=
  let ps := foldl (fun ps l =>
              foldl (fun ps r => form_pair (is_controlling a) l r ps) ps (slot_iter (remote_candidates a)))
              (pairs a) (slot_iter (local_candidates a)) in
  prune_pairs (with_pairs (sort_pairs ps) a).

(** The candidates of a pair: indexing a slot map with a missing key panics. *)
Definition local_candidate_of (a : IceAgent) (p : CandidatePair) : exec Candidate.t :=
  unwrap (slot_get (local_candidates a) (local p)).
Definition remote_candidate_of (a : IceAgent) (p : CandidatePair) : exec Candidate.t :=
  unwrap (slot_get (remote_candidates a) (remote p)).

(** [recompute_pair_priorities] *)
Fixpoint recompute_each (a : IceAgent) (ps : list CandidatePair) : exec (list CandidatePair) :=
  match ps with
  | [] => Ret []
  | p :: ps =>
      l ← local_candidate_of a p;
      r ← remote_candidate_of a p;
      ps ← recompute_each a ps;
      Ret (set_pair_prio (pair_priority l r (is_controlling a)) p :: ps)
  end.
Definition recompute_pair_priorities (a : IceAgent) : exec IceAgent :=
  ps ← recompute_each a (pairs a);
  Ret (with_pairs (sort_pairs ps) a).

(** ** Candidates *)

(** [add_local_candidate] *)
Definition add_local_candidate (component : Component) (kind : CandidateKind) (base addr : SocketAddr)
    (a : IceAgent) : IceAgent :=
  let cs := (slot_iter (local_candidates a)).*2 in
  let already_exists := existsb (fun c =>
        bool_decide (Candidate.kind c = kind /\ Candidate.base c = base /\ Candidate.addr c = addr)) cs in
  if already_exists then a
  else
    let count := length (filter (fun c => Candidate.kind c = kind) cs) in
    let priority := candidate_priority kind component count in
    let '(_, m) := slot_insert {|
          Candidate.addr := addr; Candidate.kind := kind; Candidate.priority := priority;
          Candidate.foundation := compute_foundation kind (addr_ip base);
          Candidate.component := component; Candidate.base := base |} (local_candidates a) in
    form_pairs (with_local_candidates m a).

(** [IpAddr::is_loopback], [is_unspecified]; [Ipv6Addr::to_ipv4],
    [to_ipv4_mapped] are [Some] *)
Definition is_loopback (ip : IpAddr) : bool :=
  match ip with IPv4 ip => bool_decide (ip / 2 ^ 24 = 127) | IPv6 ip => bool_decide (ip = 1) end.
Definition is_unspecified (ip : IpAddr) : bool :=
  match ip with IPv4 ip | IPv6 ip => bool_decide (ip = 0) end.
Definition to_ipv4_mapped_is_some (ip : Z) : bool := bool_decide (ip / 2 ^ 32 = 0xFFFF).
Definition to_ipv4_is_some (ip : Z) : bool :=
  bool_decide (ip / 2 ^ 32 = 0) || to_ipv4_mapped_is_some ip.

(** [add_host_addr] *)
Definition add_host_addr (component : Component) (addr : SocketAddr) (a : IceAgent) : IceAgent :=
  if is_loopback (addr_ip addr) || is_unspecified (addr_ip addr) then a
  else
    let embedded := match addr with
                    | V6 ip _ _ _ => to_ipv4_is_some ip || to_ipv4_mapped_is_some ip
                    | V4 _ _ => false
                    end in
    if embedded then a else add_local_candidate component Host addr addr a.

(** [add_stun_server] *)
Definition add_stun_server (server : SocketAddr) (a : IceAgent) : IceAgent :=
  let a := with_stun_server (stun_server a ++ [binding_new server Rtp]) a in
  if negb (rtcp_mux a) then with_stun_server (stun_server a ++ [binding_new server Rtcp]) a else a.

(** [str::eq_ignore_ascii_case] *)
Definition ascii_lower (b : byte) : byte :=
  if in_range 0x41 0x5A b then byte_of (byte_val b + 32) else b.
Definition eq_ignore_ascii_case (a b : str) : bool :=
  bool_decide (map ascii_lower a = map ascii_lower b).

Definition str_host : str := [x68; x6f; x73; x74].
Definition str_srflx : str := [x73; x72; x66; x6c; x78].
Definition str_udp : str := [x75; x64; x70].

(** [SocketAddr::new] *)
Definition addr_new (ip : IpAddr) (port : Z) : SocketAddr :=
  match ip with IPv4 ip => V4 ip port | IPv6 ip => V6 ip port 0 0 end.

(** [add_remote_candidate]: a priority of 2^32 or more panics. *)
Definition add_remote_candidate (candidate : IceCandidate.t) (a : IceAgent) : exec IceAgent :=
  let kind := if decide (IceCandidate.typ candidate = str_host) then Some Host
              else if decide (IceCandidate.typ candidate = str_srflx) then Some ServerReflexive
              else None in
  match kind with
  | None => Ret a
  | Some kind =>
      if negb (eq_ignore_ascii_case (IceCandidate.transport candidate) str_udp) then Ret a
      else
        let component := if decide (IceCandidate.component candidate = 1) then Some Rtp
                         else if decide (IceCandidate.component candidate = 2 /\ rtcp_mux a = false)
                              then Some Rtcp else None in
        match component, IceCandidate.address candidate with
        | None, _ => Ret a
        | Some _, Fqdn _ => Ret a
        | Some component, IpAddress ip =>
            priority ← unwrap_res (try_from_uint (E := Error) 32 TryFromInt (IceCandidate.priority candidate));
            let addr := addr_new ip (IceCandidate.port candidate) in
            let '(_, m) := slot_insert {|
                  Candidate.addr := addr; Candidate.kind := kind; Candidate.priority := priority;
                  Candidate.foundation := IceCandidate.foundation candidate;
                  Candidate.component := component; Candidate.base := addr |} (remote_candidates a) in
            Ret (form_pairs (with_remote_candidates m a))
        end
  end.

(** ** Received messages *)

(** [iter_mut().find(..)]: the first element that passes, with its place. *)
Definition find_pair (f : CandidatePair -> bool) (ps : list CandidatePair) : option (nat * CandidatePair) :=
  i ← position f ps; p ← ps !! i; Some (i, p).

Definition update_pair (i : nat) (p : CandidatePair) (a : IceAgent) : IceAgent :=
  with_pairs (<[i := p]> (pairs a)) a.

(** [matches!(p.state, InProgress { transaction_id, .. } if ..)] *)
Definition in_transaction (tsx : TransactionId) (p : CandidatePair) : bool :=
  match state p with InProgress tid _ _ _ _ _ => bool_decide (tid = tsx) | _ => false end.

(** The loop over the STUN server bindings: the first that waits for the
    response takes it. *)
Definition find_binding (tsx : TransactionId) (bs : list StunServerBinding)
    : option (nat * StunServerBinding) :=
  i ← position (wants_stun_response tsx) bs; b ← bs !! i; Some (i, b).

(** The last part of [receive_stun_success]: a mapped address that is not the
    local candidate's is a peer-reflexive candidate. *)
Definition discover_peer_reflexive (pr : CandidatePair) (msg : Message.t) (destination : SocketAddr)
    (a : IceAgent) : exec IceAgent :=
  '(mapped, _) ← attribute XorMappedAddress msg;
  match mapped with
  | Some (Ok (XorMapped mapped_addr)) =>
      l ← local_candidate_of a pr;
      if decide (mapped_addr <> Candidate.addr l)
      then Ret (add_local_candidate (pair_component pr) PeerReflexive destination mapped_addr a)
      else Ret a
  | _ => Ret a
  end.

(** [receive_stun_success] behind the bindings: the connectivity checks *)
Definition receive_check_success (pkt : ReceivedPkt.t Message.t) (a : IceAgent) : exec IceAgent :=
  match remote_credentials a with
  | None => Ret (with_backlog (backlog a ++ [pkt]) a)
  | Some creds =>
      '(passed, msg) ← verify_integrity Sha1 (local_credentials a) creds (ReceivedPkt.data pkt);
      if negb passed then Ret a
      else
        match find_pair (in_transaction (Message.transaction_id msg)) (pairs a) with
        | None => Ret a
        | Some (i, pr) =>
            match state pr with
            | InProgress _ _ _ _ source target =>
                if decide (ReceivedPkt.source pkt = target \/
                           addr_ip (ReceivedPkt.destination pkt) = source) then
                  a ← (if nominated pr then
                         l ← local_candidate_of a pr;
                         r ← remote_candidate_of a pr;
                         Ret (push_event (UseAddr (Candidate.component l) (Candidate.addr r)) a)
                       else Ret a);
                  let pr := set_state Succeeded pr in
                  discover_peer_reflexive pr msg (ReceivedPkt.destination pkt) (update_pair i pr a)
                else
                  let pr := set_state Failed (set_nominated false pr) in
                  discover_peer_reflexive pr msg (ReceivedPkt.destination pkt) (update_pair i pr a)
            | _ => Panic
            end
        end
  end.

(** [receive_stun_success] *)
Definition receive_stun_success (now : Instant) (pkt : ReceivedPkt.t Message.t) (a : IceAgent)
    : exec IceAgent :=
  match find_binding (Message.transaction_id (ReceivedPkt.data pkt)) (stun_server a) with
  | Some (i, b) =>
      '(addr, b) ← receive_stun_response now (stun_config a) (ReceivedPkt.data pkt) b;
      let a := with_stun_server (<[i := b]> (stun_server a)) a in
      match addr with
      | None => Ret a
      | Some addr =>
          Ret (add_local_candidate (binding_component b) ServerReflexive (ReceivedPkt.destination pkt) addr a)
      end
  | None => receive_check_success pkt a
  end.

(** [receive_stun_error] *)
Definition receive_stun_error (pkt : ReceivedPkt.t Message.t) (a : IceAgent) : exec IceAgent :=
  match remote_credentials a with
  | None => Ret (with_backlog (backlog a ++ [pkt]) a)
  | Some creds =>
      '(passed, msg) ← verify_integrity Sha1 (local_credentials a) creds (ReceivedPkt.data pkt);
      if negb passed then Ret a
      else
        match find_pair (in_transaction (Message.transaction_id msg)) (pairs a) with
        | None => Ret a
        | Some (i, pr) =>
            '(code, msg) ← attribute ErrorCode msg;
            match code with
            | Some (Ok error_code) =>
                if decide (number error_code = 487) then
                  '(controlled, msg) ← attribute IceControlled msg;
                  a ← (if decide (is_Some controlled) then Ret (with_is_controlling true a)
                       else
                         '(controlling, _) ← attribute IceControlling msg;
                         if decide (is_Some controlling) then Ret (with_is_controlling false a) else Ret a);
                  let a := update_pair i (set_state Waiting pr) a in
                  recompute_pair_priorities
                    (with_triggered_check_queue (triggered_check_queue a ++ [(local pr, remote pr)]) a)
                else Ret a
            | _ => Ret a
            end
        end
  end.

(** [Iterator::max_by_key]: of equal keys the last one. *)
Fixpoint max_by_prio (ps : list (nat * CandidatePair)) : option (nat * CandidatePair) :=
  match ps with
  | [] => None
  | p :: ps =>
      match max_by_prio ps with
      | None => Some p
      | Some q => if decide (pair_prio p.2 <= pair_prio q.2) then Some q else Some p
      end
  end.

(** [iter_mut().filter(f).max_by_key(|p| p.priority)] *)
Definition best_pair (f : CandidatePair -> bool) (ps : list CandidatePair) : option (nat * CandidatePair) :=
  max_by_prio (filter (fun ip => f ip.2 = true) (imap (fun i p => (i, p)) ps)).

Definition is_succeeded (p : CandidatePair) : bool :=
  match state p with Succeeded => true | _ => false end.

(** [poll_nomination_of_component] *)
Definition poll_nomination_of_component (component : Component) (a : IceAgent) : exec IceAgent :=
  if is_controlling a then
    if existsb (fun p => bool_decide (pair_component p = component) && nominated p) (pairs a) then Ret a
    else
      match best_pair (fun p => bool_decide (pair_component p = component) && is_succeeded p) (pairs a) with
      | None => Ret a
      | Some (i, pr) =>
          let a := update_pair i (set_nominated true pr) a in
          Ret (with_triggered_check_queue ((local pr, remote pr) :: triggered_check_queue a) a)
      end
  else
    if existsb nominated (pairs a) then Ret a
    else
      match best_pair (fun p => bool_decide (pair_component p = component) &&
                                received_use_candidate p && is_succeeded p) (pairs a) with
      | None => Ret a
      | Some (i, pr) =>
          let a := update_pair i (set_nominated true pr) a in
          r ← remote_candidate_of a pr;
          Ret (push_event (UseAddr component (Candidate.addr r)) a)
      end.

(** [poll_nomination] *)
Definition poll_nomination (a : IceAgent) : exec IceAgent :=
  a ← poll_nomination_of_component Rtp a;
  if rtcp_mux a then Ret a else poll_nomination_of_component Rtcp a.

(** The answer to a request with a conflicting role *)
Definition reject_role (pkt : ReceivedPkt.t Message.t) (msg : Message.t) (remote : IceCredentials)
    (is_controlling : bool) (a : IceAgent) : exec IceAgent :=
  response ← make_role_error Sha1 (Message.transaction_id msg) (local_credentials a) remote
               (ReceivedPkt.source pkt) is_controlling (control_tie_breaker a);
  Ret (push_event (SendData (ReceivedPkt.component pkt) response
                     (Some (addr_ip (ReceivedPkt.destination pkt))) (ReceivedPkt.source pkt)) a).

(** Detecting and handling a role conflict: [inr] when the request was
    answered with an error, otherwise the agent in the role it goes on with. *)
Definition handle_role_conflict (pkt : ReceivedPkt.t Message.t) (msg : Message.t)
    (remote : IceCredentials) (a : IceAgent) : exec (IceAgent + IceAgent) :=
  if is_controlling a then
    '(r, msg) ← attribute IceControlling msg;
    match r with
    | Some (Ok (Controlling tie_breaker)) =>
        if decide (control_tie_breaker a >= tie_breaker) then
          a ← reject_role pkt msg remote true a; Ret (inr a)
        else a ← recompute_pair_priorities (with_is_controlling false a); Ret (inl a)
    | _ => Ret (inl a)
    end
  else
    '(r, msg) ← attribute IceControlled msg;
    match r with
    | Some (Ok (Controlled tie_breaker)) =>
        if decide (control_tie_breaker a >= tie_breaker) then
          a ← reject_role pkt msg remote false a; Ret (inr a)
        else a ← recompute_pair_priorities (with_is_controlling true a); Ret (inl a)
    | _ => Ret (inl a)
    end.

(** Finding the remote candidate of a request, or making a peer-reflexive one
    with its pair and triggered check *)
Definition remote_of_request (pkt : ReceivedPkt.t Message.t) (prio : Z)
    (local_id : LocalCandidateId) (local_candidate : Candidate.t) (a : IceAgent)
    : RemoteCandidateId * IceAgent :=
  match find (fun kc => bool_decide (Candidate.addr kc.2 = ReceivedPkt.source pkt))
             (slot_iter (remote_candidates a)) with
  | Some (remote_id, _) => (remote_id, a)
  | None =>
      let c := {| Candidate.addr := ReceivedPkt.source pkt; Candidate.kind := PeerReflexive;
                  Candidate.priority := prio; Candidate.foundation := [x7e];
                  Candidate.component := ReceivedPkt.component pkt;
                  Candidate.base := ReceivedPkt.source pkt |} in
      let '(remote_id, m) := slot_insert c (remote_candidates a) in
      let a := with_remote_candidates m a in
      let a := with_pairs (add_candidate_pair local_id local_candidate remote_id c
                             (is_controlling a) false (pairs a)) a in
      (remote_id, with_triggered_check_queue (triggered_check_queue a ++ [(local_id, remote_id)]) a)
  end.

(** [receive_stun_request] *)
Definition receive_stun_request (pkt : ReceivedPkt.t Message.t) (a : IceAgent) : exec IceAgent :=
  match remote_credentials a with
  | None => Ret (with_backlog (backlog a ++ [pkt]) a)
  | Some creds =>
      '(passed, msg) ← verify_integrity Sha1 (local_credentials a) creds (ReceivedPkt.data pkt);
      if negb passed then Ret a
      else
        '(r, msg) ← attribute Priority msg;
        r ← unwrap r;
        '(Prio priority) ← unwrap_res r;
        '(uc, msg) ← attribute UseCandidate msg;
        let use_candidate := bool_decide (is_Some uc) in
        conflict ← handle_role_conflict pkt msg creds a;
        match conflict with
        | inr a => Ret a
        | inl a =>
            match find (fun kc => bool_decide (Candidate.kind kc.2 = Host /\
                                               Candidate.addr kc.2 = ReceivedPkt.destination pkt))
                       (slot_iter (local_candidates a)) with
            | None => Ret a
            | Some (local_id, local_candidate) =>
                let '(remote_id, a) := remote_of_request pkt priority local_id local_candidate a in
                '(i, pr) ← unwrap (find_pair (is_pair local_id remote_id) (pairs a));
                let pr := set_received_use_candidate use_candidate pr in
                let a := update_pair i pr a in
                stun_response ← make_success_response Sha1 (Message.transaction_id msg)
                                  (local_credentials a) (ReceivedPkt.source pkt);
                l ← local_candidate_of a pr;
                let a := push_event (SendData (pair_component pr) stun_response
                           (Some (addr_ip (Candidate.base l))) (ReceivedPkt.source pkt)) a in
                if use_candidate then poll_nomination a else Ret a
            end
        end
  end.

(** [receive_stun] *)
Definition receive_stun (now : Instant) (pkt : ReceivedPkt.t Message.t) (a : IceAgent) : exec IceAgent :=
  match Message.class (ReceivedPkt.data pkt) with
  | Request => receive_stun_request pkt a
  | Indication => Ret a
  | Success => receive_stun_success now pkt a
  | ErrorClass => receive_stun_error pkt a
  end.

(** [receive] *)
Definition receive (now : Instant) (pkt : ReceivedPkt.t (list byte)) (a : IceAgent) : exec IceAgent :=
  match parse (ReceivedPkt.data pkt) with
  | Err _ => Ret a
  | Ok stun_msg =>
      '(r, stun_msg) ← attribute Fingerprint stun_msg;
      if negb (passed r) then Ret a
      else receive_stun now (ReceivedPkt.Build_t stun_msg (ReceivedPkt.source pkt)
                               (ReceivedPkt.destination pkt) (ReceivedPkt.component pkt)) a
  end.

(** ** Construction and the remote description *)

(** [new_for_offer] and [new_from_answer] *)
Definition new_agent (local : IceCredentials) (remote : option IceCredentials)
    (is_controlling rtcp_mux : bool) (tie_breaker : Z) : IceAgent := {|
  stun_config := stun_config_new; stun_server := []; local_credentials := local;
  remote_credentials := remote; local_candidates := slot_empty; remote_candidates := slot_empty;
  pairs := []; triggered_check_queue := []; rtcp_mux := rtcp_mux;
  is_controlling := is_controlling; control_tie_breaker := tie_breaker; max_pairs := 100;
  gathering_state := GatheringNew; connection_state := ConnNew; last_ta_trigger := None;
  backlog := []; events := [] |}.
Definition new_for_offer (local : IceCredentials) (is_controlling rtcp_mux : bool) (tie_breaker : Z) :=
  new_agent local None is_controlling rtcp_mux tie_breaker.
Definition new_from_answer (local remote : IceCredentials) (is_controlling rtcp_mux : bool)
    (tie_breaker : Z) :=
  new_agent local (Some remote) is_controlling rtcp_mux tie_breaker.

(** The loops of [set_remote_data] *)
Fixpoint exec_fold {A B} (f : B -> A -> exec A) (l : list B) (a : A) : exec A :=
  match l with [] => Ret a | x :: l => a ← f x a; exec_fold f l a end.

(** [set_remote_data] *)
Definition set_remote_data (now : Instant) (credentials : IceCredentials)
    (candidates : list IceCandidate.t) (mux : bool) (a : IceAgent) : exec IceAgent :=
  let a := with_rtcp_mux mux a in
  let a := if mux then
             let a := with_stun_server
                        (filter (fun b => binding_component b = Rtp) (stun_server a)) a in
             with_local_candidates
               (slot_retain (fun _ c => bool_decide (Candidate.component c = Rtp)) (local_candidates a)) a
           else a in
  let a := with_remote_credentials (Some credentials) a in
  a ← exec_fold add_remote_candidate candidates a;
  let pkts := backlog a in
  exec_fold (receive_stun now) pkts (with_backlog [] a).

(** ** Polling *)

(** The loop over the STUN server bindings; [tid i] is the transaction id that
    binding [i] draws if it starts a request. *)
Fixpoint poll_bindings (tid : nat -> TransactionId) (now : Instant) (cfg : StunConfig) (i : nat)
    (bs : list StunServerBinding) : exec (list IceEvent * list StunServerBinding) :=
  match bs with
  | [] => Ret ([], [])
  | b :: bs =>
      '(es, b) ← binding_poll (tid i) now cfg b;
      '(es', bs) ← poll_bindings tid now cfg (S i) bs;
      Ret (es ++ es', b :: bs)
  end.

(** The body of the loop of [poll_retransmit] *)
Definition retransmit_pair (cfg : StunConfig) (now : Instant) (p : CandidatePair)
    : exec (list IceEvent * CandidatePair) :=
  match state p with
  | InProgress tid stun_request retransmit_at retransmits source target =>
      if decide (retransmit_at > now) then Ret ([], p)
      else if decide (retransmits >= max_retransmits cfg) then Ret ([], set_state Failed p)
      else
        let retransmits := retransmits + 1 in
        d ← retransmit_delta cfg retransmits;
        Ret ([SendData (pair_component p) stun_request (Some source) target],
             set_state (InProgress tid stun_request (retransmit_at + d) retransmits source target) p)
  | _ => Ret ([], p)
  end.

Fixpoint retransmit_pairs (cfg : StunConfig) (now : Instant) (ps : list CandidatePair)
    : exec (list IceEvent * list CandidatePair) :=
  match ps with
  | [] => Ret ([], [])
  | p :: ps =>
      '(es, p) ← retransmit_pair cfg now p;
      '(es', ps) ← retransmit_pairs cfg now ps;
      Ret (es ++ es', p :: ps)
  end.

(** [poll_retransmit] *)
Definition poll_retransmit (now : Instant) (a : IceAgent) : exec IceAgent :=
  '(es, ps) ← retransmit_pairs (stun_config a) now (pairs a);
  Ret (with_events (events a ++ es) (with_pairs ps a)).

(** [set_connection_state] *)
Definition set_connection_state (new : IceConnectionState) (a : IceAgent) : IceAgent :=
  if decide (connection_state a <> new) then
    with_connection_state new (push_event (ConnectionStateChanged (connection_state a) new) a)
  else a.

(** The gathering part of [poll_state] *)
Definition poll_gathering (a : IceAgent) : IceAgent :=
  let all_completed := forallb is_completed (stun_server a) in
  if all_completed && bool_decide (gathering_state a <> GatheringComplete) then
    with_gathering_state GatheringComplete
      (push_event (GatheringStateChanged (gathering_state a) GatheringComplete) a)
  else if negb all_completed && bool_decide (gathering_state a <> Gathering) then
    with_gathering_state Gathering
      (push_event (GatheringStateChanged (gathering_state a) Gathering) a)
  else a.

(** The flags of the connection part of [poll_state] *)
Definition has_nomination (c : Component) (a : IceAgent) : bool :=
  existsb (fun p => nominated p && is_succeeded p && bool_decide (pair_component p = c)) (pairs a).
Definition in_progress (c : Component) (a : IceAgent) : bool :=
  existsb (fun p => match state p with Waiting | InProgress _ _ _ _ _ _ => true | _ => false end &&
                    bool_decide (pair_component p = c)) (pairs a).
Definition has_nomination_for_all_components (a : IceAgent) : bool :=
  if rtcp_mux a then has_nomination Rtp a else has_nomination Rtp a && has_nomination Rtcp a.
Definition still_possible (a : IceAgent) : bool :=
  if rtcp_mux a then in_progress Rtp a else in_progress Rtp a && in_progress Rtcp a.

(** [poll_state] *)
Definition poll_state (a : IceAgent) : IceAgent :=
  let a := poll_gathering a in
  if has_nomination_for_all_components a && bool_decide (connection_state a <> ConnConnected) then
    set_connection_state ConnConnected a
  else if negb (has_nomination_for_all_components a) then
    if still_possible a then
      match connection_state a with
      | ConnNew => set_connection_state ConnChecking a
      | ConnConnected => set_connection_state ConnDisconnected a
      | _ => a
      end
    else set_connection_state ConnFailed a
  else a.

(** The pair the next check is for: from the triggered-check queue, or the
    first pair that waits. *)
Definition next_check (a : IceAgent) : option (nat * CandidatePair) * IceAgent :=
  let '(front, queue) := match triggered_check_queue a with
                         | [] => (None, [])
                         | f :: q => (Some f, q)
                         end in
  let triggered := '(local_id, remote_id) ← front; find_pair (is_pair local_id remote_id) (pairs a) in
  let pr := match triggered with
            | Some pr => Some pr
            | None => find_pair (fun p => bool_decide (state p = Waiting)) (pairs a)
            end in
  (pr, with_triggered_check_queue queue a).

(** Starting the connectivity check of a pair *)
Definition start_check (tid : TransactionId) (now : Instant) (creds : IceCredentials)
    (i : nat) (pr : CandidatePair) (a : IceAgent) : exec IceAgent :=
  l ← local_candidate_of a pr;
  stun_request ← make_binding_request Sha1 tid (local_credentials a) creds (Candidate.priority l)
                   (is_controlling a) (control_tie_breaker a) (nominated pr);
  r ← remote_candidate_of a pr;
  let source := addr_ip (Candidate.base l) in
  let target := Candidate.addr r in
  d ← retransmit_delta (stun_config a) 0;
  let a := update_pair i (set_state (InProgress tid stun_request (now + d) 0 source target) pr) a in
  Ret (push_event (SendData (pair_component pr) stun_request (Some source) target) a).

(** The last part of [poll]: at most one new check per 50 ms *)
Definition poll_checks (tid : TransactionId) (now : Instant) (a : IceAgent) : exec IceAgent :=
  match remote_credentials a with
  | None => Ret a
  | Some creds =>
      if (match last_ta_trigger a with
          | Some it => bool_decide (it + from_millis 50 > now)
          | None => false
          end) then Ret a
      else
        let a := with_last_ta_trigger (Some now) a in
        let '(pr, a) := next_check a in
        match pr with
        | None => Ret a
        | Some (i, pr) => start_check tid now creds i pr a
        end
  end.

(** [poll]; [tid 0] is drawn by the check, [tid (S i)] by binding [i]. *)
Definition poll (tid : nat -> TransactionId) (now : Instant) (a : IceAgent) : exec IceAgent :=
  '(es, bs) ← poll_bindings (fun i => tid (S i)) now (stun_config a) 0 (stun_server a);
  let a := with_stun_server bs (with_events (events a ++ es) a) in
  a ← poll_retransmit now a;
  let a := poll_state a in
  a ← poll_nomination a;
  poll_checks (tid 0%nat) now a.

(** [pop_event] *)
Definition pop_event (a : IceAgent) : option IceEvent * IceAgent :=
  match events a with [] => (None, a) | e :: es => (Some e, with_events es a) end.

(** [SocketAddr::port] *)
Definition addr_port (a : SocketAddr) : Z := match a with V4 _ port => port | V6 _ port _ _ => port end.

(** [ice_candidates] *)
Definition ice_candidate (c : Candidate.t) : IceCandidate.t :=
  let rel_addr := if decide (Candidate.kind c = ServerReflexive) then Some (Candidate.base c) else None in
  {| IceCandidate.foundation := Candidate.foundation c;
     IceCandidate.component := component_num (Candidate.component c);
     IceCandidate.transport := [x55; x44; x50];
     IceCandidate.priority := Candidate.priority c;
     IceCandidate.address := IpAddress (addr_ip (Candidate.addr c));
     IceCandidate.port := addr_port (Candidate.addr c);
     IceCandidate.typ := match Candidate.kind c with Host => str_host | _ => str_srflx end;
     IceCandidate.rel_addr := (fun a => IpAddress (addr_ip a)) <$> rel_addr;
     IceCandidate.rel_port := addr_port <$> rel_addr |}.
Definition ice_candidates (a : IceAgent) : list IceCandidate.t :=
  ice_candidate <$> filter (fun c => Candidate.kind c = Host \/ Candidate.kind c = ServerReflexive)
                      (slot_iter (local_candidates a)).*2.

(** [opt_min] and [Iterator::min] on durations *)
Definition opt_min (a b : option Z) : option Z :=
  match a, b with
  | None, b => b
  | a, None => a
  | Some a, Some b => Some (Z.min a b)
  end.

(** [timeout] *)
Definition timeout (now : Instant) (a : IceAgent) : option Duration :=
  let ta := match last_ta_trigger a with
            | Some it => duration_until (it + from_millis 50) now
            | None => 0
            end in
  let stun_bindings := foldr opt_min None (map (binding_timeout now) (stun_server a)) in
  opt_min (Some ta) stun_bindings.
End agent.
