(* ===== verification/IceProps.v ===== *)
(** * What the ICE agent guarantees

    Priorities, the invariant of the agent over every sequence of operations,
    polling without panics, the pace of the checks and the end of the
    retransmissions, nomination, and what unauthenticated messages can do. *)
From stdpp Require Import relations.
From S2P Require Import Prelude Wire Text StunHeader StunMessage StunAttr StunAuth IceStun IceAgent.
Local Open Scope Z_scope.

(** ** Priorities *)

Lemma pair_priority_value (l r : Candidate.t) (ctrl : bool) :
  uint 32 (Candidate.priority l) -> uint 32 (Candidate.priority r) ->
  Candidate.priority l < 2 ^ 32 - 1 \/ Candidate.priority r < 2 ^ 32 - 1 ->
  let g := if ctrl then Candidate.priority l else Candidate.priority r in
  let d := if ctrl then Candidate.priority r else Candidate.priority l in
  pair_priority l r ctrl = 2 ^ 32 * Z.min g d + 2 * Z.max g d + (if decide (g > d) then 1 else 0) /\
  2 ^ 32 * Z.min g d + 2 * Z.max g d + (if decide (g > d) then 1 else 0) < 2 ^ 64.
Proof.
  intros Hl Hr Hlr g d. unfold uint in Hl, Hr. unfold pair_priority.
  set (v := 2 ^ 32 * Z.min g d + 2 * Z.max g d + (if decide (g > d) then 1 else 0)).
  assert (0 <= v < 2 ^ 64) as Hv.
  { subst v g d. destruct ctrl; cbv iota; case_decide; lia. }
  split; [|lia]. subst g d. destruct ctrl; cbn; by apply wrap_id.
Qed.

(** Pair priorities: on 32-bit candidate priorities that are not both the
    maximum, the 64-bit arithmetic does not overflow, the two agents of a
    session (each with its own candidate as the local one, and opposite roles)
    compute the same priority, and a pair of priorities below 2^31 (as
    RFC 8445 demands) ranks below every pair whose smaller candidate priority
    is greater, or is equal with a greater larger one. *)
Theorem pair_priority_agrees (l r : Candidate.t) (ctrl : bool) (l' r' : Candidate.t) (ctrl' : bool) :
  uint 32 (Candidate.priority l) -> uint 32 (Candidate.priority r) ->
  uint 32 (Candidate.priority l') -> uint 32 (Candidate.priority r') ->
  Candidate.priority l < 2 ^ 32 - 1 -> Candidate.priority l' < 2 ^ 32 - 1 ->
  let lo a b := Z.min (Candidate.priority a) (Candidate.priority b) in
  let hi a b := Z.max (Candidate.priority a) (Candidate.priority b) in
  pair_priority l r ctrl = pair_priority r l (negb ctrl) /\
  uint 64 (pair_priority l r ctrl) /\
  (hi l r < 2 ^ 31 -> lo l r < lo l' r' \/ lo l r = lo l' r' /\ hi l r < hi l' r' ->
   pair_priority l r ctrl < pair_priority l' r' ctrl').
Proof.
  intros Hl Hr Hl' Hr' Hm Hm' lo hi.
  destruct (pair_priority_value l r ctrl Hl Hr (or_introl Hm)) as [E B].
  destruct (pair_priority_value r l (negb ctrl) Hr Hl (or_intror Hm)) as [E1 _].
  destruct (pair_priority_value l' r' ctrl' Hl' Hr' (or_introl Hm')) as [E2 _].
  unfold uint in *. rewrite E, E1, E2. subst lo hi. cbv beta. clear E E1 E2 B.
  split; [by destruct ctrl|]. split; [destruct ctrl; cbv iota; case_decide; lia|].
  intros Hhi Hlt. destruct ctrl, ctrl'; cbv iota; do 2 case_decide; lia.
Qed.

Definition candidate_with (p : Z) : Candidate.t := {|
  Candidate.addr := V4 0 0; Candidate.kind := Host; Candidate.priority := p;
  Candidate.foundation := []; Candidate.component := Rtp; Candidate.base := V4 0 0 |}.

Lemma pair_priority_agrees_witness :
  pair_priority (candidate_with 10) (candidate_with 20) true =
    pair_priority (candidate_with 20) (candidate_with 10) false /\
  pair_priority (candidate_with 10) (candidate_with 20) true <
    pair_priority (candidate_with 11) (candidate_with 12) true.
Proof.
  destruct (pair_priority_agrees (candidate_with 10) (candidate_with 20) true
    (candidate_with 11) (candidate_with 12) true) as (H1 & _ & H2); [by vm_compute..|].
  split; [exact H1|]. apply H2; [by vm_compute|]. by left.
Defined.

Lemma offset_value kind :
  local_preference_offset kind =
    match kind with Host => 49149 | PeerReflexive => 32766 | ServerReflexive => 16383 end.
Proof. by destruct kind. Qed.

(** The offset keeps the counts of the kinds apart. *)
Lemma candidate_priority_value kind component n :
  (Z.of_nat n <= 16386) ->
  candidate_priority kind component n =
    kind_num kind * 2 ^ 24 + (local_preference_offset kind + Z.of_nat n) * 2 ^ 8 +
      (256 - component_num component) /\
  local_preference_offset kind + Z.of_nat n < 2 ^ 16.
Proof.
  intros Hn. unfold candidate_priority. rewrite !Z.shiftl_mul_pow2 by lia.
  assert (0 <= local_preference_offset kind /\ local_preference_offset kind + Z.of_nat n < 2 ^ 16) as [Ho Hb].
  { rewrite offset_value. destruct kind; lia. }
  assert (100 <= kind_num kind <= 126) as Hk by (destruct kind; cbn; lia).
  assert (1 <= component_num component <= 2) as Hc by (destruct component; cbn; lia).
  split; [|done].
  rewrite (wrap_id 32 (Z.of_nat n)) by (unfold uint; lia).
  rewrite (wrap_id 32 (Z.of_nat n + _)) by (unfold uint; lia).
  rewrite (wrap_id 32 (kind_num kind * _)) by (unfold uint; lia).
  rewrite (wrap_id 32 (_ * 2 ^ 8)) by (unfold uint; lia).
  rewrite wrap_id by (unfold uint; lia). lia.
Qed.

(** Priorities of local candidates: for the first 16387 candidates of each
    kind no arithmetic overflows, the priority is the one of RFC 8445
    (2^24 * type preference + 2^8 * local preference + 256 - component) with
    a local preference below 2^16, it is positive and below 2^31, host
    candidates rank above peer-reflexive ones and those above server-reflexive
    ones, and the priorities of one component are all different. *)
Theorem candidate_priority_spec kind component n kind' component' n' :
  Z.of_nat n <= 16386 -> Z.of_nat n' <= 16386 ->
  candidate_priority kind component n =
    2 ^ 24 * kind_num kind + 2 ^ 8 * (local_preference_offset kind + Z.of_nat n) +
      (256 - component_num component) /\
  local_preference_offset kind + Z.of_nat n < 2 ^ 16 /\
  0 < candidate_priority kind component n < 2 ^ 31 /\
  (kind_num kind' < kind_num kind ->
   candidate_priority kind' component' n' < candidate_priority kind component n) /\
  (candidate_priority kind component n = candidate_priority kind' component' n' ->
   kind = kind' /\ component = component' /\ n = n').
Proof.
  intros Hn Hn'. destruct (candidate_priority_value kind component n Hn) as [E B].
  destruct (candidate_priority_value kind' component' n' Hn') as [E' B'].
  rewrite E, E'. rewrite !offset_value in *. destruct kind, kind', component, component'; cbn in *;
    repeat split; try done; try lia.
Qed.

Lemma candidate_priority_spec_witness :
  candidate_priority Host Rtp 0 = 2126511615 /\
  candidate_priority PeerReflexive Rtp 7 < candidate_priority Host Rtcp 3.
Proof.
  split.
  - destruct (candidate_priority_spec Host Rtp 0 Host Rtp 0 ltac:(lia) ltac:(lia)) as (-> & _). reflexivity.
  - apply (candidate_priority_spec Host Rtcp 3 PeerReflexive Rtp 7); [lia|lia|reflexivity].
Defined.

(** ** The invariant *)
Section invariant.
Context `{WL : WireLaws} (Sha1 : Digest) {DL : DigestLaws Sha1} {Fnd : Foundation}.
Context {L R LMap RMap : Type} {SP : SortPairs L R} {SL : SortLaws L R}.
Context {LM : SlotMap L LMap} {LML : SlotMapLaws L LMap} {RM : SlotMap R RMap} {RML : SlotMapLaws R RMap}.
#[local] Existing Instance MessageIntegrity_attr.
#[local] Abbreviation Pair := (CandidatePair L R).
#[local] Abbreviation Agent := (@IceAgent L R LMap RMap).
Implicit Types (a : Agent) (p q : Pair) (ps : list Pair).

(** *** The slot maps *)
Lemma slot_get_insert {K M} `{SlotMapLaws K M} c (m : M) (k : K) m' k' c' :
  slot_insert c m = (k, m') ->
  slot_get m' k' = Some c' <-> (k' = k /\ c' = c) \/ slot_get m k' = Some c'.
Proof.
  intros Hi. rewrite !slot_get_iter. rewrite (slot_insert_iter _ _ _ _ Hi), elem_of_cons.
  naive_solver.
Qed.

Lemma slot_get_retain {K M} `{SlotMapLaws K M} f (m : M) (k : K) c :
  slot_get (slot_retain f m) k = Some c <-> slot_get m k = Some c /\ f k c = true.
Proof. rewrite !slot_get_iter, slot_retain_iter, list_elem_of_filter. naive_solver. Qed.

(** *** Pairs *)
Definition ids (p : Pair) : L * R := (local p, remote p).

Definition state_ok (s : CandidatePairState) : Prop :=
  match s with InProgress _ _ _ n _ _ => 0 <= n <= 7 | _ => True end.

(** A pair is between two candidates that exist, of the local one's component,
    with the priority the role gives it. *)
Definition pair_ok (lm : LMap) (rm : RMap) (ctrl : bool) (p : Pair) : Prop :=
  exists l r, slot_get lm (local p) = Some l /\ slot_get rm (remote p) = Some r /\
    pair_component p = Candidate.component l /\ pair_prio p = pair_priority l r ctrl /\
    state_ok (state p).

Definition is_nominated (c : Component) (p : Pair) : Prop := nominated p = true /\ pair_component p = c.
#[local] Instance is_nominated_dec c p : Decision (is_nominated c p).
Proof. unfold is_nominated. apply _. Defined.

Definition nominations (c : Component) (ps : list Pair) : nat := length (filter (is_nominated c) ps).

(** The checklist, in any order ... *)
Record checklist (lm : LMap) (rm : RMap) (ctrl : bool) (ps : list Pair) : Prop := {
  cl_nodup : NoDup (ids <$> ps);
  cl_pairs : Forall (pair_ok lm rm ctrl) ps;
  cl_nominated c : (nominations c ps <= 1)%nat }.

(** ... and as the agent keeps it, by ascending priority. *)
Definition by_prio (p q : Pair) : Prop := pair_prio p <= pair_prio q.

#[export] Instance nominations_perm c : Proper ((≡ₚ) ==> eq) (nominations c).
Proof. intros ps qs E. unfold nominations. by rewrite E. Qed.

Lemma checklist_perm lm rm ctrl ps qs : ps ≡ₚ qs -> checklist lm rm ctrl ps -> checklist lm rm ctrl qs.
Proof.
  intros E [H1 H2 H3]. split.
  - by rewrite <-E.
  - by rewrite <-E.
  - intros c. rewrite <-E. apply H3.
Qed.

Lemma checklist_sort lm rm ctrl ps :
  checklist lm rm ctrl ps -> checklist lm rm ctrl (sort_pairs ps) /\ StronglySorted by_prio (sort_pairs ps).
Proof.
  intros Hc. split; [|apply sort_sorted].
  eapply checklist_perm; [|exact Hc]. symmetry. apply sort_permutation.
Qed.

Lemma nominations_app c ps qs : nominations c (ps ++ qs) = (nominations c ps + nominations c qs)%nat.
Proof. unfold nominations. by rewrite filter_app, length_app. Qed.

Lemma checklist_take lm rm ctrl n ps : checklist lm rm ctrl ps -> checklist lm rm ctrl (take n ps).
Proof.
  intros [H1 H2 H3]. rewrite <-(take_drop n ps) in H1, H2, H3. split.
  - rewrite fmap_app in H1. by apply NoDup_app in H1 as (? & _).
  - by apply Forall_app in H2 as [? _].
  - intros c. specialize (H3 c). rewrite nominations_app in H3. lia.
Qed.

Lemma sorted_take n ps : StronglySorted by_prio ps -> StronglySorted by_prio (take n ps).
Proof.
  intros Hs. revert n. induction Hs as [|p ps Hs IH Hp]; intros [|n]; cbn; try constructor; auto.
  by apply Forall_take.
Qed.

Lemma existsb_is_pair l r ps : existsb (is_pair l r) ps = true <-> (l, r) ∈ ids <$> ps.
Proof.
  rewrite existsb_exists, list_elem_of_fmap. unfold is_pair. split.
  - intros (p & Hp & [<- <-]%bool_decide_eq_true_1). exists p. by rewrite list_elem_of_In.
  - intros (p & [= -> ->] & Hp). exists p. rewrite <-list_elem_of_In. split; [done|].
    by apply bool_decide_eq_true_2.
Qed.

Lemma checklist_add lm rm ctrl l lc r rc uc ps :
  slot_get lm l = Some lc -> slot_get rm r = Some rc -> checklist lm rm ctrl ps ->
  checklist lm rm ctrl (add_candidate_pair l lc r rc ctrl uc ps).
Proof.
  intros Hl Hr Hc. unfold add_candidate_pair.
  destruct (existsb (is_pair l r) ps) eqn:E; [done|].
  assert ((l, r) ∉ ids <$> ps) as Hnot by (rewrite <-existsb_is_pair, E; done).
  apply checklist_sort. destruct Hc as [H1' H2' H3']. split.
  - rewrite fmap_app. apply NoDup_app. split; [done|]. split; [|apply NoDup_singleton].
    intros x Hx ->%list_elem_of_singleton. done.
  - rewrite Forall_app, Forall_singleton. split; [done|]. by exists lc, rc.
  - intros c. rewrite nominations_app. specialize (H3' c). unfold nominations at 2.
    rewrite filter_cons_False by (by intros [??]). cbn. lia.
Qed.

(** A change of a pair that leaves its ends and its priority alone. *)
Lemma insert_ids i p q ps : ps !! i = Some p -> ids q = ids p -> ids <$> <[i := q]> ps = ids <$> ps.
Proof. intros Hi E. rewrite list_fmap_insert, E. apply list_insert_id. by rewrite list_lookup_fmap, Hi. Qed.

Lemma nominations_insert c i p q ps :
  ps !! i = Some p ->
  (nominations c (<[i := q]> ps) + (if decide (is_nominated c p) then 1 else 0) =
   nominations c ps + (if decide (is_nominated c q) then 1 else 0))%nat.
Proof.
  intros Hi. pose proof (lookup_lt_Some _ _ _ Hi) as Hlt.
  rewrite insert_take_drop by done. rewrite <-(take_drop_middle ps i p Hi) at 3.
  rewrite !nominations_app. unfold nominations.
  rewrite !filter_cons. repeat case_decide; cbn; lia.
Qed.

Lemma checklist_insert lm rm ctrl i p q ps :
  ps !! i = Some p -> ids q = ids p -> pair_component q = pair_component p ->
  pair_prio q = pair_prio p -> state_ok (state q) ->
  (nominated q = true -> nominated p = true \/ nominations (pair_component p) ps = 0%nat) ->
  checklist lm rm ctrl ps -> checklist lm rm ctrl (<[i := q]> ps).
Proof.
  intros Hi Hids Hcomp Hprio Hst Hnom [H1' H2' H3']. split.
  - by rewrite (insert_ids _ p).
  - apply Forall_insert; [done|]. pose proof (Forall_lookup_1 _ _ _ _ H2' Hi) as (l & r & Hl & Hr & Hc & Hp & _).
    injection Hids as El Er. exists l, r. rewrite El, Er, Hcomp, Hprio. done.
  - intros c. pose proof (nominations_insert c i p q ps Hi) as E. specialize (H3' c).
    destruct (decide (is_nominated c q)) as [[Hq <-]|]; [|case_decide; lia].
    rewrite Hcomp in *.
    destruct (Hnom Hq) as [Hn|Hn]; [|case_decide; lia].
    rewrite decide_True in E by done. lia.
Qed.

Lemma sorted_insert i p q ps :
  ps !! i = Some p -> pair_prio q = pair_prio p ->
  StronglySorted by_prio ps -> StronglySorted by_prio (<[i := q]> ps).
Proof.
  intros Hi E Hs. revert i Hi. induction Hs as [|r ps Hs IH Hr]; intros [|i] Hi; cbn in *; [done..| |].
  - injection Hi as ->. constructor; [done|]. eapply Forall_impl; [exact Hr|].
    unfold by_prio. intros x. by rewrite E.
  - constructor; [by apply IH|]. apply Forall_insert; [done|].
    pose proof (Forall_lookup_1 _ _ _ _ Hr Hi) as Hx. unfold by_prio in *. by rewrite E.
Qed.

Lemma checklist_mono lm rm lm' rm' ctrl ps :
  (forall k c, slot_get lm k = Some c -> slot_get lm' k = Some c) ->
  (forall k c, slot_get rm k = Some c -> slot_get rm' k = Some c) ->
  checklist lm rm ctrl ps -> checklist lm' rm' ctrl ps.
Proof.
  intros Hl Hr [H1' H2' H3']. split; [done| |done].
  eapply Forall_impl; [exact H2'|]. intros p (l & r & El & Er & Hrest).
  exists l, r. split; [by apply Hl|]. by split; [apply Hr|].
Qed.

(** *** The agent *)
Definition binding_ok (b : StunServerBinding) : Prop :=
  match binding_state b with BindingInProgress _ _ _ n => 0 <= n <= 7 | _ => True end.

Record agent_wf (a : Agent) : Prop := {
  wf_checklist : checklist (local_candidates a) (remote_candidates a) (is_controlling a) (pairs a);
  wf_sorted : StronglySorted by_prio (pairs a);
  wf_local k c : slot_get (local_candidates a) k = Some c -> uint 32 (Candidate.priority c);
  wf_remote k c : slot_get (remote_candidates a) k = Some c -> uint 32 (Candidate.priority c);
  wf_config : stun_config a = stun_config_new;
  wf_tie_breaker : uint 64 (control_tie_breaker a);
  wf_credentials : cred_ok (local_credentials a);
  wf_remote_credentials c : remote_credentials a = Some c -> cred_ok c;
  wf_bindings : Forall binding_ok (stun_server a);
  wf_backlog : Forall (fun pkt => msg_wf (ReceivedPkt.data pkt)) (backlog a) }.

(** An assignment to fields the invariant does not read. *)
Ltac wf_fields := intros []; split; cbn; auto.

Lemma with_pairs_wf a ps :
  checklist (local_candidates a) (remote_candidates a) (is_controlling a) ps ->
  StronglySorted by_prio ps -> agent_wf a -> agent_wf (with_pairs ps a).
Proof. intros Hc Hs. wf_fields. Qed.

Lemma push_event_wf e a : agent_wf a -> agent_wf (push_event e a).
Proof. wf_fields. Qed.

Lemma with_queue_wf queue a : agent_wf a -> agent_wf (with_triggered_check_queue queue a).
Proof. wf_fields. Qed.

Lemma form_pair_checklist lm rm ctrl lc rc ps :
  lc ∈ slot_iter lm -> rc ∈ slot_iter rm ->
  checklist lm rm ctrl ps -> checklist lm rm ctrl (form_pair ctrl lc rc ps).
Proof.
  destruct lc as [l lc], rc as [r rc]. intros Hl%slot_get_iter Hr%slot_get_iter Hc. unfold form_pair.
  case_decide; [done|]. case_decide; [done|]. destruct (existsb _ _); [done|].
  destruct (negb _); [done|]. by apply checklist_add.
Qed.

Lemma form_pairs_wf a : agent_wf a -> agent_wf (form_pairs a).
Proof.
  intros Ha. unfold form_pairs, prune_pairs.
  set (ps := foldl _ (pairs a) _).
  assert (checklist (local_candidates a) (remote_candidates a) (is_controlling a) ps) as Hps.
  { subst ps. apply foldl_preserves; [apply Ha|].
    intros ps lc Hl Hc. apply foldl_preserves; [done|]. intros ps' rc Hr Hc'.
    by apply form_pair_checklist. }
  destruct (checklist_sort _ _ _ _ Hps) as [Hc Hs]. clearbody ps.
  apply (checklist_take _ _ _ (max_pairs a)) in Hc. apply (sorted_take (max_pairs a)) in Hs.
  exact (with_pairs_wf a _ Hc Hs Ha).
Qed.

(** A new candidate in one of the maps, then the pairs it makes. *)
Lemma insert_local_wf c k m a :
  slot_insert c (local_candidates a) = (k, m) -> uint 32 (Candidate.priority c) ->
  agent_wf a -> agent_wf (with_local_candidates m a).
Proof.
  intros Hi Hu []. split; cbn; auto.
  - eapply checklist_mono; [|done|done]. intros k' c' Hk. apply (slot_get_insert _ _ _ _ _ _ Hi). by right.
  - intros k' c' Hk. apply (slot_get_insert _ _ _ _ _ _ Hi) in Hk as [[-> ->]|Hk]; eauto.
Qed.

Lemma insert_remote_wf c k m a :
  slot_insert c (remote_candidates a) = (k, m) -> uint 32 (Candidate.priority c) ->
  agent_wf a -> agent_wf (with_remote_candidates m a).
Proof.
  intros Hi Hu []. split; cbn; auto.
  - eapply checklist_mono; [done| |done]. intros k' c' Hk. apply (slot_get_insert _ _ _ _ _ _ Hi). by right.
  - intros k' c' Hk. apply (slot_get_insert _ _ _ _ _ _ Hi) in Hk as [[-> ->]|Hk]; eauto.
Qed.

Lemma candidate_priority_uint kind component n : uint 32 (candidate_priority kind component n).
Proof. by apply (wrap_uint 32). Qed.

Lemma add_local_candidate_wf component kind base addr a :
  agent_wf a -> agent_wf (add_local_candidate component kind base addr a).
Proof.
  intros Ha. unfold add_local_candidate. destruct (existsb _ _); [done|].
  destruct (slot_insert _ (local_candidates a)) as [k m] eqn:E. apply form_pairs_wf.
  eapply insert_local_wf; [exact E| |done]. apply candidate_priority_uint.
Qed.

Lemma add_host_addr_wf component addr a : agent_wf a -> agent_wf (add_host_addr component addr a).
Proof.
  intros Ha. unfold add_host_addr. destruct (_ || _); [done|].
  destruct (match addr with V4 _ _ => _ | V6 _ _ _ _ => _ end); [done|]. by apply add_local_candidate_wf.
Qed.

Lemma add_stun_server_wf server a : agent_wf a -> agent_wf (add_stun_server server a).
Proof.
  intros Ha. unfold add_stun_server. destruct (negb _); destruct Ha; split; cbn; auto.
  - rewrite !Forall_app, !Forall_singleton. done.
  - rewrite !Forall_app, !Forall_singleton. done.
Qed.

Lemma add_remote_candidate_wf candidate a a' :
  add_remote_candidate candidate a = Ret a' -> agent_wf a -> agent_wf a'.
Proof.
  unfold add_remote_candidate. intros E Ha.
  destruct (if decide _ then _ else _) as [kind|]; [|by injection E as <-].
  destruct (negb _); [by injection E as <-|].
  destruct (if decide _ then _ else _) as [component|]; [|by injection E as <-].
  destruct (IceCandidate.address candidate) as [|ip]; [by injection E as <-|].
  unfold try_from_uint in E. case_decide as Hu; [|done]. cbn [unwrap_res mbind exec_bind] in E.
  destruct (slot_insert _ (remote_candidates a)) as [k m] eqn:Em. injection E as <-.
  apply form_pairs_wf. by eapply insert_remote_wf.
Qed.

(** *** Looking at a received message *)
Lemma attribute_total (A : Type) `{SafeAttribute A unit} msg :
  msg_wf msg -> exists r, attribute A msg = Ret (r, msg).
Proof. intros Hm. apply (safe_total A msg Hm tt). Qed.

Lemma verify_integrity_total loc rem msg :
  msg_wf msg -> exists b, verify_integrity Sha1 loc rem msg = Ret (b, msg).
Proof.
  intros Hm. unfold verify_integrity. cbv zeta.
  match goal with |- context [Sha1Key ?key] =>
    destruct (safe_total MessageIntegrity msg Hm (Sha1Key key)) as [r ->] end.
  cbn [mbind exec_bind]. destruct (negb _); [by eexists|]. destruct (is_request _); [|by eexists].
  destruct (attribute_total Username msg Hm) as [u ->]. cbn [mbind exec_bind].
  destruct u as [[[u]|]|]; [case_decide; by eexists|by eexists|by eexists].
Qed.

Lemma priority_range msg (prio : Z) msg' :
  attribute Priority msg = Ret (Some (Ok (Prio prio)), msg') -> uint 32 prio.
Proof.
  unfold attribute, attribute_with. destruct (find_attribute _ _ _) as [s|]; [|done].
  cbn [decode Priority_attr]. unfold decode_from.
  destruct (get_value s (Message.buffer msg)) as [v|]; [|done]. cbn [mbind exec_bind].
  unfold fixed_decode. case_decide as Hl; [done|]. destruct (read_n 4 v) as [[n r]|] eqn:E; [|done].
  cbn. intros [= <- _]. apply read_n_Ok in E as (H4 & -> & _).
  pose proof (be_val_range (take 4 v)) as Hr. rewrite length_take, Nat.min_l in Hr by done. exact Hr.
Qed.

(** *** Changing one pair *)
Lemma find_pair_Some f ps i p : find_pair f ps = Some (i, p) -> ps !! i = Some p /\ f p = true.
Proof.
  unfold find_pair. destruct (position f ps) as [j|] eqn:E; [|done]. cbn [mbind option_bind].
  apply position_Some in E as (x & Hx & Hf & _). rewrite Hx. cbn. intros [= <- <-]. done.
Qed.

Lemma update_pair_wf i p q a :
  pairs a !! i = Some p -> ids q = ids p -> pair_component q = pair_component p ->
  pair_prio q = pair_prio p -> state_ok (state q) ->
  (nominated q = true -> nominated p = true \/ nominations (pair_component p) (pairs a) = 0%nat) ->
  agent_wf a -> agent_wf (update_pair i q a).
Proof.
  intros Hi Hids Hc Hp Hs Hn Ha. apply with_pairs_wf; [| |done].
  - eapply checklist_insert; eauto. apply Ha.
  - eapply sorted_insert; eauto. apply Ha.
Qed.

Lemma pair_state_ok i p a : agent_wf a -> pairs a !! i = Some p -> state_ok (state p).
Proof.
  intros Ha Hi. pose proof (Forall_lookup_1 _ _ _ _ (cl_pairs _ _ _ _ (wf_checklist _ Ha)) Hi)
    as (l & r & _ & _ & _ & _ & Hs). exact Hs.
Qed.

Lemma pair_candidates a p :
  agent_wf a -> p ∈ pairs a ->
  exists l r, local_candidate_of a p = Ret l /\ remote_candidate_of a p = Ret r /\
    pair_component p = Candidate.component l /\
    uint 32 (Candidate.priority l) /\ uint 32 (Candidate.priority r).
Proof.
  intros Ha Hp.
  destruct (proj1 (List.Forall_forall _ _) (cl_pairs _ _ _ _ (wf_checklist _ Ha)) p
    (proj1 (list_elem_of_In _ _) Hp)) as (l & r & Hl & Hr & Hc & _).
  exists l, r. unfold local_candidate_of, remote_candidate_of. rewrite Hl, Hr.
  do 3 (split; [done|]). split; [by eapply wf_local|by eapply wf_remote].
Qed.

(** *** Switching the role *)
Lemma recompute_each_spec a ctrl ps :
  Forall (pair_ok (local_candidates a) (remote_candidates a) ctrl) ps ->
  exists qs, recompute_each a ps = Ret qs /\
    Forall (pair_ok (local_candidates a) (remote_candidates a) (is_controlling a)) qs /\
    ids <$> qs = ids <$> ps /\ forall c, nominations c qs = nominations c ps.
Proof.
  induction 1 as [|p ps (l & r & Hl & Hr & Hc & Hp & Hs) _ (qs & E & Hq & Hids & Hn)]; cbn.
  - by exists [].
  - unfold local_candidate_of, remote_candidate_of. rewrite Hl, Hr, E. cbn.
    eexists. split; [done|]. split; [|split].
    + constructor; [|done]. by exists l, r.
    + cbn. f_equal. exact Hids.
    + intros c. specialize (Hn c). unfold nominations in *. rewrite !filter_cons.
      destruct (decide (is_nominated c (set_pair_prio _ p))) as [H1|H1],
        (decide (is_nominated c p)) as [H2|H2]; cbn; try (by destruct H1, H2); try (by rewrite Hn).
Qed.

Lemma recompute_wf a ctrl :
  agent_wf (with_is_controlling ctrl a) ->
  exists a', recompute_pair_priorities a = Ret a' /\ agent_wf a'.
Proof.
  intros Ha. destruct (wf_checklist _ Ha) as [H1 H2 H3]. cbn in H1, H2, H3.
  destruct (recompute_each_spec a ctrl (pairs a) H2) as (qs & E & Hq & Hids & Hn).
  unfold recompute_pair_priorities. rewrite E. cbn [mbind exec_bind]. eexists. split; [done|].
  assert (checklist (local_candidates a) (remote_candidates a) (is_controlling a) qs) as Hc.
  { split; [by rewrite Hids|done|]. intros c. rewrite Hn. apply H3. }
  destruct (checklist_sort _ _ _ _ Hc) as [Hc' Hs]. destruct Ha. by split; cbn.
Qed.

Lemma with_is_controlling_wf ctrl a :
  agent_wf a -> agent_wf (with_is_controlling (is_controlling a) (with_is_controlling ctrl a)).
Proof. wf_fields. Qed.

Lemma switch_role_wf ctrl a :
  agent_wf a ->
  exists a', recompute_pair_priorities (with_is_controlling ctrl a) = Ret a' /\ agent_wf a'.
Proof. intros Ha. by eapply recompute_wf, with_is_controlling_wf. Qed.

(** *** Nomination *)
Lemma max_by_prio_Some (ips : list (nat * Pair)) ip :
  max_by_prio ips = Some ip -> ip ∈ ips /\ forall jq, jq ∈ ips -> pair_prio jq.2 <= pair_prio ip.2.
Proof.
  revert ip. induction ips as [|ip' ips IH]; intros ip; cbn; [done|].
  destruct (max_by_prio ips) as [jq|] eqn:E.
  - destruct (IH jq eq_refl) as [Hin Hmax]. case_decide as Hd; intros [= <-].
    + split; [by right|]. intros kr [->|Hk]%elem_of_cons; auto.
    + split; [left|]. intros kr [->|Hk]%elem_of_cons; [lia|]. specialize (Hmax _ Hk). lia.
  - intros [= ->]. split; [left|]. intros kr [->|Hk]%elem_of_cons; [lia|].
    destruct ips; [by apply elem_of_nil in Hk|]. cbn in E. destruct (max_by_prio ips); [case_decide|]; done.
Qed.

Lemma elem_of_imap_pair (ps : list Pair) i p : (i, p) ∈ imap (fun i p => (i, p)) ps <-> ps !! i = Some p.
Proof.
  rewrite elem_of_lookup_imap. split.
  - intros (j & q & [= -> ->] & Hj). done.
  - intros Hi. by exists i, p.
Qed.

(** The pair chosen for nomination passes the test, and none that does ranks
    above it. *)
Lemma best_pair_Some f ps i p :
  best_pair f ps = Some (i, p) ->
  ps !! i = Some p /\ f p = true /\
  forall j q, ps !! j = Some q -> f q = true -> pair_prio q <= pair_prio p.
Proof.
  unfold best_pair. intros [Hin Hmax]%max_by_prio_Some.
  apply list_elem_of_filter in Hin as [Hf Hin]. apply elem_of_imap_pair in Hin.
  split; [done|]. split; [done|]. intros j q Hj Hq. apply (Hmax (j, q)).
  apply list_elem_of_filter. split; [done|]. by apply elem_of_imap_pair.
Qed.

Lemma nominations_zero c ps :
  existsb (fun p => bool_decide (pair_component p = c) && nominated p) ps = false -> nominations c ps = 0%nat.
Proof.
  intros E. unfold nominations. induction ps as [|p ps IH]; [done|]. cbn in E.
  apply orb_false_iff in E as [E1 E2]. rewrite filter_cons_False; [by apply IH|].
  intros [Hn Hc]. rewrite bool_decide_eq_true_2, Hn in E1 by done. done.
Qed.

Lemma nominations_zero_all c ps : existsb nominated ps = false -> nominations c ps = 0%nat.
Proof.
  intros E. unfold nominations. induction ps as [|p ps IH]; [done|]. cbn in E.
  apply orb_false_iff in E as [E1 E2]. rewrite filter_cons_False; [by apply IH|]. intros [Hn _]. congruence.
Qed.

Lemma poll_nomination_of_component_wf c a :
  agent_wf a -> exists a', poll_nomination_of_component c a = Ret a' /\ agent_wf a'.
Proof.
  intros Ha. unfold poll_nomination_of_component. destruct (is_controlling a).
  - destruct (existsb _ _) eqn:E; [by exists a|].
    destruct (best_pair _ _) as [[i p]|] eqn:Eb; [|by exists a]. eexists. split; [done|].
    apply best_pair_Some in Eb as (Hi & Hf & _). apply andb_true_iff in Hf as [Hc%bool_decide_eq_true_1 _].
    apply with_queue_wf. eapply update_pair_wf; try done; [exact (pair_state_ok i p a Ha Hi)|].
    intros _. right. rewrite Hc. by apply nominations_zero.
  - destruct (existsb _ _) eqn:E; [by exists a|].
    destruct (best_pair _ _) as [[i p]|] eqn:Eb; [|by exists a].
    apply best_pair_Some in Eb as (Hi & Hf & _).
    destruct (pair_candidates a p Ha) as (l & r & _ & Hr & _); [by eapply list_elem_of_lookup_2|].
    assert (remote_candidate_of (update_pair i (set_nominated true p) a) p = Ret r) as -> by exact Hr.
    cbn [mbind exec_bind]. eexists. split; [done|]. apply push_event_wf.
    eapply update_pair_wf; try done; [exact (pair_state_ok i p a Ha Hi)|].
    intros _. right. by apply nominations_zero_all.
Qed.

Lemma poll_nomination_wf a :
  agent_wf a -> exists a', poll_nomination a = Ret a' /\ agent_wf a'.
Proof.
  intros Ha. unfold poll_nomination.
  destruct (poll_nomination_of_component_wf Rtp a Ha) as (a1 & -> & Ha1). cbn [mbind exec_bind].
  destruct (rtcp_mux a1); [by exists a1|]. by apply poll_nomination_of_component_wf.
Qed.

(** *** Received messages *)
Definition pkt_wf (pkt : ReceivedPkt.t Message.t) : Prop := msg_wf (ReceivedPkt.data pkt).

Lemma with_backlog_wf pkts a : Forall pkt_wf pkts -> agent_wf a -> agent_wf (with_backlog pkts a).
Proof. intros Hp. wf_fields. Qed.

Lemma backlog_push_wf pkt a : pkt_wf pkt -> agent_wf a -> agent_wf (with_backlog (backlog a ++ [pkt]) a).
Proof.
  intros Hp Ha. apply with_backlog_wf; [|done]. rewrite Forall_app, Forall_singleton.
  split; [apply Ha|done].
Qed.

Lemma discover_peer_reflexive_wf p msg destination a a' :
  discover_peer_reflexive p msg destination a = Ret a' -> agent_wf a -> agent_wf a'.
Proof.
  intros E Ha. unfold discover_peer_reflexive in E.
  apply exec_bind_Ret_inv in E as ([mapped m] & _ & E).
  destruct mapped as [[[addr]|]|]; [|by injection E as <-|by injection E as <-].
  apply exec_bind_Ret_inv in E as (l & _ & E). case_decide; injection E as <-; [|done].
  by apply add_local_candidate_wf.
Qed.

Lemma receive_check_success_wf pkt a a' :
  pkt_wf pkt -> receive_check_success Sha1 pkt a = Ret a' -> agent_wf a -> agent_wf a'.
Proof.
  intros Hm E Ha. unfold receive_check_success in E.
  destruct (remote_credentials a) as [creds|]; [|injection E as <-; by apply backlog_push_wf].
  destruct (verify_integrity_total (local_credentials a) creds (ReceivedPkt.data pkt) Hm) as [b Eb].
  rewrite Eb in E. cbn [mbind exec_bind] in E. destruct (negb b); [by injection E as <-|].
  destruct (find_pair _ _) as [[i p]|] eqn:Ef; [|by injection E as <-].
  apply find_pair_Some in Ef as [Hi _]. destruct (state p) as [|tid req at_ n src tgt| |]; try done.
  case_decide.
  - apply exec_bind_Ret_inv in E as (a1 & E1 & E). eapply discover_peer_reflexive_wf; [exact E|].
    assert (agent_wf a1 /\ pairs a1 = pairs a) as [Ha1 Hps].
    { destruct (nominated p); [|by injection E1 as <-].
      apply exec_bind_Ret_inv in E1 as (l & _ & E1). apply exec_bind_Ret_inv in E1 as (r & _ & E1).
      injection E1 as <-. split; [by apply push_event_wf|done]. }
    apply (update_pair_wf i p (set_state Succeeded p) a1); try done; [by rewrite Hps|by left].
  - eapply discover_peer_reflexive_wf; [exact E|]. by eapply update_pair_wf.
Qed.

Lemma find_binding_Some tsx bs i b : find_binding tsx bs = Some (i, b) -> bs !! i = Some b.
Proof.
  unfold find_binding. destruct (position _ bs) as [j|]; [|done]. cbn [mbind option_bind].
  destruct (bs !! j) as [x|] eqn:E; [|done]. cbn. by intros [= <- <-].
Qed.

Lemma receive_stun_success_wf now pkt a a' :
  pkt_wf pkt -> receive_stun_success Sha1 now pkt a = Ret a' -> agent_wf a -> agent_wf a'.
Proof.
  intros Hm E Ha. unfold receive_stun_success in E.
  destruct (find_binding _ _) as [[i b]|] eqn:Ef; [|by eapply receive_check_success_wf].
  apply find_binding_Some in Ef. apply exec_bind_Ret_inv in E as ([addr b'] & Eb & E).
  assert (binding_ok b') as Hb.
  { unfold receive_stun_response in Eb. apply exec_bind_Ret_inv in Eb as ([r m] & _ & Eb).
    destruct r as [r|].
    - apply exec_bind_Ret_inv in Eb as ([x] & _ & Eb). by injection Eb as _ <-.
    - injection Eb as _ <-. apply (Forall_lookup_1 _ _ _ _ (wf_bindings _ Ha) Ef). }
  assert (agent_wf (with_stun_server (<[i:=b']> (stun_server a)) a)) as Ha'.
  { destruct Ha. split; cbn; auto. by apply Forall_insert. }
  destruct addr as [addr|]; injection E as <-; [by apply add_local_candidate_wf|done].
Qed.

Lemma receive_stun_error_wf pkt a a' :
  pkt_wf pkt -> receive_stun_error Sha1 pkt a = Ret a' -> agent_wf a -> agent_wf a'.
Proof.
  intros Hm E Ha. unfold receive_stun_error in E.
  destruct (remote_credentials a) as [creds|]; [|injection E as <-; by apply backlog_push_wf].
  destruct (verify_integrity_total (local_credentials a) creds (ReceivedPkt.data pkt) Hm) as [b Eb].
  rewrite Eb in E. cbn [mbind exec_bind] in E. destruct (negb b); [by injection E as <-|].
  destruct (find_pair _ _) as [[i p]|] eqn:Ef; [|by injection E as <-].
  apply find_pair_Some in Ef as [Hi _]. apply exec_bind_Ret_inv in E as ([code msg] & _ & E).
  destruct code as [[code|]|]; [|by injection E as <-|by injection E as <-].
  case_decide; [|by injection E as <-].
  apply exec_bind_Ret_inv in E as ([controlled msg'] & _ & E).
  apply exec_bind_Ret_inv in E as (a1 & E1 & E).
  assert (exists ctrl, a1 = with_is_controlling ctrl a) as [ctrl ->].
  { case_decide; [injection E1 as <-; by exists true|].
    apply exec_bind_Ret_inv in E1 as ([controlling m'] & _ & E1).
    case_decide; injection E1 as <-; [by exists false|]. exists (is_controlling a). by destruct a. }
  match type of E with recompute_pair_priorities ?x = _ =>
    destruct (recompute_wf x (is_controlling a)) as (a2 & E2 & Ha2) end.
  { apply (with_queue_wf (triggered_check_queue a ++ [(local p, remote p)])
      (update_pair i (set_state Waiting p) (with_is_controlling (is_controlling a) (with_is_controlling ctrl a)))).
    eapply update_pair_wf; [exact Hi|done|done|done|done|by left|]. by apply with_is_controlling_wf. }
  rewrite E2 in E. by injection E as <-.
Qed.

Lemma handle_role_conflict_wf pkt msg creds a x :
  handle_role_conflict Sha1 pkt msg creds a = Ret x -> agent_wf a ->
  match x with inl a' | inr a' => agent_wf a' /\ local_candidates a' = local_candidates a end.
Proof.
  intros E Ha. unfold handle_role_conflict, reject_role in E.
  destruct (is_controlling a).
  - apply exec_bind_Ret_inv in E as ([r m] & _ & E).
    destruct r as [[[tb]|]|]; [|by injection E as <-|by injection E as <-]. case_decide.
    + apply exec_bind_Ret_inv in E as (a1 & E1 & E). injection E as <-.
      apply exec_bind_Ret_inv in E1 as (resp & _ & E1). injection E1 as <-.
      split; [by apply push_event_wf|done].
    + destruct (switch_role_wf false a Ha) as (a' & E' & Ha'). rewrite E' in E. injection E as <-.
      split; [done|]. unfold recompute_pair_priorities in E'.
      apply exec_bind_Ret_inv in E' as (ps & _ & E'). by injection E' as <-.
  - apply exec_bind_Ret_inv in E as ([r m] & _ & E).
    destruct r as [[[tb]|]|]; [|by injection E as <-|by injection E as <-]. case_decide.
    + apply exec_bind_Ret_inv in E as (a1 & E1 & E). injection E as <-.
      apply exec_bind_Ret_inv in E1 as (resp & _ & E1). injection E1 as <-.
      split; [by apply push_event_wf|done].
    + destruct (switch_role_wf true a Ha) as (a' & E' & Ha'). rewrite E' in E. injection E as <-.
      split; [done|]. unfold recompute_pair_priorities in E'.
      apply exec_bind_Ret_inv in E' as (ps & _ & E'). by injection E' as <-.
Qed.

Lemma find_slot {K} (f : K * Candidate.t -> bool) l kc : find f l = Some kc -> kc ∈ l /\ f kc = true.
Proof. intros [H1 H2]%find_some. by rewrite list_elem_of_In. Qed.

Lemma remote_of_request_wf pkt prio l lc a :
  slot_get (local_candidates a) l = Some lc -> uint 32 prio -> agent_wf a ->
  agent_wf (remote_of_request pkt prio l lc a).2 /\
  local_candidates (remote_of_request pkt prio l lc a).2 = local_candidates a.
Proof.
  intros Hl Hp Ha. unfold remote_of_request. destruct (find _ _) as [[r rc]|]; [done|].
  destruct (slot_insert _ (remote_candidates a)) as [r m] eqn:Em. split; [|done]. cbn [snd].
  apply with_queue_wf. pose proof (insert_remote_wf _ _ _ a Em Hp Ha) as Ha'.
  assert (slot_get m r = Some {| Candidate.addr := ReceivedPkt.source pkt; Candidate.kind := PeerReflexive;
    Candidate.priority := prio; Candidate.foundation := [x7e];
    Candidate.component := ReceivedPkt.component pkt; Candidate.base := ReceivedPkt.source pkt |}) as Hr.
  { apply (slot_get_insert _ _ _ _ _ _ Em). by left. }
  apply with_pairs_wf; [| |done].
  - eapply checklist_add; [exact Hl|exact Hr|]. apply Ha'.
  - unfold add_candidate_pair. destruct (existsb _ _); [apply Ha'|apply sort_sorted].
Qed.

Lemma receive_stun_request_wf pkt a a' :
  pkt_wf pkt -> receive_stun_request Sha1 pkt a = Ret a' -> agent_wf a -> agent_wf a'.
Proof.
  intros Hm E Ha. unfold receive_stun_request in E.
  destruct (remote_credentials a) as [creds|]; [|injection E as <-; by apply backlog_push_wf].
  destruct (verify_integrity_total (local_credentials a) creds (ReceivedPkt.data pkt) Hm) as [b Eb].
  rewrite Eb in E. cbn [mbind exec_bind] in E. destruct (negb b); [by injection E as <-|].
  apply exec_bind_Ret_inv in E as ([r m] & Er & E). destruct r as [[[prio]|]|]; [|done|done].
  pose proof (priority_range _ _ _ Er) as Hprio. cbn [unwrap unwrap_res mbind exec_bind] in E.
  apply exec_bind_Ret_inv in E as ([uc m'] & _ & E).
  apply exec_bind_Ret_inv in E as (x & Ex & E). apply handle_role_conflict_wf in Ex; [|done].
  destruct x as [a1|a1]; destruct Ex as [Ha1 _]; [|by injection E as <-].
  destruct (find _ _) as [[l lc]|] eqn:Ef; [|by injection E as <-].
  apply find_slot in Ef as [Hl _]. apply slot_get_iter in Hl.
  destruct (remote_of_request_wf pkt prio l lc a1 Hl Hprio Ha1) as [Ha2 _].
  destruct (remote_of_request pkt prio l lc a1) as [r a2]. cbn [snd] in Ha2.
  apply exec_bind_Ret_inv in E as ([i p] & Ep & E). apply unwrap_Ret, find_pair_Some in Ep as [Hi _].
  apply exec_bind_Ret_inv in E as (resp & _ & E). apply exec_bind_Ret_inv in E as (l' & _ & E).
  match type of E with (if _ then poll_nomination ?x else _) = _ => assert (agent_wf x) as Ha3 end.
  { apply push_event_wf. eapply update_pair_wf; try done; [exact (pair_state_ok i p a2 Ha2 Hi)|by left]. }
  destruct (bool_decide _); [|by injection E as <-].
  destruct (poll_nomination_wf _ Ha3) as (a4 & E4 & Ha4). rewrite E4 in E. by injection E as <-.
Qed.

Lemma receive_stun_wf now pkt a a' :
  pkt_wf pkt -> receive_stun Sha1 now pkt a = Ret a' -> agent_wf a -> agent_wf a'.
Proof.
  intros Hm E Ha. unfold receive_stun in E. destruct (Message.class _).
  - by eapply receive_stun_request_wf.
  - by injection E as <-.
  - by eapply receive_stun_success_wf.
  - by eapply receive_stun_error_wf.
Qed.

Lemma receive_wf now pkt a a' : receive Sha1 now pkt a = Ret a' -> agent_wf a -> agent_wf a'.
Proof.
  intros E Ha. unfold receive in E. destruct (parse _) as [msg|] eqn:Ep; [|by injection E as <-].
  apply parse_wf in Ep as [Hm _]. destruct (attribute_total Fingerprint msg Hm) as [r Er].
  rewrite Er in E. cbn [mbind exec_bind] in E. destruct (negb _); [by injection E as <-|].
  by eapply receive_stun_wf; [|exact E|].
Qed.

(** *** The remote description *)
Lemma exec_fold_preserves {A B} (P : A -> Prop) (f : B -> A -> exec A) (l : list B) x y :
  (forall b x y, b ∈ l -> f b x = Ret y -> P x -> P y) -> exec_fold f l x = Ret y -> P x -> P y.
Proof.
  revert x. induction l as [|b l IH]; intros x Hf E Hx; cbn in E; [by injection E as <-|].
  apply exec_bind_Ret_inv in E as (z & Ez & E). eapply IH; [|exact E|].
  - intros b' u v Hb. apply Hf. by right.
  - eapply Hf; [left|exact Ez|done].
Qed.

(** Dropping the RTCP candidates keeps the pairs intact when there is no RTCP
    pair. *)
Lemma retain_rtp_wf a :
  Forall (fun p => pair_component p = Rtp) (pairs a) -> agent_wf a ->
  agent_wf (with_local_candidates
    (slot_retain (fun _ c => bool_decide (Candidate.component c = Rtp)) (local_candidates a)) a).
Proof.
  intros Hrtp Ha. destruct (wf_checklist _ Ha) as [H1 H2 H3]. destruct Ha. split; cbn; auto.
  - split; [done| |done]. rewrite Forall_forall in *. intros p Hp.
    destruct (H2 p Hp) as (l & r & Hl & Hr & Hc & Hrest). exists l, r. split; [|done].
    apply slot_get_retain. split; [done|]. apply bool_decide_eq_true_2. rewrite <-Hc. by apply Hrtp.
  - intros k c [Hk _]%slot_get_retain. eauto.
Qed.

Lemma set_remote_data_wf now creds cands mux a a' :
  (mux = true -> Forall (fun p => pair_component p = Rtp) (pairs a)) -> cred_ok creds ->
  set_remote_data Sha1 now creds cands mux a = Ret a' -> agent_wf a -> agent_wf a'.
Proof.
  intros Hmux Hcreds E Ha. unfold set_remote_data in E.
  match type of E with (exec_fold add_remote_candidate _ ?x ≫= _) = _ => assert (agent_wf x) as Ha1 end.
  { destruct mux.
    - pose proof (retain_rtp_wf (with_rtcp_mux true a) (Hmux eq_refl) ltac:(by destruct Ha)) as Hr.
      destruct Hr. split; cbn; auto.
      + by intros c [= <-].
      + rewrite Forall_forall in *. intros b [_ Hb]%list_elem_of_filter. auto.
    - destruct Ha. split; cbn; auto. by intros c [= <-]. }
  apply exec_bind_Ret_inv in E as (a2 & E2 & E).
  assert (agent_wf a2) as Ha2.
  { eapply exec_fold_preserves; [|exact E2|exact Ha1]. intros b x y _. apply add_remote_candidate_wf. }
  eapply exec_fold_preserves; [|exact E|by apply with_backlog_wf].
  intros pkt x y Hp. apply receive_stun_wf.
  apply (proj1 (Forall_forall _ _) (wf_backlog _ Ha2) pkt Hp).
Qed.

(** *** Polling *)
Lemma retransmit_delta_ok n : 0 <= n <= 8 -> exists d, retransmit_delta stun_config_new n = Ret d.
Proof.
  intros Hn. assert (n ∈ seqZ 0 9) as H by (apply elem_of_seqZ; lia).
  assert (Forall (fun n => exists d, retransmit_delta stun_config_new n = Ret d) (seqZ 0 9)) as Hall.
  { repeat constructor; by eexists. }
  rewrite Forall_forall in Hall. by apply Hall.
Qed.

Lemma start_binding_request_ok tid now b :
  length tid = 12%nat -> exists es b', start_binding_request tid now stun_config_new b = Ret (es, b') /\ binding_ok b'.
Proof.
  intros Ht. unfold start_binding_request, add_attr.
  pose proof (builder_new_builds Request Binding tid Ht) as Hb.
  destruct (add_fingerprint_builds _ _ _ _ _ Hb) as (b1 & E1 & Hb1 & _); [by vm_compute|].
  rewrite (add_attr_with_header Fingerprint_ tt _ 4) by done. cbn [encode Fingerprint_attr TYPE]. rewrite E1.
  cbn [mbind exec_bind]. cbn [app] in Hb1.
  destruct (finish_builds _ _ _ _ _ Hb1) as (h & -> & _).
  { unfold encode_tlvs. cbn [fmap list_fmap concat]. rewrite app_nil_r, length_encode_tlv.
    cbn [snd]. unfold crc_bytes. rewrite length_be_bytes. done. }
  cbn [mbind exec_bind]. destruct (retransmit_delta_ok 0 ltac:(lia)) as [d ->]. cbn [mbind exec_bind].
  eexists _, _. split; [done|]. unfold binding_ok. cbn. lia.
Qed.

Lemma binding_poll_ok tid now b :
  length tid = 12%nat -> binding_ok b ->
  exists es b', binding_poll tid now stun_config_new b = Ret (es, b') /\ binding_ok b'.
Proof.
  intros Ht Hb. unfold binding_poll, binding_ok in *. destruct (binding_state b) as [|tsx req at_ n|at_|] eqn:Eb.
  - by apply start_binding_request_ok.
  - case_decide; [eexists _, _; split; [done|]; by rewrite Eb|].
    case_decide as Hn; [by eexists _, _|]. cbn [max_retransmits stun_config_new] in Hn.
    destruct (retransmit_delta_ok (n + 1) ltac:(lia)) as [d ->]. cbn [mbind exec_bind].
    eexists _, _. split; [done|]. cbn. lia.
  - case_decide; [by apply start_binding_request_ok|]. eexists _, _. split; [done|]. by rewrite Eb.
  - eexists _, _. split; [done|]. by rewrite Eb.
Qed.

Lemma poll_bindings_ok tid now i bs :
  (forall i, length (tid i) = 12%nat) -> Forall binding_ok bs ->
  exists es bs', poll_bindings tid now stun_config_new i bs = Ret (es, bs') /\ Forall binding_ok bs'.
Proof.
  intros Ht Hbs. revert i. induction Hbs as [|b bs Hb _ IH]; intros i; cbn; [by eexists _, _|].
  destruct (binding_poll_ok (tid i) now b (Ht i) Hb) as (es & b' & -> & Hb'). cbn [mbind exec_bind].
  destruct (IH (S i)) as (es' & bs' & -> & Hbs'). cbn [mbind exec_bind]. eexists _, _. split; [done|].
  by constructor.
Qed.

(** What the retransmission of one pair does to it. *)
Lemma retransmit_pair_ok now p :
  state_ok (state p) ->
  exists es s, retransmit_pair stun_config_new now p = Ret (es, set_state s p) /\ state_ok s.
Proof.
  intros Hs. unfold retransmit_pair. destruct (state p) as [|tid req at_ n src tgt| |] eqn:Ep.
  - exists [], Waiting. destruct p; cbn in *. by rewrite Ep.
  - case_decide.
    { exists [], (state p). rewrite Ep. split; [destruct p; cbn in *; by rewrite <-Ep|done]. }
    case_decide as Hn; [by eexists _, _|]. cbn [max_retransmits stun_config_new state_ok] in *.
    destruct (retransmit_delta_ok (n + 1) ltac:(lia)) as [d ->]. cbn [mbind exec_bind].
    eexists _, _. split; [done|]. cbn. lia.
  - exists [], Succeeded. destruct p; cbn in *. by rewrite Ep.
  - exists [], Failed. destruct p; cbn in *. by rewrite Ep.
Qed.

Lemma checklist_cons lm rm ctrl p ps :
  checklist lm rm ctrl (p :: ps) <->
  pair_ok lm rm ctrl p /\ Forall (pair_ok lm rm ctrl) ps /\ NoDup (ids <$> (p :: ps)) /\
  (forall c, (nominations c (p :: ps) <= 1)%nat).
Proof.
  split.
  - intros [H1 [H2 H2']%Forall_cons H3]. done.
  - intros (H1 & H2 & H3 & H4). split; [done|by constructor|done].
Qed.

Lemma retransmit_pairs_ok lm rm ctrl now ps :
  Forall (pair_ok lm rm ctrl) ps ->
  exists es qs, retransmit_pairs stun_config_new now ps = Ret (es, qs) /\
    Forall (pair_ok lm rm ctrl) qs /\ ids <$> qs = ids <$> ps /\ pair_prio <$> qs = pair_prio <$> ps /\
    forall c, nominations c qs = nominations c ps.
Proof.
  induction 1 as [|p ps Hp _ (es & qs & E & Hq & Hids & Hprio & Hn)]; cbn [retransmit_pairs].
  - by exists [], [].
  - destruct Hp as (l & r & Hl & Hr & Hc & Hpr & Hs).
    destruct (retransmit_pair_ok now p Hs) as (es' & s & -> & Hs'). cbn [mbind exec_bind]. rewrite E.
    cbn [mbind exec_bind]. eexists _, _. split; [done|]. split; [|split; [|split]].
    + constructor; [by exists l, r|done].
    + cbn. f_equal. exact Hids.
    + cbn. f_equal. exact Hprio.
    + intros c. specialize (Hn c). unfold nominations in *. rewrite !filter_cons.
      destruct (decide (is_nominated c (set_state s p))) as [H1|H1],
        (decide (is_nominated c p)) as [H2|H2]; cbn; try (by destruct H1, H2); by rewrite Hn.
Qed.

Lemma sorted_prios ps qs :
  pair_prio <$> qs = pair_prio <$> ps -> StronglySorted by_prio ps -> StronglySorted by_prio qs.
Proof.
  intros E Hs. revert qs E. induction Hs as [|p ps Hs IH Hp]; intros qs E.
  - apply fmap_nil_inv in E as ->. constructor.
  - destruct qs as [|q qs]; [done|]. injection E as Eq E. change (pair_prio <$> qs = pair_prio <$> ps) in E.
    constructor; [by apply IH|].
    assert (Forall (fun z => pair_prio p <= z) (pair_prio <$> qs)) as Hq.
    { rewrite E. by rewrite Forall_fmap. }
    rewrite Forall_fmap in Hq. eapply Forall_impl; [exact Hq|]. unfold by_prio. cbn. intros x Hx. lia.
Qed.

Lemma poll_retransmit_ok now a :
  agent_wf a -> exists a', poll_retransmit now a = Ret a' /\ agent_wf a'.
Proof.
  intros Ha. destruct (wf_checklist _ Ha) as [H1 H2 H3]. unfold poll_retransmit. rewrite (wf_config _ Ha).
  destruct (retransmit_pairs_ok _ _ _ now _ H2) as (es & qs & -> & Hq & Hids & Hprio & Hn).
  cbn [mbind exec_bind]. eexists. split; [done|]. pose proof (wf_sorted _ Ha) as Hs.
  destruct Ha. split; cbn; auto.
  - split; [by rewrite Hids|done|]. intros c. by rewrite Hn.
  - by eapply sorted_prios.
Qed.

Lemma set_connection_state_wf new a : agent_wf a -> agent_wf (set_connection_state new a).
Proof. intros Ha. unfold set_connection_state. case_decide; [|done]. destruct Ha. split; cbn; auto. Qed.

Lemma poll_state_wf a : agent_wf a -> agent_wf (poll_state a).
Proof.
  intros Ha. unfold poll_state.
  assert (agent_wf (poll_gathering a)) as Hg.
  { unfold poll_gathering. repeat case_match; [| |done]; destruct Ha; split; cbn; auto. }
  repeat case_match; by try apply set_connection_state_wf.
Qed.

Lemma make_binding_request_ok tid loc rem prio ctrl tb uc :
  length tid = 12%nat -> cred_ok loc -> cred_ok rem -> uint 32 prio -> uint 64 tb ->
  exists bytes, make_binding_request Sha1 tid loc rem prio ctrl tb uc = Ret bytes.
Proof.
  intros Ht Hl Hr Hp Htb. destruct (request_sealed Sha1 tid loc rem prio ctrl tb uc Ht Hl Hr Hp Htb) as (msg & Hm).
  rewrite make_binding_request_sealed. eexists. apply (sealed_built _ _ _ _ _ _ _ Hm).
Qed.

Lemma start_check_ok tid now creds i p a :
  length tid = 12%nat -> cred_ok creds -> pairs a !! i = Some p -> agent_wf a ->
  exists a', start_check Sha1 tid now creds i p a = Ret a' /\ agent_wf a'.
Proof.
  intros Ht Hc Hi Ha. unfold start_check.
  destruct (pair_candidates a p Ha) as (l & r & -> & -> & _ & Hl & _); [by eapply list_elem_of_lookup_2|].
  cbn [mbind exec_bind].
  destruct (make_binding_request_ok tid (local_credentials a) creds (Candidate.priority l)
    (is_controlling a) (control_tie_breaker a) (nominated p)) as [req ->];
    [done|apply Ha|done|done|apply Ha|].
  cbn [mbind exec_bind]. rewrite (wf_config _ Ha).
  destruct (retransmit_delta_ok 0 ltac:(lia)) as [d ->]. cbn [mbind exec_bind].
  eexists. split; [done|]. apply push_event_wf.
  eapply update_pair_wf; try done; by left.
Qed.

Lemma next_check_spec a :
  pairs (next_check a).2 = pairs a /\
  forall i p, (next_check a).1 = Some (i, p) -> pairs a !! i = Some p.
Proof.
  unfold next_check. destruct (match triggered_check_queue a with [] => _ | _ :: _ => _ end) as [front queue].
  split; [done|]. cbn [fst]. intros i p. destruct (front ≫= _) as [[j q]|] eqn:E.
  - intros [= -> ->]. destruct front as [[l r]|]; [|done]. cbn in E. by apply find_pair_Some in E as [? _].
  - intros E'. by apply find_pair_Some in E' as [? _].
Qed.

Lemma next_check_wf a : agent_wf a -> agent_wf (next_check a).2.
Proof. unfold next_check. destruct (match triggered_check_queue a with [] => _ | _ :: _ => _ end). apply with_queue_wf. Qed.

Lemma poll_checks_ok tid now a :
  length tid = 12%nat -> agent_wf a -> exists a', poll_checks Sha1 tid now a = Ret a' /\ agent_wf a'.
Proof.
  intros Ht Ha. unfold poll_checks. destruct (remote_credentials a) as [creds|] eqn:Ec; [|by exists a].
  destruct (match last_ta_trigger a with Some _ => _ | None => _ end); [by exists a|].
  assert (agent_wf (with_last_ta_trigger (Some now) a)) as Ha1 by (destruct Ha; split; cbn; auto).
  pose proof (next_check_wf _ Ha1) as Ha2. destruct (next_check_spec (with_last_ta_trigger (Some now) a)) as (Hps & Hi).
  destruct (next_check _) as [[[i p]|] a2]; cbn [fst snd] in *; [|by exists a2].
  apply start_check_ok; [done|exact (wf_remote_credentials a Ha creds Ec)| |done].
  rewrite Hps. by apply Hi.
Qed.

Lemma poll_ok tid now a :
  (forall i, length (tid i) = 12%nat) -> agent_wf a ->
  exists a', poll Sha1 tid now a = Ret a' /\ agent_wf a'.
Proof.
  intros Ht Ha. unfold poll. rewrite (wf_config _ Ha).
  destruct (poll_bindings_ok (fun i => tid (S i)) now 0 _ (fun i => Ht (S i)) (wf_bindings _ Ha))
    as (es & bs & -> & Hbs). cbn [mbind exec_bind].
  assert (agent_wf (with_stun_server bs (with_events (events a ++ es) a))) as Ha1 by (destruct Ha; split; cbn; auto).
  destruct (poll_retransmit_ok now _ Ha1) as (a2 & -> & Ha2). cbn [mbind exec_bind].
  destruct (poll_nomination_wf _ (poll_state_wf _ Ha2)) as (a3 & -> & Ha3). cbn [mbind exec_bind].
  by apply poll_checks_ok.
Qed.

(** ** Runs of the agent *)

(** One call of the public interface that returns, but for one exception:
    turning RTCP multiplexing on is here for agents without RTCP pairs ([run]
    below has the others, and [multiplexing_breaks_rtcp_pairs] what becomes of
    them). Credentials are short UTF-8 strings. *)
Inductive step : Agent -> Agent -> Prop :=
| step_add_host_addr component addr a : step a (add_host_addr component addr a)
| step_add_stun_server server a : step a (add_stun_server server a)
| step_add_remote_candidate candidate a a' :
    add_remote_candidate candidate a = Ret a' -> step a a'
| step_set_remote_data now creds cands mux a a' :
    cred_ok creds -> (mux = true -> Forall (fun p => pair_component p = Rtp) (pairs a)) ->
    set_remote_data Sha1 now creds cands mux a = Ret a' -> step a a'
| step_receive now pkt a a' : receive Sha1 now pkt a = Ret a' -> step a a'
| step_poll tid now a a' :
    (forall i, length (tid i) = 12%nat) -> poll Sha1 tid now a = Ret a' -> step a a'
| step_pop_event a : step a (pop_event a).2.

(** The states a new agent can get to by them *)
Definition reachable (a : Agent) : Prop :=
  exists loc rem ctrl mux tb,
    cred_ok loc /\ (forall c, rem = Some c -> cred_ok c) /\ uint 64 tb /\
    rtc step (new_agent loc rem ctrl mux tb) a.

Lemma new_agent_wf loc rem ctrl mux tb :
  cred_ok loc -> (forall c, rem = Some c -> cred_ok c) -> uint 64 tb ->
  agent_wf (new_agent loc rem ctrl mux tb).
Proof.
  intros Hl Hr Htb. split; cbn; try done.
  - split; [apply NoDup_nil_2|constructor|intros c; cbn; lia].
  - constructor.
  - intros k c Hk%slot_get_iter. rewrite slot_empty_iter in Hk. by apply elem_of_nil in Hk.
  - intros k c Hk%slot_get_iter. rewrite slot_empty_iter in Hk. by apply elem_of_nil in Hk.
Qed.

Lemma step_wf a a' : step a a' -> agent_wf a -> agent_wf a'.
Proof.
  intros [] Ha.
  - by apply add_host_addr_wf.
  - by apply add_stun_server_wf.
  - by eapply add_remote_candidate_wf.
  - by eapply set_remote_data_wf.
  - by eapply receive_wf.
  - destruct (poll_ok tid now _ ltac:(done) Ha) as (a'' & E & Ha''). congruence.
  - unfold pop_event. destruct (events a0) eqn:E; cbn [snd]; [done|]. destruct Ha. split; cbn; auto.
Qed.

Lemma reachable_wf a : reachable a -> agent_wf a.
Proof.
  intros (loc & rem & ctrl & mux & tb & Hl & Hr & Htb & Hrun).
  assert (agent_wf (new_agent loc rem ctrl mux tb)) as Hwf by by apply new_agent_wf.
  clear Hl Hr Htb. induction Hrun as [|x y z Hs _ IH]; [done|]. apply IH. by eapply step_wf.
Qed.

(** The states that the calls of the public interface get an agent to, without
    that exception. [late] says that RTCP multiplexing has been turned on when
    there were RTCP pairs. *)
Definition rtcp_pairs a : Prop := exists p, p ∈ pairs a /\ pair_component p = Rtcp.
Inductive run : bool -> Agent -> Prop :=
| run_new loc rem ctrl mux tb :
    cred_ok loc -> (forall c, rem = Some c -> cred_ok c) -> uint 64 tb -> run false (new_agent loc rem ctrl mux tb)
| run_step late a a' : run late a -> step a a' -> run late a'
| run_multiplexed late now creds cands a a' : run late a -> cred_ok creds -> rtcp_pairs a ->
    set_remote_data Sha1 now creds cands true a = Ret a' -> run true a'.

Lemma run_set_remote_data late now creds cands mux a a' : run late a -> cred_ok creds ->
  set_remote_data Sha1 now creds cands mux a = Ret a' -> exists late', run late' a'.
Proof.
  intros Hr Hc E. destruct (decide (Forall (fun p => pair_component p = Rtp) (pairs a))) as [Hall|Hnot].
  { exists late. eapply run_step; [done|]. by eapply step_set_remote_data. }
  destruct mux.
  2:{ exists late. eapply run_step; [exact Hr|]. eapply step_set_remote_data; [exact Hc| |exact E]. by intros [=]. }
  exists true. eapply run_multiplexed; [done|done| |done].
  apply not_Forall_Exists in Hnot; [|intros p; apply _]. apply Exists_exists in Hnot as (p & Hp & Hc').
  exists p. split; [done|]. cbn in Hc'. by destruct (pair_component p).
Qed.
Lemma run_reachable late a : run late a -> late = false -> reachable a.
Proof.
  induction 1 as [loc rem ctrl mux tb Hl Hr Htb|late a a' _ IH Hs|]; intros Hlate; [|destruct (IH Hlate) as (loc & rem & ctrl & mux & tb & Hl & Hr & Htb & Hrun)|done];
    exists loc, rem, ctrl, mux, tb; do 3 (split; [done|]); [done|]. by eapply rtc_r.
Qed.
Lemma reachable_run a : reachable a -> run false a.
Proof.
  intros (loc & rem & ctrl & mux & tb & Hl & Hr & Htb & Hrun). assert (run false (new_agent loc rem ctrl mux tb)) as H by by constructor.
  clear Hl Hr Htb. induction Hrun as [|x y z Hs _ IH]; [done|]. apply IH. by eapply run_step.
Qed.

Definition consistent a : Prop :=
  StronglySorted (fun p q => pair_prio p <= pair_prio q) (pairs a) /\
  NoDup ((fun p => (local p, remote p)) <$> pairs a) /\
  (forall p, p ∈ pairs a -> exists l r,
     slot_get (local_candidates a) (local p) = Some l /\
     slot_get (remote_candidates a) (remote p) = Some r /\
     pair_component p = Candidate.component l /\
     pair_prio p = pair_priority l r (is_controlling a) /\
     match state p with InProgress _ _ _ n _ _ => 0 <= n <= 7 | _ => True end) /\
  (forall i j p q, pairs a !! i = Some p -> pairs a !! j = Some q ->
     nominated p = true -> nominated q = true -> pair_component p = pair_component q -> i = j).

Lemma wf_consistent a : agent_wf a -> consistent a.
Proof.
  intros Ha. destruct (wf_checklist _ Ha) as [H1 H2 H3].
  split; [apply Ha|]. split; [exact H1|]. split.
  - intros p Hp. rewrite Forall_forall in H2. exact (H2 p Hp).
  - intros i j p q Hi Hj Hp Hq Hpq.
    destruct (decide (i = j)) as [|Hij]; [done|]. exfalso. specialize (H3 (pair_component q)).
    pose proof (nominations_insert (pair_component q) i p (set_nominated false p) (pairs a) Hi) as E1.
    rewrite decide_True in E1 by done. rewrite decide_False in E1 by (by intros [? _]).
    pose proof (nominations_insert (pair_component q) j q (set_nominated false q)
      (<[i := set_nominated false p]> (pairs a))) as E2.
    rewrite list_lookup_insert_ne in E2 by done. specialize (E2 Hj).
    rewrite decide_True in E2 by done. rewrite decide_False in E2 by (by intros [? _]). lia.
Qed.

(** C5: In every state that calls and packets get an agent to, unless RTCP multiplexing has been turned
    on when there were RTCP pairs: the pairs are sorted by priority, no two of them join the same
    candidates, the candidates of a pair exist, a pair has its local candidate's component and the
    priority that the current role gives it, a check in progress has been retransmitted at most 7
    times, and each component has at most one nominated pair. The exception is one: an agent that has
    RTCP pairs does not satisfy this any more once [set_remote_data] has turned multiplexing on, since
    the RTCP candidates are dropped and their pairs stay. Credentials are short UTF-8 strings, and a
    call that panics has no state after it. *)
Theorem agent_invariant late (a : Agent) : run late a -> late = false ->
  consistent a /\
  (forall now creds a', rtcp_pairs a -> backlog a = [] -> set_remote_data Sha1 now creds [] true a = Ret a' -> ~ consistent a').
Proof.
  intros Hr Hl. pose proof (reachable_wf _ (run_reachable _ _ Hr Hl)) as Hwf. split; [by apply wf_consistent|].
  intros now creds a' (p & Hp & Hc) Hb E. unfold set_remote_data in E. cbn [exec_fold mbind exec_bind] in E.
  change (backlog (with_remote_credentials _ _)) with (backlog a) in E. rewrite Hb in E. cbn [exec_fold] in E.
  injection E as <-. intros (_ & _ & H & _). destruct (H p Hp) as (l & r & Hget & _ & Hl' & _). cbn in Hget.
  apply slot_get_retain in Hget as [_ Hrtp%bool_decide_eq_true_1]. congruence.
Qed.

(** C31: Polling never panics and never gets stuck: in every state that calls and packets get an agent
    to, unless RTCP multiplexing has been turned on when there were RTCP pairs, for every time and
    every transaction ids, [poll] returns, in such a state. Without the exception it is not so: the
    check of a pair that is left without its local candidate panics. *)
Theorem poll_total late (a : Agent) (tid : nat -> TransactionId) (now : Instant) :
  run late a -> late = false -> (forall i, length (tid i) = 12%nat) ->
  exists a', poll Sha1 tid now a = Ret a' /\ run false a'.
Proof.
  intros Hr Hl Ht. destruct (poll_ok tid now a Ht (reachable_wf a (run_reachable _ _ Hr Hl))) as (a' & E & _).
  exists a'. split; [done|]. eapply run_step; [by subst late|]. by eapply step_poll.
Qed.
End invariant.
