(* ===== verification/IceChecks.v ===== *)
(** * Checks, nomination and messages of the ICE agent

    The pace of the connectivity checks, the end of the retransmissions, the
    event log, nomination in the controlled role, and what a message can do
    that was not authenticated. *)
From stdpp Require Import relations.
From S2P Require Import Prelude Wire Text StunHeader StunMessage StunAttr StunAuth IceStun IceAgent IceProps.
Local Open Scope Z_scope.

Section checks.
Context `{WL : WireLaws} (Sha1 : Digest) {DL : DigestLaws Sha1} {Fnd : Foundation}.
Context {L R LMap RMap : Type} {SP : SortPairs L R} {SL : SortLaws L R}.
Context {LM : SlotMap L LMap} {LML : SlotMapLaws L LMap} {RM : SlotMap R RMap} {RML : SlotMapLaws R RMap}.
#[local] Existing Instance MessageIntegrity_attr.
#[local] Abbreviation Pair := (CandidatePair L R).
#[local] Abbreviation Agent := (@IceAgent L R LMap RMap).
Implicit Types (a : Agent) (p q : Pair) (ps : list Pair).

(** ** Retransmissions come to an end *)

(** Polling a pair at a list of times: the retransmissions it makes, and the
    pair in the end. *)
Fixpoint poll_pair (times : list Instant) (p : Pair) : exec (list IceEvent * Pair) :=
  match times with
  | [] => Ret ([], p)
  | now :: times =>
      '(es, p) ← retransmit_pair stun_config_new now p;
      '(es', p) ← poll_pair times p;
      Ret (es ++ es', p)
  end.

(** A check that gets no answer fails after a bounded number of
    retransmissions: polled at any times, a pair in progress sends at most the
    rest of its 7 retransmissions, always the same request to the same
    address, and polled often enough late enough (3 s after each other at
    most are waited for) it sends all of them and ends in Failed. *)
Theorem check_ends p (times : list Instant) tid req at_ n src tgt :
  state p = InProgress tid req at_ n src tgt -> 0 <= n <= 7 ->
  exists k p', poll_pair times p =
      Ret (replicate k (SendData (pair_component p) req (Some src) tgt), p') /\
    (Z.of_nat k <= 7 - n) /\
    ((forall now, now ∈ times -> at_ + from_secs 3 * (7 - n) <= now) ->
     (8 - n <= Z.of_nat (length times)) ->
     Z.of_nat k = 7 - n /\ state p' = Failed).
Proof.
  revert p at_ n. induction times as [|now times IH]; intros p at_ n Hp Hn.
  - exists 0%nat, p. split; [done|]. split; [lia|]. intros _ Hl. cbn in Hl. lia.
  - cbn [poll_pair]. unfold retransmit_pair. rewrite Hp.
    case_decide as Hnow.
    { cbn [mbind exec_bind]. destruct (IH p at_ n Hp Hn) as (k & p' & -> & Hk & _).
      exists k, p'. split; [done|]. split; [done|]. intros Ht.
      specialize (Ht now ltac:(left)). unfold from_secs in Ht. lia. }
    case_decide as Hmax; cbn [max_retransmits stun_config_new] in Hmax.
    { cbn [mbind exec_bind]. exists 0%nat, (set_state Failed p).
      assert (forall ts, poll_pair ts (set_state Failed p) = Ret ([], set_state Failed p)) as E.
      { intros ts. induction ts as [|t ts IHt]; [done|]. cbn [poll_pair]. unfold retransmit_pair.
        cbn [state set_state mbind exec_bind]. by rewrite IHt. }
      rewrite E. split; [done|]. split; [lia|]. intros _ _. split; [lia|done]. }
    destruct (retransmit_delta_ok (n + 1) ltac:(lia)) as [d Ed]. rewrite Ed. cbn [mbind exec_bind].
    assert (d <= from_secs 3) as Hd.
    { unfold retransmit_delta in Ed. apply exec_bind_Ret_inv in Ed as (ms & _ & Ed).
      injection Ed as <-. apply Z.le_min_r. }
    destruct (IH (set_state (InProgress tid req (at_ + d) (n + 1) src tgt) p) (at_ + d) (n + 1) eq_refl
      ltac:(lia)) as (k & p' & -> & Hk & Hend).
    cbn [mbind exec_bind]. exists (S k), p'. split; [done|]. split; [lia|].
    intros Ht Hl. cbn [length] in Hl. destruct Hend as [Hk' Hp'].
    + intros t Hin. specialize (Ht t ltac:(by right)). lia.
    + lia.
    + split; [lia|done].
Qed.

(** ** The pace of the checks *)
Definition is_in_progress (p : Pair) : bool :=
  match state p with InProgress _ _ _ _ _ _ => true | _ => false end.
Definition in_flight (ps : list Pair) : nat := length (filter (fun p => is_in_progress p = true) ps).

Lemma in_flight_cons p ps :
  in_flight (p :: ps) = ((if is_in_progress p then 1 else 0) + in_flight ps)%nat.
Proof. unfold in_flight. rewrite filter_cons. destruct (is_in_progress p); case_decide; done. Qed.

Lemma in_flight_app ps qs : in_flight (ps ++ qs) = (in_flight ps + in_flight qs)%nat.
Proof. unfold in_flight. by rewrite filter_app, length_app. Qed.

Lemma in_flight_insert i p q ps :
  ps !! i = Some p ->
  (in_flight (<[i := q]> ps) + (if is_in_progress p then 1 else 0) =
   in_flight ps + (if is_in_progress q then 1 else 0))%nat.
Proof.
  intros Hi. rewrite insert_take_drop by (by eapply lookup_lt_Some).
  rewrite <-(take_drop_middle ps i p Hi) at 3. rewrite !in_flight_app, !in_flight_cons. lia.
Qed.

Lemma retransmit_pairs_in_flight cfg now ps es qs :
  retransmit_pairs cfg now ps = Ret (es, qs) -> (in_flight qs <= in_flight ps)%nat.
Proof.
  revert es qs. induction ps as [|p ps IH]; intros es qs; cbn [retransmit_pairs].
  - intros [= _ <-]. done.
  - intros E. apply exec_bind_Ret_inv in E as ([es1 p'] & E1 & E).
    apply exec_bind_Ret_inv in E as ([es2 qs'] & E2 & E). injection E as _ <-.
    apply IH in E2. rewrite !in_flight_cons.
    assert (is_in_progress p' = true -> is_in_progress p = true) as Himp.
    { unfold retransmit_pair in E1. unfold is_in_progress. destruct (state p) eqn:Ep;
        try (injection E1 as _ <-; by rewrite Ep). done. }
    destruct (is_in_progress p'), (is_in_progress p); try lia.
Qed.

Lemma poll_nomination_of_component_effect c a a' :
  poll_nomination_of_component c a = Ret a' ->
  in_flight (pairs a') = in_flight (pairs a) /\ last_ta_trigger a' = last_ta_trigger a /\
  remote_credentials a' = remote_credentials a.
Proof.
  intros E. unfold poll_nomination_of_component in E. destruct (is_controlling a).
  - destruct (existsb _ _); [by injection E as <-|].
    destruct (best_pair _ _) as [[i p]|] eqn:Eb; [|by injection E as <-]. injection E as <-.
    apply best_pair_Some in Eb as (Hi & _ & _). split; [|done].
    change (in_flight (<[i := set_nominated true p]> (pairs a)) = in_flight (pairs a)).
    pose proof (in_flight_insert i p (set_nominated true p) _ Hi) as H.
    change (is_in_progress (set_nominated true p)) with (is_in_progress p) in H. lia.
  - destruct (existsb _ _); [by injection E as <-|].
    destruct (best_pair _ _) as [[i p]|] eqn:Eb; [|by injection E as <-].
    apply exec_bind_Ret_inv in E as (r & _ & E). injection E as <-.
    apply best_pair_Some in Eb as (Hi & _ & _). split; [|done].
    change (in_flight (<[i := set_nominated true p]> (pairs a)) = in_flight (pairs a)).
    pose proof (in_flight_insert i p (set_nominated true p) _ Hi) as H.
    change (is_in_progress (set_nominated true p)) with (is_in_progress p) in H. lia.
Qed.

Lemma poll_nomination_effect a a' :
  poll_nomination a = Ret a' ->
  in_flight (pairs a') = in_flight (pairs a) /\ last_ta_trigger a' = last_ta_trigger a /\
  remote_credentials a' = remote_credentials a.
Proof.
  intros E. unfold poll_nomination in E. apply exec_bind_Ret_inv in E as (a1 & E1 & E).
  apply poll_nomination_of_component_effect in E1 as (H1 & H2 & H3).
  destruct (rtcp_mux a1); [injection E as <-; done|].
  apply poll_nomination_of_component_effect in E as (H1' & H2' & H3').
  by rewrite H1', H2', H3'.
Qed.

Lemma poll_state_effect a :
  pairs (poll_state a) = pairs a /\ last_ta_trigger (poll_state a) = last_ta_trigger a /\
  remote_credentials (poll_state a) = remote_credentials a.
Proof.
  unfold poll_state, poll_gathering, set_connection_state.
  repeat (case_match || case_decide); done.
Qed.

(** The state of the agent when [poll] comes to the checks. *)
Lemma poll_split tid now a a' :
  poll Sha1 tid now a = Ret a' ->
  exists a1, (in_flight (pairs a1) <= in_flight (pairs a))%nat /\
    last_ta_trigger a1 = last_ta_trigger a /\ remote_credentials a1 = remote_credentials a /\
    poll_checks Sha1 (tid 0%nat) now a1 = Ret a'.
Proof.
  unfold poll. intros E. apply exec_bind_Ret_inv in E as ([es bs] & _ & E).
  apply exec_bind_Ret_inv in E as (a2 & E2 & E). apply exec_bind_Ret_inv in E as (a3 & E3 & E).
  exists a3. unfold poll_retransmit in E2. apply exec_bind_Ret_inv in E2 as ([es' ps] & Eps & E2).
  injection E2 as <-. apply retransmit_pairs_in_flight in Eps. cbn in Eps.
  apply poll_nomination_effect in E3 as (H1 & H2 & H3).
  match type of H1 with _ = in_flight (pairs (poll_state ?x)) =>
    destruct (poll_state_effect x) as (G1 & G2 & G3) end.
  rewrite H1, H2, H3, G1, G2, G3. cbn. done.
Qed.

(** Checks are paced: a poll starts at most one new check; within 50 ms
    of the last trigger it starts none; and once the remote credentials are
    known, a poll outside of that window becomes the new trigger. *)
Theorem poll_paced tid now a a' :
  poll Sha1 tid now a = Ret a' ->
  (in_flight (pairs a') <= in_flight (pairs a) + 1)%nat /\
  (forall t, last_ta_trigger a = Some t -> now < t + from_millis 50 ->
     (in_flight (pairs a') <= in_flight (pairs a))%nat /\ last_ta_trigger a' = Some t) /\
  (is_Some (remote_credentials a) ->
   (forall t, last_ta_trigger a = Some t -> t + from_millis 50 <= now) -> last_ta_trigger a' = Some now).
Proof.
  intros (a1 & Hf & Ht & Hc & E)%poll_split. rewrite <-Ht, <-Hc in *. clear Ht Hc.
  unfold poll_checks in E. destruct (remote_credentials a1) as [creds|].
  2: { injection E as <-. split; [lia|]. split; [done|]. by intros [? ?]. }
  destruct (match last_ta_trigger a1 with Some _ => _ | None => _ end) eqn:Ew.
  { injection E as <-. split; [lia|]. split; [done|]. intros _ Hno.
    destruct (last_ta_trigger a1) as [t|]; [|done]. apply bool_decide_eq_true_1 in Ew.
    specialize (Hno t eq_refl). lia. }
  destruct (next_check_spec (with_last_ta_trigger (Some now) a1)) as [Hps Hi].
  assert (last_ta_trigger (next_check (with_last_ta_trigger (Some now) a1)).2 = Some now) as Hta.
  { unfold next_check. by destruct (match triggered_check_queue _ with [] => _ | _ :: _ => _ end). }
  destruct (next_check _) as [pr a2]. cbn [fst snd] in *.
  assert ((in_flight (pairs a') <= in_flight (pairs a1) + 1)%nat /\ last_ta_trigger a' = Some now) as [Hf' Ht'].
  { destruct pr as [[i p]|].
    - specialize (Hi i p eq_refl). cbn in Hps, Hi. unfold start_check in E.
      apply exec_bind_Ret_inv in E as (l & _ & E). apply exec_bind_Ret_inv in E as (req & _ & E).
      apply exec_bind_Ret_inv in E as (r & _ & E). apply exec_bind_Ret_inv in E as (d & _ & E).
      injection E as <-. split; [|done]. cbn [pairs push_event with_events update_pair with_pairs].
      rewrite Hps. cbn [pairs with_last_ta_trigger].
      pose proof (in_flight_insert i p (set_state (InProgress (tid 0%nat) req (now + d) 0
        (addr_ip (Candidate.base l)) (Candidate.addr r)) p) _ Hi) as H.
      destruct (is_in_progress p), (is_in_progress (set_state _ p)); lia.
    - injection E as <-. split; [rewrite Hps; cbn [pairs with_last_ta_trigger]; lia|done]. }
  split; [lia|]. split; [|done].
  intros t Et Hnow. rewrite Et in Ew. apply bool_decide_eq_false_1 in Ew. lia.
Qed.

(** ** Nomination *)

Lemma best_pair_None f ps : best_pair f ps = None -> forall i p, ps !! i = Some p -> f p = false.
Proof.
  intros E i p Hi. destruct (f p) eqn:Ef; [|done]. exfalso. unfold best_pair in E.
  assert ((i, p) ∈ filter (fun ip => f ip.2 = true) (imap (fun i p => (i, p)) ps)) as Hin.
  { apply list_elem_of_filter. split; [done|]. by apply elem_of_imap_pair. }
  destruct (filter _ _) as [|x l]; [by apply elem_of_nil in Hin|]. cbn in E. destruct (max_by_prio l) as [y|]; [|done].
  by case_decide.
Qed.

Lemma component_nominated c (ps : list Pair) :
  existsb (fun p => bool_decide (pair_component p = c) && nominated p) ps = true <->
  exists i p, ps !! i = Some p /\ pair_component p = c /\ nominated p = true.
Proof.
  rewrite existsb_exists. split.
  - intros (p & [i Hi]%list_elem_of_In%list_elem_of_lookup_1 & [Hc%bool_decide_eq_true_1 Hn]%andb_true_iff). by exists i, p.
  - intros (i & p & Hi & Hc & Hn). exists p. split; [apply list_elem_of_In; by eapply list_elem_of_lookup_2|].
    apply andb_true_iff. split; [by apply bool_decide_eq_true|done].
Qed.

(** C38: The controlling agent nominates as soon as it can, once, and the best
    pair it has. When no pair of the component is nominated and one has
    succeeded, it nominates a succeeded pair of the component than which none
    has a higher priority, puts its check with USE-CANDIDATE in front of the
    triggered checks, and changes nothing else. When a pair of the component is
    nominated already, or none has succeeded, it does nothing. *)
Theorem controlling_nominates_best c a : is_controlling a = true ->
  let nominated_before := exists i p, pairs a !! i = Some p /\ pair_component p = c /\ nominated p = true in
  let succeeded := exists i p, pairs a !! i = Some p /\ pair_component p = c /\ state p = Succeeded in
  (nominated_before \/ ~ succeeded -> poll_nomination_of_component c a = Ret a) /\
  (~ nominated_before -> succeeded ->
   exists i p, pairs a !! i = Some p /\ pair_component p = c /\ state p = Succeeded /\
     (forall j q, pairs a !! j = Some q -> pair_component q = c -> state q = Succeeded -> pair_prio q <= pair_prio p) /\
     poll_nomination_of_component c a =
       Ret (with_triggered_check_queue ((local p, remote p) :: triggered_check_queue a)
              (with_pairs (<[i := set_nominated true p]> (pairs a)) a))).
Proof.
  intros Hc before succeeded. unfold poll_nomination_of_component. rewrite Hc.
  pose proof (component_nominated c (pairs a)) as Hex. fold before in Hex.
  assert (forall p : Pair, is_succeeded p = true <-> state p = Succeeded) as Hsucc.
  { intros p. unfold is_succeeded. by destruct (state p). }
  destruct (existsb _ _); [split; [done|]; intros Hno; exfalso; by apply Hno, Hex|].
  assert (~ before) as Hno by (intros H; by apply Hex in H).
  destruct (best_pair _ _) as [[i p]|] eqn:Eb.
  - apply best_pair_Some in Eb as (Hi & [Hp%bool_decide_eq_true_1 Hs%Hsucc]%andb_true_iff & Hmax).
    split. { intros [?|Hn]; [done|]. destruct Hn. by exists i, p. }
    intros _ _. exists i, p. split; [done|]. split; [done|]. split; [done|]. split; [|done].
    intros j q Hj Hq Hsq. apply (Hmax j q Hj). rewrite bool_decide_eq_true_2 by done. by apply Hsucc.
  - split; [done|]. intros _ (i & p & Hi & Hp & Hs). pose proof (best_pair_None _ _ Eb i p Hi) as Hf. cbn in Hf.
    rewrite bool_decide_eq_true_2 in Hf by done. apply Hsucc in Hs. by rewrite Hs in Hf.
Qed.

Lemma has_nomination_count c a : has_nomination c a = true -> (1 <= nominations c (pairs a))%nat.
Proof.
  unfold has_nomination, nominations. induction (pairs a) as [|p ps IH]; [done|]. cbn [existsb].
  rewrite orb_true_iff, !andb_true_iff, bool_decide_eq_true. intros [[[Hn _] Hc]|H].
  - rewrite filter_cons_True by done. cbn [length]. lia.
  - specialize (IH H). rewrite filter_cons. case_decide; cbn [length]; lia.
Qed.

Lemma nominations_insert_same c i p q ps :
  ps !! i = Some p -> (is_nominated c p <-> is_nominated c q) ->
  nominations c (<[i := q]> ps) = nominations c ps.
Proof.
  intros Hi Hpq. pose proof (nominations_insert c i p q ps Hi). repeat case_decide; tauto || lia.
Qed.

Definition total_nominations (ps : list Pair) : nat := (nominations Rtp ps + nominations Rtcp ps)%nat.

(** An agent that is controlled, has both components, and has not connected. *)
Record one_nomination (a : Agent) : Prop := {
  one_wf : agent_wf a;
  one_controlled : is_controlling a = false;
  one_mux : rtcp_mux a = false;
  one_total : (total_nominations (pairs a) <= 1)%nat;
  one_state : connection_state a <> ConnConnected }.

Lemma poll_nomination_of_component_one c a a' :
  poll_nomination_of_component c a = Ret a' -> one_nomination a -> one_nomination a'.
Proof.
  intros E [Hwf Hc Hm Ht Hs].
  destruct (poll_nomination_of_component_wf c a Hwf) as (a'' & E' & Hwf'). rewrite E in E'.
  injection E' as <-. unfold poll_nomination_of_component in E. rewrite Hc in E.
  destruct (existsb _ _) eqn:Ex; [by injection E as <-|].
  destruct (best_pair _ _) as [[i p]|] eqn:Eb; [|by injection E as <-].
  apply exec_bind_Ret_inv in E as (r & _ & E). injection E as <-.
  apply best_pair_Some in Eb as (Hi & _ & _). split; [done|done|done| |done].
  change (total_nominations (<[i := set_nominated true p]> (pairs a)) <= 1)%nat.
  unfold total_nominations in *.
  pose proof (nominations_insert Rtp i p (set_nominated true p) _ Hi) as E1.
  pose proof (nominations_insert Rtcp i p (set_nominated true p) _ Hi) as E2.
  rewrite (nominations_zero_all Rtp _ Ex) in E1. rewrite (nominations_zero_all Rtcp _ Ex) in E2.
  destruct (decide (is_nominated Rtp (set_nominated true p))) as [[_ H1]|],
    (decide (is_nominated Rtcp (set_nominated true p))) as [[_ H2]|]; try lia.
  cbn in H1, H2. congruence.
Qed.

Lemma poll_state_one a : one_nomination a -> one_nomination (poll_state a).
Proof.
  intros [Hwf Hc Hm Ht Hs]. pose proof (poll_state_wf a Hwf) as Hwf'.
  destruct (poll_state_effect a) as (Hp & _ & _).
  assert (is_controlling (poll_state a) = false /\ rtcp_mux (poll_state a) = false /\
    connection_state (poll_state a) <> ConnConnected) as (H1 & H2 & H3).
  2: { split; try done. by rewrite Hp. }
  clear Hwf' Hp. unfold poll_state.
  assert (is_controlling (poll_gathering a) = false /\ rtcp_mux (poll_gathering a) = false /\
    connection_state (poll_gathering a) <> ConnConnected /\ pairs (poll_gathering a) = pairs a)
    as (G1 & G2 & G3 & G4) by (unfold poll_gathering; repeat case_match; done).
  assert (has_nomination_for_all_components (poll_gathering a) = false) as Hno.
  { unfold has_nomination_for_all_components. rewrite G2. apply andb_false_iff.
    destruct (has_nomination Rtp _) eqn:E1; [right|by left].
    destruct (has_nomination Rtcp _) eqn:E2; [|done].
    apply has_nomination_count in E1, E2. rewrite G4 in E1, E2. unfold total_nominations in Ht. lia. }
  rewrite Hno. cbn [andb negb]. unfold set_connection_state.
  destruct (still_possible _); [destruct (connection_state (poll_gathering a)) eqn:Ec|];
    try case_decide; cbn; rewrite ?Ec; done.
Qed.

Lemma one_nomination_checks tid now a a' :
  length tid = 12%nat -> poll_checks Sha1 tid now a = Ret a' -> one_nomination a -> one_nomination a'.
Proof.
  intros Ht E [Hwf Hc Hm Htot Hs].
  destruct (poll_checks_ok Sha1 tid now a Ht Hwf) as (a'' & E' & Hwf'). rewrite E in E'.
  injection E' as <-. unfold poll_checks in E. destruct (remote_credentials a) as [creds|]; [|by injection E as <-].
  destruct (match last_ta_trigger a with Some _ => _ | None => _ end); [by injection E as <-|].
  destruct (next_check_spec (with_last_ta_trigger (Some now) a)) as [Hps Hi].
  assert (is_controlling (next_check (with_last_ta_trigger (Some now) a)).2 = false /\
    rtcp_mux (next_check (with_last_ta_trigger (Some now) a)).2 = false /\
    connection_state (next_check (with_last_ta_trigger (Some now) a)).2 <> ConnConnected) as (G1 & G2 & G3).
  { unfold next_check. by destruct (match triggered_check_queue _ with [] => _ | _ :: _ => _ end). }
  destruct (next_check _) as [[[i p]|] a2]; cbn [fst snd] in *.
  - specialize (Hi i p eq_refl). unfold start_check in E.
    apply exec_bind_Ret_inv in E as (l & _ & E). apply exec_bind_Ret_inv in E as (req & _ & E).
    apply exec_bind_Ret_inv in E as (r & _ & E). apply exec_bind_Ret_inv in E as (d & _ & E).
    injection E as <-. split; [done|done|done| |done].
    cbn [pairs push_event with_events update_pair with_pairs]. rewrite Hps.
    cbn [pairs with_last_ta_trigger] in *. unfold total_nominations in *.
    set (q := set_state _ p).
    by rewrite !(nominations_insert_same _ i p q) by done.
  - injection E as <-. split; [done|done|done| |done]. by rewrite Hps.
Qed.

(** A controlled agent without RTCP multiplexing does not connect by
    polling: the nomination of one component stops the nomination of the
    other one, because the test for an existing nomination does not look at
    the component. As long as the agent stays controlled, every poll leaves
    at most one nominated pair in all and the agent unconnected. *)
Theorem controlled_without_mux_never_connects tid now a a' :
  reachable Sha1 a -> (forall i, length (tid i) = 12%nat) ->
  is_controlling a = false -> rtcp_mux a = false ->
  (total_nominations (pairs a) <= 1)%nat -> connection_state a <> ConnConnected ->
  poll Sha1 tid now a = Ret a' ->
  is_controlling a' = false /\ rtcp_mux a' = false /\
  (total_nominations (pairs a') <= 1)%nat /\ connection_state a' <> ConnConnected.
Proof.
  intros Hr Htid Hc Hm Ht Hs E. pose proof (reachable_wf Sha1 a Hr) as Hwf.
  clear Hr. rename Hwf into Hr.
  unfold poll in E. apply exec_bind_Ret_inv in E as ([es bs] & Eb & E).
  apply exec_bind_Ret_inv in E as (a2 & E2 & E). apply exec_bind_Ret_inv in E as (a3 & E3 & E).
  rewrite (wf_config _ Hr) in Eb.
  destruct (poll_bindings_ok (fun i => tid (S i)) now 0 _ (fun i => Htid (S i)) (wf_bindings _ Hr))
    as (es' & bs' & Eb' & Hbs). rewrite Eb in Eb'. injection Eb' as <- <-.
  assert (agent_wf (with_stun_server bs (with_events (events a ++ es) a))) as Ha1
    by (destruct Hr; split; cbn; auto).
  assert (one_nomination a2) as Ho.
  { destruct (poll_retransmit_ok now _ Ha1) as (a2' & E2' & Ha2). rewrite E2 in E2'. injection E2' as <-.
    unfold poll_retransmit in E2. rewrite (wf_config _ Ha1) in E2.
    destruct (retransmit_pairs_ok _ _ _ now _ (cl_pairs _ _ _ _ (wf_checklist _ Ha1)))
      as (es2 & qs & Eq & _ & _ & _ & Hn). rewrite Eq in E2. injection E2 as <-.
    split; [done|done|done| |done]. unfold total_nominations in *. cbn [pairs with_pairs with_events].
    by rewrite !Hn. }
  apply poll_state_one in Ho. unfold poll_nomination in E3.
  apply exec_bind_Ret_inv in E3 as (a4 & E4 & E3). apply poll_nomination_of_component_one in E4; [|done].
  rewrite (one_mux _ E4) in E3. apply poll_nomination_of_component_one in E3; [|done].
  apply one_nomination_checks in E; [|done|done]. by destruct E.
Qed.

(** ** Messages *)

(** C39: What was not authenticated changes nothing: once the remote
    credentials are known, a packet that is no STUN message, or fails the
    fingerprint check, or fails the check of integrity and user name, leaves
    the agent as it was, unless its transaction id is the one of a pending
    request to a STUN server. *)
Theorem unauthenticated_ignored now pkt creds a :
  remote_credentials a = Some creds ->
  (forall msg, parse (ReceivedPkt.data pkt) = Ok msg ->
     find_binding (Message.transaction_id msg) (stun_server a) = None /\
     (attribute Fingerprint msg <> Ret (Some (Ok Fingerprint_), msg) \/
      verify_integrity Sha1 (local_credentials a) creds msg = Ret (false, msg))) ->
  receive Sha1 now pkt a = Ret a.
Proof.
  intros Hc Hmsg. unfold receive. destruct (parse _) as [msg|] eqn:Ep; [|done].
  destruct (Hmsg msg eq_refl) as [Hb Hauth]. apply parse_wf in Ep as [Hm _].
  destruct (attribute_total Fingerprint msg Hm) as [r Er]. rewrite Er. cbn [mbind exec_bind].
  destruct (passed r) eqn:Epass; cbn [negb]; [|done].
  destruct Hauth as [Hf|Hv].
  { destruct Hf. rewrite Er. destruct r as [[[]|]|]; done. }
  unfold receive_stun. cbn [ReceivedPkt.data]. destruct (Message.class msg).
  - unfold receive_stun_request. rewrite Hc. cbn [ReceivedPkt.data]. by rewrite Hv.
  - done.
  - unfold receive_stun_success. cbn [ReceivedPkt.data]. rewrite Hb.
    unfold receive_check_success. rewrite Hc. cbn [ReceivedPkt.data]. by rewrite Hv.
  - unfold receive_stun_error. rewrite Hc. cbn [ReceivedPkt.data]. by rewrite Hv.
Qed.

(** The symmetry check of a success response accepts what its comment
    rules out: an authenticated response to a pending check that arrives on
    the local address of the check marks the pair as succeeded whatever
    address it was sent from (and likewise one from the right address that
    arrives elsewhere). *)
Theorem asymmetric_response_accepted pkt creds a i p tid req at_ n src tgt :
  remote_credentials a = Some creds -> msg_wf (ReceivedPkt.data pkt) ->
  verify_integrity Sha1 (local_credentials a) creds (ReceivedPkt.data pkt) = Ret (true, ReceivedPkt.data pkt) ->
  find_pair (in_transaction (Message.transaction_id (ReceivedPkt.data pkt))) (pairs a) = Some (i, p) ->
  state p = InProgress tid req at_ n src tgt -> nominated p = false ->
  attribute XorMappedAddress (ReceivedPkt.data pkt) = Ret (None, ReceivedPkt.data pkt) ->
  receive_check_success Sha1 pkt a =
    Ret (update_pair i
      (if decide (ReceivedPkt.source pkt = tgt \/ addr_ip (ReceivedPkt.destination pkt) = src)
       then set_state Succeeded p else set_state Failed (set_nominated false p)) a).
Proof.
  intros Hc Hm Hv Hf Hp Hn Hx. unfold receive_check_success. rewrite Hc, Hv. cbn [mbind exec_bind negb].
  rewrite Hf, Hp, Hn. case_decide; cbn [mbind exec_bind]; unfold discover_peer_reflexive; by rewrite Hx.
Qed.

(** A request can make the agent panic: when an authenticated request,
    with no role conflict, arrives on a local host address from a known
    remote candidate, but the two candidates are not paired (a peer-reflexive
    remote candidate is only ever paired with the first local address it was
    seen on), the lookup of the pair fails and its [expect] panics. *)
Theorem unpaired_request_panics pkt creds a l lc r rc prio uc a1 :
  let msg := ReceivedPkt.data pkt in
  remote_credentials a = Some creds ->
  verify_integrity Sha1 (local_credentials a) creds msg = Ret (true, msg) ->
  attribute Priority msg = Ret (Some (Ok (Prio prio)), msg) ->
  attribute UseCandidate msg = Ret (uc, msg) ->
  handle_role_conflict Sha1 pkt msg creds a = Ret (inl a1) ->
  find (fun kc => bool_decide (Candidate.kind kc.2 = Host /\ Candidate.addr kc.2 = ReceivedPkt.destination pkt))
    (slot_iter (local_candidates a1)) = Some (l, lc) ->
  find (fun kc => bool_decide (Candidate.addr kc.2 = ReceivedPkt.source pkt))
    (slot_iter (remote_candidates a1)) = Some (r, rc) ->
  (l, r) ∉ (fun p => (local p, remote p)) <$> pairs a1 ->
  receive_stun_request Sha1 pkt a = Panic.
Proof.
  intros msg Hc Hv Hp Hu Hr Hl Hrem Hno. unfold receive_stun_request. rewrite Hc. fold msg. rewrite Hv.
  cbn [mbind exec_bind negb]. rewrite Hp. cbn [mbind exec_bind unwrap unwrap_res]. rewrite Hu.
  cbn [mbind exec_bind]. rewrite Hr. cbn [mbind exec_bind]. rewrite Hl.
  unfold remote_of_request. rewrite Hrem.
  destruct (find_pair (is_pair l r) (pairs a1)) as [[i p]|] eqn:E; [|done].
  apply find_pair_Some in E as [Hi Hf]. destruct Hno.
  apply bool_decide_eq_true_1 in Hf as [<- <-]. apply list_elem_of_fmap. exists p.
  split; [done|]. by eapply list_elem_of_lookup_2.
Qed.

(** Turning RTCP multiplexing on breaks an agent that has RTCP pairs:
    [set_remote_data] drops the local RTCP candidates but keeps their pairs,
    so the next access to such a pair's local candidate panics, and with it
    every check of the pair and every change of the agent's role. *)
Theorem multiplexing_breaks_rtcp_pairs now creds p a :
  reachable Sha1 a -> p ∈ pairs a -> pair_component p = Rtcp -> backlog a = [] ->
  exists a', set_remote_data Sha1 now creds [] true a = Ret a' /\ p ∈ pairs a' /\
    local_candidate_of a' p = Panic /\
    (forall tid i, start_check Sha1 tid now creds i p a' = Panic) /\
    (forall ctrl, recompute_pair_priorities (with_is_controlling ctrl a') = Panic).
Proof.
  intros Hr Hp Hc Hb. pose proof (reachable_wf Sha1 a Hr) as Hwf.
  unfold set_remote_data. cbn [exec_fold mbind exec_bind].
  change (backlog (with_remote_credentials _ _)) with (backlog a). rewrite Hb. cbn [exec_fold].
  eexists. split; [done|]. split; [done|].
  pose proof (cl_pairs _ _ _ _ (wf_checklist _ Hwf)) as Hok. rewrite Forall_forall in Hok.
  destruct (Hok p Hp) as (l & r & Hl & _ & Hlc & _).
  assert (slot_get (slot_retain (fun _ c => bool_decide (Candidate.component c = Rtp)) (local_candidates a))
    (local p) = None) as Hnone.
  { destruct (slot_get (slot_retain _ _) _) as [c|] eqn:E; [|done].
    apply slot_get_retain in E as [E Hrtp%bool_decide_eq_true_1]. congruence. }
  split; [unfold local_candidate_of; cbn; by rewrite Hnone|]. split.
  { intros tid i. unfold start_check, local_candidate_of. cbn. by rewrite Hnone. }
  intros ctrl. unfold recompute_pair_priorities. cbn [pairs with_is_controlling with_backlog
    with_remote_credentials with_local_candidates with_stun_server with_rtcp_mux].
  match goal with |- context [recompute_each ?x] => set (b := x) end.
  assert (local_candidate_of b p = Panic) as Hpanic by (unfold local_candidate_of; cbn; by rewrite Hnone).
  clearbody b. clear -Hp Hpanic. induction (pairs a) as [|q ps IH]; [by apply elem_of_nil in Hp|].
  cbn [recompute_each]. apply elem_of_cons in Hp as [<-|Hp]; [by rewrite Hpanic|].
  specialize (IH Hp). destruct (local_candidate_of b q); [|done]. cbn [mbind exec_bind].
  destruct (remote_candidate_of b q); [|done]. cbn [mbind exec_bind].
  by destruct (recompute_each b ps).
Qed.
End checks.

(** ** Instances to run the agent *)
#[local] Existing Instance big_endian.
#[local] Existing Instance toy_digest.
#[local] Existing Instance MessageIntegrity_attr.

(** A slot map whose keys are the places of a list; a removed candidate leaves
    its place empty, so no key is given out twice. *)
Definition slots := list (option Candidate.t).

Fixpoint slots_iter (i : nat) (m : slots) : list (nat * Candidate.t) :=
  match m with
  | [] => []
  | Some c :: m => (i, c) :: slots_iter (S i) m
  | None :: m => slots_iter (S i) m
  end.

Fixpoint slots_retain (f : nat -> Candidate.t -> bool) (i : nat) (m : slots) : slots :=
  match m with
  | [] => []
  | Some c :: m => (if f i c then Some c else None) :: slots_retain f (S i) m
  | None :: m => None :: slots_retain f (S i) m
  end.

#[export] Instance slots_map : SlotMap nat slots := {|
  slot_empty := [];
  slot_insert c m := (length m, m ++ [Some c]);
  slot_get m k := mjoin (m !! k);
  slot_iter := slots_iter 0;
  slot_retain f := slots_retain f 0;
  slot_used m k := (k < length m)%nat |}.

Lemma elem_of_slots_iter i m k c : (k, c) ∈ slots_iter i m <-> (i <= k)%nat /\ m !! (k - i)%nat = Some (Some c).
Proof.
  revert i. induction m as [|[c'|] m IH]; intros i; cbn [slots_iter].
  - split; [by intros ?%elem_of_nil|]. by intros [_ ?].
  - rewrite elem_of_cons, IH. split.
    + intros [[= -> ->]|[H1 H2]]; [by rewrite Nat.sub_diag|]. split; [lia|].
      by replace (k - i)%nat with (S (k - S i)) by lia.
    + intros [H1 H2]. destruct (decide (k = i)) as [->|].
      * rewrite Nat.sub_diag in H2. injection H2 as ->. by left.
      * right. split; [lia|]. by replace (k - i)%nat with (S (k - S i)) in H2 by lia.
  - rewrite IH. split; intros [H1 H2].
    + split; [lia|]. by replace (k - i)%nat with (S (k - S i)) by lia.
    + destruct (decide (k = i)) as [->|]; [by rewrite Nat.sub_diag in H2|].
      split; [lia|]. by replace (k - i)%nat with (S (k - S i)) in H2 by lia.
Qed.

Lemma slots_iter_NoDup i m : NoDup (slots_iter i m).*1.
Proof.
  revert i. induction m as [|[c|] m IH]; intros i; cbn [slots_iter]; [constructor| |apply IH].
  rewrite fmap_cons. constructor; [|apply IH]. intros ([k c'] & E & Hin)%list_elem_of_fmap.
  cbn in E. subst k. apply elem_of_slots_iter in Hin as [? _]. lia.
Qed.

Lemma slots_iter_app i m c : slots_iter i (m ++ [Some c]) = slots_iter i m ++ [((i + length m)%nat, c)].
Proof.
  revert i. induction m as [|[c'|] m IH]; intros i; cbn.
  - by rewrite Nat.add_0_r.
  - rewrite IH. cbn. do 3 f_equal. f_equal. lia.
  - rewrite IH. do 3 f_equal. lia.
Qed.

Lemma slots_iter_retain f i m :
  slots_iter i (slots_retain f i m) = filter (fun kc => f kc.1 kc.2 = true) (slots_iter i m).
Proof.
  revert i. induction m as [|[c|] m IH]; intros i; cbn [slots_retain slots_iter]; [done| |apply IH].
  rewrite filter_cons. cbn [fst snd]. destruct (f i c); case_decide; try done; by rewrite IH.
Qed.

Lemma length_slots_retain f i m : length (slots_retain f i m) = length m.
Proof. revert i. induction m as [|[c|] m IH]; intros i; cbn; by rewrite ?IH. Qed.

#[export] Instance slots_map_laws : SlotMapLaws nat slots.
Proof.
  split.
  - done.
  - intros m. apply slots_iter_NoDup.
  - intros m k c. change (mjoin (m !! k) = Some c <-> (k, c) ∈ slots_iter 0 m).
    rewrite elem_of_slots_iter, Nat.sub_0_r.
    destruct (m !! k) as [[c'|]|]; unfold mjoin, option_join; split; try done; try (by intros [_ ?]).
    + intros [= ->]. split; [lia|done].
    + intros [_ [= ->]]. done.
  - intros c m k m' [= <- <-]. cbn. rewrite slots_iter_app. cbn. by rewrite Permutation_app_comm.
  - intros c m k m' [= <- <-]. cbn. split; [lia|]. intros k'. rewrite length_app. cbn. lia.
  - intros m k c Hin. cbn in *. apply elem_of_slots_iter in Hin as [_ H].
    rewrite Nat.sub_0_r in H. by apply lookup_lt_Some in H.
  - intros f m. cbn. by rewrite slots_iter_retain.
  - intros f m k. cbn. by rewrite length_slots_retain.
Qed.

#[export] Instance prio_dec : RelDecision (by_prio (L := nat) (R := nat)).
Proof. intros p q. unfold by_prio. apply _. Defined.
#[export] Instance prio_total : Total (by_prio (L := nat) (R := nat)).
Proof. intros p q. unfold by_prio. lia. Qed.
#[export] Instance prio_trans : Transitive (by_prio (L := nat) (R := nat)).
Proof. intros p q r. unfold by_prio. lia. Qed.

#[export] Instance merge_sort_pairs : SortPairs nat nat := merge_sort by_prio.
#[export] Instance merge_sort_laws : SortLaws nat nat.
Proof.
  split.
  - intros l. apply merge_sort_Permutation.
  - intros l. apply (StronglySorted_merge_sort by_prio).
Qed.

#[export] Instance kind_foundation : Foundation := fun k _ => be_bytes 1 (kind_num k).

(** ** A run *)
#[local] Abbreviation SampleAgent := (@IceAgent nat nat slots slots).

Definition sample_new (ctrl mux : bool) : SampleAgent :=
  new_agent sample_local (Some sample_remote) ctrl mux 77.

Definition sample_candidate (component prio : Z) : IceCandidate.t := {|
  IceCandidate.foundation := [x31]; IceCandidate.component := component;
  IceCandidate.transport := str_udp; IceCandidate.priority := prio;
  IceCandidate.address := IpAddress (IPv4 0xC0A80002); IceCandidate.port := 6000 + component;
  IceCandidate.typ := str_host; IceCandidate.rel_addr := None; IceCandidate.rel_port := None |}.

Definition sample_agent : SampleAgent := Eval vm_compute in
  match add_remote_candidate (sample_candidate 2 1000)
          (add_host_addr Rtcp (V4 0xC0A80001 5061) (sample_new false false)) with
  | Ret a => a
  | Panic => sample_new false false
  end.

Lemma sample_new_reachable ctrl mux : reachable toy_digest (sample_new ctrl mux).
Proof.
  exists sample_local, (Some sample_remote), ctrl, mux, 77.
  split; [apply sample_creds_ok|]. split; [intros c [= <-]; apply sample_creds_ok|].
  split; [by vm_compute|]. apply rtc_refl.
Qed.

Lemma sample_agent_reachable : reachable toy_digest sample_agent.
Proof.
  destruct (sample_new_reachable false false) as (loc & rem & ctrl & mux & tb & H1 & H2 & H3 & Hrun).
  exists loc, rem, ctrl, mux, tb. do 3 (split; [done|]). eapply rtc_r; [eapply rtc_r|].
  - exact Hrun.
  - apply (step_add_host_addr toy_digest Rtcp (V4 0xC0A80001 5061)).
  - apply (step_add_remote_candidate toy_digest (sample_candidate 2 1000)). vm_compute. reflexivity.
Qed.

Definition sample_tids : nat -> TransactionId := fun i => be_bytes 12 (Z.of_nat i).

Lemma sample_tids_length i : length (sample_tids i) = 12%nat.
Proof. apply length_be_bytes. Qed.

Lemma agent_invariant_witness :
  length (pairs sample_agent) = 1%nat /\ StronglySorted (fun p q => pair_prio p <= pair_prio q) (pairs sample_agent).
Proof.
  split; [reflexivity|].
  destruct (agent_invariant toy_digest false sample_agent (reachable_run toy_digest _ sample_agent_reachable) eq_refl) as [[H _] _].
  exact H.
Defined.

Lemma poll_total_witness :
  exists a', poll toy_digest sample_tids 0 sample_agent = Ret a' /\ run toy_digest false a'.
Proof.
  apply (poll_total toy_digest false); [apply reachable_run, sample_agent_reachable|reflexivity|exact sample_tids_length].
Defined.

Definition sample_pair (s : CandidatePairState) (c : Component) : CandidatePair nat nat := {|
  local := 0%nat; remote := 0%nat; pair_prio := 5; state := s; pair_component := c;
  received_use_candidate := false; nominated := false |}.

Definition sample_progress : CandidatePairState :=
  InProgress sample_tid [x01] 0 5 (IPv4 0xC0A80001) (V4 0xC0A80002 6001).

Lemma check_ends_witness :
  exists p', poll_pair [from_secs 10; from_secs 20; from_secs 30] (sample_pair sample_progress Rtp) =
      Ret (replicate 2 (SendData Rtp [x01] (Some (IPv4 0xC0A80001)) (V4 0xC0A80002 6001)), p') /\
    state p' = Failed.
Proof.
  destruct (check_ends (sample_pair sample_progress Rtp) [from_secs 10; from_secs 20; from_secs 30]
    sample_tid [x01] 0 5 (IPv4 0xC0A80001) (V4 0xC0A80002 6001) eq_refl ltac:(lia))
    as (k & p' & E & _ & Hend).
  destruct Hend as [Hk Hs].
  - intros now Hin. repeat (apply elem_of_cons in Hin as [->|Hin]; [unfold from_secs; lia|]).
    by apply elem_of_nil in Hin.
  - cbn. lia.
  - exists p'. replace k with 2%nat in E by lia. exact (conj E Hs).
Defined.

Lemma poll_paced_witness :
  exists a', poll toy_digest sample_tids 0 sample_agent = Ret a' /\
    (in_flight (pairs a') <= in_flight (pairs sample_agent) + 1)%nat.
Proof.
  destruct (poll_ok toy_digest sample_tids 0 sample_agent sample_tids_length
    (reachable_wf toy_digest _ sample_agent_reachable)) as (a' & E & _).
  exists a'. split; [exact E|]. apply (poll_paced toy_digest _ _ _ _ E).
Defined.

Definition sample_succeeded : SampleAgent :=
  with_pairs [sample_pair Succeeded Rtp] (sample_new true true).

Lemma controlling_nominates_best_witness :
  exists p, state p = Succeeded /\ poll_nomination_of_component Rtp sample_succeeded =
    Ret (with_triggered_check_queue [(local p, remote p)] (with_pairs [set_nominated true p] sample_succeeded)).
Proof.
  destruct (controlling_nominates_best Rtp sample_succeeded eq_refl) as [_ H].
  destruct H as (i & p & Hi & _ & Hs & _ & E).
  - intros ([|i] & p & Hi & _ & Hn); [|discriminate Hi]. injection Hi as <-. discriminate Hn.
  - by exists 0%nat, (sample_pair Succeeded Rtp).
  - exists p. split; [exact Hs|]. destruct i as [|i]; [|discriminate Hi]. exact E.
Defined.

Lemma controlled_without_mux_never_connects_witness :
  exists a', poll toy_digest sample_tids 0 sample_agent = Ret a' /\ connection_state a' <> ConnConnected.
Proof.
  destruct (poll_ok toy_digest sample_tids 0 sample_agent sample_tids_length
    (reachable_wf toy_digest _ sample_agent_reachable)) as (a' & E & _).
  exists a'. split; [exact E|].
  apply (controlled_without_mux_never_connects toy_digest sample_tids 0 sample_agent a');
    [exact sample_agent_reachable|exact sample_tids_length|reflexivity|reflexivity| |discriminate|exact E].
  vm_compute. lia.
Defined.

(** Messages of the peer *)
Definition message_of (b : exec (list byte)) : Message.t :=
  match b with
  | Ret bytes => match parse bytes with
                 | Ok m => m
                 | Err _ => {| Message.buffer := []; Message.head := 0; Message.id := 0; Message.class := Request;
                               Message.method := Binding; Message.transaction_id := []; Message.attributes := [] |}
                 end
  | Panic => {| Message.buffer := []; Message.head := 0; Message.id := 0; Message.class := Request;
                Message.method := Binding; Message.transaction_id := []; Message.attributes := [] |}
  end.

Definition sample_pkt (m : Message.t) : ReceivedPkt.t Message.t :=
  ReceivedPkt.Build_t m (V4 0x0A000001 9999) (V4 0xC0A80001 5061) Rtp.

(** A request whose integrity was made with another password. *)
Definition forged_request : list byte := Eval vm_compute in
  match make_binding_request toy_digest sample_tid sample_remote
          {| ufrag := ufrag sample_local; pwd := [x00] |} 100 true 5 false with
  | Ret b => b
  | Panic => []
  end.

Definition forged_message : Message.t := Eval vm_compute in message_of (Ret forged_request).

Lemma Ok_forged msg : parse forged_request = Ok msg -> msg = forged_message.
Proof.
  assert (parse forged_request = Ok forged_message) as -> by (vm_compute; reflexivity). congruence.
Qed.

Lemma forged_request_refused :
  verify_integrity toy_digest (local_credentials sample_agent) sample_remote forged_message =
    Ret (false, forged_message).
Proof. vm_compute. reflexivity. Qed.

Lemma unauthenticated_ignored_witness :
  is_ok (parse forged_request) = true /\
  receive toy_digest 0 (ReceivedPkt.Build_t forged_request (V4 0x0A000001 9999) (V4 0xC0A80001 5061) Rtp)
    sample_agent = Ret sample_agent.
Proof.
  split; [by vm_compute|].
  apply (unauthenticated_ignored toy_digest 0 _ sample_remote); [reflexivity|].
  intros msg E. split; [reflexivity|]. right.
  apply Ok_forged in E as ->. exact forged_request_refused.
Defined.

Definition sample_response : Message.t := Eval vm_compute in
  message_of (build_sealed toy_digest Success Binding sample_tid [] (pwd sample_remote)).

Definition sample_checking : SampleAgent :=
  with_pairs [sample_pair sample_progress Rtp] (sample_new true true).

Lemma sample_response_wf : msg_wf sample_response.
Proof.
  assert (parse (Message.buffer sample_response) = Ok sample_response) as E by (vm_compute; reflexivity).
  apply (parse_wf _ _ E).
Qed.

Lemma asymmetric_response_accepted_witness :
  exists a', receive_check_success toy_digest (sample_pkt sample_response) sample_checking = Ret a' /\
    (fun p => bool_decide (state p = Succeeded)) <$> pairs a' = [true].
Proof.
  eexists. split.
  - apply (asymmetric_response_accepted toy_digest (sample_pkt sample_response) sample_remote sample_checking 0
      (sample_pair sample_progress Rtp) sample_tid [x01] 0 5 (IPv4 0xC0A80001) (V4 0xC0A80002 6001)).
    + reflexivity.
    + exact sample_response_wf.
    + vm_compute. reflexivity.
    + vm_compute. reflexivity.
    + reflexivity.
    + reflexivity.
    + vm_compute. reflexivity.
  - vm_compute. reflexivity.
Defined.

Definition sample_request : Message.t := Eval vm_compute in
  message_of (make_binding_request toy_digest sample_tid sample_remote sample_local 100 true 5 false).

(** Two local host addresses, and a peer-reflexive candidate paired with the
    first one only. *)
Definition sample_two_hosts : SampleAgent := Eval vm_compute in
  with_remote_candidates [Some {| Candidate.addr := V4 0x0A000001 9999; Candidate.kind := PeerReflexive;
      Candidate.priority := 100; Candidate.foundation := [x7e]; Candidate.component := Rtp;
      Candidate.base := V4 0x0A000001 9999 |}]
    (add_host_addr Rtp (V4 0xC0A80001 5061) (add_host_addr Rtp (V4 0xC0A80009 5061) (sample_new false true))).

Lemma unpaired_request_panics_witness :
  receive_stun_request toy_digest (sample_pkt sample_request)
    (with_pairs [sample_pair Waiting Rtp] sample_two_hosts) = Panic.
Proof.
  eapply (unpaired_request_panics toy_digest (sample_pkt sample_request) sample_remote
    (with_pairs [sample_pair Waiting Rtp] sample_two_hosts) 1%nat).
  - reflexivity.
  - vm_compute. reflexivity.
  - vm_compute. reflexivity.
  - vm_compute. reflexivity.
  - vm_compute. reflexivity.
  - vm_compute. reflexivity.
  - vm_compute. reflexivity.
  - intros H%list_elem_of_singleton. discriminate.
Defined.

Lemma multiplexing_breaks_rtcp_pairs_witness :
  exists p a', p ∈ pairs sample_agent /\
    set_remote_data toy_digest 0 sample_remote [] true sample_agent = Ret a' /\
    local_candidate_of a' p = Panic.
Proof.
  destruct (pairs sample_agent) as [|p ps] eqn:E; [vm_compute in E; discriminate|].
  assert (p ∈ pairs sample_agent) as Hp by (rewrite E; left).
  assert (pair_component p = Rtcp) as Hc.
  { vm_compute in E. injection E as <- _. reflexivity. }
  destruct (multiplexing_breaks_rtcp_pairs toy_digest 0 sample_remote p sample_agent
    sample_agent_reachable Hp Hc eq_refl) as (a' & H1 & _ & H2 & _).
  exists p, a'. split; [left|]. exact (conj H1 H2).
Defined.
