(* ===== verification/SipNames.v ===== *)
(** * Header names, methods and status codes
    (sip-types/src/header/name.rs, method.rs, code.rs)

    The tables of the three macros as inductive types with their printed
    forms, the comparison of header names, and the parser of methods. The
    combinator [tag_no_case] of the package [nom] is a parameter. *)
From S2P Require Import Prelude Text.
Local Open Scope Z_scope.

(** ** Header names *)
Module Name.
Inductive t :=
| Accept | AcceptEncoding | AcceptLanguage | AlertInfo | Allow | AllowEvents
| AuthenticationInfo | Authorization | CallID | CallInfo | Contact | ContentDisposition
| ContentEncoding | ContentLanguage | ContentLength | ContentType | CSeq | Date | ErrorInfo
| Event | Expires | From | InReplyTo | MaxForwards | MinExpires | MinSe | MIMEVersion
| Organization | PAssociatedURI | PCalledPartyID | PVisitedNetworkID | PAccessNetworkInfo
| PChargingFunctionAddresses | PChargingVector | Priority | ProxyAuthenticate
| ProxyAuthorization | ProxyRequire | RAck | RecordRoute | Replaces | ReplyTo | Require
| RetryAfter | Route | RSeq | SecurityClient | SecurityServer | SecurityVerify | Server
| SessionExpires | Subject | SubscriptionState | Supported | Timestamp | To | Unsupported
| UserAgent | Via | Warning | WWWAuthenticate
| Unknown (name : str) | Custom (name : str) (parse_strs : list str).

#[global] Instance t_eq_dec : EqDecision t.
Proof. solve_decision. Defined.

(** [Name::as_print_str] *)
Definition as_print_str (n : t) : str :=
  match n with
  | Accept => lit "Accept"
  | AcceptEncoding => lit "Accept-Encoding"
  | AcceptLanguage => lit "Accept-Language"
  | AlertInfo => lit "Alert-Info"
  | Allow => lit "Allow"
  | AllowEvents => lit "Allow-Events"
  | AuthenticationInfo => lit "Authentication-Info"
  | Authorization => lit "Authorization"
  | CallID => lit "Call-ID"
  | CallInfo => lit "Call-Info"
  | Contact => lit "Contact"
  | ContentDisposition => lit "Content-Disposition"
  | ContentEncoding => lit "Content-Encoding"
  | ContentLanguage => lit "Content-Language"
  | ContentLength => lit "Content-Length"
  | ContentType => lit "Content-Type"
  | CSeq => lit "CSeq"
  | Date => lit "Date"
  | ErrorInfo => lit "Error-Info"
  | Event => lit "Event"
  | Expires => lit "Expires"
  | From => lit "From"
  | InReplyTo => lit "In-Reply-To"
  | MaxForwards => lit "Max-Forwards"
  | MinExpires => lit "Min-Expires"
  | MinSe => lit "Min-SE"
  | MIMEVersion => lit "MIME-Version"
  | Organization => lit "Organization"
  | PAssociatedURI => lit "P-Associated-URI"
  | PCalledPartyID => lit "P-Called-Party-ID"
  | PVisitedNetworkID => lit "P-Visited-Network-ID"
  | PAccessNetworkInfo => lit "P-Access-Network-Info"
  | PChargingFunctionAddresses => lit "P-Charging-Function-Addresses"
  | PChargingVector => lit "P-Charging-Vector"
  | Priority => lit "Priority"
  | ProxyAuthenticate => lit "Proxy-Authenticate"
  | ProxyAuthorization => lit "Proxy-Authorization"
  | ProxyRequire => lit "Proxy-Require"
  | RAck => lit "RAck"
  | RecordRoute => lit "Record-Route"
  | Replaces => lit "Replaces"
  | ReplyTo => lit "Reply-To"
  | Require => lit "Require"
  | RetryAfter => lit "Retry-After"
  | Route => lit "Route"
  | RSeq => lit "RSeq"
  | SecurityClient => lit "Security-Client"
  | SecurityServer => lit "Security-Server"
  | SecurityVerify => lit "Security-Verify"
  | Server => lit "Server"
  | SessionExpires => lit "Session-Expires"
  | Subject => lit "Subject"
  | SubscriptionState => lit "Subscription-State"
  | Supported => lit "Supported"
  | Timestamp => lit "Timestamp"
  | To => lit "To"
  | Unsupported => lit "Unsupported"
  | UserAgent => lit "User-Agent"
  | Via => lit "Via"
  | Warning => lit "Warning"
  | WWWAuthenticate => lit "WWW-Authenticate"
  | Unknown name => name
  | Custom name _ => name
  end.

(** [Name::as_parse_strs] *)
Definition as_parse_strs (n : t) : option (list str) :=
  match n with
  | Accept => Some [lit "accept"]
  | AcceptEncoding => Some [lit "accept-encoding"]
  | AcceptLanguage => Some [lit "accept-language"]
  | AlertInfo => Some [lit "alert-info"]
  | Allow => Some [lit "allow"]
  | AllowEvents => Some [lit "allow-events"; lit "u"]
  | AuthenticationInfo => Some [lit "authentication-info"]
  | Authorization => Some [lit "authorization"]
  | CallID => Some [lit "call-id"; lit "i"]
  | CallInfo => Some [lit "call-info"]
  | Contact => Some [lit "contact"; lit "m"]
  | ContentDisposition => Some [lit "content-disposition"]
  | ContentEncoding => Some [lit "content-encoding"; lit "e"]
  | ContentLanguage => Some [lit "content-language"]
  | ContentLength => Some [lit "content-length"; lit "l"]
  | ContentType => Some [lit "content-type"; lit "c"]
  | CSeq => Some [lit "cseq"]
  | Date => Some [lit "date"]
  | ErrorInfo => Some [lit "error-info"]
  | Event => Some [lit "event"; lit "o"]
  | Expires => Some [lit "expires"]
  | From => Some [lit "from"; lit "f"]
  | InReplyTo => Some [lit "in-reply-to"]
  | MaxForwards => Some [lit "max-forwards"]
  | MinExpires => Some [lit "min-expires"]
  | MinSe => Some [lit "min-se"]
  | MIMEVersion => Some [lit "mime-version"]
  | Organization => Some [lit "organization"]
  | PAssociatedURI => Some [lit "p-associated-uri"]
  | PCalledPartyID => Some [lit "p-called-party-id"]
  | PVisitedNetworkID => Some [lit "p-visited-network-id"]
  | PAccessNetworkInfo => Some [lit "p-access-network-info"]
  | PChargingFunctionAddresses => Some [lit "p-charging-function-addresses"]
  | PChargingVector => Some [lit "p-charging-vector"]
  | Priority => Some [lit "priority"]
  | ProxyAuthenticate => Some [lit "proxy-authenticate"]
  | ProxyAuthorization => Some [lit "proxy-authorization"]
  | ProxyRequire => Some [lit "proxy-require"]
  | RAck => Some [lit "rack"]
  | RecordRoute => Some [lit "record-route"]
  | Replaces => Some [lit "replaces"]
  | ReplyTo => Some [lit "reply-to"]
  | Require => Some [lit "require"]
  | RetryAfter => Some [lit "retry-after"]
  | Route => Some [lit "route"]
  | RSeq => Some [lit "rseq"]
  | SecurityClient => Some [lit "security-client"]
  | SecurityServer => Some [lit "security-server"]
  | SecurityVerify => Some [lit "security-verify"]
  | Server => Some [lit "server"]
  | SessionExpires => Some [lit "session-expires"; lit "x"]
  | Subject => Some [lit "subject"; lit "s"]
  | SubscriptionState => Some [lit "subscription-state"]
  | Supported => Some [lit "supported"; lit "k"]
  | Timestamp => Some [lit "timestamp"]
  | To => Some [lit "to"; lit "t"]
  | Unsupported => Some [lit "unsupported"]
  | UserAgent => Some [lit "user-agent"]
  | Via => Some [lit "via"; lit "v"]
  | Warning => Some [lit "warning"]
  | WWWAuthenticate => Some [lit "www-authenticate"]
  | Unknown _ => None
  | Custom _ parse_strs => Some parse_strs
  end.

(** [NAMES]: every parse string with its name, in the order of the table. *)
Definition NAMES : list (str * t) := [
  (lit "accept", Accept); (lit "accept-encoding", AcceptEncoding);
  (lit "accept-language", AcceptLanguage); (lit "alert-info", AlertInfo); (lit "allow", Allow);
  (lit "allow-events", AllowEvents); (lit "u", AllowEvents);
  (lit "authentication-info", AuthenticationInfo); (lit "authorization", Authorization);
  (lit "call-id", CallID); (lit "i", CallID); (lit "call-info", CallInfo);
  (lit "contact", Contact); (lit "m", Contact);
  (lit "content-disposition", ContentDisposition); (lit "content-encoding", ContentEncoding);
  (lit "e", ContentEncoding); (lit "content-language", ContentLanguage);
  (lit "content-length", ContentLength); (lit "l", ContentLength);
  (lit "content-type", ContentType); (lit "c", ContentType); (lit "cseq", CSeq);
  (lit "date", Date); (lit "error-info", ErrorInfo); (lit "event", Event); (lit "o", Event);
  (lit "expires", Expires); (lit "from", From); (lit "f", From);
  (lit "in-reply-to", InReplyTo); (lit "max-forwards", MaxForwards);
  (lit "min-expires", MinExpires); (lit "min-se", MinSe); (lit "mime-version", MIMEVersion);
  (lit "organization", Organization); (lit "p-associated-uri", PAssociatedURI);
  (lit "p-called-party-id", PCalledPartyID); (lit "p-visited-network-id", PVisitedNetworkID);
  (lit "p-access-network-info", PAccessNetworkInfo);
  (lit "p-charging-function-addresses", PChargingFunctionAddresses);
  (lit "p-charging-vector", PChargingVector); (lit "priority", Priority);
  (lit "proxy-authenticate", ProxyAuthenticate);
  (lit "proxy-authorization", ProxyAuthorization); (lit "proxy-require", ProxyRequire);
  (lit "rack", RAck); (lit "record-route", RecordRoute); (lit "replaces", Replaces);
  (lit "reply-to", ReplyTo); (lit "require", Require); (lit "retry-after", RetryAfter);
  (lit "route", Route); (lit "rseq", RSeq); (lit "security-client", SecurityClient);
  (lit "security-server", SecurityServer); (lit "security-verify", SecurityVerify);
  (lit "server", Server); (lit "session-expires", SessionExpires); (lit "x", SessionExpires);
  (lit "subject", Subject); (lit "s", Subject); (lit "subscription-state", SubscriptionState);
  (lit "supported", Supported); (lit "k", Supported); (lit "timestamp", Timestamp);
  (lit "to", To); (lit "t", To); (lit "unsupported", Unsupported);
  (lit "user-agent", UserAgent); (lit "via", Via); (lit "v", Via); (lit "warning", Warning);
  (lit "www-authenticate", WWWAuthenticate)].

(** [Name::from_bytes] *)
Definition from_bytes (name : str) : t :=
  match find (fun e => eq_ignore_ascii_case e.1 name) NAMES with
  | Some (_, n) => n
  | None => Unknown name
  end.

(** [PartialEq<str>] *)
Definition eq_str (self : t) (other : str) : bool :=
  eq_ignore_ascii_case (as_print_str self) other ||
  match as_parse_strs self with
  | Some strs => existsb (fun s => eq_ignore_ascii_case s other) strs
  | None => false
  end.

(** [PartialEq] *)
Definition eq (self other : t) : bool :=
  eq_str self (as_print_str other) ||
  match as_parse_strs other with
  | Some strs => existsb (eq_str self) strs
  | None => false
  end.
End Name.

(** ** Methods *)

(** [tag_no_case] of the package [nom]: the input without the tag; on ASCII
    input the comparison is the one of ASCII letters. *)
Class Nom := { tag_no_case : str -> str -> option str }.

Definition is_ascii (s : str) : Prop := Forall (fun b => byte_val b < 128) s.

Class NomLaws (N : Nom) : Prop := {
  tag_no_case_ascii tag i : is_ascii tag -> is_ascii (take (length tag) i) ->
    tag_no_case tag i =
      if decide (lower (take (length tag) i) = lower tag) then Some (drop (length tag) i) else None }.

(** The combinator on ASCII letters alone. *)
Definition ascii_nom : Nom := {|
  tag_no_case tag i :=
    if decide (lower (take (length tag) i) = lower tag) then Some (drop (length tag) i) else None |}.

#[export] Instance ascii_nom_laws : NomLaws ascii_nom.
Proof. by split. Qed.

Module Method.
Inductive t :=
| INVITE | ACK | CANCEL | BYE | REGISTER | MESSAGE | UPDATE | PRACK | OPTIONS | SUBSCRIBE
| NOTIFY | PUBLISH | INFO | REFER
| Other (name : str).

#[global] Instance t_eq_dec : EqDecision t.
Proof. solve_decision. Defined.

(** [Display] *)
Definition display (m : t) : str :=
  match m with
  | INVITE => lit "INVITE"
  | ACK => lit "ACK"
  | CANCEL => lit "CANCEL"
  | BYE => lit "BYE"
  | REGISTER => lit "REGISTER"
  | MESSAGE => lit "MESSAGE"
  | UPDATE => lit "UPDATE"
  | PRACK => lit "PRACK"
  | OPTIONS => lit "OPTIONS"
  | SUBSCRIBE => lit "SUBSCRIBE"
  | NOTIFY => lit "NOTIFY"
  | PUBLISH => lit "PUBLISH"
  | INFO => lit "INFO"
  | REFER => lit "REFER"
  | Other other => other
  end.

(** The alternatives of the parser, in the order of the table. *)
Definition alternatives : list t :=
  [INVITE; ACK; CANCEL; BYE; REGISTER; MESSAGE; UPDATE; PRACK; OPTIONS; SUBSCRIBE; NOTIFY; PUBLISH; INFO; REFER].

(** [Method::from_parse] *)
Definition from_parse `{Nom} (slice : str) : t :=
  match find (fun m => bool_decide (is_Some (tag_no_case (display m) slice))) alternatives with
  | Some m => m
  | None => Other slice
  end.
End Method.

(** ** Status codes *)
Module StatusCode.
(** A [u16] *)
Definition t := Z.

Inductive CodeKind :=
| Provisional | Success | Redirection | RequestFailure | ServerFailure | GlobalFailure | Custom.

#[global] Instance CodeKind_eq_dec : EqDecision CodeKind.
Proof. solve_decision. Defined.

(** [StatusCode::kind] *)
Definition kind (code : t) : CodeKind :=
  if (100 <=? code) && (code <=? 199) then Provisional
  else if (200 <=? code) && (code <=? 299) then Success
  else if (300 <=? code) && (code <=? 399) then Redirection
  else if (400 <=? code) && (code <=? 499) then RequestFailure
  else if (500 <=? code) && (code <=? 599) then ServerFailure
  else if (600 <=? code) && (code <=? 699) then GlobalFailure
  else Custom.

Definition TRYING : t := 100.
Definition RINGING : t := 180.
Definition CALL_IS_BEING_FORWARDED : t := 181.
Definition QUEUED : t := 182.
Definition SESSION_PROGRESS : t := 183.
Definition EARLY_DIALOG_TERMINATED : t := 199.
Definition OK : t := 200.
Definition MULTIPLE_CHOICES : t := 300.
Definition MOVED_PERMANENTLY : t := 301.
Definition MOVED_TEMPORARILY : t := 302.
Definition USE_PROXY : t := 305.
Definition ALTERNATIVE_SERVICE : t := 380.
Definition BAD_REQUEST : t := 400.
Definition UNAUTHORIZED : t := 401.
Definition PAYMENT_REQUIRED : t := 402.
Definition FORBIDDEN : t := 403.
Definition NOT_FOUND : t := 404.
Definition METHOD_NOT_ALLOWED : t := 405.
Definition NOT_ACCEPTABLE : t := 406.
Definition PROXY_AUTHENTICATION_REQUIRED : t := 407.
Definition REQUEST_TIMEOUT : t := 408.
Definition GONE : t := 410.
Definition REQUEST_ENTITY_TOO_LARGE : t := 413.
Definition REQUEST_URI_TOO_LONG : t := 414.
Definition UNSUPPORTED_MEDIA_TYPE : t := 415.
Definition UNSUPPORTED_URI_SCHEME : t := 416.
Definition BAD_EXTENSION : t := 420.
Definition EXTENSION_REQUIRED : t := 421.
Definition SESSION_INTERVAL_TOO_SMALL : t := 422.
Definition INTERVAL_TOO_BRIEF : t := 423.
Definition TEMPORARILY_UNAVAILABLE : t := 480.
Definition CALL_OR_TRANSACTION_DOES_NOT_EXIST : t := 481.
Definition LOOP_DETECTED : t := 482.
Definition TOO_MANY_HOPS : t := 483.
Definition ADDRESS_INCOMPLETE : t := 484.
Definition AMBIGUOUS : t := 485.
Definition BUSY_HERE : t := 486.
Definition REQUEST_TERMINATED : t := 487.
Definition NOT_ACCEPTABLE_HERE : t := 488.
Definition BAD_EVENT : t := 489.
Definition REQUEST_PENDING : t := 491.
Definition UNDECIPHERABLE : t := 493.
Definition SERVER_INTERNAL_ERROR : t := 500.
Definition NOT_IMPLMENTED : t := 501.
Definition BAD_GATEWAY : t := 502.
Definition SERVICE_UNAVAILABLE : t := 503.
Definition SERVER_TIMEOUT : t := 504.
Definition VERSION_NOT_SUPPORTED : t := 505.
Definition MESSAGE_TOO_LARGE : t := 513.
Definition BUSY_EVERYWHERE : t := 600.
Definition DECLINE : t := 603.
Definition DOES_NOT_EXIST_ANYWHERE : t := 604.
Definition NOT_ACCEPTABLE6 : t := 606.

(** [StatusCode::text] *)
Definition text (code : t) : option str :=
  match code with
  | 100 => Some (lit "Trying")
  | 180 => Some (lit "Ringing")
  | 181 => Some (lit "Call Is Being Forwarded")
  | 182 => Some (lit "Queued")
  | 183 => Some (lit "Session Progress")
  | 199 => Some (lit "Early Dialog Terminated")
  | 200 => Some (lit "OK")
  | 300 => Some (lit "Multiple Choices")
  | 301 => Some (lit "Moved Permanently")
  | 302 => Some (lit "Moved Temporarily")
  | 305 => Some (lit "Use Proxy")
  | 380 => Some (lit "Alternative Service")
  | 400 => Some (lit "Bad Request")
  | 401 => Some (lit "Unauthorized")
  | 402 => Some (lit "Payment Required")
  | 403 => Some (lit "Forbidden")
  | 404 => Some (lit "Not Found")
  | 405 => Some (lit "Method Not Allowed")
  | 406 => Some (lit "Not Acceptable")
  | 407 => Some (lit "Proxy Authentication Required")
  | 408 => Some (lit "Request Timeout")
  | 410 => Some (lit "Gone")
  | 413 => Some (lit "Request Entity Too Large")
  | 414 => Some (lit "Request-URI Too Long")
  | 415 => Some (lit "Unsupported Media Type")
  | 416 => Some (lit "Unsupported URI Scheme")
  | 420 => Some (lit "Bad Extension")
  | 421 => Some (lit "Extension Required")
  | 422 => Some (lit "Session Interval Too Small")
  | 423 => Some (lit "Interval Too Brief")
  | 480 => Some (lit "Temporarily Unavailable")
  | 481 => Some (lit "Call/Transaction Does Not Exist")
  | 482 => Some (lit "Loop Detected")
  | 483 => Some (lit "Too Many Hops")
  | 484 => Some (lit "Address Incomplete")
  | 485 => Some (lit "Ambiguous")
  | 486 => Some (lit "Busy Here")
  | 487 => Some (lit "Request Terminated")
  | 488 => Some (lit "Not Acceptable Here")
  | 489 => Some (lit "Bad Event")
  | 491 => Some (lit "Request Pending")
  | 493 => Some (lit "Undecipherable")
  | 500 => Some (lit "Server Internal Error")
  | 501 => Some (lit "Not Implemented")
  | 502 => Some (lit "Bad Gateway")
  | 503 => Some (lit "Service Unavailable")
  | 504 => Some (lit "Server Time-out")
  | 505 => Some (lit "Version Not Supported")
  | 513 => Some (lit "Message Too Large")
  | 600 => Some (lit "Busy Everywhere")
  | 603 => Some (lit "Decline")
  | 604 => Some (lit "Does Not Exist Anywhere")
  | 606 => Some (lit "Not Acceptable")
  | _ => None
  end.
End StatusCode.

(** ** Comparison of header names *)

(** The strings a name stands for. *)
Definition name_strs (n : Name.t) : list str :=
  Name.as_print_str n :: default [] (Name.as_parse_strs n).

Definition is_known (n : Name.t) : bool :=
  match n with Name.Unknown _ | Name.Custom _ _ => false | _ => true end.

(** A name as the parsers make it. *)
Definition parsed_name (n : Name.t) : Prop :=
  match n with
  | Name.Unknown s => Name.from_bytes s = Name.Unknown s
  | Name.Custom _ _ => False
  | _ => True
  end.

(** A parsed name with the case of an unknown one removed. *)
Definition canonical (n : Name.t) : Name.t :=
  match n with Name.Unknown s => Name.Unknown (lower s) | n => n end.

Lemma eq_str_true n s : Name.eq_str n s = true <-> lower s ∈ lower <$> name_strs n.
Proof.
  unfold Name.eq_str, name_strs. rewrite orb_true_iff, eq_ignore_ascii_case_true.
  cbn [fmap list_fmap]. rewrite elem_of_cons.
  assert (match Name.as_parse_strs n with
          | Some strs => existsb (fun s0 => eq_ignore_ascii_case s0 s) strs
          | None => false end = true <->
          lower s ∈ lower <$> default [] (Name.as_parse_strs n)) as ->.
  { destruct (Name.as_parse_strs n) as [l|]; cbn [default from_option id].
    - rewrite existsb_exists, list_elem_of_fmap. split.
      + intros (x & Hx & E). apply eq_ignore_ascii_case_true in E. exists x.
        by rewrite list_elem_of_In.
      + intros (x & E & Hx). exists x. rewrite <-list_elem_of_In. split; [done|].
        by apply eq_ignore_ascii_case_true.
    - cbn. by rewrite elem_of_nil. }
  split; (intros [?|?]; [left|right]; done).
Qed.

Lemma name_strs_elem n x : x ∈ lower <$> name_strs n <->
  exists s, x = lower s /\ (s = Name.as_print_str n \/ s ∈ default [] (Name.as_parse_strs n)).
Proof. unfold name_strs. rewrite list_elem_of_fmap. by setoid_rewrite elem_of_cons. Qed.

(** Two names are equal when they share a string. *)
Lemma name_eq_true n m :
  Name.eq n m = true <-> exists x, x ∈ lower <$> name_strs n /\ x ∈ lower <$> name_strs m.
Proof.
  unfold Name.eq. rewrite orb_true_iff, eq_str_true. split.
  - intros [H|H].
    + exists (lower (Name.as_print_str m)). rewrite (name_strs_elem m). eauto.
    + destruct (Name.as_parse_strs m) as [l|] eqn:E; [|done].
      apply existsb_exists in H as (s & Hs & H). apply eq_str_true in H.
      exists (lower s). rewrite (name_strs_elem m), E. split; [done|].
      exists s. split; [done|]. right. by apply list_elem_of_In.
  - intros (x & Hx & Hm). apply name_strs_elem in Hm as (s & -> & [->|Hs]); [by left|]. right.
    destruct (Name.as_parse_strs m) as [l|] eqn:E; [|by apply elem_of_nil in Hs].
    apply existsb_exists. exists s. rewrite <-list_elem_of_In. split; [done|]. by apply eq_str_true.
Qed.

(** Every entry of [NAMES] is a string of its name. *)
Lemma NAMES_strs : Forall (fun e => lower e.1 ∈ lower <$> name_strs e.2) Name.NAMES.
Proof.
  assert (H : forallb (fun e => existsb (eq_ignore_ascii_case e.1) (name_strs e.2)) Name.NAMES = true)
    by (vm_compute; reflexivity).
  rewrite forallb_forall in H. apply Forall_forall. intros e He%list_elem_of_In.
  apply H, existsb_exists in He as (s & Hs & E%eq_ignore_ascii_case_true). rewrite E.
  by apply list_elem_of_fmap_2, list_elem_of_In.
Qed.

Lemma from_bytes_ext s s' k : lower s = lower s' -> is_known k = true ->
  Name.from_bytes s = k -> Name.from_bytes s' = k.
Proof.
  unfold Name.from_bytes, eq_ignore_ascii_case. intros -> Hk.
  destruct (find _ _) as [[? ?]|]; [done|]. by intros <-.
Qed.

(** The strings of a known name parse to it, whatever their case, and
    nothing else does. *)
Lemma from_bytes_known s k : is_known k = true ->
  Name.from_bytes s = k <-> lower s ∈ lower <$> name_strs k.
Proof.
  intros Hk. split.
  - intros H. unfold Name.from_bytes in H.
    destruct (find _ _) as [[p n]|] eqn:E; [|by subst].
    subst n. apply find_some in E as [Hin E]. apply eq_ignore_ascii_case_true in E.
    pose proof NAMES_strs as HN. rewrite Forall_forall in HN.
    apply list_elem_of_In, HN in Hin. cbn in Hin, E. by rewrite E in Hin.
  - rewrite list_elem_of_fmap. intros (x & E & Hx).
    apply (from_bytes_ext x); [done|done|]. clear E s.
    destruct k; try done; vm_compute in Hx;
      repeat (apply elem_of_cons in Hx as [->|Hx]; [vm_compute; reflexivity|]);
      by apply elem_of_nil in Hx.
Qed.

Lemma canonical_known n : is_known n = true -> canonical n = n.
Proof. by destruct n. Qed.

Lemma parsed_cases n : parsed_name n ->
  is_known n = true \/ exists s, n = Name.Unknown s /\ Name.from_bytes s = Name.Unknown s.
Proof. destruct n; cbn; eauto; done. Qed.

Lemma from_bytes_parsed s : parsed_name (Name.from_bytes s).
Proof.
  destruct (Name.from_bytes s) as [] eqn:E; cbn; try done.
  - assert (name = s) as ->; [|done].
    unfold Name.from_bytes in E. destruct (find _ _) as [[p n]|] eqn:Ef; [|by injection E].
    subst n. apply find_some in Ef as [Hin _]. apply list_elem_of_In in Hin.
    exfalso. revert Hin. vm_compute. intros Hin.
    repeat (apply elem_of_cons in Hin as [Hin|Hin]; [discriminate|]). by apply elem_of_nil in Hin.
  - unfold Name.from_bytes in E. destruct (find _ _) as [[p n]|] eqn:Ef; [|done].
    subst n. apply find_some in Ef as [Hin _]. apply list_elem_of_In in Hin.
    revert Hin. vm_compute. intros Hin.
    repeat (apply elem_of_cons in Hin as [Hin|Hin]; [discriminate|]). by apply elem_of_nil in Hin.
Qed.

Lemma name_strs_unknown s x : x ∈ lower <$> name_strs (Name.Unknown s) <-> x = lower s.
Proof. cbn. rewrite elem_of_cons, elem_of_nil. naive_solver. Qed.

Lemma print_str_elem n : lower (Name.as_print_str n) ∈ lower <$> name_strs n.
Proof. apply name_strs_elem. eauto. Qed.

Lemma known_not_unknown k s : is_known k = true -> Name.from_bytes s = Name.Unknown s ->
  lower s ∉ lower <$> name_strs k.
Proof. intros Hk Hs Hin. apply from_bytes_known in Hin; [|done]. rewrite Hs in Hin. by subst. Qed.

(** On the names that come out of the parser, comparison is equality up to
    the case of unknown names. *)
Lemma name_eq_canonical n m : parsed_name n -> parsed_name m ->
  Name.eq n m = true <-> canonical n = canonical m.
Proof.
  intros Hn Hm. rewrite name_eq_true.
  destruct (parsed_cases n Hn) as [Kn|(s & -> & Hs)], (parsed_cases m Hm) as [Km|(t & -> & Ht)].
  - rewrite !canonical_known by done. split.
    + intros (x & Hx & Hx'). apply name_strs_elem in Hx as Hs. destruct Hs as (s & -> & _).
      apply from_bytes_known in Hx, Hx'; congruence.
    + intros ->. eauto using print_str_elem.
  - rewrite canonical_known by done. split.
    + intros (x & Hx & ->%name_strs_unknown). by apply known_not_unknown in Hx.
    + intros ->. done.
  - rewrite (canonical_known m) by done. split.
    + intros (x & ->%name_strs_unknown & Hx). by apply known_not_unknown in Hx.
    + by intros <-.
  - setoid_rewrite name_strs_unknown. cbn. split; [|intros [= ->]; eauto].
    by intros (x & -> & ->).
Qed.

(** Header names are looked up by what they mean: every spelling of a known
    header, long or compact and in any case, parses to its name, the printed
    form among them; and two parsed names compare as equal exactly when they
    are the same known header or differ in case only, so on parsed names the
    comparison is an equivalence. *)
Theorem names_by_alias (a b : str) :
  (forall k, is_known k = true -> Name.from_bytes a = k <-> lower a ∈ lower <$> name_strs k) /\
  (forall k, is_known k = true -> Name.from_bytes (Name.as_print_str k) = k) /\
  (Name.eq (Name.from_bytes a) (Name.from_bytes b) = true <->
   canonical (Name.from_bytes a) = canonical (Name.from_bytes b)).
Proof.
  split; [apply from_bytes_known|]. split.
  - intros k Hk. apply from_bytes_known, print_str_elem; done.
  - apply name_eq_canonical; apply from_bytes_parsed.
Qed.

(** ** Parsing of methods *)

Lemma tag_no_case_prefix `{NL : NomLaws} tag i : is_ascii tag -> is_ascii i ->
  is_Some (tag_no_case tag i) <-> lower (take (length tag) i) = lower tag.
Proof.
  intros Ht Hi. rewrite tag_no_case_ascii by (try done; by apply Forall_take).
  destruct (decide _); split; done.
Qed.

Lemma display_ascii m : m ∈ Method.alternatives -> is_ascii (Method.display m).
Proof.
  intros Hm. apply list_elem_of_In in Hm. revert Hm. cbn.
  intros Hm. repeat destruct Hm as [<-|Hm]; try done; cbn; repeat constructor.
Qed.

(** No method's name is the prefix of another's. *)
Lemma alternatives_prefix_free m m' :
  m ∈ Method.alternatives -> m' ∈ Method.alternatives ->
  lower (take (length (Method.display m')) (Method.display m)) = lower (Method.display m') -> m = m'.
Proof.
  revert m m'. assert (Forall (fun m => Forall (fun m' =>
    lower (take (length (Method.display m')) (Method.display m)) = lower (Method.display m') ->
    m = m') Method.alternatives) Method.alternatives) as H.
  { apply (bool_decide_eq_true_1 _). vm_compute. reflexivity. }
  rewrite Forall_forall in H. intros m m' Hm Hm'. specialize (H m Hm).
  rewrite Forall_forall in H. auto.
Qed.

Lemma display_known m : m ∈ Method.alternatives <-> forall s, m <> Method.Other s.
Proof.
  rewrite list_elem_of_In. split.
  - intros Hm s ->. cbn in Hm. by repeat destruct Hm as [Hm|Hm].
  - intros H. destruct m; try (cbn; tauto). by destruct (H name).
Qed.

Lemma other_unknown s : Method.Other s ∉ Method.alternatives.
Proof. intros H. apply display_known with (s := s) in H. done. Qed.

Lemma is_ascii_app a b : is_ascii (a ++ b) <-> is_ascii a /\ is_ascii b.
Proof. apply Forall_app. Qed.

(** Two methods that are both prefixes of a string are the same. *)
Lemma prefix_unique m m' s : m ∈ Method.alternatives -> m' ∈ Method.alternatives ->
  lower (take (length (Method.display m)) s) = lower (Method.display m) ->
  lower (take (length (Method.display m')) s) = lower (Method.display m') -> m = m'.
Proof.
  revert m m'. assert (forall m m', m ∈ Method.alternatives -> m' ∈ Method.alternatives ->
    (length (Method.display m') <= length (Method.display m))%nat ->
    lower (take (length (Method.display m)) s) = lower (Method.display m) ->
    lower (take (length (Method.display m')) s) = lower (Method.display m') -> m = m') as Hw.
  { intros m m' Hm Hm' Hl E E'. apply alternatives_prefix_free; [done..|].
    rewrite <-E', !lower_take, <-E, lower_take, take_take. f_equal. lia. }
  intros m m' Hm Hm' E E'.
  destruct (decide (length (Method.display m') <= length (Method.display m))%nat).
  - by apply Hw.
  - symmetry. apply Hw; [done..|lia|done|done].
Qed.

(** The parser of methods looks at the beginning of the token only: a token
    is the first method of the table that is a prefix of it without regard to
    case, whatever follows, so each method parses from its printed form but
    INVITED is INVITE and info is INFO; only a token that begins with no known
    method keeps its name. *)
Theorem method_prefix_taken `{NL : NomLaws} (s : str) :
  is_ascii s ->
  (forall m, m ∈ Method.alternatives ->
     Method.from_parse s = m <-> lower (take (length (Method.display m)) s) = lower (Method.display m)) /\
  (Method.from_parse s = Method.Other s <->
   forall m, m ∈ Method.alternatives -> lower (take (length (Method.display m)) s) <> lower (Method.display m)).
Proof.
  intros Hs. assert (forall m, m ∈ Method.alternatives ->
    Method.from_parse s = m <-> lower (take (length (Method.display m)) s) = lower (Method.display m)) as Hp.
  { intros m Hm. unfold Method.from_parse. destruct (find _ _) as [m'|] eqn:Ef.
    - apply find_some in Ef as [Hin Hb]. apply list_elem_of_In in Hin.
      apply bool_decide_eq_true, tag_no_case_prefix in Hb; [|by apply display_ascii|done].
      split; [by intros <-|]. intros E. by apply (prefix_unique m' m s).
    - apply list_elem_of_In in Hm as Hin. apply (find_none _ _ Ef) in Hin.
      apply bool_decide_eq_false in Hin. split.
      + intros <-. by apply other_unknown in Hm.
      + intros E. destruct Hin. apply tag_no_case_prefix; [by apply display_ascii|done|done]. }
  split; [exact Hp|].
  split.
  - intros E m Hm E'. apply (Hp m Hm) in E'. rewrite E in E'. subst. by apply other_unknown in Hm.
  - intros H. unfold Method.from_parse. destruct (find _ _) as [m|] eqn:Ef; [|done].
    apply find_some in Ef as [Hin Hb]. apply list_elem_of_In in Hin.
    apply bool_decide_eq_true, tag_no_case_prefix in Hb; [|by apply display_ascii|done].
    by apply H in Hb.
Qed.

Lemma method_prefix_taken_witness :
  is_ascii (lit "INVITED") /\ Method.from_parse (H := ascii_nom) (lit "INVITED") = Method.INVITE.
Proof.
  assert (is_ascii (lit "INVITED")) as Hs by (repeat constructor). split; [exact Hs|].
  apply (proj1 (method_prefix_taken (NL := ascii_nom_laws) (lit "INVITED") Hs)); [left|reflexivity].
Defined.
