(* ===== verification/SipParse.v ===== *)
(** * Parsers and percent-encoding
    (internal/src/ws.rs, sip-types/src/parse.rs, macros.rs)

    The parsers of the code are built from the combinators of the package
    [nom], which are the parameter [Combinators]; [CombinatorLaws] is their
    documented behaviour and [complete] an instance that computes. So are the
    functions of the package [percent-encoding]. A [char] is the bytes of its
    UTF-8 form. [ws], [parse_quoted] and the classes of characters are code
    of the repository. The last part has the lemmas by which a parser is shown
    to read what was printed. *)
From S2P Require Import Prelude Text SipNames.

(** [IResult<&str, A>]: what is left of the input, and the value. The error
    is nowhere looked at. *)
Definition parser (A : Type) : Type := str -> option (str * A).

(** The number of bytes of the UTF-8 character a byte begins. *)
Definition char_len (b : byte) : nat :=
  if in_range 0 0x7F b then 1 else if in_range 0xC0 0xDF b then 2
  else if in_range 0xE0 0xEF b then 3 else 4.

(** The characters in front for which a test holds, and the rest *)
Fixpoint span_chars (p : str -> bool) (fuel : nat) (i : str) : str * str :=
  match fuel, i with
  | S fuel, b :: _ =>
      let c := take (char_len b) i in
      if p c then let '(t, rest) := span_chars p fuel (drop (char_len b) i) in (c ++ t, rest)
      else ([], i)
  | _, _ => ([], i)
  end.
Definition chars_while (p : str -> bool) (i : str) : str * str := span_chars p (length i) i.

Definition dec_digit : byte -> bool := in_range 48 57.
Definition alphanumeric (b : byte) : bool := (in_range 48 57 b || in_range 65 90 b || in_range 97 122 b)%bool.

(** ** The combinators of [nom]; alternatives and sequences of more than two
    parsers are nested. *)
Class Combinators := {
  tag : str -> parser str;
  take_while : (str -> bool) -> parser str;
  take_while1 : (str -> bool) -> parser str;
  char_ : byte -> parser byte;
  digit1 : parser str;
  alphanumeric1 : parser str;
  u8 : parser Z;
  is_not : str -> parser str;
  escaped : parser str -> byte -> parser byte -> parser str;
  alt {A} : parser A -> parser A -> parser A;
  opt {A} : parser A -> parser (option A);
  map {A B} : parser A -> (A -> B) -> parser B;
  map_res {A B} : parser A -> (A -> option B) -> parser B;
  many0 {A} : parser A -> parser (list A);
  tuple {A B} : parser A -> parser B -> parser (A * B);
  preceded {A B} : parser A -> parser B -> parser B;
  terminated {A B} : parser A -> parser B -> parser A;
  delimited {A B C} : parser A -> parser B -> parser C -> parser B;
  separated_pair {A B C} : parser A -> parser B -> parser C -> parser (A * C);
  recognize {A} : parser A -> parser str;
  verify {A} : parser A -> (A -> bool) -> parser A }.

Class CombinatorLaws (N : Combinators) : Prop := {
  tag_law t i : tag t i = if starts_with t i then Some (drop (length t) i, t) else None;
  take_while_law p i : take_while p i = let '(a, r) := chars_while p i in Some (r, a);
  take_while1_law p i :
    take_while1 p i = let '(a, r) := chars_while p i in if decide (a = []) then None else Some (r, a);
  char_law b i :
    char_ b i = match i with c :: r => if decide (c = b) then Some (r, b) else None | [] => None end;
  digit1_law i :
    digit1 i = let '(a, r) := span dec_digit i in if decide (a = []) then None else Some (r, a);
  alphanumeric1_law i :
    alphanumeric1 i = let '(a, r) := span alphanumeric i in if decide (a = []) then None else Some (r, a);
  u8_law i :
    u8 i = let '(a, r) := span dec_digit i in n ← parse_uint 8 a; Some (r, n);
  (** the characters are ASCII *)
  is_not_law s i : is_ascii s ->
    is_not s i = let '(a, r) := span (fun b => negb (bool_decide (b ∈ s))) i in
                 if decide (a = []) then None else Some (r, a);
  (** on text without the control character *)
  escaped_law normal c escapable s b r : s <> [] -> c ∉ s -> b <> c ->
    normal (s ++ b :: r) = Some (b :: r, s) -> normal (b :: r) = None ->
    escaped normal c escapable (s ++ b :: r) = Some (b :: r, s);
  escaped_nothing normal c escapable b r : b <> c -> normal (b :: r) = None ->
    escaped normal c escapable (b :: r) = None;
  alt_law {A} (p q : parser A) i : alt p q i = match p i with Some x => Some x | None => q i end;
  opt_law {A} (p : parser A) i :
    opt p i = match p i with Some (r, x) => Some (r, Some x) | None => Some (i, None) end;
  map_law {A B} (p : parser A) (f : A -> B) i : map p f i = '(r, x) ← p i; Some (r, f x);
  map_res_law {A B} (p : parser A) (f : A -> option B) i : map_res p f i = '(r, x) ← p i; y ← f x; Some (r, y);
  many0_nil {A} (p : parser A) i : p i = None -> many0 p i = Some (i, []);
  many0_cons {A} (p : parser A) i r x : p i = Some (r, x) -> length r < length i ->
    many0 p i = '(r', l) ← many0 p r; Some (r', x :: l);
  tuple_law {A B} (p : parser A) (q : parser B) i :
    tuple p q i = '(r, x) ← p i; '(r, y) ← q r; Some (r, (x, y));
  preceded_law {A B} (p : parser A) (q : parser B) i :
    preceded p q i = '(r, _) ← p i; q r;
  terminated_law {A B} (p : parser A) (q : parser B) i :
    terminated p q i = '(r, x) ← p i; '(r, _) ← q r; Some (r, x);
  delimited_law {A B C} (p : parser A) (q : parser B) (s : parser C) i :
    delimited p q s i = '(r, _) ← p i; '(r, x) ← q r; '(r, _) ← s r; Some (r, x);
  separated_pair_law {A B C} (p : parser A) (q : parser B) (s : parser C) i :
    separated_pair p q s i = '(r, x) ← p i; '(r, _) ← q r; '(r, y) ← s r; Some (r, (x, y));
  recognize_law {A} (p : parser A) i :
    recognize p i = '(r, _) ← p i; Some (r, take (length i - length r) i);
  verify_law {A} (p : parser A) f i : verify p f i = '(r, x) ← p i; if f x then Some (r, x) else None }.

(** An instance that computes *)
Fixpoint many0_fuel {A} (p : parser A) (fuel : nat) (i : str) : option (str * list A) :=
  match fuel with
  | O => Some (i, [])
  | S fuel =>
      match p i with
      | None => Some (i, [])
      | Some (r, x) =>
          if decide (length r < length i) then '(r', l) ← many0_fuel p fuel r; Some (r', x :: l) else None
      end
  end.

Fixpoint escaped_fuel (normal : parser str) (c : byte) (escapable : parser byte) (fuel : nat) (i : str)
    : option (str * str) :=
  match fuel with
  | O => None
  | S fuel =>
      match i with
      | [] => Some ([], [])
      | b :: r =>
          match normal i with
          | Some (rest, _) =>
              if decide (length rest < length i) then
                '(r', a) ← escaped_fuel normal c escapable fuel rest;
                Some (r', take (length i - length rest) i ++ a)
              else Some (i, [])
          | None =>
              if decide (b = c) then
                '(rest, _) ← escapable r;
                '(r', a) ← escaped_fuel normal c escapable fuel rest;
                Some (r', take (length i - length rest) i ++ a)
              else Some (i, [])
          end
      end
  end.

Definition complete : Combinators := {|
  tag t i := if starts_with t i then Some (drop (length t) i, t) else None;
  take_while p i := let '(a, r) := chars_while p i in Some (r, a);
  take_while1 p i := let '(a, r) := chars_while p i in if decide (a = []) then None else Some (r, a);
  char_ b i := match i with c :: r => if decide (c = b) then Some (r, b) else None | [] => None end;
  digit1 i := let '(a, r) := span dec_digit i in if decide (a = []) then None else Some (r, a);
  alphanumeric1 i := let '(a, r) := span alphanumeric i in if decide (a = []) then None else Some (r, a);
  u8 i := let '(a, r) := span dec_digit i in n ← parse_uint 8 a; Some (r, n);
  is_not s i := let '(a, r) := span (fun b => negb (bool_decide (b ∈ s))) i in
                if decide (a = []) then None else Some (r, a);
  escaped normal c escapable i :=
    match escaped_fuel normal c escapable (S (length i)) i with
    | Some (r, a) => if decide (a = []) then None else Some (r, a)
    | None => None
    end;
  alt A p q i := match p i with Some x => Some x | None => q i end;
  opt A p i := match p i with Some (r, x) => Some (r, Some x) | None => Some (i, None) end;
  map A B p f i := '(r, x) ← p i; Some (r, f x);
  map_res A B p f i := '(r, x) ← p i; y ← f x; Some (r, y);
  many0 A p i := many0_fuel p (S (length i)) i;
  tuple A B p q i := '(r, x) ← p i; '(r, y) ← q r; Some (r, (x, y));
  preceded A B p q i := '(r, _) ← p i; q r;
  terminated A B p q i := '(r, x) ← p i; '(r, _) ← q r; Some (r, x);
  delimited A B C p q s i := '(r, _) ← p i; '(r, x) ← q r; '(r, _) ← s r; Some (r, x);
  separated_pair A B C p q s i := '(r, x) ← p i; '(r, _) ← q r; '(r, y) ← s r; Some (r, (x, y));
  recognize A p i := '(r, _) ← p i; Some (r, take (length i - length r) i);
  verify A p f i := '(r, x) ← p i; if f x then Some (r, x) else None |}.

Lemma many0_fuel_enough {A} (p : parser A) n : forall m i, length i < n -> length i < m ->
  many0_fuel p n i = many0_fuel p m i.
Proof.
  induction n as [|n IH]; intros m i Hn Hm; [lia|]. destruct m as [|m]; [lia|]. cbn.
  destruct (p i) as [[r x]|]; [|done]. destruct (decide (length r < length i)) as [Hr|]; [|done].
  by rewrite (IH m r) by lia.
Qed.

#[export] Instance complete_laws : CombinatorLaws complete.
Proof.
  split; try done.
  - intros normal c escapable s b r Hs Hc Hb Hn Hno. cbn. destruct s as [|x s]; [done|]. cbn [app] in *.
    cbn [escaped_fuel]. rewrite Hn. rewrite decide_True by (cbn; rewrite length_app; cbn; lia).
    assert (escaped_fuel normal c escapable (length (x :: s ++ b :: r)) (b :: r) = Some (b :: r, [])) as ->.
    { cbn [length escaped_fuel]. rewrite Hno. by rewrite decide_False. }
    cbn [mbind option_bind]. rewrite app_nil_r.
    replace (length (x :: s ++ b :: r) - length (b :: r)) with (length (x :: s)) by (cbn; rewrite length_app; cbn; lia).
    change (x :: s ++ b :: r) with ((x :: s) ++ b :: r). by rewrite take_app_length, decide_False.
  - intros normal c escapable b r Hb Hn. cbn. rewrite Hn. by rewrite decide_False.
  - intros A p i Hp. cbn. by rewrite Hp.
  - intros A p i r x Hp Hr. cbn [many0 complete]. cbn [many0_fuel]. rewrite Hp, decide_True by done.
    by rewrite (many0_fuel_enough p (length i) (S (length r))) by lia.
Qed.

(** The text of the error a parser gives on an input *)
Class ErrorText := { error_text : forall {A}, parser A -> str -> str }.

(** ** [percent-encoding]: a set is the ASCII bytes that are encoded; bytes
    beyond ASCII always are. *)
Class Percent := {
  percent_encode : (byte -> bool) -> str -> str;
  percent_decode : str -> str }.

Definition hex_digit (z : Z) : byte := if (z <? 10)%Z then digit z else byte_of (55 + z).
Definition hex_byte (b : byte) : str := [hex_digit (byte_val b / 16); hex_digit (byte_val b mod 16)].
Definition hex_val (b : byte) : option Z :=
  if in_range 48 57 b then Some (byte_val b - 48)%Z
  else if in_range 65 70 b then Some (byte_val b - 55)%Z
  else if in_range 97 102 b then Some (byte_val b - 87)%Z
  else None.

Definition encode_byte (set : byte -> bool) (b : byte) : str :=
  if (set b || negb (in_range 0 127 b))%bool
  then [x25; hex_digit (byte_val b / 16); hex_digit (byte_val b mod 16)] else [b].

Fixpoint decode_bytes (fuel : nat) (s : str) : str :=
  match fuel, s with
  | S fuel, b :: s' =>
      match s' with
      | h :: l :: s'' =>
          if decide (b = x25) then
            match hex_val h, hex_val l with
            | Some h, Some l => byte_of (h * 16 + l) :: decode_bytes fuel s''
            | _, _ => b :: decode_bytes fuel s'
            end
          else b :: decode_bytes fuel s'
      | _ => b :: decode_bytes fuel s'
      end
  | _, _ => s
  end.

Class PercentLaws (P : Percent) : Prop := {
  percent_encode_law set s : percent_encode set s = concat (encode_byte set <$> s);
  percent_decode_law s : percent_decode s = decode_bytes (length s) s }.

Definition percent : Percent := {|
  percent_encode set s := concat (encode_byte set <$> s);
  percent_decode s := decode_bytes (length s) s |}.
#[export] Instance percent_laws : PercentLaws percent.
Proof. by split. Qed.

(** [percent_decode(..).decode_utf8()] *)
Definition decode_utf8 `{Percent} (s : str) : option str :=
  let s := percent_decode s in if utf8_valid s then Some s else None.

(** [encode_set!]: the control characters, and what the class of characters
    does not have *)
Definition encode_set (f : str -> bool) (b : byte) : bool :=
  (in_range 0 31 b || bool_decide (b = x7f) || (in_range 0 127 b && negb (f [b])))%bool.

(** ** The code's own *)

(** [char::is_alphanumeric] beyond ASCII, on the bytes of a character *)
Class Unicode := { unicode_alphanumeric : str -> bool }.

Definition alphanumeric_or `{Unicode} (more : str) (c : str) : bool :=
  match c with
  | [b] => (alphanumeric b || bool_decide (b ∈ more))%bool
  | _ => unicode_alphanumeric c
  end.

Section own.
Context {N : Combinators} {U : Unicode}.

(** [parse::whitespace], [token] *)
Definition whitespace (c : str) : bool := bool_decide (c ∈ [[x20]; [x09]; [x0d]; [x0a]]).
Definition token : str -> bool := alphanumeric_or (lit "-.!%*_`'~+").

(** [ws::whitespace] is [is_ascii_whitespace]. *)
Definition ascii_whitespace (c : str) : bool :=
  match c with [b] => is_ascii_whitespace b | _ => false end.

(** [ws], on two, three and four parsers *)
Definition ws {A B} (p : parser A) (q : parser B) : parser (A * B) := fun i =>
  '(i, _) ← take_while ascii_whitespace i; '(i, x) ← p i;
  '(i, _) ← take_while ascii_whitespace i; '(i, y) ← q i;
  Some (i, (x, y)).
Definition ws4 {A B C D} (p : parser A) (q : parser B) (s : parser C) (u : parser D) : parser (A * B * C * D) := fun i =>
  '(i, _) ← take_while ascii_whitespace i; '(i, x) ← p i;
  '(i, _) ← take_while ascii_whitespace i; '(i, y) ← q i;
  '(i, _) ← take_while ascii_whitespace i; '(i, z) ← s i;
  '(i, _) ← take_while ascii_whitespace i; '(i, w) ← u i;
  Some (i, (x, y, z, w)).
Definition ws3 {A B C} (p : parser A) (q : parser B) (s : parser C) : parser (A * B * C) := fun i =>
  '(i, _) ← take_while ascii_whitespace i; '(i, x) ← p i;
  '(i, _) ← take_while ascii_whitespace i; '(i, y) ← q i;
  '(i, _) ← take_while ascii_whitespace i; '(i, z) ← s i;
  Some (i, (x, y, z)).

(** [parse_quoted] *)
Definition parse_quoted : parser str :=
  delimited (char_ x22) (escaped (is_not [x22]) x5c (char_ x22)) (char_ x22).
End own.

(** ** Reading what was printed

    [reads p s x r]: in front of [r], the text [s] is read as [x]. *)
Definition reads {A} (p : parser A) (s : str) (x : A) (r : str) : Prop := p (s ++ r) = Some (r, x).

(** A class of characters ends before [r]. *)
Definition stops (p : str -> bool) (r : str) : Prop :=
  match r with [] => True | b :: _ => p (take (char_len b) r) = false end.

(** ASCII text of a class *)
Definition all_of (p : str -> bool) (s : str) : Prop :=
  Forall (fun b => in_range 0 127 b = true /\ p [b] = true) s.

Lemma char_len_ascii b : in_range 0 127 b = true -> char_len b = 1.
Proof. unfold char_len. by intros ->. Qed.

Lemma span_chars_all p s r fuel : all_of p s -> stops p r -> length s <= fuel ->
  span_chars p fuel (s ++ r) = (s, r).
Proof.
  intros Hs Hr. revert fuel. induction Hs as [|b s [Hb Hp] _ IH]; intros fuel Hf; cbn.
  - destruct fuel as [|fuel], r as [|b r]; try done. cbn [span_chars]. unfold stops in Hr. by rewrite Hr.
  - destruct fuel as [|fuel]; [cbn in Hf; lia|]. cbn [span_chars].
    rewrite (char_len_ascii b Hb). change (take 1 (b :: s ++ r)) with [b].
    change (drop 1 (b :: s ++ r)) with (s ++ r). rewrite Hp, IH by (cbn in Hf; lia). done.
Qed.

Lemma chars_while_all p s r : all_of p s -> stops p r -> chars_while p (s ++ r) = (s, r).
Proof. intros Hs Hr. apply span_chars_all; [done|done|]. rewrite length_app. lia. Qed.

Lemma all_of_impl (p q : str -> bool) s :
  (forall b, in_range 0 127 b = true -> p [b] = true -> q [b] = true) -> all_of p s -> all_of q s.
Proof. intros H Hs. eapply Forall_impl; [exact Hs|]. cbn. naive_solver. Qed.

Lemma span_stop (f : byte -> bool) s r :
  Forall (fun b => f b = true) s -> match r with [] => True | b :: _ => f b = false end ->
  span f (s ++ r) = (s, r).
Proof.
  intros Hs Hr. destruct r as [|b r].
  - rewrite app_nil_r. induction Hs as [|b s Hb _ IH]; [done|]. cbn. by rewrite Hb, IH.
  - by apply span_app.
Qed.

Section reading.
Context `{NL : CombinatorLaws}.

Lemma tag_nothing t i : starts_with t i = false -> tag t i = None.
Proof. rewrite tag_law. by intros ->. Qed.

Lemma tag_reads t r : reads (tag t) t t r.
Proof. unfold reads. rewrite tag_law, starts_with_app. by rewrite drop_app_length. Qed.

Lemma char_reads b r : reads (char_ b) [b] b r.
Proof. unfold reads. rewrite char_law. cbn. by rewrite decide_True. Qed.

Lemma take_while_reads p s r : all_of p s -> stops p r -> reads (take_while p) s s r.
Proof. intros Hs Hr. unfold reads. rewrite take_while_law, chars_while_all by done. done. Qed.

Lemma take_while1_reads p s r : s <> [] -> all_of p s -> stops p r -> reads (take_while1 p) s s r.
Proof.
  intros Hne Hs Hr. unfold reads. rewrite take_while1_law, chars_while_all by done. by rewrite decide_False.
Qed.

Lemma take_while1_nothing p r : stops p r -> take_while1 p r = None.
Proof.
  intros Hr. rewrite take_while1_law. change r with ([] ++ r) at 1. by rewrite chars_while_all by (done || constructor).
Qed.

Lemma digit1_reads s r : s <> [] -> Forall (fun b => dec_digit b = true) s ->
  match r with [] => True | b :: _ => dec_digit b = false end -> reads digit1 s s r.
Proof. intros Hne Hs Hr. unfold reads. rewrite digit1_law, span_stop by done. by rewrite decide_False. Qed.

Lemma map_reads {A B} (p : parser A) (f : A -> B) s x r : reads p s x r -> reads (map p f) s (f x) r.
Proof. unfold reads. intros H. rewrite map_law, H. done. Qed.

Lemma map_res_reads {A B} (p : parser A) (f : A -> option B) s x y r :
  reads p s x r -> f x = Some y -> reads (map_res p f) s y r.
Proof. unfold reads. intros H Hf. rewrite map_res_law, H. cbn. by rewrite Hf. Qed.

Lemma tuple_reads {A B} (p : parser A) (q : parser B) s s' x y r :
  reads p s x (s' ++ r) -> reads q s' y r -> reads (tuple p q) (s ++ s') (x, y) r.
Proof. unfold reads. intros Hp Hq. rewrite tuple_law, <-app_assoc, Hp. cbn. by rewrite Hq. Qed.

Lemma preceded_reads {A B} (p : parser A) (q : parser B) s s' x y r :
  reads p s x (s' ++ r) -> reads q s' y r -> reads (preceded p q) (s ++ s') y r.
Proof. unfold reads. intros Hp Hq. rewrite preceded_law, <-app_assoc, Hp. cbn. by rewrite Hq. Qed.

Lemma terminated_reads {A B} (p : parser A) (q : parser B) s s' x y r :
  reads p s x (s' ++ r) -> reads q s' y r -> reads (terminated p q) (s ++ s') x r.
Proof. unfold reads. intros Hp Hq. rewrite terminated_law, <-app_assoc, Hp. cbn. by rewrite Hq. Qed.

Lemma delimited_reads {A B C} (p : parser A) (q : parser B) (t : parser C) s s' s'' x y z r :
  reads p s x (s' ++ s'' ++ r) -> reads q s' y (s'' ++ r) -> reads t s'' z r ->
  reads (delimited p q t) (s ++ s' ++ s'') y r.
Proof.
  unfold reads. intros Hp Hq Ht. rewrite delimited_law, <-!app_assoc, Hp. cbn. rewrite Hq. cbn. by rewrite Ht.
Qed.

Lemma opt_reads {A} (p : parser A) s x r : reads p s x r -> reads (opt p) s (Some x) r.
Proof. unfold reads. intros H. by rewrite opt_law, H. Qed.

Lemma opt_nothing {A} (p : parser A) r : p r = None -> reads (opt p) [] None r.
Proof. unfold reads. cbn. intros H. by rewrite opt_law, H. Qed.

Lemma alt_reads_l {A} (p q : parser A) s x r : reads p s x r -> reads (alt p q) s x r.
Proof. unfold reads. intros H. by rewrite alt_law, H. Qed.

Lemma alt_reads_r {A} (p q : parser A) s x r : p (s ++ r) = None -> reads q s x r -> reads (alt p q) s x r.
Proof. unfold reads. intros Hp H. by rewrite alt_law, Hp. Qed.

Lemma recognize_reads {A} (p : parser A) s x r : reads p s x r -> reads (recognize p) s s r.
Proof.
  unfold reads. intros H. rewrite recognize_law, H. cbn.
  rewrite length_app, Nat.add_sub. by rewrite take_app_length.
Qed.

Lemma verify_reads {A} (p : parser A) f s x r : reads p s x r -> f x = true -> reads (verify p f) s x r.
Proof. unfold reads. intros H Hf. rewrite verify_law, H. cbn. by rewrite Hf. Qed.

Lemma many0_reads_nil {A} (p : parser A) r : p r = None -> reads (many0 p) [] [] r.
Proof. intros H. unfold reads. by rewrite many0_nil. Qed.

Lemma many0_reads_cons {A} (p : parser A) s s' x l r : s <> [] ->
  reads p s x (s' ++ r) -> reads (many0 p) s' l r -> reads (many0 p) (s ++ s') (x :: l) r.
Proof.
  unfold reads. intros Hne Hp Hl. rewrite <-app_assoc. rewrite (many0_cons p _ (s' ++ r) x Hp).
  - by rewrite Hl.
  - rewrite (length_app s). destruct s; [done|]. cbn. lia.
Qed.

Lemma tuple_nothing_l {A B} (p : parser A) (q : parser B) i : p i = None -> tuple p q i = None.
Proof. rewrite tuple_law. by intros ->. Qed.

Lemma delimited_nothing {A B C} (p : parser A) (q : parser B) (t : parser C) i : p i = None -> delimited p q t i = None.
Proof. rewrite delimited_law. by intros ->. Qed.

Lemma map_nothing {A B} (p : parser A) (f : A -> B) i : p i = None -> map p f i = None.
Proof. rewrite map_law. by intros ->. Qed.

Lemma map_res_nothing {A B} (p : parser A) (f : A -> option B) i : p i = None -> map_res p f i = None.
Proof. rewrite map_res_law. by intros ->. Qed.

(** White space is ASCII. *)
Lemma ascii_whitespace_ascii : forall b, is_ascii_whitespace b = true -> in_range 0 127 b = true.
Proof. by_bytes. Qed.

Lemma span_ws fuel i : length i <= fuel -> span_chars ascii_whitespace fuel i = span is_ascii_whitespace i.
Proof.
  revert i. induction fuel as [|fuel IH]; intros [|b i] Hf; try done; [cbn in Hf; lia|].
  cbn [span_chars span]. destruct (in_range 0 127 b) eqn:E.
  - rewrite char_len_ascii by done. change (take 1 (b :: i)) with [b]. change (drop 1 (b :: i)) with i.
    cbn [ascii_whitespace]. destruct (is_ascii_whitespace b); [|done]. rewrite (IH i) by (cbn in Hf; lia). done.
  - assert (is_ascii_whitespace b = false) as Hb.
    { destruct (is_ascii_whitespace b) eqn:Hb; [|done]. apply ascii_whitespace_ascii in Hb. congruence. }
    rewrite Hb. unfold ascii_whitespace. destruct (take (char_len b) (b :: i)) as [|c [|]] eqn:Et; [done| |done].
    destruct (char_len b); [done|]. cbn in Et. simplify_eq. by rewrite Hb.
Qed.

Lemma take_ws i : take_while ascii_whitespace i = Some ((span is_ascii_whitespace i).2, (span is_ascii_whitespace i).1).
Proof. rewrite take_while_law. unfold chars_while. rewrite span_ws by done. by destruct (span _ i). Qed.

(** Quoted text without quotes and backslashes *)
Lemma parse_quoted_reads s r : s <> [] -> Forall (fun b => b <> x22 /\ b <> x5c) s ->
  reads parse_quoted ([x22] ++ s ++ [x22]) s r.
Proof.
  intros Hne Hs. unfold parse_quoted. assert (is_ascii [x22]) as Ha by (repeat constructor).
  eapply delimited_reads; [apply char_reads| |apply char_reads].
  unfold reads. cbn [app]. apply escaped_law; try done.
  - intros Hin. rewrite Forall_forall in Hs. by apply (Hs x5c).
  - rewrite (is_not_law [x22] _ Ha), span_stop.
    + by rewrite decide_False.
    + eapply Forall_impl; [exact Hs|]. cbn. intros b [Hb _].
      rewrite bool_decide_eq_false_2; [done|]. by intros ->%list_elem_of_singleton.
    + done.
  - by rewrite is_not_law.
Qed.

Lemma parse_quoted_nothing b r : b <> x22 -> parse_quoted (b :: r) = None.
Proof. intros Hb. apply delimited_nothing. rewrite char_law. by rewrite decide_False. Qed.

Lemma parse_quoted_end : parse_quoted [] = None.
Proof. apply delimited_nothing. by rewrite char_law. Qed.
End reading.

(** ** Percent-encoding undone *)
Section percent.
Context `{PL : PercentLaws}.

Lemma hex_digits z : (0 <= z < 16)%Z -> hex_val (hex_digit z) = Some z.
Proof.
  intros Hz. assert (forallb (fun z => bool_decide (hex_val (hex_digit z) = Some z)) (seqZ 0 16) = true) as H by done.
  rewrite forallb_forall in H. specialize (H z). rewrite bool_decide_eq_true in H.
  apply H, list_elem_of_In, elem_of_seqZ. lia.
Qed.

Lemma hex_halves b : (0 <= byte_val b / 16 < 16)%Z /\ (0 <= byte_val b mod 16 < 16)%Z.
Proof.
  pose proof (byte_val_range b). split; [|by apply Z.mod_pos_bound].
  split; [apply Z.div_pos|apply Z.div_lt_upper_bound]; lia.
Qed.

(** What is encoded decodes, if a literal percent sign is encoded or there is
    none. *)
Lemma decode_encoded set s fuel : (set x25 = true \/ x25 ∉ s) ->
  length (concat (encode_byte set <$> s)) <= fuel ->
  decode_bytes fuel (concat (encode_byte set <$> s)) = s.
Proof.
  intros Hp. revert fuel. induction s as [|b s IH]; intros fuel Hf; [by destruct fuel|].
  assert (set x25 = true \/ x25 ∉ s) as Hp' by (destruct Hp as [?|Hn]; [by left|right; contradict Hn; by right]).
  specialize (IH Hp'). cbn [fmap list_fmap concat] in *. unfold encode_byte at 1.
  unfold encode_byte at 1 in Hf. pose proof (byte_val_range b) as Hb.
  destruct (set b || negb (in_range 0 127 b))%bool eqn:E.
  - cbn [app length] in *. destruct fuel as [|fuel]; [lia|]. cbn [decode_bytes].
    rewrite decide_True by done.
    rewrite !hex_digits by apply hex_halves.
    f_equal; [|apply IH; lia]. rewrite Z.mul_comm, <-Z.div_mod by lia. apply byte_of_val.
  - cbn [app length] in *. destruct fuel as [|fuel]; [lia|]. cbn [decode_bytes].
    assert (b <> x25) as Hne.
    { intros ->. destruct Hp as [Hset|Hn]; [by rewrite Hset in E|by destruct Hn; left]. }
    rewrite (IH fuel) by lia.
    destruct (concat (encode_byte set <$> s)) as [|h [|l r]]; [done|done|]. by rewrite decide_False by done.
Qed.

Lemma decode_encode set s : (set x25 = true \/ x25 ∉ s) -> percent_decode (percent_encode set s) = s.
Proof. intros H. rewrite percent_encode_law, percent_decode_law. by apply decode_encoded. Qed.

Lemma decode_utf8_encode set s : (set x25 = true \/ x25 ∉ s) -> utf8_valid s = true ->
  decode_utf8 (percent_encode set s) = Some s.
Proof. intros H Hu. unfold decode_utf8. by rewrite decode_encode, Hu. Qed.

(** Encoded text is ASCII text of the class, if that has the percent sign and
    what is written behind it. *)
Lemma encoded_all_of f s : f [x25] = true -> (forall b, alphanumeric b = true -> f [b] = true) ->
  all_of f (percent_encode (encode_set f) s).
Proof.
  intros Hp Ha. rewrite percent_encode_law. unfold all_of. apply Forall_concat.
  apply Forall_fmap. apply Forall_forall. intros b _. cbn. unfold encode_byte.
  pose proof (byte_val_range b) as Hb.
  assert (forall z, (0 <= z < 16)%Z -> in_range 0 127 (hex_digit z) = true /\ f [hex_digit z] = true) as Hhex.
  { intros z Hz. assert (forallb (fun z => in_range 0 127 (hex_digit z) && alphanumeric (hex_digit z)) (seqZ 0 16) = true)
      as H by done.
    rewrite forallb_forall in H. specialize (H z). apply andb_true_iff in H; [naive_solver|].
    apply list_elem_of_In, elem_of_seqZ. lia. }
  destruct (encode_set f b || negb (in_range 0 127 b))%bool eqn:E.
  - repeat constructor; try done; apply Hhex, hex_halves.
  - apply orb_false_iff in E as [E1 E2]. apply negb_false_iff in E2. constructor; [|done]. split; [done|].
    unfold encode_set in E1. rewrite E2 in E1. apply orb_false_iff in E1 as [_ E1]. cbn in E1.
    by apply negb_false_iff in E1.
Qed.

(** Text of the class without control characters is not changed. *)
Lemma encode_plain f s : all_of f s -> Forall (fun b => in_range 32 126 b = true) s ->
  percent_encode (encode_set f) s = s.
Proof.
  intros Hs Hc. rewrite percent_encode_law. induction Hs as [|b s [Hb Hf] _ IH]; [done|].
  inversion Hc as [|? ? Hb' Hc']; subst. cbn [fmap list_fmap concat]. rewrite IH by done.
  unfold encode_byte, encode_set. rewrite Hb, Hf.
  assert ((in_range 0 31 b || bool_decide (b = x7f))%bool = false) as ->; [|done].
  apply orb_false_iff. split.
  - unfold in_range in *. apply andb_true_iff in Hb' as [? ?]. apply andb_false_iff. right. lia.
  - apply bool_decide_eq_false_2. by intros ->.
Qed.
End percent.

Create HintDb reads.
#[export] Hint Resolve tag_reads char_reads opt_reads map_reads alt_reads_l recognize_reads verify_reads : reads.
