(* ===== verification/SipHeaders.v ===== *)
(** * Headers and parameters
    (sip-types/src/header/headers.rs, header/mod.rs, header/multiple.rs, header/error.rs,
    uri/params.rs)

    The container of header values, an ordered multimap from header names, and
    the parameter lists of URIs and headers. The traits [DecodeValues] and
    [ExtendValues] are classes; the parsers and printers that implement them
    are not part of this file. *)
From S2P Require Import Prelude Text SipNames.

(** ** Errors *)
Inductive HeaderErrorRepr :=
| Missing
| Malformed (error : str)
| MalformedAdhoc (error : str).

Module HeaderError.
Record t := { name : Name.t; repr : HeaderErrorRepr }.

Definition missing (n : Name.t) : t := {| name := n; repr := Missing |}.
Definition malformed (n : Name.t) (e : str) : t := {| name := n; repr := Malformed e |}.
Definition malformed_adhoc (n : Name.t) (e : str) : t := {| name := n; repr := MalformedAdhoc e |}.
Definition is_missing (e : t) : bool := match repr e with Missing => true | _ => false end.
End HeaderError.

(** ** Values *)
Module OneOrMore.
Inductive t := One (value : str) | More (values : list str).

(** The values in order. *)
Definition to_list (v : t) : list str :=
  match v with One value => [value] | More values => values end.

(** [OneOrMore::push] *)
Definition push (value : str) (v : t) : t :=
  match v with
  | One existing_value => More [existing_value; value]
  | More vec => More (vec ++ [value])
  end.

(** [Extend::extend] *)
Definition extend (iter : list str) (v : t) : t :=
  match v with
  | One value => if decide (iter = []) then One value else More (value :: iter)
  | More vec => More (vec ++ iter)
  end.
End OneOrMore.

(** The trait [DecodeValues]: a header from at least one value. *)
Class DecodeValues (H : Type) := { decode_values : list str -> result str H }.

(** The trait [HeaderParse]: the rest of the value and the header; the error
    is the one of [nom]. *)
Class HeaderParse (H : Type) := { header_parse : str -> result str (str * H) }.

(** A header that is one value: the first one is parsed. *)
Definition decode_first {H} `{HeaderParse H} (values : list str) : result str H :=
  match values with
  | [] => Err []
  | value :: _ => '(_, h) ← header_parse value; Ok h
  end.

(** [multiple.rs]: a list of headers, from values that hold several separated by
    commas. The loop over a value ends at the first part that does not parse;
    every round but the last removes a comma. *)
Fixpoint parse_items {H} `{HeaderParse H} (fuel : nat) (i : str) : list H :=
  match fuel with
  | O => []
  | S fuel =>
      match header_parse i with
      | Ok (remaining, hdr) =>
          let remaining := trim_start remaining in
          hdr :: (if starts_with [x2c] remaining then
                    parse_items fuel (strip_chars ([x2c] :: white_space) (length remaining) remaining)
                  else [])
      | Err _ => []
      end
  end.

Definition decode_multiple {H} `{HeaderParse H} (values : list str) : result str (list H) :=
  Ok (concat ((fun value => parse_items (S (length value)) value) <$> values)).

(** Values that do not parse are left out: the list may be empty. *)
Lemma decode_multiple_malformed {H} `{HeaderParse H} vs :
  (forall v, v ∈ vs -> exists e, header_parse v = Err e) -> decode_multiple vs = Ok [].
Proof.
  intros Hbad. unfold decode_multiple. f_equal. induction vs as [|v vs IH]; [done|]. cbn [fmap list_fmap concat].
  rewrite IH by (intros w Hw; apply Hbad; by right). destruct (Hbad v) as [x Hx]; [left|].
  cbn [parse_items]. by rewrite Hx.
Qed.

(** The implementations of [DecodeValues] for all of these *)
#[export] Instance decode_values_one {H} `{HeaderParse H} : DecodeValues H | 10 := {| decode_values := decode_first |}.
#[export] Instance decode_values_list {H} `{HeaderParse H} : DecodeValues (list H) | 10 :=
  {| decode_values := decode_multiple |}.

(** The trait [ExtendValues], in the default [PrintCtx]. *)
Class ExtendValues (H : Type) := {
  extend_values : H -> OneOrMore.t -> OneOrMore.t;
  create_values : H -> OneOrMore.t }.

(** The trait [ConstNamed] *)
Class ConstNamed (H : Type) := { NAME : Name.t }.
Arguments NAME H {_}.

(** Lists of headers print one value per header; printing an empty list
    panics. *)
Definition extend_multiple {H} `{ExtendValues H} (hs : list H) (values : OneOrMore.t) : OneOrMore.t :=
  foldl (fun values item => extend_values item values) values hs.
Definition create_multiple {H} `{ExtendValues H} (hs : list H) : exec OneOrMore.t :=
  match hs with
  | [] => Panic
  | first :: hs => Ret (extend_multiple hs (create_values first))
  end.

(** [csv_header!]: one item of a comma-separated list; further items are added
    to the last value (which is there in a well-formed container). *)
Module CsvHeader.
Record t := { item : str }.
Definition append_last (s : str) (values : OneOrMore.t) : OneOrMore.t :=
  match values with
  | OneOrMore.One value => OneOrMore.One (value ++ lit ", " ++ s)
  | OneOrMore.More values =>
      OneOrMore.More (match last values with
                      | Some value => take (length values - 1) values ++ [value ++ lit ", " ++ s]
                      | None => []
                      end)
  end.
#[global] Instance csv_header_parse : HeaderParse t := {|
  header_parse i :=
    match position (fun c => bool_decide (c = x2c)) i with
    | Some comma_idx => Ok (drop comma_idx i, {| item := take comma_idx i |})
    | None => Ok ([], {| item := i |})
    end |}.
#[global] Instance csv_extend_values : ExtendValues t := {|
  extend_values h values := append_last (item h) values;
  create_values h := OneOrMore.One (item h) |}.
End CsvHeader.

(** A printed value ([Print] for a string). *)
#[export] Instance str_extend_values : ExtendValues str := {|
  extend_values v vs := OneOrMore.push v vs;
  create_values v := OneOrMore.One v |}.

(** ** The container *)
Module Headers.
Record Entry := { name : Name.t; values : OneOrMore.t }.
Record t := { entries : list Entry }.

Definition new : t := {| entries := [] |}.

(** [Headers::contains] *)
Definition contains (n : Name.t) (h : t) : bool :=
  existsb (fun e => Name.eq (name e) n) (entries h).

(** [Headers::entry] *)
Definition entry (n : Name.t) (h : t) : option Entry :=
  find (fun e => Name.eq (name e) n) (entries h).

(** The update through [Headers::entry_mut]: of the first entry with the
    name, [None] when there is none. *)
Fixpoint update_entry (n : Name.t) (f : OneOrMore.t -> OneOrMore.t) (es : list Entry)
    : option (list Entry) :=
  match es with
  | [] => None
  | e :: es =>
      if Name.eq (name e) n then Some ({| name := name e; values := f (values e) |} :: es)
      else es ← update_entry n f es; Some (e :: es)
  end.

(** [Headers::insert_type], [insert_named], and [insert] at the end *)
Definition insert_type {H} `{ExtendValues H} (n : Name.t) (header : H) (h : t) : t :=
  {| entries :=
       match update_entry n (extend_values header) (entries h) with
       | Some es => es
       | None => entries h ++ [{| name := n; values := create_values header |}]
       end |}.

Definition insert_named {H} `{ConstNamed H, ExtendValues H} (header : H) (h : t) : t :=
  insert_type (NAME H) header h.

Definition insert (n : Name.t) (value : str) (h : t) : t :=
  {| entries :=
       match update_entry n (OneOrMore.push value) (entries h) with
       | Some es => es
       | None => entries h ++ [{| name := n; values := OneOrMore.One value |}]
       end |}.

(** [insert_named] of a list of headers *)
Definition insert_multiple {H} `{ExtendValues H} (n : Name.t) (hs : list H) (h : t) : exec t :=
  match update_entry n (extend_multiple hs) (entries h) with
  | Some es => Ret {| entries := es |}
  | None =>
      values ← create_multiple hs;
      Ret {| entries := entries h ++ [{| name := n; values := values |}] |}
  end.

(** [Headers::insert_type_front], [insert_named_front], [insert_front] *)
Definition insert_type_front {H} `{ExtendValues H} (n : Name.t) (header : H) (h : t) : t :=
  {| entries :=
       match update_entry n (extend_values header) (entries h) with
       | Some es => es
       | None => {| name := n; values := create_values header |} :: entries h
       end |}.

Definition insert_named_front {H} `{ConstNamed H, ExtendValues H} (header : H) (h : t) : t :=
  insert_type_front (NAME H) header h.

Definition insert_front (n : Name.t) (value : str) (h : t) : t :=
  {| entries :=
       match update_entry n (OneOrMore.push value) (entries h) with
       | Some es => es
       | None => {| name := n; values := OneOrMore.One value |} :: entries h
       end |}.

(** [remove_where] *)
Definition remove_where {A} (f : A -> bool) (l : list A) : option (A * list A) :=
  i ← position f l; x ← l !! i; Some (x, delete i l).

(** [Headers::remove] *)
Definition remove (n : Name.t) (h : t) : option (list str) * t :=
  match remove_where (fun e => Name.eq n (name e)) (entries h) with
  | Some (e, es) => (Some (OneOrMore.to_list (values e)), {| entries := es |})
  | None => (None, h)
  end.

(** [OneOrMore::decode] *)
Definition decode {H} `{DecodeValues H} (n : Name.t) (v : OneOrMore.t) : result HeaderError.t H :=
  match decode_values (OneOrMore.to_list v) with
  | Ok a => Ok a
  | Err e => Err (HeaderError.malformed n e)
  end.

(** [Headers::try_get], [get], and with the name of the type *)
Definition try_get {H} `{DecodeValues H} (n : Name.t) (h : t) : option (result HeaderError.t H) :=
  e ← entry n h; Some (decode n (values e)).

Definition get {H} `{DecodeValues H} (n : Name.t) (h : t) : result HeaderError.t H :=
  match try_get n h with
  | Some res => res
  | None => Err (HeaderError.missing n)
  end.

Definition try_get_named H `{ConstNamed H, DecodeValues H} (h : t) : option (result HeaderError.t H) :=
  try_get (NAME H) h.
Definition get_named H `{ConstNamed H, DecodeValues H} (h : t) : result HeaderError.t H :=
  get (NAME H) h.

(** [Headers::try_take], [take], and with the name of the type *)
Definition try_take {H} `{DecodeValues H} (n : Name.t) (h : t)
    : option (result HeaderError.t H) * t :=
  match remove_where (fun e => Name.eq (name e) n) (entries h) with
  | Some (e, es) => (Some (decode n (values e)), {| entries := es |})
  | None => (None, h)
  end.

Definition take {H} `{DecodeValues H} (n : Name.t) (h : t) : option H * t :=
  let '(r, h) := try_take n h in (r ← r; result_ok r, h).

Definition try_take_named H `{ConstNamed H, DecodeValues H} (h : t)
    : option (result HeaderError.t H) * t := try_take (NAME H) h.
Definition take_named H `{ConstNamed H, DecodeValues H} (h : t) : option H * t := take (NAME H) h.

(** [Headers::edit], [edit_named] *)
Definition edit {H} `{DecodeValues H, ExtendValues H} (n : Name.t) (f : H -> H) (h : t)
    : result HeaderError.t t :=
  match entry n h with
  | None => Err (HeaderError.missing n)
  | Some e =>
      header ← decode n (values e);
      Ok {| entries := default (entries h)
              (update_entry n (fun _ => create_values (f header)) (entries h)) |}
  end.

Definition edit_named {H} `{ConstNamed H, DecodeValues H, ExtendValues H} (f : H -> H) (h : t)
    : result HeaderError.t t := edit (NAME H) f h.

(** [Headers::clone_into] *)
Definition clone_into (dest : t) (n : Name.t) (h : t) : result HeaderError.t t :=
  match entry n h with
  | None => Err (HeaderError.missing n)
  | Some e =>
      Ok match values e with
         | OneOrMore.One val => insert n val dest
         | OneOrMore.More values => foldl (fun dest val => insert n val dest) dest values
         end
  end.

(** [Headers::drain_into]: the destination, and what is left of the source *)
Definition drain_entry (dst : t) (e : Entry) : t :=
  match values e with
  | OneOrMore.One value => insert (name e) value dst
  | OneOrMore.More values => foldl (fun dst value => insert (name e) value dst) dst values
  end.
Definition drain_into (dst : t) (h : t) : t * t :=
  (foldl drain_entry dst (entries h), {| entries := [] |}).

(** [Headers::iter]: the items in order; an empty list of values panics. *)
Fixpoint iter_entries (es : list Entry) : exec (list (Name.t * str)) :=
  match es with
  | [] => Ret []
  | e :: es =>
      here ← match values e with
             | OneOrMore.One val => Ret [(name e, val)]
             | OneOrMore.More [] => Panic
             | OneOrMore.More values => Ret (pair (name e) <$> values)
             end;
      rest ← iter_entries es;
      Ret (here ++ rest)
  end.
Definition iter (h : t) : exec (list (Name.t * str)) := iter_entries (entries h).

(** [Display] *)
Definition print_line (nv : Name.t * str) : str :=
  Name.as_print_str nv.1 ++ lit ": " ++ nv.2 ++ [x0d; x0a].
Definition display (h : t) : exec str := l ← iter h; Ret (concat (print_line <$> l)).

(** [Headers::printed_len] *)
Definition printed_len (h : t) : exec nat :=
  l ← iter h;
  Ret (foldl (fun len nv => len + length (Name.as_print_str nv.1) + length nv.2 + 4) 0 l).

(** [Extend] *)
Definition extend (iter : list (Name.t * str)) (h : t) : t :=
  foldl (fun h nv => insert nv.1 nv.2 h) h iter.
End Headers.

(** ** Parameters *)
Module Params.
Record Param := { name : str; value : option str }.
Definition t := list Param.

Definition new : t := [].
Definition is_empty (p : t) : bool := match p with [] => true | _ => false end.
Definition push (param : Param) (p : t) : t := p ++ [param].
Definition with_param (param : Param) (p : t) : t := push param p.

(** [Params::get], [get_val] *)
Definition get (n : str) (p : t) : option Param := find (fun x => bool_decide (name x = n)) p.
Definition get_val (n : str) (p : t) : option str := x ← get n p; value x.

(** The update through [Params::get_mut] *)
Fixpoint update (n : str) (v : option str) (p : t) : option t :=
  match p with
  | [] => None
  | x :: p =>
      if decide (name x = n) then Some ({| name := name x; value := v |} :: p)
      else p ← update n v p; Some (x :: p)
  end.

(** [Params::take] *)
Definition take (n : str) (p : t) : option str * t :=
  match Headers.remove_where (fun x => bool_decide (name x = n)) p with
  | Some (x, p) => (value x, p)
  | None => (None, p)
  end.

(** [Params::push_or_edit] *)
Definition push_or_edit (n v : str) (p : t) : t :=
  match update n (Some v) p with
  | Some p => p
  | None => push {| name := n; value := Some v |} p
  end.
End Params.

(** ** The container as a multimap

    [headers_wf]: every entry has a name as the parsers make it and at least
    one value, and no two entries have the same name. [all_values] is the
    list of the values of a name. *)
Definition headers_wf (h : Headers.t) : Prop :=
  Forall (fun e => parsed_name (Headers.name e) /\ OneOrMore.to_list (Headers.values e) <> [])
    (Headers.entries h) /\
  NoDup ((fun e => canonical (Headers.name e)) <$> Headers.entries h).

Definition all_values (n : Name.t) (h : Headers.t) : list str :=
  match Headers.entry n h with Some e => OneOrMore.to_list (Headers.values e) | None => [] end.

Section multimap.
#[local] Abbreviation ok_entry := (fun e => parsed_name (Headers.name e) /\
  OneOrMore.to_list (Headers.values e) <> []).
#[local] Abbreviation names es := ((fun e => canonical (Headers.name e)) <$> es).
#[local] Abbreviation lookup n es := (all_values n (Headers.Build_t es)).

Lemma name_eq_decide n m : parsed_name n -> parsed_name m ->
  Name.eq n m = bool_decide (canonical n = canonical m).
Proof.
  intros Hn Hm. pose proof (name_eq_canonical n m Hn Hm).
  destruct (Name.eq n m); symmetry; [apply bool_decide_eq_true|apply bool_decide_eq_false]; naive_solver.
Qed.

Lemma to_list_push v vs : OneOrMore.to_list (OneOrMore.push v vs) = OneOrMore.to_list vs ++ [v].
Proof. by destruct vs. Qed.

Lemma lookup_cons n e es : parsed_name n -> parsed_name (Headers.name e) ->
  lookup n (e :: es) =
    if decide (canonical (Headers.name e) = canonical n)
    then OneOrMore.to_list (Headers.values e) else lookup n es.
Proof.
  intros Hn He. unfold all_values, Headers.entry. cbn. rewrite name_eq_decide by done.
  case_bool_decide; case_decide; done.
Qed.

Lemma lookup_absent n es : parsed_name n -> Forall ok_entry es ->
  canonical n ∉ names es -> lookup n es = [].
Proof.
  intros Hn Hes. induction Hes as [|e es [He _] _ IH]; intros Hni; [done|].
  rewrite lookup_cons by done. cbn in Hni. apply not_elem_of_cons in Hni as [H1 H2].
  rewrite decide_False by congruence. auto.
Qed.

(** A name has values exactly when it has an entry. *)
Lemma lookup_nil n es : parsed_name n -> Forall ok_entry es ->
  lookup n es = [] <-> canonical n ∉ names es.
Proof.
  intros Hn Hes. split; [|by apply lookup_absent].
  induction Hes as [|e es [He Hv] _ IH]; cbn; [intros _; apply not_elem_of_nil|].
  rewrite lookup_cons by done. case_decide as Hc; [done|]. intros H.
  apply not_elem_of_cons. split; [congruence|auto].
Qed.

Lemma lookup_snoc n es e : parsed_name n -> Forall ok_entry es -> ok_entry e ->
  canonical (Headers.name e) ∉ names es ->
  lookup n (es ++ [e]) =
    if decide (canonical (Headers.name e) = canonical n)
    then OneOrMore.to_list (Headers.values e) else lookup n es.
Proof.
  intros Hn Hes [He Hv] Hni. induction Hes as [|e' es [He' Hv'] Hes IH]; cbn [app].
  - by rewrite lookup_cons.
  - cbn in Hni. apply not_elem_of_cons in Hni as [H1 H2]. rewrite !lookup_cons by done.
    rewrite IH by done. case_decide; case_decide; congruence.
Qed.

(** The update of an entry keeps the names, and changes its values alone. *)
Lemma update_entry_spec n f es : parsed_name n -> Forall ok_entry es ->
  (forall v, OneOrMore.to_list v <> [] -> OneOrMore.to_list (f v) <> []) ->
  match Headers.update_entry n f es with
  | Some es' =>
      canonical n ∈ names es /\ names es' = names es /\ Forall ok_entry es' /\
      exists v, lookup n es = OneOrMore.to_list v /\
      forall m, parsed_name m ->
        lookup m es' = if decide (canonical n = canonical m) then OneOrMore.to_list (f v)
                       else lookup m es
  | None => canonical n ∉ names es
  end.
Proof.
  intros Hn Hes Hf. induction Hes as [|e es [He Hv] Hes IH]; cbn; [apply not_elem_of_nil|].
  rewrite name_eq_decide by done. case_bool_decide as Hc.
  - split; [rewrite <-Hc; left|]. split; [done|]. split; [constructor; [cbn; auto|done]|].
    exists (Headers.values e). rewrite lookup_cons, decide_True by done. split; [done|].
    intros m Hm. rewrite !lookup_cons by done. cbn.
    case_decide; case_decide; congruence.
  - destruct (Headers.update_entry n f es) as [es'|] eqn:E; cbn.
    + destruct IH as (Hin & Hnames & Hok & v & Hl & Hv').
      split; [by right|]. split; [by rewrite Hnames|]. split; [by constructor|].
      exists v. rewrite lookup_cons, decide_False by done. split; [done|].
      intros m Hm. rewrite !lookup_cons by done. rewrite Hv' by done.
      case_decide; [rewrite decide_False by congruence|]; done.
    + apply not_elem_of_cons. split; [congruence|done].
Qed.

(** Both inserts, generically in where a new entry goes. *)
Lemma insert_spec n v h h' : headers_wf h -> parsed_name n ->
  h' = Headers.insert n v h \/ h' = Headers.insert_front n v h ->
  headers_wf h' /\ forall m, parsed_name m ->
    all_values m h' = if decide (canonical n = canonical m) then all_values m h ++ [v]
                      else all_values m h.
Proof.
  destruct h as [es]. intros [Hes Hnd] Hn Hh'. cbn in Hes, Hnd.
  pose proof (update_entry_spec n (OneOrMore.push v) es Hn Hes) as H.
  assert (forall vs, OneOrMore.to_list vs <> [] -> OneOrMore.to_list (OneOrMore.push v vs) <> []) as Hpush.
  { intros vs _. rewrite to_list_push. by destruct (OneOrMore.to_list vs). }
  specialize (H Hpush).
  destruct (Headers.update_entry n (OneOrMore.push v) es) as [es'|] eqn:E.
  - assert (h' = Headers.Build_t es') as ->
      by (destruct Hh' as [->| ->]; unfold Headers.insert, Headers.insert_front; cbn; by rewrite E).
    destruct H as (_ & Hnames & Hok & v' & Hl & Hv). split; [split; cbn; [done|by rewrite Hnames]|].
    intros m Hm. rewrite Hv by done. case_decide as Hc; [|done]. rewrite to_list_push, <-Hl. f_equal.
    unfold all_values, Headers.entry. cbn. revert Hes. clear -Hn Hm Hc.
    induction 1 as [|e es [He _] _ IH]; cbn; [done|].
    rewrite !name_eq_decide by done. rewrite <-Hc. case_bool_decide; done.
  - set (e := {| Headers.name := n; Headers.values := OneOrMore.One v |}).
    assert (ok_entry e) as Hoke by (split; [done|by cbn]).
    assert (forall m, parsed_name m -> canonical n = canonical m -> lookup m es = []) as Habs.
    { intros m Hm Hc. apply lookup_nil; [done..|]. by rewrite <-Hc. }
    destruct Hh' as [->| ->]; unfold Headers.insert, Headers.insert_front; cbn; rewrite E; split.
    + split; cbn; [by apply Forall_app; split; [|constructor]|].
      rewrite fmap_app. apply NoDup_app. split; [done|]. split; [|apply NoDup_singleton].
      intros x Hx Hx'%list_elem_of_singleton. by subst.
    + intros m Hm. rewrite lookup_snoc by done. cbn. case_decide; [|done]. by rewrite Habs.
    + split; cbn; [by constructor|]. by constructor.
    + intros m Hm. rewrite lookup_cons by done. cbn. case_decide; [|done]. by rewrite Habs.
Qed.

(** Inserting a header that replaces the values of its name *)
Lemma insert_type_spec {H} `{ExtendValues H} n (c : H) h : headers_wf h -> parsed_name n ->
  OneOrMore.to_list (create_values c) <> [] -> (forall v, extend_values c v = create_values c) ->
  headers_wf (Headers.insert_type n c h) /\ forall m, parsed_name m ->
    all_values m (Headers.insert_type n c h) =
      if decide (canonical n = canonical m) then OneOrMore.to_list (create_values c) else all_values m h.
Proof.
  destruct h as [es]. intros [Hes Hnd] Hn Hne Hrep. cbn in Hes, Hnd.
  pose proof (update_entry_spec n (extend_values c) es Hn Hes) as Hu.
  unfold Headers.insert_type. cbn [Headers.entries].
  destruct (Headers.update_entry n (extend_values c) es) as [es'|] eqn:E.
  - destruct Hu as (_ & Hnames & Hok & v & _ & Hv); [intros v _; by rewrite Hrep|].
    split; [split; cbn; [done|by rewrite Hnames]|].
    intros m Hm. rewrite Hv by done. by rewrite Hrep.
  - split.
    + split; cbn; [by apply Forall_app; split; [|constructor]|].
      rewrite fmap_app. apply NoDup_app. split; [done|]. split; [|apply NoDup_singleton].
      intros x Hx Hx'%list_elem_of_singleton. subst x. apply Hu; [|done]. intros v _. by rewrite Hrep.
    + intros m Hm. rewrite lookup_snoc by first [done|by split|by apply Hu; intros v _; rewrite Hrep]. done.
Qed.

(** What every header prints: at least one value. *)
Class PrintsValues (H : Type) `{ExtendValues H} : Prop := {
  create_nonempty (h : H) : OneOrMore.to_list (create_values h) <> [];
  extend_nonempty (h : H) v : OneOrMore.to_list v <> [] -> OneOrMore.to_list (extend_values h v) <> [] }.

(** A new entry, or an update by a function that keeps values nonempty *)
Lemma put_entry_spec n f new (h : Headers.t) : headers_wf h -> parsed_name n ->
  OneOrMore.to_list new <> [] -> (forall v, OneOrMore.to_list v <> [] -> OneOrMore.to_list (f v) <> []) ->
  let h' := {| Headers.entries := match Headers.update_entry n f (Headers.entries h) with
                                  | Some es => es
                                  | None => Headers.entries h ++ [{| Headers.name := n; Headers.values := new |}]
                                  end |} in
  headers_wf h' /\ (forall m, parsed_name m -> canonical n <> canonical m -> all_values m h' = all_values m h) /\
  (all_values n h = [] -> all_values n h' = OneOrMore.to_list new).
Proof.
  destruct h as [es]. intros [Hes Hnd] Hn Hne Hf. cbn in Hes, Hnd |- *.
  pose proof (update_entry_spec n f es Hn Hes Hf) as Hu. destruct (Headers.update_entry n f es) as [es'|] eqn:E.
  - destruct Hu as (Hin & Hnames & Hok & v & Hl & Hv). split; [split; cbn; [done|by rewrite Hnames]|]. split.
    + intros m Hm Hc. rewrite Hv by done. by rewrite decide_False.
    + intros Ha. exfalso. apply list_elem_of_fmap in Hin as (e & Hc & He).
      assert (lookup n es <> []) as Hx; [|done]. clear -Hes Hn Hc He.
      induction Hes as [|e' es [He' Hv'] Hes IH]; [by apply elem_of_nil in He|].
      rewrite lookup_cons by done. case_decide as Hd; [done|]. apply IH.
      apply elem_of_cons in He as [->|He]; [congruence|done].
  - assert (forall m, parsed_name m -> lookup m (es ++ [{| Headers.name := n; Headers.values := new |}]) =
      if decide (canonical n = canonical m) then OneOrMore.to_list new else lookup m es) as Hl.
    { intros m Hm. by rewrite lookup_snoc by first [done|by split]. }
    split; [|split].
    + split; cbn; [by apply Forall_app; split; [|constructor]|].
      rewrite fmap_app. apply NoDup_app. split; [done|]. split; [|apply NoDup_singleton].
      intros x Hx Hx'%list_elem_of_singleton. by subst x.
    + intros m Hm Hc. rewrite Hl by done. by rewrite decide_False.
    + intros _. rewrite Hl by done. by rewrite decide_True.
Qed.

Lemma insert_type_put {H} `{PrintsValues H} n (c : H) h : headers_wf h -> parsed_name n ->
  headers_wf (Headers.insert_type n c h) /\
  (forall m, parsed_name m -> canonical n <> canonical m -> all_values m (Headers.insert_type n c h) = all_values m h) /\
  (all_values n h = [] -> all_values n (Headers.insert_type n c h) = OneOrMore.to_list (create_values c)).
Proof. intros Hwf Hn. apply put_entry_spec; [done|done|apply create_nonempty|apply extend_nonempty]. Qed.

Lemma insert_multiple_put {H} `{PrintsValues H} n (hs : list H) h : headers_wf h -> parsed_name n -> hs <> [] ->
  exists h', Headers.insert_multiple n hs h = Ret h' /\ headers_wf h' /\
    (forall m, parsed_name m -> canonical n <> canonical m -> all_values m h' = all_values m h) /\
    (all_values n h = [] -> exists v, create_multiple hs = Ret v /\ all_values n h' = OneOrMore.to_list v).
Proof.
  intros Hwf Hn Hne. destruct hs as [|x hs]; [done|].
  assert (forall (hs : list H) v, OneOrMore.to_list v <> [] -> OneOrMore.to_list (extend_multiple hs v) <> []) as Hext.
  { intros l. induction l as [|y l IH]; intros v Hv; [done|]. cbn. apply IH. by apply extend_nonempty. }
  destruct (put_entry_spec n (extend_multiple (x :: hs)) (extend_multiple hs (create_values x)) h Hwf Hn)
    as (Hw & Ho & Hv); [apply Hext, create_nonempty|apply Hext|].
  unfold Headers.insert_multiple. destruct (Headers.update_entry n (extend_multiple (x :: hs)) (Headers.entries h)) as [es|].
  - eexists. split; [reflexivity|]. split; [done|]. split; [done|]. intros Ha. eexists. split; [reflexivity|]. by apply Hv.
  - cbn [create_multiple mbind exec_bind]. eexists. split; [reflexivity|]. split; [done|]. split; [done|]. intros Ha.
    eexists. split; [reflexivity|]. by apply Hv.
Qed.

(** The values of a name and whether the container has it. *)
Lemma contains_spec n h : headers_wf h -> parsed_name n ->
  Headers.contains n h = bool_decide (all_values n h <> []).
Proof.
  destruct h as [es]. intros [Hes _] Hn. unfold Headers.contains. cbn in *.
  induction Hes as [|e es [He Hv] Hes IH]; cbn; [done|].
  rewrite lookup_cons, name_eq_decide, IH by done.
  destruct (decide (canonical (Headers.name e) = canonical n)) as [Hc|Hc].
  - rewrite bool_decide_eq_true_2 by done. symmetry. by apply bool_decide_eq_true.
  - by rewrite bool_decide_eq_false_2.
Qed.

Lemma entry_values n h : headers_wf h -> parsed_name n -> all_values n h <> [] ->
  exists e, Headers.entry n h = Some e /\ OneOrMore.to_list (Headers.values e) = all_values n h.
Proof. intros _ _. unfold all_values. destruct (Headers.entry n h) as [e|]; [eauto|done]. Qed.

Lemma remove_spec n h : headers_wf h -> parsed_name n ->
  (Headers.remove n h).1 = (if decide (all_values n h = []) then None else Some (all_values n h)) /\
  headers_wf (Headers.remove n h).2 /\
  forall m, parsed_name m ->
    all_values m (Headers.remove n h).2 =
      if decide (canonical n = canonical m) then [] else all_values m h.
Proof.
  destruct h as [es]. intros [Hes Hnd] Hn. cbn in Hes, Hnd.
  unfold Headers.remove, Headers.remove_where. cbn.
  induction Hes as [|e es [He Hv] Hes IH]; cbn in *.
  - split; [done|]. split; [by split; cbn; constructor|]. intros m Hm. by case_decide.
  - apply NoDup_cons in Hnd as [Hni Hnd]. specialize (IH Hnd). rewrite name_eq_decide by done.
    rewrite lookup_cons by done. case_bool_decide as Hc.
    + clear IH. cbn. rewrite (decide_True (P := canonical (Headers.name e) = canonical n)) by done.
      rewrite decide_False by done. split; [done|]. split; [by split|].
      intros m Hm. rewrite lookup_cons by done. case_decide as Hm'.
      * apply lookup_nil; [done..|]. by rewrite <-Hm', Hc.
      * rewrite decide_False by congruence. done.
    + rewrite (decide_False (P := canonical (Headers.name e) = canonical n)) by congruence.
      destruct (position (fun e => Name.eq n (Headers.name e)) es) as [i|] eqn:Ei; cbn in *.
      * destruct (es !! i) as [x|] eqn:Ex; cbn in *.
        -- destruct IH as (H1 & [Hok Hnd'] & H3). clear Hnd. split; [done|]. split.
           { split; cbn in *; [by constructor|]. apply NoDup_cons. split; [|done].
             intros Hin. apply Hni. apply list_elem_of_fmap in Hin as (y & Hy & Hin).
             rewrite Hy. apply list_elem_of_fmap. exists y. split; [done|].
             eapply elem_of_submseteq; [exact Hin|]. apply sublist_submseteq, sublist_delete. }
           intros m Hm. rewrite !lookup_cons by done. rewrite H3 by done.
           destruct (decide (canonical n = canonical m)); [rewrite decide_False by congruence|]; done.
        -- apply position_Some in Ei as (y & Hy & _). congruence.
      * destruct IH as (H1 & Hwf & H3). split; [done|]. split.
        { split; cbn; [by constructor|by apply NoDup_cons]. }
        intros m Hm. rewrite !lookup_cons by done. rewrite H3 by done.
        destruct (decide (canonical n = canonical m)); [rewrite decide_False by congruence|]; done.
Qed.

(** Inserting the values of a list one by one. *)
Lemma new_wf : headers_wf Headers.new.
Proof. by split; constructor. Qed.

Lemma insert_all_spec n vs h : headers_wf h -> parsed_name n ->
  let h' := foldl (fun h v => Headers.insert n v h) h vs in
  headers_wf h' /\ forall m, parsed_name m ->
    all_values m h' = if decide (canonical n = canonical m) then all_values m h ++ vs
                      else all_values m h.
Proof.
  intros Hwf Hn. revert h Hwf. induction vs as [|v vs IH]; intros h Hwf; cbn.
  - split; [done|]. intros m Hm. case_decide; [by rewrite app_nil_r|done].
  - destruct (insert_spec n v h _ Hwf Hn (or_introl eq_refl)) as [Hwf' Hv].
    destruct (IH _ Hwf') as [Hwf'' Hvs]. split; [done|]. intros m Hm.
    rewrite Hvs, Hv by done. case_decide; [by rewrite <-app_assoc|done].
Qed.

Lemma drain_entry_foldl dst e : Headers.drain_entry dst e =
  foldl (fun h v => Headers.insert (Headers.name e) v h) dst (OneOrMore.to_list (Headers.values e)).
Proof. unfold Headers.drain_entry. by destruct (Headers.values e). Qed.

Lemma clone_into_foldl dst n h : all_values n h <> [] ->
  Headers.clone_into dst n h =
    Ok (foldl (fun h v => Headers.insert n v h) dst (all_values n h)).
Proof.
  unfold Headers.clone_into, all_values. destruct (Headers.entry n h) as [e|]; [|done].
  by destruct (Headers.values e).
Qed.

Lemma clone_into_spec dst n h : headers_wf dst -> parsed_name n -> all_values n h <> [] ->
  exists dst', Headers.clone_into dst n h = Ok dst' /\ headers_wf dst' /\
    forall m, parsed_name m -> all_values m dst' =
      if decide (canonical n = canonical m) then all_values m dst ++ all_values n h else all_values m dst.
Proof.
  intros Hwf Hn Hv. eexists. split; [by apply clone_into_foldl|].
  by apply (insert_all_spec n (all_values n h) dst).
Qed.

Lemma drain_into_spec dst h : headers_wf dst -> headers_wf h ->
  headers_wf (Headers.drain_into dst h).1 /\
  forall m, parsed_name m -> all_values m (Headers.drain_into dst h).1 = all_values m dst ++ all_values m h.
Proof.
  destruct h as [es]. unfold Headers.drain_into. cbn. intros Hdst [Hes Hnd]. cbn in Hes, Hnd.
  revert dst Hdst. induction Hes as [|e es [He Hv] Hes IH]; intros dst Hdst; cbn.
  - split; [done|]. intros m Hm. by rewrite app_nil_r.
  - cbn in Hnd. apply NoDup_cons in Hnd as [Hni Hnd]. rewrite drain_entry_foldl.
    destruct (insert_all_spec (Headers.name e) (OneOrMore.to_list (Headers.values e)) dst Hdst He)
      as [Hwf Hvs].
    destruct (IH Hnd _ Hwf) as [Hwf' Hall]. split; [done|]. intros m Hm.
    rewrite Hall, Hvs, lookup_cons by done. case_decide as Hc; [|done].
    rewrite (lookup_absent m es); [by rewrite app_nil_r|done..|by rewrite <-Hc].
Qed.

(** On a well-formed container the iterator does not panic and gives the
    values of the entries in order. *)
Lemma iter_spec h : headers_wf h ->
  Headers.iter h =
    Ret (concat ((fun e => pair (Headers.name e) <$> OneOrMore.to_list (Headers.values e)) <$>
                 Headers.entries h)).
Proof.
  destruct h as [es]. intros [Hes _]. unfold Headers.iter. cbn in *.
  induction Hes as [|e es [_ Hv] _ IH]; cbn; [done|].
  destruct (Headers.values e) as [v|[|v vs]]; cbn in *; [by rewrite IH|done|by rewrite IH].
Qed.
(** *** The order: all names and values, as they are sent *)
Definition contents (h : Headers.t) : list (Name.t * str) :=
  concat ((fun e => pair (canonical (Headers.name e)) <$> OneOrMore.to_list (Headers.values e)) <$> Headers.entries h).

(** A value is put behind the last one of its name; [new] when there is none. *)
Definition placed (k : Name.t) (v : str) (new l l' : list (Name.t * str)) : Prop :=
  (k ∉ l.*1 /\ l' = new) \/
  exists a w b, l = a ++ (k, w) :: b /\ k ∉ b.*1 /\ l' = a ++ (k, w) :: (k, v) :: b.

(** The values of a name within such a list, in order *)
Definition values_in (k : Name.t) (l : list (Name.t * str)) : list str :=
  snd <$> filter (fun p => p.1 = k) l.

Lemma contents_snoc es1 es2 : contents (Headers.Build_t (es1 ++ es2)) =
  contents (Headers.Build_t es1) ++ contents (Headers.Build_t es2).
Proof. unfold contents. cbn. by rewrite fmap_app, concat_app. Qed.

Lemma contents_name k es : k ∈ (contents (Headers.Build_t es)).*1 -> k ∈ names es.
Proof.
  unfold contents. cbn. induction es as [|e es IH]; [done|]. cbn. rewrite fmap_app, elem_of_app.
  intros [H|H]; [|right; by apply IH]. rewrite <-list_fmap_compose in H.
  apply list_elem_of_fmap in H as (w & -> & _). left.
Qed.

Lemma values_in_entry k e : values_in k (pair (canonical (Headers.name e)) <$> OneOrMore.to_list (Headers.values e)) =
  if decide (canonical (Headers.name e) = k) then OneOrMore.to_list (Headers.values e) else [].
Proof.
  unfold values_in. induction (OneOrMore.to_list (Headers.values e)) as [|w ws IH]; [by case_decide|].
  cbn [fmap list_fmap]. rewrite filter_cons. cbn [fst]. case_decide; [|done]. cbn. by f_equal.
Qed.

Lemma values_in_app k l1 l2 : values_in k (l1 ++ l2) = values_in k l1 ++ values_in k l2.
Proof. unfold values_in. by rewrite filter_app, fmap_app. Qed.

Lemma values_in_absent k es : k ∉ names es -> values_in k (contents (Headers.Build_t es)) = [].
Proof.
  intros Hk. unfold contents. cbn [Headers.entries]. induction es as [|e es IH]; [done|].
  cbn [fmap list_fmap concat] in *. apply not_elem_of_cons in Hk as [Hne Hk].
  rewrite values_in_app, IH, values_in_entry by done. by rewrite decide_False by congruence.
Qed.

Lemma contents_values h : headers_wf h -> forall m, parsed_name m -> all_values m h = values_in (canonical m) (contents h).
Proof.
  destruct h as [es]. intros [Hes Hnd] m Hm. cbn in Hes, Hnd. induction Hes as [|e es [He Hv] Hes IH]; [done|].
  cbn in Hnd. apply NoDup_cons in Hnd as [Hni Hnd]. specialize (IH Hnd).
  rewrite (contents_snoc [e] es : contents (Headers.Build_t (e :: es)) = _), values_in_app. rewrite lookup_cons by done.
  unfold contents at 1. cbn [Headers.entries fmap list_fmap concat]. rewrite app_nil_r, values_in_entry. case_decide as Hc; [|done].
  rewrite values_in_absent by (by rewrite <-Hc). by rewrite app_nil_r.
Qed.

(** The container iterates over its contents. *)
Lemma iter_contents h : headers_wf h -> exists l, Headers.iter h = Ret l /\ contents h = prod_map canonical id <$> l.
Proof.
  intros Hh. eexists. split; [by apply iter_spec|]. unfold contents. induction (Headers.entries h) as [|e es IH]; [done|].
  cbn. rewrite fmap_app, IH. f_equal. by rewrite <-list_fmap_compose.
Qed.

Lemma update_entry_where n f es es' : parsed_name n -> Forall ok_entry es -> Headers.update_entry n f es = Some es' ->
  exists es1 e es2, es = es1 ++ e :: es2 /\ canonical (Headers.name e) = canonical n /\
    es' = es1 ++ {| Headers.name := Headers.name e; Headers.values := f (Headers.values e) |} :: es2.
Proof.
  intros Hn Hes. revert es'. induction Hes as [|e es [He _] _ IH]; intros es'; [done|]. cbn. rewrite name_eq_decide by done.
  case_bool_decide as Hc.
  - intros [= <-]. by exists [], e, es.
  - intros (es0 & E & [= <-])%bind_Some. destruct (IH es0 E) as (es1 & e1 & es2 & -> & Hc1 & ->).
    by exists (e :: es1), e1, es2.
Qed.

(** Where the inserts put a value *)
Lemma insert_placed n v h : headers_wf h -> parsed_name n ->
  placed (canonical n) v (contents h ++ [(canonical n, v)]) (contents h) (contents (Headers.insert n v h)) /\
  placed (canonical n) v ((canonical n, v) :: contents h) (contents h) (contents (Headers.insert_front n v h)).
Proof.
  destruct h as [es]. intros [Hes Hnd] Hn. cbn in Hes, Hnd. unfold Headers.insert, Headers.insert_front. cbn [Headers.entries].
  pose proof (update_entry_spec n (OneOrMore.push v) es Hn Hes) as Hu.
  destruct (Headers.update_entry n (OneOrMore.push v) es) as [es'|] eqn:E.
  - destruct (update_entry_where _ _ _ _ Hn Hes E) as (es1 & e & es2 & -> & Hc & ->).
    apply Forall_app in Hes as [_ Hes]. inversion_clear Hes as [|? ? [_ Hv] _].
    rewrite fmap_app in Hnd. apply NoDup_app in Hnd as (_ & _ & Hnd). cbn in Hnd. apply NoDup_cons in Hnd as [Hni _].
    destruct (exists_last Hv) as (ws & w & Ew).
    enough (forall new, placed (canonical n) v new (contents (Headers.Build_t (es1 ++ e :: es2)))
      (contents (Headers.Build_t (es1 ++ {| Headers.name := Headers.name e;
         Headers.values := OneOrMore.push v (Headers.values e) |} :: es2)))) as Hp by (split; exact (Hp _)).
    right. exists (contents (Headers.Build_t es1) ++ (pair (canonical n) <$> ws)), w, (contents (Headers.Build_t es2)).
    split; [|split; [intros Hin%contents_name; apply Hni; by rewrite Hc|]].
    + rewrite contents_snoc. unfold contents at 2. cbn. by rewrite Ew, fmap_app, Hc, <-!app_assoc.
    + rewrite contents_snoc. unfold contents at 2. cbn. by rewrite to_list_push, Ew, !fmap_app, Hc, <-!app_assoc.
  - assert (canonical n ∉ (contents (Headers.Build_t es)).*1) as Hk.
    { intros Hin%contents_name. apply Hu; [|done]. intros vs _. rewrite to_list_push. by destruct (OneOrMore.to_list vs). }
    split; left; (split; [done|]); [|done]. by rewrite contents_snoc.
Qed.

Lemma filter_kept {A} (P : A -> Prop) `{!forall x, Decision (P x)} l : Forall P l -> filter P l = l.
Proof. induction 1 as [|x l Hx _ IH]; [done|]. by rewrite filter_cons_True, IH. Qed.

Lemma filter_dropped {A} (P : A -> Prop) `{!forall x, Decision (P x)} l : Forall (fun x => ~ P x) l -> filter P l = [].
Proof. induction 1 as [|x l Hx _ IH]; [done|]. by rewrite filter_cons_False, IH. Qed.

Lemma contents_without n es : canonical n ∉ names es ->
  filter (fun p => p.1 <> canonical n) (contents (Headers.Build_t es)) = contents (Headers.Build_t es).
Proof.
  intros Hk. apply filter_kept, Forall_forall. intros [k w] Hi. cbn. intros ->. apply Hk, contents_name.
  by apply (list_elem_of_fmap_2 fst _ _ Hi).
Qed.

Lemma remove_contents n h : headers_wf h -> parsed_name n ->
  contents (Headers.remove n h).2 = filter (fun p => p.1 <> canonical n) (contents h).
Proof.
  destruct h as [es]. intros [Hes Hnd] Hn. cbn in Hes, Hnd. unfold Headers.remove, Headers.remove_where. cbn [Headers.entries].
  destruct (position _ es) as [i|] eqn:Ei; cbn [mbind option_bind].
  - apply position_Some in Ei as (e & He & Hm & _). rewrite He. cbn [mbind option_bind snd].
    apply list_elem_of_split_length in He as Hs. destruct Hs as (es1 & es2 & -> & ->).
    rewrite delete_middle. apply Forall_app in Hes as [_ Hes]. inversion_clear Hes as [|? ? [Hp _] _].
    rewrite name_eq_decide in Hm by done. apply bool_decide_eq_true in Hm.
    rewrite fmap_app in Hnd. apply NoDup_app in Hnd as (_ & Hd & Hnd). cbn in Hnd. apply NoDup_cons in Hnd as [Hni _].
    rewrite !contents_snoc, (contents_snoc [e] es2 : contents (Headers.Build_t (e :: es2)) = _), !filter_app.
    rewrite (contents_without n es1), (contents_without n es2).
    + rewrite (filter_dropped _ (contents (Headers.Build_t [e]))); [done|].
      unfold contents. cbn [Headers.entries fmap list_fmap concat]. rewrite app_nil_r. apply Forall_fmap, Forall_true. intros w. cbn. naive_solver.
    + by rewrite Hm.
    + intros Hin. apply (Hd _ Hin). rewrite Hm. left.
  - apply position_None in Ei. cbn [snd]. rewrite contents_without; [done|]. intros Hin%list_elem_of_fmap. destruct Hin as (e & Hc & Hin).
    rewrite Forall_forall in Ei, Hes. cbn [snd] in *. specialize (Ei e Hin). rewrite name_eq_decide in Ei by (done || by apply Hes).
    by apply bool_decide_eq_false in Ei.
Qed.
End multimap.

(** C34: The container of headers is a multimap from header names to lists of
    values, and keeps their order. Inserting, at the front or at the end,
    appends a value to the list of its name and changes no other; [contains]
    tells whether the list is empty; [remove] returns the list and empties it;
    [clone_into] and [drain_into] append the lists to those of the destination,
    the latter leaving the source empty; all of them keep the container well
    formed. Iteration does not panic and gives the contents: each name with its
    values, in the order they were inserted in and as often. A value goes right
    behind the last one of its name; only the first value of a name goes to the
    end of the contents, or to the front of them with [insert_front], which so
    does not put a further Via in front of those that are there. Removing a name
    keeps the rest in order. Names are compared by what they mean. *)
Theorem headers_multimap (h dst : Headers.t) (n : Name.t) (v : str) :
  headers_wf h -> headers_wf dst -> parsed_name n ->
  let append vs d d' := headers_wf d' /\ forall m, parsed_name m ->
    all_values m d' = if decide (canonical n = canonical m) then all_values m d ++ vs else all_values m d in
  append [v] h (Headers.insert n v h) /\ append [v] h (Headers.insert_front n v h) /\
  placed (canonical n) v (contents h ++ [(canonical n, v)]) (contents h) (contents (Headers.insert n v h)) /\
  placed (canonical n) v ((canonical n, v) :: contents h) (contents h) (contents (Headers.insert_front n v h)) /\
  Headers.contains n h = bool_decide (all_values n h <> []) /\
  (let '(r, h') := Headers.remove n h in
   r = (if decide (all_values n h = []) then None else Some (all_values n h)) /\ headers_wf h' /\
   contents h' = filter (fun p => p.1 <> canonical n) (contents h) /\
   forall m, parsed_name m ->
     all_values m h' = if decide (canonical n = canonical m) then [] else all_values m h) /\
  match Headers.clone_into dst n h with
  | Ok d => append (all_values n h) dst d
  | Err e => all_values n h = [] /\ e = HeaderError.missing n
  end /\
  (let '(d, h') := Headers.drain_into dst h in
   headers_wf d /\ h' = Headers.new /\
   forall m, parsed_name m -> all_values m d = all_values m dst ++ all_values m h) /\
  (exists l, Headers.iter h = Ret l /\ contents h = prod_map canonical id <$> l) /\
  (forall m, parsed_name m -> all_values m h = values_in (canonical m) (contents h)).
Proof.
  intros Hh Hdst Hn append. destruct (insert_placed n v h Hh Hn) as [Hb Hf].
  split; [by apply insert_spec; [..|left]|]. split; [by apply insert_spec; [..|right]|].
  split; [exact Hb|]. split; [exact Hf|]. split; [by apply contains_spec|]. split.
  { pose proof (remove_spec n h Hh Hn) as H. pose proof (remove_contents n h Hh Hn) as Hc.
    destruct (Headers.remove n h) as [r h']. cbn in *. tauto. }
  split.
  { destruct (decide (all_values n h = [])) as [Hnil|Hnil].
    - unfold Headers.clone_into. unfold all_values in Hnil.
      destruct (Headers.entry n h) as [e|] eqn:E; [|by unfold all_values; rewrite E].
      exfalso. destruct Hh as [Hes _]. rewrite Forall_forall in Hes.
      apply find_some in E as [E _]. apply list_elem_of_In in E. by destruct (Hes e E).
    - rewrite clone_into_foldl by done. by apply insert_all_spec. }
  split.
  { pose proof (drain_into_spec dst h Hdst Hh) as [? ?]. done. }
  split; [by apply iter_contents|by apply contents_values].
Qed.

Lemma headers_multimap_witness :
  let h := Headers.insert Name.Via (lit "a") (Headers.insert Name.CSeq (lit "1 ACK") Headers.new) in
  headers_wf h /\ all_values Name.Via (Headers.insert (Name.from_bytes (lit "v")) (lit "b") h) =
    [lit "a"; lit "b"].
Proof.
  intros h. assert (headers_wf Headers.new) as H0 by (by split; constructor).
  assert (headers_wf h) as Hh.
  { apply (headers_multimap _ Headers.new Name.Via _); [|done..].
    by apply (headers_multimap _ Headers.new Name.CSeq). }
  split; [exact Hh|].
  rewrite (proj2 (proj1 (headers_multimap h Headers.new (Name.from_bytes (lit "v")) (lit "b")
    Hh H0 (from_bytes_parsed _)))) by done.
  reflexivity.
Defined.

(** ** A container as a function from names to values

    [holds h vals]: the container is well formed, and its values are those of
    the function. The operations that build a message update the function. *)
Definition holds (h : Headers.t) (vals : Name.t -> list str) : Prop :=
  headers_wf h /\ forall m, parsed_name m -> all_values m h = vals (canonical m).

Definition upd (n : Name.t) (vs : list str) (vals : Name.t -> list str) : Name.t -> list str :=
  fun m => if decide (canonical n = m) then vs else vals m.

Lemma holds_new : holds Headers.new (fun _ => []).
Proof. split; [exact new_wf|done]. Qed.

Lemma holds_values n h vals : holds h vals -> parsed_name n -> all_values n h = vals (canonical n).
Proof. intros [_ Hv]. apply Hv. Qed.

Lemma holds_ext h vals vals' : holds h vals -> (forall n, vals n = vals' n) -> holds h vals'.
Proof. intros [Hwf Hv] He. split; [done|]. intros m Hm. by rewrite Hv. Qed.

Lemma holds_put n h h' vs vals : parsed_name n ->
  holds h vals -> vals (canonical n) = [] ->
  headers_wf h' -> (forall m, parsed_name m -> canonical n <> canonical m -> all_values m h' = all_values m h) ->
  (all_values n h = [] -> all_values n h' = vs) -> holds h' (upd n vs vals).
Proof.
  intros Hn [_ Hv] Hf Hwf' Ho Hs. split; [done|]. intros m Hm. unfold upd. case_decide as Hc; [|by rewrite Ho, Hv].
  rewrite <-Hs by (by rewrite Hv). unfold all_values, Headers.entry.
  destruct Hwf' as [Hes _]. induction Hes as [|e es [He _] _ IH]; cbn; [done|].
  rewrite !name_eq_decide by done. rewrite <-Hc. case_bool_decide; [done|apply IH].
Qed.

Lemma holds_insert_type {H} `{PrintsValues H} n (c : H) h vals : parsed_name n ->
  holds h vals -> vals (canonical n) = [] ->
  holds (Headers.insert_type n c h) (upd n (OneOrMore.to_list (create_values c)) vals).
Proof.
  intros Hn Hh Hf. destruct (insert_type_put n c h (proj1 Hh) Hn) as (Hwf & Ho & Hv).
  by apply (holds_put n h).
Qed.

Lemma holds_insert_type_front {H} `{PrintsValues H} n (c : H) h vals : parsed_name n ->
  holds h vals -> vals (canonical n) = [] ->
  holds (Headers.insert_type_front n c h) (upd n (OneOrMore.to_list (create_values c)) vals).
Proof.
  intros Hn [Hwf Hv] Hf. destruct h as [es]. pose proof Hwf as [Hes Hnd]. cbn in Hes, Hnd.
  pose proof (update_entry_spec n (extend_values c) es Hn Hes (extend_nonempty c)) as Hu.
  unfold Headers.insert_type_front. cbn [Headers.entries].
  destruct (Headers.update_entry n (extend_values c) es) as [es'|].
  - exfalso. destruct Hu as (Hin & _). rewrite <-(Hv n Hn) in Hf. by apply lookup_nil in Hf.
  - pose proof (create_nonempty c) as Hne. split.
    + split; cbn; [by constructor|by constructor].
    + intros m Hm. rewrite lookup_cons by done. cbn. unfold upd. case_decide; [done|by apply Hv].
Qed.

(** The values a list of headers prints *)
Definition multiple_values {H} `{ExtendValues H} (hs : list H) : list str :=
  match create_multiple hs with Ret v => OneOrMore.to_list v | Panic => [] end.

Lemma holds_insert_multiple {H} `{PrintsValues H} n (hs : list H) h vals : parsed_name n -> hs <> [] ->
  holds h vals -> vals (canonical n) = [] ->
  exists h', Headers.insert_multiple n hs h = Ret h' /\ holds h' (upd n (multiple_values hs) vals).
Proof.
  intros Hn Hne Hh Hf. destruct (insert_multiple_put n hs h (proj1 Hh) Hn Hne) as (h' & Hi & Hwf & Ho & Hv).
  exists h'. split; [done|]. apply (holds_put n h); try done.
  intros Ha. destruct (Hv Ha) as (v & Hc & ->). unfold multiple_values. by rewrite Hc.
Qed.

Lemma holds_insert n v h vals : parsed_name n -> holds h vals ->
  holds (Headers.insert n v h) (upd n (vals (canonical n) ++ [v]) vals).
Proof.
  intros Hn [Hwf Hv]. destruct (insert_spec n v h _ Hwf Hn (or_introl eq_refl)) as [Hwf' Hv'].
  split; [done|]. intros m Hm. rewrite Hv', Hv by done. unfold upd. case_decide as Hc; [by rewrite Hc|done].
Qed.

(** [clone_into], whether or not the source has the header *)
Lemma holds_clone_into n src h vals : parsed_name n -> holds h vals ->
  holds (match Headers.clone_into h n src with Ok h' => h' | Err _ => h end)
    (upd n (vals (canonical n) ++ all_values n src) vals).
Proof.
  intros Hn [Hwf Hv]. destruct (decide (all_values n src = [])) as [Ha|Ha].
  - assert (forall m, upd n (vals (canonical n) ++ all_values n src) vals m = vals m) as He.
    { intros m. unfold upd. rewrite Ha, app_nil_r. case_decide as Hc; [by rewrite Hc|done]. }
    destruct (Headers.clone_into h n src) as [h'|x] eqn:E; [|split; [done|]; intros m Hm; by rewrite He, Hv].
    unfold Headers.clone_into in E. unfold all_values in Ha. destruct (Headers.entry n src) as [e|]; [|done].
    injection E as <-. destruct (Headers.values e) as [v|vs]; [done|]. cbn in Ha. subst vs. cbn.
    split; [done|]. intros m Hm. by rewrite He, Hv.
  - destruct (clone_into_spec h n src Hwf Hn Ha) as (h' & -> & Hwf' & Hv'). split; [done|].
    intros m Hm. rewrite Hv', Hv by done. unfold upd. case_decide as Hc; [by rewrite Hc|done].
Qed.

(** Reading a header *)
Definition reads_back {H} `{ExtendValues H, DecodeValues H} (x : H) : Prop :=
  decode_values (OneOrMore.to_list (create_values x)) = Ok x.

Lemma get_values {H} `{DecodeValues H} n h vs (x : H) :
  all_values n h = vs -> vs <> [] -> decode_values vs = Ok x -> Headers.get n h = Ok x.
Proof.
  unfold all_values, Headers.get, Headers.try_get. destruct (Headers.entry n h) as [e|]; [|by intros <-].
  intros <- _ Hd. cbn. unfold Headers.decode. by rewrite Hd.
Qed.

(** Editing a header *)
Lemma holds_edit {H} `{PrintsValues H} `{!DecodeValues H} n (f : H -> H) x h vals : parsed_name n ->
  holds h vals -> vals (canonical n) <> [] -> decode_values (vals (canonical n)) = Ok x ->
  exists h', Headers.edit n f h = Ok h' /\ holds h' (upd n (OneOrMore.to_list (create_values (f x))) vals).
Proof.
  intros Hn [[Hes Hnd] Hv] Hne Hd. pose proof (Hv n Hn) as Ha. unfold Headers.edit.
  assert (exists e, Headers.entry n h = Some e /\ OneOrMore.to_list (Headers.values e) = vals (canonical n)) as (e & He & Hl).
  { unfold all_values in Ha. destruct (Headers.entry n h) as [e|]; [eauto|congruence]. }
  rewrite He. unfold Headers.decode. rewrite Hl, Hd. cbn [mbind result_bind].
  eexists. split; [reflexivity|]. destruct h as [es]. cbn [Headers.entries] in *.
  pose proof (update_entry_spec n (fun _ => create_values (f x)) es Hn Hes) as Hu.
  destruct (Headers.update_entry n _ es) as [es'|] eqn:E; cbn [default from_option].
  - destruct Hu as (_ & Hnames & Hok & v & _ & Hvs); [intros; apply create_nonempty|].
    split; [split; cbn; [done|by rewrite Hnames]|]. intros m Hm. rewrite Hvs by done. unfold upd.
    case_decide as Hc; [done|]. by apply Hv.
  - exfalso. apply Hu; [intros; apply create_nonempty|]. rewrite Hv in Ha by done.
    destruct (decide (canonical n ∈ (fun e => canonical (Headers.name e)) <$> es)) as [Hi|Hi]; [done|].
    exfalso. apply Hne. rewrite <-(Hv n Hn). by apply lookup_absent.
Qed.
