(* ===== verification/SipFraming.v ===== *)
(** * Finding messages in bytes
    (sip-types/src/msg.rs, sip-core/src/transport/streaming/decode.rs, transport/parse.rs)

    The pull parser that splits the head of a SIP message into lines, the
    decoder of byte streams built on it, and the parser of datagrams. The
    search of the package [memchr] is a parameter; the parsers of the first
    line and of header lines are arguments. *)
From S2P Require Import Prelude Wire Text StunHeader StunMessage SipNames SipHeaders.

(** [memchr2] of the package [memchr]: the index of the first of two bytes. *)
Class Memchr := { memchr2 : byte -> byte -> list byte -> option nat }.
Class MemchrLaws (M : Memchr) : Prop := {
  memchr2_spec a b l : memchr2 a b l = position (fun x => bool_decide (x = a \/ x = b)) l }.

Definition scan_memchr : Memchr := {|
  memchr2 a b l := position (fun x => bool_decide (x = a \/ x = b)) l |}.
#[export] Instance scan_memchr_laws : MemchrLaws scan_memchr.
Proof. by split. Qed.

(** [&input[n..]] *)
Definition slice_from (n : nat) (l : list byte) : exec (list byte) :=
  if decide (n <= length l) then Ret (drop n l) else Panic.

(** [Bytes::slice(begin..end)] *)
Definition slice_range (b e : Z) (l : list byte) : exec (list byte) :=
  if decide (0 <= b <= e /\ e <= Z.of_nat (length l))%Z
  then Ret (take (Z.to_nat (e - b)) (drop (Z.to_nat b) l)) else Panic.

(** ** The pull parser *)
Definition is_blank (b : byte) : bool := bool_decide (b = x20 \/ b = x09).

(** The patterns [next] matches the bytes from a newline character against:
    white space behind the newline, LF and a byte, CR LF and two bytes, and
    everything else. *)
Inductive Newline :=
| Continuation
| Lf (b : byte)
| CrLf (b1 b2 : byte)
| Cut.

Definition newline (l : list byte) : Newline :=
  match l with
  | a :: b :: l =>
      if decide (a = x0a) then if is_blank b then Continuation else Lf b
      else if decide (a = x0d /\ b = x0a) then
        match l with
        | b1 :: l =>
            if is_blank b1 then Continuation
            else match l with b2 :: _ => CrLf b1 b2 | [] => Cut end
        | [] => Cut
        end
      else Cut
  | _ => Cut
  end.

(** The semi-error [Incomplete] *)
Inductive Incomplete_ := Incomplete.

Module PullParser.
Record t := { input : list byte; progress : nat }.

(** [PullParser::head_end] *)
Definition head_end (p : t) : exec nat :=
  rest ← slice_from (progress p) (input p);
  Ret (if decide (starts_with [x0d; x0a; x0d; x0a] rest) then progress p + 4
       else if decide (starts_with [x0a; x0a] rest) then progress p + 2
       else progress p).

(** The loop of [PullParser::next]: the item and the progress after it. *)
Fixpoint next_loop `{Memchr} (fuel : nat) (p : t) (skip : nat)
    : exec (option (result Incomplete_ (list byte)) * nat) :=
  let line_begin := progress p in
  match fuel with
  | O => Panic
  | S fuel =>
      rest ← slice_from (line_begin + skip) (input p);
      match memchr2 x0a x0d rest with
      | None => Ret (Some (Err Incomplete), progress p)
      | Some n =>
          let pos := n + line_begin + skip in
          tail ← slice_from pos (input p);
          let slice := take (pos - line_begin) (drop line_begin (input p)) in
          match newline tail with
          | Continuation => next_loop fuel p (skip + (n + 1))
          | Lf b =>
              if decide (slice = []) then Ret (None, progress p)
              else Ret (Some (Ok slice), if decide (b = x0a) then pos else pos + 1)
          | CrLf b1 b2 =>
              if decide (slice = []) then Ret (None, progress p)
              else Ret (Some (Ok slice), if decide (b1 = x0d /\ b2 = x0a) then pos else pos + 2)
          | Cut => Ret (Some (Err Incomplete), progress p)
          end
      end
  end.

(** [Iterator::next] *)
Definition next `{Memchr} (p : t) : exec (option (result Incomplete_ (list byte)) * t) :=
  '(item, progress) ← next_loop (S (length (input p))) p 0;
  Ret (item, {| input := input p; progress := progress |}).

(** [for line in &mut parser] up to the first error: the lines, whether the
    iterator came to its end, and the parser afterwards. *)
Fixpoint lines_loop `{Memchr} (fuel : nat) (p : t) : exec (list (list byte) * bool * t) :=
  match fuel with
  | O => Panic
  | S fuel =>
      '(item, p') ← next p;
      match item with
      | None => Ret ([], true, p')
      | Some (Err _) => Ret ([], false, p')
      | Some (Ok line) => '(ls, complete, p'') ← lines_loop fuel p'; Ret (line :: ls, complete, p'')
      end
  end.
Definition lines `{Memchr} (p : t) : exec (list (list byte) * bool * t) :=
  lines_loop (S (length (input p))) p.

(** [PullParser::check_complete] *)
Definition check_complete `{Memchr} (p : t) : exec (result Incomplete_ unit * t) :=
  '(_, complete, p) ← lines p;
  Ret (if complete : bool then Ok tt else Err Incomplete, p).
End PullParser.

(** ** The first line *)
Section messages.
Context {Uri : Type}.

Record RequestLine := { rl_method : Method.t; rl_uri : Uri }.
Record StatusLine := { sl_code : StatusCode.t; sl_reason : option str }.
Inductive MessageLine := RequestL (line : RequestLine) | ResponseL (line : StatusLine).

Definition is_request_line (l : MessageLine) : bool :=
  match l with RequestL _ => true | ResponseL _ => false end.

(** [MessageLine::request_method] *)
Definition request_method (l : MessageLine) : option Method.t :=
  match l with RequestL l => Some (rl_method l) | ResponseL _ => None end.
End messages.
Arguments RequestLine : clear implicits.
Arguments MessageLine : clear implicits.

(** ** Messages in a byte stream: streaming/decode.rs *)
Inductive DecodeError := MessageTooLarge | MalformedMessage.

(** [split.splitn(2, ':')]: the part before the first colon and, if there is
    one, the part behind it. *)
Definition split_colon (line : list byte) : list byte * option (list byte) :=
  let '(name, rest) := span (fun c => negb (bool_decide (c = x3a))) line in
  (name, match rest with [] => None | _ :: value => Some value end).

(** The search for the content-length field in a line of the head. *)
Definition scan_line (content_len : Z) (line : list byte) : result DecodeError Z :=
  let '(name, value) := split_colon line in
  if existsb (fun s => eq_ignore_ascii_case name s)
       (default [] (Name.as_parse_strs Name.ContentLength)) then
    value ← ok_or MalformedMessage value;
    if utf8_valid value then
      content_len ← ok_or MalformedMessage (parse_uint 64 (trim value));
      if decide (content_len > 65535)%Z then Err MessageTooLarge else Ok content_len
    else Err MalformedMessage
  else Ok content_len.

Fixpoint scan_lines (content_len : Z) (ls : list (list byte)) : result DecodeError Z :=
  match ls with
  | [] => Ok content_len
  | l :: ls => content_len ← scan_line content_len l; scan_lines content_len ls
  end.

Section decoder.
Context {Uri : Type} `{Memchr}.
(** [MessageLine::parse] and [Line::parse] *)
Context (parse_message_line : str -> option (MessageLine Uri)).
Context (parse_line : str -> option (Name.t * str)).

Record DecodedMessage := {
  dm_line : MessageLine Uri;
  dm_headers : Headers.t;
  dm_body : list byte;
  dm_buffer : list byte }.

Inductive Item :=
| DecodedItem (m : DecodedMessage)
| KeepAliveRequest
| KeepAliveResponse.

(** The second pass over the lines: the first is the message line, the
    others are headers, and a malformed header line is left out. *)
Fixpoint decode_lines (message_line : option (MessageLine Uri)) (headers : Headers.t)
    (ls : list (list byte)) : result DecodeError (option (MessageLine Uri) * Headers.t) :=
  match ls with
  | [] => Ok (message_line, headers)
  | item :: ls =>
      if utf8_valid item then
        match message_line with
        | None =>
            match parse_message_line item with
            | Some line => decode_lines (Some line) headers ls
            | None => Err MalformedMessage
            end
        | Some _ =>
            match parse_line item with
            | Some (n, v) => decode_lines message_line (Headers.insert n v headers) ls
            | None => decode_lines message_line headers ls
            end
        end
      else Err MalformedMessage
  end.

(** The message of a buffer that holds exactly one. *)
Definition decode_message (src_bytes : list byte) (content_len : nat)
    : exec (result DecodeError (option Item)) :=
  '(ls, complete, parser) ← PullParser.lines {| PullParser.input := src_bytes; PullParser.progress := 0 |};
  match decode_lines None Headers.new ls with
  | Err e => Ret (Err e)
  | Ok (message_line, headers) =>
      if negb complete then Panic
      else
        head_end ← PullParser.head_end parser;
        tail ← slice_from head_end src_bytes;
        if decide (length tail < content_len) then Panic
        else
          let body := take content_len tail in
          Ret (line ← ok_or MalformedMessage message_line;
               Ok (Some (DecodedItem {|
                 dm_line := line; dm_headers := headers; dm_body := body; dm_buffer := src_bytes |})))
  end.

(** [StreamingDecoder::decode]: the result, the state [head_progress] and
    what is left of the buffer. *)
Definition decode (head_progress : nat) (src : list byte)
    : exec (result DecodeError (option Item) * nat * list byte) :=
  let whitespace := (span is_ascii_whitespace src).1 in
  let keep_alive :=
    if decide (whitespace = []) then None
    else if starts_with [x0d; x0a; x0d; x0a] src then Some KeepAliveRequest
    else if starts_with [x0d; x0a] src then Some KeepAliveResponse
    else None in
  let src := drop (length whitespace) src in
  match keep_alive with
  | Some item => Ret (Ok (Some item), head_progress, src)
  | None =>
      if decide (65535 < Z.of_nat (length src))%Z then Ret (Err MessageTooLarge, head_progress, [])
      else
        '(ls, complete, parser) ← PullParser.lines
           {| PullParser.input := src; PullParser.progress := head_progress |};
        match scan_lines 0 ls with
        | Err e => Ret (Err e, head_progress, src)
        | Ok content_len =>
            if negb complete then Ret (Ok None, PullParser.progress parser, src)
            else
              head_end ← PullParser.head_end parser;
              let expected := head_end + Z.to_nat content_len in
              if decide (length src < expected) then Ret (Ok None, head_progress, src)
              else
                r ← decode_message (take expected src) (Z.to_nat content_len);
                Ret (r, 0, drop expected src)
        end
  end.

(** ** Messages in datagrams: parse.rs *)
Inductive CompleteItem :=
| CKeepAliveRequest
| CKeepAliveResponse
| CStun (message : Message.t)
| CSip (line : MessageLine Uri) (headers : Headers.t) (body buffer : list byte).

Context `{WireOps}.

(** [Headers::get_named::<ContentLength>] parses the trimmed value. *)
#[local] Instance content_length_decode : DecodeValues Z := {|
  decode_values vs :=
    match vs with
    | v :: _ => match parse_uint 64 (trim v) with Some n => Ok n | None => Err v end
    | [] => Err []
    end |}.

(** The loop over the lines of [parse_complete_sip]; any error is
    [FailedToParse]. *)
Fixpoint complete_lines (message_line : option (MessageLine Uri)) (headers : Headers.t)
    (ls : list (list byte)) : option (option (MessageLine Uri) * Headers.t) :=
  match ls with
  | [] => Some (message_line, headers)
  | line :: ls =>
      if utf8_valid line then
        match message_line with
        | None => l ← parse_message_line line; complete_lines (Some l) headers ls
        | Some _ => '(n, v) ← parse_line line; complete_lines message_line (Headers.insert n v headers) ls
        end
      else None
  end.

Definition parse_complete_sip (bytes : list byte) : exec (option CompleteItem) :=
  '(ls, complete, parser) ← PullParser.lines {| PullParser.input := bytes; PullParser.progress := 0 |};
  match complete_lines None Headers.new ls with
  | None => Ret None
  | Some (message_line, headers) =>
      if negb complete then Ret None
      else
        head_end ← PullParser.head_end parser;
        body ← match Headers.get Name.ContentLength headers with
               | Ok len =>
                   if decide (len = 0%Z) then Ret (Some [])
                   else
                     let body_end := wrap 64 (Z.of_nat head_end + len) in
                     if decide (body_end <= Z.of_nat (length bytes))%Z
                     then body ← slice_range (Z.of_nat head_end) body_end bytes; Ret (Some body)
                     else Ret None
               | Err _ =>
                   if decide (head_end = length bytes) then Ret (Some [])
                   else tail ← slice_from head_end bytes; Ret (Some tail)
               end;
        Ret (body ← body; line ← message_line; Some (CSip line headers body bytes))
  end.

Definition parse_complete_stun (bytes : list byte) : option CompleteItem :=
  match parse bytes with Ok msg => Some (CStun msg) | Err _ => None end.

Definition parse_complete (bytes : list byte) : exec (option CompleteItem) :=
  if decide (bytes = [x0d; x0a; x0d; x0a]) then Ret (Some CKeepAliveRequest)
  else if decide (bytes = [x0d; x0a]) then Ret (Some CKeepAliveResponse)
  else
    info ← is_stun_message bytes;
    match info with
    | TooShort | YesIncomplete _ => Ret None
    | Yes len =>
        if decide (0 <= len <= Z.of_nat (length bytes))%Z
        then Ret (parse_complete_stun (take (Z.to_nat len) bytes)) else Panic
    | No => parse_complete_sip bytes
    end.
End decoder.

(** ** Lines of a head *)

(** A character that does not end a line. *)
Definition plain (b : byte) : Prop := b <> x0a /\ b <> x0d.

#[export] Instance plain_dec b : Decision (plain b).
Proof. unfold plain. apply _. Defined.

(** A line that may be folded: newlines are followed by white space. *)
Inductive folded : list byte -> Prop :=
| folded_end l : Forall plain l -> folded l
| folded_lf l c r : Forall plain l -> is_blank c = true -> folded r -> folded (l ++ x0a :: c :: r)
| folded_crlf l c r : Forall plain l -> is_blank c = true -> folded r ->
    folded (l ++ x0d :: x0a :: c :: r).

(** A line of a head: it begins with a visible character. *)
Definition line_ok (l : list byte) : Prop :=
  folded l /\ exists c r, l = c :: r /\ plain c /\ is_blank c = false.

Definition crlf : list byte := [x0d; x0a].

(** A head: its lines, each with its newline, and an empty line. *)
Definition head_of (ls : list (list byte)) : list byte := concat ((fun l => l ++ crlf) <$> ls) ++ crlf.

Section parser.
Context `{ML : MemchrLaws}.

Lemma memchr2_plain l r : Forall plain l ->
  memchr2 x0a x0d (l ++ r) = (fun n => length l + n) <$> memchr2 x0a x0d r.
Proof.
  rewrite !memchr2_spec. induction 1 as [|b l [H1 H2] _ IH]; cbn [app position].
  - cbn. by destruct (position _ r).
  - rewrite bool_decide_eq_false_2 by tauto. rewrite IH. by destruct (position _ r).
Qed.

Lemma memchr2_here b r : b = x0a \/ b = x0d -> memchr2 x0a x0d (b :: r) = Some 0.
Proof. intros Hb. rewrite memchr2_spec. cbn. by rewrite bool_decide_eq_true_2. Qed.

Lemma slice_from_app a b : slice_from (length a) (a ++ b) = Ret b.
Proof. unfold slice_from. rewrite decide_True by (rewrite length_app; lia). by rewrite drop_app_length. Qed.

Lemma slice_from_le n l r : slice_from n l = Ret r -> n <= length l /\ r = drop n l.
Proof. unfold slice_from. case_decide; [|done]. intros [= <-]. done. Qed.

Lemma slice_from_ok n l : n <= length l -> slice_from n l = Ret (drop n l).
Proof. intros H. unfold slice_from. by rewrite decide_True. Qed.

(** One round of the loop, behind plain characters. *)
Lemma next_loop_plain fuel pre b l r : Forall plain l -> (exists c r', r = c :: r' /\ (c = x0a \/ c = x0d)) ->
  forall p, PullParser.input p = pre ++ b ++ l ++ r -> PullParser.progress p = length pre ->
  PullParser.next_loop (S fuel) p (length b) =
    (let pos := length pre + length b + length l in
     let slice := b ++ l in
     match newline r with
     | Continuation => PullParser.next_loop fuel p (length b + (length l + 1))
     | Lf b => if decide (slice = []) then Ret (None, PullParser.progress p)
               else Ret (Some (Ok slice), if decide (b = x0a) then pos else pos + 1)
     | CrLf b1 b2 => if decide (slice = []) then Ret (None, PullParser.progress p)
                     else Ret (Some (Ok slice), if decide (b1 = x0d /\ b2 = x0a) then pos else pos + 2)
     | Cut => Ret (Some (Err Incomplete), PullParser.progress p)
     end).
Proof.
  intros Hl (c & r' & -> & Hc) p Hi Hp. cbn [PullParser.next_loop]. rewrite Hi, Hp.
  rewrite (app_assoc pre b), <-length_app, slice_from_app. cbn [mbind exec_bind].
  rewrite memchr2_plain, memchr2_here by done. cbn [fmap option_fmap option_map]. rewrite Nat.add_0_r.
  replace (length l + length pre + length b) with (length ((pre ++ b) ++ l)) by (rewrite !length_app; lia).
  rewrite (app_assoc (pre ++ b) l), slice_from_app. cbn [mbind exec_bind].
  rewrite <-!app_assoc, drop_app_length.
  replace (take _ (b ++ l ++ c :: r')) with (b ++ l).
  2:{ rewrite !length_app. rewrite app_assoc.
      replace (length pre + (length b + length l) - length pre) with (length (b ++ l)) by (rewrite length_app; lia).
      by rewrite take_app_length. }
  rewrite !length_app. replace (length pre + (length b + length l)) with (length pre + length b + length l) by lia.
  done.
Qed.

Lemma folded_cons c l : plain c -> folded l -> folded (c :: l).
Proof.
  intros Hc H. destruct H as [l Hl|l d r Hl Hd Hr|l d r Hl Hd Hr].
  - apply folded_end. by constructor.
  - apply (folded_lf (c :: l)); [by constructor|done..].
  - apply (folded_crlf (c :: l)); [by constructor|done..].
Qed.

Lemma blank_plain c : is_blank c = true -> plain c.
Proof. unfold is_blank. rewrite bool_decide_eq_true. by intros [->| ->]. Qed.

Lemma newline_blank_lf c r : is_blank c = true -> newline (x0a :: c :: r) = Continuation.
Proof. intros H. cbn. by rewrite H. Qed.
Lemma newline_blank_crlf c r : is_blank c = true -> newline (x0d :: x0a :: c :: r) = Continuation.
Proof. intros H. cbn. by rewrite H. Qed.

(** What [next] gives at the end of a line. *)
Definition at_newline (start : nat) (slice rest : list byte)
    : exec (option (result Incomplete_ (list byte)) * nat) :=
  let pos := start + length slice in
  match newline rest with
  | Lf b => if decide (slice = []) then Ret (None, start)
            else Ret (Some (Ok slice), if decide (b = x0a) then pos else pos + 1)
  | CrLf b1 b2 => if decide (slice = []) then Ret (None, start)
                  else Ret (Some (Ok slice), if decide (b1 = x0d /\ b2 = x0a) then pos else pos + 2)
  | _ => Ret (Some (Err Incomplete), start)
  end.

(** A newline with white space behind it is skipped. *)
Lemma next_loop_step fuel pre b l c r p : Forall plain l -> c = x0a \/ c = x0d ->
  newline (c :: r) = Continuation ->
  PullParser.input p = pre ++ b ++ l ++ c :: r -> PullParser.progress p = length pre ->
  PullParser.next_loop (S fuel) p (length b) = PullParser.next_loop fuel p (length (b ++ l ++ [c])).
Proof.
  intros Hl Hc Hn Hi Hp. rewrite (next_loop_plain fuel pre b l (c :: r)) by eauto.
  cbv zeta. rewrite Hn, !length_app. reflexivity.
Qed.

(** The loop runs over the folds of a line. *)
Lemma next_loop_folded n : forall l fuel pre b rest p,
  length l <= n -> n < fuel -> folded l -> newline rest <> Continuation ->
  (exists c r', rest = c :: r' /\ (c = x0a \/ c = x0d)) ->
  PullParser.input p = pre ++ b ++ l ++ rest -> PullParser.progress p = length pre ->
  PullParser.next_loop fuel p (length b) = at_newline (length pre) (b ++ l) rest.
Proof.
  induction n as [n IH] using lt_wf_ind. intros l fuel pre b rest p Hn Hf Hl Hnl Hrest Hi Hp.
  destruct fuel as [|fuel]; [lia|].
  destruct Hl as [l Hl|l c r Hl Hc Hr|l c r Hl Hc Hr].
  - rewrite (next_loop_plain fuel pre b l rest) by done. unfold at_newline.
    cbv zeta. rewrite Hp, !length_app, !Nat.add_assoc. by destruct (newline rest).
  - rewrite (next_loop_step fuel pre b l x0a (c :: r ++ rest));
      [|done|by left|by apply newline_blank_lf|rewrite Hi; by rewrite <-app_assoc|done].
    rewrite length_app in Hn. cbn in Hn.
    rewrite (IH (S (length r)) ltac:(lia) (c :: r) fuel pre (b ++ l ++ [x0a]) rest); try done.
    + by rewrite <-!app_assoc.
    + lia.
    + apply folded_cons; [by apply blank_plain|done].
    + rewrite Hi. by rewrite <-!app_assoc.
  - rewrite (next_loop_step fuel pre b l x0d (x0a :: c :: r ++ rest));
      [|done|by right|by apply newline_blank_crlf|rewrite Hi; by rewrite <-app_assoc|done].
    rewrite length_app in Hn. cbn in Hn. destruct fuel as [|fuel]; [lia|].
    rewrite (next_loop_step fuel pre (b ++ l ++ [x0d]) [] x0a (c :: r ++ rest));
      [|done|by left|by apply newline_blank_lf|rewrite Hi; by rewrite <-!app_assoc|done].
    rewrite (IH (S (length r)) ltac:(lia) (c :: r) fuel pre ((b ++ l ++ [x0d]) ++ [] ++ [x0a]) rest); try done.
    + by rewrite <-!app_assoc.
    + lia.
    + apply folded_cons; [by apply blank_plain|done].
    + rewrite Hi. by rewrite <-!app_assoc.
Qed.

Lemma next_line pre l rest :
  folded l -> newline rest <> Continuation ->
  (exists c r', rest = c :: r' /\ (c = x0a \/ c = x0d)) ->
  PullParser.next {| PullParser.input := pre ++ l ++ rest; PullParser.progress := length pre |} =
    ('(item, progress) ← at_newline (length pre) l rest;
     Ret (item, {| PullParser.input := pre ++ l ++ rest; PullParser.progress := progress |})).
Proof.
  intros Hl Hn Hr. unfold PullParser.next.
  pose proof (next_loop_folded (length l) l (S (length (pre ++ l ++ rest))) pre [] rest) as H.
  change (@length byte []) with 0 in H.
  cbn [PullParser.input]. rewrite (H {| PullParser.input := pre ++ l ++ rest; PullParser.progress := length pre |}); try done.
  rewrite !length_app. lia.
Qed.

Lemma newline_crlf c d r : is_blank c = false -> newline (crlf ++ c :: d :: r) = CrLf c d.
Proof. intros H. cbn. by rewrite H. Qed.

Lemma head_of_cons l ls : head_of (l :: ls) = l ++ crlf ++ head_of ls.
Proof. unfold head_of. cbn. by rewrite <-!app_assoc. Qed.

Lemma length_head_of ls : 2 <= length (head_of ls).
Proof. unfold head_of. rewrite length_app. cbn. lia. Qed.

(** The rest of a head behind a line begins with two bytes. *)
Lemma head_of_front ls body : Forall line_ok ls ->
  exists c d r, head_of ls ++ body = c :: d :: r /\ is_blank c = false /\
    (c = x0d /\ d = x0a <-> ls = []).
Proof.
  intros [|l ls' [Hf (c & r & -> & [Hc1 Hc2] & Hb)] _].
  - exists x0d, x0a, body. done.
  - rewrite head_of_cons. destruct r as [|d r]; eexists _, _, _; (split; [reflexivity|]);
      (split; [done|]); naive_solver.
Qed.

Lemma line_ok_nonempty l : line_ok l -> l <> [].
Proof. by intros [_ (c & r & -> & _)]. Qed.

(** The empty line ends the head. *)
Lemma at_newline_head_end start body : at_newline start [] (crlf ++ crlf ++ body) = Ret (None, start).
Proof. reflexivity. Qed.

(** The lines of a head, wherever it stands in the input. *)
Lemma lines_loop_head ls : forall pre body fuel, ls <> [] -> Forall line_ok ls -> length ls < fuel ->
  PullParser.lines_loop fuel
    {| PullParser.input := pre ++ head_of ls ++ body; PullParser.progress := length pre |} =
  Ret (ls, true, {| PullParser.input := pre ++ head_of ls ++ body;
                    PullParser.progress := length pre + length (head_of ls) - 4 |}).
Proof.
  induction ls as [|l ls IH]; intros pre body fuel Hne Hok Hf; [done|].
  apply Forall_cons in Hok as [Hl Hok]. destruct fuel as [|fuel]; [cbn in Hf; lia|].
  cbn [PullParser.lines_loop]. rewrite head_of_cons, <-!app_assoc.
  destruct (head_of_front ls body Hok) as (c & d & r & E & Hb & Hls).
  pose proof (line_ok_nonempty l Hl) as Hlne. destruct Hl as [Hfold _].
  rewrite (next_line pre l (crlf ++ head_of ls ++ body)); [|done| |eexists _, _; split; [done|by right]].
  2:{ rewrite E. by rewrite newline_crlf. }
  unfold at_newline. rewrite E, newline_crlf, decide_False by done. cbn [mbind exec_bind]. rewrite <-E.
  destruct ls as [|l' ls].
  - rewrite decide_True by naive_solver.
    destruct fuel as [|fuel]; [cbn in Hf; lia|]. cbn [PullParser.lines_loop].
    change (head_of []) with crlf.
    pose proof (next_line (pre ++ l) [] (crlf ++ crlf ++ body)) as H.
    cbn [app] in H. rewrite <-!app_assoc, length_app in H. rewrite H; [|by constructor|by vm_compute|by cbn; eauto].
    rewrite at_newline_head_end. cbn [mbind exec_bind].
    rewrite !length_app. cbn. by replace (length pre + (length l + 4) - 4) with (length pre + length l) by lia.
  - rewrite decide_False by naive_solver.
    pose proof (IH (pre ++ l ++ crlf) body fuel ltac:(done) Hok ltac:(cbn in *; lia)) as H.
    rewrite <-!app_assoc in H. rewrite length_app in H. rewrite length_app in H.
    rewrite Nat.add_assoc in H. change (length crlf) with 2 in H. rewrite H. cbn [mbind exec_bind].
    replace (length pre + length (l ++ crlf ++ head_of (l' :: ls)) - 4)
      with (length pre + length l + 2 + length (head_of (l' :: ls)) - 4); [done|].
    rewrite !length_app. change (length crlf) with 2. lia.
Qed.

Lemma lines_count ls : Forall line_ok ls -> length ls < length (head_of ls).
Proof.
  induction 1 as [|l ls Hl _ IH]; [cbn; lia|]. rewrite head_of_cons, !length_app. cbn. lia.
Qed.

(** The pull parser splits a head into its lines, and knows where it ends. *)
Lemma lines_head ls pre body : ls <> [] -> Forall line_ok ls ->
  PullParser.lines {| PullParser.input := pre ++ head_of ls ++ body; PullParser.progress := length pre |} =
    Ret (ls, true, {| PullParser.input := pre ++ head_of ls ++ body;
                      PullParser.progress := length pre + length (head_of ls) - 4 |}) /\
  PullParser.head_end {| PullParser.input := pre ++ head_of ls ++ body;
                         PullParser.progress := length pre + length (head_of ls) - 4 |} =
    Ret (length pre + length (head_of ls)).
Proof.
  intros Hne Hok. split.
  - apply lines_loop_head; [done..|]. pose proof (lines_count ls Hok).
    cbn. rewrite !length_app. lia.
  - destruct (exists_last Hne) as (ls' & l & ->).
    assert (head_of (ls' ++ [l]) = concat ((fun l => l ++ crlf) <$> ls') ++ l ++ crlf ++ crlf) as ->.
    { unfold head_of. rewrite fmap_app, concat_app. cbn. by rewrite app_nil_r, <-!app_assoc. }
    unfold PullParser.head_end. cbn [PullParser.input PullParser.progress].
    set (x := concat _). change (crlf ++ crlf) with [x0d; x0a; x0d; x0a]. set (e := [x0d; x0a; x0d; x0a]).
    assert (length e = 4) as He by done.
    replace (length pre + length (x ++ l ++ e) - 4) with (length (pre ++ x ++ l))
      by (rewrite !length_app; lia).
    replace (pre ++ (x ++ l ++ e) ++ body) with ((pre ++ x ++ l) ++ e ++ body) by (by rewrite <-!app_assoc).
    rewrite slice_from_app. cbn [mbind exec_bind]. rewrite starts_with_app, decide_True by done.
    f_equal. rewrite !length_app. lia.
Qed.

(** ** Resuming *)

Lemma newline_app l m : newline l <> Cut -> newline (l ++ m) = newline l.
Proof.
  destruct l as [|a [|b l]]; cbn; try done. destruct (decide (a = x0a)); [done|].
  destruct (decide (a = x0d /\ b = x0a)); [|done].
  destruct l as [|b1 [|b2 l]]; cbn; try done. by destruct (is_blank b1).
Qed.

Lemma slice_from_extend n l r m : slice_from n l = Ret r -> slice_from n (l ++ m) = Ret (r ++ m).
Proof.
  intros [Hn ->]%slice_from_le. unfold slice_from.
  rewrite decide_True by (rewrite length_app; lia). by rewrite drop_app_le.
Qed.

Lemma position_app_Some {A} (f : A -> bool) l m n : position f l = Some n -> position f (l ++ m) = Some n.
Proof.
  revert n. induction l as [|a l IH]; intros n; cbn; [done|]. destruct (f a); [done|].
  intros H. apply fmap_Some in H as (k & Hk & ->). by rewrite (IH k).
Qed.

(** What [next] finds in an input it finds in every longer one. *)
Lemma next_loop_extend fuel : forall fuel' i more pr skip item q, fuel <= fuel' ->
  PullParser.next_loop fuel {| PullParser.input := i; PullParser.progress := pr |} skip = Ret (item, q) ->
  item <> Some (Err Incomplete) ->
  PullParser.next_loop fuel' {| PullParser.input := i ++ more; PullParser.progress := pr |} skip = Ret (item, q).
Proof.
  induction fuel as [|fuel IH]; intros fuel' i more pr skip item q Hf H Hi; [done|].
  destruct fuel' as [|fuel']; [lia|]. cbn [PullParser.next_loop PullParser.input PullParser.progress] in *.
  apply exec_bind_Ret_inv in H as (rest & Hr & H). rewrite (slice_from_extend _ _ _ more Hr).
  cbn [mbind exec_bind]. rewrite memchr2_spec in H |- *.
  destruct (position _ rest) as [n|] eqn:En; [|by injection H as <- <-].
  rewrite (position_app_Some _ _ _ _ En).
  apply exec_bind_Ret_inv in H as (tail & Ht & H). rewrite (slice_from_extend _ _ _ more Ht).
  cbn [mbind exec_bind]. apply slice_from_le in Ht as [Hle Ht].
  replace (take (n + pr + skip - pr) (drop pr (i ++ more))) with (take (n + pr + skip - pr) (drop pr i)).
  2:{ rewrite drop_app_le by lia. rewrite take_app_le; [done|]. rewrite length_drop. lia. }
  destruct (newline tail) eqn:El; rewrite newline_app; try (rewrite El; done || congruence).
  rewrite El. apply IH; [lia|done|done].
Qed.

Lemma next_extend i more pr item p :
  PullParser.next {| PullParser.input := i; PullParser.progress := pr |} = Ret (Some (Ok item), p) ->
  PullParser.next {| PullParser.input := i ++ more; PullParser.progress := pr |} =
    Ret (Some (Ok item), {| PullParser.input := i ++ more; PullParser.progress := PullParser.progress p |}) /\
  PullParser.input p = i.
Proof.
  unfold PullParser.next. intros H. apply exec_bind_Ret_inv in H as ([it q] & H & [= -> <-]).
  cbn [PullParser.input] in *. split; [|done].
  erewrite next_loop_extend; [|..|exact H|done]; [done|]. cbn. rewrite length_app. lia.
Qed.

Lemma lines_loop_fuel fuel : forall fuel' p r, fuel <= fuel' ->
  PullParser.lines_loop fuel p = Ret r -> PullParser.lines_loop fuel' p = Ret r.
Proof.
  induction fuel as [|fuel IH]; intros [|fuel'] p r Hf H; try done; [lia|]. cbn in *.
  apply exec_bind_Ret_inv in H as ([item p'] & -> & H). cbn [mbind exec_bind].
  destruct item as [[l|]|]; [|done|done].
  apply exec_bind_Ret_inv in H as (x & Hx & H). by rewrite (IH fuel' p' x ltac:(lia) Hx).
Qed.

(** The loop ends before its fuel does, inside of the input. *)
Lemma next_loop_total fuel : forall p skip,
  PullParser.progress p + skip <= length (PullParser.input p) ->
  length (PullParser.input p) - (PullParser.progress p + skip) < fuel ->
  exists item q, PullParser.next_loop fuel p skip = Ret (item, q) /\
    PullParser.progress p <= q <= length (PullParser.input p) /\
    forall l, item = Some (Ok l) -> PullParser.progress p < q.
Proof.
  induction fuel as [|fuel IH]; intros p skip Hle Hf; [lia|]. cbn [PullParser.next_loop].
  rewrite slice_from_ok by done. cbn [mbind exec_bind].
  rewrite memchr2_spec. destruct (position _ _) as [n|] eqn:En; [|by eexists _, _; split; [done|]; split; [lia|]].
  apply position_lt in En as Hn. rewrite length_drop in Hn.
  rewrite slice_from_ok by lia. cbn [mbind exec_bind].
  destruct (drop (n + PullParser.progress p + skip) (PullParser.input p)) as [|a tl] eqn:Ed.
  { apply (f_equal length) in Ed. rewrite length_drop in Ed. cbn in Ed. lia. }
  assert (length (take (n + PullParser.progress p + skip - PullParser.progress p)
    (drop (PullParser.progress p) (PullParser.input p))) = n + skip) as Hs
    by (rewrite length_take, length_drop; lia).
  pose proof (f_equal length Ed) as Hlen. rewrite length_drop in Hlen. cbn in Hlen.
  destruct (newline (a :: tl)) as [|b|b1 b2|] eqn:El.
  - destruct (IH p (skip + (n + 1))) as (item & q & H & Hq & Hl); [lia|lia|]. eauto.
  - destruct tl as [|b' tl]; [done|]. cbn in Hlen.
    case_decide as Hnil; [by eexists _, _; split; [done|]; split; [lia|]|].
    destruct (take _ _) as [|x xs] eqn:Et; [done|]. cbn in Hs.
    eexists _, _. split; [done|]. case_decide; split; [lia|intros; lia|lia|intros; lia].
  - destruct tl as [|b' [|b1' [|b2' tl]]]; cbn in Hlen;
      [done|by cbn in El; repeat case_match|by cbn in El; repeat case_match|].
    case_decide as Hnil; [by eexists _, _; split; [done|]; split; [lia|]|].
    destruct (take _ _) as [|x xs] eqn:Et; [done|]. cbn in Hs.
    eexists _, _. split; [done|]. case_decide; split; [lia|intros; lia|lia|intros; lia].
  - by eexists _, _; split; [done|]; split; [lia|].
Qed.

Lemma next_total p : PullParser.progress p <= length (PullParser.input p) ->
  exists item q, PullParser.next p = Ret (item, {| PullParser.input := PullParser.input p; PullParser.progress := q |}) /\
    PullParser.progress p <= q <= length (PullParser.input p) /\
    forall l, item = Some (Ok l) -> PullParser.progress p < q.
Proof.
  intros Hp. destruct (next_loop_total (S (length (PullParser.input p))) p 0) as (item & q & H & Hq); [lia..|].
  exists item, q. unfold PullParser.next. rewrite H. done.
Qed.

Lemma lines_loop_total fuel : forall p, PullParser.progress p <= length (PullParser.input p) ->
  length (PullParser.input p) - PullParser.progress p < fuel ->
  exists ls c q, PullParser.lines_loop fuel p =
      Ret (ls, c, {| PullParser.input := PullParser.input p; PullParser.progress := q |}) /\
    PullParser.progress p <= q <= length (PullParser.input p).
Proof.
  induction fuel as [|fuel IH]; intros p Hp Hf; [lia|]. cbn [PullParser.lines_loop].
  destruct (next_total p Hp) as (item & q & -> & Hq & Hl). cbn [mbind exec_bind].
  destruct item as [[l|]|]; [|by eauto..].
  specialize (Hl l eq_refl).
  destruct (IH {| PullParser.input := PullParser.input p; PullParser.progress := q |})
    as (ls & c & q' & H & Hq'); cbn in *; [lia|lia|].
  rewrite H. cbn. exists (l :: ls), c, q'. split; [done|lia].
Qed.

Lemma lines_total p : PullParser.progress p <= length (PullParser.input p) ->
  exists ls c q, PullParser.lines p =
      Ret (ls, c, {| PullParser.input := PullParser.input p; PullParser.progress := q |}) /\
    PullParser.progress p <= q <= length (PullParser.input p).
Proof. intros Hp. apply lines_loop_total; lia. Qed.

(** The progress stays at the beginning of a line that is not complete. *)
Lemma next_loop_incomplete fuel : forall p skip q,
  PullParser.next_loop fuel p skip = Ret (Some (Err Incomplete), q) -> q = PullParser.progress p.
Proof.
  induction fuel as [|fuel IH]; intros p skip q H; [done|]. cbn in H.
  apply exec_bind_Ret_inv in H as (rest & _ & H). destruct (memchr2 _ _ rest); [|by injection H].
  apply exec_bind_Ret_inv in H as (tail & _ & H).
  destruct (newline tail); repeat case_decide; simplify_eq; eauto.
Qed.

(** Resuming where an incomplete input ended gives the remaining lines. *)
Lemma lines_resume i more : forall fuel pr ls q fuel' r,
  PullParser.lines_loop fuel {| PullParser.input := i; PullParser.progress := pr |} = Ret (ls, false, q) ->
  PullParser.lines_loop fuel' {| PullParser.input := i ++ more; PullParser.progress := PullParser.progress q |} = Ret r ->
  PullParser.lines_loop (fuel + fuel') {| PullParser.input := i ++ more; PullParser.progress := pr |} =
    Ret (ls ++ r.1.1, r.1.2, r.2).
Proof.
  induction fuel as [|fuel IH]; intros pr ls q fuel' r H Hr; [done|]. cbn [PullParser.lines_loop] in H.
  apply exec_bind_Ret_inv in H as ([item p] & Hn & H). destruct item as [[l|[]]|].
  - apply exec_bind_Ret_inv in H as ([[ls' c] q'] & Hl & H). injection H as <- -> <-.
    apply next_extend with (more := more) in Hn as [Hn Hi]. cbn [Nat.add PullParser.lines_loop].
    rewrite Hn. cbn [mbind exec_bind]. destruct p as [pi pp]. cbn in *. subst pi.
    by rewrite (IH pp ls' q' fuel' r Hl Hr).
  - injection H as <- <-.
    assert (PullParser.progress p = pr) as E.
    { unfold PullParser.next in Hn. apply exec_bind_Ret_inv in Hn as ([it pr'] & Hn & [= -> <-]).
      by apply next_loop_incomplete in Hn. }
    rewrite E in Hr. destruct r as [[? ?] ?]. apply (lines_loop_fuel fuel'); [lia|done].
  - done.
Qed.

(** The pull parser can be resumed: it always ends, without a panic and
    inside of the input; the lines of an incomplete input are the first lines
    of every input that continues it, and a parser that goes on from the
    progress of the incomplete run gives exactly the lines that follow, and
    comes to the same end of the head. *)
Theorem pull_parser_resumes (i more : list byte) (pr : nat) :
  pr <= length i ->
  exists ls c q, PullParser.lines {| PullParser.input := i; PullParser.progress := pr |} =
      Ret (ls, c, {| PullParser.input := i; PullParser.progress := q |}) /\ q <= length i /\
    (c = false -> exists ls' c' q',
      PullParser.lines {| PullParser.input := i ++ more; PullParser.progress := q |} =
        Ret (ls', c', {| PullParser.input := i ++ more; PullParser.progress := q' |}) /\
      PullParser.lines {| PullParser.input := i ++ more; PullParser.progress := pr |} =
        Ret (ls ++ ls', c', {| PullParser.input := i ++ more; PullParser.progress := q' |})).
Proof.
  intros Hp. destruct (lines_total {| PullParser.input := i; PullParser.progress := pr |} Hp)
    as (ls & c & q & H & Hq). cbn [PullParser.input PullParser.progress] in *.
  exists ls, c, q. split; [done|]. split; [lia|]. intros ->.
  destruct (lines_total {| PullParser.input := i ++ more; PullParser.progress := q |})
    as (ls' & c' & q' & H' & Hq'); [cbn; rewrite length_app; lia|]. cbn [PullParser.input] in *.
  exists ls', c', q'. split; [done|].
  pose proof (lines_resume i more _ _ _ _ _ _ H H') as Hr. cbn [fst snd] in Hr.
  destruct (lines_total {| PullParser.input := i ++ more; PullParser.progress := pr |})
    as (ls'' & c'' & q'' & H'' & _); [cbn; rewrite length_app; lia|].
  rewrite H''. unfold PullParser.lines in *.
  apply lines_loop_fuel with (fuel' := S (length i) + S (length (i ++ more))) in H'';
    [|cbn [PullParser.input]; lia]. cbn [PullParser.input] in *. rewrite H'' in Hr. by injection Hr as -> -> ->.
Qed.

(** ** Heads that are cut off *)

(** Complete lines, each with its newline. *)
Definition lines_of (ls : list (list byte)) : list byte := concat ((fun l => l ++ crlf) <$> ls).

Lemma head_of_app ls ls' : head_of (ls ++ ls') = lines_of ls ++ head_of ls'.
Proof. unfold head_of, lines_of. by rewrite fmap_app, concat_app, <-app_assoc. Qed.

Lemma lines_of_front ls c d : Forall line_ok ls -> plain c -> is_blank c = false -> plain d ->
  exists c' d' r, lines_of ls ++ [c; d] = c' :: d' :: r /\ is_blank c' = false /\ c' <> x0d.
Proof.
  intros [|l ls' [Hf (a & r & -> & [Hc1 Hc2] & Hb)] _] [] Hc _.
  - exists c, d, []. done.
  - unfold lines_of. cbn. destruct r as [|b r]; eexists _, _, _; (split; [reflexivity|]); done.
Qed.

(** The lines of a head that is cut off behind two characters of a line. *)
Lemma lines_loop_cut ls c d : plain c -> is_blank c = false -> plain d ->
  forall pre fuel, Forall line_ok ls -> length ls < fuel ->
  PullParser.lines_loop fuel
    {| PullParser.input := pre ++ lines_of ls ++ [c; d]; PullParser.progress := length pre |} =
  Ret (ls, false, {| PullParser.input := pre ++ lines_of ls ++ [c; d];
                     PullParser.progress := length pre + length (lines_of ls) |}).
Proof.
  intros Hc Hb Hd. induction ls as [|l ls IH]; intros pre fuel Hok Hf.
  - destruct fuel as [|fuel]; [cbn in Hf; lia|]. cbn [PullParser.lines_loop].
    unfold PullParser.next. cbn [lines_of fmap list_fmap concat app PullParser.next_loop
      PullParser.input PullParser.progress]. rewrite Nat.add_0_r, slice_from_app. cbn [mbind exec_bind].
    rewrite memchr2_spec. cbn [position]. destruct Hc, Hd.
    rewrite !bool_decide_eq_false_2 by tauto. cbn. by rewrite Nat.add_0_r.
  - apply Forall_cons in Hok as [Hl Hok]. destruct fuel as [|fuel]; [cbn in Hf; lia|].
    cbn [PullParser.lines_loop].
    change (lines_of (l :: ls)) with ((l ++ crlf) ++ lines_of ls). rewrite <-!app_assoc.
    destruct (lines_of_front ls c d Hok Hc Hb Hd) as (c' & d' & r & E & Hb' & Hc').
    pose proof (line_ok_nonempty l Hl) as Hlne. destruct Hl as [Hfold _].
    rewrite (next_line pre l (crlf ++ lines_of ls ++ [c; d]));
      [|done| |eexists _, _; split; [done|by right]].
    2:{ rewrite E. by rewrite newline_crlf. }
    unfold at_newline. rewrite E, newline_crlf, decide_False by done. cbn [mbind exec_bind]. rewrite <-E.
    rewrite decide_False by tauto.
    pose proof (IH (pre ++ l ++ crlf) fuel Hok ltac:(cbn in *; lia)) as H.
    rewrite <-!app_assoc in H. rewrite length_app in H. rewrite length_app in H.
    rewrite Nat.add_assoc in H. change (length crlf) with 2 in H. rewrite H. cbn [mbind exec_bind].
    replace (length pre + length (l ++ crlf ++ lines_of ls))
      with (length pre + length l + 2 + length (lines_of ls)); [done|].
    rewrite !length_app. change (length crlf) with 2. lia.
Qed.

Lemma length_lines_of ls : Forall line_ok ls -> length ls <= length (lines_of ls).
Proof.
  induction 1 as [|l ls Hl _ IH]; [done|].
  change (lines_of (l :: ls)) with ((l ++ crlf) ++ lines_of ls). rewrite !length_app. cbn. lia.
Qed.
End parser.

(** ** The decoder of streams *)
Section decoding.
Context {Uri : Type} `{ML : MemchrLaws}.
Context (parse_message_line : str -> option (MessageLine Uri)) (parse_line : str -> option (Name.t * str)).
#[local] Abbreviation decode := (decode parse_message_line parse_line).

(** The headers of lines; malformed ones are left out. *)
Definition headers_of (ls : list str) : Headers.t :=
  foldl (fun h l => match parse_line l with Some (n, v) => Headers.insert n v h | None => h end)
    Headers.new ls.

Lemma decode_lines_headers ml : forall ls h, Forall (fun l => utf8_valid l = true) ls ->
  decode_lines parse_message_line parse_line (Some ml) h ls =
    Ok (Some ml, foldl (fun h l => match parse_line l with Some (n, v) => Headers.insert n v h | None => h end) h ls).
Proof.
  intros ls. induction ls as [|l ls IH]; intros h Hu; [done|]. apply Forall_cons in Hu as [Hl Hu]. cbn.
  rewrite Hl. destruct (parse_line l) as [[n v]|]; by apply IH.
Qed.

(** A buffer that holds one message. *)
Lemma decode_message_head first hs ml body :
  Forall line_ok (first :: hs) -> Forall (fun l => utf8_valid l = true) (first :: hs) ->
  parse_message_line first = Some ml ->
  decode_message parse_message_line parse_line (head_of (first :: hs) ++ body) (length body) =
    Ret (Ok (Some (DecodedItem {| dm_line := ml; dm_headers := headers_of hs; dm_body := body;
                                  dm_buffer := head_of (first :: hs) ++ body |}))).
Proof.
  intros Hok Hu Hml. unfold decode_message.
  destruct (lines_head (first :: hs) [] body ltac:(done) Hok) as [Hls Hend]. cbn [app length Nat.add] in *.
  rewrite Hls. cbn [mbind exec_bind].
  apply Forall_cons in Hu as [Hf Hu]. cbn [decode_lines]. rewrite Hf, Hml, decode_lines_headers by done.
  cbn [negb]. rewrite Hend. cbn [mbind exec_bind].
  rewrite slice_from_ok by (rewrite length_app; lia). cbn [mbind exec_bind].
  rewrite drop_app_length, decide_False by lia. by rewrite take_ge.
Qed.

(** No white space in front. *)
Definition visible (l : list byte) : Prop := exists c r, l = c :: r /\ is_ascii_whitespace c = false.

Lemma span_visible l : visible l -> span is_ascii_whitespace l = ([], l).
Proof. intros (c & r & -> & Hc). cbn. by rewrite Hc. Qed.

Lemma visible_app l m : visible l -> visible (l ++ m).
Proof. intros (c & r & -> & Hc). by exists c, (r ++ m). Qed.

Lemma visible_head first hs : visible first -> visible (head_of (first :: hs)).
Proof. rewrite head_of_cons. apply visible_app. Qed.

(** The decoder when the parser has come to the end of a head. *)
Lemma decode_complete hp src ls q n :
  visible src -> (Z.of_nat (length src) <= 65535)%Z ->
  PullParser.lines {| PullParser.input := src; PullParser.progress := hp |} = Ret (ls, true, q) ->
  scan_lines 0 ls = Ok n ->
  decode hp src =
    (head_end ← PullParser.head_end q;
     let expected := head_end + Z.to_nat n in
     if decide (length src < expected) then Ret (Ok None, hp, src)
     else
       r ← decode_message parse_message_line parse_line (take expected src) (Z.to_nat n);
       Ret (r, 0, drop expected src)).
Proof.
  intros Hv Hlen Hl Hs. unfold SipFraming.decode. rewrite span_visible by done. cbn [fst length].
  rewrite drop_0. rewrite decide_True by done. rewrite decide_False by lia. rewrite Hl. cbn [mbind exec_bind].
  by rewrite Hs.
Qed.

(** The decoder on a whole message. *)
Lemma decode_whole first hs ml body rest :
  Forall line_ok (first :: hs) -> Forall (fun l => utf8_valid l = true) (first :: hs) ->
  visible first -> parse_message_line first = Some ml ->
  scan_lines 0 (first :: hs) = Ok (Z.of_nat (length body)) ->
  (Z.of_nat (length (head_of (first :: hs) ++ body ++ rest)) <= 65535)%Z ->
  decode 0 (head_of (first :: hs) ++ body ++ rest) =
    Ret (Ok (Some (DecodedItem {| dm_line := ml; dm_headers := headers_of hs; dm_body := body;
                                  dm_buffer := head_of (first :: hs) ++ body |})), 0, rest).
Proof.
  intros Hok Hu Hv Hml Hs Hlen.
  destruct (lines_head (first :: hs) [] (body ++ rest) ltac:(done) Hok) as [Hls Hend].
  cbn [app length Nat.add] in *.
  rewrite (decode_complete 0 _ _ _ _ (visible_app _ _ (visible_head _ _ Hv)) Hlen Hls Hs), Hend.
  cbn [mbind exec_bind]. rewrite Nat2Z.id.
  rewrite decide_False by (rewrite !length_app; lia).
  rewrite (app_assoc _ body rest), <-length_app, take_app_length, drop_app_length.
  by rewrite (decode_message_head _ _ ml).
Qed.

(** C6: A decoder that is at the start of a message, and finds the whole head
    in its buffer, gives the message exactly when all of its body has arrived:
    with a well-formed head (lines that may be folded, with the content length
    among them), the body and anything behind it, the buffer being of at most
    65535 bytes, it gives the message with the parsed headers and the whole
    body, leaves what follows in the buffer and is at the start of a message
    again; as long as a part of the body is missing it asks for more and keeps
    the buffer and its state. Both bounds are the code's: a longer buffer is
    refused before it is looked at, and a head that arrives in parts may lose
    the body ([fragmented_head_loses_body]). *)
Theorem stream_decodes_message first hs ml body rest :
  Forall line_ok (first :: hs) -> Forall (fun l => utf8_valid l = true) (first :: hs) ->
  visible first -> parse_message_line first = Some ml ->
  scan_lines 0 (first :: hs) = Ok (Z.of_nat (length body)) ->
  (Z.of_nat (length (head_of (first :: hs) ++ body ++ rest)) <= 65535)%Z ->
  decode 0 (head_of (first :: hs) ++ body ++ rest) =
    Ret (Ok (Some (DecodedItem {| dm_line := ml; dm_headers := headers_of hs; dm_body := body;
                                  dm_buffer := head_of (first :: hs) ++ body |})), 0, rest) /\
  forall k, k < length body ->
    decode 0 (head_of (first :: hs) ++ take k body) = Ret (Ok None, 0, head_of (first :: hs) ++ take k body).
Proof.
  intros Hok Hu Hv Hml Hs Hlen. split; [by apply decode_whole|]. intros k Hk.
  destruct (lines_head (first :: hs) [] (take k body) ltac:(done) Hok) as [Hls Hend].
  cbn [app length Nat.add] in *. rewrite !length_app in Hlen.
  assert (Z.of_nat (length (head_of (first :: hs) ++ take k body)) <= 65535)%Z as Hlen'
    by (rewrite length_app, length_take; lia).
  rewrite (decode_complete 0 _ _ _ _ (visible_app _ _ (visible_head _ _ Hv)) Hlen' Hls Hs), Hend.
  cbn [mbind exec_bind]. rewrite Nat2Z.id.
  rewrite decide_True by (rewrite length_app, length_take; lia). done.
Qed.

(** The decoder loses the body of a message whose head arrives in two parts:
    it goes on from the lines it has seen, but forgets the content length it
    has seen in them. When the first part ends within a line behind the
    Content-Length header, the first call asks for more, and the second one
    gives the message without its body and leaves the body in the buffer, to
    be read as the next message; the same bytes in one part give the body. *)
Theorem fragmented_head_loses_body first ls1 c d r ls2 ml body :
  let hs := ls1 ++ (c :: d :: r) :: ls2 in
  Forall line_ok (first :: hs) -> Forall (fun l => utf8_valid l = true) (first :: hs) ->
  plain d -> visible first -> parse_message_line first = Some ml ->
  scan_lines 0 (first :: ls1) = Ok (Z.of_nat (length body)) ->
  scan_lines 0 (first :: hs) = Ok (Z.of_nat (length body)) ->
  scan_lines 0 ((c :: d :: r) :: ls2) = Ok 0%Z ->
  (Z.of_nat (length (head_of (first :: hs) ++ body)) <= 65535)%Z ->
  let whole := head_of (first :: hs) ++ body in
  let part := lines_of (first :: ls1) ++ [c; d] in
  let message b := Ok (Some (DecodedItem {| dm_line := ml; dm_headers := headers_of hs; dm_body := b;
                                            dm_buffer := head_of (first :: hs) ++ b |})) in
  part `prefix_of` whole /\
  decode 0 part = Ret (Ok None, length (lines_of (first :: ls1)), part) /\
  decode (length (lines_of (first :: ls1))) whole = Ret (message [], 0, body) /\
  decode 0 whole = Ret (message body, 0, []).
Proof.
  intros hs Hok Hu Hd Hv Hml Hs1 Hs Hs2 Hlen whole part message.
  assert (whole = lines_of (first :: ls1) ++ head_of ((c :: d :: r) :: ls2) ++ body) as Ew.
  { unfold whole, hs. change (first :: ls1 ++ _) with ((first :: ls1) ++ (c :: d :: r) :: ls2).
    rewrite head_of_app. by rewrite <-app_assoc. }
  assert (Forall line_ok ((first :: ls1) ++ (c :: d :: r) :: ls2)) as Hok' by exact Hok.
  apply Forall_app in Hok' as [Hok1 Hok2].
  assert (line_ok (c :: d :: r)) as Hl by (by inversion Hok2).
  destruct Hl as [_ (c' & r' & [= <- <-] & Hc & Hb)].
  assert (part `prefix_of` whole) as [x Hx].
  { rewrite Ew. unfold part. rewrite head_of_cons.
    exists (r ++ crlf ++ head_of ls2 ++ body). by rewrite <-!app_assoc. }
  split; [by exists x|].
  assert (Z.of_nat (length part) <= 65535)%Z as Hpart.
  { fold whole in Hlen. rewrite Hx, length_app in Hlen. lia. }
  assert (visible part) as Hvp.
  { unfold part. change (lines_of (first :: ls1)) with ((first ++ crlf) ++ lines_of ls1).
    rewrite <-!app_assoc. by apply visible_app. }
  assert (visible whole) as Hvw by (by apply visible_app, visible_head).
  split; [|split].
  - unfold SipFraming.decode. rewrite span_visible by done. cbn [fst length]. rewrite drop_0, decide_True by done.
    rewrite decide_False by lia.
    pose proof (lines_loop_cut (first :: ls1) c d Hc Hb Hd [] (S (length part)) Hok1) as H.
    cbn [app length Nat.add] in H. unfold PullParser.lines. cbn [PullParser.input].
    fold part in H. rewrite H.
    { cbn [mbind exec_bind]. by rewrite Hs1. }
    pose proof (length_lines_of (first :: ls1) Hok1). unfold part. rewrite length_app. cbn in *. lia.
  - destruct (lines_head ((c :: d :: r) :: ls2) (lines_of (first :: ls1)) body ltac:(done) Hok2) as [Hls Hend].
    rewrite <-Ew in Hls, Hend. fold whole in Hlen.
    rewrite (decode_complete _ whole _ _ _ Hvw Hlen Hls Hs2), Hend.
    cbn [mbind exec_bind]. change (Z.to_nat 0) with 0. rewrite Nat.add_0_r.
    rewrite <-length_app, <-head_of_app. cbn [app]. fold hs.
    unfold whole. rewrite decide_False by (rewrite length_app; lia).
    rewrite take_app_length, drop_app_length.
    pose proof (decode_message_head first hs ml [] Hok Hu Hml) as Hm. rewrite app_nil_r in Hm.
    cbn [length] in Hm. rewrite Hm. unfold message. by rewrite app_nil_r.
  - pose proof (decode_whole first hs ml body [] Hok Hu Hv Hml Hs) as H. rewrite app_nil_r in H.
    by apply H.
Qed.

(** Mixed newlines crash the decoder: four bytes behind any first line, CR LF
    and a lone LF before a character that starts no line, and no content
    length. The parser takes the LF as the end of the head, but counts none
    of it to the head; parsing the buffer that was cut off before it fails, which the
    code takes for impossible and panics. *)
Theorem mixed_newlines_panic first b rest :
  line_ok first -> visible first ->
  scan_line 0 first = Ok 0%Z -> b <> x0a -> is_blank b = false ->
  (Z.of_nat (length (first ++ crlf ++ x0a :: b :: rest)) <= 65535)%Z ->
  decode 0 (first ++ crlf ++ x0a :: b :: rest) = Panic.
Proof.
  intros Hl Hv Hs Hb Hbl Hlen. pose proof (line_ok_nonempty _ Hl) as Hne.
  destruct Hl as [Hf _]. set (src := first ++ crlf ++ x0a :: b :: rest) in *.
  set (e := length first + 2).
  assert (PullParser.lines {| PullParser.input := src; PullParser.progress := 0 |} =
    Ret ([first], true, {| PullParser.input := src; PullParser.progress := e |})) as Hls.
  { unfold PullParser.lines. cbn [PullParser.lines_loop PullParser.input].
    pose proof (next_line [] first (crlf ++ x0a :: b :: rest) Hf) as H. cbn [app length] in H. fold src in H.
    rewrite H; [|by vm_compute|by cbn; eauto].
    unfold at_newline. rewrite newline_crlf, decide_False by done. cbn [mbind exec_bind].
    rewrite decide_False by (by intros []).
    destruct (length src) eqn:El; [unfold src in El; rewrite length_app in El; cbn in El; lia|].
    cbn [PullParser.lines_loop Nat.add].
    pose proof (next_line (first ++ crlf) [] (x0a :: b :: rest)) as H'. cbn [app] in H'.
    rewrite <-app_assoc, length_app in H'. change (length crlf) with 2 in H'. fold src e in H'.
    fold e. rewrite H'; [|by constructor|by cbn; rewrite Hbl|by eauto].
    unfold at_newline. cbn [newline]. rewrite decide_True, Hbl, decide_True by done. done. }
  assert (PullParser.head_end {| PullParser.input := src; PullParser.progress := e |} = Ret e) as Hend.
  { unfold PullParser.head_end. cbn [PullParser.input PullParser.progress].
    assert (slice_from e src = Ret (x0a :: b :: rest)) as ->.
    { unfold e, src. rewrite app_assoc, <-(slice_from_app (first ++ crlf)), length_app. done. }
    cbn [mbind exec_bind]. rewrite decide_False by (by vm_compute).
    rewrite decide_False; [done|]. unfold starts_with. cbn. intros H%bool_decide_unpack. congruence. }
  rewrite (decode_complete 0 src [first] _ 0 (visible_app _ _ Hv) Hlen Hls).
  2:{ cbn. by rewrite Hs. }
  rewrite Hend. cbn [mbind exec_bind]. change (Z.to_nat 0) with 0. rewrite Nat.add_0_r.
  rewrite decide_False by (unfold e, src; rewrite !length_app; cbn; lia).
  replace (take e src) with (first ++ crlf).
  2:{ unfold src, e. change 2 with (length crlf). by rewrite app_assoc, <-length_app, take_app_length. }
  unfold decode_message, PullParser.lines. cbn [PullParser.lines_loop PullParser.input].
  pose proof (next_line [] first crlf Hf) as H. cbn [app length] in H.
  rewrite H; [|done|by cbn; eauto]. unfold at_newline. cbn [crlf newline].
  rewrite decide_False by done. rewrite decide_True by done. cbn [mbind exec_bind decode_lines].
  done.
Qed.

(** ** The parser of datagrams *)

(** The body of a message in a datagram: without a valid Content-Length it is
    everything behind the head; with one it is that many bytes, and the
    message is refused when they are not there; but a Content-Length so large
    that its sum with the size of the head does not fit 64 bits passes the
    check by wrapping around, and the slice of the body panics. *)
Theorem datagram_body first hs ml h body :
  Forall line_ok (first :: hs) ->
  complete_lines parse_message_line parse_line None Headers.new (first :: hs) = Some (Some ml, h) ->
  let head := head_of (first :: hs) in
  let sip b := Ret (Some (CSip ml h b (head ++ body))) in
  (Z.of_nat (length (head ++ body)) < 2 ^ 64)%Z ->
  parse_complete_sip parse_message_line parse_line (head ++ body) =
    match @Headers.get Z content_length_decode Name.ContentLength h with
    | Err _ => sip body
    | Ok n =>
        if decide (n = 0%Z) then sip []
        else if decide (Z.of_nat (length head) + n < 2 ^ 64)%Z then
          if decide (n <= Z.of_nat (length body))%Z then sip (take (Z.to_nat n) body) else Ret None
        else Panic
    end.
Proof.
  intros Hok Hc head sip Hlen. unfold parse_complete_sip.
  destruct (lines_head (first :: hs) [] body ltac:(done) Hok) as [Hls Hend].
  cbn [app length Nat.add] in Hls, Hend. fold head in Hls, Hend. rewrite Hls. cbn [mbind exec_bind].
  rewrite Hc. cbn [negb]. rewrite Hend. cbn [mbind exec_bind].
  destruct (@Headers.get Z content_length_decode Name.ContentLength h) as [n|e] eqn:En.
  - destruct (decide (n = 0%Z)) as [->|Hn]; [done|].
    assert (0 <= n < 2 ^ 64)%Z as Hr.
    { revert En. unfold Headers.get, Headers.try_get. destruct (Headers.entry _ _) as [x|]; cbn; [|done].
      unfold Headers.decode. cbn. destruct (OneOrMore.to_list _) as [|v vs]; [done|].
      destruct (parse_uint 64 (trim v)) as [m|] eqn:Ep; [|done]. intros [= <-]. by apply parse_uint_range in Ep. }
    rewrite length_app in Hlen |- *. cbn [mbind exec_bind].
    destruct (decide (Z.of_nat (length head) + n < 2 ^ 64)%Z) as [Hs|Hs].
    + rewrite wrap_id by (unfold uint; lia).
      destruct (decide (n <= Z.of_nat (length body))%Z) as [Hb|Hb].
      * rewrite decide_True by lia. unfold slice_range. rewrite decide_True by (rewrite length_app; lia).
        cbn [mbind exec_bind]. rewrite Nat2Z.id, drop_app_length.
        replace (Z.of_nat (length head) + n - Z.of_nat (length head))%Z with n by lia. done.
      * by rewrite decide_False by lia.
    + unfold wrap.
      replace ((Z.of_nat (length head) + n) mod 2 ^ 64)%Z with (Z.of_nat (length head) + n - 2 ^ 64)%Z.
      2:{ rewrite <-(Z.mod_small (Z.of_nat (length head) + n - 2 ^ 64) (2 ^ 64)) by lia.
          replace (Z.of_nat (length head) + n - 2 ^ 64)%Z with (Z.of_nat (length head) + n + (-1) * 2 ^ 64)%Z by lia.
          by rewrite Z.mod_add. }
      rewrite decide_True by lia. unfold slice_range. by rewrite decide_False by lia.
  - destruct (decide (length head = length (head ++ body))) as [Hz|Hz].
    + rewrite length_app in Hz. destruct body; [done|cbn in Hz; lia].
    + rewrite slice_from_app. done.
Qed.
End decoding.

(** ** Examples *)
Definition sample_message_line (s : str) : option (MessageLine unit) :=
  if decide (s = lit "BYE x SIP/2.0") then Some (RequestL {| rl_method := Method.BYE; rl_uri := tt |}) else None.
Definition sample_line (s : str) : option (Name.t * str) :=
  let '(n, v) := split_colon s in v ← v; Some (Name.from_bytes n, v).

Definition sample_lines : list str := [lit "BYE x SIP/2.0"; lit "l: 5"; lit "Via: a"].

Lemma plain_line_ok c r : bool_decide (Forall plain (c :: r)) = true -> is_blank c = false -> line_ok (c :: r).
Proof.
  intros H%bool_decide_eq_true Hb. split; [by constructor|]. exists c, r. by inversion H.
Qed.

Lemma sample_lines_ok : Forall line_ok sample_lines.
Proof. repeat (constructor; [apply plain_line_ok; vm_compute; reflexivity|]). constructor. Defined.

Lemma sample_lines_utf8 : Forall (fun l => utf8_valid l = true) sample_lines.
Proof. repeat constructor. Defined.

Lemma sample_visible : visible (lit "BYE x SIP/2.0").
Proof. eexists _, _. split; reflexivity. Defined.

Definition sample_first : MessageLine unit := RequestL {| rl_method := Method.BYE; rl_uri := tt |}.

Lemma pull_parser_resumes_witness :
  let whole := (lit "a" ++ crlf ++ lit "bc") ++ crlf ++ crlf in
  exists ls' c' q',
    PullParser.lines (H := scan_memchr) {| PullParser.input := whole; PullParser.progress := 3 |} = Ret (ls', c', q').
Proof.
  destruct (pull_parser_resumes (M := scan_memchr) (lit "a" ++ crlf ++ lit "bc") (crlf ++ crlf) 0 ltac:(cbn; lia))
    as (ls & c & q & H & _ & Hr).
  vm_compute in H. injection H as <- <- <-. destruct (Hr eq_refl) as (ls' & c' & q' & H' & _).
  exists ls', c', {| PullParser.input := (lit "a" ++ crlf ++ lit "bc") ++ crlf ++ crlf; PullParser.progress := q' |}.
  exact H'.
Defined.

Lemma stream_decodes_message_witness :
  decode (H := scan_memchr) sample_message_line sample_line 0 (head_of sample_lines ++ take 4 (lit "12345")) =
    Ret (Ok None, 0, head_of sample_lines ++ take 4 (lit "12345")).
Proof.
  apply (proj2 (stream_decodes_message (M := scan_memchr) sample_message_line sample_line
    (lit "BYE x SIP/2.0") [lit "l: 5"; lit "Via: a"] sample_first (lit "12345") (lit "BYE")
    sample_lines_ok sample_lines_utf8 sample_visible eq_refl eq_refl
    ltac:(apply Z.leb_le; vm_compute; reflexivity)) 4 ltac:(cbn; lia)).
Defined.

Lemma fragmented_head_loses_body_witness :
  decode (H := scan_memchr) sample_message_line sample_line 0 (lines_of [lit "BYE x SIP/2.0"; lit "l: 5"] ++ lit "Vi") =
    Ret (Ok None, length (lines_of [lit "BYE x SIP/2.0"; lit "l: 5"]),
         lines_of [lit "BYE x SIP/2.0"; lit "l: 5"] ++ lit "Vi").
Proof.
  apply (fragmented_head_loses_body (M := scan_memchr) sample_message_line sample_line (lit "BYE x SIP/2.0") [lit "l: 5"]
    x56 x69 (lit "a: a") [] sample_first (lit "12345")); try reflexivity.
  - exact sample_lines_ok.
  - exact sample_lines_utf8.
  - by split.
  - exact sample_visible.
  - apply Z.leb_le; vm_compute; reflexivity.
Defined.

Lemma mixed_newlines_panic_witness :
  decode (H := scan_memchr) sample_message_line sample_line 0 (lit "a" ++ crlf ++ x0a :: x62 :: []) = Panic.
Proof.
  apply (mixed_newlines_panic (M := scan_memchr) sample_message_line sample_line (lit "a") x62 []); try done.
  - apply plain_line_ok; vm_compute; reflexivity.
  - eexists _, _. split; reflexivity.
Defined.

(** A datagram of a few lines that panics. *)
Definition huge_lines : list str := [lit "BYE x SIP/2.0"; lit "Content-Length: 18446744073709551615"].

Lemma datagram_body_witness :
  parse_complete_sip (H := scan_memchr) sample_message_line sample_line (head_of huge_lines ++ []) = Panic.
Proof.
  eapply eq_trans; [apply (datagram_body (M := scan_memchr) sample_message_line sample_line (lit "BYE x SIP/2.0")
    [lit "Content-Length: 18446744073709551615"] sample_first
    (Headers.insert Name.ContentLength (lit " 18446744073709551615") Headers.new) [])|].
  - repeat (constructor; [apply plain_line_ok; vm_compute; reflexivity|]). constructor.
  - reflexivity.
  - apply Z.ltb_lt. vm_compute. reflexivity.
  - vm_compute. reflexivity.
Defined.
