(* ===== verification/SipMessages.v ===== *)
(** * SIP messages
    (sip-types/src/host.rs, header/typed/via.rs, cseq.rs, from_to.rs, call_id.rs,
    sip-core/src/lib.rs, endpoint.rs)

    The headers every message has, the response to a request, and the bytes
    of a message that is sent. Addresses of names in From and To, URIs, and
    transports are type arguments; the parsers and printers of headers are
    instances of the traits, and arguments here. *)
From S2P Require Import Prelude Wire Text StunHeader StunMessage StunAttr StunAuth IceStun.
From S2P Require Import SipNames SipHeaders SipFraming.

(** ** Hosts *)
Inductive Host := IP6 (ip : Z) | IP4 (ip : Z) | HostName (name : str).

#[export] Instance Host_eq_dec : EqDecision Host.
Proof. solve_decision. Defined.

(** [From<IpAddr> for Host] *)
Definition host_of_ip (ip : IpAddr) : Host := match ip with IPv4 ip => IP4 ip | IPv6 ip => IP6 ip end.

Module HostPort.
Record t := { host : Host; port : option Z }.

#[global] Instance t_eq_dec : EqDecision t.
Proof. solve_decision. Defined.

(** [HostPort::ip] *)
Definition ip (h : t) : option IpAddr :=
  match host h with IP4 ip => Some (IPv4 ip) | IP6 ip => Some (IPv6 ip) | HostName _ => None end.

(** [HostPort::host_name] *)
Definition host_name (name : str) : t := {| host := HostName name; port := None |}.

(** [From<SocketAddr> for HostPort] *)
Definition of_socket_addr (addr : SocketAddr) : t :=
  match addr with
  | V4 ip port => {| host := IP4 ip; port := Some port |}
  | V6 ip port _ _ => {| host := IP6 ip; port := Some port |}
  end.
End HostPort.

(** [SocketAddr::port], [SocketAddr::new] *)
Definition addr_port (a : SocketAddr) : Z := match a with V4 _ p => p | V6 _ p _ _ => p end.
Definition socket_addr (ip : IpAddr) (port : Z) : SocketAddr :=
  match ip with IPv4 ip => V4 ip port | IPv6 ip => V6 ip port 0 0 end.

(** ** Typed headers *)
Module Via.
Record t := { transport : str; sent_by : HostPort.t; params : Params.t }.

(** [Via::new] *)
Definition new (transport : str) (sent_by : HostPort.t) (branch : str) : t :=
  {| transport := transport; sent_by := sent_by;
     params := Params.with_param {| Params.name := lit "branch"; Params.value := Some branch |} Params.new |}.
#[global] Instance via_named : ConstNamed t := {| NAME := Name.Via |}.
End Via.

(** [MaxForwards] is a number. *)
Module MaxForwards.
Record t := { max_forwards : Z }.
#[global] Instance max_forwards_extend_values : ExtendValues t := {|
  extend_values m _ := OneOrMore.One (print_uint (max_forwards m));
  create_values m := OneOrMore.One (print_uint (max_forwards m)) |}.
#[global] Instance max_forwards_parse : HeaderParse t := {|
  header_parse i := match parse_uint 8 (trim i) with Some n => Ok ([], {| max_forwards := n |}) | None => Err i end |}.
#[global] Instance max_forwards_named : ConstNamed t := {| NAME := Name.MaxForwards |}.
End MaxForwards.

Module CSeq.
Record t := { cseq : Z; method : Method.t }.

(** [ExtendValues for CSeq] *)
Definition print (c : t) : str := print_uint (cseq c) ++ lit " " ++ Method.display (method c).
#[global] Instance cseq_extend_values : ExtendValues t := {|
  extend_values c _ := OneOrMore.One (print c);
  create_values c := OneOrMore.One (print c) |}.
#[global] Instance cseq_named : ConstNamed t := {| NAME := Name.CSeq |}.
End CSeq.

Module CallID.
Record t := { call_id : str }.

(** [HeaderParse] and [ExtendValues for CallID] *)
#[global] Instance call_id_parse : HeaderParse t := {| header_parse i := Ok ([], {| call_id := trim i |}) |}.
#[global] Instance call_id_extend_values : ExtendValues t := {|
  extend_values c _ := OneOrMore.One (call_id c);
  create_values c := OneOrMore.One (call_id c) |}.
#[global] Instance call_id_named : ConstNamed t := {| NAME := Name.CallID |}.
End CallID.

(** [Direction] of a transport *)
Inductive Direction := DirNone | DirOutgoing (remote : SocketAddr) | DirIncoming (remote : SocketAddr).

(** [FromTo], for the address types of the URI component *)
Module FromTo.
Record t {NameAddr : Type} := { uri : NameAddr; tag : option str; params : Params.t }.
Arguments t : clear implicits.
End FromTo.

(** ** Messages: lib.rs, transport/mod.rs *)
Section messages.
Context {Uri NameAddr Tp : Type}.

(** [BaseHeaders] *)
Record BaseHeaders := {
  via : list Via.t;
  from_ : FromTo.t NameAddr;
  to : FromTo.t NameAddr;
  call_id : CallID.t;
  cseq_ : CSeq.t }.

(** [MessageTpInfo]; the time and the bytes of the message are not used. *)
Record MessageTpInfo := { source : SocketAddr; tp : Tp }.

(** [ReceivedMessage] *)
Record ReceivedMessage := {
  rm_tp_info : MessageTpInfo;
  rm_line : MessageLine Uri;
  rm_headers : Headers.t;
  rm_body : list byte }.

(** [Request], [Response] *)
Record Request := { rq_line : RequestLine Uri; rq_headers : Headers.t; rq_body : list byte }.
Record Response := { rs_line : StatusLine; rs_headers : Headers.t; rs_body : list byte }.

(** [OutgoingParts], [OutgoingRequest], [OutgoingResponse] *)
Record OutgoingParts := { op_transport : Tp; destination : SocketAddr; buffer : list byte }.
Record OutgoingRequest := { oq_msg : Request; oq_parts : OutgoingParts }.
Record OutgoingResponse := { os_msg : Response; os_parts : OutgoingParts }.

(** ** What the endpoint does with them: endpoint.rs *)
Context `{HeaderParse Via.t, ExtendValues Via.t}.
Context `{DecodeValues (FromTo.t NameAddr), ExtendValues (FromTo.t NameAddr)}.
Context `{DecodeValues CSeq.t}.
(** [to_string] and [from_str] of [IpAddr] *)
Context (ip_to_string : IpAddr -> str) (ip_from_str : str -> option IpAddr).
Context (direction : Tp -> Direction).

(** [BaseHeaders::extract_from] *)
Definition extract_from (headers : Headers.t) : result HeaderError.t BaseHeaders :=
  via ← Headers.get (H := list Via.t) Name.Via headers;
  from_ ← Headers.get Name.From headers;
  to ← Headers.get Name.To headers;
  call_id ← Headers.get Name.CallID headers;
  cseq ← Headers.get Name.CSeq headers;
  Ok {| via := via; from_ := from_; to := to; call_id := call_id; cseq_ := cseq |}.

(** [add_received_rport] *)
Definition add_received_rport (v : Via.t) (source : SocketAddr) : Via.t :=
  let ps := Via.params v in
  let ps := if decide (host_of_ip (addr_ip source) <> HostPort.host (Via.sent_by v))
            then Params.push_or_edit (lit "received") (ip_to_string (addr_ip source)) ps else ps in
  let ps := default ps (Params.update (lit "rport") (Some (print_uint (addr_port source))) ps) in
  {| Via.transport := Via.transport v; Via.sent_by := Via.sent_by v; Via.params := ps |}.

(** The destination of a response. *)
Definition response_destination (v : Via.t) (tpi : MessageTpInfo) : SocketAddr :=
  match direction (tp tpi) with
  | DirNone =>
      match maddr ← Params.get_val (lit "maddr") (Via.params v); ip_from_str maddr with
      | Some maddr => socket_addr maddr (default 5060%Z (HostPort.port (Via.sent_by v)))
      | None =>
          match rport ← Params.get_val (lit "rport") (Via.params v); parse_uint 16 rport with
          | Some rport => socket_addr (addr_ip (source tpi)) rport
          | None => source tpi
          end
      end
  | DirOutgoing remote | DirIncoming remote => remote
  end.

(** [Endpoint::create_response] of a request with its line, base headers and
    headers *)
Definition create_response (line : RequestLine Uri) (base : BaseHeaders) (headers : Headers.t)
    (tpi : MessageTpInfo) (code : StatusCode.t) (reason : option str) : exec OutgoingResponse :=
  if decide (rl_method line = Method.ACK) then Panic
  else
    h ← Headers.insert_multiple Name.Via (via base) Headers.new;
    let h := Headers.insert_type Name.From (from_ base) h in
    let h := Headers.insert_type Name.To (to base) h in
    let h := Headers.insert_named (call_id base) h in
    let h := Headers.insert_named (cseq_ base) h in
    let h := if decide (code = StatusCode.TRYING)
             then match Headers.clone_into h Name.Timestamp headers with Ok h => h | Err _ => h end
             else h in
    v ← unwrap (head (via base));
    Ret {| os_msg := {|
             rs_line := {| sl_code := code;
                           sl_reason := match reason with Some r => Some r | None => StatusCode.text code end |};
             rs_headers := h; rs_body := [] |};
           os_parts := {| op_transport := tp tpi; destination := response_destination v tpi; buffer := [] |} |}.

(** [Endpoint::create_outgoing] with a transport that has been selected *)
Definition create_outgoing (request : Request) (transport : Tp) (destination : SocketAddr) : OutgoingRequest :=
  {| oq_msg := request;
     oq_parts := {| op_transport := transport; destination := destination; buffer := [] |} |}.

(** [Display for StatusLine] *)
Definition print_status_line (l : StatusLine) : str :=
  lit "SIP/2.0 " ++ print_uint (sl_code l) ++
  match sl_reason l with Some reason => lit " " ++ reason | None => [] end.

(** The bytes both functions write: the line, the headers and the body. *)
Definition print_message (line : str) (headers : Headers.t) (body : list byte) : exec (list byte) :=
  headers ← Headers.display headers;
  Ret (line ++ crlf ++ headers ++ crlf ++ body).

Definition with_content_length (headers : Headers.t) (body : list byte) : Headers.t :=
  Headers.insert Name.ContentLength (print_uint (Z.of_nat (length body))) headers.

(** [Endpoint::send_outgoing_response] up to the transport's [send]: the
    message with its buffer, and the bytes that are sent. *)
Definition prepare_response (m : OutgoingResponse) : exec (OutgoingResponse * list byte) :=
  if decide (buffer (os_parts m) = []) then
    let headers := with_content_length (rs_headers (os_msg m)) (rs_body (os_msg m)) in
    bytes ← print_message (print_status_line (rs_line (os_msg m))) headers (rs_body (os_msg m));
    Ret ({| os_msg := {| rs_line := rs_line (os_msg m); rs_headers := headers; rs_body := rs_body (os_msg m) |};
            os_parts := {| op_transport := op_transport (os_parts m);
                           destination := destination (os_parts m); buffer := bytes |} |}, bytes)
  else Ret (m, buffer (os_parts m)).

(** [Endpoint::send_outgoing_request] up to the transport's [send] *)
Definition prepare_request (user_agent : option str) (print_uri : Uri -> str) (m : OutgoingRequest)
    : exec (OutgoingRequest * list byte) :=
  let headers := rq_headers (oq_msg m) in
  let headers := match user_agent with
                 | Some ua => if Headers.contains Name.UserAgent headers then headers
                              else Headers.insert Name.UserAgent ua headers
                 | None => headers
                 end in
  let with_headers h b :=
    {| oq_msg := {| rq_line := rq_line (oq_msg m); rq_headers := h; rq_body := rq_body (oq_msg m) |};
       oq_parts := {| op_transport := op_transport (oq_parts m);
                      destination := destination (oq_parts m); buffer := b |} |} in
  if decide (buffer (oq_parts m) = []) then
    let headers := with_content_length headers (rq_body (oq_msg m)) in
    let line := rq_line (oq_msg m) in
    bytes ← print_message
              (Method.display (rl_method line) ++ lit " " ++ print_uri (rl_uri line) ++ lit " SIP/2.0")
              headers (rq_body (oq_msg m));
    Ret (with_headers headers bytes, bytes)
  else Ret (with_headers headers (buffer (oq_parts m)), buffer (oq_parts m)).
End messages.
Arguments BaseHeaders : clear implicits.
Arguments MessageTpInfo : clear implicits.
Arguments ReceivedMessage : clear implicits.
Arguments Request : clear implicits.
Arguments OutgoingParts : clear implicits.
Arguments OutgoingRequest : clear implicits.
Arguments OutgoingResponse : clear implicits.

(** ** Header lines: [Line::parse] in msg.rs *)
Section line.
(** [char::is_alphanumeric] beyond ASCII, on the bytes of a character *)
Context (unicode_alphanumeric : list byte -> bool).

(** The number of bytes of the UTF-8 character a byte begins. *)
Definition char_len (b : byte) : nat :=
  if in_range 0 0x7F b then 1 else if in_range 0xC0 0xDF b then 2
  else if in_range 0xE0 0xEF b then 3 else 4.

(** [token] *)
Definition token_byte (b : byte) : bool :=
  in_range 48 57 b || in_range 65 90 b || in_range 97 122 b ||
  bool_decide (b ∈ lit "-.!%*_`'~+").
Definition token (c : list byte) : bool :=
  match c with [b] => token_byte b | _ => unicode_alphanumeric c end.

(** [take_while(token)]: the token and the rest *)
Fixpoint take_token (fuel : nat) (i : str) : str * str :=
  match fuel, i with
  | S fuel, b :: _ =>
      let c := take (char_len b) i in
      if token c then let '(t, rest) := take_token fuel (drop (char_len b) i) in (c ++ t, rest)
      else ([], i)
  | _, _ => ([], i)
  end.

Definition skip_ws (i : str) : str := (span is_ascii_whitespace i).2.

Definition parse_header_line (i : str) : option (Name.t * str) :=
  let '(name, i) := take_token (length i) (skip_ws i) in
  match skip_ws i with
  | c :: i => if decide (c = x3a) then Some (Name.from_bytes name, skip_ws i) else None
  | [] => None
  end.
End line.

(** ** The first line: [MessageLine::parse] and [StatusLine::parse] in msg.rs,
    up to what is left of the line, with the parser of request lines as an
    argument *)
Definition whitespace (b : byte) : bool := bool_decide (b = x20 \/ b = x09 \/ b = x0d \/ b = x0a).
Definition not_newline (b : byte) : bool := negb (bool_decide (b = x0a \/ b = x0d)).

Definition parse_status_line (i : str) : option StatusLine :=
  if starts_with (lit "SIP/2.0") i then
    let i := (span whitespace (drop 7 i)).2 in
    let '(code, i) := span (in_range 48 57) i in
    code ← parse_uint 16 code;
    let reason := trim (span not_newline (span whitespace i).2).1 in
    Some {| sl_code := code; sl_reason := if decide (reason = []) then None else Some reason |}
  else None.

Definition parse_message_line {Uri} (parse_request_line : str -> option (RequestLine Uri)) (i : str)
    : option (MessageLine Uri) :=
  match parse_status_line i with
  | Some line => Some (ResponseL line)
  | None => RequestL <$> parse_request_line i
  end.

(** ** What is sent arrives *)

(** A name that can be printed: a token of ASCII characters. *)
Definition printable_name (n : Name.t) : Prop :=
  parsed_name n /\ Name.as_print_str n <> [] /\ Forall (fun b => token_byte b = true) (Name.as_print_str n).

(** A value that fits a line: no newline, valid UTF-8, no white space in front. *)
Definition printable_value (v : str) : Prop :=
  Forall plain v /\ utf8_valid v = true /\ skip_ws v = v.

Definition printable (h : Headers.t) : Prop :=
  forall e, e ∈ Headers.entries h -> printable_name (Headers.name e) /\
    forall v, v ∈ OneOrMore.to_list (Headers.values e) -> printable_value v.

(** A header line without its newline. *)
Definition header_line (nv : Name.t * str) : str := Name.as_print_str nv.1 ++ lit ": " ++ nv.2.

Lemma token_byte_props b : token_byte b = true ->
  plain b /\ is_blank b = false /\ b <> x3a /\ is_ascii_whitespace b = false /\ char_len b = 1 /\
  in_range 0 127 b = true.
Proof. revert b. by_bytes. Qed.

Lemma visible_not_white b : in_range 0x21 0x7e b = true -> is_ascii_whitespace b = false.
Proof. revert b. by_bytes. Qed.

Lemma take_token_stop ua t c i : Forall (fun b => token_byte b = true) t ->
  in_range 0 127 c = true -> token_byte c = false -> forall fuel, length t < fuel ->
  take_token ua fuel (t ++ c :: i) = (t, c :: i).
Proof.
  intros Ht Hc Hnc. assert (char_len c = 1) as Hl by (unfold char_len; by rewrite Hc).
  induction Ht as [|b t Hb _ IH]; intros [|fuel] Hf; cbn [length] in Hf; try lia.
  - cbn [app take_token]. rewrite Hl. cbn. by rewrite Hnc.
  - cbn [app take_token]. destruct (token_byte_props b Hb) as (_ & _ & _ & _ & Hl' & _). rewrite Hl'.
    cbn. rewrite Hb. rewrite drop_0, IH by lia. done.
Qed.

Lemma skip_ws_visible b i : is_ascii_whitespace b = false -> skip_ws (b :: i) = b :: i.
Proof. intros H. unfold skip_ws. cbn. by rewrite H. Qed.

(** Parsing undoes printing, on the lines of a header. *)
Lemma parse_header_line_print ua n v : printable_name n -> printable_value v ->
  parse_header_line ua (header_line (n, v)) = Some (n, v).
Proof.
  intros (Hn & Hne & Ht) (_ & _ & Hv). unfold parse_header_line, header_line. cbn [fst snd].
  change (lit ": " ++ v) with (x3a :: x20 :: v).
  assert (skip_ws (Name.as_print_str n ++ x3a :: x20 :: v) = Name.as_print_str n ++ x3a :: x20 :: v) as ->.
  { destruct (Name.as_print_str n) as [|b t]; [done|]. cbn [app]. apply skip_ws_visible.
    apply token_byte_props. by inversion Ht. }
  rewrite take_token_stop; [|done|done|done|rewrite length_app; cbn; lia].
  rewrite skip_ws_visible by done. rewrite decide_True by done.
  assert (skip_ws (x20 :: v) = v) as ->.
  { unfold skip_ws in *. cbn [span]. change (is_ascii_whitespace x20) with true. cbn.
    destruct (span is_ascii_whitespace v) as [a r] eqn:E. cbn in *. done. }
  f_equal. f_equal. destruct (parsed_cases n Hn) as [Hk|(s & -> & Hs)].
  - apply from_bytes_known; [done|]. apply print_str_elem.
  - done.
Qed.

Lemma header_line_ok n v : printable_name n -> printable_value v -> line_ok (header_line (n, v)).
Proof.
  intros (_ & Hne & Ht) (Hp & _ & _). unfold header_line. cbn [fst snd].
  destruct (Name.as_print_str n) as [|b t] eqn:E; [done|]. inversion Ht as [|? ? Hb Ht']; subst.
  split.
  - apply folded_end. cbn. constructor; [by apply token_byte_props|]. apply Forall_app. split.
    + eapply Forall_impl; [exact Ht'|]. intros x Hx. by apply token_byte_props.
    + repeat constructor; done.
  - exists b, (t ++ lit ": " ++ v). destruct (token_byte_props b Hb) as (? & ? & _). done.
Qed.

Lemma token_utf8 t : Forall (fun b => token_byte b = true) t -> utf8_valid t = true.
Proof.
  induction 1 as [|b t Hb _ IH]; [done|]. cbn [utf8_valid].
  destruct (token_byte_props b Hb) as (_ & _ & _ & _ & _ & ->). done.
Qed.

Lemma header_line_utf8 n v : printable_name n -> printable_value v -> utf8_valid (header_line (n, v)) = true.
Proof.
  intros (_ & _ & Ht) (_ & Hu & _). unfold header_line. cbn [fst snd].
  rewrite utf8_valid_app by (by apply token_utf8). by rewrite utf8_valid_app.
Qed.

Lemma split_colon_header n v : printable_name n -> split_colon (header_line (n, v)) = (Name.as_print_str n, Some (x20 :: v)).
Proof.
  intros (_ & _ & Ht). unfold split_colon, header_line. cbn [fst snd].
  change (lit ": " ++ v) with (x3a :: x20 :: v). rewrite span_app; [done| |done].
  eapply Forall_impl; [exact Ht|]. cbn. intros b Hb. destruct (token_byte_props b Hb) as (_ & _ & Hc & _).
  by rewrite bool_decide_eq_false_2.
Qed.

(** Only the lines of Content-Length change the content length. *)
Lemma scan_line_other n v acc : printable_name n -> canonical n <> Name.ContentLength ->
  scan_line acc (header_line (n, v)) = Ok acc.
Proof.
  intros Hn Hc. unfold scan_line. rewrite split_colon_header by done.
  destruct (existsb _ _) eqn:E; [|done]. exfalso.
  apply existsb_exists in E as (s & Hs & E). apply eq_ignore_ascii_case_true in E.
  destruct Hn as (Hp & _). apply Hc.
  assert (Name.from_bytes (Name.as_print_str n) = Name.ContentLength) as H.
  { apply from_bytes_known; [done|]. rewrite E. apply name_strs_elem. exists s. split; [done|]. right.
    by apply list_elem_of_In. }
  destruct (parsed_cases n Hp) as [Hk|(t & -> & Ht)].
  - rewrite canonical_known by done. rewrite <-H. symmetry. apply from_bytes_known; [done|]. apply print_str_elem.
  - cbn in H. congruence.
Qed.

(** The content-length line tells the length. *)
Lemma scan_line_length n acc : (0 <= n <= 65535)%Z ->
  scan_line acc (header_line (Name.ContentLength, print_uint n)) = Ok n.
Proof.
  intros Hn. unfold scan_line. rewrite split_colon_header.
  2:{ split; [done|]. split; [done|]. repeat constructor. }
  change (existsb _ _) with true. cbn [ok_or mbind result_bind].
  assert (utf8_valid (x20 :: print_uint n) = true) as ->.
  { cbn. apply visible_utf8, print_uint_visible. lia. }
  rewrite trim_space; [|apply print_uint_nonempty; lia|apply print_uint_visible; lia].
  rewrite parse_print_uint by (unfold uint; lia). cbn. by rewrite decide_False by lia.
Qed.

Lemma print_uint_value n : (0 <= n)%Z -> printable_value (print_uint n).
Proof.
  intros Hn. pose proof (print_uint_visible n Hn) as Hv. split; [|split].
  - eapply Forall_impl; [exact Hv|]. cbn. intros b Hb. split; intros ->; done.
  - by apply visible_utf8.
  - destruct (print_uint n) as [|b l]; [done|]. apply skip_ws_visible. inversion Hv as [|? ? Hb _]; subst.
    by apply visible_not_white.
Qed.

(** A line that begins with neither c nor l holds no content length. *)
Lemma scan_line_first acc b l : to_lower b <> x63 -> to_lower b <> x6c -> scan_line acc (b :: l) = Ok acc.
Proof.
  intros Hc Hl. unfold scan_line. destruct (split_colon (b :: l)) as [name value] eqn:E.
  destruct (existsb _ _) eqn:Ex; [|done]. exfalso.
  unfold split_colon in E. cbn [span] in E.
  assert (name = [] \/ exists t, name = b :: t) as Hname.
  { destruct (negb _); [|by injection E as <- _; left]. destruct (span _ l) as [x y].
    injection E as <- _. right. eauto. }
  apply existsb_exists in Ex as (s & Hs & Ex). apply eq_ignore_ascii_case_true in Ex.
  assert (s = lit "content-length" \/ s = lit "l") as Hs' by (cbn in Hs; naive_solver).
  destruct Hname as [->|[t ->]], Hs' as [->| ->]; try done; cbn in Ex; congruence.
Qed.

Lemma foldl_insert_entries es : forall h,
  foldl (fun h nv => Headers.insert nv.1 nv.2 h) h
    (concat ((fun e => pair (Headers.name e) <$> OneOrMore.to_list (Headers.values e)) <$> es)) =
  foldl Headers.drain_entry h es.
Proof.
  induction es as [|e es IH]; intros h; [done|]. cbn. rewrite foldl_app, IH. f_equal.
  rewrite drain_entry_foldl. generalize (OneOrMore.to_list (Headers.values e)). intros vs.
  revert h. induction vs as [|v vs IHv]; intros h; [done|]. cbn. apply IHv.
Qed.

(** Reading the printed lines of a container gives the container, up to the
    grouping of its values. *)
Lemma headers_of_lines ua h : headers_wf h -> printable h ->
  exists l, Headers.iter h = Ret l /\
    Forall (fun nv => printable_name nv.1 /\ printable_value nv.2) l /\
    headers_wf (headers_of (parse_header_line ua) (header_line <$> l)) /\
    forall m, parsed_name m -> all_values m (headers_of (parse_header_line ua) (header_line <$> l)) = all_values m h.
Proof.
  intros Hwf Hp. eexists. split; [by apply iter_spec|]. set (l := concat _).
  assert (Forall (fun nv => printable_name nv.1 /\ printable_value nv.2) l) as Hl.
  { apply Forall_forall. intros [n v] Hin. apply list_elem_of_In, in_concat in Hin as (x & Hx & Hin).
    apply list_elem_of_In, list_elem_of_fmap in Hx as (e & -> & He).
    apply list_elem_of_In, list_elem_of_fmap in Hin as (w & [= -> ->] & Hw).
    destruct (Hp e He) as [Hn Hv]. split; [done|]. by apply Hv. }
  split; [done|].
  assert (headers_of (parse_header_line ua) (header_line <$> l) =
    foldl (fun h nv => Headers.insert nv.1 nv.2 h) Headers.new l) as ->.
  { unfold headers_of. generalize Headers.new. clearbody l. induction Hl as [|[n v] l [Hn Hv] _ IH]; intros h0; [done|].
    cbn [fmap list_fmap foldl]. rewrite parse_header_line_print by done. apply IH. }
  unfold l. rewrite foldl_insert_entries.
  assert (headers_wf Headers.new) as H0 by (by split; constructor).
  destruct (drain_into_spec Headers.new h H0 Hwf) as [Hw Hall]. done.
Qed.

(** The bytes of a message are a head and the body. *)
Lemma print_message_head line h body l : Headers.iter h = Ret l ->
  print_message line h body = Ret (head_of (line :: (header_line <$> l)) ++ body).
Proof.
  intros Hi. unfold print_message, Headers.display. rewrite Hi. cbn [mbind exec_bind]. f_equal.
  rewrite head_of_cons, <-!app_assoc. do 2 f_equal. unfold head_of.
  rewrite <-list_fmap_compose. rewrite <-app_assoc. f_equal. f_equal. apply list_fmap_ext. intros i [n v] _.
  unfold Headers.print_line, header_line, compose. cbn. by rewrite <-!app_assoc.
Qed.

Lemma scan_lines_app ls ls' acc : scan_lines acc (ls ++ ls') = (n ← scan_lines acc ls; scan_lines n ls').
Proof.
  revert acc. induction ls as [|l ls IH]; intros acc; [done|]. cbn. destruct (scan_line acc l); [|done].
  cbn. apply IH.
Qed.

Lemma scan_lines_headers l acc :
  Forall (fun nv => printable_name nv.1 /\ canonical nv.1 <> Name.ContentLength) l ->
  scan_lines acc (header_line <$> l) = Ok acc.
Proof.
  induction 1 as [|[n v] l [Hn Hc] _ IH]; [done|]. cbn [fmap list_fmap scan_lines].
  by rewrite scan_line_other.
Qed.

(** The first line of a response. *)
Definition status_ok (l : StatusLine) : Prop :=
  uint 16 (sl_code l) /\
  match sl_reason l with
  | Some r => r <> [] /\ printable_value r /\ trim r = r
  | None => True
  end.

Lemma plain_digit b : in_range 48 57 b = true -> plain b /\ whitespace b = false.
Proof. revert b. by_bytes. Qed.

Lemma whitespace_ascii b : whitespace b = true -> is_ascii_whitespace b = true.
Proof. revert b. by_bytes. Qed.

Lemma span_all f a : Forall (fun b => f b = true) a -> span f a = (a, []).
Proof. induction 1 as [|b a Hb _ IH]; [done|]. cbn. by rewrite Hb, IH. Qed.

Lemma skip_whitespace r : skip_ws r = r -> (span whitespace r).2 = r.
Proof.
  destruct r as [|b r]; [done|]. unfold skip_ws. cbn. intros H.
  destruct (whitespace b) eqn:E; [|done]. exfalso.
  rewrite (whitespace_ascii b E) in H.
  destruct (span is_ascii_whitespace r) as [x y] eqn:Es. cbn in H.
  assert (forall f l, length (span f l).2 <= length l) as Hlen.
  { intros f l. induction l as [|c l IH]; [done|]. cbn. destruct (f c); [|done].
    destruct (span f l). cbn in *. lia. }
  pose proof (Hlen is_ascii_whitespace r) as Hl. rewrite Es in Hl. cbn in Hl.
  apply (f_equal length) in H. cbn in H. lia.
Qed.

(** Parsing undoes printing, on status lines. *)
Lemma parse_status_line_print l : status_ok l -> parse_status_line (print_status_line l) = Some l.
Proof.
  destruct l as [code reason]. intros [Hc Hr]. cbn [sl_code sl_reason] in *.
  assert (0 <= code)%Z as Hc0 by apply Hc.
  pose proof (print_uint_digits code Hc0) as Hd. pose proof (print_uint_nonempty code Hc0) as Hne.
  pose proof (parse_print_uint 16 code ltac:(lia) Hc) as Hp.
  unfold parse_status_line, print_status_line. cbn [sl_code sl_reason].
  change (lit "SIP/2.0 ") with (lit "SIP/2.0" ++ [x20]). rewrite <-!app_assoc, starts_with_app.
  change 7 with (length (lit "SIP/2.0")). rewrite drop_app_length. cbn [app span].
  change (whitespace x20) with true. cbv iota. revert Hd Hne Hp. generalize (print_uint code). intros d Hd Hne Hp.
  assert (forall r, (span whitespace (d ++ r)).2 = d ++ r) as Hspan.
  { intros r. destruct d as [|b d]; [done|]. cbn. inversion Hd as [|? ? Hb]; subst.
    by destruct (plain_digit b Hb) as [_ ->]. }
  destruct reason as [r|].
  - destruct Hr as (Hrn & (Hpl & _ & Hsk) & Htr). specialize (Hspan (x20 :: r)).
    change (lit " " ++ r) with (x20 :: r).
    destruct (span whitespace (d ++ x20 :: r)) as [x y]. cbn in Hspan. subst y. cbn [snd].
    rewrite span_app by done. rewrite Hp. cbn [mbind option_bind span].
    change (whitespace x20) with true. cbv iota.
    pose proof (skip_whitespace r Hsk) as Hw. destruct (span whitespace r) as [x' y']. cbn in Hw. subst y'.
    cbn [snd]. rewrite span_all.
    + cbn [fst]. rewrite Htr, decide_False by done. done.
    + eapply Forall_impl; [exact Hpl|]. intros b [H1 H2]. unfold not_newline.
      by rewrite bool_decide_eq_false_2 by tauto.
  - specialize (Hspan []). destruct (span whitespace (d ++ [])) as [x y]. cbn in Hspan. subst y. cbn [snd].
    rewrite app_nil_r, span_all by done. rewrite Hp. done.
Qed.

Lemma status_line_ok l : status_ok l ->
  line_ok (print_status_line l) /\ utf8_valid (print_status_line l) = true /\ visible (print_status_line l) /\
  forall acc, scan_line acc (print_status_line l) = Ok acc.
Proof.
  destruct l as [code reason]. intros [[Hc _] Hr]. cbn [sl_code sl_reason] in *.
  unfold print_status_line. cbn [sl_code sl_reason].
  pose proof (print_uint_digits code Hc) as Hd. pose proof (print_uint_visible code Hc) as Hv.
  assert (Forall plain (print_uint code)) as Hpl.
  { eapply Forall_impl; [exact Hd|]. intros b Hb. by apply plain_digit. }
  set (t := match reason with Some r => _ | None => _ end).
  assert (Forall plain t /\ utf8_valid t = true) as [Ht Hu].
  { subst t. destruct reason as [r|]; [|done]. destruct Hr as (_ & (H1 & H2 & _) & _).
    split; [by constructor|done]. }
  split; [|split; [|split]].
  - split; [|eexists _, _; split; [reflexivity|done]]. apply folded_end. repeat (constructor; [done|]).
    cbn [app]. apply Forall_app. done.
  - rewrite !utf8_valid_app; [done|by apply visible_utf8|done].
  - eexists _, _. split; reflexivity.
  - intros acc. by apply scan_line_first.
Qed.

(** A name without values has no entry. *)
Lemma no_values_absent n h : headers_wf h -> parsed_name n -> all_values n h = [] ->
  canonical n ∉ (fun e => canonical (Headers.name e)) <$> Headers.entries h.
Proof.
  destruct h as [es]. intros [Hes _] Hn Ha Hin. cbn in *.
  induction Hes as [|e es [He Hv] Hes IH]; cbn in Hin; [by apply elem_of_nil in Hin|].
  rewrite lookup_cons in Ha by done. case_decide as Hc; [done|].
  apply IH; [done|]. apply elem_of_cons in Hin as [Hin|Hin]; [congruence|done].
Qed.

(** Inserting under a name that is not there adds an entry. *)
Lemma insert_new n v h : headers_wf h -> parsed_name n -> all_values n h = [] ->
  Headers.entries (Headers.insert n v h) =
    Headers.entries h ++ [{| Headers.name := n; Headers.values := OneOrMore.One v |}].
Proof.
  destruct h as [es]. intros [Hes Hnd] Hn Ha. cbn in *. unfold Headers.insert. cbn.
  pose proof (update_entry_spec n (OneOrMore.push v) es Hn Hes) as Hu.
  destruct (Headers.update_entry n (OneOrMore.push v) es) as [es'|] eqn:E; [|done]. exfalso.
  destruct Hu as (Hin & _); [|by apply (no_values_absent n (Headers.Build_t es))].
  intros vs _. rewrite to_list_push. by destruct (OneOrMore.to_list vs).
Qed.

Lemma printable_content_length h body : headers_wf h -> printable h ->
  all_values Name.ContentLength h = [] -> printable (with_content_length h body).
Proof.
  intros Hwf Hp Ha e He. unfold with_content_length in He. rewrite insert_new in He by done.
  apply elem_of_app in He as [He|He]; [by apply Hp|]. apply list_elem_of_singleton in He. subst e. cbn.
  split; [split; [done|split; [done|repeat constructor]]|].
  intros v ->%list_elem_of_singleton. apply print_uint_value. lia.
Qed.

(** The lines of the headers hold one content length, that of the body. *)
Lemma scan_printed h body l acc : headers_wf h -> printable h -> all_values Name.ContentLength h = [] ->
  (Z.of_nat (length body) <= 65535)%Z -> Headers.iter (with_content_length h body) = Ret l ->
  scan_lines acc (header_line <$> l) = Ok (Z.of_nat (length body)).
Proof.
  intros Hwf Hp Ha Hlen Hi. assert (parsed_name Name.ContentLength) as Hcl by done.
  destruct (insert_spec Name.ContentLength (print_uint (Z.of_nat (length body))) h _ Hwf Hcl
    (or_introl eq_refl)) as [Hwf' _].
  unfold with_content_length in Hi. rewrite (iter_spec _ Hwf'), (insert_new _ _ _ Hwf Hcl Ha) in Hi.
  assert (forall A (x y : A), Ret x = Ret y -> x = y) as Hinj by congruence. apply Hinj in Hi. subst l.
  rewrite fmap_app, concat_app, fmap_app, scan_lines_app.
  rewrite scan_lines_headers.
  - cbn [mbind result_bind fmap list_fmap concat app OneOrMore.to_list Headers.name Headers.values scan_lines].
    by rewrite scan_line_length by lia.
  - apply Forall_forall. intros [n v] Hin. apply list_elem_of_In, in_concat in Hin as (x & Hx & Hin).
    apply list_elem_of_In, list_elem_of_fmap in Hx as (e & -> & He).
    apply list_elem_of_In, list_elem_of_fmap in Hin as (w & [= -> ->] & Hw). cbn.
    split; [by apply Hp|]. intros Hc.
    apply (no_values_absent Name.ContentLength h Hwf Hcl Ha). apply list_elem_of_fmap. exists e. done.
Qed.

(** A printed message is one item of the stream, with the headers it had and
    its content length. *)
Lemma message_arrives {Uri} (pml : str -> option (MessageLine Uri)) ua line ml h body rest `{ML : MemchrLaws} :
  headers_wf h -> printable h -> all_values Name.ContentLength h = [] ->
  line_ok line -> utf8_valid line = true -> visible line -> (forall acc, scan_line acc line = Ok acc) ->
  pml line = Some ml -> (Z.of_nat (length body) <= 65535)%Z ->
  exists bytes h', print_message line (with_content_length h body) body = Ret bytes /\ bytes <> [] /\
    ((Z.of_nat (length (bytes ++ rest)) <= 65535)%Z ->
      decode pml (parse_header_line ua) 0 (bytes ++ rest) =
        Ret (Ok (Some (DecodedItem {| dm_line := ml; dm_headers := h'; dm_body := body; dm_buffer := bytes |})), 0, rest)) /\
    headers_wf h' /\
    forall n, parsed_name n -> all_values n h' =
      all_values n h ++ if decide (canonical n = Name.ContentLength) then [print_uint (Z.of_nat (length body))] else [].
Proof.
  intros Hwf Hp Ha Hok Hu Hv Hs Hml Hlen. assert (parsed_name Name.ContentLength) as Hcl by done.
  destruct (insert_spec Name.ContentLength (print_uint (Z.of_nat (length body))) h _ Hwf Hcl
    (or_introl eq_refl)) as [Hwf' Hall].
  fold (with_content_length h body) in Hwf', Hall.
  destruct (headers_of_lines ua _ Hwf' (printable_content_length h body Hwf Hp Ha)) as (l & Hi & Hl & Hw & Hvals).
  eexists _, _. split; [by apply print_message_head|]. split; [|split; [|split; [exact Hw|]]].
  - destruct Hv as (c & r & -> & _). by rewrite head_of_cons.
  - intros Hlen'. rewrite <-app_assoc in Hlen' |- *. apply decode_whole; [..|exact Hv|exact Hml| |exact Hlen'].
    + constructor; [done|]. apply Forall_fmap. eapply Forall_impl; [exact Hl|]. intros [n v] [Hn Hpv].
      by apply header_line_ok.
    + constructor; [done|]. apply Forall_fmap. eapply Forall_impl; [exact Hl|]. intros [n v] [Hn Hpv].
      by apply header_line_utf8.
    + cbn [scan_lines]. rewrite Hs. cbn [mbind result_bind]. by apply (scan_printed h body l).
  - intros n Hn. rewrite Hvals, Hall by done. cbn [canonical].
    destruct (decide (Name.ContentLength = canonical n)) as [E|E].
    + by rewrite decide_True by done.
    + rewrite decide_False by congruence. by rewrite app_nil_r.
Qed.

(** ** Sending again *)
Lemma update_entry_contains n m f es es' : Headers.update_entry n f es = Some es' ->
  existsb (fun e => Name.eq (Headers.name e) m) es' = existsb (fun e => Name.eq (Headers.name e) m) es.
Proof.
  revert es'. induction es as [|e es IH]; intros es' H; [done|]. cbn in *. destruct (Name.eq (Headers.name e) n).
  - by injection H as <-.
  - destruct (Headers.update_entry n f es) as [es1|]; [|done]. injection H as <-. cbn. by rewrite (IH es1).
Qed.

Lemma contains_insert n m v h : Headers.contains m h = true -> Headers.contains m (Headers.insert n v h) = true.
Proof.
  unfold Headers.contains, Headers.insert. cbn. destruct (Headers.update_entry n _ _) as [es|] eqn:E.
  - by rewrite (update_entry_contains _ _ _ _ _ E).
  - intros Hc. by rewrite existsb_app, Hc.
Qed.

Lemma contains_user_agent v h : Headers.contains Name.UserAgent (Headers.insert Name.UserAgent v h) = true.
Proof.
  unfold Headers.contains, Headers.insert. cbn.
  assert (forall es es' f, Headers.update_entry Name.UserAgent f es = Some es' ->
    existsb (fun e => Name.eq (Headers.name e) Name.UserAgent) es' = true) as Hu.
  { intros es. induction es as [|e es IH]; intros es' f H; [done|]. cbn in H.
    destruct (Name.eq (Headers.name e) Name.UserAgent) eqn:E.
    - injection H as <-. cbn. by rewrite E.
    - destruct (Headers.update_entry Name.UserAgent f es) as [es1|] eqn:Eu; [|done]. injection H as <-.
      cbn. by rewrite (IH es1 f Eu), orb_true_r. }
  destruct (Headers.update_entry Name.UserAgent _ _) as [es|] eqn:E; [by apply (Hu _ _ _ E)|].
  rewrite existsb_app. cbn. by rewrite orb_true_r.
Qed.

(** A message that has been sent keeps its bytes. *)
Lemma prepare_request_again {Uri Tp} ua (pu : Uri -> str) (m m' : OutgoingRequest Uri Tp) bytes :
  prepare_request ua pu m = Ret (m', bytes) -> bytes <> [] -> prepare_request ua pu m' = Ret (m', bytes).
Proof.
  unfold prepare_request. set (h := match ua with Some u => _ | None => _ end).
  assert (match ua with Some u => if Headers.contains Name.UserAgent h then h else Headers.insert Name.UserAgent u h
          | None => h end = h /\
    match ua with
    | Some u => if Headers.contains Name.UserAgent (with_content_length h (rq_body (oq_msg m)))
                then with_content_length h (rq_body (oq_msg m))
                else Headers.insert Name.UserAgent u (with_content_length h (rq_body (oq_msg m)))
    | None => with_content_length h (rq_body (oq_msg m)) end = with_content_length h (rq_body (oq_msg m))) as [Hh Hl].
  { destruct ua as [u|]; [|done]. assert (Headers.contains Name.UserAgent h = true) as Hc.
    { unfold h. destruct (Headers.contains Name.UserAgent (rq_headers (oq_msg m))) eqn:E; [done|].
      apply contains_user_agent. }
    unfold with_content_length. by rewrite Hc, contains_insert. }
  clearbody h. intros H Hb. destruct (decide (buffer (oq_parts m) = [])) as [E|E].
  - apply exec_bind_Ret_inv in H as (b & _ & [= <- <-]). cbn [oq_msg oq_parts rq_line rq_headers rq_body buffer op_transport destination].
    rewrite decide_False by done. by rewrite Hl.
  - injection H as <- <-. cbn [oq_msg oq_parts rq_line rq_headers rq_body buffer op_transport destination].
    rewrite decide_False by done. by rewrite Hh.
Qed.

Lemma prepare_response_again {Tp} (m m' : OutgoingResponse Tp) bytes :
  prepare_response m = Ret (m', bytes) -> bytes <> [] -> prepare_response m' = Ret (m', bytes).
Proof.
  unfold prepare_response. intros H Hb. destruct (decide (buffer (os_parts m) = [])) as [E|E].
  - apply exec_bind_Ret_inv in H as (b & _ & [= <- <-]). cbn. by rewrite decide_False.
  - injection H as <- <-. by rewrite decide_False.
Qed.

(** A request with well-formed headers can be sent; what is added are the user
    agent and the content length. *)
Lemma prepare_request_total {Uri Tp} ua (pu : Uri -> str) (m : OutgoingRequest Uri Tp) :
  headers_wf (rq_headers (oq_msg m)) -> buffer (oq_parts m) = [] ->
  exists m' bytes, prepare_request ua pu m = Ret (m', bytes) /\ bytes <> [] /\
    prepare_request ua pu m' = Ret (m', bytes) /\
    rq_line (oq_msg m') = rq_line (oq_msg m) /\ rq_body (oq_msg m') = rq_body (oq_msg m) /\
    destination (oq_parts m') = destination (oq_parts m) /\
    op_transport (oq_parts m') = op_transport (oq_parts m) /\
    headers_wf (rq_headers (oq_msg m')) /\
    forall n, parsed_name n -> canonical n <> Name.UserAgent -> canonical n <> Name.ContentLength ->
      all_values n (rq_headers (oq_msg m')) = all_values n (rq_headers (oq_msg m)).
Proof.
  intros Hwf Hb. set (h := match ua with
    | Some u => if Headers.contains Name.UserAgent (rq_headers (oq_msg m)) then rq_headers (oq_msg m)
                else Headers.insert Name.UserAgent u (rq_headers (oq_msg m))
    | None => rq_headers (oq_msg m) end).
  assert (headers_wf h /\ forall n, parsed_name n -> canonical n <> Name.UserAgent ->
    all_values n h = all_values n (rq_headers (oq_msg m))) as [Hwh Hvh].
  { unfold h. destruct ua as [u|]; [|done]. destruct (Headers.contains _ _); [done|].
    destruct (insert_spec Name.UserAgent u _ _ Hwf I (or_introl eq_refl)) as [Hw Hv]. split; [done|].
    intros n Hn Hne. rewrite Hv by done. by rewrite decide_False by (cbn; congruence). }
  destruct (insert_spec Name.ContentLength (print_uint (Z.of_nat (length (rq_body (oq_msg m))))) h _ Hwh I
    (or_introl eq_refl)) as [Hwl Hvl]. fold (with_content_length h (rq_body (oq_msg m))) in Hwl, Hvl.
  assert (exists m' bytes, prepare_request ua pu m = Ret (m', bytes) /\ bytes <> [] /\
    rq_headers (oq_msg m') = with_content_length h (rq_body (oq_msg m)) /\
    rq_line (oq_msg m') = rq_line (oq_msg m) /\ rq_body (oq_msg m') = rq_body (oq_msg m) /\
    destination (oq_parts m') = destination (oq_parts m) /\
    op_transport (oq_parts m') = op_transport (oq_parts m)) as (m' & bytes & Hp & Hne & Hh & ?).
  { unfold prepare_request. fold h. rewrite decide_True by done.
    erewrite print_message_head by (by apply iter_spec). cbn [mbind exec_bind].
    eexists _, _. split; [reflexivity|]. split; [|done]. intros Hn. apply (f_equal length) in Hn. revert Hn.
    rewrite head_of_cons, !length_app. cbn. lia. }
  exists m', bytes. split; [done|]. split; [done|]. split; [by apply (prepare_request_again ua pu m)|].
  rewrite Hh. repeat split; try tauto; try apply Hwl. intros n Hn Hu Hc. rewrite Hvl by done.
  rewrite decide_False by (cbn; congruence). by apply Hvh.
Qed.

(** C27: A response that is sent arrives: the bytes the endpoint makes of a
    response (with a well-formed container of printable headers that has no
    content length yet) are kept, so that sending it again sends the same
    bytes; and the decoder of a stream that reads them, whatever follows,
    gives a response with the same first line, every header with the same
    values in the same order, the content length of the body, and the body,
    and leaves what follows. *)
Theorem response_arrives {Uri Tp} (prq : str -> option (RequestLine Uri)) ua
    (m : OutgoingResponse Tp) rest `{ML : MemchrLaws} :
  let h := rs_headers (os_msg m) in
  let line := rs_line (os_msg m) in
  let body := rs_body (os_msg m) in
  buffer (os_parts m) = [] ->
  headers_wf h -> printable h -> all_values Name.ContentLength h = [] ->
  status_ok line -> (Z.of_nat (length body) <= 65535)%Z ->
  exists m' bytes h', prepare_response m = Ret (m', bytes) /\
    prepare_response m' = Ret (m', bytes) /\
    destination (os_parts m') = destination (os_parts m) /\
    ((Z.of_nat (length (bytes ++ rest)) <= 65535)%Z ->
      decode (parse_message_line prq) (parse_header_line ua) 0 (bytes ++ rest) =
        Ret (Ok (Some (DecodedItem {| dm_line := ResponseL line; dm_headers := h'; dm_body := body;
                                      dm_buffer := bytes |})), 0, rest)) /\
    headers_wf h' /\
    forall n, parsed_name n -> all_values n h' =
      all_values n h ++ if decide (canonical n = Name.ContentLength) then [print_uint (Z.of_nat (length body))] else [].
Proof.
  intros h line body Hb Hwf Hp Ha Hst Hlen. destruct (status_line_ok line Hst) as (Hok & Hu & Hv & Hs).
  destruct (message_arrives (parse_message_line prq) ua (print_status_line line) (ResponseL line) h body rest)
    as (bytes & h' & Hpm & Hne & Hd & Hrest); try done.
  { unfold parse_message_line. by rewrite parse_status_line_print. }
  eexists _, bytes, h'. split; [|split; [|split; [|split; [exact Hd|exact Hrest]]]].
  - unfold prepare_response. rewrite decide_True by done. fold h line body. rewrite Hpm. reflexivity.
  - unfold prepare_response. by rewrite decide_False by done.
  - done.
Qed.

Definition sample_response : OutgoingResponse unit :=
  {| os_msg := {|
       rs_line := {| sl_code := StatusCode.OK; sl_reason := Some (lit "OK") |};
       rs_headers := Headers.insert Name.CallID (lit "a7@host") (Headers.insert Name.Via (lit "SIP/2.0/UDP host") Headers.new);
       rs_body := lit "v=0" |};
     os_parts := {| op_transport := tt; destination := V4 1 5060; buffer := [] |} |}.

Lemma response_arrives_witness :
  exists m' bytes, prepare_response sample_response = Ret (m', bytes) /\ prepare_response m' = Ret (m', bytes).
Proof.
  destruct (response_arrives (Uri := unit) (fun _ => None) (fun _ => false) sample_response [] (M := scan_memchr))
    as (m' & bytes & h' & H1 & H2 & _); [reflexivity| | |reflexivity| |apply Z.leb_le; reflexivity|].
  - split; cbn.
    + repeat (constructor; [done|]). constructor.
    + apply (bool_decide_unpack _). vm_compute. reflexivity.
  - intros e He. repeat (apply elem_of_cons in He as [->|He]); [..|by apply elem_of_nil in He].
    all: split; [split; [done|split; [done|by repeat constructor]]|].
    all: intros v ->%list_elem_of_singleton; split; [|done]; cbn; repeat constructor; done.
  - split; [done|]. split; [done|]. split; [|reflexivity]. split; [|done]. by repeat constructor.
  - eauto.
Defined.
