(* ===== verification/SipUri.v ===== *)
(** * Hosts, parameters and URIs
    (sip-types/src/host.rs, uri/params.rs, uri/sip.rs, uri/name_addr.rs, print.rs, method.rs, msg.rs)

    The parsers and printers of the parts SIP headers have in common, on the
    combinators of [SipParse]. The text of IPv6 addresses is the parameter
    [Ip6Text]. *)
From S2P Require Import Prelude Text StunAttr SipNames SipHeaders SipFraming SipMessages SipParse.

(** ** Printing contexts: print.rs *)
Inductive UriContext := ReqUri | InFromTo | InContact | InRouting.

Module PrintCtx.
Record t := { method : option Method.t; uri : option UriContext }.
Definition default : t := {| method := None; uri := None |}.
End PrintCtx.

(** ** The text of IP addresses *)

(** [Ipv4Addr]: [to_string] and [from_str] *)
Definition octet (ip : Z) (k : Z) : Z := ((ip / 2 ^ (8 * k)) mod 256)%Z.
Definition ip4_to_string (ip : Z) : str :=
  print_uint (octet ip 3) ++ [x2e] ++ print_uint (octet ip 2) ++ [x2e] ++
  print_uint (octet ip 1) ++ [x2e] ++ print_uint (octet ip 0).

Definition ip4_octet (s : str) : option Z :=
  if (forallb dec_digit s && bool_decide (length s <= 3) &&
      (bool_decide (length s = 1) || negb (bool_decide (head s = Some x30))))%bool
  then parse_uint 8 s else None.
Fixpoint split_byte (b : byte) (s : str) : list str :=
  match s with
  | [] => [[]]
  | c :: s =>
      if decide (c = b) then [] :: split_byte b s
      else match split_byte b s with
           | part :: parts => (c :: part) :: parts
           | [] => [[c]]
           end
  end.
Definition ip4_from_str (s : str) : option Z :=
  match split_byte x2e s with
  | [a; b; c; d] =>
      a ← ip4_octet a; b ← ip4_octet b; c ← ip4_octet c; d ← ip4_octet d;
      Some (a * 2 ^ 24 + b * 2 ^ 16 + c * 2 ^ 8 + d)%Z
  | _ => None
  end.

(** [Ipv6Addr]: [to_string] and [from_str], on 128-bit numbers *)
Class Ip6Text := { ip6_to_string : Z -> str; ip6_from_str : str -> option Z }.

Definition ip6_byte (c : str) : bool :=
  match c with
  | [b] => (in_range 48 57 b || in_range 65 70 b || in_range 97 102 b || bool_decide (b = x3a \/ b = x2e))%bool
  | _ => false
  end.

Class Ip6Laws (I : Ip6Text) : Prop := {
  ip6_read ip : uint 128 ip -> ip6_from_str (ip6_to_string ip) = Some ip;
  ip6_text ip : uint 128 ip -> ip6_to_string ip <> [] /\
    Forall (fun b => in_range 0 127 b = true /\ ip6_byte [b] = true) (ip6_to_string ip) }.

Section uri.
Context {N : Combinators} {U : Unicode} {P : Percent} {I6 : Ip6Text} {TNC : Nom}.

(** ** host.rs *)
Definition ip4_address : parser str :=
  recognize (tuple u8 (tuple (char_ x2e) (tuple u8 (tuple (char_ x2e) (tuple u8 (tuple (char_ x2e) u8)))))).
Definition ip6_address : parser str := take_while1 ip6_byte.
Definition ip6_reference : parser str := delimited (char_ x5b) ip6_address (char_ x5d).

Definition label_char (c : str) : bool :=
  match c with [b] => (alphanumeric b || bool_decide (b = x2d))%bool | _ => false end.
Definition label : parser str :=
  verify (take_while1 label_char)
    (fun l => negb (bool_decide (head l = Some x2d) || bool_decide (last l = Some x2d))).
Definition hostname : parser str :=
  recognize (tuple label (tuple (many0 (tuple (char_ x2e) label)) (opt (char_ x2e)))).

(** [Parse for Host], [Display] *)
Definition parse_host : parser Host :=
  alt (map_res ip6_reference (fun ip6 => IP6 <$> ip6_from_str ip6))
      (alt (map_res ip4_address (fun ip4 => IP4 <$> ip4_from_str ip4))
           (map hostname HostName)).
Definition print_host (h : Host) : str :=
  match h with
  | IP6 addr => lit "[" ++ ip6_to_string addr ++ lit "]"
  | IP4 addr => ip4_to_string addr
  | HostName name => name
  end.

Definition is_dec_digit (c : str) : bool := match c with [b] => dec_digit b | _ => false end.

(** [Parse for HostPort], [Print] *)
Definition parse_host_port : parser HostPort.t :=
  map_res (tuple parse_host (opt (preceded (tag (lit ":")) (take_while is_dec_digit))))
    (fun '(host, port) =>
       port ← match port with
              | None => Some None
              | Some port => Some <$> parse_uint 16 port
              end;
       Some {| HostPort.host := host; HostPort.port := port |}).
Definition print_host_port (ctx : PrintCtx.t) (h : HostPort.t) : str :=
  print_host (HostPort.host h) ++
  match HostPort.port h with
  | Some port =>
      match PrintCtx.uri ctx with Some InFromTo => [] | _ => lit ":" ++ print_uint port end
  | None => []
  end.

(** ** uri/params.rs *)
Record ParamsSpec := { FIRST_DELIMITER : str; DELIMITER : str; CHAR_SPEC : str -> bool }.
Definition header_char : str -> bool := alphanumeric_or (lit "[]/:+$-_.!~*'()").
Definition HPS : ParamsSpec := {| FIRST_DELIMITER := lit "?"; DELIMITER := lit "&"; CHAR_SPEC := header_char |}.
Definition param_char : str -> bool := alphanumeric_or (lit "%-_.!~*'()[]/:&+$`").
Definition CPS : ParamsSpec := {| FIRST_DELIMITER := lit ";"; DELIMITER := lit ";"; CHAR_SPEC := param_char |}.

(** [Param::do_parse], [write] *)
Definition do_parse (spec : str -> bool) : parser Params.Param :=
  map_res (ws (take_while spec) (opt (ws (tag (lit "=")) (alt parse_quoted (take_while spec)))))
    (fun '(name, value) =>
       name ← decode_utf8 name;
       value ← match value with
               | None => Some None
               | Some (_, value) => Some <$> decode_utf8 value
               end;
       Some {| Params.name := name; Params.value := value |}).
Definition write_param (set : byte -> bool) (p : Params.Param) : str :=
  match Params.value p with
  | None => percent_encode set (Params.name p)
  | Some value => percent_encode set (Params.name p) ++ lit "=" ++ percent_encode set value
  end.

(** [Params::parse]; [FilteredPrint], [Display] *)
Definition parse_params (s : ParamsSpec) : parser Params.t :=
  map (opt (map (ws3 (tag (FIRST_DELIMITER s)) (do_parse (CHAR_SPEC s))
                     (many0 (map (ws (tag (DELIMITER s)) (do_parse (CHAR_SPEC s))) snd)))
                (fun '(_, first, params) => first :: params)))
      (default Params.new).
Fixpoint print_params_from (s : ParamsSpec) (filter : str -> bool) (first : bool) (ps : Params.t) : str :=
  match ps with
  | [] => []
  | p :: ps =>
      if filter (Params.name p)
      then (if first then FIRST_DELIMITER s else DELIMITER s) ++
           write_param (encode_set (CHAR_SPEC s)) p ++ print_params_from s filter false ps
      else print_params_from s filter first ps
  end.
Definition filtered_print (s : ParamsSpec) (filter : str -> bool) (ps : Params.t) : str :=
  print_params_from s filter true ps.
Definition print_params (s : ParamsSpec) (ps : Params.t) : str := filtered_print s (fun _ => true) ps.

(** ** uri/sip.rs *)
Inductive SipUriUserPart :=
| EmptyUser
| User (user : str)
| UserPw (user password : str).

#[export] Instance SipUriUserPart_eq_dec : EqDecision SipUriUserPart.
Proof. solve_decision. Defined.
End uri.

Module SipUri.
Record t := {
  sips : bool;
  user_part : SipUriUserPart;
  host_port : HostPort.t;
  uri_params : Params.t;
  header_params : Params.t }.

Definition new (host_port : HostPort.t) : t :=
  {| sips := false; user_part := EmptyUser; host_port := host_port;
     uri_params := Params.new; header_params := Params.new |}.

(** [SipUri::set_user], [compare] *)
Definition set_user (user : str) (u : t) : t :=
  {| sips := sips u;
     user_part := match user_part u with
                  | EmptyUser | User _ => User user
                  | UserPw _ password => UserPw user password
                  end;
     host_port := host_port u; uri_params := uri_params u; header_params := header_params u |}.
Definition compare (u v : t) : bool :=
  (eqb (sips u) (sips v) && bool_decide (user_part u = user_part v) &&
   bool_decide (host_port u = host_port v))%bool.

Section sip_uri.
Context {N : Combinators} {U : Unicode} {P : Percent} {I6 : Ip6Text} {TNC : Nom}.

Definition user_char : str -> bool := alphanumeric_or (lit "-_.!~*'()%&=+$,;?/").
Definition password_char : str -> bool := alphanumeric_or (lit "-_.!~*'()%&=+$,").
Definition USER_SET : byte -> bool := encode_set user_char.

Definition one_of (names : list str) (n : str) : bool := bool_decide (n ∈ names).

(** [Print for SipUri] *)
Definition print (ctx : PrintCtx.t) (u : t) : str :=
  (if sips u then lit "sips:" else lit "sip:") ++
  match user_part u with
  | EmptyUser => []
  | User user => percent_encode USER_SET user ++ lit "@"
  | UserPw user password => percent_encode USER_SET user ++ lit ":" ++ password ++ lit "@"
  end ++
  print_host_port ctx (host_port u) ++
  match PrintCtx.uri ctx, PrintCtx.method ctx with
  | Some ReqUri, _ => print_params CPS (uri_params u)
  | Some InFromTo, _ =>
      filtered_print CPS (fun n => negb (one_of [lit "maddr"; lit "ttl"; lit "transport"; lit "lr"] n)) (uri_params u)
  | Some InContact, Some Method.REGISTER =>
      filtered_print CPS (fun n => negb (one_of [lit "lr"] n)) (uri_params u) ++
      print_params HPS (header_params u)
  | Some (InContact | InRouting), _ =>
      filtered_print CPS (fun n => negb (one_of [lit "ttl"] n)) (uri_params u)
  | _, _ => print_params CPS (uri_params u) ++ print_params HPS (header_params u)
  end.

(** [parse_scheme], [parse_user_pw], [user_part] *)
Definition tag_nc (t : str) : parser unit := fun i => r ← tag_no_case t i; Some (r, tt).
Definition parse_scheme : parser bool :=
  alt (map (tag_nc (lit "sip:")) (fun _ => false)) (map (tag_nc (lit "sips:")) (fun _ => true)).
Definition parse_user_pw : parser (option (str * option str)) :=
  opt (terminated
         (tuple (take_while user_char) (opt (preceded (tag (lit ":")) (take_while password_char))))
         (tag (lit "@"))).
Definition user_part_of (user_pw : option (str * option str)) : option SipUriUserPart :=
  match user_pw with
  | Some (user, password) =>
      user ← decode_utf8 user;
      Some (match password with Some pw => UserPw user pw | None => User user end)
  | None => Some EmptyUser
  end.

(** [Parse for SipUri], [parse_no_params] *)
Definition parse : parser t :=
  map_res (tuple parse_scheme (tuple parse_user_pw (tuple parse_host_port
            (tuple (parse_params CPS) (parse_params HPS)))))
    (fun '(sips, (user_pw, (host_port, (uri_params, header_params)))) =>
       user_part ← user_part_of user_pw;
       Some {| sips := sips; user_part := user_part; host_port := host_port;
               uri_params := uri_params; header_params := header_params |}).
Definition parse_no_params : parser t :=
  map_res (tuple parse_scheme (tuple parse_user_pw parse_host_port))
    (fun '(sips, (user_pw, host_port)) =>
       user_part ← user_part_of user_pw;
       Some {| sips := sips; user_part := user_part; host_port := host_port;
               uri_params := Params.new; header_params := Params.new |}).
End sip_uri.
End SipUri.

(** ** uri/name_addr.rs *)
Module NameAddr.
Record t := { name : option str; uri : SipUri.t }.

Section name_addr.
Context {N : Combinators} {U : Unicode} {P : Percent} {I6 : Ip6Text} {TNC : Nom}.

Definition display (c : str) : bool := negb (bool_decide (c ∈ [lit ":"; [x0d]; [x0a]; lit "<"])).

(** [Parse for NameAddr] and [parse_no_params], with the parser of a URI
    without brackets *)
Definition parse_with (plain : parser SipUri.t) : parser t :=
  map (alt (tuple (opt (alt parse_quoted (take_while1 display)))
                  (tuple (take_while whitespace) (delimited (tag (lit "<")) SipUri.parse (tag (lit ">")))))
           (map plain (fun uri => (None, ([], uri)))))
    (fun '(name, (_, uri)) => {| name := trim <$> name; uri := uri |}).
Definition parse : parser t := parse_with SipUri.parse.
Definition parse_no_params : parser t := parse_with SipUri.parse_no_params.

(** [Print for NameAddr] *)
Definition print (ctx : PrintCtx.t) (n : t) : str :=
  match name n with Some name => [x22] ++ name ++ [x22] | None => [] end ++
  lit "<" ++ SipUri.print ctx (uri n) ++ lit ">".
End name_addr.
End NameAddr.

(** ** Methods and request lines: method.rs, msg.rs *)
Section lines.
Context {N : Combinators} {U : Unicode} {P : Percent} {I6 : Ip6Text} {TNC : Nom}.

(** [Parse for Method], [Parse for RequestLine], [Print] *)
Definition parse_method : parser Method.t := map (take_while1 token) Method.from_parse.
Definition parse_request_line : parser (RequestLine SipUri.t) :=
  map (separated_pair parse_method (take_while whitespace)
         (terminated SipUri.parse (tuple (take_while whitespace) (tag (lit "SIP/2.0")))))
    (fun '(method, uri) => {| rl_method := method; rl_uri := uri |}).
Definition print_request_line (ctx : PrintCtx.t) (l : RequestLine SipUri.t) : str :=
  Method.display (rl_method l) ++ lit " " ++ SipUri.print ctx (rl_uri l) ++ lit " SIP/2.0".
End lines.
