(* ===== verification/SipUriProps.v ===== *)
(** * Parsing undoes printing, on hosts, parameters and URIs
    (sip-types/src/host.rs, uri/params.rs, uri/sip.rs, uri/name_addr.rs, msg.rs)

    For what can be printed, the text that is printed is read as what the
    context of printing kept; and what is printed but read differently. *)
From S2P Require Import Prelude Text StunAttr SipNames SipHeaders SipFraming SipMessages SipParse SipUri.

Section uri_props.
Context `{NL : CombinatorLaws} {U : Unicode} `{PL : PercentLaws} `{IL : Ip6Laws} `{TNL : NomLaws}.

(** ** Hosts *)

Definition octet_ok (z : Z) : bool :=
  bool_decide (ip4_octet (print_uint z) = Some z) &&
  forallb dec_digit (print_uint z) && bool_decide (parse_uint 8 (print_uint z) = Some z).

Lemma print_octet z : (0 <= z < 256)%Z -> octet_ok z = true.
Proof.
  intros Hz. assert (forallb octet_ok (seqZ 0 256) = true) as H by (vm_compute; reflexivity).
  rewrite forallb_forall in H. apply H, list_elem_of_In, elem_of_seqZ. lia.
Qed.

Lemma octet_range ip k : (0 <= octet ip k < 256)%Z.
Proof. unfold octet. apply Z.mod_pos_bound. lia. Qed.

Lemma octet_digits ip k : Forall (fun b => dec_digit b = true) (print_uint (octet ip k)).
Proof. apply print_uint_digits, octet_range. Qed.

Lemma split_byte_part b s r : b ∉ s -> split_byte b (s ++ b :: r) = s :: split_byte b r.
Proof.
  intros Hs. induction s as [|c s IH]; cbn [app split_byte]; [by rewrite decide_True|].
  rewrite decide_False by (intros ->; destruct Hs; left). rewrite IH; [done|]. contradict Hs. by right.
Qed.

Lemma split_byte_last b s : b ∉ s -> split_byte b s = [s].
Proof.
  intros Hs. induction s as [|c s IH]; [done|]. cbn [split_byte].
  rewrite decide_False by (intros ->; destruct Hs; left). rewrite IH; [done|]. contradict Hs. by right.
Qed.

Lemma digits_no_byte b s : dec_digit b = false -> Forall (fun b => dec_digit b = true) s -> b ∉ s.
Proof. intros Hb Hs Hin. rewrite Forall_forall in Hs. apply Hs in Hin. congruence. Qed.

Lemma octets_sum ip : uint 32 ip ->
  (octet ip 3 * 2 ^ 24 + octet ip 2 * 2 ^ 16 + octet ip 1 * 2 ^ 8 + octet ip 0)%Z = ip.
Proof.
  intros [H0 H1]. unfold octet. change (2 ^ (8 * 3))%Z with 16777216%Z. change (2 ^ (8 * 2))%Z with 65536%Z.
  change (2 ^ (8 * 1))%Z with 256%Z. change (2 ^ (8 * 0))%Z with 1%Z. change (2 ^ 24)%Z with 16777216%Z.
  change (2 ^ 16)%Z with 65536%Z. change (2 ^ 8)%Z with 256%Z. change (2 ^ 32)%Z with 4294967296%Z in H1.
  Z.div_mod_to_equations. lia.
Qed.

Lemma ip4_read ip : uint 32 ip -> ip4_from_str (ip4_to_string ip) = Some ip.
Proof.
  intros Hip. unfold ip4_from_str, ip4_to_string.
  assert (forall k, x2e ∉ print_uint (octet ip k)) as Hdot.
  { intros k. apply digits_no_byte; [done|apply octet_digits]. }
  cbn [app]. rewrite !split_byte_part, split_byte_last by apply Hdot.
  assert (forall k, ip4_octet (print_uint (octet ip k)) = Some (octet ip k)) as Hk.
  { intros k. pose proof (print_octet _ (octet_range ip k)) as H. unfold octet_ok in H.
    apply andb_true_iff in H as [H _]. apply andb_true_iff in H as [H _]. by apply bool_decide_eq_true in H. }
  rewrite !Hk. cbn [mbind option_bind]. by rewrite octets_sum.
Qed.

(** Nothing that goes on a number follows. *)
Definition no_digit (r : str) : Prop := match r with [] => True | b :: _ => dec_digit b = false end.

Lemma u8_reads z r : (0 <= z < 256)%Z -> no_digit r -> reads u8 (print_uint z) z r.
Proof.
  intros Hz Hr. unfold reads. rewrite u8_law, span_stop; [|apply print_uint_digits; lia|done].
  pose proof (print_octet z Hz) as H. unfold octet_ok in H. apply andb_true_iff in H as [_ H].
  apply bool_decide_eq_true in H. by rewrite H.
Qed.

Lemma ip4_address_reads ip r : no_digit r -> reads ip4_address (ip4_to_string ip) (ip4_to_string ip) r.
Proof.
  intros Hr. unfold ip4_address, ip4_to_string. eapply recognize_reads.
  repeat (eapply tuple_reads; [first [apply u8_reads; [apply octet_range|done] | apply char_reads]|]).
  apply u8_reads; [apply octet_range|done].
Qed.

(** Text without a digit in front is no address, nor is a number that no dot
    follows. *)
Lemma ip4_address_nothing s b r : Forall (fun b => dec_digit b = true) s -> dec_digit b = false -> b <> x2e ->
  ip4_address (s ++ b :: r) = None.
Proof.
  intros Hs Hb Hdot. unfold ip4_address. rewrite recognize_law, tuple_law, u8_law, span_stop by done.
  destruct (parse_uint 8 s); [|done]. cbn. rewrite tuple_law, char_law. by rewrite decide_False.
Qed.

(** Labels of a host name *)
Definition label_ok (l : str) : Prop :=
  l <> [] /\ all_of label_char l /\ head l <> Some x2d /\ last l <> Some x2d.

(** What can follow a host *)
Definition host_end (r : str) : Prop :=
  stops label_char r /\ match r with [] => True | b :: _ => b <> x2e end.

Lemma label_reads l r : label_ok l -> stops label_char r -> reads label l l r.
Proof.
  intros (Hne & Hl & Hh & Hla) Hr. unfold label. apply verify_reads; [by apply take_while1_reads|].
  rewrite !bool_decide_eq_false_2 by done. done.
Qed.

Lemma label_nothing r : stops label_char r -> label r = None.
Proof. intros Hr. unfold label. rewrite verify_law, take_while1_nothing by done. done. Qed.

Lemma dotted_reads ls r : Forall label_ok ls -> host_end r ->
  reads (many0 (tuple (char_ x2e) label)) (concat (cons x2e <$> ls)) ((fun l => (x2e, l)) <$> ls) r /\
  reads (many0 (tuple (char_ x2e) label)) (concat (cons x2e <$> ls)) ((fun l => (x2e, l)) <$> ls) (x2e :: r).
Proof.
  intros Hls [Hr Hdot]. induction Hls as [|l ls Hl _ [IH1 IH2]]; cbn [fmap list_fmap concat].
  - split; apply many0_reads_nil; rewrite tuple_law, char_law.
    + destruct r as [|b r]; [done|]. by rewrite decide_False.
    + rewrite decide_True by done. cbn. by rewrite label_nothing.
  - assert (stops label_char (concat (cons x2e <$> ls) ++ r) /\ stops label_char (concat (cons x2e <$> ls) ++ x2e :: r))
      as [Hs1 Hs2] by (destruct ls; done).
    split; (apply many0_reads_cons; [done| |done]); change (x2e :: l) with ([x2e] ++ l);
      apply tuple_reads; try apply char_reads; by apply label_reads.
Qed.

(** A host name that can be printed: labels between dots, the first not a
    number, and possibly a dot at the end. *)
Definition host_name_ok (n : str) : Prop :=
  exists first rest (dot : bool),
    n = first ++ concat (cons x2e <$> rest) ++ (if dot then [x2e] else []) /\
    label_ok first /\ Forall label_ok rest /\ Exists (fun b => dec_digit b = false) first.

Lemma hostname_reads n r : host_name_ok n -> host_end r -> reads hostname n n r.
Proof.
  intros (first & rest & dot & -> & Hf & Hrest & _) Hr. unfold hostname.
  assert (stops label_char (concat (cons x2e <$> rest) ++ (if dot then [x2e] else []) ++ r)) as Hs
    by (destruct rest, dot, Hr; done).
  destruct (dotted_reads rest r Hrest Hr) as [H1 H2].
  destruct dot; (eapply recognize_reads, tuple_reads; [apply label_reads; [done|by rewrite <-app_assoc]|]);
    (eapply tuple_reads; [done|]).
  - apply opt_reads, char_reads.
  - apply opt_nothing. rewrite char_law. destruct r as [|b r]; [done|]. destruct Hr. by rewrite decide_False.
Qed.

(** Where the digits in front of a text end *)
Lemma digits_prefix s : Exists (fun b => dec_digit b = false) s ->
  exists s1 b s2, s = s1 ++ b :: s2 /\ Forall (fun b => dec_digit b = true) s1 /\ dec_digit b = false.
Proof.
  induction 1 as [b s Hb|b s _ (s1 & c & s2 & -> & Hs1 & Hc)].
  - exists [], b, s. by repeat split.
  - destruct (dec_digit b) eqn:Hb; [|by exists [], b, (s1 ++ c :: s2); repeat split].
    exists (b :: s1), c, s2. repeat split; [|done]. by constructor.
Qed.

Definition host_ok (h : Host) : Prop :=
  match h with IP6 ip => uint 128 ip | IP4 ip => uint 32 ip | HostName n => host_name_ok n end.

Lemma char_nothing b i : head i <> Some b -> char_ b i = None.
Proof. intros H. rewrite char_law. destruct i as [|c i]; [done|]. rewrite decide_False; [done|]. by intros ->. Qed.

Lemma ip6_reference_nothing i : head i <> Some x5b -> ip6_reference i = None.
Proof. intros H. apply delimited_nothing. by apply char_nothing. Qed.

Lemma host_name_front n r : host_name_ok n ->
  exists s1 b s2, n ++ r = s1 ++ b :: s2 /\ Forall (fun b => dec_digit b = true) s1 /\ dec_digit b = false /\
    b <> x2e /\ head (n ++ r) <> Some x5b.
Proof.
  intros (first & rest & dot & -> & (Hne & Hf & _) & _ & Hd). apply digits_prefix in Hd as (s1 & b & s2 & -> & Hs1 & Hb).
  exists s1, b, (s2 ++ concat (cons x2e <$> rest) ++ (if dot then [x2e] else []) ++ r).
  rewrite <-!app_assoc. cbn [app]. repeat split; try done.
  - intros ->. unfold all_of in Hf. apply Forall_app in Hf as [_ Hf]. inversion Hf as [|? ? [_ Hx] _]; subst. done.
  - unfold all_of in Hf. destruct s1 as [|c s1]; cbn.
    + intros [= ->]. inversion Hf as [|? ? [_ Hx] _]; subst. done.
    + intros [= ->]. inversion Hf as [|? ? [_ Hx] _]; subst. done.
Qed.

Lemma host_end_digit r : host_end r -> no_digit r.
Proof.
  intros [Hs _]. destruct r as [|b r]; [done|]. unfold no_digit. destruct (dec_digit b) eqn:Hb; [|done].
  unfold stops in Hs. assert (in_range 0 127 b = true) as Ha by (unfold dec_digit in Hb; revert Hb; apply in_range_weaken; lia).
  rewrite char_len_ascii in Hs by done. cbn in Hs. unfold alphanumeric in Hs. unfold dec_digit in Hb. by rewrite Hb in Hs.
Qed.

Lemma host_reads h r : host_ok h -> host_end r -> reads parse_host (print_host h) h r.
Proof.
  intros Hh Hr. unfold parse_host. destruct h as [ip|ip|n]; cbn [host_ok print_host] in *.
  - apply alt_reads_l. eapply map_res_reads.
    + unfold ip6_reference. eapply delimited_reads; [apply char_reads| |apply char_reads].
      destruct (ip6_text ip Hh). by apply take_while1_reads.
    + by rewrite ip6_read.
  - pose proof (octet_digits ip 3) as Hd.
    assert (print_uint (octet ip 3) <> []) as Hne by (apply print_uint_nonempty, octet_range).
    apply alt_reads_r.
    + apply map_res_nothing, ip6_reference_nothing. unfold ip4_to_string.
      destruct (print_uint (octet ip 3)) as [|b s]; [done|]. inversion Hd; subst. cbn. by intros [= ->].
    + apply alt_reads_l. eapply map_res_reads; [by apply ip4_address_reads, host_end_digit|]. by rewrite ip4_read.
  - destruct (host_name_front n r Hh) as (s1 & b & s2 & E & Hs1 & Hb & Hdot & H6).
    apply alt_reads_r; [by apply map_res_nothing, ip6_reference_nothing|].
    apply alt_reads_r; [apply map_res_nothing; rewrite E; by apply ip4_address_nothing|].
    by apply map_reads, hostname_reads.
Qed.

(** ** Hosts with a port *)

(** What follows in a URI: nothing, a delimiter, or what comes after the URI *)
Definition delimited_by (r : str) : Prop := match r with [] => True | b :: _ => b ∈ lit ";?&> " end.

Lemma delimited_stops (p : str -> bool) r :
  Forall (fun b => p [b] = false) (lit ";?&> ") -> delimited_by r -> stops p r.
Proof.
  intros Hp Hr. destruct r as [|b r]; [done|]. unfold stops, delimited_by in *.
  assert (char_len b = 1) as ->.
  { apply char_len_ascii. assert (Forall (fun b => in_range 0 127 b = true) (lit ";?&> ")) as Ha by (repeat constructor).
    rewrite Forall_forall in Ha. by apply Ha. }
  cbn. rewrite Forall_forall in Hp. by apply Hp.
Qed.

Lemma not_delimiter b r : bool_decide (b ∈ lit ";?&> ") = false -> ~ delimited_by (b :: r).
Proof. apply bool_decide_eq_false_1. Qed.

Definition host_port_ok (h : HostPort.t) : Prop :=
  host_ok (HostPort.host h) /\ match HostPort.port h with Some p => uint 16 p | None => True end.

(** What a context keeps *)
Definition keep_host_port (ctx : PrintCtx.t) (h : HostPort.t) : HostPort.t :=
  match PrintCtx.uri ctx with
  | Some InFromTo => {| HostPort.host := HostPort.host h; HostPort.port := None |}
  | _ => h
  end.

Lemma delimited_host r : delimited_by r -> host_end r.
Proof.
  intros Hr. split; [apply delimited_stops; [repeat constructor|done]|].
  destruct r as [|b r]; [done|]. intros ->. by apply not_delimiter in Hr.
Qed.

Lemma digits_all_of p z : (forall b, dec_digit b = true -> p [b] = true) -> (0 <= z)%Z -> all_of p (print_uint z).
Proof.
  intros Hp Hz. eapply Forall_impl; [by apply print_uint_digits|]. cbn. intros b Hb. split; [|by apply Hp].
  revert Hb. apply in_range_weaken; lia.
Qed.

Lemma host_port_reads ctx h r : host_port_ok h -> delimited_by r ->
  reads parse_host_port (print_host_port ctx h) (keep_host_port ctx h) r.
Proof.
  intros [Hh Hp] Hr. unfold parse_host_port, print_host_port, keep_host_port.
  destruct h as [h port]. cbn [HostPort.host HostPort.port] in *.
  assert (forall h, host_ok h -> reads (map_res (tuple parse_host (opt (preceded (tag (lit ":")) (take_while is_dec_digit))))
    (fun '(host, port) => port ← match port with None => Some None | Some port => Some <$> parse_uint 16 port end;
       Some {| HostPort.host := host; HostPort.port := port |}))
    (print_host h ++ []) {| HostPort.host := h; HostPort.port := None |} r) as Hnone.
  { intros h' Hh'. eapply map_res_reads.
    - eapply tuple_reads; [apply host_reads; [done|by apply delimited_host]|].
      apply opt_nothing. rewrite preceded_law, tag_nothing; [done|].
      destruct r as [|b r]; [done|]. apply bool_decide_eq_false_2. cbn. intros [= ->].
      by apply not_delimiter in Hr.
    - done. }
  destruct port as [port|].
  - assert (PrintCtx.uri ctx = Some InFromTo \/ match PrintCtx.uri ctx with Some InFromTo => [] | _ => lit ":" ++ print_uint port end
      = lit ":" ++ print_uint port /\ match PrintCtx.uri ctx with
        | Some InFromTo => {| HostPort.host := h; HostPort.port := None |}
        | _ => {| HostPort.host := h; HostPort.port := Some port |} end = {| HostPort.host := h; HostPort.port := Some port |})
      as [->|[-> ->]] by (destruct (PrintCtx.uri ctx) as [[]|]; auto).
    + by apply Hnone.
    + eapply map_res_reads.
      * eapply tuple_reads; [apply host_reads; [done|done]|].
        apply opt_reads. eapply preceded_reads; [apply tag_reads|].
        apply take_while_reads; [|apply delimited_stops; [repeat constructor|done]].
        apply digits_all_of; [done|apply Hp].
      * cbv beta iota. rewrite parse_print_uint by (lia || done). done.
  - assert (match PrintCtx.uri ctx with
        | Some InFromTo => {| HostPort.host := h; HostPort.port := None |}
        | _ => {| HostPort.host := h; HostPort.port := None |} end = {| HostPort.host := h; HostPort.port := None |}) as ->
      by (by destruct (PrintCtx.uri ctx) as [[]|]).
    by apply Hnone.
Qed.

(** ** Parameters *)

(** A text that can be printed as a name or a value: what is printed for it
    belongs to the class, and a literal percent sign is encoded or absent. *)
Definition param_text (f : str -> bool) (s : str) : Prop :=
  s <> [] /\ utf8_valid s = true /\ all_of f (percent_encode (encode_set f) s) /\
  (encode_set f x25 = true \/ x25 ∉ s).
Definition param_ok (f : str -> bool) (p : Params.Param) : Prop :=
  param_text f (Params.name p) /\ match Params.value p with Some v => param_text f v | None => True end.

(** The delimiters are single characters that the class does not have. *)
Record spec_ok (s : ParamsSpec) (first next : byte) : Prop := {
  spec_first : FIRST_DELIMITER s = [first];
  spec_next : DELIMITER s = [next];
  spec_delimiters : is_ascii_whitespace first = false /\ is_ascii_whitespace next = false /\
    first <> x3d /\ next <> x3d;
  spec_stops : in_range 0 127 next = true /\ CHAR_SPEC s [next] = false;
  spec_equals : CHAR_SPEC s [x3d] = false;
  spec_class b : CHAR_SPEC s [b] = true -> is_ascii_whitespace b = false /\ b <> x22 }.

Lemma cps_ok : spec_ok CPS x3b x3b.
Proof. split; try done. intros b Hb. split; [by destruct b|by intros ->]. Qed.
Lemma hps_ok : spec_ok HPS x3f x26.
Proof. split; try done. intros b Hb. split; [by destruct b|by intros ->]. Qed.

Lemma encode_nonempty set s : s <> [] -> percent_encode set s <> [].
Proof.
  intros Hs. rewrite percent_encode_law. destruct s as [|b s]; [done|]. cbn. unfold encode_byte.
  by destruct (set b || negb (in_range 0 127 b))%bool.
Qed.

Lemma skip_ws_idemp r : skip_ws (skip_ws r) = skip_ws r.
Proof.
  unfold skip_ws. induction r as [|b r IH]; [done|]. cbn [span].
  destruct (is_ascii_whitespace b) eqn:Hb; [by destruct (span _ r)|]. cbn [snd span]. by rewrite Hb.
Qed.

Lemma skip_ws_length r : (length (skip_ws r) <= length r)%nat.
Proof.
  unfold skip_ws. induction r as [|b r IH]; [done|]. cbn [span].
  destruct (is_ascii_whitespace b); [|done]. destruct (span _ r). cbn in *. lia.
Qed.

Lemma take_ws_skip i : exists w, take_while ascii_whitespace i = Some (skip_ws i, w).
Proof. rewrite take_ws. by eexists. Qed.

Lemma skip_ws_text f s r : s <> [] -> all_of f s -> (forall b, f [b] = true -> is_ascii_whitespace b = false) ->
  skip_ws (s ++ r) = s ++ r.
Proof.
  intros Hne Hs Hf. destruct s as [|b s]; [done|]. inversion Hs as [|? ? [_ Hb] _]; subst. cbn [app].
  by apply skip_ws_visible, Hf.
Qed.

(** [ws] on text after white space *)
Lemma ws_skip {A B} (p : parser A) (q : parser B) i :
  ws p q i = '(i, x) ← p (skip_ws i); '(i, y) ← q (skip_ws i); Some (i, (x, y)).
Proof.
  unfold ws. destruct (take_ws_skip i) as [w ->]. cbn. destruct (p (skip_ws i)) as [[i' x]|]; [|done]. cbn.
  by destruct (take_ws_skip i') as [w' ->].
Qed.

Lemma ws3_skip {A B C} (p : parser A) (q : parser B) (t : parser C) i :
  ws3 p q t i = '(i, x) ← p (skip_ws i); '(i, y) ← q (skip_ws i); '(i, z) ← t (skip_ws i); Some (i, (x, y, z)).
Proof.
  unfold ws3. destruct (take_ws_skip i) as [w ->]. cbn. destruct (p (skip_ws i)) as [[i' x]|]; [|done]. cbn.
  destruct (take_ws_skip i') as [w' ->]. cbn. destruct (q (skip_ws i')) as [[i'' y]|]; [|done]. cbn.
  by destruct (take_ws_skip i'') as [w'' ->].
Qed.

(** What comes after a list of parameters: nothing that goes on the last one
    or begins another, behind white space either. *)
Definition after_params (s : ParamsSpec) (r : str) : Prop :=
  stops (CHAR_SPEC s) r /\
  match skip_ws r with
  | [] => True
  | b :: _ => [b] <> FIRST_DELIMITER s /\ [b] <> DELIMITER s /\ b <> x3d
  end.

Section params.
Context (s : ParamsSpec) (first next : byte) (Hs : spec_ok s first next).
#[local] Abbreviation spec := (CHAR_SPEC s).
#[local] Abbreviation encoded := (percent_encode (encode_set spec)).

Lemma skip_text t r : param_text spec t -> skip_ws (encoded t ++ r) = encoded t ++ r.
Proof.
  intros (Hne & _ & Ht & _). apply (skip_ws_text spec); [by apply encode_nonempty|done|].
  intros b Hb. by apply (spec_class _ _ _ Hs).
Qed.

(** A parameter is read; a name without a value takes the white space behind it. *)
Lemma do_parse_reads p r : param_ok spec p -> stops spec r ->
  match skip_ws r with [] => True | b :: _ => b <> x3d end ->
  exists r', do_parse spec (write_param (encode_set spec) p ++ r) = Some (r', p) /\ (r' = r \/ r' = skip_ws r).
Proof.
  destruct p as [n v]. intros [Hn Hv] Hr Heq. cbn [Params.name Params.value] in *.
  unfold do_parse, write_param. cbn [Params.name Params.value]. rewrite map_res_law, ws_skip.
  pose proof Hn as (_ & Hnu & Hna & Hnp). destruct v as [v|].
  - exists r. split; [|by left]. pose proof Hv as (Hvne & Hvu & Hva & Hvp).
    rewrite <-!app_assoc, skip_text by done.
    rewrite take_while_reads; [|done|].
    2:{ cbn. apply (spec_equals _ _ _ Hs). }
    cbn [mbind option_bind].
    assert (forall i, skip_ws (lit "=" ++ i) = lit "=" ++ i) as Heqs by (intros i; by apply skip_ws_visible).
    rewrite Heqs, opt_law, ws_skip, Heqs, tag_reads. cbn [mbind option_bind]. rewrite skip_text by done.
    rewrite alt_reads_r with (s := encoded v) (x := encoded v) (r := r).
    + cbn [mbind option_bind]. by rewrite !decode_utf8_encode by done.
    + pose proof (encode_nonempty (encode_set spec) v Hvne) as Hne. destruct (encoded v) as [|b t]; [done|].
      inversion Hva as [|? ? [_ Hb] _]; subst. apply parse_quoted_nothing. by apply (spec_class _ _ _ Hs).
    + by apply take_while_reads.
  - exists (skip_ws r). split; [|by right]. rewrite skip_text by done.
    rewrite take_while_reads by done. cbn [mbind option_bind].
    rewrite opt_law, ws_skip, skip_ws_idemp.
    rewrite tag_nothing; [|].
    + cbn [mbind option_bind]. by rewrite decode_utf8_encode by done.
    + apply bool_decide_eq_false_2. cbn. destruct (skip_ws r) as [|b t]; [done|]. by intros [= ->].
Qed.

#[local] Abbreviation next_param := (map (ws (tag (DELIMITER s)) (do_parse spec)) snd).
#[local] Abbreviation print_rest := (print_params_from s (fun _ => true) false).

Lemma next_param_nothing r : match skip_ws r with [] => True | b :: _ => [b] <> DELIMITER s end ->
  next_param r = None.
Proof.
  intros Hr. rewrite map_law, ws_skip, tag_nothing; [done|].
  apply bool_decide_eq_false_2. rewrite (spec_next _ _ _ Hs) in *. destruct (skip_ws r) as [|b t]; [done|].
  cbn. congruence.
Qed.

Lemma next_param_end r t : after_params s r -> t = r \/ t = skip_ws r -> next_param t = None.
Proof.
  intros [_ Hr] Ht. apply next_param_nothing. destruct Ht as [->| ->]; rewrite ?skip_ws_idemp;
    destruct (skip_ws r); naive_solver.
Qed.

Lemma skip_param p i : param_ok spec p ->
  skip_ws (write_param (encode_set spec) p ++ i) = write_param (encode_set spec) p ++ i.
Proof.
  destruct p as [n v]. intros [Hn Hv]. unfold write_param. cbn [Params.name Params.value] in *.
  destruct v; rewrite <-?app_assoc; by apply skip_text.
Qed.

(** A parameter behind its delimiter, in front of others *)
Lemma item_reads dl d p ps r : dl = [d] -> is_ascii_whitespace d = false -> param_ok spec p -> after_params s r ->
  exists r', ws (tag dl) (do_parse spec) (dl ++ write_param (encode_set spec) p ++ print_rest ps ++ r) =
      Some (r', (dl, p)) /\
    (ps <> [] -> r' = print_rest ps ++ r) /\ (ps = [] -> r' = r \/ r' = skip_ws r) /\
    length r' <= length (print_rest ps ++ r).
Proof.
  intros Hdl Hd Hp [Hr Hafter]. set (rest := print_rest ps ++ r).
  pose proof (spec_next _ _ _ Hs) as Hnext. pose proof (spec_delimiters _ _ _ Hs) as (_ & Hws & _ & Heq).
  assert (stops spec rest /\ match skip_ws rest with [] => True | b :: _ => b <> x3d end /\
    (ps <> [] -> skip_ws rest = rest)) as (Hstops & Hne & Hskip).
  { subst rest. destruct ps as [|q ps]; cbn [print_params_from app].
    - split; [done|]. split; [|done]. destruct (skip_ws r); naive_solver.
    - rewrite Hnext. cbn [app]. destruct (spec_stops _ _ _ Hs) as [Ha Hc]. split; [|split].
      + unfold stops. rewrite char_len_ascii by done. done.
      + by rewrite skip_ws_visible.
      + intros _. by apply skip_ws_visible. }
  destruct (do_parse_reads p rest Hp Hstops Hne) as (r1 & Hread & Hr1).
  exists r1. split; [|split; [|split]].
  - assert (forall i, skip_ws (dl ++ i) = dl ++ i) as Hsk by (intros i; subst dl; by apply skip_ws_visible).
    rewrite ws_skip, Hsk, tag_reads. cbn [mbind option_bind].
    by rewrite (skip_param p rest Hp), Hread.
  - intros Hps. destruct Hr1 as [->| ->]; [done|by apply Hskip].
  - intros ->. subst rest. done.
  - pose proof (skip_ws_length rest). destruct Hr1 as [->| ->]; lia.
Qed.

Lemma params_rest_reads ps r t : Forall (param_ok spec) ps -> after_params s r ->
  (ps <> [] -> t = print_rest ps ++ r) -> (ps = [] -> t = r \/ t = skip_ws r) ->
  exists r', many0 next_param t = Some (r', ps) /\ (r' = r \/ r' = skip_ws r).
Proof.
  intros Hps Hr. revert t. induction Hps as [|p ps Hp _ IH]; intros t Ht1 Ht2.
  - exists t. split; [|auto]. by apply many0_nil, (next_param_end r), Ht2.
  - rewrite Ht1 by done. cbn [print_params_from].
    rewrite <-!app_assoc. pose proof (spec_delimiters _ _ _ Hs) as (_ & Hws & _).
    destruct (item_reads _ next p ps r (spec_next _ _ _ Hs) Hws Hp Hr) as (r1 & Hread & H1 & H2 & Hlen).
    destruct (IH r1 H1 H2) as (r' & Hmany & Hr'). exists r'. split; [|done].
    erewrite many0_cons; [by rewrite Hmany| |].
    + by rewrite map_law, Hread.
    + rewrite (spec_next _ _ _ Hs). cbn. rewrite length_app. lia.
Qed.

(** A list of parameters is read. *)
Lemma params_reads ps r : Forall (param_ok spec) ps -> after_params s r ->
  exists r', parse_params s (print_params s ps ++ r) = Some (r', ps) /\ (r' = r \/ r' = skip_ws r).
Proof.
  intros Hps Hr. unfold parse_params, print_params, filtered_print.
  pose proof (spec_first _ _ _ Hs) as Hfirst. pose proof (spec_delimiters _ _ _ Hs) as (Hws & _).
  rewrite map_law, opt_law, map_law. destruct ps as [|p ps].
  - exists r. split; [|auto]. cbn [print_params_from app]. rewrite ws3_skip, tag_nothing; [done|].
    apply bool_decide_eq_false_2. destruct Hr as [_ Hr]. rewrite Hfirst in *.
    destruct (skip_ws r) as [|b t]; [done|]. cbn. intros [= ->]. by destruct Hr.
  - cbn [print_params_from]. rewrite <-!app_assoc. inversion Hps as [|? ? Hp Hps']; subst.
    destruct (item_reads _ first p ps r Hfirst Hws Hp Hr) as (r1 & Hread & H1 & H2 & _).
    assert (forall t, next_param (skip_ws t) = next_param t) as Hskip.
    { intros t. by rewrite !map_law, !ws_skip, skip_ws_idemp. }
    rewrite ws3_skip. rewrite ws_skip in Hread.
    apply bind_Some in Hread as ([i x] & Htag & Hread). apply bind_Some in Hread as ([i' y] & Hdo & Hread).
    simplify_eq. rewrite Htag. cbn [mbind option_bind]. rewrite Hdo. cbn [mbind option_bind].
    assert (exists r', many0 next_param (skip_ws r1) = Some (r', ps) /\ (r' = r \/ r' = skip_ws r)) as (r' & Hmany & Hr').
    { apply params_rest_reads; [done|done| |].
      - intros Hne. rewrite H1 by done. destruct ps as [|q ps]; [done|]. cbn [print_params_from].
        rewrite (spec_next _ _ _ Hs). cbn [app]. apply skip_ws_visible. apply (spec_delimiters _ _ _ Hs).
      - intros ->. destruct H2 as [->| ->]; [done|auto|rewrite skip_ws_idemp; auto]. }
    exists r'. by rewrite Hmany.
Qed.

Lemma params_nothing t : match skip_ws t with [] => True | b :: _ => [b] <> FIRST_DELIMITER s end ->
  parse_params s t = Some (t, []).
Proof.
  intros Ht. unfold parse_params. rewrite map_law, opt_law, map_law, ws3_skip, tag_nothing; [done|].
  apply bool_decide_eq_false_2. rewrite (spec_first _ _ _ Hs) in *.
  destruct (skip_ws t) as [|b t']; [done|]. cbn. congruence.
Qed.
End params.

(** Printing with a filter prints what the filter keeps. *)
Lemma print_params_filtered s f first ps :
  print_params_from s f first ps =
  print_params_from s (fun _ => true) first (List.filter (fun p => f (Params.name p)) ps).
Proof.
  revert first. induction ps as [|p ps IH]; intros first; [done|].
  cbn [print_params_from List.filter]. destruct (f (Params.name p)); [|done].
  cbn [print_params_from]. by rewrite IH.
Qed.

Lemma print_filtered s f ps : filtered_print s f ps = print_params s (List.filter (fun p => f (Params.name p)) ps).
Proof. apply print_params_filtered. Qed.

(** Printable text of common parameters: valid UTF-8 without percent signs;
    of header parameters: characters of the class only. *)
Lemma cps_text v : v <> [] -> utf8_valid v = true -> x25 ∉ v -> param_text param_char v.
Proof.
  intros Hne Hu Hp. split; [done|]. split; [done|]. split; [|by right]. apply encoded_all_of; [done|].
  intros b Hb. unfold param_char, alphanumeric_or. by rewrite Hb.
Qed.

Lemma hps_text v : v <> [] -> utf8_valid v = true -> all_of header_char v ->
  Forall (fun b => in_range 32 126 b = true) v -> param_text header_char v.
Proof.
  intros Hne Hu Hv Hc. split; [done|]. split; [done|]. split; [|by left]. by rewrite encode_plain.
Qed.

(** ** Text without a user *)

(** Visible ASCII text without an at sign *)
Definition no_at (s : str) : Prop := Forall (fun b => in_range 0x21 0x7e b = true /\ b <> x40) s.

Lemma all_of_no_at p s : (forall b, p [b] = true -> in_range 0x21 0x7e b = true /\ b <> x40) -> all_of p s -> no_at s.
Proof. intros Hp Hs. eapply Forall_impl; [exact Hs|]. cbn. intros b [_ Hpb]. by apply Hp. Qed.

(** The classes of characters a URI is made of *)
Lemma uri_classes b :
  (is_dec_digit [b] = true \/ ip6_byte [b] = true \/ label_char [b] = true \/ param_char [b] = true \/
   header_char [b] = true -> in_range 0x21 0x7e b = true /\ b <> x40).
Proof.
  assert (forall b, (is_dec_digit [b] || ip6_byte [b] || label_char [b] || param_char [b] || header_char [b])%bool = true ->
    in_range 0x21 0x7e b = true /\ b <> x40) as H by by_bytes.
  intros Hb. apply H. rewrite !orb_true_iff. tauto.
Qed.

Lemma no_at_digits z : (0 <= z)%Z -> no_at (print_uint z).
Proof. intros Hz. apply (all_of_no_at is_dec_digit); [intros b Hb; apply uri_classes; tauto|by apply digits_all_of]. Qed.

Lemma no_at_params s first next ps : spec_ok s first next ->
  (forall b, CHAR_SPEC s [b] = true -> in_range 0x21 0x7e b = true /\ b <> x40) ->
  no_at [first] -> no_at [next] -> Forall (param_ok (CHAR_SPEC s)) ps -> no_at (print_params s ps).
Proof.
  intros Hs Hat Hf Hn Hps. unfold print_params, filtered_print.
  assert (forall isfirst, no_at (print_params_from s (fun _ => true) isfirst ps)) as H; [|apply H].
  induction Hps as [|p ps [Hpn Hpv] _ IH]; intros isfirst; [constructor|]. cbn [print_params_from].
  rewrite (spec_first _ _ _ Hs), (spec_next _ _ _ Hs). apply Forall_app. split; [by destruct isfirst|].
  apply Forall_app. split; [|apply IH]. unfold write_param. destruct Hpn as (_ & _ & Hpn & _).
  assert (forall v, all_of (CHAR_SPEC s) v -> no_at v) as Hv by (intros v; by apply all_of_no_at).
  destruct (Params.value p) as [v|]; [|by apply Hv].
  destruct Hpv as (_ & _ & Hpv & _). apply Forall_app. split; [by apply Hv|]. apply Forall_app.
  split; [by repeat constructor|by apply Hv].
Qed.

Lemma no_at_host_port ctx h : host_port_ok h -> no_at (print_host_port ctx h).
Proof.
  intros [Hh Hp]. unfold print_host_port. apply Forall_app. split.
  - destruct (HostPort.host h) as [ip|ip|n]; cbn [host_ok print_host] in *.
    + apply Forall_app. split; [by repeat constructor|]. apply Forall_app. split; [|by repeat constructor].
      apply (all_of_no_at ip6_byte); [intros b Hb; apply uri_classes; tauto|by apply ip6_text].
    + unfold ip4_to_string. repeat (apply Forall_app; split); try (by repeat constructor); apply no_at_digits, octet_range.
    + destruct Hh as (first & rest & dot & -> & (_ & Hf & _) & Hrest & _).
      assert (forall l, all_of label_char l -> no_at l) as Hlabel
        by (intros l; apply all_of_no_at; intros b Hb; apply uri_classes; tauto).
      apply Forall_app. split; [by apply Hlabel|]. apply Forall_app.
      split; [|destruct dot; by repeat constructor].
      apply Forall_concat, Forall_fmap. eapply Forall_impl; [exact Hrest|]. intros l (_ & Hl & _). cbn.
      constructor; [done|by apply Hlabel].
  - destruct (HostPort.port h) as [port|]; [|constructor].
    assert (no_at (lit ":" ++ print_uint port)) as H.
    { apply Forall_app. split; [by repeat constructor|apply no_at_digits, Hp]. }
    destruct (PrintCtx.uri ctx) as [[]|]; (done || constructor).
Qed.

Lemma span_chars_prefix p s r fuel : Forall (fun b => in_range 0 127 b = true) s -> stops p r -> length s <= fuel ->
  exists s1 s2, s = s1 ++ s2 /\ span_chars p fuel (s ++ r) = (s1, s2 ++ r).
Proof.
  intros Hs Hr. revert fuel. induction Hs as [|b s Hb _ IH]; intros fuel Hf.
  - exists [], []. split; [done|]. destruct fuel, r; try done. cbn [app span_chars]. unfold stops in Hr. by rewrite Hr.
  - destruct fuel as [|fuel]; [cbn in Hf; lia|]. cbn [app span_chars]. rewrite (char_len_ascii b Hb).
    change (take 1 (b :: s ++ r)) with [b]. change (drop 1 (b :: s ++ r)) with (s ++ r).
    destruct (p [b]); [|by exists [], (b :: s)].
    destruct (IH fuel) as (s1 & s2 & -> & ->); [cbn in Hf; lia|]. by exists (b :: s1), s2.
Qed.

Lemma chars_while_prefix p s r : no_at s -> stops p r ->
  exists s1 s2, s = s1 ++ s2 /\ chars_while p (s ++ r) = (s1, s2 ++ r).
Proof.
  intros Hs Hr. apply span_chars_prefix; [|done|rewrite length_app; lia].
  eapply Forall_impl; [exact Hs|]. cbn. intros b [Hb _]. revert Hb. apply in_range_weaken; lia.
Qed.

Lemma at_nothing s r : no_at s -> head r <> Some x40 -> tag (lit "@") (s ++ r) = None.
Proof.
  intros Hs Hr. apply tag_nothing, bool_decide_eq_false_2. destruct s as [|b s]; cbn.
  - destruct r as [|b r]; [done|]. cbn. intros [= ->]. done.
  - intros [= ->]. by inversion Hs as [|? ? [_ ?] _].
Qed.

(** What comes after a URI: nothing, a bracket, or a space behind which no
    parameters go on *)
Definition uri_end (r : str) : Prop :=
  match r with [] => True | b :: _ => b = x3e \/ b = x20 end /\
  match skip_ws r with [] => True | b :: _ => b ∉ lit "=;?&" end.

Lemma uri_end_delimited r : uri_end r -> delimited_by r.
Proof.
  intros [Hr _]. destruct r as [|b r]; [done|]. unfold delimited_by.
  destruct Hr as [->| ->]; by apply (bool_decide_eq_true_1 _).
Qed.

Lemma uri_end_stops p r : p [x3e] = false -> p [x20] = false -> uri_end r -> stops p r.
Proof. intros Hp Hq [Hr _]. destruct r as [|b r]; [done|]. by destruct Hr as [->| ->]. Qed.

Lemma no_user_nothing s r : no_at s -> uri_end r -> SipUri.parse_user_pw (s ++ r) = Some (s ++ r, None).
Proof.
  intros Hs Hr. unfold SipUri.parse_user_pw.
  assert (head r <> Some x40 /\ head r <> Some x3a) as [Hat Hcolon].
  { destruct Hr as [Hr _]. destruct r as [|b r]; [done|]. by destruct Hr as [->| ->]. }
  destruct (chars_while_prefix SipUri.user_char s r Hs) as (s1 & s2 & -> & Hw); [by apply uri_end_stops|].
  apply Forall_app in Hs as [_ Hs].
  rewrite opt_law, terminated_law, tuple_law, take_while_law, Hw. cbn [mbind option_bind].
  rewrite opt_law, preceded_law. destruct (tag (lit ":") (s2 ++ r)) as [[i' x]|] eqn:Htag.
  - assert (exists s3, s2 = x3a :: s3 /\ i' = s3 ++ r) as (s3 & -> & ->).
    { rewrite tag_law in Htag. destruct (starts_with (lit ":") (s2 ++ r)) eqn:E; [|done].
      apply starts_with_spec in E as [t E]. rewrite E in Htag. cbn in Htag. injection Htag as <- _.
      destruct s2 as [|b s3]; cbn in E.
      - by rewrite E in Hcolon.
      - injection E as -> <-. by exists s3. }
    inversion Hs as [|? ? _ Hs3]; subst.
    destruct (chars_while_prefix SipUri.password_char s3 r Hs3) as (s4 & s5 & -> & Hw'); [by apply uri_end_stops|].
    apply Forall_app in Hs3 as [_ Hs5].
    cbn [mbind option_bind]. rewrite take_while_law, Hw'. cbn [mbind option_bind]. by rewrite at_nothing.
  - cbn [mbind option_bind]. by rewrite at_nothing.
Qed.

(** ** URIs *)

Definition user_ok (u : SipUriUserPart) : Prop :=
  match u with
  | EmptyUser => True
  | User user => utf8_valid user = true /\ x25 ∉ user
  | UserPw user password => utf8_valid user = true /\ x25 ∉ user /\ all_of SipUri.password_char password
  end.

(** A URI that can be printed *)
Record uri_ok (u : SipUri.t) : Prop := {
  ok_user : user_ok (SipUri.user_part u);
  ok_host_port : host_port_ok (SipUri.host_port u);
  ok_uri_params : Forall (param_ok param_char) (SipUri.uri_params u);
  ok_header_params : Forall (param_ok header_char) (SipUri.header_params u) }.

(** What the contexts print *)
Definition uri_filter (ctx : PrintCtx.t) : str -> bool :=
  match PrintCtx.uri ctx, PrintCtx.method ctx with
  | Some InFromTo, _ => fun n => negb (SipUri.one_of [lit "maddr"; lit "ttl"; lit "transport"; lit "lr"] n)
  | Some InContact, Some Method.REGISTER => fun n => negb (SipUri.one_of [lit "lr"] n)
  | Some (InContact | InRouting), _ => fun n => negb (SipUri.one_of [lit "ttl"] n)
  | _, _ => fun _ => true
  end.
Definition keeps_headers (ctx : PrintCtx.t) : bool :=
  match PrintCtx.uri ctx, PrintCtx.method ctx with
  | None, _ | Some InContact, Some Method.REGISTER => true
  | _, _ => false
  end.
Definition as_printed (ctx : PrintCtx.t) (u : SipUri.t) : SipUri.t :=
  {| SipUri.sips := SipUri.sips u; SipUri.user_part := SipUri.user_part u;
     SipUri.host_port := keep_host_port ctx (SipUri.host_port u);
     SipUri.uri_params := List.filter (fun p => uri_filter ctx (Params.name p)) (SipUri.uri_params u);
     SipUri.header_params := if keeps_headers ctx then SipUri.header_params u else [] |}.

Definition print_scheme (sips : bool) : str := if sips then lit "sips:" else lit "sip:".
Definition print_user (u : SipUriUserPart) : str :=
  match u with
  | EmptyUser => []
  | User user => percent_encode SipUri.USER_SET user ++ lit "@"
  | UserPw user password => percent_encode SipUri.USER_SET user ++ lit ":" ++ password ++ lit "@"
  end.

Lemma filter_all {A} (l : list A) : List.filter (fun _ => true) l = l.
Proof. induction l as [|x l IH]; [done|]. cbn. by rewrite IH. Qed.

Lemma print_uri ctx u :
  SipUri.print ctx u = print_scheme (SipUri.sips u) ++ print_user (SipUri.user_part u) ++
    print_host_port ctx (SipUri.host_port u) ++ print_params CPS (SipUri.uri_params (as_printed ctx u)) ++
    print_params HPS (SipUri.header_params (as_printed ctx u)).
Proof.
  unfold SipUri.print, as_printed, uri_filter, keeps_headers. cbn [SipUri.uri_params SipUri.header_params].
  do 3 f_equal. destruct (PrintCtx.uri ctx) as [[]|]; rewrite ?print_filtered, ?filter_all, ?app_nil_r; try done.
  destruct (PrintCtx.method ctx) as [[]|]; rewrite ?print_filtered, ?app_nil_r; done.
Qed.

Lemma scheme_reads sips r : reads SipUri.parse_scheme (print_scheme sips) sips r.
Proof.
  unfold SipUri.parse_scheme. unfold reads. rewrite alt_law, !map_law. unfold SipUri.tag_nc.
  destruct sips.
  - by rewrite !tag_no_case_ascii by repeat constructor.
  - by rewrite (tag_no_case_ascii (lit "sip:")) by repeat constructor.
Qed.

Lemma user_text user : utf8_valid user = true -> x25 ∉ user ->
  all_of SipUri.user_char (percent_encode SipUri.USER_SET user) /\
  decode_utf8 (percent_encode SipUri.USER_SET user) = Some user.
Proof.
  intros Hu Hp. split; [|by apply decode_utf8_encode; [right|]].
  apply encoded_all_of; [done|]. intros b Hb. unfold SipUri.user_char, alphanumeric_or. by rewrite Hb.
Qed.

(** The user is read, if text without an at sign follows. *)
Lemma user_reads u s r : user_ok u -> no_at s -> uri_end r ->
  exists x, SipUri.parse_user_pw (print_user u ++ s ++ r) = Some (s ++ r, x) /\ SipUri.user_part_of x = Some u.
Proof.
  intros Hu Hs Hr. destruct u as [|user|user pw]; cbn [user_ok print_user] in *.
  - exists None. split; [|done]. cbn [app]. by apply no_user_nothing.
  - destruct Hu as [Hu Hp]. destruct (user_text user Hu Hp) as [Ht Hd].
    exists (Some (percent_encode SipUri.USER_SET user, None)). split; [|cbn; by rewrite Hd].
    apply opt_reads. eapply terminated_reads; [|apply tag_reads].
    rewrite <-(app_nil_r (percent_encode _ _)) at 1.
    eapply tuple_reads; [by apply take_while_reads|]. apply opt_nothing. rewrite preceded_law, tag_nothing; done.
  - destruct Hu as (Hu & Hp & Hpw). destruct (user_text user Hu Hp) as [Ht Hd].
    exists (Some (percent_encode SipUri.USER_SET user, Some pw)). split; [|cbn; by rewrite Hd].
    apply opt_reads. rewrite !app_assoc. eapply terminated_reads; [|apply tag_reads]. rewrite <-app_assoc.
    eapply tuple_reads; [by apply take_while_reads|].
    apply opt_reads. eapply preceded_reads; [apply tag_reads|]. by apply take_while_reads.
Qed.

Lemma print_params_front s first next ps r : spec_ok s first next ->
  match print_params s ps ++ r with
  | [] => r = []
  | b :: _ => ps <> [] /\ b = first \/ ps = [] /\ head r = Some b
  end.
Proof.
  intros Hs. destruct ps as [|p ps]; cbn.
  - destruct r; auto.
  - rewrite (spec_first _ _ _ Hs). by left.
Qed.

Lemma after_hps r : uri_end r -> after_params HPS r.
Proof.
  intros Hr. split; [by apply uri_end_stops|]. destruct Hr as [_ Hr].
  destruct (skip_ws r) as [|b t]; [done|].
  repeat split; intros [= ->]; apply Hr; by apply (bool_decide_eq_true_1 _).
Qed.

Lemma after_cps hs r : uri_end r -> after_params CPS (print_params HPS hs ++ r).
Proof.
  intros Hr. destruct hs as [|h hs].
  - destruct (after_hps r Hr) as [_ H]. split; [by apply uri_end_stops|]. cbn [print_params filtered_print print_params_from app].
    destruct Hr as [_ Hr]. destruct (skip_ws r) as [|b t]; [done|].
    repeat split; intros [= ->]; apply Hr; by apply (bool_decide_eq_true_1 _).
  - split; [done|]. unfold print_params, filtered_print. cbn [print_params_from]. by rewrite <-!app_assoc.
Qed.

Lemma skip_hps h hs r : skip_ws (print_params HPS (h :: hs) ++ r) = print_params HPS (h :: hs) ++ r.
Proof.
  unfold print_params, filtered_print. cbn [print_params_from]. rewrite <-!app_assoc.
  apply skip_ws_visible. done.
Qed.

Lemma uri_params_read ps hs r : Forall (param_ok param_char) ps -> Forall (param_ok header_char) hs -> uri_end r ->
  exists r', tuple (parse_params CPS) (parse_params HPS) (print_params CPS ps ++ print_params HPS hs ++ r) =
    Some (r', (ps, hs)) /\ (r' = r \/ r' = skip_ws r).
Proof.
  intros Hps Hhs Hr. rewrite tuple_law.
  destruct (params_reads CPS _ _ cps_ok ps _ Hps (after_cps hs r Hr)) as (r1 & -> & Hr1). cbn [mbind option_bind].
  destruct hs as [|h hs].
  - exists r1. split; [|exact Hr1]. rewrite (params_nothing HPS _ _ hps_ok); [done|].
    cbn [print_params filtered_print print_params_from app] in Hr1.
    destruct (after_hps r Hr) as [_ H]. assert (skip_ws r1 = skip_ws r) as ->
      by (destruct Hr1 as [->| ->]; [done|apply skip_ws_idemp]).
    destruct (skip_ws r); naive_solver.
  - assert (r1 = print_params HPS (h :: hs) ++ r) as -> by (destruct Hr1 as [->| ->]; [done|apply skip_hps]).
    destruct (params_reads HPS _ _ hps_ok (h :: hs) r Hhs (after_hps r Hr)) as (r2 & -> & Hr2). by exists r2.
Qed.

Lemma as_printed_ok ctx u : uri_ok u ->
  Forall (param_ok param_char) (SipUri.uri_params (as_printed ctx u)) /\
  Forall (param_ok header_char) (SipUri.header_params (as_printed ctx u)).
Proof.
  intros [_ _ Hp Hh]. split; cbn.
  - apply Forall_forall. intros p [Hin _]%list_elem_of_In%filter_In. rewrite Forall_forall in Hp.
    by apply Hp, list_elem_of_In.
  - destruct (keeps_headers ctx); [done|constructor].
Qed.

Lemma delimited_after_host ps hs r : uri_end r -> delimited_by (print_params CPS ps ++ print_params HPS hs ++ r).
Proof.
  intros Hr. destruct ps as [|p ps].
  - destruct hs as [|h hs]; [by apply uri_end_delimited|]. by apply (bool_decide_eq_true_1 _).
  - by apply (bool_decide_eq_true_1 _).
Qed.

(** What is printed for a URI in a context is read as what the context keeps
    of it; white space behind a last parameter without a value is read with it. *)
Lemma sip_uri_reads ctx u r : uri_ok u -> uri_end r ->
  exists r', SipUri.parse (SipUri.print ctx u ++ r) = Some (r', as_printed ctx u) /\ (r' = r \/ r' = skip_ws r).
Proof.
  intros Hu Hr. rewrite print_uri. destruct (as_printed_ok ctx u Hu) as [Hps Hhs]. destruct Hu as [Huser Hhost _ _].
  set (ps := SipUri.uri_params (as_printed ctx u)) in *. set (hs := SipUri.header_params (as_printed ctx u)) in *.
  assert (no_at (print_host_port ctx (SipUri.host_port u) ++ print_params CPS ps ++ print_params HPS hs)) as Hno.
  { apply Forall_app. split; [by apply no_at_host_port|]. apply Forall_app. split.
    - apply (no_at_params _ _ _ _ cps_ok); [|by repeat constructor|by repeat constructor|done].
      intros b Hb. apply uri_classes. tauto.
    - apply (no_at_params _ _ _ _ hps_ok); [|by repeat constructor|by repeat constructor|done].
      intros b Hb. apply uri_classes. tauto. }
  destruct (user_reads _ _ r Huser Hno Hr) as (x & Hx & Hpart).
  destruct (uri_params_read ps hs r Hps Hhs Hr) as (r' & Hpr & Hr'). exists r'. split; [|done].
  unfold SipUri.parse. rewrite <-!app_assoc in *. rewrite map_res_law, tuple_law, scheme_reads. cbn [mbind option_bind].
  rewrite tuple_law, Hx. cbn [mbind option_bind]. rewrite tuple_law, host_port_reads by (done || by apply delimited_after_host).
  cbn [mbind option_bind]. rewrite Hpr. cbn [mbind option_bind]. by rewrite Hpart.
Qed.

Lemma bracket_end r : uri_end (lit ">" ++ r).
Proof.
  split; [by left|]. change (lit ">" ++ r) with (x3e :: r). rewrite skip_ws_visible by done.
  by apply (bool_decide_eq_false_1 _).
Qed.

Lemma bracketed_reads ctx u r : uri_ok u ->
  reads (delimited (tag (lit "<")) SipUri.parse (tag (lit ">"))) (lit "<" ++ SipUri.print ctx u ++ lit ">") (as_printed ctx u) r.
Proof.
  intros Hu. eapply delimited_reads; [apply tag_reads| |apply tag_reads].
  destruct (sip_uri_reads ctx u (lit ">" ++ r) Hu (bracket_end r)) as (r' & H & Hr'). unfold reads. rewrite H.
  change (lit ">" ++ r) with (x3e :: r) in *. rewrite skip_ws_visible in Hr' by done. by destruct Hr' as [->| ->].
Qed.

(** ** Names with addresses *)

(** A display name that can be printed: without quotes and backslashes, and
    without white space around it *)
Definition name_ok (n : option str) : Prop :=
  match n with
  | Some n => n <> [] /\ Forall (fun b => b <> x22 /\ b <> x5c) n /\ trim n = n
  | None => True
  end.
Definition name_addr_ok (n : NameAddr.t) : Prop := name_ok (NameAddr.name n) /\ uri_ok (NameAddr.uri n).
Definition addr_as_printed (ctx : PrintCtx.t) (n : NameAddr.t) : NameAddr.t :=
  {| NameAddr.name := NameAddr.name n; NameAddr.uri := as_printed ctx (NameAddr.uri n) |}.

Lemma name_addr_reads plain ctx n r : name_addr_ok n ->
  reads (NameAddr.parse_with plain) (NameAddr.print ctx n) (addr_as_printed ctx n) r.
Proof.
  destruct n as [name u]. intros [Hn Hu]. cbn [NameAddr.name NameAddr.uri] in *.
  unfold NameAddr.parse_with, NameAddr.print, addr_as_printed. cbn [NameAddr.name NameAddr.uri].
  assert (trim <$> name = name) as Htrim by (destruct name; [cbn; f_equal; apply Hn|done]).
  rewrite <-Htrim at 2. change (name) with (fst (name, (@nil byte, as_printed ctx u))) at 2.
  eapply (map_reads _ (fun '(name, (_, uri)) => {| NameAddr.name := trim <$> name; NameAddr.uri := uri |})
    _ (name, ([], as_printed ctx u))).
  apply alt_reads_l. eapply tuple_reads.
  - destruct name as [name|].
    + destruct Hn as (Hne & Hq & _). apply opt_reads, alt_reads_l. by apply parse_quoted_reads.
    + apply opt_nothing. change (lit "<" ++ ?a) with (x3c :: a). cbn [app].
      rewrite alt_law, parse_quoted_nothing by done. by rewrite take_while1_nothing.
  - rewrite <-(app_nil_l (lit "<" ++ _)). eapply tuple_reads; [|by apply bracketed_reads].
    apply take_while_reads; [constructor|done].
Qed.

(** ** Methods and request lines *)

(** A method the parser of methods gives back: a known one, or a token in ASCII
    letters that does not begin with the name of a known one. *)
Definition method_ok (m : Method.t) : Prop :=
  Method.display m <> [] /\ all_of token (Method.display m) /\
  match m with
  | Method.Other s => forall k, k ∈ Method.alternatives ->
      lower (take (length (Method.display k)) s) <> lower (Method.display k)
  | _ => True
  end.

Lemma all_of_ascii p s : all_of p s -> is_ascii s.
Proof. intros H. eapply Forall_impl; [exact H|]. intros b [Hb _]. unfold in_range in Hb. lia. Qed.

Lemma from_parse_display m : method_ok m -> Method.from_parse (Method.display m) = m.
Proof.
  intros (_ & Ha & Hm). apply all_of_ascii in Ha. destruct (method_prefix_taken _ Ha) as [Hk Ho].
  assert ((forall s, m <> Method.Other s) \/ exists s, m = Method.Other s) as [Hknown|[s ->]]
    by (destruct m; [left; discriminate..|right; by eexists]).
  - apply Hk; [by apply display_known|]. by rewrite firstn_all.
  - by apply Ho.
Qed.

Lemma method_reads m r : method_ok m -> stops token r -> reads parse_method (Method.display m) m r.
Proof.
  intros Hm Hr. unfold parse_method. rewrite <-(from_parse_display m Hm) at 2.
  apply map_reads. destruct Hm as (? & ? & _). by apply take_while1_reads.
Qed.

(** A request line is read; nothing is left of the version. *)
Lemma request_line_reads ctx l r : method_ok (rl_method l) -> uri_ok (rl_uri l) ->
  reads parse_request_line (print_request_line ctx l)
    {| rl_method := rl_method l; rl_uri := as_printed ctx (rl_uri l) |} r.
Proof.
  destruct l as [m u]. cbn [rl_method rl_uri]. intros Hm Hu. unfold parse_request_line, print_request_line, reads.
  cbn [rl_method rl_uri].
  rewrite map_law, separated_pair_law, <-!app_assoc, method_reads by done. cbn [mbind option_bind].
  change (lit " " ++ ?a) with ([x20] ++ a).
  rewrite take_while_reads; [|by repeat constructor|].
  2:{ unfold SipUri.print. by destruct (SipUri.sips u). }
  cbn [mbind option_bind]. rewrite terminated_law.
  assert (uri_end (lit " SIP/2.0" ++ r)) as He.
  { split; [by right|]. change (skip_ws (lit " SIP/2.0" ++ r)) with (skip_ws (lit "SIP/2.0" ++ r)).
    change (lit "SIP/2.0" ++ r) with (x53 :: (lit "IP/2.0" ++ r)). rewrite skip_ws_visible by done.
    by apply (bool_decide_eq_false_1 _). }
  destruct (sip_uri_reads ctx u _ Hu He) as (r' & Hread & Hr'). rewrite Hread. cbn [mbind option_bind].
  assert (skip_ws (lit " SIP/2.0" ++ r) = lit "SIP/2.0" ++ r) as Hskip by (by apply (skip_ws_visible x53)).
  rewrite Hskip in Hr'. rewrite tuple_law.
  assert (exists w, take_while whitespace r' = Some (lit "SIP/2.0" ++ r, w)) as [w Hw].
  { destruct Hr' as [->| ->].
    - exists [x20]. change (lit " SIP/2.0" ++ r) with ([x20] ++ (lit "SIP/2.0" ++ r)).
      apply take_while_reads; [by repeat constructor|done].
    - exists []. apply (take_while_reads whitespace []); [constructor|done]. }
  rewrite Hw. cbn [mbind option_bind]. by rewrite tag_reads.
Qed.
End uri_props.

(** The full form of IPv6 addresses, eight groups of four digits. *)
Module FullIp6.
Fixpoint groups (l : list byte) : str :=
  match l with
  | a :: b :: l => hex_byte a ++ hex_byte b ++ (if decide (l = []) then [] else lit ":") ++ groups l
  | _ => []
  end.
Fixpoint unhex (s : str) : option (list byte) :=
  match s with
  | h :: l :: s => h ← hex_val h; l ← hex_val l; bs ← unhex s; Some (byte_of (h * 16 + l) :: bs)
  | [] => Some []
  | _ => None
  end.
Definition digits_of (s : str) : str := List.filter (fun b => negb (bool_decide (b = x3a))) s.
Definition from_str (s : str) : option Z :=
  bs ← unhex (digits_of s); if decide (length bs = 16) then Some (be_val bs) else None.
#[export] Instance text : Ip6Text := {| ip6_to_string z := groups (be_bytes 16 z); ip6_from_str := from_str |}.

Lemma hex_byte_spec b : digits_of (hex_byte b) = hex_byte b /\
  Forall (fun b => in_range 0 127 b = true /\ ip6_byte [b] = true) (hex_byte b).
Proof.
  assert (forall z, (0 <= z < 16)%Z -> hex_digit z <> x3a /\ in_range 0 127 (hex_digit z) = true /\
    ip6_byte [hex_digit z] = true) as H.
  { intros z Hz. assert (forallb (fun z => bool_decide (hex_digit z <> x3a) && (in_range 0 127 (hex_digit z) &&
      ip6_byte [hex_digit z])) (seqZ 0 16) = true) as H by done.
    rewrite forallb_forall in H. specialize (H z). rewrite !andb_true_iff, bool_decide_eq_true in H.
    apply H, list_elem_of_In, elem_of_seqZ. lia. }
  destruct (hex_halves b) as [[H1 H2]%H [H3 H4]%H].
  unfold hex_byte. split; [cbn; by rewrite !bool_decide_eq_false_2|].
  constructor; [done|]. constructor; [done|]. constructor.
Qed.

Lemma unhex_byte b s : unhex (hex_byte b ++ s) = (fun bs => b :: bs) <$> unhex s.
Proof.
  pose proof (byte_val_range b) as Hb. unfold hex_byte. cbn [app unhex].
  rewrite !hex_digits by apply hex_halves. cbn [mbind option_bind]. destruct (unhex s); [|done]. cbn.
  do 2 f_equal. rewrite Z.mul_comm, <-Z.div_mod by lia. apply byte_of_val.
Qed.

Lemma groups_spec n l : length l = n + n ->
  unhex (digits_of (groups l)) = Some l /\
  Forall (fun b => in_range 0 127 b = true /\ ip6_byte [b] = true) (groups l).
Proof.
  revert l. induction n as [|n IH]; intros l Hl; [by destruct l|].
  destruct l as [|a [|b l]]; [done|cbn in Hl; lia|]. destruct (IH l) as [IH1 IH2]; [cbn in Hl; lia|].
  cbn [groups]. destruct (hex_byte_spec a) as [Ha Ha'], (hex_byte_spec b) as [Hb Hb'].
  assert (forall s t, digits_of (s ++ t) = digits_of s ++ digits_of t) as Happ by (intros; apply List.filter_app).
  rewrite !Happ, Ha, Hb. split; [|by destruct (decide _); repeat (apply Forall_app; split); try done; by constructor].
  destruct (decide (l = []));
    [change (digits_of []) with (@nil byte)|change (digits_of (lit ":")) with (@nil byte)];
    cbn [app]; by rewrite !unhex_byte, IH1.
Qed.

#[export] Instance laws : Ip6Laws text.
Proof.
  split; intros ip Hip; destruct (groups_spec 8 (be_bytes 16 ip) (length_be_bytes 16 ip)) as [H1 H2].
  - cbn [ip6_from_str ip6_to_string text]. unfold from_str. rewrite H1. cbn [mbind option_bind].
    rewrite decide_True by apply length_be_bytes. f_equal. apply be_val_bytes_id. exact Hip.
  - split; [|exact H2]. cbn [ip6_to_string text]. intros E. rewrite E in H1.
    assert (Some [] = Some (be_bytes 16 ip)) as Hn by exact H1. injection Hn as Hn. pose proof (length_be_bytes 16 ip) as Hlen. by rewrite <-Hn in Hlen.
Qed.
End FullIp6.
