(* ===== verification/SipTyped.v ===== *)
(** * Typed headers
    (sip-types/src/header/typed/via.rs, from_to.rs, contact.rs, routing.rs, cseq.rs, prack.rs,
    timer.rs, content.rs, event.rs, expires.rs, retry_after.rs, subscription_state.rs, replaces.rs)

    The parser and the printer of every header that is not a list of words or
    a number: instances of the traits of [SipHeaders]. *)
From S2P Require Import Prelude Text StunAttr SipNames SipHeaders SipFraming SipMessages SipParse SipUri.

(** ** Headers beyond those of every message *)
Module ContactHeader.
Record t := { uri : NameAddr.t; params : Params.t }.
Definition new (uri : NameAddr.t) : t := {| uri := uri; params := Params.new |}.

(** [with_key_param], [with_value_param] of [impl_with_params!] *)
Definition with_key_param (n : str) (c : t) : t :=
  {| uri := uri c; params := Params.push {| Params.name := n; Params.value := None |} (params c) |}.
Definition with_value_param (n v : str) (c : t) : t :=
  {| uri := uri c; params := Params.push_or_edit n v (params c) |}.
#[global] Instance contact_named : ConstNamed t := {| NAME := Name.Contact |}.
End ContactHeader.

Module Routing.
Record t := { uri : NameAddr.t; params : Params.t }.
End Routing.

Module ContentType.
Record t := { content_type : str }.
#[global] Instance content_type_named : ConstNamed t := {| NAME := Name.ContentType |}.
#[global] Instance content_type_parse : HeaderParse t := {| header_parse i := Ok ([], {| content_type := trim i |}) |}.
#[global] Instance content_type_extend_values : ExtendValues t := {|
  extend_values c _ := OneOrMore.One (content_type c);
  create_values c := OneOrMore.One (content_type c) |}.
End ContentType.

Module Event.
Record t := { event : str }.
#[global] Instance event_named : ConstNamed t := {| NAME := Name.Event |}.
#[global] Instance event_parse : HeaderParse t := {| header_parse i := Ok ([], {| event := trim i |}) |}.
#[global] Instance event_extend_values : ExtendValues t := {|
  extend_values c _ := OneOrMore.One (event c);
  create_values c := OneOrMore.One (event c) |}.
End Event.

Module RetryAfter.
Record t := { value : Z; params : Params.t; comment : option str }.
Definition new (value : Z) : t := {| value := value; params := Params.new; comment := None |}.
Definition with_comment (comment : str) (r : t) : t :=
  {| value := value r; params := params r; comment := Some comment |}.
#[global] Instance retry_after_named : ConstNamed t := {| NAME := Name.RetryAfter |}.
End RetryAfter.

Module SubscriptionState.
Inductive SubStateValue := Active | Pending | Terminated.
Inductive EventReasonValue :=
| Deactivated | Probation | Rejected | Timeout | GiveUp | NoResource | Invariant | Other (reason : str).

(** [Display] of both *)
Definition print_state (s : SubStateValue) : str :=
  match s with Active => lit "active" | Pending => lit "pending" | Terminated => lit "terminated" end.
Definition print_reason (r : EventReasonValue) : str :=
  match r with
  | Deactivated => lit "deactivated"
  | Probation => lit "probation"
  | Rejected => lit "rejected"
  | Timeout => lit "timeout"
  | GiveUp => lit "giveup"
  | NoResource => lit "noresource"
  | Invariant => lit "invariant"
  | Other o => o
  end.

(** The matches of the parser *)
Definition read_state (s : str) : option SubStateValue :=
  find (fun v => bool_decide (print_state v = s)) [Active; Pending; Terminated].
Definition read_reason (s : str) : EventReasonValue :=
  default (Other s) (find (fun v => bool_decide (print_reason v = s))
    [Deactivated; Probation; Rejected; Timeout; GiveUp; NoResource; Invariant]).

Record t := {
  state : SubStateValue;
  expires : option Z;
  reason : option EventReasonValue;
  retry_after : option Z;
  params : Params.t }.
#[global] Instance subscription_state_named : ConstNamed t := {| NAME := Name.SubscriptionState |}.

Definition new (state : SubStateValue) : t :=
  {| state := state; expires := None; reason := None; retry_after := None; params := Params.new |}.
Definition with_expires (e : Z) (s : t) : t :=
  {| state := state s; expires := Some e; reason := reason s; retry_after := retry_after s; params := params s |}.
Definition with_reason (r : EventReasonValue) (s : t) : t :=
  {| state := state s; expires := expires s; reason := Some r; retry_after := retry_after s; params := params s |}.
Definition with_retry_after (a : Z) (s : t) : t :=
  {| state := state s; expires := expires s; reason := reason s; retry_after := Some a; params := params s |}.
End SubscriptionState.

Module Replaces.
Record t := { call_id : str; from_tag : str; to_tag : str; early_only : bool }.
#[global] Instance replaces_named : ConstNamed t := {| NAME := Name.Replaces |}.

(** [Display] *)
Definition print (r : t) : str :=
  call_id r ++ lit ";from-tag=" ++ from_tag r ++ lit ";to-tag=" ++ to_tag r ++
  if early_only r then lit ";early-only" else [].
#[global] Instance replaces_extend_values : ExtendValues t := {|
  extend_values r _ := OneOrMore.One (print r);
  create_values r := OneOrMore.One (print r) |}.
End Replaces.

Module Refresher.
Inductive t := Unspecified | Uas | Uac.

#[global] Instance t_eq_dec : EqDecision t.
Proof. solve_decision. Defined.
End Refresher.

Module SessionExpires.
Record t := { delta_secs : Z; refresher : Refresher.t }.

(** [Print] and [ExtendValues for SessionExpires] *)
Definition print (s : t) : str :=
  print_uint (delta_secs s) ++
  match refresher s with
  | Refresher.Unspecified => []
  | Refresher.Uas => lit ";refresher=uas"
  | Refresher.Uac => lit ";refresher=uac"
  end.
#[global] Instance session_expires_extend_values : ExtendValues t := {|
  extend_values s _ := OneOrMore.One (print s);
  create_values s := OneOrMore.One (print s) |}.
#[global] Instance session_expires_named : ConstNamed t := {| NAME := Name.SessionExpires |}.
End SessionExpires.

Module MinSe.
Record t := { min_se : Z }.
#[global] Instance min_se_extend_values : ExtendValues t := {|
  extend_values m _ := OneOrMore.One (print_uint (min_se m));
  create_values m := OneOrMore.One (print_uint (min_se m)) |}.
(** [from_str_header!]: the trimmed value *)
#[global] Instance min_se_parse : HeaderParse t := {|
  header_parse i := match parse_uint 32 (trim i) with Some n => Ok ([], {| min_se := n |}) | None => Err i end |}.
#[global] Instance min_se_named : ConstNamed t := {| NAME := Name.MinSe |}.
End MinSe.

(** [RAck] *)
Module RAck.
Record t := { rack : Z; cseq : Z; method : Method.t }.
Definition print (r : t) : str :=
  print_uint (rack r) ++ lit " " ++ print_uint (cseq r) ++ lit " " ++ Method.display (method r).
#[global] Instance rack_extend_values : ExtendValues t := {|
  extend_values r _ := OneOrMore.One (print r);
  create_values r := OneOrMore.One (print r) |}.
#[global] Instance rack_named : ConstNamed t := {| NAME := Name.RAck |}.
End RAck.

(** [RSeq] *)
Module RSeq.
Record t := { rseq : Z }.
#[global] Instance rseq_extend_values : ExtendValues t := {|
  extend_values r _ := OneOrMore.One (print_uint (rseq r));
  create_values r := OneOrMore.One (print_uint (rseq r)) |}.
#[global] Instance rseq_parse : HeaderParse t := {|
  header_parse i := match parse_uint 32 (trim i) with Some n => Ok ([], {| rseq := n |}) | None => Err i end |}.
#[global] Instance rseq_named : ConstNamed t := {| NAME := Name.RSeq |}.
End RSeq.

(** [Expires], [MinExpires] *)
Module Expires.
Record t := { secs : Z }.
#[global] Instance expires_extend_values : ExtendValues t := {|
  extend_values e _ := OneOrMore.One (print_uint (secs e));
  create_values e := OneOrMore.One (print_uint (secs e)) |}.
#[global] Instance expires_parse : HeaderParse t := {|
  header_parse i := match parse_uint 32 (trim i) with Some n => Ok ([], {| secs := n |}) | None => Err i end |}.
End Expires.

Section typed.
Context {N : Combinators} {U : Unicode} {P : Percent} {I6 : Ip6Text} {TNC : Nom} {ET : ErrorText}.

(** What a parser makes of a value, as a header *)
Definition parsed_by {A} (p : parser A) (i : str) : result str (str * A) :=
  ok_or (error_text p i) (p i).

(** ** via.rs *)
Definition parse_sip_version : parser unit :=
  map (ws4 (tag (lit "SIP")) (tag (lit "/")) (tag (lit "2.0")) (tag (lit "/"))) (fun _ => tt).
Definition parse_via : parser Via.t :=
  map (tuple (preceded parse_sip_version
                (delimited (take_while whitespace) (take_while token) (take_while whitespace)))
             (tuple parse_host_port (parse_params CPS)))
    (fun '(tp, (hp, p)) => {| Via.transport := tp; Via.sent_by := hp; Via.params := p |}).
Definition print_via (ctx : PrintCtx.t) (v : Via.t) : str :=
  lit "SIP/2.0/" ++ Via.transport v ++ lit " " ++ print_host_port ctx (Via.sent_by v) ++ print_params CPS (Via.params v).
#[export] Instance via_header_parse : HeaderParse Via.t := {| header_parse := parsed_by parse_via |}.
#[export] Instance via_extend_values : ExtendValues Via.t := {|
  extend_values v values := OneOrMore.push (print_via PrintCtx.default v) values;
  create_values v := OneOrMore.One (print_via PrintCtx.default v) |}.

(** ** from_to.rs *)
Definition in_uri (u : UriContext) (ctx : PrintCtx.t) : PrintCtx.t :=
  {| PrintCtx.method := PrintCtx.method ctx; PrintCtx.uri := Some u |}.
Definition parse_from_to : parser (FromTo.t NameAddr.t) :=
  map (tuple NameAddr.parse_no_params (parse_params CPS))
    (fun '(uri, params) =>
       let '(tag, params) := Params.take (lit "tag") params in
       {| FromTo.uri := uri; FromTo.tag := tag; FromTo.params := params |}).
Definition print_from_to (ctx : PrintCtx.t) (f : FromTo.t NameAddr.t) : str :=
  NameAddr.print (in_uri InFromTo ctx) (FromTo.uri f) ++
  match FromTo.tag f with Some tag => lit ";tag=" ++ tag | None => [] end ++
  print_params CPS (FromTo.params f).
#[export] Instance from_to_header_parse : HeaderParse (FromTo.t NameAddr.t) := {| header_parse := parsed_by parse_from_to |}.
#[export] Instance from_to_extend_values : ExtendValues (FromTo.t NameAddr.t) := {|
  extend_values f _ := OneOrMore.One (print_from_to PrintCtx.default f);
  create_values f := OneOrMore.One (print_from_to PrintCtx.default f) |}.

(** ** contact.rs, routing.rs *)
Definition parse_addr_params : parser (NameAddr.t * Params.t) := tuple NameAddr.parse_no_params (parse_params CPS).
Definition parse_contact : parser ContactHeader.t :=
  map parse_addr_params (fun '(uri, params) => {| ContactHeader.uri := uri; ContactHeader.params := params |}).
Definition print_contact (ctx : PrintCtx.t) (c : ContactHeader.t) : str :=
  NameAddr.print (in_uri InContact ctx) (ContactHeader.uri c) ++ print_params CPS (ContactHeader.params c).
#[export] Instance contact_header_parse : HeaderParse ContactHeader.t := {| header_parse := parsed_by parse_contact |}.
#[export] Instance contact_extend_values : ExtendValues ContactHeader.t := {|
  extend_values c values := CsvHeader.append_last (print_contact PrintCtx.default c) values;
  create_values c := OneOrMore.One (print_contact PrintCtx.default c) |}.

Definition parse_routing : parser Routing.t :=
  map parse_addr_params (fun '(uri, params) => {| Routing.uri := uri; Routing.params := params |}).
Definition print_routing (ctx : PrintCtx.t) (r : Routing.t) : str :=
  NameAddr.print (in_uri InRouting ctx) (Routing.uri r) ++ print_params CPS (Routing.params r).
#[export] Instance routing_header_parse : HeaderParse Routing.t := {| header_parse := parsed_by parse_routing |}.
#[export] Instance routing_extend_values : ExtendValues Routing.t := {|
  extend_values r values := CsvHeader.append_last (print_routing PrintCtx.default r) values;
  create_values r := OneOrMore.One (print_routing PrintCtx.default r) |}.

(** ** cseq.rs, prack.rs *)
Definition parse_u32 : parser Z := map_res digit1 (parse_uint 32).
Definition parse_cseq : parser CSeq.t :=
  map_res (separated_pair parse_u32 (take_while whitespace) parse_method)
    (fun '(cseq, method) => Some {| CSeq.cseq := cseq; CSeq.method := method |}).
#[export] Instance cseq_header_parse : HeaderParse CSeq.t := {| header_parse := parsed_by parse_cseq |}.

Definition parse_rack : parser RAck.t :=
  map (ws3 parse_u32 parse_u32 parse_method)
    (fun '(rack, cseq, method) => {| RAck.rack := rack; RAck.cseq := cseq; RAck.method := method |}).
#[export] Instance rack_header_parse : HeaderParse RAck.t := {| header_parse := parsed_by parse_rack |}.

(** ** timer.rs *)
Definition parse_session_expires : parser SessionExpires.t :=
  map (ws (map_res alphanumeric1 (parse_uint 32)) (parse_params CPS))
    (fun '(delta_secs, params) =>
       let '(param, params) := Params.take (lit "refresher") params in
       let refresher := match param with
                        | Some param =>
                            if decide (param = lit "uas") then Refresher.Uas
                            else if decide (param = lit "uac") then Refresher.Uac
                            else Refresher.Unspecified
                        | None => Refresher.Unspecified
                        end in
       {| SessionExpires.delta_secs := delta_secs; SessionExpires.refresher := refresher |}).
#[export] Instance session_expires_header_parse : HeaderParse SessionExpires.t :=
  {| header_parse := parsed_by parse_session_expires |}.

(** ** retry_after.rs *)
Definition parse_retry_after : parser RetryAfter.t :=
  map (tuple parse_u32 (tuple (parse_params CPS)
         (opt (preceded (take_while whitespace) (delimited (tag (lit "(")) (is_not (lit ")")) (tag (lit ")")))))))
    (fun '(value, (params, comment)) =>
       {| RetryAfter.value := value; RetryAfter.params := params; RetryAfter.comment := comment |}).
Definition print_retry_after (r : RetryAfter.t) : str :=
  print_uint (RetryAfter.value r) ++ print_params CPS (RetryAfter.params r) ++
  match RetryAfter.comment r with Some comment => lit " (" ++ comment ++ lit ")" | None => [] end.
#[export] Instance retry_after_header_parse : HeaderParse RetryAfter.t := {| header_parse := parsed_by parse_retry_after |}.
#[export] Instance retry_after_extend_values : ExtendValues RetryAfter.t := {|
  extend_values r _ := OneOrMore.One (print_retry_after r);
  create_values r := OneOrMore.One (print_retry_after r) |}.

(** ** subscription_state.rs *)
Definition not_semicolon (c : str) : bool := negb (bool_decide (c = [x3b])).
Definition print_subscription_state (s : SubscriptionState.t) : str :=
  SubscriptionState.print_state (SubscriptionState.state s) ++
  match SubscriptionState.expires s with Some e => lit ";expires=" ++ print_uint e | None => [] end ++
  match SubscriptionState.reason s with Some r => lit ";reason=" ++ SubscriptionState.print_reason r | None => [] end ++
  match SubscriptionState.retry_after s with Some a => lit ";retry-after=" ++ print_uint a | None => [] end ++
  print_params CPS (SubscriptionState.params s).
Definition parse_subscription_state : parser SubscriptionState.t :=
  map_res (ws (take_while1 not_semicolon) (parse_params CPS))
    (fun '(sub_state, params) =>
       state ← SubscriptionState.read_state sub_state;
       let '(reason, params) := Params.take (lit "reason") params in
       let '(expires, params) := Params.take (lit "expires") params in
       let '(after, params) := Params.take (lit "retry-after") params in
       Some {| SubscriptionState.state := state;
               SubscriptionState.expires := e ← expires; parse_uint 32 e;
               SubscriptionState.reason := SubscriptionState.read_reason <$> reason;
               SubscriptionState.retry_after := a ← after; parse_uint 32 a;
               SubscriptionState.params := params |}).
#[export] Instance subscription_state_header_parse : HeaderParse SubscriptionState.t :=
  {| header_parse := parsed_by parse_subscription_state |}.
#[export] Instance subscription_state_extend_values : ExtendValues SubscriptionState.t := {|
  extend_values s values := OneOrMore.push (print_subscription_state s) values;
  create_values s := OneOrMore.One (print_subscription_state s) |}.

(** ** replaces.rs *)
Definition parse_replaces : parser Replaces.t :=
  map_res (ws (take_while1 not_semicolon) (parse_params CPS))
    (fun '(call_id, params) =>
       let '(from_tag, params) := Params.take (lit "from-tag") params in
       from_tag ← from_tag;
       let '(to_tag, params) := Params.take (lit "to-tag") params in
       to_tag ← to_tag;
       Some {| Replaces.call_id := call_id; Replaces.from_tag := from_tag; Replaces.to_tag := to_tag;
               Replaces.early_only := bool_decide (is_Some (Params.get (lit "early-only") params)) |}).
#[export] Instance replaces_header_parse : HeaderParse Replaces.t := {| header_parse := parsed_by parse_replaces |}.
End typed.
