(* ===== verification/SipTypedProps.v ===== *)
(** * Typed headers are read as they were printed
    (sip-types/src/header/typed/*.rs, header/multiple.rs)

    One lemma per header, for what can be printed; lists of routes and
    contacts; and the first line of a request, with which a request that is sent
    arrives. *)
From S2P Require Import Prelude Text StunAttr SipNames SipHeaders SipFraming SipMessages SipParse SipUri SipUriProps SipTyped.

Section typed_props.
Context `{NL : CombinatorLaws} {U : Unicode} `{PL : PercentLaws} `{IL : Ip6Laws} `{TNL : NomLaws} {ET : ErrorText}.

(** ** Words: text that is printed as it is, and read as it is *)
Definition word (s : str) : Prop := s <> [] /\ all_of param_char s /\ x25 ∉ s.

Lemma param_char_visible : forall b, param_char [b] = true -> in_range 0x21 0x7e b = true.
Proof. by_bytes. Qed.

Lemma word_visible s : word s -> Forall (fun b => in_range 0x21 0x7e b = true) s.
Proof.
  intros (_ & Hs & _). eapply Forall_impl; [exact Hs|]. cbn. intros b [_ Hb]. by apply param_char_visible.
Qed.

Lemma word_encoded s : word s -> percent_encode (encode_set param_char) s = s.
Proof.
  intros Hs. pose proof (word_visible s Hs) as Hv. destruct Hs as (_ & Hs & _). apply encode_plain; [done|].
  eapply Forall_impl; [exact Hv|]. cbn. intros b. apply in_range_weaken; lia.
Qed.

Lemma word_text s : word s -> param_text param_char s.
Proof.
  intros Hs. pose proof (visible_utf8 s (word_visible s Hs)). pose proof (word_encoded s Hs) as He.
  destruct Hs as (Hne & Hs & Hp). split; [done|]. split; [done|]. rewrite He. auto.
Qed.

Lemma digits_word z : (0 <= z)%Z -> word (print_uint z).
Proof.
  intros Hz. split; [by apply print_uint_nonempty|]. split.
  - apply digits_all_of; [|done]. intros b Hb. unfold param_char, alphanumeric_or, alphanumeric.
    unfold dec_digit in Hb. by rewrite Hb.
  - apply digits_no_byte; [done|by apply print_uint_digits].
Qed.

Definition word_param (n v : str) : Params.Param := {| Params.name := n; Params.value := Some v |}.

Lemma word_param_ok n v : word n -> word v -> param_ok param_char (word_param n v).
Proof. intros Hn Hv. split; by apply word_text. Qed.

(** Common parameters begin with the character that separates them. *)
Lemma print_params_cons p ps : print_params CPS (p :: ps) =
  lit ";" ++ write_param (encode_set param_char) p ++ print_params CPS ps.
Proof.
  unfold print_params, filtered_print. cbn [print_params_from]. do 2 f_equal. by destruct ps.
Qed.

Lemma print_word_param n v ps : word n -> word v ->
  print_params CPS (word_param n v :: ps) = lit ";" ++ n ++ lit "=" ++ v ++ print_params CPS ps.
Proof.
  intros Hn Hv. rewrite print_params_cons. unfold write_param. cbn [Params.name Params.value word_param].
  by rewrite !word_encoded, <-!app_assoc by done.
Qed.

(** What follows a header: nothing, or the comma of a list *)
Definition header_end (r : str) : Prop := match r with [] => True | b :: _ => b = x2c end.

Lemma header_end_params r : header_end r -> after_params CPS r /\ skip_ws r = r.
Proof. intros Hr. destruct r as [|b r]; [done|]. by rewrite Hr. Qed.

Lemma params_read ps r : Forall (param_ok param_char) ps -> header_end r ->
  reads (parse_params CPS) (print_params CPS ps) ps r.
Proof.
  intros Hps Hr. destruct (header_end_params r Hr) as [Ha Hsk].
  destruct (params_reads CPS _ _ cps_ok ps r Hps Ha) as (r' & H & Hr'). rewrite Hsk in Hr'.
  unfold reads. rewrite H. by destruct Hr' as [->| ->].
Qed.

(** A parser that reads what is printed gives a header. *)
Lemma parsed_reads {A} (p : parser A) s x : reads p s x [] -> parsed_by p s = Ok ([], x).
Proof. unfold reads, parsed_by. rewrite app_nil_r. by intros ->. Qed.

(** ** Addresses with parameters: From, To, Contact, Route *)

Lemma addr_params_read ctx n ps r : name_addr_ok n -> Forall (param_ok param_char) ps -> header_end r ->
  reads parse_addr_params (NameAddr.print ctx n ++ print_params CPS ps) (addr_as_printed ctx n, ps) r.
Proof. intros Hn Hps Hr. eapply tuple_reads; [by apply name_addr_reads|by apply params_read]. Qed.

Lemma take_first n v ps : Params.take n (word_param n v :: ps) = (Some v, ps).
Proof.
  unfold Params.take, Headers.remove_where. cbn [position word_param Params.name].
  by rewrite bool_decide_eq_true_2.
Qed.

Lemma position_none {A} (f : A -> bool) l : Forall (fun x => f x = false) l -> position f l = None.
Proof. induction 1 as [|x l Hx _ IH]; [done|]. cbn. by rewrite Hx, IH. Qed.

(** No parameter has the name. *)
Definition lacks (n : str) (ps : Params.t) : Prop := Forall (fun p => Params.name p <> n) ps.

Lemma take_absent n ps : lacks n ps -> Params.take n ps = (None, ps).
Proof.
  intros H. unfold Params.take, Headers.remove_where. rewrite position_none; [done|].
  eapply Forall_impl; [exact H|]. cbn. intros p Hp. by apply bool_decide_eq_false_2.
Qed.

Record from_to_ok (f : FromTo.t NameAddr.t) : Prop := {
  ft_addr : name_addr_ok (FromTo.uri f);
  ft_tag : match FromTo.tag f with Some t => word t | None => lacks (lit "tag") (FromTo.params f) end;
  ft_params : Forall (param_ok param_char) (FromTo.params f) }.

Ltac by_word := split; [done|]; split; [by repeat constructor|by apply (bool_decide_eq_false_1 _)].

Lemma from_to_reads ctx f r : from_to_ok f -> header_end r ->
  reads parse_from_to (print_from_to ctx f)
    {| FromTo.uri := addr_as_printed (in_uri InFromTo ctx) (FromTo.uri f); FromTo.tag := FromTo.tag f;
       FromTo.params := FromTo.params f |} r.
Proof.
  intros [Ha Ht Hp] Hr. destruct f as [n t ps]. cbn [FromTo.uri FromTo.tag FromTo.params] in *.
  unfold parse_from_to, print_from_to. cbn [FromTo.uri FromTo.tag FromTo.params].
  assert (word (lit "tag")) as Hw by by_word.
  destruct t as [t|].
  - replace (lit ";tag=" ++ t) with (lit ";" ++ lit "tag" ++ lit "=" ++ t) by done.
    rewrite <-!app_assoc, <-print_word_param by done. unfold reads. fold parse_addr_params.
    rewrite map_law, addr_params_read; [|done|by constructor; [apply word_param_ok|]|done].
    cbn [mbind option_bind]. by rewrite take_first.
  - unfold reads. cbn [app]. fold parse_addr_params. rewrite map_law, addr_params_read by done. cbn [mbind option_bind].
    by rewrite take_absent.
Qed.

Definition addr_ok (n : NameAddr.t) (ps : Params.t) : Prop := name_addr_ok n /\ Forall (param_ok param_char) ps.

Lemma contact_reads ctx c r : addr_ok (ContactHeader.uri c) (ContactHeader.params c) -> header_end r ->
  reads parse_contact (print_contact ctx c)
    {| ContactHeader.uri := addr_as_printed (in_uri InContact ctx) (ContactHeader.uri c);
       ContactHeader.params := ContactHeader.params c |} r.
Proof. intros [Hn Hp] Hr. unfold parse_contact, print_contact, reads. by rewrite map_law, addr_params_read. Qed.

Lemma routing_reads ctx x r : addr_ok (Routing.uri x) (Routing.params x) -> header_end r ->
  reads parse_routing (print_routing ctx x)
    {| Routing.uri := addr_as_printed (in_uri InRouting ctx) (Routing.uri x); Routing.params := Routing.params x |} r.
Proof. intros [Hn Hp] Hr. unfold parse_routing, print_routing, reads. by rewrite map_law, addr_params_read. Qed.

(** ** Via *)
Record via_ok (v : Via.t) : Prop := {
  via_transport : Via.transport v <> [] /\ all_of token (Via.transport v);
  via_sent_by : host_port_ok (Via.sent_by v);
  via_params : Forall (param_ok param_char) (Via.params v) }.

Lemma sip_version_reads r : reads parse_sip_version (lit "SIP/2.0/") tt r.
Proof.
  unfold reads, parse_sip_version. rewrite map_law. unfold ws4.
  destruct (take_ws_skip (lit "SIP/2.0/" ++ r)) as [w ->]. cbn [mbind option_bind].
  change (skip_ws (lit "SIP/2.0/" ++ r)) with (lit "SIP" ++ lit "/2.0/" ++ r). rewrite tag_reads. cbn [mbind option_bind].
  destruct (take_ws_skip (lit "/2.0/" ++ r)) as [w' ->]. cbn [mbind option_bind].
  change (skip_ws (lit "/2.0/" ++ r)) with (lit "/" ++ lit "2.0/" ++ r). rewrite tag_reads. cbn [mbind option_bind].
  destruct (take_ws_skip (lit "2.0/" ++ r)) as [w'' ->]. cbn [mbind option_bind].
  change (skip_ws (lit "2.0/" ++ r)) with (lit "2.0" ++ lit "/" ++ r). rewrite tag_reads. cbn [mbind option_bind].
  destruct (take_ws_skip (lit "/" ++ r)) as [w''' ->]. cbn [mbind option_bind].
  change (skip_ws (lit "/" ++ r)) with (lit "/" ++ r). by rewrite tag_reads.
Qed.

(** Visible text is no white space. *)
Lemma visible_stops s r : no_at s -> header_end r -> stops whitespace (s ++ r).
Proof.
  intros Hs Hr. destruct s as [|b s]; cbn [app].
  - destruct r as [|b r]; [done|]. by rewrite Hr.
  - inversion Hs as [|? ? [Hb _] _]; subst. unfold stops.
    assert (in_range 0 127 b = true) as Ha by (revert Hb; apply in_range_weaken; lia).
    rewrite char_len_ascii by done. cbn. apply bool_decide_eq_false_2. intros Hin.
    assert (in_range 0x21 0x7e x20 = false /\ in_range 0x21 0x7e x09 = false /\ in_range 0x21 0x7e x0d = false /\
      in_range 0x21 0x7e x0a = false) as (? & ? & ? & ?) by done.
    repeat (apply elem_of_cons in Hin as [[= ->]|Hin]; [congruence|]). by apply elem_of_nil in Hin.
Qed.

Lemma delimited_header ps r : header_end r -> ps <> [] \/ r = [] -> delimited_by (print_params CPS ps ++ r).
Proof.
  intros Hr Hne. destruct ps as [|p ps].
  - destruct Hne as [Hne| ->]; done.
  - rewrite print_params_cons. by apply (bool_decide_eq_true_1 _).
Qed.

Lemma no_at_cps ps : Forall (param_ok param_char) ps -> no_at (print_params CPS ps).
Proof.
  intros Hps. apply (no_at_params _ _ _ _ cps_ok); [|by repeat constructor|by repeat constructor|done].
  intros b Hb. apply uri_classes. tauto.
Qed.

Lemma via_reads ctx v r : via_ok v -> header_end r -> Via.params v <> [] \/ r = [] ->
  reads parse_via (print_via ctx v)
    {| Via.transport := Via.transport v; Via.sent_by := keep_host_port ctx (Via.sent_by v); Via.params := Via.params v |} r.
Proof.
  intros [[Hne Ht] Hh Hp] Hr Hd. unfold parse_via, print_via.
  eapply (map_reads _ (fun '(tp, (hp, p)) => {| Via.transport := tp; Via.sent_by := hp; Via.params := p |})
    _ (Via.transport v, (keep_host_port ctx (Via.sent_by v), Via.params v))).
  replace (lit "SIP/2.0/" ++ Via.transport v ++ lit " " ++ print_host_port ctx (Via.sent_by v) ++ print_params CPS (Via.params v))
    with ((lit "SIP/2.0/" ++ [] ++ Via.transport v ++ lit " ") ++ print_host_port ctx (Via.sent_by v) ++
      print_params CPS (Via.params v)) by (rewrite <-!app_assoc; done).
  assert (stops whitespace ((print_host_port ctx (Via.sent_by v) ++ print_params CPS (Via.params v)) ++ r)) as Hs.
  { apply visible_stops; [|done]. apply Forall_app. split; [by apply no_at_host_port|by apply no_at_cps]. }
  apply tuple_reads.
  - eapply preceded_reads; [apply sip_version_reads|]. eapply delimited_reads.
    + apply take_while_reads; [constructor|]. destruct (Via.transport v) as [|b s]; [done|].
      inversion Ht as [|? ? [Ha Hb] _]; subst. unfold stops. cbn [app]. rewrite char_len_ascii by done.
      cbn [take]. assert (forall b, token [b] = true -> whitespace [b] = false) as H by by_bytes. by apply H.
    + by apply take_while_reads.
    + apply take_while_reads; [by repeat constructor|done].
  - apply tuple_reads; [|by apply params_read]. apply host_port_reads; [done|]. by apply delimited_header.
Qed.

(** ** Numbers and methods: CSeq, RAck *)
Lemma u32_reads z r : uint 32 z -> no_digit r -> reads parse_u32 (print_uint z) z r.
Proof.
  intros Hz Hr. unfold parse_u32. eapply map_res_reads; [|by apply parse_print_uint].
  apply digit1_reads; [apply print_uint_nonempty, Hz|apply print_uint_digits, Hz|done].
Qed.

Lemma token_stops m r : method_ok m -> stops whitespace (Method.display m ++ r) /\
  skip_ws (Method.display m ++ r) = Method.display m ++ r.
Proof.
  intros (Hne & Ht & _). destruct (Method.display m) as [|b s]; [done|].
  inversion Ht as [|? ? [Ha Hb] _]; subst. unfold stops. cbn [app]. rewrite char_len_ascii by done. cbn [take].
  assert (forall b, token [b] = true -> whitespace [b] = false /\ is_ascii_whitespace b = false) as H by by_bytes.
  split; [by apply H|]. by apply skip_ws_visible, H.
Qed.

Lemma header_end_token r : header_end r -> stops token r.
Proof. intros Hr. destruct r as [|b r]; [done|]. by rewrite Hr. Qed.

Lemma cseq_reads c r : uint 32 (CSeq.cseq c) -> method_ok (CSeq.method c) -> header_end r ->
  reads parse_cseq (CSeq.print c) c r.
Proof.
  intros Hc Hm Hr. unfold reads, parse_cseq, CSeq.print. rewrite map_res_law, separated_pair_law, <-!app_assoc.
  rewrite u32_reads by done. cbn [mbind option_bind].
  change (lit " " ++ ?a) with ([x20] ++ a). destruct (token_stops _ r Hm) as [Hs _].
  rewrite take_while_reads by (done || by repeat constructor). cbn [mbind option_bind].
  rewrite method_reads by (done || by apply header_end_token). by destruct c.
Qed.

Lemma skip_digits z r : (0 <= z)%Z -> skip_ws (print_uint z ++ r) = print_uint z ++ r.
Proof.
  intros Hz. apply (skip_ws_text is_dec_digit); [by apply print_uint_nonempty|by apply digits_all_of|by by_bytes].
Qed.

Lemma skip_space i : skip_ws (lit " " ++ i) = skip_ws i.
Proof. unfold skip_ws. cbn. by destruct (span is_ascii_whitespace i). Qed.

Lemma rack_reads x r : uint 32 (RAck.rack x) -> uint 32 (RAck.cseq x) -> method_ok (RAck.method x) -> header_end r ->
  reads parse_rack (RAck.print x) x r.
Proof.
  intros Hk Hc Hm Hr. unfold reads, parse_rack, RAck.print. rewrite map_law, ws3_skip, <-!app_assoc.
  rewrite skip_digits by apply Hk. rewrite u32_reads by done. cbn [mbind option_bind].
  rewrite skip_space, skip_digits by apply Hc.
  rewrite u32_reads by done. cbn [mbind option_bind]. destruct (token_stops _ r Hm) as [_ Hs].
  rewrite skip_space, Hs.
  rewrite method_reads by (done || by apply header_end_token). by destruct x.
Qed.

(** ** Values before parameters: Session-Expires, Retry-After, Subscription-State, Replaces *)
Lemma skip_params ps r : header_end r -> skip_ws (print_params CPS ps ++ r) = print_params CPS ps ++ r.
Proof.
  intros Hr. destruct ps as [|p ps]; [by apply header_end_params|]. rewrite print_params_cons, <-app_assoc.
  by apply skip_ws_visible.
Qed.

Lemma ws_params_reads {A} (p : parser A) s x ps r : skip_ws (s ++ print_params CPS ps ++ r) = s ++ print_params CPS ps ++ r ->
  reads p s x (print_params CPS ps ++ r) -> Forall (param_ok param_char) ps -> header_end r ->
  reads (ws p (parse_params CPS)) (s ++ print_params CPS ps) (x, ps) r.
Proof.
  intros Hs Hp Hps Hr. unfold reads in *. rewrite ws_skip, <-app_assoc, Hs, Hp. cbn [mbind option_bind].
  by rewrite skip_params, params_read.
Qed.

Lemma params_no_digit ps r : header_end r -> no_digit (print_params CPS ps ++ r).
Proof. intros Hr. destruct ps as [|p ps]; [|by rewrite print_params_cons]. destruct r as [|b r]; [done|]. by rewrite Hr. Qed.

Definition refresher_params (f : Refresher.t) : Params.t :=
  match f with
  | Refresher.Unspecified => []
  | Refresher.Uas => [word_param (lit "refresher") (lit "uas")]
  | Refresher.Uac => [word_param (lit "refresher") (lit "uac")]
  end.

Lemma refresher_words : word (lit "refresher") /\ word (lit "uas") /\ word (lit "uac").
Proof. repeat split; try done; try (by repeat constructor); by apply (bool_decide_eq_false_1 _). Qed.

Lemma session_expires_reads s r : uint 32 (SessionExpires.delta_secs s) -> header_end r ->
  reads parse_session_expires (SessionExpires.print s) s r.
Proof.
  intros Hd Hr. destruct refresher_words as (Hrw & Huas & Huac).
  assert (SessionExpires.print s = print_uint (SessionExpires.delta_secs s) ++
    print_params CPS (refresher_params (SessionExpires.refresher s))) as ->.
  { unfold SessionExpires.print. f_equal. by destruct (SessionExpires.refresher s); cbn [refresher_params];
      rewrite ?print_word_param by done. }
  unfold parse_session_expires, reads. rewrite map_law, (ws_params_reads _ _ (SessionExpires.delta_secs s)).
  - cbn [mbind option_bind]. destruct s as [d []]; reflexivity.
  - apply skip_digits, Hd.
  - eapply map_res_reads; [|by apply parse_print_uint].
    unfold reads. rewrite alphanumeric1_law, span_stop.
    + rewrite decide_False; [done|]. apply print_uint_nonempty, Hd.
    + eapply Forall_impl; [apply print_uint_digits, Hd|]. cbn. intros b Hb. unfold alphanumeric. by rewrite Hb.
    + destruct (refresher_params _); [|by rewrite print_params_cons]. destruct r as [|b r]; [done|]. by rewrite Hr.
  - destruct s as [d []]; cbn [refresher_params SessionExpires.refresher]; [constructor|..];
      (constructor; [by apply word_param_ok|constructor]).
  - done.
Qed.

Definition retry_after_ok (x : RetryAfter.t) : Prop :=
  uint 32 (RetryAfter.value x) /\ Forall (param_ok param_char) (RetryAfter.params x) /\
  match RetryAfter.comment x with Some c => c <> [] /\ x29 ∉ c | None => True end.

Lemma retry_after_reads x : retry_after_ok x -> reads parse_retry_after (print_retry_after x) x [].
Proof.
  destruct x as [v ps c]. intros (Hv & Hps & Hc). cbn [RetryAfter.value RetryAfter.params RetryAfter.comment] in *.
  unfold parse_retry_after, print_retry_after, reads. cbn [RetryAfter.value RetryAfter.params RetryAfter.comment].
  rewrite app_nil_r, map_law, tuple_law. set (t := match c with Some _ => _ | None => _ end).
  assert (no_digit (print_params CPS ps ++ t) /\ after_params CPS t) as [Hnd Ha].
  { destruct c as [c|]; [split; [destruct ps; [done|by rewrite print_params_cons]|done]|].
    split; [by apply params_no_digit|done]. }
  rewrite u32_reads by done. cbn [mbind option_bind]. rewrite tuple_law.
  destruct (params_reads CPS _ _ cps_ok ps t Hps Ha) as (r' & -> & Hr'). cbn [mbind option_bind].
  assert (opt (preceded (take_while whitespace) (delimited (tag (lit "(")) (is_not (lit ")")) (tag (lit ")")))) r' = Some ([], c)) as ->; [|done].
  destruct c as [c|].
  - destruct Hc as [Hne Hc]. rewrite opt_law, preceded_law.
    assert (exists w, take_while whitespace r' = Some (lit "(" ++ c ++ lit ")", w)) as [w ->].
    { assert (skip_ws t = lit "(" ++ c ++ lit ")") as Hsk by (unfold t; by apply (skip_ws_visible x28)). rewrite Hsk in Hr'.
      destruct Hr' as [->| ->].
      - exists [x20]. apply (take_while_reads whitespace [x20]); [by repeat constructor|done].
      - exists []. apply (take_while_reads whitespace []); [constructor|done]. }
    cbn [mbind option_bind]. rewrite delimited_law, tag_reads. cbn [mbind option_bind].
    rewrite is_not_law by (by repeat constructor). rewrite span_stop.
    + rewrite decide_False by done. cbn [mbind option_bind]. by rewrite <-(app_nil_r (lit ")")), tag_reads.
    + apply Forall_forall. intros b Hb. rewrite bool_decide_eq_false_2; [done|].
      intros ->%list_elem_of_singleton. done.
    + done.
  - assert (r' = []) as -> by (destruct Hr' as [->| ->]; done).
    apply (opt_nothing _ []). rewrite preceded_law, (take_while_reads whitespace [] []) by (done || constructor).
    cbn [mbind option_bind]. rewrite delimited_law. by rewrite tag_nothing.
Qed.

Lemma take_middle n v ps qs : lacks n ps -> Params.take n (ps ++ word_param n v :: qs) = (Some v, ps ++ qs).
Proof.
  intros Hps. unfold Params.take, Headers.remove_where.
  assert (position (fun x => bool_decide (Params.name x = n)) (ps ++ word_param n v :: qs) = Some (length ps)) as ->.
  { induction Hps as [|p ps Hp _ IH]; cbn [app position].
    - by rewrite bool_decide_eq_true_2.
    - rewrite bool_decide_eq_false_2 by done. by rewrite IH. }
  cbn [mbind option_bind]. rewrite list_lookup_middle by done. cbn [mbind option_bind].
  by rewrite delete_middle.
Qed.

Definition opt_param (n : str) (v : option str) : Params.t :=
  match v with Some v => [word_param n v] | None => [] end.

Lemma opt_param_ok n v : word n -> (forall x, v = Some x -> word x) -> Forall (param_ok param_char) (opt_param n v).
Proof. intros Hn Hv. destruct v as [v|]; [|constructor]. constructor; [|constructor]. apply word_param_ok; [done|by apply Hv]. Qed.

Lemma lacks_opt n m v : n <> m -> lacks n (opt_param m v).
Proof. intros H. destruct v; repeat constructor. cbn. congruence. Qed.

Lemma take_opt n v ps qs : lacks n ps -> lacks n qs ->
  Params.take n (ps ++ opt_param n v ++ qs) = (v, ps ++ qs).
Proof.
  intros Hps Hqs. destruct v as [v|]; [by apply take_middle|]. apply take_absent, Forall_app. done.
Qed.

Lemma print_opt_param n v ps : word n -> (forall x, v = Some x -> word x) ->
  print_params CPS (opt_param n v ++ ps) =
  match v with Some v => lit ";" ++ n ++ lit "=" ++ v | None => [] end ++ print_params CPS ps.
Proof.
  intros Hn Hv. destruct v as [v|]; [|done]. cbn [opt_param app]. rewrite print_word_param by auto. by rewrite <-!app_assoc.
Qed.

Ltac is_word := split; [done|]; split; [by repeat constructor|by apply (bool_decide_eq_false_1 _)].

(** A reason a subscription can have: a known one, or another word *)
Definition reason_ok (r : SubscriptionState.EventReasonValue) : Prop :=
  word (SubscriptionState.print_reason r) /\ SubscriptionState.read_reason (SubscriptionState.print_reason r) = r.

Record subscription_state_ok (s : SubscriptionState.t) : Prop := {
  ss_expires : forall e, SubscriptionState.expires s = Some e -> uint 32 e;
  ss_reason : forall r, SubscriptionState.reason s = Some r -> reason_ok r;
  ss_retry : forall a, SubscriptionState.retry_after s = Some a -> uint 32 a;
  ss_params : Forall (param_ok param_char) (SubscriptionState.params s);
  ss_lacks : lacks (lit "expires") (SubscriptionState.params s) /\ lacks (lit "reason") (SubscriptionState.params s) /\
    lacks (lit "retry-after") (SubscriptionState.params s) }.

Lemma optional_number (o : option Z) : (forall e, o = Some e -> uint 32 e) ->
  (forall x, print_uint <$> o = Some x -> word x) /\ (x ← print_uint <$> o; parse_uint 32 x) = o.
Proof.
  intros Ho. destruct o as [e|]; [|done]. specialize (Ho e eq_refl). split.
  - intros x [= <-]. apply digits_word, Ho.
  - cbn. by apply parse_print_uint.
Qed.

Lemma subscription_state_reads s : subscription_state_ok s ->
  reads parse_subscription_state (print_subscription_state s) s [].
Proof.
  destruct s as [st e r a ps]. intros [He Hr Ha Hps (Hl1 & Hl2 & Hl3)].
  cbn [SubscriptionState.expires SubscriptionState.reason SubscriptionState.retry_after SubscriptionState.params] in *.
  destruct (optional_number e He) as [Hew Hep]. destruct (optional_number a Ha) as [Haw Hap].
  assert (word (lit "expires") /\ word (lit "reason") /\ word (lit "retry-after")) as (W1 & W2 & W3) by (split; [|split]; is_word).
  assert (forall x, SubscriptionState.print_reason <$> r = Some x -> word x) as Hrw.
  { intros x Hx. destruct r as [r|]; [|done]. injection Hx as <-. by apply Hr. }
  set (all := opt_param (lit "expires") (print_uint <$> e) ++
    opt_param (lit "reason") (SubscriptionState.print_reason <$> r) ++ opt_param (lit "retry-after") (print_uint <$> a) ++ ps).
  assert (print_subscription_state {| SubscriptionState.state := st; SubscriptionState.expires := e; SubscriptionState.reason := r;
    SubscriptionState.retry_after := a; SubscriptionState.params := ps |} =
    SubscriptionState.print_state st ++ print_params CPS all) as ->.
  { unfold print_subscription_state, all. rewrite !print_opt_param by done. f_equal.
    by destruct e, r, a; cbn [fmap option_fmap option_map]; rewrite <-?app_assoc. }
  unfold parse_subscription_state, reads. rewrite map_res_law, (ws_params_reads _ _ (SubscriptionState.print_state st)).
  - cbn [mbind option_bind].
    assert (SubscriptionState.read_state (SubscriptionState.print_state st) = Some st) as -> by (by destruct st).
    cbn [mbind option_bind]. unfold all.
    assert (forall n m v qs, n <> m -> lacks n qs -> lacks n (opt_param m v ++ qs)) as Hla
      by (intros; apply Forall_app; split; [by apply lacks_opt|done]).
    rewrite (take_opt (lit "reason")); [|by apply lacks_opt|by apply Hla].
    rewrite <-(app_nil_l (opt_param (lit "expires") _ ++ _)), take_opt; [|constructor|by apply Hla].
    cbn [app]. rewrite <-(app_nil_l (opt_param (lit "retry-after") _ ++ _)), take_opt by (done || constructor).
    cbn [app mbind option_bind].
    rewrite Hep, Hap. f_equal. f_equal. f_equal.
    destruct r as [r|]; [|done]. cbn. f_equal. by apply (Hr r).
  - rewrite app_nil_r. by destruct st.
  - apply take_while1_reads; [by destruct st|by destruct st; repeat constructor|].
    rewrite app_nil_r. destruct all; [done|]. by rewrite print_params_cons.
  - unfold all. repeat (apply Forall_app; split); try (by apply opt_param_ok); done.
  - done.
Qed.

Definition replaces_ok (x : Replaces.t) : Prop :=
  Replaces.call_id x <> [] /\ all_of not_semicolon (Replaces.call_id x) /\
  (match Replaces.call_id x with b :: _ => is_ascii_whitespace b = false | [] => True end) /\
  word (Replaces.from_tag x) /\ word (Replaces.to_tag x).

Lemma replaces_reads x : replaces_ok x -> reads parse_replaces (Replaces.print x) x [].
Proof.
  destruct x as [c f t e]. intros (Hne & Hc & Hh & Hf & Ht). cbn [Replaces.call_id Replaces.from_tag Replaces.to_tag] in *.
  assert (word (lit "from-tag") /\ word (lit "to-tag") /\ word (lit "early-only")) as (W1 & W2 & W3) by (split; [|split]; is_word).
  set (last := if e then [{| Params.name := lit "early-only"; Params.value := None |}] else []).
  set (all := word_param (lit "from-tag") f :: word_param (lit "to-tag") t :: last).
  assert (Replaces.print {| Replaces.call_id := c; Replaces.from_tag := f; Replaces.to_tag := t; Replaces.early_only := e |} =
    c ++ print_params CPS all) as ->.
  { unfold Replaces.print, all. cbn [Replaces.call_id Replaces.from_tag Replaces.to_tag Replaces.early_only].
    rewrite !print_word_param by done.
    assert (print_params CPS last = if e then lit ";early-only" else []) as ->; [|done].
    subst last. destruct e; [|done]. rewrite print_params_cons. unfold write_param. cbn [Params.name Params.value].
    by rewrite word_encoded. }
  unfold parse_replaces, reads. rewrite map_res_law, (ws_params_reads _ _ c).
  - cbn [mbind option_bind]. unfold all. rewrite take_first. cbn [mbind option_bind]. rewrite take_first.
    cbn [mbind option_bind]. subst last. by destruct e.
  - destruct c as [|b c]; [done|]. by apply skip_ws_visible.
  - apply take_while1_reads; [done|done|]. unfold all. by rewrite print_params_cons.
  - constructor; [by apply word_param_ok|]. constructor; [by apply word_param_ok|]. subst last.
    destruct e; [|constructor]. constructor; [|constructor]. split; [by apply word_text|done].
  - done.
Qed.

(** ** Lists: values of routes and contacts separated by commas *)
Lemma append_all {A} (pr : A -> str) l s :
  foldl (fun values y => CsvHeader.append_last (pr y) values) (OneOrMore.One s) l =
  OneOrMore.One (s ++ concat ((fun y => lit ", " ++ pr y) <$> l)).
Proof.
  revert s. induction l as [|y l IH]; intros s; cbn [foldl fmap list_fmap concat CsvHeader.append_last]; [by rewrite app_nil_r|].
  rewrite IH. by rewrite <-!app_assoc.
Qed.

(** Text that begins with a visible character other than a comma *)
Lemma strip_front b r n : in_range 0x21 0x7e b = true -> b <> x2c ->
  trim_start (b :: r) = b :: r /\
  strip_chars ([x2c] :: white_space) (S (S n)) (x2c :: x20 :: b :: r) = b :: r.
Proof.
  intros Hb Hc. destruct (white_space_heads b Hb) as [Hw _]. split; [by apply strip_chars_none|].
  change (strip_chars ([x2c] :: white_space) n (b :: r) = b :: r). apply strip_chars_none.
  constructor; [|done]. by eexists _, _.
Qed.

Lemma name_addr_front ctx n r : exists b t, NameAddr.print ctx n ++ r = b :: t /\ in_range 0x21 0x7e b = true /\ b <> x2c.
Proof. unfold NameAddr.print. destruct (NameAddr.name n); eexists _, _; (split; [reflexivity|done]). Qed.

(** The loop over a value reads every item of a list. *)
Lemma items_read {A} `{HeaderParse A} (pr : A -> str) (kept : A -> A) (x : A) l fuel :
  (forall y r, y ∈ x :: l -> header_end r -> header_parse (pr y ++ r) = Ok (r, kept y)) ->
  (forall y r, y ∈ x :: l -> exists b t, pr y ++ r = b :: t /\ in_range 0x21 0x7e b = true /\ b <> x2c) ->
  (length (pr x ++ concat ((fun y => lit ", " ++ pr y) <$> l)) < fuel)%nat ->
  parse_items fuel (pr x ++ concat ((fun y => lit ", " ++ pr y) <$> l)) = kept <$> (x :: l).
Proof.
  revert x fuel. induction l as [|y l IH]; intros x fuel Hp Hfront Hf; (destruct fuel as [|fuel]; [lia|]).
  - cbn [fmap list_fmap concat parse_items]. by rewrite Hp by (done || left).
  - cbn [fmap list_fmap concat] in *. rewrite <-app_assoc in *. set (rest := pr y ++ _) in *.
    cbn [parse_items]. rewrite Hp by (done || left).
    assert (trim_start (lit ", " ++ rest) = lit ", " ++ rest) as -> by done.
    assert (starts_with [x2c] (lit ", " ++ rest) = true) as -> by done.
    assert (strip_chars ([x2c] :: white_space) (S (S (length rest))) (x2c :: x20 :: rest) = rest) as Hs.
    { destruct (Hfront y (concat ((fun y => lit ", " ++ pr y) <$> l)) ltac:(right; left)) as (b & t & E & Hb & Hc).
      unfold rest. rewrite E. by apply strip_front. }
    change (lit ", " ++ rest) with (x2c :: x20 :: rest). cbn [length]. rewrite Hs. cbn [fmap list_fmap]. f_equal. apply IH.
    + intros z r Hz. apply Hp. by right.
    + intros z r Hz. apply Hfront. by right.
    + rewrite length_app in Hf. fold rest. cbn in Hf. lia.
Qed.

(** A list of headers with addresses that is printed into one value is read
    as the list of what the context keeps. *)
Lemma addr_list_reads {A} `{HeaderParse A, ExtendValues A} (pr : A -> str) (kept : A -> A) x l :
  (forall y, create_values y = OneOrMore.One (pr y)) ->
  (forall y vs, extend_values y vs = CsvHeader.append_last (pr y) vs) ->
  (forall y r, y ∈ x :: l -> exists b t, pr y ++ r = b :: t /\ in_range 0x21 0x7e b = true /\ b <> x2c) ->
  (forall y r, y ∈ x :: l -> header_end r -> header_parse (pr y ++ r) = Ok (r, kept y)) ->
  exists v, create_multiple (x :: l) = Ret v /\ decode_values (OneOrMore.to_list v) = Ok (kept <$> (x :: l)).
Proof.
  intros Hcr Hex Hfront Hp. eexists. split; [reflexivity|]. rewrite Hcr. unfold extend_multiple.
  assert (forall vs, foldl (fun values item => extend_values item values) vs l =
    foldl (fun values y => CsvHeader.append_last (pr y) values) vs l) as ->.
  { clear Hp Hfront. induction l as [|y l IH]; intros vs; [done|]. cbn. by rewrite Hex, IH. }
  rewrite append_all. unfold decode_values, decode_values_list, decode_multiple. f_equal.
  etrans; [apply app_nil_r|]. by apply items_read; [..|lia].
Qed.

Lemma routes_read_back x l : Forall (fun y => addr_ok (Routing.uri y) (Routing.params y)) (x :: l) ->
  exists v, create_multiple (x :: l) = Ret v /\ decode_values (OneOrMore.to_list v) =
    Ok ((fun y => {| Routing.uri := addr_as_printed (in_uri InRouting PrintCtx.default) (Routing.uri y);
                     Routing.params := Routing.params y |}) <$> (x :: l)).
Proof.
  intros Hl. apply (addr_list_reads (print_routing PrintCtx.default)); try done.
  - intros y r _. unfold print_routing. rewrite <-app_assoc. apply name_addr_front.
  - intros y r Hy Hr. rewrite Forall_forall in Hl. cbn. unfold parsed_by.
    pose proof (routing_reads PrintCtx.default y r (Hl y Hy) Hr) as H. unfold reads in H. by rewrite H.
Qed.

Lemma contacts_read_back x l : Forall (fun y => addr_ok (ContactHeader.uri y) (ContactHeader.params y)) (x :: l) ->
  exists v, create_multiple (x :: l) = Ret v /\ decode_values (OneOrMore.to_list v) =
    Ok ((fun y => {| ContactHeader.uri := addr_as_printed (in_uri InContact PrintCtx.default) (ContactHeader.uri y);
                     ContactHeader.params := ContactHeader.params y |}) <$> (x :: l)).
Proof.
  intros Hl. apply (addr_list_reads (print_contact PrintCtx.default)); try done.
  - intros y r _. unfold print_contact. rewrite <-app_assoc. apply name_addr_front.
  - intros y r Hy Hr. rewrite Forall_forall in Hl. cbn. unfold parsed_by.
    pose proof (contact_reads PrintCtx.default y r (Hl y Hy) Hr) as H. unfold reads in H. by rewrite H.
Qed.

(** ** Lists of words, numbers and texts that are trimmed *)
Definition csv_item (x : CsvHeader.t) : Prop :=
  (exists b t, CsvHeader.item x = b :: t /\ in_range 0x21 0x7e b = true) /\ x2c ∉ CsvHeader.item x.

Lemma csv_item_reads x r : x2c ∉ CsvHeader.item x -> header_end r -> header_parse (CsvHeader.item x ++ r) = Ok (r, x).
Proof.
  intros Hx Hr. destruct x as [s]. cbn in *. assert (Forall (fun c => bool_decide (c = x2c) = false) s) as Hs.
  { apply Forall_forall. intros c Hc. apply bool_decide_eq_false. by intros ->. }
  destruct (position _ (s ++ r)) as [n|] eqn:E.
  - destruct r as [|b r]; [apply position_Some in E as (c & Hc & Hp & _); rewrite app_nil_r in Hc;
      apply list_elem_of_lookup_2 in Hc; rewrite Forall_forall in Hs; specialize (Hs c Hc); congruence|].
    cbn in Hr. subst b. assert (n = length s) as ->.
    { apply position_Some in E as (c & Hc & Hp & Hbefore). destruct (lt_eq_lt_dec n (length s)) as [[Hn|Hn]|Hn]; [|done|].
      - rewrite lookup_app_l in Hc by done. apply list_elem_of_lookup_2 in Hc. rewrite Forall_forall in Hs.
        specialize (Hs c Hc). congruence.
      - specialize (Hbefore (length s) x2c Hn). rewrite list_lookup_middle in Hbefore by done. by specialize (Hbefore eq_refl). }
    by rewrite drop_app_length, take_app_length.
  - apply position_None, Forall_app in E as [_ E]. destruct r as [|b r]; [by rewrite app_nil_r|].
    cbn in Hr. subst b. by inversion E.
Qed.

Lemma items_read_back x l : Forall csv_item (x :: l) ->
  exists v, create_multiple (x :: l) = Ret v /\ decode_values (OneOrMore.to_list v) = Ok (x :: l).
Proof.
  intros Hl. rewrite Forall_forall in Hl. destruct (addr_list_reads CsvHeader.item (fun y => y) x l) as (v & E & H); try done.
  - intros y r Hy. destruct (Hl y Hy) as [(b & t & E & Hb) Hc]. exists b, (t ++ r). rewrite E. split; [done|]. split; [done|].
    intros ->. apply Hc. rewrite E. left.
  - intros y r Hy Hr. apply csv_item_reads; [|done]. apply (Hl y Hy).
  - exists v. by rewrite list_fmap_id in H.
Qed.

Lemma number_trimmed w z : (0 <= w <= 64)%Z -> uint w z -> parse_uint w (trim (print_uint z)) = Some z.
Proof.
  intros Hw Hz. assert (0 <= z)%Z as H0 by (unfold uint in Hz; lia). rewrite trim_visible; [by apply parse_print_uint| |].
  - by apply print_uint_nonempty.
  - by apply print_uint_visible.
Qed.

(** [from_str_header!], and the texts that are trimmed *)
Lemma number_reads_back {H} `{ExtendValues H, HeaderParse H} (mk : Z -> H) w z : (0 <= w <= 64)%Z -> uint w z ->
  create_values (mk z) = OneOrMore.One (print_uint z) ->
  (forall v, header_parse v = match parse_uint w (trim v) with Some n => Ok ([], mk n) | None => Err v end) ->
  reads_back (mk z).
Proof.
  intros Hw Hz Hc Hp. unfold reads_back, decode_values, decode_values_one. rewrite Hc. cbn [OneOrMore.to_list decode_first].
  by rewrite Hp, number_trimmed.
Qed.

Lemma text_reads_back {H} `{ExtendValues H, HeaderParse H} (mk : str -> H) s : trim s = s ->
  create_values (mk s) = OneOrMore.One s -> (forall v, header_parse v = Ok ([], mk (trim v))) -> reads_back (mk s).
Proof.
  intros Hs Hc Hp. unfold reads_back, decode_values, decode_values_one. rewrite Hc. cbn [OneOrMore.to_list decode_first].
  by rewrite Hp, Hs.
Qed.

(** ** The first line of a request *)
Definition visible_text (s : str) : Prop := Forall (fun b => in_range 0x21 0x7e b = true) s.

Lemma all_of_visible p s : (forall b, p [b] = true -> in_range 0x21 0x7e b = true) -> all_of p s -> visible_text s.
Proof. intros Hp Hs. eapply Forall_impl; [exact Hs|]. cbn. intros b [_ Hb]. by apply Hp. Qed.

Lemma no_at_visible s : no_at s -> visible_text s.
Proof. intros Hs. eapply Forall_impl; [exact Hs|]. by intros b [? _]. Qed.

Lemma user_char_visible : forall b, SipUri.user_char [b] = true -> in_range 0x21 0x7e b = true.
Proof. by_bytes. Qed.
Lemma password_char_visible : forall b, SipUri.password_char [b] = true -> in_range 0x21 0x7e b = true.
Proof. by_bytes. Qed.
Lemma token_visible : forall b, token [b] = true -> in_range 0x21 0x7e b = true /\ b <> x3a /\ b <> x2f.
Proof. by_bytes. Qed.

(** A printed URI is visible ASCII text. *)
Lemma uri_visible ctx u : uri_ok u -> visible_text (SipUri.print ctx u).
Proof.
  intros Hu. rewrite print_uri. destruct (as_printed_ok ctx u Hu) as [Hps Hhs]. destruct Hu as [Huser Hhost _ _].
  unfold visible_text. do 4 rewrite Forall_app. split; [|split; [|split; [|split]]].
  - destruct (SipUri.sips u); by repeat constructor.
  - destruct (SipUri.user_part u) as [|user|user pw]; cbn [user_ok print_user] in *; [constructor|..].
    + destruct Huser as [Hu Hp]. destruct (user_text user Hu Hp) as [Ht _].
      apply Forall_app. split; [|by repeat constructor]. by apply (all_of_visible _ _ user_char_visible).
    + destruct Huser as (Hu & Hp & Hpw). destruct (user_text user Hu Hp) as [Ht _].
      repeat (apply Forall_app; split); try (by repeat constructor).
      * by apply (all_of_visible _ _ user_char_visible).
      * by apply (all_of_visible _ _ password_char_visible).
  - by apply no_at_visible, no_at_host_port.
  - by apply no_at_visible, no_at_cps.
  - apply no_at_visible, (no_at_params _ _ _ _ hps_ok); [|by repeat constructor|by repeat constructor|done].
    intros b Hb. apply uri_classes. tauto.
Qed.

(** The context in which the endpoint prints a request *)
Definition request_ctx (m : Method.t) : PrintCtx.t := {| PrintCtx.method := Some m; PrintCtx.uri := None |}.

Lemma request_ctx_keeps m u : as_printed (request_ctx m) u = u.
Proof. unfold as_printed, uri_filter, keep_host_port. cbn. rewrite filter_all. by destruct u. Qed.

Lemma plain_text s : Forall (fun b => in_range 0x20 0x7e b = true) s -> Forall plain s /\ utf8_valid s = true.
Proof.
  intros Hs. split.
  - eapply Forall_impl; [exact Hs|]. cbn. assert (forall b, in_range 0x20 0x7e b = true -> plain b) as H by by_bytes. exact H.
  - induction Hs as [|b s Hb _ IH]; [done|]. cbn [utf8_valid].
    assert (in_range 0 0x7F b = true) as ->; [|done]. revert Hb. apply in_range_weaken; lia.
Qed.

(** A first word without a colon that ends with a space is no header name. *)
Lemma scan_line_request acc w rest : Forall (fun b => b <> x3a) w -> scan_line acc (w ++ x20 :: rest) = Ok acc.
Proof.
  intros Hw. unfold scan_line, split_colon.
  destruct (span (fun c => negb (bool_decide (c = x3a))) (w ++ x20 :: rest)) as [name r] eqn:E.
  assert (x20 ∈ name) as Hin.
  { revert name r E. induction Hw as [|b w Hb _ IH]; intros name r E; cbn [app span] in E.
    - rewrite bool_decide_eq_false_2 in E by done. cbn [negb] in E. destruct (span _ rest). injection E as <- _. left.
    - rewrite bool_decide_eq_false_2 in E by done. cbn [negb] in E. destruct (span _ (w ++ _)) as [x y] eqn:E'.
      injection E as <- _. right. by eapply IH. }
  destruct (existsb _ _) eqn:Ex; [|done]. exfalso.
  apply existsb_exists in Ex as (s & Hs & Ex). apply eq_ignore_ascii_case_true in Ex.
  assert (x20 ∈ lower s) as Hin'.
  { rewrite <-Ex. unfold lower. apply list_elem_of_fmap. by exists x20. }
  assert (Forall (fun s => x20 ∉ lower s) (default [] (Name.as_parse_strs Name.ContentLength))) as Hn
    by (apply (bool_decide_eq_true_1 _); vm_compute; reflexivity).
  rewrite Forall_forall in Hn. apply (Hn s); [by apply list_elem_of_In|done].
Qed.

Lemma request_line_ok m u (l := {| rl_method := m; rl_uri := u |}) : method_ok m -> uri_ok u ->
  let s := print_request_line (request_ctx m) l in
  line_ok s /\ utf8_valid s = true /\ visible s /\ (forall acc, scan_line acc s = Ok acc) /\
  parse_message_line (fun i => snd <$> parse_request_line i) s = Some (RequestL l).
Proof.
  intros Hm Hu s. pose proof Hm as (Hne & Ht & _).
  pose proof (all_of_visible _ _ (fun b Hb => proj1 (token_visible b Hb)) Ht) as Hv.
  assert (Forall (fun b => in_range 0x20 0x7e b = true) s) as Hs.
  { assert (forall t, visible_text t -> Forall (fun b => in_range 0x20 0x7e b = true) t) as Hw
      by (intros t H; eapply Forall_impl; [exact H|]; intros b; apply in_range_weaken; lia).
    unfold s, print_request_line, l. cbn [rl_method rl_uri]. do 3 rewrite Forall_app.
    split; [by apply Hw|]. split; [by repeat constructor|]. split; [by apply Hw, uri_visible|by repeat constructor]. }
  destruct (plain_text s Hs) as [Hp Hutf]. assert (visible s) as Hvis.
  { unfold s, print_request_line, l. cbn [rl_method rl_uri]. destruct (Method.display m) as [|b t]; [done|].
    inversion Hv as [|? ? Hb _]; subst. eexists b, _. split; [reflexivity|].
    assert (forall b, in_range 0x21 0x7e b = true -> is_ascii_whitespace b = false) as H by by_bytes. by apply H. }
  split; [|split; [done|split; [done|split]]].
  - split; [by apply folded_end|]. unfold s, print_request_line, l in *. cbn [rl_method rl_uri] in *.
    destruct (Method.display m) as [|b t]; [done|]. inversion Hp; subst. inversion Hv as [|? ? Hb _]; subst.
    eexists b, _. split; [reflexivity|]. split; [done|].
    assert (forall b, in_range 0x21 0x7e b = true -> is_blank b = false) as H by by_bytes. by apply H.
  - intros acc. unfold s, print_request_line, l. cbn [rl_method rl_uri]. apply scan_line_request.
    eapply Forall_impl; [exact Ht|]. cbn. intros b [_ Hb]. by apply token_visible.
  - unfold parse_message_line. assert (parse_status_line s = None) as ->.
    { unfold parse_status_line. destruct (starts_with (lit "SIP/2.0") s) eqn:E; [|done]. exfalso.
      apply starts_with_spec in E as [r E]. unfold s, print_request_line, l in E. cbn [rl_method rl_uri] in E.
      assert (chars_while token (Method.display m ++ x20 :: SipUri.print (request_ctx m) u ++ lit " SIP/2.0") =
        chars_while token (lit "SIP" ++ x2f :: lit "2.0" ++ r)) as Ec by (f_equal; exact E).
      rewrite !chars_while_all in Ec by (done || by repeat constructor). by injection Ec. }
    pose proof (request_line_reads (request_ctx m) l [] Hm Hu) as H. unfold reads in H. rewrite app_nil_r in H.
    fold s in H. rewrite H. cbn. unfold l. by rewrite request_ctx_keeps.
Qed.

(** ** The theorems *)

(** C29: Parsing undoes printing on SIP URIs. In front of what can follow a URI, the
    text printed in a context is read as what the context keeps of it: all of
    it where no context is set, as in the first line of a request; without its
    port and the parameters maddr, ttl, transport and lr in From and To; without
    header parameters in contacts (other than those of REGISTER) and routes. At
    most the white space behind a parameter without value is read with it. In
    brackets, with or without a display name, nothing more is read. *)
Theorem uri_roundtrip ctx u r : uri_ok u -> uri_end r ->
  (exists r', SipUri.parse (SipUri.print ctx u ++ r) = Some (r', as_printed ctx u) /\ (r' = r \/ r' = skip_ws r)) /\
  as_printed PrintCtx.default u = u /\
  (forall n, name_ok n ->
    NameAddr.parse (NameAddr.print ctx {| NameAddr.name := n; NameAddr.uri := u |} ++ r) =
      Some (r, {| NameAddr.name := n; NameAddr.uri := as_printed ctx u |})).
Proof.
  intros Hu Hr. split; [by apply sip_uri_reads|]. split.
  - unfold as_printed, uri_filter, keep_host_port. cbn. rewrite filter_all. by destruct u.
  - intros n Hn. by apply (name_addr_reads SipUri.parse ctx {| NameAddr.name := n; NameAddr.uri := u |} r).
Qed.

Lemma decode_plain w s fuel : x25 ∉ w -> (length (w ++ s) <= fuel)%nat ->
  decode_bytes fuel (w ++ s) = w ++ decode_bytes (fuel - length w) s.
Proof.
  revert fuel. induction w as [|b w IH]; intros fuel Hw Hf; cbn [app length] in *.
  - by rewrite Nat.sub_0_r.
  - destruct fuel as [|fuel]; [lia|]. assert (b <> x25) as Hb by (intros ->; destruct Hw; left).
    assert (forall t, decode_bytes (S fuel) (b :: t) = b :: decode_bytes fuel t) as ->
      by (intros [|? [|]]; cbn [decode_bytes]; [done|done|by rewrite decide_False]).
    rewrite IH; [done| |lia]. contradict Hw. by right.
Qed.

Lemma percent_encode_app set a b : percent_encode set (a ++ b) = percent_encode set a ++ percent_encode set b.
Proof. rewrite !percent_encode_law, fmap_app. apply concat_app. Qed.

Lemma user_encode_plain s : all_of SipUri.user_char s -> percent_encode SipUri.USER_SET s = s.
Proof.
  intros Hs. apply encode_plain; [done|]. eapply Forall_impl; [by apply (all_of_visible _ _ user_char_visible)|].
  cbn. intros b. apply in_range_weaken; lia.
Qed.

Lemma user_percent_misread w h l a b r : all_of SipUri.user_char (w ++ [h; l]) -> x25 ∉ w -> utf8_valid w = true ->
  hex_val h = Some a -> hex_val l = Some b -> (0 <= 16 * a + b < 128)%Z ->
  exists x, SipUri.parse_user_pw (print_user (User (w ++ [x25; h; l])) ++ r) = Some (r, x) /\
    SipUri.user_part_of x = Some (User (w ++ [byte_of (16 * a + b)])).
Proof.
  intros Hw Hp Hu Ha Hb Hlt. unfold all_of in Hw. apply Forall_app in Hw as [Hw Hhl].
  assert (all_of SipUri.user_char (w ++ [x25; h; l])) as Hall by (apply Forall_app; split; [done|by constructor]).
  exists (Some (w ++ [x25; h; l], None)). cbn [print_user]. rewrite user_encode_plain by done. split.
  - apply opt_reads. eapply terminated_reads; [|apply tag_reads]. rewrite <-(app_nil_r (w ++ _)) at 1.
    eapply tuple_reads; [by apply take_while_reads|]. apply opt_nothing. by rewrite preceded_law, tag_nothing.
  - cbn [SipUri.user_part_of]. unfold decode_utf8. rewrite percent_decode_law, decode_plain by done.
    replace (length (w ++ [x25; h; l]) - length w)%nat with 3%nat by (rewrite length_app; cbn; lia).
    cbn [decode_bytes]. rewrite decide_True, Ha, Hb by done.
    rewrite utf8_valid_app by done. replace (a * 16 + b)%Z with (16 * a + b)%Z by lia. cbn [utf8_valid].
    assert (in_range 0 127 (byte_of (16 * a + b)) = true) as ->; [|done].
    unfold in_range. rewrite byte_val_of, Z.mod_small by lia. apply andb_true_iff. split; lia.
Qed.

Lemma hps_cut n v c v' r : param_text header_char n -> param_text header_char v -> header_char [c] = false ->
  in_range 0 127 c = true ->
  exists r', do_parse header_char
      (write_param (encode_set header_char) {| Params.name := n; Params.value := Some (v ++ c :: v') |} ++ r) =
    Some (x25 :: r', {| Params.name := n; Params.value := Some v |}).
Proof.
  intros Hn Hv Hc Ha. pose proof Hn as (_ & Hnu & Hna & Hnp). pose proof Hv as (Hne & Hvu & Hva & Hvp).
  set (enc := percent_encode (encode_set header_char)) in *.
  assert (exists t, enc (v ++ c :: v') = enc v ++ x25 :: t) as [t Ht].
  { eexists. change (c :: v') with ([c] ++ v'). unfold enc. rewrite !percent_encode_app. f_equal.
    rewrite (percent_encode_law _ [c]). cbn [fmap list_fmap concat]. unfold encode_byte, encode_set.
    rewrite Ha, Hc, orb_true_r. reflexivity. }
  exists (t ++ r). unfold do_parse, write_param. cbn [Params.name Params.value]. fold enc.
  rewrite Ht, map_res_law, ws_skip, <-!app_assoc. unfold enc. rewrite (skip_text HPS _ _ hps_ok) by done.
  rewrite take_while_reads by done. cbn [mbind option_bind].
  assert (forall i, skip_ws (lit "=" ++ i) = lit "=" ++ i) as Heqs by (intros i; by apply skip_ws_visible).
  rewrite Heqs, opt_law, ws_skip, Heqs, tag_reads. cbn [mbind option_bind app]. rewrite (skip_text HPS _ _ hps_ok) by done.
  change (CHAR_SPEC HPS) with header_char. rewrite alt_law. pose proof (encode_nonempty (encode_set header_char) v Hne) as Hnev.
  assert (parse_quoted (percent_encode (encode_set header_char) v ++ x25 :: t ++ r) = None) as ->.
  { subst enc. destruct (percent_encode _ v) as [|b s]; [done|]. inversion Hva as [|? ? [_ Hb] _]; subst.
    apply parse_quoted_nothing. by apply (spec_class _ _ _ hps_ok). }
  rewrite take_while_reads by done. cbn [mbind option_bind]. by rewrite !decode_utf8_encode by done.
Qed.

(** What is printed for a URI and read as something else. A literal percent
    sign in a user name is not encoded, so with two hexadecimal digits behind
    it, it is read as one character. A host name that begins with the text of
    an IPv4 address is read as the address. The value of a header parameter
    is cut before its first character that has to be encoded. *)
Theorem uri_misread :
  (forall w h l a b r, all_of SipUri.user_char (w ++ [h; l]) -> x25 ∉ w -> utf8_valid w = true ->
     hex_val h = Some a -> hex_val l = Some b -> (0 <= 16 * a + b < 128)%Z ->
     exists x, SipUri.parse_user_pw (print_user (User (w ++ [x25; h; l])) ++ r) = Some (r, x) /\
       SipUri.user_part_of x = Some (User (w ++ [byte_of (16 * a + b)]))) /\
  (forall ip s, uint 32 ip -> parse_host (ip4_to_string ip ++ x2e :: s) = Some (x2e :: s, IP4 ip)) /\
  (forall n v c v' r, param_text header_char n -> param_text header_char v -> header_char [c] = false ->
     in_range 0 127 c = true ->
     exists r', do_parse header_char
         (write_param (encode_set header_char) {| Params.name := n; Params.value := Some (v ++ c :: v') |} ++ r) =
       Some (x25 :: r', {| Params.name := n; Params.value := Some v |})).
Proof.
  split; [exact user_percent_misread|]. split; [|exact hps_cut].
  intros ip s Hip. change (ip4_to_string ip ++ x2e :: s) with (print_host (IP4 ip) ++ x2e :: s).
  unfold parse_host. cbn [print_host]. apply alt_reads_r; [|apply alt_reads_l].
  - pose proof (octet_digits ip 3) as Hd. assert (print_uint (octet ip 3) <> []) as Hne by (apply print_uint_nonempty, octet_range).
    apply map_res_nothing, ip6_reference_nothing. unfold ip4_to_string.
    destruct (print_uint (octet ip 3)) as [|b t]; [done|]. inversion Hd; subst. cbn. by intros [= ->].
  - eapply map_res_reads; [by apply ip4_address_reads|]. by rewrite ip4_read.
Qed.

(** C30: A header is read back as it was printed, as long as what it holds can
    be printed: From and To, Via, CSeq, RAck, Session-Expires, Retry-After,
    Subscription-State and Replaces; the numbers of Min-SE, RSeq, Expires,
    Min-Expires and Max-Forwards; the trimmed texts of Call-ID, Content-Type and
    Event. Lists are read back from the one value they are printed to: routes,
    contacts, and the items of the headers made by [csv_header!] (Accept, Allow,
    Allow-Events, Supported, Require, Unsupported), which hold no comma and begin
    with a visible character. Addresses lose what their context does not keep.
    The challenges and answers of authentication are in [SipAuthProps], and the
    content length in [SipMessages]. *)
Theorem typed_headers_read_back :
  (forall f, from_to_ok f -> parsed_by parse_from_to (print_from_to PrintCtx.default f) =
     Ok ([], {| FromTo.uri := addr_as_printed (in_uri InFromTo PrintCtx.default) (FromTo.uri f);
                FromTo.tag := FromTo.tag f; FromTo.params := FromTo.params f |})) /\
  (forall v, via_ok v -> reads_back v) /\
  (forall c, uint 32 (CSeq.cseq c) -> method_ok (CSeq.method c) -> reads_back c) /\
  (forall x, uint 32 (RAck.rack x) -> uint 32 (RAck.cseq x) -> method_ok (RAck.method x) -> reads_back x) /\
  (forall s, uint 32 (SessionExpires.delta_secs s) -> reads_back s) /\
  (forall x, retry_after_ok x -> reads_back x) /\
  (forall s, subscription_state_ok s -> reads_back s) /\
  (forall x, replaces_ok x -> reads_back x) /\
  ((forall x, uint 32 (MinSe.min_se x) -> reads_back x) /\ (forall x, uint 32 (RSeq.rseq x) -> reads_back x) /\
   (forall x, uint 32 (Expires.secs x) -> reads_back x) /\
   (forall x, uint 8 (MaxForwards.max_forwards x) -> reads_back x)) /\
  ((forall x, trim (CallID.call_id x) = CallID.call_id x -> reads_back x) /\
   (forall x, trim (ContentType.content_type x) = ContentType.content_type x -> reads_back x) /\
   (forall x, trim (Event.event x) = Event.event x -> reads_back x)) /\
  (forall x l, Forall csv_item (x :: l) ->
     exists v, create_multiple (x :: l) = Ret v /\ decode_values (OneOrMore.to_list v) = Ok (x :: l)) /\
  (forall x l, Forall (fun y => addr_ok (Routing.uri y) (Routing.params y)) (x :: l) ->
     exists v, create_multiple (x :: l) = Ret v /\ decode_values (OneOrMore.to_list v) =
       Ok ((fun y => {| Routing.uri := addr_as_printed (in_uri InRouting PrintCtx.default) (Routing.uri y);
                        Routing.params := Routing.params y |}) <$> (x :: l))) /\
  (forall x l, Forall (fun y => addr_ok (ContactHeader.uri y) (ContactHeader.params y)) (x :: l) ->
     exists v, create_multiple (x :: l) = Ret v /\ decode_values (OneOrMore.to_list v) =
       Ok ((fun y => {| ContactHeader.uri := addr_as_printed (in_uri InContact PrintCtx.default) (ContactHeader.uri y);
                        ContactHeader.params := ContactHeader.params y |}) <$> (x :: l))).
Proof.
  assert (forall (A : Type) (p : parser A) s x, reads p s x [] -> ('(_, h) ← parsed_by p s; Ok h) = Ok x) as Hb.
  { intros A p s x H. by rewrite (parsed_reads p s x H). }
  split; [intros f Hf; apply parsed_reads; by apply from_to_reads|].
  split; [intros v Hv; apply Hb; destruct v; apply via_reads; auto; done|].
  split; [intros c Hc Hm; by apply Hb, cseq_reads|].
  split; [intros x Hk Hc Hm; by apply Hb, rack_reads|].
  split; [intros s Hs; by apply Hb, session_expires_reads|].
  split; [intros x Hx; by apply Hb, retry_after_reads|].
  split; [intros s Hs; by apply Hb, subscription_state_reads|].
  split; [intros x Hx; by apply Hb, replaces_reads|].
  split; [repeat split; intros [x] Hx; by eapply (number_reads_back _ _ x); [|exact Hx|..]|].
  split; [repeat split; intros [x] Hx; by apply (text_reads_back _ x)|].
  split; [exact items_read_back|].
  split; [exact routes_read_back|exact contacts_read_back].
Qed.

(** The user agent the endpoint adds *)
Lemma user_agent_added ua_text h
  (h1 := match ua_text with
         | Some ua => if Headers.contains Name.UserAgent h then h else Headers.insert Name.UserAgent ua h
         | None => h
         end) :
  headers_wf h -> printable h -> match ua_text with Some ua => printable_value ua | None => True end ->
  headers_wf h1 /\ printable h1 /\ forall n, parsed_name n -> all_values n h1 =
    all_values n h ++ if decide (canonical n = Name.UserAgent /\ all_values Name.UserAgent h = [])
                      then option_list ua_text else [].
Proof.
  intros Hwf Hp Hua. destruct ua_text as [ua|].
  2:{ split; [done|]. split; [done|]. intros n _. case_decide; by rewrite app_nil_r. }
  assert (parsed_name Name.UserAgent) as Hn by done. unfold h1. rewrite (contains_spec _ h Hwf Hn).
  destruct (decide (all_values Name.UserAgent h = [])) as [E|E].
  - rewrite bool_decide_eq_false_2 by naive_solver.
    destruct (insert_spec Name.UserAgent ua h _ Hwf Hn (or_introl eq_refl)) as [Hwf' Hv]. split; [done|]. split.
    + intros e He. rewrite (insert_new _ _ _ Hwf Hn E) in He. apply elem_of_app in He as [He|He]; [by apply Hp|].
      apply list_elem_of_singleton in He. subst e. cbn.
      split; [split; [done|split; [done|repeat constructor]]|by intros v ->%list_elem_of_singleton].
    + intros n Hn'. rewrite Hv by done. cbn [canonical]. destruct (decide (Name.UserAgent = canonical n)) as [Ec|Ec].
      * by rewrite decide_True by done.
      * rewrite decide_False by naive_solver. by rewrite app_nil_r.
  - rewrite bool_decide_eq_true_2 by done. split; [done|]. split; [done|]. intros n _.
    rewrite decide_False by naive_solver. by rewrite app_nil_r.
Qed.

(** C28: A request that is sent arrives: the endpoint adds its user agent and the
    content length; the decoder of a stream that reads the bytes, whatever
    follows, gives the same method and URI, the headers with the same values
    in the same order, and the body. *)
Theorem request_arrives {Tp} ua_text unicode (m : OutgoingRequest SipUri.t Tp) rest `{ML : MemchrLaws} :
  let h := rq_headers (oq_msg m) in
  let line := rq_line (oq_msg m) in
  let body := rq_body (oq_msg m) in
  buffer (oq_parts m) = [] -> headers_wf h -> printable h -> all_values Name.ContentLength h = [] ->
  match ua_text with Some ua => printable_value ua | None => True end ->
  method_ok (rl_method line) -> uri_ok (rl_uri line) -> (Z.of_nat (length body) <= 65535)%Z ->
  exists m' bytes h',
    prepare_request ua_text (SipUri.print (request_ctx (rl_method line))) m = Ret (m', bytes) /\
    ((Z.of_nat (length (bytes ++ rest)) <= 65535)%Z ->
      decode (parse_message_line (fun i => snd <$> parse_request_line i)) (parse_header_line unicode) 0 (bytes ++ rest) =
        Ret (Ok (Some (DecodedItem {| dm_line := RequestL line; dm_headers := h'; dm_body := body;
                                      dm_buffer := bytes |})), 0, rest)) /\
    headers_wf h' /\
    forall n, parsed_name n -> all_values n h' = all_values n h ++
      if decide (canonical n = Name.ContentLength) then [print_uint (Z.of_nat (length body))]
      else if decide (canonical n = Name.UserAgent /\ all_values Name.UserAgent h = []) then option_list ua_text
      else [].
Proof.
  intros h line body Hb Hwf Hp Ha Hua Hm Hu Hlen.
  destruct (user_agent_added ua_text h Hwf Hp Hua) as (Hwf1 & Hp1 & Hv1).
  assert (all_values Name.ContentLength
    match ua_text with
    | Some ua => if Headers.contains Name.UserAgent h then h else Headers.insert Name.UserAgent ua h
    | None => h
    end = []) as Ha1.
  { rewrite Hv1 by done. rewrite Ha. by rewrite decide_False by (cbn; naive_solver). }
  destruct (request_line_ok _ _ Hm Hu) as (Hok & Hutf & Hvis & Hs & Hpl).
  assert ({| rl_method := rl_method line; rl_uri := rl_uri line |} = line) as El by (by destruct line).
  rewrite El in Hok, Hutf, Hvis, Hs, Hpl.
  destruct (message_arrives (parse_message_line (fun i => snd <$> parse_request_line i)) unicode
    (print_request_line (request_ctx (rl_method line)) line) (RequestL line) _ body rest Hwf1 Hp1 Ha1)
    as (bytes & h' & Hpm & _ & Hd & Hwf' & Hv'); try done.
  eexists _, bytes, h'. split; [|split; [exact Hd|split; [exact Hwf'|]]].
  - unfold prepare_request. rewrite decide_True by done. fold h line body.
    unfold print_request_line in Hpm. rewrite Hpm. reflexivity.
  - intros n Hn. rewrite Hv', Hv1 by done. rewrite <-app_assoc. f_equal.
    destruct (decide (canonical n = Name.ContentLength)) as [E|E]; [|by rewrite app_nil_r].
    by rewrite decide_False by (rewrite E; naive_solver).
Qed.
End typed_props.

(** ** Examples *)

(** An invitation of a user at a host, with a display name *)
Module TypedSample.
#[export] Instance no_unicode : Unicode := {| unicode_alphanumeric _ := false |}.
#[export] Instance no_text : ErrorText := {| error_text _ _ _ := [] |}.
Definition host (n : string) : HostPort.t := {| HostPort.host := HostName (lit n); HostPort.port := Some 5060%Z |}.
Definition uri : SipUri.t := {|
  SipUri.sips := false; SipUri.user_part := User (lit "alice"); SipUri.host_port := host "a.example";
  SipUri.uri_params := [{| Params.name := lit "transport"; Params.value := Some (lit "tcp") |};
                        {| Params.name := lit "lr"; Params.value := None |}];
  SipUri.header_params := [] |}.
Definition request : OutgoingRequest SipUri.t unit :=
  {| oq_msg := {|
       rq_line := {| rl_method := Method.INVITE; rl_uri := uri |};
       rq_headers := Headers.insert Name.CallID (lit "a7@host") (Headers.insert Name.Via (lit "SIP/2.0/UDP host") Headers.new);
       rq_body := lit "v=0" |};
     oq_parts := {| op_transport := tt; destination := V4 1 5060; buffer := [] |} |}.
End TypedSample.

Section samples.
#[local] Existing Instances complete percent FullIp6.text FullIp6.laws ascii_nom TypedSample.no_unicode TypedSample.no_text.

Ltac is_text := split; [done|]; split; [vm_compute; reflexivity|]; split;
  [unfold all_of; apply (bool_decide_unpack _); vm_compute; reflexivity|right; by apply (bool_decide_eq_false_1 _)].

Lemma sample_uri_ok : uri_ok TypedSample.uri.
Proof.
  split.
  - split; [done|by apply (bool_decide_eq_false_1 _)].
  - split; [|by apply (bool_decide_unpack _)]. exists (lit "a"), [lit "example"], false. split; [done|].
    split; [split; [done|split; [by repeat constructor|done]]|].
    split; [by repeat constructor|by left].
  - do 2 (constructor; [split; [is_text|done || is_text]|]). constructor.
  - constructor.
Qed.

Lemma sample_method_ok : method_ok Method.INVITE.
Proof. split; [done|]. split; [by repeat constructor|done]. Qed.

Lemma uri_roundtrip_witness :
  SipUri.parse (lit "sip:alice@a.example:5060;transport=tcp;lr") = Some ([], TypedSample.uri) /\
  NameAddr.parse (lit "<sip:alice@a.example>;tag=x") =
    Some (lit ";tag=x", {| NameAddr.name := None; NameAddr.uri :=
      {| SipUri.sips := false; SipUri.user_part := User (lit "alice");
         SipUri.host_port := {| HostPort.host := HostName (lit "a.example"); HostPort.port := None |};
         SipUri.uri_params := []; SipUri.header_params := [] |} |}) /\
  exists r', SipUri.parse (SipUri.print PrintCtx.default TypedSample.uri) = Some (r', TypedSample.uri).
Proof.
  split; [vm_compute; reflexivity|]. split; [vm_compute; reflexivity|].
  destruct (uri_roundtrip PrintCtx.default TypedSample.uri [] sample_uri_ok (conj I I)) as ((r' & H & _) & Hp & _).
  exists r'. rewrite Hp, app_nil_r in H. exact H.
Defined.

Lemma uri_misread_witness :
  (exists x, SipUri.parse_user_pw (print_user (User (lit "a%41")) ++ lit "b") = Some (lit "b", x) /\
    SipUri.user_part_of x = Some (User (lit "aA"))) /\
  parse_host (ip4_to_string 0x01020304 ++ lit ".example") = Some (lit ".example", IP4 0x01020304).
Proof.
  destruct uri_misread as (H1 & H2 & _). split; [|apply H2; split; lia].
  apply (H1 (lit "a") x34 x31 4%Z 1%Z (lit "b")); [|by apply (bool_decide_eq_false_1 _)|done|done|done|done].
  unfold all_of. apply (bool_decide_unpack _). vm_compute. reflexivity.
Defined.

Lemma typed_headers_read_back_witness :
  parsed_by parse_from_to (print_from_to PrintCtx.default
    {| FromTo.uri := {| NameAddr.name := Some (lit "Alice"); NameAddr.uri := TypedSample.uri |};
       FromTo.tag := Some (lit "9fx"); FromTo.params := [] |}) =
  Ok ([], {| FromTo.uri := {| NameAddr.name := Some (lit "Alice"); NameAddr.uri :=
               {| SipUri.sips := false; SipUri.user_part := User (lit "alice");
                  SipUri.host_port := {| HostPort.host := HostName (lit "a.example"); HostPort.port := None |};
                  SipUri.uri_params := []; SipUri.header_params := [] |} |};
             FromTo.tag := Some (lit "9fx"); FromTo.params := [] |}).
Proof.
  destruct typed_headers_read_back as (H & _). apply H. split; cbn.
  - split; [split; [done|split; [|reflexivity]]|exact sample_uri_ok].
    apply (bool_decide_unpack _). vm_compute. reflexivity.
  - split; [done|]. split; [unfold all_of; apply (bool_decide_unpack _); vm_compute; reflexivity|by apply (bool_decide_eq_false_1 _)].
  - constructor.
Defined.

Lemma request_arrives_witness :
  exists m' bytes h',
    prepare_request (Some (lit "ua")) (SipUri.print (request_ctx Method.INVITE)) TypedSample.request = Ret (m', bytes) /\
    headers_wf h' /\ all_values Name.UserAgent h' = [lit "ua"] /\ all_values Name.CallID h' = [lit "a7@host"].
Proof.
  destruct (request_arrives (Some (lit "ua")) (fun _ => false) TypedSample.request [] (M := scan_memchr))
    as (m' & bytes & h' & H1 & _ & H2 & H3);
    [reflexivity| | |reflexivity| |exact sample_method_ok|exact sample_uri_ok|apply Z.leb_le; reflexivity|].
  - split; cbn.
    + repeat (constructor; [done|]). constructor.
    + apply (bool_decide_unpack _). vm_compute. reflexivity.
  - intros e He. repeat (apply elem_of_cons in He as [->|He]); [..|by apply elem_of_nil in He].
    all: split; [split; [done|split; [done|by repeat constructor]]|].
    all: intros v ->%list_elem_of_singleton; split; [|done]; cbn; repeat constructor; done.
  - split; [|done]. by repeat constructor.
  - exists m', bytes, h'. split; [exact H1|]. split; [exact H2|].
    split; (rewrite H3 by done; vm_compute; reflexivity).
Defined.
End samples.
