(* ===== verification/SipAuth.v ===== *)
(** * Headers of digest authentication
    (sip-types/src/header/typed/auth.rs)

    Challenges and their answers, with their parsers and printers. Slicing the
    name of an algorithm can panic, so what a parser gives is an [exec]. *)
From S2P Require Import Prelude Text StunAttr SipNames SipHeaders SipMessages SipParse SipUri SipTyped.

(** ** Names of algorithms *)
Module AlgorithmValue.
Inductive t := MD5 | MD5Sess | SHA256 | SHA256Sess | SHA512256 | SHA512256Sess | Other (name : str).

#[global] Instance t_eq_dec : EqDecision t.
Proof. solve_decision. Defined.

(** [Display] *)
Definition print (a : t) : str :=
  match a with
  | MD5 => lit "MD5"
  | MD5Sess => lit "MD5-sess"
  | SHA256 => lit "SHA-256"
  | SHA256Sess => lit "SHA-256-sess"
  | SHA512256 => lit "SHA-512-256"
  | SHA512256Sess => lit "SHA-512-256-sess"
  | Other other => other
  end.

(** [From<BytesStr>] *)
Definition from (value : str) : t :=
  if eq_ignore_ascii_case value (lit "MD5") then MD5
  else if eq_ignore_ascii_case value (lit "MD5-sess") then MD5Sess
  else if eq_ignore_ascii_case value (lit "SHA-256") then SHA256
  else if eq_ignore_ascii_case value (lit "SHA-256-sess") then SHA256Sess
  else if eq_ignore_ascii_case value (lit "SHA-512-256") then SHA512256
  else if eq_ignore_ascii_case value (lit "SHA-512-256-sess") then SHA512256Sess
  else Other value.
End AlgorithmValue.

Module AkaVersion.
Inductive t := AKAv1 | AKAv2 | Other (name : str).

#[global] Instance t_eq_dec : EqDecision t.
Proof. solve_decision. Defined.

Definition print (a : t) : str :=
  match a with AKAv1 => lit "AKAv1" | AKAv2 => lit "AKAv2" | Other other => other end.
Definition from (value : str) : t :=
  if eq_ignore_ascii_case value (lit "AKAv1") then AKAv1
  else if eq_ignore_ascii_case value (lit "AKAv2") then AKAv2
  else Other value.
End AkaVersion.

(** Slicing a [str]: an index inside a character panics. *)
Definition str_prefix (n : nat) (s : str) : exec str :=
  match drop n s with
  | b :: _ => if continuation b then Panic else Ret (take n s)
  | [] => if decide (length s = n) then Ret s else Panic
  end.

Module Algorithm.
Inductive t := AkaNamespace (version : AkaVersion.t) (algorithm : AlgorithmValue.t) | AlgorithmValue (algorithm : AlgorithmValue.t).

#[global] Instance t_eq_dec : EqDecision t.
Proof. solve_decision. Defined.

Definition MD5 : t := AlgorithmValue AlgorithmValue.MD5.

Definition print (a : t) : str :=
  match a with
  | AlgorithmValue algorithm => AlgorithmValue.print algorithm
  | AkaNamespace version algorithm => AkaVersion.print version ++ lit "-" ++ AlgorithmValue.print algorithm
  end.

(** [From<BytesStr>]: the index [version\[0..4\]] is taken if the version has
    five bytes. *)
Definition from (value : str) : exec t :=
  match span (fun b => negb (bool_decide (b = x2d))) value with
  | (version, _ :: algorithm) =>
      if decide (length version = 5)%nat then
        p ← str_prefix 4 version;
        Ret (if (eq_ignore_ascii_case p (lit "AKAv") && forallb dec_digit (drop 4 version))%bool
             then AkaNamespace (AkaVersion.from version) (AlgorithmValue.from algorithm)
             else AlgorithmValue (AlgorithmValue.from value))
      else Ret (AlgorithmValue (AlgorithmValue.from value))
  | _ => Ret (AlgorithmValue (AlgorithmValue.from value))
  end.
End Algorithm.

Module QopOption.
Inductive t := Auth | AuthInt | Other (token : str).

#[global] Instance t_eq_dec : EqDecision t.
Proof. solve_decision. Defined.

Definition from (value : str) : t :=
  if decide (value = lit "auth") then Auth
  else if decide (value = lit "auth-int") then AuthInt
  else Other value.
Definition print (q : t) : str :=
  match q with Auth => lit "auth" | AuthInt => lit "auth-int" | Other token => token end.
End QopOption.

(** ** Hexadecimal numbers *)

(** [u32::from_str_radix(_, 16)] *)
Definition add_hex (acc : option Z) (b : byte) : option Z :=
  a ← acc; d ← hex_val b;
  if decide (uint 32 (a * 16 + d)) then Some (a * 16 + d)%Z else None.
Definition parse_hex (s : str) : option Z :=
  let s := match s with b :: r => if decide (b = x2b /\ r <> []) then r else s | [] => s end in
  if decide (s = []) then None else foldl add_hex (Some 0%Z) s.

(** [{:08X}] of a [u32] *)
Definition print_hex8 (z : Z) : str := concat (hex_byte <$> be_bytes 4 z).

(** [From<PercentEncode> for Cow<str>] of [percent-encoding]: whether the text
    is borrowed. It is if nothing is encoded, and is not if there is more than
    the one encoded character. *)
Class PercentCow := { percent_borrowed : (byte -> bool) -> str -> bool }.
Definition encoded_byte (set : byte -> bool) (b : byte) : bool := (set b || negb (in_range 0 127 b))%bool.
Class PercentCowLaws (P : PercentCow) : Prop := {
  borrowed_plain set s : Forall (fun b => encoded_byte set b = false) s -> percent_borrowed set s = true;
  borrowed_encoded set s : Exists (fun b => encoded_byte set b = true) s -> 2 <= length s ->
    percent_borrowed set s = false }.

Definition percent_cow : PercentCow := {|
  percent_borrowed set s := (bool_decide (length s <= 1) || forallb (fun b => negb (encoded_byte set b)) s)%bool |}.
#[export] Instance percent_cow_laws : PercentCowLaws percent_cow.
Proof.
  split; intros set s Hs.
  - cbn. apply orb_true_iff. right. apply forallb_forall. intros b Hb. rewrite Forall_forall in Hs.
    by rewrite Hs by (by apply list_elem_of_In).
  - intros Hl. cbn. rewrite bool_decide_eq_false_2 by lia. apply Exists_exists in Hs as (b & Hb & He).
    destruct (forallb _ s) eqn:E; [|done]. rewrite forallb_forall in E.
    specialize (E b). rewrite He in E. discriminate E. by apply list_elem_of_In.
Qed.

(** ** Parameters *)
Module AuthParam.
Record t := { name : str; value : str }.
(** [Display] *)
Definition print (p : t) : str := name p ++ lit "=" ++ [x22] ++ value p ++ [x22].
End AuthParam.

Module Auth.
Record t := { scheme : str; params : list AuthParam.t }.
Fixpoint print_rest (ps : list AuthParam.t) : str :=
  match ps with [] => [] | p :: ps => lit ", " ++ AuthParam.print p ++ print_rest ps end.
(** [Print] *)
Definition print (a : t) : str :=
  scheme a ++ lit " " ++
  match params a with [] => [] | p :: ps => AuthParam.print p ++ print_rest ps end.
End Auth.

(** ** Challenges *)
Module DigestChallenge.
Record t := {
  realm : str;
  domain : option str;
  nonce : str;
  opaque : option str;
  stale : bool;
  algorithm : Algorithm.t;
  qop : list QopOption.t;
  userhash : bool;
  other : list AuthParam.t }.

(** The variables of [from_auth_params] *)
Record fields := {
  f_realm : option str;
  f_domain : option str;
  f_nonce : option str;
  f_opaque : option str;
  f_stale : bool;
  f_algorithm : Algorithm.t;
  f_qop : list QopOption.t;
  f_userhash : bool;
  f_other : list AuthParam.t }.
Definition no_fields : fields :=
  {| f_realm := None; f_domain := None; f_nonce := None; f_opaque := None; f_stale := false;
     f_algorithm := Algorithm.MD5; f_qop := []; f_userhash := false; f_other := [] |}.

(** One round of its loop *)
Definition field (f : fields) (p : AuthParam.t) : exec fields :=
  let v := AuthParam.value p in
  let 'Build_fields realm domain nonce opaque stale algorithm qop userhash other := f in
  if decide (AuthParam.name p = lit "realm") then
    Ret (Build_fields (Some v) domain nonce opaque stale algorithm qop userhash other)
  else if decide (AuthParam.name p = lit "domain") then
    Ret (Build_fields realm (Some v) nonce opaque stale algorithm qop userhash other)
  else if decide (AuthParam.name p = lit "nonce") then
    Ret (Build_fields realm domain (Some v) opaque stale algorithm qop userhash other)
  else if decide (AuthParam.name p = lit "opaque") then
    Ret (Build_fields realm domain nonce (Some v) stale algorithm qop userhash other)
  else if decide (AuthParam.name p = lit "stale") then
    Ret (Build_fields realm domain nonce opaque (eq_ignore_ascii_case v (lit "true")) algorithm qop userhash other)
  else if decide (AuthParam.name p = lit "algorithm") then
    a ← Algorithm.from v;
    Ret (Build_fields realm domain nonce opaque stale a qop userhash other)
  else if decide (AuthParam.name p = lit "qop") then
    Ret (Build_fields realm domain nonce opaque stale algorithm
      (qop ++ ((fun v => QopOption.from (trim v)) <$> split_byte x2c v)) userhash other)
  else if decide (AuthParam.name p = lit "userhash") then
    Ret (Build_fields realm domain nonce opaque stale algorithm qop (eq_ignore_ascii_case v (lit "true")) other)
  else Ret (Build_fields realm domain nonce opaque stale algorithm qop userhash (other ++ [p])).

Definition read_fields (f : fields) (ps : list AuthParam.t) : exec fields :=
  foldl (fun f p => f ← f; field f p) (Ret f) ps.

(** [from_auth_params] *)
Definition from_auth_params (ps : list AuthParam.t) : exec (option t) :=
  f ← read_fields no_fields ps;
  Ret (r ← f_realm f; n ← f_nonce f;
       Some {| realm := r; domain := f_domain f; nonce := n; opaque := f_opaque f; stale := f_stale f;
               algorithm := f_algorithm f; qop := f_qop f; userhash := f_userhash f; other := f_other f |}).

(** [Print] *)
Definition print (c : t) : str :=
  lit "Digest realm=" ++ [x22] ++ realm c ++ [x22] ++ lit ", nonce=" ++ [x22] ++ nonce c ++ [x22] ++
  match domain c with Some domain => lit ", domain=" ++ [x22] ++ domain ++ [x22] | None => [] end ++
  match opaque c with Some opaque => lit ", opaque=" ++ [x22] ++ opaque ++ [x22] | None => [] end ++
  (if stale c then lit ", stale=true" else []) ++
  (if decide (algorithm c = Algorithm.MD5) then [] else lit ", algorithm=" ++ Algorithm.print (algorithm c)) ++
  match qop c with
  | first :: qop =>
      lit ", qop=" ++ [x22] ++ QopOption.print first ++ concat ((fun q => lit "," ++ QopOption.print q) <$> qop) ++ [x22]
  | [] => []
  end ++
  (if userhash c then lit ", userhash=true" else []) ++
  Auth.print_rest (other c).
#[global] Instance digest_challenge_extend_values : ExtendValues t := {|
  extend_values c values := OneOrMore.push (print c) values;
  create_values c := OneOrMore.One (print c) |}.
End DigestChallenge.

Module AuthChallenge.
Inductive t := Digest (challenge : DigestChallenge.t) | Other (auth : Auth.t).
Definition print (c : t) : str :=
  match c with Digest challenge => DigestChallenge.print challenge | Other auth => Auth.print auth end.
#[global] Instance auth_challenge_extend_values : ExtendValues t := {|
  extend_values c values := OneOrMore.push (print c) values;
  create_values c := OneOrMore.One (print c) |}.
End AuthChallenge.

(** ** Answers *)
Module Username.
Inductive t := Username (name : str) | UsernameNonASCII (name : str).

#[global] Instance t_eq_dec : EqDecision t.
Proof. solve_decision. Defined.

Definition CHARSET (b : byte) : bool :=
  (in_range 0 127 b && negb (alphanumeric b) && negb (bool_decide (b ∈ lit "!#$&+-.^_`|~")))%bool.

(** [new], [Display] *)
Definition new `{Percent, PercentCow} (username : str) : t :=
  if percent_borrowed CHARSET username then Username username
  else UsernameNonASCII (lit "UTF-8''" ++ percent_encode CHARSET username).
Definition print (u : t) : str :=
  match u with
  | Username username => lit "username=" ++ [x22] ++ username ++ [x22]
  | UsernameNonASCII username_non_ascii => lit "username*=" ++ username_non_ascii
  end.
End Username.

Module QopResponse.
Record t := { qop : QopOption.t; cnonce : str; nc : Z }.
End QopResponse.

Module DigestResponse.
Record t := {
  username : Username.t;
  realm : str;
  nonce : str;
  uri : str;
  response : str;
  algorithm : Algorithm.t;
  opaque : option str;
  qop_response : option QopResponse.t;
  userhash : bool;
  other : list AuthParam.t }.

(** The variables of [from_auth_params]; [nc] may be present and malformed. *)
Record fields := {
  f_username : option str;
  f_username_non_ascii : option str;
  f_realm : option str;
  f_nonce : option str;
  f_uri : option str;
  f_response : option str;
  f_algorithm : Algorithm.t;
  f_opaque : option str;
  f_qop : option QopOption.t;
  f_cnonce : option str;
  f_nc : option (option Z);
  f_userhash : bool;
  f_other : list AuthParam.t }.
Definition no_fields : fields :=
  {| f_username := None; f_username_non_ascii := None; f_realm := None; f_nonce := None; f_uri := None;
     f_response := None; f_algorithm := Algorithm.MD5; f_opaque := None; f_qop := None; f_cnonce := None;
     f_nc := None; f_userhash := false; f_other := [] |}.

(** One round of its loop *)
Definition field (f : fields) (p : AuthParam.t) : exec fields :=
  let v := AuthParam.value p in
  let 'Build_fields user user8 realm nonce uri response algorithm opaque qop cnonce nc userhash other := f in
  if decide (AuthParam.name p = lit "username") then
    Ret (Build_fields (Some v) user8 realm nonce uri response algorithm opaque qop cnonce nc userhash other)
  else if decide (AuthParam.name p = lit "username*") then
    Ret (Build_fields user (Some v) realm nonce uri response algorithm opaque qop cnonce nc userhash other)
  else if decide (AuthParam.name p = lit "realm") then
    Ret (Build_fields user user8 (Some v) nonce uri response algorithm opaque qop cnonce nc userhash other)
  else if decide (AuthParam.name p = lit "nonce") then
    Ret (Build_fields user user8 realm (Some v) uri response algorithm opaque qop cnonce nc userhash other)
  else if decide (AuthParam.name p = lit "uri") then
    Ret (Build_fields user user8 realm nonce (Some v) response algorithm opaque qop cnonce nc userhash other)
  else if decide (AuthParam.name p = lit "response") then
    Ret (Build_fields user user8 realm nonce uri (Some v) algorithm opaque qop cnonce nc userhash other)
  else if decide (AuthParam.name p = lit "algorithm") then
    a ← Algorithm.from v;
    Ret (Build_fields user user8 realm nonce uri response a opaque qop cnonce nc userhash other)
  else if decide (AuthParam.name p = lit "opaque") then
    Ret (Build_fields user user8 realm nonce uri response algorithm (Some v) qop cnonce nc userhash other)
  else if decide (AuthParam.name p = lit "qop") then
    Ret (Build_fields user user8 realm nonce uri response algorithm opaque (Some (QopOption.from v)) cnonce nc userhash other)
  else if decide (AuthParam.name p = lit "cnonce") then
    Ret (Build_fields user user8 realm nonce uri response algorithm opaque qop (Some v) nc userhash other)
  else if decide (AuthParam.name p = lit "nc") then
    Ret (Build_fields user user8 realm nonce uri response algorithm opaque qop cnonce (Some (parse_hex v)) userhash other)
  else if decide (AuthParam.name p = lit "userhash") then
    Ret (Build_fields user user8 realm nonce uri response algorithm opaque qop cnonce nc
      (eq_ignore_ascii_case v (lit "true")) other)
  else Ret (Build_fields user user8 realm nonce uri response algorithm opaque qop cnonce nc userhash (other ++ [p])).

Definition read_fields (f : fields) (ps : list AuthParam.t) : exec fields :=
  foldl (fun f p => f ← f; field f p) (Ret f) ps.

(** What follows the loop *)
Definition of_fields (f : fields) : option t :=
  qop_response ← match f_qop f with
                 | Some qop =>
                     cnonce ← f_cnonce f; nc ← f_nc f; nc ← nc;
                     Some (Some {| QopResponse.qop := qop; QopResponse.cnonce := cnonce; QopResponse.nc := nc |})
                 | None => Some None
                 end;
  username ← match f_username f, f_username_non_ascii f with
             | Some _, Some _ => None
             | Some username, None => Some (Username.Username username)
             | None, Some username => if f_userhash f then None else Some (Username.UsernameNonASCII username)
             | None, None => None
             end;
  realm ← f_realm f; nonce ← f_nonce f; uri ← f_uri f; response ← f_response f;
  Some {| username := username; realm := realm; nonce := nonce; uri := uri; response := response;
          algorithm := f_algorithm f; opaque := f_opaque f; qop_response := qop_response;
          userhash := f_userhash f; other := f_other f |}.

(** [from_auth_params] *)
Definition from_auth_params (ps : list AuthParam.t) : exec (option t) :=
  f ← read_fields no_fields ps; Ret (of_fields f).

(** [Print] *)
Definition print (r : t) : str :=
  lit "Digest " ++ Username.print (username r) ++
  lit ", realm=" ++ [x22] ++ realm r ++ [x22] ++ lit ", nonce=" ++ [x22] ++ nonce r ++ [x22] ++
  lit ", uri=" ++ [x22] ++ uri r ++ [x22] ++ lit ", response=" ++ [x22] ++ response r ++ [x22] ++
  (if decide (algorithm r = Algorithm.MD5) then [] else lit ", algorithm=" ++ Algorithm.print (algorithm r)) ++
  match opaque r with Some opaque => lit ", opaque=" ++ [x22] ++ opaque ++ [x22] | None => [] end ++
  match qop_response r with
  | Some q =>
      lit ", qop=" ++ [x22] ++ QopOption.print (QopResponse.qop q) ++ [x22] ++
      lit ", cnonce=" ++ [x22] ++ QopResponse.cnonce q ++ [x22] ++
      lit ", nc=" ++ print_hex8 (QopResponse.nc q)
  | None => []
  end ++
  (if userhash r then lit ", userhash=true" else []) ++
  Auth.print_rest (other r).
#[global] Instance digest_response_extend_values : ExtendValues t := {|
  extend_values r values := OneOrMore.push (print r) values;
  create_values r := OneOrMore.One (print r) |}.
End DigestResponse.

Module AuthResponse.
Inductive t := Digest (response : DigestResponse.t) | Other (auth : Auth.t).
Definition print (r : t) : str :=
  match r with Digest response => DigestResponse.print response | Other auth => Auth.print auth end.
#[global] Instance auth_response_extend_values : ExtendValues t := {|
  extend_values r values := OneOrMore.push (print r) values;
  create_values r := OneOrMore.One (print r) |}.
End AuthResponse.

(** ** Parsers *)
Section parsers.
Context {N : Combinators} {U : Unicode} {ET : ErrorText}.

(** [AuthParam::parse] *)
Definition parse_auth_param : parser AuthParam.t :=
  map (ws3 (take_while token) (tag (lit "=")) (alt parse_quoted (take_while token)))
    (fun '(name, _, value) => {| AuthParam.name := name; AuthParam.value := value |}).

(** [parse_auth_params] *)
Definition not_whitespace (c : str) : bool := negb (whitespace c).
Definition next_auth_param : parser AuthParam.t := map (ws (tag (lit ",")) parse_auth_param) snd.
Definition parse_auth_params : parser (str * list AuthParam.t) :=
  tuple (take_while1 not_whitespace)
    (preceded (take_while whitespace)
       (map (tuple parse_auth_param (many0 next_auth_param)) (fun '(first_param, v) => first_param :: v))).

(** The closures of [map_res]: a panic is a value. *)
Definition or_panic {A B} (f : A -> B) (r : exec (option A)) : option (exec B) :=
  match r with Ret (Some a) => Some (Ret (f a)) | Ret None => None | Panic => Some Panic end.

(** [HeaderParse for AuthChallenge], [AuthResponse] *)
Definition parse_challenge : parser (exec AuthChallenge.t) :=
  map_res parse_auth_params (fun '(scheme, params) =>
    if decide (scheme = lit "Digest") then or_panic AuthChallenge.Digest (DigestChallenge.from_auth_params params)
    else Some (Ret (AuthChallenge.Other {| Auth.scheme := scheme; Auth.params := params |}))).
#[export] Instance auth_challenge_parse : HeaderParse (exec AuthChallenge.t) := {| header_parse := parsed_by parse_challenge |}.

Definition parse_response : parser (exec AuthResponse.t) :=
  map_res parse_auth_params (fun '(scheme, params) =>
    if decide (scheme = lit "Digest") then or_panic AuthResponse.Digest (DigestResponse.from_auth_params params)
    else Some (Ret (AuthResponse.Other {| Auth.scheme := scheme; Auth.params := params |}))).
#[export] Instance auth_response_parse : HeaderParse (exec AuthResponse.t) := {| header_parse := parsed_by parse_response |}.
End parsers.
