(* ===== verification/SipAuthProps.v ===== *)
(** * Challenges and answers are read as they were printed
    (sip-types/src/header/typed/auth.rs)

    Both headers are printed as a scheme and a list of items. The list is read
    back as parameters, and the parameters give the fields again. *)
From S2P Require Import Prelude Text StunAttr SipNames SipHeaders SipFraming SipMessages SipParse SipUri SipUriProps SipTyped.
From S2P Require Import SipTypedProps SipAuth.

(** ** Items *)
Inductive item := Quoted (n v : str) | Token (n v : str).

Definition item_param (i : item) : AuthParam.t :=
  match i with Quoted n v | Token n v => {| AuthParam.name := n; AuthParam.value := v |} end.
Definition print_item (i : item) : str :=
  match i with
  | Quoted n v => n ++ lit "=" ++ [x22] ++ v ++ [x22]
  | Token n v => n ++ lit "=" ++ v
  end.
Definition print_more (l : list item) : str := concat ((fun i => lit ", " ++ print_item i) <$> l).

Lemma print_more_app l k : print_more (l ++ k) = print_more l ++ print_more k.
Proof. unfold print_more. by rewrite fmap_app, concat_app. Qed.

Definition quoted_text (s : str) : Prop := s <> [] /\ Forall (fun b => b <> x22 /\ b <> x5c) s.
#[export] Instance quoted_text_dec s : Decision (quoted_text s).
Proof. unfold quoted_text. apply _. Defined.

Lemma print_rest_items ps : Auth.print_rest ps =
  print_more ((fun p => Quoted (AuthParam.name p) (AuthParam.value p)) <$> ps).
Proof. induction ps as [|p ps IH]; [done|]. cbn [Auth.print_rest]. rewrite IH. reflexivity. Qed.

(** *** Challenges *)
Definition opt_item (n : str) (o : option str) : list item := match o with Some v => [Quoted n v] | None => [] end.
Definition flag_item (n : str) (f : bool) : list item := if f then [Token n (lit "true")] else [].
Definition algorithm_item (a : Algorithm.t) : list item :=
  if decide (a = Algorithm.MD5) then [] else [Token (lit "algorithm") (Algorithm.print a)].
Definition qop_text (qs : list QopOption.t) : str :=
  match qs with [] => [] | q :: qs => QopOption.print q ++ concat ((fun q => lit "," ++ QopOption.print q) <$> qs) end.
Definition qop_item (qs : list QopOption.t) : list item :=
  match qs with [] => [] | _ => [Quoted (lit "qop") (qop_text qs)] end.
Definition other_items (ps : list AuthParam.t) : list item :=
  (fun p => Quoted (AuthParam.name p) (AuthParam.value p)) <$> ps.

Definition challenge_items (c : DigestChallenge.t) : list item :=
  [Quoted (lit "nonce") (DigestChallenge.nonce c)] ++
  opt_item (lit "domain") (DigestChallenge.domain c) ++ opt_item (lit "opaque") (DigestChallenge.opaque c) ++
  flag_item (lit "stale") (DigestChallenge.stale c) ++ algorithm_item (DigestChallenge.algorithm c) ++
  qop_item (DigestChallenge.qop c) ++ flag_item (lit "userhash") (DigestChallenge.userhash c) ++
  other_items (DigestChallenge.other c).

Lemma print_more_opt n o : print_more (opt_item n o) =
  match o with Some v => lit ", " ++ n ++ lit "=" ++ [x22] ++ v ++ [x22] | None => [] end.
Proof. destruct o; [|done]. cbn. by rewrite app_nil_r. Qed.

Lemma print_more_one i : print_more [i] = lit ", " ++ print_item i.
Proof. unfold print_more. cbn [fmap list_fmap concat]. by rewrite app_nil_r. Qed.

Lemma print_challenge c : DigestChallenge.print c =
  lit "Digest" ++ [x20] ++ print_item (Quoted (lit "realm") (DigestChallenge.realm c)) ++ print_more (challenge_items c).
Proof.
  destruct c as [realm domain nonce opaque stale alg qop userhash other].
  unfold DigestChallenge.print, challenge_items, algorithm_item, flag_item, qop_item.
  cbn [DigestChallenge.realm DigestChallenge.domain DigestChallenge.nonce DigestChallenge.opaque DigestChallenge.stale
    DigestChallenge.algorithm DigestChallenge.qop DigestChallenge.userhash DigestChallenge.other].
  rewrite !print_more_app, print_more_opt, print_more_opt, print_rest_items.
  fold (other_items other).
  set (o := print_more (other_items other)). clearbody o.
  destruct domain, opaque, stale, (decide (alg = Algorithm.MD5)), qop, userhash;
    rewrite ?print_more_one; cbn [print_item qop_text]; rewrite <-?app_assoc; reflexivity.
Qed.

(** *** Answers *)
Definition username_item (u : Username.t) : item :=
  match u with
  | Username.Username u => Quoted (lit "username") u
  | Username.UsernameNonASCII u => Token (lit "username*") u
  end.
Definition qop_response_items (q : option QopResponse.t) : list item :=
  match q with
  | Some q => [Quoted (lit "qop") (QopOption.print (QopResponse.qop q)); Quoted (lit "cnonce") (QopResponse.cnonce q);
               Token (lit "nc") (print_hex8 (QopResponse.nc q))]
  | None => []
  end.
Definition response_items (r : DigestResponse.t) : list item :=
  [Quoted (lit "realm") (DigestResponse.realm r)] ++ [Quoted (lit "nonce") (DigestResponse.nonce r)] ++
  [Quoted (lit "uri") (DigestResponse.uri r)] ++ [Quoted (lit "response") (DigestResponse.response r)] ++
  algorithm_item (DigestResponse.algorithm r) ++ opt_item (lit "opaque") (DigestResponse.opaque r) ++
  qop_response_items (DigestResponse.qop_response r) ++ flag_item (lit "userhash") (DigestResponse.userhash r) ++
  other_items (DigestResponse.other r).

Lemma print_response r : DigestResponse.print r =
  lit "Digest" ++ [x20] ++ print_item (username_item (DigestResponse.username r)) ++ print_more (response_items r).
Proof.
  destruct r as [user realm nonce uri response alg opaque qop userhash other].
  unfold DigestResponse.print, response_items, algorithm_item, flag_item.
  cbn [DigestResponse.username DigestResponse.realm DigestResponse.nonce DigestResponse.uri DigestResponse.response
    DigestResponse.algorithm DigestResponse.opaque DigestResponse.qop_response DigestResponse.userhash DigestResponse.other].
  rewrite !print_more_app, print_more_opt, print_rest_items. fold (other_items other).
  set (o := print_more (other_items other)). clearbody o.
  assert (print_more (qop_response_items qop) =
    match qop with
    | Some q => lit ", qop=" ++ [x22] ++ QopOption.print (QopResponse.qop q) ++ [x22] ++
        lit ", cnonce=" ++ [x22] ++ QopResponse.cnonce q ++ [x22] ++ lit ", nc=" ++ print_hex8 (QopResponse.nc q)
    | None => []
    end) as ->.
  { destruct qop as [[q cn nc]|]; [|done]. unfold print_more. cbn [qop_response_items fmap list_fmap concat print_item
      QopResponse.qop QopResponse.cnonce QopResponse.nc]. rewrite app_nil_r, <-!app_assoc. reflexivity. }
  destruct user, (decide (alg = Algorithm.MD5)), opaque, qop, userhash;
    rewrite ?print_more_one; cbn [print_item username_item Username.print]; rewrite <-?app_assoc; reflexivity.
Qed.

(** ** Items are read *)
Definition item_ok `{Unicode} (i : item) : Prop :=
  match i with
  | Quoted n v => all_of token n /\ n <> [] /\ quoted_text v
  | Token n v => all_of token n /\ n <> [] /\ v <> [] /\ all_of token v
  end.

Section reading.
Context `{NL : CombinatorLaws} {U : Unicode}.

(** What comes after the list *)
Definition auth_end (r : str) : Prop := stops token r /\ next_auth_param r = None.

Lemma token_front s r : s <> [] -> all_of token s -> skip_ws (s ++ r) = s ++ r.
Proof.
  intros Hne Hs. apply (skip_ws_text token); [done|done|].
  assert (forall b, token [b] = true -> is_ascii_whitespace b = false) as H by by_bytes. exact H.
Qed.

Lemma auth_item_reads i r : item_ok i -> stops token r -> reads parse_auth_param (print_item i) (item_param i) r.
Proof.
  intros Hi Hr. unfold reads, parse_auth_param. rewrite map_law, ws3_skip.
  assert (forall n v y, all_of token n -> n <> [] ->
    alt parse_quoted (take_while token) (skip_ws v) = Some (r, y) ->
    ('(i, x) ← take_while token (skip_ws (n ++ lit "=" ++ v)); '(i, y) ← tag (lit "=") (skip_ws i);
     '(i, z) ← alt parse_quoted (take_while token) (skip_ws i); Some (i, (x, y, z))) = Some (r, (n, lit "=", y))) as H.
  { intros n v y Hn Hne Hv. rewrite token_front by done. rewrite take_while_reads by done. cbn [mbind option_bind].
    assert (skip_ws (lit "=" ++ v) = lit "=" ++ v) as -> by (by apply skip_ws_visible).
    rewrite (tag_reads (lit "=")). cbn [mbind option_bind]. by rewrite Hv. }
  destruct i as [n v|n v]; cbn [item_ok print_item item_param] in *.
  - destruct Hi as (Hn & Hne & Hv1 & Hv2). rewrite <-!app_assoc.
    assert (skip_ws ([x22] ++ v ++ [x22] ++ r) = [x22] ++ v ++ [x22] ++ r) as Hq by (by apply skip_ws_visible).
    erewrite H; [reflexivity|done|done|]. rewrite Hq.
    pose proof (alt_reads_l parse_quoted (take_while token) _ _ r (parse_quoted_reads v r Hv1 Hv2)) as Ha.
    unfold reads in Ha. rewrite <-!app_assoc in Ha. exact Ha.
  - destruct Hi as (Hn & Hne & Hv1 & Hv2). rewrite <-!app_assoc.
    erewrite H; [reflexivity|done|done|]. rewrite token_front by done.
    apply (alt_reads_r _ _ v v r); [|by apply take_while_reads].
    destruct v as [|b v]; [done|]. apply parse_quoted_nothing. intros ->.
    inversion Hv2 as [|? ? [_ Hb] _]; subst. by vm_compute in Hb.
Qed.

Lemma more_stops l r : stops token r -> stops token (print_more l ++ r).
Proof. intros Hr. destruct l; [done|]. reflexivity. Qed.

Lemma more_then l r r' ps : Forall item_ok l -> stops token r -> many0 next_auth_param r = Some (r', ps) ->
  many0 next_auth_param (print_more l ++ r) = Some (r', (item_param <$> l) ++ ps).
Proof.
  intros Hl Hr Hps. induction Hl as [|i l Hi Hl IH]; [done|].
  change (print_more (i :: l)) with ((lit ", " ++ print_item i) ++ print_more l). cbn [fmap list_fmap app].
  rewrite <-!app_assoc. set (t := print_item i ++ print_more l ++ r).
  rewrite (many0_cons _ _ (print_more l ++ r) (item_param i)); [by rewrite IH| |].
  - unfold next_auth_param. rewrite map_law, ws_skip.
    assert (skip_ws (lit ", " ++ t) = lit "," ++ lit " " ++ t) as -> by (by apply skip_ws_visible).
    rewrite (tag_reads (lit ",")). cbn [mbind option_bind]. rewrite skip_space. assert (skip_ws t = t) as ->.
    { unfold t. destruct i as [n v|n v]; cbn [item_ok print_item] in *; destruct Hi as (? & ? & _);
        rewrite <-!app_assoc; by apply token_front. }
    unfold t. rewrite (auth_item_reads i (print_more l ++ r)); [done|done|]. by apply more_stops.
  - unfold t. rewrite !length_app. cbn. lia.
Qed.

Lemma more_reads l r : Forall item_ok l -> auth_end r ->
  reads (many0 next_auth_param) (print_more l) (item_param <$> l) r.
Proof.
  intros Hl [Hr Hn]. unfold reads. rewrite (more_then l r r []); [by rewrite app_nil_r|done|done|by apply many0_nil].
Qed.

(** A scheme and its items *)
Lemma auth_params_then scheme i l r r' ps : scheme <> [] -> all_of token scheme -> item_ok i -> Forall item_ok l ->
  stops token r -> many0 next_auth_param r = Some (r', ps) ->
  parse_auth_params ((scheme ++ [x20] ++ print_item i ++ print_more l) ++ r) =
    Some (r', (scheme, (item_param <$> (i :: l)) ++ ps)).
Proof.
  intros Hne Hs Hi Hl Hr Hps. unfold parse_auth_params.
  assert (forall b, token [b] = true -> not_whitespace [b] = true) as Hw by by_bytes.
  rewrite <-!app_assoc, tuple_law, take_while1_reads; [|done| |done].
  2:{ eapply all_of_impl; [|exact Hs]. auto. }
  cbn [mbind option_bind]. rewrite preceded_law, take_while_reads; [|by repeat constructor|].
  - cbn [mbind option_bind]. rewrite map_law, tuple_law, auth_item_reads by (done || by apply more_stops).
    cbn [mbind option_bind]. by rewrite (more_then l r r' ps).
  - assert (exists b t, print_item i = b :: t /\ token [b] = true /\ in_range 0 127 b = true) as (b & t & -> & Hb & Ha).
    { destruct i as [n v|n v]; cbn [item_ok print_item] in *; destruct Hi as (Hn & Hne' & _);
        (destruct n as [|b n]; [done|]); inversion Hn as [|? ? [? ?] _]; subst; by eexists b, _. }
    unfold stops. cbn [app]. rewrite char_len_ascii by done. cbn [take].
    assert (forall b, token [b] = true -> whitespace [b] = false) as Hw' by by_bytes. by apply Hw'.
Qed.

Lemma auth_params_reads scheme i l r : scheme <> [] -> all_of token scheme -> item_ok i -> Forall item_ok l ->
  auth_end r ->
  reads parse_auth_params (scheme ++ [x20] ++ print_item i ++ print_more l) (scheme, item_param <$> (i :: l)) r.
Proof.
  intros Hne Hs Hi Hl [Hr Hn]. unfold reads. rewrite (auth_params_then _ _ _ r r []); try done.
  - by rewrite app_nil_r.
  - by apply many0_nil.
Qed.
End reading.

(** ** Parameters give the fields again *)

(** What can be printed and read *)
Definition algorithm_ok `{Unicode} (a : Algorithm.t) : Prop :=
  a <> Algorithm.MD5 -> Algorithm.print a <> [] /\ all_of token (Algorithm.print a) /\
  Algorithm.from (Algorithm.print a) = Ret a.
Definition qop_ok (q : QopOption.t) : Prop :=
  QopOption.from (QopOption.print q) = q /\ trim (QopOption.print q) = QopOption.print q /\
  quoted_text (QopOption.print q) /\ x2c ∉ QopOption.print q.
Definition opt_ok (o : option str) : Prop := match o with Some s => quoted_text s | None => True end.
Definition other_ok `{Unicode} (known : list str) (p : AuthParam.t) : Prop :=
  all_of token (AuthParam.name p) /\ AuthParam.name p <> [] /\ AuthParam.name p ∉ known /\ quoted_text (AuthParam.value p).

Definition challenge_names : list str :=
  [lit "realm"; lit "domain"; lit "nonce"; lit "opaque"; lit "stale"; lit "algorithm"; lit "qop"; lit "userhash"].
Record challenge_ok `{Unicode} (c : DigestChallenge.t) : Prop := {
  ch_realm : quoted_text (DigestChallenge.realm c);
  ch_domain : opt_ok (DigestChallenge.domain c);
  ch_nonce : quoted_text (DigestChallenge.nonce c);
  ch_opaque : opt_ok (DigestChallenge.opaque c);
  ch_algorithm : algorithm_ok (DigestChallenge.algorithm c);
  ch_qop : Forall qop_ok (DigestChallenge.qop c);
  ch_other : Forall (other_ok challenge_names) (DigestChallenge.other c) }.

Lemma foldl_fields {F P} (step : F -> P -> exec F) m ps :
  foldl (fun f p => f ← f; step f p) m ps = (f ← m; foldl (fun f p => f ← f; step f p) (Ret f) ps).
Proof.
  destruct m as [a|]; [done|]. cbn. by induction ps as [|p ps IH].
Qed.

Lemma challenge_fields_app f ps qs : DigestChallenge.read_fields f (ps ++ qs) =
  (f ← DigestChallenge.read_fields f ps; DigestChallenge.read_fields f qs).
Proof. unfold DigestChallenge.read_fields. rewrite foldl_app. apply foldl_fields. Qed.

Lemma qop_split q qs : Forall qop_ok (q :: qs) ->
  (fun v => QopOption.from (trim v)) <$> split_byte x2c (qop_text (q :: qs)) = q :: qs.
Proof.
  revert q. induction qs as [|q' qs IH]; intros q Hq; inversion Hq as [|? ? (Hf & Ht & _ & Hc) Hqs]; subst.
  - cbn [qop_text fmap list_fmap concat]. rewrite app_nil_r, split_byte_last by done. cbn [fmap list_fmap]. by rewrite Ht, Hf.
  - change (qop_text (q :: q' :: qs)) with (QopOption.print q ++ x2c :: qop_text (q' :: qs)).
    rewrite split_byte_part by done. cbn [fmap list_fmap]. rewrite Ht, Hf. f_equal. by apply IH.
Qed.

Lemma qop_quoted q qs : Forall qop_ok (q :: qs) -> quoted_text (qop_text (q :: qs)).
Proof.
  intros Hq. inversion Hq as [|? ? (_ & _ & [Hne H] & _) Hqs]; subst. split.
  - cbn [qop_text]. by destruct (QopOption.print q).
  - cbn [qop_text]. apply Forall_app. split; [done|]. apply Forall_concat, Forall_fmap.
    eapply Forall_impl; [exact Hqs|]. cbn. intros p (_ & _ & [_ Hp] & _). by constructor.
Qed.

Lemma challenge_others f ps `{Unicode} : Forall (other_ok challenge_names) ps ->
  DigestChallenge.read_fields f (item_param <$> other_items ps) =
  let 'DigestChallenge.Build_fields realm domain nonce opaque stale algorithm qop userhash other := f in
  Ret (DigestChallenge.Build_fields realm domain nonce opaque stale algorithm qop userhash (other ++ ps)).
Proof.
  intros Hps. revert f. induction Hps as [|p ps (_ & _ & Hn & _) _ IH]; intros f.
  - destruct f. cbn. by rewrite app_nil_r.
  - unfold other_items in *. cbn [fmap list_fmap]. unfold DigestChallenge.read_fields. cbn [foldl mbind exec_bind].
    assert (DigestChallenge.field f {| AuthParam.name := AuthParam.name p; AuthParam.value := AuthParam.value p |} =
      let 'DigestChallenge.Build_fields realm domain nonce opaque stale algorithm qop userhash other := f in
      Ret (DigestChallenge.Build_fields realm domain nonce opaque stale algorithm qop userhash (other ++ [p]))) as Hf.
    { destruct f. unfold DigestChallenge.field. cbn [AuthParam.name]. unfold challenge_names in Hn.
      rewrite !decide_False by (intros E; apply Hn; rewrite E; by apply (bool_decide_eq_true_1 _)). by destruct p. }
    cbn [item_param]. rewrite Hf. destruct f.
    change (foldl _ (Ret ?x) _) with (DigestChallenge.read_fields x (item_param <$> other_items ps)).
    unfold other_items. rewrite IH. by rewrite <-app_assoc.
Qed.

Section challenges.
Context `{NL : CombinatorLaws} {U : Unicode}.

Lemma challenge_fields_read c : challenge_ok c ->
  DigestChallenge.from_auth_params
    (item_param <$> Quoted (lit "realm") (DigestChallenge.realm c) :: challenge_items c) = Ret (Some c).
Proof.
  intros Hc. destruct c as [realm domain nonce opaque stale alg qop userhash other].
  destruct Hc as [_ _ _ _ Halg Hqop Hother].
  cbn [DigestChallenge.realm DigestChallenge.algorithm DigestChallenge.qop DigestChallenge.other] in *.
  set (F := DigestChallenge.Build_fields).
  assert (forall r n d o s a q u x, DigestChallenge.read_fields (F r n d o s a q u x)
    (item_param <$> opt_item (lit "domain") domain) = Ret (F r (match domain with Some _ => domain | None => n end) d o s a q u x))
    as H1 by (intros; by destruct domain).
  assert (forall r n d s a q u x, DigestChallenge.read_fields (F r n d None s a q u x)
    (item_param <$> opt_item (lit "opaque") opaque) = Ret (F r n d opaque s a q u x)) as H2 by (intros; by destruct opaque).
  assert (forall r n d o a q u x, DigestChallenge.read_fields (F r n d o false a q u x)
    (item_param <$> flag_item (lit "stale") stale) = Ret (F r n d o stale a q u x)) as H3 by (intros; by destruct stale).
  assert (forall r n d o s q u x, DigestChallenge.read_fields (F r n d o s Algorithm.MD5 q u x)
    (item_param <$> algorithm_item alg) = Ret (F r n d o s alg q u x)) as H4.
  { intros. unfold algorithm_item. destruct (decide (alg = Algorithm.MD5)) as [->|Hne]; [done|].
    destruct (Halg Hne) as (_ & _ & Hp).
    change (_ = _) with ((a ← Algorithm.from (Algorithm.print alg); Ret (F r n d o s a q u x)) = Ret (F r n d o s alg q u x)).
    by rewrite Hp. }
  assert (forall r n d o s a u x, DigestChallenge.read_fields (F r n d o s a [] u x)
    (item_param <$> qop_item qop) = Ret (F r n d o s a qop u x)) as H5.
  { intros. destruct qop as [|q qs]; [done|]. rewrite <-(qop_split q qs Hqop) at 2. done. }
  assert (forall r n d o s a q x, DigestChallenge.read_fields (F r n d o s a q false x)
    (item_param <$> flag_item (lit "userhash") userhash) = Ret (F r n d o s a q userhash x)) as H6
    by (intros; by destruct userhash).
  unfold DigestChallenge.from_auth_params, challenge_items.
  cbn [DigestChallenge.realm DigestChallenge.domain DigestChallenge.nonce DigestChallenge.opaque DigestChallenge.stale
    DigestChallenge.algorithm DigestChallenge.qop DigestChallenge.userhash DigestChallenge.other].
  change (item_param <$> ?x :: ?l) with ((item_param <$> [x]) ++ (item_param <$> l)). rewrite !fmap_app.
  rewrite challenge_fields_app.
  change (DigestChallenge.read_fields DigestChallenge.no_fields (item_param <$> [Quoted (lit "realm") realm])) with
    (Ret (F (Some realm) None None None false Algorithm.MD5 [] false [])).
  cbn [mbind exec_bind]. rewrite challenge_fields_app.
  change (DigestChallenge.read_fields (F (Some realm) None None None false Algorithm.MD5 [] false [])
    (item_param <$> [Quoted (lit "nonce") nonce])) with (Ret (F (Some realm) None (Some nonce) None false Algorithm.MD5 [] false [])).
  cbn [mbind exec_bind].
  do 6 (rewrite challenge_fields_app, ?H1, ?H2, ?H3, ?H4, ?H5, ?H6; cbn [mbind exec_bind]).
  rewrite (challenge_others _ other Hother). subst F. cbn. by destruct domain.
Qed.

(** Items with a name of the code *)
Lemma quoted_ok n v : forallb token_byte n = true -> n <> [] -> quoted_text v -> item_ok (Quoted n v).
Proof.
  intros Hn Hne Hv. split; [|done]. apply Forall_forall. intros b Hb. rewrite forallb_forall in Hn.
  apply list_elem_of_In, Hn in Hb. revert b Hb. by_bytes.
Qed.

Lemma flag_ok n f : forallb token_byte n = true -> n <> [] -> Forall item_ok (flag_item n f).
Proof.
  intros Hn Hne. destruct f; [|constructor]. constructor; [|constructor]. destruct (quoted_ok n (lit "x") Hn Hne) as [Ht _].
  - split; [done|]. by repeat constructor.
  - split; [done|]. split; [done|]. split; [done|]. by repeat constructor.
Qed.

Lemma opt_item_ok n o : forallb token_byte n = true -> n <> [] -> opt_ok o -> Forall item_ok (opt_item n o).
Proof. intros Hn Hne Ho. destruct o; [|constructor]. constructor; [by apply quoted_ok|constructor]. Qed.

Lemma algorithm_item_ok a : algorithm_ok a -> Forall item_ok (algorithm_item a).
Proof.
  intros Ha. unfold algorithm_item. case_decide as Hd; [constructor|]. destruct (Ha Hd) as (Hne & Ht & _).
  constructor; [|constructor]. split; [by repeat constructor|done].
Qed.

Lemma other_items_ok known ps : Forall (other_ok known) ps -> Forall item_ok (other_items ps).
Proof.
  intros Hps. apply Forall_fmap. eapply Forall_impl; [exact Hps|]. cbn. by intros p (Hn & Hne & _ & Hv).
Qed.

Lemma challenge_items_ok c : challenge_ok c ->
  Forall item_ok (Quoted (lit "realm") (DigestChallenge.realm c) :: challenge_items c).
Proof.
  intros [Hr Hd Hn Ho Ha Hq Hps]. constructor; [by apply quoted_ok|]. unfold challenge_items.
  repeat (apply Forall_app; split).
  - constructor; [by apply quoted_ok|constructor].
  - by apply opt_item_ok.
  - by apply opt_item_ok.
  - by apply flag_ok.
  - by apply algorithm_item_ok.
  - destruct (DigestChallenge.qop c) as [|q qs]; [constructor|].
    constructor; [apply quoted_ok; [done|done|by apply qop_quoted]|constructor].
  - by apply flag_ok.
  - by eapply other_items_ok.
Qed.

Lemma challenge_reads c r : challenge_ok c -> auth_end r ->
  reads parse_challenge (DigestChallenge.print c) (Ret (AuthChallenge.Digest c)) r.
Proof.
  intros Hc Hr. rewrite print_challenge. pose proof (challenge_items_ok c Hc) as Hi.
  inversion Hi as [|? ? H1 H2]; subst. unfold parse_challenge.
  eapply map_res_reads; [apply auth_params_reads; [done|by repeat constructor|exact H1|exact H2|done]|].
  cbv beta iota. rewrite decide_True by done. by rewrite challenge_fields_read.
Qed.

(** *** Answers *)
Definition response_names : list str :=
  [lit "username"; lit "username*"; lit "realm"; lit "nonce"; lit "uri"; lit "response"; lit "algorithm"; lit "opaque";
   lit "qop"; lit "cnonce"; lit "nc"; lit "userhash"].

Lemma response_fields_app f ps qs : DigestResponse.read_fields f (ps ++ qs) =
  (f ← DigestResponse.read_fields f ps; DigestResponse.read_fields f qs).
Proof. unfold DigestResponse.read_fields. rewrite foldl_app. apply foldl_fields. Qed.

Lemma response_others f ps : Forall (other_ok response_names) ps ->
  DigestResponse.read_fields f (item_param <$> other_items ps) =
  let 'DigestResponse.Build_fields u u8 realm nonce uri response algorithm opaque qop cnonce nc userhash other := f in
  Ret (DigestResponse.Build_fields u u8 realm nonce uri response algorithm opaque qop cnonce nc userhash (other ++ ps)).
Proof.
  intros Hps. revert f. induction Hps as [|p ps (_ & _ & Hn & _) _ IH]; intros f.
  - destruct f. cbn. by rewrite app_nil_r.
  - unfold other_items in *. cbn [fmap list_fmap]. unfold DigestResponse.read_fields. cbn [foldl mbind exec_bind].
    assert (DigestResponse.field f {| AuthParam.name := AuthParam.name p; AuthParam.value := AuthParam.value p |} =
      let 'DigestResponse.Build_fields u u8 realm nonce uri response algorithm opaque qop cnonce nc userhash other := f in
      Ret (DigestResponse.Build_fields u u8 realm nonce uri response algorithm opaque qop cnonce nc userhash (other ++ [p]))) as Hf.
    { destruct f. unfold DigestResponse.field. cbn [AuthParam.name]. unfold response_names in Hn.
      rewrite !decide_False by (intros E; apply Hn; rewrite E; by apply (bool_decide_eq_true_1 _)). by destruct p. }
    cbn [item_param]. rewrite Hf. destruct f.
    change (foldl _ (Ret ?x) _) with (DigestResponse.read_fields x (item_param <$> other_items ps)).
    unfold other_items. rewrite IH. by rewrite <-app_assoc.
Qed.

Lemma fold_bytes_grows l a : (0 <= a)%Z -> (a <= foldl (fun acc b => (acc * 256 + byte_val b)%Z) a l)%Z.
Proof.
  revert a. induction l as [|b l IH]; intros a Ha; cbn; [lia|]. pose proof (byte_val_range b).
  specialize (IH (a * 256 + byte_val b)%Z). lia.
Qed.

Lemma fold_hex l a : (0 <= a)%Z -> (foldl (fun acc b => (acc * 256 + byte_val b)%Z) a l < 2 ^ 32)%Z ->
  foldl add_hex (Some a) (concat (hex_byte <$> l)) = Some (foldl (fun acc b => (acc * 256 + byte_val b)%Z) a l).
Proof.
  revert a. induction l as [|b l IH]; intros a Ha Hl; [done|]. cbn [fmap list_fmap concat foldl] in *.
  pose proof (hex_halves b) as [Hh Hm]. pose proof (Z.div_mod (byte_val b) 16 ltac:(lia)) as Hdm.
  pose proof (fold_bytes_grows l (a * 256 + byte_val b) ltac:(lia)) as Hg.
  rewrite foldl_app. unfold hex_byte. cbn [foldl].
  unfold add_hex at 3. cbn [mbind option_bind]. rewrite hex_digits by done. cbn [mbind option_bind].
  rewrite decide_True by (unfold uint; lia).
  unfold add_hex at 2. cbn [mbind option_bind]. rewrite hex_digits by done. cbn [mbind option_bind].
  rewrite decide_True by (unfold uint; lia).
  replace ((a * 16 + byte_val b / 16) * 16 + byte_val b mod 16)%Z with (a * 256 + byte_val b)%Z by lia.
  apply IH; lia.
Qed.

Lemma parse_print_hex8 z : uint 32 z -> parse_hex (print_hex8 z) = Some z.
Proof.
  intros Hz. unfold print_hex8, parse_hex. pose proof (be_val_bytes_id 4 z Hz) as Hv.
  pose proof (length_be_bytes 4 z) as Hl. destruct (be_bytes 4 z) as [|b l]; [done|].
  assert (forall b, (0 <= b < 16)%Z -> hex_digit b <> x2b) as Hp.
  { intros b' Hb E. pose proof (hex_digits b' Hb) as H. rewrite E in H. by vm_compute in H. }
  pose proof (hex_halves b) as [Hh _]. pose proof (fold_hex (b :: l) 0 ltac:(lia)) as Hf.
  fold (be_val (b :: l)) in Hf. rewrite Hv in Hf. specialize (Hf (proj2 Hz)).
  cbn [fmap list_fmap concat hex_byte app] in *. rewrite (decide_False (P := hex_digit (byte_val b / 16) = x2b /\ _)) by (intros [E _]; by eapply Hp).
  by rewrite decide_False.
Qed.

(** What can be printed and read *)
Definition username_ok (u : Username.t) (userhash : bool) : Prop :=
  match u with
  | Username.Username u => quoted_text u
  | Username.UsernameNonASCII u => u <> [] /\ all_of token u /\ userhash = false
  end.
Definition qop_response_ok (q : option QopResponse.t) : Prop :=
  match q with
  | Some q => qop_ok (QopResponse.qop q) /\ quoted_text (QopResponse.cnonce q) /\ uint 32 (QopResponse.nc q)
  | None => True
  end.
Record response_ok (r : DigestResponse.t) : Prop := {
  rs_username : username_ok (DigestResponse.username r) (DigestResponse.userhash r);
  rs_realm : quoted_text (DigestResponse.realm r);
  rs_nonce : quoted_text (DigestResponse.nonce r);
  rs_uri : quoted_text (DigestResponse.uri r);
  rs_response : quoted_text (DigestResponse.response r);
  rs_algorithm : algorithm_ok (DigestResponse.algorithm r);
  rs_opaque : opt_ok (DigestResponse.opaque r);
  rs_qop : qop_response_ok (DigestResponse.qop_response r);
  rs_other : Forall (other_ok response_names) (DigestResponse.other r) }.

Lemma response_fields_read r : response_ok r ->
  DigestResponse.from_auth_params
    (item_param <$> username_item (DigestResponse.username r) :: response_items r) = Ret (Some r).
Proof.
  intros Hr. destruct r as [user realm nonce uri response alg opaque qop userhash other].
  destruct Hr as [Huser _ _ _ _ Halg _ Hqop Hother].
  cbn [DigestResponse.username DigestResponse.userhash DigestResponse.algorithm DigestResponse.qop_response
    DigestResponse.other] in *.
  set (F := DigestResponse.Build_fields).
  set (u := match user with Username.Username u => Some u | _ => None end).
  set (u8 := match user with Username.UsernameNonASCII u => Some u | _ => None end).
  assert (DigestResponse.read_fields DigestResponse.no_fields
    (item_param <$> [username_item user; Quoted (lit "realm") realm; Quoted (lit "nonce") nonce; Quoted (lit "uri") uri;
                     Quoted (lit "response") response]) =
    Ret (F u u8 (Some realm) (Some nonce) (Some uri) (Some response) Algorithm.MD5 None None None None false [])) as H0
    by (by destruct user).
  assert (forall a b c d e f o q n m h x, DigestResponse.read_fields (F a b c d e f Algorithm.MD5 o q n m h x)
    (item_param <$> algorithm_item alg) = Ret (F a b c d e f alg o q n m h x)) as H1.
  { intros. unfold algorithm_item. destruct (decide (alg = Algorithm.MD5)) as [->|Hne]; [done|].
    destruct (Halg Hne) as (_ & _ & Hp).
    change (_ = _) with ((y ← Algorithm.from (Algorithm.print alg); Ret (F a b c d e f y o q n m h x)) =
      Ret (F a b c d e f alg o q n m h x)). by rewrite Hp. }
  assert (forall a b c d e f y q n m h x, DigestResponse.read_fields (F a b c d e f y None q n m h x)
    (item_param <$> opt_item (lit "opaque") opaque) = Ret (F a b c d e f y opaque q n m h x)) as H2 by (intros; by destruct opaque).
  assert (forall a b c d e f y o h x, DigestResponse.read_fields (F a b c d e f y o None None None h x)
    (item_param <$> qop_response_items qop) =
    Ret (F a b c d e f y o (QopResponse.qop <$> qop) (QopResponse.cnonce <$> qop) ((fun q => Some (QopResponse.nc q)) <$> qop) h x)) as H3.
  { intros. destruct qop as [[q cn nc]|]; [|done]. destruct Hqop as ((Hf & _) & _ & Hnc).
    cbn [QopResponse.qop QopResponse.cnonce QopResponse.nc] in *.
    change (_ = _) with (Ret (F a b c d e f y o (Some (QopOption.from (QopOption.print q))) (Some cn)
      (Some (parse_hex (print_hex8 nc))) h x) = Ret (F a b c d e f y o (Some q) (Some cn) (Some (Some nc)) h x)).
    by rewrite Hf, parse_print_hex8. }
  assert (forall a b c d e f y o q n m x, DigestResponse.read_fields (F a b c d e f y o q n m false x)
    (item_param <$> flag_item (lit "userhash") userhash) = Ret (F a b c d e f y o q n m userhash x)) as H4
    by (intros; by destruct userhash).
  unfold DigestResponse.from_auth_params, response_items.
  cbn [DigestResponse.username DigestResponse.realm DigestResponse.nonce DigestResponse.uri DigestResponse.response
    DigestResponse.algorithm DigestResponse.opaque DigestResponse.qop_response DigestResponse.userhash DigestResponse.other].
  change (username_item user :: [Quoted (lit "realm") realm] ++ [Quoted (lit "nonce") nonce] ++
    [Quoted (lit "uri") uri] ++ [Quoted (lit "response") response] ++ ?l) with
    ([username_item user; Quoted (lit "realm") realm; Quoted (lit "nonce") nonce; Quoted (lit "uri") uri;
      Quoted (lit "response") response] ++ l).
  rewrite !fmap_app, response_fields_app, H0. cbn [mbind exec_bind].
  do 4 (rewrite response_fields_app, ?H1, ?H2, ?H3, ?H4; cbn [mbind exec_bind]).
  rewrite (response_others _ other Hother). subst F u u8. cbn. f_equal.
  destruct qop as [[q cn nc]|], user; cbn; try done; by destruct Huser as (_ & _ & ->).
Qed.

Lemma username_item_ok u h : username_ok u h -> item_ok (username_item u).
Proof.
  destruct u as [u|u]; cbn; intros Hu; [by apply (quoted_ok (lit "username"))|]. split; [by repeat constructor|].
  split; [done|]. naive_solver.
Qed.

Lemma nc_item_ok z : item_ok (Token (lit "nc") (print_hex8 z)).
Proof.
  split; [by repeat constructor|]. split; [done|]. unfold print_hex8. pose proof (length_be_bytes 4 z) as Hl. split.
  - by destruct (be_bytes 4 z).
  - apply Forall_concat, Forall_fmap, Forall_forall. intros b _. cbn. pose proof (hex_halves b) as [Hh Hm].
    assert (forall z, (0 <= z < 16)%Z -> in_range 0 127 (hex_digit z) = true /\ token [hex_digit z] = true) as H.
    { intros y Hy. assert (forallb (fun z => in_range 0 127 (hex_digit z) && token_byte (hex_digit z)) (seqZ 0 16) = true)
        as H by done.
      rewrite forallb_forall in H. specialize (H y). apply andb_true_iff in H.
      - destruct H as [H1 H2]. split; [done|]. revert H2.
        assert (forall b, token_byte b = true -> token [b] = true) as Ht by by_bytes. apply Ht.
      - apply list_elem_of_In, elem_of_seqZ. lia. }
    constructor; [by apply H|]. constructor; [by apply H|constructor].
Qed.

Lemma response_items_ok r : response_ok r ->
  Forall item_ok (username_item (DigestResponse.username r) :: response_items r).
Proof.
  intros [Hu Hr Hn Huri Hres Ha Ho Hq Hps]. constructor; [by eapply username_item_ok|]. unfold response_items.
  repeat (apply Forall_app; split); try (constructor; [by apply quoted_ok|constructor]).
  - by apply algorithm_item_ok.
  - by apply opt_item_ok.
  - destruct (DigestResponse.qop_response r) as [q|]; [|constructor]. destruct Hq as ((_ & _ & Hq & _) & Hc & _).
    constructor; [by apply quoted_ok|]. constructor; [by apply quoted_ok|]. constructor; [apply nc_item_ok|constructor].
  - by apply flag_ok.
  - by eapply other_items_ok.
Qed.

Lemma response_reads x r : response_ok x -> auth_end r ->
  reads parse_response (DigestResponse.print x) (Ret (AuthResponse.Digest x)) r.
Proof.
  intros Hx Hr. rewrite print_response. pose proof (response_items_ok x Hx) as Hi.
  inversion Hi as [|? ? H1 H2]; subst. unfold parse_response.
  eapply map_res_reads; [apply auth_params_reads; [done|by repeat constructor|exact H1|exact H2|done]|].
  cbv beta iota. rewrite decide_True by done. by rewrite response_fields_read.
Qed.

(** *** The theorems *)
Lemma end_of_value : auth_end [].
Proof.
  split; [done|]. unfold next_auth_param. rewrite map_law, ws_skip.
  assert (tag (lit ",") (skip_ws []) = None) as -> by (by apply tag_nothing). done.
Qed.

(** A parameter with an empty value in quotes is read, without the quotes,
    which end the list. *)
Lemma empty_value n r : all_of token n -> n <> [] ->
  many0 next_auth_param (lit ", " ++ n ++ lit "=" ++ [x22; x22] ++ r) =
    Some ([x22; x22] ++ r, [{| AuthParam.name := n; AuthParam.value := [] |}]).
Proof.
  intros Hn Hne. rewrite (many0_cons _ _ ([x22; x22] ++ r) {| AuthParam.name := n; AuthParam.value := [] |}).
  - rewrite many0_nil; [done|]. unfold next_auth_param. rewrite map_law, ws_skip.
    assert (skip_ws ([x22; x22] ++ r) = [x22; x22] ++ r) as -> by (by apply skip_ws_visible).
    by rewrite tag_nothing.
  - set (t := n ++ lit "=" ++ [x22; x22] ++ r). unfold next_auth_param. rewrite map_law, ws_skip.
    assert (skip_ws (lit ", " ++ t) = lit "," ++ lit " " ++ t) as -> by (by apply skip_ws_visible).
    rewrite (tag_reads (lit ",")). cbn [mbind option_bind]. rewrite skip_space. unfold t. rewrite token_front by done.
    unfold parse_auth_param. rewrite map_law, ws3_skip, token_front by done.
    rewrite take_while_reads by done. cbn [mbind option_bind].
    assert (forall i, skip_ws (lit "=" ++ i) = lit "=" ++ i) as -> by (intros i; by apply skip_ws_visible).
    rewrite (tag_reads (lit "=")). cbn [mbind option_bind].
    assert (skip_ws ([x22; x22] ++ r) = [x22; x22] ++ r) as -> by (by apply skip_ws_visible).
    rewrite alt_law. assert (parse_quoted ([x22; x22] ++ r) = None) as ->.
    { unfold parse_quoted. rewrite delimited_law. change ([x22; x22] ++ r) with ([x22] ++ x22 :: r).
      rewrite char_reads. cbn [mbind option_bind]. rewrite escaped_nothing; [done|done|].
      rewrite is_not_law by (by repeat constructor). done. }
    change ([x22; x22] ++ r) with ([] ++ [x22; x22] ++ r) at 1. by rewrite take_while_reads by (done || constructor).
  - rewrite !length_app. cbn. lia.
Qed.

(** Challenges and answers of digest authentication are read as they were
    printed, as long as no text in quotes is empty or holds a quote or a
    backslash; lists of challenges are read from their values. *)
Theorem auth_headers_read_back `{ET : ErrorText} :
  (forall c, challenge_ok c -> parsed_by parse_challenge (DigestChallenge.print c) = Ok ([], Ret (AuthChallenge.Digest c))) /\
  (forall x, response_ok x -> parsed_by parse_response (DigestResponse.print x) = Ok ([], Ret (AuthResponse.Digest x))) /\
  (forall c l, Forall challenge_ok (c :: l) ->
     exists v, create_multiple (AuthChallenge.Digest <$> c :: l) = Ret v /\
       decode_values (OneOrMore.to_list v) = Ok ((fun c => Ret (AuthChallenge.Digest c)) <$> c :: l)).
Proof.
  split; [intros c Hc; by apply parsed_reads, challenge_reads, end_of_value|].
  split; [intros x Hx; by apply parsed_reads, response_reads, end_of_value|].
  intros c l Hl. eexists. split; [reflexivity|]. cbn [fmap list_fmap].
  assert (forall k vs, OneOrMore.to_list (extend_multiple (AuthChallenge.Digest <$> k) vs) =
    OneOrMore.to_list vs ++ (DigestChallenge.print <$> k)) as ->.
  { induction k as [|x k IH]; intros vs; cbn; [by rewrite app_nil_r|]. unfold extend_multiple in IH. rewrite IH.
    rewrite to_list_push, <-app_assoc. done. }
  cbn [create_values AuthChallenge.auth_challenge_extend_values AuthChallenge.print OneOrMore.to_list app].
  change (DigestChallenge.print c :: (DigestChallenge.print <$> l)) with (DigestChallenge.print <$> c :: l).
  cbn [decode_values decode_values_list]. unfold decode_multiple. f_equal.
  change (Ret (AuthChallenge.Digest c) :: ((fun c => Ret (AuthChallenge.Digest c)) <$> l)) with
    ((fun c => Ret (AuthChallenge.Digest c)) <$> c :: l).
  induction Hl as [|x k Hx _ IH]; [done|]. rewrite !fmap_cons. cbn [concat]. rewrite IH.
  cbn [parse_items]. cbn [header_parse auth_challenge_parse].
  by rewrite (parsed_reads _ _ _ (challenge_reads x [] Hx end_of_value)).
Qed.

Lemma empty_opaque_misread c : quoted_text (DigestChallenge.realm c) -> quoted_text (DigestChallenge.nonce c) ->
  opt_ok (DigestChallenge.domain c) -> DigestChallenge.opaque c = Some [] ->
  exists rest, parse_challenge (DigestChallenge.print c) = Some ([x22; x22] ++ rest, Ret (AuthChallenge.Digest
    {| DigestChallenge.realm := DigestChallenge.realm c; DigestChallenge.domain := DigestChallenge.domain c;
       DigestChallenge.nonce := DigestChallenge.nonce c; DigestChallenge.opaque := Some [];
       DigestChallenge.stale := false; DigestChallenge.algorithm := Algorithm.MD5; DigestChallenge.qop := [];
       DigestChallenge.userhash := false; DigestChallenge.other := [] |})).
Proof.
  intros Hr Hn Hd Ho. rewrite print_challenge. destruct c as [realm domain nonce opaque stale alg qop userhash other].
  unfold challenge_items.
  cbn [DigestChallenge.realm DigestChallenge.domain DigestChallenge.nonce DigestChallenge.opaque DigestChallenge.stale
    DigestChallenge.algorithm DigestChallenge.qop DigestChallenge.userhash DigestChallenge.other] in *. subst opaque.
  set (tail := flag_item (lit "stale") stale ++ _). rewrite (app_assoc [Quoted (lit "nonce") nonce]).
  set (front := [Quoted (lit "nonce") nonce] ++ opt_item (lit "domain") domain).
  rewrite (print_more_app front), (print_more_app (opt_item (lit "opaque") (Some []))).
  change (print_more (opt_item (lit "opaque") (Some []))) with (lit ", " ++ lit "opaque" ++ lit "=" ++ [x22; x22]).
  exists (print_more tail). unfold parse_challenge. rewrite map_res_law.
  assert ((lit "Digest" ++ [x20] ++ print_item (Quoted (lit "realm") realm) ++ print_more front ++
      (lit ", " ++ lit "opaque" ++ lit "=" ++ [x22; x22]) ++ print_more tail) =
    (lit "Digest" ++ [x20] ++ print_item (Quoted (lit "realm") realm) ++ print_more front) ++
      lit ", " ++ lit "opaque" ++ lit "=" ++ [x22; x22] ++ print_more tail) as -> by (by rewrite <-!app_assoc).
  erewrite auth_params_then; [| | | | | |apply empty_value]; try done.
  - cbn [mbind option_bind]. rewrite decide_True by done. unfold front. by destruct domain.
  - by repeat constructor.
  - by apply quoted_ok.
  - unfold front. constructor; [by apply quoted_ok|]. by apply opt_item_ok.
  - by repeat constructor.
Qed.

(** Challenges that are not read as they were printed. An empty opaque value
    ends the challenge: what is printed behind it, the algorithm and the
    quality of protection among it, is lost, so that a challenge for SHA-256 is
    taken as one for MD5. A challenge without nonce before its empty opaque
    value is none at all. The name of an algorithm with a dash behind four or more
    bytes, the fifth inside a character, panics the parser. The scheme is
    compared with the case of its letters. *)
Theorem challenge_misread :
  (forall c, quoted_text (DigestChallenge.realm c) -> quoted_text (DigestChallenge.nonce c) ->
     opt_ok (DigestChallenge.domain c) -> DigestChallenge.opaque c = Some [] ->
     exists rest, parse_challenge (DigestChallenge.print c) = Some ([x22; x22] ++ rest, Ret (AuthChallenge.Digest
       {| DigestChallenge.realm := DigestChallenge.realm c; DigestChallenge.domain := DigestChallenge.domain c;
          DigestChallenge.nonce := DigestChallenge.nonce c; DigestChallenge.opaque := Some [];
          DigestChallenge.stale := false; DigestChallenge.algorithm := Algorithm.MD5; DigestChallenge.qop := [];
          DigestChallenge.userhash := false; DigestChallenge.other := [] |}))) /\
  (forall r rest, quoted_text r ->
     parse_challenge (lit "Digest realm=" ++ [x22] ++ r ++ [x22] ++ lit ", opaque=" ++ [x22; x22] ++ rest) = None) /\
  (forall r v, quoted_text r -> quoted_text v -> Algorithm.from v = Panic ->
     parse_challenge (lit "Digest realm=" ++ [x22] ++ r ++ [x22] ++ lit ", algorithm=" ++ [x22] ++ v ++ [x22]) =
       Some ([], Panic)) /\
  (forall a b rest, length a = 4%nat -> x2d ∉ a -> continuation b = true ->
     Algorithm.from (a ++ [b; x2d] ++ rest) = Panic) /\
  (forall scheme i l, scheme <> lit "Digest" -> scheme <> [] -> all_of token scheme -> Forall item_ok (i :: l) ->
     parse_challenge (scheme ++ [x20] ++ print_item i ++ print_more l) =
       Some ([], Ret (AuthChallenge.Other {| Auth.scheme := scheme; Auth.params := item_param <$> i :: l |}))).
Proof.
  split; [exact empty_opaque_misread|]. split; [|split; [|split]].
  - intros r rest Hr. unfold parse_challenge. rewrite map_res_law.
    assert (lit "Digest realm=" ++ [x22] ++ r ++ [x22] ++ lit ", opaque=" ++ [x22; x22] ++ rest =
      (lit "Digest" ++ [x20] ++ print_item (Quoted (lit "realm") r) ++ print_more []) ++
      lit ", " ++ lit "opaque" ++ lit "=" ++ [x22; x22] ++ rest) as ->.
    { cbn [print_item]. rewrite <-!app_assoc. reflexivity. }
    erewrite auth_params_then; [| | | | | |apply empty_value]; try done; [by repeat constructor|by apply quoted_ok|by repeat constructor].
  - intros r v Hr Hv Hp. unfold parse_challenge. rewrite map_res_law.
    assert (lit "Digest realm=" ++ [x22] ++ r ++ [x22] ++ lit ", algorithm=" ++ [x22] ++ v ++ [x22] =
      (lit "Digest" ++ [x20] ++ print_item (Quoted (lit "realm") r) ++ print_more [Quoted (lit "algorithm") v]) ++ []) as ->.
    { rewrite app_nil_r, print_more_one. cbn [print_item]. rewrite <-!app_assoc. reflexivity. }
    rewrite auth_params_reads; [|done|by repeat constructor|by apply quoted_ok| |exact end_of_value].
    + cbn [mbind option_bind]. rewrite decide_True by done.
      change (DigestChallenge.from_auth_params _) with (f ← (a ← Algorithm.from v; Ret
        (DigestChallenge.Build_fields (Some r) None None None false a [] false []));
        Ret (r ← DigestChallenge.f_realm f; n ← DigestChallenge.f_nonce f;
          Some {| DigestChallenge.realm := r; DigestChallenge.domain := DigestChallenge.f_domain f;
                  DigestChallenge.nonce := n; DigestChallenge.opaque := DigestChallenge.f_opaque f;
                  DigestChallenge.stale := DigestChallenge.f_stale f;
                  DigestChallenge.algorithm := DigestChallenge.f_algorithm f;
                  DigestChallenge.qop := DigestChallenge.f_qop f;
                  DigestChallenge.userhash := DigestChallenge.f_userhash f;
                  DigestChallenge.other := DigestChallenge.f_other f |})). by rewrite Hp.
    + constructor; [by apply quoted_ok|constructor].
  - intros a b rest Ha Hd Hb. unfold Algorithm.from.
    assert (b <> x2d) as Hne by (by intros ->).
    change (a ++ [b; x2d] ++ rest) with (a ++ [b] ++ x2d :: rest). rewrite (app_assoc a).
    rewrite span_stop; [|apply Forall_app; split|done].
    + rewrite length_app, Ha, decide_True by done. unfold str_prefix.
      rewrite drop_app_le, drop_ge by lia. cbn [app]. by rewrite Hb.
    + apply Forall_forall. intros c Hc. apply negb_true_iff, bool_decide_eq_false_2. by intros ->.
    + constructor; [|constructor]. by apply negb_true_iff, bool_decide_eq_false_2.
  - intros scheme i l Hne Hs Ht Hl. inversion Hl as [|? ? Hi Hl']; subst. unfold parse_challenge. rewrite map_res_law.
    rewrite <-(app_nil_r (scheme ++ _)). rewrite auth_params_reads by (done || exact end_of_value).
    cbn [mbind option_bind]. by rewrite decide_False.
Qed.
End challenges.

(** ** Examples *)
Module AuthSample.
Definition challenge (opaque : option str) : DigestChallenge.t := {|
  DigestChallenge.realm := lit "example.org"; DigestChallenge.domain := None; DigestChallenge.nonce := lit "YWmh5GFpoLj";
  DigestChallenge.opaque := opaque; DigestChallenge.stale := false;
  DigestChallenge.algorithm := Algorithm.AlgorithmValue AlgorithmValue.SHA256;
  DigestChallenge.qop := [QopOption.Auth; QopOption.AuthInt]; DigestChallenge.userhash := true;
  DigestChallenge.other := [{| AuthParam.name := lit "charset"; AuthParam.value := lit "UTF-8" |}] |}.
(** The name of an algorithm, [abcé-x] *)
Definition accented : str := lit "abc" ++ [xc3; xa9; x2d; x78].
End AuthSample.

Section samples.
#[local] Existing Instances complete percent TypedSample.no_unicode TypedSample.no_text.

Lemma sample_challenge_ok o : opt_ok o -> challenge_ok (AuthSample.challenge o).
Proof.
  intros Ho. split; [by apply (bool_decide_unpack _)|done|by apply (bool_decide_unpack _)|exact Ho| | |].
  - split; [done|]. split; [by repeat constructor|reflexivity].
  - constructor; [|constructor; [|constructor]]; (split; [done|split; [reflexivity|split; [by apply (bool_decide_unpack _)|]]]);
      by apply (bool_decide_eq_false_1 _).
  - constructor; [|constructor]. split; [by repeat constructor|]. split; [done|].
    split; [by apply (bool_decide_eq_false_1 _)|by apply (bool_decide_unpack _)].
Qed.

Lemma auth_headers_read_back_witness :
  DigestChallenge.print (AuthSample.challenge (Some (lit "5ccc"))) =
    lit "Digest realm=" ++ [x22] ++ lit "example.org" ++ [x22] ++ lit ", nonce=" ++ [x22] ++ lit "YWmh5GFpoLj" ++ [x22] ++
    lit ", opaque=" ++ [x22] ++ lit "5ccc" ++ [x22] ++ lit ", algorithm=SHA-256, qop=" ++ [x22] ++ lit "auth,auth-int" ++
    [x22] ++ lit ", userhash=true, charset=" ++ [x22] ++ lit "UTF-8" ++ [x22] /\
  parsed_by parse_challenge (DigestChallenge.print (AuthSample.challenge (Some (lit "5ccc")))) =
    Ok ([], Ret (AuthChallenge.Digest (AuthSample.challenge (Some (lit "5ccc"))))).
Proof.
  split; [reflexivity|]. apply auth_headers_read_back, sample_challenge_ok. by apply (bool_decide_unpack _).
Defined.

Lemma challenge_misread_witness :
  (exists rest c, parse_challenge (DigestChallenge.print (AuthSample.challenge (Some []))) =
     Some (rest, Ret (AuthChallenge.Digest c)) /\ rest <> [] /\
     DigestChallenge.algorithm c = Algorithm.MD5 /\ DigestChallenge.qop c = []) /\
  parse_challenge (lit "Digest realm=" ++ [x22] ++ lit "r" ++ [x22] ++ lit ", algorithm=" ++ [x22] ++
    AuthSample.accented ++ [x22]) = Some ([], Panic) /\
  utf8_valid AuthSample.accented = true.
Proof.
  destruct challenge_misread as (H1 & _ & H3 & _). split; [|split; [|reflexivity]].
  - destruct (H1 (AuthSample.challenge (Some []))) as [rest H];
      [by apply (bool_decide_unpack _)|by apply (bool_decide_unpack _)|done|done|].
    eexists _, _. split; [exact H|done].
  - apply H3; [by apply (bool_decide_unpack _)|by apply (bool_decide_unpack _)|reflexivity].
Defined.
End samples.
