(* ===== verification/SipDigest.v ===== *)
(** * Digest authentication
    (sip-auth/src/lib.rs, digest.rs)

    The authenticator answers the challenges of rejected requests and adds the
    answers to the requests that follow. The hash functions are the parameter
    [Hashes]; the random strings of [uuid] are a stream that is drawn from. *)
From stdpp Require Import gmap.
From S2P Require Import Prelude Text StunAttr SipNames SipHeaders SipFraming SipMessages SipParse SipUri SipTyped SipAuth.

#[export] Instance str_countable : Countable str := list_countable.

(** The packages [md5] and [sha2] *)
Class Hashes := {
  md5 : list byte -> list byte;
  sha256 : list byte -> list byte;
  sha512_256 : list byte -> list byte }.
Class HashLaws (H : Hashes) : Prop := {
  md5_length m : length (md5 m) = 16;
  sha256_length m : length (sha256 m) = 32;
  sha512_256_length m : length (sha512_256 m) = 32 }.

(** [format!("{:x}")] of a digest *)
Definition hex_lower (l : list byte) : str := lower (concat (hex_byte <$> l)).

(** The pointers to [hash_md5], [hash_sha256], [hash_sha512_trunc256] *)
Inductive HashFn := HashMd5 | HashSha256 | HashSha512Trunc256.
Definition hash `{Hashes} (f : HashFn) (i : list byte) : str :=
  hex_lower (match f with HashMd5 => md5 i | HashSha256 => sha256 i | HashSha512Trunc256 => sha512_256 i end).

(** ** Data *)
Inductive DigestError :=
| FailedToAuthenticate (realms : list str)
| UnsupportedAlgorithm (name : str)
| MissingCredentials (realm : str)
| UnsupportedQop
| Header (e : HeaderError.t).

Module DigestUser.
Record t := { user : str; password : list byte }.
End DigestUser.

Module DigestCredentials.
Record t := { default : option DigestUser.t; map : gmap str DigestUser.t }.
Definition new : t := {| default := None; map := ∅ |}.
Definition set_default (credentials : DigestUser.t) (c : t) : t := {| default := Some credentials; map := map c |}.
Definition add_for_realm (realm : str) (credentials : DigestUser.t) (c : t) : t :=
  {| default := default c; map := <[realm := credentials]> (map c) |}.
Definition get_for_realm (realm : str) (c : t) : option DigestUser.t :=
  match map c !! realm with Some user => Some user | None => default c end.
Definition remove_for_realm (realm : str) (c : t) : t := {| default := default c; map := delete realm (map c) |}.
End DigestCredentials.

Module QopEntry.
Record t := { ha1 : str; ha2 : str; fn : HashFn }.
End QopEntry.

(** The challenges for one realm, each with [is_proxy] *)
Module ChallengedRealm.
Record t := { realm : str; challenges : list (bool * AuthChallenge.t) }.
End ChallengedRealm.

Module ResponseEntry.
Record t := { realm : str; header : DigestResponse.t; use_count : Z; is_proxy : bool }.
End ResponseEntry.

Module DigestAuthenticator.
Record t := {
  credentials : DigestCredentials.t;
  qop_responses : list (str * QopEntry.t);
  responses : list ResponseEntry.t;
  enforce_qop : bool;
  reject_md5 : bool }.
Definition new (credentials : DigestCredentials.t) : t :=
  {| credentials := credentials; qop_responses := []; responses := []; enforce_qop := false; reject_md5 := false |}.

Definition with_responses (rs : list ResponseEntry.t) (a : t) : t :=
  {| credentials := credentials a; qop_responses := qop_responses a; responses := rs;
     enforce_qop := enforce_qop a; reject_md5 := reject_md5 a |}.
Definition with_qop_responses (qs : list (str * QopEntry.t)) (a : t) : t :=
  {| credentials := credentials a; qop_responses := qs; responses := responses a;
     enforce_qop := enforce_qop a; reject_md5 := reject_md5 a |}.
End DigestAuthenticator.

(** [RequestParts], without the headers, which are not used *)
Record RequestParts := { rp_line : RequestLine SipUri.t; rp_body : list byte }.

Definition colon (parts : list str) : str :=
  match parts with [] => [] | p :: ps => p ++ concat ((fun q => lit ":" ++ q) <$> ps) end.

(** A stream of random strings *)
Definition draw (rng : nat -> str) : str * (nat -> str) := (rng 0, fun n => rng (S n)).

Section digest.
Context {N : Combinators} {U : Unicode} {P : Percent} {PC : PercentCow} {I6 : Ip6Text} {ET : ErrorText} {HS : Hashes}.

(** ** [authorize_request] *)

(** The entry of an answer, with its count of uses and, for a quality of
    protection, the next nonce count and a new response *)
Definition set_response (q : QopResponse.t) (response : str) (r : DigestResponse.t) : DigestResponse.t :=
  {| DigestResponse.username := DigestResponse.username r; DigestResponse.realm := DigestResponse.realm r;
     DigestResponse.nonce := DigestResponse.nonce r; DigestResponse.uri := DigestResponse.uri r;
     DigestResponse.response := response; DigestResponse.algorithm := DigestResponse.algorithm r;
     DigestResponse.opaque := DigestResponse.opaque r; DigestResponse.qop_response := Some q;
     DigestResponse.userhash := DigestResponse.userhash r; DigestResponse.other := DigestResponse.other r |}.

Definition next_response (qops : list (str * QopEntry.t)) (header : DigestResponse.t) : exec DigestResponse.t :=
  match DigestResponse.qop_response header with
  | Some q =>
      let nc := wrap 32 (QopResponse.nc q + 1) in
      '(_, qop_entry) ← unwrap (find (fun '(realm, _) => bool_decide (realm = DigestResponse.realm header)) qops);
      match QopResponse.qop q with
      | QopOption.Auth | QopOption.AuthInt =>
          Ret (set_response
            {| QopResponse.qop := QopResponse.qop q; QopResponse.cnonce := QopResponse.cnonce q; QopResponse.nc := nc |}
            (hash (QopEntry.fn qop_entry)
               (colon [QopEntry.ha1 qop_entry; DigestResponse.nonce header; print_hex8 nc; QopResponse.cnonce q;
                       lit "auth"; QopEntry.ha2 qop_entry]))
            header)
      | QopOption.Other _ => Panic
      end
  | None => Ret header
  end.

Definition authorize_entry (qops : list (str * QopEntry.t)) (e : ResponseEntry.t) : exec ResponseEntry.t :=
  header ← (if decide (ResponseEntry.use_count e > 0)%Z then next_response qops (ResponseEntry.header e)
            else Ret (ResponseEntry.header e));
  Ret {| ResponseEntry.realm := ResponseEntry.realm e; ResponseEntry.header := header;
         ResponseEntry.use_count := wrap 32 (ResponseEntry.use_count e + 1);
         ResponseEntry.is_proxy := ResponseEntry.is_proxy e |}.

Definition authorization_name (is_proxy : bool) : Name.t :=
  if is_proxy then Name.ProxyAuthorization else Name.Authorization.

Fixpoint authorize_entries (qops : list (str * QopEntry.t)) (es : list ResponseEntry.t) (h : Headers.t)
    : exec (list ResponseEntry.t * Headers.t) :=
  match es with
  | [] => Ret ([], h)
  | e :: es =>
      e ← authorize_entry qops e;
      let h := Headers.insert_type (authorization_name (ResponseEntry.is_proxy e)) (ResponseEntry.header e) h in
      '(es, h) ← authorize_entries qops es h;
      Ret (e :: es, h)
  end.

Definition authorize_request (a : DigestAuthenticator.t) (request_headers : Headers.t)
    : exec (DigestAuthenticator.t * Headers.t) :=
  '(es, h) ← authorize_entries (DigestAuthenticator.qop_responses a) (DigestAuthenticator.responses a) request_headers;
  Ret (DigestAuthenticator.with_responses es a, h).

(** ** [read_challenges] *)
Fixpoint push_challenge (realm : str) (c : bool * AuthChallenge.t) (dst : list ChallengedRealm.t) : list ChallengedRealm.t :=
  match dst with
  | [] => [{| ChallengedRealm.realm := realm; ChallengedRealm.challenges := [c] |}]
  | r :: dst =>
      if decide (ChallengedRealm.realm r = realm)
      then {| ChallengedRealm.realm := ChallengedRealm.realm r;
              ChallengedRealm.challenges := ChallengedRealm.challenges r ++ [c] |} :: dst
      else r :: push_challenge realm c dst
  end.
Definition add_challenge (is_proxy : bool) (dst : list ChallengedRealm.t) (c : AuthChallenge.t) : list ChallengedRealm.t :=
  match c with
  | AuthChallenge.Digest digest_challenge => push_challenge (DigestChallenge.realm digest_challenge) (is_proxy, c) dst
  | AuthChallenge.Other _ => dst
  end.

(** A panic of the parser of one challenge is one of the whole. *)
Fixpoint all_ret {A} (l : list (exec A)) : exec (list A) :=
  match l with [] => Ret [] | x :: l => x ← x; l ← all_ret l; Ret (x :: l) end.

Definition read_challenges (is_proxy : bool) (headers : Headers.t) (dst : list ChallengedRealm.t)
    : exec (result DigestError (list ChallengedRealm.t)) :=
  let challenge_name := if is_proxy then Name.ProxyAuthenticate else Name.WWWAuthenticate in
  match Headers.try_get (H := list (exec AuthChallenge.t)) challenge_name headers with
  | Some (Err e) => Ret (Err (Header e))
  | Some (Ok challenges) => challenges ← all_ret challenges; Ret (Ok (foldl (add_challenge is_proxy) dst challenges))
  | None => Ret (Ok dst)
  end.

(** ** [digest_respond] *)

(** [save_qop_response] *)
Fixpoint put_qop (realm : str) (e : QopEntry.t) (qs : list (str * QopEntry.t)) : list (str * QopEntry.t) :=
  match qs with
  | [] => [(realm, e)]
  | (r, old) :: qs => if decide (r = realm) then (r, e) :: qs else (r, old) :: put_qop realm e qs
  end.
Definition save_qop_response (realm ha1 ha2 : str) (fn : HashFn) (a : DigestAuthenticator.t) : DigestAuthenticator.t :=
  DigestAuthenticator.with_qop_responses
    (put_qop realm {| QopEntry.ha1 := ha1; QopEntry.ha2 := ha2; QopEntry.fn := fn |} (DigestAuthenticator.qop_responses a)) a.

(** What is random is drawn once there are credentials. *)
Definition state : Type := DigestAuthenticator.t * (nat -> str).

Definition digest_uri (parts : RequestParts) : str :=
  SipUri.print {| PrintCtx.method := Some (rl_method (rp_line parts)); PrintCtx.uri := Some ReqUri |} (rl_uri (rp_line parts)).

Definition digest_respond (challenge : DigestChallenge.t) (parts : RequestParts) (is_session : bool) (fn : HashFn)
    (st : state) : result DigestError DigestResponse.t * state :=
  let '(a, rng) := st in
  match DigestCredentials.get_for_realm (DigestChallenge.realm challenge) (DigestAuthenticator.credentials a) with
  | None => (Err (MissingCredentials (DigestChallenge.realm challenge)), st)
  | Some digest_user =>
      let '(cnonce, rng) := draw rng in
      let ha1 := hash fn (DigestUser.user digest_user ++ lit ":" ++ DigestChallenge.realm challenge ++ lit ":" ++
                          DigestUser.password digest_user) in
      let ha1 := if is_session then colon [ha1; DigestChallenge.nonce challenge; cnonce] else ha1 in
      let method := Method.display (rl_method (rp_line parts)) in
      let uri := digest_uri parts in
      let qop := if (bool_decide (DigestChallenge.qop challenge = []) && DigestAuthenticator.enforce_qop a)%bool
                 then [QopOption.Auth] else DigestChallenge.qop challenge in
      let answer_qop option ha2 :=
        let response := hash fn (colon [ha1; DigestChallenge.nonce challenge; print_hex8 1; cnonce;
                                        QopOption.print option; ha2]) in
        Some (response, Some {| QopResponse.qop := option; QopResponse.cnonce := cnonce; QopResponse.nc := 1 |},
              save_qop_response (DigestChallenge.realm challenge) ha1 ha2 fn a) in
      let answer :=
        if decide (qop <> []) then
          if decide (QopOption.AuthInt ∈ qop) then
            answer_qop QopOption.AuthInt (hash fn (colon [method; uri; hash fn (rp_body parts)]))
          else if decide (QopOption.Auth ∈ qop) then answer_qop QopOption.Auth (hash fn (colon [method; uri]))
          else None
        else Some (hash fn (colon [ha1; DigestChallenge.nonce challenge; hash fn (colon [method; uri])]), None, a) in
      match answer with
      | None => (Err UnsupportedQop, (a, rng))
      | Some (response, qop_response, a) =>
          let username :=
            if DigestChallenge.userhash challenge
            then Username.Username (hash fn (colon [DigestUser.user digest_user; DigestChallenge.realm challenge]))
            else Username.new (DigestUser.user digest_user) in
          (Ok {| DigestResponse.username := username; DigestResponse.realm := DigestChallenge.realm challenge;
                 DigestResponse.nonce := DigestChallenge.nonce challenge; DigestResponse.uri := uri;
                 DigestResponse.response := response; DigestResponse.algorithm := DigestChallenge.algorithm challenge;
                 DigestResponse.opaque := DigestChallenge.opaque challenge; DigestResponse.qop_response := qop_response;
                 DigestResponse.userhash := DigestChallenge.userhash challenge; DigestResponse.other := [] |}, (a, rng))
      end
  end.

(** ** [handle_digest_challenge], [handle_challenge] *)
Definition algorithm_value (a : Algorithm.t) : AlgorithmValue.t :=
  match a with Algorithm.AkaNamespace _ av => av | Algorithm.AlgorithmValue av => av end.

Definition hash_fn (reject_md5 : bool) (a : AlgorithmValue.t) : result DigestError (HashFn * bool) :=
  match a with
  | AlgorithmValue.MD5 => if reject_md5 then Err (UnsupportedAlgorithm (lit "MD5")) else Ok (HashMd5, false)
  | AlgorithmValue.MD5Sess => if reject_md5 then Err (UnsupportedAlgorithm (lit "MD5")) else Ok (HashMd5, true)
  | AlgorithmValue.SHA256 => Ok (HashSha256, false)
  | AlgorithmValue.SHA256Sess => Ok (HashSha256, true)
  | AlgorithmValue.SHA512256 => Ok (HashSha512Trunc256, false)
  | AlgorithmValue.SHA512256Sess => Ok (HashSha512Trunc256, true)
  | AlgorithmValue.Other other => Err (UnsupportedAlgorithm other)
  end.

Definition handle_digest_challenge (challenge : DigestChallenge.t) (parts : RequestParts) (st : state)
    : result DigestError DigestResponse.t * state :=
  match hash_fn (DigestAuthenticator.reject_md5 st.1) (algorithm_value (DigestChallenge.algorithm challenge)) with
  | Err e => (Err e, st)
  | Ok (fn, is_session) => digest_respond challenge parts is_session fn st
  end.

Definition response_for (realm : str) (a : DigestAuthenticator.t) : option ResponseEntry.t :=
  find (fun r => bool_decide (ResponseEntry.realm r = realm)) (DigestAuthenticator.responses a).

Definition handle_challenge (parts : RequestParts) (challenge : DigestChallenge.t) (st : state)
    : result DigestError DigestResponse.t * state :=
  let authenticate :=
    match response_for (DigestChallenge.realm challenge) st.1 with
    | Some previous_response =>
        negb (bool_decide (DigestResponse.nonce (ResponseEntry.header previous_response) = DigestChallenge.nonce challenge))
    | None => true
    end in
  if authenticate then handle_digest_challenge challenge parts st
  else (Err (FailedToAuthenticate [DigestChallenge.realm challenge]), st).

(** ** [handle_rejection] *)
Fixpoint remove_response (realm : str) (rs : list ResponseEntry.t) : list ResponseEntry.t :=
  match rs with
  | [] => []
  | r :: rs => if decide (ResponseEntry.realm r = realm) then rs else r :: remove_response realm rs
  end.

(** The challenges of one realm, until one is answered *)
Fixpoint answer_realm (parts : RequestParts) (realm : str) (cs : list (bool * AuthChallenge.t)) (st : state) : bool * state :=
  match cs with
  | [] => (false, st)
  | (is_proxy, AuthChallenge.Digest challenge) :: cs =>
      match handle_challenge parts challenge st with
      | (Ok response, (a, rng)) =>
          let entry := {| ResponseEntry.realm := realm; ResponseEntry.header := response;
                          ResponseEntry.use_count := 0; ResponseEntry.is_proxy := is_proxy |} in
          (true, (DigestAuthenticator.with_responses
                    (remove_response realm (DigestAuthenticator.responses a) ++ [entry]) a, rng))
      | (Err _, st) => answer_realm parts realm cs st
      end
  | (_, AuthChallenge.Other _) :: cs => answer_realm parts realm cs st
  end.

(** The realms that are not answered *)
Fixpoint answer_realms (parts : RequestParts) (rs : list ChallengedRealm.t) (st : state) : list str * state :=
  match rs with
  | [] => ([], st)
  | r :: rs =>
      let '(answered, st) := answer_realm parts (ChallengedRealm.realm r) (ChallengedRealm.challenges r) st in
      let '(failed_realms, st) := answer_realms parts rs st in
      ((if answered then [] else [ChallengedRealm.realm r]) ++ failed_realms, st)
  end.

Definition handle_rejection (rejected_request : RequestParts) (response_headers : Headers.t) (st : state)
    : exec (result DigestError unit * state) :=
  realms ← read_challenges false response_headers [];
  match realms with
  | Err e => Ret (Err e, st)
  | Ok realms =>
      realms ← read_challenges true response_headers realms;
      match realms with
      | Err e => Ret (Err e, st)
      | Ok realms =>
          let '(failed_realms, st) := answer_realms rejected_request realms st in
          Ret (if decide (failed_realms <> []) then Err (FailedToAuthenticate failed_realms) else Ok tt, st)
      end
  end.
End digest.
