(* ===== verification/SipDigestProps.v ===== *)
(** * What the authenticator does
    (sip-auth/src/digest.rs)

    Which challenges are answered, that the answers are those of RFC 7616, and
    that the authenticator never fails on what it keeps. *)
From stdpp Require Import gmap.
From S2P Require Import Prelude Text StunAttr SipNames SipHeaders SipFraming SipMessages SipParse SipUri SipUriProps SipTyped.
From S2P Require Import SipTypedProps SipAuth SipAuthProps SipDigest.

#[local] Abbreviation auth := DigestAuthenticator.t.
#[local] Abbreviation realm_of := ResponseEntry.realm.

Section props.
Context `{NL : CombinatorLaws} {U : Unicode} `{PL : PercentLaws} {PC : PercentCow} `{IL : Ip6Laws} {ET : ErrorText}.
Context `{HL : HashLaws}.

(** ** Single answers *)

(** Whether a challenge is answered *)
Definition qop_supported (qop : list QopOption.t) : bool :=
  bool_decide (qop = [] \/ QopOption.AuthInt ∈ qop \/ QopOption.Auth ∈ qop).
Definition fresh (a : auth) (c : DigestChallenge.t) : bool :=
  match response_for (DigestChallenge.realm c) a with
  | Some e => negb (bool_decide (DigestResponse.nonce (ResponseEntry.header e) = DigestChallenge.nonce c))
  | None => true
  end.
Definition answerable (a : auth) (c : DigestChallenge.t) : bool :=
  (fresh a c && is_ok (hash_fn (DigestAuthenticator.reject_md5 a) (algorithm_value (DigestChallenge.algorithm c))) &&
   bool_decide (is_Some (DigestCredentials.get_for_realm (DigestChallenge.realm c) (DigestAuthenticator.credentials a))) &&
   qop_supported (DigestChallenge.qop c))%bool.

Definition qop_entry (a : auth) (realm : str) : option (str * QopEntry.t) :=
  find (fun '(r, _) => bool_decide (r = realm)) (DigestAuthenticator.qop_responses a).

(** What changes when something is kept for one realm *)
Record only_realm (realm : str) (a a' : auth) : Prop := {
  or_credentials : DigestAuthenticator.credentials a' = DigestAuthenticator.credentials a;
  or_reject : DigestAuthenticator.reject_md5 a' = DigestAuthenticator.reject_md5 a;
  or_enforce : DigestAuthenticator.enforce_qop a' = DigestAuthenticator.enforce_qop a;
  or_response r : r <> realm -> response_for r a' = response_for r a;
  or_qop r : r <> realm -> qop_entry a' r = qop_entry a r }.

Lemma find_put_qop r realm e qs :
  find (fun '(r', _) => bool_decide (r' = r)) (put_qop realm e qs) =
    if decide (r = realm) then Some (realm, e) else find (fun '(r', _) => bool_decide (r' = r)) qs.
Proof.
  induction qs as [|[r' e'] qs IH]; cbn.
  - case_decide as Hd; [rewrite bool_decide_eq_true_2 by done|rewrite bool_decide_eq_false_2 by done]; done.
  - destruct (decide (r' = realm)) as [->|Hne]; cbn.
    + case_decide as Hd; [by rewrite bool_decide_eq_true_2|by rewrite bool_decide_eq_false_2].
    + destruct (bool_decide (r' = r)) eqn:E; [|exact IH]. apply bool_decide_eq_true in E as ->.
      by rewrite decide_False.
Qed.

Lemma save_qop_only realm ha1 ha2 fn a : only_realm realm a (save_qop_response realm ha1 ha2 fn a).
Proof.
  split; try done. intros r Hr. unfold qop_entry. cbn. by rewrite find_put_qop, decide_False.
Qed.

Lemma only_realm_refl realm a : only_realm realm a a.
Proof. by split. Qed.

(** The answer to a challenge with an algorithm, for a user *)
Definition first_ha1 (fn : HashFn) (is_session : bool) (user : DigestUser.t) (c : DigestChallenge.t) (cnonce : str) : str :=
  let h := hash fn (DigestUser.user user ++ lit ":" ++ DigestChallenge.realm c ++ lit ":" ++ DigestUser.password user) in
  if is_session then colon [h; DigestChallenge.nonce c; cnonce] else h.
Definition first_ha2 (fn : HashFn) (parts : RequestParts) (qop : option QopOption.t) : str :=
  let method := Method.display (rl_method (rp_line parts)) in
  match qop with
  | Some QopOption.AuthInt => hash fn (colon [method; digest_uri parts; hash fn (rp_body parts)])
  | _ => hash fn (colon [method; digest_uri parts])
  end.
(** The quality of protection that is chosen *)
Definition chosen_qop (a : auth) (c : DigestChallenge.t) : option QopOption.t :=
  if decide (QopOption.AuthInt ∈ DigestChallenge.qop c) then Some QopOption.AuthInt
  else if decide (QopOption.Auth ∈ DigestChallenge.qop c) then Some QopOption.Auth
  else if DigestAuthenticator.enforce_qop a then Some QopOption.Auth else None.

Definition first_response (fn : HashFn) (is_session : bool) (user : DigestUser.t) (c : DigestChallenge.t)
    (parts : RequestParts) (qop : option QopOption.t) (cnonce : str) : str :=
  let ha1 := first_ha1 fn is_session user c cnonce in
  let ha2 := first_ha2 fn parts qop in
  match qop with
  | Some q => hash fn (colon [ha1; DigestChallenge.nonce c; print_hex8 1; cnonce; QopOption.print q; ha2])
  | None => hash fn (colon [ha1; DigestChallenge.nonce c; ha2])
  end.

Definition first_username (fn : HashFn) (user : DigestUser.t) (c : DigestChallenge.t) : Username.t :=
  if DigestChallenge.userhash c then Username.Username (hash fn (colon [DigestUser.user user; DigestChallenge.realm c]))
  else Username.new (DigestUser.user user).

Definition first_header (fn : HashFn) (is_session : bool) (user : DigestUser.t) (c : DigestChallenge.t)
    (parts : RequestParts) (qop : option QopOption.t) (cnonce : str) : DigestResponse.t := {|
  DigestResponse.username := first_username fn user c;
  DigestResponse.realm := DigestChallenge.realm c;
  DigestResponse.nonce := DigestChallenge.nonce c;
  DigestResponse.uri := digest_uri parts;
  DigestResponse.response := first_response fn is_session user c parts qop cnonce;
  DigestResponse.algorithm := DigestChallenge.algorithm c;
  DigestResponse.opaque := DigestChallenge.opaque c;
  DigestResponse.qop_response :=
    (fun q => {| QopResponse.qop := q; QopResponse.cnonce := cnonce; QopResponse.nc := 1 |}) <$> qop;
  DigestResponse.userhash := DigestChallenge.userhash c;
  DigestResponse.other := [] |}.

(** What is kept for it *)
Definition after_answer (fn : HashFn) (is_session : bool) (user : DigestUser.t) (c : DigestChallenge.t)
    (parts : RequestParts) (qop : option QopOption.t) (cnonce : str) (a : auth) : auth :=
  match qop with
  | Some _ => save_qop_response (DigestChallenge.realm c) (first_ha1 fn is_session user c cnonce)
                (first_ha2 fn parts qop) fn a
  | None => a
  end.

Lemma handle_challenge_answers parts c a rng fn is_session user :
  hash_fn (DigestAuthenticator.reject_md5 a) (algorithm_value (DigestChallenge.algorithm c)) = Ok (fn, is_session) ->
  DigestCredentials.get_for_realm (DigestChallenge.realm c) (DigestAuthenticator.credentials a) = Some user ->
  answerable a c = true ->
  handle_challenge parts c (a, rng) =
    (Ok (first_header fn is_session user c parts (chosen_qop a c) (rng 0)),
     (after_answer fn is_session user c parts (chosen_qop a c) (rng 0) a, fun n => rng (S n))).
Proof.
  intros Hf Hu Ha. unfold answerable in Ha. rewrite !andb_true_iff in Ha. destruct Ha as [[[Hfresh _] _] Hq].
  unfold handle_challenge. cbn [fst]. unfold fresh in Hfresh. destruct (match response_for _ a with Some _ => _ | None => true end); [|done].
  unfold handle_digest_challenge. cbn [fst]. rewrite Hf. unfold digest_respond. rewrite Hu. unfold draw.
  unfold qop_supported in Hq. apply bool_decide_eq_true in Hq. unfold chosen_qop.
  unfold first_header, first_username, first_response, after_answer, first_ha1, first_ha2.
  destruct (decide (DigestChallenge.qop c = [])) as [E|E].
  - rewrite E. rewrite bool_decide_eq_true_2 by done.
    rewrite !(decide_False (P := _ ∈ [])) by (by intros ?%elem_of_nil).
    destruct (DigestAuthenticator.enforce_qop a); cbn [andb].
    + rewrite decide_True by done. rewrite decide_False by (by intros ?%list_elem_of_singleton).
      rewrite decide_True by (by apply list_elem_of_singleton). done.
    + rewrite decide_False by (intros Hn; by apply Hn). done.
  - rewrite bool_decide_eq_false_2 by done. cbn [andb]. rewrite (decide_True (P := DigestChallenge.qop c <> [])) by done.
    destruct (decide (QopOption.AuthInt ∈ DigestChallenge.qop c)) as [Hi|Hi]; [done|].
    by destruct (decide (QopOption.Auth ∈ DigestChallenge.qop c)) as [?|?]; [|naive_solver].
Qed.

Lemma handle_challenge_refuses parts c a rng : answerable a c = false ->
  exists e rng', handle_challenge parts c (a, rng) = (Err e, (a, rng')).
Proof.
  intros Ha. unfold answerable in Ha. unfold handle_challenge. cbn [fst]. unfold fresh in Ha.
  destruct (match response_for _ a with Some _ => _ | None => true end); [|by eexists _, _]. cbn [andb] in Ha.
  unfold handle_digest_challenge. cbn [fst]. destruct (hash_fn _ _) as [[fn is_session]|e]; [|by eexists _, _].
  cbn [is_ok andb] in Ha. unfold digest_respond.
  destruct (DigestCredentials.get_for_realm _ _) as [user|]; [|by eexists _, _].
  rewrite bool_decide_eq_true_2 in Ha by done. cbn [andb] in Ha. unfold qop_supported in Ha.
  apply bool_decide_eq_false in Ha. unfold draw.
  rewrite (bool_decide_eq_false_2 (DigestChallenge.qop c = [])) by naive_solver. cbn [andb].
  rewrite decide_True by naive_solver. rewrite !decide_False by naive_solver. by eexists _, _.
Qed.

(** ** Realms *)

(** A record of what an entry refers to: the header is that of the realm, and
    for a quality of protection there is an entry of the hashes. *)
Definition entry_ok (a : auth) (e : ResponseEntry.t) : Prop :=
  DigestResponse.realm (ResponseEntry.header e) = realm_of e /\
  match DigestResponse.qop_response (ResponseEntry.header e) with
  | Some q => (QopResponse.qop q = QopOption.Auth \/ QopResponse.qop q = QopOption.AuthInt) /\
              is_Some (qop_entry a (realm_of e))
  | None => True
  end.
Record wf (a : auth) : Prop := {
  wf_realms : NoDup (realm_of <$> DigestAuthenticator.responses a);
  wf_entries : Forall (entry_ok a) (DigestAuthenticator.responses a) }.

Lemma find_remove realm rs r : NoDup (realm_of <$> rs) ->
  find (fun e => bool_decide (realm_of e = r)) (remove_response realm rs) =
    if decide (r = realm) then None else find (fun e => bool_decide (realm_of e = r)) rs.
Proof.
  induction rs as [|e rs IH]; intros Hnd; cbn in *; [by case_decide|]. inversion Hnd as [|? ? Hn Hnd']; subst.
  destruct (decide (realm_of e = realm)) as [E|E].
  - case_decide as Hd.
    + subst. clear -Hn. induction rs as [|e' rs IH]; [done|]. cbn in *.
      rewrite bool_decide_eq_false_2 by (intros E; apply Hn; rewrite E; left). apply IH. contradict Hn. by right.
    + by rewrite bool_decide_eq_false_2 by congruence.
  - cbn. destruct (bool_decide (realm_of e = r)) eqn:Eb; [|by apply IH].
    apply bool_decide_eq_true in Eb. by rewrite decide_False by congruence.
Qed.

Lemma remove_sub realm rs : remove_response realm rs `sublist_of` rs.
Proof. induction rs as [|e rs IH]; [done|]. cbn. case_decide; by constructor. Qed.

Lemma remove_absent realm rs : NoDup (realm_of <$> rs) -> realm ∉ realm_of <$> remove_response realm rs.
Proof.
  induction rs as [|e rs IH]; intros Hnd; cbn; [by intros ?%elem_of_nil|]. inversion Hnd as [|? ? Hn Hnd']; subst.
  case_decide as Hd; [by subst|]. cbn. intros [E|Hin]%elem_of_cons; [done|by apply IH].
Qed.

Lemma find_last rs e r : realm_of e ∉ realm_of <$> rs ->
  find (fun e => bool_decide (realm_of e = r)) (rs ++ [e]) =
    if decide (r = realm_of e) then Some e else find (fun e => bool_decide (realm_of e = r)) rs.
Proof.
  induction rs as [|e' rs IH]; intros Hn; cbn.
  - case_decide as Hd; [by rewrite bool_decide_eq_true_2|by rewrite bool_decide_eq_false_2].
  - cbn in Hn. rewrite IH by (contradict Hn; by right). destruct (bool_decide (realm_of e' = r)) eqn:Eb; [|done].
    apply bool_decide_eq_true in Eb. rewrite decide_False; [done|]. intros E. apply Hn. rewrite <-E, <-Eb. left.
Qed.

(** A new entry in the place of the old one of its realm *)
Definition put_response (e : ResponseEntry.t) (a : auth) : auth :=
  DigestAuthenticator.with_responses (remove_response (realm_of e) (DigestAuthenticator.responses a) ++ [e]) a.

Lemma put_response_for e a r : wf a ->
  response_for r (put_response e a) = if decide (r = realm_of e) then Some e else response_for r a.
Proof.
  intros [Hnd _]. unfold response_for. cbn. rewrite find_last by (by apply remove_absent).
  case_decide as Hd; [done|]. by rewrite find_remove, decide_False.
Qed.

Lemma put_response_wf e a : wf a -> entry_ok a e -> wf (put_response e a).
Proof.
  intros [Hnd He] Ho. split; cbn.
  - rewrite fmap_app. apply NoDup_app. split; [|split].
    + eapply sublist_NoDup; [exact Hnd|]. exact (fmap_sublist realm_of _ _ (remove_sub _ _)).
    + intros x Hx Hy. apply list_elem_of_singleton in Hy as ->. by eapply remove_absent.
    + cbn. apply NoDup_singleton.
  - apply Forall_app. split; [|by constructor]. change (Forall (entry_ok a) (remove_response (realm_of e) (DigestAuthenticator.responses a))).
    clear -He. induction He as [|x rs Hx Hrs IH]; [constructor|]. cbn. case_decide; [done|by constructor].
Qed.

Lemma qop_entry_ok a a' e : (forall r, is_Some (qop_entry a r) -> is_Some (qop_entry a' r)) -> entry_ok a e -> entry_ok a' e.
Proof. intros Hq [H1 H2]. split; [done|]. destruct (DigestResponse.qop_response _); naive_solver. Qed.

Lemma after_answer_only fn b user c parts qop cn a :
  only_realm (DigestChallenge.realm c) a (after_answer fn b user c parts qop cn a).
Proof. destruct qop; [apply save_qop_only|apply only_realm_refl]. Qed.

Lemma after_answer_qop fn b user c parts qop cn a r : is_Some (qop_entry a r) ->
  is_Some (qop_entry (after_answer fn b user c parts qop cn a) r).
Proof.
  intros Hr. destruct qop as [q|]; [|done]. unfold qop_entry. cbn. rewrite find_put_qop. by case_decide.
Qed.

(** The entry for an answered challenge *)
Definition new_entry (fn : HashFn) (is_session : bool) (user : DigestUser.t) (c : DigestChallenge.t) (parts : RequestParts)
    (qop : option QopOption.t) (cnonce : str) (is_proxy : bool) : ResponseEntry.t :=
  {| ResponseEntry.realm := DigestChallenge.realm c;
     ResponseEntry.header := first_header fn is_session user c parts qop cnonce;
     ResponseEntry.use_count := 0; ResponseEntry.is_proxy := is_proxy |}.

Lemma chosen_qop_is a c q : chosen_qop a c = Some q -> q = QopOption.Auth \/ q = QopOption.AuthInt.
Proof. unfold chosen_qop. repeat case_decide; [naive_solver..|]. destruct (DigestAuthenticator.enforce_qop a); naive_solver. Qed.

Lemma new_entry_ok fn b user c parts cn p a : wf a ->
  entry_ok (after_answer fn b user c parts (chosen_qop a c) cn a) (new_entry fn b user c parts (chosen_qop a c) cn p).
Proof.
  intros Hwf. split; [done|]. cbn. destruct (chosen_qop a c) as [q|] eqn:E; [|done]. cbn.
  split; [by apply (chosen_qop_is a c)|]. unfold qop_entry. cbn. by rewrite find_put_qop, decide_True.
Qed.

Definition answered (fn : HashFn) (b : bool) (user : DigestUser.t) (c : DigestChallenge.t) (parts : RequestParts)
    (cn : str) (p : bool) (a : auth) : auth :=
  put_response (new_entry fn b user c parts (chosen_qop a c) cn p) (after_answer fn b user c parts (chosen_qop a c) cn a).

Lemma after_answer_wf fn b user c parts qop cn a : wf a -> wf (after_answer fn b user c parts qop cn a).
Proof.
  intros [Hnd He]. assert (DigestAuthenticator.responses (after_answer fn b user c parts qop cn a) =
    DigestAuthenticator.responses a) as Hr by (by destruct qop).
  split; rewrite Hr; [done|]. eapply Forall_impl; [exact He|]. intros e. apply qop_entry_ok.
  intros r. apply after_answer_qop.
Qed.

Lemma answered_wf fn b user c parts cn p a : wf a -> wf (answered fn b user c parts cn p a).
Proof.
  intros Hwf. apply put_response_wf; [by apply after_answer_wf|by apply new_entry_ok].
Qed.

Lemma answered_only fn b user c parts cn p a : wf a ->
  only_realm (DigestChallenge.realm c) a (answered fn b user c parts cn p a) /\
  response_for (DigestChallenge.realm c) (answered fn b user c parts cn p a) =
    Some (new_entry fn b user c parts (chosen_qop a c) cn p).
Proof.
  intros Hwf. pose proof (after_answer_only fn b user c parts (chosen_qop a c) cn a) as [H1 H2 H3 H4 H5].
  pose proof (after_answer_wf fn b user c parts (chosen_qop a c) cn a Hwf) as Hwf'.
  split.
  - split; [exact H1|exact H2|exact H3| |exact H5]. intros r Hr. unfold answered.
    rewrite put_response_for by done. rewrite decide_False by done. by apply H4.
  - unfold answered. rewrite put_response_for by done. by rewrite decide_True.
Qed.

(** The challenge of a realm that is answered: the topmost that can be. *)
Fixpoint pick (a : auth) (cs : list (bool * AuthChallenge.t)) : option (bool * DigestChallenge.t) :=
  match cs with
  | [] => None
  | (p, AuthChallenge.Digest c) :: cs => if answerable a c then Some (p, c) else pick a cs
  | (_, AuthChallenge.Other _) :: cs => pick a cs
  end.

(** A stream that goes on with strings of another one *)
Definition drawn_from (rng rng' : nat -> str) : Prop := forall n, exists m, rng' n = rng m.

Lemma handle_challenge_drawn parts c a rng r a' rng' : handle_challenge parts c (a, rng) = (r, (a', rng')) ->
  drawn_from rng rng'.
Proof.
  assert (drawn_from rng rng /\ drawn_from rng (fun n => rng (S n))) as [H0 H1] by (split; intros n; eauto).
  unfold handle_challenge, handle_digest_challenge, digest_respond, draw. cbn [fst].
  destruct (match response_for _ a with Some _ => _ | None => true end); [|by intros [= <- <- <-]].
  destruct (hash_fn _ _) as [[fn b]|e]; [|by intros [= <- <- <-]].
  destruct (DigestCredentials.get_for_realm _ _); [|by intros [= <- <- <-]].
  repeat case_decide; by intros [= <- <- <-].
Qed.

Lemma drawn_trans r1 r2 r3 : drawn_from r1 r2 -> drawn_from r2 r3 -> drawn_from r1 r3.
Proof. intros H1 H2 n. destruct (H2 n) as [m ->]. apply H1. Qed.

(** What becomes of one realm *)
Definition outcome (parts : RequestParts) (rng : nat -> str) (realm : str) (a a' : auth) (picked : option (bool * DigestChallenge.t)) : Prop :=
  match picked with
  | Some (p, c) => exists fn b user k,
      hash_fn (DigestAuthenticator.reject_md5 a) (algorithm_value (DigestChallenge.algorithm c)) = Ok (fn, b) /\
      DigestCredentials.get_for_realm realm (DigestAuthenticator.credentials a) = Some user /\
      response_for realm a' = Some (new_entry fn b user c parts (chosen_qop a c) (rng k) p) /\
      (chosen_qop a c <> None -> qop_entry a' realm = Some (realm,
         {| QopEntry.ha1 := first_ha1 fn b user c (rng k); QopEntry.ha2 := first_ha2 fn parts (chosen_qop a c);
            QopEntry.fn := fn |}))
  | None => response_for realm a' = response_for realm a /\ qop_entry a' realm = qop_entry a realm
  end.

Definition of_realm (realm : str) (cs : list (bool * AuthChallenge.t)) : Prop :=
  Forall (fun '(_, ch) => match ch with AuthChallenge.Digest c => DigestChallenge.realm c = realm | _ => True end) cs.

Lemma answer_realm_spec parts realm cs a rng : wf a -> of_realm realm cs ->
  exists a' rng', answer_realm parts realm cs (a, rng) = (bool_decide (is_Some (pick a cs)), (a', rng')) /\
    wf a' /\ only_realm realm a a' /\ drawn_from rng rng' /\ outcome parts rng realm a a' (pick a cs).
Proof.
  intros Hwf Hcs. revert rng. induction Hcs as [|[p ch] cs Hc _ IH]; intros rng.
  - exists a, rng. split; [done|]. split; [done|]. split; [apply only_realm_refl|]. split; [by eexists|done].
  - destruct ch as [c|]; [|apply IH]. cbn [answer_realm pick]. destruct (answerable a c) eqn:Ea.
    + pose proof Ea as Ha. unfold answerable in Ha. rewrite !andb_true_iff in Ha. destruct Ha as [[[_ Hf] Hu] _].
      destruct (hash_fn _ _) as [[fn b]|e] eqn:Ef; [|done]. apply bool_decide_eq_true in Hu as [user Hu].
      rewrite (handle_challenge_answers parts c a rng fn b user Ef Hu Ea). subst realm.
      destruct (answered_only fn b user c parts (rng 0) p a Hwf) as [Ho Hr].
      exists (answered fn b user c parts (rng 0) p a), (fun n => rng (S n)).
      rewrite bool_decide_eq_true_2 by done. split; [done|]. split; [by apply answered_wf|]. split; [done|].
      split; [intros n; by eexists|]. exists fn, b, user, 0. split; [done|]. split; [done|]. split; [done|].
      intros Hq. unfold answered. destruct (chosen_qop a c) as [q|]; [|done]. unfold qop_entry. cbn.
      by rewrite find_put_qop, decide_True.
    + destruct (handle_challenge_refuses parts c a rng Ea) as (e & rng1 & He). rewrite He.
      pose proof (handle_challenge_drawn _ _ _ _ _ _ _ He) as Hd.
      destruct (IH rng1) as (a' & rng' & H1 & H2 & H3 & H4 & H5). exists a', rng'.
      split; [done|]. split; [done|]. split; [done|]. split; [by eapply drawn_trans|].
      destruct (pick a cs) as [[p' c']|]; [|done]. destruct H5 as (fn & b & user & k & Hf & Hu & Hr & Hq).
      destruct (Hd k) as [m Hm]. rewrite Hm in Hr, Hq. by exists fn, b, user, m.
Qed.

Lemma only_realm_answerable realm a a' c : only_realm realm a a' -> DigestChallenge.realm c <> realm ->
  answerable a' c = answerable a c.
Proof. intros [H1 H2 H3 H4 _] Hc. unfold answerable, fresh. by rewrite H1, H2, H4. Qed.

Lemma only_realm_pick realm a a' r cs : only_realm realm a a' -> of_realm r cs -> r <> realm -> pick a' cs = pick a cs.
Proof.
  intros Ho Hcs Hr. induction Hcs as [|[p ch] cs Hc _ IH]; [done|]. destruct ch as [c|]; [|done]. cbn.
  by rewrite IH, (only_realm_answerable realm a a' c Ho) by congruence.
Qed.

Lemma only_realm_outcome parts rng realm a1 a2 r a' picked : only_realm realm a1 a2 -> r <> realm ->
  outcome parts rng r a2 a' picked -> outcome parts rng r a1 a' picked.
Proof.
  intros [H1 H2 H3 H4 H5] Hr. unfold outcome. destruct picked as [[p c]|].
  - assert (chosen_qop a2 c = chosen_qop a1 c) as -> by (unfold chosen_qop; by rewrite H3). by rewrite H1, H2.
  - by rewrite H4, H5.
Qed.

Definition grouped (rs : list ChallengedRealm.t) : Prop :=
  NoDup (ChallengedRealm.realm <$> rs) /\
  Forall (fun r => of_realm (ChallengedRealm.realm r) (ChallengedRealm.challenges r)) rs.

Lemma answer_realms_spec parts rs a rng : wf a -> grouped rs ->
  exists failed a' rng', answer_realms parts rs (a, rng) = (failed, (a', rng')) /\ wf a' /\
    failed = ChallengedRealm.realm <$> List.filter (fun r => bool_decide (pick a (ChallengedRealm.challenges r) = None)) rs /\
    DigestAuthenticator.credentials a' = DigestAuthenticator.credentials a /\
    DigestAuthenticator.reject_md5 a' = DigestAuthenticator.reject_md5 a /\
    DigestAuthenticator.enforce_qop a' = DigestAuthenticator.enforce_qop a /\
    (forall r, r ∈ rs -> outcome parts rng (ChallengedRealm.realm r) a a' (pick a (ChallengedRealm.challenges r))) /\
    (forall realm, realm ∉ ChallengedRealm.realm <$> rs -> outcome parts rng realm a a' None).
Proof.
  intros Hwf [Hnd Hof]. revert a rng Hwf Hnd. induction Hof as [|r rs Hr Hrs IH]; intros a rng Hwf Hnd.
  - exists [], a, rng. split; [done|]. split; [done|]. split; [done|]. do 3 (split; [done|]).
    split; [by intros r ?%elem_of_nil|done].
  - inversion Hnd as [|? ? Hn Hnd']; subst. cbn [answer_realms].
    destruct (answer_realm_spec parts _ _ a rng Hwf Hr) as (a1 & rng1 & -> & Hwf1 & Ho & Hd & Hout).
    destruct (IH a1 rng1 Hwf1 Hnd') as (failed & a' & rng' & -> & Hwf' & Hf & Hc & Hj & He & Hall & Hnone).
    pose proof Ho as [O1 O2 O3 O4 O5].
    eexists _, a', rng'. split; [reflexivity|]. split; [done|]. split; [|split; [congruence|split; [congruence|split; [congruence|split]]]].
    + cbn [List.filter]. assert (List.filter (fun r => bool_decide (pick a1 (ChallengedRealm.challenges r) = None)) rs =
        List.filter (fun r => bool_decide (pick a (ChallengedRealm.challenges r) = None)) rs) as E.
      { apply filter_ext_in. intros x Hx%list_elem_of_In. rewrite Forall_forall in Hrs.
        rewrite (only_realm_pick _ a a1 _ _ Ho (Hrs x Hx)); [done|]. intros E. apply Hn. rewrite <-E.
        apply list_elem_of_fmap. by exists x. }
      rewrite Hf, E. destruct (pick a (ChallengedRealm.challenges r)) as [x|].
      * by rewrite bool_decide_eq_true_2, bool_decide_eq_false_2.
      * by rewrite bool_decide_eq_false_2, bool_decide_eq_true_2 by (done || by intros [? ?]).
    + assert (forall realm picked, outcome parts rng1 realm a a' picked -> outcome parts rng realm a a' picked) as Hdr.
      { intros realm [[p c]|]; [|done]. intros (fn & b & user & k & X1 & X2 & X3 & X4). destruct (Hd k) as [m Hm].
        rewrite Hm in X3, X4. by exists fn, b, user, m. }
      intros x [->|Hx]%elem_of_cons.
      * pose proof (Hnone _ Hn) as [M1 M2]. unfold outcome in *. destruct (pick a _) as [[p c]|].
        -- destruct Hout as (fn & b & user & k & X1 & X2 & X3 & X4). exists fn, b, user, k. by rewrite M1, M2.
        -- by rewrite M1, M2.
      * assert (ChallengedRealm.realm x <> ChallengedRealm.realm r) as Hne.
        { intros E. apply Hn. rewrite <-E. apply list_elem_of_fmap. by exists x. }
        rewrite Forall_forall in Hrs. rewrite <-(only_realm_pick _ a a1 _ _ Ho (Hrs x Hx) Hne).
        apply Hdr, (only_realm_outcome _ _ _ a a1 _ _ _ Ho Hne), Hall, Hx.
    + intros realm Hx. cbn in Hx. assert (realm <> ChallengedRealm.realm r /\ realm ∉ ChallengedRealm.realm <$> rs) as [Hne Hx'].
      { split; [intros ->; apply Hx; left|]. contradict Hx. by right. }
      apply (only_realm_outcome _ _ _ a a1 _ _ None Ho Hne), (Hnone realm Hx').
Qed.

(** ** Rejections *)

(** The challenges in the values of a header, and those of a response by their
    realms *)
Definition challenges (n : Name.t) (h : Headers.t) : exec (list AuthChallenge.t) :=
  all_ret (concat ((fun v => parse_items (S (length v)) v) <$> all_values n h)).
Definition challenged (h : Headers.t) : exec (list ChallengedRealm.t) :=
  www ← challenges Name.WWWAuthenticate h; proxy ← challenges Name.ProxyAuthenticate h;
  Ret (foldl (add_challenge true) (foldl (add_challenge false) [] www) proxy).

Lemma read_challenges_values is_proxy h dst : read_challenges is_proxy h dst =
  (cs ← challenges (if is_proxy then Name.ProxyAuthenticate else Name.WWWAuthenticate) h;
   Ret (Ok (foldl (add_challenge is_proxy) dst cs))).
Proof.
  unfold read_challenges, challenges, all_values, Headers.try_get.
  destruct is_proxy, (Headers.entry _ h) as [e|]; cbn [mbind option_bind Headers.decode]; try done.
Qed.

Lemma handle_rejection_realms parts h st : handle_rejection parts h st =
  (rs ← challenged h;
   let '(failed, st) := answer_realms parts rs st in
   Ret (if decide (failed <> []) then Err (FailedToAuthenticate failed) else Ok tt, st)).
Proof.
  unfold handle_rejection, challenged. rewrite read_challenges_values.
  destruct (challenges Name.WWWAuthenticate h); [|done]. cbn [mbind exec_bind]. rewrite read_challenges_values.
  by destruct (challenges Name.ProxyAuthenticate h).
Qed.

Lemma push_realms realm c dst : ChallengedRealm.realm <$> push_challenge realm c dst =
  if decide (realm ∈ ChallengedRealm.realm <$> dst) then ChallengedRealm.realm <$> dst
  else (ChallengedRealm.realm <$> dst) ++ [realm].
Proof.
  induction dst as [|r dst IH]; cbn.
  - by rewrite decide_False by (by intros ?%elem_of_nil).
  - destruct (decide (ChallengedRealm.realm r = realm)) as [E|E].
    + rewrite decide_True by (rewrite E; left). done.
    + cbn. rewrite IH. case_decide as Hd.
      * by rewrite decide_True by (by right).
      * by rewrite decide_False by (intros [?|?]%elem_of_cons; [congruence|done]).
Qed.

Lemma add_grouped is_proxy dst c : grouped dst -> grouped (add_challenge is_proxy dst c).
Proof.
  intros [Hnd Hof]. destruct c as [c|]; [|done]. cbn [add_challenge]. split.
  - rewrite push_realms. case_decide as Hd; [done|]. apply NoDup_app. split; [done|]. split; [|apply NoDup_singleton].
    by intros x Hx ->%list_elem_of_singleton.
  - clear Hnd. induction Hof as [|r dst Hr Hof IH]; cbn.
    + constructor; [|done]. by constructor.
    + destruct (decide (ChallengedRealm.realm r = DigestChallenge.realm c)) as [E|E]; [|by constructor].
      constructor; [|done]. cbn. apply Forall_app. split; [done|]. by constructor.
Qed.

Lemma challenged_grouped h rs : challenged h = Ret rs -> grouped rs.
Proof.
  assert (forall p cs dst, grouped dst -> grouped (foldl (add_challenge p) dst cs)) as Hf.
  { intros p cs. induction cs as [|c cs IH]; intros dst Hd; [done|]. cbn. by apply IH, add_grouped. }
  unfold challenged. intros (www & _ & (proxy & _ & [= <-])%exec_bind_Ret_inv)%exec_bind_Ret_inv.
  apply Hf, Hf. split; [apply NoDup_nil_2|constructor].
Qed.

(** ** Authorising requests *)
Lemma next_response_ok a e : entry_ok a e -> exists r, next_response (DigestAuthenticator.qop_responses a) (ResponseEntry.header e) = Ret r /\
  entry_ok a {| ResponseEntry.realm := realm_of e; ResponseEntry.header := r;
                ResponseEntry.use_count := wrap 32 (ResponseEntry.use_count e + 1); ResponseEntry.is_proxy := ResponseEntry.is_proxy e |}.
Proof.
  destruct e as [realm header n p]. intros [Hr Hq]. cbn [realm_of ResponseEntry.header] in *. unfold next_response.
  destruct (DigestResponse.qop_response header) as [q|] eqn:E; [|exists header; split; [done|split; [done|cbn; by rewrite E]]].
  destruct Hq as [Hq [[r' ent] Hent]]. unfold qop_entry in Hent. rewrite Hr, Hent. cbn [unwrap mbind exec_bind].
  destruct Hq as [Hq|Hq]; rewrite Hq; eexists; (split; [reflexivity|]); (split; [done|]); cbn; (split; [auto|]);
    unfold qop_entry; by rewrite Hent.
Qed.

Lemma authorize_entry_ok a e : entry_ok a e -> exists e', authorize_entry (DigestAuthenticator.qop_responses a) e = Ret e' /\
  realm_of e' = realm_of e /\ ResponseEntry.is_proxy e' = ResponseEntry.is_proxy e /\ entry_ok a e'.
Proof.
  intros He. unfold authorize_entry. case_decide as Hc.
  - destruct (next_response_ok a e He) as (r & -> & Hr). cbn [mbind exec_bind]. by eexists.
  - eexists. split; [reflexivity|]. split; [done|]. split; [done|]. by destruct e.
Qed.

(** The lines that are added to a request *)
Definition authorizations (n : Name.t) (es : list ResponseEntry.t) : list str :=
  (fun e => DigestResponse.print (ResponseEntry.header e)) <$>
    List.filter (fun e => bool_decide (authorization_name (ResponseEntry.is_proxy e) = canonical n)) es.

Lemma authorization_parsed p : parsed_name (authorization_name p).
Proof. by destruct p. Qed.

Lemma authorize_entries_ok a es h : Forall (entry_ok a) es ->
  exists es' h', authorize_entries (DigestAuthenticator.qop_responses a) es h = Ret (es', h') /\
    realm_of <$> es' = realm_of <$> es /\ Forall (entry_ok a) es' /\
    mapM (authorize_entry (DigestAuthenticator.qop_responses a)) es = Ret es' /\
    (headers_wf h -> headers_wf h' /\ forall n, parsed_name n -> all_values n h' = all_values n h ++ authorizations n es').
Proof.
  intros Hes. revert h. induction Hes as [|e es He _ IH]; intros h.
  - exists [], h. split; [done|]. split; [done|]. split; [constructor|]. split; [done|].
    intros Hwf. split; [done|]. intros n _. by rewrite app_nil_r.
  - destruct (authorize_entry_ok a e He) as (e' & Ee & Er & _ & He').
    set (h1 := Headers.insert_type (authorization_name (ResponseEntry.is_proxy e')) (ResponseEntry.header e') h).
    destruct (IH h1) as (es' & h' & E & Hr & Hok & Hm & Hh). exists (e' :: es'), h'.
    cbn [authorize_entries]. rewrite Ee. cbn [mbind exec_bind]. fold h1. rewrite E. cbn [mbind exec_bind].
    split; [done|]. split; [cbn; by rewrite Er, Hr|]. split; [by constructor|].
    split; [cbn [mapM]; rewrite Ee; cbn [mbind exec_bind]; by rewrite Hm|]. intros Hwf.
    destruct (insert_spec (authorization_name (ResponseEntry.is_proxy e')) (DigestResponse.print (ResponseEntry.header e')) h h1
      Hwf (authorization_parsed _) (or_introl eq_refl)) as [Hwf1 Hv1].
    destruct (Hh Hwf1) as [Hwf' Hv']. split; [done|]. intros n Hn. rewrite Hv', Hv1 by done.
    unfold authorizations. cbn [List.filter]. assert (canonical (authorization_name (ResponseEntry.is_proxy e')) =
      authorization_name (ResponseEntry.is_proxy e')) as -> by (by destruct (ResponseEntry.is_proxy e')).
    case_decide as Hd.
    + rewrite bool_decide_eq_true_2 by done. cbn [fmap list_fmap]. by rewrite <-app_assoc.
    + by rewrite bool_decide_eq_false_2.
Qed.

(** ** The authenticator over time *)
Inductive step : state -> state -> Prop :=
| step_configure a rng creds enforce reject :
    (** its public fields are set *)
    step (a, rng) ({| DigestAuthenticator.credentials := creds;
                      DigestAuthenticator.qop_responses := DigestAuthenticator.qop_responses a;
                      DigestAuthenticator.responses := DigestAuthenticator.responses a;
                      DigestAuthenticator.enforce_qop := enforce; DigestAuthenticator.reject_md5 := reject |}, rng)
| step_authorize a rng h a' h' : authorize_request a h = Ret (a', h') -> step (a, rng) (a', rng)
| step_reject parts h st r st' : handle_rejection parts h st = Ret (r, st') -> step st st'.

Inductive reachable : state -> Prop :=
| reachable_new creds rng : reachable (DigestAuthenticator.new creds, rng)
| reachable_step st st' : reachable st -> step st st' -> reachable st'.

Lemma authorize_request_ok a h : wf a -> exists a' h', authorize_request a h = Ret (a', h') /\ wf a' /\
  mapM (authorize_entry (DigestAuthenticator.qop_responses a)) (DigestAuthenticator.responses a) =
    Ret (DigestAuthenticator.responses a') /\
  (headers_wf h -> headers_wf h' /\ forall n, parsed_name n ->
     all_values n h' = all_values n h ++ authorizations n (DigestAuthenticator.responses a')).
Proof.
  intros [Hnd He]. unfold authorize_request.
  destruct (authorize_entries_ok a _ h He) as (es & h' & E & Hr & Hok & Hm & Hh). rewrite E. cbn [mbind exec_bind].
  eexists _, h'. split; [reflexivity|]. split; [split; cbn; [by rewrite Hr|done]|]. done.
Qed.

Lemma digest_step_wf st st' : step st st' -> wf st.1 -> wf st'.1.
Proof.
  intros [a rng creds enforce reject|a rng h a' h' H'|parts h [a rng] r st2 H'] Hwf; cbn [fst] in *.
  - destruct Hwf as [Hnd He]. by split.
  - destruct (authorize_request_ok a h Hwf) as (a2 & h2 & E & Hwf' & _). rewrite E in H'. by injection H' as <- <-.
  - rewrite handle_rejection_realms in H'. apply exec_bind_Ret_inv in H' as (rs & Hrs & H').
    destruct (answer_realms_spec parts rs a rng Hwf (challenged_grouped h rs Hrs)) as (f & a' & rng' & E & Hwf' & _).
    rewrite E in H'. by injection H' as _ <-.
Qed.

(** The authenticator never fails on what it keeps. In every state that it can
    get into, by rejections with any headers, requests and changes of its
    settings, there is one answer for each realm, and authorising a request
    succeeds: every answer is added as one value of its header, in order,
    behind those that the request has. A rejection whose challenges can be
    parsed is handled without a panic. *)
Theorem digest_never_fails a rng : reachable (a, rng) ->
  wf a /\
  (forall h, headers_wf h -> exists a' h', authorize_request a h = Ret (a', h') /\ headers_wf h' /\
     forall n, parsed_name n -> all_values n h' = all_values n h ++ authorizations n (DigestAuthenticator.responses a')) /\
  (forall parts h rs, challenged h = Ret rs -> exists r st', handle_rejection parts h (a, rng) = Ret (r, st')).
Proof.
  intros Hr. assert (wf a) as Hwf.
  { change (wf (a, rng).1). induction Hr as [creds rng'|st st' _ IH Hs]; [|by eapply digest_step_wf].
    split; [apply NoDup_nil_2|constructor]. }
  split; [done|]. split.
  - intros h Hh. destruct (authorize_request_ok a h Hwf) as (a' & h' & E & _ & _ & Hv). exists a', h'.
    destruct (Hv Hh) as [Hh' Hv']. done.
  - intros parts h rs Hrs. rewrite handle_rejection_realms, Hrs. cbn [mbind exec_bind].
    destruct (answer_realms parts rs (a, rng)) as [f st']. by eexists _, _.
Qed.

(** What becomes of the realms of a rejection *)
Lemma rejection_outcomes parts h a rng rs : wf a -> challenged h = Ret rs ->
  let failed := ChallengedRealm.realm <$> List.filter (fun r => bool_decide (pick a (ChallengedRealm.challenges r) = None)) rs in
  exists a' rng', handle_rejection parts h (a, rng) =
      Ret (if decide (failed <> []) then Err (FailedToAuthenticate failed) else Ok tt, (a', rng')) /\
    wf a' /\
    (forall r, r ∈ rs -> outcome parts rng (ChallengedRealm.realm r) a a' (pick a (ChallengedRealm.challenges r))) /\
    (forall realm, realm ∉ ChallengedRealm.realm <$> rs -> response_for realm a' = response_for realm a) /\
    (forall r c, r ∈ rs -> pick a (ChallengedRealm.challenges r) = Some c -> answerable a c.2 = true) /\
    (rs = [] -> (a', rng') = (a, rng)).
Proof.
  intros Hwf Hrs failed. rewrite handle_rejection_realms, Hrs. cbn [mbind exec_bind].
  destruct (answer_realms_spec parts rs a rng Hwf (challenged_grouped h rs Hrs))
    as (f & a' & rng' & E & Hwf' & Hf & _ & _ & _ & Hall & Hnone). rewrite E. exists a', rng'. subst f.
  split; [done|]. split; [done|]. split; [done|]. split; [intros realm Hx; by apply (Hnone realm)|].
  split; [|intros ->; cbn in E; congruence].
  intros r c _ Hp. induction (ChallengedRealm.challenges r) as [|[p ch] cs IH]; [done|]. cbn in Hp.
  destruct ch as [x|]; [|by apply IH]. destruct (answerable a x) eqn:Ea; [by injection Hp as <-|by apply IH].
Qed.

(** C23: What a rejection does. For each realm that is challenged, the topmost
    challenge is answered that can be: there are credentials for the realm, the
    algorithm and the quality of protection are supported, and the nonce is not
    the one that has been answered. The answer takes the place of the old one of
    the realm. Realms without such a challenge keep their answers and make the
    call fail with the list of them; so do not fail responses in which no
    challenge can be read. *)
Theorem digest_rejection parts h a rng rs : wf a -> challenged h = Ret rs ->
  let failed := ChallengedRealm.realm <$> List.filter (fun r => bool_decide (pick a (ChallengedRealm.challenges r) = None)) rs in
  exists a' rng', handle_rejection parts h (a, rng) =
      Ret (if decide (failed <> []) then Err (FailedToAuthenticate failed) else Ok tt, (a', rng')) /\
    wf a' /\
    (forall r, r ∈ rs -> outcome parts rng (ChallengedRealm.realm r) a a' (pick a (ChallengedRealm.challenges r))) /\
    (forall realm, realm ∉ ChallengedRealm.realm <$> rs -> response_for realm a' = response_for realm a) /\
    (forall r c, r ∈ rs -> pick a (ChallengedRealm.challenges r) = Some c -> answerable a c.2 = true) /\
    (rs = [] -> (a', rng') = (a, rng)).
Proof. apply rejection_outcomes. Qed.

(** ** The answers are those of RFC 7616 *)

(** What a server computes from the password, the method and body of the
    request, and the header it gets (sections 3.4.1 to 3.4.3) *)
Definition rfc_ha1 (fn : HashFn) (is_session : bool) (user : DigestUser.t) (realm nonce cnonce : str) : str :=
  let h := hash fn (DigestUser.user user ++ lit ":" ++ realm ++ lit ":" ++ DigestUser.password user) in
  if is_session then hash fn (colon [h; nonce; cnonce]) else h.
Definition rfc_ha2 (fn : HashFn) (qop : option QopOption.t) (method uri : str) (body : list byte) : str :=
  match qop with
  | Some QopOption.AuthInt => hash fn (colon [method; uri; hash fn body])
  | _ => hash fn (colon [method; uri])
  end.
Definition rfc_response (fn : HashFn) (is_session : bool) (user : DigestUser.t) (method : str) (body : list byte)
    (r : DigestResponse.t) : str :=
  let nonce := DigestResponse.nonce r in
  let ha2 := rfc_ha2 fn (QopResponse.qop <$> DigestResponse.qop_response r) method (DigestResponse.uri r) body in
  match DigestResponse.qop_response r with
  | Some q => hash fn (colon [rfc_ha1 fn is_session user (DigestResponse.realm r) nonce (QopResponse.cnonce q); nonce;
                              print_hex8 (QopResponse.nc q); QopResponse.cnonce q; QopOption.print (QopResponse.qop q); ha2])
  | None => hash fn (colon [rfc_ha1 fn is_session user (DigestResponse.realm r) nonce []; nonce; ha2])
  end.
Definition rfc_accepts (user : DigestUser.t) (method : str) (body : list byte) (r : DigestResponse.t) : bool :=
  match hash_fn false (algorithm_value (DigestResponse.algorithm r)) with
  | Ok (fn, is_session) => bool_decide (DigestResponse.response r = rfc_response fn is_session user method body r)
  | Err _ => false
  end.

Lemma hash_fn_reject b a r : hash_fn b a = Ok r -> hash_fn false a = Ok r.
Proof. destruct a, b; try done. Qed.

Lemma first_header_accepted fn user c parts qop cn b : (forall q, qop = Some q -> q = QopOption.Auth \/ q = QopOption.AuthInt) ->
  hash_fn b (algorithm_value (DigestChallenge.algorithm c)) = Ok (fn, false) ->
  rfc_accepts user (Method.display (rl_method (rp_line parts))) (rp_body parts)
    (first_header fn false user c parts qop cn) = true.
Proof.
  intros Hq Hf. unfold rfc_accepts. cbn [first_header DigestResponse.algorithm]. rewrite (hash_fn_reject b _ _ Hf).
  apply bool_decide_eq_true. destruct qop as [q|]; [|done]. by destruct (Hq q eq_refl) as [->| ->].
Qed.

Lemma hash_text fn m : hash fn m <> [] /\ length (hash fn m) = match fn with HashMd5 => 32 | _ => 64 end /\
  Forall (fun b => b <> x22 /\ b <> x5c) (hash fn m).
Proof.
  assert (forall l, length (hex_lower l) = 2 * length l) as Hlen.
  { intros l. unfold hex_lower. rewrite length_lower. induction l as [|b l IH]; [done|]. cbn in *. lia. }
  assert (length (hash fn m) = match fn with HashMd5 => 32 | _ => 64 end) as Hl.
  { unfold hash. rewrite Hlen. destruct fn; [by rewrite md5_length|by rewrite sha256_length|by rewrite sha512_256_length]. }
  split; [by destruct fn; intros E; rewrite E in Hl|]. split; [done|]. unfold hash, hex_lower, lower.
  apply Forall_fmap, Forall_concat, Forall_fmap, Forall_forall. intros b _. cbn.
  assert (forall z, (0 <= z < 16)%Z -> to_lower (hex_digit z) <> x22 /\ to_lower (hex_digit z) <> x5c) as Hz.
  { intros z Hz. assert (forallb (fun z => bool_decide (to_lower (hex_digit z) <> x22 /\ to_lower (hex_digit z) <> x5c)) (seqZ 0 16)
      = true) as Hb by done. rewrite forallb_forall in Hb. specialize (Hb z). rewrite bool_decide_eq_true in Hb.
    apply Hb, list_elem_of_In, elem_of_seqZ. lia. }
  destruct (hex_halves b). constructor; [by apply Hz|]. constructor; [by apply Hz|constructor].
Qed.

Lemma hash_quoted fn m : quoted_text (hash fn m).
Proof. destruct (hash_text fn m) as (H1 & _ & H2). done. Qed.

(** A challenge for a user whose answer can be printed *)
Record printable_answer (user : DigestUser.t) (c : DigestChallenge.t) (parts : RequestParts) : Prop := {
  pa_user : username_ok (Username.new (DigestUser.user user)) (DigestChallenge.userhash c) \/ DigestChallenge.userhash c = true;
  pa_uri : quoted_text (digest_uri parts) }.

Lemma first_header_ok fn b user c parts a cn : challenge_ok c -> printable_answer user c parts -> quoted_text cn ->
  response_ok (first_header fn b user c parts (chosen_qop a c) cn).
Proof.
  intros [Hr Hd Hn Ho Ha Hq Hps] [Hu Huri] Hcn. split; cbn [first_header DigestResponse.username DigestResponse.realm
    DigestResponse.nonce DigestResponse.uri DigestResponse.response DigestResponse.algorithm DigestResponse.opaque
    DigestResponse.qop_response DigestResponse.userhash DigestResponse.other]; try done.
  - unfold first_username. destruct (DigestChallenge.userhash c) eqn:E; [apply hash_quoted|]. by destruct Hu.
  - unfold first_response. destruct (chosen_qop a c); apply hash_quoted.
  - destruct (chosen_qop a c) as [q|] eqn:E; [|done]. cbn. apply chosen_qop_is in E.
    assert (qop_ok QopOption.Auth /\ qop_ok QopOption.AuthInt) as [H1 H2].
    { split; (split; [done|split; [reflexivity|split; [by apply (bool_decide_unpack _)|by apply (bool_decide_eq_false_1 _)]]]). }
    split; [by destruct E as [->| ->]|]. split; [done|]. by apply (bool_decide_unpack _).
Qed.

(** *** What one authorisation does to the answer of a realm *)
Lemma find_mapM qops es es' r : mapM (authorize_entry qops) es = Ret es' ->
  find (fun e => bool_decide (realm_of e = r)) es' =
    match find (fun e => bool_decide (realm_of e = r)) es with
    | Some e => match authorize_entry qops e with Ret e' => Some e' | Panic => None end
    | None => None
    end.
Proof.
  revert es'. induction es as [|e es IH]; intros es' Hm; cbn [mapM] in Hm.
  - by injection Hm as <-.
  - apply exec_bind_Ret_inv in Hm as (e' & He & (es1 & Hes & [= <-])%exec_bind_Ret_inv). cbn.
    assert (realm_of e' = realm_of e) as -> by (unfold authorize_entry in He; by apply exec_bind_Ret_inv in He as (x & _ & [= <-])).
    destruct (bool_decide (realm_of e = r)); [by rewrite He|by apply IH].
Qed.

Lemma authorize_response a h a' h' r e : wf a -> authorize_request a h = Ret (a', h') -> response_for r a = Some e ->
  exists e', authorize_entry (DigestAuthenticator.qop_responses a) e = Ret e' /\ response_for r a' = Some e' /\
    DigestAuthenticator.qop_responses a' = DigestAuthenticator.qop_responses a /\ wf a' /\ realm_of e = r.
Proof.
  intros Hwf Ha He. destruct (authorize_request_ok a h Hwf) as (a2 & h2 & E & Hwf' & Hm & _).
  rewrite Ha in E. injection E as <- <-. unfold response_for in *. pose proof (find_some _ _ He) as [Hin Hre].
  apply bool_decide_eq_true in Hre. pose proof (find_mapM _ _ _ r Hm) as Hf. rewrite He in Hf.
  destruct Hwf as [_ Hok]. rewrite Forall_forall in Hok. apply list_elem_of_In in Hin.
  destruct (authorize_entry_ok a e (Hok e Hin)) as (e' & Ee & _). rewrite Ee in Hf. exists e'.
  split; [done|]. split; [done|]. split; [|done].
  unfold authorize_request in Ha. by apply exec_bind_Ret_inv in Ha as ([es x] & _ & [= <- <-]).
Qed.

Lemma answer_printed a a' h h' r e : wf a -> headers_wf h -> authorize_request a h = Ret (a', h') -> response_for r a' = Some e ->
  DigestResponse.print (ResponseEntry.header e) ∈ all_values (authorization_name (ResponseEntry.is_proxy e)) h'.
Proof.
  intros Hwf Hh Ha He. destruct (authorize_request_ok a h Hwf) as (a2 & h2 & E & _ & _ & Hv).
  rewrite Ha in E. injection E as <- <-. destruct (Hv Hh) as [_ Hv']. rewrite Hv' by apply authorization_parsed.
  apply elem_of_app. right. unfold authorizations. apply list_elem_of_fmap. exists e. split; [done|].
  apply list_elem_of_In, filter_In. unfold response_for in He. apply find_some in He as [Hin _]. split; [done|].
  apply bool_decide_eq_true. by destruct (ResponseEntry.is_proxy e).
Qed.

(** C22: The answer to a challenge with MD5, SHA-256 or SHA-512-256, that is
    with an algorithm that is not one of sessions, is accepted by a server that
    computes what RFC 7616 says. Of the requests that are sent after the
    rejection, the first has a line from which the server reads the realm, nonce
    and opaque value of its challenge, the URI of the rejected request, and a
    response that is right for the method and the body of that. The answers for
    the algorithms of sessions are not covered: the server refuses them
    ([digest_answer_refused]). *)
Theorem digest_answer_accepted parts h a rng rs r p c user fn req :
  wf a -> challenged h = Ret rs -> r ∈ rs -> pick a (ChallengedRealm.challenges r) = Some (p, c) ->
  hash_fn (DigestAuthenticator.reject_md5 a) (algorithm_value (DigestChallenge.algorithm c)) = Ok (fn, false) ->
  DigestCredentials.get_for_realm (ChallengedRealm.realm r) (DigestAuthenticator.credentials a) = Some user ->
  challenge_ok c -> printable_answer user c parts -> (forall n, quoted_text (rng n)) -> headers_wf req ->
  exists res a1 rng1 a2 req' v x,
    handle_rejection parts h (a, rng) = Ret (res, (a1, rng1)) /\ authorize_request a1 req = Ret (a2, req') /\
    v ∈ all_values (authorization_name p) req' /\ parsed_by parse_response v = Ok ([], Ret (AuthResponse.Digest x)) /\
    DigestResponse.realm x = DigestChallenge.realm c /\ DigestResponse.nonce x = DigestChallenge.nonce c /\
    DigestResponse.opaque x = DigestChallenge.opaque c /\ DigestResponse.uri x = digest_uri parts /\
    rfc_accepts user (Method.display (rl_method (rp_line parts))) (rp_body parts) x = true.
Proof.
  intros Hwf Hrs Hr Hp Hf Hu Hc Hpa Hrng Hreq.
  destruct (rejection_outcomes parts h a rng rs Hwf Hrs) as (a1 & rng1 & E & Hwf1 & Hout & _ & _ & _).
  specialize (Hout r Hr). rewrite Hp in Hout. destruct Hout as (fn' & b & user' & k & Hf' & Hu' & Hres & _).
  rewrite Hf in Hf'. injection Hf' as <- <-. rewrite Hu in Hu'. injection Hu' as <-.
  destruct (authorize_request_ok a1 req Hwf1) as (a2 & req' & Ea & _).
  destruct (authorize_response a1 req a2 req' _ _ Hwf1 Ea Hres) as (e' & Ee & Hres' & _).
  injection Ee as <-. pose proof (answer_printed a1 a2 req req' _ _ Hwf1 Hreq Ea Hres') as Hv.
  eexists _, a1, rng1, a2, req', _, (first_header fn false user c parts (chosen_qop a c) (rng k)).
  split; [exact E|]. split; [exact Ea|]. split; [exact Hv|]. split.
  - apply parsed_reads, response_reads; [|exact end_of_value]. by apply first_header_ok.
  - do 4 (split; [done|]). eapply first_header_accepted; [|exact Hf]. intros q. apply chosen_qop_is.
Qed.

(** *** Using an answer again *)
Fixpoint authorize_all (hs : list Headers.t) (a : auth) : exec auth :=
  match hs with
  | [] => Ret a
  | h :: hs => '(a, _) ← authorize_request a h; authorize_all hs a
  end.

(** The header of the use [n + 1] of an answer with a quality of protection *)
Definition used_header (fn : HashFn) (b : bool) (user : DigestUser.t) (c : DigestChallenge.t) (parts : RequestParts)
    (q : QopOption.t) (cn : str) (n : Z) : DigestResponse.t :=
  set_response {| QopResponse.qop := q; QopResponse.cnonce := cn; QopResponse.nc := n + 1 |}
    (hash fn (colon [first_ha1 fn b user c cn; DigestChallenge.nonce c; print_hex8 (n + 1); cn; lit "auth";
                     first_ha2 fn parts (Some q)]))
    (first_header fn b user c parts (Some q) cn).

Definition used_entry (fn : HashFn) (b : bool) (user : DigestUser.t) (c : DigestChallenge.t) (parts : RequestParts)
    (q : QopOption.t) (cn : str) (p : bool) (realm : str) (n : Z) : ResponseEntry.t :=
  {| ResponseEntry.realm := realm;
     ResponseEntry.header := if decide (n <= 1)%Z then first_header fn b user c parts (Some q) cn
                             else used_header fn b user c parts q cn (n - 1);
     ResponseEntry.use_count := n; ResponseEntry.is_proxy := p |}.

(** The answer is one of an authenticator that keeps the hashes it was made of. *)
Record keeps (fn : HashFn) (b : bool) (user : DigestUser.t) (c : DigestChallenge.t) (parts : RequestParts)
    (q : QopOption.t) (cn : str) (p : bool) (n : Z) (a : auth) : Prop := {
  k_wf : wf a;
  k_response : response_for (DigestChallenge.realm c) a = Some (used_entry fn b user c parts q cn p (DigestChallenge.realm c) n);
  k_qop : qop_entry a (DigestChallenge.realm c) = Some (DigestChallenge.realm c,
    {| QopEntry.ha1 := first_ha1 fn b user c cn; QopEntry.ha2 := first_ha2 fn parts (Some q); QopEntry.fn := fn |}) }.

Lemma authorize_keeps fn b user c parts q cn p n a h : (q = QopOption.Auth \/ q = QopOption.AuthInt) ->
  (0 <= n)%Z -> (n + 2 < 2 ^ 32)%Z -> keeps fn b user c parts q cn p n a ->
  exists a' h', authorize_request a h = Ret (a', h') /\ keeps fn b user c parts q cn p (n + 1) a'.
Proof.
  intros Hq Hn Hlt [Hwf Hr Hk]. destruct (authorize_request_ok a h Hwf) as (a' & h' & E & _).
  destruct (authorize_response a h a' h' _ _ Hwf E Hr) as (e' & He & Hr' & Hqs & Hwf' & _).
  exists a', h'. split; [done|]. split; [done| |by unfold qop_entry; rewrite Hqs].
  rewrite Hr'. f_equal. unfold authorize_entry, used_entry in He. cbn [ResponseEntry.use_count ResponseEntry.header
    ResponseEntry.realm ResponseEntry.is_proxy] in He.
  unfold used_entry. rewrite (wrap_id 32 (n + 1)) in He by (unfold uint; lia).
  destruct (decide (n > 0)%Z) as [Hpos|Hz].
  - rewrite (decide_False (P := (n + 1 <= 1)%Z)) by lia. unfold qop_entry in Hk.
    assert (next_response (DigestAuthenticator.qop_responses a)
        (if decide (n <= 1)%Z then first_header fn b user c parts (Some q) cn else used_header fn b user c parts q cn (n - 1)) =
      Ret (used_header fn b user c parts q cn (n + 1 - 1))) as Hnext.
    { unfold next_response, used_header. replace (n + 1 - 1 + 1)%Z with (n + 1)%Z by lia.
      destruct (decide (n <= 1)%Z) as [H1|H1].
      - assert (n = 1)%Z as -> by lia. cbn [first_header DigestResponse.qop_response DigestResponse.realm fmap option_fmap option_map].
        rewrite Hk. cbn [unwrap mbind exec_bind QopEntry.ha1 QopEntry.ha2 QopEntry.fn QopResponse.qop QopResponse.cnonce
          QopResponse.nc DigestResponse.nonce].
        rewrite (wrap_id 32 (1 + 1)) by (unfold uint; lia). by destruct Hq as [->| ->].
      - cbn [set_response first_header DigestResponse.qop_response DigestResponse.realm].
        rewrite Hk. cbn [unwrap mbind exec_bind QopEntry.ha1 QopEntry.ha2 QopEntry.fn QopResponse.qop QopResponse.cnonce
          QopResponse.nc DigestResponse.nonce].
        replace (n - 1 + 1 + 1)%Z with (n + 1)%Z by lia.
        rewrite (wrap_id 32 (n + 1)) by (unfold uint; lia). by destruct Hq as [->| ->]. }
    rewrite Hnext in He. cbn [mbind exec_bind] in He. by injection He as <-.
  - assert (n = 0)%Z as -> by lia. cbn [mbind exec_bind] in He. by injection He as <-.
Qed.

Lemma authorize_all_keeps fn b user c parts q cn p hs : (q = QopOption.Auth \/ q = QopOption.AuthInt) ->
  forall n a, (0 <= n)%Z -> (n + Z.of_nat (length hs) + 1 < 2 ^ 32)%Z -> keeps fn b user c parts q cn p n a ->
  exists a', authorize_all hs a = Ret a' /\ keeps fn b user c parts q cn p (n + Z.of_nat (length hs)) a'.
Proof.
  intros Hq. induction hs as [|h hs IH]; intros n a Hn Hlt Hk; cbn [length authorize_all] in *.
  - exists a. by rewrite Z.add_0_r.
  - destruct (authorize_keeps fn b user c parts q cn p n a h Hq Hn ltac:(lia) Hk) as (a1 & h1 & -> & Hk1).
    cbn [mbind exec_bind]. destruct (IH (n + 1)%Z a1 ltac:(lia) ltac:(lia) Hk1) as (a' & E & Hk'). exists a'.
    split; [done|]. replace (n + Z.of_nat (S (length hs)))%Z with (n + 1 + Z.of_nat (length hs))%Z by lia. done.
Qed.

(** Two texts with the same hash *)
Definition collision (fn : HashFn) : Prop := exists x y, x <> y /\ hash fn x = hash fn y.

Lemma hash_collision fn x y : hash fn x = hash fn y -> x <> y -> collision fn.
Proof. intros E Hne. by exists x, y. Qed.

Lemma rejection_keeps parts h a rng rs r p c user fn b q : wf a -> challenged h = Ret rs -> r ∈ rs ->
  pick a (ChallengedRealm.challenges r) = Some (p, c) ->
  hash_fn (DigestAuthenticator.reject_md5 a) (algorithm_value (DigestChallenge.algorithm c)) = Ok (fn, b) ->
  DigestCredentials.get_for_realm (DigestChallenge.realm c) (DigestAuthenticator.credentials a) = Some user ->
  chosen_qop a c = Some q ->
  exists res a1 rng1 k, handle_rejection parts h (a, rng) = Ret (res, (a1, rng1)) /\
    keeps fn b user c parts q (rng k) p 0 a1.
Proof.
  intros Hwf Hrs Hr Hp Hf Hu Hq.
  assert (ChallengedRealm.realm r = DigestChallenge.realm c) as Er.
  { destruct (challenged_grouped h rs Hrs) as [_ Hof]. rewrite Forall_forall in Hof. specialize (Hof r Hr).
    induction Hof as [|[p' ch] cs Hc _ IH]; [done|]. cbn in Hp. destruct ch as [x|]; [|by apply IH].
    destruct (answerable a x); [|by apply IH]. by injection Hp as <- <-. }
  destruct (rejection_outcomes parts h a rng rs Hwf Hrs) as (a1 & rng1 & E & Hwf1 & Hout & _).
  specialize (Hout r Hr). rewrite Hp, Er in Hout. destruct Hout as (fn' & b' & user' & k & Hf' & Hu' & Hres & Hk).
  rewrite Hf in Hf'. injection Hf' as <- <-. rewrite Hu in Hu'. injection Hu' as <-. rewrite Hq in Hres, Hk.
  eexists _, a1, rng1, k. split; [exact E|]. split; [done|exact Hres|by apply Hk].
Qed.

(** An answer with a quality of protection is used for every request until the
    next rejection, and each use has the next nonce count. For "auth" and the
    method and URI of the rejected request, a server accepts every one. *)
Theorem digest_reuse parts h a rng rs r p c user fn b q hs :
  wf a -> challenged h = Ret rs -> r ∈ rs -> pick a (ChallengedRealm.challenges r) = Some (p, c) ->
  hash_fn (DigestAuthenticator.reject_md5 a) (algorithm_value (DigestChallenge.algorithm c)) = Ok (fn, b) ->
  DigestCredentials.get_for_realm (DigestChallenge.realm c) (DigestAuthenticator.credentials a) = Some user ->
  chosen_qop a c = Some q -> hs <> [] -> (Z.of_nat (length hs) + 1 < 2 ^ 32)%Z ->
  exists res a1 rng1 k a2 e, handle_rejection parts h (a, rng) = Ret (res, (a1, rng1)) /\ authorize_all hs a1 = Ret a2 /\
    response_for (DigestChallenge.realm c) a2 = Some e /\ ResponseEntry.use_count e = Z.of_nat (length hs) /\
    DigestResponse.nonce (ResponseEntry.header e) = DigestChallenge.nonce c /\
    DigestResponse.qop_response (ResponseEntry.header e) = Some {|
      QopResponse.qop := q; QopResponse.cnonce := rng k; QopResponse.nc := Z.of_nat (length hs) |} /\
    (b = false -> q = QopOption.Auth -> forall body,
       rfc_accepts user (Method.display (rl_method (rp_line parts))) body (ResponseEntry.header e) = true).
Proof.
  intros Hwf Hrs Hr Hp Hf Hu Hq Hne Hlt.
  destruct (rejection_keeps parts h a rng rs r p c user fn b q Hwf Hrs Hr Hp Hf Hu Hq) as (res & a1 & rng1 & k & E & Hk).
  destruct (authorize_all_keeps fn b user c parts q (rng k) p hs (chosen_qop_is _ _ _ Hq) 0 a1 ltac:(lia) ltac:(lia) Hk)
    as (a2 & E2 & [_ Hr2 _]). eexists res, a1, rng1, k, a2, _. split; [done|]. split; [done|]. split; [exact Hr2|].
  split; [done|]. rewrite Z.add_0_l. unfold used_entry. cbn [ResponseEntry.header]. destruct hs as [|h1 hs]; [done|]. clear Hne.
  cbn [length] in *. destruct (decide (Z.of_nat (S (length hs)) <= 1)%Z) as [H1|H1].
  - split; [done|]. replace (Z.of_nat (S (length hs))) with 1%Z by lia. split; [done|]. intros -> ->. intros body.
    unfold rfc_accepts. cbn [first_header DigestResponse.algorithm]. rewrite (hash_fn_reject _ _ _ Hf).
    by apply bool_decide_eq_true.
  - split; [done|]. unfold used_header. cbn [set_response DigestResponse.qop_response].
    replace (Z.of_nat (S (length hs)) - 1 + 1)%Z with (Z.of_nat (S (length hs))) by lia.
    split; [done|]. intros -> ->. intros body.
    unfold rfc_accepts. cbn [set_response first_header DigestResponse.algorithm]. rewrite (hash_fn_reject _ _ _ Hf).
    by apply bool_decide_eq_true.
Qed.

Lemma colon_cons x y l : colon (x :: y :: l) = x ++ lit ":" ++ colon (y :: l).
Proof. unfold colon. cbn [fmap list_fmap concat]. by rewrite <-!app_assoc. Qed.

Lemma colon_prefix p x l x' l' : colon (p ++ x :: l) = colon (p ++ x' :: l') -> colon (x :: l) = colon (x' :: l').
Proof.
  induction p as [|y [|z p] IH]; [done|..]; cbn [app] in *; rewrite !colon_cons; intros E.
  - by do 2 apply app_inv_head in E.
  - by do 2 apply app_inv_head in E; apply IH.
Qed.

Lemma length_hash fn x y : length (hash fn x) = length (hash fn y).
Proof. destruct (hash_text fn x) as (_ & -> & _), (hash_text fn y) as (_ & -> & _). done. Qed.

Lemma ha1_longer fn user c cn : exists n, length (first_ha1 fn true user c cn) =
  S n + length (rfc_ha1 fn true user (DigestChallenge.realm c) (DigestChallenge.nonce c) cn).
Proof.
  unfold first_ha1, rfc_ha1. rewrite !colon_cons, !length_app.
  set (x := DigestUser.user user ++ _). set (y := hash fn x ++ _).
  rewrite (length_hash fn x y). cbn [length]. exists (length (lit ":" ++ DigestChallenge.nonce c ++ colon [cn])).
  rewrite !length_app. cbn. lia.
Qed.

(** Answers that a server refuses, unless two texts with the same hash turn up.
    The answers for algorithms of sessions are made without hashing what
    identifies the session. From the second use on, an answer for "auth-int" is
    computed for "auth". An answer is used for requests with another method,
    although it was made for the rejected one. *)
Theorem digest_answer_refused parts h a rng rs r p c user fn b q hs :
  wf a -> challenged h = Ret rs -> r ∈ rs -> pick a (ChallengedRealm.challenges r) = Some (p, c) ->
  hash_fn (DigestAuthenticator.reject_md5 a) (algorithm_value (DigestChallenge.algorithm c)) = Ok (fn, b) ->
  DigestCredentials.get_for_realm (DigestChallenge.realm c) (DigestAuthenticator.credentials a) = Some user ->
  chosen_qop a c = Some q -> hs <> [] -> (Z.of_nat (length hs) + 1 < 2 ^ 32)%Z ->
  exists res a1 rng1 a2 e, handle_rejection parts h (a, rng) = Ret (res, (a1, rng1)) /\ authorize_all hs a1 = Ret a2 /\
    response_for (DigestChallenge.realm c) a2 = Some e /\
    (b = true -> length hs = 1 -> forall body,
       q = QopOption.Auth \/ body = rp_body parts ->
       rfc_accepts user (Method.display (rl_method (rp_line parts))) body (ResponseEntry.header e) = true -> collision fn) /\
    (b = false -> q = QopOption.AuthInt -> 2 <= length hs -> forall m body,
       rfc_accepts user m body (ResponseEntry.header e) = true -> collision fn) /\
    (b = false -> q = QopOption.Auth -> forall m body, m <> Method.display (rl_method (rp_line parts)) ->
       rfc_accepts user m body (ResponseEntry.header e) = true -> collision fn).
Proof.
  intros Hwf Hrs Hr Hp Hf Hu Hq Hne Hlt.
  destruct (rejection_keeps parts h a rng rs r p c user fn b q Hwf Hrs Hr Hp Hf Hu Hq) as (res & a1 & rng1 & k & E & Hk).
  destruct (authorize_all_keeps fn b user c parts q (rng k) p hs (chosen_qop_is _ _ _ Hq) 0 a1 ltac:(lia) ltac:(lia) Hk)
    as (a2 & E2 & [_ Hr2 _]). eexists res, a1, rng1, a2, _. split; [done|]. split; [done|]. split; [exact Hr2|].
  rewrite Z.add_0_l. unfold used_entry. cbn [ResponseEntry.header].
  pose proof (hash_fn_reject _ _ _ Hf) as Hf'. split; [|split].
  - intros -> H1 body Hb. rewrite H1, decide_True by lia. unfold rfc_accepts. cbn [first_header DigestResponse.algorithm].
    rewrite Hf'. intros Ha%bool_decide_eq_true. apply (hash_collision fn _ _ Ha). intros Eq. apply (f_equal length) in Eq.
    destruct (ha1_longer fn user c (rng k)) as [n Hn]. cbn [first_header DigestResponse.realm DigestResponse.nonce
      DigestResponse.qop_response DigestResponse.uri fmap option_fmap option_map QopResponse.cnonce QopResponse.nc QopResponse.qop] in *.
    rewrite (colon_cons (first_ha1 _ _ _ _ _)), (colon_cons (rfc_ha1 _ _ _ _ _ _)), !(length_app _ (lit ":" ++ _)), Hn in Eq.
    assert (first_ha2 fn parts (Some q) = rfc_ha2 fn (Some q) (Method.display (rl_method (rp_line parts))) (digest_uri parts) body) as Eh.
    { unfold first_ha2, rfc_ha2. destruct q; [done| |done]. by destruct Hb as [?| ->]. }
    rewrite Eh in Eq. lia.
  - intros -> -> H2 m body. rewrite decide_False by lia. unfold rfc_accepts, used_header.
    cbn [set_response first_header DigestResponse.algorithm]. rewrite Hf'. intros Ha%bool_decide_eq_true.
    apply (hash_collision fn _ _ Ha). cbn [first_header DigestResponse.realm DigestResponse.nonce
      DigestResponse.qop_response DigestResponse.uri fmap option_fmap option_map QopResponse.cnonce QopResponse.nc QopResponse.qop].
    intros Eq. unfold first_ha1, rfc_ha1 in Eq.
    apply (colon_prefix [_; _; _; _] (lit "auth") _ (lit "auth-int")) in Eq. discriminate Eq.
  - intros -> -> m body Hm.
    assert (forall nc, hash fn (colon [first_ha1 fn false user c (rng k); DigestChallenge.nonce c; print_hex8 nc; rng k; lit "auth";
        first_ha2 fn parts (Some QopOption.Auth)]) =
      hash fn (colon [rfc_ha1 fn false user (DigestChallenge.realm c) (DigestChallenge.nonce c) (rng k); DigestChallenge.nonce c;
        print_hex8 nc; rng k; lit "auth"; rfc_ha2 fn (Some QopOption.Auth) m (digest_uri parts) body]) -> collision fn) as Hcol.
    { intros nc Ha. destruct (decide (first_ha2 fn parts (Some QopOption.Auth) =
        rfc_ha2 fn (Some QopOption.Auth) m (digest_uri parts) body)) as [Eh|Eh].
      - apply (hash_collision fn _ _ Eh). rewrite !colon_cons. intros Eq. apply Hm. by apply app_inv_tail in Eq.
      - apply (hash_collision fn _ _ Ha). unfold first_ha1, rfc_ha1. intros Eq. apply Eh.
        apply (colon_prefix [_; _; _; _; _] _ [] _ []) in Eq. unfold colon in Eq. by rewrite !app_nil_r in Eq. }
    case_decide; unfold rfc_accepts; cbn [first_header used_header set_response DigestResponse.algorithm]; rewrite Hf';
      intros Ha%bool_decide_eq_true; [exact (Hcol 1%Z Ha)|exact (Hcol (Z.of_nat (length hs) - 1 + 1)%Z Ha)].
Qed.
End props.

(** ** Examples *)
Module DigestSample.
(** Checksums in the place of the hash functions *)
#[export] Instance sums : Hashes := {|
  md5 m := be_bytes 16 (be_val m); sha256 m := be_bytes 32 (be_val m); sha512_256 m := be_bytes 32 (be_val m) |}.
#[export] Instance sums_laws : HashLaws sums.
Proof. split; intros m; apply length_be_bytes. Qed.

Definition challenge (a : AlgorithmValue.t) (q : QopOption.t) : DigestChallenge.t := {|
  DigestChallenge.realm := lit "example.org"; DigestChallenge.domain := None; DigestChallenge.nonce := lit "YWmh5G";
  DigestChallenge.opaque := Some (lit "5c"); DigestChallenge.stale := false;
  DigestChallenge.algorithm := Algorithm.AlgorithmValue a;
  DigestChallenge.qop := [q]; DigestChallenge.userhash := false; DigestChallenge.other := [] |}.
Definition user : DigestUser.t := {| DigestUser.user := lit "user123"; DigestUser.password := lit "password123" |}.
Definition authenticator : DigestAuthenticator.t :=
  DigestAuthenticator.new (DigestCredentials.add_for_realm (lit "example.org") user DigestCredentials.new).
Definition request : RequestParts := {|
  rp_line := {| rl_method := Method.REGISTER; rl_uri := TypedSample.uri |}; rp_body := [] |}.
Definition rejection (a : AlgorithmValue.t) (q : QopOption.t) : Headers.t :=
  Headers.insert_type Name.WWWAuthenticate (AuthChallenge.Digest (challenge a q)) Headers.new.
Definition realm (a : AlgorithmValue.t) (q : QopOption.t) : ChallengedRealm.t := {|
  ChallengedRealm.realm := lit "example.org";
  ChallengedRealm.challenges := [(false, AuthChallenge.Digest (challenge a q))] |}.
Definition rng (n : nat) : str := lit "0c" ++ print_uint (Z.of_nat n).
End DigestSample.

Section samples.
#[local] Existing Instances complete percent percent_cow FullIp6.text FullIp6.laws TypedSample.no_unicode TypedSample.no_text.
#[local] Existing Instances DigestSample.sums DigestSample.sums_laws.
Import DigestSample.

Lemma sample_authenticator_wf : wf authenticator.
Proof. split; [apply NoDup_nil_2|constructor]. Qed.

Lemma sample_challenged a q : a ∈ [AlgorithmValue.MD5; AlgorithmValue.SHA256; AlgorithmValue.SHA256Sess] ->
  q ∈ [QopOption.Auth; QopOption.AuthInt] -> challenged (rejection a q) = Ret [DigestSample.realm a q].
Proof.
  intros Ha Hq. repeat (apply elem_of_cons in Ha as [->|Ha]); [..|by apply elem_of_nil in Ha];
    (repeat (apply elem_of_cons in Hq as [->|Hq]); [..|by apply elem_of_nil in Hq]); vm_compute; reflexivity.
Qed.

Lemma digest_never_fails_witness : exists r st', handle_rejection request (rejection AlgorithmValue.MD5 QopOption.Auth)
    (authenticator, rng) = Ret (r, st') /\ r = Ok tt.
Proof.
  destruct (digest_never_fails authenticator rng (reachable_new _ _)) as (_ & _ & H).
  destruct (H request (rejection AlgorithmValue.MD5 QopOption.Auth) [DigestSample.realm AlgorithmValue.MD5 QopOption.Auth])
    as (r & st' & E); [by apply sample_challenged; left|]. exists r, st'. split; [exact E|].
  assert (match handle_rejection request (rejection AlgorithmValue.MD5 QopOption.Auth) (authenticator, rng) with
          | Ret (r, _) => r | Panic => Err UnsupportedQop end = Ok tt) as Hok by (vm_compute; reflexivity).
  rewrite E in Hok. exact Hok.
Defined.

Lemma digest_rejection_witness : exists a' rng',
  handle_rejection request (rejection AlgorithmValue.MD5 QopOption.Auth) (authenticator, rng) = Ret (Ok tt, (a', rng')) /\
  wf a' /\ response_for (lit "other") a' = None.
Proof.
  destruct (digest_rejection request (rejection AlgorithmValue.MD5 QopOption.Auth) authenticator rng
    [DigestSample.realm AlgorithmValue.MD5 QopOption.Auth] sample_authenticator_wf) as (a' & rng' & E & Hwf & _ & Ho & _).
  - by apply sample_challenged; left.
  - exists a', rng'. split; [|split; [exact Hwf|]].
    + rewrite E. do 2 f_equal.
    + rewrite Ho; [reflexivity|]. by apply (bool_decide_eq_false_1 _).
Defined.

Lemma digest_answer_accepted_witness : exists v x a1 rng1 res a2 req',
  handle_rejection request (rejection AlgorithmValue.SHA256 QopOption.AuthInt) (authenticator, rng) = Ret (res, (a1, rng1)) /\
  authorize_request a1 Headers.new = Ret (a2, req') /\ v ∈ all_values Name.Authorization req' /\
  parsed_by parse_response v = Ok ([], Ret (AuthResponse.Digest x)) /\
  rfc_accepts user (lit "REGISTER") [] x = true.
Proof.
  destruct (digest_answer_accepted request (rejection AlgorithmValue.SHA256 QopOption.AuthInt) authenticator rng
    [DigestSample.realm AlgorithmValue.SHA256 QopOption.AuthInt] (DigestSample.realm AlgorithmValue.SHA256 QopOption.AuthInt)
    false (challenge AlgorithmValue.SHA256 QopOption.AuthInt) user HashSha256 Headers.new)
    as (res & a1 & rng1 & a2 & req' & v & x & H1 & H2 & H3 & H4 & _ & _ & _ & _ & H5).
  - exact sample_authenticator_wf.
  - apply sample_challenged; [right; left|right; left].
  - left.
  - vm_compute. reflexivity.
  - reflexivity.
  - vm_compute. reflexivity.
  - split; [by apply (bool_decide_unpack _)|exact I|by apply (bool_decide_unpack _)|by apply (bool_decide_unpack _)| | |constructor].
    + split; [done|]. split; [by repeat constructor|reflexivity].
    + constructor; [|constructor]. split; [done|split; [reflexivity|split; [by apply (bool_decide_unpack _)|]]].
      by apply (bool_decide_eq_false_1 _).
  - split; [left; by apply (bool_decide_unpack _)|]. apply (bool_decide_unpack _). vm_compute. reflexivity.
  - intros n. split; [done|]. unfold DigestSample.rng. apply Forall_app. split; [by apply (bool_decide_unpack _)|].
    eapply Forall_impl; [apply print_uint_digits; lia|]. cbn. intros b Hb. split; by intros ->.
  - split; [constructor|apply NoDup_nil_2].
  - exists v, x, a1, rng1, res, a2, req'. done.
Defined.

Lemma digest_reuse_witness : exists a1 rng1 a2 e res,
  handle_rejection request (rejection AlgorithmValue.MD5 QopOption.Auth) (authenticator, rng) = Ret (res, (a1, rng1)) /\
  authorize_all [Headers.new; Headers.new; Headers.new] a1 = Ret a2 /\
  response_for (lit "example.org") a2 = Some e /\
  QopResponse.nc <$> DigestResponse.qop_response (ResponseEntry.header e) = Some 3%Z /\
  rfc_accepts user (lit "REGISTER") [] (ResponseEntry.header e) = true.
Proof.
  destruct (digest_reuse request (rejection AlgorithmValue.MD5 QopOption.Auth) authenticator rng
    [DigestSample.realm AlgorithmValue.MD5 QopOption.Auth] (DigestSample.realm AlgorithmValue.MD5 QopOption.Auth)
    false (challenge AlgorithmValue.MD5 QopOption.Auth) user HashMd5 false QopOption.Auth
    [Headers.new; Headers.new; Headers.new]) as (res & a1 & rng1 & k & a2 & e & H1 & H2 & H3 & _ & _ & H4 & H5).
  - exact sample_authenticator_wf.
  - by apply sample_challenged; left.
  - left.
  - vm_compute. reflexivity.
  - reflexivity.
  - vm_compute. reflexivity.
  - reflexivity.
  - done.
  - cbn. lia.
  - exists a1, rng1, a2, e, res. split; [exact H1|]. split; [exact H2|]. split; [exact H3|]. rewrite H4.
    split; [reflexivity|]. by apply H5.
Defined.

Lemma digest_answer_refused_witness : exists res a1 rng1 a2 e,
  handle_rejection request (rejection AlgorithmValue.SHA256Sess QopOption.Auth) (authenticator, rng) = Ret (res, (a1, rng1)) /\
  authorize_all [Headers.new] a1 = Ret a2 /\ response_for (lit "example.org") a2 = Some e /\
  (rfc_accepts user (lit "REGISTER") [] (ResponseEntry.header e) = true -> collision HashSha256).
Proof.
  destruct (digest_answer_refused request (rejection AlgorithmValue.SHA256Sess QopOption.Auth) authenticator rng
    [DigestSample.realm AlgorithmValue.SHA256Sess QopOption.Auth] (DigestSample.realm AlgorithmValue.SHA256Sess QopOption.Auth)
    false (challenge AlgorithmValue.SHA256Sess QopOption.Auth) user HashSha256 true QopOption.Auth
    [Headers.new]) as (res & a1 & rng1 & a2 & e & H1 & H2 & H3 & H4 & _).
  - exact sample_authenticator_wf.
  - apply sample_challenged; [right; right; left|left].
  - left.
  - vm_compute. reflexivity.
  - reflexivity.
  - vm_compute. reflexivity.
  - reflexivity.
  - done.
  - cbn. lia.
  - exists res, a1, rng1, a2, e. split; [exact H1|]. split; [exact H2|]. split; [exact H3|].
    intros H. by apply (H4 eq_refl eq_refl []); [left|].
Defined.
End samples.
