(* ===== verification/SipKeys.v ===== *)
(** * Transaction keys
    (sip-core/src/transaction/key.rs)

    The key a message and the transaction it belongs to have in common. It is
    made from the first Via header and the CSeq of a message, or newly for a
    request that is sent; the random part of a new branch is an argument. *)
From stdpp Require Import countable.
From S2P Require Import Prelude Text StunAttr SipNames SipHeaders SipFraming SipMessages.

(** ** Keys of maps *)
#[export] Instance method_countable : Countable Method.t.
Proof.
  apply (inj_countable
    (fun m => match m with
              | Method.Other s => inl s
              | m => inr (default 0 (position (fun x => bool_decide (x = m)) Method.alternatives))
              end)
    (fun x : str + nat => match x with inl s => Some (Method.Other s) | inr i => nth_error Method.alternatives i end)).
  by intros [].
Defined.

#[export] Instance host_countable : Countable Host.
Proof.
  apply (inj_countable'
    (fun h => match h with IP6 ip => inl ip | IP4 ip => inr (inl ip) | HostName n => inr (inr n) end)
    (fun x : Z + (Z + str) => match x with inl ip => IP6 ip | inr (inl ip) => IP4 ip | inr (inr n) => HostName n end)).
  by intros [].
Defined.

#[export] Instance host_port_countable : Countable HostPort.t.
Proof.
  apply (inj_countable' (fun h => (HostPort.host h, HostPort.port h))
    (fun x : Host * option Z => {| HostPort.host := x.1; HostPort.port := x.2 |})).
  by intros [].
Defined.

(** [transaction::consts] *)
Definition T1 : Z := 500.
Definition T2 : Z := 4000.
Definition T4 : Z := 5000.
Definition RFC3261_BRANCH_PREFIX : str := lit "z9hG4bK".

(** [generate_branch], from 23 random characters *)
Definition generate_branch (random : str) : str := RFC3261_BRANCH_PREFIX ++ random.

Module TsxKey.
Inductive Role := Server | Client.

#[global] Instance role_eq_dec : EqDecision Role.
Proof. solve_decision. Defined.
#[global] Instance role_countable : Countable Role.
Proof.
  apply (inj_countable' (fun r => match r with Server => true | Client => false end)
    (fun b : bool => if b then Server else Client)). by intros [].
Defined.

Record Rfc3261 := { role : Role; branch_ : str; method : option Method.t }.
Record Rfc2543 := {
  role_ : Role;
  method_ : option Method.t;
  cseq : Z;
  from_tag : str;
  call_id : str;
  via_host_port : HostPort.t }.

(** [TsxKey] with its [Repr] *)
Inductive t := RFC3261 (r : Rfc3261) | RFC2543 (r : Rfc2543).

#[global] Instance rfc3261_eq_dec : EqDecision Rfc3261.
Proof. solve_decision. Defined.
#[global] Instance rfc2543_eq_dec : EqDecision Rfc2543.
Proof. solve_decision. Defined.
#[global] Instance t_eq_dec : EqDecision t.
Proof. solve_decision. Defined.
#[global] Instance t_countable : Countable t.
Proof.
  apply (inj_countable'
    (fun k => match k with
              | RFC3261 r => inl (role r, branch_ r, method r)
              | RFC2543 r => inr (role_ r, method_ r, cseq r, from_tag r, call_id r, via_host_port r)
              end)
    (fun x : (Role * str * option Method.t) + (Role * option Method.t * Z * str * str * HostPort.t) =>
       match x with
       | inl (r, b, m) => RFC3261 {| role := r; branch_ := b; method := m |}
       | inr (r, m, c, f, i, h) =>
           RFC2543 {| role_ := r; method_ := m; cseq := c; from_tag := f; call_id := i; via_host_port := h |}
       end)).
  by intros [[]|[]].
Defined.

(** [filter_method]: INVITE and ACK are [None]. *)
Definition filter_method (m : Method.t) : option Method.t :=
  match m with Method.INVITE | Method.ACK => None | m => Some m end.

Definition role_of (k : t) : Role := match k with RFC3261 r => role r | RFC2543 r => role_ r end.
Definition is_server (k : t) : bool := bool_decide (role_of k = Server).
Definition is_invite (k : t) : bool :=
  match k with
  | RFC3261 r => bool_decide (method r = None)
  | RFC2543 r => bool_decide (method_ r = None)
  end.
Definition branch (k : t) : str := match k with RFC3261 r => branch_ r | RFC2543 _ => [] end.

(** [TsxKey::client] *)
Definition client (random : str) (m : Method.t) : t :=
  RFC3261 {| role := Client; branch_ := generate_branch random; method := filter_method m |}.

Section headers.
Context {NameAddr : Type}.

(** [TsxKey::from_headers] *)
Definition from_headers (headers : BaseHeaders NameAddr) (r : Role) : exec (result HeaderError.t t) :=
  v ← unwrap (head (via headers));
  let branch := default [] (Params.get_val (lit "branch") (Via.params v)) in
  let m := filter_method (CSeq.method (cseq_ headers)) in
  Ret (if starts_with RFC3261_BRANCH_PREFIX branch then
         Ok (RFC3261 {| role := r; branch_ := branch; method := m |})
       else
         tag ← ok_or (HeaderError.malformed_adhoc Name.From (lit "Missing Tag")) (FromTo.tag (from_ headers));
         Ok (RFC2543 {|
           role_ := r; method_ := m; cseq := CSeq.cseq (cseq_ headers); from_tag := tag;
           call_id := CallID.call_id (SipMessages.call_id headers); via_host_port := Via.sent_by v |})).

(** [TsxKey::from_message_parts] *)
Definition from_message_parts {Uri} (line : MessageLine Uri) (headers : BaseHeaders NameAddr)
    : exec (result HeaderError.t t) :=
  match line with
  | RequestL _ => from_headers headers Server
  | ResponseL _ => from_headers headers Client
  end.
End headers.
End TsxKey.

(** ** What keys tell apart *)
Lemma filter_method_eq m m' :
  TsxKey.filter_method m = TsxKey.filter_method m' <->
  m = m' \/ (m = Method.INVITE \/ m = Method.ACK) /\ (m' = Method.INVITE \/ m' = Method.ACK).
Proof. destruct m, m'; cbn; naive_solver. Qed.

Section keys.
Context {Uri NameAddr : Type}.
Implicit Types (b : BaseHeaders NameAddr) (l : MessageLine Uri).

(** The branch of the first Via header *)
Definition top_branch b : option str := v ← head (via b); Params.get_val (lit "branch") (Via.params v).
Definition magic b : bool := starts_with RFC3261_BRANCH_PREFIX (default [] (top_branch b)).
Definition line_role l : TsxKey.Role := if is_request_line l then TsxKey.Server else TsxKey.Client.

Lemma from_message_parts_spec l b v : head (via b) = Some v ->
  TsxKey.from_message_parts l b =
    Ret (let m := TsxKey.filter_method (CSeq.method (cseq_ b)) in
         if magic b then Ok (TsxKey.RFC3261 {| TsxKey.role := line_role l;
              TsxKey.branch_ := default [] (top_branch b); TsxKey.method := m |})
         else match FromTo.tag (from_ b) with
              | Some tag => Ok (TsxKey.RFC2543 {| TsxKey.role_ := line_role l; TsxKey.method_ := m;
                  TsxKey.cseq := CSeq.cseq (cseq_ b); TsxKey.from_tag := tag;
                  TsxKey.call_id := CallID.call_id (SipMessages.call_id b);
                  TsxKey.via_host_port := Via.sent_by v |})
              | None => Err (HeaderError.malformed_adhoc Name.From (lit "Missing Tag"))
              end).
Proof.
  intros Hv. unfold magic, top_branch, line_role. rewrite Hv. cbn.
  destruct l; cbn; unfold TsxKey.from_headers; rewrite Hv; cbn; by destruct (starts_with _ _), (FromTo.tag (from_ b)).
Qed.

(** *** Matching requests

    Section 17.2.3 of RFC 3261: a request belongs to the transaction that
    another has created. *)
Definition sent_by_of b : option HostPort.t := Via.sent_by <$> head (via b).
(** The method is the same, or it is the ACK for an INVITE. *)
Definition methods_match b b' : Prop :=
  CSeq.method (cseq_ b') = CSeq.method (cseq_ b) \/
  CSeq.method (cseq_ b) = Method.INVITE /\ CSeq.method (cseq_ b') = Method.ACK.
(** With the magic cookie: the same branch and sent-by *)
Definition rfc3261_match b b' : Prop :=
  magic b = true /\ magic b' = true /\ top_branch b' = top_branch b /\ sent_by_of b' = sent_by_of b /\ methods_match b b'.
(** Without it: the same Request-URI, From tag, Call-ID, number and first Via,
    and, unless it is the ACK, the same To tag; an ACK has the To tag of the
    response. *)
Definition rfc2543_match (r r' : RequestLine Uri) b b' : Prop :=
  magic b = false /\ magic b' = false /\ rl_uri r' = rl_uri r /\
  FromTo.tag (from_ b') = FromTo.tag (from_ b) /\ SipMessages.call_id b' = SipMessages.call_id b /\
  CSeq.cseq (cseq_ b') = CSeq.cseq (cseq_ b) /\ head (via b') = head (via b) /\ methods_match b b' /\
  (CSeq.method (cseq_ b') <> Method.ACK -> FromTo.tag (to b') = FromTo.tag (to b)).

Lemma methods_match_filter b b' : methods_match b b' ->
  TsxKey.filter_method (CSeq.method (cseq_ b)) = TsxKey.filter_method (CSeq.method (cseq_ b')).
Proof. intros [->|[-> ->]]; done. Qed.
Lemma filter_methods_match b b' :
  TsxKey.filter_method (CSeq.method (cseq_ b)) = TsxKey.filter_method (CSeq.method (cseq_ b')) ->
  methods_match b b' \/ methods_match b' b.
Proof. unfold methods_match. intros [->|[[-> | ->] [-> | ->]]]%filter_method_eq; tauto. Qed.

Lemma key_via l b k : TsxKey.from_message_parts l b = Ret (Ok k) -> exists v, head (via b) = Some v.
Proof.
  intros H. destruct l; cbn in H; unfold TsxKey.from_headers in H; (destruct (head (via b)); [eauto|discriminate]).
Qed.
Lemma key_role l b k : TsxKey.from_message_parts l b = Ret (Ok k) -> TsxKey.role_of k = line_role l.
Proof.
  intros H. destruct (key_via _ _ _ H) as [v Hv]. rewrite (from_message_parts_spec _ _ _ Hv) in H. cbv zeta in H.
  destruct (magic b); [by injection H as <-|]. destruct (FromTo.tag _); [by injection H as <-|done].
Qed.
Lemma magic_branch b : magic b = true -> top_branch b = Some (default [] (top_branch b)).
Proof. unfold magic. by destruct (top_branch b). Qed.

(** C35: How the keys of requests compare with the matching of RFC 3261, and with the one it keeps for RFC
    2543. No match is missed: a request that matches another, such as the ACK for the INVITE, or one that is
    sent again, has its key. Requests with the same key match, one way or the other, if they have also what
    the key leaves out: the sent-by of the first Via with the magic cookie, so that requests of two senders
    with the same branch get into one transaction; and without the cookie the Request-URI, the To tag and
    the rest of the first Via. A request never has the key of a response, and none without the cookie that
    of one with it. *)
Theorem transaction_keys (r r' : RequestLine Uri) b b' k k' :
  TsxKey.from_message_parts (RequestL r) b = Ret (Ok k) -> TsxKey.from_message_parts (RequestL r') b' = Ret (Ok k') ->
  (rfc3261_match b b' \/ rfc2543_match r r' b b' -> k = k') /\
  (k = k' -> magic b = magic b' /\
     (sent_by_of b' = sent_by_of b -> magic b = true -> rfc3261_match b b' \/ rfc3261_match b' b) /\
     (rl_uri r' = rl_uri r -> head (via b') = head (via b) -> FromTo.tag (to b') = FromTo.tag (to b) -> magic b = false ->
      rfc2543_match r r' b b' \/ rfc2543_match r' r b' b)) /\
  (magic b = true -> magic b' = true -> top_branch b' = top_branch b -> methods_match b b' -> k = k') /\
  (forall line b2 k2, TsxKey.from_message_parts (Uri := Uri) (ResponseL line) b2 = Ret (Ok k2) -> k <> k2).
Proof.
  intros H H'. pose proof (key_role _ _ _ H) as Hrole.
  destruct (key_via _ _ _ H) as [v Hv], (key_via _ _ _ H') as [v' Hv'].
  rewrite (from_message_parts_spec _ b v Hv) in H. rewrite (from_message_parts_spec _ b' v' Hv') in H'. cbv zeta in H, H'.
  assert (forall line b2 k2, TsxKey.from_message_parts (Uri := Uri) (ResponseL line) b2 = Ret (Ok k2) -> k <> k2) as Hresponse.
  { intros line b2 k2 H2%key_role ->. by rewrite H2 in Hrole. }
  assert (magic b = true -> magic b' = true -> top_branch b' = top_branch b -> methods_match b b' -> k = k') as Hloose.
  { intros M M' E Hm%methods_match_filter. rewrite M in H. rewrite M' in H'. injection H as <-. injection H' as <-. by rewrite E, Hm. }
  split; [|split; [|by split]].
  - intros [(M & M' & E & _ & Hm)|(M & M' & _ & E1 & E2 & E3 & E4 & Hm%methods_match_filter & _)]; [by apply Hloose|].
    rewrite M in H. rewrite M', E1, E2, E3, <-Hm in H'. rewrite Hv, Hv' in E4. injection E4 as ->.
    destruct (FromTo.tag (from_ b)); [|done]. injection H as <-. by injection H' as <-.
  - intros <-. unfold rfc3261_match, rfc2543_match. destruct (magic b) eqn:M, (magic b') eqn:M'.
    + injection H as <-. injection H' as E Hm. apply eq_sym, filter_methods_match in Hm. rewrite (magic_branch _ M), (magic_branch _ M'), E.
      split; [done|]. split; [|done]. intros Hs _. destruct Hm as [Hm|Hm]; [left|right]; by repeat split.
    + injection H as <-. by destruct (FromTo.tag (from_ b')).
    + injection H' as <-. by destruct (FromTo.tag (from_ b)).
    + destruct (FromTo.tag (from_ b)) as [x|] eqn:Ex; [|done]. destruct (FromTo.tag (from_ b')) as [x'|] eqn:Ex'; [|done].
      injection H as <-. injection H' as Hm Ec Et Ei _. apply eq_sym, filter_methods_match in Hm.
      destruct (SipMessages.call_id b) as [c], (SipMessages.call_id b') as [c']. cbn in Ei.
      split; [done|]. split; [done|]. intros Hu Hvia Hto _. destruct Hm as [Hm|Hm]; [left|right]; repeat split; congruence.
Qed.

(** The response to a request finds the transaction that sent it: a response
    whose first Via header is the one created for a new key, and whose CSeq
    has the method of the request, has that key, whatever the host, the other
    headers and further parameters of the Via header (as [received] and
    [rport]) are. *)
Theorem response_finds_transaction (line : StatusLine) random m transport host_port more vias b :
  via b = {| Via.transport := transport; Via.sent_by := host_port;
             Via.params := Via.params (Via.new transport host_port (TsxKey.branch (TsxKey.client random m))) ++ more |}
          :: vias ->
  CSeq.method (cseq_ b) = m ->
  TsxKey.from_message_parts (Uri := Uri) (ResponseL line) b = Ret (Ok (TsxKey.client random m)).
Proof.
  intros Hv Hm. erewrite from_message_parts_spec by (by rewrite Hv).
  assert (top_branch b = Some (generate_branch random)) as Hb by (unfold top_branch; by rewrite Hv).
  unfold magic. rewrite Hb. cbv zeta.
  change (default [] (Some (generate_branch random))) with (RFC3261_BRANCH_PREFIX ++ random).
  rewrite starts_with_app, Hm. done.
Qed.
End keys.

(** ** Examples *)
Definition sample_base (method : Method.t) (branch : str) : BaseHeaders unit :=
  {| via := [Via.new (lit "UDP") (HostPort.host_name (lit "a.example")) branch];
     from_ := {| FromTo.uri := tt; FromTo.tag := Some (lit "1"); FromTo.params := [] |};
     to := {| FromTo.uri := tt; FromTo.tag := None; FromTo.params := [] |};
     call_id := {| CallID.call_id := lit "c@a" |};
     cseq_ := {| CSeq.cseq := 1; CSeq.method := method |} |}.
Definition sample_request_line (m : Method.t) : MessageLine unit := RequestL {| rl_method := m; rl_uri := tt |}.

(** The ACK has the key of the INVITE. *)
Lemma transaction_keys_witness :
  (exists k, TsxKey.from_message_parts (sample_request_line Method.INVITE) (sample_base Method.INVITE (lit "z9hG4bK1")) = Ret (Ok k) /\
     TsxKey.from_message_parts (sample_request_line Method.ACK) (sample_base Method.ACK (lit "z9hG4bK1")) = Ret (Ok k)) /\
  rfc3261_match (sample_base Method.INVITE (lit "z9hG4bK1")) (sample_base Method.ACK (lit "z9hG4bK1")).
Proof.
  assert (rfc3261_match (sample_base Method.INVITE (lit "z9hG4bK1")) (sample_base Method.ACK (lit "z9hG4bK1"))) as Hm.
  { repeat split. right. split; reflexivity. }
  split; [|exact Hm].
  destruct (TsxKey.from_message_parts (sample_request_line Method.INVITE) (sample_base Method.INVITE (lit "z9hG4bK1")))
    as [[k|]|] eqn:E; [|discriminate..].
  destruct (TsxKey.from_message_parts (sample_request_line Method.ACK) (sample_base Method.ACK (lit "z9hG4bK1")))
    as [[k'|]|] eqn:E'; [|discriminate..].
  exists k. split; [reflexivity|].
  rewrite (proj1 (transaction_keys {| rl_method := Method.INVITE; rl_uri := tt |} {| rl_method := Method.ACK; rl_uri := tt |} _ _ k k' E E')
    (or_introl Hm)). reflexivity.
Defined.

Lemma response_finds_transaction_witness :
  TsxKey.from_message_parts (Uri := unit) (ResponseL {| sl_code := StatusCode.OK; sl_reason := None |})
    (sample_base Method.BYE (lit "z9hG4bKabc")) = Ret (Ok (TsxKey.client (lit "abc") Method.BYE)).
Proof.
  apply (response_finds_transaction _ (lit "abc") Method.BYE (lit "UDP") (HostPort.host_name (lit "a.example")) [] []); done.
Defined.
