(* ===== verification/SipTransactions.v ===== *)
(** * The registry of transactions and the endpoint
    (sip-core/src/transaction/mod.rs, registration.rs, endpoint.rs)

    The map from keys to handlers, the channels from handlers to
    transactions, and what the endpoint does with a message it receives. A
    channel is the queue of messages its receiver has not taken; it is gone
    when its receiver is. Layers are functions on requests; what they and the
    transactions do with the endpoint are further steps of the system. *)
From stdpp Require Import gmap.
From S2P Require Import Prelude Text StunAttr IceStun SipNames SipHeaders SipFraming SipMessages SipKeys.

Section transactions.
Context {Uri NameAddr Tp : Type}.

Record TsxMessage := {
  tm_tp_info : MessageTpInfo Tp;
  tm_line : MessageLine Uri;
  tm_base_headers : BaseHeaders NameAddr;
  tm_headers : Headers.t;
  tm_body : list byte }.

(** Handlers: the closure that sends to a channel, and the one [add_filter]
    puts around a handler. *)
Inductive TsxHandler :=
| SendTo (channel : nat)
| Filter (filter : TsxMessage -> bool) (old_handler : TsxHandler).

(** [Transactions], with the channels; [next] is the next channel. *)
Record Transactions := {
  map : gmap TsxKey.t TsxHandler;
  channels : gmap nat (list TsxMessage);
  next : nat }.

Definition no_transactions : Transactions := {| map := ∅; channels := ∅; next := 0 |}.

(** [TsxRegistration] *)
Record TsxRegistration := { tsx_key : TsxKey.t; receiver : nat }.

Definition set_map (m : gmap TsxKey.t TsxHandler) (s : Transactions) : Transactions :=
  {| map := m; channels := channels s; next := next s |}.
Definition set_channels (c : gmap nat (list TsxMessage)) (s : Transactions) : Transactions :=
  {| map := map s; channels := c; next := next s |}.

(** [mpsc::unbounded_channel] *)
Definition unbounded_channel (s : Transactions) : nat * Transactions :=
  (next s, {| map := map s; channels := <[next s := []]> (channels s); next := S (next s) |}).

(** A call of a handler; it returns a message it does not take. *)
Fixpoint call (handler : TsxHandler) (msg : TsxMessage) (s : Transactions) : option TsxMessage * Transactions :=
  match handler with
  | SendTo channel =>
      match channels s !! channel with
      | Some queue => (None, set_channels (<[channel := queue ++ [msg]]> (channels s)) s)
      | None => (Some msg, s)
      end
  | Filter filter old_handler => if filter msg then call old_handler msg s else (Some msg, s)
  end.

(** [Transactions::get_handler] *)
Definition get_handler (key : TsxKey.t) (s : Transactions) : result TsxRegistration TsxHandler * Transactions :=
  match map s !! key with
  | Some handler => (Ok handler, s)
  | None =>
      let '(channel, s) := unbounded_channel s in
      (Err {| tsx_key := key; receiver := channel |}, set_map (<[key := SendTo channel]> (map s)) s)
  end.

(** [Transactions::register_transaction] *)
Definition register_transaction (key : TsxKey.t) (handler : TsxHandler) (s : Transactions) : exec Transactions :=
  match map s !! key with
  | Some _ => Panic
  | None => Ret (set_map (<[key := handler]> (map s)) s)
  end.

(** [Transactions::remove_transaction] *)
Definition remove_transaction (key : TsxKey.t) (s : Transactions) : Transactions :=
  set_map (delete key (map s)) s.

(** [TsxRegistration::create] *)
Definition create (key : TsxKey.t) (s : Transactions) : exec (TsxRegistration * Transactions) :=
  let '(channel, s) := unbounded_channel s in
  s ← register_transaction key (SendTo channel) s;
  Ret ({| tsx_key := key; receiver := channel |}, s).

(** [TsxRegistration::add_filter] *)
Definition add_filter (reg : TsxRegistration) (filter : TsxMessage -> bool) (s : Transactions) : exec Transactions :=
  old_handler ← unwrap (map s !! tsx_key reg);
  Ret (set_map (<[tsx_key reg := Filter filter old_handler]> (map s)) s).

(** The channel a handler holds the sender of *)
Fixpoint sender (handler : TsxHandler) : nat :=
  match handler with SendTo channel => channel | Filter _ old_handler => sender old_handler end.

(** [TsxRegistration::receive] at the moment it is polled: the next message,
    or nothing when it has to wait; it panics when no sender is left. *)
Definition receive (reg : TsxRegistration) (s : Transactions) : exec (option TsxMessage * Transactions) :=
  match channels s !! receiver reg with
  | Some (msg :: queue) => Ret (Some msg, set_channels (<[receiver reg := queue]> (channels s)) s)
  | _ =>
      if existsb (fun kh => bool_decide (sender kh.2 = receiver reg)) (map_to_list (map s))
      then Ret (None, s) else Panic
  end.

(** [receive_response]: requests are left out. *)
Fixpoint receive_response_loop (fuel : nat) (reg : TsxRegistration) (s : Transactions)
    : exec (option TsxMessage * Transactions) :=
  match fuel with
  | O => Panic
  | S fuel =>
      '(msg, s) ← receive reg s;
      match msg with
      | None => Ret (None, s)
      | Some msg =>
          if is_request_line (tm_line msg) then receive_response_loop fuel reg s else Ret (Some msg, s)
      end
  end.
Definition receive_response (reg : TsxRegistration) (s : Transactions) : exec (option TsxMessage * Transactions) :=
  receive_response_loop (S (length (default [] (channels s !! receiver reg)))) reg s.

(** The drop of a [TsxRegistration]: the handler is removed, and the receiver
    dropped with the registration. *)
Definition drop_registration (reg : TsxRegistration) (s : Transactions) : Transactions :=
  let s := remove_transaction (tsx_key reg) s in
  set_channels (delete (receiver reg) (channels s)) s.

(** ** The endpoint *)

(** [IncomingRequest] *)
Record IncomingRequest := {
  ir_tp_info : MessageTpInfo Tp;
  ir_tsx_key : TsxKey.t;
  ir_tsx : option TsxRegistration;
  ir_line : RequestLine Uri;
  ir_base_headers : BaseHeaders NameAddr;
  ir_headers : Headers.t;
  ir_body : list byte }.

(** [IncomingRequest::take_tsx_registration] *)
Definition take_tsx_registration (request : IncomingRequest) : exec TsxRegistration := unwrap (ir_tsx request).

(** [ServerInvTsx::new] and [ServerTsx::new] *)
Definition create_server_inv_tsx (request : IncomingRequest) : exec TsxRegistration :=
  if decide (rl_method (ir_line request) = Method.INVITE) then take_tsx_registration request else Panic.
Definition create_server_tsx (request : IncomingRequest) : exec TsxRegistration :=
  if decide (rl_method (ir_line request) = Method.INVITE \/ rl_method (ir_line request) = Method.ACK) then Panic
  else take_tsx_registration request.

Context `{HeaderParse Via.t, ExtendValues Via.t}.
Context `{DecodeValues (FromTo.t NameAddr), ExtendValues (FromTo.t NameAddr)}.
Context `{DecodeValues CSeq.t}.
Context (ip_to_string : IpAddr -> str) (ip_from_str : str -> option IpAddr).
Context (direction : Tp -> Direction).

(** A layer gets a request and may take it. *)
Context (layers : list (IncomingRequest -> option IncomingRequest)).

(** What becomes of a received message. *)
Inductive Outcome :=
| NoBaseHeaders (e : HeaderError.t)
| NoTsxKey (e : HeaderError.t)
| Delegated
| Orphaned
| Taken (request : IncomingRequest)
| Unhandled
| Refused (tsx : TsxRegistration) (response : OutgoingResponse Tp).

(** The loop over the layers: the request a layer has taken, or the request
    that is left. *)
Fixpoint offer (ls : list (IncomingRequest -> option IncomingRequest)) (request : IncomingRequest)
    : IncomingRequest + IncomingRequest :=
  match ls with
  | [] => inr request
  | layer :: ls => match layer request with Some request => offer ls request | None => inl request end
  end.

(** A registration that goes out of scope *)
Definition drop_option (tsx : option TsxRegistration) (s : Transactions) : Transactions :=
  match tsx with Some reg => drop_registration reg s | None => s end.

(** [Endpoint::handle_unwanted_request] up to the transaction's response *)
Definition handle_unwanted_request (request : IncomingRequest) (s : Transactions) : exec (Outcome * Transactions) :=
  if decide (rl_method (ir_line request) = Method.ACK) then Ret (Unhandled, drop_option (ir_tsx request) s)
  else
    response ← create_response ip_from_str direction (ir_line request) (ir_base_headers request) (ir_headers request)
                 (ir_tp_info request) StatusCode.CALL_OR_TRANSACTION_DOES_NOT_EXIST None;
    tsx ← if decide (rl_method (ir_line request) = Method.INVITE) then create_server_inv_tsx request
          else create_server_tsx request;
    Ret (Refused tsx response, s).

(** The first Via header of a request gets the source of the message. *)
Definition note_source (message : ReceivedMessage Uri Tp) (base : BaseHeaders NameAddr) : exec (BaseHeaders NameAddr) :=
  if is_request_line (rm_line message) then
    match via base with
    | [] => Panic
    | v :: vs => Ret {|
        via := add_received_rport ip_to_string v (source (rm_tp_info message)) :: vs;
        from_ := from_ base; to := to base; call_id := call_id base; cseq_ := cseq_ base |}
    end
  else Ret base.

(** [Endpoint::do_receive] *)
Definition do_receive (message : ReceivedMessage Uri Tp) (s : Transactions)
    : exec (Outcome * Transactions) :=
  match extract_from (NameAddr := NameAddr) (rm_headers message) with
  | Err e => Ret (NoBaseHeaders e, s)
  | Ok base =>
      base ← note_source message base;
      key ← TsxKey.from_message_parts (rm_line message) base;
      match key with
      | Err e => Ret (NoTsxKey e, s)
      | Ok key =>
          let '(handler, s) := get_handler key s in
          let msg := {| tm_tp_info := rm_tp_info message; tm_line := rm_line message; tm_base_headers := base;
                        tm_headers := rm_headers message; tm_body := rm_body message |} in
          let '(rejected, tsx, s) :=
            match handler with
            | Ok handler => let '(rejected, s) := call handler msg s in (rejected, None, s)
            | Err registration => (Some msg, Some registration, s)
            end in
          match rejected with
          | None => Ret (Delegated, s)
          | Some msg =>
              match tm_line msg with
              | ResponseL _ => Ret (Orphaned, drop_option tsx s)
              | RequestL line =>
                  match offer layers {|
                    ir_tp_info := tm_tp_info msg; ir_tsx_key := key; ir_tsx := tsx; ir_line := line;
                    ir_base_headers := tm_base_headers msg; ir_headers := tm_headers msg; ir_body := tm_body msg |} with
                  | inl request => Ret (Taken request, s)
                  | inr request => handle_unwanted_request request s
                  end
              end
          end
      end
  end.
End transactions.
Arguments TsxMessage : clear implicits.
Arguments TsxHandler : clear implicits.
Arguments Transactions : clear implicits.
Arguments IncomingRequest : clear implicits.
Arguments Outcome : clear implicits.

(** ** The registry in a running system

    A system is the registry and the registrations that are alive: owned by a
    transaction, by a request a layer has taken, or by a spawned task. *)
Section registry.
Context {Uri NameAddr Tp : Type}.
#[local] Abbreviation Transactions := (Transactions Uri NameAddr Tp).
#[local] Abbreviation TsxHandler := (TsxHandler Uri NameAddr Tp).
#[local] Abbreviation TsxMessage := (TsxMessage Uri NameAddr Tp).
Context `{HeaderParse Via.t, ExtendValues Via.t}.
Context `{DecodeValues (FromTo.t NameAddr), ExtendValues (FromTo.t NameAddr)}.
Context `{DecodeValues CSeq.t}.
Context (ip_to_string : IpAddr -> str) (ip_from_str : str -> option IpAddr).
Context (direction : Tp -> Direction).
Context (layers : list (IncomingRequest Uri NameAddr Tp -> option (IncomingRequest Uri NameAddr Tp))).
#[local] Abbreviation do_receive := (do_receive ip_to_string ip_from_str direction layers).

Record System := { registry : Transactions; live : list TsxRegistration }.

Definition initial : System := {| registry := no_transactions; live := [] |}.

(** The registration a received message leaves behind *)
Definition outcome_tsx (o : Outcome Uri NameAddr Tp) : list TsxRegistration :=
  match o with
  | Taken request => match ir_tsx request with Some tsx => [tsx] | None => [] end
  | Refused tsx _ => [tsx]
  | _ => []
  end.

(** A message that is not an ACK passes a filter. *)
Definition ack_filter (filter : TsxMessage -> bool) : Prop :=
  forall msg, request_method (tm_line msg) <> Some Method.ACK -> filter msg = true.

(** The filter of [ServerInvTsx::respond_success] *)
Definition success_filter (msg : TsxMessage) : bool :=
  negb (bool_decide (request_method (tm_line msg) = Some Method.ACK)).

(** The steps: the endpoint receives a message; a transaction registers under
    a new key; an accepted INVITE filters ACKs; a transaction takes its next
    message; a registration is dropped. *)
Inductive step : System -> System -> Prop :=
| StepReceive s l message o s' : do_receive message s = Ret (o, s') ->
    step {| registry := s; live := l |} {| registry := s'; live := outcome_tsx o ++ l |}
| StepCreate s l key reg s' : create key s = Ret (reg, s') ->
    step {| registry := s; live := l |} {| registry := s'; live := reg :: l |}
| StepFilter s l reg filter s' : reg ∈ l -> ack_filter filter -> add_filter reg filter s = Ret s' ->
    step {| registry := s; live := l |} {| registry := s'; live := l |}
| StepTake s l reg msg s' : reg ∈ l -> receive reg s = Ret (msg, s') ->
    step {| registry := s; live := l |} {| registry := s'; live := l |}
| StepDrop s l1 reg l2 :
    step {| registry := s; live := l1 ++ reg :: l2 |} {| registry := drop_registration reg s; live := l1 ++ l2 |}.

Inductive reachable : System -> Prop :=
| ReachInitial : reachable initial
| ReachStep s s' : reachable s -> step s s' -> reachable s'.

(** All filters of a handler are filters of ACKs. *)
Fixpoint ack_filters (h : TsxHandler) : Prop :=
  match h with SendTo _ => True | Filter f h => ack_filter f /\ ack_filters h end.

(** The registry holds exactly the live registrations: one handler for each
    key, which sends to the channel of its registration, and one open channel
    for each registration. *)
Record registry_ok (s : Transactions) (l : list TsxRegistration) : Prop := {
  ok_keys : NoDup (tsx_key <$> l);
  ok_receivers : NoDup (receiver <$> l);
  ok_handlers : forall k h, map s !! k = Some h ->
    ack_filters h /\ exists reg, reg ∈ l /\ tsx_key reg = k /\ sender h = receiver reg;
  ok_live : forall reg, reg ∈ l -> is_Some (map s !! tsx_key reg) /\ is_Some (channels s !! receiver reg);
  ok_channels : forall c q, channels s !! c = Some q -> c < next s /\ exists reg, reg ∈ l /\ receiver reg = c }.

Lemma no_transactions_ok : registry_ok no_transactions [].
Proof.
  split; cbn; [constructor|constructor| | |].
  - intros k h Hk. by rewrite lookup_empty in Hk.
  - intros reg Hr. by apply elem_of_nil in Hr.
  - intros c q Hc. by rewrite lookup_empty in Hc.
Qed.

Section lemmas.
Context (s : Transactions) (l : list TsxRegistration) (Hok : registry_ok s l).

Lemma ok_key_eq reg reg' : reg ∈ l -> reg' ∈ l -> tsx_key reg = tsx_key reg' -> reg = reg'.
Proof. apply NoDup_field_eq, (ok_keys _ _ Hok). Qed.
Lemma ok_receiver_eq reg reg' : reg ∈ l -> reg' ∈ l -> receiver reg = receiver reg' -> reg = reg'.
Proof. apply NoDup_field_eq, (ok_receivers _ _ Hok). Qed.

(** The handler of a live registration *)
Lemma live_handler reg : reg ∈ l -> exists h q,
  map s !! tsx_key reg = Some h /\ sender h = receiver reg /\ ack_filters h /\
  channels s !! receiver reg = Some q /\ receiver reg < next s.
Proof.
  intros Hr. destruct (ok_live _ _ Hok reg Hr) as [[h Hh] [q Hq]].
  destruct (ok_handlers _ _ Hok _ _ Hh) as (Hf & reg' & Hr' & Hk & Hs).
  rewrite (ok_key_eq reg' reg Hr' Hr Hk) in Hs.
  destruct (ok_channels _ _ Hok _ _ Hq) as [Hlt _]. eauto 10.
Qed.

Lemma key_free key : map s !! key = None <-> forall reg, reg ∈ l -> tsx_key reg <> key.
Proof.
  split.
  - intros Hn reg Hr <-. destruct (live_handler reg Hr) as (h & _ & Hh & _). congruence.
  - intros Hf. destruct (map s !! key) as [h|] eqn:E; [|done].
    destruct (ok_handlers _ _ Hok _ _ E) as (_ & reg & Hr & Hk & _). by destruct (Hf reg Hr).
Qed.

Lemma fresh_channel : channels s !! next s = None.
Proof.
  destruct (channels s !! next s) eqn:E; [|done]. apply (ok_channels _ _ Hok) in E as [Hlt _]. lia.
Qed.

(** A new registration *)
Lemma register_ok key : map s !! key = None ->
  registry_ok {| map := <[key := SendTo (next s)]> (map s); channels := <[next s := []]> (channels s); next := S (next s) |}
    ({| tsx_key := key; receiver := next s |} :: l).
Proof.
  intros Hn. pose proof fresh_channel as Hc. split; cbn [fmap list_fmap tsx_key receiver map channels next].
  - apply NoDup_cons. split; [|apply (ok_keys _ _ Hok)].
    intros (reg & Hk & Hr)%list_elem_of_fmap. by apply (proj1 (key_free key) Hn reg Hr).
  - apply NoDup_cons. split; [|apply (ok_receivers _ _ Hok)].
    intros (reg & Hk & Hr)%list_elem_of_fmap. destruct (live_handler reg Hr) as (_ & q & _ & _ & _ & Hq & _).
    rewrite <-Hk in Hq. congruence.
  - intros k h [[<- <-]|[Hne Hh]]%lookup_insert_Some.
    + split; [done|]. eexists. split; [left|done].
    + destruct (ok_handlers _ _ Hok _ _ Hh) as (Hf & reg & Hr & ?). split; [done|]. exists reg. split; [by right|done].
  - intros reg [->|Hr]%elem_of_cons; cbn; [by rewrite !lookup_insert_eq|].
    destruct (ok_live _ _ Hok reg Hr) as [Hm Hq]. split; apply lookup_insert_is_Some'; by right.
  - intros c q [[<- <-]|[Hne Hq]]%lookup_insert_Some.
    + split; [lia|]. eexists. split; [left|done].
    + destruct (ok_channels _ _ Hok _ _ Hq) as (Hlt & reg & Hr & ?). split; [lia|]. exists reg. split; [by right|done].
Qed.

(** A change of the queue of an open channel *)
Lemma queue_ok c q q' : channels s !! c = Some q -> registry_ok (set_channels (<[c := q']> (channels s)) s) l.
Proof.
  intros Hq. destruct Hok as [H1' H2' H3' H4' H5']. split; cbn; try done.
  - intros reg Hr. destruct (H4' reg Hr). split; [done|]. apply lookup_insert_is_Some'. by right.
  - intros c' x [[<- <-]|[Hne Hx]]%lookup_insert_Some; eauto.
Qed.

(** A filter in front of a live handler *)
Lemma filter_ok reg f h : reg ∈ l -> ack_filter f -> map s !! tsx_key reg = Some h ->
  registry_ok (set_map (<[tsx_key reg := Filter f h]> (map s)) s) l.
Proof.
  intros Hr Hf Hh. destruct (ok_handlers _ _ Hok _ _ Hh) as (Hfs & reg' & Hr' & Hk & Hs).
  pose proof (ok_key_eq reg' reg Hr' Hr Hk) as ->. destruct Hok as [H1' H2' H3' H4' H5']. split; cbn; try done.
  - intros k x [[<- <-]|[Hne Hx]]%lookup_insert_Some; [|eauto]. split; [by split|]. by exists reg.
  - intros reg'' Hr''. destruct (H4' reg'' Hr''). split; [|done]. apply lookup_insert_is_Some'. by right.
Qed.
End lemmas.

(** The drop of a registration *)
Lemma drop_ok s l1 reg l2 : registry_ok s (l1 ++ reg :: l2) -> registry_ok (drop_registration reg s) (l1 ++ l2).
Proof.
  intros Hok. assert (forall r, r ∈ l1 ++ l2 -> r ∈ l1 ++ reg :: l2) as Hin.
  { intros r. rewrite !elem_of_app, elem_of_cons. tauto. }
  assert (reg ∈ l1 ++ reg :: l2) as Hreg by (rewrite elem_of_app, elem_of_cons; tauto).
  assert (reg ∉ l1 ++ l2) as Hni.
  { pose proof (ok_keys _ _ Hok) as Hnd. intros Hx. rewrite fmap_app, fmap_cons in Hnd.
    rewrite <-Permutation_middle in Hnd. apply NoDup_cons in Hnd as [Hnd _]. apply Hnd.
    rewrite <-fmap_app. by apply list_elem_of_fmap_2. }
  assert (forall r, r ∈ l1 ++ l2 -> tsx_key r <> tsx_key reg /\ receiver r <> receiver reg) as Hne.
  { intros r Hr. split; intros E; apply Hni.
    - by rewrite <-(ok_key_eq _ _ Hok r reg (Hin r Hr) Hreg E).
    - by rewrite <-(ok_receiver_eq _ _ Hok r reg (Hin r Hr) Hreg E). }
  assert (forall r, r ∈ l1 ++ reg :: l2 -> r = reg \/ r ∈ l1 ++ l2) as Hinv.
  { intros r. rewrite !elem_of_app, elem_of_cons. tauto. }
  pose proof Hok as [H1' H2' H3' H4' H5']. split; cbn.
  - rewrite fmap_app, fmap_cons, <-Permutation_middle in H1'. apply NoDup_cons in H1' as [_ H1'].
    by rewrite fmap_app.
  - rewrite fmap_app, fmap_cons, <-Permutation_middle in H2'. apply NoDup_cons in H2' as [_ H2'].
    by rewrite fmap_app.
  - intros k h [Hk Hh]%lookup_delete_Some. destruct (H3' k h Hh) as (Hf & r & Hr & Ek & Es).
    split; [done|]. exists r. split; [|done]. destruct (Hinv r Hr) as [->|]; [congruence|done].
  - intros r Hr. destruct (Hne r Hr) as [E1 E2]. rewrite !lookup_delete_ne by congruence. auto.
  - intros c q [Hc Hq]%lookup_delete_Some. destruct (H5' c q Hq) as (Hlt & r & Hr & Er).
    split; [done|]. exists r. split; [|done]. destruct (Hinv r Hr) as [->|]; [congruence|done].
Qed.
(** ** Receiving *)

(** A message passes the filters of a handler. *)
Fixpoint accepts (h : TsxHandler) (msg : TsxMessage) : bool :=
  match h with SendTo _ => true | Filter f h => f msg && accepts h msg end.

Lemma accepts_other h msg : ack_filters h -> request_method (tm_line msg) <> Some Method.ACK -> accepts h msg = true.
Proof. induction h as [|f h IH]; intros Hf Hm; [done|]. destruct Hf as [Hf Hfs]. cbn. by rewrite Hf, IH. Qed.

Lemma call_spec h msg (s : Transactions) q : channels s !! sender h = Some q ->
  call h msg s = if accepts h msg then (None, set_channels (<[sender h := q ++ [msg]]> (channels s)) s)
                 else (Some msg, s).
Proof. induction h as [c|f h IH]; intros Hq; cbn in *; [by rewrite Hq|]. destruct (f msg); cbn; [by apply IH|done]. Qed.

Lemma get_handler_new key (s : Transactions) : map s !! key = None ->
  get_handler key s = (Err {| tsx_key := key; receiver := next s |},
    {| map := <[key := SendTo (next s)]> (map s); channels := <[next s := []]> (channels s); next := S (next s) |}).
Proof. intros Hn. unfold get_handler. by rewrite Hn. Qed.

(** Creating a registration and dropping it leaves the registry as it was, up
    to the number of the next channel. *)
Lemma register_drop key (s : Transactions) l : registry_ok s l -> map s !! key = None ->
  drop_registration {| tsx_key := key; receiver := next s |}
    {| map := <[key := SendTo (next s)]> (map s); channels := <[next s := []]> (channels s); next := S (next s) |} =
  {| map := map s; channels := channels s; next := S (next s) |}.
Proof.
  intros Hok Hn. unfold drop_registration, remove_transaction, set_map, set_channels. cbn.
  by rewrite !delete_insert_eq, !delete_id by first [done|by apply (fresh_channel s l)].
Qed.

Lemma create_response_total line (base : BaseHeaders NameAddr) headers (tpi : MessageTpInfo Tp) code reason :
  rl_method line <> Method.ACK -> via base <> [] ->
  exists response, create_response ip_from_str direction (Uri := Uri) line base headers tpi code reason = Ret response /\
    sl_code (rs_line (os_msg response)) = code.
Proof.
  intros Hm Hv. unfold create_response. rewrite decide_False by done.
  unfold Headers.insert_multiple. destruct (via base) as [|v vs]; [done|].
  cbn [Headers.update_entry Headers.new Headers.entries create_multiple mbind exec_bind head unwrap].
  by eexists.
Qed.

(** What a layer leaves of a request it does not take: the registration and
    the method, and a first Via header. *)
Definition layer_ok (layer : IncomingRequest Uri NameAddr Tp -> option (IncomingRequest Uri NameAddr Tp)) : Prop :=
  forall r r', layer r = Some r' ->
    ir_tsx r' = ir_tsx r /\ rl_method (ir_line r') = rl_method (ir_line r) /\
    (via (ir_base_headers r) <> [] -> via (ir_base_headers r') <> []).

Context (Hlayers : Forall layer_ok layers).

Lemma offer_spec r : let r' := match offer layers r with inl r' | inr r' => r' end in
  ir_tsx r' = ir_tsx r /\ rl_method (ir_line r') = rl_method (ir_line r) /\
  (via (ir_base_headers r) <> [] -> via (ir_base_headers r') <> []).
Proof.
  revert r. induction Hlayers as [|layer ls Hl _ IH]; intros r; cbn; [done|].
  destruct (layer r) as [r1|] eqn:E; [|done]. destruct (Hl r r1 E) as (E1 & E2 & E3).
  destruct (IH ltac:(by inversion Hlayers) r1) as (F1 & F2 & F3). repeat split; [congruence|congruence|auto].
Qed.

Lemma note_source_spec (message : ReceivedMessage Uri Tp) (base : BaseHeaders NameAddr) : via base <> [] ->
  exists base', note_source ip_to_string message base = Ret base' /\ via base' <> [] /\
    from_ base' = from_ base /\ call_id base' = call_id base /\ cseq_ base' = cseq_ base.
Proof.
  intros Hv. unfold note_source. destruct (is_request_line (rm_line message)).
  - destruct (via base); [done|]. eexists. split; [reflexivity|done].
  - exists base. done.
Qed.

(** The layers [ls] get the request one after the other, each what the one before it has left of it, and none of
    them takes it. *)
Inductive passed_on : list (IncomingRequest Uri NameAddr Tp -> option (IncomingRequest Uri NameAddr Tp)) ->
    IncomingRequest Uri NameAddr Tp -> IncomingRequest Uri NameAddr Tp -> Prop :=
| passed_nil r : passed_on [] r r
| passed_cons layer ls r r1 r2 : layer r = Some r1 -> passed_on ls r1 r2 -> passed_on (layer :: ls) r r2.

(** A layer takes the request, after those in front of it have passed it on. *)
Definition taken_by (r r' : IncomingRequest Uri NameAddr Tp) : Prop :=
  exists before layer behind, layers = before ++ layer :: behind /\ passed_on before r r' /\ layer r' = None.

(** What the layers have done with the request *)
Definition asked (r : IncomingRequest Uri NameAddr Tp) (o : Outcome Uri NameAddr Tp) : Prop :=
  match o with
  | Taken r' => taken_by r r'
  | Unhandled => exists r', passed_on layers r r'
  | Refused _ response => exists r', passed_on layers r r' /\
      create_response ip_from_str direction (ir_line r') (ir_base_headers r') (ir_headers r') (ir_tp_info r')
        StatusCode.CALL_OR_TRANSACTION_DOES_NOT_EXIST None = Ret response
  | _ => False
  end.

Lemma offer_asks ls r : match offer ls r with
  | inl r' => exists before layer behind, ls = before ++ layer :: behind /\ passed_on before r r' /\ layer r' = None
  | inr r' => passed_on ls r r'
  end.
Proof.
  revert r. induction ls as [|layer ls IH]; intros r; cbn; [constructor|]. destruct (layer r) as [r1|] eqn:E.
  - specialize (IH r1). destruct (offer ls r1) as [r'|r']; [|by eapply passed_cons].
    destruct IH as (before & layer' & behind & -> & Hp & Ht). exists (layer :: before), layer', behind.
    split; [done|]. split; [by eapply passed_cons|done].
  - exists [], layer, ls. split; [done|]. split; [constructor|done].
Qed.

(** A request that no transaction takes goes to the layers. *)
Lemma new_request_spec r (s : Transactions) : via (ir_base_headers r) <> [] ->
  (ir_tsx r = None -> rl_method (ir_line r) = Method.ACK) ->
  exists o s', match offer layers r with
               | inl request => Ret (Taken request, s)
               | inr request => handle_unwanted_request ip_from_str direction request s
               end = Ret (o, s') /\ asked r o /\
    match o with
    | Taken request => ir_tsx request = ir_tsx r /\ s' = s
    | Refused tsx response => ir_tsx r = Some tsx /\ rl_method (ir_line r) <> Method.ACK /\ s' = s /\
        sl_code (rs_line (os_msg response)) = StatusCode.CALL_OR_TRANSACTION_DOES_NOT_EXIST
    | Unhandled => rl_method (ir_line r) = Method.ACK /\ s' = drop_option (ir_tsx r) s
    | _ => False
    end.
Proof.
  intros Hv Ha. pose proof (offer_spec r) as Ho. pose proof (offer_asks layers r) as Hasked.
  destruct (offer layers r) as [r'|r']; destruct Ho as (E1 & E2 & E3).
  { eexists _, _. split; [done|]. split; [exact Hasked|done]. }
  unfold handle_unwanted_request. destruct (decide (rl_method (ir_line r') = Method.ACK)) as [Hm|Hm].
  { eexists _, _. split; [done|]. split; [by exists r'|]. rewrite E1. split; [congruence|done]. }
  destruct (create_response_total (ir_line r') (ir_base_headers r') (ir_headers r') (ir_tp_info r')
    StatusCode.CALL_OR_TRANSACTION_DOES_NOT_EXIST None Hm (E3 Hv)) as (response & Er & Hc). rewrite Er. cbn [mbind exec_bind].
  destruct (ir_tsx r) as [tsx|] eqn:Et; [|by rewrite E2, Ha in Hm].
  unfold create_server_inv_tsx, create_server_tsx, take_tsx_registration. rewrite E1.
  exists (Refused tsx response), s. rewrite E2 in Hm. split; [|split; [by exists r'|done]].
  destruct (decide (rl_method (ir_line r') = Method.INVITE)); [done|].
  rewrite decide_False; [done|]. rewrite E2 in *. tauto.
Qed.
(** What the endpoint hands to a transaction *)
Definition tsx_message (message : ReceivedMessage Uri Tp) (base : BaseHeaders NameAddr) : TsxMessage :=
  {| tm_tp_info := rm_tp_info message; tm_line := rm_line message; tm_base_headers := base;
     tm_headers := rm_headers message; tm_body := rm_body message |}.

(** and to the layers *)
Definition incoming (message : ReceivedMessage Uri Tp) (base : BaseHeaders NameAddr) key tsx line
    : IncomingRequest Uri NameAddr Tp :=
  {| ir_tp_info := rm_tp_info message; ir_tsx_key := key; ir_tsx := tsx; ir_line := line;
     ir_base_headers := base; ir_headers := rm_headers message; ir_body := rm_body message |}.

(** The result of [do_receive], by cases; the registry is one that is well
    formed. *)
Definition receive_spec (message : ReceivedMessage Uri Tp) (base : BaseHeaders NameAddr) (key : TsxKey.t)
    (s : Transactions) (l : list TsxRegistration) (o : Outcome Uri NameAddr Tp) (s' : Transactions) : Prop :=
  let m := request_method (rm_line message) in
  (exists reg h q, reg ∈ l /\ tsx_key reg = key /\ map s !! key = Some h /\ channels s !! receiver reg = Some q /\
    if accepts h (tsx_message message base)
    then o = Delegated /\ s' = set_channels (<[receiver reg := q ++ [tsx_message message base]]> (channels s)) s
    else m = Some Method.ACK /\ s' = s /\ (o = Unhandled \/ exists r, o = Taken r /\ ir_tsx r = None) /\
      exists line, rm_line message = RequestL line /\ asked (incoming message base key None line) o) \/
  ((forall reg, reg ∈ l -> tsx_key reg <> key) /\
    let reg := {| tsx_key := key; receiver := next s |} in
    let registered := {| map := <[key := SendTo (next s)]> (map s);
                         channels := <[next s := []]> (channels s); next := S (next s) |} in
    let unchanged := {| map := map s; channels := channels s; next := S (next s) |} in
    match rm_line message with
    | ResponseL _ => o = Orphaned /\ s' = unchanged
    | RequestL line =>
        asked (incoming message base key (Some reg) line) o /\
        match o with
        | Taken r => ir_tsx r = Some reg /\ s' = registered
        | Unhandled => m = Some Method.ACK /\ s' = unchanged
        | Refused tsx response => m <> Some Method.ACK /\ tsx = reg /\ s' = registered /\
            sl_code (rs_line (os_msg response)) = StatusCode.CALL_OR_TRANSACTION_DOES_NOT_EXIST
        | _ => False
        end
    end).

Lemma do_receive_spec message (s : Transactions) l base base' key : registry_ok s l ->
  extract_from (rm_headers message) = Ok base -> via base' <> [] ->
  note_source ip_to_string message base = Ret base' ->
  TsxKey.from_message_parts (rm_line message) base' = Ret (Ok key) ->
  exists o s', do_receive message s = Ret (o, s') /\ receive_spec message base' key s l o s'.
Proof.
  intros Hok Hb Hv Hn Hk. unfold SipTransactions.do_receive. rewrite Hb, Hn. cbn [mbind exec_bind].
  rewrite Hk. cbn [mbind exec_bind]. fold (tsx_message message base').
  destruct (map s !! key) as [h|] eqn:E.
  - destruct (ok_handlers _ _ Hok _ _ E) as (Hf & reg & Hr & Hkey & Hs).
    destruct (live_handler s l Hok reg Hr) as (h' & q & _ & _ & _ & Hq & _).
    unfold get_handler. rewrite E. rewrite (call_spec h _ s q) by (by rewrite Hs).
    destruct (accepts h (tsx_message message base')) eqn:Ea.
    + eexists _, _. split; [done|]. left. exists reg, h, q. rewrite Ea, Hs. auto 10.
    + assert (request_method (rm_line message) = Some Method.ACK) as Hm.
      { destruct (decide (request_method (rm_line message) = Some Method.ACK)) as [|Hm]; [done|].
        by rewrite (accepts_other h) in Ea. }
      cbn [tm_line tsx_message]. destruct (rm_line message) as [line|line] eqn:El; [|done].
      injection Hm as Hm.
      edestruct (new_request_spec (incoming message base' key None line) s Hv ltac:(done)) as (o & s' & Ho & Hasked & Hspec).
      eexists o, s'. split; [exact Ho|]. left. exists reg, h, q. rewrite Ea.
      split; [done|]. split; [done|]. split; [done|]. split; [done|].
      rewrite El. cbn [request_method]. split; [by rewrite Hm|].
      destruct o; try done; cbn in Hspec.
      * destruct Hspec as [? ->]. eauto 10.
      * destruct Hspec as [_ ->]. eauto 10.
      * by destruct Hspec as (? & ? & _).
  - rewrite (get_handler_new key s E). cbn [tm_line tsx_message].
    assert (forall reg, reg ∈ l -> tsx_key reg <> key) as Hfree by (by apply (key_free s l Hok)).
    destruct (rm_line message) as [line|line] eqn:El.
    + edestruct (new_request_spec (incoming message base' key (Some {| tsx_key := key; receiver := next s |}) line))
        as (o & s' & Ho & Hasked & Hspec); [exact Hv|done|].
      eexists o, s'. split; [exact Ho|]. right. split; [done|]. rewrite El. cbv zeta. cbn [request_method].
      split; [exact Hasked|]. destruct o; try done; cbn [ir_tsx ir_line incoming] in Hspec.
      * destruct Hspec as [Hm ->]. split; [by f_equal|]. cbn [drop_option ir_tsx incoming]. by apply (register_drop key s l).
      * destruct Hspec as ([= <-] & Hm & -> & Hc). repeat split; congruence.
    + eexists _, _. split; [done|]. right. split; [done|]. rewrite El. split; [done|]. cbn [drop_option].
      by apply (register_drop key s l).
Qed.
Lemma next_ok (s : Transactions) l : registry_ok s l ->
  registry_ok {| map := map s; channels := channels s; next := S (next s) |} l.
Proof.
  intros [H1' H2' H3' H4' H5']. split; cbn; try done. intros c q Hq. destruct (H5' c q Hq) as [Hlt Hr]. split; [lia|done].
Qed.

Lemma do_receive_ok message (s : Transactions) l o s' : registry_ok s l ->
  do_receive message s = Ret (o, s') -> registry_ok s' (outcome_tsx o ++ l).
Proof.
  intros Hok Hr. pose proof Hr as Hr0. unfold SipTransactions.do_receive in Hr.
  destruct (extract_from (rm_headers message)) as [base|e] eqn:Hb; [|by injection Hr as <- <-].
  apply exec_bind_Ret_inv in Hr as (base' & Hn & Hr). apply exec_bind_Ret_inv in Hr as (key & Hk & Hr).
  destruct key as [key|e]; [|by injection Hr as <- <-]. clear Hr.
  assert (via base' <> []) as Hv.
  { intros Hv. destruct (rm_line message); cbn in Hk; unfold TsxKey.from_headers in Hk; by rewrite Hv in Hk. }
  destruct (do_receive_spec message s l base base' key Hok Hb Hv Hn Hk) as (o' & s'' & Ho & Hspec).
  rewrite Hr0 in Ho. injection Ho as <- <-.
  destruct Hspec as [(reg & h & q & Hreg & _ & _ & Hq & Hspec)|[Hfree Hspec]].
  - destruct (accepts h _); [destruct Hspec as [-> ->]; by apply (queue_ok s l Hok _ q)|].
    destruct Hspec as (_ & -> & [->|(r & -> & Hr)] & _); [done|]. cbn. by rewrite Hr.
  - assert (map s !! key = None) as Hnone by (by apply (key_free s l Hok)).
    destruct (rm_line message); [|destruct Hspec as [-> ->]; by apply next_ok].
    destruct Hspec as [_ Hspec]. destruct o; cbn in *; try done.
    + destruct Hspec as (-> & ->). by apply register_ok.
    + destruct Hspec as [_ ->]. by apply next_ok.
    + destruct Hspec as (_ & -> & -> & _). by apply register_ok.
Qed.

Lemma reachable_ok σ : reachable σ -> registry_ok (registry σ) (live σ).
Proof.
  induction 1 as [|σ σ' _ IH Hs]; [apply no_transactions_ok|].
  destruct Hs as [s l message o s' Hr|s l key reg s' Hc|s l reg f s' Hr Hf Ha|s l reg msg s' Hr Ht|s l1 reg l2];
    cbn [registry live] in *.
  - by apply (do_receive_ok message s).
  - unfold create, register_transaction, unbounded_channel, set_map in Hc. cbn in Hc.
    destruct (map s !! key) eqn:E; [done|]. injection Hc as <- <-. by apply register_ok.
  - unfold add_filter in Ha. apply exec_bind_Ret_inv in Ha as (h & Hh%unwrap_Ret & [= <-]). by apply filter_ok.
  - unfold receive in Ht. destruct (channels s !! receiver reg) as [[|m q]|] eqn:E.
    + case_match; [|done]. by injection Ht as <- <-.
    + injection Ht as <- <-. by apply (queue_ok s l IH _ (m :: q)).
    + case_match; [|done]. by injection Ht as <- <-.
  - by apply drop_ok.
Qed.

(** A live registration never loses its sender. *)
Lemma receive_live (s : Transactions) l reg : registry_ok s l -> reg ∈ l ->
  exists q, channels s !! receiver reg = Some q /\
    receive reg s = Ret (head q, set_channels (<[receiver reg := tail q]> (channels s)) s).
Proof.
  intros Hok Hr. destruct (live_handler s l Hok reg Hr) as (h & q & Hh & Hs & _ & Hq & _).
  exists q. split; [done|]. unfold receive. rewrite Hq. destruct q as [|m q]; [|done].
  assert (existsb (fun kh => bool_decide (sender kh.2 = receiver reg)) (map_to_list (map s)) = true) as ->.
  { apply existsb_exists. exists (tsx_key reg, h). split; [|by apply bool_decide_eq_true].
    by apply list_elem_of_In, elem_of_map_to_list. }
  cbn. f_equal. f_equal. unfold set_channels. rewrite insert_id by done. by destruct s.
Qed.

(** C1: In every system that is reached by receiving messages, creating
    transactions, filtering ACKs, taking messages and dropping registrations
    in any order, the registry holds exactly the live registrations, one for
    each key: so what the code expects never fails: a live registration can
    always take its messages and be given a filter, and registering a key
    panics only when a live registration has it; and what a dropped
    registration leaves behind is nothing. *)
Theorem registry_invariant σ : reachable σ ->
  NoDup (tsx_key <$> live σ) /\
  (forall key, is_Some (map (registry σ) !! key) <-> exists reg, reg ∈ live σ /\ tsx_key reg = key) /\
  (forall c, is_Some (channels (registry σ) !! c) <-> exists reg, reg ∈ live σ /\ receiver reg = c) /\
  (forall reg, reg ∈ live σ -> exists q,
    channels (registry σ) !! receiver reg = Some q /\
    receive reg (registry σ) =
      Ret (head q, set_channels (<[receiver reg := tail q]> (channels (registry σ))) (registry σ)) /\
    forall filter, exists s', add_filter reg filter (registry σ) = Ret s') /\
  (forall key, create key (registry σ) = Panic <-> exists reg, reg ∈ live σ /\ tsx_key reg = key).
Proof.
  intros Hr. pose proof (reachable_ok σ Hr) as Hok. destruct σ as [s l]. cbn [registry live] in *.
  assert (forall key, is_Some (map s !! key) <-> exists reg, reg ∈ l /\ tsx_key reg = key) as Hkeys.
  { intros key. split.
    - intros [h Hh]. destruct (ok_handlers _ _ Hok _ _ Hh) as (_ & reg & ? & ? & _). eauto.
    - intros (reg & Hreg & <-). by apply (ok_live _ _ Hok). }
  split; [apply (ok_keys _ _ Hok)|]. split; [done|]. split; [|split].
  - intros c. split.
    + intros [q Hq]. by destruct (ok_channels _ _ Hok _ _ Hq) as [_ ?].
    + intros (reg & Hreg & <-). by apply (ok_live _ _ Hok).
  - intros reg Hreg. destruct (receive_live s l reg Hok Hreg) as (q & Hq & E). exists q. split; [done|].
    split; [done|]. intros f. destruct (live_handler s l Hok reg Hreg) as (h & _ & Hh & _).
    unfold add_filter. rewrite Hh. cbn. eauto.
  - intros key. rewrite <-Hkeys. unfold create, register_transaction, unbounded_channel. cbn.
    destruct (map s !! key); cbn; split; try done.
Qed.

(** C2: What the endpoint does with a message, in every reachable system: it does
    not panic on a message with a Via header; a message with the key of a
    live transaction that passes the filters of its handler goes to that
    transaction alone, as the last of its messages (retransmissions are
    absorbed); only an ACK can be refused by them, and goes on to the layers
    without a new transaction; of the others, a response is dropped, and a
    request gets a new transaction under its key. The layers are asked in their
    order, each with what the one before it has left of the request, up to the
    first that takes it, which owns it with its transaction; when each of them
    has been asked and none takes it, it is refused with the response 481 to
    what is left of it, in its transaction, but an ACK is dropped. *)
Theorem endpoint_receive σ message base : reachable σ ->
  extract_from (rm_headers message) = Ok base -> via base <> [] ->
  exists base' key, note_source ip_to_string message base = Ret base' /\
    TsxKey.from_message_parts (rm_line message) base' = Ret key /\
    match key with
    | Err e => do_receive message (registry σ) = Ret (NoTsxKey e, registry σ)
    | Ok key => exists o s', do_receive message (registry σ) = Ret (o, s') /\
        receive_spec message base' key (registry σ) (live σ) o s'
    end.
Proof.
  intros Hr Hb Hv. pose proof (reachable_ok σ Hr) as Hok.
  destruct (note_source_spec message base Hv) as (base' & Hn & Hv' & _).
  destruct (via base') as [|v vs] eqn:Ev; [done|].
  pose proof (from_message_parts_spec (rm_line message) base' v ltac:(by rewrite Ev)) as Hk.
  cbv zeta in Hk. match type of Hk with _ = Ret ?x => set (r := x) in Hk end. clearbody r.
  exists base', r. split; [done|]. split; [exact Hk|]. destruct r as [key|e].
  - apply (do_receive_spec message _ _ base base'); [done|done|by rewrite Ev|exact Hn|exact Hk].
  - unfold SipTransactions.do_receive. rewrite Hb, Hn. cbn [mbind exec_bind]. rewrite Hk. done.
Qed.

(** A message whose Via header does not parse crashes the task that receives
    it: the list of the parsed Via headers is then empty, although the code
    takes for granted that it is not, and indexes its first element; requests
    and responses alike. *)
Theorem malformed_via_panics (message : ReceivedMessage Uri Tp) (s : Transactions) from to_ id cseq :
  let h := rm_headers message in
  Headers.get (H := FromTo.t NameAddr) Name.From h = Ok from ->
  Headers.get (H := FromTo.t NameAddr) Name.To h = Ok to_ ->
  Headers.get (H := CallID.t) Name.CallID h = Ok id ->
  Headers.get (H := CSeq.t) Name.CSeq h = Ok cseq ->
  (forall v, v ∈ all_values Name.Via h -> exists e, header_parse (H := Via.t) v = Err e) ->
  is_Some (Headers.entry Name.Via h) ->
  do_receive message s = Panic.
Proof.
  intros h Hf Ht Hi Hc Hbad [e He].
  assert (Headers.get (H := list Via.t) Name.Via h = Ok []) as Hvia.
  { unfold Headers.get, Headers.try_get. rewrite He. unfold Headers.decode.
    cbn [mbind option_bind decode_values decode_values_list]. rewrite decode_multiple_malformed; [done|].
    unfold all_values in Hbad. by rewrite He in Hbad. }
  unfold SipTransactions.do_receive, extract_from. fold h. rewrite Hvia, Hf, Ht, Hi, Hc. cbn [mbind result_bind].
  unfold note_source. destruct (rm_line message); cbn; [done|]. done.
Qed.
End registry.

(** ** Examples *)
#[local] Instance sample_via_parse : HeaderParse Via.t := {|
  header_parse v := if starts_with (lit "z9hG4bK") v
                    then Ok ([], Via.new (lit "UDP") (HostPort.host_name (lit "a.example")) v) else Err v |}.
#[local] Instance sample_via_values : ExtendValues Via.t := {|
  extend_values v vs := OneOrMore.push (default [] (Params.get_val (lit "branch") (Via.params v))) vs;
  create_values v := OneOrMore.One (default [] (Params.get_val (lit "branch") (Via.params v))) |}.
#[local] Instance sample_from_to_parse : HeaderParse (FromTo.t unit) := {|
  header_parse v := Ok ([], {| FromTo.uri := tt; FromTo.tag := Some v; FromTo.params := [] |}) |}.
#[local] Instance sample_from_to_values : ExtendValues (FromTo.t unit) := {|
  extend_values v vs := OneOrMore.push (default [] (FromTo.tag v)) vs;
  create_values v := OneOrMore.One (default [] (FromTo.tag v)) |}.
#[local] Instance sample_cseq_parse : HeaderParse CSeq.t := {|
  header_parse v := Ok ([], {| CSeq.cseq := 1; CSeq.method := Method.from_parse (H := ascii_nom) v |}) |}.

Definition sample_headers (v : str) (m : Method.t) : Headers.t :=
  Headers.extend [(Name.Via, v); (Name.From, lit "f"); (Name.To, lit "t"); (Name.CallID, lit "c");
                  (Name.CSeq, Method.display m)] Headers.new.

Definition sample_message (v : str) (m : Method.t) : ReceivedMessage unit unit :=
  {| rm_tp_info := {| source := V4 1 5060; tp := tt |};
     rm_line := RequestL {| rl_method := m; rl_uri := tt |};
     rm_headers := sample_headers v m; rm_body := [] |}.

#[local] Abbreviation sample_receive := (do_receive (fun _ => []) (fun _ => None) (fun _ : unit => DirNone) []).
#[local] Abbreviation sample_reachable := (reachable (fun _ => []) (fun _ => None) (fun _ : unit => DirNone) []).

Definition sample_key : TsxKey.t := TsxKey.client (lit "x") Method.BYE.

Lemma registry_invariant_witness :
  exists σ : System (Uri := unit) (NameAddr := unit) (Tp := unit),
    sample_reachable σ /\ create sample_key (registry σ) = Panic.
Proof.
  set (reg := {| tsx_key := sample_key; receiver := 0 |}).
  assert (create sample_key (no_transactions (Uri := unit) (NameAddr := unit) (Tp := unit)) =
    Ret (reg, {| map := {[sample_key := SendTo 0]}; channels := {[0 := []]}; next := 1 |})) as Hc by reflexivity.
  pose proof (StepCreate (fun _ => []) (fun _ => None) (fun _ : unit => DirNone) [] _ [] _ _ _ Hc) as Hs.
  pose proof (ReachStep _ _ _ _ _ _ (ReachInitial _ _ _ _) Hs) as Hr.
  eexists. split; [exact Hr|].
  apply (registry_invariant (fun _ => []) (fun _ => None) (fun _ : unit => DirNone) [] ltac:(constructor) _ Hr).
  exists reg. split; [left|done].
Defined.

(** The second of three layers takes every request. *)
Definition sample_layers : list (IncomingRequest unit unit unit -> option (IncomingRequest unit unit unit)) :=
  [fun r => Some r; fun _ => None; fun r => Some r].

Lemma sample_layers_ok : Forall layer_ok sample_layers.
Proof. apply Forall_cons; split; [|apply Forall_cons; split; [|apply Forall_singleton]]; by intros r r' [= <-]. Qed.

Lemma endpoint_receive_witness :
  exists r0 r s', do_receive (fun _ => []) (fun _ => None) (fun _ : unit => DirNone) sample_layers
      (sample_message (lit "z9hG4bK7") Method.BYE) no_transactions = Ret (Taken r, s') /\
    taken_by sample_layers r0 r.
Proof.
  destruct (endpoint_receive (fun _ => []) (fun _ => None) (fun _ : unit => DirNone) sample_layers
    sample_layers_ok initial (sample_message (lit "z9hG4bK7") Method.BYE)
    {| via := [Via.new (lit "UDP") (HostPort.host_name (lit "a.example")) (lit "z9hG4bK7")];
       from_ := {| FromTo.uri := tt; FromTo.tag := Some (lit "f"); FromTo.params := [] |};
       to := {| FromTo.uri := tt; FromTo.tag := Some (lit "t"); FromTo.params := [] |};
       call_id := {| CallID.call_id := lit "c" |};
       cseq_ := {| CSeq.cseq := 1; CSeq.method := Method.BYE |} |})
    as (base' & key & Hn & Hk & Hr); [constructor|vm_compute; reflexivity|discriminate|].
  destruct key as [key|e].
  2: { vm_compute in Hn. injection Hn as <-. vm_compute in Hk. discriminate Hk. }
  destruct Hr as (o & s' & Hr & [(reg & _ & _ & Hin & _)|[_ [Hasked Ho]]]); [by apply elem_of_nil in Hin|].
  destruct o as [e|e| | |r| |tsx response]; [done..| |done|].
  - eexists _, r, s'. split; [exact Hr|exact Hasked].
  - destruct Hasked as (r' & Hp & _). inversion Hp as [|? ? ? ? ? _ Hp']; subst. by inversion Hp'.
Defined.

Lemma malformed_via_panics_witness :
  sample_receive (sample_message (lit "no via") Method.BYE) no_transactions = Panic.
Proof.
  eapply (malformed_via_panics (fun _ => []) (fun _ => None) (fun _ : unit => DirNone) []);
    try (vm_compute; reflexivity).
  - intros v Hv. vm_compute in Hv. apply list_elem_of_singleton in Hv as ->. eexists. reflexivity.
  - vm_compute. eauto.
Defined.
