(* ===== verification/SipTimers.v ===== *)
(** * Transactions in time
    (sip-core/src/transaction/client.rs, client_inv.rs, server.rs, server_inv.rs)

    The four kinds of transactions as functions of time, in milliseconds. The
    messages a transaction is going to receive are a list with their times of
    arrival; sending a message takes until the time the transport says. A
    future with a timeout gives a message that is there before it looks at the
    clock, as the code's runtime does; of two timeouts, the inner one goes first. *)
From S2P Require Import Prelude Text StunAttr IceStun SipNames SipHeaders SipFraming SipMessages SipKeys SipTransactions.

Section timers.
Context {Uri NameAddr Tp IoError : Type}.
#[local] Abbreviation TsxMessage := (TsxMessage Uri NameAddr Tp).
#[local] Abbreviation OutgoingRequest := (OutgoingRequest Uri Tp).
#[local] Abbreviation OutgoingResponse := (OutgoingResponse Tp).

(** The transport: when sending ends, and whether it is reliable *)
Context (send : Z -> list byte -> SocketAddr -> result IoError Z).
Context (reliable : Tp -> bool).
(** The endpoint: its user agent; the printer of URIs *)
Context (user_agent : option str) (print_uri : Uri -> str).
Context `{DecodeValues CSeq.t}.

(** [error::Error] *)
Inductive Error := Io (e : IoError) | HeaderE (e : HeaderError.t) | RequestTimedOut.

(** The world of a transaction: the time, the messages to come, and what has
    been sent. *)
Record Env := {
  now : Z;
  inbox : list (Z * TsxMessage);
  sent : list (Z * list byte) }.

(** [send_outgoing_request] and [send_outgoing_response] *)
Definition transport_send (bytes : list byte) (destination : SocketAddr) (env : Env) : result Error unit * Env :=
  match send (now env) bytes destination with
  | Ok t => (Ok tt, {| now := t; inbox := inbox env; sent := sent env ++ [(now env, bytes)] |})
  | Err e => (Err (Io e), env)
  end.

Definition send_outgoing_request (request : OutgoingRequest) (env : Env)
    : exec (result Error unit * OutgoingRequest * Env) :=
  '(request, bytes) ← prepare_request user_agent print_uri request;
  let '(r, env) := transport_send bytes (destination (oq_parts request)) env in
  Ret (r, request, env).

Definition send_outgoing_response (response : OutgoingResponse) (env : Env)
    : exec (result Error unit * OutgoingResponse * Env) :=
  '(response, bytes) ← prepare_response response;
  let '(r, env) := transport_send bytes (destination (os_parts response)) env in
  Ret (r, response, env).

(** ** Waiting *)
Inductive Wait := Received (msg : TsxMessage) | InnerElapsed | OuterElapsed.

(** The earlier of the two deadlines, the inner one first *)
Definition expiry (inner : option Z) (outer : Z) : Z * Wait :=
  match inner with
  | Some inner => if decide (inner <= outer)%Z then (inner, InnerElapsed) else (outer, OuterElapsed)
  | None => (outer, OuterElapsed)
  end.

(** [timeout_at(outer, timeout(inner, registration.receive()))] from a time;
    with [responses], the loop of [receive_response] that leaves out requests.
    The message or the timeout, its time, and the messages that are left. *)
Fixpoint wait (responses : bool) (inner : option Z) (outer : Z) (t : Z) (inbox : list (Z * TsxMessage))
    : Wait * Z * list (Z * TsxMessage) :=
  let '(e, elapsed) := expiry inner outer in
  match inbox with
  | (a, msg) :: inbox' =>
      if decide (a <= Z.max t e)%Z then
        if responses && is_request_line (tm_line msg) then wait responses inner outer (Z.max t a) inbox'
        else (Received msg, Z.max t a, inbox')
      else (elapsed, Z.max t e, inbox)
  | [] => (elapsed, Z.max t e, [])
  end.

Definition wait_in (responses : bool) (inner : option Z) (outer : Z) (env : Env) : Wait * Env :=
  let '(w, t, inbox) := wait responses inner outer (now env) (inbox env) in
  (w, {| now := t; inbox := inbox; sent := sent env |}).

Definition response_code (msg : TsxMessage) : StatusCode.t :=
  match tm_line msg with ResponseL line => sl_code line | RequestL _ => 0%Z end.

(** ** Client transactions: client.rs *)
Inductive State := Init | Proceeding | Completed | Terminated.

#[export] Instance state_eq_dec : EqDecision State.
Proof. solve_decision. Defined.

(** [ClientTsx]; the field [registered] tells whether the registration is still
    in it, and not in the task of a completed transaction. *)
Record ClientTsx := {
  registered : bool;
  request : OutgoingRequest;
  timeout : Z;
  state : State }.

Definition set_request (request : OutgoingRequest) (tsx : ClientTsx) : ClientTsx :=
  {| registered := registered tsx; request := request; timeout := timeout tsx; state := state tsx |}.

Definition transport_of (request : OutgoingRequest) : Tp := op_transport (oq_parts request).

(** [ClientTsx::handle_msg] *)
Definition handle_msg (tsx : ClientTsx) (response : TsxMessage) : exec (TsxMessage * ClientTsx) :=
  match StatusCode.kind (response_code response) with
  | StatusCode.Provisional =>
      Ret (response, {| registered := registered tsx; request := request tsx; timeout := timeout tsx; state := Proceeding |})
  | _ =>
      if registered tsx then
        Ret (response, {| registered := false; request := request tsx; timeout := timeout tsx;
                          state := if reliable (transport_of (request tsx)) then Terminated else Completed |})
      else Panic
  end.

(** The loop of [ClientTsx::receive] over an unreliable transport *)
Fixpoint receive_retransmit (fuel : nat) (tsx : ClientTsx) (env : Env)
    : exec (result Error TsxMessage * ClientTsx * Env) :=
  match fuel with
  | O => Panic
  | S fuel =>
      let '(w, env) := wait_in true (Some (now env + T2)%Z) (timeout tsx) env in
      match w with
      | Received msg => '(msg, tsx) ← handle_msg tsx msg; Ret (Ok msg, tsx, env)
      | InnerElapsed =>
          '(r, request, env) ← send_outgoing_request (request tsx) env;
          let tsx := set_request request tsx in
          match r with
          | Ok _ => receive_retransmit fuel tsx env
          | Err e => Ret (Err e, tsx, env)
          end
      | OuterElapsed => Ret (Err RequestTimedOut, tsx, env)
      end
  end.

(** [ClientTsx::receive]; the loop waits for [T2] in every round but the last. *)
Definition client_receive (tsx : ClientTsx) (env : Env) : exec (result Error TsxMessage * ClientTsx * Env) :=
  if negb (registered tsx) then Panic
  else
    match state tsx with
    | Init | Proceeding =>
        if bool_decide (state tsx = Init) && negb (reliable (transport_of (request tsx))) then
          receive_retransmit (S (Z.to_nat ((timeout tsx - now env) / T2))) tsx env
        else
          let '(w, env) := wait_in true None (timeout tsx) env in
          match w with
          | Received msg => '(msg, tsx) ← handle_msg tsx msg; Ret (Ok msg, tsx, env)
          | _ => Ret (Err RequestTimedOut, tsx, env)
          end
    | Completed | Terminated => Panic
    end.

(** [ClientTsx::receive_final]: a call of [receive] for each response *)
Fixpoint receive_final_loop (fuel : nat) (tsx : ClientTsx) (env : Env)
    : exec (result Error TsxMessage * ClientTsx * Env) :=
  match fuel with
  | O => Panic
  | S fuel =>
      '(r, tsx, env) ← client_receive tsx env;
      match r with
      | Ok msg => if decide (StatusCode.kind (response_code msg) = StatusCode.Provisional)
                  then receive_final_loop fuel tsx env else Ret (Ok msg, tsx, env)
      | Err e => Ret (Err e, tsx, env)
      end
  end.
Definition receive_final (tsx : ClientTsx) (env : Env) : exec (result Error TsxMessage * ClientTsx * Env) :=
  receive_final_loop (S (length (inbox env))) tsx env.
(** The task of a completed transaction: messages until the deadline are
    tossed. *)
Fixpoint toss (fuel : nat) (deadline : Z) (env : Env) : exec Env :=
  match fuel with
  | O => Panic
  | S fuel => let '(w, env) := wait_in false None deadline env in
              match w with Received _ => toss fuel deadline env | _ => Ret env end
  end.
Definition completed_task (env : Env) : exec Env := toss (S (length (inbox env))) (now env + T4)%Z env.

(** ** Sending a request *)
Context (tp_name : Tp -> str) (sent_by : Tp -> SocketAddr).
Context `{ExtendValues Via.t}.

(** [Endpoint::create_via] *)
Definition create_via (transport : Tp) (key : TsxKey.t) (via_host_port : option HostPort.t) : Via.t :=
  Via.new (tp_name transport)
    (match via_host_port with Some h => h | None => HostPort.of_socket_addr (sent_by transport) end)
    (TsxKey.branch key).

(** What [ClientTsx::send] and [ClientInvTsx::send] do after their assertions:
    the request that is sent, its registration, and when it times out. *)
Definition send_in_transaction (random : str) (request : Request Uri) (transport : Tp) (dest : SocketAddr)
    (via_host_port : option HostPort.t) (s : Transactions Uri NameAddr Tp) (env : Env)
    : exec (result Error (OutgoingRequest * TsxRegistration * Z) * Transactions Uri NameAddr Tp * Env) :=
  let out := create_outgoing request transport dest in
  '(reg, s) ← create (TsxKey.client random (rl_method (rq_line request))) s;
  let v := create_via transport (tsx_key reg) via_host_port in
  let out := {|
    oq_msg := {| rq_line := rq_line (oq_msg out);
                 rq_headers := Headers.insert_named_front v (rq_headers (oq_msg out)); rq_body := rq_body (oq_msg out) |};
    oq_parts := oq_parts out |} in
  '(r, out, env) ← send_outgoing_request out env;
  match r with
  | Ok _ => Ret (Ok (out, reg, now env + T1 * 64)%Z, s, env)
  | Err e => Ret (Err e, drop_registration reg s, env)
  end.

(** [ClientTsx::send] *)
Definition client_send (random : str) (request : Request Uri) (transport : Tp) (dest : SocketAddr)
    (via_host_port : option HostPort.t) (s : Transactions Uri NameAddr Tp) (env : Env)
    : exec (result Error (ClientTsx * TsxRegistration) * Transactions Uri NameAddr Tp * Env) :=
  match rl_method (rq_line request) with
  | Method.INVITE | Method.ACK => Panic
  | _ =>
      '(r, s, env) ← send_in_transaction random request transport dest via_host_port s env;
      Ret ('(out, reg, timeout) ← r;
           Ok ({| registered := true; request := out; timeout := timeout; state := Init |}, reg), s, env)
  end.

(** ** INVITE client transactions: client_inv.rs *)
Inductive InvState := InvInit | InvProceeding | InvAccepted | InvCompleted | InvTerminated.

#[export] Instance inv_state_eq_dec : EqDecision InvState.
Proof. solve_decision. Defined.

Record ClientInvTsx := {
  inv_registered : bool;
  inv_request : OutgoingRequest;
  inv_timeout : Z;
  inv_state : InvState }.

Definition set_inv (registered : bool) (timeout : Z) (state : InvState) (tsx : ClientInvTsx) : ClientInvTsx :=
  {| inv_registered := registered; inv_request := inv_request tsx; inv_timeout := timeout; inv_state := state |}.

(** [ClientInvTsx::send] *)
Definition client_inv_send (random : str) (request : Request Uri) (transport : Tp) (dest : SocketAddr)
    (via_host_port : option HostPort.t) (s : Transactions Uri NameAddr Tp) (env : Env)
    : exec (result Error (ClientInvTsx * TsxRegistration) * Transactions Uri NameAddr Tp * Env) :=
  if decide (rl_method (rq_line request) = Method.INVITE) then
    '(r, s, env) ← send_in_transaction random request transport dest via_host_port s env;
    Ret ('(out, reg, timeout) ← r;
         Ok ({| inv_registered := true; inv_request := out; inv_timeout := timeout; inv_state := InvInit |}, reg), s, env)
  else Panic.

(** [create_ack] *)
Definition create_ack (request : OutgoingRequest) (response : TsxMessage) : result HeaderError.t OutgoingRequest :=
  let from_request := rq_headers (oq_msg request) in
  headers ← Headers.clone_into Headers.new Name.Via from_request;
  headers ← Headers.clone_into headers Name.From from_request;
  headers ← Headers.clone_into headers Name.To (tm_headers response);
  headers ← Headers.clone_into headers Name.CallID from_request;
  let headers := Headers.insert_named {| MaxForwards.max_forwards := 70 |} headers in
  cseq ← Headers.get_named CSeq.t from_request;
  let headers := Headers.insert_named {| CSeq.cseq := CSeq.cseq cseq; CSeq.method := Method.ACK |} headers in
  Ok {| oq_msg := {| rq_line := {| rl_method := Method.ACK; rl_uri := rl_uri (rq_line (oq_msg request)) |};
                     rq_headers := headers; rq_body := [] |};
        oq_parts := {| op_transport := transport_of request;
                       destination := destination (oq_parts request); buffer := [] |} |}.

(** [ClientInvTsx::handle_msg]: with the ACK and the deadline of the task that
    answers retransmitted responses *)
Definition inv_handle_msg (tsx : ClientInvTsx) (msg : TsxMessage) (env : Env)
    : exec (result Error (option TsxMessage) * ClientInvTsx * option (OutgoingRequest * Z) * Env) :=
  match StatusCode.kind (response_code msg) with
  | StatusCode.Provisional =>
      Ret (Ok (Some msg), set_inv (inv_registered tsx) (now env + T1 * 240) InvProceeding tsx, None, env)
  | StatusCode.Success =>
      Ret (Ok (Some msg), set_inv (inv_registered tsx) (now env + T1 * 64) InvAccepted tsx, None, env)
  | _ =>
      if inv_registered tsx then
        let tsx := set_inv false (inv_timeout tsx) (inv_state tsx) tsx in
        match create_ack (inv_request tsx) msg with
        | Err e => Ret (Err (HeaderE e), tsx, None, env)
        | Ok ack =>
            '(r, ack, env) ← send_outgoing_request ack env;
            match r with
            | Err e => Ret (Err e, tsx, None, env)
            | Ok _ =>
                if reliable (transport_of (inv_request tsx))
                then Ret (Ok (Some msg), set_inv false (inv_timeout tsx) InvTerminated tsx, None, env)
                else Ret (Ok (Some msg), set_inv false (inv_timeout tsx) InvCompleted tsx,
                          Some (ack, now env + 32000)%Z, env)
            end
        end
      else Panic
  end.

(** The loop of [ClientInvTsx::receive] over an unreliable transport: [n] is
    doubled with every retransmission. *)
Fixpoint inv_retransmit (fuel : nat) (n : Z) (tsx : ClientInvTsx) (env : Env)
    : exec (result Error (option TsxMessage) * ClientInvTsx * option (OutgoingRequest * Z) * Env) :=
  match fuel with
  | O => Panic
  | S fuel =>
      let '(w, env) := wait_in true (Some (now env + n)%Z) (inv_timeout tsx) env in
      match w with
      | Received msg => inv_handle_msg tsx msg env
      | InnerElapsed =>
          '(r, request, env) ← send_outgoing_request (inv_request tsx) env;
          let tsx := {| inv_registered := inv_registered tsx; inv_request := request;
                        inv_timeout := inv_timeout tsx; inv_state := inv_state tsx |} in
          match r with
          | Ok _ => inv_retransmit fuel (n * 2) tsx env
          | Err e => Ret (Err e, tsx, None, env)
          end
      | OuterElapsed => Ret (Err RequestTimedOut, tsx, None, env)
      end
  end.

(** [ClientInvTsx::receive] *)
Definition inv_receive (tsx : ClientInvTsx) (env : Env)
    : exec (result Error (option TsxMessage) * ClientInvTsx * option (OutgoingRequest * Z) * Env) :=
  if negb (inv_registered tsx) then Ret (Ok None, tsx, None, env)
  else
    match inv_state tsx with
    | InvInit | InvProceeding =>
        if bool_decide (inv_state tsx = InvInit) && negb (reliable (transport_of (inv_request tsx))) then
          inv_retransmit (S (Z.to_nat ((inv_timeout tsx - now env) / T1))) T1 tsx env
        else
          let '(w, env) := wait_in true None (inv_timeout tsx) env in
          match w with
          | Received msg => inv_handle_msg tsx msg env
          | _ => Ret (Err RequestTimedOut, tsx, None, env)
          end
    | InvAccepted =>
        let '(w, env) := wait_in true None (inv_timeout tsx) env in
        match w with
        | Received msg => Ret (Ok (Some msg), tsx, None, env)
        | _ => Ret (Ok None, set_inv (inv_registered tsx) (inv_timeout tsx) InvTerminated tsx, None, env)
        end
    | InvCompleted | InvTerminated => Ret (Ok None, tsx, None, env)
    end.

(** The task of a completed INVITE transaction: every message is answered with
    the ACK. *)
Fixpoint ack_task_loop (fuel : nat) (deadline : Z) (ack : OutgoingRequest) (env : Env) : exec Env :=
  match fuel with
  | O => Panic
  | S fuel =>
      let '(w, env) := wait_in false None deadline env in
      match w with
      | Received _ => '(_, ack, env) ← send_outgoing_request ack env; ack_task_loop fuel deadline ack env
      | _ => Ret env
      end
  end.
Definition ack_task (task : OutgoingRequest * Z) (env : Env) : exec Env :=
  ack_task_loop (S (length (inbox env))) task.2 task.1 env.

(** ** Server transactions: server.rs *)

(** [respond_provisional], of both kinds of server transactions *)
Definition respond_provisional (response : OutgoingResponse) (env : Env)
    : exec (result Error unit * OutgoingResponse * Env) :=
  if decide (StatusCode.kind (sl_code (rs_line (os_msg response))) = StatusCode.Provisional)
  then send_outgoing_response response env else Panic.

(** The task that answers retransmitted requests *)
Fixpoint answer_loop (fuel : nat) (abandon : Z) (response : OutgoingResponse) (env : Env) : exec Env :=
  match fuel with
  | O => Panic
  | S fuel =>
      let '(w, env) := wait_in false None abandon env in
      match w with
      | Received msg =>
          if is_request_line (tm_line msg) then
            '(_, response, env) ← send_outgoing_response response env; answer_loop fuel abandon response env
          else answer_loop fuel abandon response env
      | _ => Ret env
      end
  end.

(** [ServerTsx::respond]: with the response and the deadline of the task *)
Definition respond (response : OutgoingResponse) (env : Env)
    : exec (result Error unit * option (OutgoingResponse * Z) * Env) :=
  if decide (StatusCode.kind (sl_code (rs_line (os_msg response))) = StatusCode.Provisional) then Panic
  else
    '(r, response, env) ← send_outgoing_response response env;
    match r with
    | Err e => Ret (Err e, None, env)
    | Ok _ => if reliable (op_transport (os_parts response)) then Ret (Ok tt, None, env)
              else Ret (Ok tt, Some (response, now env + T1 * 64)%Z, env)
    end.
Definition answer_task (task : OutgoingResponse * Z) (env : Env) : exec Env :=
  answer_loop (S (length (inbox env))) task.2 task.1 env.

(** ** INVITE server transactions: server_inv.rs *)

(** [ServerInvTsx::respond_success], with the filter of ACKs in the registry;
    the response is what [Accepted] keeps, and [Accepted::retransmit] sends. *)
Definition respond_success (reg : TsxRegistration) (response : OutgoingResponse) (s : Transactions Uri NameAddr Tp)
    (env : Env) : exec (result Error OutgoingResponse * Transactions Uri NameAddr Tp * Env) :=
  if decide (StatusCode.kind (sl_code (rs_line (os_msg response))) = StatusCode.Success) then
    s ← add_filter reg success_filter s;
    '(r, response, env) ← send_outgoing_response response env;
    match r with
    | Ok _ => Ret (Ok response, s, env)
    | Err e => Ret (Err e, drop_registration reg s, env)
    end
  else Panic.
Definition accepted_retransmit (response : OutgoingResponse) (env : Env)
    : exec (result Error unit * OutgoingResponse * Env) := send_outgoing_response response env.

(** The loop of [ServerInvTsx::respond_failure] *)
Fixpoint respond_failure_loop (fuel : nat) (abandon delta retransmit : Z) (response : OutgoingResponse) (env : Env)
    : exec (result Error unit * Env) :=
  match fuel with
  | O => Panic
  | S fuel =>
      let '(w, env) := wait_in false None retransmit env in
      match w with
      | Received msg =>
          match request_method (tm_line msg) with
          | Some Method.INVITE =>
              '(r, response, env) ← send_outgoing_response response env;
              match r with
              | Err e => Ret (Err e, env)
              | Ok _ => respond_failure_loop fuel abandon delta retransmit response env
              end
          | Some Method.ACK => Ret (Ok tt, env)
          | _ => respond_failure_loop fuel abandon delta retransmit response env
          end
      | _ =>
          if decide (now env > abandon)%Z then Ret (Err RequestTimedOut, env)
          else
            '(r, response, env) ← send_outgoing_response response env;
            match r with
            | Err e => Ret (Err e, env)
            | Ok _ =>
                let delta := Z.min (delta * 2) T2 in
                respond_failure_loop fuel abandon delta (now env + delta)%Z response env
            end
      end
  end.

(** [ServerInvTsx::respond_failure]; a round takes a message, or waits for at
    least [T1] of the 64 [T1] until the transaction is abandoned. *)
Definition respond_failure (response : OutgoingResponse) (env : Env) : exec (result Error unit * Env) :=
  match StatusCode.kind (sl_code (rs_line (os_msg response))) with
  | StatusCode.Provisional | StatusCode.Success => Panic
  | _ =>
      '(r, response, env) ← send_outgoing_response response env;
      match r with
      | Err e => Ret (Err e, env)
      | Ok _ => respond_failure_loop (length (inbox env) + 66) (now env + T1 * 64) T1 (now env + T1) response env
      end
  end.
End timers.
