(* ===== verification/SipTimerProps.v ===== *)
(** * When transactions retransmit and end
    (sip-core/src/transaction/client.rs, client_inv.rs, server.rs, server_inv.rs)

    The schedules of the four kinds of transactions, the ACK of a failed
    INVITE, and that every loop ends. *)
From S2P Require Import Prelude Text StunAttr IceStun SipNames SipHeaders SipFraming SipMessages SipKeys SipTransactions SipTimers.

(** ** Retransmission times *)

(** The times of the retransmissions after [t], the first after [n], and up to
    a time. *)
Fixpoint resend_times (fuel : nat) (next : Z -> Z) (t n stop : Z) : list Z :=
  match fuel with
  | O => []
  | S fuel => if decide (t + n < stop)%Z then (t + n)%Z :: resend_times fuel next (t + n) (next n) stop else []
  end.

(** The unlimited schedule *)
Fixpoint times (fuel : nat) (next : Z -> Z) (t n : Z) : list Z :=
  match fuel with O => [] | S fuel => (t + n)%Z :: times fuel next (t + n) (next n) end.

Section times.
Context (next : Z -> Z) (m : Z) (Hm : (0 < m)%Z) (Hnext : forall n, (m <= n)%Z -> (m <= next n)%Z).

Lemma times_lower fuel : forall t n, (m <= n)%Z -> Forall (fun x => t + m <= x)%Z (times fuel next t n).
Proof.
  induction fuel as [|fuel IH]; intros t n Hn; cbn; [constructor|]. constructor; [lia|].
  eapply Forall_impl; [apply IH; by apply Hnext|]. cbn. lia.
Qed.

Lemma resend_times_filter fuel : forall t n stop, (m <= n)%Z ->
  resend_times fuel next t n stop = filter (fun x => x < stop)%Z (times fuel next t n).
Proof.
  induction fuel as [|fuel IH]; intros t n stop Hn; [done|]. cbn [resend_times times].
  destruct (decide (t + n < stop)%Z) as [Hlt|Hge].
  - rewrite filter_cons_True by done. by rewrite IH by auto.
  - rewrite filter_cons_False by done. symmetry.
    pose proof (times_lower fuel (t + n) (next n) ltac:(auto)) as Hl. clear -Hl Hge Hm.
    induction Hl as [|x l Hx _ IH]; [done|]. rewrite filter_cons_False by lia. done.
Qed.

Lemma resend_times_enough fuel : forall fuel' t n stop, (m <= n)%Z ->
  (stop - t <= m * Z.of_nat fuel)%Z -> (stop - t <= m * Z.of_nat fuel')%Z ->
  resend_times fuel next t n stop = resend_times fuel' next t n stop.
Proof.
  induction fuel as [|fuel IH]; intros [|fuel'] t n stop Hn Hf Hf'; cbn [resend_times]; [done| | |].
  - rewrite decide_False by lia. done.
  - rewrite decide_False by lia. done.
  - destruct (decide (t + n < stop)%Z); [|done]. f_equal. apply IH; [auto|lia|lia].
Qed.
End times.

Lemma times_shift fuel next : forall t n, times fuel next t n = (Z.add t) <$> times fuel next 0 n.
Proof.
  induction fuel as [|fuel IH]; intros t n; [done|]. cbn. f_equal.
  rewrite (IH (t + n)%Z), (IH n). rewrite <-list_fmap_compose. apply list_fmap_ext. intros _ x _. cbn. lia.
Qed.

Lemma filter_shift t stop (l : list Z) :
  filter (fun x => x < stop)%Z (Z.add t <$> l) = Z.add t <$> filter (fun x => x < stop - t)%Z l.
Proof.
  induction l as [|x l IH]; [done|]. cbn [fmap list_fmap]. rewrite !filter_cons.
  destruct (decide (t + x < stop)%Z), (decide (x < stop - t)%Z); try lia; cbn [fmap list_fmap]; by rewrite IH.
Qed.

Lemma filter_below stop bound (l l' : list Z) : (stop <= bound)%Z -> forallb (fun x => bound <=? x)%Z l' = true ->
  filter (fun x => x < stop)%Z (l ++ l') = filter (fun x => x < stop)%Z l.
Proof.
  intros Hs Hl. rewrite filter_app. replace (filter _ l') with (@nil Z); [by rewrite app_nil_r|]. symmetry.
  induction l' as [|x l' IH]; [done|]. cbn in Hl. apply andb_true_iff in Hl as [Hx Hl].
  rewrite filter_cons_False by lia. by apply IH.
Qed.

(** A schedule as the offsets of its retransmissions *)
Lemma schedule next m fuel fuel' t n stop l l' bound :
  (0 < m)%Z -> (forall n, (m <= n)%Z -> (m <= next n)%Z) -> (m <= n)%Z ->
  (stop - t <= m * Z.of_nat fuel)%Z -> (stop - t <= m * Z.of_nat fuel')%Z ->
  times fuel' next 0 n = l ++ l' -> (stop - t <= bound)%Z -> forallb (fun x => bound <=? x)%Z l' = true ->
  resend_times fuel next t n stop = Z.add t <$> filter (fun x => x < stop - t)%Z l.
Proof.
  intros Hm Hnext Hn Hf Hf' El Hb Hl'. rewrite (resend_times_enough next m Hm Hnext fuel fuel') by done.
  rewrite (resend_times_filter next m Hm Hnext) by done. rewrite times_shift, El, filter_shift.
  by rewrite (filter_below _ bound).
Qed.

(** ** The rounds of a client *)
Section client.
Context {Uri NameAddr Tp IoError : Type}.
#[local] Abbreviation TsxMessage := (TsxMessage Uri NameAddr Tp).
#[local] Abbreviation OutgoingRequest := (OutgoingRequest Uri Tp).
#[local] Abbreviation Env := (Env (Uri := Uri) (NameAddr := NameAddr) (Tp := Tp)).
Context (send : Z -> list byte -> SocketAddr -> result IoError Z).
Context (reliable : Tp -> bool) (user_agent : option str) (print_uri : Uri -> str).
Context `{DecodeValues CSeq.t}.

(** Sending takes no time. *)
Context (Hsend : forall t bytes destination, send t bytes destination = Ok t).

Definition after (env : Env) (bytes : list byte) (ts : list Z) (t : Z) (ib : list (Z * TsxMessage)) : Env :=
  {| now := t; inbox := ib; sent := sent env ++ ((fun x => (x, bytes)) <$> ts) |}.

(** All messages are responses, as those with the key of a client are. *)
Definition responses (ib : list (Z * TsxMessage)) : Prop :=
  Forall (fun am => is_request_line (tm_line am.2) = false) ib.

(** When the waiting stops: when the first message arrives, or just after the
    timeout *)
Definition stop_at (timeout : Z) (ib : list (Z * TsxMessage)) : Z :=
  match ib with
  | (a, _) :: _ => if decide (a <= timeout)%Z then a else (timeout + 1)%Z
  | [] => (timeout + 1)%Z
  end.

Lemma wait_round (env : Env) n outer : responses (inbox env) -> (0 < n)%Z -> (now env <= outer)%Z ->
  wait_in true (Some (now env + n)%Z) outer env =
    if decide (now env + n < stop_at outer (inbox env))%Z then (InnerElapsed, after env [] [] (now env + n) (inbox env))
    else match inbox env with
         | (a, msg) :: ib =>
             if decide (a <= outer)%Z then (Received msg, after env [] [] (Z.max (now env) a) ib)
             else (OuterElapsed, after env [] [] outer (inbox env))
         | [] => (OuterElapsed, after env [] [] outer [])
         end.
Proof.
  intros Hr Hn Ht. unfold wait_in, after. rewrite app_nil_r. destruct (inbox env) as [|[a msg] ib]; cbn [wait stop_at expiry].
  - destruct (decide (now env + n <= outer)%Z), (decide (now env + n < outer + 1)%Z); try lia;
    do 2 f_equal; lia.
  - apply Forall_cons in Hr as [Hr _]. cbn in Hr. rewrite Hr. cbn [andb].
    destruct (decide (a <= outer)%Z); destruct (decide (now env + n <= outer)%Z);
    case_decide; case_decide; try lia; do 2 f_equal; lia.
Qed.

Lemma after_after env bytes ts ts' t t' ib ib' :
  after (after env bytes ts t ib) bytes ts' t' ib' = after env bytes (ts ++ ts') t' ib'.
Proof. unfold after. cbn. by rewrite fmap_app, <-app_assoc. Qed.

Lemma after_nil env bytes t ib : after env [] [] t ib = after env bytes [] t ib.
Proof. done. Qed.

(** Both loops of clients, by the equation they share *)
Lemma rounds {R} (L : nat -> Z -> Env -> exec R) next timeout bytes on_msg (on_timeout : Env -> exec R) m
    (P : Z -> Prop) :
  (forall fuel n env, P n -> L (S fuel) n env =
    let '(w, env) := wait_in true (Some (now env + n)%Z) timeout env in
    match w with
    | Received msg => on_msg msg env
    | InnerElapsed => L fuel (next n) (after env bytes [now env] (now env) (inbox env))
    | OuterElapsed => on_timeout env
    end) ->
  (0 < m)%Z -> (forall n, P n -> (m <= n)%Z /\ P (next n)) ->
  forall fuel n env, responses (inbox env) -> P n -> (now env <= timeout)%Z ->
    (timeout - now env < m * Z.of_nat fuel)%Z ->
    L fuel n env =
      let ts := resend_times fuel next (now env) n (stop_at timeout (inbox env)) in
      match inbox env with
      | (a, msg) :: ib =>
          if decide (a <= timeout)%Z then on_msg msg (after env bytes ts (Z.max (now env) a) ib)
          else on_timeout (after env bytes ts timeout (inbox env))
      | [] => on_timeout (after env bytes ts timeout [])
      end.
Proof.
  intros HL Hm Hnext. induction fuel as [|fuel IH]; intros n env Hr Hn Ht Hf; [lia|].
  pose proof (Hnext n Hn) as [Hmn Hn'].
  rewrite HL, wait_round by first [done|lia]. cbn [resend_times].
  destruct (decide (now env + n < stop_at timeout (inbox env))%Z) as [Hlt|Hge].
  - assert (now env + n <= timeout)%Z as Hle.
    { unfold stop_at in Hlt. destruct (inbox env) as [|[a ?] ?]; [lia|]. case_decide; lia. }
    rewrite (after_nil _ bytes). cbv zeta. set (t := (now env + n)%Z) in *.
    change (now (after env bytes [] t (inbox env))) with t.
    change (inbox (after env bytes [] t (inbox env))) with (inbox env). rewrite after_after. cbn [app].
    rewrite IH; [|done|done|cbn; lia|cbn; lia]. cbv zeta.
    change (now (after env bytes [t] t (inbox env))) with t.
    change (inbox (after env bytes [t] t (inbox env))) with (inbox env).
    destruct (inbox env) as [|[a msg] ib] eqn:Ei; [by rewrite after_after|]. rewrite !after_after.
    destruct (decide (a <= timeout)%Z) as [Ha|Ha]; [|done].
    replace (Z.max t a) with (Z.max (now env) a); [done|]. cbn [stop_at] in Hlt. rewrite decide_True in Hlt by done. lia.
  - destruct (inbox env) as [|[a msg] ib]; [done|]. by destruct (decide (a <= timeout)%Z).
Qed.

(** A request that has been sent is sent with the same bytes. *)
Lemma send_again (r : OutgoingRequest) bytes (env : Env) : prepare_request user_agent print_uri r = Ret (r, bytes) ->
  send_outgoing_request send user_agent print_uri r env = Ret (Ok tt, r, after env bytes [now env] (now env) (inbox env)).
Proof. intros Hp. unfold send_outgoing_request, transport_send. rewrite Hp. cbn. by rewrite Hsend. Qed.

Lemma set_request_same (tsx : ClientTsx (Uri := Uri) (Tp := Tp)) : set_request (request tsx) tsx = tsx.
Proof. by destruct tsx. Qed.
Lemma enough_rounds m timeout t : (0 < m)%Z -> (t <= timeout)%Z ->
  (timeout - t < m * Z.of_nat (S (Z.to_nat ((timeout - t) / m))))%Z.
Proof.
  intros Hm Ht. pose proof (Z.div_pos (timeout - t) m ltac:(lia) Hm).
  pose proof (Z.mod_pos_bound (timeout - t) m Hm). pose proof (Z.div_mod (timeout - t) m ltac:(lia)). nia.
Qed.

Lemma stop_at_le timeout ib : (stop_at timeout ib <= timeout + 1)%Z.
Proof. unfold stop_at. destruct ib as [|[a msg] ib]; [lia|]. case_decide; lia. Qed.

(** The request of a non-INVITE transaction over an unreliable transport, when
    sending takes no time, is sent again every four seconds, until the first
    response arrives or the 32 seconds of the transaction are over; a response
    in time is handled when it arrives, and no call waits beyond the timeout. *)
Theorem client_schedule (tsx : ClientTsx (Uri := Uri) (Tp := Tp)) (env : Env) bytes :
  registered tsx = true -> state tsx = Init -> reliable (transport_of (request tsx)) = false ->
  prepare_request user_agent print_uri (request tsx) = Ret (request tsx, bytes) ->
  responses (inbox env) -> (now env <= timeout tsx <= now env + 64 * T1)%Z ->
  let resent := (fun d => (now env + d)%Z) <$>
    filter (fun d => d < stop_at (timeout tsx) (inbox env) - now env)%Z
      [4000; 8000; 12000; 16000; 20000; 24000; 28000; 32000]%Z in
  client_receive send reliable user_agent print_uri tsx env =
    match inbox env with
    | (a, msg) :: ib =>
        if decide (a <= timeout tsx)%Z then
          '(msg, tsx) ← handle_msg reliable tsx msg;
          Ret (Ok msg, tsx, after env bytes resent (Z.max (now env) a) ib)
        else Ret (Err RequestTimedOut, tsx, after env bytes resent (timeout tsx) (inbox env))
    | [] => Ret (Err RequestTimedOut, tsx, after env bytes resent (timeout tsx) [])
    end.
Proof.
  intros Hreg Hst Hrel Hp Hr Ht resent. unfold client_receive. rewrite Hreg, Hst, Hrel. cbn [negb].
  rewrite bool_decide_eq_true_2 by done. cbn [andb]. change T1 with 500%Z in Ht.
  set (fuel := S (Z.to_nat ((timeout tsx - now env) / T2))).
  assert (timeout tsx - now env < T2 * Z.of_nat fuel)%Z as Hf by (apply enough_rounds; [done|lia]).
  rewrite (rounds (fun fuel _ env => receive_retransmit send reliable user_agent print_uri fuel tsx env) (fun n => n)
    (timeout tsx) bytes (fun msg env => '(msg, tsx) ← handle_msg reliable tsx msg; Ret (Ok msg, tsx, env))
    (fun env => Ret (Err RequestTimedOut, tsx, env)) T2 (fun n => n = T2)
    ltac:(intros fuel' n env' ->; cbn [receive_retransmit]; destruct (wait_in _ _ _ _) as [[msg| |] e]; [done| |done];
          rewrite (send_again _ bytes) by done; cbn [mbind exec_bind]; by rewrite set_request_same)
    eq_refl ltac:(intros n ->; done) fuel T2 env Hr eq_refl ltac:(lia) Hf).
  pose proof (stop_at_le (timeout tsx) (inbox env)).
  rewrite (schedule (fun n => n) T2 fuel 9 (now env) T2 _
    [4000; 8000; 12000; 16000; 20000; 24000; 28000; 32000]%Z [36000]%Z 36000); try done; try lia.
  all: change T2 with 4000%Z in *; lia.
Qed.
(** The INVITE over an unreliable transport is sent again after half a second,
    and then each time after twice as long, six times at most, until the first
    response arrives or the 32 seconds are over; what the first response does
    to the transaction happens when it arrives. *)
Theorem invite_schedule (tsx : ClientInvTsx (Uri := Uri) (Tp := Tp)) (env : Env) bytes :
  inv_registered tsx = true -> inv_state tsx = InvInit -> reliable (transport_of (inv_request tsx)) = false ->
  prepare_request user_agent print_uri (inv_request tsx) = Ret (inv_request tsx, bytes) ->
  responses (inbox env) -> (now env <= inv_timeout tsx <= now env + 64 * T1)%Z ->
  let resent := (fun d => (now env + d)%Z) <$>
    filter (fun d => d < stop_at (inv_timeout tsx) (inbox env) - now env)%Z [500; 1500; 3500; 7500; 15500; 31500]%Z in
  inv_receive send reliable user_agent print_uri tsx env =
    match inbox env with
    | (a, msg) :: ib =>
        if decide (a <= inv_timeout tsx)%Z then
          inv_handle_msg send reliable user_agent print_uri tsx msg (after env bytes resent (Z.max (now env) a) ib)
        else Ret (Err RequestTimedOut, tsx, None, after env bytes resent (inv_timeout tsx) (inbox env))
    | [] => Ret (Err RequestTimedOut, tsx, None, after env bytes resent (inv_timeout tsx) [])
    end.
Proof.
  intros Hreg Hst Hrel Hp Hr Ht resent. unfold inv_receive. rewrite Hreg, Hst, Hrel. cbn [negb].
  rewrite bool_decide_eq_true_2 by done. cbn [andb]. change T1 with 500%Z in *.
  set (fuel := S (Z.to_nat ((inv_timeout tsx - now env) / 500))).
  assert (inv_timeout tsx - now env < 500 * Z.of_nat fuel)%Z as Hf by (apply enough_rounds; [done|lia]).
  rewrite (rounds (fun fuel n env => inv_retransmit send reliable user_agent print_uri fuel n tsx env) (fun n => n * 2)%Z
    (inv_timeout tsx) bytes (fun msg env => inv_handle_msg send reliable user_agent print_uri tsx msg env)
    (fun env => Ret (Err RequestTimedOut, tsx, None, env)) 500 (fun n => 500 <= n)%Z
    ltac:(intros fuel' n env' Hn; cbn [inv_retransmit]; destruct (wait_in _ _ _ _) as [[msg| |] e]; [done| |done];
          rewrite (send_again _ bytes) by done; cbn [mbind exec_bind]; by destruct tsx)
    eq_refl ltac:(cbv beta; lia) fuel 500%Z env Hr ltac:(cbv beta; lia) ltac:(lia) Hf).
  pose proof (stop_at_le (inv_timeout tsx) (inbox env)).
  rewrite (schedule (fun n => n * 2)%Z 500 fuel 65 (now env) 500 _
    [500; 1500; 3500; 7500; 15500; 31500]%Z (drop 6 (times 65 (fun n => n * 2)%Z 0 500)) 63500);
    [done|done|intros; lia|lia|lia|lia|by vm_compute|lia|by vm_compute].
Qed.
(** The headers of an ACK *)
Definition ack_values (request response : Headers.t) (cseq : Z) (n : Name.t) : list str :=
  let n := canonical n in
  if decide (n = Name.Via) then all_values Name.Via request
  else if decide (n = Name.From) then all_values Name.From request
  else if decide (n = Name.To) then all_values Name.To response
  else if decide (n = Name.CallID) then all_values Name.CallID request
  else if decide (n = Name.MaxForwards) then [lit "70"]
  else if decide (n = Name.CSeq) then [print_uint cseq ++ lit " ACK"]
  else [].

Lemma create_ack_spec (r : OutgoingRequest) (msg : TsxMessage) cseq :
  let h := rq_headers (oq_msg r) in
  all_values Name.Via h <> [] -> all_values Name.From h <> [] -> all_values Name.CallID h <> [] ->
  all_values Name.To (tm_headers msg) <> [] -> Headers.get_named CSeq.t h = Ok cseq ->
  exists headers, create_ack r msg =
    Ok {| oq_msg := {| rq_line := {| rl_method := Method.ACK; rl_uri := rl_uri (rq_line (oq_msg r)) |};
                       rq_headers := headers; rq_body := [] |};
          oq_parts := {| op_transport := transport_of r; destination := destination (oq_parts r); buffer := [] |} |} /\
    headers_wf headers /\
    forall n, parsed_name n -> all_values n headers = ack_values h (tm_headers msg) (CSeq.cseq cseq) n.
Proof.
  intros h Hv Hf Hi Ht Hc. unfold create_ack. fold h.
  destruct (clone_into_spec Headers.new Name.Via h new_wf I Hv) as (h1 & -> & W1 & V1). cbn [mbind result_bind].
  destruct (clone_into_spec h1 Name.From h W1 I Hf) as (h2 & -> & W2 & V2). cbn [mbind result_bind].
  destruct (clone_into_spec h2 Name.To (tm_headers msg) W2 I Ht) as (h3 & -> & W3 & V3). cbn [mbind result_bind].
  destruct (clone_into_spec h3 Name.CallID h W3 I Hi) as (h4 & -> & W4 & V4). cbn [mbind result_bind].
  rewrite Hc. cbn [mbind result_bind]. unfold Headers.insert_named.
  destruct (insert_type_spec Name.MaxForwards {| MaxForwards.max_forwards := 70 |} h4 W4 I) as [W5 V5]; [done|done|].
  set (c := {| CSeq.cseq := CSeq.cseq cseq; CSeq.method := Method.ACK |}).
  destruct (insert_type_spec Name.CSeq c _ W5 I) as [W6 V6]; [done|done|].
  eexists. split; [reflexivity|]. split; [exact W6|]. intros n Hn. fold c.
  rewrite V6, V5, V4, V3, V2, V1 by done.
  unfold ack_values. cbn [canonical]. cbv zeta. generalize (canonical n). intros m.
  replace (all_values n Headers.new) with (@nil str) by done.
  destruct (decide (Name.CSeq = m)) as [<-|]; [done|]. destruct (decide (Name.MaxForwards = m)) as [<-|]; [done|].
  destruct (decide (Name.CallID = m)) as [<-|]; [done|]. destruct (decide (Name.To = m)) as [<-|]; [done|].
  destruct (decide (Name.From = m)) as [<-|]; [done|]. destruct (decide (Name.Via = m)) as [<-|]; [done|].
  by rewrite !decide_False by congruence.
Qed.

(** The task of a completed transaction *)
Lemma ack_task_spec ack bytes deadline (env : Env) : prepare_request user_agent print_uri ack = Ret (ack, bytes) ->
  Forall (fun am => am.1 <= deadline)%Z (inbox env) ->
  exists env', ack_task send user_agent print_uri (ack, deadline) env = Ret env' /\
    (sent env').*2 = (sent env).*2 ++ replicate (length (inbox env)) bytes.
Proof.
  intros Hp. unfold ack_task. cbn [fst snd]. remember (inbox env) as ib eqn:Ei. revert env Ei.
  induction ib as [|[a msg] ib IH]; intros env Ei Ha; cbn [length ack_task_loop]; unfold wait_in; rewrite <-Ei;
    cbn [wait expiry].
  - eexists. split; [reflexivity|]. cbn. by rewrite app_nil_r.
  - apply Forall_cons in Ha as [Ha Hr]. cbn in Ha. rewrite decide_True by lia. cbn [andb].
    rewrite (send_again _ bytes) by done. cbn [mbind exec_bind].
    set (env1 := after _ _ _ _ _). destruct (IH env1 eq_refl Hr) as (env' & Hl & Hs). exists env'. split; [exact Hl|].
    rewrite Hs. unfold env1, after. cbn. rewrite fmap_app, <-app_assoc. done.
Qed.

(** A failed INVITE is acknowledged at once, and again for every copy of the
    failure: the final response ends the transaction; the ACK goes to where
    the INVITE went, and has its URI, Via and From headers, call and CSeq
    number, and the To header of the response; when the transport is
    unreliable the transaction's task answers every message of the next 32
    seconds with the same bytes; and further calls of [receive] give nothing. *)
Theorem failure_acknowledged (tsx : ClientInvTsx (Uri := Uri) (Tp := Tp)) (msg : TsxMessage) (env : Env) cseq :
  let h := rq_headers (oq_msg (inv_request tsx)) in
  inv_registered tsx = true ->
  StatusCode.kind (response_code msg) <> StatusCode.Provisional ->
  StatusCode.kind (response_code msg) <> StatusCode.Success ->
  all_values Name.Via h <> [] -> all_values Name.From h <> [] -> all_values Name.CallID h <> [] ->
  all_values Name.To (tm_headers msg) <> [] -> Headers.get_named CSeq.t h = Ok cseq ->
  exists ack tsx' bytes task,
    inv_handle_msg send reliable user_agent print_uri tsx msg env =
      Ret (Ok (Some msg), tsx', task, after env bytes [now env] (now env) (inbox env)) /\
    prepare_request user_agent print_uri ack = Ret (ack, bytes) /\
    rl_method (rq_line (oq_msg ack)) = Method.ACK /\
    rl_uri (rq_line (oq_msg ack)) = rl_uri (rq_line (oq_msg (inv_request tsx))) /\
    destination (oq_parts ack) = destination (oq_parts (inv_request tsx)) /\
    (forall n, parsed_name n -> canonical n <> Name.UserAgent -> canonical n <> Name.ContentLength ->
      all_values n (rq_headers (oq_msg ack)) = ack_values h (tm_headers msg) (CSeq.cseq cseq) n) /\
    (if reliable (transport_of (inv_request tsx)) then task = None
     else task = Some (ack, now env + 32000)%Z /\
       forall env' : Env, Forall (fun am => am.1 <= now env + 32000)%Z (inbox env') ->
         exists env'', ack_task send user_agent print_uri (ack, now env + 32000)%Z env' = Ret env'' /\
           (sent env'').*2 = (sent env').*2 ++ replicate (length (inbox env')) bytes) /\
    forall env' : Env, inv_receive send reliable user_agent print_uri tsx' env' = Ret (Ok None, tsx', None, env').
Proof.
  intros h Hreg Hp Hs Hv Hf Hi Ht Hc.
  destruct (create_ack_spec (inv_request tsx) msg cseq Hv Hf Hi Ht Hc) as (headers & Hack & Hwf & Hvals).
  set (ack0 := {| oq_msg := _; oq_parts := _ |}) in Hack.
  destruct (prepare_request_total user_agent print_uri ack0 Hwf eq_refl)
    as (ack & bytes & Hpr & Hne & Hagain & Hline & _ & Hdest & _ & _ & Hvals').
  assert (send_outgoing_request send user_agent print_uri ack0 env =
    Ret (Ok tt, ack, after env bytes [now env] (now env) (inbox env))) as Hsent.
  { unfold send_outgoing_request, transport_send. rewrite Hpr. cbn. by rewrite Hsend. }
  set (tsx' := set_inv false (inv_timeout tsx)
    (if reliable (transport_of (inv_request tsx)) then InvTerminated else InvCompleted) tsx).
  exists ack, tsx', bytes, (if reliable (transport_of (inv_request tsx)) then None else Some (ack, now env + 32000)%Z).
  split.
  { unfold inv_handle_msg. rewrite Hreg. cbn [set_inv inv_request inv_timeout inv_state]. rewrite Hack, Hsent.
    cbn [mbind exec_bind].
    destruct (StatusCode.kind (response_code msg)); try done; unfold tsx'; by destruct (reliable _). }
  split; [done|]. split; [by rewrite Hline|]. split; [by rewrite Hline|]. split; [by rewrite Hdest|].
  split; [intros n Hn Hu Hl; by rewrite Hvals', Hvals|]. split; [|done].
  destruct (reliable _); [done|]. split; [done|]. intros env' Ha.
  by apply ack_task_spec.
Qed.
End client.

(** ** Servers *)
Section server.
Context {Uri NameAddr Tp IoError : Type}.
#[local] Abbreviation TsxMessage := (TsxMessage Uri NameAddr Tp).
#[local] Abbreviation OutgoingResponse := (OutgoingResponse Tp).
#[local] Abbreviation Env := (Env (Uri := Uri) (NameAddr := NameAddr) (Tp := Tp)).
Context (send : Z -> list byte -> SocketAddr -> result IoError Z).
Context (reliable : Tp -> bool).

Definition is_ack (msg : TsxMessage) : Prop := request_method (tm_line msg) = Some Method.ACK.

(** When the transaction is given up: at the first retransmission after a
    time *)
Fixpoint giving_up (fuel : nat) (t n abandon : Z) : Z :=
  match fuel with
  | O => t
  | S fuel => if decide (t + n > abandon)%Z then (t + n)%Z else giving_up fuel (t + n) (Z.min (n * 2) T2) abandon
  end.

Lemma wait_single (env : Env) deadline :
  wait_in false None deadline env =
    match inbox env with
    | (a, msg) :: ib => if decide (a <= Z.max (now env) deadline)%Z then (Received msg, after env [] [] (Z.max (now env) a) ib)
                        else (OuterElapsed, after env [] [] (Z.max (now env) deadline) (inbox env))
    | [] => (OuterElapsed, after env [] [] (Z.max (now env) deadline) [])
    end.
Proof.
  unfold wait_in, after. rewrite app_nil_r. destruct (inbox env) as [|[a msg] ib]; cbn; [done|].
  by destruct (decide (a <= Z.max (now env) deadline)%Z).
Qed.

(** *** Sending takes no time *)
Section ideal.
Context (Hsend : forall t bytes destination, send t bytes destination = Ok t).

Lemma send_response_again (r : OutgoingResponse) bytes (env : Env) : prepare_response r = Ret (r, bytes) ->
  send_outgoing_response send r env = Ret (Ok tt, r, after env bytes [now env] (now env) (inbox env)).
Proof. intros Hp. unfold send_outgoing_response, transport_send. rewrite Hp. cbn. by rewrite Hsend. Qed.

Lemma giving_up_lower fuel : forall t n abandon, (0 <= n <= T2)%Z -> (t + n <= giving_up (S fuel) t n abandon)%Z.
Proof.
  induction fuel as [|fuel IH]; intros t n abandon Hn; cbn [giving_up].
  - destruct (decide (t + n > abandon)%Z); lia.
  - destruct (decide (t + n > abandon)%Z); [lia|].
    assert (0 <= Z.min (n * 2) T2 <= T2)%Z as Hn' by lia. specialize (IH (t + n)%Z _ abandon Hn').
    cbn [giving_up] in IH. lia.
Qed.

Lemma failure_rounds abandon bytes (r : OutgoingResponse) : prepare_response r = Ret (r, bytes) ->
  forall fuel n t (env : Env), now env = t -> (500 <= n <= T2)%Z -> (t <= abandon)%Z ->
  (abandon - t < 500 * Z.of_nat fuel)%Z ->
  match inbox env with [] => True | (_, msg) :: _ => is_ack msg end ->
  respond_failure_loop send fuel abandon n (t + n) r env =
    let last := giving_up fuel t n abandon in
    let resent stop := resend_times fuel (fun n => Z.min (n * 2) T2) t n stop in
    match inbox env with
    | (a, msg) :: ib =>
        if decide (a <= last)%Z then Ret (Ok tt, after env bytes (resent (Z.min a (abandon + 1))) (Z.max t a) ib)
        else Ret (Err RequestTimedOut, after env bytes (resent (abandon + 1)%Z) last (inbox env))
    | [] => Ret (Err RequestTimedOut, after env bytes (resent (abandon + 1)%Z) last [])
    end.
Proof.
  intros Hp. induction fuel as [|fuel IH]; intros n t env Ht Hn Hta Hf Hack; [lia|].
  cbn [respond_failure_loop]. rewrite wait_single, Ht. replace (Z.max t (t + n)) with (t + n)%Z by lia.
  pose proof (giving_up_lower fuel t n abandon ltac:(lia)) as Hlow.
  set (n' := Z.min (n * 2) T2). assert (500 <= n' <= T2)%Z as Hn' by (unfold n'; change T2 with 4000%Z in *; lia).
  assert (forall ib, inbox env = ib -> ~ (t + n > abandon)%Z ->
    respond_failure_loop send fuel abandon n' (t + n + n') r (after env bytes [t + n]%Z (t + n) ib) =
      let last := giving_up fuel (t + n) n' abandon in
      let resent stop := resend_times fuel (fun n => Z.min (n * 2) T2) (t + n) n' stop in
      match ib with
      | (a, msg) :: ib' =>
          if decide (a <= last)%Z then
            Ret (Ok tt, after env bytes ([t + n]%Z ++ resent (Z.min a (abandon + 1))) (Z.max (t + n) a) ib')
          else Ret (Err RequestTimedOut, after env bytes ([t + n]%Z ++ resent (abandon + 1)%Z) last ib)
      | [] => Ret (Err RequestTimedOut, after env bytes ([t + n]%Z ++ resent (abandon + 1)%Z) last [])
      end) as Hrec.
  { intros ib Hib Hle. rewrite Hib in Hack.
    rewrite (IH n' (t + n)%Z (after env bytes [t + n]%Z (t + n) ib)); [|done|done|lia|lia|exact Hack].
    cbv zeta. change (inbox (after env bytes [t + n]%Z (t + n) ib)) with ib.
    destruct ib as [|[a msg] ib']; rewrite ?after_after; done. }
  cbn [giving_up resend_times]. fold n'. destruct (inbox env) as [|[a msg] ib] eqn:Ei.
  - cbn [now after]. destruct (decide (t + n > abandon)%Z) as [Hgt|Hle].
    + by rewrite decide_False by lia.
    + fold (after env [] [] (t + n) []). rewrite (after_nil _ bytes), (send_response_again _ bytes) by done.
      cbn [mbind exec_bind]. change (now (after env bytes [] (t + n) [])) with (t + n)%Z.
      change (inbox (after env bytes [] (t + n) [])) with (@nil (Z * TsxMessage)). rewrite after_after. cbn [app].
      change (now (after env bytes [(t + n)%Z] (t + n) [])) with (t + n)%Z. fold n'. rewrite (Hrec [] eq_refl Hle).
      by rewrite decide_True by lia.
  - destruct (decide (a <= t + n)%Z) as [Ha|Ha].
    + rewrite Hack. cbn [giving_up] in Hlow. fold n' in Hlow. rewrite decide_True by lia. by rewrite decide_False by lia.
    + change (now (after env [] [] (t + n) ((a, msg) :: ib))) with (t + n)%Z.
      destruct (decide (t + n > abandon)%Z) as [Hgt|Hle].
      * rewrite decide_False by lia. by rewrite decide_False by lia.
      * rewrite (after_nil _ bytes), (send_response_again _ bytes) by done. cbn [mbind exec_bind].
        change (now (after env bytes [] (t + n) ((a, msg) :: ib))) with (t + n)%Z.
        change (inbox (after env bytes [] (t + n) ((a, msg) :: ib))) with ((a, msg) :: ib).
        rewrite after_after. cbn [app].
        change (now (after env bytes [(t + n)%Z] (t + n) ((a, msg) :: ib))) with (t + n)%Z. fold n'.
        rewrite (Hrec _ eq_refl Hle). cbv zeta.
        rewrite (decide_True (P := (t + n < Z.min a (abandon + 1))%Z)) by lia.
        rewrite (decide_True (P := (t + n < abandon + 1)%Z)) by lia.
        by replace (Z.max (t + n) a) with (Z.max t a) by lia.
Qed.

(** The failure response to an INVITE is sent again after half a second, then
    each time after twice as long, but at most four seconds, until the ACK
    arrives. The transaction is given up at the first retransmission after
    its 32 seconds, 35.5 seconds after the response was sent, not when the 32
    seconds are over, as the comment in the code says; an ACK until then ends
    it well. *)
Theorem failure_schedule (response : OutgoingResponse) (env : Env) response' bytes :
  StatusCode.kind (sl_code (rs_line (os_msg response))) <> StatusCode.Provisional ->
  StatusCode.kind (sl_code (rs_line (os_msg response))) <> StatusCode.Success ->
  prepare_response response = Ret (response', bytes) -> bytes <> [] ->
  match inbox env with [] => True | (_, msg) :: _ => is_ack msg end ->
  let t := now env in
  let sent_until stop := t :: ((fun d => (t + d)%Z) <$> filter (fun d => d < stop)%Z
    [500; 1500; 3500; 7500; 11500; 15500; 19500; 23500; 27500; 31500]%Z) in
  respond_failure send response env =
    match inbox env with
    | (a, msg) :: ib =>
        if decide (a <= t + 35500)%Z then Ret (Ok tt, after env bytes (sent_until (a - t))%Z (Z.max t a) ib)
        else Ret (Err RequestTimedOut, after env bytes (sent_until 32001%Z) (t + 35500) (inbox env))
    | [] => Ret (Err RequestTimedOut, after env bytes (sent_until 32001%Z) (t + 35500) [])
    end.
Proof.
  intros Hk Hk' Hp Hne Hack t sent_until.
  assert (prepare_response response' = Ret (response', bytes)) as Hp' by (by apply (prepare_response_again response)).
  unfold respond_failure.
  assert (forall A (x y : A), match StatusCode.kind (sl_code (rs_line (os_msg response))) with
    | StatusCode.Provisional | StatusCode.Success => x | _ => y end = y) as -> by (intros; by destruct (StatusCode.kind _)).
  unfold send_outgoing_response, transport_send. rewrite Hp. cbn [mbind exec_bind]. rewrite Hsend.
  fold t. change {| now := t; inbox := inbox env; sent := sent env ++ [(t, bytes)] |} with (after env bytes [t] t (inbox env)).
  cbn [mbind exec_bind]. change (now (after env bytes [t] t (inbox env))) with t.
  change (inbox (after env bytes [t] t (inbox env))) with (inbox env).
  change (T1 * 64)%Z with 32000%Z. change T1 with 500%Z. set (fuel := length (inbox env) + 66).
  rewrite (failure_rounds (t + 32000) bytes response' Hp' fuel 500 t);
    [|done|done|lia|unfold fuel; lia|exact Hack].
  assert (giving_up fuel t 500 (t + 32000) = t + 35500)%Z as ->.
  { replace fuel with (11 + (length (inbox env) + 55)) by (unfold fuel; lia). generalize (length (inbox env) + 55).
    intros f. cbn [Nat.add giving_up]. change T2 with 4000%Z.
    do 10 (rewrite decide_False by lia). rewrite decide_True by lia. lia. }
  assert (forall stop, (stop <= t + 32001)%Z -> resend_times fuel (fun n => Z.min (n * 2) T2) t 500 stop =
    (fun d => (t + d)%Z) <$> filter (fun d => d < stop - t)%Z
      [500; 1500; 3500; 7500; 11500; 15500; 19500; 23500; 27500; 31500]%Z) as Hres.
  { intros stop Hs. change T2 with 4000%Z.
    apply (schedule _ 500 fuel 65 t 500 stop _ (drop 10 (times 65 (fun n => Z.min (n * 2) 4000) 0 500)) 35500);
      [done|intros; lia|lia|unfold fuel; lia|lia|by vm_compute|lia|by vm_compute]. }
  cbv zeta. change (inbox (after env bytes [t] t (inbox env))) with (inbox env).
  destruct (inbox env) as [|[a msg] ib]; rewrite ?after_after, !Hres by lia.
  - unfold sent_until. by replace (t + 32000 + 1 - t)%Z with 32001%Z by lia.
  - destruct (decide (a <= t + 35500)%Z) as [Ha|Ha]; [|by replace (t + 32000 + 1 - t)%Z with 32001%Z by lia].
    unfold sent_until. cbn [app]. do 5 f_equal.
    destruct (decide (a <= t + 32001)%Z) as [Hb|Hb]; [by rewrite Z.min_l by lia|]. rewrite Z.min_r by lia.
    assert (forall stop, (31501 <= stop)%Z -> filter (fun d => d < stop)%Z
      [500; 1500; 3500; 7500; 11500; 15500; 19500; 23500; 27500; 31500]%Z =
      [500; 1500; 3500; 7500; 11500; 15500; 19500; 23500; 27500; 31500]%Z) as Hall.
    { intros stop Hs. do 10 (rewrite filter_cons_True by lia; f_equal). }
    by rewrite !Hall by lia.
Qed.
End ideal.

(** *** Sending takes any time, and may fail *)
Section ends.
Context (Hmono : forall t bytes destination t', send t bytes destination = Ok t' -> (t <= t')%Z).

Lemma wait_end responses inner outer (env : Env) w env' : wait_in responses inner outer env = (w, env') ->
  (now env <= now env')%Z /\ sent env' = sent env /\
  match w with
  | Received _ => length (inbox env') < length (inbox env)
  | InnerElapsed => length (inbox env') <= length (inbox env) /\ exists d, inner = Some d /\ (d <= now env')%Z /\ (d <= outer)%Z
  | OuterElapsed => length (inbox env') <= length (inbox env) /\ (outer <= now env')%Z
  end.
Proof.
  unfold wait_in. destruct (wait _ _ _ _ _) as [[w' t'] ib'] eqn:E. intros [= <- <-]. cbn.
  enough ((now env <= t')%Z /\ match w' with
    | Received _ => length ib' < length (inbox env)
    | InnerElapsed => length ib' <= length (inbox env) /\ exists d, inner = Some d /\ (d <= t')%Z /\ (d <= outer)%Z
    | OuterElapsed => length ib' <= length (inbox env) /\ (outer <= t')%Z end) as [? ?] by done.
  revert E. generalize (now env). induction (inbox env) as [|[a msg] ib IH]; intros t E; cbn in E.
  - unfold expiry in E. destruct inner as [d|]; [case_decide|]; cbn in E; injection E as <- <- <-; repeat split; eauto; try lia.
    exists d. split; [done|lia].
  - destruct (expiry inner outer) as [e el] eqn:Ee. destruct (decide (a <= Z.max t e)%Z) as [Ha|Ha].
    + destruct (responses && is_request_line (tm_line msg)).
      * destruct (IH _ E) as [H1 H2]. split; [lia|]. destruct w'; cbn; intuition lia.
      * injection E as <- <- <-. cbn. lia.
    + injection E as <- <- <-. split; [lia|]. unfold expiry in Ee. destruct inner as [d|]; [case_decide|]; injection Ee as <- <-;
        cbn; repeat split; eauto; try lia. exists d. split; [done|lia].
Qed.

Lemma send_response_end (r : OutgoingResponse) bytes (env : Env) : prepare_response r = Ret (r, bytes) ->
  exists x env', send_outgoing_response send r env = Ret (x, r, env') /\ (now env <= now env')%Z /\ inbox env' = inbox env.
Proof.
  intros Hp. unfold send_outgoing_response, transport_send. rewrite Hp. cbn [mbind exec_bind].
  destruct (send _ _ _) as [t'|e] eqn:E; eexists _, _; (split; [reflexivity|]); cbn.
  - by apply Hmono in E.
  - done.
Qed.

Lemma failure_loop_end abandon (r : OutgoingResponse) bytes : prepare_response r = Ret (r, bytes) ->
  forall fuel n t (env : Env), (250 <= n <= T2)%Z ->
  (Z.of_nat (length (inbox env)) + Z.max 0 ((abandon - t) / 500 + 1) + 1 <= Z.of_nat fuel)%Z ->
  exists x env', respond_failure_loop send fuel abandon n t r env = Ret (x, env').
Proof.
  intros Hp. induction fuel as [|fuel IH]; intros n t env Hn Hf; [lia|]. cbn [respond_failure_loop].
  destruct (wait_in false None t env) as [w env1] eqn:Ew. apply wait_end in Ew as (Ht & _ & Hw).
  destruct (send_response_end r bytes env1 Hp) as (x & env2 & Hs & Ht2 & Hi2).
  destruct w as [msg| |].
  - destruct (request_method (tm_line msg)) as [[]|]; try (apply IH; [done|lia]); [|by eauto].
    rewrite Hs. cbn [mbind exec_bind]. destruct x; [|by eauto]. apply IH; [done|]. rewrite Hi2. lia.
  - destruct Hw as (_ & d & [=] & _).
  - destruct Hw as [Hi Hto]. destruct (decide (now env1 > abandon)%Z); [by eauto|].
    rewrite Hs. cbn [mbind exec_bind]. destruct x; [|by eauto]. change T2 with 4000%Z in *.
    apply IH; [lia|]. rewrite Hi2.
    pose proof (Z.div_le_mono (abandon - (now env2 + Z.min (n * 2) 4000)) (abandon - t - 500) 500 ltac:(lia) ltac:(lia)).
    replace (abandon - t - 500)%Z with (abandon - t + (-1) * 500)%Z in H by lia. rewrite Z.div_add in H by lia.
    pose proof (Z.div_pos (abandon - t) 500 ltac:(lia) ltac:(lia)). lia.
Qed.

Lemma answer_loop_end deadline (r : OutgoingResponse) bytes : prepare_response r = Ret (r, bytes) ->
  forall fuel (env : Env), length (inbox env) < fuel -> exists env', answer_loop send fuel deadline r env = Ret env'.
Proof.
  intros Hp. induction fuel as [|fuel IH]; intros env Hf; [lia|]. cbn [answer_loop].
  destruct (wait_in false None deadline env) as [w env1] eqn:Ew. apply wait_end in Ew as (_ & _ & Hw).
  destruct w as [msg| |]; [|by eauto..]. destruct (is_request_line (tm_line msg)); [|apply IH; lia].
  destruct (send_response_end r bytes env1 Hp) as (x & env2 & -> & _ & Hi). cbn [mbind exec_bind].
  apply IH. rewrite Hi. lia.
Qed.
End ends.
End server.

(** ** Every loop ends *)
Section termination.
Context {Uri NameAddr Tp IoError : Type}.
#[local] Abbreviation TsxMessage := (TsxMessage Uri NameAddr Tp).
#[local] Abbreviation OutgoingRequest := (OutgoingRequest Uri Tp).
#[local] Abbreviation Env := (Env (Uri := Uri) (NameAddr := NameAddr) (Tp := Tp)).
#[local] Abbreviation ClientTsx := (ClientTsx (Uri := Uri) (Tp := Tp)).
#[local] Abbreviation ClientInvTsx := (ClientInvTsx (Uri := Uri) (Tp := Tp)).
Context (send : Z -> list byte -> SocketAddr -> result IoError Z).
Context (reliable : Tp -> bool) (user_agent : option str) (print_uri : Uri -> str).
Context `{DecodeValues CSeq.t}.
Context (Hmono : forall t bytes destination t', send t bytes destination = Ok t' -> (t <= t')%Z).

(** A request that has been sent: it prints as the bytes it keeps. *)
Definition sent_request (r : OutgoingRequest) : Prop :=
  exists bytes, prepare_request user_agent print_uri r = Ret (r, bytes).

Lemma send_request_end (r : OutgoingRequest) (env : Env) : sent_request r ->
  exists x env', send_outgoing_request send user_agent print_uri r env = Ret (x, r, env') /\
    (now env <= now env')%Z /\ inbox env' = inbox env.
Proof.
  intros [bytes Hp]. unfold send_outgoing_request, transport_send. rewrite Hp. cbn [mbind exec_bind].
  destruct (send _ _ _) as [t'|e] eqn:E; eexists _, _; (split; [reflexivity|]); cbn.
  - by apply Hmono in E.
  - done.
Qed.

Lemma handle_msg_end (tsx : ClientTsx) (msg : TsxMessage) : registered tsx = true ->
  exists tsx', handle_msg reliable tsx msg = Ret (msg, tsx') /\
    (StatusCode.kind (response_code msg) = StatusCode.Provisional ->
      registered tsx' = true /\ state tsx' = Proceeding /\ request tsx' = request tsx).
Proof.
  intros Hr. unfold handle_msg. destruct (StatusCode.kind (response_code msg)) eqn:E;
    rewrite ?Hr; eexists; (split; [reflexivity|]); done.
Qed.

(** What a call of [receive] gives *)
Definition received (tsx : ClientTsx) (env : Env) (r : result (Error (IoError := IoError)) TsxMessage) (tsx' : ClientTsx) (env' : Env) : Prop :=
  forall msg, r = Ok msg -> length (inbox env') < length (inbox env) /\
    (StatusCode.kind (response_code msg) = StatusCode.Provisional ->
      registered tsx' = true /\ state tsx' = Proceeding /\ request tsx' = request tsx).

Lemma receive_retransmit_end (tsx : ClientTsx) : registered tsx = true -> sent_request (request tsx) ->
  forall fuel (env : Env), 0 < fuel -> (timeout tsx - now env < T2 * Z.of_nat fuel)%Z ->
  exists r tsx' env', receive_retransmit send reliable user_agent print_uri fuel tsx env = Ret (r, tsx', env') /\
    received tsx env r tsx' env'.
Proof.
  intros Hr Hs. induction fuel as [|fuel IH]; intros env H0 Hf; [lia|]. cbn [receive_retransmit].
  destruct (wait_in _ _ _ env) as [w env1] eqn:Ew. apply wait_end in Ew as (Ht & _ & Hw).
  change T2 with 4000%Z in *. destruct w as [msg| |].
  - destruct (handle_msg_end tsx msg Hr) as (tsx' & -> & Hp). cbn [mbind exec_bind].
    eexists _, _, _. split; [reflexivity|]. intros msg' [= <-]. auto.
  - destruct Hw as (Hi & d & [= <-] & Hd & Ho).
    destruct (send_request_end _ env1 Hs) as (x & env2 & -> & Ht2 & Hi2). cbn [mbind exec_bind].
    rewrite set_request_same. destruct x as [[]|e]; [|by eexists _, _, _].
    destruct (IH env2) as (r & tsx' & env' & -> & Hres); [lia|lia|].
    eexists _, _, _. split; [reflexivity|]. intros msg E. destruct (Hres msg E). rewrite Hi2 in *. split; [lia|done].
  - by eexists _, _, _.
Qed.

Lemma client_receive_end (tsx : ClientTsx) (env : Env) : registered tsx = true ->
  state tsx = Init \/ state tsx = Proceeding -> sent_request (request tsx) ->
  exists r tsx' env', client_receive send reliable user_agent print_uri tsx env = Ret (r, tsx', env') /\
    received tsx env r tsx' env'.
Proof.
  intros Hr Hst Hs. unfold client_receive. rewrite Hr. cbn [negb].
  assert (forall A (x y : A), match state tsx with Init | Proceeding => x | _ => y end = x) as ->
    by (intros; by destruct Hst as [-> | ->]).
  destruct (bool_decide _ && _).
  - apply receive_retransmit_end; [done|done|lia|].
    destruct (Z.le_gt_cases (now env) (timeout tsx)); [by apply enough_rounds|]. change T2 with 4000%Z. lia.
  - destruct (wait_in _ _ _ env) as [w env1] eqn:Ew. apply wait_end in Ew as (_ & _ & Hw).
    destruct w as [msg| |]; [|by eexists _, _, _..].
    destruct (handle_msg_end tsx msg Hr) as (tsx' & -> & Hp). cbn [mbind exec_bind].
    eexists _, _, _. split; [reflexivity|]. intros msg' [= <-]. auto.
Qed.

Lemma receive_final_end fuel : forall (tsx : ClientTsx) (env : Env), registered tsx = true ->
  state tsx = Init \/ state tsx = Proceeding -> sent_request (request tsx) -> length (inbox env) < fuel ->
  exists r tsx' env', receive_final_loop send reliable user_agent print_uri fuel tsx env = Ret (r, tsx', env') /\
    forall msg, r = Ok msg -> StatusCode.kind (response_code msg) <> StatusCode.Provisional.
Proof.
  induction fuel as [|fuel IH]; intros tsx env Hr Hst Hs Hf; [lia|]. cbn [receive_final_loop].
  destruct (client_receive_end tsx env Hr Hst Hs) as (r & tsx' & env' & -> & Hrec). cbn [mbind exec_bind].
  destruct r as [msg|e]; [|by eexists _, _, _]. destruct (Hrec msg eq_refl) as [Hlt Hp].
  destruct (decide _) as [Hk|Hk].
  - destruct (Hp Hk) as (H1 & H2 & H3). apply IH; [done|by right|by rewrite H3|lia].
  - eexists _, _, _. split; [reflexivity|]. by intros ? [= <-].
Qed.

Lemma toss_end fuel deadline : forall env : Env, length (inbox env) < fuel -> exists env', toss fuel deadline env = Ret env'.
Proof.
  induction fuel as [|fuel IH]; intros env Hf; [lia|]. cbn [toss].
  destruct (wait_in _ _ _ env) as [w env1] eqn:Ew. apply wait_end in Ew as (_ & _ & Hw).
  destruct w as [msg| |]; [apply IH; lia|by eauto..].
Qed.

(** *** INVITE *)
Lemma clone_into_wf dst n h dst' : headers_wf dst -> parsed_name n -> Headers.clone_into dst n h = Ok dst' -> headers_wf dst'.
Proof.
  intros Hwf Hn. unfold Headers.clone_into. destruct (Headers.entry n h) as [e|]; [|done].
  destruct (Headers.values e) as [v|vs]; intros [= <-].
  - by apply (insert_spec n v dst _ Hwf Hn (or_introl eq_refl)).
  - by apply (insert_all_spec n vs dst Hwf Hn).
Qed.

Lemma create_ack_wf (r : OutgoingRequest) (msg : TsxMessage) ack : create_ack r msg = Ok ack ->
  headers_wf (rq_headers (oq_msg ack)) /\ buffer (oq_parts ack) = [].
Proof.
  unfold create_ack. intros Ha.
  destruct (Headers.clone_into Headers.new _ _) as [h1|] eqn:E1; [|done]. apply clone_into_wf in E1; [|apply new_wf|done].
  cbn [mbind result_bind] in Ha. destruct (Headers.clone_into h1 _ _) as [h2|] eqn:E2; [|done].
  apply clone_into_wf in E2; [|done|done]. cbn [mbind result_bind] in Ha.
  destruct (Headers.clone_into h2 _ _) as [h3|] eqn:E3; [|done]. apply clone_into_wf in E3; [|done|done].
  cbn [mbind result_bind] in Ha. destruct (Headers.clone_into h3 _ _) as [h4|] eqn:E4; [|done].
  apply clone_into_wf in E4; [|done|done]. cbn [mbind result_bind] in Ha.
  destruct (Headers.get_named _ _) as [c|]; [|done]. injection Ha as <-. cbn. split; [|done].
  apply insert_type_spec; [|done..]. by apply insert_type_spec.
Qed.

Lemma inv_handle_msg_end (tsx : ClientInvTsx) (msg : TsxMessage) (env : Env) : inv_registered tsx = true ->
  exists r, inv_handle_msg send reliable user_agent print_uri tsx msg env = Ret r.
Proof.
  intros Hr. unfold inv_handle_msg. destruct (StatusCode.kind (response_code msg)); try by eauto.
  all: rewrite Hr; cbn [set_inv inv_request]; destruct (create_ack (inv_request tsx) msg) as [ack|e] eqn:Ea; [|by eauto].
  all: apply create_ack_wf in Ea as [Hw Hb].
  all: destruct (prepare_request_total user_agent print_uri ack Hw Hb) as (ack' & bytes & Hp & _).
  all: unfold send_outgoing_request, transport_send; rewrite Hp; cbn [mbind exec_bind].
  all: destruct (send _ _ _); [destruct (reliable _)|]; by eauto.
Qed.

Lemma inv_retransmit_end (tsx : ClientInvTsx) : inv_registered tsx = true -> sent_request (inv_request tsx) ->
  forall fuel n (env : Env), 0 < fuel -> (500 <= n)%Z -> (inv_timeout tsx - now env < 500 * Z.of_nat fuel)%Z ->
  exists r, inv_retransmit send reliable user_agent print_uri fuel n tsx env = Ret r.
Proof.
  intros Hr Hs. induction fuel as [|fuel IH]; intros n env H0 Hn Hf; [lia|]. cbn [inv_retransmit].
  destruct (wait_in _ _ _ env) as [w env1] eqn:Ew. apply wait_end in Ew as (Ht & _ & Hw).
  destruct w as [msg| |]; [by apply inv_handle_msg_end| |by eauto].
  destruct Hw as (_ & d & [= <-] & Hd & Ho).
  destruct (send_request_end _ env1 Hs) as (x & env2 & -> & Ht2 & _). cbn [mbind exec_bind].
  destruct x as [[]|e]; [|by eauto]. destruct tsx. apply IH; cbn in *; lia.
Qed.

Lemma inv_receive_end (tsx : ClientInvTsx) (env : Env) : sent_request (inv_request tsx) ->
  exists r, inv_receive send reliable user_agent print_uri tsx env = Ret r.
Proof.
  intros Hs. unfold inv_receive. destruct (inv_registered tsx) eqn:Hr; [|by eauto]. cbn [negb].
  assert (exists r, (if bool_decide (inv_state tsx = InvInit) && negb (reliable (transport_of (inv_request tsx))) then
      inv_retransmit send reliable user_agent print_uri (S (Z.to_nat ((inv_timeout tsx - now env) / T1))) T1 tsx env
    else let '(w, env) := wait_in true None (inv_timeout tsx) env in
      match w with
      | Received msg => inv_handle_msg send reliable user_agent print_uri tsx msg env
      | _ => Ret (Err RequestTimedOut, tsx, None, env)
      end) = Ret r).
  { destruct (bool_decide _ && _).
    - change T1 with 500%Z. apply inv_retransmit_end; [done|done|lia|lia|].
      destruct (Z.le_gt_cases (now env) (inv_timeout tsx)); [by apply enough_rounds|lia].
    - destruct (wait_in _ _ _ env) as [[msg| |] env1]; [by apply inv_handle_msg_end|by eauto..]. }
  destruct (inv_state tsx); try done; try by eauto.
  destruct (wait_in _ _ _ env) as [[msg| |] env1]; by eauto.
Qed.

Lemma ack_task_end deadline (ack : OutgoingRequest) : sent_request ack ->
  forall fuel (env : Env), length (inbox env) < fuel ->
  exists env', ack_task_loop send user_agent print_uri fuel deadline ack env = Ret env'.
Proof.
  intros Hs. induction fuel as [|fuel IH]; intros env Hf; [lia|]. cbn [ack_task_loop].
  destruct (wait_in _ _ _ env) as [w env1] eqn:Ew. apply wait_end in Ew as (_ & _ & Hw).
  destruct w as [msg| |]; [|by eauto..].
  destruct (send_request_end ack env1 Hs) as (x & env2 & -> & _ & Hi). cbn [mbind exec_bind]. apply IH. rewrite Hi. lia.
Qed.

(** C32: Every loop of the transactions ends, whatever messages arrive and
    however long sending takes, and even when it fails: waiting for a
    response or for the final one, for the answer to an INVITE, for the ACK
    of a failure, and the tasks of completed transactions; none of them
    panics. *)
Theorem transactions_end (tsx : ClientTsx) (inv : ClientInvTsx) (response response' : OutgoingResponse Tp) bytes
    (ack : OutgoingRequest) deadline (env : Env) :
  registered tsx = true -> state tsx = Init \/ state tsx = Proceeding -> sent_request (request tsx) ->
  sent_request (inv_request inv) -> sent_request ack ->
  StatusCode.kind (sl_code (rs_line (os_msg response))) <> StatusCode.Provisional ->
  StatusCode.kind (sl_code (rs_line (os_msg response))) <> StatusCode.Success ->
  prepare_response response = Ret (response', bytes) -> bytes <> [] ->
  (exists r, client_receive send reliable user_agent print_uri tsx env = Ret r) /\
  (exists r tsx' env', receive_final send reliable user_agent print_uri tsx env = Ret (r, tsx', env') /\
    forall msg, r = Ok msg -> StatusCode.kind (response_code msg) <> StatusCode.Provisional) /\
  (exists r, inv_receive send reliable user_agent print_uri inv env = Ret r) /\
  (exists r, respond_failure send response env = Ret r) /\
  (exists env', completed_task env = Ret env') /\
  (exists env', ack_task send user_agent print_uri (ack, deadline) env = Ret env') /\
  (exists env', answer_task send (response', deadline) env = Ret env').
Proof.
  intros Hr Hst Hs Hi Ha Hk Hk' Hp Hne.
  assert (prepare_response response' = Ret (response', bytes)) as Hp' by (by apply (prepare_response_again response)).
  split; [|split; [|split; [|split; [|split; [|split]]]]].
  - destruct (client_receive_end tsx env Hr Hst Hs) as (r & tsx' & env' & -> & _). eauto.
  - apply receive_final_end; [done|done|done|lia].
  - by apply inv_receive_end.
  - unfold respond_failure.
    assert (forall A (x y : A), match StatusCode.kind (sl_code (rs_line (os_msg response))) with
      | StatusCode.Provisional | StatusCode.Success => x | _ => y end = y) as -> by (intros; by destruct (StatusCode.kind _)).
    unfold send_outgoing_response at 1, transport_send at 1. rewrite Hp. cbn [mbind exec_bind].
    destruct (send _ _ _) as [t'|e]; [|by eauto]. cbn [mbind exec_bind now inbox].
    change (T1 * 64)%Z with 32000%Z. change T1 with 500%Z.
    match goal with |- context [respond_failure_loop _ _ _ _ _ _ ?e] => set (env1 := e) end.
    destruct (failure_loop_end send Hmono (t' + 32000) response' bytes Hp' (length (inbox env) + 66) 500 (t' + 500) env1)
      as (x & env' & ->); [change T2 with 4000%Z; lia| |by eauto]. cbn [inbox env1].
    replace (t' + 32000 - (t' + 500))%Z with 31500%Z by lia. change (31500 / 500)%Z with 63%Z. lia.
  - apply toss_end. lia.
  - apply ack_task_end; [done|cbn; lia].
  - apply (answer_loop_end send Hmono deadline response' bytes Hp'). cbn. lia.
Qed.
End termination.

(** ** Examples *)
Definition instant (t : Z) (_ : list byte) (_ : SocketAddr) : result unit Z := Ok t.
#[local] Instance sample_cseq_decode : DecodeValues CSeq.t := {|
  decode_values _ := Ok {| CSeq.cseq := 1; CSeq.method := Method.INVITE |} |}.

Definition sample_out (m : Method.t) : OutgoingRequest unit unit :=
  {| oq_msg := {| rq_line := {| rl_method := m; rl_uri := tt |};
                  rq_headers := Headers.extend [(Name.Via, lit "v"); (Name.From, lit "f"); (Name.CallID, lit "c");
                                                (Name.CSeq, lit "1 INVITE")] Headers.new;
                  rq_body := [] |};
     oq_parts := {| op_transport := tt; destination := V4 1 5060; buffer := lit "bytes" |} |}.

Definition sample_tsx_response (code : StatusCode.t) : TsxMessage unit unit unit :=
  {| tm_tp_info := {| source := V4 1 5060; tp := tt |};
     tm_line := ResponseL {| sl_code := code; sl_reason := None |};
     tm_base_headers := sample_base Method.INVITE (lit "z9hG4bK1");
     tm_headers := Headers.insert Name.To (lit "t") Headers.new; tm_body := [] |}.

Definition sample_env (ib : list (Z * TsxMessage unit unit unit)) : Env (Uri := unit) (NameAddr := unit) (Tp := unit) :=
  {| now := 0; inbox := ib; sent := [] |}.

Definition sample_tsx : ClientTsx (Uri := unit) (Tp := unit) :=
  {| registered := true; request := sample_out Method.BYE; timeout := 32000; state := Init |}.
Definition sample_inv : ClientInvTsx (Uri := unit) (Tp := unit) :=
  {| inv_registered := true; inv_request := sample_out Method.INVITE; inv_timeout := 32000; inv_state := InvInit |}.

Lemma sample_sent m : sent_request None (fun _ : unit => []) (sample_out m).
Proof. by exists (lit "bytes"). Qed.

(** Without a response the request is sent eight times more. *)
Lemma client_schedule_witness :
  client_receive instant (fun _ => false) None (fun _ => []) sample_tsx (sample_env []) =
    Ret (Err RequestTimedOut, sample_tsx,
      after (sample_env []) (lit "bytes") [4000; 8000; 12000; 16000; 20000; 24000; 28000; 32000]%Z 32000 []).
Proof.
  eapply eq_trans; [apply (client_schedule instant (fun _ => false) None (fun _ => []) ltac:(done) sample_tsx
    (sample_env []) (lit "bytes")); try reflexivity|reflexivity].
  - constructor.
  - split; apply Z.leb_le; reflexivity.
Defined.

(** A ringing phone after two seconds: two retransmissions. *)
Lemma invite_schedule_witness :
  exists tsx, inv_receive instant (fun _ => false) None (fun _ => []) sample_inv
      (sample_env [(2000%Z, sample_tsx_response StatusCode.RINGING)]) =
    Ret (Ok (Some (sample_tsx_response StatusCode.RINGING)), tsx, None,
      after (sample_env []) (lit "bytes") [500; 1500]%Z 2000 []).
Proof.
  eexists. eapply eq_trans; [apply (invite_schedule instant (fun _ => false) None (fun _ => []) ltac:(done) sample_inv
    (sample_env [(2000%Z, sample_tsx_response StatusCode.RINGING)]) (lit "bytes")); try reflexivity|reflexivity].
  - repeat constructor.
  - split; apply Z.leb_le; reflexivity.
Defined.

Lemma failure_acknowledged_witness :
  exists ack : OutgoingRequest unit unit, rl_method (rq_line (oq_msg ack)) = Method.ACK /\
    destination (oq_parts ack) = V4 1 5060.
Proof.
  destruct (failure_acknowledged instant (fun _ => false) None (fun _ => []) ltac:(done) sample_inv
    (sample_tsx_response StatusCode.BUSY_HERE) (sample_env []) {| CSeq.cseq := 1; CSeq.method := Method.INVITE |})
    as (ack & _ & _ & _ & _ & _ & H & _ & Hd & _); try discriminate; try reflexivity.
  exists ack. done.
Defined.

Definition sample_failure : OutgoingResponse unit :=
  {| os_msg := {| rs_line := {| sl_code := StatusCode.BUSY_HERE; sl_reason := None |};
                  rs_headers := Headers.new; rs_body := [] |};
     os_parts := {| op_transport := tt; destination := V4 1 5060; buffer := lit "busy" |} |}.

(** Without an ACK the failure is given up after 35.5 seconds. *)
Lemma failure_schedule_witness :
  respond_failure instant sample_failure (sample_env []) =
    Ret (Err RequestTimedOut, after (sample_env []) (lit "busy")
      [0; 500; 1500; 3500; 7500; 11500; 15500; 19500; 23500; 27500; 31500]%Z 35500 []).
Proof.
  eapply eq_trans; [apply (failure_schedule instant ltac:(done) sample_failure (sample_env []) sample_failure (lit "busy"));
    try discriminate; try reflexivity; exact I|reflexivity].
Defined.

Lemma transactions_end_witness :
  exists env', ack_task instant None (fun _ => []) (sample_out Method.ACK, 32000%Z)
    (sample_env [(2000%Z, sample_tsx_response StatusCode.BUSY_HERE)]) = Ret env'.
Proof.
  apply (transactions_end instant (fun _ => false) None (fun _ => [])
    ltac:(intros t b d t' [= <-]; lia) sample_tsx sample_inv sample_failure sample_failure (lit "busy")
    (sample_out Method.ACK) 32000 (sample_env [(2000%Z, sample_tsx_response StatusCode.BUSY_HERE)]));
    try discriminate; try reflexivity; try apply sample_sent. by left.
Defined.
