(* ===== verification/SipDialog.v ===== *)
(** * Dialogs
    (sip-ua/src/dialog/mod.rs, key.rs, layer.rs, client_builder.rs, sip-ua/src/invite/timer.rs)

    The state of a dialog, the requests and responses it makes, the layer
    that orders the requests of the peer and hands them to the usages of a
    dialog, and session timers. Contacts, routes and usages are arguments, as
    is the slot map of the usages; random numbers and strings are arguments
    of the operations that draw them. *)
From stdpp Require Import gmap.
From S2P Require Import Prelude Text StunAttr IceStun SipNames SipHeaders SipFraming SipMessages SipTyped SipKeys SipTransactions.

(** [DialogKey] *)
Module DialogKey.
Record t := { call_id : str; peer_tag : option str; local_tag : str }.

#[global] Instance t_eq_dec : EqDecision t.
Proof. solve_decision. Defined.
#[global] Instance t_countable : Countable t.
Proof.
  apply (inj_countable' (fun k => (call_id k, peer_tag k, local_tag k))
    (fun x : str * option str * str => {| call_id := x.1.1; peer_tag := x.1.2; local_tag := x.2 |})).
  by intros [].
Defined.
End DialogKey.

(** ** Session timers: invite/timer.rs *)

(** [RefreshInterval] and [SessionTimer]; a sleep ends at a time, in
    milliseconds. *)
Inductive RefreshInterval := Unsupported | Sleeping (until : Z).
Record SessionTimer := { st_refresher : Refresher.t; real_delta_secs : Z; interval : RefreshInterval }.

(** [SessionTimer::new_unsupported] *)
Definition new_unsupported : SessionTimer :=
  {| st_refresher := Refresher.Unspecified; real_delta_secs := 0; interval := Unsupported |}.

(** [SessionTimer::wait]: when it ends, if ever *)
Definition wait_end (t : SessionTimer) : option Z :=
  match interval t with Unsupported => None | Sleeping until => Some until end.

(** [SessionTimer::reset] *)
Definition reset (now : Z) (t : SessionTimer) : SessionTimer :=
  match interval t with
  | Unsupported => t
  | Sleeping _ => {| st_refresher := st_refresher t; real_delta_secs := real_delta_secs t;
                     interval := Sleeping (now + 1000 * real_delta_secs t)%Z |}
  end.

(** [AcceptorTimerConfig] *)
Record AcceptorTimerConfig := { ac_refresher : Refresher.t; interval_secs : Z }.
Definition default_acceptor_config : AcceptorTimerConfig := {| ac_refresher := Refresher.Uac; interval_secs := 1800 |}.

(** [InitiatorTimerConfig] *)
Record InitiatorTimerConfig := { expires_secs : option Z; in_refresher : Refresher.t; expires_secs_min : Z }.

(** [AcceptorTimerConfig::on_responding_success], on the headers of the response
    and of the INVITE: the timer, the configuration and the response's headers *)
Definition on_responding_success (c : AcceptorTimerConfig) (response invite : Headers.t) (now : Z)
    : SessionTimer * AcceptorTimerConfig * Headers.t :=
  let delta_secs := match Headers.get_named MinSe.t invite with
                    | Ok min_se => Z.max (MinSe.min_se min_se) (interval_secs c)
                    | Err _ => interval_secs c
                    end in
  let '(real, refresher) := match ac_refresher c with
                            | Refresher.Uas => ((delta_secs / 2)%Z, Refresher.Uas)
                            | Refresher.Unspecified | Refresher.Uac => (delta_secs, Refresher.Uac)
                            end in
  let response := Headers.insert_type Name.Require {| CsvHeader.item := lit "timer" |} response in
  let response := Headers.insert_named
                    {| SessionExpires.delta_secs := delta_secs; SessionExpires.refresher := refresher |} response in
  ({| st_refresher := refresher; real_delta_secs := real; interval := Sleeping (now + 1000 * real)%Z |},
   {| ac_refresher := refresher; interval_secs := interval_secs c |}, response).

(** [InitiatorTimerConfig::populate_request], on the headers of the request *)
Definition populate_request (c : InitiatorTimerConfig) (request : Headers.t) : Headers.t :=
  let request := match expires_secs c with
                 | Some expires_secs => Headers.insert_named
                     {| SessionExpires.delta_secs := expires_secs; SessionExpires.refresher := in_refresher c |} request
                 | None => request
                 end in
  let request := Headers.insert Name.Supported (lit "timer") request in
  Headers.insert_named {| MinSe.min_se := expires_secs_min c |} request.

(** [InitiatorTimerConfig::create_timer_from_response] *)
Definition create_timer_from_response `{DecodeValues SessionExpires.t} (response : Headers.t) (now : Z)
    : result HeaderError.t SessionTimer :=
  match Headers.try_get_named SessionExpires.t response with
  | Some (Ok se) =>
      let '(real, refresher) := match SessionExpires.refresher se with
                                | Refresher.Uas => (SessionExpires.delta_secs se, Refresher.Uas)
                                | Refresher.Unspecified | Refresher.Uac =>
                                    ((SessionExpires.delta_secs se / 2)%Z, Refresher.Uac)
                                end in
      Ok {| st_refresher := refresher; real_delta_secs := real; interval := Sleeping (now + 1000 * real)%Z |}
  | Some (Err e) => Err e
  | None => Ok new_unsupported
  end.

(** [SessionTimer::populate_refresh] *)
Definition populate_refresh (t : SessionTimer) (request : Headers.t) : Headers.t :=
  match interval t with
  | Unsupported => request
  | Sleeping _ => Headers.insert Name.Require (lit "timer") (Headers.insert Name.Supported (lit "timer") request)
  end.

(** ** The dialog layer: dialog/layer.rs *)

(** The slot map of usages ([slotmap::SlotMap]) *)
Class UsageMap (U K M : Type) := {
  usages_empty : M;
  usages_insert : U -> M -> K * M;
  usages_remove : K -> M -> M;
  usages_values : M -> list U }.

Section layer.
Context {Uri NameAddr Tp : Type}.
#[local] Abbreviation IncomingRequest := (IncomingRequest Uri NameAddr Tp).

(** A [Usage] gets a request and may take it. *)
Definition Usage : Type := IncomingRequest -> option IncomingRequest.
Context {K M : Type} `{UsageMap Usage K M}.

(** [DialogKey::from_incoming] *)
Definition from_incoming (request : IncomingRequest) : option DialogKey.t :=
  let base := ir_base_headers request in
  local_tag ← FromTo.tag (to base);
  Some {| DialogKey.call_id := CallID.call_id (call_id base); DialogKey.peer_tag := FromTo.tag (from_ base);
          DialogKey.local_tag := local_tag |}.

(** [DialogEntry] *)
Record DialogEntry := {
  backlog : gmap Z IncomingRequest;
  next_peer_cseq : option Z;
  usages : M }.

(** [DialogEntry::new] *)
Definition entry_new (peer_cseq : option Z) : DialogEntry :=
  {| backlog := ∅; next_peer_cseq := (fun peer_cseq => wrap 32 (peer_cseq + 1)) <$> peer_cseq; usages := usages_empty |}.

Definition request_cseq (request : IncomingRequest) : Z := CSeq.cseq (cseq_ (ir_base_headers request)).

(** The loop that takes messages out of the backlog *)
Fixpoint drain (fuel : nat) (next_cseq : Z) (backlog : gmap Z IncomingRequest)
    : list IncomingRequest * gmap Z IncomingRequest :=
  match fuel with
  | O => ([], backlog)
  | S fuel =>
      match backlog !! next_cseq with
      | Some message =>
          let '(requests, backlog) := drain fuel (wrap 32 (next_cseq + 1)) (delete next_cseq backlog) in
          (message :: requests, backlog)
      | None => ([], backlog)
      end
  end.

(** What [DialogLayer::receive] does with a request of a dialog before it calls the
    usages: the requests they get, and the entry. *)
Definition entry_receive (request : IncomingRequest) (e : DialogEntry) : list IncomingRequest * DialogEntry :=
  let cseq := request_cseq request in
  let next := default cseq (next_peer_cseq e) in
  let with_ b n := {| backlog := b; next_peer_cseq := Some n; usages := usages e |} in
  match (cseq ?= next)%Z with
  | Lt => ([request], with_ (backlog e) next)
  | Eq =>
      let '(drained, backlog) := drain (S (size (backlog e))) cseq (backlog e) in
      let requests := request :: drained in
      (requests, with_ backlog (wrap 32 (request_cseq (default request (last requests)) + 1)))
  | Gt => ([], with_ (<[cseq := request]> (backlog e)) next)
  end.

Context `{ExtendValues Via.t, ExtendValues (FromTo.t NameAddr)}.
Context (ip_from_str : str -> option IpAddr) (direction : Tp -> Direction).

(** What becomes of a request the usages get *)
Inductive DialogOutcome :=
| Used (request : IncomingRequest)
| AckIgnored
| NotFound (tsx : TsxRegistration) (response : OutgoingResponse Tp).

(** [DialogLayer::handle_unwanted_request] *)
Definition dialog_unwanted (request : IncomingRequest) : exec DialogOutcome :=
  if decide (rl_method (ir_line request) = Method.ACK) then Ret AckIgnored
  else
    response ← create_response ip_from_str direction (ir_line request) (ir_base_headers request) (ir_headers request)
                 (ir_tp_info request) StatusCode.NOT_FOUND None;
    tsx ← if decide (rl_method (ir_line request) = Method.INVITE) then create_server_inv_tsx request
          else create_server_tsx request;
    Ret (NotFound tsx response).

Definition dispatch (us : list Usage) (request : IncomingRequest) : exec DialogOutcome :=
  match offer us request with
  | inl request => Ret (Used request)
  | inr request => dialog_unwanted request
  end.

Fixpoint dispatch_all (us : list Usage) (requests : list IncomingRequest) : exec (list DialogOutcome) :=
  match requests with
  | [] => Ret []
  | request :: requests =>
      o ← dispatch us request;
      os ← dispatch_all us requests;
      Ret (o :: os)
  end.

(** [DialogLayer::receive]: [None] when the layer does not take the request *)
Definition layer_receive (request : IncomingRequest) (dialogs : gmap DialogKey.t DialogEntry)
    : exec (option (list DialogOutcome) * gmap DialogKey.t DialogEntry) :=
  match from_incoming request with
  | None => Ret (None, dialogs)
  | Some key =>
      match dialogs !! key with
      | None => Ret (None, dialogs)
      | Some e =>
          let '(requests, e') := entry_receive request e in
          outcomes ← dispatch_all (usages_values (usages e)) requests;
          Ret (Some outcomes, <[key := e']> dialogs)
      end
  end.

(** [register_usage], and the drop of a [UsageGuard] *)
Definition register_usage (key : DialogKey.t) (usage : Usage) (dialogs : gmap DialogKey.t DialogEntry)
    : option K * gmap DialogKey.t DialogEntry :=
  match dialogs !! key with
  | None => (None, dialogs)
  | Some e =>
      let '(usage_key, us) := usages_insert usage (usages e) in
      (Some usage_key,
       <[key := {| backlog := backlog e; next_peer_cseq := next_peer_cseq e; usages := us |}]> dialogs)
  end.
Definition drop_usage_guard (key : DialogKey.t) (usage_key : K) (dialogs : gmap DialogKey.t DialogEntry)
    : gmap DialogKey.t DialogEntry :=
  match dialogs !! key with
  | None => dialogs
  | Some e => <[key := {| backlog := backlog e; next_peer_cseq := next_peer_cseq e;
                          usages := usages_remove usage_key (usages e) |}]> dialogs
  end.
End layer.

(** ** Dialogs: dialog/mod.rs *)
Section dialog.
Context {Uri NameAddr Tp Contact Routing K M : Type}.
#[local] Abbreviation IncomingRequest := (IncomingRequest Uri NameAddr Tp).
#[local] Abbreviation Usage := (IncomingRequest -> option IncomingRequest).
Context `{UsageMap Usage K M}.
#[local] Abbreviation dialogs_map := (gmap DialogKey.t (DialogEntry (Uri := Uri) (NameAddr := NameAddr) (Tp := Tp) (M := M))).

Context (contact_uri : Contact -> Uri) (sips : Uri -> bool) (address_of : Uri -> NameAddr).
Context `{ExtendValues Via.t, DecodeValues (FromTo.t NameAddr), ExtendValues (FromTo.t NameAddr)}.
Context `{DecodeValues Contact, ExtendValues Contact, ConstNamed Contact}.
Context `{DecodeValues (list Routing), ExtendValues Routing}.
Context (ip_from_str : str -> option IpAddr) (direction : Tp -> Direction).
(** The capabilities of the endpoint: [Endpoint::allowed], [Endpoint::supported] *)
Context (allowed supported : list CsvHeader.t).

(** [TargetTransportInfo] *)
Record TargetTransportInfo := { via_host_port : option HostPort.t; tti_transport : option (Tp * SocketAddr) }.
Definition default_target : TargetTransportInfo := {| via_host_port := None; tti_transport := None |}.

(** [Dialog] *)
Record Dialog := {
  local_cseq : Z;
  local_fromto : FromTo.t NameAddr;
  peer_fromto : FromTo.t NameAddr;
  local_contact : Contact;
  peer_contact : Contact;
  dialog_call_id : CallID.t;
  route_set : list Routing;
  secure : bool;
  target_tp_info : TargetTransportInfo }.

(** [Dialog::key] *)
Definition key (d : Dialog) : exec DialogKey.t :=
  local_tag ← unwrap (FromTo.tag (local_fromto d));
  Ret {| DialogKey.call_id := CallID.call_id (dialog_call_id d); DialogKey.peer_tag := FromTo.tag (peer_fromto d);
         DialogKey.local_tag := local_tag |}.

Definition with_tag (tag : option str) (f : FromTo.t NameAddr) : FromTo.t NameAddr :=
  {| FromTo.uri := FromTo.uri f; FromTo.tag := tag; FromTo.params := FromTo.params f |}.

(** [Dialog::new_server], with the random number and string *)
Definition new_server (random_sequence_number : Z) (random_string : str) (request : IncomingRequest)
    (contact : Contact) (dialogs : dialogs_map) : exec (result HeaderError.t Dialog * dialogs_map) :=
  let base := ir_base_headers request in
  match FromTo.tag (from_ base) with
  | None => Ret (Err (HeaderError.malformed_adhoc Name.From (lit "missing tag parameter")), dialogs)
  | Some _ =>
      let routes := match Headers.get (H := list Routing) Name.RecordRoute (ir_headers request) with
                    | Ok routes => routes | Err _ => [] end in
      match Headers.get_named Contact (ir_headers request) with
      | Err e => Ret (Err e, dialogs)
      | Ok peer =>
          let d := {|
            local_cseq := random_sequence_number;
            local_fromto := with_tag (Some random_string) (to base);
            peer_fromto := from_ base;
            local_contact := contact;
            peer_contact := peer;
            dialog_call_id := call_id base;
            route_set := routes;
            secure := sips (rl_uri (ir_line request));
            target_tp_info := default_target |} in
          k ← key d;
          Ret (Ok d, <[k := entry_new (Some (request_cseq request))]> dialogs)
      end
  end.

(** The drop of a [Dialog] *)
Definition drop_dialog (d : Dialog) (dialogs : dialogs_map) : exec dialogs_map :=
  k ← key d; Ret (delete k dialogs).

(** [Dialog::create_request]; the dialog with its next CSeq number *)
Definition create_request (m : Method.t) (d : Dialog) : exec (Request Uri * Dialog) :=
  let h := Headers.insert_type Name.From (local_fromto d) Headers.new in
  let h := Headers.insert_type Name.To (peer_fromto d) h in
  let h := Headers.insert_named {| MaxForwards.max_forwards := 70 |} h in
  let h := Headers.insert_named (dialog_call_id d) h in
  let h := Headers.insert_named {| CSeq.cseq := local_cseq d; CSeq.method := m |} h in
  let h := if decide (m = Method.INVITE) then Headers.insert_named (local_contact d) h else h in
  h ← match route_set d with [] => Ret h | routes => Headers.insert_multiple Name.Route routes h end;
  Ret ({| rq_line := {| rl_method := m; rl_uri := contact_uri (peer_contact d) |}; rq_headers := h; rq_body := [] |},
       {| local_cseq := wrap 32 (local_cseq d + 1); local_fromto := local_fromto d; peer_fromto := peer_fromto d;
          local_contact := local_contact d; peer_contact := peer_contact d; dialog_call_id := dialog_call_id d;
          route_set := route_set d; secure := secure d; target_tp_info := target_tp_info d |}).

Definition between (lo hi n : Z) : bool := bool_decide (lo <= n <= hi)%Z.

(** [Dialog::create_response] *)
Definition create_dialog_response (request : IncomingRequest) (code : StatusCode.t) (reason : option str) (d : Dialog)
    : exec (result HeaderError.t (OutgoingResponse Tp)) :=
  response ← create_response ip_from_str direction (ir_line request) (ir_base_headers request) (ir_headers request)
               (ir_tp_info request) code reason;
  let with_headers h :=
    {| os_msg := {| rs_line := rs_line (os_msg response); rs_headers := h; rs_body := rs_body (os_msg response) |};
       os_parts := os_parts response |} in
  let m := rl_method (ir_line request) in
  if decide (m = Method.INVITE \/ m = Method.SUBSCRIBE) then
    let h := match Headers.clone_into (rs_headers (os_msg response)) Name.RecordRoute (ir_headers request) with
             | Ok h => h | Err _ => rs_headers (os_msg response) end in
    let h := if (between 101 399 code || bool_decide (code = 485%Z)) && negb (Headers.contains Name.Contact h)
             then Headers.insert_named (local_contact d) h else h in
    h ← (if between 180 189 code || between 200 299 code || bool_decide (code = 405%Z)
         then Headers.insert_multiple Name.Allow allowed h else Ret h);
    if between 200 299 code then
      match (match FromTo.tag (to (ir_base_headers request)) with
             | None => Headers.edit Name.To (fun to => with_tag (FromTo.tag (local_fromto d)) to) h
             | Some _ => Ok h
             end) with
      | Err e => Ret (Err e)
      | Ok h => h ← Headers.insert_multiple Name.Supported supported h; Ret (Ok (with_headers h))
      end
    else Ret (Ok (with_headers h))
  else Ret (Ok response).

(** ** The dialog of a client: dialog/client_builder.rs *)
Record ClientDialogBuilder := {
  cb_local_cseq : Z;
  cb_local_fromto : FromTo.t NameAddr;
  cb_peer_fromto : FromTo.t NameAddr;
  cb_local_contact : Contact;
  cb_call_id : CallID.t;
  cb_target : Uri;
  cb_secure : bool;
  cb_target_tp_info : TargetTransportInfo }.

(** [FromTo::new] *)
Definition from_to_new (uri : NameAddr) (tag : option str) : FromTo.t NameAddr :=
  {| FromTo.uri := uri; FromTo.tag := tag; FromTo.params := Params.new |}.

(** [ClientDialogBuilder::new], with its random number and strings *)
Definition builder_new (random_sequence_number : Z) (random_tag random_call_id : str) (local_addr : NameAddr)
    (contact : Contact) (target : Uri) : ClientDialogBuilder :=
  {| cb_local_cseq := random_sequence_number;
     cb_local_fromto := from_to_new local_addr (Some random_tag);
     cb_peer_fromto := from_to_new (address_of target) None;
     cb_local_contact := contact;
     cb_call_id := {| CallID.call_id := random_call_id |};
     cb_target := target;
     cb_secure := sips target;
     cb_target_tp_info := default_target |}.

(** [ClientDialogBuilder::create_request] *)
Definition builder_create_request (m : Method.t) (b : ClientDialogBuilder) : Request Uri :=
  let h := Headers.insert_named {| MaxForwards.max_forwards := 70 |} Headers.new in
  let h := Headers.insert_type Name.From (cb_local_fromto b) h in
  let h := Headers.insert_type Name.To (cb_peer_fromto b) h in
  let h := Headers.insert_named (cb_call_id b) h in
  let h := Headers.insert_named {| CSeq.cseq := cb_local_cseq b; CSeq.method := m |} h in
  let h := Headers.insert_named (cb_local_contact b) h in
  {| rq_line := {| rl_method := m; rl_uri := cb_target b |}; rq_headers := h; rq_body := [] |}.

(** [ClientDialogBuilder::create_dialog_from_response] *)
Definition create_dialog_from_response (response : TsxMessage Uri NameAddr Tp) (b : ClientDialogBuilder)
    (dialogs : dialogs_map) : exec (result HeaderError.t Dialog * dialogs_map) :=
  match FromTo.tag (to (tm_base_headers response)) with
  | None => Panic
  | Some _ =>
      match Headers.get_named Contact (tm_headers response) with
      | Err e => Ret (Err e, dialogs)
      | Ok peer =>
          let d := {|
            local_cseq := cb_local_cseq b;
            local_fromto := cb_local_fromto b;
            peer_fromto := to (tm_base_headers response);
            local_contact := cb_local_contact b;
            peer_contact := peer;
            dialog_call_id := cb_call_id b;
            route_set := match Headers.get (H := list Routing) Name.RecordRoute (tm_headers response) with
                         | Ok routes => routes | Err _ => [] end;
            secure := cb_secure b;
            target_tp_info := cb_target_tp_info b |} in
          k ← key d;
          Ret (Ok d, <[k := entry_new None]> dialogs)
      end
  end.
End dialog.
Arguments Dialog : clear implicits.
Arguments ClientDialogBuilder : clear implicits.
Arguments TargetTransportInfo : clear implicits.
