(* ===== verification/SipResolver.v ===== *)
(** * Where a host is (sip-core/src/transport/resolver.rs)

    The servers of a host name, by the NAPTR, SRV and address records of DNS.
    The resolver is a parameter: what it answers is a function of the name. *)
From S2P Require Import Prelude Text StunAttr IceStun SipNames SipHeaders SipFraming SipMessages.
Local Open Scope Z_scope.

(** [sort_unstable_by_key] of a slice: any order among equal keys *)
Class UnstableSort := sort_unstable_by_key : forall {A : Type}, (A -> Z) -> list A -> list A.
Class UnstableSortLaws (U : UnstableSort) : Prop := {
  unstable_permutation {A} (k : A -> Z) l : sort_unstable_by_key k l ≡ₚ l;
  unstable_sorted {A} (k : A -> Z) l : Sorted (fun a b => k a <= k b) (sort_unstable_by_key k l) }.

(** The crate [multimap]: collected from pairs, then asked for a key *)
Class MultiMap := get_vec : forall {K V : Type} `{EqDecision K}, K -> list (K * V) -> option (list V).
Class MultiMapLaws (M : MultiMap) : Prop := {
  get_vec_law {K V} `{EqDecision K} (k : K) (l : list (K * V)) :
    get_vec k l = match (filter (fun x => x.1 = k) l).*2 with [] => None | vs => Some vs end }.

(** ** The crate [hickory_resolver] *)
Inductive RecordType := TypeNAPTR | TypeSRV.
#[export] Instance record_type_eq_dec : EqDecision RecordType.
Proof. solve_decision. Defined.

Record NAPTR {N : Type} := { order : Z; services : list byte; flags : list byte; replacement : N }.
Record SRV {N : Type} := { priority : Z; port : Z; srv_target : N }.
Arguments NAPTR : clear implicits.
Arguments SRV : clear implicits.
Inductive RData (N : Type) :=
| RNAPTR (naptr : NAPTR N)
| RSRV (srv : SRV N)
| RA (ip : Z)
| RAAAA (ip : Z)
| ROther.
Arguments RNAPTR {N}.
Arguments RSRV {N}.
Arguments RA {N}.
Arguments RAAAA {N}.
Arguments ROther {N}.

Class Hickory := {
  DnsName : Type;
  #[global] dns_name_eq_dec :: EqDecision DnsName;
  name_from_utf8 : str -> option DnsName;
  name_to_string : DnsName -> str;
  ResolveError : Type;
  is_no_records_found : ResolveError -> bool;
  (** the records of an answer, with the name of each *)
  lookup_records : DnsName -> RecordType -> result ResolveError (list (DnsName * RData DnsName));
  lookup_ip : DnsName -> result ResolveError (list IpAddr) }.

(** ** resolver.rs *)
Module ResolvedTransport.
Inductive t := Udp | Tcp | TlsOverTcp | Sctp.
#[global] Instance t_eq_dec : EqDecision t.
Proof. solve_decision. Defined.

Definition as_str (x : t) : str :=
  match x with Udp => lit "UDP" | Tcp => lit "TCP" | TlsOverTcp => lit "TLS" | Sctp => lit "SCTP" end.

Definition from_services (s : list byte) : option t :=
  if decide (s = lit "SIP+D2U") then Some Udp
  else if decide (s = lit "SIP+D2T") then Some Tcp
  else if decide (s = lit "SIPS+D2T") then Some TlsOverTcp
  else if decide (s = lit "SIP+D2S") then Some Sctp
  else None.

Definition default_port (x : t) : Z := match x with TlsOverTcp => 5061 | _ => 5060 end.
End ResolvedTransport.
Import (hints) ResolvedTransport.

Record ServerEntry := { address : SocketAddr; entry_transport : option ResolvedTransport.t }.

(** [From<S> for ServerEntry] *)
Definition server_entry (a : SocketAddr) : ServerEntry := {| address := a; entry_transport := None |}.

Section resolver.
Context {H : Hickory} {U : UnstableSort} {MM : MultiMap}.

(** What the caller gets as an [io::Error] *)
Inductive IoError := BadName | Resolve (e : ResolveError) | NoDnsRecords.

Definition filter_no_records {T} (e : result ResolveError T) : result ResolveError (option T) :=
  match e with
  | Ok t => Ok (Some t)
  | Err e => if is_no_records_found e then Ok None else Err e
  end.

Definition resolve_a_records (n : DnsName) (tp : option ResolvedTransport.t) (p : Z) (entries : list ServerEntry)
    : result ResolveError (list ServerEntry) :=
  ips ← filter_no_records (lookup_ip n);
  match ips with
  | None => Ok entries
  | Some ips => Ok (entries ++ ((fun ip => {| address := socket_addr ip p; entry_transport := tp |}) <$> ips))
  end.

(** The records of an answer *)
Definition srv_of (r : DnsName * RData DnsName) : option (SRV DnsName) :=
  match r.2 with RSRV srv => Some srv | _ => None end.
Definition naptr_of (r : DnsName * RData DnsName) : option (NAPTR DnsName) :=
  match r.2 with RNAPTR naptr => Some naptr | _ => None end.
Definition ip_of (r : DnsName * RData DnsName) : option (DnsName * IpAddr) :=
  match r.2 with RA ip => Some (r.1, IPv4 ip) | RAAAA ip => Some (r.1, IPv6 ip) | _ => None end.

(** The loop of [resolve_srv_records] *)
Fixpoint srv_loop (ip_records : list (DnsName * IpAddr)) (tp : option ResolvedTransport.t) (records : list (SRV DnsName))
    (entries : list ServerEntry) : result ResolveError (list ServerEntry) :=
  match records with
  | [] => Ok entries
  | record :: records =>
      entries ← match get_vec (srv_target record) ip_records with
                | Some ips =>
                    Ok (entries ++
                        ((fun ip => {| address := socket_addr ip (port record); entry_transport := tp |}) <$> ips))
                | None => resolve_a_records (srv_target record) tp (port record) entries
                end;
      srv_loop ip_records tp records entries
  end.

Definition resolve_srv_records (n : DnsName) (tp : option ResolvedTransport.t) (entries : list ServerEntry)
    : result ResolveError (list ServerEntry) :=
  records ← filter_no_records (lookup_records n TypeSRV);
  match records with
  | None => Ok entries
  | Some records =>
      srv_loop (omap ip_of records) tp (sort_unstable_by_key priority (omap srv_of records)) entries
  end.

(** The loop of [resolve_naptr_records] *)
Fixpoint naptr_loop (records : list (NAPTR DnsName)) (entries : list ServerEntry)
    : result ResolveError (list ServerEntry) :=
  match records with
  | [] => Ok entries
  | record :: records =>
      match ResolvedTransport.from_services (services record) with
      | None => naptr_loop records entries
      | Some tp =>
          entries ← (if decide (flags record = lit "s")
                     then resolve_srv_records (replacement record) (Some tp) entries
                     else if decide (flags record = lit "a")
                     then resolve_a_records (replacement record) (Some tp) (ResolvedTransport.default_port tp) entries
                     else Ok entries);
          naptr_loop records entries
      end
  end.

Definition resolve_naptr_records (n : DnsName) (entries : list ServerEntry) : result ResolveError (list ServerEntry) :=
  records ← filter_no_records (lookup_records n TypeNAPTR);
  match records with
  | None => Ok entries
  | Some records => naptr_loop (sort_unstable_by_key order (omap naptr_of records)) entries
  end.

(** [?] on an error of the resolver, and on a name that is none *)
Definition io {T} (r : result ResolveError T) : result IoError T :=
  match r with Ok t => Ok t | Err e => Err (Resolve e) end.

(** The loop over the names of services *)
Fixpoint services_loop (records : list (DnsName * ResolvedTransport.t)) (entries : list ServerEntry)
    : result IoError (list ServerEntry) :=
  match records with
  | [] => Ok entries
  | (n, tp) :: records =>
      entries ← io (resolve_srv_records n (Some tp) entries); services_loop records entries
  end.

Definition resolve_host (host : str) (uri_port : Z) : result IoError (list ServerEntry) :=
  n ← ok_or BadName (name_from_utf8 host);
  entries ← io (resolve_naptr_records n []);
  entries ← (if decide (entries = []) then
               sips_tcp ← ok_or BadName (name_from_utf8 (lit "_sips._tcp." ++ name_to_string n));
               sip_udp ← ok_or BadName (name_from_utf8 (lit "_sip._udp." ++ name_to_string n));
               sip_tcp ← ok_or BadName (name_from_utf8 (lit "_sip._tcp." ++ name_to_string n));
               services_loop [(sips_tcp, ResolvedTransport.TlsOverTcp); (sip_udp, ResolvedTransport.Udp);
                              (sip_tcp, ResolvedTransport.Tcp)] entries
             else Ok entries);
  entries ← (if decide (entries = []) then io (resolve_a_records n None uri_port entries) else Ok entries);
  if decide (entries = []) then Err NoDnsRecords else Ok entries.
End resolver.

(** ** What is resolved *)
Section resolved.
Context {H : Hickory} {U : UnstableSort} {UL : UnstableSortLaws U} {MM : MultiMap} {ML : MultiMapLaws MM}.

(** A lookup that fails, other than for lack of records *)
Definition lookup_fails (e : ResolveError) : Prop :=
  is_no_records_found e = false /\
  ((exists n ty, lookup_records n ty = Err e) \/ exists n, lookup_ip n = Err e).

(** What a lookup finds: nothing when there are no records. *)
Definition found {T} (r : result ResolveError (list T)) (l : list T) : Prop :=
  r = Ok l \/ exists e, r = Err e /\ is_no_records_found e = true /\ l = [].

Definition servers (ips : list IpAddr) (p : Z) (tp : option ResolvedTransport.t) : list ServerEntry :=
  (fun ip => {| address := socket_addr ip p; entry_transport := tp |}) <$> ips.

(** The entries of a host: all its addresses, in order *)
Definition of_host (n : DnsName) (p : Z) (tp : option ResolvedTransport.t) (entries : list ServerEntry) : Prop :=
  exists ips, found (lookup_ip n) ips /\ entries = servers ips p tp.

(** The entries of an SRV record: the addresses its target has in the same answer, and if it has none there, those
    that are looked up *)
Definition of_srv (records : list (DnsName * RData DnsName)) (tp : option ResolvedTransport.t) (srv : SRV DnsName)
    (entries : list ServerEntry) : Prop :=
  let own := (filter (fun x => x.1 = srv_target srv) (omap ip_of records)).*2 in
  if decide (own = []) then of_host (srv_target srv) (port srv) tp entries else entries = servers own (port srv) tp.

(** Entries in the order of records: [groups] are all records of an answer, by their key, each with its entries. *)
Definition in_order {R} (k : R -> Z) (made_of : R -> list ServerEntry -> Prop) (rs : list R) (entries : list ServerEntry) : Prop :=
  exists groups, groups.*1 ≡ₚ rs /\ Sorted (fun a b => k a <= k b) groups.*1 /\ entries = concat groups.*2 /\
    Forall (fun g => made_of g.1 g.2) groups.

Definition of_srv_records (n : DnsName) (tp : option ResolvedTransport.t) (entries : list ServerEntry) : Prop :=
  exists records, found (lookup_records n TypeSRV) records /\
    in_order priority (of_srv records tp) (omap srv_of records) entries.

(** A NAPTR record: nothing, if its service or its flag is not known; else what its flag says *)
Definition of_naptr (r : NAPTR DnsName) (entries : list ServerEntry) : Prop :=
  match ResolvedTransport.from_services (services r) with
  | None => entries = []
  | Some tp =>
      if decide (flags r = lit "s") then of_srv_records (replacement r) (Some tp) entries
      else if decide (flags r = lit "a")
      then of_host (replacement r) (ResolvedTransport.default_port tp) (Some tp) entries
      else entries = []
  end.

Definition of_naptr_records (n : DnsName) (entries : list ServerEntry) : Prop :=
  exists records, found (lookup_records n TypeNAPTR) records /\
    in_order order of_naptr (omap naptr_of records) entries.

(** A step that appends entries, or fails *)
Definition appends (entries : list ServerEntry) (made : list ServerEntry -> Prop) (r : result ResolveError (list ServerEntry))
    : Prop :=
  match r with Ok entries' => exists es, entries' = entries ++ es /\ made es | Err e => lookup_fails e end.

Lemma found_spec {T} (r : result ResolveError (list T)) :
  match filter_no_records r with
  | Ok (Some l) => found r l
  | Ok None => found r []
  | Err e => r = Err e /\ is_no_records_found e = false
  end.
Proof.
  unfold filter_no_records. destruct r as [l|e]; [by left|]. destruct (is_no_records_found e) eqn:E; [|done].
  right. by exists e.
Qed.

Lemma resolve_a_spec n tp p entries : appends entries (of_host n p tp) (resolve_a_records n tp p entries).
Proof.
  unfold resolve_a_records. pose proof (found_spec (lookup_ip n)) as Hf.
  destruct (filter_no_records (lookup_ip n)) as [[ips|]|e]; cbn [mbind result_bind appends].
  - eexists. split; [done|]. by exists ips.
  - exists []. rewrite app_nil_r. split; [done|]. by exists [].
  - destruct Hf as [Hl He]. split; [done|]. right. by exists n.
Qed.

Lemma srv_round_spec records tp srv entries : appends entries (of_srv records tp srv)
  match get_vec (srv_target srv) (omap ip_of records) with
  | Some ips => Ok (entries ++ ((fun ip => {| address := socket_addr ip (port srv); entry_transport := tp |}) <$> ips))
  | None => resolve_a_records (srv_target srv) tp (port srv) entries
  end.
Proof.
  rewrite get_vec_law. unfold of_srv. destruct (filter _ _).*2 as [|ip ips] eqn:E.
  - apply resolve_a_spec.
  - cbn [appends]. eexists. split; [done|]. by rewrite decide_False.
Qed.

(** Groups of a loop that goes on behind one record *)
Lemma appends_step {R} (x : R) (l : list R) (made : R -> list ServerEntry -> Prop) entries es r :
  made x es ->
  appends (entries ++ es) (fun es' => exists groups, groups.*1 = l /\ es' = concat groups.*2 /\ Forall (fun g => made g.1 g.2) groups) r ->
  appends entries (fun es' => exists groups, groups.*1 = x :: l /\ es' = concat groups.*2 /\ Forall (fun g => made g.1 g.2) groups) r.
Proof.
  intros Hx. destruct r as [entries'|e]; [|done]. cbn [appends]. intros (es' & -> & groups & Hg & -> & Hgs).
  exists (es ++ concat groups.*2). rewrite app_assoc. split; [done|]. exists ((x, es) :: groups). cbn. rewrite Hg.
  split; [done|]. split; [done|]. by constructor.
Qed.

Lemma appends_done {R} (made : R -> list ServerEntry -> Prop) entries :
  appends entries (fun es' => exists groups, groups.*1 = [] /\ es' = concat groups.*2 /\ Forall (fun g => made g.1 g.2) groups) (Ok entries).
Proof. exists []. rewrite app_nil_r. split; [done|]. by exists []. Qed.

Lemma srv_loop_spec records tp l entries : appends entries
  (fun es => exists groups, groups.*1 = l /\ es = concat groups.*2 /\ Forall (fun g => of_srv records tp g.1 g.2) groups)
  (srv_loop (omap ip_of records) tp l entries).
Proof.
  revert entries. induction l as [|srv l IH]; intros entries; cbn [srv_loop]; [apply appends_done|].
  pose proof (srv_round_spec records tp srv entries) as Hr.
  destruct (match get_vec _ _ with Some _ => _ | None => _ end) as [es0|e]; [|done].
  destruct Hr as (es & -> & Hes). cbn [mbind result_bind]. by eapply appends_step.
Qed.

(** The groups of a loop over the sorted records are in order. *)
Lemma sorted_groups {R} (k : R -> Z) (made : R -> list ServerEntry -> Prop) rs es :
  (exists groups, groups.*1 = sort_unstable_by_key k rs /\ es = concat groups.*2 /\ Forall (fun g => made g.1 g.2) groups) ->
  in_order k made rs es.
Proof.
  intros (groups & Hg & -> & Hgs). exists groups. rewrite Hg. split; [apply unstable_permutation|].
  split; [apply unstable_sorted|]. done.
Qed.

Lemma resolve_srv_spec n tp entries : appends entries (of_srv_records n tp) (resolve_srv_records n tp entries).
Proof.
  unfold resolve_srv_records. pose proof (found_spec (lookup_records n TypeSRV)) as Hf.
  destruct (filter_no_records _) as [[records|]|e]; cbn [mbind result_bind].
  - pose proof (srv_loop_spec records tp (sort_unstable_by_key priority (omap srv_of records)) entries) as Hl.
    destruct (srv_loop _ _ _ _) as [es0|e]; [|done]. destruct Hl as (es & -> & Hg). exists es. split; [done|].
    exists records. split; [done|]. by apply sorted_groups.
  - exists []. rewrite app_nil_r. split; [done|]. exists []. split; [done|]. by exists [].
  - destruct Hf as [Hl He]. split; [done|]. left. by eexists _, _.
Qed.

Lemma naptr_loop_spec l entries : appends entries
  (fun es => exists groups, groups.*1 = l /\ es = concat groups.*2 /\ Forall (fun g => of_naptr g.1 g.2) groups)
  (naptr_loop l entries).
Proof.
  revert entries. induction l as [|r l IH]; intros entries; cbn [naptr_loop]; [apply appends_done|].
  assert (forall m, appends entries (of_naptr r) m ->
    appends entries (fun es => exists groups, groups.*1 = r :: l /\ es = concat groups.*2 /\ Forall (fun g => of_naptr g.1 g.2) groups)
      (entries ← m; naptr_loop l entries)) as Hstep.
  { intros [es0|e]; [|done]. intros (es & -> & Hes). cbn [mbind result_bind]. by eapply appends_step. }
  pose proof (Hstep (Ok entries)) as Hskip. cbn [mbind result_bind] in Hskip.
  destruct (ResolvedTransport.from_services (services r)) as [tp|] eqn:Et.
  - apply Hstep. unfold of_naptr. rewrite Et. case_decide; [apply resolve_srv_spec|].
    case_decide; [apply resolve_a_spec|]. exists []. by rewrite app_nil_r.
  - apply Hskip. exists []. rewrite app_nil_r. split; [done|]. unfold of_naptr. by rewrite Et.
Qed.

Lemma resolve_naptr_spec n entries : appends entries (of_naptr_records n) (resolve_naptr_records n entries).
Proof.
  unfold resolve_naptr_records. pose proof (found_spec (lookup_records n TypeNAPTR)) as Hf.
  destruct (filter_no_records _) as [[records|]|e]; cbn [mbind result_bind].
  - pose proof (naptr_loop_spec (sort_unstable_by_key order (omap naptr_of records)) entries) as Hl.
    destruct (naptr_loop _ _) as [es0|e]; [|done]. destruct Hl as (es & -> & Hg). exists es. split; [done|].
    exists records. split; [done|]. by apply sorted_groups.
  - exists []. rewrite app_nil_r. split; [done|]. exists []. split; [done|]. by exists [].
  - destruct Hf as [Hl He]. split; [done|]. left. by eexists _, _.
Qed.

(** The names that are asked for services, with the transport of each *)
Definition service_prefixes : list str := [lit "_sips._tcp."; lit "_sip._udp."; lit "_sip._tcp."].
Definition service_names (n : DnsName) (names : list (DnsName * ResolvedTransport.t)) : Prop :=
  Forall2 (fun prefix x => name_from_utf8 (prefix ++ name_to_string n) = Some x) service_prefixes names.*1 /\
  names.*2 = [ResolvedTransport.TlsOverTcp; ResolvedTransport.Udp; ResolvedTransport.Tcp].

Lemma services_loop_spec names entries :
  match services_loop names entries with
  | Ok entries' => exists groups, groups.*1 = names /\ entries' = entries ++ concat groups.*2 /\
      Forall (fun g => of_srv_records g.1.1 (Some g.1.2) g.2) groups
  | Err e => exists e', e = Resolve e' /\ lookup_fails e'
  end.
Proof.
  revert entries. induction names as [|[n tp] l IH]; intros entries; cbn [services_loop].
  { exists []. by rewrite app_nil_r. }
  pose proof (resolve_srv_spec n (Some tp) entries) as Hr. destruct (resolve_srv_records n (Some tp) entries) as [es0|e];
    cbn [io mbind result_bind]; [|by exists e].
  destruct Hr as (es & -> & Hes). specialize (IH (entries ++ es)). destruct (services_loop l _) as [es'|e]; [|done].
  destruct IH as (groups & Hg & -> & Hgs). exists ((n, tp, es) :: groups). cbn. rewrite Hg, app_assoc.
  split; [done|]. split; [done|]. by constructor.
Qed.

(** The servers of a host: those of the NAPTR records; if these lead to none, those of the SRV records of its
    services; if there are none either, its addresses with the port of the URI, over any transport. *)
Definition servers_of (n : DnsName) (uri_port : Z) (entries : list ServerEntry) : Prop :=
  exists naptr, of_naptr_records n naptr /\
    if decide (naptr = []) then
      exists groups, service_names n groups.*1 /\ Forall (fun g => of_srv_records g.1.1 (Some g.1.2) g.2) groups /\
        if decide (concat groups.*2 = []) then of_host n uri_port None entries else entries = concat groups.*2
    else entries = naptr.

(** C20: The servers of a host name that is resolved are exactly these, and at least one. All NAPTR records with a
    service and a flag that are known count, record after record in their order: with flag "s" all SRV records of the
    replacement in the order of their priorities, with flag "a" the addresses of the replacement, each over the
    transport of the service. An SRV record gives all addresses its target has in the same answer, or else all that
    are looked up. If the NAPTR records lead to no server, these are those of the SRV records for TLS, UDP and TCP, in
    this order; if there are none either, all addresses of the host with the port of the URI, over any transport.
    Resolving fails only when all this gives no server, a lookup fails other than for lack of records, or a name is
    none. *)
Theorem resolve_host_servers host uri_port :
  match resolve_host host uri_port with
  | Ok entries => exists n, name_from_utf8 host = Some n /\ entries <> [] /\ servers_of n uri_port entries
  | Err NoDnsRecords => exists n, name_from_utf8 host = Some n /\ servers_of n uri_port []
  | Err (Resolve e) => lookup_fails e
  | Err BadName => name_from_utf8 host = None \/
      exists n p, name_from_utf8 host = Some n /\ p ∈ service_prefixes /\ name_from_utf8 (p ++ name_to_string n) = None
  end.
Proof.
  unfold resolve_host. destruct (name_from_utf8 host) as [n|] eqn:En; [|by left]. cbn [ok_or mbind result_bind].
  pose proof (resolve_naptr_spec n []) as Hn. destruct (resolve_naptr_records n []) as [naptr|e]; cbn [io mbind result_bind]; [|done].
  destruct Hn as (naptr' & -> & Hn). cbn [app]. destruct (decide (naptr' = [])) as [->|Hne]; cbn [mbind result_bind].
  2: { rewrite decide_False by done. cbn [mbind result_bind]. rewrite decide_False by done. exists n. split; [done|].
       split; [done|]. exists naptr'. split; [done|]. by rewrite decide_False. }
  destruct (name_from_utf8 (lit "_sips._tcp." ++ _)) as [n1|] eqn:E1; cbn [ok_or mbind result_bind].
  2: { right. exists n, (lit "_sips._tcp."). split; [done|]. split; [left|done]. }
  destruct (name_from_utf8 (lit "_sip._udp." ++ _)) as [n2|] eqn:E2; cbn [ok_or mbind result_bind].
  2: { right. exists n, (lit "_sip._udp."). split; [done|]. split; [right; left|done]. }
  destruct (name_from_utf8 (lit "_sip._tcp." ++ _)) as [n3|] eqn:E3; cbn [ok_or mbind result_bind].
  2: { right. exists n, (lit "_sip._tcp."). split; [done|]. split; [right; right; left|done]. }
  set (names := [(n1, _); (n2, _); (n3, _)]). pose proof (services_loop_spec names []) as Hs.
  destruct (services_loop names []) as [es|e]; cbn [mbind result_bind]; [|by destruct Hs as (e' & -> & ?)].
  destruct Hs as (groups & Hg & -> & Hgs). cbn [app].
  assert (service_names n groups.*1) as Hnames by (rewrite Hg; split; [by repeat constructor|done]).
  assert (forall entries, (if decide (concat groups.*2 = []) then of_host n uri_port None entries else entries = concat groups.*2) ->
    servers_of n uri_port entries) as Hof.
  { intros entries He. exists []. split; [done|]. rewrite decide_True by done. by exists groups. }
  destruct (decide (concat groups.*2 = [])) as [Hnil|Hne]; cbn [mbind result_bind].
  - rewrite Hnil. pose proof (resolve_a_spec n None uri_port []) as Ha.
    destruct (resolve_a_records n None uri_port []) as [es|e]; cbn [io mbind result_bind]; [|done].
    destruct Ha as (es' & -> & Hes). cbn [app]. case_decide as He; exists n; (split; [done|]); [|by auto].
    subst es'. by apply Hof.
  - rewrite decide_False by done. exists n. split; [done|]. split; [done|]. by apply Hof.
Qed.
End resolved.

(** ** Instances that compute *)
Definition key_le {A} (k : A -> Z) (a b : A) : Prop := k a <= k b.
#[export] Instance key_le_dec {A} (k : A -> Z) a b : Decision (key_le k a b).
Proof. unfold key_le. apply _. Defined.
#[export] Instance merge_by_key : UnstableSort := fun A k l => merge_sort (key_le k) l.
#[export] Instance merge_by_key_laws : UnstableSortLaws merge_by_key.
Proof.
  split; intros A k l.
  - apply merge_sort_Permutation.
  - assert (Total (key_le k)) by (intros a b; unfold key_le; lia). apply (Sorted_merge_sort (key_le k)).
Qed.

#[export] Instance pairs : MultiMap := fun K V E k l =>
  match (filter (fun x => x.1 = k) l).*2 with [] => None | vs => Some vs end.
#[export] Instance pairs_laws : MultiMapLaws pairs.
Proof. by split. Qed.

Section example.
(** A host with an SRV record for UDP, whose target is in the answer *)
#[local] Instance sample_dns : Hickory := {|
  DnsName := str;
  name_from_utf8 n := if utf8_valid n then Some n else None;
  name_to_string n := n;
  ResolveError := unit;
  is_no_records_found _ := true;
  lookup_records n ty :=
    if decide (n = lit "_sip._udp.h" /\ ty = TypeSRV)
    then Ok [(n, RSRV {| priority := 1; port := 5070; srv_target := lit "t" |}); (lit "t", RA 7)] else Err tt;
  lookup_ip n := Err tt |}.

Lemma resolve_host_servers_witness :
  resolve_host (lit "h") 5060 = Ok [{| address := V4 7 5070; entry_transport := Some ResolvedTransport.Udp |}] /\
  exists n, name_from_utf8 (lit "h") = Some n.
Proof.
  assert (resolve_host (lit "h") 5060 = Ok [{| address := V4 7 5070; entry_transport := Some ResolvedTransport.Udp |}]) as E
    by by vm_compute.
  split; [exact E|]. pose proof (resolve_host_servers (lit "h") 5060) as H. rewrite E in H. destruct H as (n & Hn & _). by exists n.
Defined.
End example.
