(* ===== verification/SipTransports.v ===== *)
(** * Transports
    (sip-core/src/transport/mod.rs, managed.rs, streaming/mod.rs, tcp.rs, rustls.rs, udp.rs)

    The transports of the endpoint. Connections are kept in a map, counted by
    their handles, and watched by the task that reads from them. [TpHandle]s are
    values: what clones and drops them is a call of [clone_handle] and
    [drop_handle]. A transport is the record of what its methods give. *)
From stdpp Require Import gmap.
From S2P Require Import Prelude Text StunAttr IceStun SipNames SipHeaders SipFraming SipMessages SipUri SipResolver Channels.

(** ** Transports and their keys *)

(** [Transport]: the methods of a trait object; [send] is an effect of the client. *)
Record Transport := {
  name : str;
  matches_transport_param : str -> bool;
  secure : bool;
  reliable : bool;
  bound : SocketAddr;
  sent_by : SocketAddr;
  direction : Direction }.

#[export] Instance direction_eq_dec : EqDecision Direction.
Proof. solve_decision. Defined.

Module TpKey.
Record t := { name : str; bound : SocketAddr; direction : Direction }.
#[global] Instance t_eq_dec : EqDecision t.
Proof. solve_decision. Defined.
End TpKey.

#[export] Instance socket_addr_countable : Countable SocketAddr.
Proof.
  apply (inj_countable'
    (fun a => match a with V4 ip p => inl (ip, p) | V6 ip p f s => inr (ip, p, (f, s)) end)
    (fun x : Z * Z + Z * Z * (Z * Z) =>
       match x with inl (ip, p) => V4 ip p | inr (ip, p, (f, s)) => V6 ip p f s end)).
  by intros [].
Defined.
#[export] Instance direction_countable : Countable Direction.
Proof.
  apply (inj_countable'
    (fun d => match d with DirNone => inl () | DirOutgoing a => inr (inl a) | DirIncoming a => inr (inr a) end)
    (fun x : () + (SocketAddr + SocketAddr) =>
       match x with inl _ => DirNone | inr (inl a) => DirOutgoing a | inr (inr a) => DirIncoming a end)).
  by intros [].
Defined.
#[export] Instance tp_key_countable : Countable TpKey.t.
Proof.
  apply (inj_countable' (fun k => (TpKey.name k, TpKey.bound k, TpKey.direction k))
    (fun x => {| TpKey.name := x.1.1; TpKey.bound := x.1.2; TpKey.direction := x.2 |})).
  by intros [].
Defined.

(** [TpKey::from_dyn] *)
Definition from_dyn (tp : Transport) : TpKey.t :=
  {| TpKey.name := name tp; TpKey.bound := bound tp; TpKey.direction := direction tp |}.

(** [TpHandle]: the [RefOwner] is known by the number of its counter. *)
Record TpHandle := { ref_guard : option nat; transport : Transport }.

(** [TpHandle::key] and [PartialEq] *)
Definition key (h : TpHandle) : TpKey.t := from_dyn (transport h).
Definition handle_eq (a b : TpHandle) : bool := bool_decide (key a = key b).

(** [TpHandle::new]: without lifetime management *)
Definition handle_new (tp : Transport) : TpHandle := {| ref_guard := None; transport := tp |}.

(** [Udp] *)
Definition udp (bound_ : SocketAddr) : Transport :=
  {| name := lit "UDP"; matches_transport_param := eq_ignore_ascii_case (lit "UDP"); secure := false; reliable := false;
     bound := bound_; sent_by := bound_; direction := DirNone |}.

(** [StreamingTransport]: the constants of a kind of stream *)
Record StreamingTransport := { NAME : str; SECURE : bool; st_matches : str -> bool }.
Definition tcp : StreamingTransport :=
  {| NAME := lit "TCP"; SECURE := false; st_matches n := eq_ignore_ascii_case n (lit "TCP") |}.
Definition tls : StreamingTransport :=
  {| NAME := lit "TLS"; SECURE := true;
     st_matches n := (eq_ignore_ascii_case n (lit "tls") || eq_ignore_ascii_case n (lit "tcp"))%bool |}.

(** [StreamingWrite] *)
Definition streaming_write (T : StreamingTransport) (bound_ remote : SocketAddr) (incoming : bool) : Transport :=
  {| name := NAME T; matches_transport_param := st_matches T; secure := SECURE T; reliable := true;
     bound := bound_; sent_by := bound_;
     direction := if incoming then DirIncoming remote else DirOutgoing remote |}.

(** The state of a task that reads from a connection, and what it knows *)
Module ReceiveTask.
Inductive State := InUse (notifier : nat) | Unused (timeout : Z) (rx : nat).
Record t := { tp_key : TpKey.t; state : State }.
End ReceiveTask.

Section transports.
(** Oneshot channels carry [DropNotifier]s, known by the number of the counter they watch. *)
Context {Ch : Oneshots nat} {Mp : Mpsc}.

(** ** managed.rs *)

(** [ManagedTransportState]: with the counter of the weak reference, or the sender *)
Inductive ManagedTransportState := Used (weak : nat) | Unused (sender : nat).
Record MangedTransport := { managed_transport : Transport; state : ManagedTransportState }.

(** The connections of the endpoint, the reference counters of the program by their number, and its channels *)
Record Transports := {
  transports : gmap TpKey.t MangedTransport;
  owners : gmap nat nat;
  chans : Cells nat }.

Definition no_transports : Transports := {| transports := ∅; owners := ∅; chans := no_cells |}.

Definition set_transports (m : gmap TpKey.t MangedTransport) (s : Transports) : Transports :=
  {| transports := m; owners := owners s; chans := chans s |}.
Definition set_owners (o : gmap nat nat) (s : Transports) : Transports :=
  {| transports := transports s; owners := o; chans := chans s |}.
Definition set_chans (c : Cells nat) (s : Transports) : Transports :=
  {| transports := transports s; owners := owners s; chans := c |}.

(** [Arc]: the strong references that are left *)
Definition strong_count (owner : nat) (s : Transports) : nat := default 0 (owners s !! owner).

(** [ref_counter]: a new counter, with one reference *)
Definition ref_counter (s : Transports) : nat * Transports :=
  let owner := fresh (dom (owners s)) in (owner, set_owners (<[owner := 1]> (owners s)) s).

(** [RefOwner::clone], and its drop *)
Definition clone_owner (owner : nat) (s : Transports) : Transports :=
  set_owners (<[owner := S (strong_count owner s)]> (owners s)) s.
Definition drop_owner (owner : nat) (s : Transports) : Transports :=
  set_owners (<[owner := pred (strong_count owner s)]> (owners s)) s.

(** [WeakRefOwner::upgrade] *)
Definition upgrade (weak : nat) (s : Transports) : option Transports :=
  if decide (strong_count weak s = 0) then None else Some (clone_owner weak s).

(** [DropNotifier::poll]: all references share one sender, which the last one drops. *)
Definition poll_notifier (notifier : nat) (s : Transports) : Poll unit :=
  match poll_recv (if decide (strong_count notifier s = 0) then 0 else 1) with Ready _ => Ready tt | Pending => Pending end.

(** [TpHandle::clone], and its drop *)
Definition clone_handle (h : TpHandle) (s : Transports) : Transports :=
  match ref_guard h with Some owner => clone_owner owner s | None => s end.
Definition drop_handle (h : TpHandle) (s : Transports) : Transports :=
  match ref_guard h with Some owner => drop_owner owner s | None => s end.

(** The drop of a state *)
Definition drop_state (m : option MangedTransport) (s : Transports) : Transports :=
  match m with
  | Some {| state := Unused sender |} => set_chans (drop_sender sender (chans s)) s
  | _ => s
  end.

(** [MangedTransport::try_get]: the handle, and the transport in its new state *)
Definition try_get (m : MangedTransport) (s : Transports) : option TpHandle * MangedTransport * Transports :=
  match state m with
  | Used weak =>
      match upgrade weak s with
      | Some s => (Some {| ref_guard := Some weak; transport := managed_transport m |}, m, s)
      | None => (None, m, s)
      end
  | Unused sender =>
      let '(owner, s) := ref_counter s in
      let m := {| managed_transport := managed_transport m; state := Used owner |} in
      let '(sent, c) := oneshot_send sender owner (chans s) in
      let s := set_chans c s in
      if (sent : bool) then (Some {| ref_guard := Some owner; transport := managed_transport m |}, m, s)
      else (None, m, drop_owner owner s)
  end.

(** ** mod.rs: the map *)
Definition insert_transport (m : MangedTransport) (s : Transports) : Transports :=
  let k := from_dyn (managed_transport m) in
  let old := transports s !! k in
  drop_state old (set_transports (<[k := m]> (transports s)) s).

(** [add_managed_used], with [TpHandle::new_managed] *)
Definition add_managed_used (tp : Transport) (s : Transports) : TpHandle * nat * Transports :=
  let '(owner, s) := ref_counter s in
  ({| ref_guard := Some owner; transport := tp |}, owner,
   insert_transport {| managed_transport := tp; state := Used owner |} s).

Definition add_managed_unused (tp : Transport) (s : Transports) : nat * Transports :=
  let '(channel, c) := oneshot_channel (chans s) in
  (channel, insert_transport {| managed_transport := tp; state := Unused channel |} (set_chans c s)).

(** [set_unused] and [set_used], whose key must be in the map; a panic leaves what has been done. *)
Definition set_unused (k : TpKey.t) (s : Transports) : exec nat * Transports :=
  let '(channel, c) := oneshot_channel (chans s) in
  let s := set_chans c s in
  match transports s !! k with
  | None => (Panic, s)
  | Some m =>
      (Ret channel,
       drop_state (Some m)
         (set_transports (<[k := {| managed_transport := managed_transport m; state := Unused channel |}]> (transports s)) s))
  end.

Definition set_used (k : TpKey.t) (s : Transports) : exec TpHandle * Transports :=
  match transports s !! k with
  | None => (Panic, s)
  | Some m =>
      let '(h, m, s) := try_get m s in
      (unwrap h, set_transports (<[k := m]> (transports s)) s)
  end.

Definition drop_transport (k : TpKey.t) (s : Transports) : Transports :=
  drop_state (transports s !! k) (set_transports (delete k (transports s)) s).

(** ** streaming/mod.rs: the task that reads from a connection *)

(** The key the task computes *)
Definition task_key (T : StreamingTransport) (local remote : SocketAddr) (incoming : bool) : TpKey.t :=
  {| TpKey.name := NAME T; TpKey.bound := local;
     TpKey.direction := if incoming then DirIncoming remote else DirOutgoing remote |}.

(** [Factory::create] of a streaming factory, once the stream is connected: the handle, and the task it spawns *)
Definition streaming_create (T : StreamingTransport) (local remote : SocketAddr) (s : Transports)
    : TpHandle * ReceiveTask.t * Transports :=
  let '(h, notifier, s) := add_managed_used (streaming_write T local remote false) s in
  (h, {| ReceiveTask.tp_key := task_key T local remote false; ReceiveTask.state := ReceiveTask.InUse notifier |}, s).

(** An iteration of [task_accept] that gets a stream, at a time in milliseconds *)
Definition accept (now : Z) (T : StreamingTransport) (local remote : SocketAddr) (s : Transports)
    : ReceiveTask.t * Transports :=
  let '(rx, s) := add_managed_unused (streaming_write T local remote true) s in
  ({| ReceiveTask.tp_key := task_key T local remote true; ReceiveTask.state := ReceiveTask.Unused (now + 32000)%Z rx |}, s).

(** The branches of [select!] in [receive_task], with what the decoder gives *)
Inductive Branch :=
| Next (item : option (result DecodeError (Item (Uri := SipUri.t))))
| Notified
| KeepAlive
| TimedOut.

(** Which branches can be taken: input, and the ticks of the interval, come at any time. *)
Definition branch_ready (now : Z) (b : Branch) (t : ReceiveTask.t) (s : Transports) : bool :=
  match b, ReceiveTask.state t with
  | Next _, _ | KeepAlive, _ => true
  | Notified, ReceiveTask.InUse notifier => match poll_notifier notifier s with Ready _ => true | Pending => false end
  | Notified, ReceiveTask.Unused _ rx => match oneshot_poll rx (chans s) with Ready _ => true | Pending => false end
  | TimedOut, ReceiveTask.InUse _ => false
  | TimedOut, ReceiveTask.Unused timeout _ => bool_decide (timeout <= now)%Z
  end.

(** What an iteration does: where the task goes on, the message it gives to the endpoint with its handle, and
    the bytes it writes *)
Inductive Flow := Goes (t : ReceiveTask.t) | Returns | Panics.
Record Iteration := { flow : Flow; received : option (TpHandle * DecodedMessage (Uri := SipUri.t)); written : list byte }.

Definition set_task_state (x : ReceiveTask.State) (t : ReceiveTask.t) : ReceiveTask.t :=
  {| ReceiveTask.tp_key := ReceiveTask.tp_key t; ReceiveTask.state := x |}.

(** What is done with an item, and the handle of [set_used] *)
Definition receive_item (item : option (result DecodeError (Item (Uri := SipUri.t)))) (h : TpHandle) (t : ReceiveTask.t)
    (s : Transports) : Iteration * Transports :=
  match item with
  | Some (Ok (DecodedItem m)) => ({| flow := Goes t; received := Some (h, m); written := [] |}, s)
  | Some (Ok KeepAliveRequest) => ({| flow := Goes t; received := None; written := crlf |}, drop_handle h s)
  | Some (Ok KeepAliveResponse) => ({| flow := Goes t; received := None; written := [] |}, drop_handle h s)
  | Some (Err _) | None => ({| flow := Returns; received := None; written := [] |}, drop_handle h s)
  end.

(** An iteration of the loop of [receive_task] *)
Definition receive_task_step (now : Z) (b : Branch) (t : ReceiveTask.t) (s : Transports) : Iteration * Transports :=
  let simply f := {| flow := f; received := None; written := [] |} in
  match b, ReceiveTask.state t with
  | Next item, _ =>
      match set_used (ReceiveTask.tp_key t) s with
      | (Panic, s) => (simply Panics, s)
      | (Ret h, s) => receive_item item h t s
      end
  | Notified, ReceiveTask.InUse _ =>
      match set_unused (ReceiveTask.tp_key t) s with
      | (Panic, s) => (simply Panics, s)
      | (Ret rx, s) => (simply (Goes (set_task_state (ReceiveTask.Unused (now + 32000)%Z rx) t)), s)
      end
  | Notified, ReceiveTask.Unused _ rx =>
      match oneshot_poll rx (chans s) with
      | Ready (Ok notifier) => (simply (Goes (set_task_state (ReceiveTask.InUse notifier) t)), s)
      | Ready (Err _) => (simply Returns, s)
      | Pending => (simply (Goes t), s)
      end
  | KeepAlive, _ => ({| flow := Goes t; received := None; written := crlf ++ crlf |}, s)
  | TimedOut, _ => (simply Returns, s)
  end.

(** What is dropped when the task ends, by a return or a panic: [UnclaimedGuard], then the state *)
Definition end_task (t : ReceiveTask.t) (s : Transports) : Transports :=
  let s := drop_transport (ReceiveTask.tp_key t) s in
  match ReceiveTask.state t with
  | ReceiveTask.InUse _ => s
  | ReceiveTask.Unused _ rx => set_chans (drop_receiver rx (chans s)) s
  end.

(** ** mod.rs: the choice of a transport *)

(** [Factory], whose [create] gives the tasks it spawns and takes as long as it does: other tasks go on
    meanwhile. *)
Record Factory := {
  factory_name : str;
  factory_matches : str -> bool;
  factory_secure : bool;
  create : SipUri.t -> SocketAddr -> Transports -> option TpHandle * list ReceiveTask.t * Transports }.

(** [impl Factory for T: StreamingFactory], by what [connect], [local_addr] and [peer_addr] of the stream give *)
Definition streaming_factory (T : StreamingTransport) (connect : SipUri.t -> SocketAddr -> option (SocketAddr * SocketAddr))
    : Factory :=
  {| factory_name := NAME T; factory_matches := st_matches T; factory_secure := SECURE T;
     create uri addr s :=
       match connect uri addr with
       | Some (local, remote) => let '(h, t, s) := streaming_create T local remote s in (Some h, [t], s)
       | None => (None, [], s)
       end |}.

Definition is_ipv4 (a : SocketAddr) : bool := match a with V4 _ _ => true | V6 _ _ _ _ => false end.

(** [uri.uri_params.get_val("transport")] *)
Definition transport_param (uri : SipUri.t) : option str := Params.get_val (lit "transport") (SipUri.uri_params uri).

(** [is_none_or] *)
Definition is_none_or {A} (f : A -> bool) (o : option A) : bool := match o with Some a => f a | None => true end.

Definition find_matching_unmanaged_transport (unmanaged : list TpHandle) (uri : SipUri.t) (server : ServerEntry)
    : option TpHandle :=
  find (fun h =>
    let tp := transport h in
    let addr_familiy_supported := eqb (is_ipv4 (bound tp)) (is_ipv4 (address server)) in
    let transport_name_matches :=
      is_none_or (fun t => bool_decide (ResolvedTransport.as_str t = name tp)) (entry_transport server) in
    let security_level_matches := if SipUri.sips uri then secure tp else true in
    let transport_param_matches := is_none_or (matches_transport_param tp) (transport_param uri) in
    (addr_familiy_supported && transport_name_matches && security_level_matches && transport_param_matches)%bool)
    unmanaged.

(** The loop of [find_matching_idling_transport] over the entries of the map *)
Fixpoint idling_loop (uri : SipUri.t) (server : ServerEntry) (l : list (TpKey.t * MangedTransport)) (s : Transports)
    : exec (option TpHandle * Transports) :=
  match l with
  | [] => Ret (None, s)
  | (k, m) :: l =>
      let tp := managed_transport m in
      if negb (is_none_or (fun t => bool_decide (ResolvedTransport.as_str t = name tp)) (entry_transport server))
      then idling_loop uri server l s
      else
        match direction tp with
        | DirNone => Panic
        | DirIncoming _ => idling_loop uri server l s
        | DirOutgoing remote =>
            if decide (address server <> remote) then idling_loop uri server l s
            else if (negb (SipUri.sips uri) || secure tp)%bool then idling_loop uri server l s
            else if negb (is_none_or (matches_transport_param tp) (transport_param uri)) then idling_loop uri server l s
            else
              let '(h, m, s) := try_get m s in
              let s := set_transports (<[k := m]> (transports s)) s in
              match h with
              | Some h => Ret (Some h, s)
              | None => idling_loop uri server l s
              end
        end
  end.

Definition find_matching_idling_transport `{HashOrder} (uri : SipUri.t) (server : ServerEntry) (s : Transports)
    : exec (option TpHandle * Transports) :=
  idling_loop uri server (hash_order (map_to_list (transports s))) s.

Fixpoint connect (factories : list Factory) (uri : SipUri.t) (server : ServerEntry) (s : Transports)
    : option TpHandle * list ReceiveTask.t * Transports :=
  match factories with
  | [] => (None, [], s)
  | factory :: factories =>
      if negb (is_none_or (fun t => bool_decide (ResolvedTransport.as_str t = factory_name factory)) (entry_transport server))
      then connect factories uri server s
      else if (negb (SipUri.sips uri) || factory_secure factory)%bool then connect factories uri server s
      else if negb (is_none_or (factory_matches factory) (transport_param uri)) then connect factories uri server s
      else
        let '(h, spawned, s) := create factory uri (address server) s in
        match h with
        | Some h => (Some h, spawned, s)
        | None => let '(h, spawned', s) := connect factories uri server s in (h, spawned ++ spawned', s)
        end
  end.

(** The loop of [select] over the servers *)
Fixpoint select_loop `{HashOrder} (unmanaged : list TpHandle) (factories : list Factory) (uri : SipUri.t)
    (servers : list ServerEntry) (s : Transports)
    : exec (option (TpHandle * SocketAddr) * list ReceiveTask.t * Transports) :=
  match servers with
  | [] => Ret (None, [], s)
  | server :: servers =>
      match find_matching_unmanaged_transport unmanaged uri server with
      | Some h => Ret (Some (h, address server), [], clone_handle h s)
      | None =>
          '(found, s) ← find_matching_idling_transport uri server s;
          match found with
          | Some h => Ret (Some (h, address server), [], s)
          | None =>
              let '(found, spawned, s) := connect factories uri server s in
              match found with
              | Some h => Ret (Some (h, address server), spawned, s)
              | None =>
                  '(r, spawned', s) ← select_loop unmanaged factories uri servers s;
                  Ret (r, spawned ++ spawned', s)
              end
          end
      end
  end.

(** [resolve_host_port], [resolve_uri] *)
Definition resolve_host_port {H : Hickory} {U : UnstableSort} {MM : MultiMap} (h : Host) (p : Z)
    : result IoError (list ServerEntry) :=
  match h with
  | IP6 ip => Ok [server_entry (V6 ip p 0 0)]
  | IP4 ip => Ok [server_entry (V4 ip p)]
  | HostName n => resolve_host n p
  end.
Definition resolve_uri {H : Hickory} {U : UnstableSort} {MM : MultiMap} (uri : SipUri.t)
    : result IoError (list ServerEntry) :=
  let p := match HostPort.port (SipUri.host_port uri) with
           | Some p => p
           | None => if SipUri.sips uri then 5061%Z else 5060%Z
           end in
  resolve_host_port (HostPort.host (SipUri.host_port uri)) p.

(** [select]: no transport is an [io::Error] too. *)
Inductive SelectError {H : Hickory} := SelectIo (e : IoError) | NoTransport.
Definition select {H : Hickory} {U : UnstableSort} {MM : MultiMap} `{HashOrder} (unmanaged : list TpHandle)
    (factories : list Factory) (uri : SipUri.t) (s : Transports)
    : exec (result SelectError (TpHandle * SocketAddr) * list ReceiveTask.t * Transports) :=
  match resolve_uri uri with
  | Err e => Ret (Err (SelectIo e), [], s)
  | Ok servers =>
      '(r, spawned, s) ← select_loop unmanaged factories uri servers s;
      Ret (ok_or NoTransport r, spawned, s)
  end.
End transports.
