(* ===== verification/SipTransportsProps.v ===== *)
(** * What becomes of connections

    The map of transports, the tasks that read from them and the handles that
    the rest of the program has, with everything that can happen to them in any
    order. The handles are counted, each connection has its task, and the two
    agree on whether it is used; then when a connection is dropped, and which
    transport is selected for a URI. *)
From stdpp Require Import gmap.
From S2P Require Import Prelude Text StunAttr IceStun SipNames SipHeaders SipFraming SipMessages SipUri SipResolver Channels SipTransports.

Section world.
Context {Ch : Oneshots nat} {CL : OneshotLaws Ch} {Mp : Mpsc} {ML : MpscLaws Mp} {HO : HashOrder} {HL : HashOrderLaws HO}.

(** The connections, the tasks, and the handles the rest of the program has *)
Record World := { conns : Transports; tasks : gmap nat ReceiveTask.t; held : list TpHandle; time : Z }.

Definition initial (now : Z) : World := {| conns := no_transports; tasks := ∅; held := []; time := now |}.

(** The world after an iteration of the task [i] *)
Definition after (i : nat) (t : ReceiveTask.t) (x : Iteration * Transports) (w : World) : World :=
  let held := match received x.1 with Some (h, _) => h :: held w | None => held w end in
  match flow x.1 with
  | Goes t => {| conns := x.2; tasks := <[i := t]> (tasks w); held := held; time := time w |}
  | Returns | Panics => {| conns := end_task t x.2; tasks := delete i (tasks w); held := held; time := time w |}
  end.

(** What can happen: time passes; a handle is cloned or dropped; a URI is looked up among the connections; a
    connection is made, or accepted, whose addresses no open one has; a task goes on. *)
Inductive label :=
| Passes (t : Z)
| Clones (h : TpHandle)
| Drops (h : TpHandle)
| Selects (uri : SipUri.t) (server : ServerEntry)
| Connects (i : nat) (T : StreamingTransport) (local remote : SocketAddr)
| Accepts (i : nat) (T : StreamingTransport) (local remote : SocketAddr)
| Iterates (i : nat) (b : Branch).

Inductive step : label -> World -> World -> Prop :=
| step_time t w : (time w <= t)%Z ->
    step (Passes t) w {| conns := conns w; tasks := tasks w; held := held w; time := t |}
| step_clone h w : h ∈ held w ->
    step (Clones h) w {| conns := clone_handle h (conns w); tasks := tasks w; held := h :: held w; time := time w |}
| step_drop h hs w : held w ≡ₚ h :: hs ->
    step (Drops h) w {| conns := drop_handle h (conns w); tasks := tasks w; held := hs; time := time w |}
| step_select uri server r s w :
    find_matching_idling_transport uri server (conns w) = Ret (r, s) ->
    step (Selects uri server) w {| conns := s; tasks := tasks w; held := option_list r ++ held w; time := time w |}
| step_connect i T local remote h t s w :
    tasks w !! i = None -> transports (conns w) !! task_key T local remote false = None ->
    streaming_create T local remote (conns w) = (h, t, s) ->
    step (Connects i T local remote) w {| conns := s; tasks := <[i := t]> (tasks w); held := h :: held w; time := time w |}
| step_accept i T local remote t s w :
    tasks w !! i = None -> transports (conns w) !! task_key T local remote true = None ->
    accept (time w) T local remote (conns w) = (t, s) ->
    step (Accepts i T local remote) w {| conns := s; tasks := <[i := t]> (tasks w); held := held w; time := time w |}
| step_task i b t w :
    tasks w !! i = Some t -> branch_ready (time w) b t (conns w) = true ->
    step (Iterates i b) w (after i t (receive_task_step (time w) b t (conns w)) w).

Inductive reachable : World -> Prop :=
| reachable_initial now : reachable (initial now)
| reachable_step l w w' : reachable w -> step l w w' -> reachable w'.

(** ** The invariant *)

(** The task and the map agree: in use, both know the counter; not in use, the map has the sender of the
    channel the task waits for, or has used it. *)
Definition linked (x : ReceiveTask.State) (m : ManagedTransportState) (s : Transports) : Prop :=
  match x, m with
  | ReceiveTask.InUse notifier, Used weak => notifier = weak
  | ReceiveTask.InUse _, Unused _ => False
  | ReceiveTask.Unused _ rx, Used weak => cell (chans s) rx = Sent weak
  | ReceiveTask.Unused _ rx, Unused sender => rx = sender /\ cell (chans s) rx = Waiting
  end.

Definition guards (g : nat) (hs : list TpHandle) : nat := length (filter (fun h => ref_guard h = Some g) hs).

Definition waits_on (t : ReceiveTask.t) (rx : nat) : Prop :=
  exists timeout, ReceiveTask.state t = ReceiveTask.Unused timeout rx.

Record ok (s : Transports) (ts : gmap nat ReceiveTask.t) (hs : list TpHandle) : Prop := {
  ok_count g : strong_count g s = guards g hs;
  ok_entry k m : transports s !! k = Some m ->
    from_dyn (managed_transport m) = k /\ direction (managed_transport m) <> DirNone /\
    exists i t, ts !! i = Some t /\ ReceiveTask.tp_key t = k;
  ok_task i t : ts !! i = Some t ->
    exists m, transports s !! ReceiveTask.tp_key t = Some m /\ linked (ReceiveTask.state t) (state m) s;
  ok_keys i j t t' : ts !! i = Some t -> ts !! j = Some t' -> ReceiveTask.tp_key t = ReceiveTask.tp_key t' -> i = j;
  ok_rx i j t t' rx : ts !! i = Some t -> ts !! j = Some t' -> waits_on t rx -> waits_on t' rx -> i = j;
  ok_used k k' m m' g : transports s !! k = Some m -> transports s !! k' = Some m' ->
    state m = Used g -> state m' = Used g -> k = k';
  ok_known k m g : transports s !! k = Some m -> state m = Used g -> is_Some (owners s !! g);
  ok_names k m g h : transports s !! k = Some m -> state m = Used g -> h ∈ hs -> ref_guard h = Some g ->
    transport h = managed_transport m }.

(** A task that waits for a channel: the cell is known. *)
Lemma ok_waits s ts hs i t rx : ok s ts hs -> ts !! i = Some t -> waits_on t rx -> cell (chans s) rx <> NoCell.
Proof.
  intros Hok Hi (timeout & E). destruct (ok_task _ _ _ Hok _ _ Hi) as (m & _ & Hl). rewrite E in Hl. cbn in Hl.
  destruct (state m); [congruence|]. destruct Hl. congruence.
Qed.

(** ** Handles *)
Lemma guards_cons g h hs : guards g (h :: hs) = (if decide (ref_guard h = Some g) then 1 else 0) + guards g hs.
Proof. unfold guards. rewrite filter_cons. by case_decide. Qed.

Lemma guards_app g hs hs' : guards g (hs ++ hs') = guards g hs + guards g hs'.
Proof. unfold guards. by rewrite filter_app, length_app. Qed.

Lemma guards_perm g hs hs' : hs ≡ₚ hs' -> guards g hs = guards g hs'.
Proof. intros H. unfold guards. by rewrite H. Qed.

Lemma guards_pos g h hs : h ∈ hs -> ref_guard h = Some g -> guards g hs <> 0.
Proof.
  intros (l1 & l2 & ->)%list_elem_of_split E. rewrite guards_app, guards_cons, decide_True by done. lia.
Qed.

Lemma guards_nonzero g hs : guards g hs <> 0 -> exists h, h ∈ hs /\ ref_guard h = Some g.
Proof.
  unfold guards. destruct (filter _ hs) as [|h l] eqn:E; [done|]. intros _. exists h.
  assert (h ∈ filter (fun h => ref_guard h = Some g) hs) as H%list_elem_of_filter by (rewrite E; left). tauto.
Qed.

Lemma strong_count_insert g n o s :
  strong_count g (set_owners (<[o := n]> (owners s)) s) = if decide (g = o) then n else strong_count g s.
Proof.
  unfold strong_count. cbn [owners set_owners]. case_decide as E; [by rewrite E, lookup_insert_eq|].
  by rewrite lookup_insert_ne by congruence.
Qed.

Lemma guard_insert g g' n s : is_Some (owners s !! g') -> is_Some (<[g := n]> (owners s) !! g').
Proof. intros. destruct (decide (g = g')) as [->|]; [by rewrite lookup_insert_eq|by rewrite lookup_insert_ne]. Qed.

Lemma held_known s ts hs h g : ok s ts hs -> h ∈ hs -> ref_guard h = Some g -> is_Some (owners s !! g).
Proof.
  intros Hok Hh Hg. pose proof (guards_pos _ _ _ Hh Hg) as H. rewrite <-(ok_count _ _ _ Hok) in H.
  unfold strong_count in H. destruct (owners s !! g); [eauto|done].
Qed.

Lemma ok_owners s ts hs o hs' : ok s ts hs ->
  (forall g, is_Some (owners s !! g) -> is_Some (o !! g)) ->
  (forall g, strong_count g (set_owners o s) = guards g hs') -> (forall h, h ∈ hs' -> h ∈ hs) ->
  ok (set_owners o s) ts hs'.
Proof.
  intros Hok Hdom Hcount Hsub. destruct Hok. split; eauto.
Qed.

Lemma ok_clone s ts hs h : ok s ts hs -> h ∈ hs -> ok (clone_handle h s) ts (h :: hs).
Proof.
  intros Hok Hh. unfold clone_handle. destruct (ref_guard h) as [g|] eqn:E.
  - apply ok_owners with hs; [done| | |].
    + intros g'. apply guard_insert.
    + intros g'. rewrite strong_count_insert, guards_cons, E, <-!(ok_count _ _ _ Hok).
      repeat case_decide; simplify_eq; lia.
    + intros h' [->|?]%elem_of_cons; done.
  - replace s with (set_owners (owners s) s) by by destruct s. apply ok_owners with hs; [done|done| |].
    + intros g'. rewrite guards_cons, E, decide_False by done. apply (ok_count _ _ _ Hok).
    + intros h' [->|?]%elem_of_cons; done.
Qed.

Lemma ok_drop s ts hs h hs' : ok s ts hs -> hs ≡ₚ h :: hs' -> ok (drop_handle h s) ts hs'.
Proof.
  intros Hok Hp. assert (forall h', h' ∈ hs' -> h' ∈ hs) as Hsub by (intros h' ?; rewrite Hp; by right).
  assert (forall g, strong_count g s = guards g (h :: hs')) as Hc.
  { intros g. rewrite (ok_count _ _ _ Hok). by apply guards_perm. }
  unfold drop_handle. destruct (ref_guard h) as [g|] eqn:E.
  - apply ok_owners with hs; [done| | |done].
    + intros g'. apply guard_insert.
    + intros g'. rewrite strong_count_insert, !Hc, !guards_cons, E. repeat case_decide; simplify_eq; lia.
  - replace s with (set_owners (owners s) s) by by destruct s. apply ok_owners with hs; [done|done| |done].
    intros g'. cbn. fold (strong_count g' s). pose proof (Hc g') as H. rewrite guards_cons, E, decide_False in H by done. exact H.
Qed.

(** ** A connection in a new state, with its task *)
Lemma ok_update s ts hs i t t' m m' s1 hs' : let k := ReceiveTask.tp_key t in
  ok s ts hs -> ts !! i = Some t -> ReceiveTask.tp_key t' = k ->
  transports s !! k = Some m -> managed_transport m' = managed_transport m -> transports s1 = transports s ->
  (forall g, strong_count g s1 = guards g hs') ->
  (forall g, is_Some (owners s !! g) -> is_Some (owners s1 !! g)) ->
  linked (ReceiveTask.state t') (state m') s1 ->
  (forall rx, waits_on t' rx -> waits_on t rx \/ cell (chans s) rx = NoCell) ->
  (forall j u rx, ts !! j = Some u -> j <> i -> waits_on u rx -> cell (chans s1) rx = cell (chans s) rx) ->
  (forall g, state m' = Used g -> is_Some (owners s1 !! g) /\ (state m = Used g \/ owners s !! g = None)) ->
  (forall h, h ∈ hs' -> h ∈ hs \/ transport h = managed_transport m /\ exists g, ref_guard h = Some g /\ state m' = Used g) ->
  ok (set_transports (<[k := m']> (transports s1)) s1) (<[i := t']> ts) hs'.
Proof.
  intros k Hok Hi Htk Hk Hm Hmap Hcount Hdom Hlink Hrx Hcell Hnew Hheld. rewrite Hmap.
  assert (forall g k0 m0, transports s !! k0 = Some m0 -> k0 <> k -> state m0 = Used g -> state m' <> Used g) as Hapart.
  { intros g k0 m0 H0 Hne E0 E'. destruct (Hnew _ E') as [_ [Hu|Hn]]; [by apply Hne, (ok_used _ _ _ Hok _ _ m0 m g)|].
    destruct (ok_known _ _ _ Hok _ _ _ H0 E0). congruence. }
  assert (forall j u rx, ts !! j = Some u -> j <> i -> waits_on u rx -> ~ waits_on t' rx) as Hown.
  { intros j u rx Hj Hne Hu Ht. destruct (Hrx rx Ht) as [Hold|Hno]; [by apply Hne, (ok_rx _ _ _ Hok j i u t rx)|].
    by apply (ok_waits _ _ _ _ _ _ Hok Hj Hu). }
  split; cbn [transports set_transports owners chans]; [exact Hcount| | | | | | |].
  - intros k0 m0 H0. assert (exists m1, transports s !! k0 = Some m1 /\ managed_transport m0 = managed_transport m1) as (m1 & H1 & ->).
    { apply lookup_insert_Some in H0 as [[<- <-]|[_ H0]]; eauto. }
    destruct (ok_entry _ _ _ Hok _ _ H1) as (? & ? & j & u & Hj & Huk). split; [done|]. split; [done|].
    destruct (decide (i = j)) as [<-|Hne].
    + exists i, t'. rewrite lookup_insert_eq. assert (u = t) as -> by congruence. by rewrite Htk.
    + exists j, u. by rewrite lookup_insert_ne.
  - intros j u [[<- <-]|[Hne Hj]]%lookup_insert_Some.
    + exists m'. by rewrite Htk, lookup_insert_eq.
    + destruct (ok_task _ _ _ Hok _ _ Hj) as (m0 & H0 & Hl). exists m0. rewrite lookup_insert_ne.
      2: { intros E. apply Hne, (ok_keys _ _ _ Hok i j t u Hi Hj E). }
      split; [done|]. pose proof (fun rx => Hcell j u rx Hj (not_eq_sym Hne)) as Hc.
      unfold linked in *. destruct (ReceiveTask.state u) as [n|timeout rx] eqn:Eu; [done|]. cbn [chans set_transports].
      rewrite Hc by by exists timeout. done.
  - intros j j' u u' [[<- <-]|[Nj Hj]]%lookup_insert_Some [[<- <-]|[Nj' Hj']]%lookup_insert_Some; [done| | |by apply (ok_keys _ _ _ Hok)];
      rewrite Htk; intros E; [by apply (ok_keys _ _ _ Hok i j' t u')|by apply (ok_keys _ _ _ Hok j i u t)].
  - intros j j' u u' rx [[<- <-]|[Nj Hj]]%lookup_insert_Some [[<- <-]|[Nj' Hj']]%lookup_insert_Some H1 H2; [done| | |by apply (ok_rx _ _ _ Hok _ _ u u' rx)].
    + by destruct (Hown j' u' rx).
    + by destruct (Hown j u rx).
  - intros k0 k1 m0 m1 g [[<- <-]|[N0 H0]]%lookup_insert_Some [[<- <-]|[N1 H1]]%lookup_insert_Some E0 E1; [done| | |].
    + by destruct (Hapart g k1 m1).
    + by destruct (Hapart g k0 m0).
    + by apply (ok_used _ _ _ Hok _ _ m0 m1 g).
  - intros k0 m0 g [[<- <-]|[_ H0]]%lookup_insert_Some E0; [by apply Hnew|]. apply Hdom. by apply (ok_known _ _ _ Hok k0 m0).
  - intros k0 m0 g h H0 E0 Hh Hg. destruct (Hheld h Hh) as [Hin|(Htp & g' & Hg' & E')].
    + apply lookup_insert_Some in H0 as [[<- <-]|[_ H0]]; [|by apply (ok_names _ _ _ Hok k0 _ g)].
      rewrite Hm. destruct (Hnew _ E0) as [_ [Hu|Hn]]; [by apply (ok_names _ _ _ Hok k _ g)|].
      destruct (held_known _ _ _ _ _ Hok Hin Hg). congruence.
    + assert (g' = g) as -> by congruence. apply lookup_insert_Some in H0 as [[<- <-]|[N0 H0]]; [by rewrite Hm|].
      by destruct (Hapart g k0 m0).
Qed.

(** The task of an entry *)
Lemma entry_task s ts hs k m : ok s ts hs -> transports s !! k = Some m ->
  exists i t, ts !! i = Some t /\ ReceiveTask.tp_key t = k /\ linked (ReceiveTask.state t) (state m) s.
Proof.
  intros Hok Hk. destruct (ok_entry _ _ _ Hok _ _ Hk) as (_ & _ & i & t & Hi & Hti).
  destruct (ok_task _ _ _ Hok _ _ Hi) as (m0 & Hm0 & Hl). exists i, t. rewrite Hti, Hk in Hm0. by injection Hm0 as <-.
Qed.

(** [try_get] on an entry: it fails when the last reference is gone, and the task has not noticed. *)
Lemma ok_try_get s ts hs k m : ok s ts hs -> transports s !! k = Some m ->
  let '(r, m', s1) := try_get m s in
  ok (set_transports (<[k := m']> (transports s1)) s1) ts (option_list r ++ hs) /\
  (forall h, r = Some h -> transport h = managed_transport m) /\
  (r = None <-> exists g, state m = Used g /\ strong_count g s = 0) /\
  (r = None -> set_transports (<[k := m']> (transports s1)) s1 = s) /\
  transports s1 = transports s /\ managed_transport m' = managed_transport m.
Proof.
  intros Hok Hk. destruct (entry_task _ _ _ _ _ Hok Hk) as (i & t & Hi & Hti & Hl). rewrite <-Hti in *.
  unfold try_get. destruct (state m) as [g|tx] eqn:Em.
  - unfold upgrade. case_decide as Hz.
    + rewrite insert_id by done. assert (set_transports (transports s) s = s) as -> by by destruct s.
      split; [done|]. split; [done|]. split; [|done]. split; [|done]. intros _. eauto.
    + split; [|split; [|split; [|split; [|done]]]].
      * rewrite <-(insert_id ts i t Hi). apply (ok_update s ts hs i t t m m); try done.
        -- intros g'. unfold clone_owner. rewrite strong_count_insert. cbn [option_list option_rect app]. rewrite guards_cons.
           cbn [ref_guard]. rewrite <-!(ok_count _ _ _ Hok). repeat case_decide; simplify_eq; lia.
        -- intros g'. apply guard_insert.
        -- by rewrite Em.
        -- by left.
        -- intros g' Hg'. split; [|by left]. cbn. assert (g' = g) as -> by congruence. by rewrite lookup_insert_eq.
        -- cbn [option_list option_rect app]. intros h [->|?]%elem_of_cons; [right; eauto|by left].
      * by intros h [= <-].
      * split; [done|]. intros (g' & [= <-] & ?). done.
      * done.
  - assert (exists timeout, ReceiveTask.state t = ReceiveTask.Unused timeout tx /\ cell (chans s) tx = Waiting) as (timeout & Et & Hw).
    { destruct (ReceiveTask.state t) as [n|timeout rx]; [done|]. destruct Hl as [-> ?]. eauto. }
    unfold ref_counter. set (owner := fresh (dom (owners s))).
    assert (owners s !! owner = None) as Hfresh by apply not_elem_of_dom, is_fresh.
    cbn [chans set_owners]. destruct (send_law tx owner (chans s) Hw) as [Hsent Hc].
    destruct (oneshot_send tx owner (chans s)) as [sent c]. cbn [fst snd] in Hsent, Hc. subst sent.
    split; [|split; [|split; [|split; [|done]]]].
    + rewrite <-(insert_id ts i t Hi). apply (ok_update s ts hs i t t m); try done.
      * intros g'. change (strong_count g' (set_owners (<[owner := 1]> (owners s)) s) = guards g' ({| ref_guard := Some owner; transport := managed_transport m |} :: hs)).
        rewrite strong_count_insert, guards_cons, <-(ok_count _ _ _ Hok). cbn [ref_guard].
        repeat case_decide; simplify_eq; [|done]. unfold strong_count. by rewrite Hfresh.
      * intros g'. apply guard_insert.
      * rewrite Et. cbn. by rewrite Hc, cell_at_eq.
      * by left.
      * intros j u rx Hj Hne Hu. cbn. rewrite Hc, cell_at_ne; [done|]. intros <-.
        by apply Hne, (ok_rx _ _ _ Hok j i u t tx); [| | |exists timeout].
      * cbn. intros g' [= <-]. split; [by rewrite lookup_insert_eq|by right].
      * cbn [option_list option_rect app]. intros h [->|?]%elem_of_cons; [right; eauto|by left].
    + by intros h [= <-].
    + split; [done|]. by intros (g' & ? & _).
    + done.
Qed.

(** ** What the tasks do *)
Lemma ok_set_used s ts hs i t : ok s ts hs -> ts !! i = Some t ->
  exists m, transports s !! ReceiveTask.tp_key t = Some m /\
    match set_used (ReceiveTask.tp_key t) s with
    | (Ret h, s1) => ok s1 ts (h :: hs) /\ transport h = managed_transport m /\
        ~ exists g, state m = Used g /\ strong_count g s = 0
    | (Panic, s1) => s1 = s /\ exists g, state m = Used g /\ strong_count g s = 0
    end.
Proof.
  intros Hok Hi. destruct (ok_task _ _ _ Hok _ _ Hi) as (m & Hm & _). exists m. split; [done|].
  unfold set_used. rewrite Hm. pose proof (ok_try_get _ _ _ _ _ Hok Hm) as H.
  destruct (try_get m s) as [[r m'] s1]. destruct H as (H1 & H2 & H3 & H4 & _). destruct r as [h|]; cbn [unwrap].
  - split; [exact H1|]. split; [by apply H2|]. by intros H%H3.
  - split; [by apply H4|by apply H3].
Qed.

Lemma ok_set_unused now s ts hs i t notifier : ok s ts hs -> ts !! i = Some t ->
  ReceiveTask.state t = ReceiveTask.InUse notifier ->
  exists rx s1, set_unused (ReceiveTask.tp_key t) s = (Ret rx, s1) /\
    ok s1 (<[i := set_task_state (ReceiveTask.Unused (now + 32000)%Z rx) t]> ts) hs.
Proof.
  intros Hok Hi Et. destruct (ok_task _ _ _ Hok _ _ Hi) as (m & Hm & Hl). rewrite Et in Hl.
  destruct (state m) as [g|] eqn:Em; [|done]. cbn in Hl. unfold set_unused.
  pose proof (channel_law (chans s)) as [Hno Hc]. destruct (oneshot_channel (chans s)) as [rx c]. cbn [fst snd] in Hno, Hc.
  cbn [transports set_chans]. rewrite Hm. exists rx, (set_transports
    (<[ReceiveTask.tp_key t := {| managed_transport := managed_transport m; state := Unused rx |}]> (transports (set_chans c s))) (set_chans c s)).
  split; [destruct m as [tp x]; cbn in Em; by rewrite Em|].
  apply (ok_update s ts hs i t _ m); try done.
  - apply (ok_count _ _ _ Hok).
  - cbn. by rewrite Hc, cell_at_eq.
  - intros rx' (timeout & [= _ <-]). by right.
  - intros j u rx' Hj Hne Hu. cbn. rewrite Hc, cell_at_ne; [done|]. intros <-. by apply (ok_waits _ _ _ _ _ _ Hok Hj Hu).
  - by left.
Qed.

(** The task gets the counter that [try_get] has sent. *)
Lemma ok_notified s ts hs i t timeout rx : ok s ts hs -> ts !! i = Some t ->
  ReceiveTask.state t = ReceiveTask.Unused timeout rx ->
  match oneshot_poll rx (chans s) with
  | Ready (Ok notifier) => ok s (<[i := set_task_state (ReceiveTask.InUse notifier) t]> ts) hs
  | Ready (Err _) => False
  | Pending => True
  end.
Proof.
  intros Hok Hi Et. destruct (ok_task _ _ _ Hok _ _ Hi) as (m & Hm & Hl). rewrite Et in Hl.
  rewrite poll_law. destruct (state m) as [g|sender] eqn:Em; cbn in Hl; [|by destruct Hl as [_ ->]]. rewrite Hl.
  replace s with (set_transports (<[ReceiveTask.tp_key t := m]> (transports s)) s) at 1
    by (rewrite insert_id by done; by destruct s).
  apply (ok_update s ts hs i t _ m m); try done.
  - apply (ok_count _ _ _ Hok).
  - by rewrite Em.
  - by intros ? (? & ?).
  - intros g' E. split; [by apply (ok_known _ _ _ Hok (ReceiveTask.tp_key t) m)|by left].
  - by left.
Qed.

(** ** New connections *)
Lemma ok_insert s ts hs i t m s1 hs' :
  ok s ts hs -> ts !! i = None -> transports s !! ReceiveTask.tp_key t = None -> transports s1 = transports s ->
  from_dyn (managed_transport m) = ReceiveTask.tp_key t -> direction (managed_transport m) <> DirNone ->
  (forall g, strong_count g s1 = guards g hs') ->
  (forall g, is_Some (owners s !! g) -> is_Some (owners s1 !! g)) ->
  linked (ReceiveTask.state t) (state m) s1 ->
  (forall rx, waits_on t rx -> cell (chans s) rx = NoCell) ->
  (forall j u rx, ts !! j = Some u -> waits_on u rx -> cell (chans s1) rx = cell (chans s) rx) ->
  (forall g, state m = Used g -> is_Some (owners s1 !! g) /\ owners s !! g = None) ->
  (forall h, h ∈ hs' -> h ∈ hs \/ transport h = managed_transport m /\ exists g, ref_guard h = Some g /\ state m = Used g) ->
  ok (insert_transport m s1) (<[i := t]> ts) hs'.
Proof.
  intros Hok Hi Hk Hmap Htp Hdir Hcount Hdom Hlink Hrx Hcell Hnew Hheld.
  unfold insert_transport. rewrite Hmap, Htp, Hk. cbn [drop_state]. set (k := ReceiveTask.tp_key t) in *.
  assert (forall g k0 m0, transports s !! k0 = Some m0 -> state m0 = Used g -> state m <> Used g) as Hapart.
  { intros g k0 m0 H0 E0 E'. destruct (Hnew _ E') as [_ Hn]. destruct (ok_known _ _ _ Hok _ _ _ H0 E0). congruence. }
  assert (forall j u, ts !! j = Some u -> ReceiveTask.tp_key u <> k) as Hkeys.
  { intros j u Hj E. destruct (ok_task _ _ _ Hok _ _ Hj) as (m0 & H0 & _). congruence. }
  assert (forall j u rx, ts !! j = Some u -> waits_on u rx -> ~ waits_on t rx) as Hown.
  { intros j u rx Hj Hu Ht. by apply (ok_waits _ _ _ _ _ _ Hok Hj Hu), Hrx. }
  split; cbn [transports set_transports owners chans]; [exact Hcount| | | | | | |].
  - intros k0 m0 [[<- <-]|[_ H0]]%lookup_insert_Some.
    + split; [done|]. split; [done|]. exists i, t. by rewrite lookup_insert_eq.
    + destruct (ok_entry _ _ _ Hok _ _ H0) as (? & ? & j & u & Hj & Huk). split; [done|]. split; [done|].
      exists j, u. rewrite lookup_insert_ne by congruence. done.
  - intros j u [[<- <-]|[Hne Hj]]%lookup_insert_Some; [exists m; by rewrite lookup_insert_eq|].
    destruct (ok_task _ _ _ Hok _ _ Hj) as (m0 & H0 & Hl). exists m0. rewrite lookup_insert_ne by congruence.
    split; [done|]. pose proof (fun rx => Hcell j u rx Hj) as Hc.
    unfold linked in *. destruct (ReceiveTask.state u) as [n|timeout rx] eqn:Eu; [done|]. cbn [chans set_transports].
    rewrite Hc by by exists timeout. done.
  - intros j j' u u' [[<- <-]|[Nj Hj]]%lookup_insert_Some [[<- <-]|[Nj' Hj']]%lookup_insert_Some E; [done| | |by apply (ok_keys _ _ _ Hok _ _ u u')].
    + by destruct (Hkeys j' u').
    + by destruct (Hkeys j u).
  - intros j j' u u' rx [[<- <-]|[Nj Hj]]%lookup_insert_Some [[<- <-]|[Nj' Hj']]%lookup_insert_Some H1 H2; [done| | |by apply (ok_rx _ _ _ Hok _ _ u u' rx)].
    + by destruct (Hown j' u' rx).
    + by destruct (Hown j u rx).
  - intros k0 k1 m0 m1 g [[<- <-]|[N0 H0]]%lookup_insert_Some [[<- <-]|[N1 H1]]%lookup_insert_Some E0 E1; [done| | |].
    + by destruct (Hapart g k1 m1).
    + by destruct (Hapart g k0 m0).
    + by apply (ok_used _ _ _ Hok _ _ m0 m1 g).
  - intros k0 m0 g [[<- <-]|[_ H0]]%lookup_insert_Some E0; [by apply Hnew|]. apply Hdom. by apply (ok_known _ _ _ Hok k0 m0).
  - intros k0 m0 g h H0 E0 Hh Hg. destruct (Hheld h Hh) as [Hin|(Htp' & g' & Hg' & E')].
    + apply lookup_insert_Some in H0 as [[<- <-]|[_ H0]]; [|by apply (ok_names _ _ _ Hok k0 _ g)].
      destruct (Hnew _ E0) as [_ Hn]. destruct (held_known _ _ _ _ _ Hok Hin Hg). congruence.
    + assert (g' = g) as -> by congruence. apply lookup_insert_Some in H0 as [[<- <-]|[N0 H0]]; [done|].
      by destruct (Hapart g k0 m0).
Qed.

Lemma task_key_of T local remote incoming :
  from_dyn (streaming_write T local remote incoming) = task_key T local remote incoming.
Proof. done. Qed.

Lemma streaming_direction T local remote incoming : direction (streaming_write T local remote incoming) <> DirNone.
Proof. by destruct incoming. Qed.

Lemma ok_create s ts hs i T local remote h t s1 : ok s ts hs -> ts !! i = None ->
  transports s !! task_key T local remote false = None -> streaming_create T local remote s = (h, t, s1) ->
  ok s1 (<[i := t]> ts) (h :: hs).
Proof.
  intros Hok Hi Hk. unfold streaming_create, add_managed_used, ref_counter.
  set (owner := fresh (dom (owners s))).
  assert (owners s !! owner = None) as Hfresh by apply not_elem_of_dom, is_fresh.
  intros [= <- <- <-]. apply (ok_insert s ts hs); try done.
  - intros g'. rewrite strong_count_insert, guards_cons, <-(ok_count _ _ _ Hok). cbn [ref_guard].
    repeat case_decide; simplify_eq; [|done]. unfold strong_count. by rewrite Hfresh.
  - intros g'. apply guard_insert.
  - by intros rx (timeout & ?).
  - intros g [= <-]. split; [|done]. cbn. by rewrite lookup_insert_eq.
  - intros h' [->|?]%elem_of_cons; [right; eauto|by left].
Qed.

Lemma ok_accept now s ts hs i T local remote t s1 : ok s ts hs -> ts !! i = None ->
  transports s !! task_key T local remote true = None -> accept now T local remote s = (t, s1) ->
  ok s1 (<[i := t]> ts) hs.
Proof.
  intros Hok Hi Hk. unfold accept, add_managed_unused.
  pose proof (channel_law (chans s)) as [Hno Hc]. destruct (oneshot_channel (chans s)) as [rx c]. cbn [fst snd] in Hno, Hc.
  intros [= <- <-]. apply (ok_insert s ts hs); try done.
  - apply (ok_count _ _ _ Hok).
  - cbn. by rewrite Hc, cell_at_eq.
  - by intros rx' (timeout & [= _ <-]).
  - intros j u rx' Hj Hu. cbn. rewrite Hc, cell_at_ne; [done|]. intros <-. by apply (ok_waits _ _ _ _ _ _ Hok Hj Hu).
  - by left.
Qed.

(** ** The end of a task *)
Lemma ok_end s ts hs i t : ok s ts hs -> ts !! i = Some t -> ok (end_task t s) (delete i ts) hs.
Proof.
  intros Hok Hi. destruct (ok_task _ _ _ Hok _ _ Hi) as (m & Hm & Hl). set (k := ReceiveTask.tp_key t) in *.
  assert (transports (end_task t s) = delete k (transports s) /\ owners (end_task t s) = owners s /\
    forall j u rx, ts !! j = Some u -> j <> i -> waits_on u rx -> cell (chans (end_task t s)) rx = cell (chans s) rx)
    as (Emap & Eown & Ecell).
  { unfold end_task, drop_transport. fold k. rewrite Hm. destruct m as [tp [g|sender]]; cbn [drop_state state] in *.
    - destruct (ReceiveTask.state t) as [n|timeout rx] eqn:Et; [done|]. split; [done|]. split; [done|].
      intros j u rx' Hj Hne Hu. cbn. apply drop_receiver_ne. intros ->. apply Hne, (ok_rx _ _ _ Hok j i u t rx); try done. by exists timeout.
    - destruct (ReceiveTask.state t) as [n|timeout rx] eqn:Et; [done|]. destruct Hl as [<- _]. split; [done|]. split; [done|].
      intros j u rx' Hj Hne Hu. cbn. assert (rx' <> rx).
      { intros ->. apply Hne, (ok_rx _ _ _ Hok j i u t rx); try done. by exists timeout. }
      by rewrite drop_receiver_ne, drop_sender_ne. }
  assert (forall k0 m0, delete k (transports s) !! k0 = Some m0 -> k <> k0 /\ transports s !! k0 = Some m0) as Hold.
  { intros k0 m0 H. by apply lookup_delete_Some in H. }
  assert (forall g, strong_count g (end_task t s) = strong_count g s) as Ecount.
  { intros g. unfold strong_count. by rewrite Eown. }
  split; rewrite ?Emap, ?Eown.
  - intros g. rewrite Ecount. apply (ok_count _ _ _ Hok).
  - intros k0 m0 [Hne H0]%Hold. destruct (ok_entry _ _ _ Hok _ _ H0) as (? & ? & j & u & Hj & Hu).
    split; [done|]. split; [done|]. exists j, u. split; [|done]. apply lookup_delete_Some. split; [|done].
    intros ->. apply Hne. assert (u = t) as -> by congruence. exact Hu.
  - intros j u [Hne Hj]%lookup_delete_Some. destruct (ok_task _ _ _ Hok _ _ Hj) as (m0 & H0 & Hl0). exists m0.
    split. { apply lookup_delete_Some. split; [|done]. intros E. by apply Hne, (ok_keys _ _ _ Hok i j t u). }
    pose proof (fun rx => Ecell j u rx Hj (not_eq_sym Hne)) as Hc. unfold linked in *.
    destruct (ReceiveTask.state u) as [n|timeout rx] eqn:Eu; [done|]. rewrite Hc by by exists timeout. done.
  - intros j j' u u' [_ ?]%lookup_delete_Some [_ ?]%lookup_delete_Some. by apply (ok_keys _ _ _ Hok).
  - intros j j' u u' rx [_ ?]%lookup_delete_Some [_ ?]%lookup_delete_Some. by apply (ok_rx _ _ _ Hok).
  - intros k0 k1 m0 m1 g [_ ?]%Hold [_ ?]%Hold. by apply (ok_used _ _ _ Hok).
  - intros k0 m0 g [_ ?]%Hold. by apply (ok_known _ _ _ Hok k0).
  - intros k0 m0 g h [_ ?]%Hold. by apply (ok_names _ _ _ Hok k0).
Qed.

(** ** All of it *)
Lemma ok_idling uri server l s ts hs r s1 : ok s ts hs ->
  (forall k m, (k, m) ∈ l -> transports s !! k = Some m) -> NoDup l.*1 ->
  idling_loop uri server l s = Ret (r, s1) -> ok s1 ts (option_list r ++ hs).
Proof.
  revert s. induction l as [|[k m] l IH]; intros s Hok Hl Hnd; cbn [idling_loop].
  { by intros [= <- <-]. }
  assert (forall k m, (k, m) ∈ l -> transports s !! k = Some m) as Hl' by (intros; apply Hl; by right).
  apply NoDup_cons in Hnd as [Hni Hnd].
  destruct (negb _); [by apply IH|]. destruct (direction _); [done| |by apply IH].
  case_decide; [by apply IH|]. destruct (_ || _)%bool; [by apply IH|]. destruct (negb _); [by apply IH|].
  pose proof (ok_try_get _ _ _ k m Hok (Hl k m ltac:(left))) as H'.
  destruct (try_get m s) as [[[h|] m'] s2]; destruct H' as (H1 & _ & _ & H4 & _).
  - by intros [= <- <-].
  - specialize (H4 eq_refl). rewrite H4 in *. by apply IH.
Qed.

Lemma ok_step l w w' : ok (conns w) (tasks w) (held w) -> step l w w' -> ok (conns w') (tasks w') (held w').
Proof.
  intros Hok Hs. destruct Hs as [t w ?|h w Hh|h hs w Hp|uri server r s w Hf|i T local remote h t s w Hi Hk Hc
    |i T local remote t s w Hi Hk Hc|i b t w Hi Hb]; cbn [conns tasks held].
  - done.
  - by apply ok_clone.
  - by apply ok_drop with (held w).
  - eapply ok_idling; [exact Hok| | |exact Hf].
    + intros k m. rewrite hash_order_perm. by intros ?%elem_of_map_to_list.
    + rewrite hash_order_perm. apply NoDup_fst_map_to_list.
  - by eapply ok_create.
  - by eapply ok_accept.
  - unfold after, receive_task_step. destruct b as [item| | |].
    + destruct (ok_set_used _ _ _ _ _ Hok Hi) as (m & _ & H).
      destruct (set_used _ _) as [[h|] s1]; cbn [flow received fst snd].
      * destruct H as (H & _ & _). unfold receive_item.
        destruct item as [[[d| |]|e]|]; cbn [flow received fst snd conns tasks held]; rewrite ?insert_id by done; [done|..];
          try apply ok_end; try done; by apply ok_drop with (h :: held w).
      * destruct H as [-> _]. by apply ok_end.
    + destruct (ReceiveTask.state t) as [n|timeout rx] eqn:Et.
      * destruct (ok_set_unused (time w) _ _ _ _ _ _ Hok Hi Et) as (rx & s1 & -> & H). exact H.
      * pose proof (ok_notified _ _ _ _ _ _ _ Hok Hi Et) as H. destruct (oneshot_poll _ _) as [[n|e]|];
          cbn [flow received fst snd conns tasks held]; [exact H|done|by rewrite insert_id].
    + cbn. by rewrite insert_id.
    + by apply ok_end.
Qed.

Lemma ok_reachable w : reachable w -> ok (conns w) (tasks w) (held w).
Proof.
  induction 1 as [now|l w w' _ Hok Hs]; [|by eapply ok_step].
  by split.
Qed.

(** ** The theorems *)
Lemma counted_zero s ts hs g : ok s ts hs -> strong_count g s = 0 <-> forall h, h ∈ hs -> ref_guard h <> Some g.
Proof.
  intros Hok. rewrite (ok_count _ _ _ Hok). split.
  - intros H h Hh Hg. by apply (guards_pos _ _ _ Hh Hg).
  - intros H. destruct (decide (guards g hs = 0)) as [|Hn]; [done|]. apply guards_nonzero in Hn as (h & Hh & Hg). by destruct (H h Hh).
Qed.

(** The connection of a task has handles: the rest of the program refers to it. *)
Definition referenced (k : TpKey.t) (w : World) : Prop :=
  exists m g h, transports (conns w) !! k = Some m /\ state m = Used g /\ h ∈ held w /\ ref_guard h = Some g.

(** What the input of a stream is: its end, or an error *)
Definition stream_over (item : option (result DecodeError (Item (Uri := SipUri.t)))) : Prop :=
  item = None \/ exists e, item = Some (Err e).

Lemma idling_loop_total uri server l s ts hs : ok s ts hs ->
  (forall k m, (k, m) ∈ l -> transports s !! k = Some m) -> NoDup l.*1 -> idling_loop uri server l s <> Panic.
Proof.
  revert s. induction l as [|[k m] l IH]; intros s Hok Hl Hnd; cbn [idling_loop]; [done|].
  assert (forall k m, (k, m) ∈ l -> transports s !! k = Some m) as Hl' by (intros; apply Hl; by right).
  apply NoDup_cons in Hnd as [Hni Hnd]. pose proof (Hl k m ltac:(left)) as Hk.
  destruct (ok_entry _ _ _ Hok _ _ Hk) as (_ & Hd & _).
  destruct (negb _); [by apply IH|]. destruct (direction _); [done| |by apply IH].
  case_decide; [by apply IH|]. destruct (_ || _)%bool; [by apply IH|]. destruct (negb _); [by apply IH|].
  pose proof (ok_try_get _ _ _ k m Hok Hk) as H'.
  destruct (try_get m s) as [[[h|] m'] s2]; destruct H' as (H1 & _ & _ & H4 & _); [done|].
  specialize (H4 eq_refl). rewrite H4 in *. by apply IH.
Qed.

Lemma idling_total uri server s ts hs : ok s ts hs -> find_matching_idling_transport uri server s <> Panic.
Proof.
  intros Hok. eapply idling_loop_total; [exact Hok| |].
  - intros k m. rewrite hash_order_perm. by intros ?%elem_of_map_to_list.
  - rewrite hash_order_perm. apply NoDup_fst_map_to_list.
Qed.

(** An iteration, by what the task and its connection are *)
Lemma task_iteration w i b t : reachable w -> tasks w !! i = Some t ->
  exists m, transports (conns w) !! ReceiveTask.tp_key t = Some m /\
    let it := (receive_task_step (time w) b t (conns w)).1 in
    (flow it = Panics <-> (exists item, b = Next item) /\
       exists g, state m = Used g /\ forall h, h ∈ held w -> ref_guard h <> Some g) /\
    (flow it = Returns -> b = TimedOut \/ exists item, b = Next item /\ stream_over item).
Proof.
  intros Hok%ok_reachable Hi. destruct (ok_set_used _ _ _ _ _ Hok Hi) as (m & Hm & Hu). exists m. split; [done|].
  unfold receive_task_step. destruct b as [item| | |].
  - destruct (set_used _ _) as [[h|] s1].
    + destruct Hu as (_ & _ & Hlive).
      assert (~ ((exists item', Next item = Next item') /\
        exists g, state m = Used g /\ forall h, h ∈ held w -> ref_guard h <> Some g)) as Hno.
      { intros [_ (g & Hg & Hn)]. apply Hlive. exists g. split; [done|]. by apply (counted_zero _ _ _ _ Hok). }
      unfold receive_item, stream_over. destruct item as [[[d| |]|e]|]; (split; [by split|]); try done; intros _; right; eauto.
    + destruct Hu as [_ (g & Hg & Hz)]. split; [|done]. split; [|done]. intros _. split; [by exists item|].
      exists g. split; [done|]. by apply (counted_zero _ _ _ _ Hok).
  - destruct (ReceiveTask.state t) as [n|timeout rx] eqn:Et.
    + destruct (ok_set_unused (time w) _ _ _ _ _ _ Hok Hi Et) as (rx & s1 & -> & _). split; [split; [done|]|done]. by intros [[? ?] _].
    + pose proof (ok_notified _ _ _ _ _ _ _ Hok Hi Et) as H. destruct (oneshot_poll _ _) as [[n|e]|]; [|done|];
        (split; [split; [done|]|done]); by intros [[? ?] _].
  - split; [split; [done|]|done]. by intros [[? ?] _].
  - split; [split; [done|]|by left]. by intros [[? ?] _].
Qed.

(** C13: The task of a connection, in every state the program can get to and whichever of the ready branches
    [select!] takes: it finds its connection; it never loses the notifier it waits for; it returns when its
    stream is over or its timeout is; and it panics exactly when there is input after the last handle has been
    dropped and before the task has noticed. No connection is without a direction when one is looked up. *)
Theorem connection_tasks w : reachable w ->
  (forall i b t, tasks w !! i = Some t -> branch_ready (time w) b t (conns w) = true ->
     exists m, transports (conns w) !! ReceiveTask.tp_key t = Some m /\
       let it := (receive_task_step (time w) b t (conns w)).1 in
       (flow it = Panics <-> (exists item, b = Next item) /\
          exists g, state m = Used g /\ forall h, h ∈ held w -> ref_guard h <> Some g) /\
       (flow it = Returns -> b = TimedOut \/ exists item, b = Next item /\ stream_over item)) /\
  (forall uri server, find_matching_idling_transport uri server (conns w) <> Panic).
Proof.
  intros Hr. split; [intros i b t Hi _; by apply task_iteration with i|].
  intros uri server. by apply idling_total with (tasks w) (held w), ok_reachable.
Qed.

(** ** Which connections stay in the map *)
Lemma insert_keeps {A} (m : gmap TpKey.t A) k k0 x : is_Some (m !! k) -> is_Some (<[k0 := x]> m !! k).
Proof. intros. destruct (decide (k0 = k)) as [->|]; [by rewrite lookup_insert_eq|by rewrite lookup_insert_ne]. Qed.

Lemma drop_state_map o s : transports (drop_state o s) = transports s.
Proof. by destruct o as [[? []]|]. Qed.

Lemma drop_handle_map h s : transports (drop_handle h s) = transports s.
Proof. unfold drop_handle. by destruct (ref_guard h). Qed.

Lemma insert_transport_keeps m s k : is_Some (transports s !! k) -> is_Some (transports (insert_transport m s) !! k).
Proof. intros. unfold insert_transport. rewrite drop_state_map. by apply insert_keeps. Qed.

Lemma try_get_map m s : transports (try_get m s).2 = transports s.
Proof.
  unfold try_get. destruct (state m) as [g|tx].
  - unfold upgrade. by case_decide.
  - unfold ref_counter. destruct (oneshot_send _ _ _) as [[] c]; done.
Qed.

Lemma idling_keeps uri server l s r s1 k : idling_loop uri server l s = Ret (r, s1) ->
  is_Some (transports s !! k) -> is_Some (transports s1 !! k).
Proof.
  revert s. induction l as [|[k0 m] l IH]; intros s; cbn [idling_loop]; [by intros [= <- <-]|].
  destruct (negb _); [apply IH|]. destruct (direction _); [done| |apply IH].
  case_decide; [apply IH|]. destruct (_ || _)%bool; [apply IH|]. destruct (negb _); [apply IH|].
  pose proof (try_get_map m s) as E. destruct (try_get m s) as [[[h|] m'] s2]; cbn in E.
  - intros [= <- <-] Hk. cbn. rewrite E. by apply insert_keeps.
  - intros E2 Hk. apply (IH _ E2). cbn. rewrite E. by apply insert_keeps.
Qed.

Lemma set_used_keeps k0 s k : is_Some (transports s !! k) -> is_Some (transports (set_used k0 s).2 !! k).
Proof.
  intros Hk. unfold set_used. destruct (transports s !! k0) as [m|]; [|done].
  pose proof (try_get_map m s) as E. destruct (try_get m s) as [[r m'] s2]. cbn in *. rewrite E. by apply insert_keeps.
Qed.

Lemma set_unused_keeps k0 s k : is_Some (transports s !! k) -> is_Some (transports (set_unused k0 s).2 !! k).
Proof.
  intros Hk. unfold set_unused. destruct (oneshot_channel _) as [rx c]. cbn [transports set_chans].
  destruct (transports s !! k0) as [m|]; [|done]. cbn [snd]. rewrite drop_state_map. by apply insert_keeps.
Qed.

Lemma task_step_keeps now b t s k :
  is_Some (transports s !! k) -> is_Some (transports (receive_task_step now b t s).2 !! k).
Proof.
  intros Hk. unfold receive_task_step. destruct b as [item| | |]; [|destruct (ReceiveTask.state t) as [n|? rx]|done|done].
  - pose proof (set_used_keeps (ReceiveTask.tp_key t) s k Hk) as H. destruct (set_used _ _) as [[h|] s1]; [|done].
    unfold receive_item. destruct item as [[[d| |]|e]|]; cbn [snd]; rewrite ?drop_handle_map; done.
  - pose proof (set_unused_keeps (ReceiveTask.tp_key t) s k Hk) as H. by destruct (set_unused _ _) as [[rx|] s1].
  - by destruct (oneshot_poll _ _) as [[]|].
Qed.

Lemma end_task_map t s : transports (end_task t s) = delete (ReceiveTask.tp_key t) (transports s).
Proof. unfold end_task, drop_transport. by destruct (ReceiveTask.state t); cbn; rewrite drop_state_map. Qed.

Lemma step_keeps l w w' k : step l w w' -> is_Some (transports (conns w) !! k) -> transports (conns w') !! k = None ->
  exists i b t, l = Iterates i b /\ tasks w !! i = Some t /\ ReceiveTask.tp_key t = k /\
    branch_ready (time w) b t (conns w) = true /\
    (flow (receive_task_step (time w) b t (conns w)).1 = Returns \/ flow (receive_task_step (time w) b t (conns w)).1 = Panics).
Proof.
  intros Hs Hk Hno. assert (~ is_Some (transports (conns w') !! k)) as Hn by (rewrite Hno; by intros [? ?]).
  destruct Hs as [t w ?|h w Hh|h hs w Hp|uri server r s w Hf|i T local remote h t s w Hi Hk' Hc
    |i T local remote t s w Hi Hk' Hc|i b t w Hi Hb]; cbn [conns] in Hn.
  - done.
  - exfalso. apply Hn. unfold clone_handle. by destruct (ref_guard h).
  - exfalso. apply Hn. by rewrite drop_handle_map.
  - exfalso. apply Hn. by eapply idling_keeps.
  - exfalso. apply Hn. unfold streaming_create, add_managed_used in Hc. cbn in Hc. injection Hc as _ _ <-.
    by apply insert_transport_keeps.
  - exfalso. apply Hn. unfold accept, add_managed_unused in Hc. destruct (oneshot_channel _). injection Hc as _ <-.
    by apply insert_transport_keeps.
  - pose proof (task_step_keeps (time w) b t _ _ Hk) as Hkeep. exists i, b, t. split; [done|]. split; [done|].
    unfold after in Hn. destruct (flow _) eqn:E; cbn [conns] in Hn; [done| |]; rewrite end_task_map in Hn;
      (split; [|auto]); apply dec_stable; intros Hne; apply Hn; by rewrite lookup_delete_ne.
Qed.

(** C15: When a connection is dropped: only its own task drops it, when its stream is over, when its timeout is,
    or when it panics because there is input and no handle is left. So a connection that has handles is dropped
    only when its stream is over, or when its timeout ran out after it was taken up again and before the task
    noticed. *)
Theorem connection_dropped l w w' k : reachable w -> step l w w' ->
  is_Some (transports (conns w) !! k) -> transports (conns w') !! k = None ->
  exists i b t, l = Iterates i b /\ tasks w !! i = Some t /\ ReceiveTask.tp_key t = k /\
    ((exists item, b = Next item /\ (stream_over item \/ ~ referenced k w)) \/
     (b = TimedOut /\ exists timeout rx, ReceiveTask.state t = ReceiveTask.Unused timeout rx /\ (timeout <= time w)%Z /\
        (referenced k w -> exists notifier, oneshot_poll rx (chans (conns w)) = Ready (Ok notifier)))).
Proof.
  intros Hr Hs Hk Hno. destruct (step_keeps _ _ _ _ Hs Hk Hno) as (i & b & t & -> & Hi & Htk & Hb & Hflow).
  exists i, b, t. split; [done|]. split; [done|]. split; [done|].
  destruct (task_iteration w i b t Hr Hi) as (m & Hm & Hp & Hret). rewrite Htk in Hm.
  pose proof (ok_reachable _ Hr) as Hok. destruct Hflow as [Hf|Hf].
  - destruct (Hret Hf) as [->|(item & -> & Hover)]; [right|left; eauto].
    split; [done|]. cbn in Hb. destruct (ReceiveTask.state t) as [n|timeout rx] eqn:Et; [done|].
    apply bool_decide_eq_true in Hb. exists timeout, rx. split; [done|]. split; [done|].
    intros (m' & g & h & Hm' & Hg & _). assert (m' = m) as -> by congruence. exists g. rewrite poll_law.
    destruct (ok_task _ _ _ Hok _ _ Hi) as (m1 & Hm1 & Hl). assert (m1 = m) as -> by congruence.
    rewrite Et, Hg in Hl. cbn in Hl. by rewrite Hl.
  - destruct (proj1 Hp Hf) as ((item & ->) & g & Hg & Hnone). left. exists item. split; [done|]. right.
    intros (m' & g' & h & Hm' & Hg' & Hh & Hgu). assert (m' = m) as -> by congruence. apply (Hnone h Hh). congruence.
Qed.

(** ** Connections that are not used are closed *)
Lemma timeout_bound w i t timeout rx : reachable w -> tasks w !! i = Some t ->
  ReceiveTask.state t = ReceiveTask.Unused timeout rx -> (timeout <= time w + 32000)%Z.
Proof.
  intros Hr. revert i t timeout rx. induction Hr as [now|l w w' Hr IH Hs]; intros j u d rx Hj Eu; [done|].
  destruct Hs as [t w ?|h w Hh|h hs w Hp|uri server r s w Hf|i T local remote h t s w Hi Hk Hc
    |i T local remote t s w Hi Hk Hc|i b t w Hi Hb]; cbn [tasks time] in *.
  - pose proof (IH _ _ _ _ Hj Eu). lia.
  - by eapply IH.
  - by eapply IH.
  - by eapply IH.
  - apply lookup_insert_Some in Hj as [[<- <-]|[_ Hj]]; [|by eapply IH].
    unfold streaming_create, add_managed_used in Hc. cbn in Hc. by injection Hc as _ <- _.
  - apply lookup_insert_Some in Hj as [[<- <-]|[_ Hj]]; [|by eapply IH].
    unfold accept, add_managed_unused in Hc. destruct (oneshot_channel _). injection Hc as <- _. injection Eu as <- _. lia.
  - unfold after in *. destruct (flow _) as [t'| |] eqn:E; cbn [tasks time] in *;
      [|apply lookup_delete_Some in Hj as [_ Hj]; by eapply IH..].
    apply lookup_insert_Some in Hj as [[<- <-]|[_ Hj]]; [|by eapply IH].
    unfold receive_task_step in E. destruct b as [item| | |].
    + destruct (set_used _ _) as [[h|] s1]; [|done]. unfold receive_item in E.
      destruct item as [[[? | |]|?]|]; cbn in E; try done; injection E as <-; by eapply IH.
    + destruct (ReceiveTask.state t) as [n|d' rx'] eqn:Et.
      * destruct (set_unused _ _) as [[rx'|] s1]; [|done]. injection E as <-. injection Eu as <- _. lia.
      * destruct (oneshot_poll _ _) as [[n|]|]; try done; injection E as <-; [done|]. by eapply IH.
    + injection E as <-. by eapply IH.
    + done.
Qed.

(** What others do to the entry of a connection *)
Lemma set_used_other k0 s k : k <> k0 -> transports (set_used k0 s).2 !! k = transports s !! k.
Proof.
  intros Hne. unfold set_used. destruct (transports s !! k0) as [m|]; [|done].
  pose proof (try_get_map m s) as E. destruct (try_get m s) as [[r m'] s2]. cbn in *. by rewrite E, lookup_insert_ne.
Qed.

Lemma set_unused_other k0 s k : k <> k0 -> transports (set_unused k0 s).2 !! k = transports s !! k.
Proof.
  intros Hne. unfold set_unused. destruct (oneshot_channel _) as [rx c]. cbn [transports set_chans].
  destruct (transports s !! k0) as [m|]; [|done]. cbn [snd]. rewrite drop_state_map. cbn. by rewrite lookup_insert_ne.
Qed.

Lemma task_step_other now b t s k : k <> ReceiveTask.tp_key t ->
  transports (receive_task_step now b t s).2 !! k = transports s !! k.
Proof.
  intros Hne. unfold receive_task_step. destruct b as [item| | |]; [|destruct (ReceiveTask.state t) as [n|? rx]|done|done].
  - pose proof (set_used_other _ s k Hne) as H. destruct (set_used _ _) as [[h|] s1]; [|done].
    unfold receive_item. destruct item as [[[d| |]|e]|]; cbn [snd]; rewrite ?drop_handle_map; done.
  - pose proof (set_unused_other _ s k Hne) as H. by destruct (set_unused _ _) as [[rx|] s1].
  - by destruct (oneshot_poll _ _) as [[]|].
Qed.

Lemma insert_transport_other m s k : k <> from_dyn (managed_transport m) ->
  transports (insert_transport m s) !! k = transports s !! k.
Proof. intros Hne. unfold insert_transport. rewrite drop_state_map. cbn. by rewrite lookup_insert_ne. Qed.

(** A lookup leaves the entry alone, or gives a handle to it. *)
Lemma idling_other uri server l s ts hs r s1 k : ok s ts hs ->
  (forall k m, (k, m) ∈ l -> transports s !! k = Some m) -> NoDup l.*1 -> idling_loop uri server l s = Ret (r, s1) ->
  transports s1 !! k = transports s !! k \/
  exists h m g, r = Some h /\ transports s1 !! k = Some m /\ state m = Used g /\ ref_guard h = Some g.
Proof.
  revert s. induction l as [|[k0 m] l IH]; intros s Hok Hl Hnd; cbn [idling_loop]; [intros [= <- <-]; by left|].
  assert (forall k m, (k, m) ∈ l -> transports s !! k = Some m) as Hl' by (intros; apply Hl; by right).
  apply NoDup_cons in Hnd as [Hni Hnd].
  destruct (negb _); [by apply IH|]. destruct (direction _); [done| |by apply IH].
  case_decide; [by apply IH|]. destruct (_ || _)%bool; [by apply IH|]. destruct (negb _); [by apply IH|].
  pose proof (ok_try_get _ _ _ k0 m Hok (Hl k0 m ltac:(left))) as H'.
  destruct (try_get m s) as [[[h|] m'] s2] eqn:E; destruct H' as (_ & _ & _ & H4 & Hmap & _).
  2: { rewrite (H4 eq_refl). by apply IH. }
  intros [= <- <-]. destruct (decide (k0 = k)) as [->|Hne]; [right|left; cbn; by rewrite Hmap, lookup_insert_ne].
  unfold try_get in E. destruct (state m) as [g|tx] eqn:Em.
  - destruct (upgrade g s) as [s0|]; [|done]. injection E as <- <- <-. exists {| ref_guard := Some g; transport := managed_transport m |}, m, g.
    split; [done|]. split; [apply lookup_insert_eq|done].
  - destruct (ref_counter s) as [owner s0]. destruct (oneshot_send _ _ _) as [[] c]; [|done]. injection E as <- <- <-.
    eexists _, _, owner. split; [done|]. split; [apply lookup_insert_eq|done].
Qed.

(** What does not concern a connection, nor gives anyone a handle to it, leaves its entry and its task as they are. *)
Lemma step_other l w w' i t : reachable w -> step l w w' -> tasks w !! i = Some t -> (forall b, l <> Iterates i b) ->
  ~ referenced (ReceiveTask.tp_key t) w' ->
  tasks w' !! i = Some t /\ transports (conns w') !! ReceiveTask.tp_key t = transports (conns w) !! ReceiveTask.tp_key t /\
  (time w' = time w \/ l = Passes (time w')).
Proof.
  intros Hr Hs Hi Hl Hno. pose proof (ok_reachable _ Hr) as Hok. set (k := ReceiveTask.tp_key t) in *.
  destruct (ok_task _ _ _ Hok _ _ Hi) as (m & Hm & _). fold k in Hm.
  destruct Hs as [u w ?|h w Hh|h hs w Hp|uri server r s w Hf|j T local remote h u s w Hj Hk Hc
    |j T local remote u s w Hj Hk Hc|j b u w Hj Hb]; cbn [conns tasks time] in *.
  - auto.
  - split; [done|]. split; [|by left]. unfold clone_handle. by destruct (ref_guard h).
  - split; [done|]. split; [|by left]. by rewrite drop_handle_map.
  - split; [done|]. split; [|by left]. unfold find_matching_idling_transport in Hf.
    assert (transports s !! k = transports (conns w) !! k \/ exists h m g, r = Some h /\ transports s !! k = Some m /\
      state m = Used g /\ ref_guard h = Some g) as [?|(h & m' & g & -> & H1 & H2 & H3)]; [|done|].
    { eapply idling_other; [exact Hok| | |exact Hf].
      - intros k0 m0. rewrite hash_order_perm. by intros ?%elem_of_map_to_list.
      - rewrite hash_order_perm. apply NoDup_fst_map_to_list. }
    destruct Hno. exists m', g, h. cbn. split; [done|]. split; [done|]. split; [by left|done].
  - rewrite lookup_insert_ne by congruence. split; [done|]. split; [|by left].
    unfold streaming_create, add_managed_used in Hc. cbn in Hc. injection Hc as _ _ <-.
    rewrite insert_transport_other; [done|]. intros E. cbn [managed_transport] in E. rewrite task_key_of in E. congruence.
  - rewrite lookup_insert_ne by congruence. split; [done|]. split; [|by left].
    unfold accept, add_managed_unused in Hc. destruct (oneshot_channel _). injection Hc as _ <-.
    rewrite insert_transport_other; [done|]. intros E. cbn [managed_transport] in E. rewrite task_key_of in E. congruence.
  - assert (j <> i) as Hji by (intros ->; by apply (Hl b)).
    assert (k <> ReceiveTask.tp_key u) as Hk by (intros E; by apply Hji, (ok_keys _ _ _ Hok j i u t)).
    pose proof (task_step_other (time w) b u (conns w) k Hk) as He. unfold after. destruct (flow _); cbn [conns tasks time].
    + rewrite lookup_insert_ne by done. auto.
    + rewrite lookup_delete_ne, end_task_map, lookup_delete_ne by done. auto.
    + rewrite lookup_delete_ne, end_task_map, lookup_delete_ne by done. auto.
Qed.

(** A connection that is left alone: there is no input, and nobody gets a handle to it. Its task ticks as it
    likes, and the rest of the program does what it likes. The runtime is prompt: time does not pass while the task
    has been notified, nor beyond its timeout. *)
Definition prompt (i : nat) (w : World) (now : Z) : Prop :=
  forall t, tasks w !! i = Some t -> branch_ready (time w) Notified t (conns w) = false /\
    forall timeout rx, ReceiveTask.state t = ReceiveTask.Unused timeout rx -> (now <= timeout)%Z.
Definition left_alone (i : nat) (k : TpKey.t) (w w' : World) : Prop :=
  exists l, step l w w' /\ is_Some (tasks w !! i) /\ ~ referenced k w' /\
    (forall item, l <> Iterates i (Next item)) /\ forall now, l = Passes now -> prompt i w now.

(** Where its task is, when it has been left alone since [start] *)
Definition closing (i : nat) (k : TpKey.t) (start : Z) (w : World) : Prop :=
  reachable w /\ ~ referenced k w /\ (start <= time w <= start + 32000)%Z /\
  exists t m, tasks w !! i = Some t /\ ReceiveTask.tp_key t = k /\ transports (conns w) !! k = Some m /\
    match ReceiveTask.state t, state m with
    | ReceiveTask.Unused timeout _, Unused _ => (timeout <= start + 32000)%Z
    | _, _ => time w = start
    end.

Definition closed (i : nat) (k : TpKey.t) (start : Z) (w : World) : Prop :=
  tasks w !! i = None /\ transports (conns w) !! k = None /\ (time w <= start + 32000)%Z.

(** Whether it has been notified *)
Lemma notified_ready i k start w t m : closing i k start w -> tasks w !! i = Some t -> transports (conns w) !! k = Some m ->
  branch_ready (time w) Notified t (conns w) =
    match ReceiveTask.state t, state m with ReceiveTask.Unused _ _, Unused _ => false | _, _ => true end.
Proof.
  intros (Hr & Hno & _ & t' & m' & Hi' & Htk & Hm' & _) Hi Hm. assert (t' = t) as -> by congruence.
  assert (m' = m) as -> by congruence. pose proof (ok_reachable _ Hr) as Hok. clear Hi' Hm'. subst k.
  destruct (ok_task _ _ _ Hok _ _ Hi) as (m0 & Hm0 & Hl). assert (m0 = m) as -> by congruence. cbn.
  destruct (ReceiveTask.state t) as [n|timeout rx] eqn:Et, (state m) as [g|sender] eqn:Em; try done; cbn in Hl.
  - subst g. assert (strong_count n (conns w) = 0) as Hz.
    { apply (counted_zero _ _ _ _ Hok). intros h Hh Hg. apply Hno. by exists m, n, h. }
    unfold poll_notifier. by rewrite Hz, poll_recv_law.
  - by rewrite poll_law, Hl.
  - destruct Hl as [_ Hl]. by rewrite poll_law, Hl.
Qed.

(** What the task does next, when it has been notified *)
Lemma closing_notified i k start w t : closing i k start w -> tasks w !! i = Some t ->
  branch_ready (time w) Notified t (conns w) = true ->
  let w' := after i t (receive_task_step (time w) Notified t (conns w)) w in
  closing i k start w' /\ left_alone i k w w' /\
  exists t', tasks w' !! i = Some t' /\ match ReceiveTask.state t, ReceiveTask.state t' with
    | ReceiveTask.Unused _ _, ReceiveTask.InUse _ => True
    | ReceiveTask.InUse _, ReceiveTask.Unused timeout _ => timeout = (start + 32000)%Z /\ time w' = start /\
        branch_ready (time w') Notified t' (conns w') = false
    | _, _ => False
    end.
Proof.
  intros Hc Hi Hb. pose proof Hc as (Hr & Hno & Ht & t0 & m & Hi0 & Htk & Hm & Hst). assert (t0 = t) as -> by congruence.
  rewrite (notified_ready _ _ _ _ _ _ Hc Hi Hm) in Hb. pose proof (ok_reachable _ Hr) as Hok.
  set (w' := after i t _ w). assert (step (Iterates i Notified) w w') as Hs.
  { apply step_task; [done|]. by rewrite (notified_ready _ _ _ _ _ _ Hc Hi Hm). }
  assert (reachable w') as Hr' by (by eapply reachable_step). pose proof (ok_reachable _ Hr') as Hok'.
  enough (closing i k start w' /\ exists t', tasks w' !! i = Some t' /\ match ReceiveTask.state t, ReceiveTask.state t' with
    | ReceiveTask.Unused _ _, ReceiveTask.InUse _ => True
    | ReceiveTask.InUse _, ReceiveTask.Unused timeout _ => timeout = (start + 32000)%Z /\ time w' = start /\
        branch_ready (time w') Notified t' (conns w') = false
    | _, _ => False
    end) as [Hc' Hd].
  { split; [done|]. split; [|done]. exists (Iterates i Notified). split; [done|]. split; [by eexists|].
    split; [apply Hc'|]. by split. }
  subst w'. unfold receive_task_step in *. destruct (ReceiveTask.state t) as [n|timeout rx] eqn:Et.
  - assert (time w = start) as Hstart by (by destruct (state m)).
    assert (exists tp rx, (set_unused (ReceiveTask.tp_key t) (conns w)).1 = Ret rx /\
      transports (set_unused (ReceiveTask.tp_key t) (conns w)).2 !! k = Some {| managed_transport := tp; state := Unused rx |})
      as (tp & rx & Eret & Eentry).
    { unfold set_unused. destruct (oneshot_channel _) as [rx c]. cbn [transports set_chans]. rewrite Htk, Hm.
      exists (managed_transport m), rx. split; [done|]. cbn [snd]. rewrite drop_state_map. apply lookup_insert_eq. }
    destruct (set_unused _ _) as [r s1]. cbn [fst snd] in Eret, Eentry. subst r.
    unfold after in *. cbn [flow received fst snd conns tasks held time] in *.
    assert (closing i k start {| conns := s1; tasks := <[i := set_task_state (ReceiveTask.Unused (time w + 32000)%Z rx) t]> (tasks w);
      held := held w; time := time w |}) as Hc'.
    { split; [done|]. split; [intros (m' & g & h & Hm' & Hg & _); cbn in Hm'; rewrite Eentry in Hm'; by injection Hm' as <-|]. split; [done|].
      eexists _, _. cbn [tasks conns]. split; [apply lookup_insert_eq|]. split; [done|]. split; [exact Eentry|]. cbn. lia. }
    split; [done|]. eexists. split; [apply lookup_insert_eq|]. cbn [ReceiveTask.state set_task_state time]. split; [by rewrite Hstart|].
    split; [done|]. pose proof (notified_ready _ _ _ _ _ _ Hc' (lookup_insert_eq _ _ _) Eentry) as Hb'. exact Hb'.
  - pose proof (ok_notified _ _ _ _ _ _ _ Hok Hi Et) as Hn. destruct (state m) as [g|] eqn:Em; [|done].
    destruct (ok_task _ _ _ Hok _ _ Hi) as (m0 & Hm0 & Hl). assert (m0 = m) as -> by congruence. rewrite Et, Em in Hl. cbn in Hl.
    rewrite poll_law, Hl in *. unfold after in *. cbn [flow received fst snd conns tasks held time] in *.
    split; [|eexists; split; [apply lookup_insert_eq|done]]. split; [done|]. split; [done|]. split; [done|].
    eexists _, m. cbn [tasks conns time]. split; [apply lookup_insert_eq|]. split; [done|]. by split.
Qed.

(** It ends at its timeout. *)
Lemma closing_ends i k start w t : closing i k start w -> tasks w !! i = Some t ->
  let w' := after i t (receive_task_step (time w) TimedOut t (conns w)) w in closed i k start w'.
Proof.
  intros (_ & _ & Ht & t' & m & Hi' & Htk & _) Hi. assert (t' = t) as -> by congruence. subst k. split; [apply lookup_delete_eq|].
  split; [|cbn; lia]. cbn [after receive_task_step flow fst snd conns]. rewrite end_task_map. apply lookup_delete_eq.
Qed.

(** Whatever happens, it is still about to close, or closed. *)
Lemma closing_step i k start w w' : closing i k start w -> left_alone i k w w' -> closing i k start w' \/ closed i k start w'.
Proof.
  intros Hc (l & Hs & _ & Hno' & Hin & Hp). pose proof Hc as (Hr & Hno & Ht & t & m & Hi & Htk & Hm & Hst).
  assert (reachable w') as Hr' by (by eapply reachable_step).
  assert ((exists b, l = Iterates i b) \/ ~ exists b, l = Iterates i b) as [Hown|Hother].
  { destruct l as [| | | | | |j b]; try (right; by intros [? ?]). destruct (decide (j = i)) as [->|?]; [left; by eexists|].
    right. intros [? [= ]]. congruence. }
  - destruct Hown as [b ->]. inversion Hs as [| | | | | |? ? t' ? Hi' Hb]; subst. assert (t' = t) as -> by congruence.
    destruct b as [item| | |]; [by destruct (Hin item)| | |].
    + left. by apply closing_notified.
    + left. split; [done|]. split; [done|]. cbn in *. rewrite insert_id by done. split; [done|]. by exists t, m.
    + right. by apply closing_ends.
  - left. assert (forall b, l <> Iterates i b) as Hl by (intros b ->; apply Hother; by eexists).
    rewrite <-Htk in Hno'. destruct (step_other _ _ _ _ _ Hr Hs Hi Hl Hno') as (Hi' & Hm' & Htime). rewrite Htk in *.
    split; [done|]. split; [done|]. destruct Htime as [Et|E].
    + split; [by rewrite Et|]. exists t, m. rewrite Hm', Et. done.
    + destruct (Hp _ E t Hi) as [Hb Hto]. rewrite (notified_ready _ _ _ _ _ _ Hc Hi Hm) in Hb.
      assert (time w <= time w')%Z as Hle by (rewrite E in Hs; by inversion Hs).
      destruct (ReceiveTask.state t) as [n|timeout rx] eqn:Eu; [done|]. destruct (state m) as [g|sender] eqn:Em; [done|].
      specialize (Hto _ _ eq_refl). split; [lia|]. exists t, m. rewrite Hm', Eu, Em. done.
Qed.

(** It can always close in time. *)
Lemma closing_waits i k start w t timeout rx : closing i k start w -> tasks w !! i = Some t ->
  ReceiveTask.state t = ReceiveTask.Unused timeout rx -> branch_ready (time w) Notified t (conns w) = false ->
  exists w', rtc (left_alone i k) w w' /\ closed i k start w'.
Proof.
  intros Hc Hi Et Hb. pose proof Hc as (Hr & Hno & Ht & t' & m & Hi' & Htk & Hm & Hst). assert (t' = t) as -> by congruence.
  rewrite (notified_ready _ _ _ _ _ _ Hc Hi Hm) in Hb. rewrite Et in Hb, Hst. destruct (state m) as [g|sender] eqn:Em; [done|].
  assert (forall w, closing i k start w -> tasks w !! i = Some t -> (timeout <= time w)%Z ->
    exists w', rtc (left_alone i k) w w' /\ closed i k start w') as Hend.
  { intros w1 Hc1 Hi1 Hle. eexists. split; [|by apply closing_ends]. apply rtc_once. exists (Iterates i TimedOut).
    split; [apply step_task; [done|]; cbn; rewrite Et; by apply bool_decide_eq_true|]. split; [by eexists|].
    split; [|by split]. destruct (closing_ends _ _ _ _ _ Hc1 Hi1) as (_ & Hgone & _). intros (m1 & g & h & Hm1 & _). congruence. }
  destruct (decide (timeout <= time w)%Z) as [Hle|Hlt]; [by apply Hend|].
  set (w1 := {| conns := conns w; tasks := tasks w; held := held w; time := timeout |}).
  assert (left_alone i k w w1) as Hw1.
  { exists (Passes timeout). split; [apply step_time; lia|]. split; [by eexists|]. split; [done|]. split; [done|].
    intros now [= <-] u Hu. assert (u = t) as -> by congruence. rewrite (notified_ready _ _ _ _ _ _ Hc Hi Hm), Et, Em.
    split; [done|]. intros ? ? E. injection E as <- _. lia. }
  destruct (closing_step _ _ _ _ _ Hc Hw1) as [Hc1|(Hgone & _)]; [|cbn in Hgone; congruence].
  destruct (Hend w1 Hc1 Hi ltac:(cbn; lia)) as (w' & Hw' & Hcl). exists w'. split; [|done]. by eapply rtc_l.
Qed.

Lemma closing_closes i k start w : closing i k start w -> exists w', rtc (left_alone i k) w w' /\ closed i k start w'.
Proof.
  intros Hc. assert (forall w t n, closing i k start w -> tasks w !! i = Some t -> ReceiveTask.state t = ReceiveTask.InUse n ->
    exists w', rtc (left_alone i k) w w' /\ closed i k start w') as Huse.
  { clear w Hc. intros w t n Hc Hi Et. pose proof Hc as (_ & _ & _ & t' & m & Hi' & _ & Hm & _). assert (t' = t) as -> by congruence.
    assert (branch_ready (time w) Notified t (conns w) = true) as Hb by (by rewrite (notified_ready _ _ _ _ _ _ Hc Hi Hm), Et).
    destruct (closing_notified _ _ _ _ _ Hc Hi Hb) as (Hc' & Hs & t1 & Hi1 & Hst). rewrite Et in Hst.
    destruct (ReceiveTask.state t1) as [|timeout rx] eqn:Et1; [done|]. destruct Hst as (_ & _ & Hb').
    destruct (closing_waits _ _ _ _ _ _ _ Hc' Hi1 Et1 Hb') as (w' & Hw' & Hcl). exists w'. split; [|done]. by eapply rtc_l. }
  pose proof Hc as (_ & _ & _ & t & m & Hi & _ & Hm & _). destruct (ReceiveTask.state t) as [n|timeout rx] eqn:Et; [by apply (Huse w t n)|].
  destruct (branch_ready (time w) Notified t (conns w)) eqn:Hb; [|by apply (closing_waits _ _ _ _ _ _ _ Hc Hi Et)].
  destruct (closing_notified _ _ _ _ _ Hc Hi Hb) as (Hc' & Hs & t1 & Hi1 & Hst). rewrite Et in Hst.
  destruct (ReceiveTask.state t1) as [n|] eqn:Et1; [|done]. destruct (Huse _ _ _ Hc' Hi1 Et1) as (w' & Hw' & Hcl).
  exists w'. split; [|done]. by eapply rtc_l.
Qed.

(** C16: A connection to which no handle is left is closed within 32 seconds, when it is left alone: there is no
    input, and nobody gets a handle to it. Its task may send any number of requests to keep the connection alive in
    between, and the rest of the program may do anything else. However this goes on, at most 32 seconds pass before
    the task has ended and taken the connection out of the map; and until then it can always end in that time. *)
Theorem unused_connection_closes w i t w' : let k := ReceiveTask.tp_key t in
  reachable w -> tasks w !! i = Some t -> ~ referenced k w -> rtc (left_alone i k) w w' ->
  (time w' <= time w + 32000)%Z /\
  (tasks w' !! i = None /\ transports (conns w') !! k = None \/
   exists w'', rtc (left_alone i k) w' w'' /\ tasks w'' !! i = None /\ transports (conns w'') !! k = None /\
     (time w'' <= time w + 32000)%Z).
Proof.
  intros k Hr Hi Hno Hsteps.
  assert (closing i k (time w) w) as Hc.
  { split; [done|]. split; [done|]. split; [lia|]. destruct (ok_task _ _ _ (ok_reachable _ Hr) _ _ Hi) as (m & Hm & _).
    exists t, m. split; [done|]. split; [done|]. split; [done|]. destruct (ReceiveTask.state t) eqn:Et; [done|].
    destruct (state m); [done|]. by eapply timeout_bound. }
  assert (closing i k (time w) w' \/ closed i k (time w) w') as [Hc'|(H1 & H2 & H3)]; [|..].
  { generalize dependent (time w). intros start Hc. clear Hr Hi Hno. induction Hsteps as [w|w w1 w' Hs Hrest IH]; [by left|].
    destruct (closing_step _ _ _ _ _ Hc Hs) as [Hc1|Hcl]; [by apply IH|].
    right. destruct Hcl as (Hgone & ? & ?). inversion Hrest as [|? w2 ? (l & _ & [? ?] & _)]; subst; [done|]. congruence. }
  - split; [apply Hc'|]. right. by apply closing_closes.
  - split; [done|]. by left.
Qed.
End world.

(** ** Which transport is selected *)
Section select.
Context {Ch : Oneshots nat} {HO : HashOrder}.

(** The name of a transport and its parameter are those the server and the URI ask for. *)
Definition fits (uri : SipUri.t) (server : ServerEntry) (n : str) (matches : str -> bool) : Prop :=
  (forall t, entry_transport server = Some t -> ResolvedTransport.as_str t = n) /\
  (forall p, transport_param uri = Some p -> matches p = true).

Lemma is_none_or_true {A} (f : A -> bool) o : is_none_or f o = true <-> forall a, o = Some a -> f a = true.
Proof. destruct o as [a|]; cbn; split; [by intros ? ? [= <-]|auto|done|done]. Qed.

Lemma fits_spec uri server n matches :
  is_none_or (fun t => bool_decide (ResolvedTransport.as_str t = n)) (entry_transport server) = true ->
  is_none_or matches (transport_param uri) = true -> fits uri server n matches.
Proof. rewrite !is_none_or_true. intros H1 H2. split; [|done]. intros t Ht. by apply (bool_decide_eq_true_1 _ (H1 t Ht)). Qed.

Lemma unmanaged_fits unmanaged uri server h : find_matching_unmanaged_transport unmanaged uri server = Some h ->
  h ∈ unmanaged /\ is_ipv4 (bound (transport h)) = is_ipv4 (address server) /\
  (SipUri.sips uri = true -> secure (transport h) = true) /\
  fits uri server (name (transport h)) (matches_transport_param (transport h)).
Proof.
  intros [Hin H]%find_some. rewrite !andb_true_iff in H. destruct H as [[[H1 H2] H3] H4].
  split; [by apply list_elem_of_In|]. split; [by apply eqb_prop|]. split; [|by apply fits_spec].
  intros E. by rewrite E in H3.
Qed.

Lemma try_get_transport m s h m' s' : try_get m s = (Some h, m', s') -> transport h = managed_transport m.
Proof.
  unfold try_get. destruct (state m) as [g|tx].
  - destruct (upgrade g s); [|done]. by intros [= <- _ _].
  - destruct (ref_counter s). destruct (oneshot_send _ _ _) as [[] c]; [|done]. by intros [= <- _ _].
Qed.

Lemma idling_fits uri server l s h s' : idling_loop uri server l s = Ret (Some h, s') ->
  SipUri.sips uri = true /\ secure (transport h) = false /\ direction (transport h) = DirOutgoing (address server) /\
  fits uri server (name (transport h)) (matches_transport_param (transport h)).
Proof.
  revert s. induction l as [|[k m] l IH]; intros s; cbn [idling_loop]; [done|].
  destruct (is_none_or _ _) eqn:En; cbn [negb]; [|apply IH].
  destruct (direction (managed_transport m)) as [|remote|] eqn:Ed; [done| |apply IH].
  case_decide as Ha; [apply IH|]. destruct (_ || _)%bool eqn:Es; [apply IH|].
  destruct (is_none_or (matches_transport_param _) _) eqn:Ep; cbn [negb]; [|apply IH].
  destruct (try_get m s) as [[[h'|] m'] s2] eqn:Et; [|apply IH].
  intros [= -> _]. rewrite (try_get_transport _ _ _ _ _ Et), Ed. apply orb_false_iff in Es as [Hs ?].
  apply negb_false_iff in Hs. split; [done|]. split; [done|]. split; [|by apply fits_spec].
  by rewrite Ha.
Qed.

Lemma connect_fits factories uri server s h spawned s' : connect factories uri server s = (Some h, spawned, s') ->
  SipUri.sips uri = true /\ exists f, f ∈ factories /\ factory_secure f = false /\
    fits uri server (factory_name f) (factory_matches f) /\
    exists s0 sp s1, create f uri (address server) s0 = (Some h, sp, s1).
Proof.
  revert s spawned. induction factories as [|f factories IH]; intros s spawned; cbn [connect]; [done|].
  assert (forall s spawned, connect factories uri server s = (Some h, spawned, s') ->
    SipUri.sips uri = true /\ exists f', f' ∈ f :: factories /\ factory_secure f' = false /\
      fits uri server (factory_name f') (factory_matches f') /\
      exists s0 sp s1, create f' uri (address server) s0 = (Some h, sp, s1)) as IH'.
  { intros s0 sp H. destruct (IH _ _ H) as (? & f' & ? & ?). split; [done|]. exists f'. split; [by right|done]. }
  destruct (is_none_or _ _) eqn:En; cbn [negb]; [|apply IH'].
  destruct (_ || _)%bool eqn:Es; [apply IH'|].
  destruct (is_none_or (factory_matches f) _) eqn:Ep; cbn [negb]; [|apply IH'].
  destruct (create f uri (address server) s) as [[[h'|] sp] s1] eqn:Ec.
  - intros [= -> -> ->]. apply orb_false_iff in Es as [Hs ?]. apply negb_false_iff in Hs. split; [done|].
    exists f. split; [left|]. split; [done|]. split; [by apply fits_spec|]. eauto.
  - destruct (connect factories uri server s1) as [[h' sp'] s2] eqn:E2. intros [= -> _ ->]. by apply (IH' _ _ E2).
Qed.

(** C14: What [select] gives for a URI: the address is one of its servers, and the transport is of the name and the
    parameter that are asked for. It is one without connections, of the same family of addresses, which is
    secure if the URI is a SIPS URI. Or else it is a connection, and then the URI is a SIPS URI and the connection,
    which is open or is made for it, is not secure: of the connections only those are looked at that the URI must
    not use, and for a SIP URI none is. *)
Theorem select_transport unmanaged factories uri servers s h a spawned s' :
  select_loop unmanaged factories uri servers s = Ret (Some (h, a), spawned, s') ->
  exists server, server ∈ servers /\ a = address server /\
    ((h ∈ unmanaged /\ is_ipv4 (bound (transport h)) = is_ipv4 a /\
      (SipUri.sips uri = true -> secure (transport h) = true) /\
      fits uri server (name (transport h)) (matches_transport_param (transport h))) \/
     (SipUri.sips uri = true /\ secure (transport h) = false /\ direction (transport h) = DirOutgoing a /\
      fits uri server (name (transport h)) (matches_transport_param (transport h))) \/
     (SipUri.sips uri = true /\ exists f, f ∈ factories /\ factory_secure f = false /\
      fits uri server (factory_name f) (factory_matches f) /\
      exists s0 sp s1, create f uri a s0 = (Some h, sp, s1))).
Proof.
  revert s spawned. induction servers as [|server servers IH]; intros s spawned; cbn [select_loop]; [done|].
  destruct (find_matching_unmanaged_transport _ _ _) as [h0|] eqn:Eu.
  { intros [= -> <- _ _]. exists server. split; [left|]. split; [done|]. left. by apply unmanaged_fits. }
  destruct (find_matching_idling_transport _ _ _) as [[[h0|] s1]|] eqn:Ei; cbn [mbind exec_bind]; [| |done].
  { intros [= -> <- _ _]. exists server. split; [left|]. split; [done|]. right. left. by apply idling_fits in Ei. }
  destruct (connect _ _ _ _) as [[[h0|] sp] s2] eqn:Ec.
  { intros [= -> <- -> ->]. exists server. split; [left|]. split; [done|]. right. right. by apply connect_fits in Ec. }
  destruct (select_loop _ _ _ servers s2) as [[[r sp'] s3]|] eqn:El; cbn [mbind exec_bind]; [|done].
  intros [= -> _ ->]. destruct (IH _ _ El) as (server' & ? & ?). exists server'. split; [by right|done].
Qed.
End select.

(** ** Two messages to keep a connection alive *)
Section keep_alive.
Context {Ch : Oneshots nat} {CL : OneshotLaws Ch} {Mp : Mpsc} {ML : MpscLaws Mp} {HO : HashOrder} {HL : HashOrderLaws HO}.

(** A peer that sends two requests to keep its connection alive, which arrive together on a connection that
    nobody uses, can make the task of the connection panic: the first sets the connection in use and drops the
    handle again, and if [select!] takes the second before it notices, there is no handle to get. *)
Theorem two_keep_alives_panic w i t m sender item : reachable w -> tasks w !! i = Some t ->
  transports (conns w) !! ReceiveTask.tp_key t = Some m -> state m = Unused sender ->
  let x := receive_task_step (time w) (Next (Some (Ok KeepAliveRequest))) t (conns w) in
  let w' := after i t x w in
  step (Iterates i (Next (Some (Ok KeepAliveRequest)))) w w' /\ written x.1 = crlf /\
  tasks w' !! i = Some t /\ branch_ready (time w') Notified t (conns w') = true /\
  branch_ready (time w') (Next item) t (conns w') = true /\
  flow (receive_task_step (time w') (Next item) t (conns w')).1 = Panics.
Proof.
  intros Hr Hi Hm Hs. pose proof (ok_reachable _ Hr) as Hok.
  destruct (ok_task _ _ _ Hok _ _ Hi) as (m0 & Hm0 & Hl). assert (m0 = m) as -> by congruence. rewrite Hs in Hl.
  destruct (ReceiveTask.state t) as [n|timeout rx] eqn:Et; [done|]. destruct Hl as [-> Hw].
  set (k := ReceiveTask.tp_key t) in *. set (owner := fresh (dom (owners (conns w)))).
  destruct (send_law sender owner (chans (conns w)) Hw) as [Hsent Hc].
  assert (receive_task_step (time w) (Next (Some (Ok KeepAliveRequest))) t (conns w) =
    ({| flow := Goes t; received := None; written := crlf |},
     drop_owner owner (set_transports (<[k := {| managed_transport := managed_transport m; state := Used owner |}]> (transports (conns w)))
       (set_chans (oneshot_send sender owner (chans (conns w))).2 (set_owners (<[owner := 1]> (owners (conns w))) (conns w)))))) as E.
  { unfold receive_task_step, set_used. fold k. rewrite Hm. unfold try_get. rewrite Hs. unfold ref_counter. fold owner.
    cbn [chans set_owners]. destruct (oneshot_send _ _ _) as [sent c]. cbn in Hsent. by subst sent. }
  intros x w'. assert (step (Iterates i (Next (Some (Ok KeepAliveRequest)))) w w') as Hstep by by apply step_task.
  subst w' x. rewrite E in *. unfold after in *. cbn [flow received fst snd written conns tasks time] in *.
  split; [exact Hstep|]. split; [done|]. split; [apply lookup_insert_eq|]. split; [|split; [done|]].
  - cbn. rewrite Et, poll_law. cbn. by rewrite Hc, cell_at_eq.
  - unfold receive_task_step, set_used. fold k. cbn [transports drop_owner set_transports set_owners].
    rewrite lookup_insert_eq. unfold try_get. cbn [state]. unfold upgrade. rewrite decide_True; [done|].
    unfold drop_owner. rewrite strong_count_insert, decide_True by done. unfold strong_count. cbn [owners set_transports set_chans set_owners]. by rewrite lookup_insert_eq.
Qed.
End keep_alive.

(** ** Examples *)
Section examples.
#[local] Instance as_listed : HashOrder := fun V l => l.
#[local] Instance as_listed_laws : HashOrderLaws as_listed.
Proof. by split. Qed.

Definition here : SocketAddr := V4 1 5060.
Definition peer : SocketAddr := V4 2 5060.

(** A connection that has been accepted, and its task *)
Definition accepted_by : ReceiveTask.t * Transports := accept 0 tcp here peer no_transports.
Definition accepted : World :=
  {| conns := accepted_by.2; tasks := <[0 := accepted_by.1]> ∅; held := []; time := 0 |}.

Lemma accepted_reachable : reachable accepted.
Proof. apply reachable_step with (Accepts 0 tcp here peer) (initial 0); [constructor|]. by apply step_accept. Qed.

(** It gets a message just before its timeout, which is over when the task looks again. *)
Definition sample_message : DecodedMessage (Uri := SipUri.t) :=
  {| dm_line := ResponseL {| sl_code := 200%Z; sl_reason := None |}; dm_headers := Headers.new; dm_body := []; dm_buffer := [] |}.
Definition got_message : World :=
  after 0 accepted_by.1 (receive_task_step 0 (Next (Some (Ok (DecodedItem sample_message)))) accepted_by.1 (conns accepted)) accepted.
Definition late : World := {| conns := conns got_message; tasks := tasks got_message; held := held got_message; time := 32000 |}.
Definition too_late : World := after 0 accepted_by.1 (receive_task_step 32000 TimedOut accepted_by.1 (conns late)) late.

Lemma late_reachable : reachable late.
Proof.
  apply reachable_step with (Passes 32000) got_message; [|by apply step_time].
  apply reachable_step with (Iterates 0 (Next (Some (Ok (DecodedItem sample_message))))) accepted; [apply accepted_reachable|].
  by apply step_task.
Qed.

(** A connection is dropped although it has just been taken up. *)
Lemma taken_up_too_late : exists w w' k, reachable w /\ step (Iterates 0 TimedOut) w w' /\ referenced k w /\
  transports (conns w') !! k = None.
Proof.
  exists late, too_late, (ReceiveTask.tp_key accepted_by.1). split; [apply late_reachable|].
  split; [by apply step_task|]. split; [|by vm_compute].
  eexists _, 0, _. split; [by vm_compute|]. split; [done|]. split; [by left|done].
Qed.

Lemma connection_tasks_witness : exists w, reachable w /\
  flow (receive_task_step (time w) (Next None) accepted_by.1 (conns w)).1 = Returns /\
  find_matching_idling_transport (SipUri.new (HostPort.host_name [])) (server_entry peer) (conns w) <> Panic.
Proof.
  exists late. split; [apply late_reachable|]. split; [by vm_compute|]. apply (connection_tasks late late_reachable).
Defined.

Lemma connection_dropped_witness : exists timeout rx,
  ReceiveTask.state accepted_by.1 = ReceiveTask.Unused timeout rx /\ (timeout <= 32000)%Z.
Proof.
  destruct (connection_dropped (Iterates 0 TimedOut) late too_late (ReceiveTask.tp_key accepted_by.1) late_reachable)
    as (i & b & t & [= <- <-] & Ht & _ & [(? & [= ] & _)|(_ & timeout & rx & Et & Hle & _)]).
  - by apply step_task.
  - vm_compute. by eexists.
  - by vm_compute.
  - exists timeout, rx. split; [|exact Hle]. change (Some accepted_by.1 = Some t) in Ht. injection Ht as <-. exact Et.
Defined.

(** It sends a request to keep the connection alive, and closes. *)
Lemma unused_connection_closes_witness : exists w' w'' : World,
  left_alone 0 (ReceiveTask.tp_key accepted_by.1) accepted w' /\
  rtc (left_alone 0 (ReceiveTask.tp_key accepted_by.1)) w' w'' /\ tasks w'' !! 0 = None /\ (time w'' <= 32000)%Z.
Proof.
  set (w' := after 0 accepted_by.1 (receive_task_step 0 KeepAlive accepted_by.1 (conns accepted)) accepted).
  assert (left_alone 0 (ReceiveTask.tp_key accepted_by.1) accepted w') as Hs.
  { exists (Iterates 0 KeepAlive). split; [by apply step_task|]. split; [by exists accepted_by.1|].
    split; [intros (m & g & h & _ & _ & Hh & _); by apply elem_of_nil in Hh|]. by split. }
  destruct (unused_connection_closes accepted 0 accepted_by.1 w' accepted_reachable) as (_ & [(Hn & _)|(w'' & H & Hi & _ & Ht)]).
  - done.
  - intros (m & g & h & _ & _ & Hh & _). by apply elem_of_nil in Hh.
  - by apply rtc_once.
  - discriminate Hn.
  - by exists w', w''.
Defined.

Lemma two_keep_alives_panic_witness :
  flow (receive_task_step 0 (Next (Some (Ok KeepAliveRequest))) accepted_by.1
    (conns (after 0 accepted_by.1 (receive_task_step 0 (Next (Some (Ok KeepAliveRequest))) accepted_by.1 (conns accepted)) accepted))).1 = Panics.
Proof.
  by apply (two_keep_alives_panic accepted 0 accepted_by.1 {| managed_transport := streaming_write tcp here peer true; state := Unused 0 |}
    0 (Some (Ok KeepAliveRequest)) accepted_reachable).
Defined.

(** A SIPS URI is given a connection over TCP, though there is a factory for TLS. *)
Definition sips_uri : SipUri.t :=
  {| SipUri.sips := true; SipUri.user_part := EmptyUser; SipUri.host_port := {| HostPort.host := IP4 2; HostPort.port := None |};
     SipUri.uri_params := Params.new; SipUri.header_params := Params.new |}.
Definition stock_factories : list Factory :=
  [streaming_factory tls (fun _ addr => Some (here, addr)); streaming_factory tcp (fun _ addr => Some (here, addr))].

Definition selected : exec (option (TpHandle * SocketAddr) * list ReceiveTask.t * Transports) :=
  select_loop [handle_new (udp here)] stock_factories sips_uri [server_entry (V4 2 5061)] no_transports.

Lemma sips_uri_over_tcp :
  match selected with
  | Ret (Some (h, a), _, _) =>
      a = V4 2 5061 /\ name (transport h) = lit "TCP" /\ secure (transport h) = false /\
      direction (transport h) = DirOutgoing a
  | _ => False
  end.
Proof. by vm_compute. Qed.

Lemma select_transport_witness : exists h a spawned s, selected = Ret (Some (h, a), spawned, s) /\
  exists server, server ∈ [server_entry (V4 2 5061)] /\ a = address server.
Proof.
  pose proof sips_uri_over_tcp as H. destruct selected as [[[[[h a]|] spawned] s]|] eqn:E; [clear H|destruct H..].
  exists h, a, spawned, s. split; [done|].
  destruct (select_transport _ _ _ _ _ _ _ _ _ E) as (server & Hin & Ha & _). by exists server.
Defined.
End examples.
