(* ===== verification/SipStun.v ===== *)
(** * Datagrams, and the public address
    (sip-core/src/transport/udp.rs, stun_user.rs)

    What the UDP transport does with what it receives, and how the endpoint asks
    a STUN server for its address. *)
From S2P Require Import Prelude Wire Text StunHeader StunMessage StunAttr StunAuth SipNames SipHeaders SipFraming SipMessages SipTransports.
Local Open Scope Z_scope.

Section udp.
Context {Uri : Type} `{Memchr} `{WireOps} {IoError : Type}.
Context (parse_message_line : str -> option (MessageLine Uri)) (parse_line : str -> option (Name.t * str)).

(** What [handle_msg] does: it sends bytes back, or calls [receive_stun] or [receive] of the endpoint, or nothing. *)
Inductive Handled :=
| SendsTo (bytes : list byte) (target : SocketAddr)
| ReceivesStun (message : Message.t) (source : SocketAddr)
| ReceivesSip (line : MessageLine Uri) (headers : Headers.t) (body buffer : list byte) (source : SocketAddr)
| Ignores.

(** [handle_msg], with what [recv_from] gives and the buffer it has written to *)
Definition handle_msg (recv : result IoError (nat * SocketAddr)) (buffer : list byte) : exec (result IoError Handled) :=
  match recv with
  | Err e => Ret (Err e)
  | Ok (len, remote) =>
      bytes ← slice_to (Z.of_nat len) buffer;
      item ← parse_complete parse_message_line parse_line bytes;
      Ret (Ok (match item with
               | Some CKeepAliveRequest => SendsTo crlf remote
               | Some CKeepAliveResponse => Ignores
               | Some (CStun message) => ReceivesStun message remote
               | Some (CSip line headers body buffer) => ReceivesSip line headers body buffer remote
               | None => Ignores
               end))
  end.
End udp.

(** ** stun_user.rs *)
Section stun.
Context `{W : WireOps} {IoError : Type}.

(** [StunError] *)
Inductive StunError := SIo (e : IoError) | SRequestTimedOut | InvalidResponse | MalformedResponse (e : Error).

Definition discovery_request (tid : TransactionId) : exec (list byte) :=
  msg ← add_attr (StringAttr (lit "ezk") : Software) (builder_new StunHeader.Request Binding tid); finish msg.

(** The address in a response *)
Definition public_address (response : Message.t) : exec (result StunError SocketAddr) :=
  '(xor, response) ← attribute XorMappedAddress response;
  match xor with
  | Some (Ok (XorMapped addr)) => Ret (Ok addr)
  | Some (Err e) => Ret (Err (MalformedResponse e))
  | None =>
      '(mapped, _) ← attribute MappedAddress response;
      Ret (match mapped with
           | Some (Ok (Mapped addr)) => Ok addr
           | Some (Err e) => Err (MalformedResponse e)
           | None => Err InvalidResponse
           end)
  end.

(** [discover_public_address], with a random transaction id and what [send_request] of the endpoint gives *)
Definition discover_public_address (tid : TransactionId) (send_request : list byte -> result IoError (option Message.t))
    (tp : TpHandle) : exec (result StunError SocketAddr) :=
  if reliable (transport tp) then Ret (Ok (sent_by (transport tp)))
  else
    bytes ← discovery_request tid;
    match send_request bytes with
    | Err e => Ret (Err (SIo e))
    | Ok None => Ret (Err SRequestTimedOut)
    | Ok (Some response) => public_address response
    end.
End stun.
Arguments StunError : clear implicits.

(** ** What is discovered *)
Section discovered.
Context `{WL : WireLaws} {IoError : Type}.

Lemma discovery_request_built tid : discovery_request tid =
  build_message StunHeader.Request Binding tid [AnyAttr (StringAttr (lit "ezk") : Software) tt].
Proof. unfold discovery_request, build_message, add_attr. cbn [add_attrs add_any]. by destruct (add_attr_with _ _ _). Qed.

(** C19: Over a transport without connections the public address is asked for with a Binding request that the server
    reads, with the software "ezk"; when the response to it is one that carries the address a server has seen,
    XOR-ed, among whatever attributes, that address is the result. Over a connection it is the address of the
    connection, and nothing is sent. *)
Theorem public_address_discovered tid (l : list any_attr) i addr :
  length tid = 12%nat -> Forall any_valid l ->
  uint 16 (Z.of_nat (length (encode_tlvs (any_tlv (message_id tid) <$> l)))) ->
  l !! i = Some (AnyAttr (XorMapped addr) tt) -> Forall (visible_before (TYPE (A := XorMappedAddress))) (take i l) ->
  exists request received answer response,
    discovery_request tid = Ret request /\ parse request = Ok received /\
    Message.class received = StunHeader.Request /\ Message.method received = Binding /\
    Message.transaction_id received = tid /\
    attribute Software received = Ret (Some (Ok (StringAttr (lit "ezk"))), received) /\
    build_message Success Binding tid l = Ret answer /\ parse answer = Ok response /\
    Message.transaction_id response = tid /\
    forall (send_request : list byte -> result IoError (option Message.t)) tp,
      send_request request = Ok (Some response) ->
      discover_public_address tid send_request tp =
        Ret (Ok (if reliable (transport tp) then sent_by (transport tp) else addr)).
Proof.
  intros Htid Hl Hlen Hi Hvis.
  pose (software := AnyAttr (StringAttr (lit "ezk") : Software) tt).
  assert (Forall any_valid [software]) as Hs by (repeat constructor; by vm_compute).
  destruct (build_message_parsed StunHeader.Request Binding tid [software] Htid Hs) as (head & Eb & Ep & _).
  { by vm_compute. }
  destruct (build_message_parsed Success Binding tid l Htid Hl Hlen) as (head' & Eb' & Ep' & _).
  eexists _, _, _, _. rewrite discovery_request_built. split; [exact Eb|]. split; [exact Ep|].
  do 3 (split; [done|]). split.
  { apply attribute_of_parsed; [done| |]; by inversion_clear Hs. }
  split; [exact Eb'|]. split; [exact Ep'|]. split; [done|].
  intros send tp Hsend. unfold discover_public_address. destruct (reliable (transport tp)); [done|].
  rewrite discovery_request_built. fold software. rewrite Eb. cbn [mbind exec_bind]. rewrite Hsend. unfold public_address.
  assert (attribute XorMappedAddress (parsed head' Success Binding tid (any_tlv (message_id tid) <$> l)) =
    Ret (Some (Ok (XorMapped addr)), parsed head' Success Binding tid (any_tlv (message_id tid) <$> l))) as ->; [|done].
  apply attribute_of_parsed; [done| |].
  - by apply (Forall_lookup_1 _ _ _ _ Hl) in Hi.
  - by eapply find_tlv_any.
Qed.
End discovered.

Lemma public_address_discovered_witness : exists request response,
  discovery_request (W := big_endian) sample_tid = Ret request /\
  discover_public_address (W := big_endian) (IoError := unit) sample_tid (fun _ => Ok (Some response))
    (handle_new (udp (V4 1 5060))) = Ret (Ok (V4 0xC0A80001 5060)).
Proof.
  destruct (public_address_discovered (W := big_endian) (IoError := unit) sample_tid sample_attributes 1 (V4 0xC0A80001 5060))
    as (request & received & answer & response & H1 & _ & _ & _ & _ & _ & _ & _ & _ & H).
  - reflexivity.
  - repeat constructor; by vm_compute.
  - by vm_compute.
  - reflexivity.
  - repeat constructor; by vm_compute.
  - exists request, response. split; [exact H1|]. by apply (H (fun _ => Ok (Some response))).
Defined.
