(* ===== verification/SipInvite.v ===== *)
(** * INVITE sessions
    (sip-ua/src/invite/mod.rs, acceptor.rs, initiator.rs, session.rs, prack.rs)

    The shared state of a session, the layer that handles CANCEL, the usage of
    a dialog, the acceptor and the initiator of an INVITE, and the established
    session. Mutexes protect the state, so an operation here is one step; a
    message that another task sends to a channel is an argument of the
    operation that waits for it. *)
From stdpp Require Import gmap.
From S2P Require Import Prelude Text StunAttr IceStun SipNames SipHeaders SipFraming SipMessages SipTyped SipKeys SipTransactions.
From S2P Require Import SipTimers SipDialog.

(** ** The state of a session: invite/mod.rs *)

(** [AwaitedAck], [AwaitedPrack]; a sender is the number of its channel. *)
Record AwaitedAck := { aa_cseq : Z; ack_sender : nat }.
Record AwaitedPrack := { prack_sender : nat; ap_cseq : Z; ap_rack : Z }.

(** [InviteSessionState], for types of dialogs and requests *)
Module InviteState.
Inductive t (Dialog Request : Type) :=
| UasProvisional (dialog : Dialog) (tsx : TsxRegistration) (invite : Request) (cancelled_notify : nat)
| Cancelled
| Established (evt_sink : nat)
| Terminated.
#[global] Arguments UasProvisional {Dialog Request} dialog tsx invite cancelled_notify.
#[global] Arguments Cancelled {Dialog Request}.
#[global] Arguments Established {Dialog Request} evt_sink.
#[global] Arguments Terminated {Dialog Request}.
End InviteState.

(** [UsageEvent] *)
Inductive UsageEvent (Request : Type) := ReInviteEvent (invite : Request) | ByeReceived (bye : Request).
Arguments ReInviteEvent {Request} invite.
Arguments ByeReceived {Request} bye.

(** [Inner] *)
Record Inner {Dialog Request : Type} := {
  inner_state : InviteState.t Dialog Request;
  peer_supports_timer : bool;
  peer_supports_100rel : bool;
  awaited_ack : option AwaitedAck;
  awaited_prack : option AwaitedPrack }.
Arguments Inner : clear implicits.

(** What a oneshot channel holds *)
Inductive Oneshot (Request : Type) := Pending | SentOne (request : Request) | SenderDropped.
Arguments Pending {Request}.
Arguments SentOne {Request} request.
Arguments SenderDropped {Request}.

(** The channels of the sessions: oneshot channels and event queues whose
    receivers are alive, and the notifications that were given. *)
Record Channels {Request : Type} := {
  oneshots : gmap nat (Oneshot Request);
  events : gmap nat (list (UsageEvent Request));
  notified : gset nat }.
Arguments Channels : clear implicits.

(** [CancellableKey] *)
Module CancellableKey.
Record t := { cseq : Z; branch : str }.
#[global] Instance t_eq_dec : EqDecision t.
Proof. solve_decision. Defined.
#[global] Instance t_countable : Countable t.
Proof.
  apply (inj_countable' (fun k => (cseq k, branch k)) (fun x : Z * str => {| cseq := x.1; branch := x.2 |})).
  by intros [].
Defined.
End CancellableKey.

Section state.
Context {Dialog Request : Type}.
#[local] Abbreviation State := (InviteState.t Dialog Request).
#[local] Abbreviation Channels := (Channels Request).

Definition notify_one (n : nat) (ch : Channels) : Channels :=
  {| oneshots := oneshots ch; events := events ch; notified := {[n]} ∪ notified ch |}.

(** [InviteSessionState::set_cancelled], [set_established], [set_terminated] *)
Definition set_cancelled (s : State) (ch : Channels) : option (Dialog * TsxRegistration * Request) * State * Channels :=
  match s with
  | InviteState.UasProvisional dialog tsx invite cancelled_notify =>
      (Some (dialog, tsx, invite), InviteState.Cancelled, notify_one cancelled_notify ch)
  | _ => (None, s, ch)
  end.
Definition set_established (evt_sink : nat) (s : State) : option (Dialog * TsxRegistration * Request) * State :=
  match s with
  | InviteState.UasProvisional dialog tsx invite _ =>
      (Some (dialog, tsx, invite), InviteState.Established evt_sink)
  | _ => (None, s)
  end.
Definition set_terminated (s : State) : State * State := (s, InviteState.Terminated).

Definition set_state (s : State) (i : Inner Dialog Request) : Inner Dialog Request :=
  {| inner_state := s; peer_supports_timer := peer_supports_timer i; peer_supports_100rel := peer_supports_100rel i;
     awaited_ack := awaited_ack i; awaited_prack := awaited_prack i |}.
Definition set_awaited_ack (a : option AwaitedAck) (i : Inner Dialog Request) : Inner Dialog Request :=
  {| inner_state := inner_state i; peer_supports_timer := peer_supports_timer i; peer_supports_100rel := peer_supports_100rel i;
     awaited_ack := a; awaited_prack := awaited_prack i |}.
Definition set_awaited_prack (a : option AwaitedPrack) (i : Inner Dialog Request) : Inner Dialog Request :=
  {| inner_state := inner_state i; peer_supports_timer := peer_supports_timer i; peer_supports_100rel := peer_supports_100rel i;
     awaited_ack := awaited_ack i; awaited_prack := a |}.

(** [oneshot::Sender::send], which returns the request when the receiver is gone,
    and the drop of a sender that has not sent *)
Definition oneshot_send (c : nat) (request : Request) (ch : Channels) : option Request * Channels :=
  match oneshots ch !! c with
  | Some _ => (None, {| oneshots := <[c := SentOne request]> (oneshots ch); events := events ch; notified := notified ch |})
  | None => (Some request, ch)
  end.
Definition oneshot_drop (c : nat) (ch : Channels) : Channels :=
  match oneshots ch !! c with
  | Some _ => {| oneshots := <[c := SenderDropped]> (oneshots ch); events := events ch; notified := notified ch |}
  | None => ch
  end.

(** [mpsc::Sender::send] of an event, at the time there is room for it *)
Definition event_send (c : nat) (event : UsageEvent Request) (ch : Channels) : option (UsageEvent Request) * Channels :=
  match events ch !! c with
  | Some queue => (None, {| oneshots := oneshots ch; events := <[c := queue ++ [event]]> (events ch); notified := notified ch |})
  | None => (Some event, ch)
  end.
End state.

(** ** The layer and the usage *)
Section invite.
Context {Uri NameAddr Tp Contact Routing K M IoError : Type}.
#[local] Abbreviation IncomingRequest := (IncomingRequest Uri NameAddr Tp).
#[local] Abbreviation Usage := (IncomingRequest -> option IncomingRequest).
Context `{UM : UsageMap Usage K M}.
#[local] Abbreviation dialogs_map := (gmap DialogKey.t (DialogEntry (Uri := Uri) (NameAddr := NameAddr) (Tp := Tp) (M := M))).
#[local] Abbreviation Dialog := (Dialog NameAddr Tp Contact Routing).
#[local] Abbreviation ClientDialogBuilder := (ClientDialogBuilder Uri NameAddr Tp Contact).
#[local] Abbreviation Inner := (Inner Dialog IncomingRequest).
#[local] Abbreviation Channels := (Channels IncomingRequest).
#[local] Abbreviation OutgoingRequest := (OutgoingRequest Uri Tp).
#[local] Abbreviation OutgoingResponse := (OutgoingResponse Tp).
#[local] Abbreviation TsxMessage := (TsxMessage Uri NameAddr Tp).
#[local] Abbreviation Transactions := (Transactions Uri NameAddr Tp).
#[local] Abbreviation Env := (Env (Uri := Uri) (NameAddr := NameAddr) (Tp := Tp)).
#[local] Abbreviation Error := (SipTimers.Error (IoError := IoError)).

Context (contact_uri : Contact -> Uri) (sips : Uri -> bool) (address_of : Uri -> NameAddr).
Context `{DF : DecodeValues (FromTo.t NameAddr), EF : ExtendValues (FromTo.t NameAddr)}.
Context `{EV : ExtendValues Via.t, DecodeValues CSeq.t, DecodeValues RAck.t, DecodeValues SessionExpires.t}.
Context `{DC : DecodeValues Contact, EC : ExtendValues Contact, NC : ConstNamed Contact}.
Context `{DR : DecodeValues (list Routing), ER : ExtendValues Routing}.
Context (ip_from_str : str -> option IpAddr) (direction : Tp -> Direction).
Context (allowed supported : list CsvHeader.t).
#[local] Abbreviation create_request := (create_request contact_uri).
#[local] Abbreviation create_dialog_response := (create_dialog_response ip_from_str direction allowed supported).

(** What the tasks of an endpoint share: the cancellable sessions, the sessions
    (by the number of their shared state), the channels, the dialogs, and the
    registry of transactions *)
Record World := {
  cancellables : gmap CancellableKey.t nat;
  inners : gmap nat Inner;
  channels_ : Channels;
  dialogs : dialogs_map;
  tsxs : Transactions }.

Definition with_cancellables (c : gmap CancellableKey.t nat) (w : World) : World :=
  {| cancellables := c; inners := inners w; channels_ := channels_ w; dialogs := dialogs w; tsxs := tsxs w |}.
Definition with_inner (n : nat) (inner : Inner) (w : World) : World :=
  {| cancellables := cancellables w; inners := <[n := inner]> (inners w); channels_ := channels_ w;
     dialogs := dialogs w; tsxs := tsxs w |}.
Definition with_channels (ch : Channels) (w : World) : World :=
  {| cancellables := cancellables w; inners := inners w; channels_ := ch; dialogs := dialogs w; tsxs := tsxs w |}.
Definition with_dialogs (d : dialogs_map) (w : World) : World :=
  {| cancellables := cancellables w; inners := inners w; channels_ := channels_ w; dialogs := d; tsxs := tsxs w |}.
Definition with_tsxs (t : Transactions) (w : World) : World :=
  {| cancellables := cancellables w; inners := inners w; channels_ := channels_ w; dialogs := dialogs w; tsxs := t |}.

(** A dialog that goes out of scope *)
Definition world_drop_dialog (d : Dialog) (w : World) : exec World :=
  ds ← drop_dialog d (dialogs w); Ret (with_dialogs ds w).

(** A response that a server transaction sends: [respond] or [respond_failure] *)
Definition Responding : Type := TsxRegistration * OutgoingResponse.
Definition Responses : Type := result HeaderError.t (list Responding).

(** [Endpoint::create_response] for a request *)
Definition endpoint_response (r : IncomingRequest) (code : StatusCode.t) : exec OutgoingResponse :=
  create_response ip_from_str direction (ir_line r) (ir_base_headers r) (ir_headers r) (ir_tp_info r) code None.

Definition request_cseq_num (r : IncomingRequest) : Z := CSeq.cseq (cseq_ (ir_base_headers r)).
Definition cancellable_key_of (r : IncomingRequest) : CancellableKey.t :=
  {| CancellableKey.cseq := request_cseq_num r; CancellableKey.branch := TsxKey.branch (ir_tsx_key r) |}.

(** Two responses of a dialog that are sent together: nothing is sent when the
    first or the second cannot be made. *)
Definition both_responses (first : exec (result HeaderError.t Responding)) (second : exec (result HeaderError.t Responding))
    : exec Responses :=
  r1 ← first;
  match r1 with
  | Err e => Ret (Err e)
  | Ok r1 =>
      r2 ← second;
      match r2 with Err e => Ret (Err e) | Ok r2 => Ret (Ok [r1; r2]) end
  end.
Definition dialog_responding (tsx : TsxRegistration) (r : IncomingRequest) (code : StatusCode.t) (d : Dialog)
    : exec (result HeaderError.t Responding) :=
  response ← create_dialog_response r code None d;
  Ret (response ← response; Ok (tsx, response)).

(** [InviteLayer::handle_cancel]: whether the request is taken, and the responses
    that are sent *)
Definition handle_cancel (cancel : IncomingRequest) (w : World) : exec (bool * Responses * World) :=
  let k := cancellable_key_of cancel in
  let found := cancellables w !! k in
  let w := with_cancellables (delete k (cancellables w)) w in
  match n ← found; inner ← inners w !! n; Some (n, inner) with
  | None => Ret (false, Ok [], w)
  | Some (n, inner) =>
      cancel_tsx ← create_server_tsx cancel;
      let '(pending, s, ch) := set_cancelled (inner_state inner) (channels_ w) in
      let w := with_channels ch (with_inner n (set_state s inner) w) in
      match pending with
      | Some (dialog, invite_tsx, invite) =>
          responses ← both_responses (dialog_responding invite_tsx invite StatusCode.REQUEST_TERMINATED dialog)
                        (dialog_responding cancel_tsx cancel StatusCode.OK dialog);
          w ← world_drop_dialog dialog w;
          Ret (true, responses, w)
      | None =>
          response ← endpoint_response cancel StatusCode.OK;
          Ret (true, Ok [(cancel_tsx, response)], w)
      end
  end.

(** [InviteLayer::receive] *)
Definition invite_layer_receive (request : IncomingRequest) (w : World) : exec (bool * Responses * World) :=
  match rl_method (ir_line request) with
  | Method.CANCEL => handle_cancel request w
  | _ => Ret (false, Ok [], w)
  end.

(** [InviteUsage::handle_bye_in_provisional_state]; the 200 is made for the INVITE. *)
Definition handle_bye_in_provisional_state (dialog : Dialog) (invite_tsx : TsxRegistration)
    (invite bye : IncomingRequest) : exec Responses :=
  bye_response ← create_dialog_response invite StatusCode.OK None dialog;
  match bye_response with
  | Err e => Ret (Err e)
  | Ok bye_response =>
      bye_tsx ← create_server_tsx bye;
      both_responses (dialog_responding invite_tsx invite StatusCode.REQUEST_TERMINATED dialog)
        (Ret (Ok (bye_tsx, bye_response)))
  end.

(** Whether a request that was sent to a channel is taken *)
Definition taken {A} (back : option A) : bool := match back with Some _ => false | None => true end.

(** [InviteUsage::handle_prack] in prack.rs, of the session [n] *)
Definition handle_prack (request : IncomingRequest) (n : nat) (inner : Inner) (w : World)
    : exec (bool * Responses * World) :=
  match awaited_prack inner with
  | None => Ret (false, Ok [], w)
  | Some awaited =>
      match Headers.get_named RAck.t (ir_headers request) with
      | Err e =>
          Ret (false, Err e, with_channels (oneshot_drop (prack_sender awaited) (channels_ w))
                               (with_inner n (set_awaited_prack None inner) w))
      | Ok rack =>
          if bool_decide (ap_rack awaited = RAck.rack rack) && bool_decide (ap_cseq awaited = RAck.cseq rack) then
            let w := with_inner n (set_awaited_prack None inner) w in
            prack_tsx ← create_server_tsx request;
            response ← endpoint_response request StatusCode.OK;
            let '(_, ch) := oneshot_send (prack_sender awaited) request (channels_ w) in
            Ret (true, Ok [(prack_tsx, response)], with_channels ch w)
          else Ret (false, Ok [], w)
      end
  end.

(** [Usage::receive for InviteUsage], of the session [n] *)
Definition usage_receive (request : IncomingRequest) (n : nat) (inner : Inner) (w : World)
    : exec (bool * Responses * World) :=
  match rl_method (ir_line request) with
  | Method.INVITE =>
      match inner_state inner with
      | InviteState.Established evt_sink =>
          let '(back, ch) := event_send evt_sink (ReInviteEvent request) (channels_ w) in
          Ret (taken back, Ok [], with_channels ch w)
      | _ => Ret (false, Ok [], w)
      end
  | Method.ACK =>
      match awaited_ack inner with
      | Some awaited =>
          if decide (aa_cseq awaited = request_cseq_num request) then
            let '(back, ch) := oneshot_send (ack_sender awaited) request (channels_ w) in
            Ret (taken back, Ok [], with_channels ch (with_inner n (set_awaited_ack None inner) w))
          else Ret (false, Ok [], w)
      | None => Ret (false, Ok [], w)
      end
  | Method.BYE =>
      let '(old, s) := set_terminated (inner_state inner) in
      let w := with_inner n (set_state s inner) w in
      match old with
      | InviteState.UasProvisional dialog tsx invite cancelled_notify =>
          let w := with_channels (notify_one cancelled_notify (channels_ w)) w in
          responses ← handle_bye_in_provisional_state dialog tsx invite request;
          w ← world_drop_dialog dialog w;
          Ret (true, responses, w)
      | InviteState.Established evt_sink =>
          let '(back, ch) := event_send evt_sink (ByeReceived request) (channels_ w) in
          Ret (taken back, Ok [], with_channels ch w)
      | InviteState.Cancelled | InviteState.Terminated => Ret (false, Ok [], w)
      end
  | Method.PRACK => if peer_supports_100rel inner then handle_prack request n inner w else Ret (false, Ok [], w)
  | _ => Ret (false, Ok [], w)
  end.

(** ** Acknowledging a success *)
Context (select_transport : Uri -> result Error (Tp * SocketAddr)).
Context (tp_name : Tp -> str) (sent_by : Tp -> SocketAddr).
Context (send : Z -> list byte -> SocketAddr -> result IoError Z).

(** [Endpoint::create_outgoing] with the target it remembers *)
Definition create_outgoing_to (request : Request Uri) (target : TargetTransportInfo Tp)
    : result Error (OutgoingRequest * TargetTransportInfo Tp) :=
  match tti_transport target with
  | Some (transport, destination) => Ok (create_outgoing request transport destination, target)
  | None =>
      match select_transport (rl_uri (rq_line request)) with
      | Err e => Err e
      | Ok (transport, destination) =>
          Ok (create_outgoing request transport destination,
              {| via_host_port := via_host_port target; tti_transport := Some (transport, destination) |})
      end
  end.

Definition set_target (t : TargetTransportInfo Tp) (d : Dialog) : Dialog :=
  {| local_cseq := local_cseq d; local_fromto := local_fromto d; peer_fromto := peer_fromto d;
     local_contact := local_contact d; peer_contact := peer_contact d; dialog_call_id := dialog_call_id d;
     route_set := route_set d; secure := secure d; target_tp_info := t |}.

(** [create_ack] of invite/mod.rs, with the random part of its branch *)
Definition create_session_ack (random : str) (cseq_num : Z) (d : Dialog) : exec (result Error OutgoingRequest * Dialog) :=
  '(ack, d) ← create_request Method.ACK d;
  match Headers.edit_named (fun c => {| CSeq.cseq := cseq_num; CSeq.method := CSeq.method c |}) (rq_headers ack) with
  | Err e => Ret (Err (HeaderE e), d)
  | Ok headers =>
      let ack := {| rq_line := rq_line ack; rq_headers := headers; rq_body := rq_body ack |} in
      match create_outgoing_to ack (target_tp_info d) with
      | Err e => Ret (Err e, d)
      | Ok (out, target) =>
          let v := create_via tp_name sent_by (op_transport (oq_parts out)) (TsxKey.client random Method.ACK)
                     (via_host_port target) in
          Ret (Ok {| oq_msg := {| rq_line := rq_line (oq_msg out);
                                  rq_headers := Headers.insert_named_front v (rq_headers (oq_msg out));
                                  rq_body := rq_body (oq_msg out) |};
                     oq_parts := oq_parts out |}, set_target target d)
      end
  end.

(** What becomes of a oneshot channel: the time its sender sends or is dropped *)
Definition Receiver : Type := option (Z * option IncomingRequest).

(** [timeout(delta, &mut receiver)] *)
Definition oneshot_wait (delta : Z) (rx : Receiver) (env : Env) : option (option IncomingRequest) * Env :=
  let at_time t := {| now := t; inbox := inbox env; sent := sent env |} in
  match rx with
  | Some (t, res) =>
      if decide (t <= now env + delta)%Z then (Some res, at_time (Z.max (now env) t))
      else (None, at_time (now env + delta)%Z)
  | None => (None, at_time (now env + delta)%Z)
  end.

(** The loop of [receive_ack], [n] more rounds *)
Fixpoint receive_ack_loop (n : nat) (delta : Z) (accepted : OutgoingResponse) (ack_recv : Receiver) (env : Env)
    : exec (result Error IncomingRequest * Env) :=
  match n with
  | O => Ret (Err RequestTimedOut, env)
  | S n =>
      let '(res, env) := oneshot_wait delta ack_recv env in
      match res with
      | Some res => ack ← unwrap res; Ret (Ok ack, env)
      | None =>
          '(r, accepted, env) ← accepted_retransmit send accepted env;
          match r with
          | Err e => Ret (Err e, env)
          | Ok _ => receive_ack_loop n (Z.min (T1 * 2) T2) accepted ack_recv env
          end
      end
  end.

(** [receive_ack] *)
Definition receive_ack (accepted : OutgoingResponse) (ack_recv : Receiver) (env : Env)
    : exec (result Error IncomingRequest * Env) := receive_ack_loop 9 T1 accepted ack_recv env.

(** ** The acceptor: acceptor.rs *)

(** [acceptor::Error] *)
Inductive AcceptorError := Core (e : Error) | RequestTerminated.

(** [InviteAcceptor]; [inner_id] is the session it refers to. *)
Record InviteAcceptor := {
  inner_id : nat;
  cancellable_key : CancellableKey.t;
  acc_cancelled_notify : nat;
  acc_cancelled : bool;
  usage_guard : option (DialogKey.t * K);
  acc_timer_config : AcceptorTimerConfig }.

Definition has_option (name : str) (h : Headers.t) : bool :=
  match Headers.get (H := list CsvHeader.t) Name.Supported h with
  | Ok supported => existsb (fun ext => bool_decide (CsvHeader.item ext = name)) supported
  | Err _ => false
  end.

(** [InviteAcceptor::new], with the numbers of the new session and notification
    and the usage the dialog gets *)
Definition acceptor_new (n notify : nat) (usage : Usage) (dialog : Dialog) (invite : IncomingRequest) (w : World)
    : exec (InviteAcceptor * World) :=
  if decide (rl_method (ir_line invite) = Method.INVITE) then
    dialog_key ← key dialog;
    let k := cancellable_key_of invite in
    tsx ← create_server_inv_tsx invite;
    let inner := {| inner_state := InviteState.UasProvisional dialog tsx invite notify;
                    peer_supports_timer := has_option (lit "timer") (ir_headers invite);
                    peer_supports_100rel := has_option (lit "100rel") (ir_headers invite);
                    awaited_ack := None; awaited_prack := None |} in
    let '(guard, ds) := register_usage dialog_key usage (dialogs w) in
    guard ← unwrap guard;
    Ret ({| inner_id := n; cancellable_key := k; acc_cancelled_notify := notify; acc_cancelled := false;
            usage_guard := Some (dialog_key, guard); acc_timer_config := default_acceptor_config |},
         with_cancellables (<[k := n]> (cancellables w)) (with_inner n inner (with_dialogs ds w)))
  else Panic.

(** The drop of an acceptor, with the usage guard it still has *)
Definition drop_acceptor (a : InviteAcceptor) (w : World) : World :=
  let w := with_cancellables (delete (cancellable_key a) (cancellables w)) w in
  match usage_guard a with
  | Some (k, u) => with_dialogs (drop_usage_guard k u (dialogs w)) w
  | None => w
  end.

(** [InviteAcceptor::cancelled] at the moment it is polled: whether it is ready *)
Definition poll_cancelled (a : InviteAcceptor) (ch : Channels) : bool * InviteAcceptor * Channels :=
  if acc_cancelled a then (true, a, ch)
  else if decide (acc_cancelled_notify a ∈ notified ch) then
    (true, {| inner_id := inner_id a; cancellable_key := cancellable_key a;
              acc_cancelled_notify := acc_cancelled_notify a; acc_cancelled := true;
              usage_guard := usage_guard a; acc_timer_config := acc_timer_config a |},
     {| oneshots := oneshots ch; events := events ch; notified := notified ch ∖ {[acc_cancelled_notify a]} |})
  else (false, a, ch).

(** [InviteAcceptor::create_response] *)
Definition acceptor_create_response (code : StatusCode.t) (reason : option str) (inner : Inner)
    : exec (result AcceptorError OutgoingResponse) :=
  match inner_state inner with
  | InviteState.UasProvisional dialog _ invite _ =>
      r ← create_dialog_response invite code reason dialog;
      Ret (match r with Ok response => Ok response | Err e => Err (Core (HeaderE e)) end)
  | _ => Ret (Err RequestTerminated)
  end.

Definition map_core {A} (r : result Error A) : result AcceptorError A :=
  match r with Ok a => Ok a | Err e => Err (Core e) end.

(** [InviteAcceptor::respond_provisional] *)
Definition acceptor_respond_provisional (response : OutgoingResponse) (inner : Inner) (env : Env)
    : exec (result AcceptorError unit * Env) :=
  match inner_state inner with
  | InviteState.UasProvisional _ _ _ _ =>
      '(r, _, env) ← respond_provisional send response env;
      Ret (map_core r, env)
  | _ => Ret (Err RequestTerminated, env)
  end.

(** The loop of [respond_provisional_reliable], [n] more rounds *)
Fixpoint prack_loop (n : nat) (delta : Z) (response : OutgoingResponse) (prack_recv : Receiver) (env : Env)
    : exec (result AcceptorError IncomingRequest * Env) :=
  match n with
  | O => Ret (Err RequestTerminated, env)
  | S n =>
      let '(res, env) := oneshot_wait delta prack_recv env in
      match res with
      | Some res => prack ← unwrap res; Ret (Ok prack, env)
      | None =>
          '(r, response, env) ← respond_provisional send response env;
          match r with
          | Err e => Ret (Err (Core e), env)
          | Ok _ => prack_loop n (T1 * 2)%Z response prack_recv env
          end
      end
  end.

(** [InviteAcceptor::respond_provisional_reliable], with its random number and
    channel, up to the loop: the response that is sent again *)
Definition reliable_begin (rack : Z) (prack_sender : nat) (response : OutgoingResponse) (n : nat) (inner : Inner)
    (w : World) (env : Env) : exec (result AcceptorError OutgoingResponse * World * Env) :=
  let code := sl_code (rs_line (os_msg response)) in
  if peer_supports_100rel inner && between 101 199 code then
    match inner_state inner with
    | InviteState.UasProvisional _ _ invite _ =>
        let h := Headers.insert_type Name.Require {| CsvHeader.item := lit "100rel" |} (rs_headers (os_msg response)) in
        let h := Headers.insert_named {| RSeq.rseq := rack |} h in
        let response := {| os_msg := {| rs_line := rs_line (os_msg response); rs_headers := h;
                                        rs_body := rs_body (os_msg response) |};
                           os_parts := os_parts response |} in
        let awaited := {| prack_sender := prack_sender; ap_cseq := request_cseq_num invite; ap_rack := rack |} in
        let w := with_inner n (set_awaited_prack (Some awaited) inner) w in
        '(r, response, env) ← respond_provisional send response env;
        Ret (match r with Ok _ => Ok response | Err e => Err (Core e) end, w, env)
    | _ => Ret (Err RequestTerminated, w, env)
    end
  else Panic.

(** and the rest, which waits for the PRACK *)
Definition reliable_wait (response : OutgoingResponse) (prack_recv : Receiver) (env : Env)
    : exec (result AcceptorError IncomingRequest * Env) := prack_loop 5 T1 response prack_recv env.

(** ** Sessions: session.rs *)
Inductive Role := Uac | Uas.

(** [InviteSession]; [usage_events] is the channel of its events. *)
Record InviteSession := {
  session_inner : nat;
  role : Role;
  usage_events : nat;
  session_timer : SessionTimer;
  session_guard : DialogKey.t * K;
  session_dialog : Dialog }.

Definition set_timer (t : SessionTimer) (s : InviteSession) : InviteSession :=
  {| session_inner := session_inner s; role := role s; usage_events := usage_events s; session_timer := t;
     session_guard := session_guard s; session_dialog := session_dialog s |}.
Definition set_dialog (d : Dialog) (s : InviteSession) : InviteSession :=
  {| session_inner := session_inner s; role := role s; usage_events := usage_events s;
     session_timer := session_timer s; session_guard := session_guard s; session_dialog := d |}.

(** [InviteAcceptor::respond_success] up to the wait for the ACK, with the numbers
    of the event channel and of the oneshot channel of the ACK; what it goes
    on with, and the end of the acceptor when it does not *)
Definition success_begin (evt_sink ack_sink : nat) (response : OutgoingResponse) (a : InviteAcceptor) (inner : Inner)
    (w : World) (env : Env)
    : exec (result AcceptorError (OutgoingResponse * TsxRegistration * SessionTimer * Dialog) * World * Env) :=
  let '(pending, s) := set_established evt_sink (inner_state inner) in
  let inner := set_state s inner in
  match pending with
  | None => Ret (Err RequestTerminated, drop_acceptor a (with_inner (inner_id a) inner w), env)
  | Some (dialog, transaction, invite) =>
      let inner := set_awaited_ack (Some {| aa_cseq := request_cseq_num invite; ack_sender := ack_sink |}) inner in
      let w := with_inner (inner_id a) inner w in
      let '(timer, h) :=
        if peer_supports_timer inner then
          let '(timer, _, h) := on_responding_success (acc_timer_config a) (rs_headers (os_msg response))
                                  (ir_headers invite) (now env) in (timer, h)
        else (new_unsupported, rs_headers (os_msg response)) in
      let response := {| os_msg := {| rs_line := rs_line (os_msg response); rs_headers := h;
                                      rs_body := rs_body (os_msg response) |};
                         os_parts := os_parts response |} in
      '(accepted, t, env) ← respond_success send transaction response (tsxs w) env;
      let w := with_tsxs t w in
      match accepted with
      | Err e => w ← world_drop_dialog dialog w; Ret (Err (Core e), drop_acceptor a w, env)
      | Ok accepted => Ret (Ok (accepted, transaction, timer, dialog), w, env)
      end
  end.

(** and the rest, with what [receive_ack] has returned *)
Definition success_finish (ack : result Error IncomingRequest) (evt_sink : nat) (transaction : TsxRegistration)
    (timer : SessionTimer) (dialog : Dialog) (a : InviteAcceptor) (w : World)
    : exec (result AcceptorError (InviteSession * IncomingRequest) * World) :=
  let w := with_tsxs (drop_registration transaction (tsxs w)) w in
  match ack with
  | Err e => w ← world_drop_dialog dialog w; Ret (Err (Core e), drop_acceptor a w)
  | Ok ack =>
      let target := {| via_host_port := via_host_port (target_tp_info dialog);
                       tti_transport := Some (tp (ir_tp_info ack), source (ir_tp_info ack)) |} in
      guard ← unwrap (usage_guard a);
      let a := {| inner_id := inner_id a; cancellable_key := cancellable_key a;
                  acc_cancelled_notify := acc_cancelled_notify a; acc_cancelled := acc_cancelled a;
                  usage_guard := None; acc_timer_config := acc_timer_config a |} in
      Ret (Ok ({| session_inner := inner_id a; role := Uas; usage_events := evt_sink; session_timer := timer;
                  session_guard := guard; session_dialog := set_target target dialog |}, ack), drop_acceptor a w)
  end.

(** [InviteAcceptor::respond_failure] *)
Definition acceptor_respond_failure (response : OutgoingResponse) (a : InviteAcceptor) (inner : Inner) (w : World)
    (env : Env) : exec (result AcceptorError unit * World * Env) :=
  let '(pending, s, ch) := set_cancelled (inner_state inner) (channels_ w) in
  let w := with_channels ch (with_inner (inner_id a) (set_state s inner) w) in
  match pending with
  | Some (dialog, transaction, _) =>
      '(r, env) ← respond_failure send response env;
      w ← world_drop_dialog dialog (with_tsxs (drop_registration transaction (tsxs w)) w);
      Ret (map_core r, drop_acceptor a w, env)
  | None => Ret (Err RequestTerminated, drop_acceptor a w, env)
  end.

(** [InviteSessionEvent]; [EvTerminate] is the end of a session whose peer did not
    refresh it: the BYE is still to be sent. *)
Inductive InviteSessionEvent :=
| RefreshNeeded
| ReInviteReceived (invite : IncomingRequest) (transaction : TsxRegistration)
| ByeEvent (bye : IncomingRequest) (transaction : TsxRegistration)
| EvTerminate
| EvTerminated.

(** [InviteSession::handle_session_timer] *)
Definition handle_session_timer (now : Z) (s : InviteSession) : exec (InviteSessionEvent * InviteSession) :=
  match role s, st_refresher (session_timer s) with
  | _, Refresher.Unspecified => Panic
  | Uac, Refresher.Uac | Uas, Refresher.Uas => Ret (RefreshNeeded, set_timer (reset now (session_timer s)) s)
  | Uac, Refresher.Uas | Uas, Refresher.Uac => Ret (EvTerminate, s)
  end.

(** [InviteSession::handle_usage_event]; [None] when the channel is closed *)
Definition handle_usage_event (evt : option (UsageEvent IncomingRequest)) (now : Z) (s : InviteSession)
    : exec (InviteSessionEvent * InviteSession) :=
  match evt with
  | None => Ret (EvTerminated, s)
  | Some (ByeReceived request) => transaction ← create_server_tsx request; Ret (ByeEvent request transaction, s)
  | Some (ReInviteEvent invite) =>
      let s := set_timer (reset now (session_timer s)) s in
      transaction ← create_server_inv_tsx invite;
      Ret (ReInviteReceived invite transaction, s)
  end.

(** [InviteSession::terminate] up to the transaction: the BYE *)
Definition terminate (s : InviteSession) (inner : Inner) : exec (Request Uri * InviteSession * Inner) :=
  let '(_, st) := set_terminated (inner_state inner) in
  '(request, d) ← create_request Method.BYE (session_dialog s);
  Ret (request, set_dialog d s, set_state st inner).

(** [RefreshNeeded::process_default] up to the transaction: the INVITE *)
Definition refresh_request (now : Z) (s : InviteSession) : exec (Request Uri * InviteSession) :=
  let s := set_timer (reset now (session_timer s)) s in
  '(invite, d) ← create_request Method.INVITE (session_dialog s);
  Ret ({| rq_line := rq_line invite; rq_headers := populate_refresh (session_timer s) (rq_headers invite);
          rq_body := rq_body invite |}, set_dialog d s).

(** [SessionRefreshError] *)
Inductive SessionRefreshError := RefreshCore (e : Error) | UnexpectedStatus (code : StatusCode.t).

(** The rest of [process_default], on the responses the transaction gives before
    its end: the ACKs that are sent *)
Fixpoint refresh_loop (random : str) (responses : list TsxMessage) (ack : option OutgoingRequest) (d : Dialog)
    : exec (result SessionRefreshError unit * list OutgoingRequest * Dialog) :=
  match responses with
  | [] => Ret (Ok tt, [], d)
  | response :: responses =>
      match StatusCode.kind (response_code response) with
      | StatusCode.Provisional => refresh_loop random responses ack d
      | StatusCode.Success =>
          '(ack, d) ← match ack with
                      | Some ack => Ret (Ok ack, d)
                      | None => create_session_ack random (CSeq.cseq (cseq_ (tm_base_headers response))) d
                      end;
          match ack with
          | Err e => Ret (Err (RefreshCore e), [], d)
          | Ok ack =>
              '(r, acks, d) ← refresh_loop random responses (Some ack) d;
              Ret (r, ack :: acks, d)
          end
      | _ => Ret (Err (UnexpectedStatus (response_code response)), [], d)
      end
  end.

(** [ReInviteReceived::respond_success] up to the wait for the ACK *)
Definition reinvite_begin (ack_sink : nat) (invite : IncomingRequest) (transaction : TsxRegistration)
    (response : OutgoingResponse) (s : InviteSession) (inner : Inner) (w : World) (env : Env)
    : exec (result Error OutgoingResponse * World * Env) :=
  let awaited := {| aa_cseq := request_cseq_num invite; ack_sender := ack_sink |} in
  let w := with_inner (session_inner s) (set_awaited_ack (Some awaited) inner) w in
  '(accepted, t, env) ← respond_success send transaction response (tsxs w) env;
  Ret (accepted, with_tsxs t w, env).

(** [ByeEvent::process_default] up to the transaction *)
Definition bye_response (bye : IncomingRequest) (s : InviteSession) : exec (result HeaderError.t OutgoingResponse) :=
  create_dialog_response bye StatusCode.OK None (session_dialog s).

(** ** The initiator: initiator.rs *)

(** [EarlyEvent] *)
Inductive EarlyEvent := EarlyResponseEvent (response : TsxMessage) | EarlyTerminate.

(** [Early]; [response_rx] is the channel of its events. *)
Record Early := { early_dialog : Dialog; response_rx : nat; early_timer_config : InitiatorTimerConfig }.

(** [InviteInitiator]; early dialogs by the tag of the peer and their channel *)
Record InviteInitiator := {
  dialog_builder : ClientDialogBuilder;
  early_list : list (str * nat);
  created_sessions : gmap str OutgoingRequest;
  support_timer : bool;
  support_100rel : bool;
  timer_config : InitiatorTimerConfig }.

(** [Response]; a session comes with its shared state. *)
Inductive InitiatorResponse :=
| RProvisional (response : TsxMessage)
| RFailure (response : TsxMessage)
| REarly (early : Early) (response : TsxMessage) (rseq : option RSeq.t)
| RSession (session : InviteSession) (inner : Inner) (response : TsxMessage)
| REarlyEvent.

(** [InviteInitiator::new] *)
Definition initiator_new (builder : ClientDialogBuilder) : InviteInitiator :=
  {| dialog_builder := builder; early_list := []; created_sessions := ∅; support_timer := true; support_100rel := true;
     timer_config := {| expires_secs := None; in_refresher := Refresher.Unspecified; expires_secs_min := 90 |} |}.

(** [InviteInitiator::create_invite] *)
Definition create_invite (i : InviteInitiator) : Request Uri :=
  let request := builder_create_request Method.INVITE (dialog_builder i) in
  let h := rq_headers request in
  let h := if support_100rel i then Headers.insert_type Name.Supported {| CsvHeader.item := lit "100rel" |} h else h in
  let h := if support_timer i then populate_request (timer_config i) h else h in
  {| rq_line := rq_line request; rq_headers := h; rq_body := rq_body request |}.

(** The request of [InviteInitiator::cancel] *)
Definition initiator_cancel_request (i : InviteInitiator) : Request Uri :=
  builder_create_request Method.CANCEL (dialog_builder i).

(** [InviteInitiator::set_acknowledge] *)
Definition set_acknowledge (session : InviteSession) (ack : OutgoingRequest) (i : InviteInitiator) : exec InviteInitiator :=
  tag ← unwrap (FromTo.tag (peer_fromto (session_dialog session)));
  Ret {| dialog_builder := dialog_builder i; early_list := early_list i;
         created_sessions := <[tag := ack]> (created_sessions i);
         support_timer := support_timer i; support_100rel := support_100rel i; timer_config := timer_config i |}.

(** [get_rseq] in prack.rs *)
Definition get_rseq (headers : Headers.t) : option RSeq.t :=
  match Headers.try_get (H := list CsvHeader.t) Name.Require headers with
  | Some (Ok requires) =>
      if existsb (fun r => bool_decide (CsvHeader.item r = lit "100rel")) requires
      then result_ok (Headers.get_named RSeq.t headers) else None
  | _ => None
  end.

(** [create_prack] in prack.rs *)
Definition create_prack (d : Dialog) (response : TsxMessage) (rack : Z) : exec (Request Uri * Dialog) :=
  '(request, d) ← create_request Method.PRACK d;
  Ret ({| rq_line := rq_line request;
          rq_headers := Headers.insert_named {| RAck.rack := rack; RAck.cseq := CSeq.cseq (cseq_ (tm_base_headers response));
                                                RAck.method := Method.INVITE |} (rq_headers request);
          rq_body := rq_body request |}, d).

Definition with_early (l : list (str * nat)) (i : InviteInitiator) : InviteInitiator :=
  {| dialog_builder := dialog_builder i; early_list := l; created_sessions := created_sessions i;
     support_timer := support_timer i; support_100rel := support_100rel i; timer_config := timer_config i |}.

(** The events the channels of early dialogs hold, while their receivers are
    alive *)
Definition early_send (c : nat) (event : EarlyEvent) (queues : gmap nat (list EarlyEvent)) : gmap nat (list EarlyEvent) :=
  match queues !! c with Some queue => <[c := queue ++ [event]]> queues | None => queues end.

(** [create_session], and the success of an early dialog: the session of an
    answered INVITE and its shared state, with the numbers of the session and
    of its event channel *)
Definition established_session (n evt_sink : nat) (usage : Usage) (config : InitiatorTimerConfig) (d : Dialog)
    (response : TsxMessage) (now : Z) (dialogs : dialogs_map)
    : exec (result HeaderError.t (InviteSession * Inner) * dialogs_map) :=
  let inner := {| inner_state := InviteState.Established evt_sink;
                  peer_supports_timer := has_option (lit "timer") (tm_headers response);
                  peer_supports_100rel := has_option (lit "100rel") (tm_headers response);
                  awaited_ack := None; awaited_prack := None |} in
  k ← key d;
  let '(guard, dialogs) := register_usage k usage dialogs in
  guard ← unwrap guard;
  match create_timer_from_response (tm_headers response) now with
  | Err e => Ret (Err e, drop_usage_guard k guard dialogs)
  | Ok timer =>
      Ret (Ok ({| session_inner := n; role := Uac; usage_events := evt_sink; session_timer := timer;
                  session_guard := (k, guard); session_dialog := d |}, inner), dialogs)
  end.

(** What [InviteInitiator::receive] does with a response: [None] when it waits for
    the next one, with the ACK it sends again; [n] and [c] are the numbers of a
    new session and of a new channel. *)
Definition initiator_response (n c : nat) (usage : Usage) (response : TsxMessage) (now : Z) (i : InviteInitiator)
    (queues : gmap nat (list EarlyEvent)) (dialogs : dialogs_map)
    : exec (result HeaderError.t (option InitiatorResponse) * option OutgoingRequest * InviteInitiator *
            gmap nat (list EarlyEvent) * dialogs_map) :=
  let code := response_code response in
  if decide (code <= 100)%Z then Ret (Ok (Some (RProvisional response)), None, i, queues, dialogs)
  else if decide (300 <= code)%Z then
    Ret (Ok (Some (RFailure response)), None, with_early [] i,
         foldl (fun queues x => early_send x.2 EarlyTerminate queues) queues (early_list i), dialogs)
  else
    match FromTo.tag (to (tm_base_headers response)) with
    | None => Ret (Ok None, None, i, queues, dialogs)
    | Some to_tag =>
        match created_sessions i !! to_tag with
        | Some ack => Ret (Ok None, Some ack, i, queues, dialogs)
        | None =>
            match find (fun x => bool_decide (x.1 = to_tag)) (early_list i) with
            | Some (_, early) =>
                Ret (Ok (Some REarlyEvent), None, i, early_send early (EarlyResponseEvent response) queues, dialogs)
            | None =>
                if decide (code < 200)%Z then
                  if negb (Headers.contains Name.Contact (tm_headers response)) then
                    Ret (Ok (Some (RProvisional response)), None, i, queues, dialogs)
                  else
                    '(d, dialogs) ← create_dialog_from_response response (dialog_builder i) dialogs;
                    match d with
                    | Err e => Ret (Err e, None, i, queues, dialogs)
                    | Ok d =>
                        tag ← unwrap (FromTo.tag (peer_fromto d));
                        let early := {| early_dialog := d; response_rx := c; early_timer_config := timer_config i |} in
                        Ret (Ok (Some (REarly early response (get_rseq (tm_headers response)))), None,
                             with_early (early_list i ++ [(tag, c)]) i, <[c := []]> queues, dialogs)
                    end
                else
                  '(d, dialogs) ← create_dialog_from_response response (dialog_builder i) dialogs;
                  match d with
                  | Err e => Ret (Err e, None, i, queues, dialogs)
                  | Ok d =>
                      '(s, dialogs) ← established_session n c usage (timer_config i) d response now dialogs;
                      match s with
                      | Err e => dialogs ← drop_dialog d dialogs; Ret (Err e, None, i, queues, dialogs)
                      | Ok (session, inner) => Ret (Ok (Some (RSession session inner response)), None, i, queues, dialogs)
                      end
                  end
            end
        end
    end.

(** [EarlyResponse] *)
Inductive EarlyResponse :=
| EProvisional (response : TsxMessage) (rseq : option RSeq.t)
| ESuccess (session : InviteSession) (inner : Inner) (response : TsxMessage)
| ETerminated.

(** [Early::receive] of an event *)
Definition early_receive (n evt_sink : nat) (usage : Usage) (event : EarlyEvent) (now : Z) (e : Early)
    (dialogs : dialogs_map) : exec (result HeaderError.t EarlyResponse * dialogs_map) :=
  match event with
  | EarlyResponseEvent response =>
      let code := response_code response in
      if between 101 199 code then Ret (Ok (EProvisional response (get_rseq (tm_headers response))), dialogs)
      else if between 200 299 code then
        '(s, dialogs) ← established_session n evt_sink usage (early_timer_config e) (early_dialog e) response now dialogs;
        match s with
        | Err err => Ret (Err err, dialogs)
        | Ok (session, inner) => Ret (Ok (ESuccess session inner response), dialogs)
        end
      else Panic
  | EarlyTerminate => Ret (Ok ETerminated, dialogs)
  end.
End invite.
