(* ===== verification/SipSamples.v ===== *)
(** * A concrete text format for examples

    Parsers and printers for the headers whose parsers are arguments of the
    other files: small ones that read back what they print. The examples
    import the module to run the definitions on concrete messages. *)
From S2P Require Import Prelude Text StunAttr IceStun SipNames SipHeaders SipFraming SipMessages SipTyped SipKeys SipTransactions SipDialog.

Module Sample.
(** A Via header is its branch. *)
Definition via_of (branch : str) : Via.t := Via.new (lit "UDP") (HostPort.host_name (lit "a.example")) branch.
#[export] Instance via_parse : HeaderParse Via.t := {| header_parse v := Ok ([], via_of v) |}.
#[export] Instance via_values : ExtendValues Via.t := {|
  extend_values v vs := OneOrMore.push (default [] (Params.get_val (lit "branch") (Via.params v))) vs;
  create_values v := OneOrMore.One (default [] (Params.get_val (lit "branch") (Via.params v))) |}.
#[export] Instance via_prints : PrintsValues Via.t.
Proof.
  split; [done|]. intros h [v|vs] Hv; [done|]. cbn in *. by destruct vs.
Qed.

(** A From or To header is its tag. *)
Definition from_to (tag : option str) : FromTo.t unit :=
  {| FromTo.uri := tt; FromTo.tag := tag; FromTo.params := [] |}.
#[export] Instance from_to_parse : HeaderParse (FromTo.t unit) := {|
  header_parse v := Ok ([], from_to (if decide (v = []) then None else Some v)) |}.
#[export] Instance from_to_values : ExtendValues (FromTo.t unit) := {|
  extend_values f _ := OneOrMore.One (default [] (FromTo.tag f));
  create_values f := OneOrMore.One (default [] (FromTo.tag f)) |}.
#[export] Instance from_to_prints : PrintsValues (FromTo.t unit).
Proof. by split. Qed.

(** A CSeq is its number and method. *)
#[export] Instance cseq_parse : HeaderParse CSeq.t := {|
  header_parse v :=
    let '(n, rest) := span (in_range 48 57) v in
    match parse_uint 32 n with
    | Some n => Ok ([], {| CSeq.cseq := n; CSeq.method := Method.from_parse (H := ascii_nom) (drop 1 rest) |})
    | None => Err v
    end |}.

(** A contact is a name, a route a number. *)
Record contact := { contact_name : str }.
#[export] Instance contact_parse : HeaderParse contact := {| header_parse v := Ok ([], {| contact_name := v |}) |}.
#[export] Instance contact_values : ExtendValues contact := {|
  extend_values c _ := OneOrMore.One (contact_name c);
  create_values c := OneOrMore.One (contact_name c) |}.
#[export] Instance contact_named : ConstNamed contact := {| NAME := Name.Contact |}.
#[export] Instance contact_prints : PrintsValues contact.
Proof. by split. Qed.
Lemma contact_is : NAME contact = Name.Contact.
Proof. done. Qed.

Record routing := { route : Z }.
#[export] Instance routing_parse : HeaderParse routing := {|
  header_parse v := match parse_uint 32 v with Some n => Ok ([], {| route := n |}) | None => Err v end |}.
#[export] Instance routing_values : ExtendValues routing := {|
  extend_values r vs := OneOrMore.push (print_uint (route r)) vs;
  create_values r := OneOrMore.One (print_uint (route r)) |}.
#[export] Instance routing_prints : PrintsValues routing.
Proof. split; [done|]. intros h [v|vs] Hv; [done|]. cbn in *. by destruct vs. Qed.

(** Session-Expires: what it prints, for the two refreshers *)
#[export] Instance session_expires_decode : DecodeValues SessionExpires.t := {|
  decode_values vs :=
    match vs with
    | v :: _ =>
        let '(n, rest) := span (in_range 48 57) v in
        match parse_uint 32 n with
        | Some n => Ok {| SessionExpires.delta_secs := n;
            SessionExpires.refresher := if decide (rest = lit ";refresher=uas") then Refresher.Uas
              else if decide (rest = lit ";refresher=uac") then Refresher.Uac else Refresher.Unspecified |}
        | None => Err v
        end
    | [] => Err []
    end |}.

(** Usages, by the number of the usages there were before *)
#[export] Instance usage_list {U} : UsageMap U nat (list (nat * U)) := {|
  usages_empty := [];
  usages_insert u us := (S (foldr Nat.max 0 us.*1), us ++ [(S (foldr Nat.max 0 us.*1), u)]);
  usages_remove k us := filter (fun x => x.1 <> k) us;
  usages_values us := us.*2 |}.

(** A request of a client in a dialog, as a server gets it *)
Definition base (m : Method.t) (cseq : Z) : BaseHeaders unit :=
  {| via := [via_of (lit "z9hG4bK1")]; from_ := from_to (Some (lit "c")); to := from_to (Some (lit "s"));
     call_id := {| CallID.call_id := lit "call" |}; cseq_ := {| CSeq.cseq := cseq; CSeq.method := m |} |}.
Definition incoming (m : Method.t) (cseq : Z) (h : Headers.t) : IncomingRequest unit unit unit :=
  {| ir_tp_info := {| source := V4 1 5060; tp := tt |};
     ir_tsx_key := TsxKey.client (lit "1") m; ir_tsx := Some {| tsx_key := TsxKey.client (lit "1") m; receiver := 0 |};
     ir_line := {| rl_method := m; rl_uri := tt |};
     ir_base_headers := base m cseq; ir_headers := h; ir_body := [] |}.
End Sample.
