(* ===== verification/SipDialogProps.v ===== *)
(** * Properties of dialogs
    (sip-ua/src/dialog/mod.rs, key.rs, layer.rs, client_builder.rs, sip-ua/src/invite/timer.rs)

    What the dialog layer does with runs of requests of the peer, that the two
    ends of a dialog agree on its key and that its requests arrive, and that
    both ends of a session agree on its timer. *)
From stdpp Require Import gmap.
From S2P Require Import Prelude Text StunAttr IceStun SipNames SipHeaders SipFraming SipMessages SipTyped SipKeys SipTransactions.
From S2P Require Import SipDialog SipSamples.

(** ** The order of requests *)
Section order.
Context {Uri NameAddr Tp K M : Type}.
#[local] Abbreviation IncomingRequest := (IncomingRequest Uri NameAddr Tp).
#[local] Abbreviation Usage := (IncomingRequest -> option IncomingRequest).
Context `{UsageMap Usage K M}.
#[local] Abbreviation DialogEntry := (DialogEntry (Uri := Uri) (NameAddr := NameAddr) (Tp := Tp) (M := M)).
Implicit Types (r : IncomingRequest) (rs : list IncomingRequest) (e : DialogEntry).

(** A run of requests of the peer: what is delivered with each of them, and the
    entry. *)
Fixpoint entry_run (requests : list IncomingRequest) (e : DialogEntry) : list (list IncomingRequest) * DialogEntry :=
  match requests with
  | [] => ([], e)
  | r :: requests =>
      let '(d, e) := entry_receive r e in
      let '(ds, e) := entry_run requests e in
      (d :: ds, e)
  end.

Lemma entry_run_cons r rs e :
  entry_run (r :: rs) e =
    (let '(d, e') := entry_receive r e in (d :: (entry_run rs e').1, (entry_run rs e').2)).
Proof. cbn. destruct (entry_receive r e) as [d e']. by destruct (entry_run rs e'). Qed.

(** One request whose number is not in the backlog *)
Lemma entry_receive_spec r e : backlog e !! request_cseq r = None ->
  let next := default (request_cseq r) (next_peer_cseq e) in
  entry_receive r e =
    (if decide (next < request_cseq r)%Z then [] else [r],
     {| backlog := if decide (next < request_cseq r)%Z then <[request_cseq r := r]> (backlog e) else backlog e;
        next_peer_cseq := Some (if decide (request_cseq r = next) then wrap 32 (next + 1) else next);
        usages := usages e |}).
Proof.
  intros Hb next. unfold entry_receive. fold next. destruct (request_cseq r ?= next)%Z eqn:E.
  - apply Z.compare_eq in E. cbn [drain]. rewrite Hb. cbn [last default from_option].
    rewrite !(decide_False (P := (next < request_cseq r)%Z)) by lia. rewrite decide_True by done. by rewrite <-E.
  - apply (proj1 (Z.compare_lt_iff _ _)) in E. rewrite !(decide_False (P := (next < request_cseq r)%Z)) by lia.
    by rewrite (decide_False (P := request_cseq r = next)) by lia.
  - apply (proj1 (Z.compare_gt_iff _ _)) in E. rewrite !(decide_True (P := (next < request_cseq r)%Z)) by done.
    by rewrite (decide_False (P := request_cseq r = next)) by lia.
Qed.

(** What a request becomes: delivered alone, or kept *)
Definition alone_or_kept (e : DialogEntry) (r : IncomingRequest) (d : list IncomingRequest) : Prop :=
  d = [r] \/ d = [] /\ backlog e !! request_cseq r = Some r.

Lemma entry_run_stuck rs : forall e,
  NoDup (request_cseq <$> rs) -> (forall r, r ∈ rs -> backlog e !! request_cseq r = None) ->
  Forall2 (alone_or_kept (entry_run rs e).2) rs (entry_run rs e).1 /\
  forall n, n ∉ request_cseq <$> rs -> backlog (entry_run rs e).2 !! n = backlog e !! n.
Proof.
  induction rs as [|r rs IH]; intros e Hnd Hb; [split; [constructor|done]|].
  rewrite entry_run_cons, entry_receive_spec by (apply Hb; left).
  cbn in Hnd. apply NoDup_cons in Hnd as [Hni Hnd].
  set (e' := {| backlog := _; next_peer_cseq := _; usages := _ |}).
  assert (forall n, n <> request_cseq r -> backlog e' !! n = backlog e !! n) as He'.
  { intros n Hn. subst e'. cbn. case_decide; [by apply lookup_insert_ne|done]. }
  destruct (IH e' Hnd) as [Hf Ho].
  { intros x Hx. rewrite He'; [apply Hb; by right|]. intros E. apply Hni. rewrite <-E. by apply list_elem_of_fmap_2. }
  cbn [fst snd]. split.
  - constructor; [|done]. unfold alone_or_kept. case_decide as Hd; [right|by left]. split; [done|].
    rewrite Ho by done. subst e'. cbn. by rewrite lookup_insert_eq.
  - intros n Hn. cbn in Hn. apply not_elem_of_cons in Hn as [Hn1 Hn2]. rewrite Ho, He' by done. done.
Qed.

(** The backlog of a dialog is never delivered. Whatever requests with
    different CSeq numbers a peer sends in a new dialog, in whatever order,
    each of them is given to the usages at its own arrival, alone, or never:
    a request that comes early goes into the backlog and is still there at
    the end, also when the requests before it have come. (The loop that
    empties the backlog starts at the number of the request that has just
    come, which is not in it.) *)
Theorem dialog_backlog_stuck (peer_cseq : option Z) (requests : list IncomingRequest) :
  NoDup (request_cseq <$> requests) ->
  let '(delivered, e) := entry_run requests (entry_new peer_cseq) in
  Forall2 (alone_or_kept e) requests delivered.
Proof.
  intros Hnd. destruct (entry_run_stuck requests (entry_new peer_cseq) Hnd) as [Hf _].
  { intros r _. apply lookup_empty. }
  by destruct (entry_run requests (entry_new peer_cseq)).
Qed.

(** ** A dialog in order *)
Context `{ExtendValues Via.t, ExtendValues (FromTo.t NameAddr)}.
Context (ip_from_str : str -> option IpAddr) (direction : Tp -> Direction).
#[local] Abbreviation dispatch := (dispatch ip_from_str direction).
#[local] Abbreviation layer_receive := (layer_receive ip_from_str direction).

(** The layer, on a run of requests *)
Fixpoint layer_run (requests : list IncomingRequest) (dialogs : gmap DialogKey.t DialogEntry)
    : exec (list (option (list DialogOutcome)) * gmap DialogKey.t DialogEntry) :=
  match requests with
  | [] => Ret ([], dialogs)
  | r :: requests =>
      '(o, dialogs) ← layer_receive r dialogs;
      '(os, dialogs) ← layer_run requests dialogs;
      Ret (o :: os, dialogs)
  end.

Definition entry_at (n : Z) (e : DialogEntry) : DialogEntry :=
  {| backlog := ∅; next_peer_cseq := Some n; usages := usages e |}.

(** An entry that waits for the number [n] *)
Definition waits_for (n : Z) (e : DialogEntry) : Prop :=
  backlog e = ∅ /\ (next_peer_cseq e = None \/ next_peer_cseq e = Some n).

Lemma layer_receive_next r n e key dialogs o :
  from_incoming r = Some key -> dialogs !! key = Some e -> waits_for n e -> request_cseq r = n ->
  (0 <= n < 2 ^ 32 - 1)%Z -> dispatch (usages_values (usages e)) r = Ret o ->
  layer_receive r dialogs = Ret (Some [o], <[key := entry_at (n + 1) e]> dialogs).
Proof.
  intros Hk He [Hb Hn] Hr Hlt Hd. unfold SipDialog.layer_receive. rewrite Hk, He.
  rewrite entry_receive_spec by (rewrite Hb; apply lookup_empty).
  assert (default (request_cseq r) (next_peer_cseq e) = n) as ->.
  { destruct Hn as [->| ->]; cbn; congruence. }
  rewrite !(decide_False (P := (n < request_cseq r)%Z)) by lia. rewrite (decide_True (P := request_cseq r = n)) by done.
  cbn [dispatch_all]. rewrite Hd. cbn [mbind exec_bind]. unfold entry_at. rewrite Hb, wrap_id by (unfold uint; lia). done.
Qed.

(** What becomes of a request that is delivered *)
Definition delivered (us : list Usage) (r : IncomingRequest) (o : DialogOutcome (Uri := Uri) (NameAddr := NameAddr) (Tp := Tp)) : Prop :=
  match o with
  | Used r' => offer us r = inl r' /\ ir_tsx r' = ir_tsx r
  | AckIgnored => (exists r', offer us r = inr r') /\ rl_method (ir_line r) = Method.ACK
  | NotFound tsx response => (exists r', offer us r = inr r') /\ rl_method (ir_line r) <> Method.ACK /\
      ir_tsx r = Some tsx /\ sl_code (rs_line (os_msg response)) = StatusCode.NOT_FOUND
  end.

(** A request as the endpoint gives it to its layers *)
Definition from_endpoint (r : IncomingRequest) : Prop :=
  via (ir_base_headers r) <> [] /\ (ir_tsx r = None -> rl_method (ir_line r) = Method.ACK).

Lemma dispatch_spec us r : Forall layer_ok us -> from_endpoint r ->
  exists o, dispatch us r = Ret o /\ delivered us r o.
Proof.
  intros Hus [Hv Ha]. pose proof (offer_spec us Hus r) as Ho. unfold SipDialog.dispatch.
  destruct (offer us r) as [r'|r'] eqn:E; destruct Ho as (E1 & E2 & E3); [by exists (Used r')|].
  unfold dialog_unwanted. destruct (decide (rl_method (ir_line r') = Method.ACK)) as [Hm|Hm].
  { exists AckIgnored. split; [done|]. split; [eauto|congruence]. }
  destruct (create_response_total ip_from_str direction (ir_line r') (ir_base_headers r') (ir_headers r')
    (ir_tp_info r') StatusCode.NOT_FOUND None Hm (E3 Hv)) as (response & -> & Hc). cbn [mbind exec_bind].
  destruct (ir_tsx r) as [tsx|] eqn:Et; [|by rewrite E2, Ha in Hm].
  unfold create_server_inv_tsx, create_server_tsx, take_tsx_registration. rewrite E1.
  exists (NotFound tsx response). rewrite E2 in Hm. split; [|cbn; eauto].
  destruct (decide (rl_method (ir_line r') = Method.INVITE)); [done|].
  rewrite decide_False; [done|]. rewrite E2 in *. tauto.
Qed.

(** C37: Requests in order are delivered. In a dialog that waits for a CSeq number,
    a run of requests with that number and the following ones gives each
    request, at its own arrival and exactly once, to the usages of the dialog
    in their order; one that no usage takes is answered with 404 in its
    transaction, unless it is an ACK, which is ignored; nothing panics. After
    the run the dialog waits for the next number, with an empty backlog and
    the same usages, and no other dialog has changed. *)
Theorem dialog_in_order key n rs : forall e dialogs,
  dialogs !! key = Some e -> waits_for n e -> (0 <= n)%Z -> (n + Z.of_nat (length rs) < 2 ^ 32)%Z ->
  Forall layer_ok (usages_values (usages e)) ->
  (forall i r, rs !! i = Some r ->
    from_endpoint r /\ from_incoming r = Some key /\ request_cseq r = (n + Z.of_nat i)%Z) ->
  exists os e' dialogs', layer_run rs dialogs = Ret ((fun o => Some [o]) <$> os, dialogs') /\
    Forall2 (delivered (usages_values (usages e))) rs os /\
    dialogs' !! key = Some e' /\ waits_for (n + Z.of_nat (length rs)) e' /\ usages e' = usages e /\
    forall k, k <> key -> dialogs' !! k = dialogs !! k.
Proof.
  revert n. induction rs as [|r rs IH]; intros n e dialogs He Hw Hn Hlen Hus Hrs.
  { exists [], e, dialogs. replace (n + _)%Z with n by (cbn; lia). repeat split; try done; apply Hw. }
  destruct (Hrs 0 r eq_refl) as (Hep & Hk & Hc). rewrite Z.add_0_r in Hc. cbn [length] in Hlen |- *.
  destruct (dispatch_spec (usages_values (usages e)) r Hus Hep) as (o & Ho & Hd).
  destruct (IH (n + 1)%Z (entry_at (n + 1) e) (<[key := entry_at (n + 1) e]> dialogs))
    as (os & e' & dialogs' & Hrun & Hf & He' & Hw' & Hu & Hother); [by rewrite lookup_insert_eq|split; [done|by right]|lia|lia|done| |].
  { intros i x Hx. destruct (Hrs (S i) x Hx) as (Hx1 & Hx2 & Hx3). split; [done|]. split; [done|lia]. }
  exists (o :: os), e', dialogs'. split.
  { cbn [layer_run]. rewrite (layer_receive_next r n e key dialogs o) by first [done|lia].
    cbn [mbind exec_bind]. rewrite Hrun. done. }
  split; [by constructor|]. split; [done|]. split; [by replace (n + Z.of_nat (S (length rs)))%Z
    with (n + 1 + Z.of_nat (length rs))%Z by lia|]. split; [done|].
  intros k Hk'. rewrite Hother by done. by apply lookup_insert_ne.
Qed.
End order.

(** ** The two ends of a dialog *)
#[export] Instance via_less_prints : PrintsValues CSeq.t.
Proof. by split. Qed.
#[export] Instance call_id_prints : PrintsValues CallID.t.
Proof. by split. Qed.
#[export] Instance max_forwards_prints : PrintsValues MaxForwards.t.
Proof. by split. Qed.
#[export] Instance session_expires_prints : PrintsValues SessionExpires.t.
Proof. by split. Qed.
#[export] Instance min_se_prints : PrintsValues MinSe.t.
Proof. by split. Qed.
#[export] Instance csv_header_prints : PrintsValues CsvHeader.t.
Proof.
  split; [done|]. intros h [v|vs] Hv; [done|]. cbn in *. destruct (last vs) as [v|] eqn:E; cbn.
  - intros Hn. apply app_eq_nil in Hn as [_ Hn]. done.
  - by apply last_None in E.
Qed.

(** The headers that proxies leave alone *)
Definition carried : list Name.t := [Name.From; Name.To; Name.CallID; Name.CSeq; Name.Contact].
Lemma carried_ok n : n ∈ carried -> parsed_name n /\ canonical n = n.
Proof. intros Hn. unfold carried in Hn. repeat (apply elem_of_cons in Hn as [->|Hn]; [done|]). by apply elem_of_nil in Hn. Qed.
Lemma is_carried n : bool_decide (n ∈ carried) = true -> n ∈ carried.
Proof. apply bool_decide_eq_true_1. Qed.

Section ends.
Context {Uri NameAddr Tp Contact Routing K M : Type}.
#[local] Abbreviation IncomingRequest := (IncomingRequest Uri NameAddr Tp).
#[local] Abbreviation Usage := (IncomingRequest -> option IncomingRequest).
Context `{UM : UsageMap Usage K M}.
#[local] Abbreviation dialogs_map := (gmap DialogKey.t (DialogEntry (Uri := Uri) (NameAddr := NameAddr) (Tp := Tp) (M := M))).
#[local] Abbreviation Dialog := (Dialog NameAddr Tp Contact Routing).
#[local] Abbreviation ClientDialogBuilder := (ClientDialogBuilder Uri NameAddr Tp Contact).

Context (contact_uri : Contact -> Uri) (sips : Uri -> bool) (address_of : Uri -> NameAddr).
Context `{DF : DecodeValues (FromTo.t NameAddr), EF : ExtendValues (FromTo.t NameAddr), !PrintsValues (FromTo.t NameAddr)}.
Context `{EV : ExtendValues Via.t, !PrintsValues Via.t, DecodeValues CSeq.t, HeaderParse Via.t}.
Context `{DC : DecodeValues Contact, EC : ExtendValues Contact, NC : ConstNamed Contact, !PrintsValues Contact}.
Context `{DR : DecodeValues (list Routing), ER : ExtendValues Routing, !PrintsValues Routing}.
Context (Hcontact : NAME Contact = Name.Contact).
Context (ip_from_str : str -> option IpAddr) (direction : Tp -> Direction).
Context (allowed supported : list CsvHeader.t).
#[local] Abbreviation create_request := (create_request contact_uri).
#[local] Abbreviation create_dialog_response := (create_dialog_response ip_from_str direction allowed supported).

(** The values of the headers of a request in a dialog *)
Definition request_values (m : Method.t) (d : Dialog) (n : Name.t) : list str :=
  match n with
  | Name.From => OneOrMore.to_list (create_values (local_fromto d))
  | Name.To => OneOrMore.to_list (create_values (peer_fromto d))
  | Name.MaxForwards => [lit "70"]
  | Name.CallID => [CallID.call_id (dialog_call_id d)]
  | Name.CSeq => [CSeq.print {| CSeq.cseq := local_cseq d; CSeq.method := m |}]
  | Name.Contact => if decide (m = Method.INVITE) then OneOrMore.to_list (create_values (local_contact d)) else []
  | Name.Route => if decide (route_set d = []) then [] else multiple_values (route_set d)
  | _ => []
  end.

Definition set_cseq (n : Z) (d : Dialog) : Dialog :=
  {| local_cseq := n; local_fromto := local_fromto d; peer_fromto := peer_fromto d;
     local_contact := local_contact d; peer_contact := peer_contact d; dialog_call_id := dialog_call_id d;
     route_set := route_set d; secure := secure d; target_tp_info := target_tp_info d |}.

Lemma create_request_spec m d :
  exists h, create_request m d =
    Ret ({| rq_line := {| rl_method := m; rl_uri := contact_uri (peer_contact d) |}; rq_headers := h; rq_body := [] |},
         set_cseq (wrap 32 (local_cseq d + 1)) d) /\
    holds h (request_values m d).
Proof.
  pose proof (holds_insert_type Name.From (local_fromto d) _ _ I holds_new eq_refl) as H1.
  pose proof (holds_insert_type Name.To (peer_fromto d) _ _ I H1 eq_refl) as H2.
  pose proof (holds_insert_type Name.MaxForwards {| MaxForwards.max_forwards := 70 |} _ _ I H2 eq_refl) as H3.
  pose proof (holds_insert_type Name.CallID (dialog_call_id d) _ _ I H3 eq_refl) as H4.
  pose proof (holds_insert_type Name.CSeq {| CSeq.cseq := local_cseq d; CSeq.method := m |} _ _ I H4 eq_refl) as H5.
  clear H1 H2 H3 H4. match type of H5 with holds ?h ?v => set (h5 := h) in *; set (v5 := v) in * end.
  set (h6 := if decide (m = Method.INVITE) then Headers.insert_named (local_contact d) h5 else h5).
  set (vc := if decide (m = Method.INVITE) then OneOrMore.to_list (create_values (local_contact d)) else []).
  assert (holds h6 (upd Name.Contact vc v5)) as H6.
  { unfold h6, vc. case_decide.
    - unfold Headers.insert_named. rewrite Hcontact. by apply holds_insert_type.
    - eapply holds_ext; [exact H5|]. intros n. unfold upd. by destruct n. }
  assert (exists h, match route_set d with [] => Ret h6 | routes => Headers.insert_multiple Name.Route routes h6 end
      = Ret h /\ holds h (request_values m d)) as (h & E & Hh).
  { destruct (route_set d) as [|r rs] eqn:Er.
    - eexists. split; [reflexivity|]. eapply holds_ext; [exact H6|]. intros n. unfold request_values. rewrite Er.
      by destruct n.
    - destruct (holds_insert_multiple Name.Route (r :: rs) _ _ I ltac:(done) H6 eq_refl) as (h7 & E7 & H7).
      exists h7. split; [done|]. eapply holds_ext; [exact H7|]. intros n. unfold request_values. rewrite Er.
      by destruct n. }
  exists h. split; [|done].
  transitivity (h ← match route_set d with [] => Ret h6 | routes => Headers.insert_multiple Name.Route routes h6 end;
    Ret ({| rq_line := {| rl_method := m; rl_uri := contact_uri (peer_contact d) |}; rq_headers := h; rq_body := [] |},
         set_cseq (wrap 32 (local_cseq d + 1)) d)); [reflexivity|by rewrite E].
Qed.

(** ** Requests that arrive *)

(** A request of an end of the dialog reaches the other: with its line, and the
    headers that proxies leave alone. *)
Definition same_base (b b' : BaseHeaders NameAddr) : Prop :=
  from_ b = from_ b' /\ to b = to b' /\ call_id b = call_id b' /\ cseq_ b = cseq_ b'.
Definition arrives (rq : Request Uri) (r : IncomingRequest) : Prop :=
  ir_line r = rq_line rq /\
  (forall n, n ∈ carried -> all_values n (ir_headers r) = all_values n (rq_headers rq)) /\
  exists base, extract_from (ir_headers r) = Ok base /\ same_base (ir_base_headers r) base.

(** The headers of an end of a dialog print and parse. *)
Record readable (from to_ : FromTo.t NameAddr) (id : CallID.t) (c : CSeq.t) : Prop := {
  read_from : reads_back from;
  read_to : reads_back to_;
  read_call_id : reads_back id;
  read_cseq : reads_back c }.

Lemma extract_from_get h (base : BaseHeaders NameAddr) : extract_from h = Ok base ->
  Headers.get (H := FromTo.t NameAddr) Name.From h = Ok (from_ base) /\
  Headers.get (H := FromTo.t NameAddr) Name.To h = Ok (to base) /\
  Headers.get (H := CallID.t) Name.CallID h = Ok (call_id base) /\
  Headers.get (H := CSeq.t) Name.CSeq h = Ok (cseq_ base).
Proof.
  unfold extract_from. intros He.
  destruct (Headers.get (H := list Via.t) Name.Via h) as [vs|]; [|done]. cbn [mbind result_bind] in He.
  destruct (Headers.get Name.From h) as [f|]; [|done]. cbn [mbind result_bind] in He.
  destruct (Headers.get Name.To h) as [t|]; [|done]. cbn [mbind result_bind] in He.
  destruct (Headers.get Name.CallID h) as [i|]; [|done]. cbn [mbind result_bind] in He.
  destruct (Headers.get Name.CSeq h) as [c|]; [|done]. by injection He as <-.
Qed.

(** A container that holds the printed headers gives them back. *)
Lemma read_base h base from to_ id c vals : extract_from h = Ok base -> readable from to_ id c ->
  (forall n, n ∈ carried -> all_values n h = vals n) ->
  vals Name.From = OneOrMore.to_list (create_values from) ->
  vals Name.To = OneOrMore.to_list (create_values to_) ->
  vals Name.CallID = OneOrMore.to_list (create_values id) ->
  vals Name.CSeq = OneOrMore.to_list (create_values c) ->
  from_ base = from /\ to base = to_ /\ call_id base = id /\ cseq_ base = c.
Proof.
  intros He [Rf Rt Ri Rc] Hv Vf Vt Vi Vc. apply extract_from_get in He as (Gf & Gt & Gi & Gc).
  assert (forall (A : Type) (x y : A), Ok (E := HeaderError.t) x = Ok y -> x = y) as Hinj by congruence.
  repeat split; apply Hinj; symmetry; first [rewrite <-Gf|rewrite <-Gt|rewrite <-Gi|rewrite <-Gc]; symmetry;
    (eapply get_values; [rewrite Hv by (by apply is_carried); first [exact Vf|exact Vt|exact Vi|exact Vc]
      |first [apply create_nonempty|done]|assumption]).
Qed.

(** The key of the other end, of a dialog whose peer has a tag *)
Definition mirrored (k : DialogKey.t) (peer_tag : str) : DialogKey.t :=
  {| DialogKey.call_id := DialogKey.call_id k; DialogKey.peer_tag := Some (DialogKey.local_tag k);
     DialogKey.local_tag := peer_tag |}.

(** A request of a dialog arrives in the dialog of the other end. The request
    [create_request] makes has the dialog's From, To, Call-ID, CSeq number
    and route set, the Contact if it is an INVITE, and Max-Forwards 70, and
    no other header; its target is the peer's contact; the dialog goes on to
    the next number. When it reaches the peer, with those headers intact, the
    layer finds the dialog of the peer for it: the key of the sender's dialog,
    the tags swapped, and the CSeq number is the sender's. *)
Theorem in_dialog_request m d k peer_tag r :
  key d = Ret k -> FromTo.tag (peer_fromto d) = Some peer_tag ->
  readable (local_fromto d) (peer_fromto d) (dialog_call_id d) {| CSeq.cseq := local_cseq d; CSeq.method := m |} ->
  exists rq, create_request m d = Ret (rq, set_cseq (wrap 32 (local_cseq d + 1)) d) /\
    rq_line rq = {| rl_method := m; rl_uri := contact_uri (peer_contact d) |} /\
    holds (rq_headers rq) (request_values m d) /\
    (arrives rq r -> from_incoming r = Some (mirrored k peer_tag) /\ request_cseq r = local_cseq d).
Proof.
  intros Hk Ht Hr. destruct (create_request_spec m d) as (h & -> & Hh).
  eexists. split; [reflexivity|]. split; [done|]. split; [exact Hh|].
  intros (_ & Hv & base & He & Ef & Et & Ei & Ec). cbn [rq_headers] in Hv.
  destruct (read_base (ir_headers r) base _ _ _ _ (request_values m d) He Hr) as (Bf & Bt & Bi & Bc); try done.
  { intros n Hn. destruct (carried_ok n Hn) as [Hp Hc]. rewrite Hv, (holds_values n h _ Hh Hp) by done. by rewrite Hc. }
  unfold key in Hk. destruct (FromTo.tag (local_fromto d)) as [lt|] eqn:El; [|done]. injection Hk as <-.
  unfold from_incoming, request_cseq. rewrite Ef, Et, Ei, Ec, Bf, Bt, Bi, Bc, Ht. cbn. by rewrite El.
Qed.

(** ** Responses *)

(** The values of the headers of a response: those of every response, *)
Definition base_values (b : BaseHeaders NameAddr) (headers : Headers.t) (code : StatusCode.t) (n : Name.t) : list str :=
  match n with
  | Name.Via => multiple_values (via b)
  | Name.From => OneOrMore.to_list (create_values (from_ b))
  | Name.To => OneOrMore.to_list (create_values (to b))
  | Name.CallID => [CallID.call_id (call_id b)]
  | Name.CSeq => [CSeq.print (cseq_ b)]
  | Name.Timestamp => if decide (code = StatusCode.TRYING) then all_values Name.Timestamp headers else []
  | _ => []
  end.

(** and of one that a dialog makes for an INVITE or a SUBSCRIBE. *)
Definition success (code : StatusCode.t) : bool := between 200 299 code.
Definition has_contact (code : StatusCode.t) : bool := between 101 399 code || bool_decide (code = 485%Z).
Definition has_allow (code : StatusCode.t) : bool :=
  between 180 189 code || between 200 299 code || bool_decide (code = 405%Z).
Definition dialog_values (r : IncomingRequest) (code : StatusCode.t) (d : Dialog) (n : Name.t) : list str :=
  let b := ir_base_headers r in
  match n with
  | Name.RecordRoute => all_values Name.RecordRoute (ir_headers r)
  | Name.Contact => if has_contact code then OneOrMore.to_list (create_values (local_contact d)) else []
  | Name.Allow => if has_allow code then multiple_values allowed else []
  | Name.Supported => if success code then multiple_values supported else []
  | Name.To =>
      OneOrMore.to_list (create_values
        (match FromTo.tag (to b) with
         | None => if success code then with_tag (FromTo.tag (local_fromto d)) (to b) else to b
         | Some _ => to b
         end))
  | n => base_values b (ir_headers r) code n
  end.

Lemma create_response_holds line b headers (tpi : MessageTpInfo Tp) code reason :
  rl_method line <> Method.ACK -> via b <> [] ->
  exists response, create_response ip_from_str direction (Uri := Uri) line b headers tpi code reason = Ret response /\
    sl_code (rs_line (os_msg response)) = code /\ buffer (os_parts response) = [] /\
    holds (rs_headers (os_msg response)) (base_values b headers code).
Proof.
  intros Hm Hv. unfold create_response. rewrite decide_False by done.
  destruct (holds_insert_multiple Name.Via (via b) _ _ I Hv holds_new eq_refl) as (h1 & -> & H1).
  cbn [mbind exec_bind].
  pose proof (holds_insert_type Name.From (from_ b) _ _ I H1 eq_refl) as H2.
  pose proof (holds_insert_type Name.To (to b) _ _ I H2 eq_refl) as H3.
  pose proof (holds_insert_type Name.CallID (call_id b) _ _ I H3 eq_refl) as H4.
  pose proof (holds_insert_type Name.CSeq (cseq_ b) _ _ I H4 eq_refl) as H5.
  clear H2 H3 H4. destruct (via b) as [|v vs] eqn:Ev; [done|]. cbn [head unwrap mbind exec_bind].
  eexists. split; [reflexivity|]. split; [done|]. split; [done|].
  cbn [os_msg rs_headers]. case_decide as Hc.
  - eapply holds_ext; [apply (holds_clone_into Name.Timestamp headers _ _ I H5)|].
    intros n. unfold base_values. rewrite Ev. destruct n; try done. by rewrite decide_True.
  - eapply holds_ext; [exact H5|]. intros n. unfold base_values. rewrite Ev. destruct n; try done.
    by rewrite decide_False.
Qed.

(** The response a dialog makes. For an INVITE or a SUBSCRIBE it has the Via,
    From, To, Call-ID and CSeq of the request, its Record-Route, the dialog's
    Contact for the codes 101 to 399 and 485, the methods the endpoint allows
    for 180 to 189, successes and 405, and, for a success, what it supports;
    a success gets the tag of the dialog in its To header, if the request had
    none. Other requests get the headers of every response only. None of this
    panics or fails, unless the request is an ACK, has no Via, the To header
    does not parse as it was printed, or the endpoint allows or supports
    nothing. *)
Theorem dialog_response r code reason d :
  let b := ir_base_headers r in
  let m := rl_method (ir_line r) in
  m <> Method.ACK -> via b <> [] -> allowed <> [] -> supported <> [] -> reads_back (to b) ->
  exists response, create_dialog_response r code reason d = Ret (Ok response) /\
    sl_code (rs_line (os_msg response)) = code /\
    holds (rs_headers (os_msg response))
      (if decide (m = Method.INVITE \/ m = Method.SUBSCRIBE) then dialog_values r code d
       else base_values b (ir_headers r) code).
Proof.
  intros b m Hm Hv Ha Hs Hto. unfold SipDialog.create_dialog_response.
  destruct (create_response_holds (ir_line r) b (ir_headers r) (ir_tp_info r) code reason Hm Hv)
    as (response & E & Hcode & _ & Hh). fold b. rewrite E. cbn [mbind exec_bind]. fold m. clear E.
  destruct (decide (m = Method.INVITE \/ m = Method.SUBSCRIBE)); [|by exists response].
  pose proof (holds_clone_into Name.RecordRoute (ir_headers r) _ _ I Hh) as H1.
  match type of H1 with holds ?h ?v => set (h1 := h) in *; set (v1 := v) in * end.
  set (h2 := if _ && _ then _ else _).
  assert (holds h2 (upd Name.Contact (dialog_values r code d Name.Contact) v1)) as H2.
  { unfold h2. pose proof (contains_spec Name.Contact h1 (proj1 H1) I) as Hc.
    rewrite (holds_values Name.Contact _ _ H1 I) in Hc. change (v1 (canonical Name.Contact)) with (@nil str) in Hc.
    change (bool_decide _) with false in Hc. rewrite Hc. rewrite andb_true_r. cbn [dialog_values].
    fold (has_contact code). destruct (has_contact code).
    - unfold Headers.insert_named. rewrite Hcontact. by apply holds_insert_type.
    - eapply holds_ext; [exact H1|]. intros n. unfold upd. by destruct n. }
  set (v2 := upd Name.Contact _ v1) in *.
  assert (exists h3, (if between 180 189 code || between 200 299 code || bool_decide (code = 405%Z)
      then Headers.insert_multiple Name.Allow allowed h2 else Ret h2) = Ret h3 /\
    holds h3 (upd Name.Allow (dialog_values r code d Name.Allow) v2)) as (h3 & -> & H3).
  { fold (has_allow code). cbn [dialog_values]. destruct (has_allow code).
    - destruct (holds_insert_multiple Name.Allow allowed _ _ I Ha H2 eq_refl) as (h3 & E3 & H3). eauto.
    - exists h2. split; [done|]. eapply holds_ext; [exact H2|]. intros n. unfold upd. by destruct n. }
  cbn [mbind exec_bind]. unfold dialog_values. fold b. fold (success code). destruct (success code).
  - destruct (FromTo.tag (to b)) as [tag|] eqn:Et.
    + destruct (holds_insert_multiple Name.Supported supported _ _ I Hs H3 eq_refl) as (h4 & E4 & H4).
      rewrite E4. eexists. split; [reflexivity|]. split; [done|]. eapply holds_ext; [exact H4|].
      intros n. by destruct n.
    + destruct (holds_edit Name.To (fun to => with_tag (FromTo.tag (local_fromto d)) to) (to b) _ _ I H3) as (h4 & E4 & H4);
        [apply create_nonempty|exact Hto|]. rewrite E4.
      destruct (holds_insert_multiple Name.Supported supported _ _ I Hs H4 eq_refl) as (h5 & E5 & H5).
      rewrite E5. eexists. split; [reflexivity|]. split; [done|]. eapply holds_ext; [exact H5|].
      intros n. by destruct n.
  - eexists. split; [reflexivity|]. split; [done|]. eapply holds_ext; [exact H3|].
    intros n. destruct n; try done. by destruct (FromTo.tag (to b)).
Qed.

(** ** Setting up a dialog *)
Definition builder_values (m : Method.t) (b : ClientDialogBuilder) (n : Name.t) : list str :=
  match n with
  | Name.MaxForwards => [lit "70"]
  | Name.From => OneOrMore.to_list (create_values (cb_local_fromto b))
  | Name.To => OneOrMore.to_list (create_values (cb_peer_fromto b))
  | Name.CallID => [CallID.call_id (cb_call_id b)]
  | Name.CSeq => [CSeq.print {| CSeq.cseq := cb_local_cseq b; CSeq.method := m |}]
  | Name.Contact => OneOrMore.to_list (create_values (cb_local_contact b))
  | _ => []
  end.

Lemma builder_request_holds m b : holds (rq_headers (builder_create_request m b)) (builder_values m b).
Proof.
  pose proof (holds_insert_type Name.MaxForwards {| MaxForwards.max_forwards := 70 |} _ _ I holds_new eq_refl) as H1.
  pose proof (holds_insert_type Name.From (cb_local_fromto b) _ _ I H1 eq_refl) as H2.
  pose proof (holds_insert_type Name.To (cb_peer_fromto b) _ _ I H2 eq_refl) as H3.
  pose proof (holds_insert_type Name.CallID (cb_call_id b) _ _ I H3 eq_refl) as H4.
  pose proof (holds_insert_type Name.CSeq {| CSeq.cseq := cb_local_cseq b; CSeq.method := m |} _ _ I H4 eq_refl) as H5.
  pose proof (holds_insert_type Name.Contact (cb_local_contact b) _ _ I H5 eq_refl) as H6.
  clear H1 H2 H3 H4 H5. unfold builder_create_request, Headers.insert_named at 1. rewrite Hcontact.
  eapply holds_ext; [exact H6|]. intros n. by destruct n.
Qed.

(** A response that reaches the client *)
Definition response_reaches (response : OutgoingResponse Tp) (msg : TsxMessage Uri NameAddr Tp) : Prop :=
  (forall n, n ∈ carried -> all_values n (tm_headers msg) = all_values n (rs_headers (os_msg response))) /\
  exists base, extract_from (tm_headers msg) = Ok base /\ same_base (tm_base_headers msg) base.

Lemma get_contact h c vals : all_values Name.Contact h = vals Name.Contact ->
  vals Name.Contact = OneOrMore.to_list (create_values c) -> reads_back c ->
  Headers.get_named Contact h = Ok c.
Proof.
  intros Hv Hc Hr. unfold Headers.get_named. rewrite Hcontact.
  eapply get_values; [rewrite Hv; exact Hc|apply create_nonempty|exact Hr].
Qed.

Lemma carried_values h h' vals n : holds h vals ->
  (forall n, n ∈ carried -> all_values n h' = all_values n h) -> n ∈ carried -> all_values n h' = vals n.
Proof.
  intros Hh Hv Hn. destruct (carried_ok n Hn) as [Hp Hc]. rewrite Hv, (holds_values n h _ Hh Hp) by done. by rewrite Hc.
Qed.

(** The server's end *)
Lemma new_server_spec (b : ClientDialogBuilder) r tag seq' tag' contact' (dialogs : dialogs_map) :
  FromTo.tag (cb_local_fromto b) = Some tag ->
  readable (cb_local_fromto b) (cb_peer_fromto b) (cb_call_id b)
    {| CSeq.cseq := cb_local_cseq b; CSeq.method := Method.INVITE |} ->
  reads_back (cb_local_contact b) -> arrives (builder_create_request Method.INVITE b) r ->
  let ks := {| DialogKey.call_id := CallID.call_id (cb_call_id b); DialogKey.peer_tag := Some tag;
               DialogKey.local_tag := tag' |} in
  exists ds, new_server sips seq' tag' r contact' dialogs =
      Ret (Ok ds, <[ks := entry_new (Some (cb_local_cseq b))]> dialogs) /\
    key ds = Ret ks /\ peer_contact ds = cb_local_contact b /\ local_contact ds = contact' /\
    local_fromto ds = with_tag (Some tag') (cb_peer_fromto b) /\ peer_fromto ds = cb_local_fromto b /\
    dialog_call_id ds = cb_call_id b /\ local_cseq ds = seq' /\
    from_ (ir_base_headers r) = cb_local_fromto b /\ to (ir_base_headers r) = cb_peer_fromto b /\
    call_id (ir_base_headers r) = cb_call_id b /\
    cseq_ (ir_base_headers r) = {| CSeq.cseq := cb_local_cseq b; CSeq.method := Method.INVITE |}.
Proof.
  intros Ht Hr Hc (_ & Hv & base & He & Ef & Et & Ei & Ec) ks.
  pose proof (builder_request_holds Method.INVITE b) as Hh.
  pose proof (fun n => carried_values _ _ _ n Hh Hv) as Hvals.
  destruct (read_base (ir_headers r) base _ _ _ _ _ He Hr Hvals) as (Bf & Bt & Bi & Bc); try done.
  assert (Headers.get_named Contact (ir_headers r) = Ok (cb_local_contact b)) as Hg.
  { eapply get_contact; [by apply Hvals, is_carried|done|done]. }
  rewrite Bf in Ef. rewrite Bt in Et. rewrite Bi in Ei. rewrite Bc in Ec. unfold new_server.
  rewrite Ef, Ht, Hg, Et, Ei. cbn [mbind exec_bind key]. eexists. split.
  { unfold key. cbn. rewrite Ht. unfold request_cseq. rewrite Ec. reflexivity. }
  unfold key. cbn. rewrite Ht. done.
Qed.

(** C7: Both ends of a call have the same dialog. When the INVITE of a client
    reaches a server, the server's [new_server] makes a dialog whose entry
    waits for the number after the INVITE's; the success the dialog answers
    with, when it reaches the client, gives the client a dialog with the same
    call and the two tags swapped; each end has the other's contact as its
    target. (By [in_dialog_request], each end's requests are then found by
    the other's layer.) *)
Theorem dialog_established (b : ClientDialogBuilder) r tag seq' tag' contact' code reason
    (server_dialogs client_dialogs : dialogs_map) :
  FromTo.tag (cb_local_fromto b) = Some tag -> FromTo.tag (cb_peer_fromto b) = None ->
  readable (cb_local_fromto b) (cb_peer_fromto b) (cb_call_id b)
    {| CSeq.cseq := cb_local_cseq b; CSeq.method := Method.INVITE |} ->
  reads_back (with_tag (Some tag') (cb_peer_fromto b)) ->
  reads_back (cb_local_contact b) -> reads_back contact' ->
  arrives (builder_create_request Method.INVITE b) r -> via (ir_base_headers r) <> [] ->
  success code = true -> allowed <> [] -> supported <> [] ->
  let ks := {| DialogKey.call_id := CallID.call_id (cb_call_id b); DialogKey.peer_tag := Some tag;
               DialogKey.local_tag := tag' |} in
  let kc := mirrored ks tag in
  exists ds response,
    new_server sips seq' tag' r contact' server_dialogs =
      Ret (Ok ds, <[ks := entry_new (Some (cb_local_cseq b))]> server_dialogs) /\
    key ds = Ret ks /\ peer_contact ds = cb_local_contact b /\
    create_dialog_response r code reason ds = Ret (Ok response) /\
    sl_code (rs_line (os_msg response)) = code /\
    forall msg, response_reaches response msg ->
      exists dc, create_dialog_from_response msg b client_dialogs =
          Ret (Ok dc, <[kc := entry_new None]> client_dialogs) /\
        key dc = Ret kc /\ peer_contact dc = contact' /\
        local_fromto dc = peer_fromto ds /\ peer_fromto dc = local_fromto ds.
Proof.
  intros Ht Hnt Hr Hrt Hc Hc' Ha Hvia Hcode Hall Hsup ks kc.
  destruct (new_server_spec b r tag seq' tag' contact' server_dialogs Ht Hr Hc Ha)
    as (ds & Hns & Hks & Hpc & Hlc & Hlf & Hpf & _ & _ & Ef & Et & Ei & Ec).
  pose proof Ha as (Hline & _).
  assert (rl_method (ir_line r) = Method.INVITE) as Hm by (by rewrite Hline).
  destruct (dialog_response r code reason ds) as (response & Hresp & Hcd & Hh); try done.
  { by rewrite Hm. }
  { rewrite Et. apply Hr. }
  rewrite Hm, decide_True in Hh by (by left).
  exists ds, response. split; [exact Hns|]. split; [exact Hks|]. split; [done|]. split; [done|]. split; [done|].
  intros msg (Hv & base & He & Bf & Bt & Bi & Bc).
  pose proof (fun n => carried_values _ _ _ n Hh Hv) as Hvals.
  assert (readable (cb_local_fromto b) (with_tag (Some tag') (cb_peer_fromto b)) (cb_call_id b)
    {| CSeq.cseq := cb_local_cseq b; CSeq.method := Method.INVITE |}) as Hr' by (destruct Hr; by split).
  destruct (read_base (tm_headers msg) base _ _ _ _ _ He Hr' Hvals) as (Cf & Ct & Ci & Cc).
  { cbn. by rewrite Ef. }
  { cbn. rewrite Et, Hnt, Hcode, Hlf. done. }
  { cbn. by rewrite Ei. }
  { cbn. by rewrite Ec. }
  assert (Headers.get_named Contact (tm_headers msg) = Ok contact') as Hg.
  { eapply get_contact; [by apply Hvals, is_carried| |done]. cbn.
    assert (has_contact code = true) as ->; [|by rewrite Hlc].
    unfold has_contact, success, between in *. apply bool_decide_eq_true in Hcode.
    rewrite bool_decide_eq_true_2 by lia. done. }
  rewrite Ct in Bt. unfold create_dialog_from_response. rewrite Bt. cbn [with_tag FromTo.tag]. rewrite Hg.
  eexists. split.
  { unfold key. cbn. rewrite Ht. reflexivity. }
  unfold key. cbn. rewrite Ht. rewrite Hlf, Hpf. done.
Qed.
End ends.

(** ** Session timers *)
Section session_timers.
Context `{DecodeValues SessionExpires.t}.

(** The session timers of both ends agree. *)
Definition timers_agree (acceptor initiator : SessionTimer) (interval : Z) : Prop :=
  st_refresher acceptor = st_refresher initiator /\
  match st_refresher acceptor with
  | Refresher.Uas => real_delta_secs acceptor = (interval / 2)%Z /\ real_delta_secs initiator = interval
  | Refresher.Uac => real_delta_secs acceptor = interval /\ real_delta_secs initiator = (interval / 2)%Z
  | Refresher.Unspecified => False
  end.

(** The [Min-SE] header is read back. *)
Lemma min_se_reads_back n : uint 32 n -> reads_back {| MinSe.min_se := n |}.
Proof.
  intros Hn.
  change (('(_, h) ← match parse_uint 32 (trim (print_uint n)) with
                    | Some n => Ok ([] : str, {| MinSe.min_se := n |}) | None => Err (print_uint n) end;
           Ok h) = Ok {| MinSe.min_se := n |}).
  rewrite trim_visible by first [apply print_uint_nonempty, Hn|apply print_uint_visible, Hn].
  by rewrite parse_print_uint by first [lia|done].
Qed.

Lemma populate_request_min_se (i : InitiatorTimerConfig) request :
  headers_wf request -> all_values Name.MinSe request = [] ->
  all_values Name.MinSe (populate_request i request) = [print_uint (expires_secs_min i)].
Proof.
  intros Hwf Ha. unfold populate_request.
  set (h1 := match expires_secs i with Some _ => _ | None => _ end).
  assert (headers_wf h1 /\ all_values Name.MinSe h1 = []) as [Hw1 Ha1].
  { unfold h1. destruct (expires_secs i); [|done].
    destruct (insert_type_put Name.SessionExpires {| SessionExpires.delta_secs := z; SessionExpires.refresher := in_refresher i |}
      request Hwf I) as (Hw & Ho & _). split; [exact Hw|]. by rewrite <-Ha; apply Ho. }
  destruct (insert_spec Name.Supported (lit "timer") h1 _ Hw1 I (or_introl eq_refl)) as [Hw2 Hv2].
  destruct (insert_type_put Name.MinSe {| MinSe.min_se := expires_secs_min i |} _ Hw2 I) as (_ & _ & Hv).
  apply Hv. by rewrite Hv2.
Qed.

(** Both ends of a session agree on its timer. When the INVITE of an initiator
    that populated it with its configuration arrives, the acceptor answers
    with an interval that is the larger of the initiator's minimum and its
    own configuration, with a refresher, and requires the extension; when the
    Session-Expires header arrives as it was printed, the initiator's timer
    has the same refresher: that end waits for half of the interval, the
    other one for all of it, each from the time it made its timer. *)
Theorem session_timers_agree (c : AcceptorTimerConfig) (i : InitiatorTimerConfig)
    (request invite response received : Headers.t) (now now' : Z) :
  headers_wf request -> all_values Name.MinSe request = [] -> uint 32 (expires_secs_min i) ->
  all_values Name.MinSe invite = all_values Name.MinSe (populate_request i request) ->
  headers_wf response -> all_values Name.Require response = [] -> all_values Name.SessionExpires response = [] ->
  let interval := Z.max (expires_secs_min i) (interval_secs c) in
  let refresher := if decide (ac_refresher c = Refresher.Uas) then Refresher.Uas else Refresher.Uac in
  reads_back {| SessionExpires.delta_secs := interval; SessionExpires.refresher := refresher |} ->
  exists timer c' response', on_responding_success c response invite now = (timer, c', response') /\
    headers_wf response' /\ all_values Name.Require response' = [lit "timer"] /\
    st_refresher timer = refresher /\ wait_end timer = Some (now + 1000 * real_delta_secs timer)%Z /\
    (all_values Name.SessionExpires received = all_values Name.SessionExpires response' ->
     exists timer', create_timer_from_response received now' = Ok timer' /\ timers_agree timer timer' interval /\
       wait_end timer' = Some (now' + 1000 * real_delta_secs timer')%Z).
Proof.
  intros Hwf Hn Hmin Hinv Hwr Hreq Hse interval refresher Hback.
  assert (Headers.get_named MinSe.t invite = Ok {| MinSe.min_se := expires_secs_min i |}) as Hget.
  { rewrite populate_request_min_se in Hinv by done. eapply get_values; [exact Hinv|done|].
    by apply (min_se_reads_back (expires_secs_min i)). }
  unfold on_responding_success. rewrite Hget. cbn [MinSe.min_se]. fold interval.
  destruct (insert_type_put Name.Require {| CsvHeader.item := lit "timer" |} response Hwr I) as (Hw1 & Ho1 & Hv1).
  assert (exists real, (match ac_refresher c with
      | Refresher.Uas => ((interval / 2)%Z, Refresher.Uas)
      | Refresher.Unspecified | Refresher.Uac => (interval, Refresher.Uac) end) = (real, refresher) /\
    real = match refresher with Refresher.Uas => (interval / 2)%Z | _ => interval end) as (real & -> & Hreal).
  { unfold refresher. destruct (ac_refresher c); eexists; (split; [reflexivity|done]). }
  destruct (insert_type_put Name.SessionExpires
    {| SessionExpires.delta_secs := interval; SessionExpires.refresher := refresher |} _ Hw1 I) as (Hw2 & Ho2 & Hv2).
  eexists _, _, _. split; [reflexivity|]. split; [exact Hw2|]. split.
  { unfold Headers.insert_named. change (NAME SessionExpires.t) with Name.SessionExpires.
    rewrite Ho2 by done. by apply Hv1. }
  split; [done|]. split; [done|]. intros Hrec.
  unfold Headers.insert_named in Hrec. change (NAME SessionExpires.t) with Name.SessionExpires in Hrec.
  rewrite Hv2 in Hrec by (by rewrite <-Hse; apply Ho1).
  assert (Headers.try_get_named SessionExpires.t received =
    Some (Ok {| SessionExpires.delta_secs := interval; SessionExpires.refresher := refresher |})) as Ht.
  { unfold Headers.try_get_named, Headers.try_get. change (NAME SessionExpires.t) with Name.SessionExpires.
    unfold all_values in Hrec. destruct (Headers.entry Name.SessionExpires received) as [e|]; [|done].
    cbn [mbind option_bind]. f_equal. unfold Headers.decode. rewrite Hrec. unfold reads_back in Hback.
    by rewrite Hback. }
  unfold create_timer_from_response. rewrite Ht. cbn [SessionExpires.refresher SessionExpires.delta_secs].
  assert (refresher = Refresher.Uas \/ refresher = Refresher.Uac) as [E|E] by (unfold refresher; case_decide; auto);
    rewrite E in *; eexists; (split; [reflexivity|]); by repeat split.
Qed.
End session_timers.

(** ** Examples *)
Import Sample.

#[local] Abbreviation sample_entry := (DialogEntry (Uri := unit) (NameAddr := unit) (Tp := unit)
  (M := list (nat * (IncomingRequest unit unit unit -> option (IncomingRequest unit unit unit))))).

(** A BYE that overtakes the request before it is lost. *)
Lemma dialog_backlog_stuck_witness :
  let requests := [incoming Method.BYE 3 Headers.new; incoming Method.OPTIONS 2 Headers.new] in
  let '(delivered, e) := entry_run requests (entry_new (Some 1%Z) : sample_entry) in
  Forall2 (alone_or_kept e) requests delivered /\
  delivered = [[]; [incoming Method.OPTIONS 2 Headers.new]].
Proof.
  intros requests. pose proof (dialog_backlog_stuck (K := nat)
    (M := list (nat * (IncomingRequest unit unit unit -> option (IncomingRequest unit unit unit)))) (Some 1%Z) requests) as H.
  split; [apply H; apply (bool_decide_unpack _); vm_compute; reflexivity|reflexivity].
Defined.

Definition sample_key : DialogKey.t :=
  {| DialogKey.call_id := lit "call"; DialogKey.peer_tag := Some (lit "c"); DialogKey.local_tag := lit "s" |}.

Lemma dialog_in_order_witness :
  let requests := [incoming Method.OPTIONS 2 Headers.new; incoming Method.BYE 3 Headers.new] in
  exists os dialogs, layer_run (fun _ => None) (fun _ : unit => DirNone) requests
    {[sample_key := (entry_new (Some 1%Z) : sample_entry)]} = Ret (os, dialogs) /\ length os = 2.
Proof.
  intros requests.
  destruct (dialog_in_order (fun _ => None) (fun _ : unit => DirNone) sample_key 2 requests
    (entry_new (Some 1%Z) : sample_entry) {[sample_key := entry_new (Some 1%Z)]})
    as (os & e' & dialogs' & Hrun & Hd & _); [by apply lookup_singleton_eq|by split; [|right]|done|done|constructor| |].
  - intros i r Hi. destruct i as [|[|i]]; [| |done]; injection Hi as <-; by repeat split.
  - eexists _, _. split; [exact Hrun|]. apply Forall2_length in Hd. rewrite length_fmap. by rewrite <-Hd.
Defined.

(** A client and a server *)
Definition sample_builder : ClientDialogBuilder unit unit unit contact :=
  builder_new (fun _ => false) (fun _ => tt) 1 (lit "c") (lit "call") tt {| contact_name := lit "alice" |} tt.
Definition sample_invite : IncomingRequest unit unit unit :=
  let h := Headers.insert_named_front (via_of (lit "z9hG4bK1"))
             (rq_headers (builder_create_request Method.INVITE sample_builder)) in
  {| ir_tp_info := {| source := V4 1 5060; tp := tt |};
     ir_tsx_key := TsxKey.client (lit "1") Method.INVITE;
     ir_tsx := Some {| tsx_key := TsxKey.client (lit "1") Method.INVITE; receiver := 0 |};
     ir_line := {| rl_method := Method.INVITE; rl_uri := tt |};
     ir_base_headers := {| via := [via_of (lit "z9hG4bK1")]; from_ := from_to (Some (lit "c")); to := from_to None;
       call_id := {| CallID.call_id := lit "call" |}; cseq_ := {| CSeq.cseq := 1; CSeq.method := Method.INVITE |} |};
     ir_headers := h; ir_body := [] |}.

(** Checks a statement about all names in [carried]. *)
Ltac by_carried :=
  let n := fresh in let Hn := fresh in
  intros n Hn; unfold carried in Hn; repeat (apply elem_of_cons in Hn as [->|Hn]; [by vm_compute|]);
  by apply elem_of_nil in Hn.

Lemma sample_invite_arrives : arrives (builder_create_request Method.INVITE sample_builder) sample_invite.
Proof.
  split; [done|]. split; [by_carried|]. eexists. split; [vm_compute; reflexivity|]. by vm_compute.
Qed.

Definition sample_dialog : Dialog unit unit contact routing :=
  {| local_cseq := 7; local_fromto := from_to (Some (lit "s")); peer_fromto := from_to (Some (lit "c"));
     local_contact := {| contact_name := lit "bob" |}; peer_contact := {| contact_name := lit "alice" |};
     dialog_call_id := {| CallID.call_id := lit "call" |}; route_set := [{| route := 5 |}]; secure := false;
     target_tp_info := default_target |}.

Definition sample_csv : list CsvHeader.t := [{| CsvHeader.item := lit "INVITE" |}; {| CsvHeader.item := lit "BYE" |}].

Lemma in_dialog_request_witness :
  exists rq, create_request (fun _ => tt) Method.BYE sample_dialog = Ret (rq, set_cseq 8 sample_dialog) /\
    all_values Name.Route (rq_headers rq) = [lit "5"].
Proof.
  destruct (in_dialog_request (Contact := contact) (fun _ => tt) contact_is Method.BYE sample_dialog sample_key (lit "c") sample_invite)
    as (rq & Hrq & _ & Hh & _); [reflexivity|reflexivity|by repeat split|].
  exists rq. split; [exact Hrq|]. by rewrite (holds_values Name.Route _ _ Hh I).
Defined.

Lemma dialog_response_witness :
  exists response, create_dialog_response (fun _ => None) (fun _ : unit => DirNone) sample_csv sample_csv
      sample_invite StatusCode.OK None sample_dialog = Ret (Ok response) /\
    all_values Name.Allow (rs_headers (os_msg response)) = [lit "INVITE, BYE"].
Proof.
  destruct (dialog_response (Contact := contact) contact_is (fun _ => None) (fun _ : unit => DirNone) sample_csv sample_csv
    sample_invite StatusCode.OK None sample_dialog) as (response & Hr & _ & Hh); [done..|].
  exists response. split; [exact Hr|]. by rewrite (holds_values Name.Allow _ _ Hh I).
Defined.

Lemma dialog_established_witness :
  exists (ds : Dialog unit unit contact routing) response dialogs, new_server (K := nat) (fun _ => false) 7 (lit "s") sample_invite {| contact_name := lit "bob" |}
      (∅ : gmap DialogKey.t sample_entry) = Ret (Ok ds, dialogs) /\
    create_dialog_response (fun _ => None) (fun _ : unit => DirNone) sample_csv sample_csv
      sample_invite StatusCode.OK None ds = Ret (Ok response) /\ key ds = Ret sample_key.
Proof.
  destruct (dialog_established (Contact := contact) (fun _ => false) contact_is (fun _ => None) (fun _ : unit => DirNone) sample_csv sample_csv
    sample_builder sample_invite (lit "c") 7 (lit "s") {| contact_name := lit "bob" |} StatusCode.OK None
    (∅ : gmap DialogKey.t sample_entry) (∅ : gmap DialogKey.t sample_entry))
    as (ds & response & Hns & Hks & _ & Hr & _); try done; [apply sample_invite_arrives|].
  eexists ds, response, _. split; [exact Hns|]. split; [exact Hr|exact Hks].
Defined.

Lemma session_timers_agree_witness :
  let i := {| expires_secs := None; in_refresher := Refresher.Unspecified; expires_secs_min := 90 |} in
  let invite := populate_request i Headers.new in
  exists timer c response, on_responding_success default_acceptor_config Headers.new invite 0 = (timer, c, response) /\
    wait_end timer = Some 1800000%Z /\
    exists timer', create_timer_from_response response 0 = Ok timer' /\ wait_end timer' = Some 900000%Z.
Proof.
  intros i invite.
  destruct (session_timers_agree default_acceptor_config i Headers.new invite Headers.new
    (let '(_, _, r) := on_responding_success default_acceptor_config Headers.new invite 0 in r) 0 0)
    as (timer & c & response & Hon & _ & _ & Hrf & Hw & Hrec);
    [apply new_wf|done|done|done|apply new_wf|done|done|done|].
  exists timer, c, response. split; [exact Hon|]. rewrite Hon in Hrec.
  destruct Hrec as (timer' & Hc & [Href Hag] & Hw'); [done|].
  rewrite Hrf in Hag. destruct Hag as [Ha Hi]. rewrite Hw, Ha. split; [done|].
  exists timer'. split; [exact Hc|]. by rewrite Hw', Hi.
Defined.
