(* ===== verification/SipInviteProps.v ===== *)
(** * Properties of INVITE sessions
    (sip-ua/src/invite/mod.rs, acceptor.rs, initiator.rs, session.rs, prack.rs)

    That an INVITE is answered once, what a CANCEL, a BYE and a PRACK do to a
    session, how long the answer is repeated, and that both ends of a session
    keep it alive together. *)
From stdpp Require Import gmap.
From S2P Require Import Prelude Text StunAttr IceStun SipNames SipHeaders SipFraming SipMessages SipTyped SipKeys SipTransactions.
From S2P Require Import SipTimers SipTimerProps SipDialog SipInvite SipSamples SipDialogProps.

(** ** Waiting for an ACK or a PRACK *)

(** The times of [n] retransmissions after [t], the first after [delta], the
    others a second apart *)
Fixpoint ack_times (n : nat) (t delta : Z) : list Z :=
  match n with O => [] | S n => (t + delta)%Z :: ack_times n (t + delta) 1000 end.

Section waiting.
Context {Uri NameAddr Tp IoError : Type}.
#[local] Abbreviation IncomingRequest := (IncomingRequest Uri NameAddr Tp).
#[local] Abbreviation Env := (Env (Uri := Uri) (NameAddr := NameAddr) (Tp := Tp)).
#[local] Abbreviation Receiver := (Receiver (Uri := Uri) (NameAddr := NameAddr) (Tp := Tp)).
Context (send : Z -> list byte -> SocketAddr -> result IoError Z).
Context (Hsend : forall t bytes destination, send t bytes destination = Ok t).

Lemma ack_times_bounds n : forall t delta, (0 <= delta)%Z ->
  Forall (fun x => t + delta <= x <= t + delta + 1000 * (Z.of_nat n - 1))%Z (ack_times n t delta).
Proof.
  induction n as [|n IH]; intros t delta Hd; cbn; [constructor|]. constructor; [lia|].
  eapply Forall_impl; [apply IH; lia|]. cbn. lia.
Qed.

Lemma after_none (env : Env) bytes t : after env bytes [] t (inbox env) = {| now := t; inbox := inbox env; sent := sent env |}.
Proof. unfold after. cbn. by rewrite app_nil_r. Qed.

(** The same times as offsets *)
Ltac offsets := cbn; repeat (apply (f_equal2 cons); [lia|]); reflexivity.

Lemma ack_times_9 t : ack_times 9 t 500 = Z.add t <$> [500; 1500; 2500; 3500; 4500; 5500; 6500; 7500; 8500]%Z.
Proof. offsets. Qed.
Lemma ack_times_5 t : ack_times 5 t 500 = Z.add t <$> [500; 1500; 2500; 3500; 4500]%Z.
Proof. offsets. Qed.

(** Loops that send a response again whenever no request has come; what they do
    with a request, and at the end *)
Lemma oneshot_rounds {R} (L : nat -> Z -> Env -> exec R) bytes (rx : Receiver)
    (got : option IncomingRequest -> Env -> exec R) (gave_up : Env -> exec R) :
  (forall delta env, L 0 delta env = gave_up env) ->
  (forall n delta env, L (S n) delta env =
    let '(res, env) := oneshot_wait delta rx env in
    match res with
    | Some res => got res env
    | None => L n 1000%Z (after env bytes [now env] (now env) (inbox env))
    end) ->
  forall n delta env, (0 <= delta)%Z ->
  let t := now env in let stop := (t + delta + 1000 * Z.of_nat n)%Z in
  L (S n) delta env =
    match rx with
    | Some (a, res) =>
        if decide (a <= stop)%Z
        then got res (after env bytes (filter (fun x => x < a)%Z (ack_times (S n) t delta)) (Z.max t a) (inbox env))
        else gave_up (after env bytes (ack_times (S n) t delta) stop (inbox env))
    | None => gave_up (after env bytes (ack_times (S n) t delta) stop (inbox env))
    end.
Proof.
  intros H0 HS n. induction n as [|n IH]; intros delta env Hd t stop; rewrite HS; unfold oneshot_wait; fold t.
  - change (ack_times 1 t delta) with [(t + delta)%Z]. replace stop with (t + delta)%Z by lia.
    destruct rx as [[a res]|]; [|by rewrite H0]. destruct (decide (a <= t + delta)%Z) as [Ha|Ha].
    + rewrite filter_cons_False by lia. change (filter _ []) with (@nil Z). by rewrite after_none.
    + by rewrite H0.
  - destruct rx as [[a res]|].
    + destruct (decide (a <= t + delta)%Z) as [Ha|Ha].
      * rewrite (decide_True (P := (a <= stop)%Z)) by lia.
        assert (filter (fun x => x < a)%Z (ack_times (S (S n)) t delta) = []) as ->.
        { pose proof (ack_times_bounds (S (S n)) t delta Hd) as Hb. clear -Hb Ha.
          induction Hb as [|x l Hx _ IH]; [done|]. by rewrite filter_cons_False by lia. }
        by rewrite after_none.
      * rewrite IH by lia. cbn [now after inbox]. replace (t + delta + 1000 + 1000 * Z.of_nat n)%Z with stop by lia.
        change (ack_times (S (S n)) t delta) with ((t + delta)%Z :: ack_times (S n) (t + delta) 1000).
        rewrite filter_cons_True by lia.
        replace (Z.max (t + delta) a) with (Z.max t a) by lia.
        unfold after. cbn [sent]. rewrite <-!app_assoc. done.
    + rewrite IH by lia. cbn [now after inbox]. replace (t + delta + 1000 + 1000 * Z.of_nat n)%Z with stop by lia.
      change (ack_times (S (S n)) t delta) with ((t + delta)%Z :: ack_times (S n) (t + delta) 1000).
      unfold after. cbn [sent]. rewrite <-!app_assoc. done.
Qed.

(** The success response to an INVITE is sent again after half a second and
    then every second, until the ACK comes; after nine times, eight and a half
    seconds, it is given up and the call fails. (The interval is computed from
    T1 each time, so it never doubles up to T2, and the transaction does not
    wait for the 32 seconds of 64 T1.) If the sender of the ACK is dropped
    meanwhile, the task panics. *)
Theorem success_ack_schedule (accepted : OutgoingResponse Tp) (ack_recv : Receiver) (env : Env) bytes :
  prepare_response accepted = Ret (accepted, bytes) ->
  let t := now env in
  let again stop := (Z.add t) <$> filter (fun d => d < stop)%Z [500; 1500; 2500; 3500; 4500; 5500; 6500; 7500; 8500]%Z in
  let gave_up := Ret (Err RequestTimedOut, after env bytes (again 8501%Z) (t + 8500) (inbox env)) in
  receive_ack send accepted ack_recv env =
    match ack_recv with
    | Some (a, res) =>
        if decide (a <= t + 8500)%Z then
          match res with
          | Some ack => Ret (Ok ack, after env bytes (again (a - t)%Z) (Z.max t a) (inbox env))
          | None => Panic
          end
        else gave_up
    | None => gave_up
    end.
Proof.
  intros Hp t again gave_up. unfold receive_ack.
  rewrite (oneshot_rounds (fun n delta env => receive_ack_loop send n delta accepted ack_recv env) bytes ack_recv
    (fun res env => ack ← unwrap res; Ret (Ok ack, env)) (fun env => Ret (Err RequestTimedOut, env)));
    [|done| |done].
  - fold t. replace (t + T1 + 1000 * Z.of_nat 8)%Z with (t + 8500)%Z by (unfold T1; lia).
    change T1 with 500%Z. rewrite ack_times_9. destruct ack_recv as [[a [ack|]]|]; [by rewrite filter_shift|done|done].
  - intros n delta e. cbn [receive_ack_loop]. destruct (oneshot_wait delta ack_recv e) as [[res|] e']; [done|].
    unfold accepted_retransmit, SipTimers.send_outgoing_response, transport_send. rewrite Hp. cbn [mbind exec_bind].
    rewrite Hsend. done.
Qed.

(** The wait for a PRACK, in the same way *)
Lemma reliable_schedule (response : OutgoingResponse Tp) (prack_recv : Receiver) (env : Env) bytes :
  StatusCode.kind (sl_code (rs_line (os_msg response))) = StatusCode.Provisional ->
  prepare_response response = Ret (response, bytes) ->
  let t := now env in
  let again stop := (Z.add t) <$> filter (fun d => d < stop)%Z [500; 1500; 2500; 3500; 4500]%Z in
  let gave_up := Ret (Err RequestTerminated, after env bytes (again 4501%Z) (t + 4500) (inbox env)) in
  reliable_wait send response prack_recv env =
    match prack_recv with
    | Some (a, res) =>
        if decide (a <= t + 4500)%Z then
          match res with
          | Some prack => Ret (Ok prack, after env bytes (again (a - t)%Z) (Z.max t a) (inbox env))
          | None => Panic
          end
        else gave_up
    | None => gave_up
    end.
Proof.
  intros Hk Hp t again gave_up. unfold reliable_wait.
  rewrite (oneshot_rounds (fun n delta env => prack_loop send n delta response prack_recv env) bytes prack_recv
    (fun res env => prack ← unwrap res; Ret (Ok prack, env)) (fun env => Ret (Err RequestTerminated, env)));
    [|done| |done].
  - fold t. replace (t + T1 + 1000 * Z.of_nat 4)%Z with (t + 4500)%Z by (unfold T1; lia).
    change T1 with 500%Z. rewrite ack_times_5. destruct prack_recv as [[a [prack|]]|]; [by rewrite filter_shift|done|done].
  - intros n delta e. cbn [prack_loop]. destruct (oneshot_wait delta prack_recv e) as [[res|] e']; [done|].
    unfold respond_provisional. rewrite decide_True by done.
    unfold SipTimers.send_outgoing_response, transport_send. rewrite Hp. cbn [mbind exec_bind].
    rewrite Hsend. done.
Qed.
End waiting.

(** ** Requests after a refresh *)
Section refresh.
Context {Uri NameAddr Tp Contact Routing K M IoError : Type}.
#[local] Abbreviation IncomingRequest := (IncomingRequest Uri NameAddr Tp).
#[local] Abbreviation Usage := (IncomingRequest -> option IncomingRequest).
Context `{UM : UsageMap Usage K M}.
#[local] Abbreviation DialogEntry := (DialogEntry (Uri := Uri) (NameAddr := NameAddr) (Tp := Tp) (M := M)).
#[local] Abbreviation Dialog := (Dialog NameAddr Tp Contact Routing).
#[local] Abbreviation Error := (SipTimers.Error (IoError := IoError)).
Context (contact_uri : Contact -> Uri).
Context `{DF : DecodeValues (FromTo.t NameAddr), EF : ExtendValues (FromTo.t NameAddr), !PrintsValues (FromTo.t NameAddr)}.
Context `{EV : ExtendValues Via.t, !PrintsValues Via.t, DecodeValues CSeq.t, HeaderParse Via.t}.
Context `{DC : DecodeValues Contact, EC : ExtendValues Contact, NC : ConstNamed Contact, !PrintsValues Contact}.
Context `{DR : DecodeValues (list Routing), ER : ExtendValues Routing, !PrintsValues Routing}.
Context (Hcontact : NAME Contact = Name.Contact).
Context (select_transport : Uri -> result Error (Tp * SocketAddr)).
Context (tp_name : Tp -> str) (sent_by : Tp -> SocketAddr).
#[local] Abbreviation create_request := (create_request contact_uri).
#[local] Abbreviation create_session_ack := (create_session_ack contact_uri select_transport tp_name sent_by).

(** The ACK of a success has the number it is given, and uses up the next number
    of the dialog. *)
Lemma create_session_ack_spec random n (d : Dialog) transport destination :
  tti_transport (target_tp_info d) = Some (transport, destination) ->
  reads_back {| CSeq.cseq := local_cseq d; CSeq.method := Method.ACK |} ->
  exists ack, create_session_ack random n d = Ret (Ok ack, set_cseq (wrap 32 (local_cseq d + 1)) d) /\
    rq_line (oq_msg ack) = {| rl_method := Method.ACK; rl_uri := contact_uri (peer_contact d) |} /\
    oq_parts ack = {| op_transport := transport; SipMessages.destination := destination; buffer := [] |} /\
    holds (rq_headers (oq_msg ack))
      (upd Name.Via (OneOrMore.to_list (create_values (create_via tp_name sent_by transport
         (TsxKey.client random Method.ACK) (via_host_port (target_tp_info d)))))
      (upd Name.CSeq [CSeq.print {| CSeq.cseq := n; CSeq.method := Method.ACK |}] (request_values Method.ACK d))).
Proof.
  intros Ht Hr. unfold SipInvite.create_session_ack.
  destruct (create_request_spec contact_uri Hcontact Method.ACK d) as (h & -> & Hh). cbn [mbind exec_bind rq_headers].
  destruct (holds_edit Name.CSeq (fun c => {| CSeq.cseq := n; CSeq.method := CSeq.method c |})
    {| CSeq.cseq := local_cseq d; CSeq.method := Method.ACK |} h _ I Hh) as (h' & E & Hh'); [done|exact Hr|].
  unfold Headers.edit_named. change (NAME CSeq.t) with Name.CSeq. rewrite E. unfold create_outgoing_to.
  change (target_tp_info (set_cseq _ d)) with (target_tp_info d). rewrite Ht. eexists. split; [|split; [|split]].
  - unfold set_target. cbn. reflexivity.
  - done.
  - done.
  - cbn [oq_msg rq_headers create_outgoing]. unfold Headers.insert_named_front.
    exact (holds_insert_type_front Name.Via _ _ _ I Hh' eq_refl).
Qed.

(** The CSeq number a request arrives with *)
Lemma arrives_cseq (rq : Request Uri) (r : IncomingRequest) vals c : arrives rq r -> holds (rq_headers rq) vals ->
  vals Name.CSeq = [CSeq.print c] -> reads_back c -> request_cseq r = CSeq.cseq c.
Proof.
  intros (_ & Hv & base & He & _ & _ & _ & Ec) Hh Hc Hr. apply extract_from_get in He as (_ & _ & _ & Gc).
  assert (Headers.get (H := CSeq.t) Name.CSeq (ir_headers r) = Ok c) as Hg.
  { apply (get_values _ _ [CSeq.print c]); [|done|exact Hr]. rewrite Hv by (by apply is_carried).
    by rewrite (holds_values Name.CSeq _ _ Hh I). }
  unfold request_cseq. rewrite Ec. congruence.
Qed.

(** A session that has been refreshed cannot be ended. The refreshing INVITE
    takes the dialog's next CSeq number, and so does its ACK, which is then
    given the number of the INVITE; so the BYE comes with a number that skips
    one. When the three arrive in order at a peer that waits for the INVITE's
    number, its usages get the INVITE and the ACK, but the BYE goes into the
    backlog, as if a request before it were still to come. *)
Theorem bye_after_refresh_stuck random (d : Dialog) transport destination (e : DialogEntry) :
  let c := local_cseq d in
  (0 <= c)%Z -> (c + 2 < 2 ^ 32)%Z ->
  tti_transport (target_tp_info d) = Some (transport, destination) ->
  next_peer_cseq e = Some c -> backlog e = ∅ ->
  (forall m n, m ∈ [Method.INVITE; Method.ACK; Method.BYE] -> (c <= n <= c + 2)%Z ->
    reads_back {| CSeq.cseq := n; CSeq.method := m |}) ->
  exists invite ack bye,
    create_request Method.INVITE d = Ret (invite, set_cseq (c + 1) d) /\
    create_session_ack random c (set_cseq (c + 1) d) = Ret (Ok ack, set_cseq (c + 2) d) /\
    create_request Method.BYE (set_cseq (c + 2) d) = Ret (bye, set_cseq (wrap 32 (c + 3)) d) /\
    forall r1 r2 r3, arrives invite r1 -> arrives (oq_msg ack) r2 -> arrives bye r3 ->
      entry_run [r1; r2; r3] e =
        ([[r1]; [r2]; []],
         {| backlog := {[(c + 2)%Z := r3]}; next_peer_cseq := Some (c + 1)%Z; usages := usages e |}).
Proof.
  intros c Hc Hlt Ht Hn Hb Hr.
  destruct (create_request_spec contact_uri Hcontact Method.INVITE d) as (h1 & E1 & H1).
  rewrite wrap_id in E1 by (unfold uint; lia). fold c in E1.
  destruct (create_session_ack_spec random c (set_cseq (c + 1) d) transport destination) as (ack & E2 & _ & _ & H2);
    [done|apply Hr; [set_solver|cbn; lia]|].
  cbn [local_cseq set_cseq] in E2. rewrite wrap_id in E2 by (unfold uint; lia).
  destruct (create_request_spec contact_uri Hcontact Method.BYE (set_cseq (c + 2) d)) as (h3 & E3 & H3).
  cbn [local_cseq set_cseq] in E3.
  replace (c + 1 + 1)%Z with (c + 2)%Z in E2 by lia. replace (c + 2 + 1)%Z with (c + 3)%Z in E3 by lia.
  eexists _, ack, _. split; [exact E1|]. split; [exact E2|]. split; [exact E3|].
  intros r1 r2 r3 A1 A2 A3.
  pose proof (arrives_cseq _ r1 _ {| CSeq.cseq := c; CSeq.method := Method.INVITE |} A1 H1 eq_refl ltac:(apply Hr; [set_solver|lia])) as C1.
  pose proof (arrives_cseq _ r2 _ {| CSeq.cseq := c; CSeq.method := Method.ACK |} A2 H2 eq_refl ltac:(apply Hr; [set_solver|lia])) as C2.
  pose proof (arrives_cseq _ r3 _ {| CSeq.cseq := (c + 2)%Z; CSeq.method := Method.BYE |} A3 H3 eq_refl ltac:(apply Hr; [set_solver|lia])) as C3.
  cbn in C1, C2, C3. rewrite entry_run_cons.
  rewrite entry_receive_spec by (rewrite Hb; apply lookup_empty).
  rewrite Hn. cbn [default from_option id]. rewrite C1.
  rewrite !(decide_False (P := (c < c)%Z)) by lia. rewrite (decide_True (P := c = c)) by done.
  rewrite wrap_id by (unfold uint; lia). rewrite entry_run_cons.
  rewrite entry_receive_spec by (cbn [backlog]; rewrite Hb; apply lookup_empty).
  cbn [next_peer_cseq default from_option id backlog usages]. rewrite C2.
  rewrite !(decide_False (P := (c + 1 < c)%Z)) by lia. rewrite (decide_False (P := c = (c + 1)%Z)) by lia.
  rewrite entry_run_cons.
  rewrite entry_receive_spec by (cbn [backlog]; rewrite Hb; apply lookup_empty).
  cbn [next_peer_cseq default from_option id backlog usages]. rewrite C3.
  rewrite !(decide_True (P := (c + 1 < c + 2)%Z)) by lia. rewrite (decide_False (P := (c + 2)%Z = (c + 1)%Z)) by lia.
  rewrite Hb. done.
Qed.
End refresh.

(** ** CANCEL, BYE and PRACK *)
Section handlers.
Context {Uri NameAddr Tp Contact Routing K M IoError : Type}.
#[local] Abbreviation IncomingRequest := (IncomingRequest Uri NameAddr Tp).
#[local] Abbreviation Usage := (IncomingRequest -> option IncomingRequest).
Context `{UM : UsageMap Usage K M}.
#[local] Abbreviation Dialog := (Dialog NameAddr Tp Contact Routing).
#[local] Abbreviation Inner := (Inner Dialog IncomingRequest).
#[local] Abbreviation World := (World (Uri := Uri) (NameAddr := NameAddr) (Tp := Tp) (Contact := Contact)
  (Routing := Routing) (M := M)).
Context `{DF : DecodeValues (FromTo.t NameAddr), EF : ExtendValues (FromTo.t NameAddr), !PrintsValues (FromTo.t NameAddr)}.
Context `{EV : ExtendValues Via.t, !PrintsValues Via.t, DecodeValues RAck.t}.
Context `{EC : ExtendValues Contact, NC : ConstNamed Contact, !PrintsValues Contact}.
Context (Hcontact : NAME Contact = Name.Contact).
Context (ip_from_str : str -> option IpAddr) (direction : Tp -> Direction).
Context (allowed supported : list CsvHeader.t) (Hallowed : allowed <> []) (Hsupported : supported <> []).
#[local] Abbreviation handle_cancel := (handle_cancel ip_from_str direction allowed supported).
#[local] Abbreviation usage_receive := (usage_receive ip_from_str direction allowed supported).
#[local] Abbreviation dialog_responding := (dialog_responding ip_from_str direction allowed supported).

(** A request that can be answered: not an ACK, with a Via and a To header that
    can be printed again, and with its registration *)
Definition answerable (r : IncomingRequest) (tsx : TsxRegistration) : Prop :=
  via (ir_base_headers r) <> [] /\ reads_back (to (ir_base_headers r)) /\ ir_tsx r = Some tsx.

Lemma dialog_responding_spec tsx tsx' r code (d : Dialog) : answerable r tsx' -> rl_method (ir_line r) <> Method.ACK ->
  exists response, dialog_responding tsx r code d = Ret (Ok (tsx, response)) /\
    sl_code (rs_line (os_msg response)) = code /\
    holds (rs_headers (os_msg response))
      (if decide (rl_method (ir_line r) = Method.INVITE \/ rl_method (ir_line r) = Method.SUBSCRIBE)
       then dialog_values allowed supported r code d else base_values (ir_base_headers r) (ir_headers r) code).
Proof.
  intros (Hv & Hto & _) Hm.
  destruct (dialog_response Hcontact ip_from_str direction allowed supported r code None d) as (response & E & Hc & Hh);
    try done.
  exists response. unfold SipInvite.dialog_responding. by rewrite E.
Qed.

Lemma drop_dialog_spec (d : Dialog) k (w : World) : key d = Ret k ->
  world_drop_dialog d w = Ret (with_dialogs (delete k (dialogs w)) w).
Proof. intros Hk. unfold world_drop_dialog, drop_dialog. by rewrite Hk. Qed.

Lemma endpoint_response_spec (r : IncomingRequest) tsx code : answerable r tsx -> rl_method (ir_line r) <> Method.ACK ->
  exists response, endpoint_response ip_from_str direction r code = Ret response /\
    sl_code (rs_line (os_msg response)) = code.
Proof.
  intros (Hv & _) Hm. unfold endpoint_response.
  destruct (create_response_total ip_from_str direction (ir_line r) (ir_base_headers r) (ir_headers r) (ir_tp_info r)
    code None Hm Hv) as (response & -> & Hc). eauto.
Qed.

Lemma server_tsx_spec (r : IncomingRequest) tsx : answerable r tsx ->
  rl_method (ir_line r) <> Method.ACK -> rl_method (ir_line r) <> Method.INVITE -> create_server_tsx r = Ret tsx.
Proof.
  intros (_ & _ & Ht) Ha Hi. unfold create_server_tsx, take_tsx_registration. rewrite decide_False by tauto.
  by rewrite Ht.
Qed.

(** Writing back a state that has not changed *)
Lemma unchanged_world n (inner : Inner) s (w : World) : inners w !! n = Some inner -> inner_state inner = s ->
  with_channels (channels_ w) (with_inner n (set_state s inner) w) = w.
Proof.
  intros Hi <-. destruct w, inner. unfold with_channels, with_inner, set_state. cbn in *. by rewrite insert_id.
Qed.

(** What a CANCEL does. One that matches no INVITE that is still handled (by
    its CSeq number and the branch of its key) is left to the endpoint, and
    changes nothing. One that matches an INVITE that has not been answered
    takes its transaction away from the acceptor, which is notified: the
    INVITE is answered with 487 and the CANCEL with 200, the session is
    cancelled and the dialog is gone. If the INVITE has been answered, or
    cancelled, the CANCEL alone is answered, with 200. In any case the INVITE
    cannot be cancelled again. *)
Theorem cancel_handled (cancel : IncomingRequest) (w : World) cancel_tsx :
  rl_method (ir_line cancel) = Method.CANCEL -> answerable cancel cancel_tsx ->
  let k := cancellable_key_of cancel in
  match n ← cancellables w !! k; inner ← inners w !! n; Some (n, inner) with
  | None => handle_cancel cancel w = Ret (false, Ok [], with_cancellables (delete k (cancellables w)) w)
  | Some (n, inner) =>
      match inner_state inner with
      | InviteState.UasProvisional dialog invite_tsx invite notify =>
          forall itsx dk, answerable invite itsx -> rl_method (ir_line invite) = Method.INVITE -> key dialog = Ret dk ->
          exists r487 r200 w', handle_cancel cancel w = Ret (true, Ok [(invite_tsx, r487); (cancel_tsx, r200)], w') /\
            sl_code (rs_line (os_msg r487)) = StatusCode.REQUEST_TERMINATED /\
            sl_code (rs_line (os_msg r200)) = StatusCode.OK /\
            notify ∈ notified (channels_ w') /\ inners w' = <[n := set_state InviteState.Cancelled inner]> (inners w) /\
            cancellables w' = delete k (cancellables w) /\ dialogs w' = delete dk (dialogs w)
      | s =>
          exists r200, handle_cancel cancel w =
            Ret (true, Ok [(cancel_tsx, r200)], with_cancellables (delete k (cancellables w)) w) /\
            sl_code (rs_line (os_msg r200)) = StatusCode.OK
      end
  end.
Proof.
  intros Hm Ha k. unfold SipInvite.handle_cancel. fold k.
  change (inners (with_cancellables _ w)) with (inners w).
  destruct (cancellables w !! k) as [n|] eqn:En; cbn [mbind option_bind]; [|done].
  destruct (inners w !! n) as [inner|] eqn:Ei; cbn [mbind option_bind]; [|done].
  rewrite (server_tsx_spec cancel cancel_tsx) by first [done|by rewrite Hm]. cbn [mbind exec_bind].
  destruct (endpoint_response_spec cancel cancel_tsx StatusCode.OK Ha) as (r200 & E200 & C200); [by rewrite Hm|].
  set (w1 := with_cancellables (delete k (cancellables w)) w).
  assert (forall s, inner_state inner = s ->
    with_channels (channels_ w) (with_inner n (set_state s inner) w1) = w1) as Hsame.
  { intros s Hs. by apply (unchanged_world n inner s w1). }
  destruct (inner_state inner) as [dialog invite_tsx invite notify| |sink|] eqn:Es; cbn [set_cancelled].
  - intros itsx dk Hi Hmi Hk. unfold both_responses.
    destruct (dialog_responding_spec invite_tsx itsx invite StatusCode.REQUEST_TERMINATED dialog Hi) as (r487 & E1 & C1 & _);
      [by rewrite Hmi|].
    destruct (dialog_responding_spec cancel_tsx cancel_tsx cancel StatusCode.OK dialog Ha) as (r & E2 & C2 & _);
      [by rewrite Hm|].
    rewrite E1. cbn [mbind exec_bind]. rewrite E2. cbn [mbind exec_bind].
    rewrite (drop_dialog_spec dialog dk) by done. cbn [mbind exec_bind].
    exists r487, r. eexists. split; [reflexivity|]. split; [done|]. split; [done|]. split; [cbn; set_solver|done].
  - rewrite E200. cbn [mbind exec_bind]. rewrite Hsame by done. eauto.
  - rewrite E200. cbn [mbind exec_bind]. rewrite Hsame by done. eauto.
  - rewrite E200. cbn [mbind exec_bind]. rewrite Hsame by done. eauto.
Qed.

(** The branch of a request that was sent with a key of its own *)
Lemma sent_branch (l : MessageLine Uri) (b : BaseHeaders NameAddr) tp_name sent_by (transport : Tp) random m hp more v k :
  head (via b) = Some v ->
  Via.params v = Via.params (create_via tp_name sent_by transport (TsxKey.client random m) hp) ++ more ->
  TsxKey.from_message_parts l b = Ret (Ok k) -> TsxKey.branch k = generate_branch random.
Proof.
  intros Hv Hp Hk. rewrite (from_message_parts_spec l b v Hv) in Hk. cbv zeta in Hk.
  assert (top_branch b = Some (generate_branch random)) as Hb by (unfold top_branch; rewrite Hv; cbn; by rewrite Hp).
  unfold magic in Hk. rewrite Hb in Hk. change (default [] (Some (generate_branch random))) with (generate_branch random) in Hk.
  unfold generate_branch at 1 in Hk. rewrite starts_with_app in Hk. by injection Hk as <-.
Qed.

(** The CANCEL of an initiator never cancels. It is sent like any request, in a
    transaction with a branch of its own, while the acceptor knows the INVITE
    by the INVITE's branch; so unless the random parts of the two branches
    are the same, no session of the acceptor's endpoint matches, and the
    CANCEL is left to the endpoint, which refuses it. *)
Theorem initiator_cancel_unmatched (cancel : IncomingRequest) (l : MessageLine Uri) (w : World)
    tp_name sent_by (transport : Tp) random hp more v :
  head (via (ir_base_headers cancel)) = Some v ->
  Via.params v = Via.params (create_via tp_name sent_by transport (TsxKey.client random Method.CANCEL) hp) ++ more ->
  TsxKey.from_message_parts l (ir_base_headers cancel) = Ret (Ok (ir_tsx_key cancel)) ->
  (forall k n, cancellables w !! k = Some n ->
    exists random', CancellableKey.branch k = generate_branch random' /\ random' <> random) ->
  handle_cancel cancel w = Ret (false, Ok [], w).
Proof.
  intros Hv Hp Hk Hw. pose proof (sent_branch _ _ _ _ _ _ _ _ _ _ _ Hv Hp Hk) as Hb.
  unfold SipInvite.handle_cancel.
  assert (cancellables w !! cancellable_key_of cancel = None) as Hn.
  { destruct (cancellables w !! cancellable_key_of cancel) as [n|] eqn:E; [|done]. exfalso.
    destruct (Hw _ _ E) as (random' & Hr & Hne). apply Hne. cbn [CancellableKey.branch cancellable_key_of] in Hr.
    rewrite Hb in Hr. unfold generate_branch in Hr. by apply app_inv_head in Hr. }
  rewrite Hn. cbn [mbind option_bind]. rewrite delete_id by done. by destruct w.
Qed.

(** A BYE for an INVITE that has not been answered ends the session: the
    acceptor is notified, the INVITE gets 487, the dialog is gone. But the 200
    that is sent in the transaction of the BYE is made for the INVITE: it has
    the INVITE's Via and CSeq, so its key is not the one of the BYE's
    transaction, and the peer's BYE is never answered. *)
Theorem early_bye_unanswered (bye invite : IncomingRequest) n (inner : Inner) (w : World) dialog invite_tsx bye_tsx itsx notify dk :
  rl_method (ir_line bye) = Method.BYE -> answerable bye bye_tsx ->
  inner_state inner = InviteState.UasProvisional dialog invite_tsx invite notify ->
  answerable invite itsx -> rl_method (ir_line invite) = Method.INVITE -> key dialog = Ret dk ->
  exists r487 r200 w', usage_receive bye n inner w = Ret (true, Ok [(invite_tsx, r487); (bye_tsx, r200)], w') /\
    sl_code (rs_line (os_msg r487)) = StatusCode.REQUEST_TERMINATED /\
    sl_code (rs_line (os_msg r200)) = StatusCode.OK /\
    notify ∈ notified (channels_ w') /\ inners w' = <[n := set_state InviteState.Terminated inner]> (inners w) /\
    dialogs w' = delete dk (dialogs w) /\
    all_values Name.Via (rs_headers (os_msg r200)) = multiple_values (via (ir_base_headers invite)) /\
    all_values Name.CSeq (rs_headers (os_msg r200)) = [CSeq.print (cseq_ (ir_base_headers invite))] /\
    forall (l : StatusLine) (b : BaseHeaders NameAddr) k random, CSeq.method (cseq_ b) = Method.INVITE ->
      TsxKey.from_message_parts (Uri := Uri) (ResponseL l) b = Ret (Ok k) -> k <> TsxKey.client random Method.BYE.
Proof.
  intros Hm Ha Hs Hi Hmi Hk. unfold SipInvite.usage_receive. rewrite Hm, Hs. cbn [set_terminated].
  unfold handle_bye_in_provisional_state, both_responses.
  destruct (dialog_responding_spec invite_tsx itsx invite StatusCode.REQUEST_TERMINATED dialog Hi) as (r487 & E1 & C1 & _);
    [by rewrite Hmi|].
  destruct (dialog_responding_spec bye_tsx itsx invite StatusCode.OK dialog Hi) as (r200 & E2 & C2 & Hh);
    [by rewrite Hmi|].
  unfold SipInvite.dialog_responding in E2.
  destruct (create_dialog_response ip_from_str direction allowed supported invite StatusCode.OK None dialog) as [r|] eqn:Er;
    [|discriminate E2]. cbn [mbind exec_bind] in E2. injection E2 as E2. destruct r as [r|]; [|discriminate E2].
  injection E2 as ->. cbn [mbind exec_bind].
  rewrite (server_tsx_spec bye bye_tsx) by first [done|by rewrite Hm]. cbn [mbind exec_bind].
  rewrite E1. cbn [mbind exec_bind]. rewrite (drop_dialog_spec dialog dk) by done. cbn [mbind exec_bind].
  rewrite Hmi, decide_True in Hh by (by left).
  exists r487, r200. eexists. split; [reflexivity|]. split; [done|]. split; [done|]. split; [cbn; set_solver|].
  split; [done|]. split; [done|]. split; [by rewrite (holds_values Name.Via _ _ Hh I)|].
  split; [by rewrite (holds_values Name.CSeq _ _ Hh I)|].
  intros l b k random Hc Hkey ->. destruct (head (via b)) as [v|] eqn:Hv.
  - rewrite (from_message_parts_spec _ _ _ Hv), Hc in Hkey. cbv zeta in Hkey. destruct (magic b).
    + discriminate Hkey.
    + by destruct (FromTo.tag (from_ b)).
  - cbn in Hkey. unfold TsxKey.from_headers in Hkey. by rewrite Hv in Hkey.
Qed.

(** A PRACK that cannot be read crashes the acceptor. The usage has by then
    taken away what waits for the PRACK, and returns with the error: the
    channel is closed, and the task that waits for the PRACK, within its 4.5
    seconds, panics. *)
Theorem malformed_prack_panics (prack : IncomingRequest) n (inner : Inner) (w : World) awaited err
    (send : Z -> list byte -> SocketAddr -> result IoError Z) (response : OutgoingResponse Tp)
    (env : Env (Uri := Uri) (NameAddr := NameAddr) (Tp := Tp)) bytes a :
  rl_method (ir_line prack) = Method.PRACK -> peer_supports_100rel inner = true ->
  awaited_prack inner = Some awaited -> Headers.get_named RAck.t (ir_headers prack) = Err err ->
  oneshots (channels_ w) !! prack_sender awaited = Some Pending ->
  (forall t bytes destination, send t bytes destination = Ok t) ->
  StatusCode.kind (sl_code (rs_line (os_msg response))) = StatusCode.Provisional ->
  prepare_response response = Ret (response, bytes) -> (a <= now env + 4500)%Z ->
  exists w', usage_receive prack n inner w = Ret (false, Err err, w') /\
    oneshots (channels_ w') !! prack_sender awaited = Some SenderDropped /\
    inners w' = <[n := set_awaited_prack None inner]> (inners w) /\
    reliable_wait send response (Some (a, None)) env = Panic.
Proof.
  intros Hm Hp Ha He Hc Hsend Hk Hr Hle. unfold SipInvite.usage_receive. rewrite Hm, Hp. unfold SipInvite.handle_prack.
  rewrite Ha, He. eexists. split; [reflexivity|]. split.
  { cbn. unfold oneshot_drop. rewrite Hc. cbn. by rewrite lookup_insert_eq. }
  split; [done|]. rewrite (reliable_schedule send Hsend response _ env bytes) by done. by rewrite decide_True.
Qed.
End handlers.

(** ** An INVITE is answered once *)
#[export] Instance registration_eq_dec : EqDecision TsxRegistration.
Proof. solve_decision. Defined.

Section answered.
Context {Uri NameAddr Tp Contact Routing K M IoError : Type}.
#[local] Abbreviation IncomingRequest := (IncomingRequest Uri NameAddr Tp).
#[local] Abbreviation Usage := (IncomingRequest -> option IncomingRequest).
Context `{UM : UsageMap Usage K M}.
#[local] Abbreviation Dialog := (Dialog NameAddr Tp Contact Routing).
#[local] Abbreviation Inner := (Inner Dialog IncomingRequest).
#[local] Abbreviation World := (World (Uri := Uri) (NameAddr := NameAddr) (Tp := Tp) (Contact := Contact)
  (Routing := Routing) (M := M)).
Context `{DF : DecodeValues (FromTo.t NameAddr), EF : ExtendValues (FromTo.t NameAddr), !PrintsValues (FromTo.t NameAddr)}.
Context `{EV : ExtendValues Via.t, !PrintsValues Via.t, DRA : DecodeValues RAck.t}.
Context `{EC : ExtendValues Contact, NC : ConstNamed Contact, !PrintsValues Contact}.
Context (Hcontact : NAME Contact = Name.Contact).
Context (ip_from_str : str -> option IpAddr) (direction : Tp -> Direction).
Context (allowed supported : list CsvHeader.t) (Hallowed : allowed <> []) (Hsupported : supported <> []).
Context (send : Z -> list byte -> SocketAddr -> result IoError Z).
#[local] Abbreviation handle_cancel := (handle_cancel ip_from_str direction allowed supported).
#[local] Abbreviation usage_receive := (usage_receive ip_from_str direction allowed supported).

(** An INVITE and its transaction *)
Context (invite : IncomingRequest) (tsx : TsxRegistration).

Definition pending_tsx (i : Inner) : option TsxRegistration :=
  match inner_state i with InviteState.UasProvisional _ t _ _ => Some t | _ => None end.

(** A response belongs to a request, for a peer, when it has its Via and CSeq. *)
Definition response_for (r : IncomingRequest) (h : Headers.t) : Prop :=
  all_values Name.Via h = multiple_values (via (ir_base_headers r)) /\
  all_values Name.CSeq h = [CSeq.print (cseq_ (ir_base_headers r))].
#[export] Instance response_for_dec r h : Decision (response_for r h).
Proof. unfold response_for. apply _. Defined.
Definition same_request (r r' : IncomingRequest) : Prop :=
  multiple_values (via (ir_base_headers r)) = multiple_values (via (ir_base_headers r')) /\
  CSeq.print (cseq_ (ir_base_headers r)) = CSeq.print (cseq_ (ir_base_headers r')).
(** A request that can be answered, and one that is not the INVITE *)
Definition readable (r : IncomingRequest) : Prop := via (ir_base_headers r) <> [] /\ reads_back (to (ir_base_headers r)).
Definition other (r : IncomingRequest) : Prop := readable r /\ ir_tsx r <> Some tsx /\ ~ same_request r invite.

(** The final responses: the transaction that sends each, and its headers *)
#[local] Abbreviation Finals := (list (TsxRegistration * Headers.t)).
Definition answered (rs : Responses (Tp := Tp)) : Finals :=
  match rs with Ok rs => (fun r => (r.1, rs_headers (os_msg r.2))) <$> rs | Err _ => [] end.

(** The response of the acceptor belongs to the INVITE of its session. *)
Definition made_for (inner : Inner) (response : OutgoingResponse Tp) : Prop :=
  forall d t r n, inner_state inner = InviteState.UasProvisional d t r n ->
    headers_wf (rs_headers (os_msg response)) /\ response_for r (rs_headers (os_msg response)).

(** A BYE that comes before the INVITE has been answered *)
Definition early_bye (request : IncomingRequest) (inner : Inner) : nat :=
  if decide (rl_method (ir_line request) = Method.BYE /\ pending_tsx inner = Some tsx) then 1 else 0.

(** The steps of an endpoint that has INVITE sessions, with the final responses
    and the early BYEs: a CANCEL; a request of a dialog that has a session;
    the acceptor's success or failure; a new acceptor. The other requests have
    other transactions, and another Via or CSeq: a CANCEL and an ACK have the
    Via of the INVITE, and differ in the method of the CSeq. *)
Inductive invite_step : World -> Finals -> nat -> World -> Prop :=
| InvCancel w cancel b rs w' : other cancel -> rl_method (ir_line cancel) = Method.CANCEL ->
    handle_cancel cancel w = Ret (b, rs, w') -> invite_step w (answered rs) 0 w'
| InvUsage w request n inner b rs w' : inners w !! n = Some inner -> other request ->
    usage_receive request n inner w = Ret (b, rs, w') -> invite_step w (answered rs) (early_bye request inner) w'
| InvSuccess w evt_sink ack_sink response (a : InviteAcceptor (K := K)) inner env r w' env' :
    inners w !! inner_id a = Some inner -> made_for inner response ->
    success_begin send evt_sink ack_sink response a inner w env = Ret (r, w', env') ->
    invite_step w (match r with Ok (sent, t, _, _) => [(t, rs_headers (os_msg sent))] | Err _ => [] end) 0 w'
| InvFailure w response (a : InviteAcceptor (K := K)) inner env r w' env' :
    inners w !! inner_id a = Some inner -> made_for inner response ->
    acceptor_respond_failure send response a inner w env = Ret (r, w', env') ->
    invite_step w (match pending_tsx inner with Some t => [(t, rs_headers (os_msg response))] | None => [] end) 0 w'
| InvNew w n notify usage dialog request (a : InviteAcceptor (K := K)) w' : inners w !! n = None ->
    other request -> acceptor_new n notify usage dialog request w = Ret (a, w') -> invite_step w [] 0 w'.

Inductive invite_run : World -> Finals -> nat -> World -> Prop :=
| RunNil w : invite_run w [] 0 w
| RunStep w out byes w' outs byes' w'' :
    invite_step w out byes w' -> invite_run w' outs byes' w'' -> invite_run w (out ++ outs) (byes + byes') w''.

(** How often the transaction answers, and how many final responses belong to
    the INVITE *)
Definition times_answered (out : Finals) : nat := length (filter (fun t => t.1 = tsx) out).
Definition finals_for_invite (out : Finals) : nat := length (filter (fun t => response_for invite t.2) out).

(** What a step does to the sessions *)
Inductive session_effect (w w' : World) (out : Finals) : Prop :=
| EffNone : inners w' = inners w -> times_answered out = 0 -> session_effect w w' out
| EffKeep n i i' : inners w !! n = Some i -> inners w' = <[n := i']> (inners w) -> inner_state i' = inner_state i ->
    times_answered out = 0 -> session_effect w w' out
| EffTake n i i' : inners w !! n = Some i -> inners w' = <[n := i']> (inners w) -> pending_tsx i' = None ->
    times_answered out <= (if decide (pending_tsx i = Some tsx) then 1 else 0) -> session_effect w w' out
| EffNew n i' : inners w !! n = None -> inners w' = <[n := i']> (inners w) ->
    (forall d t r k, inner_state i' = InviteState.UasProvisional d t r k ->
       t <> tsx /\ rl_method (ir_line r) = Method.INVITE /\ other r) ->
    times_answered out = 0 -> session_effect w w' out.

Lemma times_answered_other t h : t <> tsx -> times_answered [(t, h)] = 0.
Proof. intros Ht. unfold times_answered. by rewrite filter_cons_False. Qed.

Lemma times_answered_pair t t' h h' : t' <> tsx -> times_answered [(t, h); (t', h')] <= if decide (t = tsx) then 1 else 0.
Proof.
  intros Ht. unfold times_answered. rewrite filter_cons. cbn [fst]. repeat case_decide; rewrite filter_cons_False by done; done || (cbn; lia).
Qed.

Lemma create_server_tsx_inv (r : IncomingRequest) t : create_server_tsx r = Ret t -> ir_tsx r = Some t.
Proof. unfold create_server_tsx, take_tsx_registration. case_decide; [done|]. by rewrite unwrap_Ret. Qed.

Lemma both_responses_inv t (r0 : IncomingRequest) code (d : Dialog) second rs :
  both_responses (dialog_responding ip_from_str direction allowed supported t r0 code d) second = Ret rs ->
  (forall t' r, second = Ret (Ok (t', r)) -> t' <> tsx) ->
  times_answered (answered rs) <= if decide (t = tsx) then 1 else 0.
Proof.
  unfold both_responses. intros H Hsec. apply exec_bind_Ret_inv in H as (r1 & H1 & H).
  unfold SipInvite.dialog_responding in H1. apply exec_bind_Ret_inv in H1 as (r & _ & H1). injection H1 as <-.
  destruct r as [r|e]; [|injection H as <-; cbn; lia]. cbn [mbind result_bind] in H.
  apply exec_bind_Ret_inv in H as (r2 & H2 & H). destruct r2 as [[t' r2]|e]; injection H as <-; [|cbn; lia].
  apply times_answered_pair. by eapply Hsec.
Qed.

Lemma handle_cancel_effect w cancel b rs w' : ir_tsx cancel <> Some tsx ->
  handle_cancel cancel w = Ret (b, rs, w') -> session_effect w w' (answered rs).
Proof.
  intros Hc H. unfold SipInvite.handle_cancel in H.
  change (inners (with_cancellables _ w)) with (inners w) in H.
  destruct (cancellables w !! cancellable_key_of cancel) as [n|]; cbn [mbind option_bind] in H;
    [|injection H as <- <- <-; by apply EffNone].
  destruct (inners w !! n) as [inner|] eqn:Ei; cbn [mbind option_bind] in H; [|injection H as <- <- <-; by apply EffNone].
  apply exec_bind_Ret_inv in H as (t & Ht%create_server_tsx_inv & H).
  assert (t <> tsx) as Hne by congruence.
  destruct (inner_state inner) as [dialog invite_tsx invite0 notify| |sink|] eqn:Es; cbn [set_cancelled] in H.
  - apply exec_bind_Ret_inv in H as (rs' & Hb & H). apply exec_bind_Ret_inv in H as (w1 & Hd & H). injection H as <- <- <-.
    unfold world_drop_dialog in Hd. apply exec_bind_Ret_inv in Hd as (ds & _ & Hd). injection Hd as <-.
    apply both_responses_inv in Hb.
    + eapply (EffTake _ _ _ n inner); [done|reflexivity|done|]. unfold pending_tsx. rewrite Es.
      repeat case_decide; congruence || lia.
    + intros t' r Hr. unfold SipInvite.dialog_responding in Hr. apply exec_bind_Ret_inv in Hr as (x & _ & Hr).
      destruct x; [|done]. by injection Hr as <- _.
  - apply exec_bind_Ret_inv in H as (r & _ & H). injection H as <- <- <-.
    eapply (EffKeep _ _ _ n inner); [done|reflexivity|cbn; by rewrite Es|by apply times_answered_other].
  - apply exec_bind_Ret_inv in H as (r & _ & H). injection H as <- <- <-.
    eapply (EffKeep _ _ _ n inner); [done|reflexivity|cbn; by rewrite Es|by apply times_answered_other].
  - apply exec_bind_Ret_inv in H as (r & _ & H). injection H as <- <- <-.
    eapply (EffKeep _ _ _ n inner); [done|reflexivity|cbn; by rewrite Es|by apply times_answered_other].
Qed.

Lemma handle_prack_effect w prack n inner b rs w' : inners w !! n = Some inner -> ir_tsx prack <> Some tsx ->
  handle_prack ip_from_str direction prack n inner w = Ret (b, rs, w') -> session_effect w w' (answered rs).
Proof.
  intros Hi Hp H. unfold handle_prack in H.
  destruct (awaited_prack inner) as [awaited|]; [|injection H as <- <- <-; by apply EffNone].
  destruct (Headers.get_named RAck.t (ir_headers prack)) as [rack|e].
  - destruct (_ && _); [|injection H as <- <- <-; by apply EffNone].
    apply exec_bind_Ret_inv in H as (t & Ht%create_server_tsx_inv & H). apply exec_bind_Ret_inv in H as (r & _ & H).
    destruct (oneshot_send _ _ _) as [back ch]. injection H as <- <- <-.
    eapply (EffKeep _ _ _ n inner); [done|reflexivity|done|]. apply times_answered_other. cbn. congruence.
  - injection H as <- <- <-. by eapply (EffKeep _ _ _ n inner).
Qed.

Lemma usage_receive_effect w request n inner b rs w' : inners w !! n = Some inner -> ir_tsx request <> Some tsx ->
  usage_receive request n inner w = Ret (b, rs, w') -> session_effect w w' (answered rs).
Proof.
  intros Hi Hr H. unfold SipInvite.usage_receive in H.
  destruct (rl_method (ir_line request)); try (injection H as <- <- <-; by apply EffNone).
  - destruct (inner_state inner); try (injection H as <- <- <-; by apply EffNone).
    destruct (event_send _ _ _) as [back ch]. injection H as <- <- <-. by apply EffNone.
  - destruct (awaited_ack inner) as [awaited|]; [|injection H as <- <- <-; by apply EffNone].
    case_decide; [|injection H as <- <- <-; by apply EffNone].
    destruct (oneshot_send _ _ _) as [back ch]. injection H as <- <- <-. by eapply (EffKeep _ _ _ n inner).
  - destruct (inner_state inner) as [dialog t invite0 notify| |sink|] eqn:Es; cbn [set_terminated] in H.
    + apply exec_bind_Ret_inv in H as (rs' & Hb & H). apply exec_bind_Ret_inv in H as (w1 & Hd & H). injection H as <- <- <-.
      unfold world_drop_dialog in Hd. apply exec_bind_Ret_inv in Hd as (ds & _ & Hd). injection Hd as <-.
      eapply (EffTake _ _ _ n inner); [done|reflexivity|done|]. unfold pending_tsx. rewrite Es.
      unfold handle_bye_in_provisional_state in Hb. apply exec_bind_Ret_inv in Hb as (r1 & _ & Hb).
      destruct r1 as [r1|e]; [|injection Hb as <-; cbn; lia].
      apply exec_bind_Ret_inv in Hb as (t' & Ht%create_server_tsx_inv & Hb). apply both_responses_inv in Hb.
      * repeat case_decide; congruence || lia.
      * intros t'' r [= <- _]. congruence.
    + injection H as <- <- <-. eapply (EffTake _ _ _ n inner); [done|reflexivity|done|cbn; lia].
    + destruct (event_send _ _ _) as [back ch]. injection H as <- <- <-.
      eapply (EffTake _ _ _ n inner); [done|reflexivity|done|cbn; lia].
    + injection H as <- <- <-. eapply (EffTake _ _ _ n inner); [done|reflexivity|done|cbn; lia].
  - destruct (peer_supports_100rel inner); [|injection H as <- <- <-; by apply EffNone].
    by eapply handle_prack_effect.
Qed.

Lemma drop_acceptor_inners (a : InviteAcceptor (K := K)) (w : World) : inners (drop_acceptor a w) = inners w.
Proof. unfold drop_acceptor. by destruct (usage_guard a) as [[k u]|]. Qed.

Lemma times_answered_one t h : times_answered [(t, h)] <= if decide (t = tsx) then 1 else 0.
Proof. unfold times_answered. rewrite filter_cons. cbn [fst]. repeat case_decide; done || (cbn; lia). Qed.

Lemma success_begin_effect w evt_sink ack_sink response (a : InviteAcceptor (K := K)) inner env r w' env' :
  inners w !! inner_id a = Some inner ->
  success_begin send evt_sink ack_sink response a inner w env = Ret (r, w', env') ->
  session_effect w w' (match r with Ok (sent, t, _, _) => [(t, rs_headers (os_msg sent))] | Err _ => [] end).
Proof.
  intros Hi H. unfold success_begin in H.
  destruct (inner_state inner) as [dialog t invite0 notify| |sink|] eqn:Es; cbn [set_established] in H.
  - destruct (if peer_supports_timer _ then _ else _) as [timer h].
    apply exec_bind_Ret_inv in H as ([[accepted ts] env1] & _ & H). destruct accepted as [accepted|e].
    + injection H as <- <- <-. eapply (EffTake _ _ _ (inner_id a) inner); [done|reflexivity|done|].
      unfold pending_tsx. rewrite Es. etransitivity; [apply times_answered_one|].
      repeat case_decide; congruence || lia.
    + apply exec_bind_Ret_inv in H as (w1 & Hd & H). injection H as <- <- <-.
      unfold world_drop_dialog in Hd. apply exec_bind_Ret_inv in Hd as (ds & _ & Hd). injection Hd as <-.
      eapply (EffTake _ _ _ (inner_id a) inner); [done|by rewrite drop_acceptor_inners|done|cbn; lia].
  - injection H as <- <- <-.
    eapply (EffKeep _ _ _ (inner_id a) inner); [done|by rewrite drop_acceptor_inners|cbn; by rewrite Es|done].
  - injection H as <- <- <-.
    eapply (EffKeep _ _ _ (inner_id a) inner); [done|by rewrite drop_acceptor_inners|cbn; by rewrite Es|done].
  - injection H as <- <- <-.
    eapply (EffKeep _ _ _ (inner_id a) inner); [done|by rewrite drop_acceptor_inners|cbn; by rewrite Es|done].
Qed.

Lemma respond_failure_effect w response (a : InviteAcceptor (K := K)) inner env r w' env' :
  inners w !! inner_id a = Some inner ->
  acceptor_respond_failure send response a inner w env = Ret (r, w', env') ->
  session_effect w w' (match pending_tsx inner with Some t => [(t, rs_headers (os_msg response))] | None => [] end).
Proof.
  intros Hi H. unfold acceptor_respond_failure in H. unfold pending_tsx at 1.
  destruct (inner_state inner) as [dialog t invite0 notify| |sink|] eqn:Es; cbn [set_cancelled] in H.
  - apply exec_bind_Ret_inv in H as ([r1 env1] & _ & H). apply exec_bind_Ret_inv in H as (w1 & Hd & H). injection H as <- <- <-.
    unfold world_drop_dialog in Hd. apply exec_bind_Ret_inv in Hd as (ds & _ & Hd). injection Hd as <-.
    eapply (EffTake _ _ _ (inner_id a) inner); [done|by rewrite drop_acceptor_inners|done|].
    unfold pending_tsx. rewrite Es. etransitivity; [apply times_answered_one|]. repeat case_decide; congruence || lia.
  - injection H as <- <- <-.
    eapply (EffKeep _ _ _ (inner_id a) inner); [done|by rewrite drop_acceptor_inners|cbn; by rewrite Es|done].
  - injection H as <- <- <-.
    eapply (EffKeep _ _ _ (inner_id a) inner); [done|by rewrite drop_acceptor_inners|cbn; by rewrite Es|done].
  - injection H as <- <- <-.
    eapply (EffKeep _ _ _ (inner_id a) inner); [done|by rewrite drop_acceptor_inners|cbn; by rewrite Es|done].
Qed.

Lemma acceptor_new_effect w n notify usage dialog request (a : InviteAcceptor (K := K)) w' : inners w !! n = None ->
  other request -> acceptor_new n notify usage dialog request w = Ret (a, w') -> session_effect w w' [].
Proof.
  intros Hn Ht H. unfold acceptor_new in H. case_decide; [|done].
  apply exec_bind_Ret_inv in H as (k & _ & H). apply exec_bind_Ret_inv in H as (t & Htsx & H).
  destruct (register_usage k usage (dialogs w)) as [guard ds].
  apply exec_bind_Ret_inv in H as (g & _ & H). injection H as <- <-.
  eapply (EffNew _ _ _ n); [done|reflexivity| |done]. intros d t' r k' [= _ <- <- _]. split; [|done].
  unfold create_server_inv_tsx, take_tsx_registration in Htsx. case_decide; [|done].
  apply unwrap_Ret in Htsx. destruct Ht as (_ & Hne & _). congruence.
Qed.

(** At most one session has the transaction. *)
Definition owned (w : World) (n : nat) : Prop := exists i, inners w !! n = Some i /\ pending_tsx i = Some tsx.
Definition one_owner (w : World) : Prop := forall n n', owned w n -> owned w n' -> n = n'.

Lemma effect_owner w w' out : session_effect w w' out -> one_owner w ->
  one_owner w' /\
  (times_answered out = 0 /\ (forall n, owned w' n -> owned w n) \/
   times_answered out = 1 /\ (exists n, owned w n) /\ forall n, ~ owned w' n).
Proof.
  intros He Ho. assert (forall n i', inners w' = <[n := i']> (inners w) -> forall m, owned w' m ->
    (m = n /\ pending_tsx i' = Some tsx) \/ m <> n /\ owned w m) as Hown.
  { intros n i' E m (i & Hi & Hp). rewrite E in Hi. apply lookup_insert_Some in Hi as [[<- <-]|[Hne Hi]]; [by left|].
    right. split; [done|]. by exists i. }
  destruct He as [E H0|n i i' Hi E Hp H0|n i i' Hi E Hp Hle|n i' Hn E Hp H0].
  - unfold one_owner, owned in *. rewrite E. split; [done|]. left. done.
  - assert (forall m, owned w' m -> owned w m) as Hsub.
    { intros m [[-> Hq]|[_ Hm]]%(Hown n i' E); [|done]. exists i. split; [done|]. unfold pending_tsx in *. by rewrite <-Hp. }
    split; [|by left]. intros m m' Hm Hm'. by apply Ho; apply Hsub.
  - assert (forall m, owned w' m -> m <> n /\ owned w m) as Hsub.
    { intros m [[-> Hq]|Hm]%(Hown n i' E); [congruence|done]. }
    split; [intros m m' Hm Hm'; by apply Ho; apply Hsub|].
    destruct (decide (times_answered out = 0)) as [H0|H1]; [left; split; [done|]; intros m Hm; by apply Hsub|].
    case_decide as Hq; [|lia]. right. split; [lia|]. assert (owned w n) as Hon by (by exists i).
    split; [by exists n|]. intros m Hm. apply Hsub in Hm as [Hne Hm]. by apply Hne, Ho.
  - assert (forall m, owned w' m -> owned w m) as Hsub.
    { intros m [[-> Hq]|[_ Hm]]%(Hown n i' E); [|done]. unfold pending_tsx in Hq.
      destruct (inner_state i') as [d t r k| | |] eqn:Es; [|done..]. destruct (Hp _ _ _ _ eq_refl). congruence. }
    split; [|by left]. intros m m' Hm Hm'. by apply Ho; apply Hsub.
Qed.

Lemma invite_step_effect w out byes w' : invite_step w out byes w' -> session_effect w w' out.
Proof.
  intros [w0 cancel b rs w1 (_ & Hc & _) _ H|w0 request n inner b rs w1 Hi (_ & Hr & _) H|w0 evt ack response a inner env r w1 env1 Hi _ H
         |w0 response a inner env r w1 env1 Hi _ H|w0 n notify usage dialog request a w1 Hn Ht H].
  - by eapply handle_cancel_effect.
  - by eapply usage_receive_effect.
  - by eapply success_begin_effect.
  - by eapply respond_failure_effect.
  - by eapply acceptor_new_effect.
Qed.

(** *** Whom the responses belong to *)

(** The sessions that wait for an answer: of the INVITE just the one with its
    transaction *)
Definition sorted (w : World) : Prop :=
  forall n i d t r k, inners w !! n = Some i -> inner_state i = InviteState.UasProvisional d t r k ->
    rl_method (ir_line r) = Method.INVITE /\ readable r /\ (t = tsx <-> same_request r invite).

Lemma effect_sorted w w' out : session_effect w w' out -> sorted w -> sorted w'.
Proof.
  intros He Hs m j d t r k. destruct He as [E _|n i i' Hi E Hp _|n i i' Hi E Hp _|n i' Hn E Hp _]; rewrite E.
  - by apply Hs.
  - intros [[<- <-]|[_ Hj]]%lookup_insert_Some Hst; [rewrite Hp in Hst|]; by eapply Hs.
  - intros [[<- <-]|[_ Hj]]%lookup_insert_Some Hst; [|by eapply Hs]. unfold pending_tsx in Hp. by rewrite Hst in Hp.
  - intros [[<- <-]|[_ Hj]]%lookup_insert_Some Hst; [|by eapply Hs].
    destruct (Hp _ _ _ _ Hst) as (? & ? & ? & _ & ?). tauto.
Qed.

Lemma response_for_same r h : response_for r h -> response_for invite h <-> same_request r invite.
Proof. unfold response_for, same_request. intros [-> ->]. split; [by intros [-> [= ->]]|by intros [-> ->]]. Qed.

(** A response that belongs to the INVITE just when the transaction sends it *)
Definition fair (e : TsxRegistration * Headers.t) : Prop := e.1 = tsx <-> response_for invite e.2.
Lemma fair_session w n i d t r k h : sorted w -> inners w !! n = Some i -> inner_state i = InviteState.UasProvisional d t r k ->
  response_for r h -> fair (t, h).
Proof. intros Hs Hi Hst Hr. destruct (Hs _ _ _ _ _ _ Hi Hst) as (_ & _ & Ht). unfold fair. cbn. by rewrite (response_for_same r). Qed.
Lemma fair_other t r h : other r -> ir_tsx r = Some t -> response_for r h -> fair (t, h).
Proof.
  intros (_ & Hne & Hnot) Ht Hr. unfold fair. cbn. rewrite (response_for_same r) by done.
  split; [intros ->; by rewrite Ht in Hne|done].
Qed.
Lemma fair_count out : Forall fair out -> finals_for_invite out = times_answered out.
Proof.
  unfold finals_for_invite, times_answered. induction 1 as [|e out He _ IH]; [done|]. rewrite !filter_cons. unfold fair in He.
  destruct (decide (e.1 = tsx)); [rewrite decide_True by tauto|rewrite decide_False by tauto]; cbn; by rewrite ?IH.
Qed.

Lemma dialog_responding_for t r code (d : Dialog) : readable r -> rl_method (ir_line r) <> Method.ACK ->
  exists response, dialog_responding ip_from_str direction allowed supported t r code d = Ret (Ok (t, response)) /\
    response_for r (rs_headers (os_msg response)).
Proof using Hcontact Hallowed Hsupported PrintsValues0 PrintsValues1 PrintsValues2.
  intros [Hv Hto] Hm.
  destruct (dialog_response Hcontact ip_from_str direction allowed supported r code None d) as (response & E & _ & Hh); try done.
  exists response. unfold SipInvite.dialog_responding. rewrite E. split; [done|].
  split; rewrite (holds_values _ _ _ Hh) by done; by case_decide.
Qed.
Lemma endpoint_response_for r code response : readable r -> rl_method (ir_line r) <> Method.ACK ->
  endpoint_response ip_from_str direction r code = Ret response -> response_for r (rs_headers (os_msg response)).
Proof using PrintsValues0 PrintsValues1.
  intros [Hv _] Hm. unfold endpoint_response.
  destruct (create_response_holds ip_from_str direction (ir_line r) (ir_base_headers r) (ir_headers r) (ir_tp_info r) code None
              Hm Hv) as (response' & -> & _ & _ & Hh).
  intros [= <-]. split; by rewrite (holds_values _ _ _ Hh) by done.
Qed.

(** The acceptor adds headers to the success, not a Via or a CSeq. *)
Definition keeps (h h' : Headers.t) : Prop :=
  headers_wf h -> headers_wf h' /\ all_values Name.Via h' = all_values Name.Via h /\ all_values Name.CSeq h' = all_values Name.CSeq h.
Lemma keeps_insert_type {H} `{PrintsValues H} n (c : H) h h' : parsed_name n ->
  canonical n <> Name.Via -> canonical n <> Name.CSeq -> keeps h h' -> keeps h (Headers.insert_type n c h').
Proof.
  intros Hn Hvia Hcseq Hk Hwf. destruct (Hk Hwf) as (Hwf' & <- & <-).
  destruct (insert_type_put n c h' Hwf' Hn) as (Hwf2 & Ho & _). split; [done|]. by split; apply Ho.
Qed.
Lemma keeps_content_length h body : keeps h (with_content_length h body).
Proof.
  intros Hwf. unfold with_content_length. set (v := print_uint _).
  destruct (insert_spec Name.ContentLength v h _ Hwf I (or_introl eq_refl)) as (Hwf' & Ho).
  split; [done|]. by split; rewrite Ho.
Qed.

Lemma success_headers w evt_sink ack_sink response (a : InviteAcceptor (K := K)) inner env sent t timer d w' env' :
  made_for inner response ->
  success_begin send evt_sink ack_sink response a inner w env = Ret (Ok (sent, t, timer, d), w', env') ->
  exists r k, inner_state inner = InviteState.UasProvisional d t r k /\ response_for r (rs_headers (os_msg sent)).
Proof.
  intros Hm H. unfold success_begin in H.
  destruct (inner_state inner) as [d0 t0 r k| |sink|] eqn:Es; cbn [set_established] in H; [|discriminate H..].
  destruct (Hm _ _ _ _ Es) as [Hwf Hfor]. exists r, k.
  destruct (if peer_supports_timer _ then _ else _) as [timer0 h] eqn:Et.
  assert (keeps (rs_headers (os_msg response)) h) as Hh.
  { apply (f_equal snd) in Et. cbn [snd] in Et. subst h. destruct (peer_supports_timer _); [|done].
    unfold on_responding_success. destruct (ac_refresher _); by do 2 (apply keeps_insert_type; [done..|]). }
  apply exec_bind_Ret_inv in H as ([[accepted ts] env1] & Hr & H).
  destruct accepted as [accepted|e]; [|by apply exec_bind_Ret_inv in H as (? & _ & H)]. injection H as -> -> -> -> _ _.
  split; [done|]. unfold respond_success in Hr. case_decide; [|done].
  apply exec_bind_Ret_inv in Hr as (ts1 & _ & Hr). apply exec_bind_Ret_inv in Hr as ([[res sent'] env2] & Hsend & Hr).
  destruct res; [|done]. injection Hr as -> _ _. unfold send_outgoing_response in Hsend.
  apply exec_bind_Ret_inv in Hsend as ([m bytes] & Hp & Hsend). destruct (transport_send _ _ _ _). injection Hsend as _ -> _.
  assert (keeps h (rs_headers (os_msg sent))) as Hk.
  { unfold prepare_response in Hp. case_decide; [|by injection Hp as <- _].
    apply exec_bind_Ret_inv in Hp as (b & _ & Hp). injection Hp as <- _. apply keeps_content_length. }
  destruct (Hh Hwf) as (Hwf' & Ev & Ec). destruct (Hk Hwf') as (_ & Ev' & Ec'). unfold response_for in *.
  by rewrite Ev', Ev, Ec', Ec.
Qed.

Lemma handle_cancel_fair w cancel b rs w' : sorted w -> other cancel -> rl_method (ir_line cancel) = Method.CANCEL ->
  handle_cancel cancel w = Ret (b, rs, w') -> Forall fair (answered rs).
Proof using Hcontact Hallowed Hsupported PrintsValues0 PrintsValues1 PrintsValues2.
  intros Hs Hc Hm H. pose proof Hc as (Hread & _). unfold SipInvite.handle_cancel in H.
  change (inners (with_cancellables _ w)) with (inners w) in H.
  destruct (cancellables w !! cancellable_key_of cancel) as [n|]; cbn [mbind option_bind] in H; [|injection H as <- <- <-; constructor].
  destruct (inners w !! n) as [inner|] eqn:Ei; cbn [mbind option_bind] in H; [|injection H as <- <- <-; constructor].
  apply exec_bind_Ret_inv in H as (t & Ht%create_server_tsx_inv & H).
  assert (forall response w0, (r ← endpoint_response ip_from_str direction cancel StatusCode.OK; Ret (true, Ok [(t, r)], w0)) =
    Ret (b, response, w') -> Forall fair (answered response)) as Halone.
  { intros response w0 H'. apply exec_bind_Ret_inv in H' as (r & Hr & H'). injection H' as _ <- _. constructor; [|constructor].
    eapply fair_other; [done..|]. eapply endpoint_response_for; [done| |done]. by rewrite Hm. }
  destruct (inner_state inner) as [dialog t0 r k| |sink|] eqn:Es; cbn [set_cancelled] in H; [|by eapply Halone..].
  destruct (Hs _ _ _ _ _ _ Ei Es) as (Hmi & Hri & _).
  destruct (dialog_responding_for t0 r StatusCode.REQUEST_TERMINATED dialog Hri) as (r1 & E1 & F1); [by rewrite Hmi|].
  destruct (dialog_responding_for t cancel StatusCode.OK dialog Hread) as (r2 & E2 & F2); [by rewrite Hm|].
  unfold both_responses in H. rewrite E1, E2 in H. cbn [mbind exec_bind] in H.
  apply exec_bind_Ret_inv in H as (w1 & _ & H). injection H as _ <- _. cbn.
  constructor; [by eapply fair_session|]. constructor; [by eapply fair_other|constructor].
Qed.

Lemma handle_prack_fair (w : World) prack n (inner : Inner) b rs w' : other prack -> rl_method (ir_line prack) = Method.PRACK ->
  handle_prack ip_from_str direction prack n inner w = Ret (b, rs, w') -> Forall fair (answered rs).
Proof using PrintsValues0 PrintsValues1.
  intros Hp Hm H. pose proof Hp as (Hread & _). unfold handle_prack in H.
  destruct (awaited_prack inner) as [awaited|]; [|injection H as <- <- <-; constructor].
  destruct (Headers.get_named RAck.t (ir_headers prack)) as [rack|e]; [|injection H as <- <- <-; constructor].
  destruct (_ && _); [|injection H as <- <- <-; constructor].
  apply exec_bind_Ret_inv in H as (t & Ht%create_server_tsx_inv & H). apply exec_bind_Ret_inv in H as (r & Hr & H).
  destruct (oneshot_send _ _ _) as [back ch]. injection H as <- <- <-. constructor; [|constructor].
  eapply fair_other; [done..|]. eapply endpoint_response_for; [done| |done]. by rewrite Hm.
Qed.

(** A BYE that is early has the INVITE refused by its transaction, and makes
    one more response for it. *)
Lemma usage_receive_finals w request n inner b rs w' : sorted w -> inners w !! n = Some inner -> other request ->
  usage_receive request n inner w = Ret (b, rs, w') ->
  finals_for_invite (answered rs) = times_answered (answered rs) + early_bye request inner /\
  early_bye request inner <= times_answered (answered rs).
Proof using Hcontact Hallowed Hsupported PrintsValues0 PrintsValues1 PrintsValues2.
  intros Hs Hi Hr H. unfold SipInvite.usage_receive in H. unfold early_bye.
  destruct (rl_method (ir_line request)) eqn:Em; try (rewrite decide_False by naive_solver); try (injection H as <- <- <-; done).
  - destruct (inner_state inner); try (injection H as <- <- <-; done). destruct (event_send _ _ _). by injection H as <- <- <-.
  - destruct (awaited_ack inner) as [awaited|]; [|by injection H as <- <- <-].
    case_decide; [|by injection H as <- <- <-]. destruct (oneshot_send _ _ _). by injection H as <- <- <-.
  - unfold pending_tsx. destruct (inner_state inner) as [dialog t r k| |sink|] eqn:Es; cbn [set_terminated] in H;
      [|rewrite decide_False by naive_solver; by injection H as <- <- <-
       |rewrite decide_False by naive_solver; destruct (event_send _ _ _); by injection H as <- <- <-
       |rewrite decide_False by naive_solver; by injection H as <- <- <-].
    destruct (Hs _ _ _ _ _ _ Hi Es) as (Hmi & Hri & Ht).
    destruct (dialog_responding_for t r StatusCode.REQUEST_TERMINATED dialog Hri) as (r1 & E1 & F1); [by rewrite Hmi|].
    destruct (dialog_responding_for t r StatusCode.OK dialog Hri) as (r2 & E2 & F2); [by rewrite Hmi|].
    unfold SipInvite.dialog_responding in E2. apply exec_bind_Ret_inv in E2 as (r2' & E2 & E2').
    destruct r2' as [r2'|]; [|discriminate E2']. injection E2' as ->.
    unfold handle_bye_in_provisional_state, both_responses in H. rewrite E2 in H. cbn [mbind exec_bind] in H.
    apply exec_bind_Ret_inv in H as (rs' & Hb & H). apply exec_bind_Ret_inv in Hb as (bt & Hbt%create_server_tsx_inv & Hb).
    rewrite E1 in Hb. cbn [mbind exec_bind] in Hb. injection Hb as <-. apply exec_bind_Ret_inv in H as (w1 & _ & H).
    injection H as _ <- _. assert (bt <> tsx) by (destruct Hr as (_ & Hne & _); congruence).
    apply response_for_same in F1, F2. unfold finals_for_invite, times_answered. cbn [answered fmap list_fmap fst snd].
    rewrite !filter_cons. cbn [fst snd]. rewrite (decide_False (P := bt = tsx)) by done.
    destruct (decide (t = tsx)) as [E|E].
    + rewrite !decide_True by naive_solver. by cbn.
    + rewrite !decide_False by naive_solver. by cbn.
  - destruct (peer_supports_100rel inner); [|by injection H as <- <- <-]. apply handle_prack_fair in H; [|done|done].
    apply fair_count in H. split; [lia|lia].
Qed.

Lemma step_finals w out byes w' : sorted w -> invite_step w out byes w' ->
  finals_for_invite out = times_answered out + byes /\ byes <= times_answered out.
Proof using Hcontact Hallowed Hsupported PrintsValues0 PrintsValues1 PrintsValues2.
  intros Hs Hst. revert Hs.
  destruct Hst as [w0 cancel b rs w1 Hc Hm H|w0 request n inner b rs w1 Hi Hr H|w0 evt ack response a inner env r w1 env1 Hi Hm H
         |w0 response a inner env r w1 env1 Hi Hm H|w0 n notify usage dialog request a w1 Hn Ht H];
    intros Hs; [| |split; [|lia]..].
  - apply handle_cancel_fair in H; [|done..]. apply fair_count in H. lia.
  - by eapply usage_receive_finals.
  - rewrite fair_count; [lia|]. destruct r as [[[[sent t] timer] d]|]; [|constructor]. constructor; [|constructor].
    apply success_headers in H as (r & k & Hst & Hf); [|done]. by eapply fair_session.
  - rewrite fair_count; [lia|]. unfold pending_tsx. destruct (inner_state inner) as [d t r0 k| | |] eqn:Es; [|constructor..].
    constructor; [|constructor]. destruct (Hm _ _ _ _ Es) as [_ Hf]. by eapply fair_session.
  - done.
Qed.

(** A transaction that no session has is not answered. *)
Lemma run_none w out byes w' : sorted w -> invite_run w out byes w' -> (forall n, ~ owned w n) ->
  times_answered out = 0 /\ finals_for_invite out = 0 /\ byes = 0 /\ forall n, ~ owned w' n.
Proof using Hcontact Hallowed Hsupported PrintsValues0 PrintsValues1 PrintsValues2.
  intros Hs Hrun. revert Hs. induction Hrun as [w|w out byes w1 outs byes' w2 Hs _ IH]; intros Hsorted Hn; [done|].
  pose proof (invite_step_effect _ _ _ _ Hs) as He. destruct (step_finals _ _ _ _ Hsorted Hs) as [Hf Hb].
  destruct (effect_owner w w1 out He) as [_ [[H0 Hsub]|(_ & [n Hx] & _)]];
    [intros n n' Hx; by destruct (Hn n)| |by destruct (Hn n)].
  destruct IH as (H1 & H2 & H3 & H4); [by eapply effect_sorted|intros n Hx; apply (Hn n); auto|].
  unfold times_answered, finals_for_invite in *. rewrite !filter_app, !length_app. split; [lia|]. split; [lia|]. split; [lia|done].
Qed.

(** C3: An INVITE is answered once by its transaction, and by nothing else unless a BYE comes first.
    However CANCELs, requests of dialogs, the acceptor's own success or failure, and other INVITEs are
    interleaved, the transaction of an INVITE that one session has pending sends at most one final
    response, and when it has sent one, no session has it any more. Of all the final responses that
    are sent, whatever transaction sends them, those with the Via and the CSeq of the INVITE are the
    one of its transaction and, when a BYE of the dialog came before the answer, one more: the 200
    meant for the BYE, which the code makes for the INVITE. There is at most one such BYE. The other
    requests can be answered and are not the INVITE again ([other]), and what the acceptor is given to
    send was made for the INVITE of its session ([made_for]). *)
Theorem invite_answered_once w out byes w' : one_owner w -> sorted w -> invite_run w out byes w' ->
  one_owner w' /\ sorted w' /\ times_answered out <= 1 /\
  finals_for_invite out = times_answered out + byes /\ byes <= times_answered out /\
  (times_answered out = 1 -> (exists n, owned w n) /\ forall n, ~ owned w' n).
Proof using Hcontact Hallowed Hsupported PrintsValues0 PrintsValues1 PrintsValues2.
  intros Ho Hsorted Hrun. revert Ho Hsorted. induction Hrun as [w|w out byes w1 outs byes' w2 Hs Hr IH]; intros Ho Hsorted.
  { cbn. do 2 (split; [done|]). split; [lia|]. done. }
  pose proof (invite_step_effect _ _ _ _ Hs) as He. destruct (step_finals _ _ _ _ Hsorted Hs) as [Hf Hb].
  pose proof (effect_sorted _ _ _ He Hsorted) as Hsorted1.
  destruct (effect_owner w w1 out He Ho) as [Ho1 Hcase].
  destruct (IH Ho1 Hsorted1) as (Ho2 & Hs2 & Hle & Hf2 & Hb2 & Hone). do 2 (split; [done|]).
  assert (times_answered (out ++ outs) = times_answered out + times_answered outs /\
    finals_for_invite (out ++ outs) = finals_for_invite out + finals_for_invite outs) as [-> ->]
    by (unfold times_answered, finals_for_invite; by rewrite !filter_app, !length_app).
  destruct Hcase as [[H0 Hsub]|(H1 & Hex & Hn)].
  - rewrite H0 in *. do 3 (split; [lia|]). intros H1. destruct (Hone H1) as [[n Hx] Hn]. split; [exists n; auto|done].
  - destruct (run_none _ _ _ _ Hsorted1 Hr Hn) as (H2 & H3 & H4 & H5). rewrite H2 in *. do 3 (split; [lia|]). done.
Qed.
End answered.

(** ** Established sessions *)
Section sessions.
Context {Uri NameAddr Tp Contact Routing K M : Type}.
#[local] Abbreviation IncomingRequest := (IncomingRequest Uri NameAddr Tp).
#[local] Abbreviation Usage := (IncomingRequest -> option IncomingRequest).
Context `{UM : UsageMap Usage K M}.
#[local] Abbreviation dialogs_map := (gmap DialogKey.t (DialogEntry (Uri := Uri) (NameAddr := NameAddr) (Tp := Tp) (M := M))).
#[local] Abbreviation InviteSession := (InviteSession (NameAddr := NameAddr) (Tp := Tp) (Contact := Contact)
  (Routing := Routing) (K := K)).
Implicit Types (s sa si : InviteSession).

(** The session that refreshes and the one that waits for it, on an interval of
    [secs] seconds *)
Definition keeps_alive (refresher waiting : InviteSession) (secs now : Z) : Prop :=
  handle_session_timer (Uri := Uri) now refresher = Ret (RefreshNeeded, set_timer (reset now (session_timer refresher)) refresher) /\
  handle_session_timer (Uri := Uri) now waiting = Ret (EvTerminate, waiting) /\
  real_delta_secs (session_timer refresher) = (secs / 2)%Z /\ real_delta_secs (session_timer waiting) = secs /\
  forall (invite : IncomingRequest) tsx until, rl_method (ir_line invite) = Method.INVITE -> ir_tsx invite = Some tsx ->
    interval (session_timer waiting) = Sleeping until ->
    exists waiting', handle_usage_event (Some (ReInviteEvent invite)) now waiting = Ret (ReInviteReceived invite tsx, waiting') /\
      wait_end (session_timer waiting') = Some (now + 1000 * secs)%Z.

(** C40: One end of a session keeps it alive and the other watches. When the timers
    of an acceptor's and an initiator's session agree, as those that
    [session_timers_agree] gives do, exactly one of the two refreshes when its
    timer ends, after half of the interval, and starts its timer again; the
    other would end the session, but only after the whole interval without a
    refresh: an INVITE that arrives starts its timer again for the whole
    interval. *)
Theorem session_kept_alive sa si secs now : role sa = Uas -> role si = Uac ->
  timers_agree (session_timer sa) (session_timer si) secs ->
  (st_refresher (session_timer sa) = Refresher.Uas /\ keeps_alive sa si secs now) \/
  (st_refresher (session_timer sa) = Refresher.Uac /\ keeps_alive si sa secs now).
Proof.
  intros Ha Hi [He Hr]. unfold keeps_alive, handle_session_timer. rewrite Ha, Hi, <-He.
  assert (forall s (invite : IncomingRequest) tsx until, rl_method (ir_line invite) = Method.INVITE ->
    ir_tsx invite = Some tsx -> interval (session_timer s) = Sleeping until ->
    exists s', handle_usage_event (Some (ReInviteEvent invite)) now s = Ret (ReInviteReceived invite tsx, s') /\
      wait_end (session_timer s') = Some (now + 1000 * real_delta_secs (session_timer s))%Z) as Hre.
  { intros s invite tsx until Hm Ht Hs. unfold handle_usage_event, create_server_inv_tsx, take_tsx_registration.
    rewrite decide_True, Ht by done. cbn [unwrap mbind exec_bind]. eexists. split; [reflexivity|].
    unfold reset. by rewrite Hs. }
  destruct (st_refresher (session_timer sa)); [done|left|right]; destruct Hr as [Hr1 Hr2]; (split; [done|]);
    (split; [done|]); (split; [done|]); (split; [done|]); (split; [done|]).
  - rewrite <-Hr2. apply Hre.
  - rewrite <-Hr1. apply Hre.
Qed.
End sessions.

(** ** Responses to an INVITE *)
Section initiator.
Context {Uri NameAddr Tp Contact Routing K M IoError : Type}.
#[local] Abbreviation IncomingRequest := (IncomingRequest Uri NameAddr Tp).
#[local] Abbreviation Usage := (IncomingRequest -> option IncomingRequest).
Context `{UM : UsageMap Usage K M}.
#[local] Abbreviation dialogs_map := (gmap DialogKey.t (DialogEntry (Uri := Uri) (NameAddr := NameAddr) (Tp := Tp) (M := M))).
#[local] Abbreviation TsxMessage := (TsxMessage Uri NameAddr Tp).
#[local] Abbreviation Dialog := (Dialog NameAddr Tp Contact Routing).
#[local] Abbreviation InviteInitiator := (InviteInitiator (Uri := Uri) (NameAddr := NameAddr) (Tp := Tp) (Contact := Contact)).
Context `{DS : DecodeValues SessionExpires.t}.
Context `{DC : DecodeValues Contact, NC : ConstNamed Contact, DR : DecodeValues (list Routing)}.

Definition to_tag (response : TsxMessage) : option str := FromTo.tag (to (tm_base_headers response)).

Lemma dialog_from_response_tag response b (dialogs dialogs' : dialogs_map) (d : Dialog) :
  create_dialog_from_response (Routing := Routing) response b dialogs = Ret (Ok d, dialogs') ->
  FromTo.tag (peer_fromto d) = to_tag response.
Proof.
  unfold create_dialog_from_response, to_tag. destruct (FromTo.tag (to _)) eqn:E; [|done].
  destruct (Headers.get_named Contact _) as [c|]; [|done]. intros H. apply exec_bind_Ret_inv in H as (k & _ & H).
  injection H as <- _. cbn. done.
Qed.

(** What the response of an initiator means for its state *)
Definition response_spec (response : TsxMessage) (i i' : InviteInitiator) queues queues'
    (r : result HeaderError.t (option (InitiatorResponse (Uri := Uri) (NameAddr := NameAddr) (Tp := Tp) (Contact := Contact)
      (Routing := Routing) (K := K))))
    (ack : option (OutgoingRequest Uri Tp)) : Prop :=
  let new_tag tag := to_tag response = Some tag /\ tag ∉ (early_list i).*1 /\ created_sessions i !! tag = None in
  match r with
  | Ok None => i' = i /\ queues' = queues /\
      match ack with
      | Some ack => exists tag, to_tag response = Some tag /\ created_sessions i !! tag = Some ack
      | None => to_tag response = None
      end
  | Ok (Some (REarly early _ _)) => ack = None /\ exists tag, new_tag tag /\
      with_early (early_list i ++ [(tag, response_rx early)]) i = i' /\ FromTo.tag (peer_fromto (early_dialog early)) = Some tag
  | Ok (Some (RSession session _ _)) => ack = None /\ i' = i /\ queues' = queues /\ exists tag, new_tag tag /\
      FromTo.tag (peer_fromto (session_dialog session)) = Some tag /\ role session = Uac
  | Ok (Some REarlyEvent) => ack = None /\ i' = i /\ exists tag c, to_tag response = Some tag /\
      (tag, c) ∈ early_list i /\ queues' = early_send c (EarlyResponseEvent response) queues
  | Ok (Some (RFailure _)) => ack = None /\ (300 <= response_code response)%Z /\ i' = with_early [] i /\
      queues' = foldl (fun queues x => early_send x.2 EarlyTerminate queues) queues (early_list i)
  | Ok (Some (RProvisional _)) => ack = None /\ i' = i /\ queues' = queues /\ (response_code response < 200)%Z
  | Err _ => ack = None /\ i' = i /\ queues' = queues
  end.

(** What the initiator of an INVITE makes of a response, by cases: every To tag
    gets at most one early dialog, or one session; once there is a session
    whose ACK is known, a repeated success makes the same ACK go out again
    and nothing else; a response in an early dialog goes to that dialog; a
    failure ends all early dialogs; other responses change nothing. The tags
    of the early dialogs stay different. *)
Theorem initiator_responses n c (usage : Usage) response now (i : InviteInitiator) queues (dialogs : dialogs_map)
    r ack i' queues' dialogs' :
  NoDup (early_list i).*1 ->
  initiator_response (Routing := Routing) n c usage response now i queues dialogs = Ret (r, ack, i', queues', dialogs') ->
  NoDup (early_list i').*1 /\ created_sessions i' = created_sessions i /\ response_spec response i i' queues queues' r ack.
Proof.
  intros Hnd H. unfold initiator_response in H.
  case_decide as Hc. { injection H as <- <- <- <- <-. repeat split; try done. lia. }
  case_decide as Hf. { injection H as <- <- <- <- <-. split; [constructor|]. repeat split; done. }
  fold (to_tag response) in H. destruct (to_tag response) as [tag|] eqn:Et;
    [|injection H as <- <- <- <- <-; by repeat split].
  destruct (created_sessions i !! tag) as [a|] eqn:Ea.
  { injection H as <- <- <- <- <-. split; [done|]. split; [done|]. split; [done|]. split; [done|]. by exists tag. }
  destruct (find _ (early_list i)) as [[tag' early]|] eqn:Ef.
  { injection H as <- <- <- <- <-. apply find_some in Ef as [Hin Hb]. apply bool_decide_eq_true in Hb. cbn in Hb. subst tag'.
    split; [done|]. split; [done|]. split; [done|]. split; [done|]. exists tag, early. split; [done|].
    split; [by apply list_elem_of_In|done]. }
  assert (tag ∉ (early_list i).*1) as Hni.
  { intros ((x & y) & -> & Hx)%list_elem_of_fmap. apply list_elem_of_In in Hx.
    pose proof (find_none _ _ Ef _ Hx) as Hn. cbn in Hn. by apply bool_decide_eq_false in Hn. }
  case_decide as Hp.
  - destruct (negb _); [injection H as <- <- <- <- <-; by repeat split|].
    apply exec_bind_Ret_inv in H as ([d ds] & Hd & H). destruct d as [d|e]; [|injection H as <- <- <- <- <-; by repeat split].
    pose proof (dialog_from_response_tag _ _ _ _ _ Hd) as Ht. rewrite Et in Ht. rewrite Ht in H.
    cbn [unwrap mbind exec_bind] in H. injection H as <- <- <- <- <-. split; [|split; [done|split; [done|]]].
    + cbn. rewrite fmap_app. apply NoDup_app. split; [done|]. split; [|apply NoDup_singleton].
      intros x Hx ->%list_elem_of_singleton. done.
    + exists tag. split; [done|]. split; [done|]. exact Ht.
  - apply exec_bind_Ret_inv in H as ([d ds] & Hd & H). destruct d as [d|e]; [|injection H as <- <- <- <- <-; by repeat split].
    pose proof (dialog_from_response_tag _ _ _ _ _ Hd) as Ht. rewrite Et in Ht.
    apply exec_bind_Ret_inv in H as ([s ds'] & Hs & H). destruct s as [[session inner]|e].
    + injection H as <- <- <- <- <-. split; [done|]. split; [done|]. split; [done|]. split; [done|]. split; [done|].
      exists tag. split; [done|]. unfold established_session in Hs. apply exec_bind_Ret_inv in Hs as (k & _ & Hs).
      destruct (register_usage _ _ _) as [guard ds2]. apply exec_bind_Ret_inv in Hs as (g & _ & Hs).
      destruct (create_timer_from_response _ _); [|done]. by injection Hs as <- _ _.
    + apply exec_bind_Ret_inv in H as (ds2 & _ & H). injection H as <- <- <- <- <-. by repeat split.
Qed.
End initiator.

(** ** Examples *)
Import Sample.

#[local] Abbreviation sample_usage := (IncomingRequest unit unit unit -> option (IncomingRequest unit unit unit)).
#[local] Abbreviation sample_entry := (DialogEntry (Uri := unit) (NameAddr := unit) (Tp := unit) (M := list (nat * sample_usage))).
#[local] Abbreviation sample_env := (Env (Uri := unit) (NameAddr := unit) (Tp := unit)).
#[local] Abbreviation sample_inner_t := (Inner (Dialog unit unit contact routing) (IncomingRequest unit unit unit)).
#[local] Abbreviation sample_world_t := (World (Uri := unit) (NameAddr := unit) (Tp := unit) (Contact := contact)
  (Routing := routing) (M := list (nat * sample_usage))).

Definition instant_send (t : Z) (_ : list byte) (_ : SocketAddr) : result unit Z := Ok t.
Definition sample_answer (code : StatusCode.t) : OutgoingResponse unit :=
  {| os_msg := {| rs_line := {| sl_code := code; sl_reason := None |}; rs_headers := Headers.new; rs_body := [] |};
     os_parts := {| op_transport := tt; destination := V4 1 5060; buffer := lit "bytes" |} |}.
Definition env0 : sample_env := {| now := 0; inbox := []; sent := [] |}.

(** An ACK after three seconds *)
Lemma success_ack_schedule_witness :
  receive_ack instant_send (sample_answer StatusCode.OK) (Some (3000%Z, Some (incoming Method.ACK 1 Headers.new))) env0 =
    Ret (Ok (incoming Method.ACK 1 Headers.new), after env0 (lit "bytes") [500; 1500; 2500]%Z 3000 []).
Proof.
  eapply eq_trans; [apply (success_ack_schedule instant_send ltac:(done) _ _ env0 (lit "bytes")); reflexivity|].
  reflexivity.
Defined.

Definition sample_target : TargetTransportInfo unit :=
  {| via_host_port := None; tti_transport := Some (tt, V4 1 5060) |}.

Lemma bye_after_refresh_stuck_witness :
  exists invite ack bye : Request unit, forall r1 r2 r3 : IncomingRequest unit unit unit,
    arrives invite r1 -> arrives ack r2 -> arrives bye r3 ->
    (entry_run [r1; r2; r3] {| backlog := ∅; next_peer_cseq := Some 7%Z; usages := [] : list (nat * sample_usage) |}).1 =
      [[r1]; [r2]; []].
Proof.
  destruct (bye_after_refresh_stuck (IoError := unit) (fun _ : contact => tt) contact_is (fun _ => Ok (tt, V4 1 5060))
    (fun _ => lit "UDP") (fun _ => V4 1 5060) (lit "x") (set_target sample_target sample_dialog) tt (V4 1 5060)
    {| backlog := ∅; next_peer_cseq := Some 7%Z; usages := [] : list (nat * sample_usage) |})
    as (invite & ack & bye & _ & _ & _ & H); [done..| |].
  - intros m n Hm Hn. change (local_cseq _) with 7%Z in Hn.
    assert (n = 7 \/ n = 8 \/ n = 9)%Z as Hn' by lia. clear Hn.
    repeat (apply elem_of_cons in Hm as [->|Hm]; [destruct Hn' as [->|[->| ->]]; vm_compute; reflexivity|]).
    by apply elem_of_nil in Hm.
  - exists invite, (oq_msg ack), bye. intros r1 r2 r3 H1 H2 H3. by rewrite (H r1 r2 r3 H1 H2 H3).
Defined.

(** A session that waits for its acceptor *)
Definition sample_tsx (n : nat) : TsxRegistration := {| tsx_key := TsxKey.client (lit "1") Method.INVITE; receiver := n |}.
Definition sample_pending : sample_inner_t :=
  {| inner_state := InviteState.UasProvisional sample_dialog (sample_tsx 5) sample_invite 3;
     peer_supports_timer := false; peer_supports_100rel := true; awaited_ack := None;
     awaited_prack := Some {| prack_sender := 2; ap_cseq := 1; ap_rack := 1 |} |}.
Definition sample_world : sample_world_t :=
  {| cancellables := {[cancellable_key_of sample_invite := 0]}; inners := {[0 := sample_pending]};
     channels_ := {| oneshots := {[2 := Pending]}; events := ∅; notified := ∅ |};
     dialogs := {[sample_key := entry_new (Some 1%Z)]}; tsxs := no_transactions |}.
#[local] Instance rack_decode : DecodeValues RAck.t := {| decode_values _ := Err [] |}.

Lemma sample_answerable m cseq : answerable (incoming m cseq Headers.new) {| tsx_key := TsxKey.client (lit "1") m; receiver := 0 |}.
Proof. by repeat split. Qed.

Lemma cancel_handled_witness :
  exists r487 r200 w', handle_cancel (fun _ => None) (fun _ : unit => DirNone) sample_csv sample_csv
    (incoming Method.CANCEL 1 Headers.new) sample_world =
    Ret (true, Ok [(sample_tsx 5, r487); ({| tsx_key := TsxKey.client (lit "1") Method.CANCEL; receiver := 0 |}, r200)], w').
Proof.
  pose proof (cancel_handled (Contact := contact) contact_is (fun _ => None) (fun _ : unit => DirNone) sample_csv sample_csv
    ltac:(done) ltac:(done) (incoming Method.CANCEL 1 Headers.new) sample_world _ eq_refl (sample_answerable _ _)) as H.
  destruct (H (sample_tsx 0) sample_key) as (r487 & r200 & w' & E & _); [by repeat split|done|done|].
  by exists r487, r200, w'.
Defined.

Lemma initiator_cancel_unmatched_witness :
  let b := {| via := [via_of (generate_branch (lit "2"))]; from_ := from_to (Some (lit "c")); to := from_to None;
              call_id := {| CallID.call_id := lit "call" |};
              cseq_ := {| CSeq.cseq := 1; CSeq.method := Method.CANCEL |} |} in
  let cancel : IncomingRequest unit unit unit :=
    {| ir_tp_info := {| source := V4 1 5060; tp := tt |};
       ir_tsx_key := TsxKey.RFC3261 {| TsxKey.role := TsxKey.Server; TsxKey.branch_ := generate_branch (lit "2");
                                       TsxKey.method := Some Method.CANCEL |};
       ir_tsx := None; ir_line := {| rl_method := Method.CANCEL; rl_uri := tt |};
       ir_base_headers := b; ir_headers := Headers.new; ir_body := [] |} in
  handle_cancel (fun _ => None) (fun _ : unit => DirNone) sample_csv sample_csv cancel sample_world =
    Ret (false, Ok [], sample_world).
Proof.
  intros b cancel.
  apply (initiator_cancel_unmatched (fun _ => None) (fun _ : unit => DirNone) sample_csv sample_csv cancel
    (RequestL {| rl_method := Method.CANCEL; rl_uri := tt |}) sample_world (fun _ => lit "UDP") (fun _ : unit => V4 1 5060) tt
    (lit "2") None [] (via_of (generate_branch (lit "2")))); [reflexivity..|].
  intros k n Hk. cbn [cancellables sample_world] in Hk. apply lookup_singleton_Some in Hk as [<- _].
  exists (lit "1"). by split.
Defined.

Lemma early_bye_unanswered_witness :
  exists r487 r200 w', usage_receive (fun _ => None) (fun _ : unit => DirNone) sample_csv sample_csv
    (incoming Method.BYE 2 Headers.new) 0 sample_pending sample_world =
    Ret (true, Ok [(sample_tsx 5, r487); ({| tsx_key := TsxKey.client (lit "1") Method.BYE; receiver := 0 |}, r200)], w') /\
    all_values Name.CSeq (rs_headers (os_msg r200)) = [lit "1 INVITE"].
Proof.
  destruct (early_bye_unanswered (Contact := contact) contact_is (fun _ => None) (fun _ : unit => DirNone) sample_csv sample_csv
    ltac:(done) ltac:(done) (incoming Method.BYE 2 Headers.new) sample_invite 0 sample_pending sample_world sample_dialog
    (sample_tsx 5) _ (sample_tsx 0) 3 sample_key eq_refl (sample_answerable _ _))
    as (r487 & r200 & w' & E & _ & _ & _ & _ & _ & _ & Hc & _); [done|by repeat split|done|done|].
  exists r487, r200, w'. split; [exact E|exact Hc].
Defined.

Lemma malformed_prack_panics_witness :
  reliable_wait instant_send (sample_answer StatusCode.RINGING)
    (Some (1000%Z, None : option (IncomingRequest unit unit unit))) env0 = Panic.
Proof.
  destruct (malformed_prack_panics (Contact := contact) (IoError := unit) (fun _ => None) (fun _ : unit => DirNone) sample_csv sample_csv
    (incoming Method.PRACK 2 Headers.new) 0 sample_pending sample_world {| prack_sender := 2; ap_cseq := 1; ap_rack := 1 |}
    (HeaderError.missing Name.RAck) instant_send (sample_answer StatusCode.RINGING) env0 (lit "bytes") 1000%Z)
    as (w' & _ & _ & _ & H); try done.
Defined.

(** A BYE comes while the INVITE waits for its answer: two final responses
    belong to the INVITE, one is of its transaction. *)
Lemma invite_answered_once_witness :
  exists out (w' : sample_world_t),
    invite_run (K := nat) (fun _ => None) (fun _ : unit => DirNone) sample_csv sample_csv instant_send sample_invite (sample_tsx 5)
      sample_world out 1 w' /\
    times_answered (sample_tsx 5) out = 1 /\ finals_for_invite sample_invite out = 2 /\ forall n, ~ owned (sample_tsx 5) w' n.
Proof.
  set (bye := incoming Method.BYE 2 Headers.new).
  destruct (early_bye_unanswered (Contact := contact) contact_is (fun _ => None) (fun _ : unit => DirNone) sample_csv sample_csv
    ltac:(done) ltac:(done) bye sample_invite 0 sample_pending sample_world sample_dialog
    (sample_tsx 5) _ (sample_tsx 0) 3 sample_key eq_refl (sample_answerable _ _))
    as (r487 & r200 & w' & E & _); [done|by repeat split|done|done|].
  set (out := answered (Ok [(sample_tsx 5, r487); ({| tsx_key := TsxKey.client (lit "1") Method.BYE; receiver := 0 |}, r200)]) ++ []).
  assert (invite_run (K := nat) (fun _ => None) (fun _ : unit => DirNone) sample_csv sample_csv instant_send sample_invite (sample_tsx 5)
      sample_world out (early_bye (sample_tsx 5) bye sample_pending + 0) w') as Hrun.
  { eapply RunStep; [|apply RunNil]. eapply InvUsage with (n := 0); [reflexivity| |exact E].
    split; [by split|]. split; [done|]. intros [_ H]. vm_compute in H. discriminate H. }
  assert (early_bye (sample_tsx 5) bye sample_pending = 1) as Hb by (unfold early_bye; by rewrite decide_True).
  assert (forall n (i : sample_inner_t), inners sample_world !! n = Some i -> n = 0 /\ i = sample_pending) as Hin
    by (cbn; intros n i [<- <-]%lookup_singleton_Some; done).
  destruct (invite_answered_once (K := nat) contact_is (fun _ => None) (fun _ : unit => DirNone) sample_csv sample_csv
    ltac:(done) ltac:(done) instant_send sample_invite (sample_tsx 5) sample_world
    out (early_bye (sample_tsx 5) bye sample_pending + 0) w') as (_ & _ & Hle & Hf & Hbt & Hone);
    [| |exact Hrun|].
  - intros n n' (i & [-> _]%Hin & _) (i' & [-> _]%Hin & _). done.
  - intros n i d t r k [_ ->]%Hin. intros [= _ <- <- _]. split; [done|]. split; [by split|]. by split.
  - rewrite Hb in *. exists out, w'. split; [exact Hrun|]. split; [lia|]. split; [lia|]. apply Hone. lia.
Defined.

Definition sample_session (r : Role) (real : Z) : InviteSession (NameAddr := unit) (Tp := unit) (Contact := contact)
    (Routing := routing) (K := nat) :=
  {| session_inner := 0; role := r; usage_events := 0;
     session_timer := {| st_refresher := Refresher.Uac; real_delta_secs := real; interval := Sleeping (1000 * real) |};
     session_guard := (sample_key, 0); session_dialog := sample_dialog |}.

Lemma session_kept_alive_witness :
  keeps_alive (Uri := unit) (sample_session Uac 900) (sample_session Uas 1800) 1800 5.
Proof.
  destruct (session_kept_alive (Uri := unit) (sample_session Uas 1800) (sample_session Uac 900) 1800 5) as [[H _]|[_ H]];
    [done|done|done|done|exact H].
Defined.

Definition sample_ack : OutgoingRequest unit unit :=
  {| oq_msg := {| rq_line := {| rl_method := Method.ACK; rl_uri := tt |}; rq_headers := Headers.new; rq_body := [] |};
     oq_parts := {| op_transport := tt; destination := V4 1 5060; buffer := lit "ack" |} |}.
Definition sample_initiator : InviteInitiator (Uri := unit) (NameAddr := unit) (Tp := unit) (Contact := contact) :=
  {| dialog_builder := sample_builder; early_list := []; created_sessions := {[lit "s" := sample_ack]};
     support_timer := true; support_100rel := true;
     timer_config := {| expires_secs := None; in_refresher := Refresher.Unspecified; expires_secs_min := 90 |} |}.

(** A repeated 200 *)
Lemma initiator_responses_witness :
  let response : TsxMessage unit unit unit :=
    {| tm_tp_info := {| source := V4 1 5060; tp := tt |};
       tm_line := ResponseL {| sl_code := StatusCode.OK; sl_reason := None |};
       tm_base_headers := base Method.INVITE 1; tm_headers := Headers.new; tm_body := [] |} in
  response_spec (Routing := routing) (K := nat) response sample_initiator sample_initiator ∅ ∅ (Ok None) (Some sample_ack).
Proof.
  intros response.
  apply (initiator_responses (Routing := routing) 0 1 (fun r => Some r) response 0 sample_initiator ∅
    (∅ : gmap DialogKey.t sample_entry) (Ok None) (Some sample_ack) sample_initiator ∅ ∅); [apply NoDup_nil_2|reflexivity].
Defined.
