(* ===== verification/SipRegister.v ===== *)
(** * Registrations
    (sip-ua/src/register/mod.rs)

    The requests a registration sends, what it makes of the responses, and when
    it has to be refreshed. Durations and times are in milliseconds. The timer
    of the runtime is an argument, with its documented behaviour as a class. *)
From S2P Require Import Prelude Text StunAttr IceStun SipNames SipHeaders SipFraming SipMessages SipTyped SipKeys SipTransactions.
From S2P Require Import SipTimers SipDialog SipSamples SipDialogProps.

(** [tokio::time::Interval]: when the next tick is due, and its period *)
Record Interval := { deadline : Z; period : Z }.

(** [Interval::tick] with [MissedTickBehavior::Delay], called at a time: when it
    returns, and the interval after that *)
Class Ticks := { tick : Z -> Interval -> Z * Interval }.
Class TickLaws (T : Ticks) : Prop := {
  tick_time now i : (tick now i).1 = Z.max now (deadline i);
  tick_period now i : period (tick now i).2 = period i;
  tick_next now i : (deadline i + period i <= deadline (tick now i).2 <= (tick now i).1 + period i)%Z }.

(** [create_reg_interval], called at a time *)
Definition create_reg_interval (now expiry : Z) : Interval :=
  let period := (Z.max expiry 20000 - 10000)%Z in
  {| deadline := (now + period)%Z; period := period |}.

#[export] Instance expires_prints : PrintsValues Expires.t.
Proof. by split. Qed.

Section registration.
Context {Uri NameAddr Tp Contact : Type}.
#[local] Abbreviation TsxMessage := (TsxMessage Uri NameAddr Tp).
Context `{EF : ExtendValues (FromTo.t NameAddr), EC : ExtendValues Contact, NC : ConstNamed Contact}.

(** [Registration] *)
Record Registration := {
  registrar : Uri;
  reg_to : FromTo.t NameAddr;
  reg_from : FromTo.t NameAddr;
  reg_cseq : Z;
  reg_call_id : CallID.t;
  contact : Contact;
  expires : Z;
  register_interval : Interval }.

Definition set_reg (to_ : FromTo.t NameAddr) (cseq expires : Z) (interval : Interval) (r : Registration) : Registration :=
  {| registrar := registrar r; reg_to := to_; reg_from := reg_from r; reg_cseq := cseq; reg_call_id := reg_call_id r;
     contact := contact r; expires := expires; register_interval := interval |}.

(** [Registration::new], with its random number and strings *)
Definition registration_new (random_sequence_number : Z) (random_tag random_call_id : str) (now : Z) (id : NameAddr)
    (contact : Contact) (registrar : Uri) (expiry : Z) : Registration :=
  {| registrar := registrar; reg_to := from_to_new id None; reg_from := from_to_new id (Some random_tag);
     reg_cseq := random_sequence_number; reg_call_id := {| CallID.call_id := random_call_id |}; contact := contact;
     expires := expiry; register_interval := create_reg_interval now expiry |}.

(** [Registration::create_register] *)
Definition create_register (remove_binding : bool) (r : Registration) : Request Uri * Registration :=
  let h := Headers.insert_type Name.From (reg_from r) Headers.new in
  let h := Headers.insert_type Name.To (reg_to r) h in
  let h := Headers.insert_named (reg_call_id r) h in
  let r := set_reg (reg_to r) (wrap 32 (reg_cseq r + 1)) (expires r) (register_interval r) r in
  let h := Headers.insert_named {| CSeq.cseq := reg_cseq r; CSeq.method := Method.REGISTER |} h in
  let expires := if remove_binding then {| Expires.secs := 0 |} else {| Expires.secs := wrap 32 (expires r / 1000) |} in
  let h := Headers.insert_type Name.Expires expires h in
  let h := Headers.insert_named (contact r) h in
  ({| rq_line := {| rl_method := Method.REGISTER; rl_uri := registrar r |}; rq_headers := h; rq_body := [] |}, r).

(** [Registration::receive_success_response], called at a time *)
Definition receive_success_response (now : Z) (response : TsxMessage) (r : Registration) : exec Registration :=
  if decide (StatusCode.kind (response_code response) = StatusCode.Success) then
    let r := match Headers.get (H := Expires.t) Name.Expires (tm_headers response) with
             | Ok e =>
                 let expires' := (1000 * Expires.secs e)%Z in
                 if decide (expires r <> expires')
                 then set_reg (reg_to r) (reg_cseq r) expires' (create_reg_interval now expires') r else r
             | Err _ => r
             end in
    Ret match FromTo.tag (reg_to r) with
        | None => set_reg (with_tag (FromTo.tag (to (tm_base_headers response))) (reg_to r)) (reg_cseq r) (expires r)
                    (register_interval r) r
        | Some _ => r
        end
  else Panic.

(** [Registration::receive_error_response], called at a time: whether to retry *)
Definition receive_error_response (now : Z) (response : TsxMessage) (r : Registration) : bool * Registration :=
  if decide (StatusCode.kind (response_code response) = StatusCode.RequestFailure) then
    match Headers.get (H := Expires.t) Name.MinExpires (tm_headers response) with
    | Ok e =>
        let expires' := (1000 * Expires.secs e)%Z in
        (true, set_reg (reg_to r) (reg_cseq r) expires' (create_reg_interval now expires') r)
    | Err _ => (false, r)
    end
  else (false, r).

(** [Registration::wait_for_expiry], called at a time: when it returns *)
Definition wait_for_expiry `{Ticks} (now : Z) (r : Registration) : Z * Registration :=
  let '(t, interval) := tick now (register_interval r) in
  (t, set_reg (reg_to r) (reg_cseq r) (expires r) interval r).
End registration.
Arguments Registration : clear implicits.

Section register_props.
Context {Uri NameAddr Tp Contact : Type}.
#[local] Abbreviation Registration := (Registration Uri NameAddr Contact).
#[local] Abbreviation TsxMessage := (TsxMessage Uri NameAddr Tp).
Context `{EF : ExtendValues (FromTo.t NameAddr), !PrintsValues (FromTo.t NameAddr)}.
Context `{EC : ExtendValues Contact, !PrintsValues Contact, NC : ConstNamed Contact}.
Context (Hcontact : NAME Contact = Name.Contact).
Implicit Types (r : Registration).

(** The values of the headers of a REGISTER *)
Definition register_values (remove_binding : bool) r (n : Name.t) : list str :=
  match n with
  | Name.From => OneOrMore.to_list (create_values (reg_from r))
  | Name.To => OneOrMore.to_list (create_values (reg_to r))
  | Name.CallID => [CallID.call_id (reg_call_id r)]
  | Name.CSeq => [CSeq.print {| CSeq.cseq := wrap 32 (reg_cseq r + 1); CSeq.method := Method.REGISTER |}]
  | Name.Expires => [if remove_binding then lit "0" else print_uint (wrap 32 (expires r / 1000))]
  | Name.Contact => OneOrMore.to_list (create_values (contact r))
  | _ => []
  end.

(** A REGISTER has the registration's From, To, Call-ID and Contact, and the
    time it asks for, or 0 to remove the binding; every REGISTER has the CSeq
    number after the previous one's, and nothing else of the registration
    changes. *)
Theorem register_requests (remove_binding : bool) r :
  let '(rq, r') := create_register remove_binding r in
  rq_line rq = {| rl_method := Method.REGISTER; rl_uri := registrar r |} /\
  holds (rq_headers rq) (register_values remove_binding r) /\
  r' = set_reg (reg_to r) (wrap 32 (reg_cseq r + 1)) (expires r) (register_interval r) r.
Proof.
  unfold create_register. split; [done|]. split; [|done]. cbn [rq_headers].
  pose proof (holds_insert_type Name.From (reg_from r) _ _ I holds_new eq_refl) as H1.
  pose proof (holds_insert_type Name.To (reg_to r) _ _ I H1 eq_refl) as H2.
  pose proof (holds_insert_type Name.CallID (reg_call_id r) _ _ I H2 eq_refl) as H3.
  pose proof (holds_insert_type Name.CSeq
    {| CSeq.cseq := wrap 32 (reg_cseq r + 1); CSeq.method := Method.REGISTER |} _ _ I H3 eq_refl) as H4.
  pose proof (holds_insert_type Name.Expires (if remove_binding then {| Expires.secs := 0 |}
    else {| Expires.secs := wrap 32 (expires r / 1000) |}) _ _ I H4 eq_refl) as H5.
  pose proof (holds_insert_type Name.Contact (contact r) _ _ I H5 eq_refl) as H6. clear H1 H2 H3 H4 H5.
  unfold Headers.insert_named at 1. rewrite Hcontact. eapply holds_ext; [exact H6|].
  intros n. destruct n; try done. by destruct remove_binding.
Qed.

(** The timer of a registration that was set or has ticked at a time *)
Definition timer_ok (since : Z) r : Prop :=
  period (register_interval r) = (Z.max (expires r) 20000 - 10000)%Z /\
  (deadline (register_interval r) <= since + period (register_interval r))%Z.

Lemma reg_interval_ok now expiry :
  period (create_reg_interval now expiry) = (Z.max expiry 20000 - 10000)%Z /\
  (deadline (create_reg_interval now expiry) <= now + period (create_reg_interval now expiry))%Z.
Proof. unfold create_reg_interval. cbn. lia. Qed.

(** A registration is refreshed in time. Its timer has the period of the
    lifetime it has, less ten seconds, but at least ten; [new], both kinds of
    responses and the tick keep it so, where a new lifetime starts the timer
    again; and the wait for the next refresh ends, if it is called before
    that, at most the lifetime less ten seconds after the timer was started or
    ticked last, so before a lifetime of twenty seconds or more is over. (A
    lifetime below ten seconds is over before the timer, which never waits for
    less than ten.) *)
Theorem registration_refreshed `{T : Ticks, !TickLaws T} r since now (response : TsxMessage) :
  (since <= now)%Z ->
  (forall random tag id_ now name c uri expiry, timer_ok now (registration_new random tag id_ now name c uri expiry : Registration)) /\
  (timer_ok since r ->
    (StatusCode.kind (response_code response) = StatusCode.Success ->
      exists r' since', receive_success_response now response r = Ret r' /\ timer_ok since' r' /\ (since <= since' <= now)%Z /\
      match Headers.get (H := Expires.t) Name.Expires (tm_headers response) with
      | Ok e => expires r' = (1000 * Expires.secs e)%Z /\ (expires r <> expires r' -> since' = now)
      | Err _ => expires r' = expires r
      end) /\
    (let '(retry, r') := receive_error_response now response r in
     if retry then timer_ok now r' else r' = r) /\
    (let '(t, r') := wait_for_expiry now r in
     timer_ok t r' /\ expires r' = expires r /\ (now <= t <= Z.max now (since + (Z.max (expires r) 20000 - 10000)))%Z /\
     ((expires r <= 10000)%Z -> deadline (register_interval r) = (since + period (register_interval r))%Z -> (since + expires r <= t)%Z))).
Proof.
  intros Hnow. split; [intros; unfold timer_ok; apply reg_interval_ok|]. intros [Hp Hd]. split; [|split].
  - intros Hk. unfold receive_success_response. rewrite decide_True by done.
    set (r1 := match Headers.get Name.Expires (tm_headers response) with Ok _ => _ | Err _ => _ end).
    assert (exists since', timer_ok since' r1 /\ (since <= since' <= now)%Z /\
      match Headers.get (H := Expires.t) Name.Expires (tm_headers response) with
      | Ok e => expires r1 = (1000 * Expires.secs e)%Z /\ (expires r <> expires r1 -> since' = now)
      | Err _ => expires r1 = expires r
      end) as (since' & H1 & H2 & H3).
    { unfold r1. destruct (Headers.get Name.Expires (tm_headers response)) as [e|]; [|exists since; repeat split; lia || done].
      case_decide as He; [exists now|exists since].
      - split; [unfold timer_ok; apply reg_interval_ok|]. split; [lia|done].
      - split; [done|]. split; [lia|done]. }
    exists (match FromTo.tag (reg_to r1) with None => set_reg (with_tag (FromTo.tag (to (tm_base_headers response)))
      (reg_to r1)) (reg_cseq r1) (expires r1) (register_interval r1) r1 | Some _ => r1 end), since'.
    split; [done|]. destruct (FromTo.tag (reg_to r1)); done.
  - unfold receive_error_response. case_decide; [|done].
    destruct (Headers.get Name.MinExpires (tm_headers response)) as [e|]; [|done].
    unfold timer_ok. apply reg_interval_ok.
  - unfold wait_for_expiry. pose proof (tick_time now (register_interval r)) as Ht.
    pose proof (tick_period now (register_interval r)) as Hpe. pose proof (tick_next now (register_interval r)) as Hn.
    destruct (tick now (register_interval r)) as [t i]. cbn [fst snd] in *. unfold timer_ok. cbn.
    rewrite Hpe, Hp. rewrite Hp in Hd, Hn. lia.
Qed.
End register_props.

(** ** Examples *)
Import Sample.
Definition sample_registration : Registration unit unit Sample.contact :=
  registration_new 1 (lit "c") (lit "call") 0 tt {| contact_name := lit "alice" |} tt 60000.

(** The timer of the runtime: a tick that is late by more than five milliseconds
    delays the following ones. *)
#[local] Instance delayed_ticks : Ticks := {|
  tick now i :=
    let t := Z.max now (deadline i) in
    (t, {| deadline := if decide (deadline i + 5 < t)%Z then (t + period i)%Z else (deadline i + period i)%Z;
           period := period i |}) |}.
#[local] Instance delayed_tick_laws : TickLaws delayed_ticks.
Proof. split; intros now i; cbn; [done|done|]. case_decide; lia. Qed.

Lemma register_requests_witness :
  all_values Name.CSeq (rq_headers (create_register true sample_registration).1) = [lit "2 REGISTER"].
Proof.
  pose proof (register_requests contact_is true sample_registration) as H.
  destruct (create_register true sample_registration) as [rq r']. destruct H as (_ & Hh & _).
  cbn [fst]. rewrite (holds_values Name.CSeq _ _ Hh I). reflexivity.
Defined.

Lemma registration_refreshed_witness :
  let '(t, r) := wait_for_expiry 20000 sample_registration in timer_ok t r /\ (20000 <= t <= 50000)%Z.
Proof.
  pose proof (registration_refreshed sample_registration 0 20000
    {| tm_tp_info := {| source := V4 1 5060; tp := tt |};
       tm_line := ResponseL {| sl_code := StatusCode.OK; sl_reason := None |};
       tm_base_headers := base Method.REGISTER 1; tm_headers := Headers.new; tm_body := [] |} ltac:(lia)) as [Hnew H].
  assert (timer_ok 0 sample_registration) as Hok by (split; cbn; lia). destruct (H Hok) as (_ & _ & H').
  clear H. rename H' into H.
  destruct (wait_for_expiry 20000 sample_registration) as [t r]. destruct H as (H1 & _ & H2 & _).
  split; [exact H1|]. cbn in H2. lia.
Defined.
