(* ===== verification/SdpFields.v ===== *)
(** * The fields of a session description
    (sdp-types/src/lib.rs, tagged_address.rs, connection.rs, origin.rs, time.rs, bandwidth.rs, media.rs)

    The parsers and printers of the lines that are not attributes, on the
    combinators of [SipParse] and those of [MoreCombinators], which only this
    package uses. [context] of the package [nom] only adds to the error, which
    is nowhere looked at. *)
From S2P Require Import Prelude Text SipParse SipUri.

(** ** More combinators of [nom] *)

(** The first characters *)
Fixpoint take_chars (n : nat) (i : str) : option (str * str) :=
  match n, i with
  | O, _ => Some ([], i)
  | S n, b :: _ =>
      '(a, r) ← take_chars n (drop (char_len b) i); Some (take (char_len b) i ++ a, r)
  | S _, [] => None
  end.

Class MoreCombinators := {
  many1 {A} : parser A -> parser (list A);
  separated_list0 {A B} : parser A -> parser B -> parser (list B);
  separated_list1 {A B} : parser A -> parser B -> parser (list B);
  take_while_m_n : nat -> nat -> (str -> bool) -> parser str;
  take_n : nat -> parser str;
  peek {A} : parser A -> parser A;
  not_ {A} : parser A -> parser unit;
  u32 : parser Z }.

(** A class of ASCII characters, and a parser that consumes something *)
Definition ascii_class (p : str -> bool) : Prop := forall c, p c = true -> exists b, c = [b].
Definition consumes {A} (p : parser A) : Prop := forall i r x, p i = Some (r, x) -> length r < length i.

Class MoreLaws (N : Combinators) (M : MoreCombinators) : Prop := {
  many1_law {A} (p : parser A) i :
    many1 p i = '(r, x) ← p i; '(r, l) ← many0 p r; Some (r, x :: l);
  separated_list1_law {A B} (sep : parser A) (p : parser B) i : consumes sep ->
    separated_list1 sep p i = '(r, x) ← p i; '(r, l) ← many0 (preceded sep p) r; Some (r, x :: l);
  separated_list0_law {A B} (sep : parser A) (p : parser B) i : consumes sep ->
    separated_list0 sep p i =
      match p i with
      | None => Some (i, [])
      | Some (r, x) => '(r, l) ← many0 (preceded sep p) r; Some (r, x :: l)
      end;
  take_while_m_n_law m n p i : m <= n -> ascii_class p ->
    take_while_m_n m n p i =
      let a := take n (chars_while p i).1 in
      if decide (length a < m) then None else Some (drop (length a) i, a);
  take_n_law n i : take_n n i = '(a, r) ← take_chars n i; Some (r, a);
  peek_law {A} (p : parser A) i : peek p i = '(_, x) ← p i; Some (i, x);
  not_law {A} (p : parser A) i : not_ p i = match p i with Some _ => None | None => Some (i, tt) end;
  u32_law i : u32 i = let '(a, r) := span dec_digit i in n ← parse_uint 32 a; Some (r, n) }.

(** An instance that computes *)
Definition more_complete : MoreCombinators := {|
  many1 A p i := '(r, x) ← p i; '(r, l) ← many0 (Combinators := complete) p r; Some (r, x :: l);
  separated_list1 A B sep p i :=
    '(r, x) ← p i;
    '(r, l) ← many0 (Combinators := complete) (preceded (Combinators := complete) sep p) r; Some (r, x :: l);
  separated_list0 A B sep p i :=
    match p i with
    | None => Some (i, [])
    | Some (r, x) =>
        '(r, l) ← many0 (Combinators := complete) (preceded (Combinators := complete) sep p) r; Some (r, x :: l)
    end;
  take_while_m_n m n p i :=
    let a := take n (chars_while p i).1 in
    if decide (length a < m) then None else Some (drop (length a) i, a);
  take_n n i := '(a, r) ← take_chars n i; Some (r, a);
  peek A p i := '(_, x) ← p i; Some (i, x);
  not_ A p i := match p i with Some _ => None | None => Some (i, tt) end;
  u32 i := let '(a, r) := span dec_digit i in n ← parse_uint 32 a; Some (r, n) |}.

#[export] Instance more_complete_laws : MoreLaws complete more_complete.
Proof. by split. Qed.

(** [IpAddr]: [to_string] and [from_str] *)
Inductive IpAddr := IpV4 (ip : Z) | IpV6 (ip : Z).
#[export] Instance IpAddr_eq_dec : EqDecision IpAddr.
Proof. solve_decision. Defined.

Definition ip_to_string `{Ip6Text} (a : IpAddr) : str :=
  match a with IpV4 ip => ip4_to_string ip | IpV6 ip => ip6_to_string ip end.
Definition ip_from_str `{Ip6Text} (s : str) : option IpAddr :=
  match ip4_from_str s with Some ip => Some (IpV4 ip) | None => IpV6 <$> ip6_from_str s end.

(** The text of IPv6 addresses has colons. *)
Class Ip6Colons (I : Ip6Text) : Prop := { ip6_colons ip : uint 128 ip -> x3a ∈ ip6_to_string ip }.

(** [char::is_whitespace] *)
Definition is_whitespace (c : str) : bool := bool_decide (c ∈ white_space).

(** A test of ASCII characters *)
Definition ascii (f : byte -> bool) (c : str) : bool := match c with [b] => f b | _ => false end.

Section fields.
Context {N : Combinators} {M : MoreCombinators} {I6 : Ip6Text}.

(** [map_res(digit1, FromStr::from_str)], to an integer of [w] bits *)
Definition dec (w : Z) : parser Z := map_res digit1 (parse_uint w).

(** ** lib.rs *)
Definition slash_num : parser Z := preceded (char_ x2f) (dec 32).
Definition not_whitespace (c : str) : bool := negb (ascii_whitespace c).
Definition ice_char : str -> bool := ascii (fun b => alphanumeric b || bool_decide (b ∈ lit "+/"))%bool.
Definition probe_host : str -> bool := ascii (fun b => alphanumeric b || bool_decide (b ∈ lit "_-."))%bool.
Definition probe_host6 : str -> bool := ascii (fun b => alphanumeric b || bool_decide (b ∈ lit "_-.:"))%bool.

(** [ws], on one, five and six parsers *)
Definition ws1 {A} (p : parser A) : parser A := fun i =>
  '(i, _) ← take_while ascii_whitespace i; p i.
Definition ws5 {A B C D E} (p : parser A) (q : parser B) (s : parser C) (u : parser D) (v : parser E)
    : parser (A * B * C * D * E) := fun i =>
  '(i, (x, y, z, w)) ← ws4 p q s u i; '(i, e) ← ws1 v i; Some (i, (x, y, z, w, e)).
Definition ws6 {A B C D E F} (p : parser A) (q : parser B) (s : parser C) (u : parser D) (v : parser E) (o : parser F)
    : parser (A * B * C * D * E * F) := fun i =>
  '(i, (x, y, z, w, e)) ← ws5 p q s u v i; '(i, f) ← ws1 o i; Some (i, (x, y, z, w, e, f)).
End fields.

(** ** tagged_address.rs *)
Module TaggedAddress.
Inductive t :=
| IP4 (ip : Z)
| IP4FQDN (name : str)
| IP6 (ip : Z)
| IP6FQDN (name : str).

Definition from_ip (a : IpAddr) : t := match a with IpV4 ip => IP4 ip | IpV6 ip => IP6 ip end.

Section tagged_address.
Context {N : Combinators} {I6 : Ip6Text}.

Definition parse : parser t :=
  alt (preceded (tag (lit "IN IP4 "))
         (map (take_while probe_host)
            (fun host => match ip4_from_str host with Some addr => IP4 addr | None => IP4FQDN host end)))
      (preceded (tag (lit "IN IP6 "))
         (map (take_while probe_host6)
            (fun host => match ip6_from_str host with Some addr => IP6 addr | None => IP6FQDN host end))).
Definition print (a : t) : str :=
  match a with
  | IP4 addr => lit "IN IP4 " ++ ip4_to_string addr
  | IP4FQDN fqdn => lit "IN IP4 " ++ fqdn
  | IP6 addr => lit "IN IP6 " ++ ip6_to_string addr
  | IP6FQDN fqdn => lit "IN IP6 " ++ fqdn
  end.
End tagged_address.
End TaggedAddress.

(** ** connection.rs *)
Module Connection.
Record t := { address : TaggedAddress.t; ttl : option Z; num : option Z }.

Section connection.
Context {N : Combinators} {I6 : Ip6Text}.

Definition parse : parser t := fun i =>
  '(i, address) ← TaggedAddress.parse i;
  match address with
  | TaggedAddress.IP4 _ | TaggedAddress.IP4FQDN _ =>
      '(i, ttl) ← opt (tuple slash_num (opt slash_num)) i;
      let '(ttl, num) := match ttl with None => (None, None) | Some (ttl, num) => (Some ttl, num) end in
      Some (i, {| address := address; ttl := ttl; num := num |})
  | TaggedAddress.IP6 _ | TaggedAddress.IP6FQDN _ =>
      '(i, num) ← opt slash_num i;
      Some (i, {| address := address; ttl := None; num := num |})
  end.
Definition slash (n : Z) : str := lit "/" ++ print_uint n.
Definition print (c : t) : str :=
  TaggedAddress.print (address c) ++
  match address c with
  | TaggedAddress.IP4 _ | TaggedAddress.IP4FQDN _ =>
      match ttl c with
      | Some ttl => slash ttl ++ match num c with Some num => slash num | None => [] end
      | None => []
      end
  | TaggedAddress.IP6 _ | TaggedAddress.IP6FQDN _ =>
      match num c with Some num => slash num | None => [] end
  end.
End connection.
End Connection.

(** ** origin.rs *)
Module Origin.
Record t := { username : str; session_id : str; session_version : str; address : TaggedAddress.t }.

Section origin.
Context {N : Combinators} {I6 : Ip6Text}.

Definition parse : parser t :=
  map (ws4 (take_while not_whitespace) (take_while not_whitespace) (take_while not_whitespace) TaggedAddress.parse)
    (fun '(username, session_id, session_version, address) =>
       {| username := username; session_id := session_id; session_version := session_version; address := address |}).
Definition print (o : t) : str :=
  username o ++ lit " " ++ session_id o ++ lit " " ++ session_version o ++ lit " " ++ TaggedAddress.print (address o).
End origin.
End Origin.

(** ** time.rs *)
Module Time.
Record t := { start : Z; stop : Z }.
Definition parse `{Combinators} : parser t :=
  map (ws (dec 64) (dec 64)) (fun '(start, stop) => {| start := start; stop := stop |}).
Definition print (m : t) : str := print_uint (start m) ++ lit " " ++ print_uint (stop m).
End Time.

(** ** bandwidth.rs *)
Module Bandwidth.
Record t := { type_ : str; bandwidth : Z }.

Definition token : str -> bool := ascii (fun b =>
  bool_decide (b = x21) || in_range 0x23 0x27 b || in_range 0x2A 0x2B b || in_range 0x2D 0x2E b ||
  in_range 0x30 0x39 b || in_range 0x41 0x5A b || in_range 0x5E 0x7E b)%bool.
Definition parse `{Combinators} : parser t :=
  map (tuple (take_while token) (tuple (tag (lit ":")) (dec 32)))
    (fun '(modifier, (_, value)) => {| type_ := modifier; bandwidth := value |}).
Definition print (b : t) : str := type_ b ++ lit ":" ++ print_uint (bandwidth b).
End Bandwidth.

(** ** media.rs *)
Module MediaType.
Inductive t := Audio | Video | Text | App.

Definition parse `{Combinators} : parser t :=
  alt (map (tag (lit "audio")) (fun _ => Audio))
  (alt (map (tag (lit "video")) (fun _ => Video))
  (alt (map (tag (lit "text")) (fun _ => Text))
       (map (tag (lit "application")) (fun _ => App)))).
Definition print (m : t) : str :=
  match m with Audio => lit "audio" | Video => lit "video" | Text => lit "text" | App => lit "application" end.
End MediaType.

Module TransportProtocol.
Inductive t :=
| Unspecified | RtpAvp | RtpAvpf | RtpSavp | RtpSavpf | UdpTlsRtpSavp | UdpTlsRtpSavpf
| Other (name : str).

Definition parse `{Combinators} : parser t :=
  alt (map (tag (lit "UDP/TLS/RTP/SAVPF")) (fun _ => UdpTlsRtpSavpf))
  (alt (map (tag (lit "UDP/TLS/RTP/SAVP")) (fun _ => UdpTlsRtpSavp))
  (alt (map (tag (lit "RTP/SAVPF")) (fun _ => RtpSavpf))
  (alt (map (tag (lit "RTP/SAVP")) (fun _ => RtpSavp))
  (alt (map (tag (lit "RTP/AVPF")) (fun _ => RtpAvpf))
  (alt (map (tag (lit "RTP/AVP")) (fun _ => RtpAvp))
  (alt (map (tag (lit "udp")) (fun _ => Unspecified))
       (map (take_while1 not_whitespace) Other))))))).
Definition print (p : t) : str :=
  match p with
  | Unspecified => lit "udp"
  | RtpAvp => lit "RTP/AVP"
  | RtpAvpf => lit "RTP/AVPF"
  | RtpSavp => lit "RTP/SAVP"
  | RtpSavpf => lit "RTP/SAVPF"
  | UdpTlsRtpSavp => lit "UDP/TLS/RTP/SAVP"
  | UdpTlsRtpSavpf => lit "UDP/TLS/RTP/SAVPF"
  | Other str => str
  end.
End TransportProtocol.

Module Media.
Record t := {
  media_type : MediaType.t;
  port : Z;
  ports_num : option Z;
  proto : TransportProtocol.t;
  fmts : list Z }.

Definition parse `{Combinators} : parser t :=
  map (ws5 MediaType.parse (dec 16) (opt slash_num) TransportProtocol.parse (many0 (ws1 (dec 8))))
    (fun '(media, port, ports_num, proto, fmts) =>
       {| media_type := media; port := port; ports_num := ports_num; proto := proto; fmts := fmts |}).
Definition print (m : t) : str :=
  MediaType.print (media_type m) ++
  match ports_num m with
  | Some ports_num => lit " " ++ print_uint (port m) ++ lit "/" ++ print_uint ports_num ++ lit " "
  | None => lit " " ++ print_uint (port m) ++ lit " "
  end ++
  TransportProtocol.print (proto m) ++
  concat ((fun fmt => lit " " ++ print_uint fmt) <$> fmts m).
End Media.
