(* ===== verification/SdpFieldsProps.v ===== *)
(** * Parsing undoes printing, on the fields of a session description
    (sdp-types/src/tagged_address.rs, connection.rs, origin.rs, time.rs, bandwidth.rs, media.rs)

    [X.ok x] decides that [x] can be printed so that it is read again: numbers
    are in range, words have no white space, and texts are not what the parser
    takes for something else. *)
From S2P Require Import Prelude Text SipMessages SipParse SipUri SipUriProps SdpFields.
#[local] Arguments print_uint : simpl never.
#[local] Arguments lit : simpl never.

(** A number of [w] bits, and one that may be missing *)
Definition uint_ok (w z : Z) : bool := bool_decide (uint w z).
Definition opt_ok {A} (f : A -> bool) (o : option A) : bool := match o with Some x => f x | None => true end.

(** Visible ASCII text, which is not empty *)
Definition word (s : str) : bool := negb (bool_decide (s = [])) && forallb (in_range 0x21 0x7e) s.

(** Text in front of which no white space is skipped *)
Definition starts_text (i : str) : Prop := match i with [] => True | b :: _ => is_ascii_whitespace b = false end.

(** [after_ws p s x r]: as [reads], behind white space *)
Definition after_ws {A} (p : parser A) (s : str) (x : A) (r : str) : Prop := p (skip_ws (s ++ r)) = Some (r, x).

Lemma uint_ok_range w z : uint_ok w z = true -> uint w z.
Proof. apply bool_decide_eq_true. Qed.

Lemma sdp_word_visible s : word s = true -> s <> [] /\ forallb (in_range 0x21 0x7e) s = true.
Proof. intros [H1 H2]%andb_true_iff. split; [|done]. by apply negb_true_iff, bool_decide_eq_false in H1. Qed.

(** A text of a class of bytes is text of a class of characters that has them. *)
Lemma all_of_bytes (f : byte -> bool) (p : str -> bool) s :
  (forall b, f b = true -> in_range 0 127 b = true /\ p [b] = true) -> forallb f s = true -> all_of p s.
Proof. intros Hf Hs. apply Forall_forall. intros b Hb. apply Hf. rewrite forallb_forall in Hs. by apply Hs, list_elem_of_In. Qed.

Lemma skip_ws_starts i : starts_text i -> skip_ws i = i.
Proof. destruct i as [|b i]; [done|]. apply skip_ws_visible. Qed.

Lemma starts_text_app s r : s <> [] -> starts_text s -> starts_text (s ++ r).
Proof. by destruct s. Qed.

Lemma starts_text_word s r : word s = true -> starts_text (s ++ r).
Proof.
  intros [Hne Hs]%sdp_word_visible. destruct s as [|b s]; [done|]. cbn in *. apply andb_true_iff in Hs as [Hb _].
  clear -Hb. revert b Hb. by_bytes.
Qed.

Lemma starts_text_uint z r : (0 <= z)%Z -> starts_text (print_uint z ++ r).
Proof.
  intros Hz. pose proof (print_uint_digits z Hz) as Hd. pose proof (print_uint_nonempty z Hz).
  destruct (print_uint z) as [|b s]; [done|]. inversion Hd as [|? ? Hb _]; subst. cbn. clear -Hb. revert b Hb. by_bytes.
Qed.

Lemma starts_text_class (f : byte -> bool) s r :
  (forall b, f b = true -> is_ascii_whitespace b = false) -> forallb f s = true -> starts_text r -> starts_text (s ++ r).
Proof. intros Hf Hs Hr. destruct s as [|b s]; [done|]. cbn in *. apply Hf. by apply andb_true_iff in Hs as [Hb _]. Qed.

Lemma after_ws_text {A} (p : parser A) s x r : starts_text (s ++ r) -> reads p s x r -> after_ws p s x r.
Proof. intros Hs Hp. unfold after_ws. by rewrite skip_ws_starts. Qed.

Lemma after_ws_space {A} (p : parser A) s x r : starts_text (s ++ r) -> reads p s x r -> after_ws p (lit " " ++ s) x r.
Proof.
  intros Hs Hp. unfold after_ws. assert (skip_ws ((lit " " ++ s) ++ r) = skip_ws (s ++ r)) as ->.
  { change (lit " ") with [x20]. unfold skip_ws. cbn. by destruct (span _ (s ++ r)). }
  by rewrite skip_ws_starts.
Qed.

Lemma reads_eq {A} (p : parser A) s s' x r : reads p s x r -> s = s' -> reads p s' x r.
Proof. by intros H <-. Qed.

#[export] Hint Resolve starts_text_word starts_text_uint : reads.

Section more_reading.
Context {NC : Combinators} {NL : CombinatorLaws NC} {M : MoreCombinators} {ML : MoreLaws NC M}.

Lemma dec_reads w z r : (0 <= w <= 64)%Z -> uint w z -> no_digit r -> reads (dec w) (print_uint z) z r.
Proof.
  intros Hw Hz Hr. eapply map_res_reads; [|by apply parse_print_uint].
  apply digit1_reads; [apply print_uint_nonempty, Hz|apply print_uint_digits, Hz|done].
Qed.

Lemma dec_nothing w r : no_digit r -> dec w r = None.
Proof.
  intros Hr. unfold dec. rewrite map_res_law, digit1_law. destruct r as [|b r]; [done|]. cbn [span].
  cbn in Hr. by rewrite Hr.
Qed.

Lemma ws1_skip {A} (p : parser A) i : ws1 p i = p (skip_ws i).
Proof. unfold ws1. by destruct (take_ws_skip i) as [w ->]. Qed.

Lemma ws4_skip {A B C D} (p : parser A) (q : parser B) (t : parser C) (u : parser D) i :
  ws4 p q t u i = '(i, x) ← p (skip_ws i); '(i, y) ← q (skip_ws i); '(i, z) ← t (skip_ws i);
                  '(i, w) ← u (skip_ws i); Some (i, (x, y, z, w)).
Proof.
  unfold ws4. destruct (take_ws_skip i) as [w ->]. cbn. destruct (p (skip_ws i)) as [[i' x]|]; [|done]. cbn.
  destruct (take_ws_skip i') as [w' ->]. cbn. destruct (q (skip_ws i')) as [[i'' y]|]; [|done]. cbn.
  destruct (take_ws_skip i'') as [w'' ->]. cbn. destruct (t (skip_ws i'')) as [[i''' z]|]; [|done]. cbn.
  by destruct (take_ws_skip i''') as [w''' ->].
Qed.

Lemma ws1_reads {A} (p : parser A) s x r : after_ws p s x r -> reads (ws1 p) s x r.
Proof. unfold reads, after_ws. by rewrite ws1_skip. Qed.

Lemma ws_reads {A B} (p : parser A) (q : parser B) s s' x y r :
  after_ws p s x (s' ++ r) -> after_ws q s' y r -> reads (ws p q) (s ++ s') (x, y) r.
Proof. unfold reads, after_ws. intros Hp Hq. rewrite ws_skip, <-app_assoc, Hp. cbn. by rewrite Hq. Qed.

Lemma ws4_reads {A B C D} (p : parser A) (q : parser B) (t : parser C) (u : parser D) s s' s'' s''' x y z w r :
  after_ws p s x (s' ++ s'' ++ s''' ++ r) -> after_ws q s' y (s'' ++ s''' ++ r) ->
  after_ws t s'' z (s''' ++ r) -> after_ws u s''' w r -> reads (ws4 p q t u) (s ++ s' ++ s'' ++ s''') (x, y, z, w) r.
Proof.
  unfold reads, after_ws. intros Hp Hq Ht Hu. rewrite ws4_skip, <-!app_assoc, Hp. cbn. rewrite Hq. cbn.
  rewrite Ht. cbn. by rewrite Hu.
Qed.

Lemma ws5_reads {A B C D E} (p : parser A) (q : parser B) (t : parser C) (u : parser D) (v : parser E)
    s x s' e r : reads (ws4 p q t u) s x (s' ++ r) -> after_ws v s' e r ->
  reads (ws5 p q t u v) (s ++ s') (x, e) r.
Proof.
  intros H4 H1%ws1_reads. unfold reads, ws5 in *. rewrite <-app_assoc, H4. destruct x as [[[x y] z] w].
  cbn. by rewrite H1.
Qed.

Lemma ws6_reads {A B C D E F} (p : parser A) (q : parser B) (t : parser C) (u : parser D) (v : parser E) (o : parser F)
    s x s' e r : reads (ws5 p q t u v) s x (s' ++ r) -> after_ws o s' e r ->
  reads (ws6 p q t u v o) (s ++ s') (x, e) r.
Proof.
  intros H4 H1%ws1_reads. unfold reads, ws6 in *. rewrite <-app_assoc, H4. destruct x as [[[[x y] z] w] a].
  cbn. by rewrite H1.
Qed.

Lemma slash_num_reads z r : uint 32 z -> no_digit r -> reads slash_num (lit "/" ++ print_uint z) z r.
Proof. intros Hz Hr. eapply preceded_reads; [apply (char_reads x2f)|by apply dec_reads]. Qed.

Lemma slash_num_nothing r : head r <> Some x2f -> slash_num r = None.
Proof. intros Hr. unfold slash_num. rewrite preceded_law, char_nothing; done. Qed.

(** A word is read up to a space or the end. *)
Lemma word_reads s r : word s = true -> stops not_whitespace r -> reads (take_while not_whitespace) s s r.
Proof. intros [_ Hs]%sdp_word_visible Hr. apply take_while_reads; [|done]. apply (all_of_bytes (in_range 0x21 0x7e)); [by_bytes|done]. Qed.

Lemma word1_reads s r : word s = true -> stops not_whitespace r -> reads (take_while1 not_whitespace) s s r.
Proof. intros [Hne Hs]%sdp_word_visible Hr. apply take_while1_reads; [done| |done]. apply (all_of_bytes (in_range 0x21 0x7e)); [by_bytes|done]. Qed.
End more_reading.

(** Numbers that may be missing *)
Lemma opt_uint w o z : opt_ok (uint_ok w) o = true -> o = Some z -> uint w z.
Proof. intros H ->. by apply uint_ok_range. Qed.

(** ** Addresses *)
Definition host_byte (b : byte) : bool := (alphanumeric b || bool_decide (b ∈ lit "_-."))%bool.
Definition host6_byte (b : byte) : bool := (alphanumeric b || bool_decide (b ∈ lit "_-.:"))%bool.

Definition tagged_ok `{Ip6Text} (a : TaggedAddress.t) : bool :=
  match a with
  | TaggedAddress.IP4 ip => uint_ok 32 ip
  | TaggedAddress.IP4FQDN n => forallb host_byte n && bool_decide (ip4_from_str n = None)
  | TaggedAddress.IP6 ip => uint_ok 128 ip
  | TaggedAddress.IP6FQDN n => forallb host6_byte n && bool_decide (ip6_from_str n = None)
  end.

Section fields_props.
Context {NC : Combinators} {NL : CombinatorLaws NC} {M : MoreCombinators} {ML : MoreLaws NC M} `{IL : Ip6Laws}.

Lemma ip4_text ip : all_of probe_host (ip4_to_string ip).
Proof.
  assert (forall k, all_of probe_host (print_uint (octet ip k))) as Ho.
  { intros k. eapply Forall_impl; [apply octet_digits|]. cbv beta. by_bytes. }
  assert (all_of probe_host [x2e]) as Hd by (repeat constructor).
  unfold ip4_to_string. repeat (apply Forall_app; split); by apply Hd || apply Ho.
Qed.

Lemma ip6_host ip : uint 128 ip -> all_of probe_host6 (ip6_to_string ip).
Proof.
  intros Hip. destruct (ip6_text ip Hip) as [_ Ht]. eapply all_of_impl; [|exact Ht].
  assert (forall b, ip6_byte [b] = true -> probe_host6 [b] = true) as Hb by by_bytes. auto.
Qed.

Lemma host_bytes n : forallb host_byte n = true -> all_of probe_host n.
Proof. apply all_of_bytes. by_bytes. Qed.

Lemma host6_bytes n : forallb host6_byte n = true -> all_of probe_host6 n.
Proof. apply all_of_bytes. by_bytes. Qed.

Lemma tagged_reads a r : tagged_ok a = true -> stops probe_host r -> stops probe_host6 r ->
  reads TaggedAddress.parse (TaggedAddress.print a) a r.
Proof.
  intros Ha H4 H6.
  assert (forall s, preceded (tag (lit "IN IP4 "))
    (map (take_while probe_host) (fun host => match ip4_from_str host with
       Some addr => TaggedAddress.IP4 addr | None => TaggedAddress.IP4FQDN host end)) (lit "IN IP6 " ++ s) = None) as Hno.
  { intros s. by rewrite preceded_law, tag_nothing. }
  unfold TaggedAddress.parse. destruct a as [ip|n|ip|n]; cbn [TaggedAddress.print tagged_ok] in *.
  - apply alt_reads_l. eapply preceded_reads; [apply tag_reads|].
    eassert (TaggedAddress.IP4 ip = _) as ->; [|apply map_reads, take_while_reads; [apply ip4_text|done]].
    cbv beta. by rewrite ip4_read by (by apply uint_ok_range).
  - apply andb_true_iff in Ha as [Hn Ha]. apply bool_decide_eq_true in Ha.
    apply alt_reads_l. eapply preceded_reads; [apply tag_reads|].
    eassert (TaggedAddress.IP4FQDN n = _) as ->; [|apply map_reads, take_while_reads; [by apply host_bytes|done]].
    cbv beta. by rewrite Ha.
  - apply uint_ok_range in Ha. apply alt_reads_r; [rewrite <-app_assoc; apply Hno|].
    eapply preceded_reads; [apply tag_reads|].
    eassert (TaggedAddress.IP6 ip = _) as ->; [|apply map_reads, take_while_reads; [by apply ip6_host|done]].
    cbv beta. by rewrite ip6_read.
  - apply andb_true_iff in Ha as [Hn Ha]. apply bool_decide_eq_true in Ha.
    apply alt_reads_r; [rewrite <-app_assoc; apply Hno|]. eapply preceded_reads; [apply tag_reads|].
    eassert (TaggedAddress.IP6FQDN n = _) as ->; [|apply map_reads, take_while_reads; [by apply host6_bytes|done]].
    cbv beta. by rewrite Ha.
Qed.

Lemma tagged_starts a r : starts_text (TaggedAddress.print a ++ r).
Proof. by destruct a. Qed.

(** ** Connections *)
Definition connection_ok (c : Connection.t) : bool :=
  tagged_ok (Connection.address c) &&
  match Connection.address c with
  | TaggedAddress.IP4 _ | TaggedAddress.IP4FQDN _ =>
      opt_ok (uint_ok 32) (Connection.ttl c) &&
      match Connection.ttl c with Some _ => opt_ok (uint_ok 32) (Connection.num c) | None => bool_decide (Connection.num c = None) end
  | TaggedAddress.IP6 _ | TaggedAddress.IP6FQDN _ =>
      bool_decide (Connection.ttl c = None) && opt_ok (uint_ok 32) (Connection.num c)
  end.

Lemma slash_end z : stops probe_host (Connection.slash z) /\ stops probe_host6 (Connection.slash z) /\
  no_digit (Connection.slash z).
Proof. done. Qed.

Lemma opt_slash_reads o : opt_ok (uint_ok 32) o = true ->
  reads (opt slash_num) (match o with Some n => Connection.slash n | None => [] end) o [].
Proof.
  intros Ho. destruct o as [n|].
  - apply opt_reads, slash_num_reads; [by apply uint_ok_range|done].
  - apply opt_nothing, slash_num_nothing. done.
Qed.

Lemma ttl_reads ttl num : uint 32 ttl -> opt_ok (uint_ok 32) num = true ->
  opt (tuple slash_num (opt slash_num)) (Connection.slash ttl ++ match num with Some n => Connection.slash n | None => [] end) =
  Some ([], Some (ttl, num)).
Proof.
  intros Ht Hn. rewrite <-(app_nil_r (_ ++ _)). apply opt_reads. eapply tuple_reads; [|by apply opt_slash_reads].
  apply slash_num_reads; [done|by destruct num].
Qed.

Lemma connection_reads c : connection_ok c = true -> reads Connection.parse (Connection.print c) c [].
Proof.
  intros [Ha Hc]%andb_true_iff. destruct c as [a ttl num].
  assert (forall s, (s = [] \/ exists z s', s = Connection.slash z ++ s') ->
    TaggedAddress.parse (TaggedAddress.print a ++ s) = Some (s, a)) as Hread.
  { intros s [->|(z & s' & ->)]; by apply tagged_reads. }
  unfold reads, Connection.parse, Connection.print. rewrite app_nil_r.
  cbn [Connection.address Connection.ttl Connection.num] in *.
  assert (forall o : option Z, match o with Some n => Connection.slash n | None => [] end = [] \/
    exists z s', match o with Some n => Connection.slash n | None => [] end = Connection.slash z ++ s') as Hopt.
  { intros [z|]; [right; exists z, []; by rewrite app_nil_r|by left]. }
  destruct a as [ip|n|ip|n]; apply andb_true_iff in Hc as [H1 H2].
  1, 2: destruct ttl as [ttl|]; [|apply bool_decide_eq_true in H2 as ->; rewrite Hread by auto; cbn;
      rewrite opt_law, tuple_law, slash_num_nothing by done; done];
    rewrite Hread by eauto; cbn [mbind option_bind]; by rewrite ttl_reads by (done || by apply uint_ok_range).
  all: apply bool_decide_eq_true in H1 as ->; rewrite Hread by auto; cbn [mbind option_bind];
    pose proof (opt_slash_reads num H2) as Hr; unfold reads in Hr; rewrite app_nil_r in Hr; destruct num; by rewrite Hr.
Qed.

(** ** Origins, times, bandwidths *)
Definition origin_ok (o : Origin.t) : bool :=
  word (Origin.username o) && word (Origin.session_id o) && word (Origin.session_version o) && tagged_ok (Origin.address o).

Lemma origin_reads o : origin_ok o = true -> reads Origin.parse (Origin.print o) o [].
Proof.
  intros [[[H1 H2]%andb_true_iff H3]%andb_true_iff H4]%andb_true_iff. destruct o as [u i v a]. cbn in *.
  eassert ({| Origin.username := u |} = _) as ->; [|apply map_reads; eapply reads_eq;
    [apply (ws4_reads _ _ _ _ u (lit " " ++ i) (lit " " ++ v) (lit " " ++ TaggedAddress.print a))|]]; [reflexivity|..].
  - apply after_ws_text; [by apply starts_text_word|by apply word_reads].
  - apply after_ws_space; [by apply starts_text_word|by apply word_reads].
  - apply after_ws_space; [by apply starts_text_word|by apply word_reads].
  - apply after_ws_space; [apply tagged_starts|by apply tagged_reads].
  - done.
Qed.

Definition time_ok (m : Time.t) : bool := uint_ok 64 (Time.start m) && uint_ok 64 (Time.stop m).

Lemma time_reads m : time_ok m = true -> reads Time.parse (Time.print m) m [].
Proof.
  intros [H1%uint_ok_range H2%uint_ok_range]%andb_true_iff. destruct m as [a b]. cbn in *.
  eassert ({| Time.start := a |} = _) as ->; [|apply map_reads; eapply reads_eq;
    [apply (ws_reads _ _ (print_uint a) (lit " " ++ print_uint b))|]]; [reflexivity|..].
  - apply after_ws_text; [apply starts_text_uint, H1|by apply dec_reads].
  - apply after_ws_space; [apply starts_text_uint, H2|by apply dec_reads].
  - done.
Qed.

Definition token_byte (b : byte) : bool := Bandwidth.token [b].
Definition bandwidth_ok (b : Bandwidth.t) : bool :=
  forallb token_byte (Bandwidth.type_ b) && uint_ok 32 (Bandwidth.bandwidth b).

Lemma bandwidth_reads b : bandwidth_ok b = true -> reads Bandwidth.parse (Bandwidth.print b) b [].
Proof.
  intros [H1 H2%uint_ok_range]%andb_true_iff. destruct b as [m v]. cbn in *.
  eassert ({| Bandwidth.type_ := m |} = _) as ->; [|apply map_reads; eapply tuple_reads;
    [|eapply tuple_reads; [apply tag_reads|by apply dec_reads]]]; [reflexivity|].
  apply take_while_reads; [|done]. revert H1. apply all_of_bytes. by_bytes.
Qed.

(** ** Media *)
Definition known_protos : list str :=
  [lit "UDP/TLS/RTP/SAVPF"; lit "UDP/TLS/RTP/SAVP"; lit "RTP/SAVPF"; lit "RTP/SAVP"; lit "RTP/AVPF"; lit "RTP/AVP"; lit "udp"].
Definition proto_ok (p : TransportProtocol.t) : bool :=
  match p with
  | TransportProtocol.Other n =>
      word n && negb (bool_decide (head n = Some x2f)) && forallb (fun t => negb (starts_with t n)) known_protos
  | _ => true
  end.
Definition media_ok (m : Media.t) : bool :=
  uint_ok 16 (Media.port m) && opt_ok (uint_ok 32) (Media.ports_num m) && proto_ok (Media.proto m) &&
  forallb (uint_ok 8) (Media.fmts m).

(** What follows the protocol *)
Definition fmts_text (fmts : list Z) : str := concat ((fun fmt => lit " " ++ print_uint fmt) <$> fmts).

Lemma fmts_text_end fmts : fmts_text fmts = [] \/ exists s, fmts_text fmts = lit " " ++ s.
Proof. destruct fmts as [|f fmts]; [by left|right]. cbn. by eexists. Qed.

Lemma fmts_text_digit fmts : no_digit (fmts_text fmts).
Proof. by destruct (fmts_text_end fmts) as [->|[s ->]]. Qed.

Lemma fmts_reads fmts : forallb (uint_ok 8) fmts = true -> reads (many0 (ws1 (dec 8))) (fmts_text fmts) fmts [].
Proof.
  induction fmts as [|f fmts IH]; intros H.
  - apply many0_reads_nil. rewrite ws1_skip. by apply dec_nothing.
  - cbn in H. apply andb_true_iff in H as [Hf%uint_ok_range H].
    apply (many0_reads_cons _ (lit " " ++ print_uint f)); [done| |by apply IH].
    apply ws1_reads, after_ws_space; [apply starts_text_uint, Hf|].
    apply dec_reads; [done|done|]. rewrite app_nil_r. apply fmts_text_digit.
Qed.

Lemma fmts_after_ws fmts : forallb (uint_ok 8) fmts = true -> after_ws (many0 (ws1 (dec 8))) (fmts_text fmts) fmts [].
Proof.
  intros H. destruct fmts as [|f fmts]; [by apply (fmts_reads [])|].
  pose proof H as H'. cbn in H'. apply andb_true_iff in H' as [Hf%uint_ok_range H'].
  eassert (fmts_text (f :: fmts) = lit " " ++ print_uint f ++ fmts_text fmts) as -> by (unfold fmts_text; cbn; by rewrite <-app_assoc).
  apply after_ws_space; [rewrite <-app_assoc; apply starts_text_uint, Hf|].
  apply many0_reads_cons; [apply print_uint_nonempty, Hf| |by apply fmts_reads].
  apply ws1_reads, after_ws_text; [apply starts_text_uint, Hf|].
  apply dec_reads; [done|done|]. rewrite app_nil_r. apply fmts_text_digit.
Qed.

Lemma media_type_reads m r : reads MediaType.parse (MediaType.print m) m r.
Proof.
  unfold reads, MediaType.parse. destruct m; cbn [MediaType.print];
    rewrite !alt_law, !map_law, !tag_law; cbn; rewrite ?bool_decide_eq_true_2 by done; done.
Qed.

(** A name that a tag is no prefix of, with a space or the end behind it *)
Lemma starts_with_word t n r : forallb (in_range 0x21 0x7e) t = true -> starts_with t n = false ->
  (r = [] \/ exists s, r = lit " " ++ s) -> starts_with t (n ++ r) = false.
Proof.
  intros Ht Hn Hr. apply not_true_iff_false. intros [s Hs]%starts_with_spec.
  apply not_true_iff_false in Hn. apply Hn, starts_with_spec.
  apply app_eq_inv in Hs as [(k & -> & Hs)|(k & -> & Hs)]; [by eexists|].
  destruct k as [|b k]; [exists []; by rewrite !app_nil_r|]. exfalso.
  rewrite forallb_app in Ht. apply andb_true_iff in Ht as [_ Ht]. cbn in Ht. apply andb_true_iff in Ht as [Ht _].
  destruct Hr as [->|[s' ->]]; cbn in Hs; [done|]. injection Hs as <- _. done.
Qed.

Lemma proto_reads p r : proto_ok p = true -> (r = [] \/ exists s, r = lit " " ++ s) ->
  reads TransportProtocol.parse (TransportProtocol.print p) p r.
Proof.
  intros Hp Hr. unfold TransportProtocol.parse.
  destruct p as [| | | | | | |n]; cbn [TransportProtocol.print];
    try by (unfold reads; rewrite !alt_law, !map_law, !tag_law; destruct Hr as [->|[s ->]]; reflexivity).
  cbn in Hp. rewrite !andb_true_iff, !negb_true_iff in Hp. destruct Hp as [[Hw _] (H1 & H2 & H3 & H4 & H5 & H6 & H7 & _)].
  do 7 (apply alt_reads_r; [apply map_nothing, tag_nothing, starts_with_word; [done|done|done]|]).
  apply map_reads, word1_reads; [done|]. by destruct Hr as [->|[s ->]].
Qed.

Lemma proto_starts p r : proto_ok p = true -> starts_text (TransportProtocol.print p ++ r) /\
  head (TransportProtocol.print p ++ r) <> Some x2f.
Proof.
  intros Hp. destruct p as [| | | | | | |n]; try done. cbn in *.
  rewrite !andb_true_iff, negb_true_iff in Hp. destruct Hp as [[Hw Hh] _]. apply bool_decide_eq_false in Hh.
  split; [by apply starts_text_word|]. by destruct n.
Qed.

Lemma media_reads m : media_ok m = true -> reads Media.parse (Media.print m) m [].
Proof.
  unfold media_ok. rewrite !andb_true_iff. intros [[[H1%uint_ok_range H2] H3] H4]. destruct m as [ty port num proto fmts]. cbn in *.
  assert (forall r, after_ws MediaType.parse (MediaType.print ty) ty r) as Htype.
  { intros r. apply after_ws_text; [by destruct ty|apply media_type_reads]. }
  assert (forall r, no_digit r -> after_ws (dec 16) (lit " " ++ print_uint port) port r) as Hport.
  { intros r Hr. apply after_ws_space; [apply starts_text_uint, H1|by apply dec_reads]. }
  assert (reads TransportProtocol.parse (TransportProtocol.print proto) proto (fmts_text fmts ++ [])) as Hproto.
  { apply proto_reads; [done|]. rewrite app_nil_r. apply fmts_text_end. }
  destruct (proto_starts proto (fmts_text fmts ++ []) H3) as [Hs Hh].
  pose proof (fmts_after_ws fmts H4) as Hfmts.
  unfold Media.parse. destruct num as [n|]; cbn in H2; unfold Media.print; cbn [Media.media_type Media.port Media.ports_num Media.proto Media.fmts].
  - eassert ({| Media.media_type := ty |} = _) as ->; [|apply map_reads; eapply reads_eq;
      [eapply ws5_reads; [apply (ws4_reads _ _ _ _ (MediaType.print ty) (lit " " ++ print_uint port) (lit "/" ++ print_uint n)
         (lit " " ++ TransportProtocol.print proto))|exact Hfmts]|]]; [reflexivity|apply Htype|by apply Hport| | |].
    + apply after_ws_text; [done|]. apply opt_reads, slash_num_reads; [by apply uint_ok_range|done].
    + by apply after_ws_space.
    + cbn. by rewrite <-!app_assoc.
  - eassert ({| Media.media_type := ty |} = _) as ->; [|apply map_reads; eapply reads_eq;
      [eapply ws5_reads; [apply (ws4_reads _ _ _ _ (MediaType.print ty) (lit " " ++ print_uint port) (lit " ")
         (TransportProtocol.print proto))|exact Hfmts]|]]; [reflexivity|apply Htype|by apply Hport| | |].
    + change (lit " ") with (lit " " ++ []). apply after_ws_space; [done|]. by apply opt_nothing, slash_num_nothing.
    + by apply after_ws_text.
    + cbn. by rewrite <-!app_assoc.
Qed.
End fields_props.
