(* ===== verification/SdpAttributes.v ===== *)
(** * The attributes of a session description (sdp-types/src/attributes/*.rs but crypto.rs)

    One Module per attribute, with its data, parser and printer. *)
From S2P Require Import Prelude Text SipNames SipParse SipUri SdpFields.

(** [is_whitespace] negated, as the closures of the code have it *)
Definition non_whitespace (c : str) : bool := negb (is_whitespace c).

(** [str::split_once] at a byte *)
Fixpoint split_once (b : byte) (s : str) : option (str * str) :=
  match s with
  | [] => None
  | c :: s => if decide (c = b) then Some ([], s) else '(x, y) ← split_once b s; Some (c :: x, y)
  end.

(** [u8::from_str_radix(_, 16)]: an optional plus sign, at least one digit, no
    overflow *)
Definition add_hex (w : Z) (acc : option Z) (b : byte) : option Z :=
  a ← acc; d ← hex_val b; if decide (uint w (a * 16 + d)) then Some (a * 16 + d)%Z else None.
Definition from_hex (w : Z) (s : str) : option Z :=
  let s := match s with b :: r => if decide (b = x2b /\ r <> []) then r else s | [] => s end in
  if decide (s = []) then None else foldl (add_hex w) (Some 0%Z) s.

(** ** direction.rs *)
Module Direction.
Inductive t := SendRecv | RecvOnly | SendOnly | Inactive.
#[global] Instance eq_dec : EqDecision t.
Proof. solve_decision. Defined.
Definition default : t := SendRecv.

Definition flipped (d : t) : t :=
  match d with SendRecv => d | RecvOnly => SendOnly | SendOnly => RecvOnly | Inactive => d end.
Definition as_str (d : t) : str :=
  match d with
  | SendRecv => lit "sendrecv" | RecvOnly => lit "recvonly"
  | SendOnly => lit "sendonly" | Inactive => lit "inactive"
  end.
End Direction.

(** ** setup.rs *)
Module Setup.
Inductive t := Active | Passive | ActPass | HoldConn.
Definition as_str (s : t) : str :=
  match s with
  | Active => lit "active" | Passive => lit "passive" | ActPass => lit "actpass" | HoldConn => lit "holdconn"
  end.
End Setup.

(** ** candidate.rs *)
Module UntaggedAddress.
Inductive t := Fqdn (name : str) | IpAddress (a : IpAddr).

Section untagged_address.
Context {N : Combinators} {I6 : Ip6Text}.

Definition parse : parser t :=
  map (take_while probe_host6)
    (fun address => match ip_from_str address with Some address => IpAddress address | None => Fqdn address end).
Definition print (a : t) : str :=
  match a with Fqdn str => str | IpAddress addr => ip_to_string addr end.
End untagged_address.
End UntaggedAddress.

Module IceCandidate.
Record t := {
  foundation : str;
  component : Z;
  transport : str;
  priority : Z;
  address : UntaggedAddress.t;
  port : Z;
  typ : str;
  rel_addr : option UntaggedAddress.t;
  rel_port : option Z;
  unknown : list (str * str) }.

Section candidate.
Context {N : Combinators} {M : MoreCombinators} {I6 : Ip6Text}.

(** The loop over the extensions *)
Definition extension (acc : option (option UntaggedAddress.t * option Z * list (str * str))) (p : str * str)
    : option (option UntaggedAddress.t * option Z * list (str * str)) :=
  '(rel_addr, rel_port, unknown) ← acc;
  let '(key, value) := p in
  if decide (key = lit "raddr") then
    '(_, a) ← UntaggedAddress.parse value; Some (Some a, rel_port, unknown)
  else if decide (key = lit "rport") then
    port ← parse_uint 16 value; Some (rel_addr, Some port, unknown)
  else Some (rel_addr, rel_port, unknown ++ [(key, value)]).

Definition parse : parser t :=
  map_res
    (tuple (take_while_m_n 1 32 ice_char)
    (tuple (ws6 (dec 32) (take_while not_whitespace) (dec 64) UntaggedAddress.parse (dec 16)
                (preceded (tag (lit "typ")) (ws1 (take_while1 not_whitespace))))
           (many0 (ws (take_while1 not_whitespace) (take_while1 not_whitespace)))))
    (fun '(foundation, ((component, transport, priority, address, port, type_), p_ext)) =>
       '(rel_addr, rel_port, unknown) ← foldl extension (Some (None, None, [])) p_ext;
       Some {| foundation := foundation; component := component; transport := transport; priority := priority;
               address := address; port := port; typ := type_; rel_addr := rel_addr; rel_port := rel_port;
               unknown := unknown |}).
Definition print (c : t) : str :=
  foundation c ++ lit " " ++ print_uint (component c) ++ lit " " ++ transport c ++ lit " " ++
  print_uint (priority c) ++ lit " " ++ UntaggedAddress.print (address c) ++ lit " " ++
  print_uint (port c) ++ lit " typ " ++ typ c ++
  match rel_addr c with Some rel_addr => lit " raddr " ++ UntaggedAddress.print rel_addr | None => [] end ++
  match rel_port c with Some rel_port => lit " rport " ++ print_uint rel_port | None => [] end ++
  concat ((fun '(key, value) => lit " " ++ key ++ lit " " ++ value) <$> unknown c).
End candidate.
End IceCandidate.

(** ** extmap.rs *)
Module ExtMap.
Record t := { id : Z; uri : str; direction : Direction.t }.

Definition parse `{Combinators} : parser t :=
  map (tuple (dec 8)
      (tuple (opt (alt (map (tag (lit "/sendrecv")) (fun _ => Direction.SendRecv))
                  (alt (map (tag (lit "/recvonly")) (fun _ => Direction.RecvOnly))
                  (alt (map (tag (lit "/sendonly")) (fun _ => Direction.SendOnly))
                       (map (tag (lit "/inactive")) (fun _ => Direction.Inactive))))))
             (preceded (take_while is_whitespace) (take_while non_whitespace))))
    (fun '(id, (direction, uri)) =>
       {| id := id; uri := trim uri; direction := default Direction.SendRecv direction |}).
Definition print (e : t) : str :=
  print_uint (id e) ++
  if decide (direction e = Direction.SendRecv) then lit " " ++ uri e
  else lit "/" ++ Direction.as_str (direction e) ++ lit " " ++ uri e.
End ExtMap.

(** ** fingerprint.rs *)
Module FingerprintAlgorithm.
Inductive t := SHA1 | SHA224 | SHA256 | SHA384 | SHA512 | MD5 | MD2 | Other (name : str).
Definition print (a : t) : str :=
  match a with
  | SHA1 => lit "SHA-1" | SHA224 => lit "SHA-224" | SHA256 => lit "SHA-256" | SHA384 => lit "SHA-384"
  | SHA512 => lit "SHA-512" | MD5 => lit "MD5" | MD2 => lit "MD2" | Other str => str
  end.
End FingerprintAlgorithm.

Module Fingerprint.
Record t := { algorithm : FingerprintAlgorithm.t; fingerprint : list Z }.

Section fingerprint.
Context {N : Combinators} {M : MoreCombinators} {TNC : Nom}.

Definition parse_algorithm : parser FingerprintAlgorithm.t :=
  alt (map (SipUri.tag_nc (lit "SHA-1")) (fun _ => FingerprintAlgorithm.SHA1))
  (alt (map (SipUri.tag_nc (lit "SHA-224")) (fun _ => FingerprintAlgorithm.SHA224))
  (alt (map (SipUri.tag_nc (lit "SHA-256")) (fun _ => FingerprintAlgorithm.SHA256))
  (alt (map (SipUri.tag_nc (lit "SHA-384")) (fun _ => FingerprintAlgorithm.SHA384))
  (alt (map (SipUri.tag_nc (lit "SHA-512")) (fun _ => FingerprintAlgorithm.SHA512))
  (alt (map (SipUri.tag_nc (lit "MD5")) (fun _ => FingerprintAlgorithm.MD5))
  (alt (map (SipUri.tag_nc (lit "MD2")) (fun _ => FingerprintAlgorithm.MD2))
       (map (take_while1 not_whitespace) FingerprintAlgorithm.Other))))))).
Definition parse : parser t :=
  map (separated_pair parse_algorithm (take_while1 is_whitespace)
         (separated_list1 (char_ x3a) (map_res (take_n 2) (from_hex 8))))
    (fun '(algorithm, fingerprint) => {| algorithm := algorithm; fingerprint := fingerprint |}).

(** [{b:2X}] pads with a space, [{b:02X}] with a zero. *)
Definition upper_hex (pad : byte) (b : Z) : str :=
  if (b <? 16)%Z then [pad; hex_digit b] else [hex_digit (b / 16); hex_digit (b mod 16)].
Definition print (f : t) : str :=
  FingerprintAlgorithm.print (algorithm f) ++ lit " " ++
  match fingerprint f with
  | [] => []
  | b :: iter => upper_hex x20 b ++ concat ((fun b => lit ":" ++ upper_hex x30 b) <$> iter)
  end.
End fingerprint.
End Fingerprint.

(** ** fmtp.rs *)
Module Fmtp.
Record t := { format : Z; params : str }.
Definition parse `{Combinators} : parser t :=
  map (ws (dec 8) (fun remaining => Some ([], remaining)))
    (fun '(format, params) => {| format := format; params := params |}).
Definition print (f : t) : str := print_uint (format f) ++ lit " " ++ params f.
End Fmtp.

(** ** group.rs *)
Module Group.
Record t := { typ : str; mids : list str }.
Definition parse `{Combinators, MoreCombinators} : parser t :=
  map (tuple (take_while non_whitespace)
      (tuple (take_while is_whitespace)
             (separated_list1 (take_while1 is_whitespace) (take_while non_whitespace))))
    (fun '(typ, (_, mids)) => {| typ := typ; mids := mids |}).
Definition print (g : t) : str := typ g ++ concat ((fun mid => lit " " ++ mid) <$> mids g).
End Group.

(** ** ice.rs *)
Module IceOptions.
Record t := { options : list str }.
Definition default : t := {| options := [] |}.
Definition parse `{Combinators, MoreCombinators} : parser t :=
  map (many1 (take_while1 ice_char)) (fun options => {| options := options |}).
Definition print (o : t) : str := concat ((fun option => lit " " ++ option) <$> options o).
End IceOptions.

Module IceUsernameFragment.
Record t := { ufrag : str }.
Definition parse `{MoreCombinators, Combinators} : parser t :=
  map (take_while_m_n 4 256 ice_char) (fun ufrag => {| ufrag := ufrag |}).
End IceUsernameFragment.

Module IcePassword.
Record t := { pwd : str }.
Definition parse `{MoreCombinators, Combinators} : parser t :=
  map (take_while_m_n 22 256 ice_char) (fun pwd => {| pwd := pwd |}).
End IcePassword.

(** ** rtcp.rs *)
Module Rtcp.
Record t := { port : Z; address : option TaggedAddress.t }.

Section rtcp.
Context {N : Combinators} {I6 : Ip6Text}.

Definition parse : parser t :=
  map (tuple (dec 16) (opt (ws1 TaggedAddress.parse)))
    (fun '(port, address) => {| port := port; address := address |}).
Definition print (r : t) : str :=
  print_uint (port r) ++
  match address r with Some address => lit " " ++ TaggedAddress.print address | None => [] end.
End rtcp.
End Rtcp.

(** ** rtpmap.rs *)
Module RtpMap.
Record t := { payload : Z; encoding : str; clock_rate : Z; params : option str }.

Definition not_slash (c : str) : bool := negb (bool_decide (c = lit "/")).
Definition parse `{Combinators} : parser t :=
  map (tuple (dec 8)
      (tuple (ws1 (terminated (take_while not_slash) (tag (lit "/"))))
      (tuple (dec 32)
             (opt (preceded (tag (lit "/")) (fun rem => Some ([], rem)))))))
    (fun '(payload, (encoding, (clock_rate, params))) =>
       {| payload := payload; encoding := encoding; clock_rate := clock_rate; params := params |}).
Definition print (r : t) : str :=
  print_uint (payload r) ++ lit " " ++ encoding r ++ lit "/" ++ print_uint (clock_rate r) ++
  match params r with Some params => lit "/" ++ params | None => [] end.
End RtpMap.

(** ** ssrc.rs *)
Module SourceAttribute.
Inductive t :=
| CName (cname : str)
| PreviousSsrc (ssrc : Z)
| Fmtp (pt : Z) (params : str)
| Other (name : str) (value : option str).
End SourceAttribute.

Module Ssrc.
Record t := { ssrc : Z; attribute : SourceAttribute.t }.

Definition parse `{Combinators, MoreCombinators} : parser t :=
  map (separated_pair u32 (take_while1 is_whitespace)
    (alt (map (preceded (tag (lit "cname:")) (take_while1 non_whitespace)) SourceAttribute.CName)
    (alt (map (preceded (tag (lit "previous-ssrc:")) u32) SourceAttribute.PreviousSsrc)
    (alt (map (tuple (preceded (tag (lit "fmtp:")) u8)
                     (preceded (take_while1 is_whitespace) (take_while1 not_whitespace)))
            (fun '(pt, params) => SourceAttribute.Fmtp pt params))
         (map (tuple (is_not (lit ":")) (opt (preceded (char_ x3a) (take_while1 (fun _ => true)))))
            (fun '(key, value) => SourceAttribute.Other key value))))))
    (fun '(ssrc, attribute) => {| ssrc := ssrc; attribute := attribute |}).
Definition print (s : t) : str :=
  print_uint (ssrc s) ++ lit " " ++
  match attribute s with
  | SourceAttribute.CName cname => lit "cname:" ++ cname
  | SourceAttribute.PreviousSsrc ssrc => lit "previous-ssrc:" ++ print_uint ssrc
  | SourceAttribute.Fmtp pt params => lit "fmtp:" ++ print_uint pt ++ lit " " ++ params
  | SourceAttribute.Other name (Some value) => name ++ lit ":" ++ value
  | SourceAttribute.Other name None => name
  end.
End Ssrc.

(** ** mod.rs *)
Module UnknownAttribute.
Record t := { name : str; value : option str }.
Definition parse (line : str) : t :=
  match split_once x3a line with
  | None => {| name := line; value := None |}
  | Some (name, value) => {| name := name; value := Some value |}
  end.
Definition print (a : t) : str :=
  lit "a=" ++ name a ++ match value a with Some value => lit ":" ++ value | None => [] end.
End UnknownAttribute.
