(* ===== verification/SdpAttributesProps.v ===== *)
(** * Parsing undoes printing, on the attributes of a session description
    (sdp-types/src/attributes/*.rs but crypto.rs)

    As in [SdpFieldsProps]; and the attributes that are printed so that they
    are not read: ICE options, and fingerprints whose first byte is small. *)
From S2P Require Import Prelude Text SipNames SipMessages SipParse SipUri SipUriProps SdpFields SdpFieldsProps SdpAttributes.
#[local] Arguments print_uint : simpl never.
#[local] Arguments lit : simpl never.

(** ** Classes of characters *)
Definition visible (s : str) : bool := forallb (in_range 0x21 0x7e) s.

Lemma word_split s : word s = true <-> s <> [] /\ visible s = true.
Proof. unfold word, visible. rewrite andb_true_iff, negb_true_iff, bool_decide_eq_false. done. Qed.

Lemma stops_head (p : str -> bool) b r : in_range 0 127 b = true -> p [b] = false -> stops p (b :: r).
Proof. intros Hb Hp. unfold stops. rewrite (char_len_ascii b Hb). done. Qed.

Lemma stops_space (p : str -> bool) r : p [x20] = false -> stops p (lit " " ++ r).
Proof. by apply stops_head. Qed.

Lemma stops_word (p : str -> bool) s r :
  (forall b, in_range 0x21 0x7e b = true -> p [b] = false) -> word s = true -> stops p (s ++ r).
Proof.
  intros Hp [Hne Hs]%word_split. destruct s as [|b s]; [done|]. cbn in Hs. apply andb_true_iff in Hs as [Hb _].
  apply stops_head; [|by apply Hp]. clear -Hb. revert b Hb. by_bytes.
Qed.

Lemma stops_visible (p : str -> bool) s :
  (forall b, in_range 0x21 0x7e b = true -> p [b] = false) -> visible s = true -> stops p s.
Proof.
  intros Hp Hs. destruct s as [|b s]; [done|]. rewrite <-(app_nil_r (b :: s)). apply stops_word; [done|].
  by apply word_split.
Qed.

Lemma visible_space : forall b, in_range 0x21 0x7e b = true -> is_whitespace [b] = false.
Proof. by_bytes. Qed.

Lemma sdp_visible_app s t : visible (s ++ t) = (visible s && visible t)%bool.
Proof. apply forallb_app. Qed.

Lemma visible_uint z : (0 <= z)%Z -> visible (print_uint z) = true.
Proof.
  intros Hz. apply forallb_forall. intros b Hb. pose proof (print_uint_visible z Hz) as H.
  rewrite Forall_forall in H. by apply H, list_elem_of_In.
Qed.

Lemma span_chars_parts p fuel i : (span_chars p fuel i).1 ++ (span_chars p fuel i).2 = i.
Proof.
  revert i. induction fuel as [|fuel IH]; intros [|b i]; try done. cbn [span_chars].
  destruct (p _); [|done]. specialize (IH (drop (char_len b) (b :: i))).
  destruct (span_chars p fuel (drop (char_len b) (b :: i))) as [t rest]. cbn [fst snd] in *. rewrite <-app_assoc, IH.
  apply take_drop.
Qed.

Lemma char_len_pos b : exists n, char_len b = S n.
Proof. unfold char_len. repeat destruct (in_range _ _ b); by eexists. Qed.

(** All characters *)
Lemma chars_while_true i : chars_while (fun _ => true) i = (i, []).
Proof.
  unfold chars_while. assert (forall fuel i, length i <= fuel -> span_chars (fun _ => true) fuel i = (i, [])) as H; [|by apply H].
  clear. induction fuel as [|fuel IH]; intros [|b i] Hf; try done; [cbn in Hf; lia|].
  cbn [span_chars]. destruct (char_len_pos b) as [n Hn]. rewrite IH.
  - by rewrite take_drop.
  - rewrite Hn, length_drop. cbn in *. lia.
Qed.

Section attribute_reading.
Context {NC : Combinators} {NL : CombinatorLaws NC} {M : MoreCombinators} {ML : MoreLaws NC M}.

Lemma take_while1_consumes p : consumes (take_while1 p).
Proof.
  intros i r x. rewrite take_while1_law. unfold chars_while. pose proof (span_chars_parts p (length i) i) as H.
  destruct (span_chars p (length i) i) as [a r']. cbn in H. destruct (decide (a = [])) as [|Ha]; [done|].
  intros [= -> ->]. rewrite <-H, length_app. destruct x; [done|cbn; lia].
Qed.

Lemma char_consumes b : consumes (char_ b).
Proof.
  intros i r x. rewrite char_law. destruct i as [|c i]; [done|]. case_decide; [|done]. intros [= <- _]. cbn. lia.
Qed.

(** A space is the white space in front of visible text. *)
Lemma space_reads s r : visible s = true -> (s <> [] \/ stops is_whitespace r) ->
  reads (take_while is_whitespace) (lit " ") (lit " ") (s ++ r).
Proof.
  intros Hs Hr. apply take_while_reads; [by repeat constructor|].
  destruct s as [|b s]; [by destruct Hr|]. apply stops_word; [apply visible_space|]. by apply word_split.
Qed.

Lemma space1_reads s r : word s = true -> reads (take_while1 is_whitespace) (lit " ") (lit " ") (s ++ r).
Proof.
  intros Hs. apply take_while1_reads; [done|by repeat constructor|]. apply stops_word; [apply visible_space|done].
Qed.

Lemma visible_reads s r : visible s = true -> stops non_whitespace r -> reads (take_while non_whitespace) s s r.
Proof. intros Hs Hr. apply take_while_reads; [|done]. revert Hs. apply all_of_bytes. by_bytes. Qed.

Lemma take_while_m_n_reads m n (f : byte -> bool) s r : m <= n -> m <= length s <= n ->
  (forall b, f b = true -> in_range 0 127 b = true) -> forallb f s = true -> stops (ascii f) r ->
  reads (take_while_m_n m n (ascii f)) s s r.
Proof.
  intros Hmn Hl Hf Hs Hr. unfold reads. rewrite take_while_m_n_law; [|done|].
  - rewrite chars_while_all; [|by apply (all_of_bytes f); [auto|]|done]. cbn [fst].
    rewrite take_ge by lia. rewrite decide_False by lia. by rewrite drop_app_length.
  - intros [|b [|]] H; try done. by exists b.
Qed.
End attribute_reading.

(** ** Addresses without a tag *)
Definition untagged_ok `{Ip6Text} (a : UntaggedAddress.t) : bool :=
  match a with
  | UntaggedAddress.Fqdn n => negb (bool_decide (n = [])) && forallb host6_byte n && bool_decide (ip_from_str n = None)
  | UntaggedAddress.IpAddress (IpV4 ip) => uint_ok 32 ip
  | UntaggedAddress.IpAddress (IpV6 ip) => uint_ok 128 ip
  end.

Lemma split_byte_elem b c s : c ∈ s -> c <> b -> exists part, part ∈ split_byte b s /\ c ∈ part.
Proof.
  intros Hc Hb. induction s as [|x s IH]; [by apply elem_of_nil in Hc|]. cbn [split_byte].
  apply elem_of_cons in Hc as [<-|Hc].
  - rewrite decide_False by done. destruct (split_byte b s) as [|p ps]; (eexists; split; [left|left]).
  - destruct (IH Hc) as (part & Hp & Hin). destruct (decide (x = b)).
    + exists part. split; [by right|done].
    + destruct (split_byte b s) as [|p ps]; [by apply elem_of_nil in Hp|].
      apply elem_of_cons in Hp as [->|Hp]; [exists (x :: p)|exists part].
      * split; [by left|by right].
      * split; [by right|done].
Qed.

Lemma ip4_octet_colon s : x3a ∈ s -> ip4_octet s = None.
Proof.
  intros Hs. unfold ip4_octet. destruct (forallb dec_digit s) eqn:E; [|done].
  rewrite forallb_forall in E. apply list_elem_of_In, E in Hs. done.
Qed.

Lemma ip4_from_colon s : x3a ∈ s -> ip4_from_str s = None.
Proof.
  intros Hs. destruct (split_byte_elem x2e x3a s Hs) as (part & Hp & Hin%ip4_octet_colon); [done|].
  unfold ip4_from_str. destruct (split_byte x2e s) as [|a [|b [|c [|d [|]]]]]; try done.
  repeat (apply elem_of_cons in Hp as [<-|Hp]; [rewrite Hin; by repeat destruct (ip4_octet _)|]).
  by apply elem_of_nil in Hp.
Qed.

Section untagged.
Context {NC : Combinators} {NL : CombinatorLaws NC} {M : MoreCombinators} {ML : MoreLaws NC M}.
Context {I6 : Ip6Text} {IL : Ip6Laws I6} {IC : Ip6Colons I6}.

Lemma untagged_host a : untagged_ok a = true -> all_of probe_host6 (UntaggedAddress.print a).
Proof using IL.
  destruct a as [n|[ip|ip]]; cbn; intros Ha.
  - apply andb_true_iff in Ha as [[_ Ha]%andb_true_iff _]. by apply host6_bytes.
  - eapply all_of_impl; [|apply ip4_text].
    assert (forall b, probe_host [b] = true -> probe_host6 [b] = true) as H by by_bytes. auto.
  - by apply ip6_host, uint_ok_range.
Qed.

Lemma untagged_word a : untagged_ok a = true -> word (UntaggedAddress.print a) = true.
Proof using IL.
  intros Ha. apply word_split. split.
  - destruct a as [n|[ip|ip]]; cbn in *.
    + apply andb_true_iff in Ha as [[Ha _]%andb_true_iff _]. by apply negb_true_iff, bool_decide_eq_false in Ha.
    + unfold ip4_to_string. intros [H _]%app_eq_nil. revert H. apply print_uint_nonempty, octet_range.
    + by apply ip6_text, uint_ok_range.
  - apply untagged_host in Ha. apply forallb_forall. intros b Hb%list_elem_of_In.
    unfold all_of in Ha. rewrite Forall_forall in Ha. destruct (Ha b Hb) as [_ H]. clear -H. revert b H. by_bytes.
Qed.

Lemma untagged_reads a r : untagged_ok a = true -> stops probe_host6 r ->
  reads UntaggedAddress.parse (UntaggedAddress.print a) a r.
Proof using NL IL IC.
  intros Ha Hr. eassert (a = _) as Ea; [|rewrite Ea at 2; apply map_reads, take_while_reads; [by apply untagged_host|done]].
  unfold ip_from_str. destruct a as [n|[ip|ip]]; cbn in *.
  - apply andb_true_iff in Ha as [_ Ha%bool_decide_eq_true]. unfold ip_from_str in Ha.
    destruct (ip4_from_str n); [done|]. destruct (ip6_from_str n); done.
  - by rewrite ip4_read by (by apply uint_ok_range).
  - apply uint_ok_range in Ha. rewrite ip4_from_colon by (by apply ip6_colons). by rewrite ip6_read.
Qed.
End untagged.

(** ** Candidates *)
Definition ice_byte (b : byte) : bool := (alphanumeric b || bool_decide (b ∈ lit "+/"))%bool.

Definition pair_ok (p : str * str) : bool :=
  word p.1 && word p.2 && negb (bool_decide (p.1 = lit "raddr")) && negb (bool_decide (p.1 = lit "rport")).

Definition candidate_ok `{Ip6Text} (c : IceCandidate.t) : bool :=
  bool_decide (1 <= length (IceCandidate.foundation c) <= 32) && forallb ice_byte (IceCandidate.foundation c) &&
  uint_ok 32 (IceCandidate.component c) && word (IceCandidate.transport c) && uint_ok 64 (IceCandidate.priority c) &&
  untagged_ok (IceCandidate.address c) && uint_ok 16 (IceCandidate.port c) && word (IceCandidate.typ c) &&
  opt_ok untagged_ok (IceCandidate.rel_addr c) && opt_ok (uint_ok 16) (IceCandidate.rel_port c) &&
  forallb pair_ok (IceCandidate.unknown c).

(** The extensions as they are printed *)
Definition pairs_text (l : list (str * str)) : str := concat ((fun '(key, value) => lit " " ++ key ++ lit " " ++ value) <$> l).
Definition extensions `{Ip6Text} (c : IceCandidate.t) : list (str * str) :=
  match IceCandidate.rel_addr c with Some a => [(lit "raddr", UntaggedAddress.print a)] | None => [] end ++
  match IceCandidate.rel_port c with Some p => [(lit "rport", print_uint p)] | None => [] end ++
  IceCandidate.unknown c.

Lemma pairs_text_app l l' : pairs_text (l ++ l') = pairs_text l ++ pairs_text l'.
Proof. unfold pairs_text. by rewrite fmap_app, concat_app. Qed.

Lemma pairs_text_end l : pairs_text l = [] \/ exists s, pairs_text l = lit " " ++ s.
Proof. destruct l as [|[k v] l]; [by left|right]. unfold pairs_text. cbn. rewrite <-app_assoc. by eexists. Qed.

Lemma pairs_text_stops l : stops not_whitespace (pairs_text l).
Proof. destruct (pairs_text_end l) as [->|[s ->]]; [done|by apply stops_space]. Qed.

Section candidates.
Context {NC : Combinators} {NL : CombinatorLaws NC} {M : MoreCombinators} {ML : MoreLaws NC M}.
Context {I6 : Ip6Text} {IL : Ip6Laws I6} {IC : Ip6Colons I6}.

Lemma extensions_text c :
  match IceCandidate.rel_addr c with Some a => lit " raddr " ++ UntaggedAddress.print a | None => [] end ++
  match IceCandidate.rel_port c with Some p => lit " rport " ++ print_uint p | None => [] end ++
  concat ((fun '(key, value) => lit " " ++ key ++ lit " " ++ value) <$> IceCandidate.unknown c) = pairs_text (extensions c).
Proof.
  unfold extensions. rewrite !pairs_text_app. f_equal; [|f_equal].
  - destruct (IceCandidate.rel_addr c) as [a|]; [|done]. unfold pairs_text. cbn. by rewrite app_nil_r.
  - destruct (IceCandidate.rel_port c) as [p|]; [|done]. unfold pairs_text. cbn. by rewrite app_nil_r.
Qed.

Lemma pairs_read l : Forall (fun p => word p.1 = true /\ word p.2 = true) l ->
  reads (many0 (ws (take_while1 not_whitespace) (take_while1 not_whitespace))) (pairs_text l) l [].
Proof using NL.
  induction 1 as [|[k v] l [Hk Hv] Hl IH].
  - apply many0_reads_nil. rewrite ws_skip. by rewrite take_while1_nothing.
  - apply (many0_reads_cons _ (lit " " ++ k ++ lit " " ++ v)); [done| |done].
    eapply reads_eq; [apply (ws_reads _ _ (lit " " ++ k) (lit " " ++ v))|by rewrite <-app_assoc].
    + apply after_ws_space; [by apply starts_text_word|]. apply word1_reads; [done|by apply stops_space].
    + apply after_ws_space; [by apply starts_text_word|]. apply word1_reads; [done|]. rewrite app_nil_r.
      apply pairs_text_stops.
Qed.

Lemma unknown_extensions l : forallb pair_ok l = true -> forall a p u,
  foldl IceCandidate.extension (Some (a, p, u)) l = Some (a, p, u ++ l).
Proof.
  induction l as [|[k v] l IH]; intros Hl a p u; [by rewrite app_nil_r|].
  cbn in Hl. apply andb_true_iff in Hl as [Hp Hl]. unfold pair_ok in Hp.
  rewrite !andb_true_iff, !negb_true_iff, !bool_decide_eq_false in Hp. destruct Hp as [[_ H1] H2].
  cbn [foldl]. unfold IceCandidate.extension at 2. cbn [mbind option_bind]. cbn in H1, H2.
  rewrite !decide_False by done. by rewrite IH, <-app_assoc.
Qed.

Lemma extensions_fold c : opt_ok untagged_ok (IceCandidate.rel_addr c) = true ->
  opt_ok (uint_ok 16) (IceCandidate.rel_port c) = true -> forallb pair_ok (IceCandidate.unknown c) = true ->
  foldl IceCandidate.extension (Some (None, None, [])) (extensions c) =
  Some (IceCandidate.rel_addr c, IceCandidate.rel_port c, IceCandidate.unknown c).
Proof using NL IL IC.
  intros Ha Hp Hu. unfold extensions. rewrite !foldl_app.
  assert (foldl IceCandidate.extension (Some (None, None, []))
    match IceCandidate.rel_addr c with Some a => [(lit "raddr", UntaggedAddress.print a)] | None => [] end =
    Some (IceCandidate.rel_addr c, None, [])) as ->.
  { destruct (IceCandidate.rel_addr c) as [a|]; [|done]. cbn. pose proof (untagged_reads a [] Ha ltac:(done)) as Hr.
    unfold reads in Hr. rewrite app_nil_r in Hr. by rewrite Hr. }
  assert (foldl IceCandidate.extension (Some (IceCandidate.rel_addr c, None, []))
    match IceCandidate.rel_port c with Some p => [(lit "rport", print_uint p)] | None => [] end =
    Some (IceCandidate.rel_addr c, IceCandidate.rel_port c, [])) as ->.
  { destruct (IceCandidate.rel_port c) as [p|]; [|done]. cbn. by rewrite parse_print_uint by (lia || by apply uint_ok_range). }
  by rewrite unknown_extensions.
Qed.

Lemma extensions_words c : opt_ok untagged_ok (IceCandidate.rel_addr c) = true ->
  opt_ok (uint_ok 16) (IceCandidate.rel_port c) = true -> forallb pair_ok (IceCandidate.unknown c) = true ->
  Forall (fun p => word p.1 = true /\ word p.2 = true) (extensions c).
Proof using IL.
  intros Ha Hp Hu. unfold extensions. repeat (apply Forall_app; split).
  - destruct (IceCandidate.rel_addr c); repeat constructor. by apply untagged_word.
  - destruct (IceCandidate.rel_port c); repeat constructor. cbn in Hp. apply uint_ok_range in Hp.
    apply word_split. split; [apply print_uint_nonempty, Hp|apply visible_uint, Hp].
  - apply Forall_forall. intros p Hin%list_elem_of_In. rewrite forallb_forall in Hu. specialize (Hu p Hin).
    unfold pair_ok in Hu. rewrite !andb_true_iff in Hu. tauto.
Qed.

Lemma candidate_reads c : candidate_ok c = true -> reads IceCandidate.parse (IceCandidate.print c) c [].
Proof using NL ML IL IC.
  unfold candidate_ok. rewrite !andb_true_iff, bool_decide_eq_true.
  intros [[[[[[[[[[Hl Hf] Hc%uint_ok_range] Ht] Hp%uint_ok_range] Ha] Hport%uint_ok_range] Hty] Hra] Hrp] Hu].
  unfold IceCandidate.print. rewrite (extensions_text c).
  assert (stops not_whitespace (pairs_text (extensions c) ++ [])) as Hend.
  { rewrite app_nil_r. apply pairs_text_stops. }
  eapply map_res_reads; [eapply reads_eq; [eapply tuple_reads;
    [apply take_while_m_n_reads with (f := ice_byte); [lia|exact Hl|by_bytes|done|]
    |eapply tuple_reads; [eapply ws6_reads; [eapply ws5_reads;
      [apply (ws4_reads _ _ _ _ (lit " " ++ print_uint (IceCandidate.component c)) (lit " " ++ IceCandidate.transport c)
         (lit " " ++ print_uint (IceCandidate.priority c)) (lit " " ++ UntaggedAddress.print (IceCandidate.address c)))
      |apply after_ws_space; [apply starts_text_uint, Hport|apply dec_reads; [done|exact Hport|]]]
      |apply (after_ws_space _ (lit "typ" ++ (lit " " ++ IceCandidate.typ c)))]
      |apply pairs_read; by apply extensions_words]]|]|].
  - by apply stops_space.
  - apply after_ws_space; [apply starts_text_uint, Hc|by apply dec_reads].
  - apply after_ws_space; [by apply starts_text_word|]. apply word_reads; [done|by apply stops_space].
  - apply after_ws_space; [apply starts_text_uint, Hp|by apply dec_reads].
  - apply after_ws_space; [by apply starts_text_word, untagged_word|]. apply untagged_reads; [done|by apply stops_space].
  - done.
  - done.
  - eapply preceded_reads; [apply tag_reads|].
    apply ws1_reads, after_ws_space; [by apply starts_text_word|by apply word1_reads].
  - rewrite <-!app_assoc. done.
  - cbv beta iota. rewrite extensions_fold by done. by destruct c.
Qed.
End candidates.

(** ** Extension maps, formats, RTP maps, groups, RTCP addresses *)
Definition extmap_ok (e : ExtMap.t) : bool := uint_ok 8 (ExtMap.id e) && visible (ExtMap.uri e).
Definition fmtp_ok (f : Fmtp.t) : bool :=
  uint_ok 8 (Fmtp.format f) && match Fmtp.params f with b :: _ => negb (is_ascii_whitespace b) | [] => true end.
Definition rtpmap_ok (r : RtpMap.t) : bool :=
  uint_ok 8 (RtpMap.payload r) && visible (RtpMap.encoding r) && negb (bool_decide (x2f ∈ RtpMap.encoding r)) &&
  uint_ok 32 (RtpMap.clock_rate r).
Definition group_ok (g : Group.t) : bool :=
  visible (Group.typ g) && negb (bool_decide (Group.mids g = [])) && forallb word (Group.mids g).
Definition rtcp_ok `{Ip6Text} (r : Rtcp.t) : bool := uint_ok 16 (Rtcp.port r) && opt_ok tagged_ok (Rtcp.address r).
Definition ufrag_ok (u : IceUsernameFragment.t) : bool :=
  bool_decide (4 <= length (IceUsernameFragment.ufrag u) <= 256) && forallb ice_byte (IceUsernameFragment.ufrag u).
Definition pwd_ok (p : IcePassword.t) : bool :=
  bool_decide (22 <= length (IcePassword.pwd p) <= 256) && forallb ice_byte (IcePassword.pwd p).

Lemma trim_visible_or_empty s : visible s = true -> trim s = s.
Proof.
  intros Hs. destruct s as [|b s]; [done|]. apply trim_visible; [done|]. apply Forall_forall. intros c Hc%list_elem_of_In.
  unfold visible in Hs. rewrite forallb_forall in Hs. by apply Hs.
Qed.

Section attributes.
Context {NC : Combinators} {NL : CombinatorLaws NC} {M : MoreCombinators} {ML : MoreLaws NC M}.
Context {I6 : Ip6Text} {IL : Ip6Laws I6} {IC : Ip6Colons I6}.

Lemma direction_reads d r : d <> Direction.SendRecv ->
  reads (alt (map (tag (lit "/sendrecv")) (fun _ => Direction.SendRecv))
        (alt (map (tag (lit "/recvonly")) (fun _ => Direction.RecvOnly))
        (alt (map (tag (lit "/sendonly")) (fun _ => Direction.SendOnly))
             (map (tag (lit "/inactive")) (fun _ => Direction.Inactive)))))
    (lit "/" ++ Direction.as_str d) d r.
Proof using NL. intros Hd. unfold reads. rewrite !alt_law, !map_law, !tag_law. by destruct d. Qed.

Lemma uri_reads s : visible s = true ->
  reads (preceded (take_while is_whitespace) (take_while non_whitespace)) (lit " " ++ s) s [].
Proof using NL.
  intros Hs. eapply preceded_reads; [apply space_reads; [done|by right]|by apply visible_reads].
Qed.

Lemma extmap_reads e : extmap_ok e = true -> reads ExtMap.parse (ExtMap.print e) e [].
Proof using NL.
  intros [Hi%uint_ok_range Hu]%andb_true_iff. unfold ExtMap.parse, ExtMap.print. destruct e as [i u d]. cbn in *.
  destruct (decide (d = Direction.SendRecv)) as [->|Hd].
  - eassert ({| ExtMap.id := i |} = _) as ->; [|apply map_reads; eapply tuple_reads; [by apply dec_reads|];
      eapply (tuple_reads _ _ []); [apply opt_nothing|by apply uri_reads]].
    + cbv beta iota. by rewrite trim_visible_or_empty.
    + by rewrite !alt_law, !map_law, !tag_law.
  - rewrite (app_assoc (lit "/")).
    eassert ({| ExtMap.id := i |} = _) as ->; [|apply map_reads; eapply tuple_reads; [by apply dec_reads|];
      eapply tuple_reads; [by apply opt_reads, direction_reads|by apply uri_reads]].
    cbv beta iota. by rewrite trim_visible_or_empty.
Qed.

Lemma fmtp_reads f : fmtp_ok f = true -> reads Fmtp.parse (Fmtp.print f) f [].
Proof using NL.
  intros [Hi%uint_ok_range Hp]%andb_true_iff. destruct f as [i p]. cbn in *.
  eassert ({| Fmtp.format := i |} = _) as ->; [|apply map_reads; eapply reads_eq;
    [apply (ws_reads _ _ (print_uint i) (lit " " ++ p))|done]]; [reflexivity|..].
  - apply after_ws_text; [apply starts_text_uint, Hi|by apply dec_reads].
  - apply after_ws_space; [|unfold reads; by rewrite app_nil_r]. rewrite app_nil_r.
    destruct p as [|b p]; [done|]. by apply negb_true_iff in Hp.
Qed.

Lemma rtpmap_reads m : rtpmap_ok m = true -> reads RtpMap.parse (RtpMap.print m) m [].
Proof using NL.
  unfold rtpmap_ok. rewrite !andb_true_iff, negb_true_iff, bool_decide_eq_false.
  intros [[[Hi%uint_ok_range He] Hs] Hc%uint_ok_range]. destruct m as [i e c p]. cbn in *.
  eassert ({| RtpMap.payload := i |} = _) as ->; [|apply map_reads; eapply reads_eq;
    [apply (tuple_reads _ _ (print_uint i) ((lit " " ++ e ++ lit "/") ++ print_uint c ++
       match p with Some p => lit "/" ++ p | None => [] end) i (e, (c, p))); [by apply dec_reads|]|]]; [reflexivity|..].
  - eapply tuple_reads; [apply ws1_reads, after_ws_space|eapply tuple_reads; [apply dec_reads; [done|exact Hc|by destruct p]|]].
    + rewrite <-app_assoc. apply (starts_text_class (in_range 0x21 0x7e)); [by_bytes|done|done].
    + eapply terminated_reads; [|apply tag_reads]. apply take_while_reads; [|done].
      apply Forall_forall. intros b Hb. pose proof He as Hv. unfold visible in Hv. rewrite forallb_forall in Hv.
      specialize (Hv b ltac:(by apply list_elem_of_In)). split; [clear -Hv; revert b Hv; by_bytes|].
      unfold RtpMap.not_slash. apply negb_true_iff, bool_decide_eq_false. intros [= ->]. done.
    + destruct p as [p|].
      * apply opt_reads. eapply preceded_reads; [apply tag_reads|]. unfold reads. by rewrite app_nil_r.
      * apply opt_nothing. by rewrite preceded_law, tag_law.
  - unfold RtpMap.print. cbn. by rewrite <-!app_assoc.
Qed.

Lemma mids_read l : Forall (fun m => word m = true) l ->
  reads (many0 (preceded (take_while1 is_whitespace) (take_while non_whitespace)))
    (concat ((fun mid => lit " " ++ mid) <$> l)) l [] /\
  stops non_whitespace (concat ((fun mid => lit " " ++ mid) <$> l)).
Proof using NL.
  induction 1 as [|m l Hm Hl [IH1 IH2]].
  - split; [|done]. apply many0_reads_nil. by rewrite preceded_law, take_while1_nothing.
  - split; [|by apply stops_space]. apply (many0_reads_cons _ (lit " " ++ m)); [done| |done].
    eapply preceded_reads; [by apply space1_reads|].
    apply visible_reads; [by apply word_split in Hm as [_ Hm]|]. by rewrite app_nil_r.
Qed.

Lemma group_reads g : group_ok g = true -> reads Group.parse (Group.print g) g [].
Proof using NL ML.
  unfold group_ok. rewrite !andb_true_iff, negb_true_iff, bool_decide_eq_false.
  intros [[Ht Hne] Hm]. destruct g as [ty mids]. cbn in *. destruct mids as [|m mids]; [done|].
  cbn in Hm. apply andb_true_iff in Hm as [Hm Hms].
  assert (Forall (fun m => word m = true) mids) as Hw.
  { apply Forall_forall. intros x Hx%list_elem_of_In. rewrite forallb_forall in Hms. by apply Hms. }
  destruct (mids_read mids Hw) as [Hr Hend]. pose proof Hm as [_ Hv]%word_split.
  eassert ({| Group.typ := ty |} = _) as ->; [|apply map_reads; eapply reads_eq;
    [eapply tuple_reads; [apply visible_reads; [exact Ht|]|eapply (tuple_reads _ _ (lit " ") (m ++ _))]|]];
    [reflexivity|by apply stops_space| | |].
  - rewrite <-app_assoc. apply space_reads; [done|]. left. by apply word_split in Hm as [? _].
  - unfold reads. rewrite separated_list1_law by apply take_while1_consumes. rewrite <-app_assoc.
    pose proof (visible_reads m (concat ((fun mid => lit " " ++ mid) <$> mids) ++ []) Hv) as Hread.
    unfold reads in Hread. rewrite Hread by (by rewrite app_nil_r). cbn [mbind option_bind]. by rewrite Hr.
  - unfold Group.print. cbn. by rewrite <-!app_assoc.
Qed.

Lemma rtcp_reads m : rtcp_ok m = true -> reads Rtcp.parse (Rtcp.print m) m [].
Proof using NL IL.
  intros [Hp%uint_ok_range Ha]%andb_true_iff. destruct m as [p a]. cbn in *.
  unfold Rtcp.print. cbn [Rtcp.port Rtcp.address].
  eassert ({| Rtcp.port := p |} = _) as ->; [|apply map_reads, (tuple_reads _ _ _ _ p a);
    [apply dec_reads; [done|exact Hp|by destruct a]|]]; [reflexivity|].
  destruct a as [a|].
  - apply opt_reads, ws1_reads, after_ws_space; [apply tagged_starts|by apply tagged_reads].
  - apply opt_nothing. rewrite ws1_skip. unfold TaggedAddress.parse. by rewrite alt_law, !preceded_law, !tag_law.
Qed.

Lemma ufrag_reads u : ufrag_ok u = true -> reads IceUsernameFragment.parse (IceUsernameFragment.ufrag u) u [].
Proof using NL ML.
  intros [Hl%bool_decide_eq_true Hu]%andb_true_iff.
  eassert (u = _) as Eu; [|rewrite Eu at 2; apply map_reads, take_while_m_n_reads with (f := ice_byte);
    [lia|exact Hl|by_bytes|done|done]]. by destruct u.
Qed.

Lemma pwd_reads p : pwd_ok p = true -> reads IcePassword.parse (IcePassword.pwd p) p [].
Proof using NL ML.
  intros [Hl%bool_decide_eq_true Hu]%andb_true_iff.
  eassert (p = _) as Ep; [|rewrite Ep at 2; apply map_reads, take_while_m_n_reads with (f := ice_byte);
    [lia|exact Hl|by_bytes|done|done]]. by destruct p.
Qed.

(** The first option is printed with a space in front, which is no character
    of an option. *)
Lemma options_nothing o : IceOptions.options o <> [] -> IceOptions.parse (IceOptions.print o) = None.
Proof using NL ML.
  intros Ho. apply map_nothing. rewrite many1_law. unfold IceOptions.print.
  destruct (IceOptions.options o) as [|x xs]; [done|]. cbn. rewrite <-app_assoc.
  by rewrite take_while1_nothing by (by apply stops_space).
Qed.
End attributes.

(** ** Fingerprints *)
Definition known_algorithms : list str :=
  [lit "SHA-1"; lit "SHA-224"; lit "SHA-256"; lit "SHA-384"; lit "SHA-512"; lit "MD5"; lit "MD2"].
Definition algorithm_ok (a : FingerprintAlgorithm.t) : bool :=
  match a with
  | FingerprintAlgorithm.Other n => word n && forallb (fun t => negb (starts_with (lower t) (lower n))) known_algorithms
  | _ => true
  end.
Definition fingerprint_ok (f : Fingerprint.t) : bool :=
  algorithm_ok (Fingerprint.algorithm f) &&
  match Fingerprint.fingerprint f with
  | [] => false
  | b :: iter => bool_decide (16 <= b < 256)%Z && forallb (uint_ok 8) iter
  end.

(** Two digits with zeros in front are read. *)
Definition hex_ok (z : Z) : bool :=
  match Fingerprint.upper_hex x30 z with
  | [h; l] => in_range 0 127 h && in_range 0 127 l && bool_decide (from_hex 8 [h; l] = Some z) && visible [h; l]
  | _ => false
  end.

Lemma upper_hex_ok z : uint 8 z -> hex_ok z = true.
Proof.
  intros Hz. assert (forallb hex_ok (seqZ 0 256) = true) as H by (vm_compute; reflexivity).
  rewrite forallb_forall in H. apply H, list_elem_of_In, elem_of_seqZ. unfold uint in Hz. lia.
Qed.

Lemma visible_ascii s : visible s = true -> is_ascii s.
Proof.
  intros Hs. apply Forall_forall. intros b Hb%list_elem_of_In. unfold visible in Hs. rewrite forallb_forall in Hs.
  specialize (Hs b Hb). clear -Hs. revert b Hs. by_bytes.
Qed.

Lemma space_ascii : is_ascii (lit " ").
Proof. by repeat constructor. Qed.

(** One digit, and a colon *)
Lemma one_digit b : (0 <= b < 16)%Z ->
  in_range 0x21 0x7e (hex_digit b) = true /\ in_range 0 127 (hex_digit b) = true /\ from_hex 8 [hex_digit b; x3a] = None.
Proof.
  intros Hb. assert (forallb (fun b => in_range 0x21 0x7e (hex_digit b) && in_range 0 127 (hex_digit b) &&
    bool_decide (from_hex 8 [hex_digit b; x3a] = None)) (seqZ 0 16) = true) as H by (vm_compute; reflexivity).
  rewrite forallb_forall in H. specialize (H b ltac:(apply list_elem_of_In, elem_of_seqZ; lia)).
  rewrite !andb_true_iff, bool_decide_eq_true in H. tauto.
Qed.

Section fingerprints.
Context {NC : Combinators} {NL : CombinatorLaws NC} {M : MoreCombinators} {ML : MoreLaws NC M}.
Context {TNC : Nom} {TNL : NomLaws TNC}.

Lemma hex_reads z r : uint 8 z ->
  reads (map_res (take_n 2) (from_hex 8)) (Fingerprint.upper_hex x30 z) z r /\ visible (Fingerprint.upper_hex x30 z) = true.
Proof using NL ML.
  intros Hz%upper_hex_ok. unfold hex_ok in Hz. destruct (Fingerprint.upper_hex x30 z) as [|h [|l [|]]]; try done.
  rewrite !andb_true_iff, bool_decide_eq_true in Hz. destruct Hz as [[[Hh Hl] Hv] Hvis]. split; [|done].
  apply map_res_reads with (x := [h; l]); [|done]. unfold reads. rewrite take_n_law. cbn [app take_chars].
  rewrite (char_len_ascii h Hh). cbn [drop take]. rewrite (char_len_ascii l Hl). done.
Qed.

Lemma tag_nc_no t i : is_ascii t -> is_ascii i -> starts_with (lower t) (lower i) = false -> SipUri.tag_nc t i = None.
Proof using TNL.
  intros Ht Hi Hno. unfold SipUri.tag_nc. rewrite tag_no_case_ascii; [|done|by apply Forall_take].
  rewrite decide_False; [done|]. intros E. apply bool_decide_eq_false in Hno. apply Hno.
  by rewrite length_lower, <-lower_take.
Qed.

Lemma tag_nc_reads t r : is_ascii t -> reads (SipUri.tag_nc t) t tt r.
Proof using TNL.
  intros Ht. unfold reads, SipUri.tag_nc. rewrite tag_no_case_ascii; [|done|by rewrite take_app_length].
  rewrite take_app_length, decide_True by done. by rewrite drop_app_length.
Qed.

Lemma algorithm_reads a r : algorithm_ok a = true -> is_ascii r ->
  reads Fingerprint.parse_algorithm (FingerprintAlgorithm.print a) a (lit " " ++ r).
Proof using NL TNL.
  intros Ha Hr. unfold Fingerprint.parse_algorithm.
  assert (forall t s, is_ascii t -> is_ascii s -> starts_with (lower t) (lower s ++ lit " " ++ lower r) = false ->
    forall x, map (SipUri.tag_nc t) (fun _ : unit => x) (s ++ lit " " ++ r) = @None (str * FingerprintAlgorithm.t)) as Hno.
  { intros t s Ht Hs E x. apply map_nothing, tag_nc_no; [done| |by rewrite !lower_app].
    apply Forall_app; split; [done|]; apply Forall_app; split; [apply space_ascii|done]. }
  destruct a as [| | | | | | |n]; cbn [FingerprintAlgorithm.print].
  1-7: solve [repeat first [apply alt_reads_l; eapply (map_reads _ (fun _ => _)), tag_nc_reads, visible_ascii; done
                    |apply alt_reads_r; [apply Hno; [by apply visible_ascii..|done]|]]].
  cbn in Ha. rewrite !andb_true_iff, !negb_true_iff in Ha.
  destruct Ha as [Hw (H1 & H2 & H3 & H4 & H5 & H6 & H7 & _)]. pose proof Hw as [_ Hv%visible_ascii]%word_split.
  do 7 (apply alt_reads_r; [apply Hno; [by apply visible_ascii|done|];
    apply starts_with_word; [done|done|right; by eexists]|]).
  apply map_reads, word1_reads; [done|by apply stops_space].
Qed.

Lemma hexes_read l : Forall (uint 8) l ->
  reads (many0 (preceded (char_ x3a) (map_res (take_n 2) (from_hex 8))))
    (concat ((fun b => lit ":" ++ Fingerprint.upper_hex x30 b) <$> l)) l [] /\
  visible (concat ((fun b => lit ":" ++ Fingerprint.upper_hex x30 b) <$> l)) = true.
Proof using NL ML.
  induction 1 as [|z l Hz Hl [IH1 IH2]].
  - split; [|done]. apply many0_reads_nil. by rewrite preceded_law, char_law.
  - destruct (hex_reads z (concat ((fun b => lit ":" ++ Fingerprint.upper_hex x30 b) <$> l) ++ []) Hz) as [Hr Hv]. split.
    + apply (many0_reads_cons _ (lit ":" ++ Fingerprint.upper_hex x30 z)); [done| |done].
      eapply preceded_reads; [apply (char_reads x3a)|exact Hr].
    + cbn. by rewrite !sdp_visible_app, Hv, IH2.
Qed.

Lemma fingerprint_reads f : fingerprint_ok f = true -> reads Fingerprint.parse (Fingerprint.print f) f [].
Proof using NL ML TNL.
  intros [Ha Hf]%andb_true_iff. destruct f as [a [|b l]]; [done|]. cbn in *.
  apply andb_true_iff in Hf as [Hb%bool_decide_eq_true Hl].
  assert (Forall (uint 8) l) as Hls.
  { apply Forall_forall. intros z Hz%list_elem_of_In. rewrite forallb_forall in Hl. by apply uint_ok_range, Hl. }
  destruct (hexes_read l Hls) as [Hr Hv].
  destruct (hex_reads b (concat ((fun b => lit ":" ++ Fingerprint.upper_hex x30 b) <$> l) ++ [])) as [Hb1 Hb2]; [unfold uint; lia|].
  assert (Fingerprint.upper_hex x20 b = Fingerprint.upper_hex x30 b) as E.
  { unfold Fingerprint.upper_hex. by destruct (Z.ltb_spec b 16); [lia|]. }
  unfold Fingerprint.print. cbn [Fingerprint.algorithm Fingerprint.fingerprint]. rewrite E.
  set (t := Fingerprint.upper_hex x30 b ++ _) in *.
  assert (visible t = true) as Ht by (unfold t; by rewrite sdp_visible_app, Hb2).
  unfold reads. rewrite app_nil_r. unfold Fingerprint.parse. rewrite map_law, separated_pair_law.
  pose proof (algorithm_reads a t Ha (visible_ascii _ Ht)) as Halg. unfold reads in Halg. rewrite Halg. cbn [mbind option_bind].
  assert (word t = true) as Hw by (apply word_split; split; [unfold t; by destruct (Fingerprint.upper_hex x30 b) eqn:?; [unfold Fingerprint.upper_hex in *; destruct (_ <? _)%Z|]|done]).
  pose proof (space1_reads t [] Hw) as Hs. unfold reads in Hs. rewrite app_nil_r in Hs. rewrite Hs. cbn [mbind option_bind].
  rewrite separated_list1_law by apply char_consumes. unfold t.
  unfold reads in Hb1. rewrite !app_nil_r in Hb1. rewrite Hb1. cbn [mbind option_bind].
  unfold reads in Hr. rewrite app_nil_r in Hr. by rewrite Hr.
Qed.

(** A first byte below 16 is padded with a space, which goes with the one
    before, and one digit is left. *)
Lemma fingerprint_nothing a b l : algorithm_ok a = true -> (0 <= b < 16)%Z -> Forall (uint 8) l ->
  Fingerprint.parse (Fingerprint.print {| Fingerprint.algorithm := a; Fingerprint.fingerprint := b :: l |}) = None.
Proof using NL ML TNL.
  intros Ha Hb Hl. destruct (hexes_read l Hl) as [_ Hv].
  unfold Fingerprint.print, Fingerprint.parse. cbn [Fingerprint.algorithm Fingerprint.fingerprint].
  set (ls := concat _) in *.
  assert (Fingerprint.upper_hex x20 b ++ ls = lit " " ++ hex_digit b :: ls) as ->.
  { unfold Fingerprint.upper_hex. by destruct (Z.ltb_spec b 16); [|lia]. }
  destruct (one_digit b Hb) as (Hvis & Hasc & Hno).
  assert (word (hex_digit b :: ls) = true) as Hw by (apply word_split; split; [done|]; cbn; rewrite Hvis; exact Hv).
  assert (is_ascii (lit " " ++ hex_digit b :: ls)) as Hs.
  { apply Forall_app. split; [apply space_ascii|]. apply visible_ascii. by apply word_split in Hw as [_ Hw]. }
  rewrite map_law, separated_pair_law.
  pose proof (algorithm_reads a _ Ha Hs) as Halg. unfold reads in Halg. rewrite Halg. cbn [mbind option_bind].
  assert (reads (take_while1 is_whitespace) (lit "  ") (lit "  ") (hex_digit b :: ls)) as Hsp.
  { apply take_while1_reads; [done|by repeat constructor|]. rewrite <-(app_nil_r (hex_digit b :: ls)).
    by apply stops_word; [apply visible_space|]. }
  unfold reads in Hsp. change (lit " " ++ lit " " ++ hex_digit b :: ls) with (lit "  " ++ hex_digit b :: ls).
  rewrite Hsp. cbn [mbind option_bind]. rewrite separated_list1_law by apply char_consumes.
  rewrite map_res_law, take_n_law. cbn [take_chars]. rewrite (char_len_ascii _ Hasc).
  destruct l as [|c l]; [done|]. unfold ls. cbn [fmap list_fmap concat].
  change (lit ":" ++ ?x) with (x3a :: x). cbn [app drop take take_chars]. cbn [mbind option_bind].
  change (take (char_len x3a) (x3a :: ?x) ++ []) with [x3a]. by rewrite Hno.
Qed.
End fingerprints.

(** ** Sources *)
Definition source_ok (a : SourceAttribute.t) : bool :=
  match a with
  | SourceAttribute.CName cname => word cname
  | SourceAttribute.PreviousSsrc ssrc => uint_ok 32 ssrc
  | SourceAttribute.Fmtp pt params => uint_ok 8 pt && word params
  | SourceAttribute.Other name value =>
      word name && negb (bool_decide (x3a ∈ name)) &&
      match value with
      | Some v => negb (bool_decide (v = [])) && negb (bool_decide (name ∈ [lit "cname"; lit "previous-ssrc"; lit "fmtp"]))
      | None => true
      end
  end.
Definition ssrc_ok (s : Ssrc.t) : bool := uint_ok 32 (Ssrc.ssrc s) && source_ok (Ssrc.attribute s).

(** A tag that ends with a colon is not in front of another name. *)
Lemma colon_tag_no t n r : x3a ∉ n -> x3a ∉ t -> n <> t ->
  (r = [] \/ exists s, r = lit ":" ++ s) -> starts_with (t ++ lit ":") (n ++ r) = false.
Proof.
  intros Hn Ht Hne Hr. apply not_true_iff_false. intros [s Hs]%starts_with_spec. rewrite <-app_assoc in Hs.
  apply app_eq_inv in Hs as [(k & -> & Hs)|(k & -> & Hs)].
  - destruct k as [|b k]; [by rewrite app_nil_r in Hne|]. change (lit ":") with [x3a] in Hs. cbn in Hs.
    injection Hs as <- _. apply Hn. apply elem_of_app. right. by left.
  - destruct k as [|b k]; [by rewrite app_nil_r in Hne|].
    destruct Hr as [->|[r' ->]]; [done|]. change (lit ":") with [x3a] in Hs. cbn in Hs.
    injection Hs as <- _. apply Ht. apply elem_of_app. right. by left.
Qed.

Section sources.
Context {NC : Combinators} {NL : CombinatorLaws NC} {M : MoreCombinators} {ML : MoreLaws NC M}.

Lemma sdp_u32_reads z r : uint 32 z -> no_digit r -> reads u32 (print_uint z) z r.
Proof using NL ML.
  intros Hz Hr. unfold reads. rewrite u32_law, span_stop; [|apply print_uint_digits, Hz|done].
  by rewrite parse_print_uint.
Qed.

Lemma name_reads n r : word n = true -> x3a ∉ n -> (r = [] \/ exists s, r = lit ":" ++ s) -> reads (is_not (lit ":")) n n r.
Proof using NL.
  intros [Hne Hw]%word_split Hn Hr. unfold reads. rewrite is_not_law by (by repeat constructor). rewrite span_stop.
  - by rewrite decide_False.
  - apply Forall_forall. intros b Hb. apply negb_true_iff, bool_decide_eq_false.
    change (lit ":") with [x3a]. intros ->%list_elem_of_singleton. done.
  - by destruct Hr as [->|[s ->]].
Qed.

Lemma other_reads n v : source_ok (SourceAttribute.Other n v) = true ->
  reads (map (tuple (is_not (lit ":")) (opt (preceded (char_ x3a) (take_while1 (fun _ => true)))))
           (fun '(key, value) => SourceAttribute.Other key value))
    (match v with Some v => n ++ lit ":" ++ v | None => n end) (SourceAttribute.Other n v) [].
Proof using NL.
  intros [[Hw Hn%negb_true_iff%bool_decide_eq_false]%andb_true_iff Hv]%andb_true_iff.
  eassert (SourceAttribute.Other n v = _) as ->; [|apply map_reads]; [|destruct v as [v|]].
  2: { eapply (tuple_reads _ _ _ _ n (Some v)); [apply name_reads; [done|done|right; by eexists]|].
    apply opt_reads. eapply preceded_reads; [apply (char_reads x3a)|]. unfold reads.
    rewrite app_nil_r, take_while1_law, chars_while_true.
    apply andb_true_iff in Hv as [Hv%negb_true_iff%bool_decide_eq_false _]. by rewrite decide_False. }
  2: { rewrite <-(app_nil_r n) at 1. apply (tuple_reads _ _ n [] n None); [apply name_reads; [done|done|by left]|].
    apply opt_nothing. by rewrite preceded_law, char_law. }
  done.
Qed.

Definition source_text (a : SourceAttribute.t) : str :=
  match a with
  | SourceAttribute.CName cname => lit "cname:" ++ cname
  | SourceAttribute.PreviousSsrc ssrc => lit "previous-ssrc:" ++ print_uint ssrc
  | SourceAttribute.Fmtp pt params => lit "fmtp:" ++ print_uint pt ++ lit " " ++ params
  | SourceAttribute.Other name (Some value) => name ++ lit ":" ++ value
  | SourceAttribute.Other name None => name
  end.

Lemma source_starts a : source_ok a = true -> exists s r, source_text a = s ++ r /\ word s = true.
Proof.
  intros Ha. destruct a as [c|z|pt p|n v]; cbn [source_text].
  1-3: by eexists _, _.
  cbn in Ha. rewrite !andb_true_iff in Ha. destruct Ha as [[Hw _] _].
  destruct v as [v|]; [by exists n, (lit ":" ++ v)|]. exists n, []. by rewrite app_nil_r.
Qed.

(** The alternatives of [Ssrc.parse] *)
Definition parse_source : parser SourceAttribute.t :=
  alt (map (preceded (tag (lit "cname:")) (take_while1 non_whitespace)) SourceAttribute.CName)
  (alt (map (preceded (tag (lit "previous-ssrc:")) u32) SourceAttribute.PreviousSsrc)
  (alt (map (tuple (preceded (tag (lit "fmtp:")) u8)
                   (preceded (take_while1 is_whitespace) (take_while1 not_whitespace)))
          (fun '(pt, params) => SourceAttribute.Fmtp pt params))
       (map (tuple (is_not (lit ":")) (opt (preceded (char_ x3a) (take_while1 (fun _ => true)))))
          (fun '(key, value) => SourceAttribute.Other key value)))).

Lemma other_no_tag n v x : source_ok (SourceAttribute.Other n v) = true -> x ∈ [lit "cname"; lit "previous-ssrc"; lit "fmtp"] ->
  starts_with (x ++ lit ":") (match v with Some v => n ++ lit ":" ++ v | None => n end) = false.
Proof.
  intros [[_ Hn%negb_true_iff%bool_decide_eq_false]%andb_true_iff Hv]%andb_true_iff Hx.
  assert (x3a ∉ x) as Hxc.
  { intros Hin. repeat (apply elem_of_cons in Hx as [->|Hx]; [by apply (bool_decide_eq_true_2 _) in Hin|]).
    by apply elem_of_nil in Hx. }
  destruct v as [v|].
  - apply andb_true_iff in Hv as [_ Hv%negb_true_iff%bool_decide_eq_false].
    apply colon_tag_no; [done|done|by intros ->|right; by eexists].
  - apply not_true_iff_false. intros [s ->]%starts_with_spec. apply Hn.
    apply elem_of_app. left. apply elem_of_app. right. by left.
Qed.

Lemma source_reads a : source_ok a = true -> reads parse_source (source_text a) a [].
Proof using NL ML.
  intros Ha. unfold parse_source. destruct a as [c|z|pt p|n v].
  - apply alt_reads_l, map_reads. eapply preceded_reads; [apply tag_reads|]. apply word_split in Ha as [Hne Hv].
    apply take_while1_reads; [done| |done]. revert Hv. apply all_of_bytes. by_bytes.
  - apply alt_reads_r; [by rewrite map_law, preceded_law, tag_law|]. apply alt_reads_l, map_reads.
    eapply preceded_reads; [apply tag_reads|]. by apply sdp_u32_reads; [apply uint_ok_range|].
  - cbn in Ha. apply andb_true_iff in Ha as [Hpt%uint_ok_range Hp].
    apply alt_reads_r; [by rewrite map_law, preceded_law, tag_law|].
    apply alt_reads_r; [by rewrite map_law, preceded_law, tag_law|]. apply alt_reads_l.
    eassert (SourceAttribute.Fmtp pt p = _) as ->; [|apply map_reads; eapply reads_eq;
      [apply (tuple_reads _ _ (lit "fmtp:" ++ print_uint pt) (lit " " ++ p) pt p)|]]; [reflexivity|..].
    + eapply preceded_reads; [apply tag_reads|]. by apply u8_reads.
    + eapply preceded_reads; [by apply space1_reads|by apply word1_reads].
    + by rewrite <-app_assoc.
  - change (source_text (SourceAttribute.Other n v)) with (match v with Some v => n ++ lit ":" ++ v | None => n end).
    pose proof (other_no_tag n v) as Hno. pose proof (other_reads n v Ha) as Ho.
    assert (forall x, x ∈ [lit "cname"; lit "previous-ssrc"; lit "fmtp"] ->
      tag (x ++ lit ":") (match v with Some v => n ++ lit ":" ++ v | None => n end ++ []) = None) as Htag.
    { intros x Hx. rewrite app_nil_r. by apply tag_nothing, Hno. }
    apply alt_reads_r; [|apply alt_reads_r; [|apply alt_reads_r; [|done]]]; rewrite map_law, ?tuple_law, preceded_law.
    + pose proof (Htag (lit "cname") ltac:(by left)) as E. change (lit "cname" ++ lit ":") with (lit "cname:") in E. by rewrite E.
    + pose proof (Htag (lit "previous-ssrc") ltac:(by right; left)) as E.
      change (lit "previous-ssrc" ++ lit ":") with (lit "previous-ssrc:") in E. by rewrite E.
    + pose proof (Htag (lit "fmtp") ltac:(by right; right; left)) as E.
      change (lit "fmtp" ++ lit ":") with (lit "fmtp:") in E. by rewrite E.
Qed.

Lemma ssrc_reads s : ssrc_ok s = true -> reads Ssrc.parse (Ssrc.print s) s [].
Proof using NL ML.
  intros [Hs%uint_ok_range Ha]%andb_true_iff. destruct s as [i a]. cbn in Hs, Ha.
  unfold reads, Ssrc.parse. change (Ssrc.print {| Ssrc.ssrc := i; Ssrc.attribute := a |}) with (print_uint i ++ lit " " ++ source_text a).
  rewrite map_law, separated_pair_law, app_nil_r.
  pose proof (sdp_u32_reads i (lit " " ++ source_text a) Hs ltac:(done)) as Hi. unfold reads in Hi. rewrite Hi.
  destruct (source_starts a Ha) as (t & r & Et & Hw). cbn [mbind option_bind].
  pose proof (space1_reads t r Hw) as Hsp. unfold reads in Hsp. rewrite Et, Hsp, <-Et. cbn [mbind option_bind].
  pose proof (source_reads a Ha) as Hr. unfold reads in Hr. rewrite app_nil_r in Hr. unfold parse_source in Hr.
  by rewrite Hr.
Qed.
End sources.
