(* ===== verification/SdpCrypto.v ===== *)
(** * The crypto attribute (sdp-types/src/attributes/crypto.rs)

    Keys, suites and parameters of SRTP sessions. *)
From S2P Require Import Prelude Text SipNames SipParse SipUri SdpFields SdpAttributes.

Definition is_alphanumeric_or_underscore : str -> bool :=
  ascii (fun b => in_range 97 122 b || in_range 65 90 b || in_range 48 57 b || bool_decide (b = x5f))%bool.
Definition is_visible_char : str -> bool := ascii (in_range 0x21 0x7E).
Definition is_base64_char : str -> bool := ascii (fun b => alphanumeric b || bool_decide (b ∈ lit "+/="))%bool.

Module SrtpSuite.
Inductive t :=
| AES_CM_128_HMAC_SHA1_80 | AES_CM_128_HMAC_SHA1_32 | F8_128_HMAC_SHA1_80
| AES_192_CM_HMAC_SHA1_80 | AES_192_CM_HMAC_SHA1_32
| AES_256_CM_HMAC_SHA1_80 | AES_256_CM_HMAC_SHA1_32
| AEAD_AES_128_GCM | AEAD_AES_256_GCM
| Ext (suite : str).

(** [as_str] *)
Definition as_str (s : t) : str :=
  match s with
  | AES_CM_128_HMAC_SHA1_80 => lit "AES_CM_128_HMAC_SHA1_80"
  | AES_CM_128_HMAC_SHA1_32 => lit "AES_CM_128_HMAC_SHA1_32"
  | F8_128_HMAC_SHA1_80 => lit "F8_128_HMAC_SHA1_80"
  | AES_192_CM_HMAC_SHA1_80 => lit "AES_192_CM_HMAC_SHA1_80"
  | AES_192_CM_HMAC_SHA1_32 => lit "AES_192_CM_HMAC_SHA1_32"
  | AES_256_CM_HMAC_SHA1_80 => lit "AES_256_CM_HMAC_SHA1_80"
  | AES_256_CM_HMAC_SHA1_32 => lit "AES_256_CM_HMAC_SHA1_32"
  | AEAD_AES_128_GCM => lit "AEAD_AES_128_GCM"
  | AEAD_AES_256_GCM => lit "AEAD_AES_256_GCM"
  | Ext ext => ext
  end.

(** The order in which [suite!] lists them *)
Definition suites : list t :=
  [AES_CM_128_HMAC_SHA1_80; AES_CM_128_HMAC_SHA1_32; F8_128_HMAC_SHA1_80; AES_192_CM_HMAC_SHA1_80;
   AES_192_CM_HMAC_SHA1_32; AES_256_CM_HMAC_SHA1_80; AES_256_CM_HMAC_SHA1_32; AEAD_AES_128_GCM; AEAD_AES_256_GCM].
Definition parse `{Combinators} : parser t :=
  foldr (fun suite p => alt (map (tag (as_str suite)) (fun _ => suite)) p)
    (map (take_while1 is_alphanumeric_or_underscore) Ext) suites.

Definition key_and_salt_len (s : t) : option (nat * nat) :=
  match s with
  | AES_CM_128_HMAC_SHA1_80 | AES_CM_128_HMAC_SHA1_32 | F8_128_HMAC_SHA1_80 => Some (16, 14)
  | AES_192_CM_HMAC_SHA1_80 | AES_192_CM_HMAC_SHA1_32 => Some (24, 14)
  | AES_256_CM_HMAC_SHA1_80 | AES_256_CM_HMAC_SHA1_32 => Some (32, 14)
  | AEAD_AES_128_GCM => Some (16, 12)
  | AEAD_AES_256_GCM => Some (32, 12)
  | Ext _ => None
  end.
End SrtpSuite.

(** [number] *)
Definition number `{Combinators} : parser Z := dec 32.

Module SrtpKeyingMaterial.
Record t := { key_and_salt : str; lifetime : option Z; mki : option (Z * Z) }.

(** [2u32.pow(n)], which wraps in the release profile; the build with
    overflow checks panics where [pow_overflows]. *)
Definition pow2 (n : Z) : Z := wrap 32 (2 ^ n).
Definition pow_overflows (n : Z) : bool := (32 <=? n)%Z.

(** [is_power_of_two], [trailing_zeros] *)
Definition is_power_of_two (n : Z) : bool := ((0 <? n) && (n =? 2 ^ Z.log2 n))%Z%bool.
Definition trailing_zeros (n : Z) : Z := Z.log2 (Z.land n (- n)).

Section keying_material.
Context {N : Combinators} {M : MoreCombinators}.

Definition parse_lifetime : parser Z :=
  map (terminated (preceded (char_ x7c) (tuple (opt (tag (lit "2^"))) number)) (peek (not_ (char_ x3a))))
    (fun '(exp, n) => if exp is Some _ then pow2 n else n).
Definition parse : parser t :=
  map (tuple (take_while1 is_base64_char)
      (tuple (opt parse_lifetime)
             (opt (preceded (char_ x7c) (separated_pair number (char_ x3a) number)))))
    (fun '(key_and_salt, (lifetime, mki)) => {| key_and_salt := key_and_salt; lifetime := lifetime; mki := mki |}).
Definition print (k : t) : str :=
  key_and_salt k ++
  match lifetime k with
  | Some lifetime =>
      if is_power_of_two lifetime then lit "|2^" ++ print_uint (trailing_zeros lifetime)
      else lit "|" ++ print_uint lifetime
  | None => []
  end ++
  match mki k with
  | Some (mki, mki_length) => lit "|" ++ print_uint mki ++ lit ":" ++ print_uint mki_length
  | None => []
  end.

(** [parse_srtp_key_params], and the loop that prints them *)
Definition parse_srtp_key_params : parser (list t) :=
  separated_list1 (char_ x3b) (preceded (tag (lit "inline:")) parse).
Fixpoint print_keys (keys : list t) : str :=
  match keys with
  | [] => []
  | key :: keys => lit "inline:" ++ print key ++ (if keys is [] then [] else lit ";") ++ print_keys keys
  end.
End keying_material.
End SrtpKeyingMaterial.

Module SrtpFecOrder.
Inductive t := FecSrtp | SrtpFec.
End SrtpFecOrder.

Module SrtpSessionParam.
Inductive t :=
| Kdr (n : Z)
| UnencryptedSrtp | UnencryptedSrtcp | UnauthenticatedSrtp
| FecOrder (order : SrtpFecOrder.t)
| FecKey (keys : list SrtpKeyingMaterial.t)
| WindowSizeHint (n : Z)
| Ext (ext : str).

Section session_param.
Context {N : Combinators} {M : MoreCombinators}.

Definition parse : parser t :=
  alt (map (preceded (tag (lit "KDR=")) number) Kdr)
  (alt (map (tag (lit "UNENCRYPTED_SRTP")) (fun _ => UnencryptedSrtp))
  (alt (map (tag (lit "UNENCRYPTED_SRTCP")) (fun _ => UnencryptedSrtcp))
  (alt (map (tag (lit "UNAUTHENTICATED_SRTP")) (fun _ => UnauthenticatedSrtp))
  (alt (preceded (tag (lit "FEC_ORDER="))
          (alt (map (tag (lit "FEC_SRTP")) (fun _ => FecOrder SrtpFecOrder.FecSrtp))
               (map (tag (lit "SRTP_FEC")) (fun _ => FecOrder SrtpFecOrder.SrtpFec))))
  (alt (map (preceded (tag (lit "FEC_KEY=")) SrtpKeyingMaterial.parse_srtp_key_params) FecKey)
  (alt (map (preceded (tag (lit "WSH=")) number) WindowSizeHint)
       (map (preceded (peek (not_ (char_ x2d))) (take_while1 is_visible_char)) Ext))))))).
Definition print (p : t) : str :=
  match p with
  | Kdr v => lit "KDR=" ++ print_uint v
  | UnencryptedSrtp => lit "UNENCRYPTED_SRTP"
  | UnencryptedSrtcp => lit "UNENCRYPTED_SRTCP"
  | UnauthenticatedSrtp => lit "UNAUTHENTICATED_SRTP"
  | FecOrder order =>
      lit "FEC_ORDER=" ++
      match order with SrtpFecOrder.FecSrtp => lit "FEC_SRTP" | SrtpFecOrder.SrtpFec => lit "SRTP_FEC" end
  | FecKey keys => if keys is [] then [] else lit "FEC_KEY=" ++ SrtpKeyingMaterial.print_keys keys
  | WindowSizeHint v => lit "WSH=" ++ print_uint v
  | Ext ext => ext
  end.
End session_param.
End SrtpSessionParam.

Module SrtpCrypto.
Record t := {
  tag : Z;
  suite : SrtpSuite.t;
  keys : list SrtpKeyingMaterial.t;
  params : list SrtpSessionParam.t }.

Section crypto.
Context {N : Combinators} {M : MoreCombinators}.

Definition parse : parser t :=
  map (ws4 number SrtpSuite.parse SrtpKeyingMaterial.parse_srtp_key_params
         (separated_list0 (take_while1 is_whitespace) SrtpSessionParam.parse))
    (fun '(tag, suite, keys, params) => {| tag := tag; suite := suite; keys := keys; params := params |}).
Definition print (c : t) : str :=
  print_uint (tag c) ++ lit " " ++ SrtpSuite.as_str (suite c) ++
  (if keys c is [] then [] else lit " ") ++ SrtpKeyingMaterial.print_keys (keys c) ++
  concat ((fun param => lit " " ++ SrtpSessionParam.print param) <$> params c).
End crypto.
End SrtpCrypto.
