(* ===== verification/SdpCryptoProps.v ===== *)
(** * Parsing undoes printing, on the crypto attribute (sdp-types/src/attributes/crypto.rs)

    And the lifetimes of keys that are read as something else. *)
From S2P Require Import Prelude Text SipNames SipMessages SipParse SipUri SipUriProps SdpFields SdpFieldsProps.
From S2P Require Import SdpAttributes SdpAttributesProps SdpCrypto.
#[local] Arguments print_uint : simpl never.
#[local] Arguments lit : simpl never.

(** ** Powers of two *)
Lemma powers_of_two l : uint 32 l -> SrtpKeyingMaterial.is_power_of_two l = true ->
  uint 32 (SrtpKeyingMaterial.trailing_zeros l) /\ SrtpKeyingMaterial.pow2 (SrtpKeyingMaterial.trailing_zeros l) = l.
Proof.
  intros Hl [H0%Z.ltb_lt Hp%Z.eqb_eq]%andb_true_iff.
  assert (0 <= Z.log2 l < 32)%Z as Hk.
  { split; [apply Z.log2_nonneg|]. apply Z.log2_lt_pow2; [done|apply Hl]. }
  rewrite Hp. generalize dependent (Z.log2 l). intros k _ Hk. clear -Hk.
  assert (forallb (fun k => bool_decide (uint 32 (SrtpKeyingMaterial.trailing_zeros (2 ^ k)) /\
    SrtpKeyingMaterial.pow2 (SrtpKeyingMaterial.trailing_zeros (2 ^ k)) = 2 ^ k)%Z) (seqZ 0 32) = true) as H by (vm_compute; reflexivity).
  rewrite forallb_forall in H. specialize (H k ltac:(apply list_elem_of_In, elem_of_seqZ; lia)).
  by apply bool_decide_eq_true in H.
Qed.

(** Two to the power of 32 and above wraps to nothing. *)
Lemma pow2_wraps n : (32 <= n)%Z -> SrtpKeyingMaterial.pow2 n = 0%Z.
Proof.
  intros Hn. unfold SrtpKeyingMaterial.pow2, wrap. replace n with ((n - 32) + 32)%Z by lia.
  rewrite Z.pow_add_r by lia. apply Z_mod_mult.
Qed.

(** ** Keys *)
Definition base64_byte (b : byte) : bool := (alphanumeric b || bool_decide (b ∈ lit "+/="))%bool.
Definition key_ok (k : SrtpKeyingMaterial.t) : bool :=
  negb (bool_decide (SrtpKeyingMaterial.key_and_salt k = [])) && forallb base64_byte (SrtpKeyingMaterial.key_and_salt k) &&
  opt_ok (uint_ok 32) (SrtpKeyingMaterial.lifetime k) &&
  opt_ok (fun m => uint_ok 32 m.1 && uint_ok 32 m.2) (SrtpKeyingMaterial.mki k).

(** What follows a key, and what follows a lifetime *)
Definition key_end (r : str) : Prop := match r with [] => True | b :: _ => b = x3b \/ b = x20 end.
Definition lifetime_end (r : str) : Prop := match r with [] => True | b :: _ => b = x3b \/ b = x20 \/ b = x7c end.

Lemma key_lifetime_end r : key_end r -> lifetime_end r.
Proof. destruct r; cbn; tauto. Qed.

Lemma lifetime_end_digit r : lifetime_end r -> no_digit r.
Proof. destruct r as [|b r]; [done|]. by intros [->|[->| ->]]. Qed.

Lemma no_exponent z r : (0 <= z)%Z -> match r with [] => True | b :: _ => b <> x5e end ->
  starts_with (lit "2^") (print_uint z ++ r) = false.
Proof.
  intros Hz Hr. apply not_true_iff_false. intros [s Hs]%starts_with_spec.
  pose proof (print_uint_digits z Hz) as Hd. pose proof (print_uint_nonempty z Hz).
  change (lit "2^" ++ s) with (x32 :: x5e :: s) in Hs.
  destruct (print_uint z) as [|c [|d l]]; [done| |].
  - cbn in Hs. injection Hs as _ ->. done.
  - cbn in Hs. injection Hs as _ -> _. inversion Hd as [|? ? _ Hd']; subst. inversion Hd' as [|? ? H' _]; subst. done.
Qed.

Section keys.
Context {NC : Combinators} {NL : CombinatorLaws NC} {M : MoreCombinators} {ML : MoreLaws NC M}.

Lemma not_colon_reads r : head r <> Some x3a -> reads (peek (not_ (char_ x3a))) [] tt r.
Proof using NL ML. intros Hr. unfold reads. cbn [app]. by rewrite peek_law, not_law, char_nothing. Qed.

Lemma number_reads z r : uint 32 z -> no_digit r -> reads number (print_uint z) z r.
Proof using NL. by apply dec_reads. Qed.

Definition print_lifetime (l : Z) : str :=
  if SrtpKeyingMaterial.is_power_of_two l then lit "|2^" ++ print_uint (SrtpKeyingMaterial.trailing_zeros l)
  else lit "|" ++ print_uint l.
Definition print_mki (m : Z * Z) : str := lit "|" ++ print_uint m.1 ++ lit ":" ++ print_uint m.2.

Lemma exponent_reads n r : uint 32 n -> lifetime_end r ->
  reads SrtpKeyingMaterial.parse_lifetime (lit "|2^" ++ print_uint n) (SrtpKeyingMaterial.pow2 n) r.
Proof using NL ML.
  intros Hn Hr.
  eassert (SrtpKeyingMaterial.pow2 n = _) as ->; [|apply map_reads; eapply reads_eq;
    [eapply terminated_reads; [eapply (preceded_reads _ _ (lit "|") (lit "2^" ++ print_uint n) _ (Some (lit "2^"), n));
      [apply (char_reads x7c)|eapply tuple_reads; [apply opt_reads, tag_reads|apply number_reads; [done|]]]
      |apply not_colon_reads]|by rewrite app_nil_r]]; [done|by apply lifetime_end_digit|].
  destruct r as [|b r]; [done|]. by destruct Hr as [->|[->| ->]].
Qed.

Lemma lifetime_reads l r : uint 32 l -> lifetime_end r ->
  reads SrtpKeyingMaterial.parse_lifetime (print_lifetime l) l r.
Proof using NL ML.
  intros Hl Hr. unfold print_lifetime. destruct (SrtpKeyingMaterial.is_power_of_two l) eqn:E.
  - destruct (powers_of_two l Hl E) as [Ht Hp]. rewrite <-Hp at 2. by apply exponent_reads.
  - eassert (l = _) as El; [|rewrite El at 2; apply map_reads; eapply reads_eq;
      [eapply terminated_reads; [eapply (preceded_reads _ _ (lit "|") ([] ++ print_uint l) _ (None, l));
        [apply (char_reads x7c)|eapply tuple_reads; [apply opt_nothing, tag_nothing|apply number_reads; [done|]]]
        |apply not_colon_reads]|by rewrite app_nil_r]]; [done| |by apply lifetime_end_digit|].
    + apply no_exponent; [apply Hl|]. destruct r as [|b r]; [done|]. by destruct Hr as [->|[->| ->]].
    + destruct r as [|b r]; [done|]. by destruct Hr as [->|[->| ->]].
Qed.

(** What is read as the lifetime is not, if a colon follows. *)
Lemma lifetime_nothing m r : uint 32 m.1 -> SrtpKeyingMaterial.parse_lifetime (print_mki m ++ r) = None.
Proof using NL ML.
  intros Hm. unfold SrtpKeyingMaterial.parse_lifetime, print_mki. apply map_nothing.
  rewrite terminated_law, preceded_law. change (lit "|") with [x7c]. rewrite <-!app_assoc.
  change ([x7c] ++ ?x) with (x7c :: x). rewrite char_law, decide_True by done. cbn [mbind option_bind].
  rewrite tuple_law, opt_law, tag_nothing by (by apply no_exponent; [apply Hm|]). cbn [mbind option_bind].
  pose proof (number_reads m.1 (lit ":" ++ print_uint m.2 ++ r) Hm ltac:(done)) as Hn. unfold reads in Hn. rewrite Hn.
  cbn [mbind option_bind]. by rewrite peek_law, not_law, char_law.
Qed.

Lemma lifetime_missing r : key_end r -> SrtpKeyingMaterial.parse_lifetime r = None.
Proof using NL.
  intros Hr. apply map_nothing. rewrite terminated_law, preceded_law, char_nothing; [done|].
  destruct r as [|b r]; [done|]. by destruct Hr as [->| ->].
Qed.

Lemma mki_reads m r : uint 32 m.1 -> uint 32 m.2 -> key_end r ->
  reads (preceded (char_ x7c) (separated_pair number (char_ x3a) number)) (print_mki m) m r.
Proof using NL.
  intros H1 H2 Hr. eapply preceded_reads; [apply (char_reads x7c)|]. destruct m as [a b]. cbn in *.
  unfold reads. rewrite separated_pair_law, <-app_assoc.
  pose proof (number_reads a ((lit ":" ++ print_uint b) ++ r) H1 ltac:(done)) as Ha. unfold reads in Ha. rewrite Ha.
  cbn [mbind option_bind]. rewrite <-app_assoc. change (lit ":") with [x3a]. cbn [app].
  rewrite char_law, decide_True by done. cbn [mbind option_bind].
  pose proof (number_reads b r H2 ltac:(by apply lifetime_end_digit, key_lifetime_end)) as Hb. unfold reads in Hb. by rewrite Hb.
Qed.

Lemma key_reads k r : key_ok k = true -> key_end r -> reads SrtpKeyingMaterial.parse (SrtpKeyingMaterial.print k) k r.
Proof using NL ML.
  unfold key_ok. rewrite !andb_true_iff, negb_true_iff, bool_decide_eq_false.
  intros [[[Hne Hk] Hl] Hm] Hr. destruct k as [k l m]. cbn [SrtpKeyingMaterial.key_and_salt SrtpKeyingMaterial.lifetime SrtpKeyingMaterial.mki] in *.
  assert (reads (opt (preceded (char_ x7c) (separated_pair number (char_ x3a) number)))
    (match m with Some m => print_mki m | None => [] end) m r) as Hmki.
  { destruct m as [m|].
    - cbn in Hm. apply andb_true_iff in Hm as [H1%uint_ok_range H2%uint_ok_range]. by apply opt_reads, mki_reads.
    - apply opt_nothing. rewrite preceded_law, char_nothing; [done|].
      destruct r as [|b r]; [done|]. by destruct Hr as [->| ->]. }
  assert (reads (opt SrtpKeyingMaterial.parse_lifetime) (match l with Some l => print_lifetime l | None => [] end) l
    (match m with Some m => print_mki m | None => [] end ++ r)) as Hlife.
  { destruct l as [l|].
    - apply opt_reads, lifetime_reads; [by apply uint_ok_range|]. destruct m as [m|]; [|by apply key_lifetime_end].
      change (x7c = x3b \/ x7c = x20 \/ x7c = x7c). auto.
    - apply opt_nothing. destruct m as [m|]; [|by apply lifetime_missing].
      cbn in Hm. apply andb_true_iff in Hm as [H1%uint_ok_range _]. by apply lifetime_nothing. }
  eassert ({| SrtpKeyingMaterial.key_and_salt := k |} = _) as ->; [|apply map_reads; eapply reads_eq;
    [eapply tuple_reads; [apply take_while1_reads; [exact Hne|by apply (all_of_bytes base64_byte); [by_bytes|]|]
      |eapply tuple_reads; [exact Hlife|exact Hmki]]|]]; [reflexivity|..].
  - destruct l as [l|].
    + unfold print_lifetime. by destruct (SrtpKeyingMaterial.is_power_of_two l).
    + destruct m as [m|]; [done|]. destruct r as [|b r]; [done|]. by destruct Hr as [->| ->].
  - unfold SrtpKeyingMaterial.print. cbn. unfold print_lifetime, print_mki. by destruct l, m as [[]|].
Qed.
End keys.

(** ** Suites *)
Definition suite_ok (s : SrtpSuite.t) : bool :=
  match s with
  | SrtpSuite.Ext e =>
      negb (bool_decide (e = [])) && forallb (fun b => is_alphanumeric_or_underscore [b]) e &&
      forallb (fun t => negb (starts_with (SrtpSuite.as_str t) e)) SrtpSuite.suites
  | _ => true
  end.

(** ** Parameters *)
Definition known_params : list str :=
  [lit "KDR="; lit "UNENCRYPTED_SRTP"; lit "UNENCRYPTED_SRTCP"; lit "UNAUTHENTICATED_SRTP"; lit "FEC_ORDER="; lit "FEC_KEY="; lit "WSH="].
Definition param_ok (p : SrtpSessionParam.t) : bool :=
  match p with
  | SrtpSessionParam.Kdr n | SrtpSessionParam.WindowSizeHint n => uint_ok 32 n
  | SrtpSessionParam.FecKey keys => negb (bool_decide (length keys = 0)) && forallb key_ok keys
  | SrtpSessionParam.Ext e =>
      word e && negb (bool_decide (head e = Some x2d)) && forallb (fun t => negb (starts_with t e)) known_params
  | _ => true
  end.
Definition crypto_ok (c : SrtpCrypto.t) : bool :=
  uint_ok 32 (SrtpCrypto.tag c) && suite_ok (SrtpCrypto.suite c) && negb (bool_decide (length (SrtpCrypto.keys c) = 0)) &&
  forallb key_ok (SrtpCrypto.keys c) && forallb param_ok (SrtpCrypto.params c).

(** Text that ends at a space *)
Definition space_end (r : str) : Prop := r = [] \/ exists s, r = lit " " ++ s.

Lemma space_key_end r : space_end r -> key_end r.
Proof. intros [->|[s ->]]; [done|by right]. Qed.

Lemma space_digit_end r : space_end r -> no_digit r.
Proof. by intros [->|[s ->]]. Qed.

Definition keys_tail (ks : list SrtpKeyingMaterial.t) : str :=
  if ks is [] then [] else lit ";" ++ SrtpKeyingMaterial.print_keys ks.
Definition params_text (ps : list SrtpSessionParam.t) : str :=
  concat ((fun param => lit " " ++ SrtpSessionParam.print param) <$> ps).

Lemma params_text_end ps : space_end (params_text ps).
Proof. destruct ps as [|p ps]; [by left|right]. unfold params_text. cbn. rewrite <-app_assoc. by eexists. Qed.

Lemma print_keys_tail k ks : SrtpKeyingMaterial.print_keys (k :: ks) = (lit "inline:" ++ SrtpKeyingMaterial.print k) ++ keys_tail ks.
Proof. cbn. rewrite <-app_assoc. by destruct ks. Qed.

Section crypto.
Context {NC : Combinators} {NL : CombinatorLaws NC} {M : MoreCombinators} {ML : MoreLaws NC M}.

Lemma suite_reads s r : suite_ok s = true -> space_end r -> reads SrtpSuite.parse (SrtpSuite.as_str s) s r.
Proof using NL.
  intros Hs Hr. unfold SrtpSuite.parse, SrtpSuite.suites. cbn [foldr].
  destruct s as [| | | | | | | | |e];
    try by (cbn [SrtpSuite.as_str]; unfold reads; rewrite !alt_law, !map_law, !tag_law; destruct Hr as [->|[s ->]]; reflexivity).
  cbn [suite_ok] in Hs. rewrite !andb_true_iff, negb_true_iff, bool_decide_eq_false in Hs. destruct Hs as [[Hne He] Hs].
  rewrite forallb_forall in Hs. change (SrtpSuite.as_str (SrtpSuite.Ext e)) with e.
  do 9 (apply alt_reads_r; [apply map_nothing, tag_nothing, starts_with_word;
    [done|apply negb_true_iff, Hs; cbn; tauto|done]|]).
  apply map_reads, take_while1_reads; [done| |by destruct Hr as [->|[s ->]]].
  revert He. apply all_of_bytes. by_bytes.
Qed.

Lemma inline_reads k r : key_ok k = true -> key_end r ->
  reads (preceded (tag (lit "inline:")) SrtpKeyingMaterial.parse) (lit "inline:" ++ SrtpKeyingMaterial.print k) k r.
Proof using NL ML. intros Hk Hr. eapply preceded_reads; [apply tag_reads|by apply key_reads]. Qed.

Lemma keys_tail_reads ks r : forallb key_ok ks = true -> space_end r ->
  reads (many0 (preceded (char_ x3b) (preceded (tag (lit "inline:")) SrtpKeyingMaterial.parse))) (keys_tail ks) ks r.
Proof using NL ML.
  intros Hks Hr. revert Hks. induction ks as [|k ks IH]; intros Hks.
  - apply many0_reads_nil. rewrite preceded_law, char_nothing; [done|]. by destruct Hr as [->|[s ->]].
  - cbn [forallb] in Hks. apply andb_true_iff in Hks as [Hk Hks]. unfold keys_tail at 1. rewrite print_keys_tail, app_assoc.
    apply many0_reads_cons; [done| |by apply IH].
    eapply preceded_reads; [apply (char_reads x3b)|]. apply inline_reads; [done|].
    destruct ks as [|k' ks]; [by apply space_key_end|by left].
Qed.

Lemma keys_read ks r : length ks <> 0 -> forallb key_ok ks = true -> space_end r ->
  reads SrtpKeyingMaterial.parse_srtp_key_params (SrtpKeyingMaterial.print_keys ks) ks r.
Proof using NL ML.
  intros Hne Hks Hr. destruct ks as [|k ks]; [done|]. cbn [forallb] in Hks. apply andb_true_iff in Hks as [Hk Hks].
  rewrite print_keys_tail. unfold reads, SrtpKeyingMaterial.parse_srtp_key_params.
  rewrite separated_list1_law by apply char_consumes. rewrite <-app_assoc.
  pose proof (inline_reads k (keys_tail ks ++ r) Hk ltac:(destruct ks; [by apply space_key_end|by left])) as H1.
  unfold reads in H1. rewrite H1. cbn [mbind option_bind].
  pose proof (keys_tail_reads ks r Hks Hr) as H2. unfold reads in H2. by rewrite H2.
Qed.

Lemma tagged_number_reads t n r : uint 32 n -> space_end r -> reads (preceded (tag t) number) (t ++ print_uint n) n r.
Proof using NL. intros Hn Hr. eapply preceded_reads; [apply tag_reads|]. apply number_reads; [done|by apply space_digit_end]. Qed.

Lemma param_reads p r : param_ok p = true -> space_end r -> reads SrtpSessionParam.parse (SrtpSessionParam.print p) p r.
Proof using NL ML.
  intros Hp Hr. unfold SrtpSessionParam.parse.
  assert (forall A (q : parser A) (f : A -> SrtpSessionParam.t) t i, starts_with t i = false ->
    map (preceded (tag t) q) f i = None) as Hno by (intros A q f t i E; by rewrite map_law, preceded_law, tag_law, E).
  assert (forall (f : str -> SrtpSessionParam.t) t i, starts_with t i = false -> map (tag t) f i = None) as Hno1
    by (intros f t i E; by rewrite map_law, tag_law, E).
  assert (forall (q : parser SrtpSessionParam.t) t i, starts_with t i = false -> preceded (tag t) q i = None) as Hno2
    by (intros q t i E; by rewrite preceded_law, tag_law, E).
  destruct p as [n| | | |o|ks|n|e]; cbn [SrtpSessionParam.print param_ok] in *.
  - apply alt_reads_l, map_reads, tagged_number_reads; [by apply uint_ok_range|done].
  - by destruct Hr as [->|[s ->]]; unfold reads; rewrite !alt_law, Hno, map_law, tag_law.
  - by destruct Hr as [->|[s ->]]; unfold reads; rewrite !alt_law, Hno, !map_law, !tag_law.
  - by destruct Hr as [->|[s ->]]; unfold reads; rewrite !alt_law, Hno, !map_law, !tag_law.
  - do 4 (apply alt_reads_r; [by first [apply Hno|apply Hno1]|]). apply alt_reads_l.
    eapply preceded_reads; [apply tag_reads|]. unfold reads. rewrite alt_law, !map_law, !tag_law. by destruct o.
  - rewrite andb_true_iff, negb_true_iff, bool_decide_eq_false in Hp. destruct Hp as [Hne Hks].
    destruct ks as [|k ks]; [done|].
    do 5 (apply alt_reads_r; [by first [apply Hno|apply Hno1|apply Hno2]|]). apply alt_reads_l, map_reads.
    eapply preceded_reads; [apply tag_reads|by apply keys_read].
  - do 6 (apply alt_reads_r; [by first [apply Hno|apply Hno1|apply Hno2]|]).
    apply alt_reads_l, map_reads, tagged_number_reads; [by apply uint_ok_range|done].
  - rewrite !andb_true_iff, negb_true_iff, bool_decide_eq_false in Hp. destruct Hp as [[He Hd] Ht].
    rewrite forallb_forall in Ht. pose proof He as [Hne Hv]%word_split.
    assert (forall t, In t known_params -> visible t = true -> starts_with t (e ++ r) = false) as Hs.
    { intros t Hin Hvis. apply starts_with_word; [done| |done]. by apply negb_true_iff, Ht. }
    do 7 (apply alt_reads_r; [first [apply Hno|apply Hno1|apply Hno2]; apply Hs; [cbn; tauto|done]|]).
    apply map_reads. eapply (preceded_reads _ _ [] e); [|apply take_while1_reads; [done| |]].
    + unfold reads. cbn [app]. rewrite peek_law, not_law, char_nothing; [done|]. by destruct e.
    + revert Hv. apply all_of_bytes. by_bytes.
    + by destruct Hr as [->|[s ->]].
Qed.

Lemma param_word p : param_ok p = true -> exists s r, SrtpSessionParam.print p = s ++ r /\ word s = true.
Proof.
  intros Hp. destruct p as [n| | | |o|ks|n|e].
  - by exists (lit "KDR="), (print_uint n).
  - by exists (lit "UNENCRYPTED_SRTP"), [].
  - by exists (lit "UNENCRYPTED_SRTCP"), [].
  - by exists (lit "UNAUTHENTICATED_SRTP"), [].
  - by eexists (lit "FEC_ORDER="), _.
  - destruct ks as [|k ks]; [done|]. by eexists (lit "FEC_KEY="), _.
  - by exists (lit "WSH="), (print_uint n).
  - exists e, []. cbn in Hp. rewrite app_nil_r, !andb_true_iff in *. tauto.
Qed.

Lemma params_tail_reads ps : forallb param_ok ps = true ->
  reads (many0 (preceded (take_while1 is_whitespace) SrtpSessionParam.parse)) (params_text ps) ps [].
Proof using NL ML.
  induction ps as [|p ps IH]; intros Hps.
  - apply many0_reads_nil. by rewrite preceded_law, take_while1_nothing.
  - cbn [forallb] in Hps. apply andb_true_iff in Hps as [Hp Hps].
    apply (many0_reads_cons _ (lit " " ++ SrtpSessionParam.print p)); [done| |by apply IH].
    eapply preceded_reads; [|apply param_reads; [done|]].
    + destruct (param_word p Hp) as (s & r & -> & Hs). rewrite <-app_assoc. by apply space1_reads.
    + rewrite app_nil_r. apply params_text_end.
Qed.

Lemma sdp_params_read ps : forallb param_ok ps = true ->
  after_ws (separated_list0 (take_while1 is_whitespace) SrtpSessionParam.parse) (params_text ps) ps [].
Proof using NL ML.
  intros Hps. destruct ps as [|p ps].
  - unfold after_ws. cbn. rewrite separated_list0_law by apply take_while1_consumes.
    assert (SrtpSessionParam.parse [] = None) as ->; [|done]. unfold SrtpSessionParam.parse.
    rewrite !alt_law, !map_law, !preceded_law, !tag_law, peek_law, not_law, char_law. cbn [mbind option_bind].
    by rewrite take_while1_nothing.
  - cbn [forallb] in Hps. apply andb_true_iff in Hps as [Hp Hps].
    change (params_text (p :: ps)) with ((lit " " ++ SrtpSessionParam.print p) ++ params_text ps). rewrite <-app_assoc.
    apply after_ws_space.
    { destruct (param_word p Hp) as (s & r & -> & Hs). rewrite <-!app_assoc. by apply starts_text_word. }
    unfold reads. rewrite separated_list0_law by apply take_while1_consumes. rewrite <-app_assoc.
    pose proof (param_reads p (params_text ps ++ []) Hp) as Hr. unfold reads in Hr.
    rewrite Hr by (rewrite app_nil_r; apply params_text_end).
    pose proof (params_tail_reads ps Hps) as Ht. unfold reads in Ht. by rewrite Ht.
Qed.

Lemma suite_starts s r : suite_ok s = true -> starts_text (SrtpSuite.as_str s ++ r).
Proof.
  intros Hs. destruct s as [| | | | | | | | |e]; try done. cbn in Hs.
  rewrite !andb_true_iff, negb_true_iff, bool_decide_eq_false in Hs. destruct Hs as [[Hne He] _].
  destruct e as [|b e]; [done|]. cbn in He. apply andb_true_iff in He as [Hb _]. cbn. clear -Hb. revert b Hb. by_bytes.
Qed.

Lemma crypto_reads c : crypto_ok c = true -> reads SrtpCrypto.parse (SrtpCrypto.print c) c [].
Proof using NL ML.
  unfold crypto_ok. rewrite !andb_true_iff, negb_true_iff, bool_decide_eq_false.
  intros [[[[Ht%uint_ok_range Hs] Hne] Hks] Hps]. destruct c as [t s ks ps]. cbn in Ht, Hs, Hne, Hks, Hps.
  eassert ({| SrtpCrypto.tag := t |} = _) as ->; [|apply map_reads; eapply reads_eq;
    [apply (ws4_reads _ _ _ _ (print_uint t) (lit " " ++ SrtpSuite.as_str s)
       (lit " " ++ SrtpKeyingMaterial.print_keys ks) (params_text ps))|]]; [reflexivity|..].
  - apply after_ws_text; [apply starts_text_uint, Ht|]. by apply number_reads.
  - apply after_ws_space; [by apply suite_starts|]. apply suite_reads; [done|]. right. by eexists.
  - apply after_ws_space; [by destruct ks|]. apply keys_read; [done|done|]. rewrite app_nil_r. apply params_text_end.
  - by apply sdp_params_read.
  - unfold SrtpCrypto.print, params_text. cbn. destruct ks as [|k ks]; [done|]. by rewrite <-!app_assoc.
Qed.

(** A lifetime of two to the power of 32 or more packets, which the standard
    allows, is read as zero packets and printed so; a build that checks for
    overflow panics. *)
Theorem lifetime_wraps k n r : k <> [] -> forallb base64_byte k = true -> uint 32 n -> (32 <= n)%Z -> space_end r ->
  let read := {| SrtpKeyingMaterial.key_and_salt := k; SrtpKeyingMaterial.lifetime := Some 0%Z; SrtpKeyingMaterial.mki := None |} in
  SrtpKeyingMaterial.pow_overflows n = true /\
  reads SrtpKeyingMaterial.parse (k ++ lit "|2^" ++ print_uint n) read r /\
  SrtpKeyingMaterial.print read = k ++ lit "|0".
Proof using NL ML.
  intros Hne Hk Hn H32 Hr read. split; [by apply Z.leb_le|]. split; [|done].
  unfold read. rewrite <-(pow2_wraps n H32). apply space_key_end in Hr.
  eassert ({| SrtpKeyingMaterial.key_and_salt := k |} = _) as ->; [|apply map_reads; eapply reads_eq;
    [eapply tuple_reads; [apply take_while1_reads; [exact Hne|by apply (all_of_bytes base64_byte); [by_bytes|]|]
      |eapply (tuple_reads _ _ (lit "|2^" ++ print_uint n) []);
        [apply opt_reads, exponent_reads; [exact Hn|by apply key_lifetime_end]|apply opt_nothing]]|]]; [reflexivity|..].
  - done.
  - rewrite preceded_law, char_nothing; [done|]. destruct r as [|b r]; [done|]. by destruct Hr as [->| ->].
  - by rewrite app_nil_r.
Qed.
End crypto.

Section samples.
#[local] Existing Instances complete more_complete.

Lemma lifetime_wraps_witness : SrtpKeyingMaterial.pow_overflows 48 = true /\
  SrtpKeyingMaterial.parse (lit "d0Rm|2^48") =
    Some ([], {| SrtpKeyingMaterial.key_and_salt := lit "d0Rm"; SrtpKeyingMaterial.lifetime := Some 0%Z; SrtpKeyingMaterial.mki := None |}).
Proof.
  destruct (lifetime_wraps (lit "d0Rm") 48 [] ltac:(discriminate) eq_refl ltac:(unfold uint; lia) ltac:(lia) ltac:(by left))
    as (H1 & H2 & _).
  split; [exact H1|exact H2].
Defined.
End samples.
