(* ===== verification/SdpSession.v ===== *)
(** * Session descriptions
    (sdp-types/src/media_description.rs, session_description.rs, parser.rs)

    The parser is a state that each line changes; lines before the first [m=]
    are about the session, the others about the last media description. *)
From S2P Require Import Prelude Text SipNames SipParse SipUri SdpFields SdpAttributes SdpCrypto.

(** ** media_description.rs *)
Module MediaDescription.
Record t := {
  media : Media.t;
  connection : option Connection.t;
  bandwidth : list Bandwidth.t;
  direction : Direction.t;
  rtcp : option Rtcp.t;
  rtcp_mux : bool;
  mid : option str;
  rtpmap : list RtpMap.t;
  fmtp : list Fmtp.t;
  ice_ufrag : option IceUsernameFragment.t;
  ice_pwd : option IcePassword.t;
  ice_candidates : list IceCandidate.t;
  ice_end_of_candidates : bool;
  crypto : list SrtpCrypto.t;
  extmap : list ExtMap.t;
  extmap_allow_mixed : bool;
  ssrc : list Ssrc.t;
  setup : option Setup.t;
  fingerprint : list Fingerprint.t;
  attributes : list UnknownAttribute.t }.

#[global] Instance eta : Eta t := fun m => {|
  media := media m; connection := connection m; bandwidth := bandwidth m; direction := direction m;
  rtcp := rtcp m; rtcp_mux := rtcp_mux m; mid := mid m; rtpmap := rtpmap m; fmtp := fmtp m;
  ice_ufrag := ice_ufrag m; ice_pwd := ice_pwd m; ice_candidates := ice_candidates m;
  ice_end_of_candidates := ice_end_of_candidates m; crypto := crypto m; extmap := extmap m;
  extmap_allow_mixed := extmap_allow_mixed m; ssrc := ssrc m; setup := setup m; fingerprint := fingerprint m;
  attributes := attributes m |}.

(** A line of the text, and one for each item, if there is an item or a flag *)
Definition line (l : str) : str := l ++ [x0d; x0a].
Definition line_each {A} (f : A -> str) (l : list A) : str := concat ((fun x => line (f x)) <$> l).
Definition line_opt {A} (f : A -> str) (o : option A) : str :=
  match o with Some x => line (f x) | None => [] end.
Definition line_if (b : bool) (l : str) : str := if b then line l else [].

(** [Display] *)
Definition print `{Ip6Text} (m : t) : str :=
  line (lit "m=" ++ Media.print (media m)) ++
  line_opt (fun conn => lit "c=" ++ Connection.print conn) (connection m) ++
  line_each (fun bw => lit "b=" ++ Bandwidth.print bw) (bandwidth m) ++
  line (lit "a=" ++ Direction.as_str (direction m)) ++
  line_opt (fun rtcp => lit "a=rtcp:" ++ Rtcp.print rtcp) (rtcp m) ++
  line_if (rtcp_mux m) (lit "a=rtcp-mux") ++
  line_opt (fun mid => lit "a=mid:" ++ mid) (mid m) ++
  line_each (fun rtpmap => lit "a=rtpmap:" ++ RtpMap.print rtpmap) (rtpmap m) ++
  line_each (fun fmtp => lit "a=fmtp:" ++ Fmtp.print fmtp) (fmtp m) ++
  line_opt (fun ufrag => lit "a=ice-ufrag:" ++ IceUsernameFragment.ufrag ufrag) (ice_ufrag m) ++
  line_opt (fun pwd => lit "a=ice-pwd:" ++ IcePassword.pwd pwd) (ice_pwd m) ++
  line_each (fun candidate => lit "a=candidate:" ++ IceCandidate.print candidate) (ice_candidates m) ++
  line_if (ice_end_of_candidates m) (lit "a=end-of-candidates") ++
  line_each (fun crypto => lit "a=crypto:" ++ SrtpCrypto.print crypto) (crypto m) ++
  line_each (fun extmap => lit "a=extmap:" ++ ExtMap.print extmap) (extmap m) ++
  line_if (extmap_allow_mixed m) (lit "a=extmap-allow-mixed") ++
  line_each (fun ssrc => lit "a=ssrc:" ++ Ssrc.print ssrc) (ssrc m) ++
  line_opt (fun setup => lit "a=setup:" ++ Setup.as_str setup) (setup m) ++
  line_each (fun fingerprint => lit "a=fingerprint:" ++ Fingerprint.print fingerprint) (fingerprint m) ++
  line_each UnknownAttribute.print (attributes m).

(** What [rejected] and the parser's [m=] line start from *)
Definition empty (media : Media.t) (direction : Direction.t) : t := {|
  media := media; connection := None; bandwidth := []; direction := direction; rtcp := None; rtcp_mux := false;
  mid := None; rtpmap := []; fmtp := []; ice_ufrag := None; ice_pwd := None; ice_candidates := [];
  ice_end_of_candidates := false; crypto := []; extmap := []; extmap_allow_mixed := false; ssrc := [];
  setup := None; fingerprint := []; attributes := [] |}.
Definition rejected (media_type : MediaType.t) : t :=
  empty {| Media.media_type := media_type; Media.port := 0; Media.ports_num := None;
           Media.proto := TransportProtocol.RtpAvp; Media.fmts := [] |} Direction.Inactive.
End MediaDescription.

(** ** session_description.rs *)
Module SessionDescription.
Record t := {
  origin : Origin.t;
  name : str;
  connection : option Connection.t;
  bandwidth : list Bandwidth.t;
  time : Time.t;
  direction : Direction.t;
  group : list Group.t;
  extmap : list ExtMap.t;
  extmap_allow_mixed : bool;
  ice_lite : bool;
  ice_options : IceOptions.t;
  ice_ufrag : option IceUsernameFragment.t;
  ice_pwd : option IcePassword.t;
  setup : option Setup.t;
  fingerprint : list Fingerprint.t;
  attributes : list UnknownAttribute.t;
  media_descriptions : list MediaDescription.t }.

Import MediaDescription (line, line_each, line_opt, line_if).

(** [Display] *)
Definition print `{Ip6Text} (s : t) : str :=
  line (lit "v=0") ++
  line (lit "o=" ++ Origin.print (origin s)) ++
  line (lit "s=" ++ name s) ++
  line_opt (fun conn => lit "c=" ++ Connection.print conn) (connection s) ++
  line_each (fun bw => lit "b=" ++ Bandwidth.print bw) (bandwidth s) ++
  line (lit "t=" ++ Time.print (time s)) ++
  line_each (fun group => lit "a=group:" ++ Group.print group) (group s) ++
  line_each (fun extmap => lit "a=extmap:" ++ ExtMap.print extmap) (extmap s) ++
  line_if (extmap_allow_mixed s) (lit "a=extmap-allow-mixed") ++
  (if IceOptions.options (ice_options s) is [] then []
   else line (lit "a=ice-options:" ++ IceOptions.print (ice_options s))) ++
  line_if (ice_lite s) (lit "a=ice-lite") ++
  line_opt (fun ufrag => lit "a=ice-ufrag:" ++ IceUsernameFragment.ufrag ufrag) (ice_ufrag s) ++
  line_opt (fun pwd => lit "a=ice-pwd:" ++ IcePassword.pwd pwd) (ice_pwd s) ++
  line_opt (fun setup => lit "a=setup:" ++ Setup.as_str setup) (setup s) ++
  line_each (fun fingerprint => lit "a=fingerprint:" ++ Fingerprint.print fingerprint) (fingerprint s) ++
  line_each UnknownAttribute.print (attributes s) ++
  concat (MediaDescription.print <$> media_descriptions s).
End SessionDescription.

(** ** parser.rs *)
Inductive ParseSessionDescriptionError := ParseError | Incomplete | MissingOrigin | MissingName | MissingTime.

(** [str::get(n..)]: none if the text is shorter or not at a character there *)
Definition get_from (n : nat) (s : str) : option str :=
  if decide (length s < n) then None
  else match drop n s with b :: _ => if continuation b then None else Some (drop n s) | [] => Some [] end.

(** [Finish::finish] and [?]: what is left of the line is not looked at. *)
Definition finish_line {A} (r : option (str * A)) : result ParseSessionDescriptionError A :=
  match r with Some (_, x) => Ok x | None => Err ParseError end.

Module Parser.
Record t := {
  origin : option Origin.t;
  name : option str;
  connection : option Connection.t;
  bandwidth : list Bandwidth.t;
  time : option Time.t;
  direction : Direction.t;
  group : list Group.t;
  extmap : list ExtMap.t;
  extmap_allow_mixed : bool;
  ice_options : IceOptions.t;
  ice_lite : bool;
  ice_ufrag : option IceUsernameFragment.t;
  ice_pwd : option IcePassword.t;
  setup : option Setup.t;
  fingerprint : list Fingerprint.t;
  attributes : list UnknownAttribute.t;
  media_descriptions : list MediaDescription.t }.

#[global] Instance eta : Eta t := fun p => {|
  origin := origin p; name := name p; connection := connection p; bandwidth := bandwidth p; time := time p;
  direction := direction p; group := group p; extmap := extmap p; extmap_allow_mixed := extmap_allow_mixed p;
  ice_options := ice_options p; ice_lite := ice_lite p; ice_ufrag := ice_ufrag p; ice_pwd := ice_pwd p;
  setup := setup p; fingerprint := fingerprint p; attributes := attributes p;
  media_descriptions := media_descriptions p |}.

(** [Parser::default] *)
Definition default : t := {|
  origin := None; name := None; connection := None; bandwidth := []; time := None;
  direction := Direction.default; group := []; extmap := []; extmap_allow_mixed := false;
  ice_options := IceOptions.default; ice_lite := false; ice_ufrag := None; ice_pwd := None; setup := None;
  fingerprint := []; attributes := []; media_descriptions := [] |}.

(** [if let Some(media_description) = self.media_descriptions.last_mut()]:
    what is done to the last media description, else to the session *)
Fixpoint update_last {A} (f : A -> A) (l : list A) : list A :=
  match l with [] => [] | [x] => [f x] | x :: l => x :: update_last f l end.
Definition last_mut (f : MediaDescription.t -> MediaDescription.t) (g : t -> t) (p : t) : t :=
  if media_descriptions p is [] then g p
  else p <| media_descriptions := update_last f (media_descriptions p) |>.

Section parser.
Context {N : Combinators} {M : MoreCombinators} {I6 : Ip6Text} {TNC : Nom}.
Local Notation MD := MediaDescription.t.
Local Notation res := (result ParseSessionDescriptionError t).

(** [parse_attribute_with_value] *)
Definition parse_attribute_with_value (name value : str) (p : t) : res :=
  if decide (name = lit "group") then
    g ← finish_line (Group.parse value); Ok (p <| group := group p ++ [g] |>)
  else if decide (name = lit "rtcp") then
    r ← finish_line (Rtcp.parse value);
    Ok (last_mut (fun m : MD => m <| MediaDescription.rtcp := Some r |>) id p)
  else if decide (name = lit "mid") then
    Ok (last_mut (fun m : MD => m <| MediaDescription.mid := Some (trim value) |>) id p)
  else if decide (name = lit "rtpmap") then
    r ← finish_line (RtpMap.parse value);
    Ok (last_mut (fun m : MD => m <| MediaDescription.rtpmap := MediaDescription.rtpmap m ++ [r] |>) id p)
  else if decide (name = lit "fmtp") then
    f ← finish_line (Fmtp.parse value);
    Ok (last_mut (fun m : MD => m <| MediaDescription.fmtp := MediaDescription.fmtp m ++ [f] |>) id p)
  else if decide (name = lit "ice-lite") then Ok (p <| ice_lite := true |>)
  else if decide (name = lit "ice-options") then
    options ← finish_line (IceOptions.parse value); Ok (p <| ice_options := options |>)
  else if decide (name = lit "ice-ufrag") then
    ufrag ← finish_line (IceUsernameFragment.parse value);
    Ok (last_mut (fun m : MD => m <| MediaDescription.ice_ufrag := Some ufrag |>)
                 (fun p : t => p <| ice_ufrag := Some ufrag |>) p)
  else if decide (name = lit "ice-pwd") then
    pwd ← finish_line (IcePassword.parse value);
    Ok (last_mut (fun m : MD => m <| MediaDescription.ice_pwd := Some pwd |>)
                 (fun p : t => p <| ice_pwd := Some pwd |>) p)
  else if decide (name = lit "candidate") then
    c ← finish_line (IceCandidate.parse value);
    Ok (last_mut (fun m : MD => m <| MediaDescription.ice_candidates := MediaDescription.ice_candidates m ++ [c] |>) id p)
  else if decide (name = lit "crypto") then
    c ← finish_line (SrtpCrypto.parse value);
    Ok (last_mut (fun m : MD => m <| MediaDescription.crypto := MediaDescription.crypto m ++ [c] |>) id p)
  else if decide (name = lit "extmap") then
    e ← finish_line (ExtMap.parse value);
    Ok (last_mut (fun m : MD => m <| MediaDescription.extmap := MediaDescription.extmap m ++ [e] |>)
                 (fun p : t => p <| extmap := extmap p ++ [e] |>) p)
  else if decide (name = lit "ssrc") then
    s ← finish_line (Ssrc.parse value);
    Ok (last_mut (fun m : MD => m <| MediaDescription.ssrc := MediaDescription.ssrc m ++ [s] |>) id p)
  else if decide (name = lit "setup") then
    let setup_as s :=
      Ok (last_mut (fun m : MD => m <| MediaDescription.setup := Some s |>) (fun p : t => p <| setup := Some s |>) p) in
    if decide (value = lit "active") then setup_as Setup.Active
    else if decide (value = lit "passive") then setup_as Setup.Passive
    else if decide (value = lit "actpass") then setup_as Setup.ActPass
    else if decide (value = lit "holdconn") then setup_as Setup.HoldConn
    else Ok p
  else if decide (name = lit "fingerprint") then
    f ← finish_line (Fingerprint.parse value);
    Ok (last_mut (fun m : MD => m <| MediaDescription.fingerprint := MediaDescription.fingerprint m ++ [f] |>)
                 (fun p : t => p <| fingerprint := fingerprint p ++ [f] |>) p)
  else
    let attr := {| UnknownAttribute.name := name; UnknownAttribute.value := Some value |} in
    Ok (last_mut (fun m : MD => m <| MediaDescription.attributes := MediaDescription.attributes m ++ [attr] |>)
                 (fun p : t => p <| attributes := attributes p ++ [attr] |>) p).

(** [parse_attribute_without_value] *)
Definition set_direction (d : Direction.t) : t -> t :=
  last_mut (fun m : MD => m <| MediaDescription.direction := d |>) (fun p : t => p <| direction := d |>).
Definition parse_attribute_without_value (l : str) (p : t) : t :=
  if decide (l = lit "sendrecv") then set_direction Direction.SendRecv p
  else if decide (l = lit "recvonly") then set_direction Direction.RecvOnly p
  else if decide (l = lit "sendonly") then set_direction Direction.SendOnly p
  else if decide (l = lit "inactive") then set_direction Direction.Inactive p
  else if decide (l = lit "extmap-allow-mixed") then
    last_mut (fun m : MD => m <| MediaDescription.extmap_allow_mixed := true |>)
             (fun p : t => p <| extmap_allow_mixed := true |>) p
  else if decide (l = lit "rtcp-mux") then
    last_mut (fun m : MD => m <| MediaDescription.rtcp_mux := true |>) id p
  else if decide (l = lit "end-of-candidates") then
    last_mut (fun m : MD => m <| MediaDescription.ice_end_of_candidates := true |>) id p
  else
    let attr := {| UnknownAttribute.name := l; UnknownAttribute.value := None |} in
    last_mut (fun m : MD => m <| MediaDescription.attributes := MediaDescription.attributes m ++ [attr] |>)
             (fun p : t => p <| attributes := attributes p ++ [attr] |>) p.

(** [parse_attribute] *)
Definition parse_attribute (l : str) (p : t) : res :=
  match split_once x3a l with
  | Some (name, value) => parse_attribute_with_value name value p
  | None => Ok (parse_attribute_without_value l p)
  end.

(** [parse_line] *)
Definition parse_line (complete_line : str) (p : t) : res :=
  l ← ok_or Incomplete (get_from 2 complete_line);
  if decide (complete_line = lit "v=0") then Ok p
  else if starts_with (lit "s=") complete_line then Ok (p <| name := Some l |>)
  else if starts_with (lit "o=") complete_line then
    o ← finish_line (Origin.parse l); Ok (p <| origin := Some o |>)
  else if starts_with (lit "t=") complete_line then
    m ← finish_line (Time.parse l); Ok (p <| time := Some m |>)
  else if starts_with (lit "c=") complete_line then
    c ← finish_line (Connection.parse l);
    Ok (last_mut (fun m : MD => m <| MediaDescription.connection := Some c |>)
                 (fun p : t => p <| connection := Some c |>) p)
  else if starts_with (lit "b=") complete_line then
    b ← finish_line (Bandwidth.parse l);
    Ok (last_mut (fun m : MD => m <| MediaDescription.bandwidth := MediaDescription.bandwidth m ++ [b] |>)
                 (fun p : t => p <| bandwidth := bandwidth p ++ [b] |>) p)
  else if starts_with (lit "m=") complete_line then
    media ← finish_line (Media.parse l);
    let m : MD := MediaDescription.empty media (direction p) in
    let m : MD := m <| MediaDescription.extmap_allow_mixed := extmap_allow_mixed p |> in
    let m : MD := m <| MediaDescription.setup := setup p |> in
    Ok (p <| media_descriptions := media_descriptions p ++ [m] |>)
  else if starts_with (lit "a=") complete_line then parse_attribute l p
  else Ok p.

(** [finish] *)
Definition finish (p : t) : result ParseSessionDescriptionError SessionDescription.t :=
  origin ← ok_or MissingOrigin (origin p);
  name ← ok_or MissingName (name p);
  time ← ok_or MissingTime (time p);
  Ok {| SessionDescription.origin := origin; SessionDescription.name := name;
        SessionDescription.connection := connection p; SessionDescription.bandwidth := bandwidth p;
        SessionDescription.time := time; SessionDescription.direction := direction p;
        SessionDescription.group := group p; SessionDescription.extmap := extmap p;
        SessionDescription.extmap_allow_mixed := extmap_allow_mixed p;
        SessionDescription.ice_lite := ice_lite p; SessionDescription.ice_options := ice_options p;
        SessionDescription.ice_ufrag := ice_ufrag p; SessionDescription.ice_pwd := ice_pwd p;
        SessionDescription.setup := setup p; SessionDescription.fingerprint := fingerprint p;
        SessionDescription.attributes := attributes p;
        SessionDescription.media_descriptions := media_descriptions p |}.

(** [SessionDescription::parse] *)
Definition is_newline (b : byte) : bool := bool_decide (b = x0a \/ b = x0d).
Fixpoint split_newlines (s : str) : list str :=
  match s with
  | [] => [[]]
  | c :: s =>
      if is_newline c then [] :: split_newlines s
      else match split_newlines s with part :: parts => (c :: part) :: parts | [] => [[c]] end
  end.
Definition lines (src : str) : list str :=
  List.filter (fun l => negb (bool_decide (l = []))) (split_newlines src).
Definition parse_lines (ls : list str) (p : t) : res :=
  foldl (fun p l => p ← p; parse_line l p) (Ok p) ls.
Definition parse_session (src : str) : result ParseSessionDescriptionError SessionDescription.t :=
  p ← parse_lines (lines src) default; finish p.
End parser.
End Parser.
