(* ===== verification/SdpSessionProps.v ===== *)
(** * Parsing undoes printing, on session descriptions
    (sdp-types/src/session_description.rs, media_description.rs, parser.rs)

    A description is printed as a list of lines; each line is read as the
    assignment to one field. What is not read back as it was: the session's
    direction, flags that media inherit, ICE options, [ice-lite], and
    fingerprints that start with a small byte. *)
From S2P Require Import Prelude Text SipNames SipMessages SipParse SipUri SipUriProps SdpFields SdpFieldsProps.
From S2P Require Import SdpAttributes SdpAttributesProps SdpCrypto SdpCryptoProps SdpSession.
#[local] Arguments print_uint : simpl never.
#[local] Arguments lit : simpl never.

Notation MD := MediaDescription.t.

(** ** The lines of a description *)
Definition when (b : bool) (l : str) : list str := if b then [l] else [].

Definition media_lines `{Ip6Text} (m : MD) : list str :=
  [lit "m=" ++ Media.print (MediaDescription.media m)] ++
  ((fun c => lit "c=" ++ Connection.print c) <$> option_list (MediaDescription.connection m)) ++
  ((fun b => lit "b=" ++ Bandwidth.print b) <$> MediaDescription.bandwidth m) ++
  [lit "a=" ++ Direction.as_str (MediaDescription.direction m)] ++
  ((fun r => lit "a=rtcp:" ++ Rtcp.print r) <$> option_list (MediaDescription.rtcp m)) ++
  when (MediaDescription.rtcp_mux m) (lit "a=rtcp-mux") ++
  ((fun i => lit "a=mid:" ++ i) <$> option_list (MediaDescription.mid m)) ++
  ((fun r => lit "a=rtpmap:" ++ RtpMap.print r) <$> MediaDescription.rtpmap m) ++
  ((fun f => lit "a=fmtp:" ++ Fmtp.print f) <$> MediaDescription.fmtp m) ++
  ((fun u => lit "a=ice-ufrag:" ++ IceUsernameFragment.ufrag u) <$> option_list (MediaDescription.ice_ufrag m)) ++
  ((fun u => lit "a=ice-pwd:" ++ IcePassword.pwd u) <$> option_list (MediaDescription.ice_pwd m)) ++
  ((fun c => lit "a=candidate:" ++ IceCandidate.print c) <$> MediaDescription.ice_candidates m) ++
  when (MediaDescription.ice_end_of_candidates m) (lit "a=end-of-candidates") ++
  ((fun c => lit "a=crypto:" ++ SrtpCrypto.print c) <$> MediaDescription.crypto m) ++
  ((fun e => lit "a=extmap:" ++ ExtMap.print e) <$> MediaDescription.extmap m) ++
  when (MediaDescription.extmap_allow_mixed m) (lit "a=extmap-allow-mixed") ++
  ((fun s => lit "a=ssrc:" ++ Ssrc.print s) <$> MediaDescription.ssrc m) ++
  ((fun s => lit "a=setup:" ++ Setup.as_str s) <$> option_list (MediaDescription.setup m)) ++
  ((fun f => lit "a=fingerprint:" ++ Fingerprint.print f) <$> MediaDescription.fingerprint m) ++
  (UnknownAttribute.print <$> MediaDescription.attributes m).

Definition head_lines `{Ip6Text} (d : SessionDescription.t) : list str :=
  [lit "v=0"] ++
  [lit "o=" ++ Origin.print (SessionDescription.origin d)] ++
  [lit "s=" ++ SessionDescription.name d] ++
  ((fun c => lit "c=" ++ Connection.print c) <$> option_list (SessionDescription.connection d)) ++
  ((fun b => lit "b=" ++ Bandwidth.print b) <$> SessionDescription.bandwidth d) ++
  [lit "t=" ++ Time.print (SessionDescription.time d)] ++
  ((fun g => lit "a=group:" ++ Group.print g) <$> SessionDescription.group d) ++
  ((fun e => lit "a=extmap:" ++ ExtMap.print e) <$> SessionDescription.extmap d) ++
  when (SessionDescription.extmap_allow_mixed d) (lit "a=extmap-allow-mixed") ++
  ((fun o => lit "a=ice-options:" ++ IceOptions.print o) <$>
     (if IceOptions.options (SessionDescription.ice_options d) is [] then [] else [SessionDescription.ice_options d])) ++
  when (SessionDescription.ice_lite d) (lit "a=ice-lite") ++
  ((fun u => lit "a=ice-ufrag:" ++ IceUsernameFragment.ufrag u) <$> option_list (SessionDescription.ice_ufrag d)) ++
  ((fun u => lit "a=ice-pwd:" ++ IcePassword.pwd u) <$> option_list (SessionDescription.ice_pwd d)) ++
  ((fun s => lit "a=setup:" ++ Setup.as_str s) <$> option_list (SessionDescription.setup d)) ++
  ((fun f => lit "a=fingerprint:" ++ Fingerprint.print f) <$> SessionDescription.fingerprint d) ++
  (UnknownAttribute.print <$> SessionDescription.attributes d).

Definition session_lines `{Ip6Text} (d : SessionDescription.t) : list str :=
  head_lines d ++ concat (media_lines <$> SessionDescription.media_descriptions d).

Definition render (ls : list str) : str := concat (MediaDescription.line <$> ls).

Lemma render_app a b : render (a ++ b) = render a ++ render b.
Proof. unfold render. by rewrite fmap_app, concat_app. Qed.

Lemma render_one l : render [l] = MediaDescription.line l.
Proof. unfold render. cbn. apply app_nil_r. Qed.

Lemma render_each {A} (f : A -> str) l : render (f <$> l) = MediaDescription.line_each f l.
Proof. unfold render, MediaDescription.line_each. by rewrite <-list_fmap_compose. Qed.

Lemma render_opt {A} (f : A -> str) o : render (f <$> option_list o) = MediaDescription.line_opt f o.
Proof. destruct o; [apply render_one|done]. Qed.

Lemma render_when b l : render (when b l) = MediaDescription.line_if b l.
Proof. destruct b; [apply render_one|done]. Qed.

Lemma print_media_lines `{Ip6Text} m : MediaDescription.print m = render (media_lines m).
Proof. unfold media_lines. by rewrite !render_app, !render_one, !render_opt, !render_when, !render_each. Qed.

Lemma print_session_lines `{Ip6Text} d : SessionDescription.print d = render (session_lines d).
Proof.
  assert (forall ms, render (concat (media_lines <$> ms)) = concat (MediaDescription.print <$> ms)) as Hm.
  { induction ms as [|m ms IH]; [done|]. cbn [fmap list_fmap concat]. by rewrite render_app, print_media_lines, IH. }
  assert (forall o, MediaDescription.line_each (fun o => lit "a=ice-options:" ++ IceOptions.print o)
      (if IceOptions.options o is [] then [] else [o]) =
    if IceOptions.options o is [] then [] else MediaDescription.line (lit "a=ice-options:" ++ IceOptions.print o)) as Ho.
  { intros o. destruct (IceOptions.options o); [done|]. unfold MediaDescription.line_each. cbn. by rewrite app_nil_r. }
  unfold session_lines, head_lines. rewrite !render_app, Hm, !render_one, !render_opt, !render_when, !render_each, Ho.
  by rewrite <-!app_assoc.
Qed.

(** Text without line breaks *)
Definition one_line (l : str) : bool := forallb (fun b => negb (Parser.is_newline b)) l.

Lemma split_newlines_line l r : one_line l = true ->
  Parser.split_newlines (MediaDescription.line l ++ r) = l :: [] :: Parser.split_newlines r.
Proof.
  intros Hl. unfold MediaDescription.line. rewrite <-app_assoc. cbn [app].
  induction l as [|b l IH]; cbn [app Parser.split_newlines]; [done|].
  cbn in Hl. apply andb_true_iff in Hl as [Hb%negb_true_iff Hl]. by rewrite Hb, IH.
Qed.

(** The lines that were written are the ones that are read. *)
Lemma lines_render ls : Forall (fun l => l <> [] /\ one_line l = true) ls -> Parser.lines (render ls) = ls.
Proof.
  unfold Parser.lines. induction 1 as [|l ls [Hne Hl] _ IH]; [done|].
  change (render (l :: ls)) with (MediaDescription.line l ++ render ls). rewrite split_newlines_line by done.
  cbn [List.filter]. rewrite bool_decide_eq_false_2 by done. cbn [negb]. by rewrite IH.
Qed.

(** ** Reading lines *)

(** The state with other media descriptions *)
Definition with_media (p : Parser.t) (ms : list MD) : Parser.t := p <| Parser.media_descriptions := ms |>.

Lemma update_last_snoc {A} (f : A -> A) l x : Parser.update_last f (l ++ [x]) = l ++ [f x].
Proof. induction l as [|y l IH]; [done|]. cbn. rewrite IH. by destruct l. Qed.

Lemma last_mut_media f g p ms m : Parser.last_mut f g (with_media p (ms ++ [m])) = with_media p (ms ++ [f m]).
Proof.
  unfold Parser.last_mut, with_media. cbn [Parser.media_descriptions]. rewrite update_last_snoc. by destruct ms.
Qed.

Lemma last_mut_session f g p : Parser.media_descriptions p = [] -> Parser.last_mut f g p = g p.
Proof. unfold Parser.last_mut. by intros ->. Qed.

(** No UTF-8 continuation byte in front *)
Definition char_start (s : str) : bool := match s with b :: _ => negb (continuation b) | [] => true end.

Lemma get_from_2 a b l : char_start l = true -> get_from 2 (a :: b :: l) = Some l.
Proof.
  intros Hl. unfold get_from. rewrite decide_False by (cbn; lia). destruct l as [|c l]; [done|].
  unfold char_start in Hl. apply negb_true_iff in Hl. cbn -[continuation]. by rewrite Hl.
Qed.

Lemma split_once_app b n v : b ∉ n -> split_once b (n ++ b :: v) = Some (n, v).
Proof.
  intros Hn. induction n as [|c n IH]; cbn [app split_once]; [by rewrite decide_True|].
  rewrite decide_False by (intros ->; apply Hn; left). rewrite IH; [done|]. intros Hin. apply Hn. by right.
Qed.

Lemma split_once_none b s : b ∉ s -> split_once b s = None.
Proof.
  intros Hn. induction s as [|c s IH]; [done|]. cbn [split_once].
  rewrite decide_False by (intros ->; apply Hn; left). rewrite IH; [done|]. intros Hin. apply Hn. by right.
Qed.

Lemma finish_reads {A} (q : parser A) s x : reads q s x [] -> finish_line (q s) = Ok x.
Proof. unfold reads. rewrite app_nil_r. by intros ->. Qed.

Section reading_lines.
Context {NC : Combinators} {M : MoreCombinators} {I6 : Ip6Text} {TNC : Nom}.

Lemma parse_line_a l p : char_start l = true -> Parser.parse_line (lit "a=" ++ l) p = Parser.parse_attribute l p.
Proof.
  intros Hl. unfold Parser.parse_line. change (lit "a=" ++ l) with (x61 :: x3d :: l). rewrite get_from_2 by done.
  cbn [ok_or mbind result_bind]. rewrite decide_False by done. reflexivity.
Qed.

Lemma parse_line_with_value n v p : char_start n = true -> n <> [] -> x3a ∉ n ->
  Parser.parse_line (lit "a=" ++ n ++ lit ":" ++ v) p = Parser.parse_attribute_with_value n v p.
Proof.
  intros Hs Hne Hn. rewrite parse_line_a by (by destruct n). unfold Parser.parse_attribute.
  change (lit ":" ++ v) with (x3a :: v). by rewrite split_once_app.
Qed.

Lemma parse_line_without_value l p : char_start l = true -> x3a ∉ l ->
  Parser.parse_line (lit "a=" ++ l) p = Ok (Parser.parse_attribute_without_value l p).
Proof. intros Hs Hn. rewrite parse_line_a by done. unfold Parser.parse_attribute. by rewrite split_once_none. Qed.

(** Lines that are not attributes *)
Ltac field_line c := unfold Parser.parse_line; change (lit _ ++ ?l) with (c :: x3d :: l);
  rewrite get_from_2 by done; cbn [ok_or mbind result_bind]; rewrite decide_False by done.

Lemma parse_line_s l p : char_start l = true -> Parser.parse_line (lit "s=" ++ l) p = Ok (p <| Parser.name := Some l |>).
Proof. intros Hl. field_line x73. done. Qed.

Lemma parse_line_o l p : char_start l = true ->
  Parser.parse_line (lit "o=" ++ l) p = o ← finish_line (Origin.parse l); Ok (p <| Parser.origin := Some o |>).
Proof. intros Hl. field_line x6f. done. Qed.

Lemma parse_line_t l p : char_start l = true ->
  Parser.parse_line (lit "t=" ++ l) p = m ← finish_line (Time.parse l); Ok (p <| Parser.time := Some m |>).
Proof. intros Hl. field_line x74. done. Qed.

Lemma parse_line_c l p : char_start l = true ->
  Parser.parse_line (lit "c=" ++ l) p = c ← finish_line (Connection.parse l);
    Ok (Parser.last_mut (fun m : MD => m <| MediaDescription.connection := Some c |>)
          (fun p : Parser.t => p <| Parser.connection := Some c |>) p).
Proof. intros Hl. field_line x63. done. Qed.

Lemma parse_line_b l p : char_start l = true ->
  Parser.parse_line (lit "b=" ++ l) p = b ← finish_line (Bandwidth.parse l);
    Ok (Parser.last_mut (fun m : MD => m <| MediaDescription.bandwidth := MediaDescription.bandwidth m ++ [b] |>)
          (fun p : Parser.t => p <| Parser.bandwidth := Parser.bandwidth p ++ [b] |>) p).
Proof. intros Hl. field_line x62. done. Qed.

(** What a media description starts from *)
Definition fresh_media (p : Parser.t) (media : Media.t) : MD :=
  let m : MD := MediaDescription.empty media (Parser.direction p) in
  let m : MD := m <| MediaDescription.extmap_allow_mixed := Parser.extmap_allow_mixed p |> in
  m <| MediaDescription.setup := Parser.setup p |>.

Lemma parse_line_m l p : char_start l = true ->
  Parser.parse_line (lit "m=" ++ l) p = media ← finish_line (Media.parse l);
    Ok (with_media p (Parser.media_descriptions p ++ [fresh_media p media])).
Proof. intros Hl. field_line x6d. done. Qed.

Lemma parse_line_v p : Parser.parse_line (lit "v=0") p = Ok p.
Proof. done. Qed.

Lemma parse_lines_app a b p : Parser.parse_lines (a ++ b) p = p ← Parser.parse_lines a p; Parser.parse_lines b p.
Proof.
  unfold Parser.parse_lines. rewrite foldl_app. destruct (foldl _ (Ok p) a) as [q|e]; [done|]. cbn.
  induction b as [|l b IH]; [done|]. exact IH.
Qed.

Lemma parse_lines_one l p : Parser.parse_lines [l] p = Parser.parse_line l p.
Proof. done. Qed.

(** Lines for the items of a field: [upd] is what they do to it. *)
Definition updated {R A} (upd : R -> A -> R) (r : R) (x : A) : R := upd r x.

Lemma parse_each {A} (f : A -> str) (ok : A -> bool) (inv : Parser.t -> Prop) (upd : Parser.t -> list A -> Parser.t) l p :
  (forall p, upd p [] = p) -> (forall p x l, upd (upd p [x]) l = upd p (x :: l)) -> (forall p l, inv p -> inv (upd p l)) ->
  (forall x p, ok x = true -> inv p -> Parser.parse_line (f x) p = Ok (upd p [x])) ->
  forallb ok l = true -> inv p -> Parser.parse_lines (f <$> l) p = Ok (updated upd p l).
Proof.
  unfold updated. intros H0 H1 Hi Hx. revert p. induction l as [|x l IH]; intros p Hl Hp; [by rewrite H0|].
  cbn in Hl. apply andb_true_iff in Hl as [Hok Hl]. change (f <$> x :: l) with ([f x] ++ (f <$> l)).
  rewrite parse_lines_app, parse_lines_one, Hx by done. cbn [mbind result_bind]. rewrite <-(H1 p x l). apply IH; auto.
Qed.

Lemma parse_opt {A} (f : A -> str) (ok : A -> bool) (inv : Parser.t -> Prop) (upd : Parser.t -> option A -> Parser.t) o p :
  (forall p, upd p None = p) ->
  (forall x p, ok x = true -> inv p -> Parser.parse_line (f x) p = Ok (upd p (Some x))) -> opt_ok ok o = true -> inv p ->
  Parser.parse_lines (f <$> option_list o) p = Ok (updated upd p o).
Proof. unfold updated. intros H0 Hx Ho Hp. destruct o as [x|]; [by apply Hx|by rewrite H0]. Qed.

Lemma parse_when l (inv : Parser.t -> Prop) (upd : Parser.t -> bool -> Parser.t) b p :
  (forall p, upd p false = p) -> (forall p, inv p -> Parser.parse_line l p = Ok (upd p true)) -> inv p ->
  Parser.parse_lines (when b l) p = Ok (updated upd p b).
Proof. unfold updated. intros H0 Hx Hp. destruct b; [by apply Hx|by rewrite H0]. Qed.

(** The same of a line that changes the last media description *)
Lemma media_each {A} (f : A -> str) (ok : A -> bool) (upd : MD -> list A -> MD) l p ms m :
  (forall m, upd m [] = m) -> (forall m x l, upd (upd m [x]) l = upd m (x :: l)) ->
  (forall x p ms m, ok x = true -> Parser.parse_line (f x) (with_media p (ms ++ [m])) = Ok (with_media p (ms ++ [upd m [x]]))) ->
  forallb ok l = true ->
  Parser.parse_lines (f <$> l) (with_media p (ms ++ [m])) = Ok (with_media p (ms ++ [updated upd m l])).
Proof.
  unfold updated. intros H0 H1 Hx. revert m. induction l as [|x l IH]; intros m Hl; [by rewrite H0|].
  cbn in Hl. apply andb_true_iff in Hl as [Hok Hl]. change (f <$> x :: l) with ([f x] ++ (f <$> l)).
  rewrite parse_lines_app, parse_lines_one, Hx by done. cbn [mbind result_bind]. rewrite <-(H1 m x l). by apply IH.
Qed.

Lemma media_opt {A} (f : A -> str) (ok : A -> bool) (upd : MD -> option A -> MD) o p ms m :
  (forall m, upd m None = m) ->
  (forall x p ms m, ok x = true -> Parser.parse_line (f x) (with_media p (ms ++ [m])) = Ok (with_media p (ms ++ [upd m (Some x)]))) ->
  opt_ok ok o = true ->
  Parser.parse_lines (f <$> option_list o) (with_media p (ms ++ [m])) = Ok (with_media p (ms ++ [updated upd m o])).
Proof. unfold updated. intros H0 Hx Ho. destruct o as [x|]; [by apply Hx|by rewrite H0]. Qed.

Lemma media_when l (upd : MD -> bool -> MD) b p ms m :
  (forall m, upd m false = m) ->
  (forall p ms m, Parser.parse_line l (with_media p (ms ++ [m])) = Ok (with_media p (ms ++ [upd m true]))) ->
  Parser.parse_lines (when b l) (with_media p (ms ++ [m])) = Ok (with_media p (ms ++ [updated upd m b])).
Proof. unfold updated. intros H0 Hx. destruct b; [by apply Hx|by rewrite H0]. Qed.
End reading_lines.

(** ** What can be printed *)
Definition known_attributes : list str :=
  [lit "group"; lit "rtcp"; lit "mid"; lit "rtpmap"; lit "fmtp"; lit "ice-lite"; lit "ice-options"; lit "ice-ufrag";
   lit "ice-pwd"; lit "candidate"; lit "crypto"; lit "extmap"; lit "ssrc"; lit "setup"; lit "fingerprint"].
Definition known_flags : list str :=
  [lit "sendrecv"; lit "recvonly"; lit "sendonly"; lit "inactive"; lit "extmap-allow-mixed"; lit "rtcp-mux"; lit "end-of-candidates"].
Definition attribute_ok (a : UnknownAttribute.t) : bool :=
  char_start (UnknownAttribute.name a) && negb (bool_decide (x3a ∈ UnknownAttribute.name a)) &&
  negb (bool_decide (UnknownAttribute.name a ∈ if UnknownAttribute.value a is Some _ then known_attributes else known_flags)).
Definition mid_ok (i : str) : bool := bool_decide (trim i = i).

(** A fingerprint of bytes. The code prints the first one below 16 with a space
    in front, and does not read that. *)
Definition fingerprint_fits (f : Fingerprint.t) : bool :=
  algorithm_ok (Fingerprint.algorithm f) && negb (bool_decide (Fingerprint.fingerprint f = [])) &&
  forallb (uint_ok 8) (Fingerprint.fingerprint f).
Definition two_digits (f : Fingerprint.t) : bool :=
  match Fingerprint.fingerprint f with b :: _ => bool_decide (16 <= b)%Z | [] => false end.

(** What can be printed, with the ICE options and the fingerprints as given *)
Definition media_with `{Ip6Text} (fp : Fingerprint.t -> bool) (m : MD) : bool :=
  media_ok (MediaDescription.media m) && opt_ok connection_ok (MediaDescription.connection m) &&
  forallb bandwidth_ok (MediaDescription.bandwidth m) && opt_ok rtcp_ok (MediaDescription.rtcp m) &&
  opt_ok mid_ok (MediaDescription.mid m) && forallb rtpmap_ok (MediaDescription.rtpmap m) &&
  forallb fmtp_ok (MediaDescription.fmtp m) && opt_ok ufrag_ok (MediaDescription.ice_ufrag m) &&
  opt_ok pwd_ok (MediaDescription.ice_pwd m) && forallb candidate_ok (MediaDescription.ice_candidates m) &&
  forallb crypto_ok (MediaDescription.crypto m) && forallb extmap_ok (MediaDescription.extmap m) &&
  forallb ssrc_ok (MediaDescription.ssrc m) && forallb fp (MediaDescription.fingerprint m) &&
  forallb attribute_ok (MediaDescription.attributes m).

Definition media_description_ok `{Ip6Text} (m : MD) : bool := media_with fingerprint_ok m.

Definition no_ice_options (o : IceOptions.t) : bool := bool_decide (length (IceOptions.options o) = 0).

Definition description_with `{Ip6Text} (opts : IceOptions.t -> bool) (fp : Fingerprint.t -> bool)
    (d : SessionDescription.t) : bool :=
  origin_ok (SessionDescription.origin d) && char_start (SessionDescription.name d) &&
  opt_ok connection_ok (SessionDescription.connection d) && forallb bandwidth_ok (SessionDescription.bandwidth d) &&
  time_ok (SessionDescription.time d) && forallb group_ok (SessionDescription.group d) &&
  forallb extmap_ok (SessionDescription.extmap d) &&
  opts (SessionDescription.ice_options d) &&
  opt_ok ufrag_ok (SessionDescription.ice_ufrag d) && opt_ok pwd_ok (SessionDescription.ice_pwd d) &&
  forallb fp (SessionDescription.fingerprint d) && forallb attribute_ok (SessionDescription.attributes d) &&
  forallb (media_with fp) (SessionDescription.media_descriptions d) && forallb one_line (session_lines d).

Definition description_ok `{Ip6Text} : SessionDescription.t -> bool := description_with no_ice_options fingerprint_ok.

(** A description whose texts, numbers and lists fit their lines; and of those
    the ones that are read again. *)
Definition writable `{Ip6Text} : SessionDescription.t -> bool := description_with (fun _ => true) fingerprint_fits.
Definition readable (d : SessionDescription.t) : bool :=
  no_ice_options (SessionDescription.ice_options d) && forallb two_digits (SessionDescription.fingerprint d) &&
  forallb (fun m => forallb two_digits (MediaDescription.fingerprint m)) (SessionDescription.media_descriptions d).

Lemma forallb_both {A} (f g h : A -> bool) l : (forall x, f x = true -> g x = true -> h x = true) ->
  forallb f l = true -> forallb g l = true -> forallb h l = true.
Proof.
  intros Hx. rewrite !forallb_forall. intros Hf Hg x Hin. apply Hx; [by apply Hf|by apply Hg].
Qed.

Lemma fits_two_digits f : fingerprint_fits f = true -> two_digits f = true -> fingerprint_ok f = true.
Proof.
  unfold fingerprint_fits, two_digits, fingerprint_ok. destruct (Fingerprint.fingerprint f) as [|b l]; [done|].
  rewrite !andb_true_iff. cbn [forallb]. rewrite andb_true_iff. intros [[Ha _] [Hb Hl]] H16%bool_decide_eq_true.
  split; [done|]. split; [|done]. apply uint_ok_range in Hb. apply bool_decide_eq_true. unfold uint in Hb. lia.
Qed.

Lemma writable_readable `{Ip6Text} d : writable d = true -> readable d = true -> description_ok d = true.
Proof.
  unfold writable, readable, description_ok, description_with. rewrite !andb_true_iff.
  intros (((((((((((((Ho & Hn) & Hc) & Hb) & Ht) & Hg) & He) & _) & Hu) & Hp) & Hf) & Ha) & Hm) & Hl) ((Hopt & H16) & Hm16).
  repeat split; try done; [exact (forallb_both _ _ _ _ fits_two_digits Hf H16)|].
  refine (forallb_both _ _ _ _ _ Hm Hm16). intros m. unfold media_with. rewrite !andb_true_iff.
  intros Hw H2. repeat split; try tauto. refine (forallb_both _ _ _ _ fits_two_digits _ H2). tauto.
Qed.

(** ** The lines of media descriptions *)
Section media_lines.
Context {NC : Combinators} {NL : CombinatorLaws NC} {M : MoreCombinators} {ML : MoreLaws NC M}.
Context {I6 : Ip6Text} {IL : Ip6Laws I6} {IC : Ip6Colons I6} {TNC : Nom} {TNL : NomLaws TNC}.

Definition name_ok (n : str) : bool := negb (bool_decide (n = [])) && char_start n && negb (bool_decide (x3a ∈ n)).

Lemma parse_line_named n v p : name_ok n = true ->
  Parser.parse_line (lit "a=" ++ n ++ lit ":" ++ v) p = Parser.parse_attribute_with_value n v p.
Proof.
  unfold name_ok. rewrite !andb_true_iff, !negb_true_iff, !bool_decide_eq_false. intros [[H1 H2] H3].
  by apply parse_line_with_value.
Qed.

Lemma parse_line_flag n p : char_start n && negb (bool_decide (x3a ∈ n)) = true ->
  Parser.parse_line (lit "a=" ++ n) p = Ok (Parser.parse_attribute_without_value n p).
Proof. rewrite andb_true_iff, negb_true_iff, bool_decide_eq_false. intros [H1 H2]. by apply parse_line_without_value. Qed.

(** The line [a=n:v], and what it assigns *)
Ltac attribute n := 
  change (Parser.parse_line (lit _ ++ ?v) ?p) with (Parser.parse_line (lit "a=" ++ lit n ++ lit ":" ++ v) p);
  rewrite parse_line_named by done; unfold Parser.parse_attribute_with_value;
  repeat rewrite decide_False by done; rewrite decide_True by done.
Ltac attribute_read n H := attribute n; rewrite (finish_reads _ _ _ H); cbn [mbind result_bind].
Ltac flag n :=
  change (Parser.parse_line (lit _) ?p) with (Parser.parse_line (lit "a=" ++ lit n) p);
  rewrite parse_line_flag by done; unfold Parser.parse_attribute_without_value;
  repeat rewrite decide_False by done; rewrite decide_True by done.

Lemma line_connection c p : connection_ok c = true ->
  Parser.parse_line (lit "c=" ++ Connection.print c) p =
  Ok (Parser.last_mut (fun m : MD => m <| MediaDescription.connection := Some c |>)
        (fun p : Parser.t => p <| Parser.connection := Some c |>) p).
Proof using NL IL.
  intros H. rewrite parse_line_c, (finish_reads _ _ _ (connection_reads c H)); [done|]. by destruct c as [[] ? ?].
Qed.

Lemma line_bandwidth b p : bandwidth_ok b = true ->
  Parser.parse_line (lit "b=" ++ Bandwidth.print b) p =
  Ok (Parser.last_mut (fun m : MD => m <| MediaDescription.bandwidth := MediaDescription.bandwidth m ++ [b] |>)
        (fun p : Parser.t => p <| Parser.bandwidth := Parser.bandwidth p ++ [b] |>) p).
Proof using NL.
  intros H. rewrite parse_line_b, (finish_reads _ _ _ (bandwidth_reads b H)); [done|].
  apply andb_true_iff in H as [H _]. unfold Bandwidth.print. destruct (Bandwidth.type_ b) as [|c t]; [done|].
  cbn [forallb] in H. apply andb_true_iff in H as [H _]. clear -H. cbn [app char_start]. apply negb_true_iff. revert c H. by_bytes.
Qed.

Lemma line_direction d p : Parser.parse_line (lit "a=" ++ Direction.as_str d) p = Ok (Parser.set_direction d p).
Proof. destruct d; by rewrite parse_line_flag. Qed.

Lemma line_rtcp r p : rtcp_ok r = true ->
  Parser.parse_line (lit "a=rtcp:" ++ Rtcp.print r) p =
  Ok (Parser.last_mut (fun m : MD => m <| MediaDescription.rtcp := Some r |>) id p).
Proof using NL IL. intros H. by attribute_read "rtcp" (rtcp_reads r H). Qed.

Lemma line_mid i p : mid_ok i = true ->
  Parser.parse_line (lit "a=mid:" ++ i) p =
  Ok (Parser.last_mut (fun m : MD => m <| MediaDescription.mid := Some i |>) id p).
Proof. intros H%bool_decide_eq_true. attribute "mid". by rewrite H. Qed.

Lemma line_mux p : Parser.parse_line (lit "a=rtcp-mux") p =
  Ok (Parser.last_mut (fun m : MD => m <| MediaDescription.rtcp_mux := true |>) id p).
Proof. by flag "rtcp-mux". Qed.

Lemma line_rtpmap r p : rtpmap_ok r = true ->
  Parser.parse_line (lit "a=rtpmap:" ++ RtpMap.print r) p =
  Ok (Parser.last_mut (fun m : MD => m <| MediaDescription.rtpmap := MediaDescription.rtpmap m ++ [r] |>) id p).
Proof using NL. intros H. by attribute_read "rtpmap" (rtpmap_reads r H). Qed.

Lemma line_fmtp f p : fmtp_ok f = true ->
  Parser.parse_line (lit "a=fmtp:" ++ Fmtp.print f) p =
  Ok (Parser.last_mut (fun m : MD => m <| MediaDescription.fmtp := MediaDescription.fmtp m ++ [f] |>) id p).
Proof using NL. intros H. by attribute_read "fmtp" (fmtp_reads f H). Qed.

Lemma line_ufrag u p : ufrag_ok u = true ->
  Parser.parse_line (lit "a=ice-ufrag:" ++ IceUsernameFragment.ufrag u) p =
  Ok (Parser.last_mut (fun m : MD => m <| MediaDescription.ice_ufrag := Some u |>)
        (fun p : Parser.t => p <| Parser.ice_ufrag := Some u |>) p).
Proof using NL ML. intros H. by attribute_read "ice-ufrag" (ufrag_reads u H). Qed.

Lemma line_pwd u p : pwd_ok u = true ->
  Parser.parse_line (lit "a=ice-pwd:" ++ IcePassword.pwd u) p =
  Ok (Parser.last_mut (fun m : MD => m <| MediaDescription.ice_pwd := Some u |>)
        (fun p : Parser.t => p <| Parser.ice_pwd := Some u |>) p).
Proof using NL ML. intros H. by attribute_read "ice-pwd" (pwd_reads u H). Qed.

Lemma line_candidate c p : candidate_ok c = true ->
  Parser.parse_line (lit "a=candidate:" ++ IceCandidate.print c) p =
  Ok (Parser.last_mut (fun m : MD => m <| MediaDescription.ice_candidates := MediaDescription.ice_candidates m ++ [c] |>) id p).
Proof using NL ML IL IC. intros H. by attribute_read "candidate" (candidate_reads c H). Qed.

Lemma line_end_of_candidates p : Parser.parse_line (lit "a=end-of-candidates") p =
  Ok (Parser.last_mut (fun m : MD => m <| MediaDescription.ice_end_of_candidates := true |>) id p).
Proof. by flag "end-of-candidates". Qed.

Lemma line_crypto c p : crypto_ok c = true ->
  Parser.parse_line (lit "a=crypto:" ++ SrtpCrypto.print c) p =
  Ok (Parser.last_mut (fun m : MD => m <| MediaDescription.crypto := MediaDescription.crypto m ++ [c] |>) id p).
Proof using NL ML. intros H. by attribute_read "crypto" (crypto_reads c H). Qed.

Lemma line_extmap e p : extmap_ok e = true ->
  Parser.parse_line (lit "a=extmap:" ++ ExtMap.print e) p =
  Ok (Parser.last_mut (fun m : MD => m <| MediaDescription.extmap := MediaDescription.extmap m ++ [e] |>)
        (fun p : Parser.t => p <| Parser.extmap := Parser.extmap p ++ [e] |>) p).
Proof using NL. intros H. by attribute_read "extmap" (extmap_reads e H). Qed.

Lemma line_mixed p : Parser.parse_line (lit "a=extmap-allow-mixed") p =
  Ok (Parser.last_mut (fun m : MD => m <| MediaDescription.extmap_allow_mixed := true |>)
        (fun p : Parser.t => p <| Parser.extmap_allow_mixed := true |>) p).
Proof. by flag "extmap-allow-mixed". Qed.

Lemma line_ssrc s p : ssrc_ok s = true ->
  Parser.parse_line (lit "a=ssrc:" ++ Ssrc.print s) p =
  Ok (Parser.last_mut (fun m : MD => m <| MediaDescription.ssrc := MediaDescription.ssrc m ++ [s] |>) id p).
Proof using NL ML. intros H. by attribute_read "ssrc" (ssrc_reads s H). Qed.

Lemma line_setup s p : Parser.parse_line (lit "a=setup:" ++ Setup.as_str s) p =
  Ok (Parser.last_mut (fun m : MD => m <| MediaDescription.setup := Some s |>)
        (fun p : Parser.t => p <| Parser.setup := Some s |>) p).
Proof. attribute "setup". by destruct s. Qed.

Lemma line_fingerprint f p : fingerprint_ok f = true ->
  Parser.parse_line (lit "a=fingerprint:" ++ Fingerprint.print f) p =
  Ok (Parser.last_mut (fun m : MD => m <| MediaDescription.fingerprint := MediaDescription.fingerprint m ++ [f] |>)
        (fun p : Parser.t => p <| Parser.fingerprint := Parser.fingerprint p ++ [f] |>) p).
Proof using NL ML TNL. intros H. by attribute_read "fingerprint" (fingerprint_reads f H). Qed.

Lemma line_group g p : group_ok g = true ->
  Parser.parse_line (lit "a=group:" ++ Group.print g) p = Ok (p <| Parser.group := Parser.group p ++ [g] |>).
Proof using NL ML. intros H. by attribute_read "group" (group_reads g H). Qed.

(** Nothing else is printed, so the value is not read as another attribute. *)
Lemma line_attribute a p : attribute_ok a = true ->
  Parser.parse_line (UnknownAttribute.print a) p =
  Ok (Parser.last_mut (fun m : MD => m <| MediaDescription.attributes := MediaDescription.attributes m ++ [a] |>)
        (fun p : Parser.t => p <| Parser.attributes := Parser.attributes p ++ [a] |>) p).
Proof.
  unfold attribute_ok. rewrite !andb_true_iff, !negb_true_iff, !bool_decide_eq_false. destruct a as [n [v|]];
    cbn [UnknownAttribute.name UnknownAttribute.value]; intros [[Hs Hc] Hk].
  - unfold UnknownAttribute.print. cbn [UnknownAttribute.name UnknownAttribute.value].
    rewrite parse_line_a by (by destruct n). unfold Parser.parse_attribute. change (lit ":" ++ v) with (x3a :: v).
    rewrite split_once_app by done. unfold Parser.parse_attribute_with_value.
    assert (forall k, k ∈ known_attributes -> n <> k) as Hno by (by intros k Hin ->).
    do 15 (rewrite decide_False by (apply Hno; unfold known_attributes; repeat first [by left|right])). done.
  - unfold UnknownAttribute.print. cbn [UnknownAttribute.name UnknownAttribute.value]. rewrite app_nil_r.
    rewrite parse_line_without_value by done. unfold Parser.parse_attribute_without_value.
    assert (forall k, k ∈ known_flags -> n <> k) as Hno by (by intros k Hin ->).
    do 7 (rewrite decide_False by (apply Hno; unfold known_flags; repeat first [by left|right])). done.
Qed.

Lemma line_media m p : media_ok m = true ->
  Parser.parse_line (lit "m=" ++ Media.print m) p =
  Ok (with_media p (Parser.media_descriptions p ++ [fresh_media p m])).
Proof using NL.
  intros H. rewrite parse_line_m, (finish_reads _ _ _ (media_reads m H)); [done|]. by destruct m as [[] ? ? ? ?].
Qed.

(** What a media description has from the session: the flag that extensions
    may be mixed, and the setup if it has none *)
Definition inherit (mixed : bool) (setup : option Setup.t) (m : MD) : MD :=
  let m : MD := m <| MediaDescription.extmap_allow_mixed := MediaDescription.extmap_allow_mixed m || mixed |> in
  m <| MediaDescription.setup := match MediaDescription.setup m with Some s => Some s | None => setup end |>.

Ltac items ok upd line := rewrite parse_lines_app, (media_each _ ok upd);
  [cbn [mbind result_bind]
  |by intros []; cbn; rewrite app_nil_r|by intros []; intros; cbn; rewrite <-app_assoc
  |by intros; rewrite line, last_mut_media|eassumption].
Ltac item ok upd line := rewrite parse_lines_app, (media_opt _ ok upd);
  [cbn [mbind result_bind]|by intros []|by intros; rewrite line, last_mut_media|first [eassumption|by destruct (MediaDescription.setup _)]].
Ltac item_flag upd line := rewrite parse_lines_app, (media_when _ upd);
  [cbn [mbind result_bind]|by intros []|by intros; rewrite line, last_mut_media].

Lemma parse_media m p : media_description_ok m = true ->
  Parser.parse_lines (media_lines m) p =
  Ok (with_media p (Parser.media_descriptions p ++ [inherit (Parser.extmap_allow_mixed p) (Parser.setup p) m])).
Proof using NL ML IL IC TNL.
  unfold media_description_ok, media_with. rewrite !andb_true_iff.
  intros [[[[[[[[[[[[[[Hm Hc] Hb] Hr] Hi] Hmap] Hf] Hu] Hp] Hcand] Hcr] He] Hs] Hfp] Ha]. unfold media_lines.
  rewrite parse_lines_app, parse_lines_one, line_media by done. cbn [mbind result_bind].
  item connection_ok (fun (m : MD) o => m <| MediaDescription.connection := match o with Some x => Some x | None => MediaDescription.connection m end |>) line_connection.
  items bandwidth_ok (fun (m : MD) l => m <| MediaDescription.bandwidth := MediaDescription.bandwidth m ++ l |>) line_bandwidth.
  rewrite parse_lines_app, parse_lines_one, line_direction. unfold Parser.set_direction. rewrite last_mut_media. cbn [mbind result_bind].
  item rtcp_ok (fun (m : MD) o => m <| MediaDescription.rtcp := match o with Some x => Some x | None => MediaDescription.rtcp m end |>) line_rtcp.
  item_flag (fun (m : MD) b => m <| MediaDescription.rtcp_mux := b || MediaDescription.rtcp_mux m |>) line_mux.
  item mid_ok (fun (m : MD) o => m <| MediaDescription.mid := match o with Some x => Some x | None => MediaDescription.mid m end |>) line_mid.
  items rtpmap_ok (fun (m : MD) l => m <| MediaDescription.rtpmap := MediaDescription.rtpmap m ++ l |>) line_rtpmap.
  items fmtp_ok (fun (m : MD) l => m <| MediaDescription.fmtp := MediaDescription.fmtp m ++ l |>) line_fmtp.
  item ufrag_ok (fun (m : MD) o => m <| MediaDescription.ice_ufrag := match o with Some x => Some x | None => MediaDescription.ice_ufrag m end |>) line_ufrag.
  item pwd_ok (fun (m : MD) o => m <| MediaDescription.ice_pwd := match o with Some x => Some x | None => MediaDescription.ice_pwd m end |>) line_pwd.
  items candidate_ok (fun (m : MD) l => m <| MediaDescription.ice_candidates := MediaDescription.ice_candidates m ++ l |>) line_candidate.
  item_flag (fun (m : MD) b => m <| MediaDescription.ice_end_of_candidates := b || MediaDescription.ice_end_of_candidates m |>) line_end_of_candidates.
  items crypto_ok (fun (m : MD) l => m <| MediaDescription.crypto := MediaDescription.crypto m ++ l |>) line_crypto.
  items extmap_ok (fun (m : MD) l => m <| MediaDescription.extmap := MediaDescription.extmap m ++ l |>) line_extmap.
  item_flag (fun (m : MD) b => m <| MediaDescription.extmap_allow_mixed := b || MediaDescription.extmap_allow_mixed m |>) line_mixed.
  items ssrc_ok (fun (m : MD) l => m <| MediaDescription.ssrc := MediaDescription.ssrc m ++ l |>) line_ssrc.
  item (fun _ : Setup.t => true) (fun (m : MD) o => m <| MediaDescription.setup := match o with Some x => Some x | None => MediaDescription.setup m end |>) line_setup.
  items fingerprint_ok (fun (m : MD) l => m <| MediaDescription.fingerprint := MediaDescription.fingerprint m ++ l |>) line_fingerprint.
  rewrite (media_each _ attribute_ok (fun (m : MD) l => m <| MediaDescription.attributes := MediaDescription.attributes m ++ l |>)).
  - do 4 f_equal. destruct m. cbv [updated inherit fresh_media MediaDescription.empty MediaDescription.media MediaDescription.connection
      MediaDescription.bandwidth MediaDescription.direction MediaDescription.rtcp MediaDescription.rtcp_mux MediaDescription.mid
      MediaDescription.rtpmap MediaDescription.fmtp MediaDescription.ice_ufrag MediaDescription.ice_pwd MediaDescription.ice_candidates
      MediaDescription.ice_end_of_candidates MediaDescription.crypto MediaDescription.extmap MediaDescription.extmap_allow_mixed
      MediaDescription.ssrc MediaDescription.setup MediaDescription.fingerprint MediaDescription.attributes].
    f_equal; solve [done|by rewrite orb_false_r|by case_match].
  - by intros []; cbn; rewrite app_nil_r.
  - by intros []; intros; cbn; rewrite <-app_assoc.
  - by intros; rewrite line_attribute, last_mut_media.
  - done.
Qed.

Lemma with_media_twice p a b : with_media (with_media p a) b = with_media p b.
Proof. done. Qed.

Lemma parse_medias ms p : forallb media_description_ok ms = true ->
  Parser.parse_lines (concat (media_lines <$> ms)) p =
  Ok (with_media p (Parser.media_descriptions p ++ (inherit (Parser.extmap_allow_mixed p) (Parser.setup p) <$> ms))).
Proof using NL ML IL IC TNL.
  revert p. induction ms as [|m ms IH]; intros p Hms.
  - cbn [fmap list_fmap concat]. rewrite app_nil_r. by destruct p.
  - cbn [forallb] in Hms. apply andb_true_iff in Hms as [Hm Hms].
    change (concat (media_lines <$> m :: ms)) with (media_lines m ++ concat (media_lines <$> ms)).
    rewrite parse_lines_app, parse_media by done. cbn [mbind result_bind]. rewrite IH by done.
    rewrite with_media_twice. do 2 f_equal. change (inherit ?a ?b <$> m :: ms) with ([inherit a b m] ++ (inherit a b <$> ms)).
    rewrite app_assoc. done.
Qed.

(** ** The lines of the session *)

(** What is read: the direction of the session, which is not printed, is the
    default; [ice-lite] is an attribute that is not known. *)
Definition as_read (d : SessionDescription.t) : SessionDescription.t := {|
  SessionDescription.origin := SessionDescription.origin d; SessionDescription.name := SessionDescription.name d;
  SessionDescription.connection := SessionDescription.connection d;
  SessionDescription.bandwidth := SessionDescription.bandwidth d; SessionDescription.time := SessionDescription.time d;
  SessionDescription.direction := Direction.SendRecv; SessionDescription.group := SessionDescription.group d;
  SessionDescription.extmap := SessionDescription.extmap d;
  SessionDescription.extmap_allow_mixed := SessionDescription.extmap_allow_mixed d;
  SessionDescription.ice_lite := false; SessionDescription.ice_options := IceOptions.default;
  SessionDescription.ice_ufrag := SessionDescription.ice_ufrag d; SessionDescription.ice_pwd := SessionDescription.ice_pwd d;
  SessionDescription.setup := SessionDescription.setup d; SessionDescription.fingerprint := SessionDescription.fingerprint d;
  SessionDescription.attributes :=
    (if SessionDescription.ice_lite d
     then [{| UnknownAttribute.name := lit "ice-lite"; UnknownAttribute.value := None |}] else []) ++
    SessionDescription.attributes d;
  SessionDescription.media_descriptions :=
    inherit (SessionDescription.extmap_allow_mixed d) (SessionDescription.setup d) <$> SessionDescription.media_descriptions d |}.

Definition no_media (p : Parser.t) : Prop := Parser.media_descriptions p = [].

Lemma line_ice_lite p : no_media p ->
  Parser.parse_line (lit "a=ice-lite") p =
  Ok (p <| Parser.attributes := Parser.attributes p ++ [{| UnknownAttribute.name := lit "ice-lite"; UnknownAttribute.value := None |}] |>).
Proof.
  intros Hp. change (lit "a=ice-lite") with (UnknownAttribute.print {| UnknownAttribute.name := lit "ice-lite"; UnknownAttribute.value := None |}).
  rewrite line_attribute by done. by rewrite last_mut_session.
Qed.

Lemma line_origin o p : origin_ok o = true ->
  Parser.parse_line (lit "o=" ++ Origin.print o) p = Ok (p <| Parser.origin := Some o |>).
Proof using NL IL.
  intros H. rewrite parse_line_o, (finish_reads _ _ _ (origin_reads o H)); [done|].
  unfold origin_ok in H. rewrite !andb_true_iff in H. destruct H as [[[[Hne Hw]%word_split _] _] _]. unfold Origin.print.
  destruct (Origin.username o) as [|c u]; [done|]. cbn in Hw. apply andb_true_iff in Hw as [Hw _].
  clear -Hw. cbn [app char_start]. apply negb_true_iff. revert c Hw. by_bytes.
Qed.

Lemma digits_char_start z r : (0 <= z)%Z -> char_start (print_uint z ++ r) = true.
Proof.
  intros Hz. pose proof (print_uint_digits z Hz) as Hd. pose proof (print_uint_nonempty z Hz).
  destruct (print_uint z) as [|b s]; [done|]. inversion Hd as [|? ? Hb _]; subst. clear -Hb.
  cbn [app char_start]. apply negb_true_iff. revert b Hb. by_bytes.
Qed.

Lemma line_time m p : time_ok m = true -> Parser.parse_line (lit "t=" ++ Time.print m) p = Ok (p <| Parser.time := Some m |>).
Proof using NL.
  intros H. rewrite parse_line_t, (finish_reads _ _ _ (time_reads m H)); [done|].
  apply andb_true_iff in H as [H%uint_ok_range _]. apply digits_char_start, H.
Qed.

Ltac session_items ok upd line := rewrite parse_lines_app, (parse_each _ ok no_media upd);
  [cbn [mbind result_bind]
  |by intros []; cbn; rewrite app_nil_r|by intros []; intros; cbn; rewrite <-app_assoc|done
  |by intros; rewrite line, ?last_mut_session|eassumption|done].
Ltac session_item ok upd line := rewrite parse_lines_app, (parse_opt _ ok no_media upd);
  [cbn [mbind result_bind]|by intros []|by intros; rewrite line, ?last_mut_session
  |first [eassumption|by destruct (SessionDescription.setup _)]|done].
Ltac session_flag upd line := rewrite parse_lines_app, (parse_when _ no_media upd);
  [cbn [mbind result_bind]|by intros []; cbn; rewrite ?app_nil_r|by intros; rewrite line, ?last_mut_session|done].

(** The state when the first media description comes *)
Definition head_state (d : SessionDescription.t) : Parser.t := {|
  Parser.origin := Some (SessionDescription.origin d); Parser.name := Some (SessionDescription.name d);
  Parser.connection := SessionDescription.connection d; Parser.bandwidth := SessionDescription.bandwidth d;
  Parser.time := Some (SessionDescription.time d); Parser.direction := Direction.SendRecv;
  Parser.group := SessionDescription.group d; Parser.extmap := SessionDescription.extmap d;
  Parser.extmap_allow_mixed := SessionDescription.extmap_allow_mixed d; Parser.ice_options := IceOptions.default;
  Parser.ice_lite := false; Parser.ice_ufrag := SessionDescription.ice_ufrag d; Parser.ice_pwd := SessionDescription.ice_pwd d;
  Parser.setup := SessionDescription.setup d; Parser.fingerprint := SessionDescription.fingerprint d;
  Parser.attributes := SessionDescription.attributes (as_read d); Parser.media_descriptions := [] |}.

Lemma no_options o p : length (IceOptions.options o) = 0 ->
  Parser.parse_lines ((fun o => lit "a=ice-options:" ++ IceOptions.print o) <$> (if IceOptions.options o is [] then [] else [o])) p = Ok p.
Proof. by destruct (IceOptions.options o). Qed.

Lemma parse_head d : description_ok d = true -> Parser.parse_lines (head_lines d) Parser.default = Ok (head_state d).
Proof using NL ML IL TNL.
  unfold description_ok, description_with, no_ice_options. rewrite !andb_true_iff, bool_decide_eq_true.
  intros [[[[[[[[[[[[[Ho Hn] Hc] Hb] Ht] Hg] He] Hopt] Hu] Hp] Hf] Ha] _] _]. unfold head_lines.
  rewrite parse_lines_app, parse_lines_one, parse_line_v by done. cbn [mbind result_bind].
  rewrite parse_lines_app, parse_lines_one, line_origin by done. cbn [mbind result_bind].
  rewrite parse_lines_app, parse_lines_one, parse_line_s by done. cbn [mbind result_bind].
  session_item connection_ok (fun (p : Parser.t) o => p <| Parser.connection := match o with Some x => Some x | None => Parser.connection p end |>) line_connection.
  session_items bandwidth_ok (fun (p : Parser.t) l => p <| Parser.bandwidth := Parser.bandwidth p ++ l |>) line_bandwidth.
  rewrite parse_lines_app, parse_lines_one, line_time by done. cbn [mbind result_bind].
  session_items group_ok (fun (p : Parser.t) l => p <| Parser.group := Parser.group p ++ l |>) line_group.
  session_items extmap_ok (fun (p : Parser.t) l => p <| Parser.extmap := Parser.extmap p ++ l |>) line_extmap.
  session_flag (fun (p : Parser.t) b => p <| Parser.extmap_allow_mixed := b || Parser.extmap_allow_mixed p |>) line_mixed.
  rewrite parse_lines_app, no_options by done. cbn [mbind result_bind].
  session_flag (fun (p : Parser.t) (b : bool) => p <| Parser.attributes := Parser.attributes p ++
    (if b then [{| UnknownAttribute.name := lit "ice-lite"; UnknownAttribute.value := None |}] else []) |>) line_ice_lite.
  session_item ufrag_ok (fun (p : Parser.t) o => p <| Parser.ice_ufrag := match o with Some x => Some x | None => Parser.ice_ufrag p end |>) line_ufrag.
  session_item pwd_ok (fun (p : Parser.t) o => p <| Parser.ice_pwd := match o with Some x => Some x | None => Parser.ice_pwd p end |>) line_pwd.
  session_item (fun _ : Setup.t => true) (fun (p : Parser.t) o => p <| Parser.setup := match o with Some x => Some x | None => Parser.setup p end |>) line_setup.
  session_items fingerprint_ok (fun (p : Parser.t) l => p <| Parser.fingerprint := Parser.fingerprint p ++ l |>) line_fingerprint.
  rewrite (parse_each _ attribute_ok no_media (fun (p : Parser.t) l => p <| Parser.attributes := Parser.attributes p ++ l |>)).
  - f_equal. destruct d. cbv [updated head_state as_read Parser.default Parser.origin Parser.name Parser.connection Parser.bandwidth
      Parser.time Parser.direction Parser.group Parser.extmap Parser.extmap_allow_mixed Parser.ice_options
      Parser.ice_lite Parser.ice_ufrag Parser.ice_pwd Parser.setup Parser.fingerprint Parser.attributes
      Parser.media_descriptions SessionDescription.origin SessionDescription.name SessionDescription.connection
      SessionDescription.bandwidth SessionDescription.time SessionDescription.direction SessionDescription.group
      SessionDescription.extmap SessionDescription.extmap_allow_mixed SessionDescription.ice_options
      SessionDescription.ice_lite SessionDescription.ice_ufrag SessionDescription.ice_pwd SessionDescription.setup
      SessionDescription.fingerprint SessionDescription.attributes SessionDescription.media_descriptions].
    f_equal; solve [done|by rewrite orb_false_r|by case_match].
  - by intros []; cbn; rewrite app_nil_r.
  - by intros []; intros; cbn; rewrite <-app_assoc.
  - done.
  - by intros; rewrite line_attribute, last_mut_session.
  - done.
  - done.
Qed.

(** Lines are not empty. *)
Definition filled (l : str) : Prop := l <> [].

Lemma filled_each {A} (f : A -> str) l : (forall x, filled (f x)) -> Forall filled (f <$> l).
Proof. intros Hf. apply Forall_fmap, Forall_true. exact Hf. Qed.

Lemma filled_when b l : filled l -> Forall filled (when b l).
Proof. intros Hl. destruct b; by repeat constructor. Qed.

Ltac filled := repeat (apply Forall_app; split);
  first [by apply filled_when; unfold filled|by apply filled_each; unfold filled|by repeat constructor; unfold filled].

Lemma session_lines_filled d : Forall filled (session_lines d).
Proof.
  unfold session_lines. apply Forall_app. split; [unfold head_lines; filled|].
  apply Forall_concat, Forall_fmap, Forall_true. intros m. unfold compose, media_lines. filled.
Qed.

Lemma lines_printed d : forallb one_line (session_lines d) = true ->
  Parser.lines (SessionDescription.print d) = session_lines d.
Proof.
  intros Hl. rewrite print_session_lines. apply lines_render. apply Forall_forall. intros l Hin. split.
  - pose proof (session_lines_filled d) as Hf. rewrite Forall_forall in Hf. by apply Hf.
  - rewrite forallb_forall in Hl. by apply Hl, list_elem_of_In.
Qed.

Lemma parse_printed d : description_ok d = true -> Parser.parse_session (SessionDescription.print d) = Ok (as_read d).
Proof using NL ML IL IC TNL.
  intros Hd. pose proof Hd as Hl. unfold description_ok, description_with in Hl. rewrite !andb_true_iff in Hl.
  unfold Parser.parse_session. rewrite lines_printed by tauto. unfold session_lines.
  rewrite parse_lines_app, parse_head by done. cbn [mbind result_bind]. by rewrite parse_medias by tauto.
Qed.

(** ** What is not read *)

(** A line that is not read in any state *)
Lemma parse_lines_unreadable l ls e p : l ∈ ls -> (forall p, Parser.parse_line l p = Err e) ->
  exists e, Parser.parse_lines ls p = Err e.
Proof.
  intros Hin He. apply list_elem_of_split in Hin as (a & b & ->). rewrite parse_lines_app.
  destruct (Parser.parse_lines a p) as [q|e']; [|by exists e']. cbn [mbind result_bind]. exists e.
  change (l :: b) with ([l] ++ b). by rewrite parse_lines_app, parse_lines_one, He.
Qed.

Definition small_fingerprint (f : Fingerprint.t) : Prop :=
  algorithm_ok (Fingerprint.algorithm f) = true /\
  exists b l, Fingerprint.fingerprint f = b :: l /\ (0 <= b < 16)%Z /\ Forall (uint 8) l.

Lemma line_small_fingerprint f p : small_fingerprint f ->
  Parser.parse_line (lit "a=fingerprint:" ++ Fingerprint.print f) p = Err ParseError.
Proof using NL ML TNL.
  intros (Ha & b & l & E & Hb & Hl). destruct f as [a fp]. cbn in Ha, E. subst fp.
  attribute "fingerprint". by rewrite fingerprint_nothing.
Qed.

Lemma line_options o p : IceOptions.options o <> [] ->
  Parser.parse_line (lit "a=ice-options:" ++ IceOptions.print o) p = Err ParseError.
Proof using NL ML. intros Ho. attribute "ice-options". by rewrite options_nothing. Qed.

Lemma unreadable_line d l : forallb one_line (session_lines d) = true -> l ∈ session_lines d ->
  (forall p, Parser.parse_line l p = Err ParseError) -> exists e, Parser.parse_session (SessionDescription.print d) = Err e.
Proof.
  intros Hl Hin He. unfold Parser.parse_session. rewrite lines_printed by done.
  destruct (parse_lines_unreadable l (session_lines d) ParseError Parser.default Hin He) as [e E]. exists e. by rewrite E.
Qed.

Lemma fingerprint_line d m f : m ∈ SessionDescription.media_descriptions d -> f ∈ MediaDescription.fingerprint m ->
  lit "a=fingerprint:" ++ Fingerprint.print f ∈ session_lines d.
Proof.
  intros Hm Hf. unfold session_lines. apply elem_of_app. right. apply list_elem_of_In, in_concat.
  exists (media_lines m). split; apply list_elem_of_In; [by apply list_elem_of_fmap_2|]. unfold media_lines. rewrite !elem_of_app.
  do 18 right. left. by apply (list_elem_of_fmap_2 (fun f => lit "a=fingerprint:" ++ Fingerprint.print f)).
Qed.

Lemma session_fingerprint_line d f : f ∈ SessionDescription.fingerprint d ->
  lit "a=fingerprint:" ++ Fingerprint.print f ∈ session_lines d.
Proof.
  intros Hf. unfold session_lines, head_lines. rewrite !elem_of_app. left. do 14 right. left.
  by apply (list_elem_of_fmap_2 (fun f => lit "a=fingerprint:" ++ Fingerprint.print f)).
Qed.

Lemma options_line d : IceOptions.options (SessionDescription.ice_options d) <> [] ->
  lit "a=ice-options:" ++ IceOptions.print (SessionDescription.ice_options d) ∈ session_lines d.
Proof.
  intros Ho. unfold session_lines, head_lines. rewrite !elem_of_app. left. do 9 right. left.
  destruct (IceOptions.options _); [done|]. by left.
Qed.

Lemma fits_one_digit f : fingerprint_fits f = true -> two_digits f = false -> small_fingerprint f.
Proof.
  unfold fingerprint_fits, two_digits, small_fingerprint. destruct (Fingerprint.fingerprint f) as [|b l]; [by rewrite andb_false_r|].
  rewrite !andb_true_iff. cbn [forallb]. rewrite andb_true_iff. intros [[Ha _] [Hb Hl]] H16%bool_decide_eq_false.
  apply uint_ok_range in Hb. unfold uint in Hb. split; [done|]. exists b, l. split; [done|]. split; [lia|].
  apply Forall_forall. intros x Hx%list_elem_of_In. apply uint_ok_range. rewrite forallb_forall in Hl. by apply Hl.
Qed.

Lemma not_forallb {A} (f : A -> bool) l : forallb f l = false -> exists x, x ∈ l /\ f x = false.
Proof.
  induction l as [|x l IH]; [done|]. cbn [forallb]. destruct (f x) eqn:E; [|by exists x; split; [left|]].
  intros (y & Hy & Hf)%IH. exists y. split; [by right|done].
Qed.

(** What is written and not read again *)
Lemma written_unreadable d : writable d = true -> readable d = false ->
  exists e, Parser.parse_session (SessionDescription.print d) = Err e.
Proof using NL ML TNL.
  unfold writable, description_with, readable. rewrite !andb_true_iff.
  intros (((((((((((((Ho & Hn) & Hc) & Hb) & Ht) & Hg) & He) & _) & Hu) & Hp) & Hf) & Ha) & Hm) & Hl) Hr.
  rewrite forallb_forall in Hf, Hm. destruct (no_ice_options _) eqn:Eo.
  - destruct (forallb two_digits (SessionDescription.fingerprint d)) eqn:Es; cbn [andb] in Hr.
    + apply not_forallb in Hr as (m & Hin & (f & Hfin & H2)%not_forallb).
      refine (unreadable_line d _ Hl (fingerprint_line d m f Hin Hfin) _). intros p. apply line_small_fingerprint.
      apply fits_one_digit; [|done]. apply list_elem_of_In in Hin. specialize (Hm m Hin). unfold media_with in Hm.
      rewrite !andb_true_iff in Hm. destruct Hm as [[_ Hmf] _]. rewrite forallb_forall in Hmf.
      by apply Hmf, list_elem_of_In.
    + apply not_forallb in Es as (f & Hfin & H2).
      refine (unreadable_line d _ Hl (session_fingerprint_line d f Hfin) _). intros p. apply line_small_fingerprint.
      apply fits_one_digit; [|done]. by apply Hf, list_elem_of_In.
  - assert (IceOptions.options (SessionDescription.ice_options d) <> []) as Hne
      by (intros E; unfold no_ice_options in Eo; by rewrite E in Eo).
    refine (unreadable_line d _ Hl (options_line d Hne) _). intros p. by apply line_options.
Qed.

(** C21: A session description whose texts, numbers and lists fit their lines
    is parsed as it was printed, but for what the printer leaves out: the
    direction of the session is the default again, [ice-lite] comes back as an
    unknown attribute, and each media description has what it inherits from the
    session. The exceptions are those the code cannot read: as soon as the
    description has ICE options, or a fingerprint of the session or of a media
    description begins with a byte below 16, the printed text is refused. *)
Theorem description_roundtrip d : writable d = true ->
  if readable d then Parser.parse_session (SessionDescription.print d) = Ok (as_read d)
  else exists e, Parser.parse_session (SessionDescription.print d) = Err e.
Proof using NL ML IL IC TNL.
  intros Hw. destruct (readable d) eqn:Hr; [by apply parse_printed, writable_readable|by apply written_unreadable].
Qed.
End media_lines.

(** ** A sample *)
Module SdpSample.
#[export] Instance colons : Ip6Colons FullIp6.text.
Proof.
  split. intros ip _. cbn [ip6_to_string FullIp6.text]. pose proof (length_be_bytes 16 ip) as Hl.
  destruct (be_bytes 16 ip) as [|a [|b [|c l]]]; try done. cbn [FullIp6.groups].
  rewrite decide_False by done. apply elem_of_app. right. apply elem_of_app. right. by left.
Qed.

Definition ip4 : Z := 3221225985.
Definition media : MD := {|
  MediaDescription.media := {| Media.media_type := MediaType.Audio; Media.port := 9; Media.ports_num := None;
    Media.proto := TransportProtocol.UdpTlsRtpSavpf; Media.fmts := [96; 8]%Z |};
  MediaDescription.connection := Some {| Connection.address := TaggedAddress.IP4 ip4; Connection.ttl := Some 127%Z; Connection.num := None |};
  MediaDescription.bandwidth := [{| Bandwidth.type_ := lit "AS"; Bandwidth.bandwidth := 64 |}];
  MediaDescription.direction := Direction.SendOnly;
  MediaDescription.rtcp := Some {| Rtcp.port := 10; Rtcp.address := None |};
  MediaDescription.rtcp_mux := true; MediaDescription.mid := Some (lit "0");
  MediaDescription.rtpmap := [{| RtpMap.payload := 96; RtpMap.encoding := lit "opus"; RtpMap.clock_rate := 48000; RtpMap.params := Some (lit "2") |}];
  MediaDescription.fmtp := [{| Fmtp.format := 96; Fmtp.params := lit "useinbandfec=1; stereo=1" |}];
  MediaDescription.ice_ufrag := Some {| IceUsernameFragment.ufrag := lit "F7gI" |};
  MediaDescription.ice_pwd := Some {| IcePassword.pwd := lit "x9cml/YzichV2+XlhiMu8g" |};
  MediaDescription.ice_candidates := [{|
    IceCandidate.foundation := lit "1"; IceCandidate.component := 1; IceCandidate.transport := lit "UDP";
    IceCandidate.priority := 1694498815; IceCandidate.address := UntaggedAddress.IpAddress (IpV6 1);
    IceCandidate.port := 8998; IceCandidate.typ := lit "srflx";
    IceCandidate.rel_addr := Some (UntaggedAddress.Fqdn (lit "a.local")); IceCandidate.rel_port := Some 9%Z;
    IceCandidate.unknown := [(lit "generation", lit "0")] |}];
  MediaDescription.ice_end_of_candidates := true;
  MediaDescription.crypto := [{|
    SrtpCrypto.tag := 1; SrtpCrypto.suite := SrtpSuite.AES_CM_128_HMAC_SHA1_80;
    SrtpCrypto.keys := [{| SrtpKeyingMaterial.key_and_salt := lit "d0RmdmcmVCspeEc3QGZiNWpV";
                           SrtpKeyingMaterial.lifetime := Some (2 ^ 20)%Z; SrtpKeyingMaterial.mki := Some (1, 4)%Z |}];
    SrtpCrypto.params := [SrtpSessionParam.Kdr 100; SrtpSessionParam.FecOrder SrtpFecOrder.SrtpFec] |}];
  MediaDescription.extmap := [{| ExtMap.id := 1; ExtMap.uri := lit "urn:ietf:params:rtp-hdrext:sdes:mid"; ExtMap.direction := Direction.RecvOnly |}];
  MediaDescription.extmap_allow_mixed := false;
  MediaDescription.ssrc := [{| Ssrc.ssrc := 77; Ssrc.attribute := SourceAttribute.CName (lit "a@b") |};
                            {| Ssrc.ssrc := 77; Ssrc.attribute := SourceAttribute.Other (lit "label") (Some (lit "x y")) |}];
  MediaDescription.setup := None;
  MediaDescription.fingerprint := [{| Fingerprint.algorithm := FingerprintAlgorithm.SHA256; Fingerprint.fingerprint := [171; 2; 255]%Z |}];
  MediaDescription.attributes := [{| UnknownAttribute.name := lit "ptime"; UnknownAttribute.value := Some (lit "20") |}] |}.

Definition description : SessionDescription.t := {|
  SessionDescription.origin := {| Origin.username := lit "-"; Origin.session_id := lit "1"; Origin.session_version := lit "2";
    Origin.address := TaggedAddress.IP4FQDN (lit "host.example") |};
  SessionDescription.name := lit "A call"; SessionDescription.connection := None; SessionDescription.bandwidth := [];
  SessionDescription.time := {| Time.start := 0; Time.stop := 0 |}; SessionDescription.direction := Direction.SendRecv;
  SessionDescription.group := [{| Group.typ := lit "BUNDLE"; Group.mids := [lit "0"] |}];
  SessionDescription.extmap := []; SessionDescription.extmap_allow_mixed := true; SessionDescription.ice_lite := true;
  SessionDescription.ice_options := IceOptions.default; SessionDescription.ice_ufrag := None; SessionDescription.ice_pwd := None;
  SessionDescription.setup := Some Setup.ActPass; SessionDescription.fingerprint := []; SessionDescription.attributes := [];
  SessionDescription.media_descriptions := [media] |}.

(** A description with options, and one with a fingerprint that starts with 15 *)
Definition with_parts (o : IceOptions.t) (ms : list MD) : SessionDescription.t :=
  let d := description in
  {| SessionDescription.origin := SessionDescription.origin d; SessionDescription.name := SessionDescription.name d;
     SessionDescription.connection := None; SessionDescription.bandwidth := []; SessionDescription.time := SessionDescription.time d;
     SessionDescription.direction := Direction.SendRecv; SessionDescription.group := []; SessionDescription.extmap := [];
     SessionDescription.extmap_allow_mixed := false; SessionDescription.ice_lite := false;
     SessionDescription.ice_options := o; SessionDescription.ice_ufrag := None;
     SessionDescription.ice_pwd := None; SessionDescription.setup := None; SessionDescription.fingerprint := [];
     SessionDescription.attributes := [];
     SessionDescription.media_descriptions := ms |}.
Definition with_options : SessionDescription.t := with_parts {| IceOptions.options := [lit "trickle"] |} [].
Definition with_fingerprint : SessionDescription.t := with_parts IceOptions.default
  [media <| MediaDescription.fingerprint :=
     [{| Fingerprint.algorithm := FingerprintAlgorithm.SHA1; Fingerprint.fingerprint := [15; 255]%Z |}] |>].
End SdpSample.

Section samples.
#[local] Existing Instances complete more_complete FullIp6.text FullIp6.laws ascii_nom ascii_nom_laws SdpSample.colons.

Lemma description_roundtrip_witness :
  Parser.parse_session (SessionDescription.print SdpSample.description) = Ok (as_read SdpSample.description) /\
  (exists e, Parser.parse_session (SessionDescription.print SdpSample.with_options) = Err e) /\
  (exists e, Parser.parse_session (SessionDescription.print SdpSample.with_fingerprint) = Err e).
Proof.
  assert (writable SdpSample.description = true) as H by (vm_compute; reflexivity).
  assert (writable SdpSample.with_options = true) as H1 by (vm_compute; reflexivity).
  assert (writable SdpSample.with_fingerprint = true) as H2 by (vm_compute; reflexivity).
  split; [exact (description_roundtrip SdpSample.description H)|].
  split; [exact (description_roundtrip SdpSample.with_options H1)|exact (description_roundtrip SdpSample.with_fingerprint H2)].
Defined.
End samples.
