(* ===== verification/SdpParsed.v ===== *)
(** * What every parsed description has (sdp-types/src/parser.rs)

    [effect] lists what a line can do to the parser. From it: a line is about
    the last media description once there is one, and all numbers are within
    the widths of the types of the code. *)
From S2P Require Import Prelude Text SipNames SipMessages SipParse SipUri SipUriProps SdpFields SdpFieldsProps.
From S2P Require Import SdpAttributes SdpAttributesProps SdpCrypto SdpCryptoProps SdpSession SdpSessionProps.

(** ** What a line does *)
Definition parsed {A} (q : parser A) (x : A) : Prop := exists i r, q i = Some (r, x).

Lemma finish_line_ok {A} (q : parser A) i x : finish_line (q i) = Ok x -> parsed q x.
Proof. unfold finish_line. destruct (q i) as [[r y]|] eqn:E; [|done]. intros [= <-]. by exists i, r. Qed.

Section effects.
Context {NC : Combinators} {M : MoreCombinators} {I6 : Ip6Text} {TNC : Nom}.

(** Assignments to the last media description, or to the session *)
Definition assign_both (f : MD -> MD) (g : Parser.t -> Parser.t) (p p' : Parser.t) : Prop := p' = Parser.last_mut f g p.

Inductive effect (p : Parser.t) : Parser.t -> Prop :=
| ignored : effect p p
| named n : effect p (p <| Parser.name := Some n |>)
| origin_read o : parsed Origin.parse o -> effect p (p <| Parser.origin := Some o |>)
| time_read m : parsed Time.parse m -> effect p (p <| Parser.time := Some m |>)
| media_read media : parsed Media.parse media ->
    effect p (p <| Parser.media_descriptions := Parser.media_descriptions p ++
      [(let m : MD := MediaDescription.empty media (Parser.direction p) in
        let m : MD := m <| MediaDescription.extmap_allow_mixed := Parser.extmap_allow_mixed p |> in
        m <| MediaDescription.setup := Parser.setup p |>)] |>)
| group_read g : parsed Group.parse g -> effect p (p <| Parser.group := Parser.group p ++ [g] |>)
| lite : effect p (p <| Parser.ice_lite := true |>)
| options_read o : parsed IceOptions.parse o -> effect p (p <| Parser.ice_options := o |>)
| connection_read c : parsed Connection.parse c ->
    effect p (Parser.last_mut (fun m : MD => m <| MediaDescription.connection := Some c |>)
                (fun p : Parser.t => p <| Parser.connection := Some c |>) p)
| bandwidth_read b : parsed Bandwidth.parse b ->
    effect p (Parser.last_mut (fun m : MD => m <| MediaDescription.bandwidth := MediaDescription.bandwidth m ++ [b] |>)
                (fun p : Parser.t => p <| Parser.bandwidth := Parser.bandwidth p ++ [b] |>) p)
| direction_set d : effect p (Parser.set_direction d p)
| rtcp_read r : parsed Rtcp.parse r ->
    effect p (Parser.last_mut (fun m : MD => m <| MediaDescription.rtcp := Some r |>) id p)
| mid_set i : effect p (Parser.last_mut (fun m : MD => m <| MediaDescription.mid := Some i |>) id p)
| rtpmap_read r : parsed RtpMap.parse r ->
    effect p (Parser.last_mut (fun m : MD => m <| MediaDescription.rtpmap := MediaDescription.rtpmap m ++ [r] |>) id p)
| fmtp_read f : parsed Fmtp.parse f ->
    effect p (Parser.last_mut (fun m : MD => m <| MediaDescription.fmtp := MediaDescription.fmtp m ++ [f] |>) id p)
| ufrag_read u : parsed IceUsernameFragment.parse u ->
    effect p (Parser.last_mut (fun m : MD => m <| MediaDescription.ice_ufrag := Some u |>)
                (fun p : Parser.t => p <| Parser.ice_ufrag := Some u |>) p)
| pwd_read u : parsed IcePassword.parse u ->
    effect p (Parser.last_mut (fun m : MD => m <| MediaDescription.ice_pwd := Some u |>)
                (fun p : Parser.t => p <| Parser.ice_pwd := Some u |>) p)
| candidate_read c : parsed IceCandidate.parse c ->
    effect p (Parser.last_mut (fun m : MD => m <| MediaDescription.ice_candidates := MediaDescription.ice_candidates m ++ [c] |>) id p)
| crypto_read c : parsed SrtpCrypto.parse c ->
    effect p (Parser.last_mut (fun m : MD => m <| MediaDescription.crypto := MediaDescription.crypto m ++ [c] |>) id p)
| extmap_read e : parsed ExtMap.parse e ->
    effect p (Parser.last_mut (fun m : MD => m <| MediaDescription.extmap := MediaDescription.extmap m ++ [e] |>)
                (fun p : Parser.t => p <| Parser.extmap := Parser.extmap p ++ [e] |>) p)
| mixed_set :
    effect p (Parser.last_mut (fun m : MD => m <| MediaDescription.extmap_allow_mixed := true |>)
                (fun p : Parser.t => p <| Parser.extmap_allow_mixed := true |>) p)
| mux_set : effect p (Parser.last_mut (fun m : MD => m <| MediaDescription.rtcp_mux := true |>) id p)
| candidates_end : effect p (Parser.last_mut (fun m : MD => m <| MediaDescription.ice_end_of_candidates := true |>) id p)
| ssrc_read s : parsed Ssrc.parse s ->
    effect p (Parser.last_mut (fun m : MD => m <| MediaDescription.ssrc := MediaDescription.ssrc m ++ [s] |>) id p)
| setup_set s :
    effect p (Parser.last_mut (fun m : MD => m <| MediaDescription.setup := Some s |>)
                (fun p : Parser.t => p <| Parser.setup := Some s |>) p)
| fingerprint_read f : parsed Fingerprint.parse f ->
    effect p (Parser.last_mut (fun m : MD => m <| MediaDescription.fingerprint := MediaDescription.fingerprint m ++ [f] |>)
                (fun p : Parser.t => p <| Parser.fingerprint := Parser.fingerprint p ++ [f] |>) p)
| attribute_kept a :
    effect p (Parser.last_mut (fun m : MD => m <| MediaDescription.attributes := MediaDescription.attributes m ++ [a] |>)
                (fun p : Parser.t => p <| Parser.attributes := Parser.attributes p ++ [a] |>) p).

Ltac effects := repeat case_decide; simplify_eq;
  try match goal with
  | H : (finish_line (?q ?i) ≫= _) = Ok _ |- _ =>
      let E := fresh "E" in destruct (finish_line (q i)) as [?|?] eqn:E; [apply finish_line_ok in E|done]; cbn in H; simplify_eq
  end; by constructor.

Lemma attribute_effect n v p p' : Parser.parse_attribute_with_value n v p = Ok p' -> effect p p'.
Proof. unfold Parser.parse_attribute_with_value. intros H. effects. Qed.

Lemma flag_effect l p : effect p (Parser.parse_attribute_without_value l p).
Proof. unfold Parser.parse_attribute_without_value. effects. Qed.

Lemma line_effect l p p' : Parser.parse_line l p = Ok p' -> effect p p'.
Proof.
  unfold Parser.parse_line. destruct (get_from 2 l) as [t|]; [|done]. cbn [ok_or mbind result_bind]. intros H.
  case_decide; [simplify_eq; constructor|].
  destruct (starts_with (lit "s=") l); [simplify_eq; constructor|].
  destruct (starts_with (lit "o=") l); [effects|]. destruct (starts_with (lit "t=") l); [effects|].
  destruct (starts_with (lit "c=") l); [effects|]. destruct (starts_with (lit "b=") l); [effects|].
  destruct (starts_with (lit "m=") l); [effects|]. destruct (starts_with (lit "a=") l); [|simplify_eq; constructor].
  unfold Parser.parse_attribute in H. destruct (split_once x3a t) as [[n v]|].
  - by apply attribute_effect in H.
  - simplify_eq. apply flag_effect.
Qed.

(** What holds at first and is kept by every effect holds when all lines are
    read. *)
Lemma lines_invariant (I : Parser.t -> Prop) ls p p' :
  (forall p p', effect p p' -> I p -> I p') -> I p -> Parser.parse_lines ls p = Ok p' -> I p'.
Proof.
  intros Hstep. revert p. induction ls as [|l ls IH]; intros p Hp H; [by injection H as <-|].
  change (l :: ls) with ([l] ++ ls) in H. unfold Parser.parse_lines in *. rewrite foldl_app in H. cbn in H.
  destruct (Parser.parse_line l p) as [q|e] eqn:E.
  - apply line_effect in E. apply (IH q); [by apply (Hstep p)|exact H].
  - exfalso. clear -H. induction ls as [|l' ls IH]; [done|]. by apply IH.
Qed.

(** ** Scopes *)

(** What a line after the first [m=] does not assign to *)
Definition session_part (p : Parser.t) :=
  (Parser.connection p, Parser.bandwidth p, Parser.direction p, Parser.extmap p, Parser.extmap_allow_mixed p,
   Parser.ice_ufrag p, Parser.ice_pwd p, Parser.setup p, Parser.fingerprint p, Parser.attributes p).

Lemma update_last_app {A} (f : A -> A) l ms : ms <> [] ->
  Parser.update_last f (l ++ ms) = l ++ Parser.update_last f ms /\ Parser.update_last f ms <> [].
Proof.
  intros Hne. destruct (exists_last Hne) as (l' & x & ->). rewrite app_assoc, !update_last_snoc, <-app_assoc.
  split; [done|by destruct l'].
Qed.

(** [s] is the session, and [l] are media descriptions that are done. *)
Definition scoped (s : _) (l : list MD) (p : Parser.t) : Prop :=
  session_part p = s /\ exists ms, ms <> [] /\ Parser.media_descriptions p = l ++ ms.

Lemma scoped_last_mut s l f g p : scoped s l p -> scoped s l (Parser.last_mut f g p).
Proof.
  intros (Hs & ms & Hne & Hm). unfold Parser.last_mut. destruct (Parser.media_descriptions p) as [|m ms'] eqn:E.
  - by destruct l, ms.
  - split; [done|]. destruct (update_last_app f l ms Hne) as [Hu Hn]. exists (Parser.update_last f ms).
    split; [done|]. cbn [Parser.media_descriptions]. by rewrite Hm.
Qed.

Lemma scoped_effect s l p p' : effect p p' -> scoped s l p -> scoped s l p'.
Proof.
  intros He Hp. destruct He; try by apply scoped_last_mut.
  all: destruct Hp as (Hs & ms & Hne & Hm); split; [exact Hs|]; cbn [Parser.media_descriptions].
  all: try by exists ms.
  exists (ms ++ [fresh_media p media]). split; [by destruct ms|]. by rewrite Hm, <-app_assoc.
Qed.

(** Once there is a media description, the lines that follow are about the
    last one: the fields of the session that media descriptions have too keep
    their values, and so do all media descriptions but the last. *)
Theorem description_scope ls p p' : Parser.media_descriptions p <> [] -> Parser.parse_lines ls p = Ok p' ->
  session_part p' = session_part p /\
  exists ms, ms <> [] /\ Parser.media_descriptions p' = removelast (Parser.media_descriptions p) ++ ms.
Proof.
  intros Hp H. apply (lines_invariant (scoped (session_part p) (removelast (Parser.media_descriptions p)))) in H; [done| |].
  - intros q q'. apply scoped_effect.
  - split; [done|]. destruct (exists_last Hp) as (l & m & E). exists [m]. split; [done|]. by rewrite E, removelast_last.
Qed.
End effects.

(** ** Numbers within their types

    [yields p P]: what [p] gives has [P], and what it leaves of the input is
    no longer than the input. *)
Definition yields {A} (p : parser A) (P : A -> Prop) : Prop :=
  forall i r x, p i = Some (r, x) -> P x /\ length r <= length i.

Definition true_of {A} (x : A) : Prop := True.
Definition opt_of {A} (P : A -> Prop) (o : option A) : Prop := match o with Some x => P x | None => True end.

Section yields.
Context {NC : Combinators} {NL : CombinatorLaws NC} {M : MoreCombinators} {ML : MoreLaws NC M}.

Tactic Notation "bind" hyp(H) ident(E) := let r := fresh "r" in let x := fresh "x" in
  match type of H with (?o ≫= _) = Some _ => destruct o as [[r x]|] eqn:E; [cbn [mbind option_bind] in H|done] end.

Lemma yields_impl {A} (p : parser A) (P Q : A -> Prop) : yields p P -> (forall x, P x -> Q x) -> yields p Q.
Proof. intros Hp H i r x E. destruct (Hp i r x E). auto. Qed.

Lemma yields_map {A B} (p : parser A) (f : A -> B) (P : A -> Prop) (Q : B -> Prop) :
  yields p P -> (forall x, P x -> Q (f x)) -> yields (map p f) Q.
Proof using NL. intros Hp Hf i r x H. rewrite map_law in H. bind H Heqo. simplify_eq. apply Hp in Heqo as [? ?]. auto. Qed.

Lemma yields_map_res {A B} (p : parser A) (f : A -> option B) (P : A -> Prop) (Q : B -> Prop) :
  yields p P -> (forall x y, P x -> f x = Some y -> Q y) -> yields (map_res p f) Q.
Proof using NL.
  intros Hp Hf i r x H. rewrite map_res_law in H. bind H Heqo. destruct (f x0) eqn:E; [|done]. simplify_eq/=.
  apply Hp in Heqo as [? ?]. eauto.
Qed.

Lemma yields_alt {A} (p q : parser A) P : yields p P -> yields q P -> yields (alt p q) P.
Proof using NL. intros Hp Hq i r x H. rewrite alt_law in H. destruct (p i) as [[]|] eqn:E; [simplify_eq|]; eauto. Qed.

Lemma yields_opt {A} (p : parser A) P : yields p P -> yields (opt p) (opt_of P).
Proof using NL.
  intros Hp i r x H. rewrite opt_law in H. destruct (p i) as [[]|] eqn:E; simplify_eq; [|done]. by apply Hp in E.
Qed.

Lemma yields_tuple {A B} (p : parser A) (q : parser B) P Q :
  yields p P -> yields q Q -> yields (tuple p q) (fun x => P x.1 /\ Q x.2).
Proof using NL.
  intros Hp Hq i r x H. rewrite tuple_law in H. bind H Heqo. bind H Heqo0. simplify_eq.
  apply Hp in Heqo as [? ?]. apply Hq in Heqo0 as [? ?]. split; [done|lia].
Qed.

Lemma yields_preceded {A B} (p : parser A) (q : parser B) P Q : yields p P -> yields q Q -> yields (preceded p q) Q.
Proof using NL.
  intros Hp Hq i r x H. rewrite preceded_law in H. bind H Heqo.
  apply Hp in Heqo as [? ?]. apply Hq in H as [? ?]. split; [done|lia].
Qed.

Lemma yields_terminated {A B} (p : parser A) (q : parser B) P Q : yields p P -> yields q Q -> yields (terminated p q) P.
Proof using NL.
  intros Hp Hq i r x H. rewrite terminated_law in H. bind H Heqo. bind H Heqo0. simplify_eq.
  apply Hp in Heqo as [? ?]. apply Hq in Heqo0 as [? ?]. split; [done|lia].
Qed.

Lemma yields_separated_pair {A B C} (p : parser A) (q : parser B) (s : parser C) P Q R :
  yields p P -> yields q Q -> yields s R -> yields (separated_pair p q s) (fun x => P x.1 /\ R x.2).
Proof using NL.
  intros Hp Hq Hs i r x H. rewrite separated_pair_law in H. bind H Heqo. bind H Heqo0. bind H Heqo1. simplify_eq.
  apply Hp in Heqo as [? ?]. apply Hq in Heqo0 as [? ?]. apply Hs in Heqo1 as [? ?]. split; [done|lia].
Qed.

Lemma yields_peek_not {A} (p : parser A) : yields (peek (not_ p)) true_of.
Proof using ML. intros i r x H. rewrite peek_law, not_law in H. by destruct (p i); simplify_eq/=. Qed.

Lemma span_chars_length p fuel i : length (span_chars p fuel i).2 <= length i.
Proof. rewrite <-(span_chars_parts p fuel i) at 2. rewrite length_app. lia. Qed.

Lemma span_length f i : length (span f i).2 <= length i.
Proof. induction i as [|b i IH]; [done|]. cbn. destruct (f b); [|done]. destruct (span f i). cbn in *. lia. Qed.

Lemma yields_take_while p : yields (take_while p) true_of.
Proof using NL.
  intros i r x H. rewrite take_while_law in H. unfold chars_while in H. pose proof (span_chars_length p (length i) i).
  destruct (span_chars p _ i). by simplify_eq.
Qed.

Lemma yields_take_while1 p : yields (take_while1 p) true_of.
Proof using NL. intros i r x H. apply take_while1_consumes in H. split; [done|lia]. Qed.

Lemma yields_tag t : yields (tag t) true_of.
Proof using NL.
  intros i r x H. rewrite tag_law in H. destruct (starts_with t i); [|done]. simplify_eq. split; [done|].
  rewrite length_drop. lia.
Qed.

Lemma yields_char b : yields (char_ b) true_of.
Proof using NL. intros i r x H. apply char_consumes in H. split; [done|lia]. Qed.

Lemma digit1_consumes : consumes digit1.
Proof using NL.
  intros i r x H. rewrite digit1_law in H. destruct i as [|b i]; [done|]. cbn [span] in H.
  destruct (dec_digit b); [|done]. pose proof (span_length dec_digit i). destruct (span dec_digit i) as [a r'].
  rewrite decide_False in H by done. simplify_eq. cbn in *. lia.
Qed.

Lemma dec_consumes w : consumes (dec w).
Proof using NL.
  intros i r x H. unfold dec in H. rewrite map_res_law in H. bind H Heqo. apply digit1_consumes in Heqo.
  destruct (parse_uint w x0); [|done]. by simplify_eq/=.
Qed.

Lemma yields_dec w : (0 <= w)%Z -> yields (dec w) (uint w).
Proof using NL.
  intros Hw. eapply yields_map_res with (P := true_of).
  - intros i r x H. apply digit1_consumes in H. split; [done|lia].
  - intros x y _. by apply parse_uint_range.
Qed.

(** Repetition *)
Lemma yields_many0 {A} (p : parser A) P : consumes p -> yields p P -> yields (many0 p) (Forall P).
Proof using NL.
  intros Hc Hp i. remember (length i) as n eqn:En. revert i En. induction n as [n IH] using lt_wf_ind; intros i -> r x H.
  destruct (p i) as [[r' y]|] eqn:E; [|rewrite many0_nil in H by done; by simplify_eq].
  pose proof (Hc _ _ _ E) as Hlt. rewrite (many0_cons _ _ _ _ E Hlt) in H. bind H Heqo. simplify_eq.
  apply (IH (length r') Hlt r' eq_refl) in Heqo as [? ?]. apply Hp in E as [? ?]. split; [by constructor|lia].
Qed.

Lemma consumes_preceded {A B} (p : parser A) (q : parser B) P : consumes p -> yields q P -> consumes (preceded p q).
Proof using NL.
  intros Hp Hq i r x H. rewrite preceded_law in H. bind H Heqo. apply Hp in Heqo. apply Hq in H as [_ H]. lia.
Qed.

Lemma yields_separated_list1 {A B} (sep : parser A) (p : parser B) P Q :
  consumes sep -> yields sep Q -> yields p P -> yields (separated_list1 sep p) (Forall P).
Proof using NL ML.
  intros Hc Hs Hp i r x H. rewrite separated_list1_law in H by done. bind H Heqo. bind H Heqo0. simplify_eq.
  apply Hp in Heqo as [? ?]. apply yields_many0 with (P := P) in Heqo0 as [? ?].
  - split; [by constructor|lia].
  - by eapply consumes_preceded.
  - by eapply yields_preceded.
Qed.

Lemma yields_separated_list0 {A B} (sep : parser A) (p : parser B) P Q :
  consumes sep -> yields sep Q -> yields p P -> yields (separated_list0 sep p) (Forall P).
Proof using NL ML.
  intros Hc Hs Hp i r x H. rewrite separated_list0_law in H by done.
  destruct (p i) as [[r' y]|] eqn:E; [|by simplify_eq]. bind H Heqo. simplify_eq.
  apply Hp in E as [? ?]. apply yields_many0 with (P := P) in Heqo as [? ?].
  - split; [by constructor|lia].
  - by eapply consumes_preceded.
  - by eapply yields_preceded.
Qed.

(** Behind white space *)
Lemma yields_ws1 {A} (p : parser A) P : yields p P -> yields (ws1 p) P.
Proof using NL.
  intros Hp i r x H. rewrite ws1_skip in H. apply Hp in H as [? ?]. pose proof (skip_ws_length i). split; [done|lia].
Qed.

Lemma ws_ws1 {A B} (p : parser A) (q : parser B) i : ws p q i = tuple (ws1 p) (ws1 q) i.
Proof using NL.
  rewrite ws_skip, tuple_law, ws1_skip. destruct (p (skip_ws i)) as [[r x]|]; [|done]. cbn. by rewrite ws1_skip.
Qed.

Lemma yields_ws {A B} (p : parser A) (q : parser B) P Q : yields p P -> yields q Q -> yields (ws p q) (fun x => P x.1 /\ Q x.2).
Proof using NL. intros Hp Hq i r x H. rewrite ws_ws1 in H. revert H. by apply yields_tuple; apply yields_ws1. Qed.

Lemma yields_ws4 {A B C D} (p : parser A) (q : parser B) (t : parser C) (u : parser D) P Q R S :
  yields p P -> yields q Q -> yields t R -> yields u S ->
  yields (ws4 p q t u) (fun x => P x.1.1.1 /\ Q x.1.1.2 /\ R x.1.2 /\ S x.2).
Proof using NL.
  intros Hp Hq Ht Hu i r x H. rewrite ws4_skip in H. bind H Heqo. bind H Heqo0. bind H Heqo1. bind H Heqo2. simplify_eq.
  apply Hp in Heqo as [? ?]. apply Hq in Heqo0 as [? ?]. apply Ht in Heqo1 as [? ?]. apply Hu in Heqo2 as [? ?].
  pose proof (skip_ws_length i). pose proof (skip_ws_length r0). pose proof (skip_ws_length r1). pose proof (skip_ws_length r2).
  split; [done|lia].
Qed.

Lemma yields_ws5 {A B C D E} (p : parser A) (q : parser B) (t : parser C) (u : parser D) (v : parser E) P Q R S T :
  yields p P -> yields q Q -> yields t R -> yields u S -> yields v T ->
  yields (ws5 p q t u v) (fun x => (P x.1.1.1.1 /\ Q x.1.1.1.2 /\ R x.1.1.2 /\ S x.1.2) /\ T x.2).
Proof using NL.
  intros Hp Hq Ht Hu Hv i r x H. unfold ws5 in H. bind H Heqo. destruct x0 as [[[x0 y] z] w]. bind H Heqo0. simplify_eq.
  apply (yields_ws4 p q t u P Q R S) in Heqo as [? ?]; [|done..]. apply (yields_ws1 v T) in Heqo0 as [? ?]; [|done].
  split; [done|lia].
Qed.

Lemma yields_ws6 {A B C D E F} (p : parser A) (q : parser B) (t : parser C) (u : parser D) (v : parser E) (o : parser F) P Q R S T U :
  yields p P -> yields q Q -> yields t R -> yields u S -> yields v T -> yields o U ->
  yields (ws6 p q t u v o) (fun x => ((P x.1.1.1.1.1 /\ Q x.1.1.1.1.2 /\ R x.1.1.1.2 /\ S x.1.1.2) /\ T x.1.2) /\ U x.2).
Proof using NL.
  intros Hp Hq Ht Hu Hv Ho i r x H. unfold ws6 in H. bind H Heqo. destruct x0 as [[[[x0 y] z] w] a]. bind H Heqo0. simplify_eq.
  apply (yields_ws5 p q t u v P Q R S T) in Heqo as [? ?]; [|done..]. apply (yields_ws1 o U) in Heqo0 as [? ?]; [|done].
  split; [done|lia].
Qed.
End yields.

(** The numbers of each field *)
Definition address_typed (a : TaggedAddress.t) : Prop :=
  match a with TaggedAddress.IP4 ip => uint 32 ip | TaggedAddress.IP6 ip => uint 128 ip | _ => True end.
Definition untagged_typed (a : UntaggedAddress.t) : Prop :=
  match a with
  | UntaggedAddress.IpAddress (IpV4 ip) => uint 32 ip
  | UntaggedAddress.IpAddress (IpV6 ip) => uint 128 ip
  | UntaggedAddress.Fqdn _ => True
  end.
Definition connection_typed (c : Connection.t) : Prop :=
  address_typed (Connection.address c) /\ opt_of (uint 32) (Connection.ttl c) /\ opt_of (uint 32) (Connection.num c).
Definition media_typed (m : Media.t) : Prop :=
  uint 16 (Media.port m) /\ opt_of (uint 32) (Media.ports_num m) /\ Forall (uint 8) (Media.fmts m).
Definition candidate_typed (c : IceCandidate.t) : Prop :=
  uint 32 (IceCandidate.component c) /\ uint 64 (IceCandidate.priority c) /\ untagged_typed (IceCandidate.address c) /\
  uint 16 (IceCandidate.port c) /\ opt_of untagged_typed (IceCandidate.rel_addr c) /\ opt_of (uint 16) (IceCandidate.rel_port c).
Definition key_typed (k : SrtpKeyingMaterial.t) : Prop :=
  opt_of (uint 32) (SrtpKeyingMaterial.lifetime k) /\ opt_of (fun m => uint 32 m.1 /\ uint 32 m.2) (SrtpKeyingMaterial.mki k).
Definition param_typed (p : SrtpSessionParam.t) : Prop :=
  match p with
  | SrtpSessionParam.Kdr n | SrtpSessionParam.WindowSizeHint n => uint 32 n
  | SrtpSessionParam.FecKey ks => Forall key_typed ks
  | _ => True
  end.
Definition crypto_typed (c : SrtpCrypto.t) : Prop :=
  uint 32 (SrtpCrypto.tag c) /\ Forall key_typed (SrtpCrypto.keys c) /\ Forall param_typed (SrtpCrypto.params c).
Definition source_typed (a : SourceAttribute.t) : Prop :=
  match a with SourceAttribute.PreviousSsrc n => uint 32 n | SourceAttribute.Fmtp pt _ => uint 8 pt | _ => True end.

Record media_description_typed (m : MD) : Prop := {
  md_media : media_typed (MediaDescription.media m);
  md_connection : opt_of connection_typed (MediaDescription.connection m);
  md_bandwidth : Forall (fun b => uint 32 (Bandwidth.bandwidth b)) (MediaDescription.bandwidth m);
  md_rtcp : opt_of (fun r => uint 16 (Rtcp.port r) /\ opt_of address_typed (Rtcp.address r)) (MediaDescription.rtcp m);
  md_rtpmap : Forall (fun r => uint 8 (RtpMap.payload r) /\ uint 32 (RtpMap.clock_rate r)) (MediaDescription.rtpmap m);
  md_fmtp : Forall (fun f => uint 8 (Fmtp.format f)) (MediaDescription.fmtp m);
  md_candidates : Forall candidate_typed (MediaDescription.ice_candidates m);
  md_crypto : Forall crypto_typed (MediaDescription.crypto m);
  md_extmap : Forall (fun e => uint 8 (ExtMap.id e)) (MediaDescription.extmap m);
  md_ssrc : Forall (fun s => uint 32 (Ssrc.ssrc s) /\ source_typed (Ssrc.attribute s)) (MediaDescription.ssrc m);
  md_fingerprint : Forall (fun f => Forall (uint 8) (Fingerprint.fingerprint f)) (MediaDescription.fingerprint m) }.

Record description_typed (d : SessionDescription.t) : Prop := {
  sd_origin : address_typed (Origin.address (SessionDescription.origin d));
  sd_connection : opt_of connection_typed (SessionDescription.connection d);
  sd_bandwidth : Forall (fun b => uint 32 (Bandwidth.bandwidth b)) (SessionDescription.bandwidth d);
  sd_time : uint 64 (Time.start (SessionDescription.time d)) /\ uint 64 (Time.stop (SessionDescription.time d));
  sd_extmap : Forall (fun e => uint 8 (ExtMap.id e)) (SessionDescription.extmap d);
  sd_fingerprint : Forall (fun f => Forall (uint 8) (Fingerprint.fingerprint f)) (SessionDescription.fingerprint d);
  sd_media : Forall media_description_typed (SessionDescription.media_descriptions d) }.

(** [Ipv6Addr::from_str] gives a 128-bit number. *)
Class Ip6Range (I : Ip6Text) : Prop := { ip6_range s ip : ip6_from_str s = Some ip -> uint 128 ip }.

Lemma ip4_range s ip : ip4_from_str s = Some ip -> uint 32 ip.
Proof.
  unfold ip4_from_str. destruct (split_byte x2e s) as [|a [|b [|c [|d [|]]]]]; try done.
  assert (forall s z, ip4_octet s = Some z -> uint 8 z) as Ho.
  { intros t z H. unfold ip4_octet in H. destruct (_ && _)%bool; [|done]. by apply parse_uint_range in H. }
  destruct (ip4_octet a) as [za|] eqn:Ha; [|done]. destruct (ip4_octet b) as [zb|] eqn:Hb; [|done].
  destruct (ip4_octet c) as [zc|] eqn:Hc; [|done]. destruct (ip4_octet d) as [zd|] eqn:Hd; [|done].
  apply Ho in Ha, Hb, Hc, Hd. unfold uint in *. intros [= <-]. lia.
Qed.

Section typed.
Context {NC : Combinators} {NL : CombinatorLaws NC} {M : MoreCombinators} {ML : MoreLaws NC M}.
Context {I6 : Ip6Text} {IR : Ip6Range I6} {TNC : Nom} {TNL : NomLaws TNC}.

Lemma yields_parsed {A} (p : parser A) P x : yields p P -> parsed p x -> P x.
Proof. intros Hp (i & r & H). by destruct (Hp _ _ _ H). Qed.

Lemma yields_slash_num : yields slash_num (uint 32).
Proof using NL. eapply yields_preceded; [apply yields_char|by apply yields_dec]. Qed.

Lemma address_yields : yields TaggedAddress.parse address_typed.
Proof using NL IR.
  apply yields_alt; (eapply yields_preceded; [apply yields_tag|eapply yields_map; [apply yields_take_while|]]); intros s _; cbn.
  - destruct (ip4_from_str s) eqn:E; [by apply ip4_range in E|done].
  - destruct (ip6_from_str s) eqn:E; [by apply ip6_range in E|done].
Qed.

Lemma untagged_yields : yields UntaggedAddress.parse untagged_typed.
Proof using NL IR.
  eapply yields_map; [apply yields_take_while|]. intros s _. unfold ip_from_str.
  destruct (ip4_from_str s) eqn:E; [by apply ip4_range in E|].
  destruct (ip6_from_str s) eqn:E'; [by apply ip6_range in E'|done].
Qed.

Lemma connection_yields : yields Connection.parse connection_typed.
Proof using NL IR.
  intros i r x H. unfold Connection.parse in H. destruct (TaggedAddress.parse i) as [[i' a]|] eqn:E; [|done].
  apply address_yields in E as [Ha Hl]. cbn [mbind option_bind] in H.
  assert (yields (opt (tuple slash_num (opt slash_num))) (opt_of (fun x => uint 32 x.1 /\ opt_of (uint 32) x.2))) as H2
    by (apply yields_opt, yields_tuple; [|apply yields_opt]; apply yields_slash_num).
  assert (yields (opt slash_num) (opt_of (uint 32))) as H1 by apply yields_opt, yields_slash_num.
  destruct a as [ip|n|ip|n].
  1, 2: destruct (opt (tuple slash_num (opt slash_num)) i') as [[i'' o]|] eqn:E2; [|done]; apply H2 in E2 as [Ho Hl'];
    cbn in H; destruct o as [[ttl num]|]; simplify_eq; (split; [|lia]); (split; [exact Ha|by first [exact Ho|split]]).
  all: destruct (opt slash_num i') as [[i'' o]|] eqn:E1; [|done]; apply H1 in E1 as [Ho Hl']; cbn in H; simplify_eq;
    (split; [|lia]); (split; [exact Ha|split; [done|exact Ho]]).
Qed.

Lemma origin_yields : yields Origin.parse (fun o => address_typed (Origin.address o)).
Proof using NL IR.
  eapply yields_map; [apply yields_ws4; [apply yields_take_while..|apply address_yields]|].
  intros [[[u i] v] a] (_ & _ & _ & Ha). exact Ha.
Qed.

Lemma time_yields : yields Time.parse (fun m => uint 64 (Time.start m) /\ uint 64 (Time.stop m)).
Proof using NL. eapply yields_map; [by apply yields_ws; apply yields_dec|]. by intros [a b]. Qed.

Lemma bandwidth_yields : yields Bandwidth.parse (fun b => uint 32 (Bandwidth.bandwidth b)).
Proof using NL.
  eapply yields_map; [apply yields_tuple; [apply yields_take_while|apply yields_tuple; [apply yields_tag|by apply yields_dec]]|].
  by intros [a [b c]] (_ & _ & ?).
Qed.

Lemma const_yields {A B} (p : parser A) (x : B) : yields p true_of -> yields (map p (fun _ => x)) true_of.
Proof using NL. intros Hp. by eapply yields_map. Qed.

Lemma media_yields : yields Media.parse media_typed.
Proof using NL.
  eapply yields_map; [apply yields_ws5;
    [|by apply yields_dec|apply yields_opt, yields_slash_num| |apply yields_many0; [|by apply yields_ws1, yields_dec]]|].
  - unfold MediaType.parse. repeat apply yields_alt; apply const_yields, yields_tag.
  - unfold TransportProtocol.parse. repeat apply yields_alt; try apply const_yields, yields_tag.
    by eapply yields_map; [apply yields_take_while1|].
  - intros i r x H. rewrite ws1_skip in H. apply dec_consumes in H. pose proof (skip_ws_length i). lia.
  - by intros [[[[ty port] num] proto] fmts] [(_ & ? & ? & _) ?].
Qed.

Lemma word_pairs_consume : consumes (ws (take_while1 not_whitespace) (take_while1 not_whitespace)).
Proof using NL.
  intros i r x H. rewrite ws_skip in H. destruct (take_while1 not_whitespace (skip_ws i)) as [[r1 a]|] eqn:E1; [|done].
  cbn [mbind option_bind] in H. destruct (take_while1 not_whitespace (skip_ws r1)) as [[r2 b]|] eqn:E2; [|done].
  simplify_eq/=. apply take_while1_consumes in E1, E2.
  pose proof (skip_ws_length i). pose proof (skip_ws_length r1). lia.
Qed.

Lemma take_while_m_n_yields m n p : m <= n -> ascii_class p -> yields (take_while_m_n m n p) true_of.
Proof using NL ML.
  intros Hm Hp i r x H. rewrite take_while_m_n_law in H by done. cbn zeta in H. case_decide; [done|]. simplify_eq.
  split; [done|]. rewrite length_drop. lia.
Qed.

Lemma ice_ascii : ascii_class ice_char.
Proof. intros [|b [|]] H; try done. by exists b. Qed.

(** The state of the loop over the extensions of a candidate *)
Definition extensions_typed (acc : option (option UntaggedAddress.t * option Z * list (str * str))) : Prop :=
  opt_of (fun x => opt_of untagged_typed x.1.1 /\ opt_of (uint 16) x.1.2) acc.

Lemma extension_typed acc p : extensions_typed acc -> extensions_typed (IceCandidate.extension acc p).
Proof using NL IR.
  intros H. destruct acc as [[[a o] u]|]; [|done]. destruct p as [k v]. destruct H as [Ha Ho]. cbn in Ha, Ho.
  unfold IceCandidate.extension. cbn [mbind option_bind]. case_decide; [|case_decide].
  - destruct (UntaggedAddress.parse v) as [[r x]|] eqn:E; [|done]. apply untagged_yields in E as [E _]. by split.
  - destruct (parse_uint 16 v) as [n|] eqn:E; [|done]. apply parse_uint_range in E; [|done]. by split.
  - by split.
Qed.

Lemma candidate_yields : yields IceCandidate.parse candidate_typed.
Proof using NL ML IR.
  eapply yields_map_res; [apply yields_tuple; [apply take_while_m_n_yields; [lia|apply ice_ascii]|apply yields_tuple;
    [apply yields_ws6; [by apply yields_dec|apply yields_take_while|by apply yields_dec|apply untagged_yields
      |by apply yields_dec|eapply yields_preceded; [apply yields_tag|apply yields_ws1, yields_take_while1]]
    |apply yields_many0; [apply word_pairs_consume|apply yields_ws; apply yields_take_while1]]]|].
  intros [f [[[[[[c t] p] a] o] ty] l]] y (_ & [[(Hc & _ & Hp & Ha) Hport] _] & _) H. cbn in Hc, Hp, Ha, Hport.
  assert (extensions_typed (foldl IceCandidate.extension (Some (None, None, [])) l)) as Hl.
  { apply foldl_preserves; [done|]. intros acc q _. apply extension_typed. }
  destruct (foldl _ _ l) as [[[ra rp] u]|]; [|done]. cbn in H. simplify_eq. by destruct Hl.
Qed.

Lemma direction_tag_yields t d : yields (map (tag t) (fun _ => d)) (fun _ : Direction.t => True).
Proof using NL. eapply yields_map; [apply yields_tag|done]. Qed.

Lemma extmap_yields : yields ExtMap.parse (fun e => uint 8 (ExtMap.id e)).
Proof using NL.
  eapply yields_map; [apply yields_tuple; [by apply yields_dec|apply yields_tuple;
    [apply yields_opt; repeat apply yields_alt; apply direction_tag_yields
    |eapply yields_preceded; apply yields_take_while]]|].
  by intros [i [d u]] [? _].
Qed.

Lemma fmtp_yields : yields Fmtp.parse (fun f => uint 8 (Fmtp.format f)).
Proof using NL.
  eapply yields_map; [apply (yields_ws _ _ (uint 8) true_of); [by apply yields_dec|]|by intros [? ?] [? _]].
  intros i r x [= <- <-]. split; [done|cbn; lia].
Qed.

Lemma rtcp_yields : yields Rtcp.parse (fun r => uint 16 (Rtcp.port r) /\ opt_of address_typed (Rtcp.address r)).
Proof using NL IR.
  eapply yields_map; [apply yields_tuple; [by apply yields_dec|apply yields_opt, yields_ws1, address_yields]|].
  by intros [p a].
Qed.

Lemma rtpmap_yields : yields RtpMap.parse (fun r => uint 8 (RtpMap.payload r) /\ uint 32 (RtpMap.clock_rate r)).
Proof using NL.
  eapply yields_map; [apply yields_tuple; [by apply yields_dec|apply yields_tuple;
    [apply yields_ws1; eapply yields_terminated; [apply yields_take_while|apply yields_tag]|apply yields_tuple;
    [by apply yields_dec|apply yields_opt; eapply (yields_preceded _ _ true_of true_of); [apply yields_tag|]]]]|].
  - intros i r x [= <- <-]. split; [done|cbn; lia].
  - by intros [a [b [c d]]] (? & _ & ? & _).
Qed.

Lemma span_uint w i r n : (0 <= w)%Z -> (let '(a, r) := span dec_digit i in n ← parse_uint w a; Some (r, n)) = Some (r, n) ->
  uint w n /\ length r <= length i.
Proof.
  intros Hw H. pose proof (span_length dec_digit i). destruct (span dec_digit i) as [a r'].
  destruct (parse_uint w a) eqn:E; [|done]. simplify_eq/=. split; [by eapply parse_uint_range|done].
Qed.

Lemma u8_yields : yields u8 (uint 8).
Proof using NL. intros i r x H. rewrite u8_law in H. by apply span_uint in H. Qed.
Lemma u32_yields : yields u32 (uint 32).
Proof using NL ML. intros i r x H. rewrite u32_law in H. by apply span_uint in H. Qed.

Lemma source_yields : yields parse_source source_typed.
Proof using NL ML.
  unfold parse_source. repeat apply yields_alt.
  - eapply yields_map; [eapply yields_preceded; [apply yields_tag|apply yields_take_while1]|done].
  - eapply yields_map; [eapply yields_preceded; [apply yields_tag|apply u32_yields]|done].
  - eapply yields_map; [apply yields_tuple; [eapply yields_preceded; [apply yields_tag|apply u8_yields]
      |eapply yields_preceded; apply yields_take_while1]|]. by intros [? ?] [? _].
  - eapply yields_map; [apply (yields_tuple _ _ true_of)|by intros [? ?]].
    + intros i r x H. rewrite is_not_law in H by (by repeat constructor).
      pose proof (span_length (fun b => negb (bool_decide (b ∈ lit ":"))) i). destruct (span _ i). by case_decide; simplify_eq.
    + apply yields_opt. eapply yields_preceded; [apply yields_char|apply yields_take_while1].
Qed.

Lemma ssrc_yields : yields Ssrc.parse (fun s => uint 32 (Ssrc.ssrc s) /\ source_typed (Ssrc.attribute s)).
Proof using NL ML.
  eapply yields_map; [eapply yields_separated_pair; [apply u32_yields|apply yields_take_while1|apply source_yields]|].
  by intros [i a].
Qed.

Lemma take_chars_length n i a r : take_chars n i = Some (a, r) -> length r <= length i.
Proof.
  revert i a. induction n as [|n IH]; intros i a H; [by simplify_eq/=|]. destruct i as [|b i]; [done|]. cbn [take_chars] in H.
  destruct (take_chars n _) as [[a' r']|] eqn:E; [|done]. simplify_eq/=. apply IH in E. rewrite length_drop in E. cbn in *. lia.
Qed.

Lemma from_hex_range w s n : (0 <= w)%Z -> from_hex w s = Some n -> uint w n.
Proof.
  intros Hw. unfold from_hex. destruct (match s with [] => _ | _ => _ end) as [|b l]; [done|]. rewrite decide_False by done.
  intros H. assert (opt_of (uint w) (foldl (add_hex w) (Some 0%Z) (b :: l))) as Hf; [|by rewrite H in Hf].
  apply foldl_preserves; [cbn; unfold uint; lia|]. intros [a|] c _ Ha; [|done]. unfold add_hex. cbn [mbind option_bind].
  destruct (hex_val c) as [d|]; [|done]. cbn [mbind option_bind]. by case_decide.
Qed.

Lemma hex_yields : yields (map_res (take_n 2) (from_hex 8)) (uint 8).
Proof using NL ML.
  eapply yields_map_res with (P := true_of).
  - intros i r x H. rewrite take_n_law in H. destruct (take_chars 2 i) as [[a r']|] eqn:E; [|done].
    apply take_chars_length in E. by simplify_eq/=.
  - intros x y _. by apply from_hex_range.
Qed.

Lemma fingerprint_parsed f : parsed Fingerprint.parse f -> Forall (uint 8) (Fingerprint.fingerprint f).
Proof using NL ML.
  intros (i & r & H). unfold Fingerprint.parse in H. rewrite map_law, separated_pair_law in H.
  destruct (Fingerprint.parse_algorithm i) as [[r1 a]|]; [|done]. cbn [mbind option_bind] in H.
  destruct (take_while1 is_whitespace r1) as [[r2 w]|]; [|done]. cbn [mbind option_bind] in H.
  destruct (separated_list1 _ _ r2) as [[r3 l]|] eqn:E; [|done]. simplify_eq/=.
  eapply (yields_separated_list1 _ _ (uint 8)) in E; [by destruct E|apply char_consumes|apply yields_char|apply hex_yields].
Qed.

Lemma lifetime_yields : yields SrtpKeyingMaterial.parse_lifetime (uint 32).
Proof using NL ML.
  eapply yields_map; [eapply yields_terminated; [eapply yields_preceded; [apply yields_char|apply yields_tuple;
    [apply yields_opt, yields_tag|by apply yields_dec]]|apply yields_peek_not]|].
  intros [[e|] n] [_ Hn]; [|done]. by apply wrap_uint.
Qed.

Lemma key_yields : yields SrtpKeyingMaterial.parse key_typed.
Proof using NL ML.
  eapply yields_map; [apply yields_tuple; [apply yields_take_while1|apply yields_tuple;
    [apply yields_opt, lifetime_yields|apply yields_opt; eapply yields_preceded; [apply yields_char|eapply yields_separated_pair;
    [by apply yields_dec|apply yields_char|by apply yields_dec]]]]|].
  by intros [k [l m]] (_ & ? & ?).
Qed.

Lemma keys_yield : yields SrtpKeyingMaterial.parse_srtp_key_params (Forall key_typed).
Proof using NL ML.
  eapply yields_separated_list1; [apply char_consumes|apply yields_char|].
  eapply yields_preceded; [apply yields_tag|apply key_yields].
Qed.

Lemma param_tag_yields t p : param_typed p -> yields (map (tag t) (fun _ => p)) param_typed.
Proof using NL. intros Hp. eapply yields_map; [apply yields_tag|done]. Qed.

Lemma param_yields : yields SrtpSessionParam.parse param_typed.
Proof using NL ML.
  unfold SrtpSessionParam.parse. repeat apply yields_alt; try by apply param_tag_yields.
  - eapply yields_map; [eapply yields_preceded; [apply yields_tag|by apply yields_dec]|done].
  - eapply yields_preceded; [apply yields_tag|]. by apply yields_alt; apply param_tag_yields.
  - eapply yields_map; [eapply yields_preceded; [apply yields_tag|apply keys_yield]|done].
  - eapply yields_map; [eapply yields_preceded; [apply yields_tag|by apply yields_dec]|done].
  - eapply yields_map; [eapply yields_preceded; [apply yields_peek_not|apply yields_take_while1]|done].
Qed.

Lemma suite_yields : yields SrtpSuite.parse true_of.
Proof using NL.
  unfold SrtpSuite.parse, SrtpSuite.suites. cbn [foldr]. repeat apply yields_alt; try apply const_yields, yields_tag.
  by eapply yields_map; [apply yields_take_while1|].
Qed.

Lemma crypto_yields : yields SrtpCrypto.parse crypto_typed.
Proof using NL ML.
  eapply yields_map; [apply yields_ws4; [by apply yields_dec|apply suite_yields|apply keys_yield
    |eapply yields_separated_list0; [apply take_while1_consumes|apply yields_take_while1|apply param_yields]]|].
  by intros [[[t u] ks] ps] (? & _ & ? & ?).
Qed.

(** The state of the parser is typed like the description it becomes. *)
Record parser_typed (p : Parser.t) : Prop := {
  p_origin : opt_of (fun o => address_typed (Origin.address o)) (Parser.origin p);
  p_connection : opt_of connection_typed (Parser.connection p);
  p_bandwidth : Forall (fun b => uint 32 (Bandwidth.bandwidth b)) (Parser.bandwidth p);
  p_time : opt_of (fun m => uint 64 (Time.start m) /\ uint 64 (Time.stop m)) (Parser.time p);
  p_extmap : Forall (fun e => uint 8 (ExtMap.id e)) (Parser.extmap p);
  p_fingerprint : Forall (fun f => Forall (uint 8) (Fingerprint.fingerprint f)) (Parser.fingerprint p);
  p_media : Forall media_description_typed (Parser.media_descriptions p) }.

Lemma update_last_typed (f : MD -> MD) ms : (forall m, media_description_typed m -> media_description_typed (f m)) ->
  Forall media_description_typed ms -> Forall media_description_typed (Parser.update_last f ms).
Proof.
  intros Hf Hms. induction Hms as [|m ms Hm Hms IH]; [constructor|]. cbn [Parser.update_last].
  destruct ms; [by constructor; [apply Hf|]|by constructor].
Qed.

Lemma last_mut_typed f g p : (forall m, media_description_typed m -> media_description_typed (f m)) ->
  (parser_typed p -> parser_typed (g p)) -> parser_typed p -> parser_typed (Parser.last_mut f g p).
Proof.
  intros Hf Hg Hp. unfold Parser.last_mut. destruct (Parser.media_descriptions p) eqn:E; [by apply Hg|].
  destruct Hp as [? ? ? ? ? ? Hm]. split; try done. rewrite <-E. cbn. by apply update_last_typed.
Qed.

Lemma Forall_snoc_2 {A} (P : A -> Prop) l x : Forall P l -> P x -> Forall P (l ++ [x]).
Proof. intros Hl Hx. apply Forall_app. by repeat constructor. Qed.

Lemma effect_typed p p' : effect p p' -> parser_typed p -> parser_typed p'.
Proof using NL ML IR.
  intros He Hp. destruct He.
  all: repeat match goal with
  | H : parsed Fingerprint.parse _ |- _ => apply fingerprint_parsed in H
  | H : parsed ?q _ |- _ => first
    [apply (yields_parsed _ _ _ origin_yields) in H|apply (yields_parsed _ _ _ time_yields) in H
    |apply (yields_parsed _ _ _ media_yields) in H|apply (yields_parsed _ _ _ connection_yields) in H
    |apply (yields_parsed _ _ _ bandwidth_yields) in H|apply (yields_parsed _ _ _ rtcp_yields) in H
    |apply (yields_parsed _ _ _ rtpmap_yields) in H|apply (yields_parsed _ _ _ fmtp_yields) in H
    |apply (yields_parsed _ _ _ candidate_yields) in H|apply (yields_parsed _ _ _ crypto_yields) in H
    |apply (yields_parsed _ _ _ extmap_yields) in H|apply (yields_parsed _ _ _ ssrc_yields) in H|clear H]
  end.
  all: try (apply last_mut_typed; [intros m []; split; cbn; try done; by apply Forall_snoc_2
                                  |intros []; split; cbn; try done; by apply Forall_snoc_2|done]).
  all: try by destruct Hp; split.
  destruct Hp. split; try done. cbn. apply Forall_snoc_2; [done|]. by split; cbn.
Qed.

(** The integers of the model keep the width of the code's: whatever the input,
    each number of a parsed description is within the integer type of its field. *)
Theorem description_in_range src d : Parser.parse_session src = Ok d -> description_typed d.
Proof using NL ML IR.
  unfold Parser.parse_session. destruct (Parser.parse_lines (Parser.lines src) Parser.default) as [p|] eqn:E; [|done].
  apply (lines_invariant parser_typed) in E; [|apply effect_typed|by split; cbn].
  destruct E as [Ho ? ? Ht ? ? ?]. cbn [mbind result_bind]. unfold Parser.finish.
  destruct (Parser.origin p) as [o|]; [|done]. destruct (Parser.name p) as [n|]; [|done].
  destruct (Parser.time p) as [m|]; [|done]. cbn. intros [= <-]. by split.
Qed.
End typed.

(** ** Samples *)
Section samples.
#[local] Existing Instances complete more_complete FullIp6.text FullIp6.laws ascii_nom ascii_nom_laws SdpSample.colons.

Definition sample_lines : list str := [lit "c=IN IP4 10.0.0.1"; lit "a=sendonly"; lit "m=video 0 RTP/AVP 96"; lit "a=mid:1"].
Definition sample_before : Parser.t := with_media Parser.default [SdpSample.media].
Definition sample_after : Parser.t :=
  match Parser.parse_lines sample_lines sample_before with Ok p => p | Err _ => Parser.default end.

Lemma description_scope_witness : Parser.parse_lines sample_lines sample_before = Ok sample_after /\
  session_part sample_after = session_part sample_before.
Proof.
  assert (Parser.parse_lines sample_lines sample_before = Ok sample_after) as H by (vm_compute; reflexivity).
  split; [exact H|]. by apply (description_scope sample_lines sample_before sample_after).
Defined.
End samples.
