(* ===== verification/MediaKeys.v ===== *)
(** * Packets and keys of media transports
    (media/session/src/options.rs, rtp/extensions.rs, transport/packet_kind.rs, sdes_srtp.rs, dtls_srtp.rs,
    media/rtp/src/rtp_packet.rs)

    What a transport is made of: the kinds of packets, the keys of SRTP that are
    exchanged in session descriptions, and DTLS. The packages [srtp],
    [openssl], [base64] and [rtp-types] are interfaces. *)
From S2P Require Import Prelude Wire Text StunHeader JitterBuffer RtpExtensions SdpFields SdpAttributes SdpCrypto SdpSession.
Local Open Scope Z_scope.

#[export] Instance MediaType_eq_dec : EqDecision MediaType.t.
Proof. solve_decision. Defined.
#[export] Instance TransportProtocol_eq_dec : EqDecision TransportProtocol.t.
Proof. solve_decision. Defined.
#[export] Instance SrtpSuite_eq_dec : EqDecision SrtpSuite.t.
Proof. solve_decision. Defined.

(** [io::Error], and the [Error] of the crate, which has nothing but it *)
Inductive Error := Io.

(** ** options.rs *)
Inductive TransportType := Rtp | SdesSrtp | DtlsSrtp.
Inductive RtcpMuxPolicy := Negotiate | Require.
Inductive BundlePolicy := MaxCompat | MaxBundle.
Module Options.
Record t := {
  offer_transport : TransportType;
  offer_ice : bool;
  offer_avpf : bool;
  rtcp_mux_policy : RtcpMuxPolicy;
  bundle_policy : BundlePolicy }.
Definition default : t := {|
  offer_transport := DtlsSrtp; offer_ice := false; offer_avpf := false;
  rtcp_mux_policy := Negotiate; bundle_policy := MaxCompat |}.
End Options.

#[export] Instance TransportType_eq_dec : EqDecision TransportType.
Proof. solve_decision. Defined.
(** The order of the variants *)
Definition type_num (ty : TransportType) : nat := match ty with Rtp => 0 | SdesSrtp => 1 | DtlsSrtp => 2 end.

Definition sdp_type (ty : TransportType) (avpf : bool) : TransportProtocol.t :=
  if avpf then
    match ty with
    | Rtp => TransportProtocol.RtpAvpf
    | SdesSrtp => TransportProtocol.RtpSavpf
    | DtlsSrtp => TransportProtocol.UdpTlsRtpSavpf
    end
  else
    match ty with
    | Rtp => TransportProtocol.RtpAvp
    | SdesSrtp => TransportProtocol.RtpSavp
    | DtlsSrtp => TransportProtocol.UdpTlsRtpSavp
    end.

(** ** packet_kind.rs *)
Module PacketKind.
Inductive t := Rtp | Rtcp | Stun | Dtls | Unknown.
Definition identify (bytes : list byte) : t :=
  match bytes with
  | b0 :: b1 :: _ =>
      if in_range 0 1 b0 then Stun
      else if in_range 20 63 b0 then Dtls
      else if in_range 128 191 b0 then
        let pt := Z.land (byte_val b1) 0x7F in
        if bool_decide (64 <= pt <= 95) then Rtcp else Rtp
      else Unknown
  | _ => Unknown
  end.
End PacketKind.

(** ** rtp_packet.rs

    What [rtp_types] reads of a packet, and writes; [calculate_size] and
    [write] fail on what is not a packet. *)
Record ParsedRtp := {
  parsed_pt : Z; parsed_sequence_number : Z; parsed_ssrc : Z; parsed_timestamp : Z;
  parsed_extension : option (Z * list byte); parsed_payload : list byte }.
Class RtpTypes := {
  rtp_types_parse : list byte -> option ParsedRtp;
  rtp_types_write : ParsedRtp -> option (list byte) }.

Definition packet_parse `{RtpTypes} (extension_ids : RtpExtensionIds) (bytes : list byte) : option RtpPacket.t :=
  parsed ← rtp_types_parse bytes;
  Some {|
    RtpPacket.pt := parsed_pt parsed; RtpPacket.sequence_number := parsed_sequence_number parsed;
    RtpPacket.ssrc := parsed_ssrc parsed; RtpPacket.timestamp := parsed_timestamp parsed;
    RtpPacket.extensions :=
      match parsed_extension parsed with
      | Some (profile, extension_data) => from_packet extension_ids profile extension_data
      | None => {| RtpPacket.mid := None |}
      end;
    RtpPacket.payload := parsed_payload parsed |}.
(** [to_vec] and [write_vec] *)
Definition packet_to_vec `{RtpTypes} `{W : WireOps} (extension_ids : RtpExtensionIds) (p : RtpPacket.t) : exec (list byte) :=
  extension ← write (RtpPacket.extensions p) extension_ids;
  unwrap (rtp_types_write {|
    parsed_pt := RtpPacket.pt p; parsed_sequence_number := RtpPacket.sequence_number p;
    parsed_ssrc := RtpPacket.ssrc p; parsed_timestamp := RtpPacket.timestamp p;
    parsed_extension := extension; parsed_payload := RtpPacket.payload p |}).

(** ** rtp/extensions.rs *)
Definition RTP_MID_HDREXT : str := lit "urn:ietf:params:rtp-hdrext:sdes:mid".

Definition offer_extension_ids : RtpExtensionIds := {| mid_id := Some 1 |}.
Definition from_extmaps (v : list ExtMap.t) : RtpExtensionIds :=
  {| mid_id := ExtMap.id <$> (snd <$> list_find (fun extmap => ExtMap.uri extmap = RTP_MID_HDREXT) v) |}.
Definition from_sdp (session_desc : SessionDescription.t) (media_desc : MediaDescription.t) : RtpExtensionIds :=
  let a := from_extmaps (SessionDescription.extmap session_desc) in
  let b := from_extmaps (MediaDescription.extmap media_desc) in
  {| mid_id := match mid_id b with Some id => Some id | None => mid_id a end |}.
Definition to_extmap (ids : RtpExtensionIds) : list ExtMap.t :=
  match mid_id ids with
  | Some mid_id => [{| ExtMap.id := mid_id; ExtMap.uri := RTP_MID_HDREXT; ExtMap.direction := Direction.SendRecv |}]
  | None => []
  end.

(** ** sdes_srtp.rs *)

(** [CryptoPolicy] and [Session] of [srtp]; [base64] *)
Inductive CryptoPolicy :=
| aes_cm_128_hmac_sha1_80 | aes_cm_128_hmac_sha1_32 | aes_cm_192_hmac_sha1_80 | aes_cm_192_hmac_sha1_32
| aes_cm_256_hmac_sha1_80 | aes_cm_256_hmac_sha1_32 | aes_gcm_128_16_auth | aes_gcm_256_16_auth.
Class Srtp := {
  SrtpSession : Type;
  key_len : CryptoPolicy -> nat;
  with_inbound_template : CryptoPolicy -> list byte -> option SrtpSession;
  with_outbound_template : CryptoPolicy -> list byte -> option SrtpSession;
  unprotect : list byte -> SrtpSession -> option (list byte * SrtpSession);
  unprotect_rtcp : list byte -> SrtpSession -> option (list byte * SrtpSession);
  protect : list byte -> SrtpSession -> option (list byte * SrtpSession);
  protect_rtcp : list byte -> SrtpSession -> option (list byte * SrtpSession) }.
Class Base64 := { base64_encode : list byte -> str; base64_decode : str -> option (list byte) }.
Class Base64Laws (B : Base64) : Prop := { base64_roundtrip k : base64_decode (base64_encode k) = Some k }.
(** The sessions are made of keys of the right length. *)
Class SrtpLaws (S : Srtp) : Prop := {
  inbound_of_key p k : length k = key_len p -> exists s, with_inbound_template p k = Some s;
  outbound_of_key p k : length k = key_len p -> exists s, with_outbound_template p k = Some s }.

Definition srtp_suite_to_policy (suite : SrtpSuite.t) : option CryptoPolicy :=
  match suite with
  | SrtpSuite.AES_CM_128_HMAC_SHA1_80 => Some aes_cm_128_hmac_sha1_80
  | SrtpSuite.AES_CM_128_HMAC_SHA1_32 => Some aes_cm_128_hmac_sha1_32
  | SrtpSuite.AES_192_CM_HMAC_SHA1_80 => Some aes_cm_192_hmac_sha1_80
  | SrtpSuite.AES_192_CM_HMAC_SHA1_32 => Some aes_cm_192_hmac_sha1_32
  | SrtpSuite.AES_256_CM_HMAC_SHA1_80 => Some aes_cm_256_hmac_sha1_80
  | SrtpSuite.AES_256_CM_HMAC_SHA1_32 => Some aes_cm_256_hmac_sha1_32
  | SrtpSuite.AEAD_AES_128_GCM => Some aes_gcm_128_16_auth
  | SrtpSuite.AEAD_AES_256_GCM => Some aes_gcm_256_16_auth
  | _ => None
  end.

(** The suites that are offered and accepted, the preferred one first *)
Definition preferred : list SrtpSuite.t :=
  [SrtpSuite.AES_256_CM_HMAC_SHA1_80; SrtpSuite.AES_256_CM_HMAC_SHA1_32;
   SrtpSuite.AES_CM_128_HMAC_SHA1_80; SrtpSuite.AES_CM_128_HMAC_SHA1_32].

Section sdes.
Context {S : Srtp} {B : Base64}.

Definition crypto_attribute (tag : Z) (suite : SrtpSuite.t) (key : list byte) : SrtpCrypto.t := {|
  SrtpCrypto.tag := tag; SrtpCrypto.suite := suite;
  SrtpCrypto.keys := [{| SrtpKeyingMaterial.key_and_salt := base64_encode key;
                         SrtpKeyingMaterial.lifetime := None; SrtpKeyingMaterial.mki := None |}];
  SrtpCrypto.params := [] |}.

(** [choice1], [choice2], ... *)
Definition find_suite (suite : SrtpSuite.t) (remote_crypto : list SrtpCrypto.t) : option SrtpCrypto.t :=
  snd <$> list_find (fun c => SrtpCrypto.suite c = suite /\ SrtpCrypto.keys c <> []) remote_crypto.
Definition choose_crypto (remote_crypto : list SrtpCrypto.t) : option SrtpCrypto.t :=
  foldr (fun suite o => match find_suite suite remote_crypto with Some c => Some c | None => o end) None preferred.

(** [negotiate_from_offer]; [rand n] are the [n] random bytes of the key. *)
Definition negotiate_from_offer (rand : nat -> list byte) (remote_crypto : list SrtpCrypto.t)
    : exec (result Error (list SrtpCrypto.t * SrtpSession * SrtpSession)) :=
  match choose_crypto remote_crypto with
  | None => Ret (Err Io)
  | Some crypto =>
      match SrtpCrypto.keys crypto with
      | [] => Panic
      | key :: _ =>
          match base64_decode (SrtpKeyingMaterial.key_and_salt key) with
          | None => Ret (Err Io)
          | Some recv_key =>
              suite ← unwrap (srtp_suite_to_policy (SrtpCrypto.suite crypto));
              let send_key := rand (key_len suite) in
              inbound ← unwrap (with_inbound_template suite recv_key);
              outbound ← unwrap (with_outbound_template suite send_key);
              Ret (Ok ([crypto_attribute (SrtpCrypto.tag crypto) (SrtpCrypto.suite crypto) send_key], inbound, outbound))
          end
      end
  end.

(** [SdesSrtpOffer]: the suites with their keys; [rand i n] are the [n] random
    bytes of key [i]. *)
Definition SdesSrtpOffer := list (SrtpSuite.t * list byte).
Definition sdes_offer_new (rand : nat -> nat -> list byte) : exec SdesSrtpOffer :=
  (fix go (i : nat) (suites : list SrtpSuite.t) : exec SdesSrtpOffer :=
     match suites with
     | [] => Ret []
     | suite :: suites =>
         policy ← unwrap (srtp_suite_to_policy suite);
         keys ← go (Datatypes.S i) suites;
         Ret ((suite, rand i (key_len policy)) :: keys)
     end) 0%nat preferred.
Definition extend_crypto (offer : SdesSrtpOffer) : list SrtpCrypto.t :=
  imap (fun tag '(suite, key) => crypto_attribute (Z.of_nat tag + 1) suite key) offer.

(** [receive_answer]: the loops; the [todo!] at the end panics. *)
Definition answer_matches (tag : Z) (suite : SrtpSuite.t) (crypto : SrtpCrypto.t) : Prop :=
  SrtpCrypto.tag crypto = tag /\ SrtpCrypto.suite crypto = suite.
#[export] Instance answer_matches_dec tag suite crypto : Decision (answer_matches tag suite crypto).
Proof. unfold answer_matches. apply _. Defined.
Fixpoint receive_answer_from (tag : Z) (offer : SdesSrtpOffer) (remote_crypto : list SrtpCrypto.t)
    : exec (SrtpCrypto.t * SrtpSession * SrtpSession) :=
  match offer with
  | [] => Panic
  | (suite, send_key) :: offer =>
      match list_find (answer_matches tag suite) remote_crypto with
      | None => receive_answer_from (tag + 1) offer remote_crypto
      | Some (_, crypto) =>
          match SrtpCrypto.keys crypto with
          | [] => Panic
          | key :: _ =>
              recv_key ← unwrap (base64_decode (SrtpKeyingMaterial.key_and_salt key));
              policy ← unwrap (srtp_suite_to_policy suite);
              inbound ← unwrap (with_inbound_template policy recv_key);
              outbound ← unwrap (with_outbound_template policy send_key);
              Ret (crypto_attribute tag suite send_key, inbound, outbound)
          end
      end
  end.
Definition receive_answer (offer : SdesSrtpOffer) (remote_crypto : list SrtpCrypto.t) :=
  receive_answer_from 1 offer remote_crypto.
End sdes.

(** ** dtls_srtp.rs *)
Inductive DtlsSetup := Accept | Connect.
Inductive DtlsState := Accepting | Connecting | Connected | Failed.
Inductive MessageDigest := sha1 | sha224 | sha256 | sha384 | sha512 | md5.

Definition to_openssl_digest (algo : FingerprintAlgorithm.t) : option MessageDigest :=
  match algo with
  | FingerprintAlgorithm.SHA1 => Some sha1
  | FingerprintAlgorithm.SHA224 => Some sha224
  | FingerprintAlgorithm.SHA256 => Some sha256
  | FingerprintAlgorithm.SHA384 => Some sha384
  | FingerprintAlgorithm.SHA512 => Some sha512
  | FingerprintAlgorithm.MD5 => Some md5
  | FingerprintAlgorithm.MD2 | FingerprintAlgorithm.Other _ => None
  end.

(** The queue that [openssl] reads from and writes to; of a cursor the bytes
    that have not been read *)
Module IoQueue.
Record t := { to_read : option (list byte); out : list (list byte) }.
Definition empty : t := {| to_read := None; out := [] |}.

(** [read]: none stands for [WouldBlock] *)
Definition read (n : nat) (q : t) : option (list byte) * t :=
  match to_read q with
  | None => (None, q)
  | Some data =>
      let rest := drop n data in
      (Some (take n data), {| to_read := if rest is [] then None else Some rest; out := out q |})
  end.
Definition write (buf : list byte) (q : t) : t := {| to_read := to_read q; out := out q ++ [buf] |}.
End IoQueue.

(** What [openssl] does in a call: it reads and writes, and ends. *)
Inductive io (A : Type) :=
| Done (x : A)
| DoRead (n : nat) (k : option (list byte) -> io A)
| DoWrite (buf : list byte) (k : io A).
Arguments Done {A} x.
Arguments DoRead {A} n k.
Arguments DoWrite {A} buf k.
Fixpoint run_io {A} (p : io A) (q : IoQueue.t) : A * IoQueue.t :=
  match p with
  | Done x => (x, q)
  | DoRead n k => let '(r, q) := IoQueue.read n q in run_io (k r) q
  | DoWrite buf k => run_io k (IoQueue.write buf q)
  end.

(** [Ssl] with a context, a certificate of the peer, and the result of
    [connect] and [accept]; [session_pair] makes the sessions of SRTP. *)
Inductive Handshake := HandshakeDone | WantRead | HandshakeError.
Class Ssl (S : Srtp) := {
  SslContext : Type;
  X509 : Type;
  SslStream : Type;
  certificate_digest : X509 -> MessageDigest -> option (list byte);
  context_certificate : SslContext -> X509;
  ssl_new : SslContext -> (option X509 -> bool) -> option SslStream;
  ssl_connect : SslStream -> io (Handshake * SslStream);
  ssl_accept : SslStream -> io (Handshake * SslStream);
  session_pair : SslStream -> option (SrtpSession * SrtpSession) }.

Section dtls.
Context {S : Srtp} {L : Ssl S}.

(** The callback that verifies the certificate *)
Definition verify (fingerprints : list (MessageDigest * list byte)) (certificate : option X509) : bool :=
  match certificate with
  | None => false
  | Some certificate =>
      existsb (fun '(digest, fingerprint) => bool_decide (certificate_digest certificate digest = Some fingerprint))
        fingerprints
  end.

Record DtlsSrtpSession := { stream : SslStream; queue : IoQueue.t; dtls_state : DtlsState }.

(** [handshake]: the sessions once it is done; an error leaves the state failed. *)
Definition handshake (s : DtlsSrtpSession)
    : exec (result Error (option (SrtpSession * SrtpSession)) * DtlsSrtpSession) :=
  let go (p : io (Handshake * SslStream)) :=
    let '((h, stream), queue) := run_io p (queue s) in
    match h with
    | WantRead => Ret (Ok None, {| stream := stream; queue := queue; dtls_state := dtls_state s |})
    | HandshakeError => Ret (Err Io, {| stream := stream; queue := queue; dtls_state := Failed |})
    | HandshakeDone =>
        pair ← unwrap (session_pair stream);
        Ret (Ok (Some pair), {| stream := stream; queue := queue; dtls_state := Connected |})
    end in
  match dtls_state s with
  | Connecting => go (ssl_connect (stream s))
  | Accepting => go (ssl_accept (stream s))
  | _ => if IoQueue.to_read (queue s) is None then Ret (Ok None, s) else Panic
  end.

(** [new] *)
Definition dtls_new (ssl_context : SslContext) (fingerprints : list (MessageDigest * list byte)) (setup : DtlsSetup)
    : exec (result Error DtlsSrtpSession) :=
  match ssl_new ssl_context (verify fingerprints) with
  | None => Ret (Err Io)
  | Some stream =>
      '(r, this) ← handshake {|
        stream := stream; queue := IoQueue.empty;
        dtls_state := match setup with Accept => Accepting | Connect => Connecting end |};
      match r with
      | Err e => Ret (Err e)
      | Ok None => Ret (Ok this)
      | Ok (Some _) => Panic
      end
  end.

Definition dtls_timeout (s : DtlsSrtpSession) : option Z :=
  match dtls_state s with Accepting | Connecting => Some (100 * 1000000) | Connected | Failed => None end.
Definition dtls_receive (data : list byte) (s : DtlsSrtpSession) : exec DtlsSrtpSession :=
  match IoQueue.to_read (queue s) with
  | Some _ => Panic
  | None => Ret {| stream := stream s; queue := {| IoQueue.to_read := Some data; IoQueue.out := IoQueue.out (queue s) |};
                   dtls_state := dtls_state s |}
  end.
(** [pop_to_send] *)
Definition pop_to_send (s : DtlsSrtpSession) : option (list byte) * DtlsSrtpSession :=
  match IoQueue.out (queue s) with
  | [] => (None, s)
  | data :: out =>
      (Some data, {| stream := stream s; queue := {| IoQueue.to_read := IoQueue.to_read (queue s); IoQueue.out := out |};
                     dtls_state := dtls_state s |})
  end.
(** [while let Some(data) = dtls.pop_to_send()]: all that is to be sent *)
Definition pop_all (s : DtlsSrtpSession) : list (list byte) * DtlsSrtpSession :=
  (IoQueue.out (queue s),
   {| stream := stream s; queue := {| IoQueue.to_read := IoQueue.to_read (queue s); IoQueue.out := [] |};
      dtls_state := dtls_state s |}).
End dtls.
