(* ===== verification/MediaKeysProps.v ===== *)
(** * Theorems about the keys of media transports *)
From S2P Require Import Prelude Wire Text StunHeader JitterBuffer RtpExtensions SdpFields SdpAttributes SdpCrypto SdpSession MediaKeys.
Local Open Scope Z_scope.

(** ** Packages that compute *)
Module Toy.
(** A session of SRTP is its policy and its key. *)
#[export] Instance srtp : Srtp := {|
  SrtpSession := CryptoPolicy * list byte;
  key_len p := match p with aes_cm_256_hmac_sha1_80 | aes_cm_256_hmac_sha1_32 => 46%nat | _ => 30%nat end;
  with_inbound_template p k := Some (p, k);
  with_outbound_template p k := Some (p, k);
  unprotect data s := Some (data, s);
  unprotect_rtcp data s := Some (data, s);
  protect data s := Some (data, s);
  protect_rtcp data s := Some (data, s) |}.
#[export] Instance srtp_laws : SrtpLaws srtp.
Proof. split; intros; cbn; eauto. Qed.
#[export] Instance base64 : Base64 := {| base64_encode k := k; base64_decode s := Some s |}.
#[export] Instance base64_laws : Base64Laws base64.
Proof. split. done. Qed.
Definition zeros (n : nat) : list byte := replicate n x00.
End Toy.

Section sdes.
Context {S : Srtp} {B : Base64} {SL : SrtpLaws S} {BL : Base64Laws B}.
Implicit Types (c : SrtpCrypto.t) (cs : list SrtpCrypto.t) (offer : SdesSrtpOffer).

(** ** The choice of the answer *)
Lemma find_suite_Some suite cs c :
  find_suite suite cs = Some c -> c ∈ cs /\ SrtpCrypto.suite c = suite /\ SrtpCrypto.keys c <> [].
Proof.
  unfold find_suite. intros ([i c'] & H & ->)%fmap_Some.
  apply list_find_Some in H as (Hi & [? ?] & _). split; [by eapply list_elem_of_lookup_2|done].
Qed.

Lemma find_suite_None suite cs c :
  find_suite suite cs = None -> c ∈ cs -> SrtpCrypto.keys c <> [] -> SrtpCrypto.suite c <> suite.
Proof.
  unfold find_suite. intros H%fmap_None Hin Hk Hs. apply list_find_None in H.
  rewrite Forall_forall in H. by apply (H c Hin).
Qed.

(** The suite that is preferred among those that are there *)
Lemma choose_crypto_Some cs c :
  c ∈ cs -> SrtpCrypto.keys c <> [] -> SrtpCrypto.suite c ∈ preferred ->
  exists c', choose_crypto cs = Some c' /\ c' ∈ cs.
Proof.
  unfold choose_crypto. induction preferred as [|suite suites IH]; [by intros _ _ ?%elem_of_nil|].
  intros Hin Hk Hs. cbn. destruct (find_suite suite cs) as [c'|] eqn:E.
  - apply find_suite_Some in E as (? & _). eauto.
  - apply elem_of_cons in Hs as [Hs|Hs]; [|by apply IH]. by destruct (find_suite_None _ _ _ E Hin Hk).
Qed.

(** ** The keys that are offered *)
Definition offered_key (rand : nat -> nat -> list byte) (i : nat) (suite : SrtpSuite.t) : SrtpSuite.t * list byte :=
  (suite, rand i match srtp_suite_to_policy suite with Some p => key_len p | None => 0%nat end).
Lemma sdes_offer_new_eq rand : sdes_offer_new rand = Ret (imap (offered_key rand) preferred).
Proof. done. Qed.

Lemma preferred_policy suite : suite ∈ preferred -> exists p, srtp_suite_to_policy suite = Some p.
Proof. unfold preferred. rewrite !elem_of_cons, elem_of_nil. intros [->|[->|[->|[->|[]]]]]; eexists; done. Qed.

Lemma preferred_NoDup : NoDup preferred.
Proof. by apply (bool_decide_unpack _). Qed.

Lemma elem_of_extend_crypto offer c :
  c ∈ extend_crypto offer <->
  exists i suite key, offer !! i = Some (suite, key) /\ c = crypto_attribute (Z.of_nat i + 1) suite key.
Proof.
  unfold extend_crypto, SdesSrtpOffer in *. rewrite list_elem_of_lookup. split.
  - intros (i & H). rewrite list_lookup_imap in H. apply fmap_Some in H as ([suite key] & H & ->). eauto.
  - intros (i & suite & key & H & ->). exists i. by rewrite list_lookup_imap, H.
Qed.

(** ** The answer *)
Lemma receive_answer_from_at tag offer i suite send_key recv_key policy inbound outbound :
  offer !! i = Some (suite, send_key) ->
  srtp_suite_to_policy suite = Some policy ->
  with_inbound_template policy recv_key = Some inbound ->
  with_outbound_template policy send_key = Some outbound ->
  receive_answer_from tag offer [crypto_attribute (tag + Z.of_nat i) suite recv_key] =
    Ret (crypto_attribute (tag + Z.of_nat i) suite send_key, inbound, outbound).
Proof using BL.
  intros Hi Hp Hin Hout. revert tag i Hi. induction offer as [|[suite' key'] offer IH]; intros tag [|i] Hi; try done.
  - injection Hi as [= -> ->]. replace (tag + Z.of_nat 0) with tag by lia. cbn.
    rewrite decide_True by (by split). cbn. rewrite base64_roundtrip, Hp. cbn. by rewrite Hin; cbn; rewrite Hout.
  - cbn [receive_answer_from list_find]. rewrite decide_False.
    + specialize (IH (tag + 1) i Hi). by replace (tag + 1 + Z.of_nat i) with (tag + Z.of_nat (Datatypes.S i)) in IH by lia.
    + intros [H _]. cbn in H. lia.
Qed.

(** [agree in1 out1 in2 out2]: two peers have the same policy, and what one
    sends with is what the other receives with. *)
Definition keys_agree (in1 out1 in2 out2 : SrtpSession) : Prop :=
  exists policy k1 k2,
    with_inbound_template policy k2 = Some in1 /\ with_outbound_template policy k1 = Some out1 /\
    with_inbound_template policy k1 = Some in2 /\ with_outbound_template policy k2 = Some out2.

Lemma sdes_agree_offered rand rand' offer cs :
  (forall i n, length (rand i n) = n) -> (forall n, length (rand' n) = n) ->
  sdes_offer_new rand = Ret offer ->
  (forall c, c ∈ cs -> c ∈ extend_crypto offer) -> cs <> [] ->
  exists answer in_a out_a crypto in_o out_o,
    negotiate_from_offer rand' cs = Ret (Ok ([answer], in_a, out_a)) /\
    receive_answer offer [answer] = Ret (crypto, in_o, out_o) /\
    keys_agree in_o out_o in_a out_a /\
    SrtpCrypto.tag crypto = SrtpCrypto.tag answer /\ SrtpCrypto.suite crypto = SrtpCrypto.suite answer /\
    crypto ∈ extend_crypto offer.
Proof using SL BL.
  unfold SdesSrtpOffer in *. intros Hr Hr' Hoffer Hsub Hne. rewrite sdes_offer_new_eq in Hoffer.
  assert (offer = imap (offered_key rand) preferred) as -> by congruence.
  assert (forall c, c ∈ cs -> exists i suite, preferred !! i = Some suite /\
            c = crypto_attribute (Z.of_nat i + 1) suite (offered_key rand i suite).2) as Hcs.
  { intros c (i & suite & key & Hi & ->)%Hsub%elem_of_extend_crypto.
    unfold SdesSrtpOffer in *. rewrite list_lookup_imap in Hi.
    apply fmap_Some in Hi as (suite' & Hi & [= -> ->]). eauto. }
  destruct cs as [|c0 cs]; [done|].
  destruct (Hcs c0) as (i0 & suite0 & Hi0 & Hc0); [left|].
  destruct (choose_crypto_Some (c0 :: cs) c0) as (c & Hc & Hin); [left|by rewrite Hc0| |].
  { rewrite Hc0. by eapply list_elem_of_lookup_2. }
  destruct (Hcs c Hin) as (i & suite & Hi & Hci). clear Hc0 Hi0.
  destruct (preferred_policy suite) as [p Hp]; [by eapply list_elem_of_lookup_2|].
  assert (offered_key rand i suite = (suite, rand i (key_len p))) as Hkey by (unfold offered_key; by rewrite Hp).
  rewrite Hkey in Hci. cbn [snd] in Hci.
  destruct (inbound_of_key p (rand i (key_len p)) (Hr _ _)) as [in_a Hina].
  destruct (outbound_of_key p (rand i (key_len p)) (Hr _ _)) as [out_o Houto].
  destruct (inbound_of_key p (rand' (key_len p)) (Hr' _)) as [in_o Hino].
  destruct (outbound_of_key p (rand' (key_len p)) (Hr' _)) as [out_a Houta].
  assert (imap (offered_key rand) preferred !! i = Some (suite, rand i (key_len p))) as Hoff.
  { by rewrite list_lookup_imap, Hi; cbn [fmap option_fmap option_map]; rewrite Hkey. }
  exists (crypto_attribute (1 + Z.of_nat i) suite (rand' (key_len p))), in_a, out_a.
  exists (crypto_attribute (1 + Z.of_nat i) suite (rand i (key_len p))), in_o, out_o. split; [|split; [|split; [|split; [|split]]]].
  - unfold negotiate_from_offer. rewrite Hc, Hci. cbn [SrtpCrypto.keys crypto_attribute SrtpKeyingMaterial.key_and_salt].
    rewrite base64_roundtrip. cbn [SrtpCrypto.suite crypto_attribute SrtpCrypto.tag]. rewrite Hp. cbn [unwrap mbind exec_bind].
    rewrite Hina. cbn. rewrite Houta. cbn. by rewrite Z.add_comm.
  - by eapply receive_answer_from_at.
  - exists p, (rand i (key_len p)), (rand' (key_len p)). done.
  - done.
  - done.
  - apply elem_of_extend_crypto. exists i, suite, (rand i (key_len p)). by rewrite Z.add_comm.
Qed.
(** Two peers that exchange keys in session descriptions end with sessions
    of SRTP that fit: whichever of the offered suites reach the answerer, in
    whatever order, it takes one, and what it answers is accepted with the same
    tag and suite; each side receives with the key that the other sends with. *)
Theorem sdes_keys_agree rand rand' offer cs :
  (forall i n, length (rand i n) = n) -> (forall n, length (rand' n) = n) ->
  sdes_offer_new rand = Ret offer ->
  (forall c, c ∈ cs -> c ∈ extend_crypto offer) -> cs <> [] ->
  exists answer in_a out_a crypto in_o out_o,
    negotiate_from_offer rand' cs = Ret (Ok ([answer], in_a, out_a)) /\
    receive_answer offer [answer] = Ret (crypto, in_o, out_o) /\
    SrtpCrypto.tag crypto = SrtpCrypto.tag answer /\ SrtpCrypto.suite crypto = SrtpCrypto.suite answer /\
    crypto ∈ extend_crypto offer /\
    keys_agree in_o out_o in_a out_a.
Proof using SL BL.
  intros Hr Hr' Ho Hsub Hne.
  destruct (sdes_agree_offered _ _ _ _ Hr Hr' Ho Hsub Hne) as (an & in_a & out_a & cr & in_o & out_o & ? & ? & ? & ? & ? & ?).
  exists an, in_a, out_a, cr, in_o, out_o. tauto.
Qed.
End sdes.

Import Toy.

(** Of four offered suites two reach the answerer, in the other order. *)
Lemma sdes_keys_agree_witness :
  exists offer, sdes_offer_new (fun _ => Toy.zeros) = Ret offer /\
    exists answer in_a out_a crypto in_o out_o,
      negotiate_from_offer Toy.zeros (reverse (drop 2 (extend_crypto offer))) = Ret (Ok ([answer], in_a, out_a)) /\
      receive_answer offer [answer] = Ret (crypto, in_o, out_o) /\
      SrtpCrypto.tag crypto = 3 /\ keys_agree in_o out_o in_a out_a.
Proof.
  exists (imap (offered_key (fun _ => zeros)) preferred). split; [reflexivity|].
  edestruct (sdes_keys_agree (fun _ => zeros) zeros (imap (offered_key (fun _ => zeros)) preferred)
    (reverse (drop 2 (extend_crypto (imap (offered_key (fun _ => zeros)) preferred))))) as (answer & in_a & out_a & crypto & in_o & out_o & H1 & H2 & H3 & _ & _ & H4).
  - intros. apply length_replicate.
  - intros. apply length_replicate.
  - reflexivity.
  - intros c H%elem_of_reverse. rewrite <-(take_drop 2 (extend_crypto _)). apply elem_of_app. by right.
  - discriminate.
  - exists answer, in_a, out_a, crypto, in_o, out_o. split; [exact H1|]. split; [exact H2|]. split; [|exact H4].
    rewrite H3. vm_compute in H1. injection H1 as <- _ _. reflexivity.
Defined.
