(* ===== verification/MediaTransport.v ===== *)
(** * Media transports (media/session/src/transport/mod.rs, builder.rs, events.rs)

    A transport carries RTP and RTCP, with or without SRTP and ICE; a builder is
    a transport that has been offered and not been answered. The ICE agent is
    an interface, which IceAgent implements; what is random is an argument. *)
From S2P Require Import Prelude Wire Text StunHeader StunAttr JitterBuffer RtpExtensions.
From S2P Require IceStun IceAgent.
From S2P Require Import SdpFields SdpAttributes SdpCrypto SdpSession MediaKeys.
Local Open Scope Z_scope.
Import IceStun (Component, IceCredentials, IceGatheringState, IceConnectionState, IceEvent).
Import IceAgent (ReceivedPkt.t).
Local Notation ReceivedPkt := (IceAgent.ReceivedPkt.t (list byte)).

(** ** The ICE agent *)
Class IceOps (A : Type) := {
  ice_new_for_offer : IceCredentials -> bool -> bool -> Z -> A;
  ice_new_from_answer : IceCredentials -> IceCredentials -> bool -> bool -> Z -> A;
  ice_add_stun_server : SocketAddr -> A -> A;
  ice_add_remote_candidate : IceCandidate.t -> A -> exec A;
  ice_set_remote_data : Z -> IceCredentials -> list IceCandidate.t -> bool -> A -> exec A;
  ice_add_host_addr : Component -> SocketAddr -> A -> A;
  ice_receive : Z -> ReceivedPkt -> A -> exec A;
  ice_poll : (nat -> TransactionId) -> Z -> A -> exec A;
  ice_pop_event : A -> option IceEvent * A;
  ice_timeout : Z -> A -> option Z;
  ice_credentials : A -> IceCredentials;
  ice_candidates : A -> list IceCandidate.t;
  ice_gathering_state : A -> IceGatheringState;
  ice_connection_state : A -> IceConnectionState;
  (** the events that wait *)
  ice_pending : A -> nat }.

(** [pop_event] takes one of the events, and gives none if there is none. *)
Class IceLaws (A : Type) {O : IceOps A} : Prop := {
  ice_pop_event_pending a : match (ice_pop_event a).1 with
    | Some _ => ice_pending a = S (ice_pending (ice_pop_event a).2)
    | None => ice_pending a = 0%nat /\ ice_pending (ice_pop_event a).2 = 0%nat
    end }.

(** [to_socket_addrs] *)
Class Dns := to_socket_addrs : str -> Z -> option (list SocketAddr).

(** ** events.rs *)
Inductive TransportConnectionState := New | Connecting | Connected | Failed.
#[export] Instance TransportConnectionState_eq_dec : EqDecision TransportConnectionState.
Proof. solve_decision. Defined.

Inductive TransportChange (K : Type) :=
| CreateSocket (id : K) | CreateSocketPair (id : K) | Remove (id : K) | RemoveRtcpSocket (id : K).
Arguments CreateSocket {K} id.
Arguments CreateSocketPair {K} id.
Arguments Remove {K} id.
Arguments RemoveRtcpSocket {K} id.

Inductive TransportEvent :=
| EvIceGatheringState (old new : IceGatheringState)
| EvIceConnectionState (old new : IceConnectionState)
| EvTransportConnectionState (old new : TransportConnectionState)
| EvSendData (component : Component) (data : list byte) (source : option IceStun.IpAddr) (target : SocketAddr).

Inductive ReceivedPacket :=
| ReceivedRtp (packet : RtpPacket.t)
| ReceivedRtcp (data : list byte)
| TransportSpecific.

(** ** Addresses *)
Section addresses.
Context {D : Dns}.

Definition is_ipv4 (a : SocketAddr) : Prop := match a with V4 _ _ => True | V6 _ _ _ _ => False end.
#[global] Instance is_ipv4_dec a : Decision (is_ipv4 a).
Proof. destruct a; apply _. Defined.

Definition resolve_tagged_address (address : TaggedAddress.t) (port : Z) : result Error SocketAddr :=
  match address with
  | TaggedAddress.IP4 ip => Ok (V4 ip port)
  | TaggedAddress.IP4FQDN name =>
      addrs ← ok_or Io (to_socket_addrs name port); ok_or Io (snd <$> list_find is_ipv4 addrs)
  | TaggedAddress.IP6 ip => Ok (V6 ip port 0 0)
  | TaggedAddress.IP6FQDN name =>
      addrs ← ok_or Io (to_socket_addrs name port); ok_or Io (snd <$> list_find (fun a => ~ is_ipv4 a) addrs)
  end.
(** The port of RTCP is the next one, if no other is said. *)
Definition rtcp_address_and_port (desc : MediaDescription.t) (connection : Connection.t) : TaggedAddress.t * Z :=
  if MediaDescription.rtcp_mux desc then (Connection.address connection, Media.port (MediaDescription.media desc))
  else match MediaDescription.rtcp desc with
       | Some rtcp_addr => (default (Connection.address connection) (Rtcp.address rtcp_addr), Rtcp.port rtcp_addr)
       | None => (Connection.address connection, wrap 16 (Media.port (MediaDescription.media desc) + 1))
       end.
Definition resolve_rtp_and_rtcp_address (session_desc : SessionDescription.t) (desc : MediaDescription.t)
    : exec (result Error (SocketAddr * SocketAddr)) :=
  connection ← unwrap match MediaDescription.connection desc with
                      | Some c => Some c
                      | None => SessionDescription.connection session_desc
                      end;
  let '(rtcp_address, rtcp_port) := rtcp_address_and_port desc connection in
  Ret (rtp ← resolve_tagged_address (Connection.address connection) (Media.port (MediaDescription.media desc));
       rtcp ← resolve_tagged_address rtcp_address rtcp_port;
       Ok (rtp, rtcp)).
End addresses.

(** [Option::or], [Option::zip] *)
Definition or_else {A} (a b : option A) : option A := match a with Some _ => a | None => b end.
Definition zip {A B} (a : option A) (b : option B) : option (A * B) := x ← a; y ← b; Some (x, y).

(** The credentials of the peer *)
Definition remote_credentials (session_desc : SessionDescription.t) (desc : MediaDescription.t) : option IceCredentials :=
  '(ufrag, pwd) ← zip (or_else (SessionDescription.ice_ufrag session_desc) (MediaDescription.ice_ufrag desc))
                      (or_else (SessionDescription.ice_pwd session_desc) (MediaDescription.ice_pwd desc));
  Some {| IceStun.ufrag := IceUsernameFragment.ufrag ufrag; IceStun.pwd := IcePassword.pwd pwd |}.

Section transport.
Context {S : Srtp} {B : Base64} {L : Ssl S} {RT : RtpTypes} {W : WireOps} {D : Dns} {A : Type} {I : IceOps A}.

(** ** SessionTransportState *)
Record SessionTransportState := {
  ssl_context : option SslContext;
  state_credentials : option IceCredentials;
  stun_servers : list SocketAddr }.
#[global] Instance state_eta : Eta SessionTransportState := fun s => {|
  ssl_context := ssl_context s; state_credentials := state_credentials s; stun_servers := stun_servers s |}.
Definition default_state : SessionTransportState := {|
  ssl_context := None; state_credentials := None; stun_servers := [] |}.

(** What is drawn at random: a context with its certificate, credentials, the
    tie breaker of an agent, keys. *)
Record Random := {
  random_context : SslContext;
  random_credentials : IceCredentials;
  random_tie_breaker : Z;
  random_key : nat -> nat -> list byte }.

Definition add_server (server : SocketAddr) (s : SessionTransportState) : SessionTransportState :=
  s <| stun_servers := stun_servers s ++ [server] |>.
Definition get_ssl_context (r : Random) (s : SessionTransportState) : SslContext * SessionTransportState :=
  let ctx := default (random_context r) (ssl_context s) in (ctx, s <| ssl_context := Some ctx |>).
Definition dtls_fingerprint (r : Random) (s : SessionTransportState) : exec (Fingerprint.t * SessionTransportState) :=
  let '(ctx, s) := get_ssl_context r s in
  digest ← unwrap (certificate_digest (context_certificate ctx) sha256);
  Ret ({| Fingerprint.algorithm := FingerprintAlgorithm.SHA256; Fingerprint.fingerprint := byte_val <$> digest |}, s).
Definition get_credentials (r : Random) (s : SessionTransportState) : IceCredentials * SessionTransportState :=
  let c := default (random_credentials r) (state_credentials s) in (c, s <| state_credentials := Some c |>).

(** The fingerprints that the peer may have *)
Definition remote_fingerprints (session_desc : SessionDescription.t) (desc : MediaDescription.t)
    : list (MessageDigest * list byte) :=
  omap (fun e => digest ← to_openssl_digest (Fingerprint.algorithm e);
                 Some (digest, byte_of <$> Fingerprint.fingerprint e))
    (SessionDescription.fingerprint session_desc ++ MediaDescription.fingerprint desc).

(** ** Transport *)
Inductive TransportKind :=
| KindRtp
| KindSdesSrtp (crypto : list SrtpCrypto.t) (inbound outbound : SrtpSession)
| KindDtlsSrtp (fingerprint : list Fingerprint.t) (setup : Setup.t) (dtls : DtlsSrtpSession)
    (srtp : option (SrtpSession * SrtpSession)).

Record Transport := {
  local_rtp_port : option Z;
  local_rtcp_port : option Z;
  remote_rtp_address : SocketAddr;
  remote_rtcp_address : SocketAddr;
  rtcp_mux : bool;
  ice_agent : option A;
  negotiated_extension_ids : RtpExtensionIds;
  connection_state : TransportConnectionState;
  kind : TransportKind;
  events : list TransportEvent }.
#[global] Instance transport_eta : Eta Transport := fun t => {|
  local_rtp_port := local_rtp_port t; local_rtcp_port := local_rtcp_port t;
  remote_rtp_address := remote_rtp_address t; remote_rtcp_address := remote_rtcp_address t; rtcp_mux := rtcp_mux t;
  ice_agent := ice_agent t; negotiated_extension_ids := negotiated_extension_ids t;
  connection_state := connection_state t; kind := kind t; events := events t |}.

Definition push_event (e : TransportEvent) (t : Transport) : Transport := t <| events := events t ++ [e] |>.
Definition set_connection_state (new : TransportConnectionState) (t : Transport) : Transport :=
  if decide (connection_state t = new) then t
  else push_event (EvTransportConnectionState (connection_state t) new) t <| connection_state := new |>.

(** [ice_agent_mut] and what is done to the agent *)
Definition update_agent (f : A -> A) (t : Transport) : Transport := t <| ice_agent := f <$> ice_agent t |>.
Definition set_ports (rtp_port : Z) (rtcp_port : option Z) (t : Transport) : Transport :=
  let t := t <| local_rtp_port := Some rtp_port |> in t <| local_rtcp_port := rtcp_port |>.

(** The agent of a transport that is made for an offer *)
Definition agent_for_offer (r : Random) (session_desc : SessionDescription.t) (desc : MediaDescription.t)
    (state : SessionTransportState) : exec (option A * SessionTransportState) :=
  match remote_credentials session_desc desc with
  | None => Ret (None, state)
  | Some remote =>
      let '(local, state) := get_credentials r state in
      let a := ice_new_from_answer local remote false (MediaDescription.rtcp_mux desc) (random_tie_breaker r) in
      let a := foldl (fun a server => ice_add_stun_server server a) a (stun_servers state) in
      a ← IceAgent.exec_fold ice_add_remote_candidate (MediaDescription.ice_candidates desc) a;
      Ret (Some a, state)
  end.

(** [dtls_srtp_from_offer]: the kind of the transport *)
Definition setup_of (setup : DtlsSetup) : Setup.t := match setup with Accept => Setup.Passive | Connect => Setup.Active end.
Definition dtls_srtp_from_offer (r : Random) (session_desc : SessionDescription.t) (desc : MediaDescription.t)
    (state : SessionTransportState) : exec (result Error TransportKind * SessionTransportState) :=
  match MediaDescription.setup desc with
  | Some Setup.HoldConn | None => Ret (Err Io, state)
  | Some s =>
      let setup := match s with Setup.Passive => Connect | _ => Accept end in
      let '(ctx, state) := get_ssl_context r state in
      dtls ← dtls_new ctx (remote_fingerprints session_desc desc) setup;
      match dtls with
      | Err e => Ret (Err e, state)
      | Ok dtls =>
          '(fingerprint, state) ← dtls_fingerprint r state;
          Ret (Ok (KindDtlsSrtp [fingerprint] (setup_of setup) dtls None), state)
      end
  end.

(** The kind of transport for the protocol of an offer; none for a protocol
    that is not supported *)
Definition kind_for_offer (r : Random) (session_desc : SessionDescription.t) (desc : MediaDescription.t)
    (state : SessionTransportState) : exec (result Error (option TransportKind) * SessionTransportState) :=
  match Media.proto (MediaDescription.media desc) with
  | TransportProtocol.RtpAvp | TransportProtocol.RtpAvpf => Ret (Ok (Some KindRtp), state)
  | TransportProtocol.RtpSavp | TransportProtocol.RtpSavpf =>
      n ← negotiate_from_offer (random_key r 0) (MediaDescription.crypto desc);
      Ret ('(crypto, inbound, outbound) ← n; Ok (Some (KindSdesSrtp crypto inbound outbound)), state)
  | TransportProtocol.UdpTlsRtpSavp | TransportProtocol.UdpTlsRtpSavpf =>
      '(k, state) ← dtls_srtp_from_offer r session_desc desc state;
      Ret (k ← k; Ok (Some k), state)
  | _ => Ret (Ok None, state)
  end.

(** Without ICE, transports other than DTLS are connected at once. *)
Definition connected_at_once (k : TransportKind) (agent : option A) : bool :=
  match k, agent with
  | KindRtp, None | KindSdesSrtp _ _ _, None => true
  | _, _ => false
  end.

(** [create_from_offer]; the required change is the one that is pushed. *)
Definition create_from_offer {K} (r : Random) (id : K) (session_desc : SessionDescription.t) (desc : MediaDescription.t)
    (state : SessionTransportState)
    : exec (result Error (option Transport) * SessionTransportState * TransportChange K) :=
  let change := if MediaDescription.rtcp_mux desc then CreateSocket id else CreateSocketPair id in
  addresses ← resolve_rtp_and_rtcp_address session_desc desc;
  '(remote_rtp_address, remote_rtcp_address) ← unwrap_res addresses;
  '(agent, state) ← agent_for_offer r session_desc desc state;
  '(k, state) ← kind_for_offer r session_desc desc state;
  Ret (match k with
       | Err e => Err e
       | Ok None => Ok None
       | Ok (Some k) =>
           let transport := {|
             local_rtp_port := None; local_rtcp_port := None; remote_rtp_address := remote_rtp_address;
             remote_rtcp_address := remote_rtcp_address; rtcp_mux := MediaDescription.rtcp_mux desc;
             ice_agent := agent; negotiated_extension_ids := from_sdp session_desc desc;
             connection_state := New; kind := k; events := [] |} in
           Ok (Some (if connected_at_once k agent then set_connection_state Connected transport else transport))
       end, state, change).

Definition type_ (t : Transport) : TransportType :=
  match kind t with KindRtp => Rtp | KindSdesSrtp _ _ _ => SdesSrtp | KindDtlsSrtp _ _ _ _ => DtlsSrtp end.

(** The lines about the agent *)
Definition populate_ice (agent : option A) (desc : MediaDescription.t) : MediaDescription.t :=
  match agent with
  | None => desc
  | Some a =>
      let desc := desc <| MediaDescription.ice_candidates := MediaDescription.ice_candidates desc ++ ice_candidates a |> in
      let desc := desc <| MediaDescription.ice_ufrag :=
        Some {| IceUsernameFragment.ufrag := IceStun.ufrag (ice_credentials a) |} |> in
      desc <| MediaDescription.ice_pwd := Some {| IcePassword.pwd := IceStun.pwd (ice_credentials a) |} |>
  end.
Definition add_extmap (ids : RtpExtensionIds) (desc : MediaDescription.t) : MediaDescription.t :=
  desc <| MediaDescription.extmap := MediaDescription.extmap desc ++ to_extmap ids |>.
Definition add_crypto (crypto : list SrtpCrypto.t) (desc : MediaDescription.t) : MediaDescription.t :=
  desc <| MediaDescription.crypto := MediaDescription.crypto desc ++ crypto |>.
Definition add_dtls (fingerprint : list Fingerprint.t) (setup : Setup.t) (desc : MediaDescription.t) : MediaDescription.t :=
  let desc := desc <| MediaDescription.setup := Some setup |> in
  desc <| MediaDescription.fingerprint := MediaDescription.fingerprint desc ++ fingerprint |>.

(** [populate_desc] *)
Definition populate_desc (t : Transport) (desc : MediaDescription.t) : MediaDescription.t :=
  let desc := add_extmap (negotiated_extension_ids t) desc in
  let desc := match kind t with
              | KindRtp => desc
              | KindSdesSrtp crypto _ _ => add_crypto crypto desc
              | KindDtlsSrtp fingerprint setup _ _ => add_dtls fingerprint setup desc
              end in
  populate_ice (ice_agent t) desc.

(** [timeout] *)
Definition transport_timeout (now : Z) (t : Transport) : option Z :=
  let timeout := match kind t with KindDtlsSrtp _ _ dtls _ => dtls_timeout dtls | _ => None end in
  match ice_agent t with
  | Some agent => IceAgent.opt_min (ice_timeout now agent) timeout
  | None => timeout
  end.

(** [pop_event]: the events of the agent first; [UseAddr] is not passed on. The
    fuel is the number of events of the agent. *)
Fixpoint pop_ice_event (n : nat) (t : Transport) : option TransportEvent * Transport :=
  match n, ice_agent t with
  | Datatypes.S n, Some agent =>
      let '(e, agent) := ice_pop_event agent in
      let t := t <| ice_agent := Some agent |> in
      match e with
      | None => (None, t)
      | Some (IceStun.GatheringStateChanged old new) => (Some (EvIceGatheringState old new), t)
      | Some (IceStun.ConnectionStateChanged old new) => (Some (EvIceConnectionState old new), t)
      | Some (IceStun.UseAddr IceStun.Rtp target) => pop_ice_event n (t <| remote_rtp_address := target |>)
      | Some (IceStun.UseAddr IceStun.Rtcp target) => pop_ice_event n (t <| remote_rtcp_address := target |>)
      | Some (IceStun.SendData component data source target) => (Some (EvSendData component data source target), t)
      end
  | _, _ => (None, t)
  end.
Definition pop_own_event (t : Transport) : option TransportEvent * Transport :=
  match events t with
  | [] => (None, t)
  | e :: es => (Some e, t <| events := es |>)
  end.
Definition transport_pop_event (t : Transport) : option TransportEvent * Transport :=
  let fuel := match ice_agent t with Some a => Datatypes.S (ice_pending a) | None => 0%nat end in
  let '(e, t) := pop_ice_event fuel t in
  match e with
  | Some e => (Some e, t)
  | None =>
      match connection_state t, kind t with
      | Connecting, KindDtlsSrtp fingerprint setup dtls srtp | Connected, KindDtlsSrtp fingerprint setup dtls srtp =>
          let '(data, dtls) := pop_to_send dtls in
          match data with
          | Some data => (Some (EvSendData IceStun.Rtp data None (remote_rtp_address t)),
                          t <| kind := KindDtlsSrtp fingerprint setup dtls srtp |>)
          | None => pop_own_event t
          end
      | _, _ => pop_own_event t
      end
  end.

(** [while let Some(data) = dtls.pop_to_send()], each as an event *)
Definition send_dtls (datas : list (list byte)) (t : Transport) : Transport :=
  foldl (fun t data => push_event (EvSendData IceStun.Rtp data None (remote_rtp_address t)) t) t datas.

Definition update_connection_state_on_ice_connected (t : Transport) : exec Transport :=
  match kind t with
  | KindRtp | KindSdesSrtp _ _ _ => Ret (set_connection_state Connected t)
  | KindDtlsSrtp _ _ dtls srtp =>
      match dtls_state dtls with
      | Accepting | MediaKeys.Connecting => Ret (set_connection_state Connecting t)
      | MediaKeys.Connected => if srtp is None then Panic else Ret (set_connection_state Connected t)
      | MediaKeys.Failed => Ret (set_connection_state Failed t)
      end
  end.

(** [poll] *)
Definition transport_poll (tid : nat -> TransactionId) (now : Z) (t : Transport) : exec Transport :=
  t ← match kind t with
      | KindDtlsSrtp fingerprint setup dtls srtp =>
          '(r, dtls) ← handshake dtls;
          match r with
          | Ok None =>
              let '(datas, dtls) := pop_all dtls in
              Ret (send_dtls datas (t <| kind := KindDtlsSrtp fingerprint setup dtls srtp |>))
          | _ => Panic
          end
      | _ => Ret t
      end;
  match ice_agent t with
  | Some agent =>
      agent ← ice_poll tid now agent;
      let t := t <| ice_agent := Some agent |> in
      match ice_connection_state agent with
      | IceStun.ConnNew | IceStun.ConnChecking | IceStun.ConnDisconnected => Ret t
      | IceStun.ConnConnected => update_connection_state_on_ice_connected t
      | IceStun.ConnFailed => Ret (set_connection_state Failed t)
      end
  | None => update_connection_state_on_ice_connected t
  end.

(** The protection of received packets: a transport that waits for its keys
    takes the packet as it is. *)
Definition unprotected (f : list byte -> SrtpSession -> option (list byte * SrtpSession)) (data : list byte) (t : Transport)
    : exec (list byte * Transport) :=
  match kind t with
  | KindSdesSrtp crypto inbound outbound =>
      '(data, inbound) ← unwrap (f data inbound); Ret (data, t <| kind := KindSdesSrtp crypto inbound outbound |>)
  | KindDtlsSrtp fingerprint setup dtls (Some (inbound, outbound)) =>
      '(data, inbound) ← unwrap (f data inbound);
      Ret (data, t <| kind := KindDtlsSrtp fingerprint setup dtls (Some (inbound, outbound)) |>)
  | _ => Ret (data, t)
  end.

(** [receive] *)
Definition transport_receive (now : Z) (pkt : ReceivedPkt) (t : Transport) : exec (ReceivedPacket * Transport) :=
  let data := IceAgent.ReceivedPkt.data pkt in
  match PacketKind.identify data with
  | PacketKind.Rtp =>
      '(data, t) ← unprotected unprotect data t;
      Ret (match packet_parse (negotiated_extension_ids t) data with
           | Some packet => ReceivedRtp packet
           | None => TransportSpecific
           end, t)
  | PacketKind.Rtcp => '(data, t) ← unprotected unprotect_rtcp data t; Ret (ReceivedRtcp data, t)
  | PacketKind.Stun =>
      match ice_agent t with
      | Some agent => agent ← ice_receive now pkt agent; Ret (TransportSpecific, t <| ice_agent := Some agent |>)
      | None => Ret (TransportSpecific, t)
      end
  | PacketKind.Dtls =>
      match IceAgent.ReceivedPkt.component pkt, kind t with
      | IceStun.Rtp, KindDtlsSrtp fingerprint setup dtls srtp =>
          dtls ← dtls_receive data dtls;
          '(r, dtls) ← handshake dtls;
          pair ← unwrap_res r;
          let '(datas, dtls) := pop_all dtls in
          Ret (TransportSpecific, send_dtls datas (t <| kind := KindDtlsSrtp fingerprint setup dtls (or_else pair srtp) |>))
      | _, _ => Ret (TransportSpecific, t)
      end
  | PacketKind.Unknown => Ret (TransportSpecific, t)
  end.

(** The protection of packets that are sent *)
Definition protected (f : list byte -> SrtpSession -> option (list byte * SrtpSession)) (packet : list byte) (t : Transport)
    : exec (list byte * Transport) :=
  match kind t with
  | KindDtlsSrtp _ _ _ None => Panic
  | KindSdesSrtp crypto inbound outbound =>
      '(packet, outbound) ← unwrap (f packet outbound); Ret (packet, t <| kind := KindSdesSrtp crypto inbound outbound |>)
  | KindDtlsSrtp fingerprint setup dtls (Some (inbound, outbound)) =>
      '(packet, outbound) ← unwrap (f packet outbound);
      Ret (packet, t <| kind := KindDtlsSrtp fingerprint setup dtls (Some (inbound, outbound)) |>)
  | KindRtp => Ret (packet, t)
  end.
Definition transport_send_rtp (packet : RtpPacket.t) (t : Transport) : exec Transport :=
  packet ← packet_to_vec (negotiated_extension_ids t) packet;
  '(packet, t) ← protected protect packet t;
  Ret (push_event (EvSendData IceStun.Rtp packet None (remote_rtp_address t)) t).
Definition transport_send_rtcp (packet : list byte) (t : Transport) : exec Transport :=
  '(packet, t) ← protected protect_rtcp packet t;
  let component := if rtcp_mux t then IceStun.Rtp else IceStun.Rtcp in
  Ret (push_event (EvSendData component packet None (remote_rtcp_address t)) t).

(** ** TransportBuilder *)
Inductive TransportBuilderKind :=
| BuilderRtp
| BuilderSdesSrtp (offer : SdesSrtpOffer)
| BuilderDtlsSrtp (fingerprint : list Fingerprint.t).

Record TransportBuilder := {
  builder_rtp_port : option Z;
  builder_rtcp_port : option Z;
  builder_kind : TransportBuilderKind;
  builder_agent : option A;
  backlog : list ReceivedPkt }.
#[global] Instance builder_eta : Eta TransportBuilder := fun b => {|
  builder_rtp_port := builder_rtp_port b; builder_rtcp_port := builder_rtcp_port b; builder_kind := builder_kind b;
  builder_agent := builder_agent b; backlog := backlog b |}.

Definition builder_update_agent (f : A -> A) (b : TransportBuilder) : TransportBuilder :=
  b <| builder_agent := f <$> builder_agent b |>.
Definition builder_set_ports (rtp_port : Z) (rtcp_port : option Z) (b : TransportBuilder) : TransportBuilder :=
  let b := b <| builder_rtp_port := Some rtp_port |> in b <| builder_rtcp_port := rtcp_port |>.

Definition placeholder : TransportBuilder := {|
  builder_rtp_port := None; builder_rtcp_port := None; builder_kind := BuilderRtp; builder_agent := None; backlog := [] |}.

(** [new] *)
Definition builder_new {K} (r : Random) (id : K) (ty : TransportType) (policy : RtcpMuxPolicy) (offer_ice : bool)
    (state : SessionTransportState) : exec (TransportBuilder * SessionTransportState * TransportChange K) :=
  let change := match policy with Negotiate => CreateSocketPair id | Require => CreateSocket id end in
  '(k, state) ← match ty with
                | Rtp => Ret (BuilderRtp, state)
                | SdesSrtp => offer ← sdes_offer_new (random_key r); Ret (BuilderSdesSrtp offer, state)
                | DtlsSrtp => '(fingerprint, state) ← dtls_fingerprint r state; Ret (BuilderDtlsSrtp [fingerprint], state)
                end;
  let '(agent, state) :=
    if offer_ice then
      let '(local, state) := get_credentials r state in
      let a := ice_new_for_offer local true (match policy with Require => true | Negotiate => false end)
                 (random_tie_breaker r) in
      (Some (foldl (fun a server => ice_add_stun_server server a) a (stun_servers state)), state)
    else (None, state) in
  Ret ({| builder_rtp_port := None; builder_rtcp_port := None; builder_kind := k; builder_agent := agent; backlog := [] |},
       state, change).

Definition builder_type (b : TransportBuilder) : TransportType :=
  match builder_kind b with BuilderRtp => Rtp | BuilderSdesSrtp _ => SdesSrtp | BuilderDtlsSrtp _ => DtlsSrtp end.

Definition builder_populate_desc (b : TransportBuilder) (desc : MediaDescription.t) : MediaDescription.t :=
  let desc := add_extmap offer_extension_ids desc in
  let desc := match builder_kind b with
              | BuilderRtp => desc
              | BuilderSdesSrtp offer => add_crypto (extend_crypto offer) desc
              | BuilderDtlsSrtp fingerprint => add_dtls fingerprint Setup.ActPass desc
              end in
  populate_ice (builder_agent b) desc.

Definition builder_timeout (now : Z) (b : TransportBuilder) : option Z :=
  match builder_agent b with Some agent => ice_timeout now agent | None => None end.

(** [pop_event]: an agent without the data of the peer has nothing to use. *)
Definition builder_pop_event (b : TransportBuilder) : exec (option TransportEvent * TransportBuilder) :=
  match builder_agent b with
  | None => Ret (None, b)
  | Some agent =>
      let '(e, agent) := ice_pop_event agent in
      let b := b <| builder_agent := Some agent |> in
      match e with
      | None => Ret (None, b)
      | Some (IceStun.GatheringStateChanged old new) => Ret (Some (EvIceGatheringState old new), b)
      | Some (IceStun.ConnectionStateChanged old new) => Ret (Some (EvIceConnectionState old new), b)
      | Some (IceStun.UseAddr _ _) => Panic
      | Some (IceStun.SendData component data source target) => Ret (Some (EvSendData component data source target), b)
      end
  end.
Definition builder_poll (tid : nat -> TransactionId) (now : Z) (b : TransportBuilder) : exec TransportBuilder :=
  match builder_agent b with
  | Some agent => agent ← ice_poll tid now agent; Ret (b <| builder_agent := Some agent |>)
  | None => Ret b
  end.

(** [receive]: what is not for the agent waits, 101 packets at most. *)
Definition builder_receive (now : Z) (pkt : ReceivedPkt) (b : TransportBuilder) : exec TransportBuilder :=
  let keep b := if decide (100 < length (backlog b))%nat then b else b <| backlog := backlog b ++ [pkt] |> in
  match builder_agent b with
  | None => Ret (keep b)
  | Some agent =>
      info ← is_stun_message (IceAgent.ReceivedPkt.data pkt);
      match info with
      | Yes _ => agent ← ice_receive now pkt agent; Ret (b <| builder_agent := Some agent |>)
      | _ => Ret (keep b)
      end
  end.

(** The packets that came before the answer: early RTP and RTCP panic. *)
Definition receive_early (now : Z) (pkt : ReceivedPkt) (t : Transport) : exec Transport :=
  '(r, t) ← transport_receive now pkt t;
  match r with ReceivedRtp _ | ReceivedRtcp _ => Panic | TransportSpecific => Ret t end.

(** The kind of transport for an answer *)
Definition kind_for_answer (r : Random) (session_desc : SessionDescription.t) (desc : MediaDescription.t)
    (k : TransportBuilderKind) (state : SessionTransportState) : exec (TransportKind * SessionTransportState) :=
  match k with
  | BuilderRtp => Ret (KindRtp, state)
  | BuilderSdesSrtp offer =>
      '(crypto, inbound, outbound) ← receive_answer offer (MediaDescription.crypto desc);
      Ret (KindSdesSrtp [crypto] inbound outbound, state)
  | BuilderDtlsSrtp fingerprint =>
      setup ← match MediaDescription.setup desc with
              | Some Setup.Active => Ret Accept
              | Some Setup.Passive => Ret Connect
              | _ => Panic
              end;
      let '(ctx, state) := get_ssl_context r state in
      dtls ← dtls_new ctx (remote_fingerprints session_desc desc) setup;
      dtls ← unwrap_res dtls;
      Ret (KindDtlsSrtp fingerprint (setup_of setup) dtls None, state)
  end.

(** [build_from_answer]; the changes are those that are pushed. *)
Definition build_from_answer {K} (r : Random) (now : Z) (id : K) (session_desc : SessionDescription.t)
    (desc : MediaDescription.t) (state : SessionTransportState) (b : TransportBuilder)
    : exec (Transport * SessionTransportState * list (TransportChange K)) :=
  addresses ← resolve_rtp_and_rtcp_address session_desc desc;
  '(remote_rtp_address, remote_rtcp_address) ← unwrap_res addresses;
  let '(rtcp_port, changes) :=
    match MediaDescription.rtcp_mux desc, builder_rtcp_port b with
    | true, Some _ => (None, [RemoveRtcpSocket id])
    | _, port => (port, [])
    end in
  agent ← match zip (builder_agent b) (remote_credentials session_desc desc) with
          | Some (agent, remote) =>
              agent ← ice_set_remote_data now remote (MediaDescription.ice_candidates desc) (MediaDescription.rtcp_mux desc) agent;
              Ret (Some agent)
          | None => Ret None
          end;
  '(k, state) ← kind_for_answer r session_desc desc (builder_kind b) state;
  let transport := {|
    local_rtp_port := builder_rtp_port b; local_rtcp_port := rtcp_port; remote_rtp_address := remote_rtp_address;
    remote_rtcp_address := remote_rtcp_address; rtcp_mux := MediaDescription.rtcp_mux desc; ice_agent := agent;
    negotiated_extension_ids := from_sdp session_desc desc; connection_state := New; kind := k; events := [] |} in
  let transport := if connected_at_once k agent then set_connection_state Connecting transport else transport in
  transport ← IceAgent.exec_fold (receive_early now) (backlog b) transport;
  Ret (transport, state, changes).
End transport.
Arguments Transport {S L} A.
Arguments TransportBuilder A : clear implicits.
