(* ===== verification/Slots.v ===== *)
(** * Slot maps (the package [slotmap])

    A map that makes its own keys. [slots_next m] is the key that the next
    insertion gives. *)
From stdpp Require Import gmap.
From S2P Require Import Prelude.

Class Slots (K : Type) (M : Type -> Type) := {
  slots_key_dec :: EqDecision K;
  slots_empty {V} : M V;
  slots_next {V} : M V -> K;
  slots_insert {V} : V -> M V -> M V;
  slots_iter {V} : M V -> list (K * V);
  slots_set {V} : K -> V -> M V -> M V;
  slots_retain {V} : (K -> V -> bool) -> M V -> M V }.

Class SlotsLaws (K : Type) (M : Type -> Type) {SM : Slots K M} : Prop := {
  slots_empty_iter {V} : slots_iter (slots_empty (V := V)) = [];
  slots_iter_NoDup {V} (m : M V) : NoDup (slots_iter m).*1;
  slots_next_fresh {V} (m : M V) : slots_next m ∉ (slots_iter m).*1;
  slots_insert_iter {V} (v : V) m : slots_iter (slots_insert v m) ≡ₚ (slots_next m, v) :: slots_iter m;
  slots_set_iter {V} k (v : V) m :
    slots_iter (slots_set k v m) ≡ₚ (fun '(k', v') => (k', if decide (k' = k) then v else v')) <$> slots_iter m;
  slots_retain_iter {V} (f : K -> V -> bool) m :
    slots_iter (slots_retain f m) ≡ₚ filter (fun kv => f kv.1 kv.2 = true) (slots_iter m) }.

(** An instance that computes; its next key is above all others. *)
Definition above_all (keys : list nat) : nat := foldr Nat.max 0 (S <$> keys).
#[export] Instance counted : Slots nat (gmap nat) := {|
  slots_empty V := ∅;
  slots_next V m := above_all (map_to_list m).*1;
  slots_insert V v m := <[above_all (map_to_list m).*1 := v]> m;
  slots_iter V := map_to_list;
  slots_set V k v m := alter (fun _ => v) k m;
  slots_retain V f m := filter (fun kv => f kv.1 kv.2 = true) m |}.

Lemma above_all_fresh (l : list nat) : above_all l ∉ l.
Proof.
  assert (forall k, k ∈ l -> k < above_all l) as H.
  { unfold above_all. induction l as [|x l IH]; cbn; [by intros k ?%elem_of_nil|].
    intros k [->|Hk]%elem_of_cons; [lia|]. specialize (IH k Hk). lia. }
  intros Hin. specialize (H _ Hin). lia.
Qed.

#[export] Instance counted_laws : SlotsLaws nat (gmap nat).
Proof.
  split; cbn.
  - intros V. apply map_to_list_empty.
  - intros V m. apply NoDup_fst_map_to_list.
  - intros V m. apply above_all_fresh.
  - intros V v m. apply map_to_list_insert. destruct (m !! above_all _) as [x|] eqn:E; [|done].
    destruct (above_all_fresh (map_to_list m).*1). apply list_elem_of_fmap. eexists (_, x). split; [done|].
    by apply elem_of_map_to_list.
  - intros V k v m. apply NoDup_Permutation; [apply NoDup_map_to_list| |].
    + apply (NoDup_fmap_1 fst). rewrite <-list_fmap_compose.
      erewrite (list_fmap_ext (_ ∘ _) fst); [apply NoDup_fst_map_to_list|]. by intros ? [].
    + intros [k' x]. rewrite elem_of_map_to_list, list_elem_of_fmap. split.
      * intros Hx. destruct (decide (k' = k)) as [->|Hne].
        -- rewrite lookup_alter_eq in Hx. apply fmap_Some in Hx as (y & Hy & ->). exists (k, y).
           rewrite decide_True by done. split; [done|]. by apply elem_of_map_to_list.
        -- rewrite lookup_alter_ne in Hx by done. exists (k', x). rewrite decide_False by done.
           split; [done|]. by apply elem_of_map_to_list.
      * intros ([k2 y] & [= -> ->] & Hin%elem_of_map_to_list). case_decide as E.
        -- subst k2. by rewrite lookup_alter_eq, Hin.
        -- by rewrite lookup_alter_ne.
  - intros V f m. apply NoDup_Permutation; [apply NoDup_map_to_list|apply NoDup_filter, NoDup_map_to_list|].
    intros [k v]. rewrite elem_of_map_to_list, list_elem_of_filter, elem_of_map_to_list, map_lookup_filter_Some. cbn. tauto.
Qed.

Section lookup.
Context {K : Type} {M : Type -> Type} {SM : Slots K M}.

(** [get], and the key of an entry *)
Definition slots_get {V} (m : M V) (k : K) : option V := snd <$> (snd <$> list_find (fun kv => kv.1 = k) (slots_iter m)).

Context {SL : SlotsLaws K M}.

Lemma slots_get_iter {V} (m : M V) k v : slots_get m k = Some v <-> (k, v) ∈ slots_iter m.
Proof.
  unfold slots_get. split.
  - rewrite fmap_Some. intros ([k' v'] & H & ->). apply fmap_Some in H as ([i [k2 v2]] & H & [= -> ->]).
    apply list_find_Some in H as (H & <- & _). by eapply list_elem_of_lookup_2.
  - intros H. destruct (list_find _ _) as [[i [k' v']]|] eqn:E; cbn.
    + apply list_find_Some in E as (Hi & Hk & _). cbn in Hk. subst k'. f_equal.
      pose proof (slots_iter_NoDup m) as Hnd. apply list_elem_of_lookup_2 in Hi.
      by pose proof (NoDup_field_eq fst _ _ _ Hnd Hi H eq_refl) as [= ->].
    + apply list_find_None in E. rewrite Forall_forall in E. by specialize (E _ H).
Qed.

Lemma slots_get_None {V} (m : M V) k : slots_get m k = None <-> k ∉ (slots_iter m).*1.
Proof.
  split.
  - intros H ([k' v] & -> & Hin)%list_elem_of_fmap. apply slots_get_iter in Hin. cbn in H; by rewrite Hin in H.
  - intros H. destruct (slots_get m k) as [v|] eqn:E; [|done]. apply slots_get_iter in E.
    destruct H. apply list_elem_of_fmap. by exists (k, v).
Qed.

Lemma slots_get_empty {V} k : slots_get (V := V) slots_empty k = None.
Proof. apply slots_get_None. rewrite slots_empty_iter. by apply not_elem_of_nil. Qed.

Lemma slots_get_insert {V} (v : V) m k :
  slots_get (slots_insert v m) k = if decide (k = slots_next m) then Some v else slots_get m k.
Proof.
  case_decide as E.
  - subst k. apply slots_get_iter. rewrite slots_insert_iter. by left.
  - destruct (slots_get m k) as [x|] eqn:Ex.
    + apply slots_get_iter. rewrite slots_insert_iter. right. by apply slots_get_iter.
    + apply slots_get_None. apply slots_get_None in Ex. rewrite slots_insert_iter. cbn.
      by intros [?|?]%elem_of_cons.
Qed.

Lemma slots_get_next {V} (m : M V) : slots_get m (slots_next m) = None.
Proof. apply slots_get_None, slots_next_fresh. Qed.

Lemma slots_get_set {V} k' (v : V) m k :
  slots_get (slots_set k' v m) k = if decide (k = k') then (fun _ => v) <$> slots_get m k else slots_get m k.
Proof.
  assert (forall x, slots_get (slots_set k' v m) k = Some x <->
    exists y, slots_get m k = Some y /\ x = if decide (k = k') then v else y) as H.
  { intros x. rewrite slots_get_iter, slots_set_iter, list_elem_of_fmap. split.
    - intros ([k2 y] & [= -> ->] & Hin). exists y. split; [by apply slots_get_iter|done].
    - intros (y & Hy & ->). exists (k, y). split; [done|by apply slots_get_iter]. }
  destruct (slots_get m k) as [y|] eqn:E; cbn.
  - case_decide; apply H; exists y; split; try done; by rewrite ?decide_True, ?decide_False.
  - destruct (slots_get (slots_set k' v m) k) as [x|]; [|by case_decide].
    destruct (proj1 (H x) eq_refl) as (y & [=] & _).
Qed.

Lemma slots_get_retain {V} (f : K -> V -> bool) m k v :
  slots_get (slots_retain f m) k = Some v <-> slots_get m k = Some v /\ f k v = true.
Proof. rewrite !slots_get_iter, slots_retain_iter, list_elem_of_filter. cbn. tauto. Qed.
End lookup.
