(* ===== verification/MediaSession.v ===== *)
(** * Media sessions
    (media/session/src/lib.rs, sdp.rs, codecs.rs, local_media.rs, events.rs)

    A session has local media with their codecs, transports, and the media that
    have been negotiated by offers and answers. *)
From S2P Require Import Prelude Wire Text StunHeader StunAttr JitterBuffer RtpExtensions RtpSession Slots.
From S2P Require IceStun IceAgent.
From S2P Require Import SdpFields SdpAttributes SdpCrypto SdpSession MediaKeys MediaTransport.
Local Open Scope Z_scope.
Local Notation MD := MediaDescription.t.

(** ** codecs.rs *)
Module Codec.
Record t := {
  pt : option Z;
  pt_is_static : bool;
  name : str;
  clock_rate : Z;
  channels : option Z;
  fmtp : option str }.
#[global] Instance eta : Eta t := fun c => {|
  pt := pt c; pt_is_static := pt_is_static c; name := name c; clock_rate := clock_rate c; channels := channels c;
  fmtp := fmtp c |}.

Definition new (name : str) (clock_rate : Z) : t := {|
  pt := None; pt_is_static := false; name := name; clock_rate := clock_rate; channels := None; fmtp := None |}.
Definition with_static_pt (static_pt : Z) (c : t) : exec t :=
  if decide (static_pt < 35) then
    let c := c <| pt := Some static_pt |> in Ret (c <| pt_is_static := true |>)
  else Panic.
Definition with_pt (n : Z) (c : t) : exec t :=
  if decide (96 < n <= 127) then Ret (c <| pt := Some n |>) else Panic.
Definition with_channels (n : Z) (c : t) : t := c <| channels := Some n |>.
(** It gives nothing back. *)
Definition with_fmtp (fmtp : str) (c : t) : unit := let _ := {| pt := pt c; pt_is_static := pt_is_static c; name := name c; clock_rate := clock_rate c; channels := channels c; fmtp := Some fmtp |} in tt.

(** [PCMU], [PCMA], [G722], [OPUS] and the codecs of video *)
Definition PCMU : exec t := with_static_pt 0 (new (lit "PCMU") 8000).
Definition PCMA : exec t := with_static_pt 8 (new (lit "PCMA") 8000).
Definition G722 : exec t := c ← with_static_pt 9 (new (lit "G722") 8000); Ret (with_channels 1 c).
Definition OPUS : t := with_channels 2 (new (lit "OPUS") 48000).
Definition H264 : t := new (lit "H264") 90000.
Definition VP8 : t := new (lit "VP8") 90000.
Definition VP9 : t := new (lit "VP9") 90000.
Definition AV1 : t := new (lit "AV1") 90000.
End Codec.

Module Codecs.
Record t := { media_type : MediaType.t; codecs : list Codec.t; allow_dtmf : bool }.
#[global] Instance eta : Eta t := fun c => {|
  media_type := media_type c; codecs := codecs c; allow_dtmf := allow_dtmf c |}.
Definition new (media_type : MediaType.t) : t := {| media_type := media_type; codecs := []; allow_dtmf := false |}.
Definition set_allow_dtmf (dtmf : bool) (c : t) : t := c <| allow_dtmf := dtmf |>.
Definition add_codec (codec : Codec.t) (c : t) : t := c <| codecs := codecs c ++ [codec] |>.
End Codecs.

Module NegotiatedCodec.
Record t := {
  send_pt : Z; recv_pt : Z; name : str; clock_rate : Z; channels : option Z;
  send_fmtp : option str; recv_fmtp : option str }.
End NegotiatedCodec.

(** ** Directions (lib.rs) *)
Record DirectionBools := { send : bool; recv : bool }.
#[export] Instance DirectionBools_eq_dec : EqDecision DirectionBools.
Proof. solve_decision. Defined.
Definition direction_of (d : DirectionBools) : Direction.t :=
  match send d, recv d with
  | true, true => Direction.SendRecv
  | true, false => Direction.SendOnly
  | false, true => Direction.RecvOnly
  | false, false => Direction.Inactive
  end.
Definition bools_of (d : Direction.t) : DirectionBools :=
  match d with
  | Direction.SendRecv => {| send := true; recv := true |}
  | Direction.RecvOnly => {| send := false; recv := true |}
  | Direction.SendOnly => {| send := true; recv := false |}
  | Direction.Inactive => {| send := false; recv := false |}
  end.

(** ** local_media.rs *)
Module LocalMedia.
Record t := { codecs : Codecs.t; limit : Z; direction : DirectionBools; use_count : Z }.
#[global] Instance eta : Eta t := fun m => {|
  codecs := codecs m; limit := limit m; direction := direction m; use_count := use_count m |}.

(** The payload type of a codec in a description *)
Definition codec_pt_in (desc : MD) (codec : Codec.t) (pt : Z) : option Z :=
  if Codec.pt_is_static codec then
    if decide (pt ∈ Media.fmts (MediaDescription.media desc)) then Some pt else None
  else RtpMap.payload <$> (snd <$> list_find
         (fun rtpmap => RtpMap.encoding rtpmap = Codec.name codec /\ RtpMap.clock_rate rtpmap = Codec.clock_rate codec)
         (MediaDescription.rtpmap desc)).

(** What can be sent and received, by the direction of the peer *)
Definition negotiate_direction (desc : MD) (direction : DirectionBools) : DirectionBools :=
  match Direction.flipped (MediaDescription.direction desc) with
  | Direction.SendRecv => {| send := send direction; recv := recv direction |}
  | Direction.RecvOnly => {| send := false; recv := recv direction |}
  | Direction.SendOnly => {| send := send direction; recv := false |}
  | Direction.Inactive => {| send := false; recv := false |}
  end.

(** [choose_codec]: the loop over the codecs *)
Fixpoint choose_in (desc : MD) (direction : DirectionBools) (codecs : list Codec.t)
    : exec (option (Codec.t * Z * DirectionBools)) :=
  match codecs with
  | [] => Ret None
  | codec :: codecs =>
      pt ← unwrap (Codec.pt codec);
      match codec_pt_in desc codec pt with
      | None => choose_in desc direction codecs
      | Some codec_pt =>
          let d := negotiate_direction desc direction in
          if send d || recv d then Ret (Some (codec, codec_pt, d)) else Ret None
      end
  end.
Definition choose_codec (desc : MD) (m : t) : exec (option (Codec.t * Z * DirectionBools) * t) :=
  c ← choose_in desc (direction m) (Codecs.codecs (codecs m));
  Ret match c with
      | Some c => (Some c, m <| use_count := wrap 32 (use_count m + 1) |>)
      | None => (None, m)
      end.
Definition maybe_use_for_offer (desc : MD) (m : t) : exec (option (Codec.t * Z * DirectionBools) * t) :=
  if decide (limit m = use_count m \/ Codecs.media_type (codecs m) <> Media.media_type (MediaDescription.media desc))
  then Ret (None, m) else choose_codec desc m.
Definition choose_codec_from_answer (desc : MD) (m : t) : exec (option (Codec.t * Z * DirectionBools) * t) :=
  if decide (Codecs.media_type (codecs m) <> Media.media_type (MediaDescription.media desc))
  then Ret (None, m) else choose_codec desc m.
End LocalMedia.

(** ** events.rs *)
Inductive Event (K LK : Type) :=
| MediaAdded (id : Z) (transport_id : K) (local_media_id : LK) (direction : Direction.t) (codec : NegotiatedCodec.t)
| MediaChanged (id : Z) (old_direction new_direction : Direction.t)
| MediaRemoved (id : Z)
| TransportEvent (transport_id : K) (e : MediaTransport.TransportEvent)
| ReceiveRTP (media_id : Z) (packet : RtpPacket.t).
Arguments MediaAdded {K LK}.
Arguments MediaChanged {K LK}.
Arguments MediaRemoved {K LK}.
Arguments TransportEvent {K LK}.
Arguments ReceiveRTP {K LK}.

Definition is_avpf (p : TransportProtocol.t) : bool :=
  match p with
  | TransportProtocol.RtpAvpf | TransportProtocol.RtpSavpf | TransportProtocol.UdpTlsRtpSavpf => true
  | _ => false
  end.
Definition rtcp_interval (ty : MediaType.t) : Z := match ty with MediaType.Video => 1000000000 | _ => 5000000000 end.

Section session.
Context {S : Srtp} {B : Base64} {L : Ssl S} {RT : RtpTypes} {W : WireOps} {D : Dns} {A : Type} {I : IceOps A}.
Context {T : TimeCrate} {RW : RtcpWriter} {HO : HashOrder}.
Context {K : Type} {M : Type -> Type} {SM : Slots K M} {LK : Type} {LM : Type -> Type} {SLM : Slots LK LM}.
Local Notation Event := (Event K LK).
Local Notation Transport := (Transport A).
Local Notation TransportBuilder := (TransportBuilder A).

(** ** State (lib.rs) *)
Inductive TransportEntry := EntryTransport (t : Transport) | EntryBuilder (b : TransportBuilder).
Definition entry_type (e : TransportEntry) : TransportType :=
  match e with EntryTransport t => type_ t | EntryBuilder b => builder_type b end.
Definition entry_populate_desc (e : TransportEntry) (desc : MD) : MD :=
  match e with EntryTransport t => populate_desc t desc | EntryBuilder b => builder_populate_desc b desc end.
Definition entry_unwrap (e : TransportEntry) : exec Transport :=
  match e with EntryTransport t => Ret t | EntryBuilder _ => Panic end.
Definition entry_agent (e : TransportEntry) : option A :=
  match e with EntryTransport t => ice_agent t | EntryBuilder b => builder_agent b end.
Definition entry_ports (e : TransportEntry) : option Z * option Z :=
  match e with
  | EntryTransport t => (local_rtp_port t, local_rtcp_port t)
  | EntryBuilder b => (builder_rtp_port b, builder_rtcp_port b)
  end.
(** [ice_agent_mut] and what is done to the agent *)
Definition entry_with_agent (f : A -> A) (e : TransportEntry) : TransportEntry :=
  match e with
  | EntryTransport t => EntryTransport (update_agent f t)
  | EntryBuilder b => EntryBuilder (builder_update_agent f b)
  end.

Record ActiveMedia := {
  media_id : Z;
  local_media_id : LK;
  media_type : MediaType.t;
  rtp_session : RtpSession.t;
  avpf : bool;
  next_rtcp : Z;
  media_rtcp_interval : Z;
  mid : option str;
  direction : DirectionBools;
  media_transport : K;
  codec_pt : Z;
  codec : Codec.t }.
#[global] Instance active_eta : Eta ActiveMedia := fun m => {|
  media_id := media_id m; local_media_id := local_media_id m; media_type := media_type m; rtp_session := rtp_session m;
  avpf := avpf m; next_rtcp := next_rtcp m; media_rtcp_interval := media_rtcp_interval m; mid := mid m;
  direction := direction m; media_transport := media_transport m; codec_pt := codec_pt m; codec := codec m |}.

(** [ActiveMedia::matches] *)
Definition matches (transports : M TransportEntry) (desc : MD) (m : ActiveMedia) : exec bool :=
  if decide (media_type m <> Media.media_type (MediaDescription.media desc)) then Ret false
  else match zip (mid m) (MediaDescription.mid desc) with
       | Some (self_mid, desc_mid) => Ret (bool_decide (self_mid = desc_mid))
       | None =>
           entry ← unwrap (slots_get transports (media_transport m));
           Ret match entry with
               | EntryTransport t =>
                   bool_decide (IceAgent.addr_port (remote_rtp_address t) = Media.port (MediaDescription.media desc))
               | EntryBuilder _ => false
               end
       end.

Record PendingMedia := {
  pending_id : Z;
  pending_local_media_id : LK;
  pending_media_type : MediaType.t;
  pending_mid : str;
  pending_direction : Direction.t;
  use_avpf : bool;
  standalone_transport : option K;
  bundle_transport : K }.
Inductive PendingChange :=
| AddMedia (m : PendingMedia)
| RemoveMedia (id : Z)
| ChangeDirection (id : Z) (d : Direction.t).

(** [PendingMedia::matches_answer] *)
Definition matches_answer (transports : M TransportEntry) (desc : MD) (m : PendingMedia) : exec bool :=
  if decide (pending_media_type m <> Media.media_type (MediaDescription.media desc)) then Ret false
  else match MediaDescription.mid desc with
       | Some answer_mid => Ret (bool_decide (pending_mid m = answer_mid))
       | None =>
           let of_type entry := bool_decide (sdp_type (entry_type entry) (use_avpf m) = Media.proto (MediaDescription.media desc)) in
           standalone ← match standalone_transport m with
                        | Some id => entry ← unwrap (slots_get transports id); Ret (of_type entry)
                        | None => Ret false
                        end;
           if standalone : bool then Ret true
           else entry ← unwrap (slots_get transports (bundle_transport m)); Ret (of_type entry)
       end.

Record SdpSession := {
  options : Options.t;
  session_id : Z;
  version : Z;
  address : IpAddr;
  transport_state : SessionTransportState;
  next_pt : Z;
  local_media : LM LocalMedia.t;
  next_media_id : Z;
  state : list ActiveMedia;
  transports : M TransportEntry;
  pending_changes : list PendingChange;
  transport_changes : list (TransportChange K);
  session_events : list Event }.
#[global] Instance session_eta : Eta SdpSession := fun s => {|
  options := options s; session_id := session_id s; version := version s; address := address s;
  transport_state := transport_state s; next_pt := next_pt s; local_media := local_media s;
  next_media_id := next_media_id s; state := state s; transports := transports s;
  pending_changes := pending_changes s; transport_changes := transport_changes s; session_events := session_events s |}.

(** [new]; the two numbers are random. *)
Definition session_new (address : IpAddr) (options : Options.t) (id version : Z) : SdpSession := {|
  options := options; session_id := id; version := version; address := address; transport_state := default_state;
  next_pt := 96; local_media := slots_empty; next_media_id := 0; state := []; transports := slots_empty;
  pending_changes := []; transport_changes := []; session_events := [] |}.

Definition push_events (es : list Event) (s : SdpSession) : SdpSession :=
  s <| session_events := session_events s ++ es |>.
Definition push_changes (cs : list (TransportChange K)) (s : SdpSession) : SdpSession :=
  s <| transport_changes := transport_changes s ++ cs |>.
Definition set_state (ms : list ActiveMedia) (s : SdpSession) : SdpSession := s <| state := ms |>.
Definition set_local_media (ms : LM LocalMedia.t) (s : SdpSession) : SdpSession := s <| local_media := ms |>.
Definition set_transport_state (st : SessionTransportState) (s : SdpSession) : SdpSession :=
  s <| transport_state := st |>.
Definition set_transports (ts : M TransportEntry) (s : SdpSession) : SdpSession := s <| transports := ts |>.
Definition set_pending_changes (cs : list PendingChange) (s : SdpSession) : SdpSession := s <| pending_changes := cs |>.
Definition set_direction (d : DirectionBools) (m : ActiveMedia) : ActiveMedia := m <| direction := d |>.
Definition set_entry (k : K) (e : TransportEntry) (s : SdpSession) : SdpSession :=
  s <| transports := slots_set k e (transports s) |>.

(** [values_mut] on the transports *)
Definition map_entries (f : TransportEntry -> TransportEntry) (m : M TransportEntry) : M TransportEntry :=
  foldl (fun m '(k, e) => slots_set k (f e) m) m (slots_iter m).

Definition add_stun_server (server : SocketAddr) (s : SdpSession) : SdpSession :=
  let s := s <| transport_state := add_server server (transport_state s) |> in
  s <| transports := map_entries (entry_with_agent (ice_add_stun_server server)) (transports s) |>.

Definition is_add_media (c : PendingChange) : bool := match c with AddMedia _ => true | _ => false end.
Definition has_media (s : SdpSession) : bool :=
  negb (bool_decide (length (state s) = 0%nat)) || existsb is_add_media (pending_changes s).

(** [add_local_media]: the loop that gives numbers to the codecs; none if they
    run out *)
Fixpoint assign_pts (next_pt : Z) (codecs : list Codec.t) : option (list Codec.t * Z) :=
  match codecs with
  | [] => Some ([], next_pt)
  | codec :: codecs =>
      match Codec.pt codec with
      | Some _ => '(codecs, next_pt) ← assign_pts next_pt codecs; Some (codec :: codecs, next_pt)
      | None =>
          let codec := codec <| Codec.pt := Some next_pt |> in
          let next_pt := wrap 8 (next_pt + 1) in
          if decide (127 < next_pt) then None
          else '(codecs, next_pt) ← assign_pts next_pt codecs; Some (codec :: codecs, next_pt)
      end
  end.
Definition add_local_media (codecs : Codecs.t) (limit : Z) (d : Direction.t) (s : SdpSession) : option LK * SdpSession :=
  match assign_pts (next_pt s) (Codecs.codecs codecs) with
  | None => (None, s)
  | Some (cs, next) =>
      let s := s <| next_pt := next |> in
      let m := {| LocalMedia.codecs := codecs <| Codecs.codecs := cs |>; LocalMedia.limit := limit;
                  LocalMedia.direction := bools_of d; LocalMedia.use_count := 0 |} in
      (Some (slots_next (local_media s)), s <| local_media := slots_insert m (local_media s) |>)
  end.

(** [next_media_id.step()] *)
Definition step_media_id (s : SdpSession) : Z * SdpSession :=
  (next_media_id s, s <| next_media_id := wrap 32 (next_media_id s + 1) |>).

(** The insertion of a builder *)
Definition insert_builder (r : Random) (ty : TransportType) (s : SdpSession) : exec (K * SdpSession) :=
  let id := slots_next (transports s) in
  '(b, st, change) ← builder_new r id ty (Options.rtcp_mux_policy (options s)) (Options.offer_ice (options s)) (transport_state s);
  let s := push_changes [change] (set_transport_state st s) in
  Ret (id, set_transports (slots_insert (EntryBuilder b) (transports s)) s).

(** The type of transport to offer: the greatest there is *)
Definition max_type (l : list TransportType) : option TransportType :=
  foldl (fun o ty => match o with
                     | None => Some ty
                     | Some m => Some (if decide (type_num m <= type_num ty)%nat then ty else m)
                     end) None l.

(** [add_media] *)
Definition add_media (r : Random) (local_media_id : LK) (d : Direction.t) (s : SdpSession) : exec (Z * SdpSession) :=
  let '(media_id, s) := step_media_id s in
  let entries := slots_iter (transports s) in
  let transport_type := default (Options.offer_transport (options s)) (max_type (entry_type <$> entries.*2)) in
  let bundle_transport_id := fst <$> (snd <$> list_find (fun ke => entry_type ke.2 = transport_type) entries) in
  '(standalone, bundle, s) ← match Options.bundle_policy (options s) with
    | MaxCompat =>
        '(id, s) ← insert_builder r transport_type s; Ret (Some id, default id bundle_transport_id, s)
    | MaxBundle =>
        match bundle_transport_id with
        | Some existing => Ret (None, existing, s)
        | None => '(id, s) ← insert_builder r transport_type s; Ret (None, id, s)
        end
    end;
  m ← unwrap (slots_get (local_media s) local_media_id);
  Ret (media_id, s <| pending_changes := pending_changes s ++ [AddMedia {|
    pending_id := media_id; pending_local_media_id := local_media_id;
    pending_media_type := Codecs.media_type (LocalMedia.codecs m); pending_mid := print_uint media_id;
    pending_direction := d; use_avpf := Options.offer_avpf (options s);
    standalone_transport := standalone; bundle_transport := bundle |}] |>).

Definition has_id (id : Z) (m : ActiveMedia) : bool := bool_decide (media_id m = id).
Definition remove_media (id : Z) (s : SdpSession) : SdpSession :=
  if existsb (has_id id) (state s) then set_pending_changes (pending_changes s ++ [RemoveMedia id]) s else s.
Definition update_media (id : Z) (d : Direction.t) (s : SdpSession) : SdpSession :=
  if existsb (has_id id) (state s) then set_pending_changes (pending_changes s ++ [ChangeDirection id d]) s else s.

(** [transport_changes]: what has to be done is taken out. *)
Definition take_transport_changes (s : SdpSession) : list (TransportChange K) * SdpSession :=
  (transport_changes s, s <| transport_changes := @nil (TransportChange K) |>).

(** [set_transport_ports] *)
Definition add_host_addrs (ips : list IceStun.IpAddr) (rtp_port : Z) (rtcp_port : option Z) (a : A) : A :=
  foldl (fun a ip =>
           let a := ice_add_host_addr IceStun.Rtp (IceAgent.addr_new ip rtp_port) a in
           match rtcp_port with
           | Some rtcp_port => ice_add_host_addr IceStun.Rtcp (IceAgent.addr_new ip rtcp_port) a
           | None => a
           end) a ips.
Definition set_entry_ports (rtp_port : Z) (rtcp_port : option Z) (e : TransportEntry) : TransportEntry :=
  match e with
  | EntryTransport t => EntryTransport (set_ports rtp_port rtcp_port t)
  | EntryBuilder b => EntryBuilder (builder_set_ports rtp_port rtcp_port b)
  end.
Definition set_transport_ports (id : K) (ips : list IceStun.IpAddr) (rtp_port : Z) (rtcp_port : option Z) (s : SdpSession)
    : exec SdpSession :=
  e ← unwrap (slots_get (transports s) id);
  Ret (set_entry id (entry_with_agent (add_host_addrs ips rtp_port rtcp_port) (set_entry_ports rtp_port rtcp_port e)) s).

(** [timeout] *)
Fixpoint media_timeout (now : Z) (ms : list ActiveMedia) : exec (option Z) :=
  match ms with
  | [] => Ret None
  | m :: ms =>
      rtp ← RtpSession.pop_rtp_after now None (rtp_session m);
      rest ← media_timeout now ms;
      Ret (IceAgent.opt_min (IceAgent.opt_min rtp (Some (saturating_sub (next_rtcp m) now))) rest)
  end.
Definition session_timeout (now : Z) (s : SdpSession) : exec (option Z) :=
  let of_entry e := match e with EntryTransport t => transport_timeout now t | EntryBuilder b => builder_timeout now b end in
  let timeout := foldr (fun ke => IceAgent.opt_min (of_entry ke.2)) None (slots_iter (transports s)) in
  media ← media_timeout now (state s);
  Ret (IceAgent.opt_min timeout media).

(** [poll]: the transports, then the media *)
Definition poll_entry (tid : nat -> TransactionId) (now : Z) (e : TransportEntry) : exec TransportEntry :=
  match e with
  | EntryTransport t => t ← transport_poll tid now t; Ret (EntryTransport t)
  | EntryBuilder b => b ← builder_poll tid now b; Ret (EntryBuilder b)
  end.
Fixpoint poll_entries (tid : K -> nat -> TransactionId) (now : Z) (es : list (K * TransportEntry)) (m : M TransportEntry)
    : exec (M TransportEntry) :=
  match es with
  | [] => Ret m
  | (k, e) :: es => e ← poll_entry (tid k) now e; poll_entries tid now es (slots_set k e m)
  end.

(** [send_rtcp_report] *)
Definition send_rtcp_report (ntp_now : Z) (t : Transport) (m : ActiveMedia) : exec (Transport * ActiveMedia) :=
  let '(data, rtp) := write_rtcp_report ntp_now 65535 (rtp_session m) in
  let m := m <| rtp_session := rtp |> in
  match data with
  | None => Ret (t, m)
  | Some data => t ← transport_send_rtcp data t; Ret (t, m)
  end.
Fixpoint poll_media (now ntp_now : Z) (ms : list ActiveMedia) (s : SdpSession) : exec (list ActiveMedia * SdpSession) :=
  match ms with
  | [] => Ret ([], s)
  | m :: ms =>
      '(packet, rtp) ← RtpSession.pop_rtp now None (rtp_session m);
      let m := m <| rtp_session := rtp |> in
      let s := match packet with Some packet => push_events [ReceiveRTP (media_id m) packet] s | None => s end in
      '(m, s) ← if decide (next_rtcp m <= now) then
                  entry ← unwrap (slots_get (transports s) (media_transport m));
                  t ← entry_unwrap entry;
                  if decide (connection_state t = Connected) then
                    let m := m <| next_rtcp := next_rtcp m + media_rtcp_interval m |> in
                    '(t, m) ← send_rtcp_report ntp_now t m;
                    Ret (m, set_entry (media_transport m) (EntryTransport t) s)
                  else Ret (m, s)
                else Ret (m, s);
      '(ms, s) ← poll_media now ntp_now ms s;
      Ret (m :: ms, s)
  end.
Definition session_poll (tid : K -> nat -> TransactionId) (now ntp_now : Z) (s : SdpSession) : exec SdpSession :=
  es ← poll_entries tid now (slots_iter (transports s)) (transports s);
  let s := s <| transports := es |> in
  '(ms, s) ← poll_media now ntp_now (state s) s;
  Ret (s <| state := ms |>).

(** [pop_event]: the events of the transports first *)
Fixpoint pop_entry_event (es : list (K * TransportEntry)) (m : M TransportEntry) : exec (option Event * M TransportEntry) :=
  match es with
  | [] => Ret (None, m)
  | (k, e) :: es =>
      '(event, e) ← match e with
        | EntryTransport t => let '(event, t) := transport_pop_event t in Ret (event, EntryTransport t)
        | EntryBuilder b => '(event, b) ← builder_pop_event b; Ret (event, EntryBuilder b)
        end;
      let m := slots_set k e m in
      match event with
      | Some event => Ret (Some (TransportEvent k event), m)
      | None => pop_entry_event es m
      end
  end.
Definition session_pop_event (s : SdpSession) : exec (option Event * SdpSession) :=
  '(event, es) ← pop_entry_event (slots_iter (transports s)) (transports s);
  let s := s <| transports := es |> in
  Ret match event, session_events s with
      | Some event, _ => (Some event, s)
      | None, [] => (None, s)
      | None, event :: events => (Some event, s <| session_events := events |>)
      end.

(** [receive] *)
Definition update_media_at (f : ActiveMedia -> ActiveMedia) (i : nat) (s : SdpSession) : SdpSession :=
  s <| state := alter f i (state s) |>.
Definition by_mid (id : K) (packet : RtpPacket.t) (m : ActiveMedia) : bool :=
  bool_decide (media_transport m = id) &&
  match mid m, RtpPacket.mid (RtpPacket.extensions packet) with
  | Some a, Some b => bool_decide (a = b)
  | _, _ => false
  end.
Definition by_pt (id : K) (packet : RtpPacket.t) (m : ActiveMedia) : bool :=
  bool_decide (media_transport m = id) && bool_decide (codec_pt m = RtpPacket.pt packet).
Definition receive_rtp (now : Z) (id : K) (packet : RtpPacket.t) (s : SdpSession) : SdpSession :=
  match or_else (position (by_mid id packet) (state s)) (position (by_pt id packet) (state s)) with
  | Some i => update_media_at (fun m => m <| rtp_session := RtpSession.recv_rtp now packet (rtp_session m) |>) i s
  | None => s
  end.

(** The sender of the first packet of a compound, and the media it is of *)
Definition rtcp_sender (p : RtcpPacket) : option Z :=
  match p with
  | App | Bye | Sdes | UnknownRtcp => None
  | Rr ssrc | Sr ssrc | TransportFeedback ssrc | PayloadFeedback ssrc => Some ssrc
  end.
Definition has_ssrc (ssrc : Z) (m : ActiveMedia) : bool := bool_decide (ssrc ∈ RtpSession.remote_ssrc (rtp_session m)).
Definition receive_rtcp (ntp_now : Z) (packets : list RtcpPacket) (s : SdpSession) : SdpSession :=
  match packets with
  | [] => s
  | p :: _ =>
      match rtcp_sender p with
      | None => s
      | Some ssrc =>
          match position (has_ssrc ssrc) (state s) with
          | None => s
          | Some i =>
              update_media_at (fun m => m <| rtp_session :=
                foldl (fun rtp packet => RtpSession.recv_rtcp ntp_now packet rtp) (rtp_session m) packets |>) i s
          end
      end
  end.

(** [Compound::parse] of [rtcp_types] and its packets, none if it fails, is an
    argument. *)
Definition session_receive (parse_compound : list byte -> option (list RtcpPacket)) (now ntp_now : Z) (id : K)
    (pkt : IceAgent.ReceivedPkt.t (list byte)) (s : SdpSession) : exec SdpSession :=
  entry ← unwrap (slots_get (transports s) id);
  match entry with
  | EntryBuilder b => b ← builder_receive now pkt b; Ret (set_entry id (EntryBuilder b) s)
  | EntryTransport t =>
      '(r, t) ← transport_receive now pkt t;
      let s := set_entry id (EntryTransport t) s in
      Ret match r with
          | ReceivedRtp packet => receive_rtp now id packet s
          | ReceivedRtcp data =>
              match parse_compound data with Some packets => receive_rtcp ntp_now packets s | None => s end
          | TransportSpecific => s
          end
  end.

(** [send_rtp] *)
Definition session_send_rtp (ntp_now : Z) (id : Z) (packet : RtpPacket.t) (s : SdpSession) : exec SdpSession :=
  i ← unwrap (position (has_id id) (state s));
  m ← unwrap (state s !! i);
  entry ← unwrap (slots_get (transports s) (media_transport m));
  t ← entry_unwrap entry;
  let packet := {|
    RtpPacket.pt := RtpPacket.pt packet; RtpPacket.sequence_number := RtpPacket.sequence_number packet;
    RtpPacket.ssrc := RtpSession.ssrc (rtp_session m); RtpPacket.timestamp := RtpPacket.timestamp packet;
    RtpPacket.extensions := {| RtpPacket.mid := mid m |}; RtpPacket.payload := RtpPacket.payload packet |} in
  let s := update_media_at (fun m => m <| rtp_session := RtpSession.send_rtp ntp_now packet (rtp_session m) |>) i s in
  t ← transport_send_rtp packet t;
  Ret (set_entry (media_transport m) (EntryTransport t) s).

(** [ice_gathering_state], [ice_connection_state]: the least *)
Definition gathering_num (g : IceStun.IceGatheringState) : nat :=
  match g with IceStun.GatheringNew => 0 | IceStun.Gathering => 1 | IceStun.GatheringComplete => 2 end.
Definition connection_num (c : IceStun.IceConnectionState) : nat :=
  match c with
  | IceStun.ConnFailed => 0 | IceStun.ConnDisconnected => 1 | IceStun.ConnNew => 2 | IceStun.ConnChecking => 3
  | IceStun.ConnConnected => 4
  end.
Definition min_by {X} (f : X -> nat) (l : list X) : option X :=
  foldl (fun o x => match o with None => Some x | Some m => Some (if decide (f x < f m)%nat then x else m) end) None l.
Definition agents (s : SdpSession) : list A := omap entry_agent (slots_iter (transports s)).*2.
Definition session_gathering_state (s : SdpSession) : option IceStun.IceGatheringState :=
  min_by gathering_num (ice_gathering_state <$> agents s).
Definition session_connection_state (s : SdpSession) : option IceStun.IceConnectionState :=
  min_by connection_num (ice_connection_state <$> agents s).
End session.
