(* ===== verification/MediaOffer.v ===== *)
(** * Offers and answers of a media session (media/session/src/sdp.rs) *)
From S2P Require Import Prelude Wire Text StunHeader StunAttr JitterBuffer RtpExtensions RtpSession Slots.
From S2P Require IceStun IceAgent.
From S2P Require Import SdpFields SdpAttributes SdpCrypto SdpSession MediaKeys MediaTransport MediaSession.
Local Open Scope Z_scope.
Local Notation MD := MediaDescription.t.
Local Notation SD := SessionDescription.t.

(** [SdpAnswerState] *)
Inductive SdpResponseEntry :=
| Active (id : Z)
| Rejected (media_type : MediaType.t) (mid : option str).

(** [position] with a predicate that can panic, and the first media with an id *)
Fixpoint position_exec {X} (f : X -> exec bool) (l : list X) : exec (option nat) :=
  match l with
  | [] => Ret None
  | x :: l =>
      b ← f x;
      if b : bool then Ret (Some 0%nat)
      else i ← position_exec f l; Ret (option_map Datatypes.S i)
  end.

Section offer.
Context {S : Srtp} {B : Base64} {L : Ssl S} {RT : RtpTypes} {W : WireOps} {D : Dns} {A : Type} {I : IceOps A}.
Context {T : TimeCrate} {RW : RtcpWriter} {HO : HashOrder}.
Context {K : Type} {M : Type -> Type} {SM : Slots K M} {LK : Type} {LM : Type -> Type} {SLM : Slots LK LM}.
Local Notation SdpSession := (SdpSession (K := K) (M := M) (LK := LK) (LM := LM) (A := A)).
Local Notation ActiveMedia := (ActiveMedia (K := K) (LK := LK)).

(** [update_active_media] *)
Definition update_active_media (requested : DirectionBools) (id : Z) (s : SdpSession) : exec SdpSession :=
  i ← unwrap (position (has_id id) (state s));
  media ← unwrap (state s !! i);
  Ret (if decide (direction media = requested) then s
       else
         let s := push_events [MediaChanged id (direction_of (direction media)) (direction_of requested)] s in
         update_media_at (set_direction requested) i s).

(** [remove_unused_transports] *)
Definition in_use_by_active (s : SdpSession) (id : K) : bool :=
  existsb (fun m => bool_decide (media_transport m = id)) (state s).
Definition in_use_by_pending (s : SdpSession) (id : K) : bool :=
  existsb (fun c => match c with
                    | AddMedia m => bool_decide (bundle_transport m = id) || bool_decide (standalone_transport m = Some id)
                    | _ => false
                    end) (pending_changes s).
Definition in_use (s : SdpSession) (id : K) : bool := in_use_by_active s id || in_use_by_pending s id.
Definition remove_unused_transports (s : SdpSession) : SdpSession :=
  let removed := filter (fun id => in_use s id = false) (slots_iter (transports s)).*1 in
  let used := in_use s in
  let s := push_changes (Remove <$> removed) s in
  set_transports (slots_retain (fun id _ => used id) (transports s)) s.

(** [find_bundled_transport]: a media in the same group has it. *)
Definition bundles (mid : str) (g : Group.t) : Prop := Group.typ g = lit "BUNDLE" /\ mid ∈ Group.mids g.
#[global] Instance bundles_dec mid g : Decision (bundles mid g).
Proof. unfold bundles. apply _. Defined.
Definition in_group (group : Group.t) (m : ActiveMedia) : option K :=
  mid ← mid m; if decide (mid ∈ Group.mids group) then Some (media_transport m) else None.
Definition find_bundled_transport (new_state : list ActiveMedia) (offer : SD) (mid : str) (s : SdpSession) : option K :=
  group ← snd <$> list_find (bundles mid) (SessionDescription.group offer);
  head (omap (in_group group) (new_state ++ state s)).

(** [get_or_create_transport] *)
Definition get_or_create_transport (r : Random) (new_state : list ActiveMedia) (offer : SD) (desc : MD) (s : SdpSession)
    : exec (result Error (option K) * SdpSession) :=
  match mid ← MediaDescription.mid desc; find_bundled_transport new_state offer mid s with
  | Some id => Ret (Ok (Some id), s)
  | None =>
      let id := slots_next (transports s) in
      '(t, st, change) ← create_from_offer r id offer desc (transport_state s);
      let s := push_changes [change] (set_transport_state st s) in
      Ret match t with
          | Err e => (Err e, s)
          | Ok None => (Ok None, s)
          | Ok (Some t) => (Ok (Some id), set_transports (slots_insert (EntryTransport t) (transports s)) s)
          end
  end.

(** The local media that takes the description: the first that has a codec *)
Fixpoint find_local_media (desc : MD) (ms : list (LK * LocalMedia.t)) (m : LM LocalMedia.t)
    : exec (option (LK * (Codec.t * Z * DirectionBools)) * LM LocalMedia.t) :=
  match ms with
  | [] => Ret (None, m)
  | (id, local) :: ms =>
      '(config, local) ← LocalMedia.maybe_use_for_offer desc local;
      let m := slots_set id local m in
      match config with
      | Some config => Ret (Some (id, config), m)
      | None => find_local_media desc ms m
      end
  end.

(** The parameters of the format *)
Definition recv_fmtp_of (desc : MD) (pt : Z) : option str :=
  Fmtp.params <$> (snd <$> list_find (fun f => Fmtp.format f = pt) (MediaDescription.fmtp desc)).
Definition negotiated_codec (desc : MD) (codec : Codec.t) (pt : Z) : NegotiatedCodec.t := {|
  NegotiatedCodec.send_pt := pt; NegotiatedCodec.recv_pt := pt; NegotiatedCodec.name := Codec.name codec;
  NegotiatedCodec.clock_rate := Codec.clock_rate codec; NegotiatedCodec.channels := Codec.channels codec;
  NegotiatedCodec.send_fmtp := Codec.fmtp codec; NegotiatedCodec.recv_fmtp := recv_fmtp_of desc pt |}.

(** The media that a description makes *)
Definition new_media (now ssrc id : Z) (local : LK) (ty : MediaType.t) (avpf : bool) (desc : MD) (d : DirectionBools)
    (transport : K) (pt : Z) (codec : Codec.t) : ActiveMedia := {|
  media_id := id; local_media_id := local; media_type := ty;
  rtp_session := RtpSession.new ssrc (Codec.clock_rate codec); avpf := avpf;
  next_rtcp := now + 5000000000; media_rtcp_interval := rtcp_interval ty; mid := MediaDescription.mid desc;
  direction := d; media_transport := transport; codec_pt := pt; codec := codec |}.

(** *** [receive_sdp_offer]

    One m-line: it goes on with a media there is, it is rejected, or it makes a
    media. What is random is drawn for each line. *)
Definition reject (desc : MD) : SdpResponseEntry :=
  Rejected (Media.media_type (MediaDescription.media desc)) (MediaDescription.mid desc).
Definition receive_offer_line (r : Random) (ssrc now : Z) (offer : SD) (desc : MD) (new_state : list ActiveMedia)
    (s : SdpSession) : exec (result Error (SdpResponseEntry * list ActiveMedia) * SdpSession) :=
  let requested := bools_of (Direction.flipped (MediaDescription.direction desc)) in
  matched ← position_exec (matches (transports s) desc) (state s);
  match matched with
  | Some position =>
      media ← unwrap (state s !! position);
      s ← update_active_media requested (media_id media) s;
      media ← unwrap (state s !! position);
      let s := set_state (delete position (state s)) s in
      Ret (Ok (Active (media_id media), new_state ++ [media]), s)
  | None =>
      '(chosen, locals) ← find_local_media desc (slots_iter (local_media s)) (local_media s);
      let s := set_local_media locals s in
      match chosen with
      | None => Ret (Ok (reject desc, new_state), s)
      | Some (local, (codec, pt, negotiated)) =>
          let '(id, s) := step_media_id s in
          '(transport, s) ← get_or_create_transport r new_state offer desc s;
          match transport with
          | Err e => Ret (Err e, s)
          | Ok None => Ret (Ok (reject desc, new_state), s)
          | Ok (Some transport) =>
              let s := push_events [MediaAdded id transport local (direction_of negotiated) (negotiated_codec desc codec pt)] s in
              let media := new_media now ssrc id local (Media.media_type (MediaDescription.media desc))
                             (is_avpf (Media.proto (MediaDescription.media desc))) desc negotiated transport pt codec in
              Ret (Ok (Active id, new_state ++ [media]), s)
          end
      end
  end.
Fixpoint receive_offer_lines (rnd : nat -> Random * Z) (now : Z) (offer : SD) (descs : list MD)
    (new_state : list ActiveMedia) (response : list SdpResponseEntry) (s : SdpSession)
    : exec (result Error (list SdpResponseEntry * list ActiveMedia) * SdpSession) :=
  match descs with
  | [] => Ret (Ok (response, new_state), s)
  | desc :: descs =>
      let '(r, ssrc) := rnd (length response) in
      '(line, s) ← receive_offer_line r ssrc now offer desc new_state s;
      match line with
      | Err e => Ret (Err e, s)
      | Ok (entry, new_state) => receive_offer_lines rnd now offer descs new_state (response ++ [entry]) s
      end
  end.
(** The media that the offer does not have any more *)
Definition remove_one (m : ActiveMedia) (s : SdpSession) : exec SdpSession :=
  local ← unwrap (slots_get (local_media s) (local_media_id m));
  let local := local <| LocalMedia.use_count := wrap 32 (LocalMedia.use_count local - 1) |> in
  let s := set_local_media (slots_set (local_media_id m) local (local_media s)) s in
  Ret (push_events [MediaRemoved (media_id m)] s).
Definition receive_sdp_offer (rnd : nat -> Random * Z) (now : Z) (offer : SD) (s : SdpSession)
    : exec (result Error (list SdpResponseEntry) * SdpSession) :=
  '(lines, s) ← receive_offer_lines rnd now offer (SessionDescription.media_descriptions offer) [] [] s;
  match lines with
  | Err e => Ret (Err e, s)
  | Ok (response, new_state) =>
      let removed := state s in
      let s := set_state new_state s in
      s ← IceAgent.exec_fold remove_one removed s;
      Ret (Ok response, remove_unused_transports s)
  end.

(** *** Descriptions of the session *)

(** [media_description_for_active] *)
Definition fmtp_of (pt : Z) (codec : Codec.t) : list Fmtp.t :=
  match Codec.fmtp codec with Some param => [{| Fmtp.format := pt; Fmtp.params := param |}] | None => [] end.
Definition rtcp_of (port : option Z) : option Rtcp.t :=
  (fun port => {| Rtcp.port := port; Rtcp.address := None |}) <$> port.
Definition media_description_for_active (active : ActiveMedia) (override : option Direction.t) (s : SdpSession) : exec MD :=
  entry ← unwrap (slots_get (transports s) (media_transport active));
  transport ← entry_unwrap entry;
  port ← unwrap (local_rtp_port transport);
  Ret (populate_desc transport {|
    MediaDescription.media := {|
      Media.media_type := media_type active; Media.port := port; Media.ports_num := None;
      Media.proto := sdp_type (type_ transport) (avpf active); Media.fmts := [codec_pt active] |};
    MediaDescription.connection := None; MediaDescription.bandwidth := [];
    MediaDescription.direction := default (direction_of (direction active)) override;
    MediaDescription.rtcp := rtcp_of (local_rtcp_port transport);
    MediaDescription.rtcp_mux := bool_decide (remote_rtp_address transport = remote_rtcp_address transport);
    MediaDescription.mid := mid active;
    MediaDescription.rtpmap := [{|
      RtpMap.payload := codec_pt active; RtpMap.encoding := Codec.name (codec active);
      RtpMap.clock_rate := Codec.clock_rate (codec active); RtpMap.params := None |}];
    MediaDescription.fmtp := fmtp_of (codec_pt active) (codec active);
    MediaDescription.ice_ufrag := None; MediaDescription.ice_pwd := None; MediaDescription.ice_candidates := [];
    MediaDescription.ice_end_of_candidates := false; MediaDescription.crypto := []; MediaDescription.extmap := [];
    MediaDescription.extmap_allow_mixed := false; MediaDescription.ssrc := []; MediaDescription.setup := None;
    MediaDescription.fingerprint := []; MediaDescription.attributes := [] |}).

(** [build_bundle_groups]: the mids of each transport, in an order that is not
    specified *)
Fixpoint push_mid (id : K) (mid : str) (l : list (K * list str)) : list (K * list str) :=
  match l with
  | [] => [(id, [mid])]
  | (id', mids) :: l => if decide (id' = id) then (id', mids ++ [mid]) :: l else (id', mids) :: push_mid id mid l
  end.
Definition bundle_groups (s : SdpSession) (include_pending_changes : bool) : list (K * list str) :=
  let l := foldl (fun l m => match mid m with Some mid => push_mid (media_transport m) mid l | None => l end) [] (state s) in
  if include_pending_changes then
    foldl (fun l c => match c with AddMedia m => push_mid (bundle_transport m) (pending_mid m) l | _ => l end) l
      (pending_changes s)
  else l.
Definition build_bundle_groups (s : SdpSession) (include_pending_changes : bool) : list Group.t :=
  (fun mids => {| Group.typ := lit "BUNDLE"; Group.mids := mids |}) <$>
    filter (fun mids => mids <> []) (hash_order (bundle_groups s include_pending_changes).*2).

(** The description of the session *)
Definition session_description (include_pending_changes : bool) (descs : list MD) (s : SdpSession) : SD :=
  let credentials := head (ice_credentials <$> agents s) in {|
  SessionDescription.origin := {|
    Origin.username := lit "-"; Origin.session_id := print_uint (session_id s);
    Origin.session_version := print_uint (version s); Origin.address := TaggedAddress.from_ip (address s) |};
  SessionDescription.name := lit "-";
  SessionDescription.connection := Some {|
    Connection.address := TaggedAddress.from_ip (address s); Connection.ttl := None; Connection.num := None |};
  SessionDescription.bandwidth := []; SessionDescription.time := {| Time.start := 0; Time.stop := 0 |};
  SessionDescription.direction := Direction.SendRecv;
  SessionDescription.group := build_bundle_groups s include_pending_changes;
  SessionDescription.extmap := []; SessionDescription.extmap_allow_mixed := true; SessionDescription.ice_lite := false;
  SessionDescription.ice_options := IceOptions.default;
  SessionDescription.ice_ufrag := (fun c => {| IceUsernameFragment.ufrag := IceStun.ufrag c |}) <$> credentials;
  SessionDescription.ice_pwd := (fun c => {| IcePassword.pwd := IceStun.pwd c |}) <$> credentials;
  SessionDescription.setup := None; SessionDescription.fingerprint := []; SessionDescription.attributes := [];
  SessionDescription.media_descriptions := descs |}.

(** [create_sdp_answer] *)
Definition answer_description (s : SdpSession) (entry : SdpResponseEntry) : exec MD :=
  match entry with
  | Active id =>
      i ← unwrap (position (has_id id) (state s));
      active ← unwrap (state s !! i);
      media_description_for_active active None s
  | Rejected media_type mid => Ret ((MediaDescription.rejected media_type) <| MediaDescription.mid := mid |>)
  end.
Fixpoint exec_map {X Y} (f : X -> exec Y) (l : list X) : exec (list Y) :=
  match l with
  | [] => Ret []
  | x :: l => y ← f x; ys ← exec_map f l; Ret (y :: ys)
  end.
Definition create_sdp_answer (response : list SdpResponseEntry) (s : SdpSession) : exec SD :=
  descs ← exec_map (answer_description s) response;
  Ret (session_description false descs s).

(** [create_sdp_offer]: the [continue] for a [RemoveMedia] goes on with the
    changes, not with the media. *)
Definition override_direction (id : Z) (changes : list (PendingChange (K := K) (LK := LK))) : option Direction.t :=
  foldl (fun o c => match c with
                    | ChangeDirection media_id d => if decide (id = media_id) then Some d else o
                    | _ => o
                    end) None changes.
Definition codec_rtpmap (codec : Codec.t) : exec RtpMap.t :=
  pt ← unwrap (Codec.pt codec);
  Ret {| RtpMap.payload := pt; RtpMap.encoding := Codec.name codec; RtpMap.clock_rate := Codec.clock_rate codec;
         RtpMap.params := print_uint <$> Codec.channels codec |}.
Definition pending_description (m : PendingMedia (K := K) (LK := LK)) (s : SdpSession) : exec MD :=
  local ← unwrap (slots_get (local_media s) (pending_local_media_id m));
  transport ← unwrap (slots_get (transports s) (default (bundle_transport m) (standalone_transport m)));
  let '(local_rtp_port, local_rtcp_port) := entry_ports transport in
  let codecs := Codecs.codecs (LocalMedia.codecs local) in
  rtpmap ← exec_map codec_rtpmap codecs;
  port ← unwrap local_rtp_port;
  Ret (entry_populate_desc transport {|
    MediaDescription.media := {|
      Media.media_type := Codecs.media_type (LocalMedia.codecs local); Media.port := port; Media.ports_num := None;
      Media.proto := sdp_type (entry_type transport) (use_avpf m); Media.fmts := RtpMap.payload <$> rtpmap |};
    MediaDescription.connection := None; MediaDescription.bandwidth := [];
    MediaDescription.direction := pending_direction m;
    MediaDescription.rtcp := rtcp_of local_rtcp_port;
    MediaDescription.rtcp_mux := true;
    MediaDescription.mid := Some (pending_mid m);
    MediaDescription.rtpmap := rtpmap;
    MediaDescription.fmtp := concat (zip_with (fun r codec => fmtp_of (RtpMap.payload r) codec) rtpmap codecs);
    MediaDescription.ice_ufrag := None; MediaDescription.ice_pwd := None; MediaDescription.ice_candidates := [];
    MediaDescription.ice_end_of_candidates := false; MediaDescription.crypto := []; MediaDescription.extmap := [];
    MediaDescription.extmap_allow_mixed := false; MediaDescription.ssrc := []; MediaDescription.setup := None;
    MediaDescription.fingerprint := []; MediaDescription.attributes := [] |}).
Definition pending_added (s : SdpSession) : list (PendingMedia (K := K) (LK := LK)) :=
  omap (fun c => match c with AddMedia m => Some m | _ => None end) (pending_changes s).
Definition create_sdp_offer (s : SdpSession) : exec SD :=
  current ← exec_map (fun m => media_description_for_active m (override_direction (media_id m) (pending_changes s)) s) (state s);
  added ← exec_map (fun m => pending_description m s) (pending_added s);
  Ret (session_description true (current ++ added) s).

(** *** [receive_sdp_answer] *)
Definition pending_removal (s : SdpSession) (id : Z) : bool :=
  existsb (fun c => match c with RemoveMedia id' => bool_decide (id' = id) | _ => false end) (pending_changes s).
Definition is_bundled (answer : SD) (mid : str) : bool :=
  existsb (fun g => bool_decide (bundles mid g)) (SessionDescription.group answer).

(** The transport of a media that has been answered, built if it is not yet *)
Definition build_transport (r : Random) (now : Z) (answer : SD) (desc : MD) (id : K) (s : SdpSession) : exec SdpSession :=
  entry ← unwrap (slots_get (transports s) id);
  match entry with
  | EntryTransport _ => Ret s
  | EntryBuilder b =>
      let s := set_entry id (EntryBuilder placeholder) s in
      '(transport, st, changes) ← build_from_answer r now id answer desc (transport_state s) b;
      let s := push_changes changes (set_transport_state st s) in
      Ret (set_entry id (EntryTransport transport) s)
  end.
Definition receive_added (r : Random) (ssrc now : Z) (answer : SD) (desc : MD) (m : PendingMedia (K := K) (LK := LK))
    (s : SdpSession) : exec SdpSession :=
  id ← (if is_bundled answer (pending_mid m) then Ret (bundle_transport m) else unwrap (standalone_transport m));
  s ← build_transport r now answer desc id s;
  local ← unwrap (slots_get (local_media s) (pending_local_media_id m));
  '(config, local) ← LocalMedia.choose_codec_from_answer desc local;
  let s := set_local_media (slots_set (pending_local_media_id m) local (local_media s)) s in
  '(codec, pt, d) ← unwrap config;
  let s := push_events [MediaAdded (pending_id m) id (pending_local_media_id m) (direction_of d)
                          (negotiated_codec desc codec pt)] s in
  let media := new_media now ssrc (pending_id m) (pending_local_media_id m) (pending_media_type m) (use_avpf m)
                 desc d id pt codec in
  Ret (set_state (state s ++ [media]) s).
Definition receive_answer_line (r : Random) (ssrc now : Z) (answer : SD) (desc : MD) (s : SdpSession) : exec SdpSession :=
  if decide (MediaDescription.direction desc = Direction.Inactive) then Ret s
  else
    let requested := bools_of (Direction.flipped (MediaDescription.direction desc)) in
    matched ← position_exec (fun m => if pending_removal s (media_id m) then Ret false else matches (transports s) desc m)
                (state s);
    match matched with
    | Some i => media ← unwrap (state s !! i); update_active_media requested (media_id media) s
    | None =>
        matched ← position_exec (matches_answer (transports s) desc) (pending_added s);
        match matched with
        | Some i => m ← unwrap (pending_added s !! i); receive_added r ssrc now answer desc m s
        | None => Ret s
        end
    end.
Fixpoint receive_answer_lines (rnd : nat -> Random * Z) (mline : nat) (now : Z) (answer : SD) (descs : list MD)
    (s : SdpSession) : exec SdpSession :=
  match descs with
  | [] => Ret s
  | desc :: descs =>
      s ← receive_answer_line (rnd mline).1 (rnd mline).2 now answer desc s;
      receive_answer_lines rnd (Datatypes.S mline) now answer descs s
  end.
Definition receive_sdp_answer (rnd : nat -> Random * Z) (now : Z) (answer : SD) (s : SdpSession) : exec SdpSession :=
  s ← receive_answer_lines rnd 0 now answer (SessionDescription.media_descriptions answer) s;
  let s := set_pending_changes [] s in
  Ret (remove_unused_transports s).
End offer.
