(* ===== verification/MediaToy.v ===== *)
(** * Packages and sessions that compute, for the witnesses of the media session *)
From stdpp Require Import gmap.
From S2P Require Import Prelude Wire Text StunHeader StunAttr JitterBuffer RtpExtensions RtpSession Slots.
From S2P Require IceStun IceAgent.
From S2P Require Import SdpFields SdpAttributes SdpCrypto SdpSession MediaKeys MediaKeysProps MediaTransport.
From S2P Require Import MediaSession MediaOffer.
Local Open Scope Z_scope.
Import Toy.

(** A context is its certificate, a certificate is a byte. *)
#[export] Instance toy_ssl : Ssl srtp := {|
  SslContext := byte; X509 := byte; SslStream := unit;
  certificate_digest x digest := match digest with sha256 => Some [x] | _ => None end;
  context_certificate ctx := ctx;
  ssl_new ctx f := Some tt;
  ssl_connect s := DoWrite [x16] (DoRead 1 (fun r => Done (if r is Some _ then HandshakeDone else WantRead, s)));
  ssl_accept s := DoRead 1 (fun r => if r is Some _ then DoWrite [x16] (Done (HandshakeDone, s)) else Done (WantRead, s));
  session_pair s := Some ((aes_cm_128_hmac_sha1_80, []), (aes_cm_128_hmac_sha1_80, [])) |}.
#[export] Instance toy_rtp : RtpTypes := {| rtp_types_parse b := None; rtp_types_write p := Some (parsed_payload p) |}.
#[export] Instance toy_wire : WireOps := big_endian.
#[export] Instance toy_dns : Dns := fun name port => None.
#[export] Instance toy_time : TimeCrate := time_crate.
#[export] Instance toy_rtcp : RtcpWriter := fun r sdes n => Some [].
#[export] Instance toy_order : HashOrder := fun V l => l.

(** An agent with nothing but its credentials *)
#[export] Instance toy_ice : IceOps IceStun.IceCredentials := {|
  ice_new_for_offer c _ _ _ := c; ice_new_from_answer c _ _ _ _ := c; ice_add_stun_server _ a := a;
  ice_add_remote_candidate _ a := Ret a; ice_set_remote_data _ _ _ _ a := Ret a; ice_add_host_addr _ _ a := a;
  ice_receive _ _ a := Ret a; ice_poll _ _ a := Ret a; ice_pop_event a := (None, a); ice_timeout _ _ := None;
  ice_credentials a := a; ice_candidates _ := []; ice_gathering_state _ := IceStun.GatheringComplete;
  ice_connection_state _ := IceStun.ConnConnected; ice_pending _ := 0%nat |}.
#[export] Instance toy_ice_laws : IceLaws IceStun.IceCredentials.
Proof. split. done. Qed.

Notation ToySession := (SdpSession (S := srtp) (L := toy_ssl) (A := IceStun.IceCredentials)
  (K := nat) (M := gmap nat) (LK := nat) (LM := gmap nat)).

Definition toy_random (ctx : byte) : Random := {|
  random_context := ctx; random_credentials := {| IceStun.ufrag := lit "u"; IceStun.pwd := lit "p" |};
  random_tie_breaker := 0; random_key := fun _ => zeros |}.
Definition toy_rnd (ctx : byte) (mline : nat) : Random * Z := (toy_random ctx, 1000 + Z.of_nat mline).

(** Audio with three codecs and video with one; the transports are RTP or SRTP. *)
Definition toy_codec (name : string) (rate : Z) : Codec.t := Codec.new (lit name) rate.
Definition static_codec (name : string) (rate pt : Z) : Codec.t :=
  ((toy_codec name rate) <| Codec.pt := Some pt |>) <| Codec.pt_is_static := true |>.
Definition audio : Codecs.t := {|
  Codecs.media_type := MediaType.Audio;
  Codecs.codecs := [toy_codec "OPUS" 48000; static_codec "PCMA" 8000 8; static_codec "PCMU" 8000 0];
  Codecs.allow_dtmf := false |}.
Definition toy_options (ty : TransportType) : Options.t := {|
  Options.offer_transport := ty; Options.offer_ice := false; Options.offer_avpf := false;
  Options.rtcp_mux_policy := Negotiate; Options.bundle_policy := MaxCompat |}.

Definition ret {A} (d : A) (m : exec A) : A := match m with Ret a => a | Panic => d end.

(** The offerer asks for one audio media, over SRTP with keys. *)
Definition offerer0 : ToySession := session_new (IpV4 1) (toy_options SdesSrtp) 1 1.
Definition offerer1 : ToySession := (add_local_media audio 1 Direction.SendRecv offerer0).2.
Definition offerer2 : ToySession := (ret (0, offerer1) (add_media (toy_random x01) 0%nat Direction.SendRecv offerer1)).2.
Definition offerer3 : ToySession := ret offerer2 (set_transport_ports 0%nat [] 4000 (Some 4001) offerer2).
Definition offer : SessionDescription.t := ret (session_description true [] offerer3) (create_sdp_offer offerer3).

(** The answerer has audio with other preferences, and only receives. *)
Definition audio_reversed : Codecs.t := audio <| Codecs.codecs := reverse (Codecs.codecs audio) |>.
Definition answerer0 : ToySession := session_new (IpV4 2) (toy_options Rtp) 2 2.
Definition answerer1 : ToySession := (add_local_media audio_reversed 5 Direction.RecvOnly answerer0).2.
Definition answered := receive_sdp_offer (toy_rnd x02) 0 offer answerer1.
Definition answerer2 : ToySession := (ret (Err Io, answerer1) answered).2.
Definition response : list SdpResponseEntry := match ret (Err Io, answerer1) answered with (Ok r, _) => r | _ => [] end.
Definition answerer3 : ToySession := ret answerer2 (set_transport_ports 0%nat [] 5000 (Some 5001) answerer2).
Definition answer : SessionDescription.t := ret (session_description false [] answerer3) (create_sdp_answer response answerer3).

(** What is asked for, the local media of the two, and the lines of the offer
    and of the answer *)
Definition asked : PendingMedia (K := nat) (LK := nat) := {|
  pending_id := 0; pending_local_media_id := 0%nat; pending_media_type := MediaType.Audio; pending_mid := lit "0";
  pending_direction := Direction.SendRecv; use_avpf := false; standalone_transport := Some 0%nat; bundle_transport := 0%nat |}.
Definition no_media : LocalMedia.t := {|
  LocalMedia.codecs := audio; LocalMedia.limit := 0; LocalMedia.direction := {| send := false; recv := false |};
  LocalMedia.use_count := 0 |}.
Definition local_of (s : ToySession) : LocalMedia.t := default no_media (slots_get (local_media s) 0%nat).
Definition line_of (d : SessionDescription.t) : MediaDescription.t :=
  default (MediaDescription.rejected MediaType.Audio) (head (SessionDescription.media_descriptions d)).

(** The offerer with the answer *)
Definition offerer4 : ToySession := ret offerer3 (receive_sdp_answer (toy_rnd x03) 0 answer offerer3).

(** *** The steps do what they are to do. *)
Ltac by_computing x := let H := fresh in
  assert (match x with Ret _ => true | Panic => false end = true) as H by (vm_compute; reflexivity);
  destruct x; [reflexivity|discriminate H].

Lemma offerer2_eq : add_media (toy_random x01) 0%nat Direction.SendRecv offerer1 = Ret (0, offerer2).
Proof.
  unfold offerer2. assert (match add_media (toy_random x01) 0%nat Direction.SendRecv offerer1 with Ret (0, _) => true | _ => false end = true)
    as H by (vm_compute; reflexivity).
  destruct (add_media _ _ _ _) as [[[|?|?] ?]|]; (reflexivity || discriminate H).
Qed.
Lemma offerer3_eq : set_transport_ports 0%nat [] 4000 (Some 4001) offerer2 = Ret offerer3.
Proof. unfold offerer3. by_computing (set_transport_ports 0%nat [] 4000 (Some 4001) offerer2). Qed.
Lemma offer_eq : create_sdp_offer offerer3 = Ret offer.
Proof. unfold offer. by_computing (create_sdp_offer offerer3). Qed.
Lemma answered_eq : answered = Ret (Ok response, answerer2).
Proof.
  unfold response, answerer2. assert (match answered with Ret (Ok _, _) => true | _ => false end = true) as H by (vm_compute; reflexivity).
  destruct answered as [[[r|e] s]|]; (reflexivity || discriminate H).
Qed.
Lemma answerer3_eq : set_transport_ports 0%nat [] 5000 (Some 5001) answerer2 = Ret answerer3.
Proof. unfold answerer3. by_computing (set_transport_ports 0%nat [] 5000 (Some 5001) answerer2). Qed.
Lemma answer_eq : create_sdp_answer response answerer3 = Ret answer.
Proof. unfold answer. by_computing (create_sdp_answer response answerer3). Qed.
Lemma offerer4_eq : receive_sdp_answer (toy_rnd x03) 0 answer offerer3 = Ret offerer4.
Proof. unfold offerer4. by_computing (receive_sdp_answer (toy_rnd x03) 0 answer offerer3). Qed.
