(* ===== verification/MediaTransportProps.v ===== *)
(** * Theorems about media transports *)
From S2P Require Import Prelude Wire Text StunHeader StunAttr JitterBuffer RtpExtensions Slots.
From S2P Require IceStun IceAgent.
From S2P Require Import SdpFields SdpAttributes SdpCrypto SdpSession MediaKeys MediaKeysProps MediaTransport MediaSession MediaOffer MediaToy.
Local Open Scope Z_scope.
Local Notation MD := MediaDescription.t.
Local Notation SD := SessionDescription.t.

Section transport_props.
Context {S : Srtp} {B : Base64} {SL : SrtpLaws S} {BL : Base64Laws B} {L : Ssl S}.
Context {RT : RtpTypes} {W : WireOps} {D : Dns} {A : Type} {I : IceOps A} {IL : IceLaws A}.
Implicit Types (r : Random) (st : SessionTransportState) (desc : MD).

(** ** Events *)

(** The fuel of [pop_event] is enough: it stops at an event, or when the agent
    has none left. *)
Lemma pop_ice_event_enough n (t t' : Transport A) a a' :
  ice_agent t = Some a -> (ice_pending a < n)%nat -> pop_ice_event n t = (None, t') -> ice_agent t' = Some a' ->
  ice_pending a' = 0%nat.
Proof using IL.
  revert t a. induction n as [|n IH]; intros t a Ha Hn; [lia|]. cbn [pop_ice_event]. rewrite Ha.
  pose proof (ice_pop_event_pending a) as Hp. destruct (ice_pop_event a) as [[e|] a1]; cbn [fst snd] in Hp.
  - destruct e as [| |[] ?|]; try done; apply IH with (a := a1); (done || lia).
  - intros [= <-]. cbn [ice_agent]. intros [= <-]. by destruct Hp.
Qed.

(** ** The two sides of a transport *)

(** A certificate is accepted by who has read its fingerprint. *)
Lemma fingerprint_verifies r st f st' (sd : SD) desc :
  dtls_fingerprint r st = Ret (f, st') -> f ∈ MediaDescription.fingerprint desc ->
  verify (remote_fingerprints sd desc) (Some (context_certificate (get_ssl_context r st).1)) = true.
Proof.
  unfold dtls_fingerprint. destruct (get_ssl_context r st) as [ctx st1]. cbn [fst]. intros H Hin.
  apply exec_bind_Ret_inv in H as (digest & Hd & H). injection H as <- _. apply unwrap_Ret in Hd.
  cbn [verify]. apply existsb_exists. exists (sha256, digest). split; [|by apply bool_decide_eq_true].
  apply list_elem_of_In, list_elem_of_omap. eexists. split; [apply elem_of_app; right; exact Hin|].
  cbn. f_equal. f_equal. rewrite <-list_fmap_compose. rewrite <-(list_fmap_id digest) at 2.
  apply list_fmap_ext. intros _ b _. apply byte_of_val.
Qed.

(** What the line of the media does not have before the transport adds to it *)
Definition fresh_line desc : Prop :=
  MediaDescription.crypto desc = [] /\ MediaDescription.setup desc = None /\ MediaDescription.fingerprint desc = [].

Lemma populate_ice_keys (a : option A) desc :
  MediaDescription.crypto (populate_ice a desc) = MediaDescription.crypto desc /\
  MediaDescription.setup (populate_ice a desc) = MediaDescription.setup desc /\
  MediaDescription.fingerprint (populate_ice a desc) = MediaDescription.fingerprint desc /\
  MediaDescription.media (populate_ice a desc) = MediaDescription.media desc.
Proof. by destruct a. Qed.

Lemma builder_lines (b : TransportBuilder A) desc :
  fresh_line desc ->
  Media.proto (MediaDescription.media (builder_populate_desc b desc)) = Media.proto (MediaDescription.media desc) /\
  MediaDescription.crypto (builder_populate_desc b desc) =
    match builder_kind b with BuilderSdesSrtp offer => extend_crypto offer | _ => [] end /\
  MediaDescription.setup (builder_populate_desc b desc) =
    match builder_kind b with BuilderDtlsSrtp _ => Some Setup.ActPass | _ => None end /\
  MediaDescription.fingerprint (builder_populate_desc b desc) = match builder_kind b with BuilderDtlsSrtp f => f | _ => [] end.
Proof.
  intros (Hc & Hs & Hf). unfold builder_populate_desc.
  match goal with |- context [populate_ice ?a ?d] => destruct (populate_ice_keys a d) as (-> & -> & -> & ->) end.
  destruct (builder_kind b); cbn; by rewrite ?Hc, ?Hs, ?Hf.
Qed.
Lemma transport_lines (t : Transport A) desc :
  fresh_line desc ->
  MediaDescription.crypto (populate_desc t desc) = match kind t with KindSdesSrtp crypto _ _ => crypto | _ => [] end /\
  MediaDescription.setup (populate_desc t desc) = match kind t with KindDtlsSrtp _ setup _ _ => Some setup | _ => None end /\
  MediaDescription.fingerprint (populate_desc t desc) = match kind t with KindDtlsSrtp f _ _ _ => f | _ => [] end.
Proof.
  intros (Hc & Hs & Hf). unfold populate_desc.
  match goal with |- context [populate_ice ?a ?d] => destruct (populate_ice_keys a d) as (-> & -> & -> & _) end.
  destruct (kind t); cbn; by rewrite ?Hc, ?Hs, ?Hf.
Qed.

(** The kind of a new builder *)
Lemma builder_new_kind {Key} r (key : Key) ty policy ice st b st' change :
  builder_new r key ty policy ice st = Ret (b, st', change) ->
  match ty with
  | Rtp => builder_kind b = BuilderRtp
  | SdesSrtp => exists offer, sdes_offer_new (random_key r) = Ret offer /\ builder_kind b = BuilderSdesSrtp offer
  | DtlsSrtp => exists f st1, dtls_fingerprint r st = Ret (f, st1) /\ builder_kind b = BuilderDtlsSrtp [f]
  end.
Proof.
  unfold builder_new. intros H. apply exec_bind_Ret_inv in H as ([k st1] & Hk & H).
  assert (builder_kind b = k) as ->.
  { destruct ice; [destruct (get_credentials _ _)|]; by injection H as <- _ _. }
  destruct ty; [by injection Hk as <- _| |].
  - apply exec_bind_Ret_inv in Hk as (offer & Ho & Hk). injection Hk as <- _. eauto.
  - apply exec_bind_Ret_inv in Hk as ([f st2] & Hf & Hk). injection Hk as <- _. eauto.
Qed.

(** With DTLS, an offer that leaves the role open makes the answerer the server. *)
Lemma dtls_from_offer_actpass r (sd : SD) desc st k st' :
  MediaDescription.setup desc = Some Setup.ActPass ->
  dtls_srtp_from_offer r sd desc st = Ret (Ok k, st') ->
  exists f dtls st1 st2, k = KindDtlsSrtp [f] Setup.Passive dtls None /\
    dtls_fingerprint r st1 = Ret (f, st2) /\ (get_ssl_context r st1).1 = (get_ssl_context r st).1.
Proof.
  unfold dtls_srtp_from_offer. intros ->. destruct (get_ssl_context r st) as [ctx st1] eqn:E. intros H.
  apply exec_bind_Ret_inv in H as ([dtls|e] & _ & H); [|done].
  apply exec_bind_Ret_inv in H as ([f st2] & Hf & H). injection H as <- <-. exists f, dtls, st1, st2.
  split; [done|]. split; [done|]. unfold get_ssl_context in *. injection E as <- <-. done.
Qed.

(** The kinds of transport on two sides that fit: keys of SRTP that agree; with
    DTLS one side is the client and the other the server. *)
Inductive kinds_agree : TransportKind -> TransportKind -> Prop :=
| AgreeRtp : kinds_agree KindRtp KindRtp
| AgreeSdes c1 in1 out1 c2 in2 out2 :
    keys_agree in1 out1 in2 out2 -> kinds_agree (KindSdesSrtp c1 in1 out1) (KindSdesSrtp c2 in2 out2)
| AgreeDtls f1 dtls1 srtp1 f2 dtls2 srtp2 :
    kinds_agree (KindDtlsSrtp f1 Setup.Active dtls1 srtp1) (KindDtlsSrtp f2 Setup.Passive dtls2 srtp2).

(** C11: a transport that is offered and the one that is made for the offer fit.
    The builder of a type of transport describes itself in a line of the
    protocol of that type; if the answerer makes a transport of it, then what it
    describes in turn makes the offerer's transport: without SRTP, or with keys
    that agree, and then nothing can fail, or with DTLS, where the offerer is
    the client and the answerer the server, and each has the fingerprint of the
    certificate that the other shows. *)
Theorem transport_kinds_agree (Key : Type) r1 (key : Key) ty policy ice st1 b st1' change avpf (sd1 sd2 : SD) d1 d2 r2 st2 k2 st2' (t2 : Transport A) :
  (forall i n, length (random_key r1 i n) = n) -> (forall i n, length (random_key r2 i n) = n) ->
  builder_new r1 key ty policy ice st1 = Ret (b, st1', change) ->
  fresh_line d1 -> Media.proto (MediaDescription.media d1) = sdp_type ty avpf -> fresh_line d2 ->
  kind_for_offer r2 sd1 (builder_populate_desc b d1) st2 = Ret (Ok (Some k2), st2') -> kind t2 = k2 ->
  (forall r st k1 st', kind_for_answer r sd2 (populate_desc t2 d2) (builder_kind b) st = Ret (k1, st') -> kinds_agree k1 k2) /\
  (ty <> DtlsSrtp -> forall r st, exists k1, kind_for_answer r sd2 (populate_desc t2 d2) (builder_kind b) st = Ret (k1, st)) /\
  (ty = DtlsSrtp ->
     verify (remote_fingerprints sd1 (builder_populate_desc b d1)) (Some (context_certificate (get_ssl_context r1 st1).1)) = true /\
     verify (remote_fingerprints sd2 (populate_desc t2 d2)) (Some (context_certificate (get_ssl_context r2 st2).1)) = true).
Proof using SL BL.
  intros Hr1 Hr2 Hb Hd1 Hproto Hd2 Hk2 Ht2. apply builder_new_kind in Hb.
  destruct (builder_lines b d1 Hd1) as (Hp1 & Hc1 & Hs1 & Hf1). destruct (transport_lines t2 d2 Hd2) as (Hc2 & Hs2 & Hf2).
  rewrite Ht2 in *. unfold kind_for_offer in Hk2. rewrite Hp1, Hproto in Hk2. destruct ty.
  - assert (k2 = KindRtp) as -> by (destruct avpf; cbn in Hk2; congruence). rewrite Hb. cbn.
    split; [|split; [eauto|done]]. intros ? ? ? ? [= <- _]. constructor.
  - destruct Hb as (offer & Ho & Hb). rewrite Hb in *.
    assert (exists crypto inbound outbound, k2 = KindSdesSrtp crypto inbound outbound /\
      negotiate_from_offer (random_key r2 0) (extend_crypto offer) = Ret (Ok (crypto, inbound, outbound))) as (crypto & inb & outb & -> & Hn).
    { rewrite Hc1 in Hk2. destruct avpf; cbn in Hk2; apply exec_bind_Ret_inv in Hk2 as ([[[c i] o]|e] & Hn & Hk2); try done;
        injection Hk2 as <- _; eauto. }
    assert (extend_crypto offer <> []) as Hne by (rewrite sdes_offer_new_eq in Ho; injection Ho as <-; discriminate).
    destruct (sdes_agree_offered (random_key r1) (random_key r2 0) offer (extend_crypto offer)) as (an & in_a & out_a & cr & in_o & out_o & Hneg & Hrec & Hag & _); try done.
    rewrite Hn in Hneg. injection Hneg as -> -> ->. cbn [kind_for_answer]. rewrite Hc2, Hrec. cbn.
    split; [|split; [eauto|done]]. intros ? ? ? ? [= <- _]. by constructor.
  - destruct Hb as (f1 & st3 & Hfp1 & Hb). rewrite Hb in *.
    assert (exists k, dtls_srtp_from_offer r2 sd1 (builder_populate_desc b d1) st2 = Ret (Ok k, st2') /\ k2 = k) as (k & Hk & ->).
    { destruct avpf; cbn in Hk2; apply exec_bind_Ret_inv in Hk2 as ([[k|e] st4] & Hk & Hk2); try done;
        injection Hk2 as <- <-; eauto. }
    apply dtls_from_offer_actpass in Hk as (f2 & dtls & st4 & st5 & -> & Hfp2 & Hctx); [|done].
    split; [|split; [done|]].
    + intros r st k1 st'. cbn [kind_for_answer]. rewrite Hs2. cbn [mbind exec_bind]. destruct (get_ssl_context r st). intros H.
      apply exec_bind_Ret_inv in H as ([dtls1|e] & _ & H); [|done]. injection H as <- _. constructor.
    + intros _. split.
      * eapply fingerprint_verifies; [exact Hfp1|]. rewrite Hf1. left.
      * rewrite <-Hctx. eapply fingerprint_verifies; [exact Hfp2|]. rewrite Hf2. left.
Qed.

(** ** Packets that panic *)

(** The keys that a transport has for what it receives *)
Definition inbound_keys (t : Transport A) : option SrtpSession :=
  match kind t with
  | KindSdesSrtp _ inbound _ | KindDtlsSrtp _ _ _ (Some (inbound, _)) => Some inbound
  | _ => None
  end.
(** A step of the handshake that fails, or is done without keys *)
Definition handshake_fails (data : list byte) (dtls : DtlsSrtpSession) (p : io (Handshake * SslStream)) : Prop :=
  let '((h, stream), _) := run_io p {| IoQueue.to_read := Some data; IoQueue.out := IoQueue.out (queue dtls) |} in
  h = HandshakeError \/ h = HandshakeDone /\ session_pair stream = None.
Definition panics now (pkt : IceAgent.ReceivedPkt.t (list byte)) (t : Transport A) : Prop :=
  let data := IceAgent.ReceivedPkt.data pkt in
  match PacketKind.identify data with
  | PacketKind.Rtp => exists inbound, inbound_keys t = Some inbound /\ unprotect data inbound = None
  | PacketKind.Rtcp => exists inbound, inbound_keys t = Some inbound /\ unprotect_rtcp data inbound = None
  | PacketKind.Stun => exists agent, ice_agent t = Some agent /\ ice_receive now pkt agent = Panic
  | PacketKind.Dtls => IceAgent.ReceivedPkt.component pkt = IceStun.Rtp /\
      exists fingerprint setup dtls srtp, kind t = KindDtlsSrtp fingerprint setup dtls srtp /\
        (is_Some (IoQueue.to_read (queue dtls)) \/
         match dtls_state dtls with
         | MediaKeys.Connecting => handshake_fails data dtls (ssl_connect (stream dtls))
         | MediaKeys.Accepting => handshake_fails data dtls (ssl_accept (stream dtls))
         | MediaKeys.Connected | MediaKeys.Failed => True
         end)
  | PacketKind.Unknown => False
  end.

Lemma bind_Panic {X Y} (x : exec X) (f : X -> exec Y) : (forall v, f v <> Panic) -> mbind f x = Panic <-> x = Panic.
Proof. intros Hf. destruct x as [v|]; [|done]. cbn. split; [intros H; by destruct (Hf v)|done]. Qed.

Lemma unprotected_Panic f data (t : Transport A) :
  unprotected f data t = Panic <-> exists inbound, inbound_keys t = Some inbound /\ f data inbound = None.
Proof.
  unfold unprotected, inbound_keys. destruct (kind t) as [|crypto inbound outbound|fingerprint setup dtls [[inbound outbound]|]];
    try (split; [done|by intros (? & [=] & _)]);
    (destruct (f data inbound) as [[data' inbound']|] eqn:E; cbn; split; [done|intros (? & [= <-] & ?); congruence|eauto|done]).
Qed.

Lemma handshake_Panic data dtls :
  IoQueue.to_read (queue dtls) = None ->
  ('(r, dtls) ← handshake {| stream := stream dtls;
       queue := {| IoQueue.to_read := Some data; IoQueue.out := IoQueue.out (queue dtls) |}; dtls_state := dtls_state dtls |};
   pair ← unwrap_res r; Ret (pair, dtls)) = Panic <->
  match dtls_state dtls with
  | MediaKeys.Connecting => handshake_fails data dtls (ssl_connect (stream dtls))
  | MediaKeys.Accepting => handshake_fails data dtls (ssl_accept (stream dtls))
  | MediaKeys.Connected | MediaKeys.Failed => True
  end.
Proof.
  intros Hq. unfold handshake, handshake_fails. cbn [dtls_state stream queue].
  destruct (dtls_state dtls); try done;
    (destruct (run_io _ _) as [[[| |] stream'] q]; cbn;
      [destruct (session_pair stream') as [p|] eqn:E; cbn|..]; split; try done; try tauto; try (intros [?|[? ?]]; done)).
Qed.
Lemma transport_receive_Panic now pkt (t : Transport A) : transport_receive now pkt t = Panic <-> panics now pkt t.
Proof.
  unfold transport_receive, panics. destruct (PacketKind.identify _).
  - rewrite bind_Panic by (by intros []). apply unprotected_Panic.
  - rewrite bind_Panic by (by intros []). apply unprotected_Panic.
  - destruct (ice_agent t) as [a|]; [|by split; [|intros (? & [=] & _)]]. rewrite bind_Panic by done. naive_solver.
  - destruct (IceAgent.ReceivedPkt.component pkt); [|by split; [|intros ([=] & _)]].
    destruct (kind t) as [| |fingerprint setup dtls srtp]; [by split; [|intros (_ & ? & ? & ? & ? & [=] & _)]..|].
    unfold dtls_receive. destruct (IoQueue.to_read (queue dtls)) as [x|] eqn:Eq; cbn [mbind exec_bind].
    { split; [|done]. intros _. split; [done|]. exists fingerprint, setup, dtls, srtp. rewrite Eq. split; [done|]. left. eauto. }
    transitivity (('(r, dtls) ← handshake {| stream := stream dtls;
        queue := {| IoQueue.to_read := Some (IceAgent.ReceivedPkt.data pkt); IoQueue.out := IoQueue.out (queue dtls) |};
        dtls_state := dtls_state dtls |}; pair ← unwrap_res r; Ret (pair, dtls)) = Panic).
    { destruct (handshake _) as [[r d]|]; [|done]. cbn. by destruct (unwrap_res r). }
    rewrite handshake_Panic by done. split.
    + intros H. split; [done|]. exists fingerprint, setup, dtls, srtp. split; [done|by right].
    + intros (_ & ? & ? & ? & ? & [= <- <- <- <-] & [H|H]); [|done]. rewrite Eq in H. by destruct H.
  - done.
Qed.

Lemma send_dtls_kind datas (t : Transport A) : kind (send_dtls datas t) = kind t.
Proof. unfold send_dtls. revert t. induction datas as [|data datas IH]; intros t; [done|]. cbn [foldl]. by rewrite IH. Qed.

(** The keys come with the end of the handshake. *)
Lemma keys_connected now pkt (t t' : Transport A) (res : ReceivedPacket) (inbound : SrtpSession) :
  inbound_keys t = None -> transport_receive now pkt t = Ret (res, t') -> inbound_keys t' = Some inbound ->
  exists fingerprint setup dtls srtp, kind t' = KindDtlsSrtp fingerprint setup dtls srtp /\ dtls_state dtls = MediaKeys.Connected.
Proof.
  intros Hk H Hk'. unfold transport_receive in H.
  assert (forall f data, unprotected f data t = Ret (data, t) \/ exists inbound, inbound_keys t = Some inbound) as Hun.
  { intros f data. unfold unprotected, inbound_keys. destruct (kind t) as [| |? ? ? [[]|]]; eauto. }
  destruct (PacketKind.identify _).
  - destruct (Hun unprotect (IceAgent.ReceivedPkt.data pkt)) as [E|[? E]]; [|congruence].
    rewrite E in H. injection H as _ <-. congruence.
  - destruct (Hun unprotect_rtcp (IceAgent.ReceivedPkt.data pkt)) as [E|[? E]]; [|congruence].
    rewrite E in H. injection H as _ <-. congruence.
  - destruct (ice_agent t) as [ag|]; [|injection H as _ <-; congruence]. apply exec_bind_Ret_inv in H as (ag' & _ & H).
    injection H as _ <-. change (inbound_keys t = Some inbound) in Hk'. congruence.
  - destruct (IceAgent.ReceivedPkt.component pkt); [|injection H as _ <-; congruence]. unfold inbound_keys in *.
    destruct (kind t) as [| |fingerprint setup dtls srtp] eqn:Ek; [injection H as _ <-; by rewrite Ek in Hk'..|].
    apply exec_bind_Ret_inv in H as (d1 & Hd1 & H). apply exec_bind_Ret_inv in H as ([x d2] & Hh & H).
    apply exec_bind_Ret_inv in H as (pair & Hp & H). injection H as _ <-. rewrite send_dtls_kind in *. cbn [kind] in *.
    do 4 eexists. split; [done|]. cbn [dtls_state]. destruct srtp as [[]|]; [done|]. destruct pair as [pair|]; [|done].
    unfold handshake in Hh. destruct (dtls_state d1).
    + destruct (run_io _ _) as [[[| |] s] q]; [|by injection Hh as <- _|by injection Hh as <- _].
      apply exec_bind_Ret_inv in Hh as (? & _ & Hh). by injection Hh as _ <-.
    + destruct (run_io _ _) as [[[| |] s] q]; [|by injection Hh as <- _|by injection Hh as <- _].
      apply exec_bind_Ret_inv in Hh as (? & _ & Hh). by injection Hh as _ <-.
    + destruct (IoQueue.to_read _); [done|by injection Hh as <- _].
    + destruct (IoQueue.to_read _); [done|by injection Hh as <- _].
  - injection H as _ <-. congruence.
Qed.

(** C12: the packets that make a session panic, whoever sends them: of RTP and RTCP those that do not
    authenticate once there are keys, whether from the description or from DTLS; of STUN those that make the
    agent panic; of DTLS, on the component of RTP, those that fail the handshake, and every one that comes
    when the handshake is over or when a packet has been left unread. All other packets are taken, what
    cannot be parsed is dropped. In particular, once DTLS has given the keys, every further packet of DTLS
    panics, and so does every packet of RTP or RTCP that does not authenticate. *)
Theorem peer_panics_transport now (pkt : IceAgent.ReceivedPkt.t (list byte)) (t : Transport A) :
  (forall (K : Type) (M : Type -> Type) (SM : Slots K M) (LK : Type) (LM : Type -> Type) (SLM : Slots LK LM)
     (s : SdpSession (K := K) (M := M) (LK := LK) (LM := LM) (A := A)) (k : K) parse ntp_now,
     slots_get (transports s) k = Some (EntryTransport t) ->
     session_receive parse now ntp_now k pkt s = Panic <-> panics now pkt t) /\
  (forall (res : ReceivedPacket) t' inbound, inbound_keys t = None -> transport_receive now pkt t = Ret (res, t') -> inbound_keys t' = Some inbound ->
     forall now' pkt', let data := IceAgent.ReceivedPkt.data pkt' in
       (PacketKind.identify data = PacketKind.Dtls /\ IceAgent.ReceivedPkt.component pkt' = IceStun.Rtp) \/
       (PacketKind.identify data = PacketKind.Rtp /\ unprotect data inbound = None) \/
       (PacketKind.identify data = PacketKind.Rtcp /\ unprotect_rtcp data inbound = None) ->
       panics now' pkt' t').
Proof.
  split.
  - intros K M SM LK LM SLM s k parse ntp_now Hk. unfold session_receive. rewrite Hk. cbn [unwrap mbind exec_bind].
    rewrite bind_Panic by (by intros []). apply transport_receive_Panic.
  - intros res t' inbound Hk H Hk' now' pkt' data Hpkt. unfold panics. subst data.
    destruct Hpkt as [[-> Hc]|[[-> Hu]|[-> Hu]]]; [|by exists inbound..]. split; [done|].
    destruct (keys_connected _ _ _ _ _ _ Hk H Hk') as (fingerprint & setup & dtls & srtp & Hkind & Hst).
    exists fingerprint, setup, dtls, srtp. split; [done|]. right. by rewrite Hst.
Qed.
End transport_props.

Import MediaKeysProps.Toy.

(** SRTP with keys, without ICE *)
Definition toy_line : MD := MediaDescription.empty {|
  Media.media_type := MediaType.Audio; Media.port := 4000; Media.ports_num := None;
  Media.proto := TransportProtocol.RtpSavp; Media.fmts := [0] |} Direction.SendRecv.
Lemma transport_kinds_agree_witness :
  exists b k2 st2' k1, kind_for_offer (toy_random x02) offer (builder_populate_desc (A := IceStun.IceCredentials) b toy_line) default_state = Ret (Ok (Some k2), st2') /\
    kinds_agree k1 k2.
Proof.
  assert (exists b st change, builder_new (A := IceStun.IceCredentials) (toy_random x01) 0%nat SdesSrtp Negotiate false default_state = Ret (b, st, change))
    as (b & st & change & Hb) by (do 3 eexists; reflexivity).
  assert (exists k2 st2', kind_for_offer (toy_random x02) offer (builder_populate_desc b toy_line) default_state = Ret (Ok (Some k2), st2'))
    as (k2 & st2' & Hk2) by (vm_compute in Hb; injection Hb as <- _ _; do 2 eexists; vm_compute; reflexivity).
  destruct (transport_kinds_agree nat (toy_random x01) 0%nat SdesSrtp Negotiate false default_state b st change false offer offer
              toy_line toy_line (toy_random x02) default_state k2 st2'
              {| local_rtp_port := None; local_rtcp_port := None; remote_rtp_address := V4 1 1; remote_rtcp_address := V4 1 1;
                 rtcp_mux := false; ice_agent := None; negotiated_extension_ids := {| mid_id := None |};
                 connection_state := New; kind := k2; events := [] |}) as (Hagree & Hex & _); try reflexivity.
  - intros. apply length_replicate.
  - intros. apply length_replicate.
  - exact Hb.
  - split; [reflexivity|]. split; reflexivity.
  - split; [reflexivity|]. split; reflexivity.
  - exact Hk2.
  - destruct (Hex ltac:(discriminate) (toy_random x01) default_state) as (k1 & Hk1).
    exists b, k2, st2', k1. split; [exact Hk2|]. exact (Hagree _ _ _ _ Hk1).
Defined.

(** Both, with a session of SRTP that takes nothing and a packet of DTLS *)
Definition strict : Srtp := {|
  SrtpSession := unit; key_len _ := 0%nat; with_inbound_template _ _ := Some tt; with_outbound_template _ _ := Some tt;
  unprotect _ _ := None; unprotect_rtcp _ _ := None; protect data s := Some (data, s); protect_rtcp data s := Some (data, s) |}.
Definition strict_ssl : Ssl strict := {|
  SslContext := unit; X509 := unit; SslStream := unit; certificate_digest _ _ := None; context_certificate _ := tt;
  ssl_new _ _ := Some tt; ssl_connect s := Done (HandshakeDone, s); ssl_accept s := Done (HandshakeDone, s);
  session_pair _ := Some ((tt : @SrtpSession strict), (tt : @SrtpSession strict)) |}.
Definition strict_transport (k : TransportKind (S := strict) (L := strict_ssl)) : @Transport strict strict_ssl IceStun.IceCredentials := {|
  local_rtp_port := None; local_rtcp_port := None; remote_rtp_address := V4 1 1; remote_rtcp_address := V4 1 1;
  rtcp_mux := false; ice_agent := None; negotiated_extension_ids := {| mid_id := None |};
  connection_state := Connected; kind := k; events := [] |}.
Definition strict_packet (data : list byte) : IceAgent.ReceivedPkt.t (list byte) := {|
  IceAgent.ReceivedPkt.data := data; IceAgent.ReceivedPkt.source := V4 1 1; IceAgent.ReceivedPkt.destination := V4 2 2;
  IceAgent.ReceivedPkt.component := IceStun.Rtp |}.
Definition strict_sdes : @TransportKind strict strict_ssl := @KindSdesSrtp strict strict_ssl [] tt tt.
Definition strict_session : @DtlsSrtpSession strict strict_ssl :=
  @Build_DtlsSrtpSession strict strict_ssl tt IoQueue.empty MediaKeys.Accepting.
Definition strict_dtls : @TransportKind strict strict_ssl :=
  @KindDtlsSrtp strict strict_ssl [] Setup.Active strict_session None.
(** The second packet of DTLS, and a packet of RTP that does not authenticate *)
Lemma peer_panics_transport_witness :
  exists r t', transport_receive 0 (strict_packet [x16; xfe]) (strict_transport strict_dtls) = Ret (r, t') /\
    panics 0 (strict_packet [x15; xfe]) t' /\ panics 0 (strict_packet [x80; x00]) t'.
Proof.
  destruct (transport_receive 0 (strict_packet [x16; xfe]) (strict_transport strict_dtls)) as [[r t']|] eqn:E;
    [|vm_compute in E; discriminate E].
  exists r, t'. split; [reflexivity|].
  assert (inbound_keys t' = Some (tt : @SrtpSession strict)) as Hk by (vm_compute in E; injection E as _ <-; reflexivity).
  pose proof (proj2 (peer_panics_transport 0 (strict_packet [x16; xfe]) (strict_transport strict_dtls)) r t' tt eq_refl E Hk) as H.
  split; apply H; [left; split; reflexivity|right; left; split; reflexivity].
Defined.
