(* ===== verification/MediaIce.v ===== *)
(** * The ICE agent of a media transport

    The agent of IceAgent is what a transport needs: the interface of
    MediaTransport, and its laws. Session descriptions and the agent have
    the same candidates. *)
From S2P Require Import Prelude Wire Text StunHeader StunAttr StunAuth SdpFields SdpAttributes MediaTransport MediaTransportProps.
From S2P Require IceStun IceAgent.
Local Open Scope Z_scope.

Definition ip_to_agent (a : IpAddr) : IceStun.IpAddr := match a with IpV4 ip => IceStun.IPv4 ip | IpV6 ip => IceStun.IPv6 ip end.
Definition ip_of_agent (a : IceStun.IpAddr) : IpAddr := match a with IceStun.IPv4 ip => IpV4 ip | IceStun.IPv6 ip => IpV6 ip end.
Definition address_to_agent (a : UntaggedAddress.t) : IceAgent.UntaggedAddress :=
  match a with
  | UntaggedAddress.Fqdn name => IceAgent.Fqdn name
  | UntaggedAddress.IpAddress ip => IceAgent.IpAddress (ip_to_agent ip)
  end.
Definition address_of_agent (a : IceAgent.UntaggedAddress) : UntaggedAddress.t :=
  match a with
  | IceAgent.Fqdn name => UntaggedAddress.Fqdn name
  | IceAgent.IpAddress ip => UntaggedAddress.IpAddress (ip_of_agent ip)
  end.
(** The extensions of a candidate are not read, and there are none in what the
    agent gives. *)
Definition candidate_to_agent (c : IceCandidate.t) : IceAgent.IceCandidate.t := {|
  IceAgent.IceCandidate.foundation := IceCandidate.foundation c; IceAgent.IceCandidate.component := IceCandidate.component c;
  IceAgent.IceCandidate.transport := IceCandidate.transport c; IceAgent.IceCandidate.priority := IceCandidate.priority c;
  IceAgent.IceCandidate.address := address_to_agent (IceCandidate.address c); IceAgent.IceCandidate.port := IceCandidate.port c;
  IceAgent.IceCandidate.typ := IceCandidate.typ c; IceAgent.IceCandidate.rel_addr := address_to_agent <$> IceCandidate.rel_addr c;
  IceAgent.IceCandidate.rel_port := IceCandidate.rel_port c |}.
Definition candidate_of_agent (c : IceAgent.IceCandidate.t) : IceCandidate.t := {|
  IceCandidate.foundation := IceAgent.IceCandidate.foundation c; IceCandidate.component := IceAgent.IceCandidate.component c;
  IceCandidate.transport := IceAgent.IceCandidate.transport c; IceCandidate.priority := IceAgent.IceCandidate.priority c;
  IceCandidate.address := address_of_agent (IceAgent.IceCandidate.address c); IceCandidate.port := IceAgent.IceCandidate.port c;
  IceCandidate.typ := IceAgent.IceCandidate.typ c; IceCandidate.rel_addr := address_of_agent <$> IceAgent.IceCandidate.rel_addr c;
  IceCandidate.rel_port := IceAgent.IceCandidate.rel_port c; IceCandidate.unknown := [] |}.

(** What the agent gives is read back as it is. *)
Lemma candidate_roundtrip c : candidate_to_agent (candidate_of_agent c) = c.
Proof.
  assert (forall a, address_to_agent (address_of_agent a) = a) as Ha by (intros [|[]]; done).
  destruct c as [? ? ? ? addr ? ? rel ?]. unfold candidate_to_agent, candidate_of_agent. cbn. rewrite Ha. f_equal.
  destruct rel; cbn; by rewrite ?Ha.
Qed.

Section agent.
Context {W : WireOps} (Sha1 : Digest) {F : IceAgent.Foundation}.
Context {L R LMap RMap : Type} {SP : IceAgent.SortPairs L R} {LM : IceAgent.SlotMap L LMap} {RM : IceAgent.SlotMap R RMap}.

#[export] Instance agent_ops : IceOps (IceAgent.IceAgent (LocalCandidateId := L) (RemoteCandidateId := R) (LocalMap := LMap) (RemoteMap := RMap)) := {|
  ice_new_for_offer := IceAgent.new_for_offer;
  ice_new_from_answer := IceAgent.new_from_answer;
  ice_add_stun_server := IceAgent.add_stun_server;
  ice_add_remote_candidate c a := IceAgent.add_remote_candidate (candidate_to_agent c) a;
  ice_set_remote_data now credentials cs mux a :=
    IceAgent.set_remote_data Sha1 now credentials (candidate_to_agent <$> cs) mux a;
  ice_add_host_addr := IceAgent.add_host_addr;
  ice_receive := IceAgent.receive Sha1;
  ice_poll := IceAgent.poll Sha1;
  ice_pop_event := IceAgent.pop_event;
  ice_timeout := IceAgent.timeout;
  ice_credentials := IceAgent.local_credentials;
  ice_candidates a := candidate_of_agent <$> IceAgent.ice_candidates a;
  ice_gathering_state := IceAgent.gathering_state;
  ice_connection_state := IceAgent.connection_state;
  ice_pending a := length (IceAgent.events a) |}.

#[export] Instance agent_laws : IceLaws IceAgent.IceAgent.
Proof.
  split. intros a. cbn. unfold IceAgent.pop_event. destruct (IceAgent.events a) as [|e es] eqn:E; cbn; by rewrite ?E.
Qed.

(** So a transport with this agent stops at an event, or when the agent has
    none left. *)
Lemma agent_events_enough `{Sr : MediaKeys.Srtp, !MediaKeys.Ssl Sr} (t t' : Transport IceAgent.IceAgent) n a a' :
  ice_agent t = Some a -> (length (IceAgent.events a) < n)%nat -> pop_ice_event n t = (None, t') -> ice_agent t' = Some a' ->
  IceAgent.events a' = [].
Proof.
  intros Ha Hn Hpop Ha'. apply nil_length_inv. exact (pop_ice_event_enough n t t' a a' Ha Hn Hpop Ha').
Qed.
End agent.
