(* ===== verification/MediaSessionProps.v ===== *)
(** * Theorems about the state of a media session *)
From stdpp Require Import relations.
From S2P Require Import Prelude Wire Text StunHeader StunAttr JitterBuffer RtpExtensions RtpSession Slots.
From S2P Require IceStun IceAgent.
From S2P Require Import SdpFields SdpAttributes SdpCrypto SdpSession MediaKeys MediaTransport MediaSession MediaOffer MediaToy.
Local Open Scope Z_scope.
Local Notation MD := MediaDescription.t.
Local Notation SD := SessionDescription.t.

Ltac bind_inv H :=
  let x := fresh "x" in let Hx := fresh "Hx" in
  apply exec_bind_Ret_inv in H as (x & Hx & H).

Lemma position_exec_Some {X} (f : X -> exec bool) l i :
  position_exec f l = Ret (Some i) -> exists x, l !! i = Some x /\ f x = Ret true.
Proof.
  revert i. induction l as [|x l IH]; intros i; cbn; [done|]. intros H. bind_inv H.
  destruct x0; [injection H as <-; eauto|]. bind_inv H. destruct x0 as [j|]; [|done]. injection H as <-. by apply IH.
Qed.

Section props.
Context {S : Srtp} {B : Base64} {L : Ssl S} {RT : RtpTypes} {W : WireOps} {D : Dns} {A : Type} {I : IceOps A}.
Context {T : TimeCrate} {RW : RtcpWriter} {HO : HashOrder}.
Context {K : Type} {M : Type -> Type} {SM : Slots K M} {SML : SlotsLaws K M}.
Context {LK : Type} {LM : Type -> Type} {SLM : Slots LK LM} {SLML : SlotsLaws LK LM}.
Local Notation SdpSession := (SdpSession (K := K) (M := M) (LK := LK) (LM := LM) (A := A)).
Local Notation ActiveMedia := (ActiveMedia (K := K) (LK := LK)).
Local Notation PendingMedia := (PendingMedia (K := K) (LK := LK)).
Local Notation TransportEntry := (TransportEntry (A := A)).
Implicit Types (t : Transport A) (s : SdpSession) (ts : M TransportEntry) (lm : LM LocalMedia.t) (m : ActiveMedia) (p : PendingMedia).

(** ** What the keys of a session refer to *)
Definition has {X} (m : M X) (k : K) : Prop := is_Some (slots_get m k).
Definition has_local lm (k : LK) : Prop := is_Some (slots_get lm k).
Definition built ts (k : K) : Prop := exists t, slots_get ts k = Some (EntryTransport t).

Record refs (ms : list ActiveMedia) (ps : list PendingMedia) lm ts : Prop := {
  refs_active m : m ∈ ms -> built ts (media_transport m) /\ has_local lm (local_media_id m);
  refs_pending p : p ∈ ps ->
    has ts (bundle_transport p) /\ (forall k, standalone_transport p = Some k -> has ts k) /\
    has_local lm (pending_local_media_id p) }.
Definition wf s : Prop := refs (state s) (pending_added s) (local_media s) (transports s).

(** A change of the transports that keeps them, and builds some *)
Definition grows ts ts' : Prop := forall k, (has ts k -> has ts' k) /\ (built ts k -> built ts' k).
#[local] Instance grows_preorder : PreOrder grows.
Proof.
  split; [by intros ts k|]. intros a b c H1 H2 k. destruct (H1 k), (H2 k). split; eauto.
Qed.

Lemma built_has ts k : built ts k -> has ts k.
Proof. intros [t H]. unfold has. rewrite H. eauto. Qed.

Lemma grows_set ts k e :
  (forall t, slots_get ts k = Some (EntryTransport t) -> exists t', e = EntryTransport t') -> grows ts (slots_set k e ts).
Proof using SML.
  intros He k'. unfold has, built. rewrite slots_get_set. case_decide as E; [|done]. subst k'.
  destruct (slots_get ts k) as [e'|] eqn:Ek; cbn; [|done]. split; [eauto|].
  intros [t [= ->]]. destruct (He t eq_refl) as [t' ->]. eauto.
Qed.
Lemma grows_set_transport ts k t : grows ts (slots_set k (EntryTransport t) ts).
Proof using SML. apply grows_set. eauto. Qed.
Lemma grows_set_builder ts k b b' : slots_get ts k = Some (EntryBuilder b) -> grows ts (slots_set k (EntryBuilder b') ts).
Proof using SML. intros H. apply grows_set. by rewrite H. Qed.
Lemma grows_insert ts e : grows ts (slots_insert e ts).
Proof using SML.
  intros k. unfold has, built. rewrite slots_get_insert. case_decide as E; [|done]. subst k.
  by rewrite slots_get_next; split; [intros [? ?]|intros [? ?]].
Qed.
Lemma has_insert ts e : has (slots_insert e ts) (slots_next ts).
Proof using SML. unfold has. rewrite slots_get_insert, decide_True by done. eauto. Qed.
Lemma built_insert ts t : built (slots_insert (EntryTransport t) ts) (slots_next ts).
Proof using SML. unfold built. rewrite slots_get_insert, decide_True by done. eauto. Qed.

Lemma has_local_set lm k k' l : has_local lm k -> has_local (slots_set k' l lm) k.
Proof using SLML. unfold has_local. rewrite slots_get_set. intros [x ->]. case_decide; cbn; eauto. Qed.
Lemma has_local_insert lm k l : has_local lm k -> has_local (slots_insert l lm) k.
Proof using SLML. unfold has_local. rewrite slots_get_insert. case_decide; eauto. Qed.

(** What of a media does not change *)
Definition skel m := (media_id m, media_type m, media_transport m, local_media_id m).
Lemma skel_elem (l l' : list ActiveMedia) m : skel <$> l' = skel <$> l -> m ∈ l' -> exists m0, m0 ∈ l /\ skel m = skel m0.
Proof.
  intros Hs (i & Hi)%list_elem_of_lookup. apply (f_equal (.!! i)) in Hs. rewrite !list_lookup_fmap, Hi in Hs.
  symmetry in Hs. apply fmap_Some in Hs as (m0 & H0 & ?). exists m0. split; [|done]. by eapply list_elem_of_lookup_2.
Qed.

Lemma refs_mono ms ms' ps ps' lm lm' ts ts' :
  (forall m, m ∈ ms' -> exists m0, m0 ∈ ms /\ skel m = skel m0) ->
  (forall p, p ∈ ps' -> p ∈ ps) -> (forall k, has_local lm k -> has_local lm' k) -> grows ts ts' ->
  refs ms ps lm ts -> refs ms' ps' lm' ts'.
Proof.
  intros Hm Hp Hl Ht [Ha Hb]. split.
  - intros m (m0 & Hin & [= _ _ -> ->])%Hm. destruct (Ha _ Hin). split; [by apply Ht|by apply Hl].
  - intros p (H1 & H2 & H3)%Hp%Hb. split; [by apply Ht|]. split; [|by apply Hl]. intros k Hk. apply Ht. by apply H2.
Qed.

Lemma refs_add ms ps lm ts m :
  refs ms ps lm ts -> built ts (media_transport m) -> has_local lm (local_media_id m) -> refs (ms ++ [m]) ps lm ts.
Proof.
  intros [Ha Hb] ? ?. split; [|done]. intros m' [Hm| ->%list_elem_of_singleton]%elem_of_app; [by apply Ha|done].
Qed.

(** ** Operations that leave the media and their transports in place *)
Record frame s s' : Prop := {
  frame_state : skel <$> state s' = skel <$> state s;
  frame_pending : pending_changes s' = pending_changes s;
  frame_local : local_media s' = local_media s;
  frame_next : next_media_id s' = next_media_id s;
  frame_transports : grows (transports s) (transports s') }.
#[local] Instance frame_preorder : PreOrder frame.
Proof.
  split; [intros s; split; done|]. intros a b c [] []. split; try congruence. by etrans.
Qed.

Lemma frame_wf s s' : frame s s' -> wf s -> wf s'.
Proof.
  intros [Hs Hp Hl _ Ht]. unfold wf, pending_added. rewrite Hp, Hl. apply refs_mono; try done.
  intros m. by apply skel_elem.
Qed.

Lemma frame_events es s : frame s (push_events es s).
Proof. split; done. Qed.
Lemma frame_set_entry k e s :
  (forall t, slots_get (transports s) k = Some (EntryTransport t) -> exists t', e = EntryTransport t') ->
  frame s (set_entry k e s).
Proof using SML. intros He. split; try done. by apply grows_set. Qed.
Lemma frame_update_media f i s :
  (forall m, skel (f m) = skel m) ->
  frame s (update_media_at f i s).
Proof.
  intros Hf. split; try done. unfold update_media_at. cbn [state]. apply list_eq. intros j.
  rewrite !list_lookup_fmap. destruct (decide (i = j)) as [<-|Hij].
  - rewrite list_lookup_alter_eq. destruct (state s !! i) as [m|]; [|done]. cbn. by rewrite Hf.
  - by rewrite list_lookup_alter_ne.
Qed.

(** Entries that are replaced one after another, each by one of its kind *)
Definition is_built (e : TransportEntry) : bool := match e with EntryTransport _ => true | EntryBuilder _ => false end.
Definition same ts ts' : Prop := forall k, (has ts k <-> has ts' k) /\ (built ts k <-> built ts' k).
Lemma same_refl ts : same ts ts.
Proof. done. Qed.
Lemma same_grows ts ts' : same ts ts' -> grows ts ts'.
Proof. intros H k. destruct (H k) as [[] []]. done. Qed.
Lemma built_is_built ts k : built ts k <-> exists e, slots_get ts k = Some e /\ is_built e = true.
Proof.
  unfold built. split; [intros [t ->]; eauto|]. intros ([t|b] & -> & H); [eauto|done].
Qed.
Lemma same_set ts cur k e e' :
  same ts cur -> (k, e) ∈ slots_iter ts -> is_built e' = is_built e -> same ts (slots_set k e' cur).
Proof using SML.
  intros Hs Hin%slots_get_iter He k'. destruct (Hs k') as [Hh Hb]. rewrite Hh, Hb.
  unfold has. rewrite !built_is_built, !slots_get_set. case_decide as E; [|done]. subst k'.
  rewrite built_is_built, Hin in Hb. destruct (slots_get cur k) as [x|] eqn:Ex; cbn; [|done].
  split; [by split; eauto|]. rewrite built_is_built, Ex in Hb. split; intros (y & [= <-] & Hy).
  - destruct (proj2 Hb) as (z & [= <-] & Hz); [eauto|]. exists e'. split; [done|]. congruence.
  - apply Hb. exists e. split; [done|congruence].
Qed.

Lemma map_entries_same f ts : (forall e, is_built (f e) = is_built e) -> same ts (map_entries f ts).
Proof using SML.
  intros Hf. unfold map_entries. assert (forall es, (forall ke, ke ∈ es -> ke ∈ slots_iter ts) -> forall cur, same ts cur ->
    same ts (foldl (fun (ts : M TransportEntry) '(k, e) => slots_set k (f e) ts) cur es)) as H.
  { induction es as [|[k e] es IH]; intros Hes cur Hc; cbn; [done|]. apply IH; [intros; apply Hes; by right|].
    eapply same_set; [done|apply Hes; left|done]. }
  apply H; [done|apply same_refl].
Qed.

Lemma add_stun_server_frame server s : frame s (add_stun_server server s).
Proof using SML. split; try done. apply same_grows, map_entries_same. by intros []. Qed.

Lemma set_transport_ports_frame k ips rtp rtcp s s' : set_transport_ports k ips rtp rtcp s = Ret s' -> frame s s'.
Proof using SML.
  unfold set_transport_ports. intros H. bind_inv H. injection H as <-. apply unwrap_Ret in Hx.
  apply frame_set_entry. rewrite Hx. intros t [= ->]. cbn. eauto.
Qed.

Lemma poll_entry_built tid now e e' : poll_entry tid now e = Ret e' -> is_built e' = is_built e.
Proof. destruct e; cbn; intros H; bind_inv H; by injection H as <-. Qed.
Lemma poll_entries_same tid now ts es cur cur' :
  (forall ke, ke ∈ es -> ke ∈ slots_iter ts) -> same ts cur -> poll_entries tid now es cur = Ret cur' -> same ts cur'.
Proof using SML.
  revert cur. induction es as [|[k e] es IH]; intros cur Hes Hc; cbn; [by intros [= <-]|]. intros H. bind_inv H.
  eapply IH; [| |done]; [intros; apply Hes; by right|].
  eapply same_set; [done|apply Hes; left|by eapply poll_entry_built].
Qed.

Lemma send_rtcp_report_skel now (t t' : Transport A) m m' : send_rtcp_report now t m = Ret (t', m') -> skel m' = skel m.
Proof.
  unfold send_rtcp_report. destruct (write_rtcp_report _ _ _) as [[data|] rtp].
  - intros H. bind_inv H. by injection H as _ <-.
  - by intros [= _ <-].
Qed.
Lemma poll_media_frame now ntp_now ms s ms' s' :
  poll_media now ntp_now ms s = Ret (ms', s') -> skel <$> ms' = skel <$> ms /\ frame s s'.
Proof using SML.
  revert s ms' s'. induction ms as [|m ms IH]; intros s ms' s'; cbn [poll_media]; [by intros [= <- <-]|].
  intros H. bind_inv H. destruct x as [packet rtp]. bind_inv H. destruct x as [m1 s1]. bind_inv H. destruct x as [ms2 s2].
  injection H as <- <-. apply IH in Hx1 as [Hms Hs].
  assert (skel m1 = skel m /\ frame s s1) as [Hm1 Hs1].
  { assert (frame s match packet with Some packet => push_events [ReceiveRTP (media_id m) packet] s | None => s end) as Hf
      by (destruct packet; [apply frame_events|done]).
    set (s0 := match packet with Some _ => _ | None => s end) in *. clearbody s0.
    destruct (decide _) as [_|_] in Hx0; [|by injection Hx0 as <- <-].
    bind_inv Hx0. bind_inv Hx0. destruct (decide _) as [_|_] in Hx0; [|by injection Hx0 as <- <-].
    bind_inv Hx0. destruct x1 as [t' m']. injection Hx0 as <- <-. split.
    - by apply send_rtcp_report_skel in Hx3.
    - etrans; [done|]. apply frame_set_entry. eauto. }
  cbn. split; [by rewrite Hm1, Hms|by etrans].
Qed.
Lemma session_poll_frame tid now ntp_now s s' : session_poll tid now ntp_now s = Ret s' -> frame s s'.
Proof using SML.
  unfold session_poll. intros H. bind_inv H. bind_inv H. destruct x0 as [ms s1]. injection H as <-.
  apply poll_entries_same with (ts := transports s) in Hx; [|done|apply same_refl].
  apply poll_media_frame in Hx0 as [Hms [_ Hp Hl Hn Ht]]. split; try done. by etrans; [apply same_grows|].
Qed.

Lemma pop_entry_event_same ts es cur (o : option (Event K LK)) cur' :
  (forall ke, ke ∈ es -> ke ∈ slots_iter ts) -> same ts cur -> pop_entry_event es cur = Ret (o, cur') -> same ts cur'.
Proof using SML.
  revert cur. induction es as [|[k e] es IH]; intros cur Hes Hc; cbn [pop_entry_event]; [by intros [= _ <-]|].
  intros H. bind_inv H. destruct x as [event e'].
  assert (same ts (slots_set k e' cur)) as Hc'.
  { eapply same_set; [done|apply Hes; left|]. destruct e as [t|b].
    - destruct (transport_pop_event t). by injection Hx as _ <-.
    - bind_inv Hx. destruct x. by injection Hx as _ <-. }
  destruct event; [by injection H as _ <-|]. eapply IH; [intros; apply Hes; by right|done|done].
Qed.
Lemma session_pop_event_frame s o s' : session_pop_event s = Ret (o, s') -> frame s s'.
Proof using SML.
  unfold session_pop_event. intros H. bind_inv H. destruct x as [event ts]. injection H as H.
  apply pop_entry_event_same with (ts := transports s) in Hx; [|done|apply same_refl].
  destruct event; [|cbn in H; destruct (session_events s)]; injection H as _ <-; split; try done; by apply same_grows.
Qed.

Lemma receive_rtp_frame now k packet s : frame s (receive_rtp now k packet s).
Proof. unfold receive_rtp. destruct (or_else _ _); [|done]. by apply frame_update_media. Qed.
Lemma receive_rtcp_frame now packets s : frame s (receive_rtcp now packets s).
Proof.
  unfold receive_rtcp. destruct packets as [|p ps]; [done|]. destruct (rtcp_sender p); [|done].
  destruct (position _ _); [|done]. by apply frame_update_media.
Qed.
Lemma session_receive_frame parse now ntp_now k pkt s s' : session_receive parse now ntp_now k pkt s = Ret s' -> frame s s'.
Proof using SML.
  unfold session_receive. intros H. bind_inv H. apply unwrap_Ret in Hx. destruct x as [t|b]; bind_inv H.
  - destruct x as [r t']. injection H as <-.
    assert (frame s (set_entry k (EntryTransport t') s)) as Hf by (apply frame_set_entry; eauto).
    destruct r; [|destruct (parse _)|]; try done; etrans; try done; [apply receive_rtp_frame|apply receive_rtcp_frame].
  - injection H as <-. apply frame_set_entry. by rewrite Hx.
Qed.
Lemma session_send_rtp_frame now id packet s s' : session_send_rtp now id packet s = Ret s' -> frame s s'.
Proof using SML.
  unfold session_send_rtp. intros H. do 5 bind_inv H. injection H as <-.
  etrans; [|apply frame_set_entry; eauto]. by apply frame_update_media.
Qed.

(** ** Offers *)
Lemma update_active_media_frame d id s s' :
  update_active_media d id s = Ret s' -> frame s s' /\
    exists i m, position (has_id id) (state s) = Some i /\ state s !! i = Some m /\
      state s' = if decide (direction m = d) then state s else alter (set_direction d) i (state s).
Proof.
  unfold update_active_media. intros H. bind_inv H. bind_inv H. apply unwrap_Ret in Hx, Hx0. injection H as <-.
  split; [|exists x, x0; split; [done|]; split; [done|]; by case_decide].
  case_decide; [done|]. etrans; [|by apply frame_update_media]. apply frame_events.
Qed.

Lemma maybe_use_for_offer_Some desc l c l' :
  LocalMedia.maybe_use_for_offer desc l = Ret (Some c, l') ->
  Codecs.media_type (LocalMedia.codecs l) = Media.media_type (MediaDescription.media desc) /\
  LocalMedia.choose_in desc (LocalMedia.direction l) (Codecs.codecs (LocalMedia.codecs l)) = Ret (Some c).
Proof.
  unfold LocalMedia.maybe_use_for_offer, LocalMedia.choose_codec. case_decide as Hd; [done|]. intros H. bind_inv H.
  destruct x; [|done]. injection H as <- _. split; [|done]. destruct (decide (Codecs.media_type (LocalMedia.codecs l) = Media.media_type (MediaDescription.media desc))); [done|].
  destruct Hd. by right.
Qed.

Lemma find_local_media_refs desc es lm lm' o :
  (forall ke, ke ∈ es -> ke ∈ slots_iter lm) -> find_local_media desc es lm = Ret (o, lm') ->
  (forall k, has_local lm k -> has_local lm' k) /\
  (forall k c, o = Some (k, c) -> exists l, slots_get lm k = Some l /\
     LocalMedia.choose_in desc (LocalMedia.direction l) (Codecs.codecs (LocalMedia.codecs l)) = Ret (Some c)).
Proof using SLML.
  intros Hes. assert (forall cur, (forall k, has_local lm k -> has_local cur k) -> find_local_media desc es cur = Ret (o, lm') ->
    (forall k, has_local lm k -> has_local lm' k) /\
    (forall k c, o = Some (k, c) -> exists l, slots_get lm k = Some l /\
       LocalMedia.choose_in desc (LocalMedia.direction l) (Codecs.codecs (LocalMedia.codecs l)) = Ret (Some c))) as H;
    [|intros; by apply (H lm)].
  induction es as [|[k l] es IH]; intros cur Hc; cbn [find_local_media].
  - by intros [= <- <-].
  - intros H. bind_inv H. destruct x as [c l']. assert (forall k', has_local lm k' -> has_local (slots_set k l' cur) k') as Hc'.
    { intros k' Hk. apply has_local_set. by apply Hc. }
    destruct c as [c|].
    + injection H as <- <-. split; [done|]. intros ? ? [= <- <-]. apply maybe_use_for_offer_Some in Hx as [_ Hx].
      exists l. split; [|done]. apply slots_get_iter, Hes. left.
    + eapply IH; [|done|done]. intros; apply Hes; by right.
Qed.

(** What a line of an offer keeps, whatever becomes of it *)
Definition offer_wf (new : list ActiveMedia) s : Prop :=
  refs (new ++ state s) (pending_added s) (local_media s) (transports s).

Lemma find_bundled_transport_built new offer mid s k :
  offer_wf new s -> find_bundled_transport new offer mid s = Some k -> built (transports s) k.
Proof.
  intros [Ha _]. unfold find_bundled_transport. destruct (list_find _ _) as [[i g]|]; [|done]. cbn. intros H.
  apply head_Some_elem_of in H. apply list_elem_of_omap in H as (m & Hm & H). unfold in_group in H.
  destruct (MediaSession.mid m); [|done]. cbn in H. case_decide; [|done]. injection H as <-. by apply Ha.
Qed.

Lemma get_or_create_transport_refs r new offer desc s res s' :
  offer_wf new s -> get_or_create_transport r new offer desc s = Ret (res, s') ->
  frame s s' /\ state s' = state s /\ session_events s' = session_events s /\
  forall k, res = Ok (Some k) -> built (transports s') k.
Proof using SML.
  intros Hwf. unfold get_or_create_transport. destruct (mbind _ _) as [k|] eqn:E.
  - intros [= <- <-]. split; [done|]. split; [done|]. split; [done|]. intros ? [= <-].
    destruct (MediaDescription.mid desc) as [mid|]; [|done]. cbn in E. by eapply find_bundled_transport_built.
  - intros H. bind_inv H. destruct x as [[t st] change]. injection H as H.
    destruct t as [[t|]|e]; injection H as <- <-; (split; [split; try done|split; [done|split; [done|]]]).
    + apply grows_insert.
    + intros k [= <-]. apply built_insert.
    + intros k [=].
    + intros k [=].
Qed.

Lemma receive_offer_line_refs r ssrc now offer desc new s res s' :
  offer_wf new s -> receive_offer_line r ssrc now offer desc new s = Ret (res, s') ->
  match res with Ok (_, new') => offer_wf new' s' | Err _ => offer_wf new s' end.
Proof using SML SLML.
  intros Hwf. unfold receive_offer_line. intros H. bind_inv H. destruct x as [i|].
  - bind_inv H. bind_inv H. bind_inv H. apply unwrap_Ret in Hx0, Hx2. injection H as <- <-.
    apply update_active_media_frame in Hx1 as [[Hs Hp Hl _ Ht] _]. unfold offer_wf, pending_added in *. cbn [state pending_changes set_state].
    change (local_media (set_state _ x0)) with (local_media x0). rewrite Hp, Hl.
    eapply refs_mono; [| | |exact Ht|exact Hwf]; try done. intros m Hm.
    assert (m ∈ new \/ m ∈ state x0) as [Hin|Hin].
    { apply elem_of_app in Hm as [[?|H%list_elem_of_singleton]%elem_of_app|Hm]; [by left|right|right].
      - subst m. by eapply list_elem_of_lookup_2.
      - by eapply (sublist_subseteq _ _ (sublist_delete _ i)). }
    + exists m. split; [|done]. apply elem_of_app. by left.
    + eapply skel_elem in Hin as (m0 & ? & ?); [|exact Hs]. exists m0. split; [|done]. apply elem_of_app. by right.
  - bind_inv H. destruct x as [chosen locals]. apply find_local_media_refs in Hx0 as [Hl Hc]; [|done].
    assert (offer_wf new (set_local_media locals s)) as Hwf1.
    { eapply refs_mono; [| |exact Hl| |exact Hwf]; try done. intros m Hm. by exists m. }
    destruct chosen as [[local [[codec pt] d]]|]; [|by injection H as <- <-].
    destruct (step_media_id _) as [id s1] eqn:Hid. injection Hid as <- <-.
    bind_inv H. destruct x as [t s2].
    apply get_or_create_transport_refs with (new := new) in Hx0 as ([_ Hp Hlm _ Ht] & Hs & _ & Hb); [|exact Hwf1].
    assert (offer_wf new s2) as Hwf2.
    { unfold offer_wf, pending_added in *. rewrite Hs, Hp, Hlm. eapply refs_mono; [| | |exact Ht|exact Hwf1]; try done.
      intros m Hm. by exists m. }
    destruct t as [[k|]|e]; injection H as <- <-; [|done|done].
    assert (has_local (local_media s2) local) as Hlocal.
    { rewrite Hlm. destruct (Hc _ _ eq_refl) as (l & Hget & _). apply Hl. unfold has_local. by rewrite Hget. }
    unfold offer_wf. set (media := new_media _ _ _ _ _ _ _ _ _ _ _).
    apply (refs_mono ((new ++ state s2) ++ [media]) _ (pending_added s2) _ (local_media s2) _ (transports s2)); try done;
      [|by apply refs_add; [|apply Hb|]].
    intros m Hm. exists m. split; [|done]. cbn in Hm. rewrite !elem_of_app in *. tauto.
Qed.

Lemma receive_offer_lines_refs rnd now offer descs new response s res s' :
  offer_wf new s -> receive_offer_lines rnd now offer descs new response s = Ret (res, s') ->
  exists new', offer_wf new' s' /\ forall response' new'', res = Ok (response', new'') -> new'' = new'.
Proof using SML SLML.
  revert new response s. induction descs as [|desc descs IH]; intros new response s Hwf; cbn [receive_offer_lines].
  - intros [= <- <-]. exists new. split; [done|]. by intros ? ? [= _ <-].
  - destruct (rnd _) as [r ssrc]. intros H. bind_inv H. destruct x as [line s1].
    apply receive_offer_line_refs in Hx; [|done]. destruct line as [[entry new1]|e].
    + by eapply IH.
    + injection H as <- <-. exists new. by split.
Qed.

Lemma offer_wf_state new s : offer_wf new s -> wf s /\ wf (set_state new s).
Proof.
  intros H. split; (eapply refs_mono; [| | | |exact H]; try done); intros m Hm; exists m; (split; [|done]);
    apply elem_of_app; auto.
Qed.

(** The media that are removed leave the local media in place. *)
Lemma remove_one_wf m s s' : wf s -> remove_one m s = Ret s' -> wf s' /\ state s' = state s.
Proof using SLML.
  unfold remove_one. intros Hwf H. bind_inv H. injection H as <-. split; [|done].
  eapply refs_mono; [| | | |exact Hwf]; try done; [intros m' Hm; by exists m'|].
  intros k Hk. by apply has_local_set.
Qed.
Lemma remove_all_wf ms s s' : wf s -> IceAgent.exec_fold remove_one ms s = Ret s' -> wf s' /\ state s' = state s.
Proof using SLML.
  revert s. induction ms as [|m ms IH]; intros s Hwf; cbn; [by intros [= <-]|]. intros H. bind_inv H.
  apply remove_one_wf in Hx as [Hwf' <-]; [|done]. by apply IH.
Qed.

(** Of the transports those that are used stay. *)
Lemma remove_unused_get s k e :
  slots_get (transports (remove_unused_transports s)) k = Some e <-> slots_get (transports s) k = Some e /\ in_use s k = true.
Proof using SML. unfold remove_unused_transports. cbn [transports set_transports push_changes]. apply (slots_get_retain (fun id _ => in_use s id)). Qed.
Lemma remove_unused_wf s : wf s -> wf (remove_unused_transports s).
Proof using SML.
  intros [Ha Hp]. split.
  - intros m Hm. destruct (Ha m Hm) as [[t Ht] Hl]. split; [|done]. exists t. apply remove_unused_get. split; [done|].
    unfold in_use, in_use_by_active. apply orb_true_iff. left. apply existsb_exists. exists m.
    split; [by apply list_elem_of_In|by apply bool_decide_eq_true].
  - assert (forall p k, p ∈ pending_added s -> bundle_transport p = k \/ standalone_transport p = Some k -> in_use s k = true) as Huse.
    { intros p k Hin Hk. apply list_elem_of_omap in Hin as (c & Hc & Hp'). unfold in_use. apply orb_true_iff. right.
      apply existsb_exists. exists c. split; [by apply list_elem_of_In|]. destruct c as [q| |]; [|done|done].
      injection Hp' as ->. apply orb_true_iff. destruct Hk; [left|right]; by apply bool_decide_eq_true. }
    assert (forall p k, p ∈ pending_added s -> bundle_transport p = k \/ standalone_transport p = Some k ->
              has (transports s) k -> has (transports (remove_unused_transports s)) k) as Hkeep.
    { intros p k Hin Hk [e He]. exists e. apply remove_unused_get. split; [done|]. by eapply Huse. }
    intros p Hin. destruct (Hp p Hin) as (H1 & H2 & H3). split; [|split; [|done]].
    + eapply Hkeep; [exact Hin|by left|done].
    + intros k Hk. eapply Hkeep; [exact Hin|by right|by apply H2].
Qed.

Lemma receive_sdp_offer_wf rnd now offer s res s' : wf s -> receive_sdp_offer rnd now offer s = Ret (res, s') -> wf s'.
Proof using SML SLML.
  unfold receive_sdp_offer. intros Hwf H. bind_inv H. destruct x as [lines s1].
  eapply receive_offer_lines_refs in Hx as (new & Hwf1 & Hnew); [|exact Hwf].
  destruct lines as [[response new']|e]; [|injection H as _ <-; by destruct (offer_wf_state _ _ Hwf1)].
  rewrite (Hnew _ _ eq_refl) in H. bind_inv H. injection H as _ <-. apply remove_unused_wf.
  eapply remove_all_wf; [|exact Hx]. by destruct (offer_wf_state _ _ Hwf1).
Qed.

(** ** Answers *)
Lemma build_transport_frame r now answer desc k s s' :
  build_transport r now answer desc k s = Ret s' -> frame s s' /\ state s' = state s /\ built (transports s') k.
Proof using SML.
  unfold build_transport. intros H. bind_inv H. apply unwrap_Ret in Hx. destruct x as [t|b].
  - injection H as <-. split; [done|]. split; [done|]. by exists t.
  - bind_inv H. destruct x as [[t st] changes]. injection H as <-. split; [|split; [done|]].
    + split; try done. cbn [transports set_entry set_transports push_changes set_transport_state].
      etrans; [by eapply grows_set_builder|apply grows_set_transport].
    + exists t. cbn [transports set_entry set_transports push_changes set_transport_state].
      by rewrite !slots_get_set, !decide_True, Hx.
Qed.

Lemma receive_added_wf r ssrc now answer desc p s s' :
  wf s -> receive_added r ssrc now answer desc p s = Ret s' -> wf s' /\ pending_changes s' = pending_changes s.
Proof using SML SLML.
  unfold receive_added. intros Hwf H. do 4 bind_inv H. destruct x2 as [config local]. bind_inv H. destruct x2 as [[codec pt] d].
  injection H as <-. apply build_transport_frame in Hx0 as (Hf & Hs & Hb). apply unwrap_Ret in Hx1.
  pose proof (frame_wf _ _ Hf Hwf) as Hwf1. destruct Hf as [_ Hp _ _ _]. split; [|done].
  set (media := new_media _ _ _ _ _ _ _ _ _ _ _).
  eapply (refs_mono (state x0 ++ [media]) _ (pending_added x0) _ (local_media x0) _ (transports x0)); try done.
  - intros m Hm. by exists m.
  - intros k Hk. by apply has_local_set.
  - apply refs_add; [done|done|]. unfold has_local. cbn. rewrite Hx1. eauto.
Qed.

Lemma receive_answer_line_wf r ssrc now answer desc s s' :
  wf s -> receive_answer_line r ssrc now answer desc s = Ret s' -> wf s' /\ pending_changes s' = pending_changes s.
Proof using SML SLML.
  unfold receive_answer_line. intros Hwf. case_decide; [by intros [= <-]|]. intros H1. bind_inv H1. destruct x as [i|].
  - bind_inv H1. apply update_active_media_frame in H1 as [Hf _]. split; [by eapply frame_wf|by destruct Hf].
  - bind_inv H1. destruct x as [i|]; [|by injection H1 as <-]. bind_inv H1. by eapply receive_added_wf.
Qed.
Lemma receive_answer_lines_wf rnd i now answer descs s s' :
  wf s -> receive_answer_lines rnd i now answer descs s = Ret s' -> wf s'.
Proof using SML SLML.
  revert i s. induction descs as [|desc descs IH]; intros i s Hwf; cbn; [by intros [= <-]|]. intros H. bind_inv H.
  apply receive_answer_line_wf in Hx as [Hwf' _]; [|done]. by eapply IH.
Qed.
Lemma receive_sdp_answer_wf rnd now answer s s' : wf s -> receive_sdp_answer rnd now answer s = Ret s' -> wf s'.
Proof using SML SLML.
  unfold receive_sdp_answer. intros Hwf H. bind_inv H. injection H as <-. apply remove_unused_wf.
  apply receive_answer_lines_wf in Hx; [|done]. eapply refs_mono; [| | | |exact Hx]; try done.
  - intros m Hm. by exists m.
  - intros p Hp. cbn in Hp. by apply elem_of_nil in Hp.
Qed.

(** ** The other operations *)
Lemma add_local_media_wf codecs limit d s : wf s -> wf (add_local_media codecs limit d s).2.
Proof using SLML.
  intros Hwf. unfold add_local_media. destruct (assign_pts _ _) as [[cs next]|]; [|done].
  eapply refs_mono; [| | | |exact Hwf]; try done; [intros m Hm; by exists m|]. intros k Hk. by apply has_local_insert.
Qed.

Lemma insert_builder_frame r ty s k s' :
  insert_builder r ty s = Ret (k, s') -> frame s s' /\ state s' = state s /\ has (transports s') k.
Proof using SML.
  unfold insert_builder. intros H. bind_inv H. destruct x as [[b st] change]. injection H as <- <-.
  split; [split; try done; apply grows_insert|]. split; [done|]. apply has_insert.
Qed.

Lemma add_media_wf r k d s id s' : wf s -> add_media r k d s = Ret (id, s') -> wf s'.
Proof using SML.
  intros Hwf. unfold add_media. destruct (step_media_id s) as [id' s0] eqn:E.
  assert (wf s0) as Hwf0 by (by injection E as _ <-). clear E Hwf.
  set (found := fst <$> _). assert (forall k', found = Some k' -> has (transports s0) k') as Hfound.
  { unfold found. intros k' ([k2 e] & H & ->)%fmap_Some. apply fmap_Some in H as ([i [k3 e']] & H & [= -> ->]).
    apply list_find_Some in H as (H & _). apply list_elem_of_lookup_2 in H. apply slots_get_iter in H.
    unfold has. cbn. rewrite H. eauto. }
  set (ty := default _ _). clearbody found ty. intros H. bind_inv H. destruct x as [[standalone bundle] s1].
  assert (wf s1 /\ has (transports s1) bundle /\ (forall k', standalone = Some k' -> has (transports s1) k')) as (Hwf1 & Hb & Hst).
  { destruct (Options.bundle_policy _).
    - bind_inv Hx. destruct x as [k1 s2]. injection Hx as <- <- <-. apply insert_builder_frame in Hx0 as (Hf & _ & Hk).
      split; [by eapply frame_wf|]. split; [|by intros ? [= <-]]. destruct found as [k2|]; [|done].
      cbn. apply Hf. by apply Hfound.
    - destruct found as [k1|]; [injection Hx as <- <- <-; split; [done|]; split; [by apply Hfound|done]|].
      bind_inv Hx. destruct x as [k1 s2]. injection Hx as <- <- <-. apply insert_builder_frame in Hx0 as (Hf & _ & Hk).
      split; [by eapply frame_wf|]. done. }
  bind_inv H. apply unwrap_Ret in Hx0. injection H as _ <-. destruct Hwf1 as [Ha Hp]. split; [done|].
  unfold pending_added. cbn. rewrite omap_app. intros p [Hin|Hin]%elem_of_app; [by apply Hp|].
  cbn in Hin. apply list_elem_of_singleton in Hin as ->. cbn. split; [done|]. split; [done|]. unfold has_local. by rewrite Hx0.
Qed.

Lemma request_wf (c : PendingChange) s : (forall p, c <> AddMedia p) -> wf s -> wf (set_pending_changes (pending_changes s ++ [c]) s).
Proof.
  intros Hc Hwf. unfold wf, pending_added. cbn. rewrite omap_app. destruct c as [m| |]; [by destruct (Hc m)| |]; cbn;
    by rewrite app_nil_r.
Qed.

(** ** Reachable states *)

(** The operations, with what the environment gives *)
Inductive op :=
| OpStunServer (server : SocketAddr)
| OpLocalMedia (codecs : Codecs.t) (limit : Z) (d : Direction.t)
| OpAddMedia (r : Random) (k : LK) (d : Direction.t)
| OpRemoveMedia (id : Z)
| OpUpdateMedia (id : Z) (d : Direction.t)
| OpTakeChanges
| OpPorts (k : K) (ips : list IceStun.IpAddr) (rtp : Z) (rtcp : option Z)
| OpPoll (tid : K -> nat -> TransactionId) (now ntp_now : Z)
| OpPopEvent
| OpReceive (parse : list byte -> option (list RtcpPacket)) (now ntp_now : Z) (k : K) (pkt : IceAgent.ReceivedPkt.t (list byte))
| OpSendRtp (now id : Z) (packet : RtpPacket.t)
| OpOffer (rnd : nat -> Random * Z) (now : Z) (offer : SD)
| OpAnswer (rnd : nat -> Random * Z) (now : Z) (answer : SD).

Definition apply_op (o : op) s : exec SdpSession :=
  match o with
  | OpStunServer server => Ret (add_stun_server server s)
  | OpLocalMedia codecs limit d => Ret (add_local_media codecs limit d s).2
  | OpAddMedia r k d => '(_, s) ← add_media r k d s; Ret s
  | OpRemoveMedia id => Ret (remove_media id s)
  | OpUpdateMedia id d => Ret (update_media id d s)
  | OpTakeChanges => Ret (take_transport_changes s).2
  | OpPorts k ips rtp rtcp => set_transport_ports k ips rtp rtcp s
  | OpPoll tid now ntp_now => session_poll tid now ntp_now s
  | OpPopEvent => '(_, s) ← session_pop_event s; Ret s
  | OpReceive parse now ntp_now k pkt => session_receive parse now ntp_now k pkt s
  | OpSendRtp now id packet => session_send_rtp now id packet s
  | OpOffer rnd now offer => '(_, s) ← receive_sdp_offer rnd now offer s; Ret s
  | OpAnswer rnd now answer => receive_sdp_answer rnd now answer s
  end.
Definition step s s' : Prop := exists o, apply_op o s = Ret s'.
Definition reachable s : Prop := exists address options id version, rtc step (session_new address options id version) s.

(** The operations that leave the media in place *)
Lemma quiet_frame o s s' :
  apply_op o s = Ret s' ->
  match o with
  | OpStunServer _ | OpPorts _ _ _ _ | OpPoll _ _ _ | OpPopEvent | OpReceive _ _ _ _ _ | OpSendRtp _ _ _ => frame s s'
  | _ => True
  end.
Proof using SML.
  destruct o; cbn; intros H; try done.
  - injection H as <-. apply add_stun_server_frame.
  - by eapply set_transport_ports_frame.
  - by eapply session_poll_frame.
  - bind_inv H. destruct x. injection H as <-. by eapply session_pop_event_frame.
  - by eapply session_receive_frame.
  - by eapply session_send_rtp_frame.
Qed.

Lemma session_new_wf address options id version : wf (session_new address options id version).
Proof. split; cbn; by intros ? ?%elem_of_nil. Qed.

Lemma session_step_wf s s' : step s s' -> wf s -> wf s'.
Proof using SML SLML.
  intros [o H] Hwf. pose proof (quiet_frame _ _ _ H) as Hf.
  destruct o; try (by eapply frame_wf); cbn [apply_op] in H;
    try match type of H with ?m ≫= _ = _ => bind_inv H; destruct x as [x s1] end; try injection H as <-.
  - by apply add_local_media_wf.
  - by eapply add_media_wf.
  - unfold remove_media. case_match; [|done]. by apply request_wf.
  - unfold update_media. case_match; [|done]. by apply request_wf.
  - done.
  - by eapply receive_sdp_offer_wf.
  - by eapply receive_sdp_answer_wf.
Qed.

Lemma session_reachable_wf s : reachable s -> wf s.
Proof using SML SLML.
  intros (address & options & id & version & H). pose proof (session_new_wf address options id version) as Hwf.
  induction H; [done|]. apply IHrtc. by eapply session_step_wf.
Qed.

(** C9: in every state that a session gets to by its operations, in any order
    and whatever the peer sends, each media has its transport, and it is a
    transport that has been negotiated, not a builder; each media, and each
    that is requested, has its local media; each that is requested has the
    transports that it can be negotiated on. So nothing that looks these up by
    their keys panics. *)
Theorem session_keys_valid s :
  reachable s ->
  (forall m, m ∈ state s ->
     (exists t, slots_get (transports s) (media_transport m) = Some (EntryTransport t)) /\
     (exists l, slots_get (local_media s) (local_media_id m) = Some l)) /\
  (forall p, AddMedia p ∈ pending_changes s ->
     (exists e, slots_get (transports s) (bundle_transport p) = Some e) /\
     (forall k, standalone_transport p = Some k -> exists e, slots_get (transports s) k = Some e) /\
     (exists l, slots_get (local_media s) (pending_local_media_id p) = Some l)).
Proof using SML SLML.
  intros [Ha Hp]%session_reachable_wf. split; [exact Ha|]. intros p Hin. apply Hp. apply list_elem_of_omap. by exists (AddMedia p).
Qed.
End props.

Import MediaKeysProps.Toy.

(** An offerer that has got its answer *)
Lemma session_keys_valid_witness :
  reachable offerer4 /\ length (state offerer4) = 1%nat /\
  forall m, m ∈ state offerer4 -> exists t, slots_get (transports offerer4) (media_transport m) = Some (EntryTransport t).
Proof.
  assert (reachable offerer4) as H.
  { exists (IpV4 1), (toy_options SdesSrtp), 1, 1.
    apply (rtc_l _ _ offerer1); [by exists (OpLocalMedia audio 1 Direction.SendRecv)|].
    apply (rtc_l _ _ offerer2); [exists (OpAddMedia (toy_random x01) 0%nat Direction.SendRecv); cbn [apply_op]; by rewrite offerer2_eq|].
    eapply rtc_l; [exists (OpPorts 0%nat [] 4000 (Some 4001)); exact offerer3_eq|].
    eapply rtc_l; [exists (OpAnswer (toy_rnd x03) 0 answer); exact offerer4_eq|]. apply rtc_refl. }
  split; [exact H|]. split; [vm_compute; reflexivity|]. intros m Hm. apply (session_keys_valid _ H). exact Hm.
Defined.
