(* ===== verification/MediaIds.v ===== *)
(** * The ids of media

    The ids of the media of a session, and of those that are requested, are
    distinct as long as the counter does not wrap and answers say which media
    they are about. *)
From stdpp Require Import relations.
From S2P Require Import Prelude Wire Text StunHeader StunAttr JitterBuffer RtpExtensions RtpSession Slots.
From S2P Require IceStun IceAgent.
From S2P Require Import SdpFields SdpAttributes SdpCrypto SdpSession MediaKeys MediaTransport MediaSession MediaOffer MediaSessionProps.
Local Open Scope Z_scope.
Local Notation MD := MediaDescription.t.
Local Notation SD := SessionDescription.t.

(** Ids that are distinct, and are not given again *)
Definition ids_ok (ids : list Z) (next : Z) : Prop := NoDup ids /\ forall id, id ∈ ids -> 0 <= id < next.

Lemma ids_ok_submseteq ids ids' next : ids' ⊆+ ids -> ids_ok ids next -> ids_ok ids' next.
Proof.
  intros Hsub [Hnd Hb]. split.
  - apply submseteq_Permutation in Hsub as (k & Hk). rewrite Hk in Hnd. by apply NoDup_app in Hnd as [? _].
  - intros id Hin. apply Hb. by eapply elem_of_submseteq.
Qed.
Lemma ids_ok_perm ids ids' next : ids ≡ₚ ids' -> ids_ok ids next -> ids_ok ids' next.
Proof. intros Hp. apply ids_ok_submseteq. by rewrite Hp. Qed.
Lemma ids_ok_le ids next next' : next <= next' -> ids_ok ids next -> ids_ok ids next'.
Proof. intros Hn [Hnd Hb]. split; [done|]. intros id Hin. specialize (Hb id Hin). lia. Qed.
Lemma ids_ok_add ids next : 0 <= next -> ids_ok ids next -> ids_ok (next :: ids) (next + 1).
Proof.
  intros Hn [Hnd Hb]. split.
  - constructor; [|done]. intros Hin. specialize (Hb _ Hin). lia.
  - intros id [->|Hin]%elem_of_cons; [lia|]. specialize (Hb _ Hin). lia.
Qed.

Lemma filter_weaken {X} (P Q : X -> Prop) `{forall x, Decision (P x), forall x, Decision (Q x)} (l : list X) :
  (forall x, P x -> Q x) -> filter P l ⊆+ filter Q l.
Proof.
  intros HPQ. induction l as [|x l IH]; [done|]. rewrite !filter_cons.
  destruct (decide (P x)) as [Hp|]; [rewrite decide_True by auto; by constructor|].
  destruct (decide (Q x)); [by constructor|done].
Qed.
Lemma filter_take_out {X} (P Q : X -> Prop) `{forall x, Decision (P x), forall x, Decision (Q x)} (l : list X) x :
  (forall x, P x -> Q x) -> x ∈ l -> Q x -> ~ P x -> x :: filter P l ⊆+ filter Q l.
Proof.
  intros HPQ Hin Hq Hp. induction l as [|y l IH]; [by apply elem_of_nil in Hin|]. rewrite !filter_cons.
  apply elem_of_cons in Hin as [<-|Hin].
  - rewrite decide_False, decide_True by done. constructor. by apply filter_weaken.
  - specialize (IH Hin). destruct (decide (P y)).
    + rewrite decide_True by auto. etrans; [apply submseteq_swap|]. by constructor.
    + destruct (decide (Q y)); [by constructor|done].
Qed.

Section ids.
Context {S : Srtp} {B : Base64} {L : Ssl S} {RT : RtpTypes} {W : WireOps} {D : Dns} {A : Type} {I : IceOps A}.
Context {T : TimeCrate} {RW : RtcpWriter} {HO : HashOrder}.
Context {K : Type} {M : Type -> Type} {SM : Slots K M} {SML : SlotsLaws K M}.
Context {LK : Type} {LM : Type -> Type} {SLM : Slots LK LM} {SLML : SlotsLaws LK LM}.
Local Notation SdpSession := (SdpSession (K := K) (M := M) (LK := LK) (LM := LM) (A := A)).
Local Notation ActiveMedia := (ActiveMedia (K := K) (LK := LK)).
Local Notation PendingMedia := (PendingMedia (K := K) (LK := LK)).
Implicit Types (s : SdpSession) (m : ActiveMedia) (p : PendingMedia) (desc : MD).

Lemma ids_ok_position (ms : list ActiveMedia) extra next i m :
  ids_ok ((media_id <$> ms) ++ extra) next -> ms !! i = Some m -> position (has_id (media_id m)) ms = Some i.
Proof.
  intros [[Hnd _]%NoDup_app _] Hi. apply position_Some. exists m. split; [done|]. split; [by apply bool_decide_eq_true|].
  intros j m' Hlt Hj. apply bool_decide_eq_false. intros He.
  enough (i = j) by lia. eapply NoDup_lookup; [exact Hnd| |].
  - by rewrite list_lookup_fmap, Hi.
  - by rewrite list_lookup_fmap, Hj; cbn; rewrite He.
Qed.

Lemma skel_ids (l l' : list ActiveMedia) : skel <$> l' = skel <$> l -> media_id <$> l' = media_id <$> l.
Proof. intros H. apply (f_equal (fmap (fun x => x.1.1.1))) in H. by rewrite <-!list_fmap_compose in H. Qed.

(** ** Offers *)
Lemma get_or_create_transport_kept r new offer desc s res s' :
  get_or_create_transport r new offer desc s = Ret (res, s') ->
  state s' = state s /\ next_media_id s' = next_media_id s /\ pending_changes s' = pending_changes s.
Proof.
  unfold get_or_create_transport. destruct (mbind _ _); [by intros [= _ <-]|]. intros H. bind_inv H.
  destruct x as [[[[t|]|e] st] change]; by injection H as _ <-.
Qed.

Lemma receive_offer_line_ids r ssrc now offer desc new extra s res s' :
  ids_ok ((media_id <$> new ++ state s) ++ extra) (next_media_id s) -> 0 <= next_media_id s < 2 ^ 32 - 1 ->
  receive_offer_line r ssrc now offer desc new s = Ret (res, s') ->
  next_media_id s <= next_media_id s' <= next_media_id s + 1 /\ pending_changes s' = pending_changes s /\
  ids_ok ((media_id <$> match res with Ok (_, new') => new' | Err _ => new end ++ state s') ++ extra) (next_media_id s').
Proof.
  intros Hids Hn. unfold receive_offer_line. intros H. bind_inv H. destruct x as [i|].
  - do 3 bind_inv H. apply unwrap_Ret in Hx0, Hx2. injection H as <- <-.
    apply update_active_media_frame in Hx1 as [[Hs Hp _ Hnext _] _]. cbn [next_media_id state pending_changes set_state].
    rewrite Hnext. split; [lia|]. split; [done|]. eapply ids_ok_perm; [|exact Hids].
    rewrite !fmap_app, <-(skel_ids _ _ Hs), <-!app_assoc. apply Permutation_app_head. cbn.
    by rewrite (delete_Permutation (state x0) i x1 Hx2) at 1.
  - bind_inv H. destruct x as [[[local [[codec pt] d]]|] locals]; [|by injection H as <- <-; split; [cbn; lia|]].
    destruct (step_media_id _) as [id s1] eqn:Hid. injection Hid as <- <-.
    bind_inv H. destruct x as [t s2]. apply get_or_create_transport_kept in Hx1 as (Hs & Hnext & Hp). cbn in Hs, Hnext, Hp.
    unfold wrap in Hnext. rewrite Z.mod_small in Hnext by lia.
    assert (ids_ok ((media_id <$> new ++ state s2) ++ extra) (next_media_id s2)) as Hids2.
    { rewrite Hs, Hnext. eapply ids_ok_le; [|exact Hids]. lia. }
    destruct t as [[k|]|e]; injection H as <- <-; cbn [next_media_id state pending_changes push_events];
      (split; [lia|]); (split; [done|]); try exact Hids2.
    rewrite Hnext, Hs. eapply ids_ok_perm; [|apply ids_ok_add; [|exact Hids]]; [|lia].
    rewrite !fmap_app, <-!app_assoc. cbn. by rewrite <-Permutation_middle.
Qed.

Lemma receive_offer_lines_ids rnd now offer descs new extra response s res s' :
  ids_ok ((media_id <$> new ++ state s) ++ extra) (next_media_id s) -> 0 <= next_media_id s ->
  next_media_id s + Z.of_nat (length descs) < 2 ^ 32 ->
  receive_offer_lines rnd now offer descs new response s = Ret (res, s') ->
  0 <= next_media_id s' /\ pending_changes s' = pending_changes s /\ exists new',
  ids_ok ((media_id <$> new' ++ state s') ++ extra) (next_media_id s') /\ forall x new'', res = Ok (x, new'') -> new'' = new'.
Proof.
  revert new response s. induction descs as [|desc descs IH]; intros new response s Hids Hn Hlen; cbn [receive_offer_lines].
  - intros [= <- <-]. split; [done|]. split; [done|]. exists new. split; [done|]. by intros ? ? [= _ <-].
  - destruct (rnd _) as [r ssrc]. intros H. bind_inv H. destruct x as [res1 s1]. cbn in Hlen.
    apply (receive_offer_line_ids _ _ _ _ _ _ extra) in Hx as (Hn1 & Hp1 & Hids1); [|done|lia].
    destruct res1 as [[entry new1]|e].
    + apply IH in H as (Hn' & Hp' & Hnew'); [|done|lia|lia]. split; [done|]. split; [congruence|done].
    + injection H as <- <-. split; [lia|]. split; [done|]. exists new. by split.
Qed.

Lemma remove_all_kept ms s s' :
  IceAgent.exec_fold remove_one ms s = Ret s' ->
  state s' = state s /\ next_media_id s' = next_media_id s /\ pending_changes s' = pending_changes s.
Proof.
  revert s. induction ms as [|m ms IH]; intros s; cbn; [by intros [= <-]|]. intros H. bind_inv H.
  apply IH in H as (-> & -> & ->). unfold remove_one in Hx. bind_inv Hx. by injection Hx as <-.
Qed.

(** ** The ids of a session *)
Definition session_ids s : Prop :=
  ids_ok ((media_id <$> state s) ++ (pending_id <$> pending_added s)) (next_media_id s) /\ 0 <= next_media_id s.

Lemma frame_ids s s' : frame s s' -> session_ids s -> session_ids s'.
Proof. intros [Hs Hp _ Hn _]. unfold session_ids, pending_added. by rewrite (skel_ids _ _ Hs), Hp, Hn. Qed.

Lemma receive_sdp_offer_ids rnd now offer s res s' :
  session_ids s -> next_media_id s + Z.of_nat (length (SessionDescription.media_descriptions offer)) < 2 ^ 32 ->
  receive_sdp_offer rnd now offer s = Ret (res, s') -> session_ids s'.
Proof.
  unfold receive_sdp_offer. intros [Hids Hn] Hlen H. bind_inv H. destruct x as [lines s1].
  apply (receive_offer_lines_ids _ _ _ _ [] _ []) with (1 := Hids) in Hx as (Hn1 & Hp1 & new & Hids1 & Hnew); [|done|done].
  rewrite fmap_app in Hids1. unfold session_ids, pending_added in *. destruct lines as [[response new']|e].
  - bind_inv H. injection H as _ <-. apply remove_all_kept in Hx as (Hs & Hnx & Hp). cbn in *. rewrite Hs, Hnx, Hp, Hp1.
    split; [|done]. rewrite (Hnew _ _ eq_refl). eapply ids_ok_submseteq; [|exact Hids1].
    rewrite <-app_assoc. apply submseteq_skips_l. by apply submseteq_inserts_l.
  - injection H as _ <-. rewrite Hp1. split; [|done]. eapply ids_ok_submseteq; [|exact Hids1].
    rewrite <-app_assoc. by apply submseteq_inserts_l.
Qed.

(** ** Answers *)

(** The requested media that the lines to come can be about *)
Definition can_match (descs : list MD) p : Prop := Some (pending_mid p) ∈ MediaDescription.mid <$> descs.
#[local] Instance can_match_dec descs p : Decision (can_match descs p).
Proof. unfold can_match. apply _. Defined.
Definition to_come (descs : list MD) s : list Z := pending_id <$> filter (can_match descs) (pending_added s).

Lemma matches_answer_mid (ts : M (TransportEntry (A := A))) desc p mid :
  MediaDescription.mid desc = Some mid -> matches_answer ts desc p = Ret true -> pending_mid p = mid.
Proof. intros Hm. unfold matches_answer. rewrite Hm. case_decide; [done|]. intros [= Heq]. by apply bool_decide_eq_true in Heq. Qed.

Lemma receive_added_kept r ssrc now answer desc p s s' :
  receive_added r ssrc now answer desc p s = Ret s' ->
  media_id <$> state s' = (media_id <$> state s) ++ [pending_id p] /\
  next_media_id s' = next_media_id s /\ pending_changes s' = pending_changes s.
Proof using SML.
  unfold receive_added. intros H. do 4 bind_inv H. destruct x2 as [config local]. bind_inv H. destruct x2 as [[codec pt] d].
  injection H as <-. apply build_transport_frame in Hx0 as ([_ Hp _ Hn _] & Hs & _). cbn. by rewrite fmap_app, Hs.
Qed.

Lemma receive_answer_line_kept r ssrc now answer desc s s' :
  receive_answer_line r ssrc now answer desc s = Ret s' ->
  next_media_id s' = next_media_id s /\ pending_changes s' = pending_changes s /\
  exists l, media_id <$> state s' = (media_id <$> state s) ++ l /\
    (l = [] \/ exists p, l = [pending_id p] /\ p ∈ pending_added s /\
       forall mid, MediaDescription.mid desc = Some mid -> pending_mid p = mid).
Proof using SML.
  assert (forall s s' : SdpSession, next_media_id s' = next_media_id s -> pending_changes s' = pending_changes s ->
    media_id <$> state s' = media_id <$> state s -> next_media_id s' = next_media_id s /\ pending_changes s' = pending_changes s /\
    exists l, media_id <$> state s' = (media_id <$> state s) ++ l /\
    (l = [] \/ exists p, l = [pending_id p] /\ p ∈ pending_added s /\
       forall mid, MediaDescription.mid desc = Some mid -> pending_mid p = mid)) as Hsame.
  { intros s0 s1 Hn Hp Hs. split; [done|]. split; [done|]. exists []. split; [by rewrite app_nil_r|]. by left. }
  unfold receive_answer_line. case_decide; [intros [= <-]; by apply Hsame|]. intros H1. bind_inv H1. destruct x as [i|].
  - bind_inv H1. apply update_active_media_frame in H1 as [[Hs Hp _ Hn _] _]. apply Hsame; [done|done|]. by apply skel_ids.
  - bind_inv H1. destruct x as [i|]; [|injection H1 as <-; by apply Hsame]. bind_inv H1. apply unwrap_Ret in Hx1.
    apply position_exec_Some in Hx0 as (p & Hi & Hm). rewrite Hx1 in Hi. injection Hi as ->.
    apply receive_added_kept in H1 as (Hs & Hn & Hp). split; [done|]. split; [done|]. exists [pending_id p]. split; [done|].
    right. exists p. split; [done|]. split; [by eapply list_elem_of_lookup_2|]. intros mid Hmid. by eapply matches_answer_mid.
Qed.

Lemma receive_answer_lines_ids rnd i now answer descs s s' :
  ids_ok ((media_id <$> state s) ++ to_come descs s) (next_media_id s) ->
  NoDup (MediaDescription.mid <$> descs) -> Forall (fun desc => is_Some (MediaDescription.mid desc)) descs ->
  receive_answer_lines rnd i now answer descs s = Ret s' ->
  ids_ok (media_id <$> state s') (next_media_id s') /\ next_media_id s' = next_media_id s.
Proof using SML.
  revert i s. induction descs as [|desc descs IH]; intros i s Hids Hnd Hsome; cbn [receive_answer_lines].
  - intros [= <-]. split; [|done]. eapply ids_ok_submseteq; [|exact Hids]. by apply submseteq_inserts_r.
  - intros H. bind_inv H. apply receive_answer_line_kept in Hx as (Hn & Hp & l & Hs & Hl).
    apply Forall_cons in Hsome as [[mid Hmid] Hsome]. cbn in Hnd. apply NoDup_cons in Hnd as [Hnin Hnd].
    apply IH in H as [Hids' Hn']; [split; [done|congruence]| |done|done].
    rewrite Hn. eapply ids_ok_submseteq; [|exact Hids]. rewrite Hs, <-app_assoc. apply submseteq_skips_l.
    unfold to_come, pending_added. rewrite Hp. fold (pending_added s).
    destruct Hl as [->|(p & -> & Hin & Hpm)].
    + apply fmap_submseteq, filter_weaken. intros p Hc. unfold can_match in *. cbn. by right.
    + change ([pending_id p] ++ ?l) with (pending_id p :: l). rewrite <-fmap_cons. apply fmap_submseteq.
      apply filter_take_out; [|done| |].
      * intros q Hc. unfold can_match in *. cbn. by right.
      * unfold can_match. cbn. rewrite (Hpm mid Hmid), <-Hmid. left.
      * unfold can_match. by rewrite (Hpm mid Hmid), <-Hmid.
Qed.

(** What says which media a line is about: an identification of its own *)
Definition identified (answer : SD) : Prop :=
  NoDup (MediaDescription.mid <$> SessionDescription.media_descriptions answer) /\
  Forall (fun desc => is_Some (MediaDescription.mid desc)) (SessionDescription.media_descriptions answer).

Lemma receive_sdp_answer_ids rnd now answer s s' :
  session_ids s -> identified answer -> receive_sdp_answer rnd now answer s = Ret s' -> session_ids s'.
Proof using SML.
  unfold receive_sdp_answer. intros [Hids Hn] [Hnd Hsome] H. bind_inv H. injection H as <-.
  apply receive_answer_lines_ids in Hx as [Hids' Hn']; [|eapply ids_ok_submseteq; [|exact Hids]|done|done].
  - split; [|cbn; lia]. cbn. by rewrite app_nil_r.
  - apply submseteq_skips_l. apply fmap_submseteq, sublist_submseteq, sublist_filter.
Qed.

(** ** The other operations *)
Lemma add_media_ids r k d s id s' :
  session_ids s -> next_media_id s < 2 ^ 32 - 1 -> add_media r k d s = Ret (id, s') -> session_ids s' /\ id = next_media_id s.
Proof using SML.
  intros [Hids Hn] Hlt. unfold add_media. destruct (step_media_id s) as [id' s0] eqn:E. injection E as <- <-.
  set (found := fst <$> _). set (ty := default _ _). clearbody found ty. intros H. bind_inv H.
  destruct x as [[standalone bundle] s1]. bind_inv H. injection H as <- <-.
  assert (state s1 = state s /\ next_media_id s1 = wrap 32 (next_media_id s + 1) /\ pending_changes s1 = pending_changes s) as (Hs & Hnx & Hp).
  { destruct (Options.bundle_policy _).
    - bind_inv Hx. destruct x0 as [k1 s2]. injection Hx as _ _ <-. apply insert_builder_frame in Hx1 as ([_ ? _ ? _] & ? & _). done.
    - destruct found as [k1|]; [by injection Hx as _ _ <-|].
      bind_inv Hx. destruct x0 as [k1 s2]. injection Hx as _ _ <-. apply insert_builder_frame in Hx1 as ([_ ? _ ? _] & ? & _). done. }
  unfold wrap in Hnx. rewrite Z.mod_small in Hnx by lia. split; [|done]. unfold session_ids, pending_added in *. cbn.
  rewrite Hs, Hnx, Hp, omap_app, fmap_app. split; [|lia]. eapply ids_ok_perm; [|apply ids_ok_add; [|exact Hids]]; [|done].
  cbn. rewrite app_assoc. by rewrite <-Permutation_cons_append.
Qed.

(** Operations in which the counter does not wrap, and answers are identified *)
Definition orderly (o : op (K := K) (LK := LK)) s : Prop :=
  match o with
  | OpAddMedia _ _ _ => next_media_id s < 2 ^ 32 - 1
  | OpOffer _ _ offer => next_media_id s + Z.of_nat (length (SessionDescription.media_descriptions offer)) < 2 ^ 32
  | OpAnswer _ _ answer => identified answer
  | _ => True
  end.
Definition orderly_step s s' : Prop := exists o, orderly o s /\ apply_op o s = Ret s'.
Definition orderly_reachable s : Prop :=
  exists address options id version, rtc orderly_step (session_new address options id version) s.

Lemma orderly_step_ids s s' : orderly_step s s' -> session_ids s -> session_ids s'.
Proof using SML.
  intros (o & Ho & H) Hids. pose proof (quiet_frame _ _ _ H) as Hf.
  assert (forall c, (forall p, c <> AddMedia p) -> session_ids (set_pending_changes (pending_changes s ++ [c]) s)) as Hreq.
  { intros c Hc. unfold session_ids, pending_added in *. cbn. rewrite omap_app.
    destruct c as [p| |]; [by destruct (Hc p)| |]; cbn; by rewrite app_nil_r. }
  destruct o; try (by eapply frame_ids); cbn [apply_op orderly] in H, Ho;
    try match type of H with ?m ≫= _ = _ => bind_inv H; destruct x as [x s1] end; try injection H as <-.
  - unfold add_local_media. destruct (assign_pts _ _) as [[? ?]|]; done.
  - by eapply add_media_ids.
  - unfold remove_media. case_match; [|done]. by apply Hreq.
  - unfold update_media. case_match; [|done]. by apply Hreq.
  - done.
  - by eapply receive_sdp_offer_ids.
  - by eapply receive_sdp_answer_ids.
Qed.

Lemma orderly_ids s : orderly_reachable s -> reachable s /\ session_ids s.
Proof using SML.
  intros (address & options & id & version & H).
  assert (session_ids (session_new address options id version)) as Hids.
  { split; [|done]. split; [constructor|]. by intros ? ?%elem_of_nil. }
  split.
  - exists address, options, id, version. clear Hids. induction H as [|a b c (o & _ & H1) _ IH]; [apply rtc_refl|].
    eapply rtc_l; [by exists o|done].
  - clear -H Hids SML. induction H; [done|]. apply IHrtc. by eapply orderly_step_ids.
Qed.
End ids.
