(* ===== verification/MediaOfferProps.v ===== *)
(** * Theorems about offers and answers of a media session *)
From S2P Require Import Prelude Wire Text StunHeader StunAttr JitterBuffer RtpExtensions RtpSession Slots.
From S2P Require IceStun IceAgent.
From S2P Require Import SdpFields SdpAttributes SdpCrypto SdpSession MediaKeys MediaTransport MediaSession MediaOffer MediaToy MediaSessionProps MediaIds.
Local Open Scope Z_scope.
Local Notation MD := MediaDescription.t.
Local Notation SD := SessionDescription.t.

Lemma exec_map_Ret {X Y} (f : X -> exec Y) l ys : exec_map f l = Ret ys <-> Forall2 (fun x y => f x = Ret y) l ys.
Proof.
  revert ys. induction l as [|x l IH]; intros ys; cbn.
  - split; [intros [= <-]; constructor|]. by intros ->%Forall2_nil_inv_l.
  - split.
    + intros H. bind_inv H. bind_inv H. injection H as <-. constructor; [done|by apply IH].
    + intros (y & ys' & Hy & Hys & ->)%Forall2_cons_inv_l. apply IH in Hys. by rewrite Hy; cbn; rewrite Hys.
Qed.

(** ** Codecs *)
Definition codec_wf (c : Codec.t) : Prop :=
  exists pt, Codec.pt c = Some pt /\ if Codec.pt_is_static c then 0 <= pt < 35 else 96 <= pt <= 127.

#[export] Instance codec_wf_dec c : Decision (codec_wf c).
Proof.
  unfold codec_wf. destruct (Codec.pt c) as [pt|]; [|right; by intros (? & ? & _)].
  assert (Decision (if Codec.pt_is_static c then 0 <= pt < 35 else 96 <= pt <= 127)) as [H|H]
    by (destruct (Codec.pt_is_static c); apply _); [left; eauto|right].
  by intros (? & [= <-] & ?).
Defined.

Lemma choose_in_Some desc d cs c p n :
  LocalMedia.choose_in desc d cs = Ret (Some (c, p, n)) ->
  c ∈ cs /\ (exists pt, Codec.pt c = Some pt /\ LocalMedia.codec_pt_in desc c pt = Some p) /\
  n = LocalMedia.negotiate_direction desc d /\ send n || recv n = true.
Proof.
  induction cs as [|c' cs IH]; cbn [LocalMedia.choose_in]; [done|]. intros H. bind_inv H. apply unwrap_Ret in Hx.
  destruct (LocalMedia.codec_pt_in desc c' x) as [pt|] eqn:E.
  - destruct (_ || _) eqn:Ed in H; [|done]. injection H as -> -> <-. split; [left|]. eauto.
  - apply IH in H as (? & ?). split; [by right|done].
Qed.

(** If a codec fits, one is chosen. *)
Lemma choose_in_found desc d cs c pt p :
  Forall (fun c => is_Some (Codec.pt c)) cs -> c ∈ cs -> Codec.pt c = Some pt -> LocalMedia.codec_pt_in desc c pt = Some p ->
  send (LocalMedia.negotiate_direction desc d) || recv (LocalMedia.negotiate_direction desc d) = true ->
  exists c' p', LocalMedia.choose_in desc d cs = Ret (Some (c', p', LocalMedia.negotiate_direction desc d)).
Proof.
  intros Hall Hin Hpt Hp Hd. induction Hall as [|c' cs [pt' Hpt'] Hall IH]; [by apply elem_of_nil in Hin|].
  cbn [LocalMedia.choose_in]. rewrite Hpt'. cbn [unwrap mbind exec_bind].
  destruct (LocalMedia.codec_pt_in desc c' pt') as [p'|] eqn:E.
  - rewrite Hd. eauto.
  - apply elem_of_cons in Hin as [->|Hin]; [congruence|by apply IH].
Qed.

(** The direction of a media, from that of the description of the peer *)
Lemma negotiate_direction_eq desc d :
  LocalMedia.negotiate_direction desc d =
    {| send := recv (bools_of (MediaDescription.direction desc)) && send d;
       recv := send (bools_of (MediaDescription.direction desc)) && recv d |}.
Proof. unfold LocalMedia.negotiate_direction. destruct (MediaDescription.direction desc), d as [[] []]; done. Qed.

Lemma bools_of_direction d : bools_of (direction_of d) = d.
Proof. by destruct d as [[] []]. Qed.

Definition opposite (d : DirectionBools) : DirectionBools := {| send := recv d; recv := send d |}.
Lemma bools_of_flipped d : bools_of (Direction.flipped d) = opposite (bools_of d).
Proof. by destruct d. Qed.

Section offer_props.
Context {S : Srtp} {B : Base64} {L : Ssl S} {RT : RtpTypes} {W : WireOps} {D : Dns} {A : Type} {I : IceOps A}.
Context {T : TimeCrate} {RW : RtcpWriter} {HO : HashOrder}.
Context {K : Type} {M : Type -> Type} {SM : Slots K M} {SML : SlotsLaws K M}.
Context {LK : Type} {LM : Type -> Type} {SLM : Slots LK LM} {SLML : SlotsLaws LK LM}.
Local Notation SdpSession := (SdpSession (K := K) (M := M) (LK := LK) (LM := LM) (A := A)).
Local Notation ActiveMedia := (ActiveMedia (K := K) (LK := LK)).
Local Notation PendingMedia := (PendingMedia (K := K) (LK := LK)).
Implicit Types (s : SdpSession) (m : ActiveMedia) (p : PendingMedia) (desc : MD).

(** *** What the lines of a transport leave as it is *)
Definition core desc := (MediaDescription.media desc, MediaDescription.direction desc, MediaDescription.mid desc,
  MediaDescription.rtpmap desc, MediaDescription.fmtp desc, MediaDescription.rtcp_mux desc).
Lemma populate_ice_core (agent : option A) desc : core (populate_ice agent desc) = core desc.
Proof. by destruct agent. Qed.
Lemma populate_desc_core (t : Transport A) desc : core (populate_desc t desc) = core desc.
Proof. unfold populate_desc. rewrite populate_ice_core. by destruct (kind t). Qed.
Lemma entry_populate_desc_core e desc : core (entry_populate_desc (A := A) e desc) = core desc.
Proof.
  destruct e as [t|b]; [apply populate_desc_core|]. unfold entry_populate_desc, builder_populate_desc.
  rewrite populate_ice_core. by destruct (builder_kind b).
Qed.

Lemma description_for_active m o s desc :
  media_description_for_active m o s = Ret desc ->
  Media.media_type (MediaDescription.media desc) = media_type m /\
  Media.fmts (MediaDescription.media desc) = [codec_pt m] /\
  MediaDescription.direction desc = default (direction_of (direction m)) o /\
  MediaDescription.mid desc = mid m /\
  MediaDescription.rtpmap desc = [{|
    RtpMap.payload := codec_pt m; RtpMap.encoding := Codec.name (codec m);
    RtpMap.clock_rate := Codec.clock_rate (codec m); RtpMap.params := None |}].
Proof.
  unfold media_description_for_active. intros H. do 3 bind_inv H. injection H as <-.
  match goal with |- context [populate_desc ?t ?d] => pose proof (populate_desc_core t d) as E end.
  by injection E as -> -> -> -> _ _.
Qed.

Lemma description_for_pending p s desc :
  pending_description p s = Ret desc ->
  exists local, slots_get (local_media s) (pending_local_media_id p) = Some local /\
    Media.media_type (MediaDescription.media desc) = Codecs.media_type (LocalMedia.codecs local) /\
    MediaDescription.direction desc = pending_direction p /\
    MediaDescription.mid desc = Some (pending_mid p) /\
    Media.fmts (MediaDescription.media desc) = RtpMap.payload <$> MediaDescription.rtpmap desc /\
    Forall2 (fun codec r => codec_rtpmap codec = Ret r) (Codecs.codecs (LocalMedia.codecs local)) (MediaDescription.rtpmap desc).
Proof.
  unfold pending_description. intros H. do 2 bind_inv H. destruct (entry_ports x0) as [rtp rtcp]. do 2 bind_inv H.
  injection H as <-. apply unwrap_Ret in Hx. exists x. split; [done|].
  match goal with |- context [entry_populate_desc ?t ?d] => pose proof (entry_populate_desc_core t d) as E end.
  injection E as -> -> -> -> _ _. cbn. repeat (split; [done|]). by apply exec_map_Ret.
Qed.

(** *** The codec that the offerer takes from the answer *)
Definition answer_line (desc : MD) (c : Codec.t) (pt : Z) (d : DirectionBools) (answer : MD) : Prop :=
  Media.media_type (MediaDescription.media answer) = Media.media_type (MediaDescription.media desc) /\
  Media.fmts (MediaDescription.media answer) = [pt] /\
  MediaDescription.direction answer = direction_of d /\
  exists params, MediaDescription.rtpmap answer =
    [{| RtpMap.payload := pt; RtpMap.encoding := Codec.name c; RtpMap.clock_rate := Codec.clock_rate c; RtpMap.params := params |}].

(** A codec that fits the answer has the number of the answer. *)
Lemma codec_pt_in_answer desc c pt d answer c' pt' q :
  answer_line desc c pt d answer -> LocalMedia.codec_pt_in answer c' pt' = Some q -> q = pt.
Proof.
  intros (_ & Hf & _ & params & Hr). unfold LocalMedia.codec_pt_in. rewrite Hf, Hr.
  destruct (Codec.pt_is_static c').
  - case_decide as Hin; [|done]. apply list_elem_of_singleton in Hin. congruence.
  - cbn. case_decide; cbn; congruence.
Qed.

Lemma codec_rtpmap_Ret c r :
  codec_rtpmap c = Ret r -> Codec.pt c = Some (RtpMap.payload r) /\ RtpMap.encoding r = Codec.name c /\ RtpMap.clock_rate r = Codec.clock_rate c.
Proof. unfold codec_rtpmap. intros H. bind_inv H. apply unwrap_Ret in Hx. by injection H as <-. Qed.

(** Among the codecs of the offer is one that fits what the answerer took. *)
Lemma offered_codec_fits desc (cs : list Codec.t) c ptc pt d answer :
  Forall2 (fun codec r => codec_rtpmap codec = Ret r) cs (MediaDescription.rtpmap desc) ->
  Media.fmts (MediaDescription.media desc) = RtpMap.payload <$> MediaDescription.rtpmap desc ->
  Forall codec_wf cs -> codec_wf c -> Codec.pt c = Some ptc -> LocalMedia.codec_pt_in desc c ptc = Some pt ->
  answer_line desc c pt d answer ->
  exists c', c' ∈ cs /\ Codec.pt c' = Some pt /\ LocalMedia.codec_pt_in answer c' pt = Some pt.
Proof.
  intros Hcs Hfmts Hwf (ptc' & Hptc & Hst) Hc Hpt (_ & Haf & _ & params & Har). rewrite Hc in Hptc. injection Hptc as <-.
  unfold LocalMedia.codec_pt_in in *. rewrite Haf, Har.
  assert (forall r, r ∈ MediaDescription.rtpmap desc -> exists c', c' ∈ cs /\ codec_rtpmap c' = Ret r) as Hfrom.
  { intros r (i & Hi)%list_elem_of_lookup. destruct (Forall2_lookup_r _ _ _ _ _ Hcs Hi) as (c' & Hc' & ?).
    exists c'. split; [by eapply list_elem_of_lookup_2|done]. }
  rewrite Forall_forall in Hwf. destruct (Codec.pt_is_static c).
  - case_decide as Hin; [|done]. injection Hpt as <-. rewrite Hfmts in Hin. apply list_elem_of_fmap in Hin as (r & Hr & Hin).
    destruct (Hfrom r Hin) as (c' & Hc' & (Hpt' & _)%codec_rtpmap_Ret). rewrite <-Hr in Hpt'. exists c'. split; [done|]. split; [done|].
    destruct (Hwf c' Hc') as (q & Hq & Hst'). rewrite Hpt' in Hq. injection Hq as <-.
    destruct (Codec.pt_is_static c'); [|lia]. rewrite decide_True; [done|]. by apply list_elem_of_singleton.
  - apply fmap_Some in Hpt as (r & Hr & ->). apply fmap_Some in Hr as ([i r'] & Hr & ->).
    apply list_find_Some in Hr as (Hr & [He Hrate] & _). cbn [snd] in *.
    destruct (Hfrom r') as (c' & Hc' & (Hpt' & He' & Hrate')%codec_rtpmap_Ret); [by eapply list_elem_of_lookup_2|].
    exists c'. split; [done|]. split; [done|]. destruct (Codec.pt_is_static c').
    + rewrite decide_True; [done|]. by apply list_elem_of_singleton.
    + cbn. rewrite decide_True; [done|]. cbn. split; congruence.
Qed.

(** C10: what two sessions make of one offered media agrees. When the answerer
    takes a codec for an offered media and describes it, the offerer takes a
    codec from that description, and does not panic; both use the same payload
    type, and each sends just when the other receives. The offerer must not
    offer to send or receive what its local media does not. *)
Theorem negotiation_agrees p (sa sb : SdpSession) offer la lb lb' cb pt db now ssrc id (k : K) (kb : LK) avpf answer :
  pending_description p sa = Ret offer ->
  slots_get (local_media sa) (pending_local_media_id p) = Some la ->
  Forall codec_wf (Codecs.codecs (LocalMedia.codecs la)) ->
  (send (bools_of (pending_direction p)) -> send (LocalMedia.direction la)) ->
  (recv (bools_of (pending_direction p)) -> recv (LocalMedia.direction la)) ->
  Forall codec_wf (Codecs.codecs (LocalMedia.codecs lb)) ->
  LocalMedia.maybe_use_for_offer offer lb = Ret (Some (cb, pt, db), lb') ->
  media_description_for_active
    (new_media now ssrc id kb (Media.media_type (MediaDescription.media offer)) avpf offer db k pt cb) None sb = Ret answer ->
  exists ca la', LocalMedia.choose_codec_from_answer answer la = Ret (Some (ca, pt, opposite db), la') /\
    ca ∈ Codecs.codecs (LocalMedia.codecs la) /\ cb ∈ Codecs.codecs (LocalMedia.codecs lb) /\
    matches_answer (transports sa) answer p = Ret (bool_decide (pending_media_type p = Codecs.media_type (LocalMedia.codecs la))).
Proof using Type.
  intros Hoffer Hla Hwfa Hsend Hrecv Hwfb Hb Hanswer.
  apply description_for_pending in Hoffer as (la0 & Hla0 & Hty & Hdir & Hmid & Hfmts & Hcs).
  rewrite Hla in Hla0. injection Hla0 as <-.
  apply description_for_active in Hanswer as (Hty' & Hf' & Hdir' & Hmid' & Hr').
  apply maybe_use_for_offer_Some in Hb as [_ Hb].
  pose proof Hb as (Hcb & (ptc & Hptc & Hpt) & Hdb & Hany)%choose_in_Some.
  assert (answer_line offer cb pt db answer) as Hline.
  { split; [done|]. split; [done|]. split; [done|]. eexists. exact Hr'. }
  rewrite Forall_forall in Hwfb.
  destruct (offered_codec_fits offer (Codecs.codecs (LocalMedia.codecs la)) cb ptc pt db answer) as (c' & Hc' & Hptc' & Hfit);
    try done; [by apply Hwfb|].
  assert (LocalMedia.negotiate_direction answer (LocalMedia.direction la) = opposite db) as Hd.
  { rewrite negotiate_direction_eq, Hdir'. cbn [default direction new_media]. rewrite bools_of_direction.
    rewrite negotiate_direction_eq, Hdir in Hdb. rewrite Hdb. unfold opposite. cbn.
    destruct (bools_of (pending_direction p)) as [sd rc], (LocalMedia.direction la) as [sa' ra], (LocalMedia.direction lb) as [sb' rb].
    cbn in *. destruct sd, rc, sa', ra, sb', rb; naive_solver. }
  assert (exists ca q, LocalMedia.choose_in answer (LocalMedia.direction la) (Codecs.codecs (LocalMedia.codecs la)) =
                         Ret (Some (ca, q, opposite db))) as (ca & q & Hca).
  { rewrite <-Hd. eapply choose_in_found; [|exact Hc'|exact Hptc'|exact Hfit|].
    - eapply Forall_impl; [exact Hwfa|]. intros ? (x & Hx & _). eauto.
    - rewrite Hd. cbn. by rewrite orb_comm. }
  pose proof Hca as (Hin & (q' & _ & Hq) & _)%choose_in_Some.
  apply (codec_pt_in_answer _ _ _ _ _ _ _ _ Hline) in Hq as ->.
  exists ca, (la <| LocalMedia.use_count := wrap 32 (LocalMedia.use_count la + 1) |>).
  split; [|split; [done|split; [done|]]].
  - unfold LocalMedia.choose_codec_from_answer, LocalMedia.choose_codec. rewrite decide_False.
    + by rewrite Hca.
    + intros Hne. apply Hne. rewrite Hty'. cbn. by rewrite Hty.
  - unfold matches_answer. rewrite Hty', Hmid', Hty. cbn [media_type mid new_media]. rewrite Hmid.
    case_decide as Hne; [by rewrite bool_decide_eq_false_2|]. rewrite !bool_decide_eq_true_2; [done|naive_solver|done].
Qed.

(** ** The answer to an offer *)

(** The media that a line of the offer is about: one of its type, with the same
    identification where both have one, and else with the port that is known of
    the peer. *)
Definition identifies s desc m : Prop :=
  media_type m = Media.media_type (MediaDescription.media desc) /\
  match mid m, MediaDescription.mid desc with
  | Some a, Some b => a = b
  | _, _ => exists t, slots_get (transports s) (media_transport m) = Some (EntryTransport t) /\
      IceAgent.addr_port (remote_rtp_address t) = Media.port (MediaDescription.media desc)
  end.

(** What the line leaves of a direction: the answerer sends what both the
    offerer receives and the local media sends, and the other way round. *)
Definition agreed desc (d : DirectionBools) : DirectionBools := {|
  send := recv (bools_of (MediaDescription.direction desc)) && send d;
  recv := send (bools_of (MediaDescription.direction desc)) && recv d |}.
(** A codec of the local media that the line has, with its number there *)
Definition takes_codec desc (l : LocalMedia.t) (c : Codec.t) (pt : Z) : Prop :=
  c ∈ Codecs.codecs (LocalMedia.codecs l) /\ exists n, Codec.pt c = Some n /\ LocalMedia.codec_pt_in desc c n = Some pt.
(** A local media that can take the line: it is not used up, is of the type of
    the line, and has a direction and a codec in common with it. *)
Definition suits desc (l : LocalMedia.t) : Prop :=
  LocalMedia.limit l <> LocalMedia.use_count l /\
  Codecs.media_type (LocalMedia.codecs l) = Media.media_type (MediaDescription.media desc) /\
  send (agreed desc (LocalMedia.direction l)) || recv (agreed desc (LocalMedia.direction l)) = true /\
  exists c pt, takes_codec desc l c pt.
(** A local media after the lines in [uses] *)
Definition use_once (l : LocalMedia.t) : LocalMedia.t :=
  l <| LocalMedia.use_count := wrap 32 (LocalMedia.use_count l + 1) |>.
Definition used s (uses : list LK) (k : LK) : option LocalMedia.t :=
  Nat.iter (length (filter (fun k' => k' = k) uses)) use_once <$> slots_get (local_media s) k.
Definition supported (p : TransportProtocol.t) : bool :=
  match p with
  | TransportProtocol.RtpAvp | TransportProtocol.RtpAvpf | TransportProtocol.RtpSavp | TransportProtocol.RtpSavpf
  | TransportProtocol.UdpTlsRtpSavp | TransportProtocol.UdpTlsRtpSavpf => true
  | _ => false
  end.

(** What becomes of the lines of an offer to the session [s]: the media each
    line gets, if any. [left] are the media of the session that no line was
    about so far, [uses] the local media that took a line. *)
Inductive lines s : list ActiveMedia -> list LK -> list MD -> list (option ActiveMedia) -> Prop :=
| LinesDone left uses : lines s left uses [] []
| LineKnown left uses i m desc descs os :
    left !! i = Some m -> identifies s desc m -> Forall (fun m' => ~ identifies s desc m') (take i left) ->
    lines s (delete i left) uses descs os ->
    lines s left uses (desc :: descs) (Some (set_direction (opposite (bools_of (MediaDescription.direction desc))) m) :: os)
| LineNew left uses desc k l m descs os :
    Forall (fun m' => ~ identifies s desc m') left -> used s uses k = Some l -> suits desc l ->
    media_type m = Media.media_type (MediaDescription.media desc) -> mid m = MediaDescription.mid desc ->
    local_media_id m = k -> direction m = agreed desc (LocalMedia.direction l) -> takes_codec desc l (codec m) (codec_pt m) ->
    lines s left (uses ++ [k]) descs os ->
    lines s left uses (desc :: descs) (Some m :: os)
| LineUnsuited left uses desc descs os :
    Forall (fun m' => ~ identifies s desc m') left -> (forall k l, used s uses k = Some l -> ~ suits desc l) ->
    lines s left uses descs os ->
    lines s left uses (desc :: descs) (None :: os)
| LineUnsupported left uses desc k l descs os :
    Forall (fun m' => ~ identifies s desc m') left -> used s uses k = Some l -> suits desc l ->
    supported (Media.proto (MediaDescription.media desc)) = false ->
    lines s left (uses ++ [k]) descs os ->
    lines s left uses (desc :: descs) (None :: os).

(** The line of the answer: that of the media, or the one that refuses *)
Definition describes desc (o : option ActiveMedia) (answered : MD) : Prop :=
  match o with
  | Some m =>
      Media.media_type (MediaDescription.media answered) = media_type m /\
      Media.fmts (MediaDescription.media answered) = [codec_pt m] /\
      bools_of (MediaDescription.direction answered) = direction m /\
      MediaDescription.mid answered = mid m /\
      (fun r => (RtpMap.payload r, RtpMap.encoding r, RtpMap.clock_rate r)) <$> MediaDescription.rtpmap answered =
        [(codec_pt m, Codec.name (codec m), Codec.clock_rate (codec m))]
  | None =>
      Media.media_type (MediaDescription.media answered) = Media.media_type (MediaDescription.media desc) /\
      Media.port (MediaDescription.media answered) = 0 /\
      MediaDescription.direction answered = Direction.Inactive /\
      MediaDescription.mid answered = MediaDescription.mid desc
  end.

Definition entry_for (ms : list ActiveMedia) desc (o : option ActiveMedia) (entry : SdpResponseEntry) : Prop :=
  match o with
  | Some m => m ∈ ms /\ entry = Active (media_id m)
  | None => entry = reject desc
  end.

(** *** The media of a line *)
Lemma matches_identifies s (si : SdpSession) desc m b :
  built (transports s) (media_transport m) ->
  (forall k e, slots_get (transports s) k = Some e -> slots_get (transports si) k = Some e) ->
  matches (transports si) desc m = Ret b -> if b then identifies s desc m else ~ identifies s desc m.
Proof.
  intros [t Ht] Hk. unfold matches, identifies. destruct (decide (media_type m = Media.media_type (MediaDescription.media desc))) as [E|E].
  2:{ rewrite decide_True by done. intros [= <-]. by intros [? _]. }
  rewrite decide_False by tauto.
  assert ((entry ← unwrap (slots_get (transports si) (media_transport m));
    Ret match entry with
        | EntryTransport t => bool_decide (IceAgent.addr_port (remote_rtp_address t) = Media.port (MediaDescription.media desc))
        | EntryBuilder _ => false
        end) = Ret b ->
    if b then exists t, slots_get (transports s) (media_transport m) = Some (EntryTransport t) /\
                IceAgent.addr_port (remote_rtp_address t) = Media.port (MediaDescription.media desc)
    else ~ exists t, slots_get (transports s) (media_transport m) = Some (EntryTransport t) /\
                IceAgent.addr_port (remote_rtp_address t) = Media.port (MediaDescription.media desc)) as Hport.
  { rewrite (Hk _ _ Ht). cbn. intros [= <-]. case_bool_decide; [by eauto|]. intros (t' & Ht' & ?). rewrite Ht in Ht'. naive_solver. }
  destruct (mid m) as [a|], (MediaDescription.mid desc) as [b'|]; cbn [zip];
    try (intros H%Hport; destruct b; [by split|tauto]).
  intros [= <-]. case_bool_decide; [by split|tauto].
Qed.

Lemma position_exec_spec {X} (f : X -> exec bool) l o :
  position_exec f l = Ret o ->
  match o with
  | Some i => (exists x, l !! i = Some x /\ f x = Ret true) /\ Forall (fun x => f x = Ret false) (take i l)
  | None => Forall (fun x => f x = Ret false) l
  end.
Proof.
  revert o. induction l as [|x l IH]; intros o; cbn; [by intros [= <-]|]. intros H. bind_inv H.
  destruct x0; [injection H as <-; cbn; eauto|]. bind_inv H. injection H as <-. apply IH in Hx0.
  destruct x0 as [i|]; cbn; [|by constructor]. destruct Hx0. split; [done|]. by constructor.
Qed.

(** *** The local media of a line *)
Lemma negotiate_direction_agreed desc d : LocalMedia.negotiate_direction desc d = agreed desc d.
Proof. apply negotiate_direction_eq. Qed.

Lemma choose_in_None desc d cs :
  LocalMedia.choose_in desc d cs = Ret None -> send (agreed desc d) || recv (agreed desc d) = true ->
  forall c n, c ∈ cs -> Codec.pt c = Some n -> LocalMedia.codec_pt_in desc c n = None.
Proof.
  intros H Hd. rewrite <-negotiate_direction_agreed in Hd. revert H. induction cs as [|c' cs IH]; cbn [LocalMedia.choose_in].
  - by intros _ c n ?%elem_of_nil.
  - intros H. bind_inv H. apply unwrap_Ret in Hx. destruct (LocalMedia.codec_pt_in desc c' x) eqn:E; [by rewrite Hd in H|].
    intros c n [->|Hin]%elem_of_cons; [congruence|by apply IH].
Qed.

Lemma maybe_use_for_offer_spec desc l o l' :
  LocalMedia.maybe_use_for_offer desc l = Ret (o, l') ->
  match o with
  | Some (c, pt, d) => suits desc l /\ takes_codec desc l c pt /\ d = agreed desc (LocalMedia.direction l) /\ l' = use_once l
  | None => ~ suits desc l /\ l' = l
  end.
Proof.
  unfold LocalMedia.maybe_use_for_offer, LocalMedia.choose_codec. case_decide as Hd.
  { intros [= <- <-]. split; [|done]. intros (? & ? & _). tauto. }
  intros H. bind_inv H. destruct x as [[[c pt] d]|]; injection H as <- <-.
  - apply choose_in_Some in Hx as (Hc & Hpt & -> & Hany). rewrite negotiate_direction_agreed in *.
    assert (takes_codec desc l c pt) by by split. split; [|done]. split; [tauto|].
    split; [destruct (decide (Codecs.media_type (LocalMedia.codecs l) = Media.media_type (MediaDescription.media desc))); tauto|].
    split; [done|]. by exists c, pt.
  - split; [|done]. intros (_ & _ & Hany & c & pt & Hc & n & Hn & Hpt).
    by rewrite (choose_in_None _ _ _ Hx Hany _ _ Hc Hn) in Hpt.
Qed.

Lemma find_local_media_spec desc es (lm lm' : LM LocalMedia.t) o :
  (forall k l, (k, l) ∈ es -> slots_get lm k = Some l) -> find_local_media desc es lm = Ret (o, lm') ->
  match o with
  | Some (k, (c, pt, d)) => exists l, slots_get lm k = Some l /\ suits desc l /\ takes_codec desc l c pt /\
      d = agreed desc (LocalMedia.direction l) /\
      forall k', slots_get lm' k' = if decide (k' = k) then Some (use_once l) else slots_get lm k'
  | None => (forall k l, (k, l) ∈ es -> ~ suits desc l) /\ forall k, slots_get lm' k = slots_get lm k
  end.
Proof using SLML.
  revert lm. induction es as [|[k l] es IH]; intros lm Hes; cbn [find_local_media].
  - intros [= <- <-]. split; [|done]. by intros k l ?%elem_of_nil.
  - intros H. bind_inv H. destruct x as [c l']. apply maybe_use_for_offer_spec in Hx.
    assert (slots_get lm k = Some l) as Hl by (apply Hes; left). destruct c as [[[c pt] d]|].
    + destruct Hx as (Hs & Hc & -> & ->). injection H as <- <-. exists l. do 4 (split; [done|]). intros k'. rewrite slots_get_set.
      case_decide as E; [|done]. subst k'. by rewrite Hl.
    + destruct Hx as [Hs ->].
      assert (forall k', slots_get (slots_set k l lm) k' = slots_get lm k') as Hsame.
      { intros k'. rewrite slots_get_set. case_decide as E; [|done]. subst k'. by rewrite Hl. }
      apply IH in H; [|intros k' l' Hin; rewrite Hsame; apply Hes; by right].
      destruct o as [[k' [[c pt] d]]|].
      * destruct H as (l' & Hl' & ? & ? & ? & Hset). rewrite Hsame in Hl'. exists l'. do 4 (split; [done|]).
        intros k2. by rewrite Hset, Hsame.
      * destruct H as [Hno Hk]. split; [|intros k2; by rewrite Hk, Hsame].
        intros k2 l2 [[= -> ->]|Hin]%elem_of_cons; [done|by eapply Hno].
Qed.
(** *** One line *)
Definition during s (left : list ActiveMedia) (uses : list LK) (si : SdpSession) : Prop :=
  state si = left /\
  (forall k e, slots_get (transports s) k = Some e -> slots_get (transports si) k = Some e) /\
  (forall k, slots_get (local_media si) k = used s uses k).

Lemma used_app s uses k k' :
  used s (uses ++ [k]) k' = if decide (k' = k) then use_once <$> used s uses k' else used s uses k'.
Proof.
  unfold used. rewrite filter_app, length_app. case_decide as E.
  - subst k'. rewrite filter_cons_True by done. cbn. rewrite Nat.add_comm. cbn. by destruct (slots_get _ _).
  - rewrite filter_cons_False by congruence. cbn. by rewrite Nat.add_0_r.
Qed.
Lemma during_use s left uses si k l (lm : LM LocalMedia.t) :
  during s left uses si -> slots_get (local_media si) k = Some l ->
  (forall k', slots_get lm k' = if decide (k' = k) then Some (use_once l) else slots_get (local_media si) k') ->
  during s left (uses ++ [k]) (set_local_media lm si).
Proof.
  intros (? & ? & Hl) Hk Hlm. split; [done|]. split; [done|]. intros k'. cbn. rewrite Hlm, used_app, <-Hl.
  case_decide as E; [|done]. subst k'. by rewrite Hk.
Qed.

Lemma delete_alter {X} (f : X -> X) i (l : list X) : delete i (alter f i l) = delete i l.
Proof. revert i. induction l as [|x l IH]; intros [|i]; cbn; [done..|]. f_equal. apply IH. Qed.

(** The media that goes on, and what is left *)
Lemma update_active_media_media d extra next s s' i m m' :
  ids_ok ((media_id <$> state s) ++ extra) next -> state s !! i = Some m -> update_active_media d (media_id m) s = Ret s' ->
  state s' !! i = Some m' ->
  m' = set_direction d m /\ delete i (state s') = delete i (state s) /\ transports s' = transports s /\ local_media s' = local_media s.
Proof.
  intros Hids Hi. unfold update_active_media. intros H Hi'. rewrite (ids_ok_position _ _ _ _ _ Hids Hi) in H. cbn in H.
  rewrite Hi in H. cbn in H. injection H as <-. case_decide as Hd.
  - rewrite Hi in Hi'. injection Hi' as <-. split; [subst d; by destruct m|done].
  - cbn in *. rewrite list_lookup_alter_eq, Hi in Hi'. injection Hi' as <-. split; [done|]. split; [apply delete_alter|done].
Qed.

Lemma get_or_create_transport_found r new offer desc s o s' :
  get_or_create_transport r new offer desc s = Ret (Ok o, s') ->
  state s' = state s /\ local_media s' = local_media s /\
  (forall k e, slots_get (transports s) k = Some e -> slots_get (transports s') k = Some e) /\
  (o = None -> supported (Media.proto (MediaDescription.media desc)) = false).
Proof using SML.
  unfold get_or_create_transport. destruct (mbind _ _); [by intros [= <- <-]|]. intros H. bind_inv H. destruct x as [[t st] change].
  destruct t as [[t|]|e]; [| |done]; injection H as <- <-.
  - split; [done|]. split; [done|]. split; [|done]. intros k e Hk. cbn. rewrite slots_get_insert. case_decide as E; [|done].
    subst k. by rewrite slots_get_next in Hk.
  - split; [done|]. split; [done|]. split; [done|]. intros _. unfold create_from_offer in Hx. do 2 bind_inv Hx.
    destruct x0 as [rtp rtcp]. bind_inv Hx. destruct x0 as [agent st1]. bind_inv Hx. destruct x0 as [k st2].
    assert (k = Ok None) as -> by (destruct k as [[k|]|]; by simplify_eq).
    unfold kind_for_offer in Hx3. destruct (Media.proto _); try done; bind_inv Hx3.
    + by destruct x0 as [[[? ?] ?]|].
    + by destruct x0 as [[[? ?] ?]|].
    + destruct x0 as [[?|?] ?]; by simplify_eq.
    + destruct x0 as [[?|?] ?]; by simplify_eq.
Qed.

Lemma receive_offer_line_spec r ssrc now offer desc new left uses extra s si entry new' si' :
  (forall m, m ∈ left -> built (transports s) (media_transport m)) -> during s left uses si ->
  ids_ok ((media_id <$> left) ++ extra) (next_media_id si) ->
  receive_offer_line r ssrc now offer desc new si = Ret (Ok (entry, new'), si') ->
  exists o l left' uses', new' = new ++ l /\ entry_for new' desc o entry /\ sublist left' left /\ during s left' uses' si' /\
    forall descs os, lines s left' uses' descs os -> lines s left uses (desc :: descs) (o :: os).
Proof using SML SLML.
  intros Hbuilt Hduring Hids. pose proof Hduring as (Hleft & Hts & Hlm). unfold receive_offer_line. intros H. bind_inv H.
  apply position_exec_spec in Hx. rewrite Hleft in *. destruct x as [i|].
  - destruct Hx as [(m & Hi & Hm) Hbefore]. do 3 bind_inv H. apply unwrap_Ret in Hx, Hx1. rewrite Hi in Hx. injection Hx as <-.
    injection H as <- <- <-. rewrite <-Hleft in Hids, Hi.
    destruct (update_active_media_media _ _ _ _ _ _ _ _ Hids Hi Hx0 Hx1) as (-> & Hdel & Ht & Hl). rewrite Hleft in Hdel, Hi.
    eexists (Some (set_direction (opposite (bools_of (MediaDescription.direction desc))) m)), [_], (delete i left), uses.
    rewrite <-bools_of_flipped. split; [done|]. split.
    { split; [apply elem_of_app; right; by apply list_elem_of_singleton|done]. }
    split; [apply sublist_delete|]. split.
    { split; [done|]. cbn. by rewrite Ht, Hl. }
    intros descs os. rewrite bools_of_flipped. apply LineKnown; [done| |].
    + apply (matches_identifies s si desc m true); [|done|done]. apply Hbuilt. by eapply list_elem_of_lookup_2.
    + apply Forall_forall. intros m' Hin. rewrite Forall_forall in Hbefore. specialize (Hbefore _ Hin).
      apply (matches_identifies s si desc m' false); [|done|done]. apply Hbuilt. by eapply subseteq_take.
  - assert (Forall (fun m' => ~ identifies s desc m') left) as Hnone.
    { apply Forall_forall. intros m' Hin. rewrite Forall_forall in Hx. apply (matches_identifies s si desc m' false); [by apply Hbuilt|done|by apply Hx]. }
    bind_inv H. destruct x as [chosen lm].
    apply find_local_media_spec in Hx0; [|intros k l; by rewrite slots_get_iter].
    destruct chosen as [[k [[codec pt] d]]|].
    + destruct Hx0 as (l & Hl & Hs & Hc & -> & Hlm'). pose proof (during_use _ _ _ _ _ _ _ Hduring Hl Hlm') as Hd'.
      rewrite Hlm in Hl. destruct (step_media_id _) as [id s1] eqn:Hid. injection Hid as <- <-. bind_inv H. destruct x as [t s2].
      destruct t as [[t|]|e]; [| |done]; injection H as <- <- <-;
        apply get_or_create_transport_found in Hx0 as (Hst & Hloc & Htr & Hsup).
      * eexists (Some _), [_], left, (uses ++ [k]). split; [done|].
        split; [split; [apply elem_of_app; right; by apply list_elem_of_singleton|done]|]. split; [done|].
        split; [destruct Hd' as (? & ? & ?); split; [cbn in *; congruence|split; [naive_solver|cbn in *; congruence]]|].
        intros descs os. by eapply LineNew.
      * exists None, [], left, (uses ++ [k]). rewrite app_nil_r. do 3 (split; [done|]).
        split; [destruct Hd' as (? & ? & ?); split; [cbn in *; congruence|split; [naive_solver|cbn in *; congruence]]|].
        intros descs os. eapply LineUnsupported; eauto.
    + destruct Hx0 as [Hno Hsame]. injection H as <- <- <-. exists None, [], left, uses. rewrite app_nil_r. do 3 (split; [done|]).
      split; [split; [done|split; [done|]]; intros k; cbn; by rewrite Hsame|]. intros descs os. apply LineUnsuited; [done|].
      intros k l Hl. apply (Hno k). apply slots_get_iter. by rewrite Hlm.
Qed.

Lemma entry_for_mono ms l desc o entry : entry_for ms desc o entry -> entry_for (ms ++ l) desc o entry.
Proof. destruct o; [|done]. intros [? ?]. split; [|done]. apply elem_of_app. by left. Qed.

(** Ports are set, in any order. *)
Inductive ports : SdpSession -> SdpSession -> Prop :=
| PortsDone s : ports s s
| PortsSet k ips rtp rtcp s s' s'' : set_transport_ports k ips rtp rtcp s = Ret s' -> ports s' s'' -> ports s s''.
Definition ported s : Prop :=
  forall k t, slots_get (transports s) k = Some (EntryTransport t) -> is_Some (local_rtp_port t).

Lemma ports_kept s s' : ports s s' -> wf s -> wf s' /\ state s' = state s.
Proof using SML.
  induction 1 as [|k ips rtp rtcp s s' s'' H Hp IH]; [done|]. intros Hwf. destruct IH as [Hwf' Hs].
  - eapply frame_wf; [by eapply set_transport_ports_frame|done].
  - split; [done|]. rewrite Hs. unfold set_transport_ports in H. bind_inv H. by injection H as <-.
Qed.

Lemma receive_offer_lines_spec rnd now offer descs new left uses extra response s si response' new' si' :
  (forall m, m ∈ left -> built (transports s) (media_transport m)) -> during s left uses si ->
  ids_ok ((media_id <$> new ++ left) ++ extra) (next_media_id si) -> 0 <= next_media_id si ->
  next_media_id si + Z.of_nat (length descs) < 2 ^ 32 ->
  receive_offer_lines rnd now offer descs new response si = Ret (Ok (response', new'), si') ->
  (exists l, new' = new ++ l) /\ exists entries os, response' = response ++ entries /\ lines s left uses descs os /\
    Forall3 (entry_for new') descs os entries.
Proof using SML SLML.
  revert new left uses response si. induction descs as [|desc descs IH]; intros new left uses response si Hbuilt Hduring Hids Hn Hlen;
    cbn [receive_offer_lines].
  - intros [= <- <- <-]. split; [exists []; by rewrite app_nil_r|]. exists [], []. rewrite app_nil_r.
    split; [done|]. split; [apply LinesDone|constructor].
  - destruct (rnd _) as [r ssrc]. intros H. bind_inv H. destruct x as [[[entry new1]|e] s1]; [|done]. cbn in Hlen.
    pose proof Hduring as (Hleft & _ & _).
    assert (ids_ok ((media_id <$> new ++ state si) ++ extra) (next_media_id si)) as Hids' by by rewrite Hleft.
    pose proof Hx as (Hn1 & _ & Hids1)%(receive_offer_line_ids _ _ _ _ _ _ extra); [|done|lia].
    eapply receive_offer_line_spec in Hx as (o & l & left' & uses' & -> & Hentry & Hsub & Hduring' & Hlines); [|done|done|].
    2:{ eapply ids_ok_submseteq; [|exact Hids]. rewrite fmap_app, <-app_assoc. by apply submseteq_inserts_l. }
    pose proof Hduring' as (Hleft' & _ & _). rewrite Hleft' in Hids1.
    eapply IH in H as ([l' ->] & entries & os & -> & Hall & Hentries); [|intros m Hm; apply Hbuilt; by eapply sublist_subseteq|done|done|lia|lia].
    split; [exists (l ++ l'); by rewrite app_assoc|]. exists (entry :: entries), (o :: os).
    split; [by rewrite <-app_assoc|]. split; [by apply Hlines|]. constructor; [|done]. by apply entry_for_mono.
Qed.

Lemma answer_description_spec s desc o entry extra next :
  wf s -> ids_ok ((media_id <$> state s) ++ extra) next -> ported s -> entry_for (state s) desc o entry ->
  exists answered, answer_description s entry = Ret answered /\ describes desc o answered.
Proof.
  intros [Ha _] Hids Hported Hentry. destruct o as [m|]; cbn [entry_for] in Hentry.
  - destruct Hentry as [Hin ->]. cbn [answer_description]. pose proof Hin as (i & Hi)%list_elem_of_lookup.
    rewrite (ids_ok_position _ _ _ _ _ Hids Hi). cbn. rewrite Hi. cbn.
    destruct (Ha m Hin) as [[t Ht] _]. destruct (Hported _ _ Ht) as [port Hport].
    destruct (media_description_for_active m None s) as [answered|] eqn:E.
    + exists answered. split; [done|]. apply description_for_active in E as (Ht' & Hf & Hd & Hm & Hr).
      unfold describes. rewrite Ht', Hf, Hd, Hm, Hr. cbn [default]. by rewrite bools_of_direction.
    + unfold media_description_for_active in E. rewrite Ht in E. cbn in E. by rewrite Hport in E.
  - rewrite Hentry. by eexists.
Qed.

(** C8: what becomes of each line of an offer, in any session got to by operations in which the counter
    of media does not wrap around and the answers received identify each line by a mid of its own. Once
    the transports have their ports the answer is made, with a line for each line of the offer in the
    same order. A line about a media there is, the first one it identifies, is answered by that media
    with the direction of the offer turned round. Any other line is taken by a local media that has a
    codec and a direction in common with it and is not used up: a new media with the mid of the line,
    that sends what both the local media sends and the offerer receives, and the other way round. A line
    is refused (port 0, inactive, its own mid) when no local media suits it; it may also be when one does
    and the protocol is not supported, which then counts as a use of the local media all the same. *)
Theorem answer_mirrors_offer rnd now offer s response s1 s2 :
  orderly_reachable s ->
  next_media_id s + Z.of_nat (length (SessionDescription.media_descriptions offer)) < 2 ^ 32 ->
  receive_sdp_offer rnd now offer s = Ret (Ok response, s1) ->
  ports s1 s2 -> ported s2 ->
  exists answer os, create_sdp_answer response s2 = Ret answer /\
    lines s (state s) [] (SessionDescription.media_descriptions offer) os /\
    Forall3 describes (SessionDescription.media_descriptions offer) os (SessionDescription.media_descriptions answer).
Proof using SML SLML.
  intros [Hreach Hids]%orderly_ids Hlen Hoffer Hports Hported. pose proof (session_reachable_wf _ Hreach) as Hwf.
  pose proof (receive_sdp_offer_wf _ _ _ _ _ _ Hwf Hoffer) as Hwf1.
  pose proof (receive_sdp_offer_ids _ _ _ _ _ _ Hids Hlen Hoffer) as [Hids2 _].
  destruct (ports_kept _ _ Hports Hwf1) as [Hwf2 Hs2]. rewrite <-Hs2 in Hids2.
  unfold receive_sdp_offer in Hoffer. bind_inv Hoffer. destruct x as [[[response' new]|e] s0]; [|done].
  bind_inv Hoffer. injection Hoffer as <- <-.
  eapply (receive_offer_lines_spec _ _ _ _ [] (state s) []) in Hx as (_ & entries & os & -> & Hlines & Hall);
    [|intros m Hm; by apply (refs_active _ _ _ _ Hwf)| |apply Hids|apply Hids|done].
  2:{ split; [done|]. split; [done|]. intros k. unfold used. cbn. by destruct (slots_get _ _). }
  assert (state s2 = new) as Hstate by (rewrite Hs2; cbn; by apply remove_all_kept in Hx0 as (-> & _)).
  rewrite <-Hstate in Hall. clear -Hwf2 Hids2 Hported Hall Hlines.
  assert (exists descs, exec_map (answer_description s2) entries = Ret descs /\
            Forall3 describes (SessionDescription.media_descriptions offer) os descs) as (descs & Hdescs & Hall').
  { clear Hlines. induction Hall as [|desc o entry descs os entries Hentry Hall IH]; [exists []; by split; [|constructor]|].
    destruct (answer_description_spec _ _ _ _ _ _ Hwf2 Hids2 Hported Hentry) as (answered & Ha & Hm).
    destruct IH as (rest & Hrest & Hall'). exists (answered :: rest). cbn. rewrite Ha. cbn. rewrite Hrest. by split; [|constructor]. }
  unfold create_sdp_answer. cbn [app]. rewrite Hdescs. cbn. eauto.
Qed.

(** ** Media that is to be removed *)
Lemma override_direction_app id cs c :
  (forall d, c <> ChangeDirection id d) -> override_direction id (cs ++ [c]) = override_direction (K := K) (LK := LK) id cs.
Proof.
  intros Hc. unfold override_direction. rewrite foldl_app. cbn. destruct c as [|?|id' d]; try done.
  case_decide as E; [|done]. subst. by destruct (Hc d).
Qed.
Lemma exec_map_ext {X Y} (f g : X -> exec Y) l : (forall x, f x = g x) -> exec_map f l = exec_map g l.
Proof. intros H. induction l as [|x l IH]; cbn; [done|]. by rewrite H, IH. Qed.

Lemma create_sdp_offer_remove id s : create_sdp_offer (remove_media id s) = create_sdp_offer s.
Proof.
  unfold remove_media. case_match; [|done]. unfold create_sdp_offer.
  assert (forall c, (forall p, c <> AddMedia p) -> pending_added (set_pending_changes (pending_changes s ++ [c]) s) = pending_added s) as Hadd.
  { intros c Hc. unfold pending_added. cbn. rewrite omap_app. destruct c as [p| |]; [by destruct (Hc p)| |]; cbn; by rewrite app_nil_r. }
  rewrite (Hadd (RemoveMedia id)) by done. cbn [state set_pending_changes].
  rewrite (exec_map_ext _ (fun m => media_description_for_active m (override_direction (media_id m) (pending_changes s)) s)).
  2:{ intros m. cbn [pending_changes set_pending_changes]. by rewrite override_direction_app. }
  rewrite (exec_map_ext _ (fun p => pending_description p s)) by done.
  destruct (exec_map _ (state s)) as [cur|]; [|done]. cbn. destruct (exec_map _ (pending_added s)) as [added|]; [|done]. cbn.
  unfold session_description, build_bundle_groups, bundle_groups. cbn. by rewrite foldl_app.
Qed.

(** An answer removes no media. *)
Lemma receive_answer_line_ids r ssrc now answer desc s s' :
  receive_answer_line r ssrc now answer desc s = Ret s' -> exists l, media_id <$> state s' = (media_id <$> state s) ++ l.
Proof using SML SLML.
  unfold receive_answer_line. case_decide; [intros [= <-]; exists []; by rewrite app_nil_r|]. intros H1. bind_inv H1.
  destruct x as [i|].
  - bind_inv H1. apply update_active_media_frame in H1 as [[Hs _ _ _ _] _]. exists []. rewrite app_nil_r. by apply skel_ids.
  - bind_inv H1. destruct x as [i|]; [|injection H1 as <-; exists []; by rewrite app_nil_r]. bind_inv H1.
    unfold receive_added in H1. do 4 bind_inv H1. destruct x3 as [config local]. bind_inv H1. destruct x3 as [[codec pt] d].
    injection H1 as <-. apply build_transport_frame in Hx3 as (_ & Hs & _). eexists. cbn. by rewrite fmap_app, Hs.
Qed.
Lemma receive_answer_lines_extend rnd i now answer descs s s' :
  receive_answer_lines rnd i now answer descs s = Ret s' -> exists l, media_id <$> state s' = (media_id <$> state s) ++ l.
Proof using SML SLML.
  revert i s. induction descs as [|desc descs IH]; intros i s; cbn; [intros [= <-]; exists []; by rewrite app_nil_r|].
  intros H. bind_inv H. apply receive_answer_line_ids in Hx as [l Hl]. apply IH in H as [l' Hl']. exists (l ++ l').
  by rewrite Hl', Hl, app_assoc.
Qed.

(** a removal that is asked for is never made: the offer is the one without it,
    and after the answer, whatever it says, the media is still there and the
    request is forgotten. *)
Theorem removed_media_stays rnd now answer id m s s' :
  m ∈ state s -> media_id m = id ->
  create_sdp_offer (remove_media id s) = create_sdp_offer s /\
  (receive_sdp_answer rnd now answer (remove_media id s) = Ret s' ->
     pending_changes s' = [] /\ exists m', m' ∈ state s' /\ media_id m' = id).
Proof using SML SLML.
  intros Hin Hid. split; [apply create_sdp_offer_remove|]. unfold receive_sdp_answer. intros H. bind_inv H. injection H as <-.
  split; [done|]. apply receive_answer_lines_extend in Hx as [l Hl]. cbn.
  assert (id ∈ media_id <$> state x) as (m' & -> & Hm')%list_elem_of_fmap; [|by exists m'].
  rewrite Hl. apply elem_of_app. left. apply list_elem_of_fmap. exists m. split; [done|]. unfold remove_media. by case_match.
Qed.
End offer_props.

Import MediaKeysProps.Toy.

(** The offerer and the answerer of MediaToy: the answerer has its codecs in
    another order, and only receives. *)
Lemma negotiation_agrees_witness :
  exists ca la', LocalMedia.choose_codec_from_answer (line_of answer) (local_of offerer3) =
    Ret (Some (ca, 0, {| send := true; recv := false |}), la') /\ ca ∈ Codecs.codecs (LocalMedia.codecs (local_of offerer3)) /\
    matches_answer (transports offerer3) (line_of answer) asked = Ret true.
Proof.
  destruct (negotiation_agrees asked offerer3 answerer3 (line_of offer) (local_of offerer3) (local_of answerer1)
              ((local_of answerer1) <| LocalMedia.use_count := 1 |>) (static_codec "PCMU" 8000 0) 0
              {| send := false; recv := true |} 0 1000 0 0%nat 0%nat false (line_of answer)) as (ca & la' & H1 & H2 & _ & H3).
  - vm_compute. reflexivity.
  - vm_compute. reflexivity.
  - apply (bool_decide_unpack _). vm_compute. exact I.
  - intros _. vm_compute. exact I.
  - intros _. vm_compute. exact I.
  - apply (bool_decide_unpack _). vm_compute. exact I.
  - vm_compute. reflexivity.
  - vm_compute. reflexivity.
  - exists ca, la'. split; [exact H1|]. split; [exact H2|]. rewrite H3. vm_compute. reflexivity.
Defined.

Lemma answer_mirrors_offer_witness :
  exists answer os, create_sdp_answer response answerer3 = Ret answer /\
    lines answerer1 (state answerer1) [] (SessionDescription.media_descriptions offer) os /\
    Forall3 describes (SessionDescription.media_descriptions offer) os (SessionDescription.media_descriptions answer).
Proof.
  apply (answer_mirrors_offer (toy_rnd x02) 0 offer answerer1 response answerer2 answerer3).
  - exists (IpV4 2), (toy_options Rtp), 2, 2. apply (relations.rtc_l _ _ answerer1); [|apply relations.rtc_refl].
    exists (OpLocalMedia audio_reversed 5 Direction.RecvOnly). split; [exact I|reflexivity].
  - vm_compute. reflexivity.
  - exact answered_eq.
  - eapply PortsSet; [exact answerer3_eq|]. apply PortsDone.
  - intros k t H%slots_get_iter.
    assert (forallb (fun ke => match ke.2 with EntryTransport t => if local_rtp_port t is Some _ then true else false | _ => true end)
              (slots_iter (transports answerer3)) = true) as Hall by (vm_compute; reflexivity).
    rewrite forallb_forall in Hall. apply list_elem_of_In, Hall in H. cbn in H. destruct (local_rtp_port t); [eauto|discriminate H].
Defined.

(** The media of the offerer, once it has got its answer *)
Lemma removed_media_stays_witness :
  exists m, state offerer4 = [m] /\ create_sdp_offer (remove_media (media_id m) offerer4) = create_sdp_offer offerer4 /\
    existsb is_add_media (pending_changes (remove_media (media_id m) offerer4)) = false /\
    length (pending_changes (remove_media (media_id m) offerer4)) = 1%nat.
Proof.
  assert (length (state offerer4) = 1%nat) as Hl by (vm_compute; reflexivity).
  destruct (state offerer4) as [|m [|]] eqn:E; try discriminate Hl. exists m. split; [reflexivity|].
  split.
  - apply (removed_media_stays (toy_rnd x03) 0 answer (media_id m) m offerer4 offerer4); [rewrite E; left|reflexivity].
  - unfold remove_media. rewrite E. cbn [existsb]. unfold has_id. rewrite bool_decide_eq_true_2 by reflexivity.
    split; vm_compute; reflexivity.
Defined.
